(* ===== verification/_CoqProject ===== *)
-Q . S2P
Prelude.v
Utils.v
IntegerOps.v
MagicDivision.v
StringHash.v
Range.v
RangeSound.v
RangeExample.v
RangeOps.v
RangeInfer.v
RangeSymbols.v
RangeJoin.v
RangeTheorems.v
RangeRedundant.v
RangeCounterexamples.v
ParallelMove.v
ParallelMoveProps.v
ParallelMoveSpec.v
BitVector.v
BitVectorProps.v
BitVectorSpec.v
BitSet.v
FreeList.v
FreeListProps.v
FreeListSpec.v
FreeListSearch.v
FreeListClient.v
Random.v
Circular.v
HashMap.v
HashMapProps.v
HashMapRemove.v
HashMapRefine.v
PortSet.v
PortSetProps.v
PortSetSpec.v
MessageQueue.v
MessageQueueSpec.v
ThreadPool.v
ThreadPoolProps.v
MessageHandlerState.v
MessageHandler.v
MessageHandlerProps.v
MessageHandlerTask.v
MessageHandlerSystem.v
PortMap.v
PortMapProps.v
PriorityQueue.v
PriorityQueueProps.v
PriorityQueueSpec.v
Uri.v
UriProps.v
UriSpec.v
Unicode.v
UnicodeProps.v
UnicodeStrings.v
DataStream.v
DataStreamProps.v
RiscvEncoding.v
RiscvEncodingProps.v
RiscvState.v
RiscvAlu.v
RiscvAluProps.v
RiscvFloat.v
RiscvInterp.v
RiscvCompressed.v
RiscvInvariant.v
RiscvStateProps.v
RiscvExec.v
RiscvAssembler.v
RiscvDecode.v
RiscvAsmSim.v
RiscvAsmSimI.v
RiscvAsmSimX.v
RiscvAsmProgram.v
RiscvLabel.v
RiscvDecodeB.v
RiscvLabelProps.v
RiscvLabelLink.v
RiscvLabelRun.v
