(* ===== verification/Prelude.v ===== *)
(** * Verification of parts of the Dart virtual machine

    The Dart VM (directory [runtime/] of the SDK) compiles Dart functions to machine code
    and runs them in isolates that exchange messages.  This library models parts of it that
    can be understood without the layout of Dart objects and proves what makes them correct:

    - the RISC-V back end: the instruction encodings, the assembler with its labels, and the
      simulator that executes the code on other hosts and calls back into the VM;
    - the compiler: the ranges of integer definitions with which it removes bounds checks and
      overflow checks, division by constants, the resolver of parallel moves, bit vectors;
    - isolates: message queues, message handlers, the thread pool that runs their tasks, port
      sets and the port map through which messages are posted;
    - the heap: the free lists of the old space, with page protection;
    - platform services: integer utilities, hashing, a random number generator, a hash map
      and a priority queue over it, UTF-8 and UTF-16, streams of variable-length integers,
      URIs.

    ** Files and the sources they model

    - [Prelude] (this file): fixed-width integers ([wrapu], [wraps], [is_u], [is_s]), the
      operators of C++ in [cxx_scope], bit blasting, the [outcome] of C++ code (a result, a
      fatal error, undefined behaviour), counted loops, little-endian bytes.
    - [Utils], [IntegerOps]: [platform/utils.h] and [.cc], and [Integer::ArithmeticOp],
      [BitOp] and [ShiftOp] of [vm/object.cc].  [MagicDivision]: division by constants as
      the x64 back end emits it.  [StringHash]: [Utils::StringHash].
    - [Range], [RangeInfer]: [RangeBoundary], [Range] and [InferRange] of
      [compiler/backend/range_analysis.cc]; a definition of the flow graph is an entry of a
      table of operations.  [RangeSound], [RangeOps], [RangeSymbols], [RangeJoin],
      [RangeTheorems], [RangeRedundant]: soundness with respect to the values of
      definitions in any execution; [RangeExample], [RangeCounterexamples]: concrete graphs.
    - [ParallelMove], [ParallelMoveProps], [ParallelMoveSpec]: the resolver of
      [compiler/backend/parallel_move_resolver.cc].
    - [BitVector], [BitVectorProps], [BitVectorSpec]: [vm/bit_vector.h] and [.cc];
      [BitSet]: [vm/bit_set.h].
    - [FreeList]: [vm/heap/freelist.h] and [.cc] on a memory of words with page protection;
      [FreeListProps], [FreeListSpec], [FreeListSearch]: blocks and chains, splitting, the
      searches and every operation; [FreeListClient]: sequences of requests, with
      [TryAllocateDataBumpLocked] of [vm/heap/pages.cc].
    - [Random]: [vm/random.cc]; the generator, and its compare-and-swap loop as a step
      relation between threads.
    - [Circular]: distances in a table searched circularly.  [HashMap], [HashMapProps],
      [HashMapRemove], [HashMapRefine]: [SimpleHashMap] of [platform/hashmap.cc].  The table
      is a list of entries, an [Entry*] an index; the match function of the client is a
      parameter.
    - [PriorityQueue], [PriorityQueueProps], [PriorityQueueSpec]:
      [platform/priority_queue.h], over an interface of the map it uses, which
      [SimpleHashMap] implements.
    - [PortSet], [PortSetProps], [PortSetSpec]: [vm/port_set.h].
    - [MessageQueue], [MessageQueueSpec]: [vm/message.h] and [.cc].
    - [ThreadPool], [ThreadPoolProps]: [vm/thread_pool.h] and [.cc]; the loop of the workers,
      blocking and [Shutdown] under every interleaving of the threads.
    - [MessageHandlerState], [MessageHandler]: [vm/message_handler.cc] and the resume
      capabilities of [vm/isolate.cc]; what other threads do while the monitor is released
      is a script.  [MessageHandlerProps], [MessageHandlerTask], [MessageHandlerSystem]: the
      task that the pool runs, and a system of threads.
    - [PortMap], [PortMapProps]: [vm/port.cc], over port sets and handlers.
    - [Uri], [UriProps], [UriSpec]: [vm/uri.cc].
    - [Unicode], [UnicodeProps], [UnicodeStrings]: [platform/unicode.cc], classes [Utf],
      [Utf8] and [Utf16] as modules.
    - [DataStream], [DataStreamProps]: the integer encodings of [vm/datastream.h].
    - [RiscvEncoding], [RiscvEncodingProps]: [vm/constants_riscv.h]; the enumerations, the
      immediates and register fields, classes [Instr] and [CInstr].
    - [RiscvState], [RiscvStateProps]: the state of class [Simulator]
      ([vm/simulator_riscv.h], [.cc]) as a record of the register files, the counters, the
      reservation, the mapped memory and the list of redirections.
    - [RiscvAlu], [RiscvAluProps], [RiscvFloat]: the arithmetic helpers of the simulator;
      floating point on bit patterns through the specification of the Standard Library.
    - [RiscvInterp], [RiscvCompressed]: [Interpret(Instr)] and [Interpret(CInstr)], one
      function per case or member, and the loop [ExecuteNoTrace].
    - [RiscvInvariant], [RiscvExec]: the invariant of the state and runs of the simulator.
    - [RiscvAssembler]: class [MicroAssembler] of [compiler/assembler/assembler_riscv.cc];
      an emitter is a function on the assembler's state that can fail an assertion.
    - [RiscvDecode], [RiscvDecodeB]: the fields of what the assembler
      emits, as the simulator decodes them.
    - [RiscvAsmSim], [RiscvAsmSimI], [RiscvAsmSimX], [RiscvAsmProgram]: the assembler
      against the simulator, for one instruction and for a program.
    - [RiscvLabel], [RiscvLabelProps], [RiscvLabelLink], [RiscvLabelRun]: class [Label] of
      [compiler/assembler/assembler_base.h], branches and jumps.

    The target ([RV32] or [RV64]), whether assertions are compiled in, the host's NaN
    payloads, the host functions behind redirections, the size of pages and the signedness
    of [char] are type classes ([Target], [Debug], [HostFPU], [Host], [PageSize],
    [CharType]): the theorems hold for all of them.  Elsewhere words have 64 bits.

    ** What the theorems show

    - Ranges.  If the ranges of the operands contain their values then so does the range
      that the analysis infers ([InferRange_sound], which lists the cases that it leaves out,
      [branch_constraints_sound]), no overflow check is dropped that can fail
      ([can_overflow_sound]), a bounds check that is removed cannot fail
      ([redundant_check_sound]) when the ranges hold, and any sequence of widenings changes a
      range at most four times ([widening_terminates]).
    - Code generation.  [magic_division] equals the division of [IntegerOps];
      [Resolve_correct] says that a schedule of moves and swaps has the effect of all moves
      at once; the operations of bit vectors and bit sets are those of sets.
    - Isolates.  Queues and port sets refine lists and finite maps
      ([message_queue_refines], [port_set_refines]); whenever a handler has a message that
      it may handle its task is in the pool exactly once ([handler_no_lost_wakeup]) and
      running it drains the queues ([handler_progress]), both with what a failing start
      callback leaves of that; the port map agrees with the port sets of the handlers
      ([port_map_invariant]).
    - Thread pool.  Under every interleaving no assertion fails and no task or worker is lost
      or used twice ([pool_invariant]); while tasks are pending a worker can go on, without
      spurious wakeups, and every step decreases a measure ([pool_progress]); shutting down
      ends, with all tasks done and all workers joined ([pool_shutdown]).
    - Free lists.  [rep] relates the state to the lists of free blocks; every operation
      keeps it.  Blocks in use, the bump region and free blocks partition the memory under
      any sequence of requests, and memory in use keeps its contents ([freelist_safe]).
      With protected pages exactly the pages of the allocated block become writable
      ([TryAllocateLocked_spec]).
    - URIs.  Parsing inverts building ([uri_roundtrip]); resolution is that of RFC 3986
      ([ResolveUri_rfc], [RemoveDotSegments_spec], [NormalizeEscapes_spec]).
    - Simulator.  Every reachable state keeps every register, counter and byte within its
      C++ type and [ZR] at zero ([run_wf]); the loop implements the step relation
      ([ExecuteNoTrace_steps]); which instructions can have undefined behaviour
      ([undefined_instructions]); load-reserved and store-conditional ([lr_sc]).  The
      helpers are the operations of the instruction set manual.
    - Encodings.  Decoding inverts encoding for every immediate the predicates accept.
    - Assembler against simulator.  The relation [simulates a e f] says that the emitter
      [e] succeeds and that executing the two or four bytes it appends has the effect [f];
      the [asm_..] theorems establish it for the integer instructions, in both encodings.
      A function of such instructions, loads and stores included, assembled and run by the
      loop of the simulator, computes what its instructions mean and returns
      ([function_runs]).
    - Labels.  [pending] is the invariant of the lists of unresolved branches threaded
      through the code; binding the label resolves all of them so that the simulator goes to
      the label ([Bind_runs]).
    - Hash map and priority queue.  Any sequence of operations refines a finite map
      ([hashmap_refines], [priority_queue_refines]); the minimum is the least priority as
      long as nothing was removed by its value.
    - Unicode and streams.  [Decode] and [Encode] are inverse and nothing else is accepted
      ([utf8_roundtrip]); conversion of arrays ([utf8_valid], [utf8_to_utf16]); every
      integer is read back from a stream ([stream_roundtrip]).
    - Defects of the code that modelling showed are stated too: ranges that miss values
      ([join_misses_value]), a priority queue out of order ([RemoveByValue_breaks_order]),
      a start error that is forgotten ([start_error_forgotten]), a marker returned as a port
      ([AllocatePort_returns_marker]), branches out of range ([backward_branch_gap]), URIs
      with a query after the host ([ParseUri_authority_query]), and others beside them.

    ** Fuel and bounds

    Where the recursion is not structural it has fuel, and running out is an error value
    that the theorems exclude.  The loop of the simulator runs as long as the program: its
    fuel is an argument that [ExecuteNoTrace_steps] relates to the number of steps, and
    [function_runs] gives a fuel that is enough.  [Bind]
    takes any bound on the lengths of the lists of branches; [InferRange] and the
    canonicalization of symbols the depth of the graph; the resolver the number of moves;
    the priority queue the size of the heap; searches of hash tables and port sets the
    capacity of the table (a free entry is met before); [HandleMessages] the messages, posts
    and interrupts to come; [RemoveDotSegments] the length of the path; the searches of the
    free lists the search budget, which every step but the last two uses up.
    [hashmap_refines] is for up to [2 ^ 29] operations, which keep the doubled capacity
    within [uint32_t].  The theorems on the thread pool are for as many actions as keep its
    counts within 64 bits.

    ** Assumptions

    Allocation in the C++ heap does not fail.  Distinct locations of moves do not overlap.
    Code under a mutex or monitor is atomic; where a monitor is released the model says what
    can happen meanwhile: control messages in front of queues, no interrupts and no further
    live ports for handlers that are being deleted, a pool that is not shutting down, start
    callbacks that do not ask for a shutdown ([start_shutdown_assertion]).  The hook
    of the thread pool on becoming idle does nothing.
    Memory given to the free lists is mapped, and writable unless the allocation is told
    that it is protected.

    ** Not modelled

    Marking, sweeping, scavenging and compaction, the object model, the flow graph and its
    other passes, the kernel loader, snapshots, natives, regular expressions, the service,
    the profiler: they need the layout of objects or of the intermediate language.  The
    embedder's I/O: operating-system calls.  The assemblers and simulators of other targets.
    Of the parts above: class [Assembler] (macros over the object model), the floating-point
    and atomic emitters are modelled but not related to the simulator, case mapping, the
    buffers behind streams, [Simulator::Call] and the debugger of the simulator, entropy for
    the random number generator, printing.  Concurrency between simulators is left out:
    atomic instructions run without interference. *)
From stdpp Require Import base numbers list gmap strings.
From Stdlib Require Import ZArith Lia Btauto.
Local Open Scope Z_scope.

(** ** Fixed-width integers

    A C++ integer of width [w] is a [Z].  An unsigned value lies in
    [0, 2^w), a signed one in [-2^(w-1), 2^(w-1)).  [wrapu] is the conversion
    to the unsigned type of width [w] and [wraps] the conversion to the signed
    one (two's complement, as all compilers the VM supports do it). *)

Definition wrapu (w z : Z) : Z := z mod 2 ^ w.

Definition wraps (w z : Z) : Z := (z + 2 ^ (w - 1)) mod 2 ^ w - 2 ^ (w - 1).

(** [v] is a value of the unsigned (signed) [w]-bit type. *)
Definition is_u (w v : Z) : Prop := 0 <= v < 2 ^ w.
Definition is_s (w v : Z) : Prop := - 2 ^ (w - 1) <= v < 2 ^ (w - 1).

Declare Scope cxx_scope.
Delimit Scope cxx_scope with cxx.
Infix ".&" := Z.land (at level 40, left associativity) : cxx_scope.
Infix ".^" := Z.lxor (at level 45, left associativity) : cxx_scope.
Infix ".|" := Z.lor (at level 50, left associativity) : cxx_scope.
Infix "<<" := Z.shiftl (at level 38, left associativity) : cxx_scope.
Infix ">>" := Z.shiftr (at level 38, left associativity) : cxx_scope.
Local Open Scope cxx_scope.

Create HintDb wrap discriminated.
Create Rewrite HintDb wrap.
Create Rewrite HintDb bits.

Lemma pow2_pos w : 0 <= w -> 0 < 2 ^ w.
Proof. intros; apply Z.pow_pos_nonneg; lia. Qed.

Lemma pow2_half w : 0 < w -> 2 ^ w = 2 * 2 ^ (w - 1).
Proof.
  intros. replace w with (Z.succ (w - 1)) at 1 by lia.
  apply Z.pow_succ_r; lia.
Qed.

Lemma pow2_le a b : 0 <= a <= b -> 2 ^ a <= 2 ^ b.
Proof. intros; apply Z.pow_le_mono_r; lia. Qed.

Lemma wrapu_range w z : 0 <= w -> is_u w (wrapu w z).
Proof. intros; apply Z.mod_pos_bound, pow2_pos; done. Qed.

Lemma wrapu_id w z : is_u w z -> wrapu w z = z.
Proof. intros; by apply Z.mod_small. Qed.

Lemma wraps_range w z : 0 < w -> is_s w (wraps w z).
Proof.
  intros Hw. unfold is_s, wraps.
  pose proof (Z.mod_pos_bound (z + 2 ^ (w - 1)) (2 ^ w) (pow2_pos w ltac:(lia))).
  rewrite (pow2_half w) in * by lia. lia.
Qed.

Lemma wraps_id w z : 0 < w -> is_s w z -> wraps w z = z.
Proof.
  intros Hw [??]. unfold wraps. rewrite Z.mod_small; [lia|].
  rewrite (pow2_half w) by lia. lia.
Qed.

Lemma wrapu_idemp w z : wrapu w (wrapu w z) = wrapu w z.
Proof. apply Zmod_mod. Qed.

Lemma wrapu_add_l w a b : wrapu w (wrapu w a + b) = wrapu w (a + b).
Proof. apply Zplus_mod_idemp_l. Qed.

Lemma wrapu_add_r w a b : wrapu w (a + wrapu w b) = wrapu w (a + b).
Proof. apply Zplus_mod_idemp_r. Qed.

Lemma wrapu_sub_l w a b : wrapu w (wrapu w a - b) = wrapu w (a - b).
Proof. apply Zminus_mod_idemp_l. Qed.

Lemma wrapu_sub_r w a b : wrapu w (a - wrapu w b) = wrapu w (a - b).
Proof. apply Zminus_mod_idemp_r. Qed.

Lemma wrapu_mul_l w a b : wrapu w (wrapu w a * b) = wrapu w (a * b).
Proof. apply Zmult_mod_idemp_l. Qed.

Lemma wrapu_mul_r w a b : wrapu w (a * wrapu w b) = wrapu w (a * b).
Proof. apply Zmult_mod_idemp_r. Qed.

Lemma wraps_wrapu w z : wraps w (wrapu w z) = wraps w z.
Proof. unfold wraps, wrapu. by rewrite Zplus_mod_idemp_l. Qed.

Lemma wrapu_wraps w z : wrapu w (wraps w z) = wrapu w z.
Proof.
  unfold wraps, wrapu. rewrite Zminus_mod_idemp_l. f_equal. lia.
Qed.

Lemma wraps_eq_wrapu w a b : wrapu w a = wrapu w b -> wraps w a = wraps w b.
Proof. intros E. by rewrite <- (wraps_wrapu w a), E, wraps_wrapu. Qed.

Lemma wrapu_eq_wraps w a b : wraps w a = wraps w b -> wrapu w a = wrapu w b.
Proof. intros E. by rewrite <- (wrapu_wraps w a), E, wrapu_wraps. Qed.

(** Narrowing after widening: a conversion to a narrower type only looks at the
    low bits. *)
Lemma wrapu_wrapu_le v w z : 0 <= v <= w -> wrapu v (wrapu w z) = wrapu v z.
Proof.
  intros ?. unfold wrapu. apply Z.mod_mod_divide.
  exists (2 ^ (w - v)). rewrite <- Z.pow_add_r by lia. f_equal; lia.
Qed.

Lemma wraps_wrapu_le v w z : 0 <= v <= w -> wraps v (wrapu w z) = wraps v z.
Proof. intros. apply wraps_eq_wrapu. by apply wrapu_wrapu_le. Qed.

Lemma wrapu_wraps_le v w z : 0 <= v <= w -> wrapu v (wraps w z) = wrapu v z.
Proof.
  intros. rewrite <- (wrapu_wrapu_le v w) by done.
  by rewrite wrapu_wraps, wrapu_wrapu_le.
Qed.

Lemma wraps_wraps_le v w z : 0 <= v <= w -> wraps v (wraps w z) = wraps v z.
Proof. intros. apply wraps_eq_wrapu. by apply wrapu_wraps_le. Qed.

(** The signed view of an unsigned value, by cases on the sign bit. *)
Lemma wraps_of_u w v :
  0 < w -> is_u w v ->
  wraps w v = if v <? 2 ^ (w - 1) then v else v - 2 ^ w.
Proof.
  intros Hw [??]. pose proof (pow2_half w Hw). unfold wraps.
  destruct (Z.ltb_spec v (2 ^ (w - 1))).
  - rewrite Z.mod_small by lia. lia.
  - rewrite <- (Z.mod_unique_pos (v + 2 ^ (w - 1)) (2 ^ w) 1 (v - 2 ^ (w - 1)));
      lia.
Qed.

Lemma wrapu_of_s w v :
  0 < w -> is_s w v -> wrapu w v = if v <? 0 then v + 2 ^ w else v.
Proof.
  intros Hw [??]. pose proof (pow2_half w Hw). unfold wrapu.
  destruct (Z.ltb_spec v 0).
  - symmetry. apply (Z.mod_unique_pos v (2 ^ w) (-1)); lia.
  - apply Z.mod_small; lia.
Qed.

#[export] Hint Rewrite wrapu_add_l wrapu_add_r wrapu_sub_l wrapu_sub_r
  wrapu_mul_l wrapu_mul_r wrapu_idemp wraps_wrapu wrapu_wraps : wrap.
#[export] Hint Resolve wrapu_range wraps_range : wrap.

(** ** Bits of fixed-width integers *)

Lemma testbit_wrapu w z i :
  0 <= w -> 0 <= i -> Z.testbit (wrapu w z) i = (i <? w) && Z.testbit z i.
Proof.
  intros. unfold wrapu. destruct (Z.ltb_spec i w).
  - by rewrite Z.mod_pow2_bits_low.
  - by rewrite Z.mod_pow2_bits_high by lia.
Qed.

Lemma testbit_wraps w z i :
  0 < w -> 0 <= i -> Z.testbit (wraps w z) i = Z.testbit z (Z.min i (w - 1)).
Proof.
  intros Hw Hi.
  destruct (Z.ltb_spec i w).
  - rewrite Z.min_l by lia.
    transitivity (Z.testbit (wrapu w (wraps w z)) i).
    + rewrite testbit_wrapu by lia. by rewrite (proj2 (Z.ltb_lt i w)).
    + rewrite wrapu_wraps, testbit_wrapu by lia.
      by rewrite (proj2 (Z.ltb_lt i w)).
  - rewrite Z.min_r by lia.
    rewrite <- (wraps_wrapu w z), wraps_of_u by auto using wrapu_range with lia.
    assert (Z.testbit z (w - 1) = Z.testbit (wrapu w z) (w - 1)) as ->.
    { rewrite testbit_wrapu by lia. by rewrite (proj2 (Z.ltb_lt (w - 1) w)) by lia. }
    pose proof (wrapu_range w z ltac:(lia)) as [??].
    pose proof (pow2_half w Hw). pose proof (pow2_le w i ltac:(lia)).
    set (v := wrapu w z) in *. clearbody v.
    rewrite (Z.testbit_eqb v (w - 1)) by lia.
    destruct (Z.ltb_spec v (2 ^ (w - 1))).
    + rewrite (Z.div_small v) by lia.
      rewrite Z.testbit_eqb by lia. by rewrite Z.div_small by lia.
    + assert (v / 2 ^ (w - 1) = 1) as ->.
      { symmetry. apply (Z.div_unique_pos _ _ _ (v - 2 ^ (w - 1))); lia. }
      rewrite Z.testbit_eqb by lia.
      assert ((v - 2 ^ w) / 2 ^ i = -1) as ->; [|done].
      symmetry. apply (Z.div_unique_pos _ _ _ (v - 2 ^ w + 2 ^ i)); lia.
Qed.

Lemma testbit_high w v i : is_u w v -> 0 <= w <= i -> Z.testbit v i = false.
Proof.
  intros ??. rewrite <- (wrapu_id w v) by done.
  rewrite testbit_wrapu by lia. by rewrite (proj2 (Z.ltb_ge i w)) by lia.
Qed.

Lemma wrapu_bits w a b :
  0 <= w ->
  (forall i, 0 <= i < w -> Z.testbit a i = Z.testbit b i) ->
  wrapu w a = wrapu w b.
Proof.
  intros ? H. apply Z.bits_inj'. intros i Hi. rewrite !testbit_wrapu by lia.
  destruct (Z.ltb_spec i w); [|done]. by rewrite H by lia.
Qed.

Lemma u_bits w a b :
  0 <= w -> is_u w a -> is_u w b ->
  (forall i, 0 <= i < w -> Z.testbit a i = Z.testbit b i) -> a = b.
Proof.
  intros. rewrite <- (wrapu_id w a), <- (wrapu_id w b) by done.
  by apply wrapu_bits.
Qed.

Lemma s_bits w a b :
  0 < w -> is_s w a -> is_s w b ->
  (forall i, 0 <= i < w -> Z.testbit a i = Z.testbit b i) -> a = b.
Proof.
  intros. rewrite <- (wraps_id w a), <- (wraps_id w b) by done.
  apply wraps_eq_wrapu, wrapu_bits; [lia|done].
Qed.

Lemma testbit_shiftl a n i :
  0 <= i -> Z.testbit (Z.shiftl a n) i = Z.testbit a (i - n).
Proof. apply Z.shiftl_spec. Qed.

Lemma testbit_lnot a i : 0 <= i -> Z.testbit (Z.lnot a) i = negb (Z.testbit a i).
Proof. intros; by apply Z.lnot_spec. Qed.

#[export] Hint Rewrite Z.land_spec Z.lor_spec Z.lxor_spec : bits.
#[export] Hint Rewrite testbit_shiftl Z.shiftr_spec testbit_lnot
  testbit_wrapu testbit_wraps using lia : bits.

Lemma lor_u w a b : 0 <= w -> is_u w a -> is_u w b -> is_u w (a .| b).
Proof.
  intros Hw Ha Hb. assert (a .| b = wrapu w (a .| b)) as ->; [|by apply wrapu_range].
  apply Z.bits_inj'. intros i Hi. rewrite testbit_wrapu by lia.
  destruct (Z.ltb_spec i w); [done|].
  rewrite Z.lor_spec, (testbit_high w a), (testbit_high w b) by (done || lia). done.
Qed.

Lemma shiftr_u w a n : 0 <= n -> is_u w a -> is_u w (a >> n).
Proof.
  intros Hn [??]. unfold is_u. rewrite Z.shiftr_div_pow2 by done.
  pose proof (pow2_pos n Hn). split; [by apply Z.div_pos|].
  eapply Z.le_lt_trans; [|done]. apply Z.div_le_upper_bound; nia.
Qed.

Lemma wrapu_lxor w a b : 0 <= w -> wrapu w (a .^ b) = wrapu w a .^ wrapu w b.
Proof.
  intros. apply Z.bits_inj'. intros i Hi.
  rewrite Z.lxor_spec, !testbit_wrapu, Z.lxor_spec by lia. by destruct (i <? w).
Qed.

Lemma shiftr_shiftl_lt a m n : 0 <= m <= n -> (a << m) >> n = a >> (n - m).
Proof.
  intros. apply Z.bits_inj'. intros i Hi.
  rewrite !Z.shiftr_spec, Z.shiftl_spec by lia. f_equal. lia.
Qed.

Lemma lor_add a b n : 0 <= n -> 0 <= b < 2 ^ n -> (a << n) .| b = a * 2 ^ n + b.
Proof.
  intros Hn Hb. rewrite <- Z.shiftl_mul_pow2, Z.add_nocarry_lxor, Z.lxor_lor; auto.
  all: apply Z.bits_inj'; intros i Hi; rewrite Z.land_spec, Z.shiftl_spec, Z.bits_0 by lia;
    destruct (Z.lt_ge_cases i n);
    [by rewrite (Z.testbit_neg_r _ (i - n)) by lia
    |by rewrite (testbit_high n b) by (done || lia); rewrite andb_false_r].
Qed.

Lemma land_u w x m : 0 <= w -> is_u w m -> is_u w (x .& m).
Proof.
  intros Hw Hm. assert (x .& m = wrapu w (x .& m)) as ->; [|by apply wrapu_range].
  apply Z.bits_inj'. intros i Hi. rewrite testbit_wrapu by lia.
  destruct (Z.ltb_spec i w); [done|].
  rewrite Z.land_spec, (testbit_high w m) by (done || lia). apply andb_false_r.
Qed.

Lemma u_narrow w n e :
  0 <= w <= n -> is_u n e -> (forall i, w <= i < n -> Z.testbit e i = false) -> is_u w e.
Proof.
  intros Hw He Hb. assert (e = wrapu w e) as ->; [|apply wrapu_range; lia].
  apply Z.bits_inj'. intros i Hi. rewrite testbit_wrapu by lia.
  destruct (Z.ltb_spec i w); [done|]. destruct (Z.lt_ge_cases i n); [apply Hb; lia|].
  apply (testbit_high n); [done|lia].
Qed.

(** A goal [forall i, 0 <= i < n -> P i] with [n] a numeral, one goal per [i]. *)
Lemma range_step (P : Z -> Prop) lo hi :
  P lo -> (forall i, lo + 1 <= i < hi -> P i) -> forall i, lo <= i < hi -> P i.
Proof.
  intros H0 H i Hi. destruct (decide (i = lo)) as [->|]; [done|].
  apply H; lia.
Qed.

Ltac enum_range :=
  match goal with
  | |- forall i, ?lo <= i < ?hi -> _ =>
      let l := eval vm_compute in (lo <? hi) in
      lazymatch l with
      | true =>
          apply range_step;
          [ | let n := eval vm_compute in (lo + 1) in
              change (lo + 1) with n; enum_range ]
      | false => let H := fresh in intros ? H; exfalso; lia
      end
  end.

(** A property of bytes, tested on all of them. *)
Lemma all_bytes (P : Z -> bool) :
  forallb P (map Z.of_nat (seq 0 256)) = true -> forall b, is_u 8 b -> P b = true.
Proof.
  intros H b Hb. rewrite forallb_forall in H. apply H.
  apply in_map_iff. exists (Z.to_nat b). unfold is_u in Hb. split; [lia|].
  apply in_seq. lia.
Qed.

(** ** Bit blasting at numeral indices

    [bit_norm] pushes [Z.testbit _ i], for a numeral [i], through the bit
    operations down to bits of variables; bits above the width of a variable
    (hypotheses [is_u w x]) and bits of numerals are evaluated. *)

Lemma testbit_shiftl_at a n i j :
  (0 <=? i) = true -> i - n = j -> Z.testbit (Z.shiftl a n) i = Z.testbit a j.
Proof. intros ?%Z.leb_le <-. by apply Z.shiftl_spec. Qed.

Lemma testbit_shiftr_at a n i j :
  (0 <=? i) = true -> i + n = j -> Z.testbit (Z.shiftr a n) i = Z.testbit a j.
Proof. intros ?%Z.leb_le <-. by apply Z.shiftr_spec. Qed.

Lemma testbit_lnot_at a i :
  (0 <=? i) = true -> Z.testbit (Z.lnot a) i = negb (Z.testbit a i).
Proof. intros ?%Z.leb_le. by apply Z.lnot_spec. Qed.

Lemma testbit_wrapu_lo w a i :
  (0 <=? i) && (i <? w) = true -> Z.testbit (wrapu w a) i = Z.testbit a i.
Proof.
  intros [?%Z.leb_le H]%andb_true_iff. rewrite testbit_wrapu, H; [done|lia..].
Qed.

Lemma testbit_wrapu_hi w a i :
  (0 <=? w) && (w <=? i) = true -> Z.testbit (wrapu w a) i = false.
Proof.
  intros [?%Z.leb_le ?%Z.leb_le]%andb_true_iff.
  apply testbit_high with w; auto using wrapu_range.
Qed.

Lemma testbit_wraps_at w a i j :
  (0 <? w) && (0 <=? i) = true -> Z.min i (w - 1) = j ->
  Z.testbit (wraps w a) i = Z.testbit a j.
Proof.
  intros [?%Z.ltb_lt ?%Z.leb_le]%andb_true_iff <-. by apply testbit_wraps.
Qed.

Lemma testbit_u_hi w x i :
  is_u w x -> (0 <=? w) && (w <=? i) = true -> Z.testbit x i = false.
Proof.
  intros ? [?%Z.leb_le ?%Z.leb_le]%andb_true_iff. by apply testbit_high with w.
Qed.

Lemma testbit_neg x i : (i <? 0) = true -> Z.testbit x i = false.
Proof. intros ?%Z.ltb_lt. by apply Z.testbit_neg_r. Qed.

Ltac bool_norm :=
  repeat first
    [ progress rewrite ?andb_true_r, ?andb_false_r, ?orb_false_r, ?orb_true_r,
        ?xorb_false_r
    | progress cbn [andb orb negb xorb] ].

Ltac bit_step :=
  match goal with
  | |- context [Z.testbit (Z.lor ?a ?b) ?i] => rewrite (Z.lor_spec a b i)
  | |- context [Z.testbit (Z.land ?a ?b) ?i] => rewrite (Z.land_spec a b i)
  | |- context [Z.testbit (Z.lxor ?a ?b) ?i] => rewrite (Z.lxor_spec a b i)
  | |- context [Z.testbit (Z.lnot ?a) ?i] =>
      rewrite (testbit_lnot_at a i) by reflexivity
  | |- context [Z.testbit (Z.shiftl ?a ?n) ?i] =>
      let j := eval vm_compute in (i - n) in
      rewrite (testbit_shiftl_at a n i j) by reflexivity
  | |- context [Z.testbit (Z.shiftr ?a ?n) ?i] =>
      let j := eval vm_compute in (i + n) in
      rewrite (testbit_shiftr_at a n i j) by reflexivity
  | |- context [Z.testbit (wrapu ?w ?a) ?i] =>
      first [ rewrite (testbit_wrapu_lo w a i) by reflexivity
            | rewrite (testbit_wrapu_hi w a i) by reflexivity ]
  | |- context [Z.testbit (wraps ?w ?a) ?i] =>
      let j := eval vm_compute in (Z.min i (w - 1)) in
      rewrite (testbit_wraps_at w a i j) by reflexivity
  | |- context [Z.testbit ?x ?i] =>
      lazymatch isZcst x with true => idtac end;
      let b := eval vm_compute in (Z.testbit x i) in
      change (Z.testbit x i) with b
  | |- context [Z.testbit ?x ?i] => rewrite (testbit_neg x i) by reflexivity
  | H : is_u ?w ?x |- context [Z.testbit ?x ?i] =>
      rewrite (testbit_u_hi w x i H) by reflexivity
  end.

Ltac bit_norm := repeat (bit_step; bool_norm); bool_norm.

(** ** Outcomes

    A piece of C++ code returns normally, ends the process through [FATAL] (or a
    fault of the host), or has undefined behaviour. *)

Inductive outcome (E A : Type) : Type :=
| Ok (a : A)
| Fatal (e : E)
| Undefined.
Arguments Ok {E A} a.
Arguments Fatal {E A} e.
Arguments Undefined {E A}.

#[export] Instance outcome_bind E : MBind (outcome E) := fun A B f x =>
  match x with
  | Ok a => f a
  | Fatal e => Fatal e
  | Undefined => Undefined
  end.

#[export] Instance outcome_ret E : MRet (outcome E) := fun A => Ok.

Lemma Ok_bind {E A B} (f : A -> outcome E B) (a : A) : Ok a ≫= f = f a.
Proof. reflexivity. Qed.

Lemma bind_ok {E A B} (f : A -> outcome E B) (x : outcome E A) b :
  x ≫= f = Ok b -> exists a, x = Ok a /\ f a = Ok b.
Proof. destruct x; [eauto|done..]. Qed.

Definition is_ok {E A} (x : outcome E A) : Prop :=
  match x with Ok _ => True | _ => False end.

(** [for (i = i0; i < i0 + n * step; i += step) acc = body(i, acc)]. *)
Fixpoint for_loop {A} (n : nat) (i step : Z) (body : Z -> A -> A) (acc : A) : A :=
  match n with
  | O => acc
  | S n => for_loop n (i + step) step body (body i acc)
  end.

(** A loop invariant for [for_loop]. *)
Lemma for_loop_inv {A} (P : nat -> A -> Prop) n i0 step body acc :
  P 0%nat acc ->
  (forall k a, (k < n)%nat -> P k a -> P (S k) (body (i0 + Z.of_nat k * step) a)) ->
  P n (for_loop n i0 step body acc).
Proof.
  revert P i0 acc. induction n as [|n IH]; intros P i0 acc H0 Hs; [done|].
  apply (IH (fun k => P (S k)) (i0 + step)).
  - specialize (Hs 0%nat acc ltac:(lia) H0).
    by replace (i0 + Z.of_nat 0 * step) with i0 in Hs by lia.
  - intros k a Hk Ha. specialize (Hs (S k) a ltac:(lia) Ha).
    by replace (i0 + Z.of_nat (S k) * step) with (i0 + step + Z.of_nat k * step)
      in Hs by lia.
Qed.

(** Two loops in lock step. *)
Lemma for_loop_rel {A B} (R : A -> B -> Prop) n i0 step f g a b :
  R a b ->
  (forall k a b, (k < n)%nat -> R a b ->
     R (f (i0 + Z.of_nat k * step) a) (g (i0 + Z.of_nat k * step) b)) ->
  R (for_loop n i0 step f a) (for_loop n i0 step g b).
Proof.
  revert i0 a b. induction n as [|n IH]; intros i0 a b H0 Hs; [done|].
  apply (IH (i0 + step)).
  - specialize (Hs 0%nat a b ltac:(lia) H0).
    by replace (i0 + Z.of_nat 0 * step) with i0 in Hs by lia.
  - intros k a' b' Hk HR. specialize (Hs (S k) a' b' ltac:(lia) HR).
    by replace (i0 + Z.of_nat (S k) * step) with (i0 + step + Z.of_nat k * step)
      in Hs by lia.
Qed.

(** ** Bytes, little endian *)

Fixpoint u_of_bytes (bs : list Z) : Z :=
  match bs with
  | [] => 0
  | b :: bs => b + 256 * u_of_bytes bs
  end.

Fixpoint bytes_of_u (n : nat) (v : Z) : list Z :=
  match n with
  | O => []
  | S n => v mod 256 :: bytes_of_u n (v / 256)
  end.

Lemma length_bytes_of_u n v : length (bytes_of_u n v) = n.
Proof. revert v; induction n; intros; simpl; auto. Qed.

Lemma bytes_of_u_bytes n v : Forall (is_u 8) (bytes_of_u n v).
Proof.
  revert v; induction n as [|n IH]; intros; simpl; constructor; auto.
  apply Z.mod_pos_bound. lia.
Qed.

Lemma u_of_bytes_of_u n v : u_of_bytes (bytes_of_u n v) = wrapu (8 * Z.of_nat n) v.
Proof.
  revert v; induction n as [|n IH]; intros v; simpl.
  - unfold wrapu. by rewrite Z.mod_1_r.
  - rewrite IH. unfold wrapu.
    replace (8 * Z.of_nat (S n)) with (8 + 8 * Z.of_nat n) by lia.
    rewrite Z.pow_add_r by lia. change (2 ^ 8) with 256.
    rewrite Z.rem_mul_r by (first [lia | apply Z.pow_pos_nonneg; lia]). lia.
Qed.

Lemma u_of_bytes_range bs :
  Forall (is_u 8) bs -> is_u (8 * Z.of_nat (length bs)) (u_of_bytes bs).
Proof.
  induction 1 as [|b bs [Hb1 Hb2] _ [IH1 IH2]]; simpl; [done|].
  change (2 ^ 8) with 256 in Hb2. split; [lia|].
  replace (8 * Z.of_nat (S (length bs))) with (8 + 8 * Z.of_nat (length bs)) by lia.
  rewrite Z.pow_add_r by lia. change (2 ^ 8) with 256. lia.
Qed.

Lemma u_of_bytes_app l m :
  u_of_bytes (l ++ m) = u_of_bytes l + 2 ^ (8 * Z.of_nat (length l)) * u_of_bytes m.
Proof.
  induction l as [|b l IH]; cbn [app u_of_bytes length].
  - change (2 ^ (8 * Z.of_nat 0)) with 1. lia.
  - rewrite IH. replace (8 * Z.of_nat (S (length l))) with (8 + 8 * Z.of_nat (length l))
      by lia. rewrite Z.pow_add_r by lia. change (2 ^ 8) with 256. lia.
Qed.

Lemma bytes_of_u_S n v :
  bytes_of_u (S n) v = bytes_of_u n v ++ [v / 2 ^ (8 * Z.of_nat n) mod 256].
Proof.
  revert v. induction n as [|n IH]; intros v.
  - simpl. by rewrite Z.div_1_r.
  - change (bytes_of_u (S (S n)) v) with (v mod 256 :: bytes_of_u (S n) (v / 256)).
    replace (v / 2 ^ (8 * Z.of_nat (S n))) with (v / 256 / 2 ^ (8 * Z.of_nat n));
      [by rewrite IH|].
    pose proof (pow2_pos (8 * Z.of_nat n) ltac:(lia)). rewrite Z.div_div by lia.
    f_equal. change 256 with (2 ^ 8). rewrite <- Z.pow_add_r by lia. f_equal. lia.
Qed.

Lemma bytes_of_u_of_bytes l :
  Forall (is_u 8) l -> bytes_of_u (length l) (u_of_bytes l) = l.
Proof.
  induction 1 as [|b l [Hb1 Hb2] _ IH]; [done|].
  change (2 ^ 8) with 256 in Hb2. cbn [length bytes_of_u u_of_bytes].
  f_equal; [rewrite Z.mul_comm, Z.mod_add, Z.mod_small; lia|].
  rewrite Z.mul_comm, Z.div_add, Z.div_small by lia. apply IH.
Qed.
