(* ===== verification/Utils.v ===== *)
(** Integer utilities: [runtime/platform/utils.h] and [runtime/platform/utils.cc]. *)
From stdpp Require Import base numbers list.
From Stdlib Require Import ZArith Lia.
From S2P Require Import Prelude.
Local Open Scope Z_scope.
Local Open Scope cxx_scope.

(** Limits of the integer types ([platform/globals.h]). *)
Definition kMinInt16 : Z := -0x8000.
Definition kMaxInt16 : Z := 0x7FFF.
Definition kMinInt32 : Z := -0x80000000.
Definition kMaxInt32 : Z := 0x7FFFFFFF.
Definition kMaxUint32 : Z := 0xFFFFFFFF.
Definition kMinInt64 : Z := -0x8000000000000000.
Definition kMaxInt64 : Z := 0x7FFFFFFFFFFFFFFF.
Definition kMaxUint64 : Z := 0xFFFFFFFFFFFFFFFF.

(** What a utility can fail with: an assertion, or the fuel of its loop. *)
Inductive utils_error := UtilsAssertion | UtilsFuel.

Definition utils_assert (condition : bool) : outcome utils_error unit :=
  if condition then Ok () else Fatal UtilsAssertion.

(** ** Minima and absolute values *)

Definition Minimum (x y : Z) : Z := if x <? y then x else y.
Definition Maximum (x y : Z) : Z := if y <? x then x else y.

(** [AbsWithSaturation<int64_t>]. *)
Definition AbsWithSaturation (x : Z) : Z :=
  if x <? 0 then if x =? kMinInt64 then kMaxInt64 else - x else x.

(** ** Overflow of 64-bit arithmetic *)

Definition WillAddOverflow (a b : Z) : bool :=
  ((0 <? b) && (kMaxInt64 - b <? a)) || ((b <? 0) && (a <? kMinInt64 - b)).

Definition WillSubOverflow (a b : Z) : bool :=
  ((0 <? b) && (a <? kMinInt64 + b)) || ((b <? 0) && (kMaxInt64 + b <? a)).

(** The instances at [int64_t]. *)
Definition AddWithWrapAround (a b : Z) : Z := wraps 64 (wrapu 64 a + wrapu 64 b).
Definition SubWithWrapAround (a b : Z) : Z := wraps 64 (wrapu 64 a - wrapu 64 b).
Definition MulWithWrapAround (a b : Z) : Z := wraps 64 (wrapu 64 a * wrapu 64 b).
Definition NegWithWrapAround (a : Z) : Z := wraps 64 (- wrapu 64 a).

Definition ShiftLeftWithTruncation (a b : Z) : outcome utils_error Z :=
  _ ← utils_assert (0 <=? b);
  Ok (if 64 <=? b then 0 else wraps 64 (wrapu 64 a << b)).

(** ** Lengths in bits *)

(** [HighestBit]: the position of the highest bit of the absolute value; negating the
    least value is undefined. *)
Definition halve (n : Z) (xr : Z * Z) : Z * Z :=
  let t := xr.1 >> n in if t =? 0 then xr else (t, xr.2 + n).

Definition HighestBit (v : Z) : outcome utils_error Z :=
  if v =? kMinInt64 then Undefined
  else
    let x := wrapu 64 (if 0 <? v then v else - v) in
    let '(x, r) := halve 2 (halve 4 (halve 8 (halve 16 (halve 32 (x, 0))))) in
    Ok (if 1 <? x then r + 1 else r).

Definition BitLength (value : Z) : outcome utils_error Z :=
  let value := value .^ (value >> 63) in
  if value =? 0 then Ok 0 else h ← HighestBit value; Ok (h + 1).

(** ** Range and alignment predicates

    The templates are instantiated at a type [T] of [bits] bits, signed when
    [signed] is [true]. *)

Definition IsPowerOfTwo (x : Z) : bool := (x .& (x - 1) =? 0) && negb (x =? 0).

Definition IsAligned (x alignment : Z) : bool := x .& (alignment - 1) =? 0.

Definition IsInt (signed : bool) (bits N value : Z) : bool :=
  if signed && (bits <=? N) then true
  else if negb signed && (bits <? N) then true
  else if negb signed && (N =? bits) then 0 <=? wraps bits value
  else
    let limit := 1 << (N - 1) in
    ((if signed then - limit else wrapu bits (- limit)) <=? value) &&
    (value <? limit).

Definition IsUint (signed : bool) (bits N value : Z) : bool :=
  if signed && (value <? 0) then false
  else if signed && (bits - 1 <=? N) then true
  else if negb signed && (bits <=? N) then true
  else value <=? (1 << N) - 1.

(** On a signed type [IsInt] is the range test of [N]-bit two's complement. *)
Lemma IsInt_signed_spec bits N value :
  1 <= N -> 1 <= bits -> is_s bits value ->
  IsInt true bits N value = true <-> is_s N value.
Proof.
  intros HN Hb Hv. unfold IsInt. simpl.
  destruct (Z.leb_spec bits N).
  - split; [|done]. intros _. unfold is_s in *.
    pose proof (pow2_le (bits - 1) (N - 1) ltac:(lia)). lia.
  - rewrite Z.shiftl_1_l, andb_true_iff, Z.leb_le, Z.ltb_lt. done.
Qed.

Lemma IsUint_signed_spec bits N value :
  1 <= N -> 1 <= bits -> is_s bits value ->
  IsUint true bits N value = true <-> is_u N value.
Proof.
  intros HN Hb Hv. unfold IsUint, is_u. simpl.
  destruct (Z.ltb_spec value 0); simpl; [split; [done|lia]|].
  destruct (Z.leb_spec (bits - 1) N).
  - split; [|done]. intros _. unfold is_s in *.
    pose proof (pow2_le (bits - 1) N ltac:(lia)). lia.
  - rewrite Z.shiftl_1_l, Z.leb_le. lia.
Qed.

(** On a power of two [IsAligned] is divisibility. *)
Lemma IsAligned_spec x k :
  0 <= k -> IsAligned x (2 ^ k) = true <-> x mod 2 ^ k = 0.
Proof.
  intros. unfold IsAligned.
  replace (2 ^ k - 1) with (Z.ones k) by (rewrite Z.ones_equiv; lia).
  rewrite Z.land_ones by done. apply Z.eqb_eq.
Qed.

Lemma aligned_low_bit x k i : 0 <= i < k -> x mod 2 ^ k = 0 -> Z.testbit x i = false.
Proof.
  intros Hi H. rewrite <- (Z.mod_pow2_bits_low x k i) by lia.
  by rewrite H, Z.testbit_0_l.
Qed.

(** ** The other utilities meet their descriptions *)

Lemma is_s64 v : is_s 64 v <-> kMinInt64 <= v <= kMaxInt64.
Proof. unfold is_s, kMinInt64, kMaxInt64. change (2 ^ (64 - 1)) with 0x8000000000000000. lia. Qed.

Lemma Minimum_min x y : Minimum x y = Z.min x y.
Proof. unfold Minimum. destruct (Z.ltb_spec x y); lia. Qed.

Lemma Maximum_max x y : Maximum x y = Z.max x y.
Proof. unfold Maximum. destruct (Z.ltb_spec y x); lia. Qed.

(** The overflow tests do not overflow themselves and decide whether the exact result is
    an [int64_t]. *)
Lemma WillAddOverflow_spec a b :
  is_s 64 a -> is_s 64 b -> WillAddOverflow a b = false <-> is_s 64 (a + b).
Proof.
  rewrite !is_s64. unfold WillAddOverflow, kMinInt64, kMaxInt64. intros.
  rewrite orb_false_iff, !andb_false_iff, !Z.ltb_ge. lia.
Qed.

Lemma WillSubOverflow_spec a b :
  is_s 64 a -> is_s 64 b -> WillSubOverflow a b = false <-> is_s 64 (a - b).
Proof.
  rewrite !is_s64. unfold WillSubOverflow, kMinInt64, kMaxInt64. intros.
  rewrite orb_false_iff, !andb_false_iff, !Z.ltb_ge. lia.
Qed.

Lemma WithWrapAround_spec a b :
  AddWithWrapAround a b = wraps 64 (a + b) /\ SubWithWrapAround a b = wraps 64 (a - b) /\
  MulWithWrapAround a b = wraps 64 (a * b).
Proof.
  unfold AddWithWrapAround, SubWithWrapAround, MulWithWrapAround.
  repeat split; apply wraps_eq_wrapu; by autorewrite with wrap.
Qed.

(** Halving keeps [log2 x + r] and, if [x] had twice the bits, leaves [n]. *)
Lemma halve_log2 n x r :
  0 < n -> 0 <= x < 2 ^ (2 * n) ->
  let xr := halve n (x, r) in
  0 <= xr.1 < 2 ^ n /\ (0 < x -> 0 < xr.1) /\ (x = 0 -> xr.1 = 0) /\
  Z.log2 xr.1 + xr.2 = Z.log2 x + r.
Proof.
  intros Hn Hx xr. subst xr. unfold halve. cbn [fst snd]. rewrite Z.shiftr_div_pow2 by lia.
  pose proof (pow2_pos n ltac:(lia)).
  replace (2 * n) with (n + n) in Hx by lia. rewrite Z.pow_add_r in Hx by lia.
  destruct (Z.eqb_spec (x / 2 ^ n) 0) as [E|E]; cbn [fst snd].
  - apply Z.div_small_iff in E; [|lia]. repeat split; lia.
  - pose proof (Z.div_pos x (2 ^ n) ltac:(lia) ltac:(lia)).
    assert (x / 2 ^ n < 2 ^ n) by (apply Z.div_lt_upper_bound; lia).
    assert (x <> 0) by (intros ->; done).
    assert (n <= Z.log2 x) by (apply Z.log2_le_pow2; [lia|]; apply Z.nlt_ge;
      intros ?; apply E, Z.div_small; lia).
    repeat split; [lia..|]. rewrite <- Z.shiftr_div_pow2, Z.log2_shiftr by lia. lia.
Qed.

Lemma HighestBit_spec v :
  is_s 64 v -> v <> kMinInt64 -> HighestBit v = Ok (Z.log2 (Z.abs v)).
Proof.
  rewrite is_s64. unfold HighestBit, kMinInt64, kMaxInt64. intros Hv Hn.
  destruct (Z.eqb_spec v (-0x8000000000000000)) as [|_]; [lia|].
  replace (if 0 <? v then v else - v) with (Z.abs v) by (destruct (Z.ltb_spec 0 v); lia).
  rewrite wrapu_id by (split; [lia|]; change (2 ^ 64) with 0x10000000000000000; lia).
  set (x := Z.abs v). assert (Hx : 0 <= x < 2 ^ (2 * 32)) by (subst x; simpl; lia).
  clearbody x. clear Hv Hn.
  destruct (halve_log2 32 x 0 ltac:(lia) Hx) as (H1 & P1 & Z1 & E1).
  destruct (halve 32 (x, 0)) as [x1 r1]; cbn [fst snd] in *.
  destruct (halve_log2 16 x1 r1 ltac:(lia) H1) as (H2 & P2 & Z2 & E2).
  destruct (halve 16 (x1, r1)) as [x2 r2]; cbn [fst snd] in *.
  destruct (halve_log2 8 x2 r2 ltac:(lia) H2) as (H3 & P3 & Z3 & E3).
  destruct (halve 8 (x2, r2)) as [x3 r3]; cbn [fst snd] in *.
  destruct (halve_log2 4 x3 r3 ltac:(lia) H3) as (H4 & P4 & Z4 & E4).
  destruct (halve 4 (x3, r3)) as [x4 r4]; cbn [fst snd] in *.
  destruct (halve_log2 2 x4 r4 ltac:(lia) H4) as (H5 & P5 & Z5 & E5).
  destruct (halve 2 (x4, r4)) as [x5 r5]; cbn [fst snd] in *.
  f_equal. change (2 ^ 2) with 4 in H5.
  assert (x5 = 0 \/ x5 = 1 \/ x5 = 2 \/ x5 = 3) as [-> | [-> | [-> | ->]]] by lia;
    cbn [Z.ltb Z.compare Pos.compare Pos.compare_cont] in *; simpl Z.log2 in *; lia.
Qed.

(** [BitLength] is the least number of bits that, with a sign bit, holds the value. *)
Lemma BitLength_spec v :
  is_s 64 v ->
  exists b, BitLength v = Ok b /\ 0 <= b <= 63 /\
    forall n, 0 <= n -> is_s (n + 1) v <-> b <= n.
Proof.
  intros Hv. unfold BitLength.
  assert (E : v .^ (v >> 63) = if v <? 0 then - v - 1 else v).
  { rewrite Z.shiftr_div_pow2 by lia. rewrite is_s64 in Hv.
    unfold kMinInt64, kMaxInt64 in Hv. destruct (Z.ltb_spec v 0).
    - assert (v / 2 ^ 63 = -1) as ->.
      { symmetry. apply (Z.div_unique_pos _ _ _ (v + 2 ^ 63)); lia. }
      rewrite Z.lxor_m1_r. unfold Z.lnot. lia.
    - rewrite Z.div_small by lia. apply Z.lxor_0_r. }
  rewrite E. set (x := if v <? 0 then - v - 1 else v).
  assert (Hx : 0 <= x <= kMaxInt64).
  { rewrite is_s64 in Hv. unfold kMinInt64, kMaxInt64 in *. subst x.
    destruct (Z.ltb_spec v 0); lia. }
  assert (Hs : forall n, 0 <= n -> is_s (n + 1) v <-> x < 2 ^ n).
  { intros n Hn. unfold is_s. replace (n + 1 - 1) with n by lia. subst x.
    destruct (Z.ltb_spec v 0); lia. }
  destruct (Z.eqb_spec x 0) as [E0|E0].
  - exists 0. split; [done|]. split; [lia|]. intros n Hn. rewrite Hs, E0 by done.
    pose proof (pow2_pos n Hn). lia.
  - rewrite HighestBit_spec by (rewrite ?is_s64; unfold kMinInt64, kMaxInt64 in *; lia).
    rewrite Z.abs_eq by lia. exists (Z.log2 x + 1). cbn.
    assert (Z.log2 x < 63) by (apply Z.log2_lt_pow2; unfold kMaxInt64 in Hx; lia).
    pose proof (Z.log2_nonneg x). split; [done|]. split; [lia|].
    intros n Hn. rewrite Hs by done. rewrite Z.log2_lt_pow2 by lia. lia.
Qed.
