(* ===== verification/IntegerOps.v ===== *)
(** Integer operations of Dart: [Integer::ArithmeticOp], [Integer::BitOp] and
    [Integer::ShiftOp] of [runtime/vm/object.cc].

    An integer object is its value, a [Smi] when it fits and a [Mint] otherwise.  These
    functions define what compiled code must compute; the analyses and the code generator
    are compared with them. *)
From stdpp Require Import base numbers list.
From Stdlib Require Import ZArith Lia.
From S2P Require Import Prelude Utils.
Local Open Scope Z_scope.
Local Open Scope cxx_scope.

(** The kinds of [Token::Kind] that are binary operators on integers, or comparisons. *)
Inductive Token :=
| kADD | kSUB | kMUL | kDIV | kTRUNCDIV | kMOD
| kSHL | kSHR | kUSHR
| kBIT_AND | kBIT_OR | kBIT_XOR
| kEQ | kNE | kLT | kGT | kLTE | kGTE.

#[export] Instance Token_eq_dec : EqDecision Token.
Proof. solve_decision. Defined.

(** The number of bits of a [Smi] besides its sign: 30 on 32-bit targets and with
    compressed pointers, 62 otherwise. *)
Class SmiTarget := {
  kSmiBits : Z;
  kSmiBits_cases : kSmiBits = 30 \/ kSmiBits = 62;
}.

Definition Smi30 : SmiTarget := {| kSmiBits := 30; kSmiBits_cases := or_introl eq_refl |}.
Definition Smi62 : SmiTarget := {| kSmiBits := 62; kSmiBits_cases := or_intror eq_refl |}.

Section integers.
Context {smi : SmiTarget}.

Definition kSmiMax : Z := (1 << kSmiBits) - 1.
Definition kSmiMin : Z := - (1 << kSmiBits).

Definition IsSmi (v : Z) : bool := (kSmiMin <=? v) && (v <=? kSmiMax).

Lemma kSmi_cases :
  (kSmiMin = -0x40000000 /\ kSmiMax = 0x3FFFFFFF) \/
  (kSmiMin = -0x4000000000000000 /\ kSmiMax = 0x3FFFFFFFFFFFFFFF).
Proof. unfold kSmiMin, kSmiMax. destruct kSmiBits_cases as [-> | ->]; [left|right]; done. Qed.

(** C++ [/] and [%] on signed integers: undefined for a zero divisor. *)
Definition cxx_div (a b : Z) : outcome utils_error Z :=
  if b =? 0 then Undefined else Ok (Z.quot a b).
Definition cxx_rem (a b : Z) : outcome utils_error Z :=
  if b =? 0 then Undefined else Ok (Z.rem a b).

(** The remainder of Dart from that of C++. *)
Definition adjust_remainder (remainder right_value : Z) : Z :=
  if remainder <? 0 then
    if right_value <? 0 then remainder - right_value else remainder + right_value
  else remainder.

Definition ArithmeticOp (operation : Token) (left_value right_value : Z)
    : outcome utils_error Z :=
  if IsSmi left_value && IsSmi right_value then
    match operation with
    | kADD => Ok (left_value + right_value)
    | kSUB => Ok (left_value - right_value)
    | kMUL => Ok (MulWithWrapAround left_value right_value)
    | kTRUNCDIV => cxx_div left_value right_value
    | kMOD =>
        remainder ← cxx_rem left_value right_value;
        Ok (adjust_remainder remainder right_value)
    | _ => Fatal UtilsAssertion
    end
  else
    match operation with
    | kADD => Ok (AddWithWrapAround left_value right_value)
    | kSUB => Ok (SubWithWrapAround left_value right_value)
    | kMUL => Ok (MulWithWrapAround left_value right_value)
    | kTRUNCDIV =>
        if (left_value =? kMinInt64) && (right_value =? -1) then Ok kMinInt64
        else cxx_div left_value right_value
    | kMOD =>
        if (left_value =? kMinInt64) && (right_value =? -1) then Ok 0
        else
          remainder ← cxx_rem left_value right_value;
          Ok (adjust_remainder remainder right_value)
    | _ => Fatal UtilsAssertion
    end.

Definition BitOp (kind : Token) (a b : Z) : outcome utils_error Z :=
  if IsSmi a && IsSmi b then
    result ← (match kind with
              | kBIT_AND => Ok (a .& b)
              | kBIT_OR => Ok (a .| b)
              | kBIT_XOR => Ok (a .^ b)
              | _ => Fatal UtilsAssertion
              end);
    _ ← utils_assert (IsSmi result);
    Ok result
  else
    match kind with
    | kBIT_AND => Ok (a .& b)
    | kBIT_OR => Ok (a .| b)
    | kBIT_XOR => Ok (a .^ b)
    | _ => Fatal UtilsAssertion
    end.

(** [Mint::kBits] is 63; [Integer::New] takes an [int64_t]. *)
Definition ShiftOp (kind : Token) (a b : Z) : outcome utils_error Z :=
  _ ← utils_assert (0 <=? b);
  match kind with
  | kSHL => ShiftLeftWithTruncation a b
  | kSHR => Ok (a >> Minimum b 63)
  | kUSHR => Ok (wraps 64 (if 64 <=? b then 0 else wrapu 64 a >> b))
  | _ => Fatal UtilsAssertion
  end.

(** What an operator evaluates to; the callers exclude a zero divisor and a negative
    shift count, for which Dart throws. *)
Definition integer_op (op : Token) (a b : Z) : outcome utils_error Z :=
  match op with
  | kADD | kSUB | kMUL | kTRUNCDIV | kMOD => ArithmeticOp op a b
  | kBIT_AND | kBIT_OR | kBIT_XOR => BitOp op a b
  | kSHL | kSHR | kUSHR => ShiftOp op a b
  | _ => Fatal UtilsAssertion
  end.

(** ** The operations in terms of integers *)

Lemma IsSmi_spec v : IsSmi v = true <-> kSmiMin <= v <= kSmiMax.
Proof. unfold IsSmi. rewrite andb_true_iff, !Z.leb_le. done. Qed.

Lemma smi_s64 v : IsSmi v = true -> is_s 64 v.
Proof.
  rewrite IsSmi_spec, is_s64. unfold kMinInt64, kMaxInt64.
  pose proof kSmi_cases. lia.
Qed.

Lemma ArithmeticOp_add a b : ArithmeticOp kADD a b = Ok (wraps 64 (a + b)).
Proof.
  unfold ArithmeticOp. destruct (IsSmi a && IsSmi b) eqn:E.
  - rewrite andb_true_iff, !IsSmi_spec in E. rewrite wraps_id; [done|lia|].
    apply is_s64. unfold kMinInt64, kMaxInt64. pose proof kSmi_cases. lia.
  - f_equal. apply WithWrapAround_spec.
Qed.

Lemma ArithmeticOp_sub a b : ArithmeticOp kSUB a b = Ok (wraps 64 (a - b)).
Proof.
  unfold ArithmeticOp. destruct (IsSmi a && IsSmi b) eqn:E.
  - rewrite andb_true_iff, !IsSmi_spec in E. rewrite wraps_id; [done|lia|].
    apply is_s64. unfold kMinInt64, kMaxInt64. pose proof kSmi_cases. lia.
  - f_equal. apply WithWrapAround_spec.
Qed.

Lemma ArithmeticOp_mul a b : ArithmeticOp kMUL a b = Ok (wraps 64 (a * b)).
Proof.
  unfold ArithmeticOp. destruct (IsSmi a && IsSmi b); f_equal; apply WithWrapAround_spec.
Qed.

Lemma quot_half a b : 2 <= Z.abs b -> 2 * Z.abs (Z.quot a b) <= Z.abs a.
Proof.
  intros H. rewrite <- Z.quot_abs by lia.
  pose proof (Z.quot_pos (Z.abs a) (Z.abs b) ltac:(lia) ltac:(lia)).
  etransitivity; [|apply (Z.mul_quot_le (Z.abs a) (Z.abs b)); lia].
  apply Z.mul_le_mono_nonneg_r; lia.
Qed.

Lemma ArithmeticOp_truncdiv a b :
  is_s 64 a -> is_s 64 b -> b <> 0 ->
  ArithmeticOp kTRUNCDIV a b = Ok (wraps 64 (Z.quot a b)).
Proof.
  intros Ha Hb H0. unfold ArithmeticOp, cxx_div.
  destruct (Z.eqb_spec b 0) as [|_]; [done|].
  destruct (decide (a = kMinInt64 /\ b = -1)) as [[-> ->]|N].
  - destruct (IsSmi kMinInt64 && IsSmi (-1)) eqn:E; [|done].
    rewrite andb_true_iff, IsSmi_spec in E. unfold kMinInt64 in E.
    pose proof kSmi_cases. lia.
  - rewrite wraps_id; [|lia|].
    + destruct (IsSmi a && IsSmi b); [done|].
      destruct (Z.eqb_spec a kMinInt64), (Z.eqb_spec b (-1)); simpl; done || tauto.
    + rewrite is_s64 in *. unfold kMinInt64, kMaxInt64 in *.
      destruct (decide (Z.abs b = 1)) as [E|].
      * assert (b = 1 \/ b = -1) as [-> | ->] by lia.
        -- rewrite Z.quot_1_r. lia.
        -- change (-1) with (- (1)). rewrite Z.quot_opp_r, Z.quot_1_r by lia. lia.
      * pose proof (quot_half a b ltac:(lia)). lia.
Qed.

(** The remainder is that of Euclid: never negative, below the absolute value of the
    divisor. *)
Lemma adjust_remainder_spec a b : b <> 0 -> adjust_remainder (Z.rem a b) b = a mod Z.abs b.
Proof.
  intros H. unfold adjust_remainder.
  assert (E : Z.rem a b = Z.rem a (Z.abs b)).
  { destruct (Z.abs_eq_or_opp b) as [-> | ->]; [done|]. by rewrite Z.rem_opp_r. }
  rewrite E. set (m := Z.abs b) in *. assert (0 < m) by lia.
  destruct (Z.ltb_spec (Z.rem a m) 0) as [L|L].
  - replace (if b <? 0 then Z.rem a m - b else Z.rem a m + b) with (Z.rem a m + m)
      by (destruct (Z.ltb_spec b 0); lia).
    assert (a < 0).
    { apply Z.nle_gt. intros ?. pose proof (Z.rem_nonneg a m ltac:(lia) ltac:(lia)). lia. }
    pose proof (Z.rem_bound_pos_neg a m ltac:(lia) ltac:(lia)).
    apply (Z.mod_unique_pos a m (Z.quot a m - 1)); [lia|].
    pose proof (Z.quot_rem' a m). lia.
  - assert (Z.rem a m < m).
    { destruct (Z.lt_ge_cases a 0).
      - pose proof (Z.rem_bound_pos_neg a m ltac:(lia) ltac:(lia)). lia.
      - pose proof (Z.rem_bound_pos a m ltac:(lia) ltac:(lia)). lia. }
    apply (Z.mod_unique_pos a m (Z.quot a m)); [lia|]. apply Z.quot_rem'.
Qed.

Lemma ArithmeticOp_mod a b : b <> 0 -> ArithmeticOp kMOD a b = Ok (a mod Z.abs b).
Proof.
  intros H. unfold ArithmeticOp, cxx_rem. destruct (Z.eqb_spec b 0) as [|_]; [done|].
  cbn. rewrite adjust_remainder_spec by done.
  destruct (IsSmi a && IsSmi b); [done|].
  destruct (Z.eqb_spec a kMinInt64), (Z.eqb_spec b (-1)) as [->|]; [|done..].
  cbn. by rewrite Z.mod_1_r.
Qed.

(** Bitwise operations stay within the width of their operands. *)
Lemma s_fixed n x : 0 < n -> is_s n x <-> wraps n x = x.
Proof.
  intros Hn. split; [by apply wraps_id|]. intros <-. by apply wraps_range.
Qed.

Lemma land_s n x y : 0 < n -> is_s n x -> is_s n y -> is_s n (x .& y).
Proof.
  intros Hn. rewrite !s_fixed by done. intros Hx Hy. apply Z.bits_inj'. intros i Hi.
  rewrite testbit_wraps, !Z.land_spec, <- !testbit_wraps by done. by rewrite Hx, Hy.
Qed.

Lemma lor_s n x y : 0 < n -> is_s n x -> is_s n y -> is_s n (x .| y).
Proof.
  intros Hn. rewrite !s_fixed by done. intros Hx Hy. apply Z.bits_inj'. intros i Hi.
  rewrite testbit_wraps, !Z.lor_spec, <- !testbit_wraps by done. by rewrite Hx, Hy.
Qed.

Lemma lxor_s n x y : 0 < n -> is_s n x -> is_s n y -> is_s n (x .^ y).
Proof.
  intros Hn. rewrite !s_fixed by done. intros Hx Hy. apply Z.bits_inj'. intros i Hi.
  rewrite testbit_wraps, !Z.lxor_spec, <- !testbit_wraps by done. by rewrite Hx, Hy.
Qed.

Lemma smi_s v : IsSmi v = true <-> is_s (kSmiBits + 1) v.
Proof.
  rewrite IsSmi_spec. unfold is_s, kSmiMin, kSmiMax.
  replace (kSmiBits + 1 - 1) with kSmiBits by lia. rewrite Z.shiftl_1_l. lia.
Qed.

(** What the operators evaluate to. *)
Definition op_spec (op : Token) (x y z : Z) : Prop :=
  match op with
  | kADD => z = wraps 64 (x + y)
  | kSUB => z = wraps 64 (x - y)
  | kMUL => z = wraps 64 (x * y)
  | kTRUNCDIV => y <> 0 /\ z = wraps 64 (Z.quot x y)
  | kMOD => y <> 0 /\ z = x mod Z.abs y
  | kSHL => 0 <= y /\ z = if 64 <=? y then 0 else wraps 64 (x * 2 ^ y)
  | kSHR => 0 <= y /\ z = x >> Z.min y 63
  | kUSHR => 0 <= y /\ z = wraps 64 (if 64 <=? y then 0 else wrapu 64 x >> y)
  | kBIT_AND => z = x .& y
  | kBIT_OR => z = x .| y
  | kBIT_XOR => z = x .^ y
  | _ => False
  end.

Lemma BitOp_spec op x y z :
  BitOp op x y = Ok z -> (op = kBIT_AND \/ op = kBIT_OR \/ op = kBIT_XOR) /\ op_spec op x y z.
Proof.
  unfold BitOp. destruct (IsSmi x && IsSmi y); destruct op; cbn; try done;
    try (unfold utils_assert; destruct (IsSmi _)); cbn; intros [= <-]; auto.
Qed.

Lemma integer_op_spec op x y z :
  is_s 64 x -> is_s 64 y -> integer_op op x y = Ok z -> op_spec op x y z.
Proof.
  intros Hx Hy. unfold integer_op. destruct op; try done.
  - rewrite ArithmeticOp_add. by intros [= <-].
  - rewrite ArithmeticOp_sub. by intros [= <-].
  - rewrite ArithmeticOp_mul. by intros [= <-].
  - destruct (decide (y = 0)) as [->|H0].
    + unfold ArithmeticOp, cxx_div. cbn. rewrite andb_false_r.
      by destruct (_ && _).
    + rewrite ArithmeticOp_truncdiv by done. by intros [= <-].
  - destruct (decide (y = 0)) as [->|H0].
    + unfold ArithmeticOp, cxx_rem. cbn. rewrite andb_false_r. by destruct (_ && _).
    + rewrite ArithmeticOp_mod by done. by intros [= <-].
  - unfold ShiftOp, ShiftLeftWithTruncation, utils_assert.
    destruct (Z.leb_spec 0 y); cbn; [|done]. intros [= <-]. split; [done|].
    destruct (Z.leb_spec 64 y); [done|]. rewrite Z.shiftl_mul_pow2 by done.
    apply wraps_eq_wrapu. by rewrite wrapu_mul_l.
  - unfold ShiftOp, utils_assert. destruct (Z.leb_spec 0 y); cbn; [|done]. intros [= <-].
    by rewrite Minimum_min.
  - unfold ShiftOp, utils_assert. destruct (Z.leb_spec 0 y); cbn; [|done]. by intros [= <-].
  - by intros [_ ?]%BitOp_spec.
  - by intros [_ ?]%BitOp_spec.
  - by intros [_ ?]%BitOp_spec.
Qed.

(** Every result is a 64-bit integer. *)
Lemma op_spec_s64 op x y z : is_s 64 x -> is_s 64 y -> op_spec op x y z -> is_s 64 z.
Proof.
  intros Hx Hy. destruct op; simpl; try done;
    try (by intros ->; apply wraps_range); try (by intros [_ ->]; apply wraps_range).
  - intros [H0 ->]. rewrite is_s64 in *. unfold kMinInt64, kMaxInt64 in *.
    pose proof (Z.mod_pos_bound x (Z.abs y) ltac:(lia)). lia.
  - intros [_ ->]. destruct (64 <=? y); [done|by apply wraps_range].
  - intros [H0 ->]. unfold is_s in *. rewrite Z.shiftr_div_pow2 by lia.
    pose proof (pow2_pos (Z.min y 63) ltac:(lia)).
    change (2 ^ (64 - 1)) with 0x8000000000000000 in *. split.
    + apply Z.div_le_lower_bound; nia.
    + apply Z.div_lt_upper_bound; nia.
  - intros ->. by apply land_s.
  - intros ->. by apply lor_s.
  - intros ->. by apply lxor_s.
Qed.

End integers.
