(* ===== verification/MagicDivision.v ===== *)
(** Division by a constant through multiplication:
    [Utils::CalculateMagicAndShiftForDivRem] of [runtime/platform/utils.cc] and the code that
    [EmitInt64ModTruncDiv] of [compiler/backend/il_x64.cc] generates with its result.

    The function finds a multiplier and a shift for a divisor; the generated code
    multiplies, takes the high half of the product, corrects it and shifts.  The theorems
    compare this with the division and the remainder of Dart ([IntegerOps]). *)
From stdpp Require Import base numbers list.
From Stdlib Require Import ZArith Lia.
From S2P Require Import Prelude Utils IntegerOps.
Local Open Scope Z_scope.
Local Open Scope cxx_scope.

(** ** The code *)

(** The local variables of the loop. *)
Record magic_state := mkMagic {
  p : Z;
  quotient1 : Z;
  remainder1 : Z;
  quotient2 : Z;
  remainder2 : Z;
}.

(** Doubling the dividend of a division with remainder, in [uint64_t]. *)
Definition double_division (divisor quotient remainder : Z) : Z * Z :=
  let quotient := wrapu 64 (2 * quotient) in
  let remainder := wrapu 64 (2 * remainder) in
  if divisor <=? remainder then (wrapu 64 (quotient + 1), wrapu 64 (remainder - divisor))
  else (quotient, remainder).

Fixpoint magic_loop (fuel : nat) (abs_nc abs_d : Z) (s : magic_state)
    : outcome utils_error magic_state :=
  match fuel with
  | O => Fatal UtilsFuel
  | S fuel =>
      let '(q1, r1) := double_division abs_nc (quotient1 s) (remainder1 s) in
      let '(q2, r2) := double_division abs_d (quotient2 s) (remainder2 s) in
      let delta := wrapu 64 (abs_d - r2) in
      let s := mkMagic (p s + 1) q1 r1 q2 r2 in
      if (q1 <? delta) || ((q1 =? delta) && (r1 =? 0)) then magic_loop fuel abs_nc abs_d s
      else Ok s
  end.

(** The pair of [*magic] and [*shift]; at most 64 iterations are needed. *)
Definition CalculateMagicAndShiftForDivRem (divisor : Z) : outcome utils_error (Z * Z) :=
  _ ← utils_assert ((divisor <=? -2) || (2 <=? divisor));
  let exp := 0x8000000000000000 in
  let abs_d := if 0 <=? divisor then divisor else wrapu 64 (- wrapu 64 divisor) in
  let sign_bit := wrapu 64 divisor >> 63 in
  let tmp := wrapu 64 (exp + sign_bit) in
  let abs_nc := wrapu 64 (tmp - 1 - tmp mod abs_d) in
  s ← magic_loop 64 abs_nc abs_d
        (mkMagic 63 (exp / abs_nc) (exp mod abs_nc) (exp / abs_d) (exp mod abs_d));
  Ok (wraps 64 (if 0 <? divisor then wrapu 64 (quotient2 s + 1)
                else wrapu 64 (- quotient2 s - 1)), p s - 64).

(** The instructions on 64-bit registers, read as signed: the high half that [imulq]
    leaves in [RDX], arithmetic and logical shifts right. *)
Definition imulq_high (a b : Z) : Z := wraps 64 ((a * b) >> 64).
Definition addq (a b : Z) : Z := wraps 64 (a + b).
Definition subq (a b : Z) : Z := wraps 64 (a - b).
Definition imulq (a b : Z) : Z := wraps 64 (a * b).
Definition sarq (a n : Z) : Z := a >> n.
Definition shrq (a n : Z) : Z := wraps 64 (wrapu 64 a >> n).

(** What the code for a constant divisor leaves in [RDX] before it is finalized. *)
Definition magic_quotient (divisor magic shift numerator : Z) : Z :=
  let TMP := numerator in
  let RDX := imulq_high magic TMP in
  let RDX :=
    if (0 <? divisor) && (magic <? 0) then addq RDX TMP
    else if (divisor <? 0) && (0 <? magic) then subq RDX TMP
    else RDX in
  let RDX := if negb (shift =? 0) then sarq RDX shift else RDX in
  let RAX := RDX in
  addq (shrq RDX 63) RAX.

(** The value of the output register, for a constant divisor with its special case. *)
Definition EmitInt64ModTruncDiv (op_kind : Token) (divisor numerator : Z)
    : outcome utils_error Z :=
  _ ← utils_assert (bool_decide (op_kind = kMOD) || bool_decide (op_kind = kTRUNCDIV));
  '(magic, shift) ← CalculateMagicAndShiftForDivRem divisor;
  let RDX := magic_quotient divisor magic shift numerator in
  if bool_decide (op_kind = kTRUNCDIV) then Ok RDX
  else
    let RAX := subq numerator (imulq RDX divisor) in
    if 0 <=? RAX then Ok RAX
    else Ok (if 0 <? divisor then addq RAX divisor else subq RAX divisor).

(** ** The loop *)

Definition pow63 : Z := 0x8000000000000000.

Ltac u64 := unfold is_u, pow63 in *; change (2 ^ 64) with 0x10000000000000000 in *; lia.

Lemma double_division_spec n X :
  0 < n <= pow63 -> 0 <= X ->
  double_division n (wrapu 64 (X / n)) (X mod n) = (wrapu 64 (2 * X / n), (2 * X) mod n).
Proof.
  intros Hn HX. unfold double_division, pow63 in *.
  pose proof (Z.mod_pos_bound X n ltac:(lia)). pose proof (Z.div_mod X n ltac:(lia)).
  rewrite wrapu_mul_r. rewrite (wrapu_id 64 (2 * (X mod n))) by u64.
  destruct (Z.leb_spec n (2 * (X mod n))).
  - rewrite wrapu_add_l, (wrapu_id 64 (_ - n)) by u64. f_equal.
    + f_equal. apply (Z.div_unique_pos _ _ _ (2 * (X mod n) - n)); lia.
    + apply (Z.mod_unique_pos _ _ (2 * (X / n) + 1)); lia.
  - f_equal.
    + f_equal. apply (Z.div_unique_pos _ _ _ (2 * (X mod n))); lia.
    + apply (Z.mod_unique_pos _ _ (2 * (X / n))); lia.
Qed.

(** The test of the loop compares the power with [nc * delta]. *)
Lemma magic_test X n delta :
  0 < n ->
  (X / n <? delta) || ((X / n =? delta) && (X mod n =? 0)) = (X <=? n * delta).
Proof.
  intros Hn. pose proof (Z.mod_pos_bound X n Hn). pose proof (Z.div_mod X n ltac:(lia)).
  apply eq_true_iff_eq.
  rewrite orb_true_iff, andb_true_iff, Z.ltb_lt, !Z.eqb_eq, Z.leb_le. nia.
Qed.

Section magic.
(** [D] is the absolute value of the divisor, [k * D - 1] the largest dividend up to [B]
    with remainder [D - 1]. *)
Context (D k : Z).
Definition nc : Z := k * D - 1.
Context (HD : 2 <= D) (Hk : 1 <= k).

(** What is added to a power of two to make it a multiple of [D]. *)
Definition excess (p : Z) : Z := D - 2 ^ p mod D.

(** The state of the loop after the iterations for exponents up to [p]. *)
Definition magic_at (p : Z) : magic_state :=
  mkMagic p (wrapu 64 (2 ^ p / nc)) (2 ^ p mod nc) (wrapu 64 (2 ^ p / D)) (2 ^ p mod D).

Lemma nc_pos : 1 <= D - 1 <= nc.
Proof. unfold nc. nia. Qed.

Lemma excess_range p : 1 <= excess p <= D.
Proof. unfold excess. pose proof (Z.mod_pos_bound (2 ^ p) D ltac:(lia)). lia. Qed.

Lemma magic_step_quotient p :
  2 ^ p / nc < pow63 -> 2 * 2 ^ p / nc < 2 * pow63.
Proof.
  intros H. pose proof nc_pos. apply Z.div_lt_upper_bound; [lia|].
  pose proof (Z.mod_pos_bound (2 ^ p) nc ltac:(lia)).
  pose proof (Z.div_mod (2 ^ p) nc ltac:(lia)). nia.
Qed.

Lemma magic_loop_spec fuel p :
  D < pow63 -> nc <= pow63 -> 63 <= p -> Z.of_nat fuel = 127 - p -> 2 ^ p / nc < pow63 -> 2 ^ p <= pow63 * nc ->
  exists p', p < p' <= 127 /\ magic_loop fuel nc D (magic_at p) = Ok (magic_at p') /\
    nc * excess p' < 2 ^ p' /\
    (p' = p + 1 \/ 2 ^ (p' - 1) <= nc * excess (p' - 1)).
Proof.
  intros HD' Hnc. revert p. induction fuel as [|fuel IH]; intros p Hp Hf Hq Hle.
  - replace p with 127 in Hle by lia. unfold pow63 in *. lia.
  - pose proof nc_pos. pose proof (pow2_pos p ltac:(lia)).
    assert (E2 : 2 * 2 ^ p = 2 ^ (p + 1)) by (rewrite Z.pow_add_r; lia).
    cbn [magic_loop]. unfold magic_at at 1 2 3 4 5.
    cbn [quotient1 remainder1 quotient2 remainder2 MagicDivision.p].
    rewrite !double_division_spec by (unfold pow63 in *; lia). rewrite E2.
    pose proof (magic_step_quotient p Hq) as Hq'. rewrite E2 in Hq'.
    pose proof (Z.div_pos (2 ^ (p + 1)) nc ltac:(lia) ltac:(lia)).
    assert (Ew : wrapu 64 (2 ^ (p + 1) / nc) = 2 ^ (p + 1) / nc)
      by (apply wrapu_id; u64).
    pose proof (excess_range (p + 1)).
    fold (excess (p + 1)). rewrite (wrapu_id 64 (excess (p + 1)))
      by u64.
    fold (magic_at (p + 1)). rewrite Ew, magic_test by lia.
    destruct (Z.leb_spec (2 ^ (p + 1)) (nc * excess (p + 1))) as [L|L].
    + destruct (IH (p + 1)) as (p' & Hp' & E & G & F); [lia..| |nia|].
      { apply Z.div_lt_upper_bound; [lia|]. nia. }
      exists p'. split; [lia|]. split; [rewrite <- E; unfold magic_at; by rewrite ?Ew|]. split; [done|]. right. destruct F as [->|F]; [|done].
      by replace (p + 1 + 1 - 1) with (p + 1) by lia.
    + exists (p + 1). split; [lia|]. split; [unfold magic_at; by rewrite Ew|].
      split; [done|by left].
Qed.

(** The multiplier. *)
Definition multiplier (p : Z) : Z := 2 ^ p / D + 1.

Lemma multiplier_spec p : multiplier p * D = 2 ^ p + excess p.
Proof.
  unfold multiplier, excess. pose proof (Z.div_mod (2 ^ p) D ltac:(lia)). lia.
Qed.

(** It fits in 64 bits because the exponent is the least possible. *)
Lemma multiplier_lt p :
  D < pow63 -> nc <= pow63 -> 64 <= p -> p = 64 \/ 2 ^ (p - 1) <= nc * excess (p - 1) ->
  ~ (nc = pow63 /\ 2 ^ (p - 1) mod D = 0) -> 0 < multiplier p < 2 ^ 64.
Proof.
  intros HD' Hnc Hp HF HN. unfold multiplier.
  pose proof (Z.div_pos (2 ^ p) D ltac:(apply Z.lt_le_incl, pow2_pos; lia) ltac:(lia)).
  split; [lia|]. destruct HF as [->|HF].
  - assert (2 ^ 64 / D <= pow63); [|unfold pow63 in *; lia].
    apply Z.div_le_upper_bound; unfold pow63; lia.
  - unfold excess in HF. set (X := 2 ^ (p - 1)) in *.
    assert (2 ^ p = 2 * X) as -> by (subst X; rewrite <- Z.pow_succ_r; [f_equal|]; lia).
    pose proof (Z.div_mod X D ltac:(lia)) as EX.
    pose proof (Z.mod_pos_bound X D ltac:(lia)) as HR.
    set (Q := X / D) in *. set (R := X mod D) in *. unfold nc in *.
    assert (HQ : Q <= k * (D - R) - 1) by nia.
    assert (H2 : 2 * X / D = 2 * Q + (if D <=? 2 * R then 1 else 0)).
    { symmetry. destruct (Z.leb_spec D (2 * R)).
      - apply (Z.div_unique_pos _ _ _ (2 * R - D)); lia.
      - apply (Z.div_unique_pos _ _ _ (2 * R)); lia. }
    rewrite H2. unfold pow63 in *. change (2 ^ 64) with 0x10000000000000000.
    destruct (Z.leb_spec D (2 * R)); [nia|].
    destruct (decide (R = 0)) as [R0|]; [|nia]. rewrite R0 in *.
    assert (k * D - 1 <> 0x8000000000000000) by tauto. lia.
Qed.

(** *** Multiplication instead of division

    The error of the multiplier is too small to change the quotient. *)

Lemma remainder_room p B m :
  nc * excess p < 2 ^ p -> B < nc + D -> 0 <= m <= B ->
  excess p * m < (D - m mod D) * 2 ^ p.
Proof.
  intros HG HB Hm. pose proof (excess_range p). pose proof nc_pos.
  pose proof (Z.mod_pos_bound m D ltac:(lia)). pose proof (Z.div_mod m D ltac:(lia)) as Em.
  set (r := m mod D) in *. set (q := m / D) in *. set (P := 2 ^ p) in *.
  destruct (decide (r = D - 1)) as [->|].
  - assert (m <= nc).
    { unfold nc in *. assert (q + 1 <= k); [|nia].
      apply Z.nlt_ge. intros ?. assert (k + 1 <= q + 1 - 0) by lia. nia. }
    nia.
  - assert (excess p * m <= excess p * (nc + (D - 1))) by nia.
    assert (excess p * (D - 1) <= excess p * nc) by nia. nia.
Qed.

Lemma multiplier_floor p m :
  0 <= p -> 0 <= m -> excess p * m < (D - m mod D) * 2 ^ p ->
  multiplier p * m / 2 ^ p = m / D.
Proof.
  intros Hp Hm Hr. pose proof (multiplier_spec p) as EM. pose proof (pow2_pos p Hp).
  pose proof (Z.mod_pos_bound m D ltac:(lia)). pose proof (Z.div_mod m D ltac:(lia)) as Em.
  pose proof (excess_range p). set (P := 2 ^ p) in *. set (M := multiplier p) in *.
  set (r := m mod D) in *. set (q := m / D) in *. set (e := excess p) in *.
  symmetry. apply (Z.div_unique_pos _ _ _ (M * m - P * q)); [|lia].
  assert (E : D * (M * m - P * q) = P * r + e * m).
  { replace (D * (M * m - P * q)) with (M * D * m - P * (D * q)) by ring.
    rewrite EM. replace (D * q) with (m - r) by lia. ring. }
  nia.
Qed.

Lemma multiplier_ceil p m :
  0 <= p -> 1 <= m -> excess p * m <= (D - m mod D) * 2 ^ p ->
  - (multiplier p * m) / 2 ^ p = - (m / D) - 1.
Proof.
  intros Hp Hm Hr. pose proof (multiplier_spec p) as EM. pose proof (pow2_pos p Hp).
  pose proof (Z.mod_pos_bound m D ltac:(lia)). pose proof (Z.div_mod m D ltac:(lia)) as Em.
  pose proof (excess_range p). set (P := 2 ^ p) in *. set (M := multiplier p) in *.
  set (r := m mod D) in *. set (q := m / D) in *. set (e := excess p) in *.
  symmetry. apply (Z.div_unique_pos _ _ _ (P * (q + 1) - M * m)); [|lia].
  assert (E : D * (P * (q + 1) - M * m) = P * (D - r) - e * m).
  { replace (D * (P * (q + 1) - M * m)) with (P * (D * q) + P * D - M * D * m) by ring.
    rewrite EM. replace (D * q) with (m - r) by lia. ring. }
  nia.
Qed.

(** The least value of [int64_t] when its absolute value leaves the remainder [D - 1]. *)
Lemma min_room p :
  63 <= p -> pow63 mod D = D - 1 -> excess p * pow63 <= 2 ^ p.
Proof.
  intros Hp Hm. assert (E : 2 ^ p = 2 ^ (p - 63) * pow63).
  { change pow63 with (2 ^ 63). rewrite <- Z.pow_add_r by lia. f_equal. lia. }
  rewrite E. apply Z.mul_le_mono_nonneg_r; [done|].
  pose proof (pow2_pos (p - 63) ltac:(lia)). set (Y := 2 ^ (p - 63)) in *.
  assert (Hx : excess p = D - (- Y) mod D).
  { unfold excess. rewrite E. f_equal.
    pose proof (Z.div_mod pow63 D ltac:(lia)) as E63. rewrite Hm in E63.
    replace (Y * pow63) with (- Y + Y * (pow63 / D + 1) * D) by (rewrite E63 at 2; ring).
    by rewrite Z.mod_add by lia. }
  rewrite Hx. pose proof (Z.mod_pos_bound (- Y) D ltac:(lia)).
  pose proof (Z.div_mod (- Y) D ltac:(lia)). assert (- Y / D < 0) by nia. nia.
Qed.
End magic.

(** *** The result of the calculation *)

(** The values the calculation starts from: the divisor is [D] or [-D], and [B] bounds the
    dividends of the sign for which the quotient is a floor. *)
Definition divisor_bound (divisor : Z) : Z := if 0 <? divisor then pow63 - 1 else pow63.
Definition divisor_k (divisor : Z) : Z := (divisor_bound divisor + 1) / Z.abs divisor.

Record magic_for (divisor p : Z) : Prop := {
  magic_p : 64 <= p <= 127;
  magic_gap : nc (Z.abs divisor) (divisor_k divisor) * excess (Z.abs divisor) p < 2 ^ p;
  magic_fits : 0 < multiplier (Z.abs divisor) p < 2 ^ 64;
}.

Lemma divisor_k_spec divisor :
  is_s 64 divisor -> 2 <= Z.abs divisor ->
  1 <= divisor_k divisor /\
  nc (Z.abs divisor) (divisor_k divisor) <= divisor_bound divisor <
  nc (Z.abs divisor) (divisor_k divisor) + Z.abs divisor.
Proof.
  rewrite is_s64. unfold kMinInt64, kMaxInt64, nc, divisor_k. intros H H2.
  set (T := divisor_bound divisor + 1).
  assert (Z.abs divisor <= T) by (subst T; unfold divisor_bound, pow63;
    destruct (Z.ltb_spec 0 divisor); lia).
  pose proof (Z.div_mod T (Z.abs divisor) ltac:(lia)).
  pose proof (Z.mod_pos_bound T (Z.abs divisor) ltac:(lia)).
  assert (1 <= T / Z.abs divisor) by (apply Z.div_le_lower_bound; lia). lia.
Qed.

(** The initial values, computed in [uint64_t]. *)
Lemma magic_initial divisor :
  is_s 64 divisor -> 2 <= Z.abs divisor ->
  (if 0 <=? divisor then divisor else wrapu 64 (- wrapu 64 divisor)) = Z.abs divisor /\
  let tmp := wrapu 64 (0x8000000000000000 + (wrapu 64 divisor >> 63)) in
  wrapu 64 (tmp - 1 - tmp mod Z.abs divisor) = nc (Z.abs divisor) (divisor_k divisor).
Proof.
  intros Hs H2. pose proof (divisor_k_spec divisor Hs H2) as [Hk Hn].
  rewrite Z.shiftr_div_pow2, (wrapu_of_s 64 divisor) by (done || lia).
  rewrite is_s64 in Hs. unfold kMinInt64, kMaxInt64 in Hs.
  assert (E : forall T, T = divisor_bound divisor + 1 ->
    wrapu 64 (T - 1 - T mod Z.abs divisor) = nc (Z.abs divisor) (divisor_k divisor)).
  { intros T ->. unfold nc, divisor_k in *.
    pose proof (Z.div_mod (divisor_bound divisor + 1) (Z.abs divisor) ltac:(lia)).
    set (K := (divisor_bound divisor + 1) / Z.abs divisor) in *.
    assert (2 <= K * Z.abs divisor) by nia.
    assert (divisor_bound divisor <= pow63)
      by (unfold divisor_bound; destruct (0 <? divisor); u64).
    rewrite wrapu_id; [|u64]. lia. }
  unfold divisor_bound in E. change (2 ^ 64) with 0x10000000000000000 in *.
  change (2 ^ 63) with 0x8000000000000000.
  destruct (Z.ltb_spec divisor 0) as [L|L].
  - rewrite (proj2 (Z.leb_gt 0 divisor)) by lia. rewrite (proj2 (Z.ltb_ge 0 divisor)) in E by lia.
    split; [unfold wrapu; symmetry; apply (Z.mod_unique_pos _ _ (-1)); u64|].
    assert ((divisor + 0x10000000000000000) / 0x8000000000000000 = 1) as ->
      by (symmetry; apply (Z.div_unique_pos _ _ _ (divisor + 0x8000000000000000)); lia).
    intros tmp. apply E. done.
  - rewrite (proj2 (Z.leb_le 0 divisor)) by lia. rewrite (proj2 (Z.ltb_lt 0 divisor)) in E by lia.
    split; [lia|]. rewrite Z.div_small by lia. intros tmp. apply E. done.
Qed.

(** A power of two is no multiple of a divisor of [2 ^ 63 + 1]. *)
Lemma pow_not_multiple D k p :
  2 <= D -> k * D - 1 = pow63 -> 0 <= p -> 2 ^ p mod D <> 0.
Proof.
  intros HD Hk Hp E. apply Z.mod_divide in E; [|lia]. revert p Hp E. unfold pow63 in Hk.
  apply (natlike_ind (fun p => (D | 2 ^ p) -> False)).
  - intros H%Z.divide_pos_le; simpl in *; lia.
  - intros p Hp IH. rewrite Z.pow_succ_r by done. intros [c Hc]. apply IH.
    exists (k * 2 ^ p - 0x4000000000000000 * c).
    replace ((k * 2 ^ p - 0x4000000000000000 * c) * D)
      with ((k * D) * 2 ^ p - 0x4000000000000000 * (c * D)) by ring.
    rewrite <- Hc. replace (k * D) with 0x8000000000000001 by lia. ring.
Qed.

Lemma calculate_spec divisor :
  is_s 64 divisor -> divisor <= -2 \/ 2 <= divisor ->
  exists p, magic_for divisor p /\
    CalculateMagicAndShiftForDivRem divisor =
    Ok (wraps 64 (Z.sgn divisor * multiplier (Z.abs divisor) p), p - 64).
Proof.
  intros Hs Hd. destruct (decide (divisor = kMinInt64)) as [->|Hmin].
  { exists 126. split; [|vm_compute; reflexivity].
    split; [lia|vm_compute; reflexivity|]. split; vm_compute; reflexivity. }
  assert (H2 : 2 <= Z.abs divisor) by lia.
  assert (HD : 2 <= Z.abs divisor < pow63).
  { rewrite is_s64 in Hs. unfold kMinInt64, kMaxInt64, pow63 in *. lia. }
  destruct (divisor_k_spec divisor Hs H2) as [Hk Hn].
  destruct (magic_initial divisor Hs H2) as [Ed En].
  assert (HB : divisor_bound divisor <= pow63)
    by (unfold divisor_bound; destruct (0 <? divisor); u64).
  unfold CalculateMagicAndShiftForDivRem.
  replace ((divisor <=? -2) || (2 <=? divisor)) with true
    by (symmetry; rewrite orb_true_iff, !Z.leb_le; lia).
  cbn [utils_assert mbind outcome_bind]. rewrite Ed, En.
  set (D := Z.abs divisor) in *. set (k := divisor_k divisor) in *.
  pose proof (nc_pos D k (proj1 HD) Hk) as Hp.
  assert (Hq : 2 ^ 63 / nc D k < pow63).
  { apply Z.div_lt_upper_bound; [lia|]. change (2 ^ 63) with pow63.
    unfold divisor_bound in Hn. destruct (0 <? divisor); unfold pow63 in *; lia. }
  destruct (magic_loop_spec D k (proj1 HD) Hk 64 63) as (p & Hp' & E & G & F);
    [lia..|done|change (2 ^ 63) with pow63; unfold pow63; lia|].
  assert (Ew : forall n, 0 < n -> wrapu 64 (2 ^ 63 / n) = 2 ^ 63 / n).
  { intros n Hn'. apply wrapu_id. split; [by apply Z.div_pos|].
    apply Z.div_lt_upper_bound; [done|]. change (2 ^ 63) with pow63. u64. }
  unfold magic_at in E at 1. rewrite !Ew in E by lia.
  change (2 ^ 63) with 0x8000000000000000 in E. rewrite E. cbn.
  exists p. split.
  - split; [lia|done|]. apply (multiplier_lt D k); [lia..| |].
    + destruct F as [->|F]; [by left|by right].
    + intros [Ec Em]. revert Em. apply (pow_not_multiple D k); [lia|done|lia].
  - do 2 f_equal. unfold multiplier. apply wraps_eq_wrapu.
    destruct (Z.ltb_spec 0 divisor) as [L|L].
    + rewrite Z.sgn_pos by done. rewrite wrapu_idemp, wrapu_add_l. f_equal. lia.
    + rewrite Z.sgn_neg by lia. rewrite wrapu_idemp.
      rewrite <- (wrapu_sub_l 64 (- wrapu 64 _)).
      replace (- wrapu 64 (2 ^ p / D)) with (0 - wrapu 64 (2 ^ p / D)) by lia.
      rewrite wrapu_sub_r, wrapu_sub_l. f_equal. lia.
Qed.

(** ** The generated code *)

(** The high half of the product, corrected, is that of the product with the multiplier
    itself. *)
Definition corrected_high (divisor magic numerator : Z) : Z :=
  let RDX := imulq_high magic numerator in
  if (0 <? divisor) && (magic <? 0) then addq RDX numerator
  else if (divisor <? 0) && (0 <? magic) then subq RDX numerator
  else RDX.

Lemma high_fits M n s :
  0 < M < 2 ^ 64 -> is_s 64 n -> s = 1 \/ s = -1 -> is_s 64 (s * M * n / 2 ^ 64).
Proof.
  rewrite !is_s64. unfold kMinInt64, kMaxInt64. intros HM Hn Hs.
  change (2 ^ 64) with 0x10000000000000000 in *.
  split; [apply Z.div_le_lower_bound|apply Z.lt_succ_r, Z.div_lt_upper_bound]; [lia| |lia|];
    destruct Hs as [-> | ->]; nia.
Qed.

Lemma corrected_high_spec divisor M n :
  divisor <> 0 -> 0 < M < 2 ^ 64 -> is_s 64 n ->
  corrected_high divisor (wraps 64 (Z.sgn divisor * M)) n = Z.sgn divisor * M * n / 2 ^ 64.
Proof.
  intros Hd HM Hn. assert (Hs : Z.sgn divisor = 1 \/ Z.sgn divisor = -1) by lia.
  pose proof (high_fits M n _ HM Hn Hs) as HF.
  unfold corrected_high, imulq_high, addq, subq.
  rewrite !Z.shiftr_div_pow2 by lia.
  assert (HM' : 0 < M < 0x10000000000000000) by done.
  assert (C : forall c, wraps 64 (wraps 64 ((Z.sgn divisor * M + c * 2 ^ 64) * n / 2 ^ 64)
                                  - c * n) = Z.sgn divisor * M * n / 2 ^ 64).
  { intros c. replace ((Z.sgn divisor * M + c * 2 ^ 64) * n)
      with (Z.sgn divisor * M * n + c * n * 2 ^ 64) by ring.
    rewrite Z.div_add by done. rewrite <- (wraps_id 64 (_ / _)) by (done || lia).
    apply wraps_eq_wrapu. rewrite <- wrapu_sub_l, wrapu_wraps, wrapu_sub_l. f_equal.
    rewrite wraps_id by (done || lia). lia. }
  assert (EW : exists c, wraps 64 (Z.sgn divisor * M) = Z.sgn divisor * M + c * 2 ^ 64 /\
    (c = 0 \/ c = -1 /\ 0 < divisor /\ wraps 64 (Z.sgn divisor * M) < 0 \/
     c = 1 /\ divisor < 0 /\ 0 < wraps 64 (Z.sgn divisor * M)) /\
    (c = 0 -> 0 < divisor /\ 0 <= wraps 64 (Z.sgn divisor * M) \/
              divisor < 0 /\ wraps 64 (Z.sgn divisor * M) < 0)).
  { destruct (Z.lt_total 0 divisor) as [L|[L|L]]; [|lia|].
    - rewrite Z.sgn_pos, Z.mul_1_l by done. rewrite wraps_of_u by u64.
      change (2 ^ (64 - 1)) with 0x8000000000000000. change (2 ^ 64) with 0x10000000000000000.
      destruct (Z.ltb_spec M 0x8000000000000000); [exists 0|exists (-1)]; lia.
    - rewrite Z.sgn_neg by done. destruct (Z.le_gt_cases M 0x8000000000000000).
      + exists 0. rewrite wraps_id; [lia..|].
        apply is_s64. unfold kMinInt64, kMaxInt64. lia.
      + exists 1. assert (wraps 64 (-1 * M) = 0x10000000000000000 - M) as ->; [|lia].
        rewrite <- (wraps_id 64 (0x10000000000000000 - M)); [|lia|].
        * apply wraps_eq_wrapu. unfold wrapu.
          replace (0x10000000000000000 - M) with (-1 * M + 1 * 2 ^ 64) by lia.
          by rewrite Z.mod_add.
        * apply is_s64. unfold kMinInt64, kMaxInt64. lia. }
  destruct EW as (c & E & Hc & H0). specialize (C c). rewrite E in *.
  destruct (Z.ltb_spec 0 divisor), (Z.ltb_spec (Z.sgn divisor * M + c * 2 ^ 64) 0),
    (Z.ltb_spec divisor 0), (Z.ltb_spec 0 (Z.sgn divisor * M + c * 2 ^ 64)); simpl;
    destruct Hc as [->|[(-> & ? & ?)|(-> & ? & ?)]]; try lia;
    try (specialize (H0 eq_refl); lia).
  all: first [ rewrite Z.mul_0_l, Z.add_0_r, wraps_id; [done|lia|done]
             | rewrite <- C; f_equal; lia ].
Qed.

(** Rounding towards zero: one is added to a negative quotient. *)
Lemma round_up q :
  is_s 64 q -> q <> kMaxInt64 -> addq (shrq q 63) q = if q <? 0 then q + 1 else q.
Proof.
  intros Hq Hm. unfold addq, shrq. rewrite Z.shiftr_div_pow2, (wrapu_of_s 64 q) by (done || lia).
  rewrite is_s64 in Hq. unfold kMinInt64, kMaxInt64 in *.
  change (2 ^ 64) with 0x10000000000000000. change (2 ^ 63) with 0x8000000000000000.
  destruct (Z.ltb_spec q 0).
  - assert ((q + 0x10000000000000000) / 0x8000000000000000 = 1) as ->
      by (symmetry; apply (Z.div_unique_pos _ _ _ (q + 0x8000000000000000)); lia).
    change (wraps 64 1) with 1.
    rewrite wraps_id; [lia|lia|]. apply is_s64. unfold kMinInt64, kMaxInt64. lia.
  - rewrite Z.div_small by lia. change (wraps 64 0) with 0. rewrite wraps_id; [lia|lia|].
    apply is_s64. unfold kMinInt64, kMaxInt64. lia.
Qed.

(** The quotient of the product with the multiplier. *)
Lemma multiplier_quotient divisor p n :
  is_s 64 divisor -> 2 <= Z.abs divisor -> magic_for divisor p -> is_s 64 n ->
  let t := Z.sgn divisor * multiplier (Z.abs divisor) p * n / 2 ^ p in
  (if t <? 0 then t + 1 else t) = Z.quot n divisor.
Proof.
  intros Hs H2 [Hp HG _] Hn t. subst t.
  destruct (divisor_k_spec divisor Hs H2) as [Hk HB].
  rewrite is_s64 in Hn. unfold kMinInt64, kMaxInt64, divisor_bound in *.
  set (D := Z.abs divisor) in *. set (k := divisor_k divisor) in *.
  assert (Hfloor : forall m, 0 <= m -> excess D p * m < (D - m mod D) * 2 ^ p ->
    let t := multiplier D p * m / 2 ^ p in (if t <? 0 then t + 1 else t) = m / D).
  { intros m Hm HR. cbv zeta. rewrite multiplier_floor by (done || lia).
    pose proof (Z.div_pos m D Hm ltac:(lia)). destruct (Z.ltb_spec (m / D) 0); lia. }
  assert (Hceil : forall m, 1 <= m -> excess D p * m <= (D - m mod D) * 2 ^ p ->
    let t := - (multiplier D p * m) / 2 ^ p in (if t <? 0 then t + 1 else t) = - (m / D)).
  { intros m Hm HR. cbv zeta. rewrite multiplier_ceil by (done || lia).
    pose proof (Z.div_pos m D ltac:(lia) ltac:(lia)).
    destruct (Z.ltb_spec (- (m / D) - 1) 0); lia. }
  assert (Hroom : forall B m, B < nc D k + D -> 0 <= m <= B ->
    excess D p * m < (D - m mod D) * 2 ^ p).
  { intros B m HB' Hm. by apply (remainder_room D k) with B. }
  destruct (Z.lt_total 0 divisor) as [L|[L|L]]; [|lia|].
  - rewrite (proj2 (Z.ltb_lt 0 divisor) L) in HB. rewrite Z.sgn_pos by done.
    assert (ED : divisor = D) by lia. rewrite ED.
    destruct (Z.le_gt_cases 0 n).
    + rewrite Z.quot_div_nonneg by lia. rewrite Z.mul_1_l. apply Hfloor; [done|].
      apply (Hroom (pow63 - 1)); unfold pow63 in *; lia.
    + replace n with (- - n) by lia. rewrite Z.quot_opp_l, Z.quot_div_nonneg by lia.
      replace (1 * multiplier D p * - - n) with (- (multiplier D p * - n)) by ring.
      apply Hceil; [lia|].
      destruct (decide (- n = pow63 /\ pow63 mod D = D - 1)) as [[En Em]|N].
      * rewrite En, Em. pose proof (min_room D ltac:(lia) p ltac:(lia) Em). lia.
      * apply Z.lt_le_incl, (Hroom (- n)); [|lia].
        destruct (decide (- n = nc D k + D)) as [E|]; [|unfold pow63 in *; lia].
        exfalso. apply N. assert (- n = pow63) as E' by (unfold pow63 in *; lia).
        split; [done|]. rewrite <- E', E. unfold nc.
        symmetry. apply (Z.mod_unique_pos _ _ k); lia.
  - rewrite (proj2 (Z.ltb_ge 0 divisor)) in HB by lia. rewrite Z.sgn_neg by done.
    assert (ED : divisor = - D) by lia. rewrite ED, Z.quot_opp_r by lia.
    destruct (Z.le_gt_cases n 0).
    + rewrite <- Z.quot_opp_l, Z.quot_div_nonneg by lia.
      replace (-1 * multiplier D p * n) with (multiplier D p * - n) by ring.
      apply Hfloor; [lia|]. apply (Hroom pow63); unfold pow63 in *; lia.
    + rewrite Z.quot_div_nonneg by lia.
      replace (-1 * multiplier D p * n) with (- (multiplier D p * n)) by ring.
      apply Hceil; [lia|]. apply Z.lt_le_incl, (Hroom pow63); unfold pow63 in *; lia.
Qed.

(** C14: division and remainder by a constant.  For every divisor other than 0, 1 and -1 and
    every 64-bit numerator the calculation terminates, and the code that multiplies by the
    magic number computes exactly the truncating division and the Euclidean remainder that
    the runtime's [Integer::ArithmeticOp] computes with a division. *)
Theorem magic_division {smi : SmiTarget} op divisor numerator :
  op = kTRUNCDIV \/ op = kMOD ->
  is_s 64 divisor -> divisor <= -2 \/ 2 <= divisor -> is_s 64 numerator ->
  exists v, EmitInt64ModTruncDiv op divisor numerator = Ok v /\
    ArithmeticOp op numerator divisor = Ok v.
Proof.
  intros Hop Hd H2 Hn. destruct (calculate_spec divisor Hd H2) as (p & Hp & E).
  assert (Ha : 2 <= Z.abs divisor) by lia. assert (Hd0 : divisor <> 0) by lia.
  assert (Q : magic_quotient divisor (wraps 64 (Z.sgn divisor * multiplier (Z.abs divisor) p))
                (p - 64) numerator = Z.quot numerator divisor).
  { pose proof (multiplier_quotient divisor p numerator Hd Ha Hp Hn) as MQ.
    destruct Hp as [Hp1 HG HM]. unfold magic_quotient.
    fold (corrected_high divisor (wraps 64 (Z.sgn divisor * multiplier (Z.abs divisor) p))
            numerator).
    rewrite corrected_high_spec by done. unfold sarq.
    set (h := Z.sgn divisor * multiplier (Z.abs divisor) p * numerator) in *.
    assert (Eh : (if negb (p - 64 =? 0) then (h / 2 ^ 64) >> (p - 64) else h / 2 ^ 64)
                 = h / 2 ^ p).
    { destruct (Z.eqb_spec (p - 64) 0) as [E0|_]; cbn [negb].
      - by replace p with 64 by lia.
      - rewrite Z.shiftr_div_pow2, Z.div_div by (try apply pow2_pos; lia).
        rewrite <- Z.pow_add_r by lia. do 2 f_equal. lia. }
    rewrite Eh. cbv zeta in MQ. pose proof (quot_half numerator divisor Ha).
    assert (HQ : - 0x4000000000000001 <= h / 2 ^ p <= 0x4000000000000000).
    { rewrite is_s64 in Hn. unfold kMinInt64, kMaxInt64 in Hn.
      destruct (Z.ltb_spec (h / 2 ^ p) 0); lia. }
    rewrite round_up; [done|apply is_s64; unfold kMinInt64, kMaxInt64; lia|].
    unfold kMaxInt64. lia. }
  unfold EmitInt64ModTruncDiv. rewrite E. cbn [mbind outcome_bind]. rewrite Q.
  destruct Hop as [-> | ->]; cbn [bool_decide decide_rel Token_eq_dec orb utils_assert].
  - exists (Z.quot numerator divisor). split; [done|].
    rewrite ArithmeticOp_truncdiv by done. rewrite wraps_id; [done|lia|].
    pose proof (quot_half numerator divisor Ha). rewrite is_s64 in *.
    unfold kMinInt64, kMaxInt64 in *. lia.
  - exists (numerator mod Z.abs divisor). split; [|by apply ArithmeticOp_mod].
    cbn. rewrite <- adjust_remainder_spec by done.
    pose proof (Z.rem_bound_abs numerator divisor Hd0) as HR.
    assert (HF : forall x, Z.abs x < 0x8000000000000000 -> wraps 64 x = x).
    { intros x Hx. apply wraps_id; [lia|]. apply is_s64. unfold kMinInt64, kMaxInt64. lia. }
    rewrite is_s64 in Hd. unfold kMinInt64, kMaxInt64 in Hd.
    assert (ER : subq numerator (imulq (numerator ÷ divisor) divisor) = Z.rem numerator divisor).
    { unfold subq, imulq. rewrite <- (HF (Z.rem numerator divisor)) by lia.
      apply wraps_eq_wrapu. rewrite <- wrapu_sub_r, wrapu_wraps, wrapu_sub_r. f_equal.
      pose proof (Z.quot_rem' numerator divisor). lia. }
    rewrite ER. unfold adjust_remainder, addq, subq.
    destruct (Z.leb_spec 0 (Z.rem numerator divisor)), (Z.ltb_spec (Z.rem numerator divisor) 0);
      [lia|done| |lia].
    destruct (Z.ltb_spec 0 divisor), (Z.ltb_spec divisor 0); [lia| | |lia];
      rewrite HF by lia; done.
Qed.

Lemma magic_division_witness :
  exists v, EmitInt64ModTruncDiv kMOD (-7) (-100) = Ok v /\
    @ArithmeticOp Smi62 kMOD (-100) (-7) = Ok v.
Proof. apply (magic_division (smi := Smi62)); unfold is_s; [by right|lia|lia|lia]. Defined.
