(* ===== verification/StringHash.v ===== *)
(** Hashes of [runtime/platform/utils.cc]: [Utils::StringHash] and [Utils::WordHash].

    [StringHash] reads four bytes at a time.  On data that does not start at a multiple of
    four it reads aligned words all the same and assembles each part of the hash from two
    of them in a window; the theorem shows that the hash does not depend on the address.

    The cursor is the list of the bytes from it to the end of the data, so that the variable
    [size] is its length; reading past the end is [Undefined].  Words are little endian, as
    on all hosts the VM runs on. *)
From stdpp Require Import base numbers list.
From Stdlib Require Import ZArith Lia.
From S2P Require Import Prelude Utils.
Local Open Scope Z_scope.
Local Open Scope cxx_scope.

Definition kStringHashM : Z := 0x5bd1e995.
Definition kStringHashR : Z := 24.

(** The macro [MIX]: the new [hash]. *)
Definition MIX (hash part : Z) : Z :=
  let part := wrapu 32 (part * kStringHashM) in
  let part := part .^ (part >> kStringHashR) in
  let part := wrapu 32 (part * kStringHashM) in
  let hash := wrapu 32 (hash * kStringHashM) in
  hash .^ part.

(** [cursor[i]] and [*reinterpret_cast<const uint32_t*>(cursor)]. *)
Definition byte_at (cursor : list Z) (i : nat) : outcome utils_error Z :=
  match cursor !! i with Some b => Ok b | None => Undefined end.

Definition word_at (cursor : list Z) : outcome utils_error Z :=
  b0 ← byte_at cursor 0; b1 ← byte_at cursor 1; b2 ← byte_at cursor 2; b3 ← byte_at cursor 3;
  Ok (b0 .| b1 << 8 .| b2 << 16 .| b3 << 24).

Definition size (cursor : list Z) : Z := Z.of_nat (length cursor).

(** The statement [x |= cursor[i] << n] under a [case] that is reached when [reached]. *)
Definition or_byte (reached : bool) (cursor : list Z) (i : nat) (n x : Z)
    : outcome utils_error Z :=
  if reached then b ← byte_at cursor i; Ok (x .| wrapu 32 (b << n)) else Ok x.

(** [switch (n)] with the cases 3, 2 and 1 falling through, for bytes at the offset [sl] in
    the window. *)
Definition or_bytes (n sl : Z) (cursor : list Z) (data_window : Z) : outcome utils_error Z :=
  data_window ← or_byte (3 <=? n) cursor 2 (16 + sl) data_window;
  data_window ← or_byte (2 <=? n) cursor 1 (8 + sl) data_window;
  or_byte (1 <=? n) cursor 0 sl data_window.

(** The loop over aligned words with a window of pending bytes: the hash, the window and
    the cursor after it. *)
Fixpoint window_loop (fuel : nat) (sl sr hash data_window : Z) (cursor : list Z)
    : outcome utils_error (Z * Z * list Z) :=
  if 4 <=? size cursor then
    match fuel with
    | O => Fatal UtilsFuel
    | S fuel =>
        aligned_part ← word_at cursor;
        let data_window := data_window .| wrapu 32 (aligned_part << sl) in
        let hash := MIX hash data_window in
        let data_window := aligned_part >> sr in
        window_loop fuel sl sr hash data_window (drop 4 cursor)
    end
  else Ok (hash, data_window, cursor).

(** The loop for data that is aligned. *)
Fixpoint word_loop (fuel : nat) (hash : Z) (cursor : list Z)
    : outcome utils_error (Z * list Z) :=
  if 4 <=? size cursor then
    match fuel with
    | O => Fatal UtilsFuel
    | S fuel =>
        part ← word_at cursor;
        word_loop fuel (MIX hash part) (drop 4 cursor)
    end
  else Ok (hash, cursor).

(** The branch for a positive [misalignment]. *)
Definition hash_misaligned (misalignment hash : Z) (cursor : list Z)
    : outcome utils_error (Z * list Z) :=
  let sr := misalignment * 8 in
  let sl := 32 - sr in
  let pre_alignment_length := 4 - misalignment in
  data_window ← or_bytes pre_alignment_length 0 cursor 0;
  let cursor := drop (Z.to_nat pre_alignment_length) cursor in
  '(hash, data_window, cursor) ← window_loop (length cursor) sl sr hash data_window cursor;
  if misalignment <=? size cursor then
    data_window ← or_bytes misalignment sl cursor data_window;
    Ok (MIX hash data_window, drop (Z.to_nat misalignment) cursor)
  else
    data_window ← or_byte (size cursor =? 2) cursor 1 (8 + sl) data_window;
    data_window ← or_byte ((size cursor =? 2) || (size cursor =? 1)) cursor 0 sl data_window;
    let hash := hash .^ data_window in
    Ok (wrapu 32 (hash * kStringHashM), []).

(** The last few bytes, and the final mixes. *)
Definition hash_tail (hash : Z) (cursor : list Z) : outcome utils_error Z :=
  hash ← (match cursor with
          | [b0; b1; b2] =>
              Ok (wrapu 32 ((hash .^ wrapu 32 (b2 << 16) .^ wrapu 32 (b1 << 8) .^ b0)
                            * kStringHashM))
          | [b0; b1] => Ok (wrapu 32 ((hash .^ wrapu 32 (b1 << 8) .^ b0) * kStringHashM))
          | [b0] => Ok (wrapu 32 ((hash .^ b0) * kStringHashM))
          | _ => Ok hash
          end);
  let hash := hash .^ (hash >> 13) in
  let hash := wrapu 32 (hash * kStringHashM) in
  Ok (hash .^ (hash >> 15)).

(** [StringHash(data, length)] for the bytes [data] at [address], a pointer converted to
    [intptr_t]. *)
Definition StringHash (address : Z) (data : list Z) : outcome utils_error Z :=
  let hash := wrapu 32 (size data) in
  '(hash, cursor) ←
    (if 4 <=? size data then
       let misalignment := Z.rem address 4 in
       if 0 <? misalignment then hash_misaligned misalignment hash data
       else word_loop (length data) hash data
     else Ok (hash, data));
  hash_tail hash cursor.

(** [WordHash] on a 64-bit host. *)
Definition WordHash (key : Z) : Z :=
  let a := wrapu 64 key in
  let a := wrapu 64 (a + 0x7ed55d16 + wrapu 64 (a << 12)) in
  let a := a .^ 0xc761c23c .^ (a >> 19) in
  let a := wrapu 64 (a + 0x165667b1 + wrapu 64 (a << 5)) in
  let a := wrapu 64 (a + 0xd3a2646c) .^ wrapu 64 (a << 9) in
  let a := wrapu 64 (a + 0xfd7046c5 + wrapu 64 (a << 3)) in
  let a := a .^ 0xb55a4f09 .^ (a >> 16) in
  wrapu 32 a.

(** ** The window against the words *)

(** The bytes of a list as a number, with the operations of the code. *)
Fixpoint packed (bs : list Z) : Z :=
  match bs with
  | [] => 0
  | b :: bs => b .| packed bs << 8
  end.

(** The hash of the words of a list, and the bytes that are left. *)
Fixpoint words (hash : Z) (bs : list Z) : Z * list Z :=
  match bs with
  | b0 :: b1 :: b2 :: b3 :: bs => words (MIX hash (packed [b0; b1; b2; b3])) bs
  | _ => (hash, bs)
  end.

Lemma word_at_packed b0 b1 b2 b3 bs :
  word_at (b0 :: b1 :: b2 :: b3 :: bs) = Ok (packed [b0; b1; b2; b3]).
Proof.
  cbn. f_equal. rewrite !Z.shiftl_lor, !Z.shiftl_shiftl, Z.shiftl_0_l, Z.lor_0_r by lia.
  by rewrite !Z.lor_assoc.
Qed.

Lemma packed_app p bs : packed (p ++ bs) = packed p .| packed bs << (8 * Z.of_nat (length p)).
Proof.
  induction p as [|b p IH]; cbn [packed app length].
  - by rewrite Z.lor_0_l, Z.shiftl_0_r.
  - rewrite IH, Z.shiftl_lor, Z.shiftl_shiftl, Z.lor_assoc by lia. do 2 f_equal. lia.
Qed.

Lemma packed_u bs : Forall (is_u 8) bs -> is_u (8 * Z.of_nat (length bs)) (packed bs).
Proof.
  induction 1 as [|b bs Hb _ IH]; [done|]. cbn [packed length].
  apply lor_u; [lia| |].
  - destruct Hb as [? Hb]. split; [done|]. eapply Z.lt_le_trans; [exact Hb|].
    apply pow2_le. lia.
  - unfold is_u in *. rewrite Z.shiftl_mul_pow2 by lia.
    replace (8 * Z.of_nat (S (length bs))) with (8 * Z.of_nat (length bs) + 8) by lia.
    rewrite Z.pow_add_r by lia. lia.
Qed.

(** The window with the low bytes of the next word, and what is left of the word. *)
Lemma packed_low p bs n :
  Forall (is_u 8) p -> Forall (is_u 8) bs -> (length p + n = 4)%nat -> (n <= length bs)%nat ->
  packed p .| wrapu 32 (packed bs << (8 * Z.of_nat (length p))) = packed (p ++ take n bs).
Proof.
  intros Hp Hb Hn Hl. rewrite packed_app. f_equal.
  rewrite <- (take_drop n bs) at 1. rewrite packed_app, length_take_le by done.
  pose proof (packed_u (take n bs) ltac:(by apply Forall_take)) as Hu.
  rewrite length_take_le in Hu by done.
  rewrite <- (wrapu_id 32 (packed (take n bs) << _)).
  2:{ unfold is_u in *. rewrite Z.shiftl_mul_pow2 by lia.
      replace 32 with (8 * Z.of_nat n + 8 * Z.of_nat (length p)) by lia.
      rewrite Z.pow_add_r by lia. pose proof (pow2_pos (8 * Z.of_nat (length p))). nia. }
  apply wrapu_bits; [lia|]. intros i Hi. rewrite Z.shiftl_lor, Z.shiftl_shiftl, Z.lor_spec by lia.
  rewrite (Z.shiftl_spec (packed (drop n bs))), (Z.testbit_neg_r _ (i - _)) by lia.
  apply orb_false_r.
Qed.

Lemma packed_high bs n :
  Forall (is_u 8) bs -> (n <= length bs)%nat ->
  packed bs >> (8 * Z.of_nat n) = packed (drop n bs).
Proof.
  intros Hb Hl. rewrite <- (take_drop n bs) at 1. rewrite packed_app, length_take_le by done.
  pose proof (packed_u (take n bs) ltac:(by apply Forall_take)) as Hu.
  rewrite length_take_le in Hu by done.
  rewrite Z.shiftr_lor, Z.shiftr_shiftl_l, Z.sub_diag, Z.shiftl_0_r by lia.
  rewrite Z.shiftr_div_pow2 by lia. by rewrite Z.div_small.
Qed.

Lemma byte_shift b n : is_u 8 b -> 0 <= n <= 24 -> wrapu 32 (b << n) = b << n.
Proof.
  intros [? Hb] Hn. apply wrapu_id. unfold is_u. rewrite Z.shiftl_mul_pow2 by lia.
  pose proof (pow2_pos n ltac:(lia)). pose proof (pow2_le n 24 ltac:(lia)).
  change (2 ^ 32) with (2 ^ 8 * 2 ^ 24). nia.
Qed.

(** A [switch] that falls through from [n] ors the first [n] bytes into the window. *)
Lemma or_bytes_spec n sl cursor w :
  1 <= n <= 3 -> 0 <= sl -> 8 * n + sl <= 32 -> n <= size cursor -> Forall (is_u 8) cursor ->
  or_bytes n sl cursor w = Ok (w .| packed (take (Z.to_nat n) cursor) << sl).
Proof.
  intros Hn Hsl Hs Hc Hb. unfold size, or_bytes in *.
  assert (n = 1 \/ n = 2 \/ n = 3) as [-> | [-> | ->]] by lia;
    destruct Hb as [|b0 ? H0 Hb]; simpl length in Hc; [lia| |lia| |lia|].
  - change (Z.to_nat 1) with 1%nat. simpl. rewrite byte_shift by (done || lia).
    by rewrite Z.lor_0_r.
  - destruct Hb as [|b1 ? H1 Hb]; simpl length in Hc; [lia|].
    change (Z.to_nat 2) with 2%nat. simpl. rewrite !byte_shift by (done || lia).
    rewrite Z.lor_0_r, Z.shiftl_lor, Z.shiftl_shiftl by lia.
    by rewrite <- Z.lor_assoc, (Z.lor_comm (b1 << _)).
  - destruct Hb as [|b1 ? H1 Hb]; simpl length in Hc; [lia|].
    destruct Hb as [|b2 ? H2 Hb]; simpl length in Hc; [lia|].
    change (Z.to_nat 3) with 3%nat. simpl. rewrite !byte_shift by (done || lia).
    rewrite Z.lor_0_r, !Z.shiftl_lor, !Z.shiftl_shiftl by lia.
    rewrite <- !Z.lor_assoc. do 2 f_equal.
    rewrite (Z.lor_comm (b2 << _)), <- Z.lor_assoc, Z.lor_assoc.
    rewrite (Z.lor_comm (b1 << _)), <- Z.lor_assoc. do 3 f_equal. lia.
Qed.

Lemma word_loop_words fuel hash bs :
  (length bs <= fuel)%nat -> word_loop fuel hash bs = Ok (words hash bs).
Proof.
  revert hash bs. induction fuel as [|fuel IH]; intros hash bs Hl.
  - by destruct bs; [|simpl in Hl; lia].
  - unfold word_loop; fold word_loop. unfold size.
    destruct bs as [|b0 [|b1 [|b2 [|b3 bs]]]]; try done.
    rewrite (proj2 (Z.leb_le 4 _)) by (simpl length; lia).
    rewrite word_at_packed. cbn [mbind outcome_bind drop words]. rewrite drop_0.
    apply IH. simpl in Hl. lia.
Qed.

(** The loop with the window, as the words of the pending bytes and the rest. *)
Lemma window_loop_words a n fuel hash pending cursor :
  (a + n = 4)%nat -> length pending = a -> Forall (is_u 8) pending -> Forall (is_u 8) cursor ->
  (length cursor <= fuel)%nat ->
  exists hash' pending' cursor',
    window_loop fuel (8 * Z.of_nat a) (8 * Z.of_nat n) hash (packed pending) cursor =
      Ok (hash', packed pending', cursor') /\
    words hash (pending ++ cursor) = words hash' (pending' ++ cursor') /\
    length pending' = a /\ (length cursor' < 4)%nat /\
    Forall (is_u 8) pending' /\ Forall (is_u 8) cursor'.
Proof.
  intros Han. revert hash pending cursor.
  induction fuel as [|fuel IH]; intros hash pending cursor Ha Hp Hc Hl;
    unfold window_loop; fold window_loop; unfold size.
  all: destruct (Z.leb_spec 4 (Z.of_nat (length cursor))) as [L|L];
    [try lia|exists hash, pending, cursor; repeat split; auto; lia].
  destruct cursor as [|b0 [|b1 [|b2 [|b3 bs]]]]; simpl length in *; try lia.
  rewrite word_at_packed. cbn [mbind outcome_bind drop]. rewrite drop_0.
  change (b0 :: b1 :: b2 :: b3 :: bs) with ([b0; b1; b2; b3] ++ bs) in *.
  apply Forall_app in Hc as [Hw Hb]. set (w := [b0; b1; b2; b3]) in *.
  assert (Hlw : length w = 4%nat) by done.
  assert (Hlo : packed pending .| wrapu 32 (packed w << (8 * Z.of_nat a))
                = packed (pending ++ take n w)).
  { subst a. apply packed_low; (done || lia). }
  rewrite Hlo, packed_high by (done || lia).
  destruct (IH (MIX hash (packed (pending ++ take n w))) (drop n w) bs)
    as (h' & p' & c' & E & W & R); [rewrite length_drop; lia|by apply Forall_drop|done|lia|].
  exists h', p', c'. split; [exact E|]. split; [|done]. rewrite <- W.
  rewrite <- (take_drop n w) at 1. rewrite <- app_assoc, app_assoc.
  assert (Hl4 : length (pending ++ take n w) = 4%nat)
    by (rewrite length_app, length_take_le; lia).
  destruct (pending ++ take n w) as [|x0 [|x1 [|x2 [|x3 [|]]]]]; simpl in Hl4; try lia.
  done.
Qed.

Lemma lor_byte b x : is_u 8 b -> b .| x << 8 = b .^ x << 8.
Proof.
  intros Hb. symmetry. apply Z.lxor_lor, Z.bits_inj'. intros i Hi.
  rewrite Z.land_spec, Z.shiftl_spec, Z.bits_0 by lia.
  destruct (Z.lt_ge_cases i 8).
  - rewrite (Z.testbit_neg_r x) by lia. apply andb_false_r.
  - by rewrite (testbit_high 8 b) by (done || lia).
Qed.

(** The bytes that are left, fewer than a word, whether or not they went through the
    window. *)
Lemma tail_partial hash bs :
  Forall (is_u 8) bs -> (1 <= length bs < 4)%nat ->
  hash_tail hash bs = hash_tail (wrapu 32 ((hash .^ packed bs) * kStringHashM)) [].
Proof.
  intros Hb Hl. destruct Hb as [|b0 ? H0 Hb]; [simpl in Hl; lia|].
  destruct Hb as [|b1 ? H1 Hb]; [by cbn; rewrite Z.lor_0_r|].
  destruct Hb as [|b2 ? H2 Hb]; [|destruct Hb; [|simpl in Hl; lia]];
    unfold hash_tail, packed; cbn [mbind outcome_bind]; rewrite !byte_shift by (done || lia);
    rewrite Z.shiftl_0_l, Z.lor_0_r, !lor_byte by done.
  - by rewrite Z.lxor_assoc, (Z.lxor_comm (b1 << 8)).
  - rewrite Z.shiftl_lxor, Z.shiftl_shiftl by lia. change (8 + 8) with 16.
    by rewrite !Z.lxor_assoc, (Z.lxor_comm (b1 << 8)), (Z.lxor_comm (b2 << 16)), !Z.lxor_assoc.
Qed.

Lemma hash_misaligned_words a n hash data :
  (a + n = 4)%nat -> (1 <= a <= 3)%nat -> (4 <= length data)%nat -> Forall (is_u 8) data ->
  ('(h, c) ← hash_misaligned (Z.of_nat n) hash data; hash_tail h c) =
  (let '(h, c) := words hash data in hash_tail h c).
Proof.
  intros Han Ha Hl Hb. unfold hash_misaligned.
  replace (4 - Z.of_nat n) with (Z.of_nat a) by lia.
  replace (32 - Z.of_nat n * 8) with (8 * Z.of_nat a) by lia.
  replace (Z.of_nat n * 8) with (8 * Z.of_nat n) by lia.
  rewrite or_bytes_spec by (done || unfold size; lia).
  rewrite Z.shiftl_0_r, Z.lor_0_l. cbn [mbind outcome_bind]. rewrite !Nat2Z.id.
  destruct (window_loop_words a n (length (drop a data)) hash (take a data) (drop a data))
    as (h & p & c & E & W & Hp & Hc & Bp & Bc);
    [done|rewrite length_take_le; lia|by apply Forall_take|by apply Forall_drop|done|].
  rewrite E. rewrite take_drop in W. rewrite W. cbn [mbind outcome_bind].
  destruct (Z.leb_spec (Z.of_nat n) (size c)) as [L|L]; unfold size in L.
  - rewrite or_bytes_spec by (done || unfold size; lia). cbn [mbind outcome_bind].
    rewrite <- (take_drop n c) at 3. rewrite app_assoc.
    rewrite ?Nat2Z.id.
    assert (Hl4 : length (p ++ take n c) = 4%nat) by (rewrite length_app, length_take_le; lia).
    rewrite <- Hp, <- packed_app.
    destruct (p ++ take n c) as [|x0 [|x1 [|x2 [|x3 [|]]]]]; simpl in Hl4; try lia.
    cbn [app words]. rewrite <- Hp in Han.
    assert (length (drop n c) < 4)%nat by (rewrite length_drop; lia).
    destruct (drop n c) as [|y0 [|y1 [|y2 [|]]]]; simpl length in *; try lia; done.
  - assert (Hw : words h (p ++ c) = (h, p ++ c)).
    { assert (length (p ++ c) < 4)%nat by (rewrite length_app; lia).
      destruct (p ++ c) as [|y0 [|y1 [|y2 [|]]]]; simpl length in *; try lia; done. }
    rewrite Hw, tail_partial by (rewrite ?Forall_app, ?length_app; (done || lia)).
    rewrite packed_app, Hp.
    assert (Hc2 : (length c = 0 \/ length c = 1 \/ length c = 2)%nat) by lia.
    unfold or_byte, byte_at, size.
    destruct Bc as [|c0 ? B0 Bc]; [by cbn; rewrite Z.shiftl_0_l, Z.lor_0_r|].
    destruct Bc as [|c1 ? B1 Bc]; [|destruct Bc as [|]; [|simpl in Hc2; lia]];
      simpl length in *; change (Z.of_nat 1) with 1; change (Z.of_nat 2) with 2;
      cbn [Z.of_nat Pos.of_succ_nat Pos.succ Z.eqb Pos.eqb orb lookup
        list_lookup mbind outcome_bind packed].
    + rewrite byte_shift, Z.shiftl_0_l, Z.lor_0_r by (done || lia). done.
    + rewrite !byte_shift by (done || lia).
      rewrite Z.shiftl_0_l, Z.lor_0_r, Z.shiftl_lor, Z.shiftl_shiftl by lia.
      by rewrite <- Z.lor_assoc, (Z.lor_comm (c1 << _)).
Qed.

(** C24: the hash of a string does not depend on where the string is.  For every address and
    every array of bytes [StringHash] terminates, reads within the array, and returns the
    hash it computes for aligned data: the path that assembles each part from two aligned
    words agrees with the one that reads it at once. *)
Theorem StringHash_alignment address data :
  Forall (is_u 8) data ->
  exists h, StringHash address data = Ok h /\ StringHash 0 data = Ok h.
Proof.
  intros Hb.
  assert (E : forall a, StringHash a data =
    let '(h, c) := words (wrapu 32 (size data)) data in hash_tail h c).
  { intros a. unfold StringHash.
    destruct (Z.leb_spec 4 (size data)) as [L|L]; unfold size in L.
    - destruct (Z.ltb_spec 0 (Z.rem a 4)) as [M|M].
      + assert (Z.rem a 4 < 4) by (pose proof (Z.rem_bound_abs a 4); lia).
        pose proof (hash_misaligned_words (Z.to_nat (4 - Z.rem a 4)) (Z.to_nat (Z.rem a 4))
          (wrapu 32 (size data)) data ltac:(lia) ltac:(lia) ltac:(lia) Hb) as H'.
        rewrite Z2Nat.id in H' by lia. exact H'.
      + rewrite word_loop_words by done. by destruct (words _ data).
    - destruct data as [|b0 [|b1 [|b2 [|]]]]; simpl length in *; try lia; done. }
  rewrite !E. destruct (words _ data) as [h c].
  unfold hash_tail. destruct c as [|b0 [|b1 [|b2 [|]]]]; cbn [mbind outcome_bind]; eauto.
Qed.

Lemma StringHash_alignment_witness :
  Forall (is_u 8) [100; 97; 114; 116; 58; 105; 111] /\
  exists h, StringHash 0x1003 [100; 97; 114; 116; 58; 105; 111] = Ok h /\
    StringHash 0 [100; 97; 114; 116; 58; 105; 111] = Ok h.
Proof.
  assert (H : Forall (is_u 8) [100; 97; 114; 116; 58; 105; 111])
    by (repeat constructor; unfold is_u; lia).
  split; [exact H|]. exact (StringHash_alignment 0x1003 _ H).
Defined.
