(* ===== verification/Range.v ===== *)
(** Ranges of integer values: classes [RangeBoundary] and [Range] of
    [runtime/vm/compiler/backend/range_analysis.h] and [.cc].

    A boundary is a constant, an infinity, or a definition of the flow graph plus an offset.
    A [Definition*] is the number of a definition in the graph; reading one that is not in
    the graph is [Undefined].  A failed [ASSERT] is [Fatal UtilsAssertion].  Functions that
    follow definitions or the symbols of their ranges recurse at most [size (defns G)] deep;
    running out is [Fatal UtilsFuel], which the properties exclude for acyclic graphs. *)
From stdpp Require Import base numbers list gmap.
From Stdlib Require Import ZArith Lia.
From S2P Require Import Prelude Utils IntegerOps.
Local Open Scope Z_scope.
Local Open Scope cxx_scope.

Abbreviation result := (outcome utils_error).

(** ** Data *)

(** The constructors are the kinds, with [value_] and [offset_] where they are used. *)
Inductive RangeBoundary :=
| Unknown
| NegativeInfinity
| PositiveInfinity
| Symbol (symbol : nat) (offset : Z)
| Constant (value : Z).

Inductive RangeSize :=
| kRangeBoundarySmi
| kRangeBoundaryInt16
| kRangeBoundaryInt32
| kRangeBoundaryInt64.

Record Range := mkRange { min : RangeBoundary; max : RangeBoundary }.

#[export] Instance RangeBoundary_eq_dec : EqDecision RangeBoundary.
Proof. solve_decision. Defined.
#[export] Instance RangeSize_eq_dec : EqDecision RangeSize.
Proof. solve_decision. Defined.

(** The representations of [compiler/backend/locations.h] that occur here. *)
Inductive Representation :=
| kTagged
| kUntagged
| kUnboxedUint8
| kUnboxedUint16
| kUnboxedInt32
| kUnboxedUint32
| kUnboxedInt64.

#[export] Instance Representation_eq_dec : EqDecision Representation.
Proof. solve_decision. Defined.

(** The instructions of [compiler/backend/il.h] that the analysis distinguishes. *)
Inductive DefnKind :=
| ConstantInteger (value : Z)
| ConstantObject
| Constraint (value : nat) (constraint : Range)
| BinarySmiOp (op_kind : Token) (left right : nat)
| BinaryIntegerOp (op_kind : Token) (left right : nat)
| ShiftIntegerOp (op_kind : Token) (left right : nat)
| Phi (inputs : list nat)
| IfThenElse (if_true if_false : Z)
| BoxInteger (value : nat)
| UnboxInt32 (value : nat)
| UnboxUint32 (value : nat)
| UnboxInt64 (value : nat)
| IntConverter (from to : Representation) (value : nat)
| AssertAssignable (value : nat)
| OtherDefinition.

(** A definition: its instruction; [range_] (which may be [NULL]) and the range cached for
    the right operand; whether its type is exactly [Smi] or some integer, [IsInt64Definition()]
    and [IsInt32Definition()]; its representation and those required of its inputs; whether
    it is (up to boxing and constraints) the load of an immutable length; [AllowsCSE()]; its
    block; [is_truncating()] and [can_overflow()]. *)
Record Defn := mkDefn {
  kind : DefnKind;
  range : option Range;
  cached_range : option Range;
  type_is_smi : bool;
  type_is_int : bool;
  IsInt64Definition : bool;
  IsInt32Definition : bool;
  representation : Representation;
  left_representation : Representation;
  right_representation : Representation;
  is_array_length : bool;
  AllowsCSE : bool;
  block : nat;
  is_truncating : bool;
  can_overflow : bool;
}.

(** The part of the flow graph the analysis reads: the definitions, the virtual
    [Instruction::Equals] and the dominance relation of blocks. *)
Record FlowGraph := mkGraph {
  defns : gmap nat Defn;
  Equals : nat -> nat -> bool;
  Dominates : nat -> nat -> bool;
}.

Definition defn_at (G : FlowGraph) (d : nat) : result Defn :=
  match defns G !! d with Some def => Ok def | None => Undefined end.

Definition depth (G : FlowGraph) : nat := size (defns G).

Section range.
Context {smi : SmiTarget}.

(** ** Boundaries *)

Definition FromConstant (val : Z) : RangeBoundary := Constant val.

Definition IsValidOffsetForSymbolicRangeBoundary (offset : Z) : bool :=
  if (kMaxInt64 - kSmiMax <? offset) || (offset <? kMinInt64 - kSmiMin) then false else true.

(** [FromDefinition]: a constant [Smi] is folded; overflow of the signed sum is
    undefined. *)
Definition FromDefinition (G : FlowGraph) (d : nat) (offs : Z) : result RangeBoundary :=
  def ← defn_at G d;
  let symbol :=
    _ ← utils_assert (IsValidOffsetForSymbolicRangeBoundary offs); Ok (Symbol d offs) in
  match kind def with
  | ConstantInteger v =>
      if IsSmi v then
        if WillAddOverflow v offs then Undefined else Ok (FromConstant (v + offs))
      else symbol
  | _ => symbol
  end.

Definition MinSmi : RangeBoundary := FromConstant kSmiMin.
Definition MaxSmi : RangeBoundary := FromConstant kSmiMax.

(** The constants of a size; [MinConstant] and [MaxConstant] wrap them. *)
Definition size_min (size : RangeSize) : Z :=
  match size with
  | kRangeBoundarySmi => kSmiMin
  | kRangeBoundaryInt16 => kMinInt16
  | kRangeBoundaryInt32 => kMinInt32
  | kRangeBoundaryInt64 => kMinInt64
  end.
Definition size_max (size : RangeSize) : Z :=
  match size with
  | kRangeBoundarySmi => kSmiMax
  | kRangeBoundaryInt16 => kMaxInt16
  | kRangeBoundaryInt32 => kMaxInt32
  | kRangeBoundaryInt64 => kMaxInt64
  end.
Definition MinConstant (size : RangeSize) : RangeBoundary := FromConstant (size_min size).
Definition MaxConstant (size : RangeSize) : RangeBoundary := FromConstant (size_max size).

Definition IsUnknown (b : RangeBoundary) : bool :=
  match b with Unknown => true | _ => false end.
Definition IsConstant (b : RangeBoundary) : bool :=
  match b with Constant _ => true | _ => false end.
Definition IsSymbol (b : RangeBoundary) : bool :=
  match b with Symbol _ _ => true | _ => false end.
Definition IsNegativeInfinity (b : RangeBoundary) : bool :=
  match b with NegativeInfinity => true | _ => false end.
Definition IsPositiveInfinity (b : RangeBoundary) : bool :=
  match b with PositiveInfinity => true | _ => false end.
Definition IsInfinity (b : RangeBoundary) : bool :=
  IsNegativeInfinity b || IsPositiveInfinity b.
Definition IsConstantOrInfinity (b : RangeBoundary) : bool := IsConstant b || IsInfinity b.

Definition ConstantValue (b : RangeBoundary) : result Z :=
  match b with Constant v => Ok v | _ => Fatal UtilsAssertion end.

Definition symbol (b : RangeBoundary) : result nat :=
  match b with Symbol s _ => Ok s | _ => Fatal UtilsAssertion end.

(** [offset()]: zero unless the boundary is symbolic. *)
Definition offset (b : RangeBoundary) : Z :=
  match b with Symbol _ o => o | _ => 0 end.

Definition OverflowedSmi (b : RangeBoundary) : bool :=
  match b with
  | Constant v => negb (IsSmi v)
  | _ => IsInfinity b
  end.

Definition Clamp (b : RangeBoundary) (size : RangeSize) : RangeBoundary :=
  match b with
  | NegativeInfinity => MinConstant size
  | PositiveInfinity => MaxConstant size
  | Constant v =>
      if v <=? size_min size then MinConstant size
      else if size_max size <=? v then MaxConstant size
      else b
  | _ => b
  end.

Definition IsMinimumOrBelow (b : RangeBoundary) (size : RangeSize) : bool :=
  match b with
  | NegativeInfinity => true
  | Constant v => v <=? size_min size
  | _ => false
  end.

Definition IsMaximumOrAbove (b : RangeBoundary) (size : RangeSize) : bool :=
  match b with
  | PositiveInfinity => true
  | Constant v => size_max size <=? v
  | _ => false
  end.

(** [RangeBoundary::Add], [Sub], [Shl] and [Shr]. *)
Definition Boundary_Add (a b overflow : RangeBoundary) : result RangeBoundary :=
  if IsInfinity a || IsInfinity b then Ok overflow
  else
    a ← ConstantValue a; b ← ConstantValue b;
    if WillAddOverflow a b then Ok overflow else Ok (FromConstant (a + b)).

Definition Boundary_Sub (a b overflow : RangeBoundary) : result RangeBoundary :=
  if IsInfinity a || IsInfinity b then Ok overflow
  else
    a ← ConstantValue a; b ← ConstantValue b;
    if WillSubOverflow a b then Ok overflow else Ok (FromConstant (a - b)).

Definition Boundary_Shl (value_boundary : RangeBoundary) (shift_count : Z)
    (overflow : RangeBoundary) : result RangeBoundary :=
  value ← ConstantValue value_boundary;
  _ ← utils_assert (0 <=? shift_count);
  let limit := 64 - shift_count in
  if value =? 0 then Ok (FromConstant 0)
  else if (shift_count =? 0) || ((0 <? limit) && IsInt true 64 limit value) then
    Ok (Constant (wraps 64 (wrapu 64 value << shift_count)))
  else Ok overflow.

Definition Boundary_Shr (value_boundary : RangeBoundary) (shift_count : Z)
    : result RangeBoundary :=
  value ← ConstantValue value_boundary;
  _ ← utils_assert (0 <=? shift_count);
  Ok (Constant (if shift_count <=? 63 then value >> shift_count
                else if 0 <=? value then 0 else -1)).

Section graph.
Context (G : FlowGraph).

(** ** Bounds of a symbolic boundary

    [LowerBound] and [ConstantMin] call each other along the symbols of ranges. *)

Definition constant_min (LowerBound : RangeBoundary -> result RangeBoundary)
    (range : option Range) (size : RangeSize) : result RangeBoundary :=
  match range with
  | None => Ok (MinConstant size)
  | Some r => b ← LowerBound (min r); Ok (Clamp b size)
  end.

Definition constant_max (UpperBound : RangeBoundary -> result RangeBoundary)
    (range : option Range) (size : RangeSize) : result RangeBoundary :=
  match range with
  | None => Ok (MaxConstant size)
  | Some r => b ← UpperBound (max r); Ok (Clamp b size)
  end.

Fixpoint lower_bound (fuel : nat) (b : RangeBoundary) : result RangeBoundary :=
  match b with
  | NegativeInfinity | PositiveInfinity => Ok NegativeInfinity
  | Constant _ => Ok b
  | Unknown => Fatal UtilsAssertion
  | Symbol s o =>
      match fuel with
      | O => Fatal UtilsFuel
      | S fuel =>
          def ← defn_at G s;
          m ← constant_min (lower_bound fuel) (range def) kRangeBoundarySmi;
          Boundary_Add m (FromConstant o) NegativeInfinity
      end
  end.

Fixpoint upper_bound (fuel : nat) (b : RangeBoundary) : result RangeBoundary :=
  match b with
  | NegativeInfinity | PositiveInfinity => Ok PositiveInfinity
  | Constant _ => Ok b
  | Unknown => Fatal UtilsAssertion
  | Symbol s o =>
      match fuel with
      | O => Fatal UtilsFuel
      | S fuel =>
          def ← defn_at G s;
          m ← constant_max (upper_bound fuel) (range def) kRangeBoundarySmi;
          Boundary_Add m (FromConstant o) PositiveInfinity
      end
  end.

Definition LowerBound (b : RangeBoundary) : result RangeBoundary := lower_bound (depth G) b.
Definition UpperBound (b : RangeBoundary) : result RangeBoundary := upper_bound (depth G) b.

(** [LowerBound(size)] and [UpperBound(size)]. *)
Definition LowerBound_size (b : RangeBoundary) (size : RangeSize) : result Z :=
  b ← LowerBound b; ConstantValue (Clamp b size).
Definition UpperBound_size (b : RangeBoundary) (size : RangeSize) : result Z :=
  b ← UpperBound b; ConstantValue (Clamp b size).

Definition ConstantMin (range : option Range) (size : RangeSize) : result RangeBoundary :=
  constant_min LowerBound range size.
Definition ConstantMax (range : option Range) (size : RangeSize) : result RangeBoundary :=
  constant_max UpperBound range size.

(** The value of [ConstantMin(range)] and [ConstantMax(range)], at 64 bits. *)
Definition min_value (r : Range) : result Z :=
  b ← ConstantMin (Some r) kRangeBoundaryInt64; ConstantValue b.
Definition max_value (r : Range) : result Z :=
  b ← ConstantMax (Some r) kRangeBoundaryInt64; ConstantValue b.

(** ** Symbols *)

Fixpoint unwrap_constraint (fuel : nat) (d : nat) : result nat :=
  def ← defn_at G d;
  match kind def with
  | Constraint value _ =>
      match fuel with O => Fatal UtilsFuel | S fuel => unwrap_constraint fuel value end
  | _ => Ok d
  end.

Definition UnwrapConstraint (d : nat) : result nat := unwrap_constraint (depth G) d.

Definition AreEqualDefinitions (a b : nat) : result bool :=
  a ← UnwrapConstraint a;
  b ← UnwrapConstraint b;
  if (a =? b)%nat then Ok true
  else
    da ← defn_at G a; db ← defn_at G b;
    Ok (AllowsCSE da && AllowsCSE db && Equals G a b).

Definition DependOnSameSymbol (a b : RangeBoundary) : result bool :=
  match a, b with
  | Symbol sa _, Symbol sb _ => AreEqualDefinitions sa sb
  | _, _ => Ok false
  end.

Definition Boundary_Equals (a b : RangeBoundary) : result bool :=
  match a, b with
  | Constant va, Constant vb => Ok (va =? vb)
  | Symbol _ oa, Symbol _ ob => if oa =? ob then DependOnSameSymbol a b else Ok false
  | NegativeInfinity, NegativeInfinity => Ok true
  | PositiveInfinity, PositiveInfinity => Ok true
  | Unknown, Unknown => Ok true
  | _, _ => Ok false
  end.

Definition Overflowed (b : RangeBoundary) (size : RangeSize) : result bool :=
  _ ← utils_assert (IsConstantOrInfinity b);
  e ← Boundary_Equals b (Clamp b size);
  Ok (negb e).

(** [SymbolicAdd] and [SymbolicSub]: [None] when they return [false]. *)
Definition symbol_plus (a b : RangeBoundary) : result (option RangeBoundary) :=
  match a, b with
  | Symbol s o, Constant c =>
      if WillAddOverflow o c then Ok None
      else if negb (IsValidOffsetForSymbolicRangeBoundary (o + c)) then Ok None
      else r ← FromDefinition G s (o + c); Ok (Some r)
  | _, _ => Ok None
  end.

Definition SymbolicAdd (a b : RangeBoundary) : result (option RangeBoundary) :=
  match a, b with
  | Symbol _ _, Constant _ => symbol_plus a b
  | Constant _, Symbol _ _ => symbol_plus b a
  | _, _ => Ok None
  end.

Definition SymbolicSub (a b : RangeBoundary) : result (option RangeBoundary) :=
  match a, b with
  | Symbol s o, Constant c =>
      if WillSubOverflow o c then Ok None
      else if negb (IsValidOffsetForSymbolicRangeBoundary (o - c)) then Ok None
      else r ← FromDefinition G s (o - c); Ok (Some r)
  | _, _ => Ok None
  end.

(** [Smi::Cast(d->AsConstant()->value()).Value()] for a definition that [IsConstant()];
    [None] for another. *)
Definition constant_operand (d : nat) : result (option Z) :=
  def ← defn_at G d;
  match kind def with
  | ConstantInteger v => _ ← utils_assert (IsSmi v); Ok (Some v)
  | ConstantObject => Fatal UtilsAssertion
  | _ => Ok None
  end.

(** One iteration of the loop of [CanonicalizeBoundary]: the next symbol and offset,
    [None] inside when nothing changes; the outer [None] is the [return overflow]. *)
Definition canonicalize_step (s : nat) (o : Z) : result (option (option (nat * Z))) :=
  def ← defn_at G s;
  match kind def with
  | Constraint value _ => Ok (Some (Some (value, o)))
  | BinarySmiOp kADD l r =>
      cr ← constant_operand r;
      match cr with
      | Some rhs =>
          Ok (if WillAddOverflow o rhs then None else Some (Some (l, o + rhs)))
      | None =>
          cl ← constant_operand l;
          match cl with
          | Some rhs =>
              Ok (if WillAddOverflow o rhs then None else Some (Some (r, o + rhs)))
          | None => Ok (Some None)
          end
      end
  | BinarySmiOp kSUB l r =>
      cr ← constant_operand r;
      match cr with
      | Some rhs =>
          Ok (if WillSubOverflow o rhs then None else Some (Some (l, o - rhs)))
      | None => Ok (Some None)
      end
  | _ => Ok (Some None)
  end.

Fixpoint canonicalize_loop (fuel : nat) (s : nat) (o : Z) : result (option (nat * Z)) :=
  step ← canonicalize_step s o;
  match step with
  | None => Ok None
  | Some None => Ok (Some (s, o))
  | Some (Some (s, o)) =>
      match fuel with O => Fatal UtilsFuel | S fuel => canonicalize_loop fuel s o end
  end.

Definition CanonicalizeBoundary (a overflow : RangeBoundary) : result RangeBoundary :=
  match a with
  | Constant _ | NegativeInfinity | PositiveInfinity => Ok a
  | Unknown => Fatal UtilsAssertion
  | Symbol s o =>
      r ← canonicalize_loop (depth G) s o;
      match r with
      | None => Ok overflow
      | Some (s, o) =>
          if negb (IsValidOffsetForSymbolicRangeBoundary o) then Ok overflow
          else FromDefinition G s o
      end
  end.

(** [CanonicalizeMaxBoundary] and [CanonicalizeMinBoundary]: [None] when they return
    [false], otherwise the new boundary. *)
Definition canonicalize_end (bound : Range -> RangeBoundary) (overflow a : RangeBoundary)
    : result (option RangeBoundary) :=
  match a with
  | Symbol s o =>
      def ← defn_at G s;
      match range def with
      | None => Ok None
      | Some r =>
          match bound r with
          | Symbol s' o' =>
              if WillAddOverflow o' o then Ok (Some overflow)
              else if negb (IsValidOffsetForSymbolicRangeBoundary (o' + o))
              then Ok (Some overflow)
              else
                b ← FromDefinition G s' (o' + o);
                b ← CanonicalizeBoundary b overflow;
                Ok (Some b)
          | _ => Ok None
          end
      end
  | _ => Ok None
  end.

Definition CanonicalizeMaxBoundary (a : RangeBoundary) : result (option RangeBoundary) :=
  canonicalize_end max PositiveInfinity a.
Definition CanonicalizeMinBoundary (a : RangeBoundary) : result (option RangeBoundary) :=
  canonicalize_end min NegativeInfinity a.

(** The loop of [CanonicalizeForComparison]: the two boundaries when it returns [true]. *)
Fixpoint compare_loop (fuel : nat) (op : RangeBoundary -> result (option RangeBoundary))
    (a b : RangeBoundary) : result (option (RangeBoundary * RangeBoundary)) :=
  same ← DependOnSameSymbol a b;
  if (same : bool) then Ok (Some (a, b))
  else
    a' ← op a;
    match a' with
    | Some a' =>
        match fuel with O => Fatal UtilsFuel | S fuel => compare_loop fuel op a' b end
    | None =>
        b' ← op b;
        match b' with
        | Some b' =>
            match fuel with O => Fatal UtilsFuel | S fuel => compare_loop fuel op a b' end
        | None => Ok None
        end
    end.

Definition CanonicalizeForComparison (a b : RangeBoundary)
    (op : RangeBoundary -> result (option RangeBoundary))
    : result (option (RangeBoundary * RangeBoundary)) :=
  if negb (IsSymbol a) || negb (IsSymbol b) then Ok None
  else compare_loop (2 * depth G + 2) op a b.

(** ** Joins and intersections of boundaries *)

Definition JoinMin (a b : RangeBoundary) (size : RangeSize) : result RangeBoundary :=
  e ← Boundary_Equals a b;
  if (e : bool) then Ok b
  else
    c ← CanonicalizeForComparison a b CanonicalizeMinBoundary;
    match c with
    | Some (a, b) => Ok (if offset a <=? offset b then a else b)
    | None =>
        inf_a ← LowerBound_size a size;
        inf_b ← LowerBound_size b size;
        sup_a ← UpperBound_size a size;
        sup_b ← UpperBound_size b size;
        la ← LowerBound a; over_a ← Overflowed la size;
        lb ← LowerBound b; over_b ← Overflowed lb size;
        if (sup_a <=? inf_b) && negb over_a then Ok a
        else if (sup_b <=? inf_a) && negb over_b then Ok b
        else Ok (FromConstant (Minimum inf_a inf_b))
    end.

Definition JoinMax (a b : RangeBoundary) (size : RangeSize) : result RangeBoundary :=
  e ← Boundary_Equals a b;
  if (e : bool) then Ok b
  else
    c ← CanonicalizeForComparison a b CanonicalizeMaxBoundary;
    match c with
    | Some (a, b) => Ok (if offset b <=? offset a then a else b)
    | None =>
        inf_a ← LowerBound_size a size;
        inf_b ← LowerBound_size b size;
        sup_a ← UpperBound_size a size;
        sup_b ← UpperBound_size b size;
        ub ← UpperBound b; over_b ← Overflowed ub size;
        ua ← UpperBound a; over_a ← Overflowed ua size;
        if (sup_a <=? inf_b) && negb over_b then Ok b
        else if (sup_b <=? inf_a) && negb over_a then Ok a
        else Ok (FromConstant (Maximum sup_a sup_b))
    end.

Definition IntersectionMin (a b : RangeBoundary) : result RangeBoundary :=
  _ ← utils_assert (negb (IsPositiveInfinity a) && negb (IsPositiveInfinity b));
  _ ← utils_assert (negb (IsUnknown a) && negb (IsUnknown b));
  e ← Boundary_Equals a b;
  if (e : bool) then Ok a
  else if IsMinimumOrBelow a kRangeBoundarySmi then Ok b
  else if IsMinimumOrBelow b kRangeBoundarySmi then Ok a
  else
    c ← CanonicalizeForComparison a b CanonicalizeMinBoundary;
    match c with
    | Some (a, b) => Ok (if offset b <=? offset a then a else b)
    | None =>
        inf_a ← LowerBound_size a kRangeBoundarySmi;
        inf_b ← LowerBound_size b kRangeBoundarySmi;
        Ok (if inf_b <=? inf_a then a else b)
    end.

Definition IntersectionMax (a b : RangeBoundary) : result RangeBoundary :=
  _ ← utils_assert (negb (IsNegativeInfinity a) && negb (IsNegativeInfinity b));
  _ ← utils_assert (negb (IsUnknown a) && negb (IsUnknown b));
  e ← Boundary_Equals a b;
  if (e : bool) then Ok a
  else if IsMaximumOrAbove a kRangeBoundarySmi then Ok b
  else if IsMaximumOrAbove b kRangeBoundarySmi then Ok a
  else
    c ← CanonicalizeForComparison a b CanonicalizeMaxBoundary;
    match c with
    | Some (a, b) => Ok (if offset a <=? offset b then a else b)
    | None =>
        sup_a ← UpperBound_size a kRangeBoundarySmi;
        sup_b ← UpperBound_size b kRangeBoundarySmi;
        Ok (if sup_a <=? sup_b then a else b)
    end.

(** ** Ranges *)

Definition Int64Range : Range :=
  mkRange (MinConstant kRangeBoundaryInt64) (MaxConstant kRangeBoundaryInt64).

(** The constructor [Range(min, max)]. *)
Definition Range_new (min max : RangeBoundary) : result Range :=
  _ ← utils_assert (Bool.eqb (IsUnknown min) (IsUnknown max));
  Ok (if IsInfinity min || IsInfinity max then Int64Range else mkRange min max).

Definition Range_unknown : Range := mkRange Unknown Unknown.

(** [Range::IsUnknown]. *)
Definition Range_IsUnknown (r : option Range) : bool :=
  match r with None => true | Some r => IsUnknown (min r) end.

Definition Full (size : RangeSize) : Range := mkRange (MinConstant size) (MaxConstant size).

Definition set_min (r : Range) (value : RangeBoundary) : Range :=
  if IsInfinity value then Int64Range else mkRange value (max r).
Definition set_max (r : Range) (value : RangeBoundary) : Range :=
  if IsInfinity value then Int64Range else mkRange (min r) value.

Definition Range_Equals (r : Range) (other : option Range) : result bool :=
  _ ← utils_assert (Bool.eqb (IsUnknown (min r)) (IsUnknown (max r)));
  match other with
  | None => Ok (IsUnknown (min r))
  | Some other =>
      e ← Boundary_Equals (min r) (min other);
      if (e : bool) then Boundary_Equals (max r) (max other) else Ok false
  end.

Definition OnlyLessThanOrEqualTo (r : Range) (val : Z) : result bool :=
  b ← UpperBound (max r);
  if IsPositiveInfinity b then Ok false else v ← ConstantValue b; Ok (v <=? val).

Definition OnlyGreaterThanOrEqualTo (r : Range) (val : Z) : result bool :=
  b ← LowerBound (min r);
  if IsNegativeInfinity b then Ok false else v ← ConstantValue b; Ok (val <=? v).

Definition IsPositive (r : Range) : result bool := OnlyGreaterThanOrEqualTo r 0.
Definition IsNegative (r : Range) : result bool := OnlyLessThanOrEqualTo r (-1).

(** Short-circuit conjunction. *)
Definition and_then (a b : result bool) : result bool :=
  a ← a; if (a : bool) then b else Ok false.
Definition or_else (a b : result bool) : result bool :=
  a ← a; if (a : bool) then Ok true else b.

Definition IsWithin (r : Range) (min_int max_int : Z) : result bool :=
  and_then (OnlyGreaterThanOrEqualTo r min_int) (OnlyLessThanOrEqualTo r max_int).

Definition Overlaps (r : Range) (min_int max_int : Z) : result bool :=
  lower ← LowerBound (min r);
  upper ← UpperBound (max r);
  this_min ← (if IsNegativeInfinity lower then Ok kMinInt64 else ConstantValue lower);
  this_max ← (if IsPositiveInfinity upper then Ok kMaxInt64 else ConstantValue upper);
  Ok (((this_min <=? min_int) && (min_int <=? this_max)) ||
      ((this_min <=? max_int) && (max_int <=? this_max)) ||
      ((min_int <? this_min) && (this_max <? max_int))).

Definition IsUnsatisfiable (r : Range) : result bool :=
  if IsPositiveInfinity (min r) || IsNegativeInfinity (max r) then Ok true
  else
    lo ← min_value r; hi ← max_value r;
    if hi <? lo then Ok true
    else
      same ← DependOnSameSymbol (min r) (max r);
      Ok (same && (offset (max r) <? offset (min r))).

Definition IsFinite (r : Range) : bool :=
  negb (IsInfinity (min r)) && negb (IsInfinity (max r)).

Definition Intersect (r other : Range) : result Range :=
  lo ← IntersectionMin (min r) (min other);
  hi ← IntersectionMax (max r) (max other);
  Range_new lo hi.

Definition Fits (r : Range) (size : RangeSize) : result bool :=
  lo ← LowerBound (min r); over_lo ← Overflowed lo size;
  if (over_lo : bool) then Ok false
  else hi ← UpperBound (max r); over_hi ← Overflowed hi size; Ok (negb over_hi).

(** [Range::Clamp] and [ClampToConstant]. *)
Definition Range_Clamp (r : Range) (size : RangeSize) : Range :=
  mkRange (Clamp (min r) size) (Clamp (max r) size).

Definition ClampToConstant (r : Range) (size : RangeSize) : result Range :=
  lo ← LowerBound (min r); hi ← UpperBound (max r);
  Ok (mkRange (Clamp lo size) (Clamp hi size)).

(** ** Operations on ranges: pairs of the new [*result_min] and [*result_max] *)

Definition Bounds : Type := RangeBoundary * RangeBoundary.

Definition overflow_of (v : Z) : RangeBoundary :=
  if 0 <? v then PositiveInfinity else NegativeInfinity.

Definition Shl (left right : Range) : result Bounds :=
  left_max ← max_value left; left_min ← min_value left;
  rmax ← max_value right; rmin ← min_value right;
  let right_max := Maximum rmax 0 in
  let right_min := Maximum rmin 0 in
  lo ← Boundary_Shl (Constant left_min) (if 0 <? left_min then right_min else right_max)
         (overflow_of left_min);
  hi ← Boundary_Shl (Constant left_max) (if 0 <? left_max then right_max else right_min)
         (overflow_of left_max);
  Ok (lo, hi).

Definition Shr (left right : Range) : result Bounds :=
  left_max ← max_value left; left_min ← min_value left;
  rmax ← max_value right; rmin ← min_value right;
  let right_max := Maximum rmax 0 in
  let right_min := Maximum rmin 0 in
  lo ← Boundary_Shr (Constant left_min) (if 0 <? left_min then right_max else right_min);
  hi ← Boundary_Shr (Constant left_max) (if 0 <? left_max then right_min else right_max);
  Ok (lo, hi).

Definition ConvertRangeToUnsigned (a b : Z) : result (Z * Z) :=
  _ ← utils_assert (a <=? b);
  Ok (if (a <? 0) && (0 <=? b) then (0, kMaxUint64) else (wrapu 64 a, wrapu 64 b)).

Definition ConvertRangeToSigned (a b : Z) : result (Z * Z) :=
  _ ← utils_assert (a <=? b);
  Ok (if (a <=? wrapu 64 kMaxInt64) && (wrapu 64 kMinInt64 <=? b)
      then (kMinInt64, kMaxInt64) else (wraps 64 a, wraps 64 b)).

Definition Ushr (left right : Range) : result Bounds :=
  left_max ← max_value left; left_min ← min_value left;
  rmax ← max_value right; rmin ← min_value right;
  let right_max := Maximum rmax 0 in
  let right_min := Maximum rmin 0 in
  '(unsigned_left_min, unsigned_left_max) ← ConvertRangeToUnsigned left_min left_max;
  let unsigned_result_min := if 64 <=? right_max then 0 else unsigned_left_min >> right_max in
  let unsigned_result_max := if 64 <=? right_min then 0 else unsigned_left_max >> right_min in
  '(signed_result_min, signed_result_max) ←
    ConvertRangeToSigned unsigned_result_min unsigned_result_max;
  Ok (Constant signed_result_min, Constant signed_result_max).

Definition BitSize (r : Range) : result Z :=
  lo ← min_value r; hi ← max_value r;
  a ← BitLength lo; b ← BitLength hi;
  Ok (Maximum a b).

Definition BitwiseOp (left right : Range) : result Bounds :=
  l ← BitSize left; r ← BitSize right;
  let bitsize := Maximum l r in
  positive ← and_then (IsPositive left) (IsPositive right);
  Ok (FromConstant (if (positive : bool) then 0 else wraps 64 (- (1 << bitsize))),
      FromConstant (wraps 64 ((1 << bitsize) - 1))).

Definition And (left right : Range) : result Bounds :=
  rmin ← min_value right;
  if 0 <=? rmin then
    hi ← ConstantMax (Some right) kRangeBoundaryInt64; Ok (FromConstant 0, hi)
  else
    lmin ← min_value left;
    if 0 <=? lmin then
      hi ← ConstantMax (Some left) kRangeBoundaryInt64; Ok (FromConstant 0, hi)
    else BitwiseOp left right.

(** [left_defn] is a symbol itself when it is the length of an array. *)
Definition left_boundary (left_defn : nat) (own : RangeBoundary) : result RangeBoundary :=
  def ← defn_at G left_defn;
  if is_array_length def then FromDefinition G left_defn 0 else Ok own.

(** The symbolic result if there is one, else the one from constant bounds. *)
Definition symbolic_or (symbolic : option RangeBoundary) (numeric : result RangeBoundary)
    : result RangeBoundary :=
  match symbolic with Some b => Ok b | None => numeric end.

Definition Add (left right : Range) (left_defn : nat) : result Bounds :=
  left_min ← left_boundary left_defn (min left);
  left_max ← left_boundary left_defn (max left);
  slo ← SymbolicAdd left_min (min right);
  lo ← symbolic_or slo
         (a ← LowerBound (min left); b ← LowerBound (min right);
          Boundary_Add a b NegativeInfinity);
  shi ← SymbolicAdd left_max (max right);
  hi ← symbolic_or shi
         (a ← UpperBound (max right); b ← UpperBound (max left);
          Boundary_Add a b PositiveInfinity);
  Ok (lo, hi).

Definition Sub (left right : Range) (left_defn : nat) : result Bounds :=
  left_min ← left_boundary left_defn (min left);
  left_max ← left_boundary left_defn (max left);
  slo ← SymbolicSub left_min (max right);
  lo ← symbolic_or slo
         (a ← LowerBound (min left); b ← UpperBound (max right);
          Boundary_Sub a b NegativeInfinity);
  shi ← SymbolicSub left_max (min right);
  hi ← symbolic_or shi
         (a ← UpperBound (max left); b ← LowerBound (min right);
          Boundary_Sub a b PositiveInfinity);
  Ok (lo, hi).

Definition OnlyPositiveOrZero (a b : Range) : result bool :=
  and_then (OnlyGreaterThanOrEqualTo a 0) (OnlyGreaterThanOrEqualTo b 0).
Definition OnlyNegativeOrZero (a b : Range) : result bool :=
  and_then (OnlyLessThanOrEqualTo a 0) (OnlyLessThanOrEqualTo b 0).

Definition ConstantAbsMax (r : Range) : result Z :=
  lo ← min_value r; hi ← max_value r;
  Ok (Maximum (AbsWithSaturation lo) (AbsWithSaturation hi)).
Definition ConstantAbsMin (r : Range) : result Z :=
  lo ← min_value r; hi ← max_value r;
  Ok (Minimum (AbsWithSaturation lo) (AbsWithSaturation hi)).

Definition Mul (left right : Range) : result Bounds :=
  left_max ← ConstantAbsMax left;
  right_max ← ConstantAbsMax right;
  same_sign ← or_else (OnlyPositiveOrZero left right) (OnlyNegativeOrZero left right);
  if (left_max <=? - kSmiMin) && (right_max <=? - kSmiMin) &&
     ((left_max =? 0) || (right_max <=? Z.quot kMaxInt64 left_max)) then
    let mul_max := left_max * right_max in
    if (same_sign : bool) then
      l ← ConstantAbsMin left; r ← ConstantAbsMin right;
      Ok (FromConstant (l * r), FromConstant mul_max)
    else Ok (FromConstant (- mul_max), FromConstant mul_max)
  else if (same_sign : bool) then Ok (FromConstant 0, PositiveInfinity)
  else Ok (NegativeInfinity, PositiveInfinity).

Definition TruncDiv (left right : Range) : result Bounds :=
  positive ← and_then (OnlyGreaterThanOrEqualTo left 0) (OnlyGreaterThanOrEqualTo right 1);
  if (positive : bool) then
    left_max ← ConstantAbsMax left; left_min ← ConstantAbsMin left;
    right_max ← ConstantAbsMax right; right_min ← ConstantAbsMin right;
    hi ← cxx_div left_max right_min;
    lo ← cxx_div left_min right_max;
    Ok (FromConstant lo, FromConstant hi)
  else Ok (NegativeInfinity, PositiveInfinity).

Definition Mod (right : Range) : result Bounds :=
  let kModMin := 0 in
  rmin ← min_value right;
  mod_max ← (if negb (rmin =? kMinInt64) then
               right_max ← ConstantAbsMax right; Ok (Maximum (right_max - 1) kModMin)
             else Ok kMaxInt64);
  Ok (FromConstant kModMin, FromConstant mod_max).

(** [BinaryOp]: the new [*result]. *)
Definition BinaryOp (op : Token) (left right : Range) (left_defn : nat) : result Range :=
  _ ← utils_assert (IsFinite left);
  _ ← utils_assert (IsFinite right);
  let bounds :=
    match op with
    | kADD => Some (Add left right left_defn)
    | kSUB => Some (Sub left right left_defn)
    | kMUL => Some (Mul left right)
    | kTRUNCDIV => Some (TruncDiv left right)
    | kMOD => Some (Mod right)
    | kSHL => Some (Shl left right)
    | kSHR => Some (Shr left right)
    | kUSHR => Some (Ushr left right)
    | kBIT_AND => Some (And left right)
    | kBIT_XOR | kBIT_OR => Some (BitwiseOp left right)
    | _ => None
    end in
  match bounds with
  | None => Range_new NegativeInfinity PositiveInfinity
  | Some bounds =>
      '(lo, hi) ← bounds;
      _ ← utils_assert (negb (IsUnknown lo) && negb (IsUnknown hi));
      _ ← utils_assert (match lo, hi with Constant l, Constant h => l <=? h | _, _ => true end);
      Range_new lo hi
  end.

End graph.
End range.
