(* ===== verification/RangeSound.v ===== *)
(** Soundness of the bounds of [Range.v].

    [rho] gives the value of every definition at a point of an execution.  [graph_ok] states
    what the graph says about these values: ranges contain them, constraints and type checks copy
    them, [Smi]
    additions and subtractions that did not deoptimize are exact.  [acyclic] states that
    following operands and the symbols of ranges leads to definitions of lower rank, as
    dominance guarantees in a flow graph. *)
From stdpp Require Import base numbers list gmap.
From Stdlib Require Import ZArith Lia.
From S2P Require Import Prelude Utils IntegerOps Range.
Local Open Scope Z_scope.
Local Open Scope cxx_scope.

(** The [Smi] and 64-bit limits as numerals, for [lia]. *)
Ltac limits :=
  rewrite ?is_s64, ?IsSmi_spec in *;
  unfold kMinInt64, kMaxInt64, kMinInt32, kMaxInt32, kMinInt16, kMaxInt16 in *;
  pose proof kSmi_cases; lia.

Section sound.
Context {smi : SmiTarget} (G : FlowGraph) (rho : nat -> Z) (rank : nat -> nat).

(** The value of a finite boundary. *)
Definition bval (b : RangeBoundary) : Z :=
  match b with
  | Constant c => c
  | Symbol s o => rho s + o
  | _ => 0
  end.

(** A finite boundary that is well formed: a symbol stands for a [Smi]. *)
Definition bound_ok (b : RangeBoundary) : Prop :=
  match b with
  | Constant c => is_s 64 c
  | Symbol s o =>
      is_Some (defns G !! s) /\ IsSmi (rho s) = true /\
      IsValidOffsetForSymbolicRangeBoundary o = true
  | _ => False
  end.

(** The range is well formed and contains [x]. *)
Record in_range (r : Range) (x : Z) : Prop := {
  ir_min : bound_ok (min r);
  ir_max : bound_ok (max r);
  ir_lo : bval (min r) <= x;
  ir_hi : x <= bval (max r);
}.

(** An operand of a [Smi] operation. *)
Definition smi_operand (d : nat) : Prop :=
  exists def, defns G !! d = Some def /\ kind def <> ConstantObject /\ IsSmi (rho d) = true.

Record graph_ok : Prop := {
  gk_range d def r : defns G !! d = Some def -> range def = Some r -> in_range r (rho d);
  gk_constant d def v : defns G !! d = Some def -> kind def = ConstantInteger v -> rho d = v;
  gk_constraint d def v c :
    defns G !! d = Some def -> kind def = Constraint v c ->
    is_Some (defns G !! v) /\ rho d = rho v;
  gk_assert d def v :
    defns G !! d = Some def -> kind def = AssertAssignable v ->
    is_Some (defns G !! v) /\ rho d = rho v;
  gk_smi_op d def op l r :
    defns G !! d = Some def -> kind def = BinarySmiOp op l r ->
    smi_operand l /\ smi_operand r /\
    (op = kADD -> rho d = rho l + rho r) /\ (op = kSUB -> rho d = rho l - rho r);
  gk_length d def :
    defns G !! d = Some def -> is_array_length def = true -> IsSmi (rho d) = true;
  gk_equals a b da db :
    defns G !! a = Some da -> defns G !! b = Some db ->
    AllowsCSE da = true -> AllowsCSE db = true -> Equals G a b = true -> rho a = rho b;
}.

Record acyclic : Prop := {
  rk_depth d def : defns G !! d = Some def -> (rank d < depth G)%nat;
  rk_constraint d def v c :
    defns G !! d = Some def -> kind def = Constraint v c -> (rank v < rank d)%nat;
  rk_assert d def v :
    defns G !! d = Some def -> kind def = AssertAssignable v -> (rank v < rank d)%nat;
  rk_smi_op d def op l r :
    defns G !! d = Some def -> kind def = BinarySmiOp op l r ->
    (rank l < rank d /\ rank r < rank d)%nat;
  rk_range d def r s o :
    defns G !! d = Some def -> range def = Some r ->
    min r = Symbol s o \/ max r = Symbol s o -> (rank s < rank d)%nat;
}.

Context (HG : graph_ok) (HA : acyclic).

(** ** Bounds *)

(** A constant or infinite lower (upper) bound of [x]. *)
Definition lower_of (b : RangeBoundary) (x : Z) : Prop :=
  b = NegativeInfinity \/ exists c, b = Constant c /\ is_s 64 c /\ c <= x.
Definition upper_of (b : RangeBoundary) (x : Z) : Prop :=
  b = PositiveInfinity \/ exists c, b = Constant c /\ is_s 64 c /\ x <= c.

Lemma size_limits size :
  kMinInt64 <= size_min size /\ size_max size <= kMaxInt64 /\ size_min size < 0 < size_max size.
Proof. destruct size; simpl; limits. Qed.

Lemma clamp_lower b x size :
  lower_of b x -> size_min size <= x ->
  exists c, Clamp b size = Constant c /\ size_min size <= c <= size_max size /\ c <= x.
Proof.
  intros Hb Hx. pose proof (size_limits size).
  destruct Hb as [->|(c & -> & Hc & Hle)]; simpl.
  - exists (size_min size). split; [done|lia].
  - destruct (Z.leb_spec c (size_min size)); [|destruct (Z.leb_spec (size_max size) c)];
      eexists; (split; [done|lia]).
Qed.

Lemma clamp_upper b x size :
  upper_of b x -> x <= size_max size ->
  exists c, Clamp b size = Constant c /\ size_min size <= c <= size_max size /\ x <= c.
Proof.
  intros Hb Hx. pose proof (size_limits size).
  destruct Hb as [->|(c & -> & Hc & Hle)]; simpl.
  - exists (size_max size). split; [done|lia].
  - destruct (Z.leb_spec c (size_min size)); [|destruct (Z.leb_spec (size_max size) c)];
      eexists; (split; [done|lia]).
Qed.

Lemma valid_offset o :
  IsValidOffsetForSymbolicRangeBoundary o = true <->
  kMinInt64 - kSmiMin <= o <= kMaxInt64 - kSmiMax.
Proof.
  unfold IsValidOffsetForSymbolicRangeBoundary.
  destruct (Z.ltb_spec (kMaxInt64 - kSmiMax) o), (Z.ltb_spec o (kMinInt64 - kSmiMin)); simpl;
    split; intros; (done || lia).
Qed.

(** A symbolic boundary stays within 64 bits. *)
Lemma bval_s64 b : bound_ok b -> is_s 64 (bval b).
Proof.
  destruct b; simpl; try done. intros (_ & Hs & Ho). apply valid_offset in Ho. limits.
Qed.

Lemma add_lower m o x overflow :
  is_s 64 m -> is_s 64 o -> m <= x -> overflow = NegativeInfinity ->
  exists r, Boundary_Add (Constant m) (Constant o) overflow = Ok r /\ lower_of r (x + o).
Proof.
  intros Hm Ho Hx ->. unfold Boundary_Add. cbn.
  destruct (WillAddOverflow m o) eqn:E.
  - exists NegativeInfinity. split; [done|by left].
  - exists (Constant (m + o)). split; [done|]. right. exists (m + o).
    split; [done|]. split; [by apply WillAddOverflow_spec|lia].
Qed.

Lemma add_upper m o x overflow :
  is_s 64 m -> is_s 64 o -> x <= m -> overflow = PositiveInfinity ->
  exists r, Boundary_Add (Constant m) (Constant o) overflow = Ok r /\ upper_of r (x + o).
Proof.
  intros Hm Ho Hx ->. unfold Boundary_Add. cbn.
  destruct (WillAddOverflow m o) eqn:E.
  - exists PositiveInfinity. split; [done|by left].
  - exists (Constant (m + o)). split; [done|]. right. exists (m + o).
    split; [done|]. split; [by apply WillAddOverflow_spec|lia].
Qed.

Lemma offset_s64 o : IsValidOffsetForSymbolicRangeBoundary o = true -> is_s 64 o.
Proof. rewrite valid_offset. limits. Qed.

Lemma lower_bound_spec fuel b :
  bound_ok b -> (forall s o, b = Symbol s o -> (rank s < fuel)%nat) ->
  exists r, lower_bound G fuel b = Ok r /\ lower_of r (bval b).
Proof.
  revert b. induction fuel as [|fuel IH]; intros b Hb Hr.
  all: destruct b as [| | |s o|c]; try done;
    [|exists (Constant c); split; [done|]; right; exists c; split; [done|]; split; [done|simpl; lia]].
  - specialize (Hr s o eq_refl). lia.
  - destruct Hb as ([def Hd] & Hs & Ho). cbn [lower_bound]. unfold defn_at. rewrite Hd.
    cbn [mbind outcome_bind].
    assert (exists m, constant_min (lower_bound G fuel) (range def) kRangeBoundarySmi
                      = Ok (Constant m) /\ kSmiMin <= m <= kSmiMax /\ m <= rho s)
      as (m & -> & Hm & Hle).
    { apply IsSmi_spec in Hs. unfold constant_min. destruct (range def) as [r|] eqn:Er.
      - destruct (gk_range HG _ _ _ Hd Er) as [Hmin _ Hlo _].
        destruct (IH (min r)) as (b & -> & Hb); [done| |].
        { intros s' o' E. pose proof (rk_range HA _ _ _ s' o' Hd Er (or_introl E)).
          specialize (Hr s o eq_refl). lia. }
        destruct (clamp_lower b (rho s) kRangeBoundarySmi) as (c & E & Hc & Hx).
        { destruct Hb as [->|(c & -> & ? & ?)]; [by left|right; exists c; split; [done|]].
          split; [done|lia]. }
        { simpl. lia. }
        exists c. cbn. rewrite E. done.
      - exists kSmiMin. split; [done|]. limits. }
    cbn [mbind outcome_bind]. apply (add_lower m o (rho s)); [limits| |lia|done].
    by apply offset_s64.
Qed.

Lemma upper_bound_spec fuel b :
  bound_ok b -> (forall s o, b = Symbol s o -> (rank s < fuel)%nat) ->
  exists r, upper_bound G fuel b = Ok r /\ upper_of r (bval b).
Proof.
  revert b. induction fuel as [|fuel IH]; intros b Hb Hr.
  all: destruct b as [| | |s o|c]; try done;
    [|exists (Constant c); split; [done|]; right; exists c; split; [done|]; split; [done|simpl; lia]].
  - specialize (Hr s o eq_refl). lia.
  - destruct Hb as ([def Hd] & Hs & Ho). cbn [upper_bound]. unfold defn_at. rewrite Hd.
    cbn [mbind outcome_bind].
    assert (exists m, constant_max (upper_bound G fuel) (range def) kRangeBoundarySmi
                      = Ok (Constant m) /\ kSmiMin <= m <= kSmiMax /\ rho s <= m)
      as (m & -> & Hm & Hle).
    { apply IsSmi_spec in Hs. unfold constant_max. destruct (range def) as [r|] eqn:Er.
      - destruct (gk_range HG _ _ _ Hd Er) as [_ Hmax _ Hhi].
        destruct (IH (max r)) as (b & -> & Hb); [done| |].
        { intros s' o' E. pose proof (rk_range HA _ _ _ s' o' Hd Er (or_intror E)).
          specialize (Hr s o eq_refl). lia. }
        destruct (clamp_upper b (rho s) kRangeBoundarySmi) as (c & E & Hc & Hx).
        { destruct Hb as [->|(c & -> & ? & ?)]; [by left|right; exists c; split; [done|]].
          split; [done|lia]. }
        { simpl. lia. }
        exists c. cbn. rewrite E. done.
      - exists kSmiMax. split; [done|]. limits. }
    cbn [mbind outcome_bind]. apply (add_upper m o (rho s)); [limits| |lia|done].
    by apply offset_s64.
Qed.

Lemma LowerBound_spec b :
  bound_ok b -> exists r, LowerBound G b = Ok r /\ lower_of r (bval b).
Proof.
  intros Hb. apply lower_bound_spec; [done|]. intros s o ->. destruct Hb as ([def Hd] & _).
  by apply (rk_depth HA _ _ Hd).
Qed.

Lemma UpperBound_spec b :
  bound_ok b -> exists r, UpperBound G b = Ok r /\ upper_of r (bval b).
Proof.
  intros Hb. apply upper_bound_spec; [done|]. intros s o ->. destruct Hb as ([def Hd] & _).
  by apply (rk_depth HA _ _ Hd).
Qed.
End sound.
