(* ===== verification/RangeExample.v ===== *)
(** A small flow graph to instantiate the properties of range analysis with: an index [x],
    known to be below the length of an array, and a phi that is 1 or [x + 1]. *)
From stdpp Require Import base numbers list gmap.
From Stdlib Require Import ZArith Lia.
From S2P Require Import Prelude Utils IntegerOps Range RangeSound.
Local Open Scope Z_scope.
Local Open Scope cxx_scope.

(** A graph whose definitions are the elements of a list, with block [a] dominating block [b]
    when [a <= b] and no equal instructions. *)
Definition list_graph (l : list Defn) : FlowGraph :=
  mkGraph (map_seq 0 l) (fun _ _ => false) (fun a b => (a <=? b)%nat).

Lemma list_graph_lookup l d : defns (list_graph l) !! d = l !! d.
Proof. apply lookup_map_seq_0. Qed.

(** The values of definitions, listed. *)
Definition values (l : list Z) (d : nat) : Z := nth d l 0.

Definition example_defn (k : DefnKind) (r : option Range) (is_length : bool) (block : nat) : Defn :=
  mkDefn k r None true true false false kTagged kTagged kTagged is_length false block false true.

Definition example_defns `{SmiTarget} : list Defn := [
  example_defn OtherDefinition (Some (mkRange (Constant 0) (Constant 100))) true 0;
  example_defn OtherDefinition (Some (Full kRangeBoundarySmi)) false 0;
  example_defn (Constraint 1 (mkRange (Constant 0) (Symbol 0 (-1))))
    (Some (mkRange (Constant 0) (Symbol 0 (-1)))) false 0;
  example_defn (ConstantInteger 1) (Some (mkRange (Constant 1) (Constant 1))) false 0;
  example_defn (BinarySmiOp kADD 2 3) (Some (mkRange (Constant 1) (Symbol 0 0))) false 0;
  example_defn (Phi [3; 4]%nat) None false 1 ].

Definition example_graph `{SmiTarget} : FlowGraph := list_graph example_defns.
Definition example_rho : nat -> Z := values [10; 5; 5; 1; 6; 6].
Definition example_rank (d : nat) : nat := d.

#[local] Existing Instance Smi62.

Lemma example_lookup d def :
  defns example_graph !! d = Some def ->
  (d, def) ∈ zip (seq 0 6) example_defns.
Proof.
  unfold example_graph. rewrite list_graph_lookup. intros H.
  apply list_elem_of_lookup. exists d.
  do 6 (destruct d as [|d]; [by simpl in *; simplify_eq|]). by destruct d.
Qed.

(** One goal per definition of the example. *)
Ltac example_cases H :=
  apply example_lookup in H; unfold example_defns in H; simpl in H;
  repeat (apply elem_of_cons in H as [[= -> ->]|H]; [|]); [..|by apply elem_of_nil in H];
  simpl.

Lemma example_in_range d def r :
  defns example_graph !! d = Some def -> range def = Some r ->
  in_range example_graph example_rho r (example_rho d).
Proof.
  intros H. example_cases H; intros [= <-]; constructor; vm_compute; try done; repeat split; try done;
    try (by eexists).
Qed.

Lemma example_operand d : (d < 6)%nat -> smi_operand example_graph example_rho d.
Proof.
  intros H. unfold smi_operand, example_graph. rewrite list_graph_lookup.
  do 6 (destruct d as [|d]; [by eexists|]). lia.
Qed.

Lemma example_graph_ok : graph_ok example_graph example_rho.
Proof.
  constructor.
  - apply example_in_range.
  - intros d def v H. by example_cases H; intros [= <-].
  - intros d def v c H. example_cases H; intros [= <- <-]. split; [by eexists|done].
  - intros d def v H. by example_cases H.
  - intros d def op l r H. example_cases H; intros [= <- <- <-].
    split; [by apply example_operand; lia|]. split; [by apply example_operand; lia|done].
  - intros d def H. by example_cases H.
  - done.
Qed.

Lemma example_acyclic : acyclic example_graph example_rank.
Proof.
  constructor.
  - intros d def H. change (depth example_graph) with 6%nat. example_cases H; unfold example_rank; lia.
  - intros d def v c H. example_cases H; intros [= <- <-]. unfold example_rank; lia.
  - intros d def v H. by example_cases H.
  - intros d def op l r H. example_cases H; intros [= <- <- <-]. unfold example_rank; lia.
  - intros d def r s o H. example_cases H; intros [= <-] [E|E]; simplify_eq/=; unfold example_rank; lia.
Qed.
