(* ===== verification/RangeOps.v ===== *)
(** Soundness of the operations on ranges of [Range.v]: the range computed for an operation
    contains its result. *)
From stdpp Require Import base numbers list gmap.
From Stdlib Require Import ZArith Lia.
From S2P Require Import Prelude Utils IntegerOps Range RangeSound.
Local Open Scope Z_scope.
Local Open Scope cxx_scope.

Section ops.
Context {smi : SmiTarget} (G : FlowGraph) (rho : nat -> Z) (rank : nat -> nat).
Context (HG : graph_ok G rho) (HA : acyclic G rank).

(** ** Constant bounds of a range *)

(** What the functions on a range that contains [x] return. *)
Record resolved (r : Range) (x l u : Z) (lb ub : RangeBoundary) : Prop := {
  rv_lb : LowerBound G (min r) = Ok lb;
  rv_ub : UpperBound G (max r) = Ok ub;
  rv_min : min_value G r = Ok l;
  rv_max : max_value G r = Ok u;
  rv_l : is_s 64 l;
  rv_u : is_s 64 u;
  rv_lo : l <= x;
  rv_hi : x <= u;
  rv_lb_cases : lb = NegativeInfinity /\ l = kMinInt64 \/ lb = Constant l;
  rv_ub_cases : ub = PositiveInfinity /\ u = kMaxInt64 \/ ub = Constant u;
}.

Lemma clamp64 c : is_s 64 c -> Clamp (Constant c) kRangeBoundaryInt64 = Constant c.
Proof.
  intros Hc%is_s64. simpl. destruct (Z.leb_spec c kMinInt64).
  - unfold MinConstant, FromConstant. f_equal. simpl. lia.
  - destruct (Z.leb_spec kMaxInt64 c); [|done].
    unfold MaxConstant, FromConstant. f_equal. simpl. lia.
Qed.

Lemma resolve r x :
  in_range G rho r x -> is_s 64 x -> exists l u lb ub, resolved r x l u lb ub.
Proof.
  intros [Hmin Hmax Hlo Hhi] Hx.
  destruct (LowerBound_spec G rho rank HG HA _ Hmin) as (lb & El & Hl).
  destruct (UpperBound_spec G rho rank HG HA _ Hmax) as (ub & Eu & Hu).
  assert (exists l, min_value G r = Ok l /\ is_s 64 l /\ l <= x /\
            (lb = NegativeInfinity /\ l = kMinInt64 \/ lb = Constant l)) as (l & ? & ? & ? & ?).
  { unfold min_value, ConstantMin, constant_min. rewrite El. cbn [mbind outcome_bind].
    destruct Hl as [->|(c & -> & Hc & Hle)].
    - exists kMinInt64. rewrite !is_s64 in *. split; [done|]. split; [|by auto with lia].
      unfold kMinInt64, kMaxInt64. lia.
    - exists c. rewrite clamp64 by done. split; [done|]. split; [done|]. split; [lia|by right]. }
  assert (exists u, max_value G r = Ok u /\ is_s 64 u /\ x <= u /\
            (ub = PositiveInfinity /\ u = kMaxInt64 \/ ub = Constant u)) as (u & ? & ? & ? & ?).
  { unfold max_value, ConstantMax, constant_max. rewrite Eu. cbn [mbind outcome_bind].
    destruct Hu as [->|(c & -> & Hc & Hle)].
    - exists kMaxInt64. rewrite !is_s64 in *. split; [done|]. split; [|by auto with lia].
      unfold kMinInt64, kMaxInt64. lia.
    - exists c. rewrite clamp64 by done. split; [done|]. split; [done|]. split; [lia|by right]. }
  exists l, u, lb, ub. by constructor.
Qed.

Lemma greater_spec r x l u lb ub v :
  resolved r x l u lb ub ->
  OnlyGreaterThanOrEqualTo G r v = Ok (negb (IsNegativeInfinity lb) && (v <=? l)).
Proof.
  intros H. unfold OnlyGreaterThanOrEqualTo. rewrite (rv_lb _ _ _ _ _ _ H).
  by destruct (rv_lb_cases _ _ _ _ _ _ H) as [[-> _]| ->].
Qed.

Lemma less_spec r x l u lb ub v :
  resolved r x l u lb ub ->
  OnlyLessThanOrEqualTo G r v = Ok (negb (IsPositiveInfinity ub) && (u <=? v)).
Proof.
  intros H. unfold OnlyLessThanOrEqualTo. rewrite (rv_ub _ _ _ _ _ _ H).
  by destruct (rv_ub_cases _ _ _ _ _ _ H) as [[-> _]| ->].
Qed.

(** The answers of the tests hold of every value of the range. *)
Lemma greater_sound r x v b :
  in_range G rho r x -> is_s 64 x -> OnlyGreaterThanOrEqualTo G r v = Ok b ->
  b = true -> v <= x.
Proof.
  intros Hr Hx E ->. destruct (resolve r x Hr Hx) as (l & u & lb & ub & R).
  rewrite (greater_spec _ _ _ _ _ _ v R) in E. injection E as [_ E]%andb_true_iff.
  apply Z.leb_le in E. pose proof (rv_lo _ _ _ _ _ _ R). lia.
Qed.

Lemma less_sound r x v b :
  in_range G rho r x -> is_s 64 x -> OnlyLessThanOrEqualTo G r v = Ok b ->
  b = true -> x <= v.
Proof.
  intros Hr Hx E ->. destruct (resolve r x Hr Hx) as (l & u & lb & ub & R).
  rewrite (less_spec _ _ _ _ _ _ v R) in E. injection E as [_ E]%andb_true_iff.
  apply Z.leb_le in E. pose proof (rv_hi _ _ _ _ _ _ R). lia.
Qed.

(** ** Results of operations *)

(** Bounds of [z], as passed to the constructor of [Range]: when one of them is infinite
    the other does not matter. *)
Definition bounds_ok (b : Bounds) (z : Z) : Prop :=
  (IsInfinity b.1 || IsInfinity b.2 = true /\ IsUnknown b.1 || IsUnknown b.2 = false) \/
  bound_ok G rho b.1 /\ bound_ok G rho b.2 /\ bval rho b.1 <= z <= bval rho b.2.

Lemma infinite_lo b z : IsUnknown b = false -> bounds_ok (NegativeInfinity, b) z.
Proof. intros H. by left. Qed.

Lemma constants_ok lo hi z :
  is_s 64 lo -> is_s 64 hi -> lo <= z <= hi -> bounds_ok (Constant lo, Constant hi) z.
Proof. intros. by right. Qed.

Lemma Int64Range_ok z : is_s 64 z -> in_range G rho Int64Range z.
Proof. intros Hz%is_s64. constructor; simpl; rewrite ?is_s64; unfold kMinInt64, kMaxInt64 in *; lia. Qed.

Lemma Range_new_ok lo hi z :
  bounds_ok (lo, hi) z -> is_s 64 z ->
  exists r, Range_new lo hi = Ok r /\ in_range G rho r z.
Proof.
  intros H Hz. unfold Range_new. destruct H as [[HI HU]|(H1 & H2 & H3)]; simpl in *.
  - exists Int64Range. split; [|by apply Int64Range_ok].
    apply orb_false_iff in HU as [-> ->]. by rewrite HI.
  - exists (mkRange lo hi). split; [|by constructor; simpl; (done || lia)].
    by destruct lo, hi.
Qed.

(** *** Sums *)

Lemma FromDefinition_ok d o :
  is_Some (defns G !! d) -> IsSmi (rho d) = true ->
  IsValidOffsetForSymbolicRangeBoundary o = true ->
  exists b, FromDefinition G d o = Ok b /\ bound_ok G rho b /\ bval rho b = rho d + o.
Proof.
  intros [def Hd] Hs Ho. unfold FromDefinition, defn_at. rewrite Hd. cbn [mbind outcome_bind].
  assert (HS : exists b, (_ ← utils_assert (IsValidOffsetForSymbolicRangeBoundary o);
                          Ok (Symbol d o)) = Ok b /\ bound_ok G rho b /\ bval rho b = rho d + o).
  { rewrite Ho. exists (Symbol d o). split; [done|]. by split; [split|]. }
  destruct (kind def) eqn:E; try exact HS.
  pose proof (gk_constant _ _ HG _ _ _ Hd E) as Ev. rewrite Ev in *. rewrite Hs.
  assert (is_s 64 (value + o)) as HF.
  { apply valid_offset in Ho. limits. }
  pose proof (offset_s64 _ Ho). pose proof (smi_s64 _ Hs).
  rewrite (proj2 (WillAddOverflow_spec value o ltac:(done) ltac:(done)) HF).
  by exists (Constant (value + o)).
Qed.

(** A lower (upper) bound of [z], or infinite. *)
Definition lo_ok (b : RangeBoundary) (z : Z) : Prop :=
  b = NegativeInfinity \/ bound_ok G rho b /\ bval rho b <= z.
Definition hi_ok (b : RangeBoundary) (z : Z) : Prop :=
  b = PositiveInfinity \/ bound_ok G rho b /\ z <= bval rho b.

(** Two of them for the exact result of an operation that wraps around. *)
Lemma exact_ok lo hi z : lo_ok lo z -> hi_ok hi z -> bounds_ok (lo, hi) (wraps 64 z).
Proof.
  intros [->|[Hl Ll]] Hh.
  { apply infinite_lo. destruct Hh as [->|[Hh _]]; [done|by destruct hi]. }
  destruct Hh as [->|[Hh Lh]].
  { left. simpl. rewrite orb_true_r, orb_false_r. by destruct lo. }
  right. simpl. rewrite wraps_id; [done|lia|].
  pose proof (bval_s64 G rho lo Hl) as B1. pose proof (bval_s64 G rho hi Hh) as B2.
  rewrite !is_s64 in *. lia.
Qed.

Lemma left_boundary_ok d x own :
  is_Some (defns G !! d) -> rho d = x -> bound_ok G rho own ->
  exists b, left_boundary G d own = Ok b /\ bound_ok G rho b /\
    (bval rho b = x \/ b = own).
Proof.
  intros [def Hd] <- Ho. unfold left_boundary, defn_at. rewrite Hd. cbn [mbind outcome_bind].
  destruct (is_array_length def) eqn:E; [|exists own; auto].
  destruct (FromDefinition_ok d 0) as (b & -> & Hb & V).
  - by exists def.
  - by apply (gk_length _ _ HG d def).
  - apply valid_offset. limits.
  - exists b. split; [done|]. split; [done|]. left. lia.
Qed.

(** The value of a symbolic sum, when there is one. *)
Lemma SymbolicAdd_ok a b :
  bound_ok G rho a -> bound_ok G rho b ->
  exists r, SymbolicAdd G a b = Ok r /\
    forall c, r = Some c -> bound_ok G rho c /\ bval rho c = bval rho a + bval rho b.
Proof.
  assert (P : forall s o c, bound_ok G rho (Symbol s o) -> is_s 64 c ->
    exists r, symbol_plus G (Symbol s o) (Constant c) = Ok r /\
    forall x, r = Some x -> bound_ok G rho x /\ bval rho x = rho s + o + c).
  { intros s o c (Hd & Hs & Ho) Hc. unfold symbol_plus.
    destruct (WillAddOverflow o c); [by exists None|].
    destruct (IsValidOffsetForSymbolicRangeBoundary (o + c)) eqn:E; [|by exists None].
    destruct (FromDefinition_ok s (o + c)) as (r & Er & Hr & V); [done..|].
    cbn [negb]. rewrite Er. exists (Some r). split; [done|]. intros x [= <-].
    split; [done|lia]. }
  intros Ha Hb. unfold SymbolicAdd.
  destruct a as [| | |sa oa|ca], b as [| | |sb ob|cb]; try done; try by exists None.
  - by apply P.
  - destruct (P sb ob ca Hb Ha) as (r & E & H). exists r. split; [done|].
    intros x Ex. destruct (H x Ex). split; [done|]. simpl in *. lia.
Qed.

Lemma SymbolicSub_ok a b :
  bound_ok G rho a -> bound_ok G rho b ->
  exists r, SymbolicSub G a b = Ok r /\
    forall c, r = Some c -> bound_ok G rho c /\ bval rho c = bval rho a - bval rho b.
Proof.
  intros Ha Hb. unfold SymbolicSub.
  destruct a as [| | |s o|], b as [| | | |c]; try done; try by exists None.
  destruct Ha as (Hd & Hs & Ho).
  destruct (WillSubOverflow o c); [by exists None|].
  destruct (IsValidOffsetForSymbolicRangeBoundary (o - c)) eqn:E; [|by exists None].
  destruct (FromDefinition_ok s (o - c)) as (r & Er & Hr & V); [done..|].
  cbn [negb]. rewrite Er. exists (Some r). split; [done|]. intros x [= <-].
  split; [done|]. simpl. lia.
Qed.

(** Sums and differences of constant bounds. *)
Lemma Boundary_Add_lo a b x y :
  lower_of a x -> lower_of b y ->
  exists r, Boundary_Add a b NegativeInfinity = Ok r /\ lo_ok r (x + y).
Proof.
  intros [->|(p & -> & Hp & ?)]; [eexists; split; [done|by left]|].
  intros [->|(q & -> & Hq & ?)]; [eexists; split; [done|by left]|].
  unfold Boundary_Add. cbn. destruct (WillAddOverflow p q) eqn:E;
    (eexists; split; [done|]); [by left|right; simpl].
  split; [by apply WillAddOverflow_spec|lia].
Qed.

Lemma Boundary_Add_hi a b x y :
  upper_of a x -> upper_of b y ->
  exists r, Boundary_Add a b PositiveInfinity = Ok r /\ hi_ok r (x + y).
Proof.
  intros [->|(p & -> & Hp & ?)]; [eexists; split; [done|by left]|].
  intros [->|(q & -> & Hq & ?)]; [eexists; split; [done|by left]|].
  unfold Boundary_Add. cbn. destruct (WillAddOverflow p q) eqn:E;
    (eexists; split; [done|]); [by left|right; simpl].
  split; [by apply WillAddOverflow_spec|lia].
Qed.

Lemma Boundary_Sub_lo a b x y :
  lower_of a x -> upper_of b y ->
  exists r, Boundary_Sub a b NegativeInfinity = Ok r /\ lo_ok r (x - y).
Proof.
  intros [->|(p & -> & Hp & ?)]; [eexists; split; [done|by left]|].
  intros [->|(q & -> & Hq & ?)]; [eexists; split; [done|by left]|].
  unfold Boundary_Sub. cbn. destruct (WillSubOverflow p q) eqn:E;
    (eexists; split; [done|]); [by left|right; simpl].
  split; [by apply WillSubOverflow_spec|lia].
Qed.

Lemma Boundary_Sub_hi a b x y :
  upper_of a x -> lower_of b y ->
  exists r, Boundary_Sub a b PositiveInfinity = Ok r /\ hi_ok r (x - y).
Proof.
  intros [->|(p & -> & Hp & ?)]; [eexists; split; [done|by left]|].
  intros [->|(q & -> & Hq & ?)]; [eexists; split; [done|by left]|].
  unfold Boundary_Sub. cbn. destruct (WillSubOverflow p q) eqn:E;
    (eexists; split; [done|]); [by left|right; simpl].
  split; [by apply WillSubOverflow_spec|lia].
Qed.

Lemma lower_of_le b x y : lower_of b x -> x <= y -> lower_of b y.
Proof. intros [->|(c & -> & ? & ?)] ?; [by left|right; exists c; auto with lia]. Qed.
Lemma upper_of_le b x y : upper_of b x -> y <= x -> upper_of b y.
Proof. intros [->|(c & -> & ? & ?)] ?; [by left|right; exists c; auto with lia]. Qed.

Lemma lower_min r x :
  in_range G rho r x -> exists b, LowerBound G (min r) = Ok b /\ lower_of b x.
Proof.
  intros [Hm _ Hl _]. destruct (LowerBound_spec G rho rank HG HA _ Hm) as (b & E & Hb).
  exists b. split; [done|]. by eapply lower_of_le.
Qed.

Lemma upper_max r x :
  in_range G rho r x -> exists b, UpperBound G (max r) = Ok b /\ upper_of b x.
Proof.
  intros [_ Hm _ Hh]. destruct (UpperBound_spec G rho rank HG HA _ Hm) as (b & E & Hb).
  exists b. split; [done|]. by eapply upper_of_le.
Qed.

Lemma symbolic_lo s numeric z :
  (forall c, s = Some c -> bound_ok G rho c /\ bval rho c <= z) ->
  (exists r, numeric = Ok r /\ lo_ok r z) ->
  exists r, symbolic_or s numeric = Ok r /\ lo_ok r z.
Proof. intros Hs Hn. destruct s as [c|]; [|done]. exists c. split; [done|right; auto]. Qed.

Lemma symbolic_hi s numeric z :
  (forall c, s = Some c -> bound_ok G rho c /\ z <= bval rho c) ->
  (exists r, numeric = Ok r /\ hi_ok r z) ->
  exists r, symbolic_or s numeric = Ok r /\ hi_ok r z.
Proof. intros Hs Hn. destruct s as [c|]; [|done]. exists c. split; [done|right; auto]. Qed.

Lemma Range_Add_ok left right x y d :
  in_range G rho left x -> in_range G rho right y ->
  is_Some (defns G !! d) -> rho d = x ->
  exists b, Add G left right d = Ok b /\ bounds_ok b (wraps 64 (x + y)).
Proof.
  intros HL HR Hd Ex. pose proof HL as [Lm LM Ll Lh]. pose proof HR as [Rm RM Rl Rh].
  destruct (left_boundary_ok d x (min left) Hd Ex Lm) as (lm & Elm & Hlm & Vlm).
  destruct (left_boundary_ok d x (max left) Hd Ex LM) as (lM & ElM & HlM & VlM).
  destruct (SymbolicAdd_ok lm (min right) Hlm Rm) as (slo & Eslo & Hslo).
  destruct (SymbolicAdd_ok lM (max right) HlM RM) as (shi & Eshi & Hshi).
  destruct (lower_min _ _ HL) as (a & Ea & Ha). destruct (lower_min _ _ HR) as (b & Eb & Hb).
  destruct (upper_max _ _ HR) as (c & Ec & Hc). destruct (upper_max _ _ HL) as (e & Ee & He).
  unfold Add. rewrite Elm, Ok_bind, ElM, Ok_bind, Eslo, Ok_bind.
  rewrite Ea, Ok_bind, Eb, Ok_bind.
  destruct (symbolic_lo slo (Boundary_Add a b NegativeInfinity) (x + y)) as (lo & -> & Hlo).
  { intros s Es. destruct (Hslo s Es) as [? ->]. split; [done|]. destruct Vlm as [->| ->]; lia. }
  { by apply Boundary_Add_lo. }
  rewrite Ok_bind, Eshi, Ok_bind, Ec, Ok_bind, Ee, Ok_bind.
  destruct (symbolic_hi shi (Boundary_Add c e PositiveInfinity) (x + y)) as (hi & -> & Hhi).
  { intros s Es. destruct (Hshi s Es) as [? ->]. split; [done|]. destruct VlM as [->| ->]; lia. }
  { rewrite Z.add_comm. by apply Boundary_Add_hi. }
  exists (lo, hi). split; [done|]. by apply exact_ok.
Qed.

Lemma Sub_ok left right x y d :
  in_range G rho left x -> in_range G rho right y ->
  is_Some (defns G !! d) -> rho d = x ->
  exists b, Sub G left right d = Ok b /\ bounds_ok b (wraps 64 (x - y)).
Proof.
  intros HL HR Hd Ex. pose proof HL as [Lm LM Ll Lh]. pose proof HR as [Rm RM Rl Rh].
  destruct (left_boundary_ok d x (min left) Hd Ex Lm) as (lm & Elm & Hlm & Vlm).
  destruct (left_boundary_ok d x (max left) Hd Ex LM) as (lM & ElM & HlM & VlM).
  destruct (SymbolicSub_ok lm (max right) Hlm RM) as (slo & Eslo & Hslo).
  destruct (SymbolicSub_ok lM (min right) HlM Rm) as (shi & Eshi & Hshi).
  destruct (lower_min _ _ HL) as (a & Ea & Ha). destruct (lower_min _ _ HR) as (b & Eb & Hb).
  destruct (upper_max _ _ HR) as (c & Ec & Hc). destruct (upper_max _ _ HL) as (e & Ee & He).
  unfold Sub. rewrite Elm, Ok_bind, ElM, Ok_bind, Eslo, Ok_bind.
  rewrite Ea, Ok_bind, Ec, Ok_bind.
  destruct (symbolic_lo slo (Boundary_Sub a c NegativeInfinity) (x - y)) as (lo & -> & Hlo).
  { intros s Es. destruct (Hslo s Es) as [? ->]. split; [done|]. destruct Vlm as [->| ->]; lia. }
  { by apply Boundary_Sub_lo. }
  rewrite Ok_bind, Eshi, Ok_bind, Ee, Ok_bind, Eb, Ok_bind.
  destruct (symbolic_hi shi (Boundary_Sub e b PositiveInfinity) (x - y)) as (hi & -> & Hhi).
  { intros s Es. destruct (Hshi s Es) as [? ->]. split; [done|]. destruct VlM as [->| ->]; lia. }
  { by apply Boundary_Sub_hi. }
  exists (lo, hi). split; [done|]. by apply exact_ok.
Qed.

(** *** Products and quotients *)

Lemma AbsWithSaturation_spec x :
  is_s 64 x ->
  AbsWithSaturation x = if x =? kMinInt64 then kMaxInt64 else Z.abs x.
Proof.
  intros Hx%is_s64. unfold AbsWithSaturation. destruct (Z.ltb_spec x 0), (Z.eqb_spec x kMinInt64);
    unfold kMinInt64 in *; lia.
Qed.

Lemma abs_max_spec r x l u lb ub :
  resolved r x l u lb ub ->
  exists m, ConstantAbsMax G r = Ok m /\ 0 <= m <= kMaxInt64 /\
    (m < kMaxInt64 -> Z.abs x <= m) /\ (l <> kMinInt64 -> Z.abs x <= m) /\
    (0 <= l -> m = u).
Proof.
  intros R. unfold ConstantAbsMax. rewrite (rv_min _ _ _ _ _ _ R), (rv_max _ _ _ _ _ _ R).
  cbn [mbind outcome_bind]. eexists. split; [done|]. destruct R as [_ _ _ _ Rl Ru Rlo Rhi _ _].
  rewrite Maximum_max, !AbsWithSaturation_spec by done. rewrite !is_s64 in *.
  destruct (Z.eqb_spec l kMinInt64), (Z.eqb_spec u kMinInt64);
    unfold kMinInt64, kMaxInt64 in *; lia.
Qed.

Lemma abs_min_spec r x l u lb ub :
  resolved r x l u lb ub ->
  exists m, ConstantAbsMin G r = Ok m /\ 0 <= m <= kMaxInt64 /\ (0 <= l -> m = l) /\
    (u <= 0 -> m <= Z.abs x).
Proof.
  intros R. unfold ConstantAbsMin. rewrite (rv_min _ _ _ _ _ _ R), (rv_max _ _ _ _ _ _ R).
  cbn [mbind outcome_bind]. eexists. split; [done|]. destruct R as [_ _ _ _ Rl Ru Rlo Rhi _ _].
  rewrite Minimum_min, !AbsWithSaturation_spec by done. rewrite !is_s64 in *.
  destruct (Z.eqb_spec l kMinInt64), (Z.eqb_spec u kMinInt64);
    unfold kMinInt64, kMaxInt64 in *; lia.
Qed.

Lemma and_then_Ok a b : and_then (Ok a) (Ok b) = Ok (a && b).
Proof. by destruct a. Qed.
Lemma or_else_Ok a b : or_else (Ok a) (Ok b) = Ok (a || b).
Proof. by destruct a. Qed.

(** The test for operands of the same sign. *)
Lemma same_sign_spec left right x y l1 u1 lb1 ub1 l2 u2 lb2 ub2 :
  resolved left x l1 u1 lb1 ub1 -> resolved right y l2 u2 lb2 ub2 ->
  exists b, or_else (OnlyPositiveOrZero G left right) (OnlyNegativeOrZero G left right) = Ok b /\
    (b = true -> 0 <= l1 /\ 0 <= l2 \/ u1 <= 0 /\ u2 <= 0).
Proof.
  intros R1 R2. unfold OnlyPositiveOrZero, OnlyNegativeOrZero.
  rewrite (greater_spec _ _ _ _ _ _ 0 R1), (greater_spec _ _ _ _ _ _ 0 R2).
  rewrite (less_spec _ _ _ _ _ _ 0 R1), (less_spec _ _ _ _ _ _ 0 R2).
  rewrite !and_then_Ok, or_else_Ok. eexists. split; [done|].
  rewrite orb_true_iff, !andb_true_iff, !Z.leb_le. tauto.
Qed.

Lemma Mul_ok left right x y :
  in_range G rho left x -> in_range G rho right y -> is_s 64 x -> is_s 64 y ->
  exists b, Mul G left right = Ok b /\ bounds_ok b (wraps 64 (x * y)).
Proof.
  intros HL HR Hx Hy. destruct (resolve left x HL Hx) as (l1 & u1 & lb1 & ub1 & R1).
  destruct (resolve right y HR Hy) as (l2 & u2 & lb2 & ub2 & R2).
  destruct (abs_max_spec _ _ _ _ _ _ R1) as (m1 & E1 & B1 & A1 & _ & _).
  destruct (abs_max_spec _ _ _ _ _ _ R2) as (m2 & E2 & B2 & A2 & _ & _).
  destruct (abs_min_spec _ _ _ _ _ _ R1) as (n1 & F1 & C1 & D1 & D1').
  destruct (abs_min_spec _ _ _ _ _ _ R2) as (n2 & F2 & C2 & D2 & D2').
  destruct (same_sign_spec _ _ _ _ _ _ _ _ _ _ _ _ R1 R2) as (ss & Es & Hs).
  unfold Mul. rewrite E1, Ok_bind, E2, Ok_bind, Es, Ok_bind.
  destruct R1 as [_ _ _ _ _ _ L1 H1 _ _], R2 as [_ _ _ _ _ _ L2 H2 _ _].
  destruct (_ && _) eqn:T.
  - rewrite !andb_true_iff, orb_true_iff, !Z.leb_le, Z.eqb_eq in T. destruct T as [[T1 T2] T3].
    assert (M1 : Z.abs x <= m1) by (apply A1; unfold kMaxInt64; limits).
    assert (M2 : Z.abs y <= m2) by (apply A2; unfold kMaxInt64; limits).
    assert (HM : 0 <= m1 * m2 <= kMaxInt64).
    { split; [nia|]. destruct T3 as [->|T3]; [unfold kMaxInt64; lia|].
      destruct (decide (m1 = 0)) as [->|]; [unfold kMaxInt64; lia|].
      rewrite Z.quot_div_nonneg in T3 by (unfold kMaxInt64; lia).
      pose proof (Z.mul_div_le kMaxInt64 m1 ltac:(lia)). nia. }
    assert (HXY : Z.abs (x * y) <= m1 * m2).
    { rewrite Z.abs_mul. apply Z.mul_le_mono_nonneg; lia. }
    rewrite wraps_id; [|lia|apply is_s64; unfold kMinInt64, kMaxInt64 in *; lia].
    destruct ss.
    + rewrite F1, Ok_bind, F2, Ok_bind. eexists. split; [done|].
      assert (0 <= n1 * n2 <= x * y).
      { split; [nia|]. destruct (Hs eq_refl) as [[??]|[??]].
        - rewrite D1, D2 by done. apply Z.mul_le_mono_nonneg; lia.
        - specialize (D1' ltac:(done)). specialize (D2' ltac:(done)). nia. }
      apply constants_ok; rewrite ?is_s64; unfold kMinInt64, kMaxInt64 in *; lia.
    + eexists. split; [done|].
      apply constants_ok; rewrite ?is_s64; unfold kMinInt64, kMaxInt64 in *; lia.
  - destruct ss; (eexists; split; [done|by left]).
Qed.

Lemma TruncDiv_ok left right x y :
  in_range G rho left x -> in_range G rho right y -> is_s 64 x -> is_s 64 y -> y <> 0 ->
  exists b, TruncDiv G left right = Ok b /\ bounds_ok b (wraps 64 (Z.quot x y)).
Proof.
  intros HL HR Hx Hy H0. destruct (resolve left x HL Hx) as (l1 & u1 & lb1 & ub1 & R1).
  destruct (resolve right y HR Hy) as (l2 & u2 & lb2 & ub2 & R2).
  destruct (abs_max_spec _ _ _ _ _ _ R1) as (m1 & E1 & B1 & _ & _ & A1).
  destruct (abs_max_spec _ _ _ _ _ _ R2) as (m2 & E2 & B2 & _ & _ & A2).
  destruct (abs_min_spec _ _ _ _ _ _ R1) as (n1 & F1 & C1 & D1 & _).
  destruct (abs_min_spec _ _ _ _ _ _ R2) as (n2 & F2 & C2 & D2 & _).
  unfold TruncDiv, and_then.
  rewrite (greater_spec _ _ _ _ _ _ 0 R1), (greater_spec _ _ _ _ _ _ 1 R2).
  destruct R1 as [_ _ _ _ _ _ L1 H1 _ _], R2 as [_ _ _ _ _ _ L2 H2 _ _].
  rewrite Ok_bind. destruct (negb (IsNegativeInfinity lb1)); [|eexists; split; [done|by left]].
  destruct (Z.leb_spec 0 l1) as [P1|P1]; [|eexists; split; [done|by left]]. cbn [andb].
  rewrite Ok_bind. destruct (negb (IsNegativeInfinity lb2)); [|eexists; split; [done|by left]].
  destruct (Z.leb_spec 1 l2) as [P2|P2]; [|eexists; split; [done|by left]]. cbn [andb].
  rewrite E1, Ok_bind, F1, Ok_bind, E2, Ok_bind, F2, Ok_bind.
  rewrite A1, D1, A2, D2 in * by lia. unfold cxx_div.
  destruct (Z.eqb_spec l2 0) as [|_]; [lia|]. destruct (Z.eqb_spec u2 0) as [|_]; [lia|].
  rewrite !Ok_bind. eexists. split; [done|].
  rewrite !Z.quot_div_nonneg by lia.
  assert (l1 / u2 <= x / y) by (etransitivity; [apply (Z.div_le_mono l1 x); lia|];
    apply Z.div_le_compat_l; lia).
  assert (x / y <= u1 / l2) by (etransitivity; [apply (Z.div_le_mono x u1); lia|];
    apply Z.div_le_compat_l; lia).
  assert (0 <= l1 / u2) by (apply Z.div_pos; lia).
  assert (u1 / l2 <= u1) by (apply Z.div_le_upper_bound; nia).
  rewrite wraps_id; [|lia|apply is_s64; unfold kMinInt64, kMaxInt64 in *; lia].
  apply constants_ok; rewrite ?is_s64; unfold kMinInt64, kMaxInt64 in *; lia.
Qed.

Lemma Mod_ok right x y :
  in_range G rho right y -> is_s 64 y -> y <> 0 ->
  exists b, Mod G right = Ok b /\ bounds_ok b (x mod Z.abs y).
Proof.
  intros HR Hy H0. destruct (resolve right y HR Hy) as (l2 & u2 & lb2 & ub2 & R2).
  destruct (abs_max_spec _ _ _ _ _ _ R2) as (m2 & E2 & B2 & _ & A2 & _).
  unfold Mod. rewrite (rv_min _ _ _ _ _ _ R2), Ok_bind.
  pose proof (Z.mod_pos_bound x (Z.abs y) ltac:(lia)). rewrite is_s64 in Hy.
  destruct (Z.eqb_spec l2 kMinInt64) as [|N]; cbn [negb].
  - rewrite Ok_bind. eexists. split; [done|].
    apply constants_ok; rewrite ?is_s64; unfold kMinInt64, kMaxInt64 in *; lia.
  - rewrite E2, !Ok_bind. eexists. split; [done|]. specialize (A2 N). rewrite Maximum_max.
    apply constants_ok; rewrite ?is_s64; unfold kMinInt64, kMaxInt64 in *; lia.
Qed.

(** *** Shifts *)

Lemma Boundary_Shl_spec v s overflow :
  is_s 64 v -> 0 <= s ->
  exists b, Boundary_Shl (Constant v) s overflow = Ok b /\
    (b = overflow \/ b = Constant (v * 2 ^ s) /\ is_s 64 (v * 2 ^ s)).
Proof.
  intros Hv Hs. unfold Boundary_Shl. cbn [ConstantValue]. rewrite Ok_bind.
  rewrite (proj2 (Z.leb_le 0 s) Hs). cbn [utils_assert]. rewrite Ok_bind.
  destruct (Z.eqb_spec v 0) as [->|H0].
  { eexists. split; [done|]. right. rewrite Z.mul_0_l. done. }
  destruct (_ || _) eqn:T; (eexists; split; [done|]); [|by left]. right.
  assert (HF : is_s 64 (v * 2 ^ s)).
  { apply orb_true_iff in T as [->%Z.eqb_eq|[L%Z.ltb_lt T]%andb_true_iff].
    - by rewrite Z.mul_1_r.
    - apply IsInt_signed_spec in T; [|lia..|done]. unfold is_s in *.
      replace (64 - 1) with ((64 - s - 1) + s) by lia. rewrite Z.pow_add_r by lia.
      pose proof (pow2_pos s Hs). nia. }
  split; [|done]. f_equal. rewrite Z.shiftl_mul_pow2 by done.
  rewrite <- (wraps_id 64 (v * 2 ^ s)) by (done || lia). apply wraps_eq_wrapu.
  by rewrite wrapu_mul_l.
Qed.

(** Bounds of a product with a power of two. *)
Lemma shl_lo l x y rmin rmax :
  l <= x -> 0 <= rmin <= y -> y <= rmax ->
  l * 2 ^ (if 0 <? l then rmin else rmax) <= x * 2 ^ y.
Proof.
  intros Hl Hmin Hmax. pose proof (pow2_le rmin y ltac:(lia)). pose proof (pow2_le y rmax ltac:(lia)).
  pose proof (pow2_pos rmin ltac:(lia)). destruct (Z.ltb_spec 0 l); [nia|].
  destruct (Z.le_gt_cases 0 x); nia.
Qed.

Lemma shl_hi u x y rmin rmax :
  x <= u -> 0 <= rmin <= y -> y <= rmax ->
  x * 2 ^ y <= u * 2 ^ (if 0 <? u then rmax else rmin).
Proof.
  intros Hu Hmin Hmax. pose proof (pow2_le rmin y ltac:(lia)). pose proof (pow2_le y rmax ltac:(lia)).
  pose proof (pow2_pos rmin ltac:(lia)). destruct (Z.ltb_spec 0 u); [|nia].
  destruct (Z.le_gt_cases 0 x); nia.
Qed.

Lemma shl_value x y :
  is_s 64 (x * 2 ^ y) -> 0 <= y -> (if 64 <=? y then 0 else wraps 64 (x * 2 ^ y)) = x * 2 ^ y.
Proof.
  intros HF Hy. destruct (Z.leb_spec 64 y) as [L|L]; [|apply wraps_id; [lia|done]].
  pose proof (pow2_le 64 y ltac:(lia)) as HP. rewrite is_s64 in HF.
  unfold kMinInt64, kMaxInt64 in HF. change (2 ^ 64) with 0x10000000000000000 in HP.
  destruct (decide (x = 0)) as [->|]; [done|]. nia.
Qed.

Lemma Shl_ok left right x y :
  in_range G rho left x -> in_range G rho right y -> is_s 64 x -> is_s 64 y -> 0 <= y ->
  exists b, Shl G left right = Ok b /\
    bounds_ok b (if 64 <=? y then 0 else wraps 64 (x * 2 ^ y)).
Proof.
  intros HL HR Hx Hy H0. destruct (resolve left x HL Hx) as (l1 & u1 & lb1 & ub1 & R1).
  destruct (resolve right y HR Hy) as (l2 & u2 & lb2 & ub2 & R2).
  unfold Shl. rewrite (rv_max _ _ _ _ _ _ R1), Ok_bind, (rv_min _ _ _ _ _ _ R1), Ok_bind.
  rewrite (rv_max _ _ _ _ _ _ R2), Ok_bind, (rv_min _ _ _ _ _ _ R2), Ok_bind.
  rewrite !Maximum_max. cbv zeta.
  destruct R1 as [_ _ _ _ Rl1 Ru1 L1 H1 _ _], R2 as [_ _ _ _ Rl2 Ru2 L2 H2 _ _].
  pose proof (shl_lo l1 x y (Z.max l2 0) (Z.max u2 0) L1 ltac:(lia) ltac:(lia)) as Hlo.
  pose proof (shl_hi u1 x y (Z.max l2 0) (Z.max u2 0) H1 ltac:(lia) ltac:(lia)) as Hhi.
  destruct (Boundary_Shl_spec l1 (if 0 <? l1 then Z.max l2 0 else Z.max u2 0) (overflow_of l1))
    as (lo & -> & Clo); [done|destruct (0 <? l1); lia|]. rewrite Ok_bind.
  destruct (Boundary_Shl_spec u1 (if 0 <? u1 then Z.max u2 0 else Z.max l2 0) (overflow_of u1))
    as (hi & -> & Chi); [done|destruct (0 <? u1); lia|]. rewrite Ok_bind.
  eexists. split; [done|].
  assert (HI : forall v, IsInfinity (overflow_of v) = true /\ IsUnknown (overflow_of v) = false)
    by (intros v; unfold overflow_of; by destruct (0 <? v)).
  destruct Clo as [->|[-> Slo]].
  { left. simpl. destruct (HI l1) as [-> ->]. split; [done|].
    destruct Chi as [->|[-> _]]; [by destruct (HI u1)|done]. }
  destruct Chi as [->|[-> Shi]].
  { left. simpl. by destruct (HI u1) as [-> ->]. }
  rewrite shl_value by (rewrite ?is_s64 in *; lia). by apply constants_ok.
Qed.

Lemma Boundary_Shr_spec v s :
  is_s 64 v -> 0 <= s -> Boundary_Shr (Constant v) s = Ok (Constant (v >> Z.min s 63)).
Proof.
  intros Hv Hs. unfold Boundary_Shr. cbn [ConstantValue]. rewrite Ok_bind.
  rewrite (proj2 (Z.leb_le 0 s) Hs). cbn [utils_assert]. rewrite Ok_bind. do 2 f_equal.
  destruct (Z.leb_spec s 63); [by rewrite Z.min_l|]. rewrite Z.min_r, Z.shiftr_div_pow2 by lia.
  rewrite is_s64 in Hv. unfold kMinInt64, kMaxInt64 in Hv.
  change (2 ^ 63) with 0x8000000000000000. destruct (Z.leb_spec 0 v).
  - by rewrite Z.div_small by lia.
  - apply (Z.div_unique_pos _ _ _ (v + 0x8000000000000000)); lia.
Qed.

Lemma shr_mono a b s : a <= b -> 0 <= s -> a >> s <= b >> s.
Proof. intros. rewrite !Z.shiftr_div_pow2 by done. apply Z.div_le_mono; [by apply pow2_pos|done]. Qed.

Lemma shr_more a s t : 0 <= a -> 0 <= s <= t -> a >> t <= a >> s.
Proof.
  intros Ha Hs. rewrite !Z.shiftr_div_pow2 by lia.
  apply Z.div_le_compat_l; [done|]. split; [apply pow2_pos; lia|apply pow2_le; lia].
Qed.

Lemma shr_less a s t : a <= 0 -> 0 <= s <= t -> a >> s <= a >> t.
Proof.
  intros Ha Hs. rewrite !Z.shiftr_div_pow2 by lia.
  pose proof (pow2_pos s ltac:(lia)). pose proof (pow2_le s t ltac:(lia)).
  pose proof (Z.mul_div_le a (2 ^ s) ltac:(lia)).
  apply Z.div_le_lower_bound; [lia|].
  assert (a / 2 ^ s <= 0) by (apply Z.div_le_upper_bound; lia). nia.
Qed.

Lemma Shr_ok left right x y :
  in_range G rho left x -> in_range G rho right y -> is_s 64 x -> is_s 64 y -> 0 <= y ->
  exists b, Shr G left right = Ok b /\ bounds_ok b (x >> Z.min y 63).
Proof.
  intros HL HR Hx Hy H0. destruct (resolve left x HL Hx) as (l1 & u1 & lb1 & ub1 & R1).
  destruct (resolve right y HR Hy) as (l2 & u2 & lb2 & ub2 & R2).
  unfold Shr. rewrite (rv_max _ _ _ _ _ _ R1), Ok_bind, (rv_min _ _ _ _ _ _ R1), Ok_bind.
  rewrite (rv_max _ _ _ _ _ _ R2), Ok_bind, (rv_min _ _ _ _ _ _ R2), Ok_bind.
  rewrite !Maximum_max. cbv zeta.
  destruct R1 as [_ _ _ _ Rl1 Ru1 L1 H1 _ _], R2 as [_ _ _ _ Rl2 Ru2 L2 H2 _ _].
  rewrite !Boundary_Shr_spec by (done || destruct (0 <? _); lia). rewrite !Ok_bind.
  eexists. split; [done|].
  assert (HS : forall v s, is_s 64 v -> is_s 64 s -> 0 <= s -> is_s 64 (v >> Z.min s 63))
    by (intros v s Hv Hs' Hs; exact (op_spec_s64 kSHR v s _ Hv Hs' (conj Hs eq_refl))).
  assert (is_s 64 (Z.max l2 0) /\ is_s 64 (Z.max u2 0)) as [Sl Su]
    by (rewrite !is_s64 in *; unfold kMinInt64, kMaxInt64 in *; lia).
  apply constants_ok; [apply HS; [done|destruct (0 <? l1); (done || lia)..]
    |apply HS; [done|destruct (0 <? u1); (done || lia)..]|split].
  - transitivity (l1 >> Z.min y 63); [|apply shr_mono; lia].
    destruct (Z.ltb_spec 0 l1); [apply shr_more|apply shr_less]; lia.
  - transitivity (u1 >> Z.min y 63); [apply shr_mono; lia|].
    destruct (Z.ltb_spec 0 u1); [apply shr_more|apply shr_less]; lia.
Qed.

(** Unsigned values of a range. *)
Lemma ConvertRangeToUnsigned_spec l u x :
  is_s 64 l -> is_s 64 u -> l <= x <= u ->
  exists ul uu, ConvertRangeToUnsigned l u = Ok (ul, uu) /\ 0 <= ul <= wrapu 64 x /\
    wrapu 64 x <= uu < 2 ^ 64.
Proof.
  intros Hl Hu Hx. unfold ConvertRangeToUnsigned. rewrite (proj2 (Z.leb_le l u)) by lia.
  cbn [utils_assert]. rewrite Ok_bind.
  assert (Hx' : is_s 64 x) by (rewrite !is_s64 in *; lia).
  pose proof (wrapu_range 64 x ltac:(lia)). pose proof (wrapu_range 64 l ltac:(lia)).
  pose proof (wrapu_range 64 u ltac:(lia)). unfold is_u in *.
  change (2 ^ 64) with 0x10000000000000000 in *.
  destruct (_ && _) eqn:T; (eexists _, _; split; [done|]); unfold kMaxUint64; [lia|].
  rewrite !wrapu_of_s by (done || lia). apply andb_false_iff in T.
  rewrite Z.ltb_ge, Z.leb_gt in T. change (2 ^ 64) with 0x10000000000000000.
  rewrite !is_s64 in *. unfold kMinInt64, kMaxInt64 in *.
  destruct (Z.ltb_spec x 0), (Z.ltb_spec l 0), (Z.ltb_spec u 0); lia.
Qed.

Lemma ConvertRangeToSigned_spec a b v :
  0 <= a <= v -> v <= b < 2 ^ 64 ->
  exists sa sb, ConvertRangeToSigned a b = Ok (sa, sb) /\ is_s 64 sa /\ is_s 64 sb /\
    sa <= wraps 64 v <= sb.
Proof.
  intros Ha Hb. unfold ConvertRangeToSigned. rewrite (proj2 (Z.leb_le a b)) by lia.
  cbn [utils_assert]. rewrite Ok_bind.
  change (wrapu 64 kMaxInt64) with 0x7FFFFFFFFFFFFFFF.
  change (wrapu 64 kMinInt64) with 0x8000000000000000.
  destruct (_ && _) eqn:T; (eexists _, _; split; [done|]).
  - pose proof (wraps_range 64 v ltac:(lia)) as R. rewrite !is_s64 in *.
    unfold kMinInt64, kMaxInt64 in *. lia.
  - split; [by apply wraps_range|]. split; [by apply wraps_range|].
    apply andb_false_iff in T. rewrite !Z.leb_gt in T.
    rewrite !wraps_of_u by (unfold is_u; lia).
    change (2 ^ (64 - 1)) with 0x8000000000000000.
    change (2 ^ 64) with 0x10000000000000000 in *.
    destruct (Z.ltb_spec a 0x8000000000000000), (Z.ltb_spec v 0x8000000000000000),
      (Z.ltb_spec b 0x8000000000000000); lia.
Qed.

Lemma Ushr_ok left right x y :
  in_range G rho left x -> in_range G rho right y -> is_s 64 x -> is_s 64 y -> 0 <= y ->
  exists b, Ushr G left right = Ok b /\
    bounds_ok b (wraps 64 (if 64 <=? y then 0 else wrapu 64 x >> y)).
Proof.
  intros HL HR Hx Hy H0. destruct (resolve left x HL Hx) as (l1 & u1 & lb1 & ub1 & R1).
  destruct (resolve right y HR Hy) as (l2 & u2 & lb2 & ub2 & R2).
  unfold Ushr. rewrite (rv_max _ _ _ _ _ _ R1), Ok_bind, (rv_min _ _ _ _ _ _ R1), Ok_bind.
  rewrite (rv_max _ _ _ _ _ _ R2), Ok_bind, (rv_min _ _ _ _ _ _ R2), Ok_bind.
  rewrite !Maximum_max. cbv zeta.
  destruct R1 as [_ _ _ _ Rl1 Ru1 L1 H1 _ _], R2 as [_ _ _ _ Rl2 Ru2 L2 H2 _ _].
  destruct (ConvertRangeToUnsigned_spec l1 u1 x Rl1 Ru1 ltac:(lia)) as (ul & uu & -> & Hul & Huu).
  rewrite Ok_bind.
  set (v := if 64 <=? y then 0 else wrapu 64 x >> y).
  set (a := if 64 <=? Z.max u2 0 then 0 else ul >> Z.max u2 0).
  set (b := if 64 <=? Z.max l2 0 then 0 else uu >> Z.max l2 0).
  assert (Hpos : forall w s, 0 <= w -> 0 <= s -> 0 <= w >> s <= w).
  { intros w s Hw Hs. split; [by apply Z.shiftr_nonneg|].
    rewrite <- (Z.shiftr_0_r w) at 2. apply shr_more; lia. }
  assert (Hav : 0 <= a <= v /\ v <= b < 2 ^ 64).
  { subst a b v. pose proof (Hpos uu (Z.max l2 0) ltac:(lia) ltac:(lia)).
    pose proof (Hpos (wrapu 64 x) y ltac:(lia) H0).
    pose proof (Hpos ul (Z.max u2 0) ltac:(lia) ltac:(lia)).
    assert (ul >> Z.max u2 0 <= wrapu 64 x >> y)
      by (transitivity (ul >> y); [apply shr_more; lia|apply shr_mono; lia]).
    assert (wrapu 64 x >> y <= uu >> Z.max l2 0)
      by (transitivity (uu >> y); [apply shr_mono; lia|apply shr_more; lia]).
    destruct (Z.leb_spec 64 y), (Z.leb_spec 64 (Z.max u2 0)), (Z.leb_spec 64 (Z.max l2 0)); lia. }
  destruct (ConvertRangeToSigned_spec a b v) as (sa & sb & -> & Sa & Sb & Hs); [lia..|].
  rewrite Ok_bind. eexists. split; [done|]. by apply constants_ok.
Qed.

(** *** Bitwise operations *)

Lemma BitSize_spec r x l u lb ub :
  resolved r x l u lb ub ->
  exists n, BitSize G r = Ok n /\ 0 <= n <= 63 /\ is_s (n + 1) x.
Proof.
  intros R. unfold BitSize. rewrite (rv_min _ _ _ _ _ _ R), Ok_bind, (rv_max _ _ _ _ _ _ R), Ok_bind.
  destruct R as [_ _ _ _ Rl Ru Rlo Rhi _ _].
  destruct (BitLength_spec l Rl) as (a & -> & Ha & Ma). rewrite Ok_bind.
  destruct (BitLength_spec u Ru) as (b & -> & Hb & Mb). rewrite Ok_bind, Maximum_max.
  eexists. split; [done|]. split; [lia|].
  pose proof (proj2 (Ma (Z.max a b) ltac:(lia)) ltac:(lia)).
  pose proof (proj2 (Mb (Z.max a b) ltac:(lia)) ltac:(lia)). unfold is_s in *. lia.
Qed.

Lemma is_s_wider m n x : 0 <= m <= n -> is_s (m + 1) x -> is_s (n + 1) x.
Proof.
  intros H Hx. unfold is_s in *. replace (m + 1 - 1) with m in Hx by lia.
  replace (n + 1 - 1) with n by lia. pose proof (pow2_le m n H). lia.
Qed.

Lemma BitwiseOp_ok left right x y z :
  in_range G rho left x -> in_range G rho right y -> is_s 64 x -> is_s 64 y ->
  (forall n, 0 < n -> is_s n x -> is_s n y -> is_s n z) -> (0 <= x -> 0 <= y -> 0 <= z) ->
  exists b, BitwiseOp G left right = Ok b /\ bounds_ok b z.
Proof.
  intros HL HR Hx Hy Hz Hp. destruct (resolve left x HL Hx) as (l1 & u1 & lb1 & ub1 & R1).
  destruct (resolve right y HR Hy) as (l2 & u2 & lb2 & ub2 & R2).
  destruct (BitSize_spec _ _ _ _ _ _ R1) as (n1 & E1 & B1 & S1).
  destruct (BitSize_spec _ _ _ _ _ _ R2) as (n2 & E2 & B2 & S2).
  unfold BitwiseOp, IsPositive. rewrite E1, Ok_bind, E2, Ok_bind, Maximum_max.
  rewrite (greater_spec _ _ _ _ _ _ 0 R1), (greater_spec _ _ _ _ _ _ 0 R2), and_then_Ok, Ok_bind.
  eexists. split; [done|]. rewrite Z.shiftl_1_l.
  set (n := Z.max n1 n2).
  assert (Hn : 0 <= n <= 63) by lia.
  pose proof (is_s_wider n1 n x ltac:(lia) S1) as T1.
  pose proof (is_s_wider n2 n y ltac:(lia) S2) as T2.
  pose proof (Hz (n + 1) ltac:(lia) T1 T2) as T3. unfold is_s in T3.
  replace (n + 1 - 1) with n in T3 by lia.
  pose proof (pow2_le n 63 Hn) as P. change (2 ^ 63) with 0x8000000000000000 in P.
  pose proof (pow2_pos n ltac:(lia)).
  assert (F1 : is_s 64 (- 2 ^ n)) by (rewrite is_s64; unfold kMinInt64, kMaxInt64; lia).
  assert (F2 : is_s 64 (2 ^ n - 1)) by (rewrite is_s64; unfold kMinInt64, kMaxInt64; lia).
  rewrite !wraps_id by (done || lia).
  pose proof (rv_lo _ _ _ _ _ _ R1). pose proof (rv_lo _ _ _ _ _ _ R2).
  apply constants_ok; [|done|]; destruct (_ && _) eqn:T; try done; [|lia].
  rewrite !andb_true_iff, !Z.leb_le in T. split; [apply Hp|]; lia.
Qed.

Lemma And_ok left right x y :
  in_range G rho left x -> in_range G rho right y -> is_s 64 x -> is_s 64 y ->
  exists b, And G left right = Ok b /\ bounds_ok b (x .& y).
Proof.
  intros HL HR Hx Hy. destruct (resolve left x HL Hx) as (l1 & u1 & lb1 & ub1 & R1).
  destruct (resolve right y HR Hy) as (l2 & u2 & lb2 & ub2 & R2).
  assert (HC : forall r a l u lb ub, resolved r a l u lb ub ->
    ConstantMax G (Some r) kRangeBoundaryInt64 = Ok (Constant u)).
  { intros r a l u lb ub R. pose proof (rv_max _ _ _ _ _ _ R) as E. unfold max_value in E.
    destruct (ConstantMax G (Some r) kRangeBoundaryInt64) as [[]| |]; try done.
    by injection E as ->. }
  assert (HN : forall a b, 0 <= b -> 0 <= a .& b <= b).
  { intros a b Hb. split; [apply Z.land_nonneg; by right|]. rewrite Z.land_comm.
    pose proof (Z.sub_land_same_l b a). assert (0 <= b .& Z.lnot a); [|lia].
    apply Z.land_nonneg. by left. }
  unfold And. rewrite (rv_min _ _ _ _ _ _ R2), Ok_bind.
  destruct (Z.leb_spec 0 l2).
  - rewrite (HC _ _ _ _ _ _ R2), Ok_bind. eexists. split; [done|].
    pose proof (HN x y). destruct R2 as [_ _ _ _ Rl2 Ru2 L2 H2 _ _].
    apply constants_ok; [done|done|lia].
  - rewrite (rv_min _ _ _ _ _ _ R1), Ok_bind. destruct (Z.leb_spec 0 l1).
    + rewrite (HC _ _ _ _ _ _ R1), Ok_bind. eexists. split; [done|].
      pose proof (HN y x) as HN'. rewrite Z.land_comm in HN'.
      destruct R1 as [_ _ _ _ Rl1 Ru1 L1 H1 _ _]. apply constants_ok; [done|done|lia].
    + apply (BitwiseOp_ok left right x y); auto using land_s.
      intros. apply Z.land_nonneg. by left.
Qed.

(** ** The dispatch *)

Lemma finite_in_range r x : in_range G rho r x -> IsFinite r = true.
Proof. intros [H1 H2 _ _]. unfold IsFinite. by destruct (min r), (max r). Qed.

Lemma bounds_sanity lo hi z :
  bounds_ok (lo, hi) z ->
  negb (IsUnknown lo) && negb (IsUnknown hi) = true /\
  match lo, hi with Constant l, Constant h => l <=? h | _, _ => true end = true.
Proof.
  intros [[HI HU]|(H1 & H2 & H3)]; simpl in *.
  - apply orb_false_iff in HU as [-> ->]. split; [done|]. by destruct lo, hi.
  - destruct lo, hi; simpl in *; try done. split; [done|]. apply Z.leb_le. lia.
Qed.

Lemma BinaryOp_ok op left right x y z d :
  in_range G rho left x -> in_range G rho right y -> is_s 64 x -> is_s 64 y ->
  is_Some (defns G !! d) -> rho d = x -> op_spec op x y z ->
  exists r, BinaryOp G op left right d = Ok r /\ in_range G rho r z.
Proof.
  intros HL HR Hx Hy Hd Ex Hz. pose proof (op_spec_s64 op x y z Hx Hy Hz) as Hzs.
  unfold BinaryOp. rewrite (finite_in_range _ _ HL), (finite_in_range _ _ HR).
  cbn [utils_assert]. rewrite !Ok_bind. cbv zeta.
  assert (HB : exists m b, match op with
    | kADD => Some (Add G left right d) | kSUB => Some (Sub G left right d)
    | kMUL => Some (Mul G left right) | kTRUNCDIV => Some (TruncDiv G left right)
    | kMOD => Some (Mod G right) | kSHL => Some (Shl G left right)
    | kSHR => Some (Shr G left right) | kUSHR => Some (Ushr G left right)
    | kBIT_AND => Some (And G left right)
    | kBIT_XOR | kBIT_OR => Some (BitwiseOp G left right) | _ => None end = Some m /\
    m = Ok b /\ bounds_ok b z).
  { destruct op; try done; simpl in Hz.
    - subst z. destruct (Range_Add_ok left right x y d HL HR Hd Ex) as (b & E & Hb); eauto.
    - subst z. destruct (Sub_ok left right x y d HL HR Hd Ex) as (b & E & Hb); eauto.
    - subst z. destruct (Mul_ok left right x y HL HR Hx Hy) as (b & E & Hb); eauto.
    - destruct Hz as [H0 ->].
      destruct (TruncDiv_ok left right x y HL HR Hx Hy H0) as (b & E & Hb); eauto.
    - destruct Hz as [H0 ->]. destruct (Mod_ok right x y HR Hy H0) as (b & E & Hb); eauto.
    - destruct Hz as [H0 ->]. destruct (Shl_ok left right x y HL HR Hx Hy H0) as (b & E & Hb); eauto.
    - destruct Hz as [H0 ->]. destruct (Shr_ok left right x y HL HR Hx Hy H0) as (b & E & Hb); eauto.
    - destruct Hz as [H0 ->]. destruct (Ushr_ok left right x y HL HR Hx Hy H0) as (b & E & Hb); eauto.
    - subst z. destruct (And_ok left right x y HL HR Hx Hy) as (b & E & Hb); eauto.
    - subst z. destruct (BitwiseOp_ok left right x y (x .| y)) as (b & E & Hb); eauto using lor_s.
      intros. by apply Z.lor_nonneg.
    - subst z. destruct (BitwiseOp_ok left right x y (x .^ y)) as (b & E & Hb); eauto using lxor_s.
      intros. by apply Z.lxor_nonneg. }
  destruct HB as (m & [lo hi] & -> & -> & Hb). rewrite Ok_bind.
  destruct (bounds_sanity lo hi z Hb) as [-> ->]. cbn [utils_assert]. rewrite !Ok_bind.
  by apply Range_new_ok.
Qed.
End ops.
