(* ===== verification/RangeInfer.v ===== *)
(** Inference of ranges: the functions of [runtime/vm/compiler/backend/range_analysis.cc]
    that compute the range of a definition from those of its inputs, widen and narrow the
    ranges of phis, iterate to a fixed point, derive constraints from comparisons, and decide
    whether a bounds check is redundant.

    Functions that write to definitions return the changed graph. *)
From stdpp Require Import base numbers list gmap.
From Stdlib Require Import ZArith Lia.
From S2P Require Import Prelude Utils IntegerOps Range.
Local Open Scope Z_scope.
Local Open Scope cxx_scope.

Section infer.
Context {smi : SmiTarget}.

(** ** Writing to definitions *)

Definition update_defn (G : FlowGraph) (d : nat) (f : Defn -> Defn) : FlowGraph :=
  mkGraph (alter f d (defns G)) (Equals G) (Dominates G).

Definition with_range (r : option Range) (def : Defn) : Defn :=
  mkDefn (kind def) r (cached_range def) (type_is_smi def) (type_is_int def)
    (IsInt64Definition def) (IsInt32Definition def) (representation def)
    (left_representation def) (right_representation def) (is_array_length def)
    (AllowsCSE def) (block def) (is_truncating def) (can_overflow def).

Definition with_cached (r : option Range) (def : Defn) : Defn :=
  mkDefn (kind def) (range def) r (type_is_smi def) (type_is_int def)
    (IsInt64Definition def) (IsInt32Definition def) (representation def)
    (left_representation def) (right_representation def) (is_array_length def)
    (AllowsCSE def) (block def) (is_truncating def) (can_overflow def).

Definition with_can_overflow (b : bool) (def : Defn) : Defn :=
  mkDefn (kind def) (range def) (cached_range def) (type_is_smi def) (type_is_int def)
    (IsInt64Definition def) (IsInt32Definition def) (representation def)
    (left_representation def) (right_representation def) (is_array_length def)
    (AllowsCSE def) (block def) (is_truncating def) b.

(** [Definition::set_range]. *)
Definition set_range (G : FlowGraph) (d : nat) (r : Range) : FlowGraph :=
  update_defn G d (with_range (Some r)).

(** ** Constraints *)

(** The constraint on the left operand of a comparison that evaluated to true. *)
Definition ConstraintSmiRange (G : FlowGraph) (op : Token) (boundary : nat) : result Range :=
  match op with
  | kEQ => lo ← FromDefinition G boundary 0; hi ← FromDefinition G boundary 0; Range_new lo hi
  | kNE => Ok (Full kRangeBoundarySmi)
  | kLT => hi ← FromDefinition G boundary (-1); Range_new MinSmi hi
  | kGT => lo ← FromDefinition G boundary 1; Range_new lo MaxSmi
  | kLTE => hi ← FromDefinition G boundary 0; Range_new MinSmi hi
  | kGTE => lo ← FromDefinition G boundary 0; Range_new lo MaxSmi
  | _ => Fatal UtilsAssertion
  end.

(** [Token::NegateComparison] and [Token::FlipComparison]. *)
Definition NegateComparison (op : Token) : option Token :=
  match op with
  | kEQ => Some kNE
  | kNE => Some kEQ
  | kLT => Some kGTE
  | kGT => Some kLTE
  | kLTE => Some kGT
  | kGTE => Some kLT
  | _ => None
  end.

Definition FlipComparison (op : Token) : option Token :=
  match op with
  | kEQ => Some kEQ
  | kNE => Some kNE
  | kLT => Some kGT
  | kGT => Some kLT
  | kLTE => Some kGTE
  | kGTE => Some kLTE
  | _ => None
  end.

(** The ranges [ConstrainValueAfterCheckBound] constrains the index (or the length) with. *)
Definition check_bound_constraint (G : FlowGraph) (is_index : bool) (other : nat)
    : result Range :=
  if is_index then hi ← FromDefinition G other (-1); Range_new (FromConstant 0) hi
  else lo ← FromDefinition G other 1; Range_new lo MaxSmi.

(** ** Widening and narrowing *)

Definition WidenMin (G : FlowGraph) (range new_range : Range) (size : RangeSize)
    : result RangeBoundary :=
  let numeric :=
    m ← ConstantMin G (Some range) size; m ← ConstantValue m;
    n ← ConstantMin G (Some new_range) size; n ← ConstantValue n;
    Ok (if m <=? n then Constant m else MinConstant size) in
  if IsSymbol (min range) then
    lb ← LowerBound G (min range);
    over ← Overflowed G lb size;
    if (over : bool) then Ok (MinConstant size)
    else
      same ← DependOnSameSymbol G (min range) (min new_range);
      if (same : bool) then
        Ok (if offset (min range) <=? offset (min new_range) then min range
            else MinConstant size)
      else
        u ← UpperBound_size G (min range) size;
        l ← LowerBound_size G (min new_range) size;
        if u <=? l then Ok (min range) else numeric
  else numeric.

Definition WidenMax (G : FlowGraph) (range new_range : Range) (size : RangeSize)
    : result RangeBoundary :=
  let numeric :=
    m ← ConstantMax G (Some range) size; m ← ConstantValue m;
    n ← ConstantMax G (Some new_range) size; n ← ConstantValue n;
    Ok (if n <=? m then Constant m else MaxConstant size) in
  if IsSymbol (max range) then
    ub ← UpperBound G (max range);
    over ← Overflowed G ub size;
    if (over : bool) then Ok (MaxConstant size)
    else
      same ← DependOnSameSymbol G (max range) (max new_range);
      if (same : bool) then
        Ok (if offset (max new_range) <=? offset (max range) then max range
            else MaxConstant size)
      else
        l ← LowerBound_size G (max range) size;
        u ← UpperBound_size G (max new_range) size;
        if u <=? l then Ok (max range) else numeric
  else numeric.

Definition NarrowMin (G : FlowGraph) (range new_range : Range) (size : RangeSize)
    : result RangeBoundary :=
  m ← ConstantMin G (Some range) size; m ← ConstantValue m;
  n ← ConstantMin G (Some new_range) size; n ← ConstantValue n;
  if n <? m then Ok (min range)
  else Ok (if IsMinimumOrBelow (min range) size then min new_range else min range).

Definition NarrowMax (G : FlowGraph) (range new_range : Range) (size : RangeSize)
    : result RangeBoundary :=
  m ← ConstantMax G (Some range) size; m ← ConstantValue m;
  n ← ConstantMax G (Some new_range) size; n ← ConstantValue n;
  if m <? n then Ok (max range)
  else Ok (if IsMaximumOrAbove (max range) size then max new_range else max range).

Definition RangeSizeForPhi (phi : Defn) : result RangeSize :=
  if type_is_smi phi then Ok kRangeBoundarySmi
  else if bool_decide (representation phi = kUnboxedInt32) then Ok kRangeBoundaryInt32
  else if type_is_int phi then Ok kRangeBoundaryInt64
  else Fatal UtilsAssertion.

(** ** Ranges of inputs *)

Definition GetSmiRange (G : FlowGraph) (value : nat) : result (option Range) :=
  def ← defn_at G value;
  Ok (match range def with
      | None => if negb (type_is_smi def) then Some (Full kRangeBoundarySmi) else None
      | r => r
      end).

Definition GetIntRange (G : FlowGraph) (value : nat) : result (option Range) :=
  def ← defn_at G value;
  Ok (match range def with
      | None => if negb (type_is_int def) then Some (Full kRangeBoundaryInt64) else None
      | r => r
      end).

Definition GetInputRange (G : FlowGraph) (size : RangeSize) (input : nat)
    : result (option Range) :=
  match size with
  | kRangeBoundarySmi => GetSmiRange G input
  | kRangeBoundaryInt32 => def ← defn_at G input; Ok (range def)
  | kRangeBoundaryInt64 => GetIntRange G input
  | kRangeBoundaryInt16 => Fatal UtilsAssertion
  end.

Definition RepresentationToRangeSize (r : Representation) : result RangeSize :=
  match r with
  | kTagged => Ok kRangeBoundarySmi
  | kUnboxedUint8 => Ok kRangeBoundaryInt16
  | kUnboxedInt32 | kUnboxedUint16 => Ok kRangeBoundaryInt32
  | kUnboxedInt64 | kUnboxedUint32 => Ok kRangeBoundaryInt64
  | kUntagged => Fatal UtilsAssertion
  end.

(** ** Phis *)

Definition DependsOnSymbol (G : FlowGraph) (a : RangeBoundary) (d : nat) : result bool :=
  match a with
  | Symbol s _ => u ← UnwrapConstraint G s; Ok (u =? d)%nat
  | _ => Ok false
  end.

(** [Join]: the new [*range]; an unknown range is the least element. *)
Definition Join (G : FlowGraph) (range : Range) (d : nat) (defn_range : option Range)
    (size : RangeSize) : result Range :=
  match defn_range with
  | None => Ok range
  | Some defn_range =>
      if IsUnknown (min defn_range) then Ok range
      else if IsUnknown (min range) then Ok defn_range
      else
        unwrapped ← UnwrapConstraint G d;
        depends ← or_else (DependsOnSymbol G (min range) unwrapped)
                          (DependsOnSymbol G (max range) unwrapped);
        other ← (if (depends : bool) then
                   lo ← FromDefinition G d 0; hi ← FromDefinition G d 0; Range_new lo hi
                 else Ok defn_range);
        inf_range ← LowerBound_size G (min range) size;
        inf_other ← LowerBound_size G (min other) size;
        sup_range ← UpperBound_size G (max range) size;
        sup_other ← UpperBound_size G (max other) size;
        if sup_range <=? inf_other then Ok (set_max range (max other))
        else if sup_other <=? inf_range then Ok (set_min range (min other))
        else
          lo ← JoinMin G (min range) (min other) size;
          hi ← JoinMax G (max range) (max other) size;
          Range_new lo hi
  end.

Definition DominatesPhi (G : FlowGraph) (a phi_block : nat) : bool :=
  Dominates G a phi_block && negb (a =? phi_block)%nat.

Definition EnsureAcyclicSymbol (G : FlowGraph) (phi_block : nat) (a limit : RangeBoundary)
    : result RangeBoundary :=
  match a with
  | Symbol s o =>
      def ← defn_at G s;
      if DominatesPhi G (block def) phi_block then Ok a
      else
        unwrapped ← UnwrapConstraint G s;
        udef ← defn_at G unwrapped;
        if negb (unwrapped =? s)%nat && DominatesPhi G (block udef) phi_block
        then FromDefinition G unwrapped o
        else Ok limit
  | _ => Ok a
  end.

Fixpoint join_inputs (G : FlowGraph) (size : RangeSize) (inputs : list nat) (range : Range)
    : result Range :=
  match inputs with
  | [] => Ok range
  | input :: inputs =>
      r ← GetInputRange G size input;
      range ← Join G range input r size;
      join_inputs G size inputs range
  end.

Definition Phi_InferRange (G : FlowGraph) (phi : Defn) (inputs : list nat) (range : Range)
    : result Range :=
  size ← RangeSizeForPhi phi;
  range ← join_inputs G size inputs range;
  lo ← EnsureAcyclicSymbol G (block phi) (min range) MinSmi;
  let range := set_min range lo in
  hi ← EnsureAcyclicSymbol G (block phi) (max range) MaxSmi;
  Ok (set_max range hi).

(** ** Other definitions *)

Definition Constraint_InferRange (G : FlowGraph) (value : nat) (constraint range : Range)
    : result Range :=
  value_range ← GetSmiRange G value;
  match value_range with
  | None => Ok range
  | Some value_range =>
      if IsUnknown (min value_range) then Ok range
      else
        r ← Intersect G value_range constraint;
        unsatisfiable ← IsUnsatisfiable G r;
        Ok (if (unsatisfiable : bool) then range else r)
  end.

(** [Definition::InferRange]: from the type alone. *)
Definition Defn_InferRange (def : Defn) : result Range :=
  if type_is_smi def then Ok (Full kRangeBoundarySmi)
  else if IsInt64Definition def then Ok (Full kRangeBoundaryInt64)
  else if IsInt32Definition def then Ok (Full kRangeBoundaryInt32)
  else if type_is_int def then Ok (Full kRangeBoundaryInt64)
  else Fatal UtilsAssertion.

(** [InferRangeHelper]: the range, and what [can_overflow] is set to. *)
Definition InferRangeHelper (G : FlowGraph) (def : Defn) (op_kind : Token) (left_defn : nat)
    (left_range right_range : option Range) (range : Range) : result (Range * bool) :=
  match left_range, right_range with
  | Some l, Some r =>
      if IsUnknown (min l) || IsUnknown (min r) then Ok (range, can_overflow def)
      else
        range ← BinaryOp G op_kind l r left_defn;
        _ ← utils_assert (negb (IsUnknown (min range)));
        range_size ← RepresentationToRangeSize (representation def);
        overflow ← (if negb (is_truncating def) then f ← Fits G range range_size; Ok (negb f)
                    else Ok (can_overflow def));
        Ok (Range_Clamp range range_size, overflow)
  | _, _ => Ok (range, can_overflow def)
  end.

(** [CacheRange]: the new value of the slot. *)
Definition CacheRange (G : FlowGraph) (slot range : option Range) (size : RangeSize)
    : result (option Range) :=
  match range with
  | Some r => c ← ClampToConstant G r size; Ok (Some c)
  | None => match slot with Some _ => Ok (Some Range_unknown) | None => Ok None end
  end.

(** The operators whose right range [BinarySmiOpInstr] caches. *)
Definition caches_right (op : Token) : bool :=
  match op with kSHL | kSHR | kUSHR | kMOD | kTRUNCDIV => true | _ => false end.

Definition IntFull32 : Range := mkRange (FromConstant 0) (FromConstant kMaxUint32).

(** The virtual [InferRange] on an unknown range: the range, the new [can_overflow] and the
    new cached range. *)
Definition InferRange (G : FlowGraph) (d : nat) : result (Range * bool * option Range) :=
  def ← defn_at G d;
  let range0 := Range_unknown in
  let plain (r : result Range) := r ← r; Ok (r, can_overflow def, cached_range def) in
  let copy (r : option Range) := plain (Ok (match r with Some r => r | None => range0 end)) in
  match kind def with
  | ConstantInteger v => plain (Range_new (FromConstant v) (FromConstant v))
  | ConstantObject => Fatal UtilsAssertion
  | Constraint value constraint => plain (Constraint_InferRange G value constraint range0)
  | Phi inputs => plain (Phi_InferRange G def inputs range0)
  | IfThenElse if_true if_false =>
      plain (Range_new (FromConstant (Minimum if_true if_false))
                       (FromConstant (Maximum if_true if_false)))
  | BinarySmiOp op l r =>
      right_range ← GetSmiRange G r;
      cached ← (if caches_right op
                then CacheRange G (cached_range def) right_range kRangeBoundarySmi
                else Ok (cached_range def));
      left_range ← GetSmiRange G l;
      h ← InferRangeHelper G def op l left_range right_range range0;
      Ok (h, cached)
  | BinaryIntegerOp op l r =>
      left_size ← RepresentationToRangeSize (left_representation def);
      right_size ← RepresentationToRangeSize (right_representation def);
      left_range ← GetInputRange G left_size l;
      right_range ← GetInputRange G right_size r;
      h ← InferRangeHelper G def op l left_range right_range range0;
      Ok (h, cached_range def)
  | ShiftIntegerOp op l r =>
      ldef ← defn_at G l; rdef ← defn_at G r;
      right_range ← (if bool_decide (right_representation def = kTagged) then GetSmiRange G r
                     else Ok (range rdef));
      cached ← CacheRange G (cached_range def) (range rdef) kRangeBoundaryInt64;
      h ← InferRangeHelper G def op l (range ldef) right_range range0;
      Ok (h, cached)
  | BoxInteger value => vdef ← defn_at G value; copy (range vdef)
  | UnboxInt32 value =>
      vdef ← defn_at G value;
      if type_is_smi vdef then r ← GetSmiRange G value; copy r
      else if type_is_int vdef then r ← GetIntRange G value; copy r
      else plain (Ok (Full kRangeBoundaryInt32))
  | UnboxUint32 value =>
      vdef ← defn_at G value;
      let of_value (r : option Range) :=
        match r with
        | Some r =>
            if IsUnknown (min r) then plain (Ok range0)
            else positive ← IsPositive G r;
                 plain (Ok (if (positive : bool) then r else IntFull32))
        | None => plain (Ok range0)
        end in
      if type_is_smi vdef then r ← GetSmiRange G value; of_value r
      else if type_is_int vdef then r ← GetIntRange G value; of_value r
      else plain (Ok IntFull32)
  | UnboxInt64 value =>
      vdef ← defn_at G value;
      match range vdef with
      | Some r => plain (Ok r)
      | None =>
          if negb (IsInt64Definition vdef) && negb (type_is_smi vdef)
          then plain (Ok (Full kRangeBoundaryInt64)) else plain (Ok range0)
      end
  | IntConverter from to value =>
      vdef ← defn_at G value;
      if Range_IsUnknown (range vdef) then plain (Ok range0)
      else if bool_decide (to = kUnboxedUint32) then plain (Ok IntFull32)
      else
        let r := match range vdef with Some r => r | None => range0 end in
        plain (Ok (if bool_decide (to = kUnboxedInt32)
                   then Range_Clamp r kRangeBoundaryInt32 else r))
  | AssertAssignable value =>
      vdef ← defn_at G value;
      if Range_IsUnknown (range vdef) then plain (Ok (Full kRangeBoundaryInt64))
      else copy (range vdef)
  | OtherDefinition => plain (Defn_InferRange def)
  end.

(** ** The analysis *)

Inductive JoinOperator := NONE | WIDEN | NARROW.

(** [RangeAnalysis::InferRange]: the graph and whether the range changed. *)
Definition Analysis_InferRange (G : FlowGraph) (op : JoinOperator) (d : nat)
    : result (FlowGraph * bool) :=
  '(range, overflow, cached) ← InferRange G d;
  let G := update_defn G d (fun def => with_cached cached (with_can_overflow overflow def)) in
  if IsUnknown (min range) then Ok (G, false)
  else
    def ← defn_at G d;
    range ←
      (match Range.range def, kind def with
       | Some old, Phi _ =>
           if IsUnknown (min old) then Ok range
           else
             size ← RangeSizeForPhi def;
             match op with
             | NONE => Ok range
             | WIDEN =>
                 lo ← WidenMin G old range size; hi ← WidenMax G old range size;
                 Range_new lo hi
             | NARROW =>
                 lo ← NarrowMin G old range size; hi ← NarrowMax G old range size;
                 Range_new lo hi
             end
       | _, _ => Ok range
       end);
    same ← Range_Equals G range (Range.range def);
    if (same : bool) then Ok (G, false) else Ok (set_range G d range, true).

(** One sweep of [Iterate] over the definitions. *)
Fixpoint infer_all (G : FlowGraph) (op : JoinOperator) (definitions : list nat)
    : result (FlowGraph * bool) :=
  match definitions with
  | [] => Ok (G, false)
  | d :: definitions =>
      '(G, changed) ← Analysis_InferRange G op d;
      '(G, rest) ← infer_all G op definitions;
      Ok (G, changed || rest)
  end.

Fixpoint Iterate (max_iterations : nat) (G : FlowGraph) (op : JoinOperator)
    (definitions : list nat) : result FlowGraph :=
  match max_iterations with
  | O => Ok G
  | S max_iterations =>
      '(G, changed) ← infer_all G op definitions;
      if (changed : bool) then Iterate max_iterations G op definitions else Ok G
  end.

(** ** Redundant bounds checks *)

(** [OriginalDefinition()]: the only redefinition among the instructions here is
    [AssertAssignable]. *)
Fixpoint original_definition (fuel : nat) (G : FlowGraph) (d : nat) : result nat :=
  def ← defn_at G d;
  match kind def with
  | AssertAssignable value =>
      match fuel with O => Fatal UtilsFuel | S fuel => original_definition fuel G value end
  | _ => Ok d
  end.

(** [BoundSmiConstant()] of a value that [BindsToSmiConstant()]. *)
Definition smi_constant (G : FlowGraph) (d : nat) : result (option Z) :=
  o ← original_definition (depth G) G d;
  def ← defn_at G o;
  Ok (match kind def with
      | ConstantInteger v => if IsSmi v then Some v else None
      | _ => None
      end).

(** The loop that compares the index and the length as symbols. *)
Fixpoint symbolic_check (fuel : nat) (G : FlowGraph) (max canonical_length : RangeBoundary)
    : result bool :=
  same ← DependOnSameSymbol G max canonical_length;
  if (same : bool) then Ok (offset max <? offset canonical_length)
  else
    m ← CanonicalizeMaxBoundary G max;
    match m with
    | Some m =>
        match fuel with
        | O => Fatal UtilsFuel
        | S fuel => symbolic_check fuel G m canonical_length
        end
    | None =>
        l ← CanonicalizeMinBoundary G canonical_length;
        match l with
        | Some l =>
            match fuel with
            | O => Fatal UtilsFuel
            | S fuel => symbolic_check fuel G max l
            end
        | None => Ok false
        end
    end.

(** The comparison for an index with a range. *)
Definition check_ranges (G : FlowGraph) (index length : nat) (index_range : Range)
    : result bool :=
  lo ← ConstantMin G (Some index_range) kRangeBoundarySmi; lo ← ConstantValue lo;
  if lo <? 0 then Ok false
  else
    max ← FromDefinition G index 0;
    max_upper ← UpperBound G max;
    array_length ← FromDefinition G length 0;
    length_lower ← LowerBound G array_length;
    if OverflowedSmi max_upper || OverflowedSmi length_lower then Ok false
    else
      u ← ConstantValue max_upper; l ← ConstantValue length_lower;
      if u <? l then Ok true
      else
        canonical_length ← CanonicalizeBoundary G array_length PositiveInfinity;
        if OverflowedSmi canonical_length then Ok false
        else symbolic_check (2 * depth G + 2) G max canonical_length.

(** [IsRedundantBasedOnRangeInformation]: the graph, in which a constant index may have
    been given a range, and the answer. *)
Definition IsRedundantBasedOnRangeInformation (G : FlowGraph) (index length : nat)
    : result (FlowGraph * bool) :=
  ci ← smi_constant G index; cl ← smi_constant G length;
  match ci, cl with
  | Some index_val, Some length_val =>
      Ok (G, (0 <=? index_val) && (index_val <? length_val))
  | _, _ =>
      def ← defn_at G index;
      match range def with
      | Some index_range => b ← check_ranges G index length index_range; Ok (G, b)
      | None =>
          match ci with
          | None => Ok (G, false)
          | Some _ =>
              '(r, _, _) ← InferRange G index;
              _ ← utils_assert (negb (IsUnknown (min r)));
              let G := set_range G index r in
              b ← check_ranges G index length r; Ok (G, b)
          end
      end
  end.

End infer.
