(* ===== verification/RangeSymbols.v ===== *)
(** Soundness of symbolic reasoning in [Range.v] and [RangeInfer.v]: equality of symbols,
    canonical forms, intersections, joins and the elimination of bounds checks.  All loops
    terminate on acyclic graphs. *)
From stdpp Require Import base numbers list gmap.
From Stdlib Require Import ZArith Lia.
From S2P Require Import Prelude Utils IntegerOps Range RangeSound RangeOps RangeInfer.
Local Open Scope Z_scope.
Local Open Scope cxx_scope.

Section symbols.
Context {smi : SmiTarget} (G : FlowGraph) (rho : nat -> Z) (rank : nat -> nat).
Context (HG : graph_ok G rho) (HA : acyclic G rank).

(** ** Equal definitions *)

Lemma unwrap_constraint_spec fuel d :
  is_Some (defns G !! d) -> (rank d <= fuel)%nat ->
  exists e, unwrap_constraint G fuel d = Ok e /\ is_Some (defns G !! e) /\ rho e = rho d.
Proof.
  revert d. induction fuel as [|fuel IH]; intros d [def Hd] Hr;
    cbn [unwrap_constraint]; unfold defn_at; rewrite Hd, Ok_bind.
  all: destruct (kind def) as [| |v c| | | | | | | | | | | |] eqn:E;
    try (exists d; repeat split; by eauto).
  - pose proof (rk_constraint _ _ HA _ _ _ _ Hd E). lia.
  - pose proof (rk_constraint _ _ HA _ _ _ _ Hd E).
    destruct (gk_constraint _ _ HG _ _ _ _ Hd E) as [Hv ->]. apply IH; [done|lia].
Qed.

Lemma UnwrapConstraint_spec d :
  is_Some (defns G !! d) ->
  exists e, UnwrapConstraint G d = Ok e /\ is_Some (defns G !! e) /\ rho e = rho d.
Proof.
  intros [def Hd]. apply unwrap_constraint_spec; [by exists def|].
  pose proof (rk_depth _ _ HA _ _ Hd). lia.
Qed.

Lemma AreEqualDefinitions_spec a b :
  is_Some (defns G !! a) -> is_Some (defns G !! b) ->
  exists t, AreEqualDefinitions G a b = Ok t /\ (t = true -> rho a = rho b).
Proof.
  intros Ha Hb. unfold AreEqualDefinitions.
  destruct (UnwrapConstraint_spec a Ha) as (ua & -> & [da Hda] & <-).
  destruct (UnwrapConstraint_spec b Hb) as (ub & -> & [db Hdb] & <-). rewrite !Ok_bind.
  destruct (Nat.eqb_spec ua ub) as [->|_]; [by exists true|].
  unfold defn_at. rewrite Hda, Hdb, !Ok_bind. eexists. split; [done|].
  rewrite !andb_true_iff. intros [[??]?]. by apply (gk_equals _ _ HG ua ub da db).
Qed.

(** A boundary whose symbol, if any, is well formed. *)
Definition wf_bound (b : RangeBoundary) : Prop :=
  match b with Symbol _ _ => bound_ok G rho b | _ => True end.

Lemma DependOnSameSymbol_spec a b :
  wf_bound a -> wf_bound b ->
  exists t, DependOnSameSymbol G a b = Ok t /\
    (t = true -> bound_ok G rho a /\ bound_ok G rho b /\
       bval rho a - offset a = bval rho b - offset b).
Proof.
  intros Ha Hb. unfold DependOnSameSymbol.
  destruct a as [| | |sa oa|], b as [| | |sb ob|]; try by exists false.
  destruct (AreEqualDefinitions_spec sa sb) as (t & -> & Ht); [apply Ha|apply Hb|].
  exists t. split; [done|]. intros ->. split; [done|]. split; [done|]. simpl.
  rewrite Ht by done. lia.
Qed.

Lemma Boundary_Equals_spec a b :
  bound_ok G rho a -> bound_ok G rho b ->
  exists t, Boundary_Equals G a b = Ok t /\ (t = true -> bval rho a = bval rho b).
Proof.
  intros Ha Hb. unfold Boundary_Equals.
  destruct a as [| | |sa oa|ca]; try done; destruct b as [| | |sb ob|cb]; try done;
    try by exists false.
  - destruct (Z.eqb_spec oa ob) as [->|]; [|by exists false].
    destruct (DependOnSameSymbol_spec (Symbol sa ob) (Symbol sb ob) Ha Hb) as (t & -> & Ht).
    exists t. split; [done|]. intros ->. destruct (Ht eq_refl) as (_ & _ & ?). simpl in *. lia.
  - eexists. split; [done|]. by intros ->%Z.eqb_eq.
Qed.

(** ** Canonical forms *)

Lemma constant_operand_spec d :
  smi_operand G rho d ->
  exists r, constant_operand G d = Ok r /\ forall v, r = Some v -> rho d = v /\ IsSmi v = true.
Proof.
  intros (def & Hd & HK & HS). unfold constant_operand, defn_at. rewrite Hd, Ok_bind.
  destruct (kind def) eqn:E; try (by exists None).
  pose proof (gk_constant _ _ HG _ _ _ Hd E) as Ev. rewrite Ev in HS. rewrite HS.
  exists (Some value). split; [done|]. by intros v [= <-].
Qed.

Lemma smi_operand_ok d : smi_operand G rho d -> is_Some (defns G !! d) /\ IsSmi (rho d) = true.
Proof. intros (def & Hd & _ & HS). eauto. Qed.

(** A step keeps the value and lowers the rank. *)
Lemma canonicalize_step_spec s o :
  is_Some (defns G !! s) -> IsSmi (rho s) = true -> is_s 64 o ->
  exists r, canonicalize_step G s o = Ok r /\
    forall s' o', r = Some (Some (s', o')) ->
      rho s' + o' = rho s + o /\ is_Some (defns G !! s') /\ IsSmi (rho s') = true /\
      is_s 64 o' /\ (rank s' < rank s)%nat.
Proof.
  intros [def Hd] HS Ho. unfold canonicalize_step, defn_at. rewrite Hd, Ok_bind.
  destruct (kind def) as [| |v c|op l r| | | | | | | | | | |] eqn:E;
    try (exists (Some None); split; [done|]; by intros).
  - eexists. split; [done|]. intros s' o' [= <- <-].
    destruct (gk_constraint _ _ HG _ _ _ _ Hd E) as [Hv Ev]. rewrite Ev in *.
    pose proof (rk_constraint _ _ HA _ _ _ _ Hd E). auto.
  - destruct (gk_smi_op _ _ HG _ _ _ _ _ Hd E) as (Hl & Hr & Hadd & Hsub).
    destruct (rk_smi_op _ _ HA _ _ _ _ _ Hd E) as [Rl Rr].
    destruct (constant_operand_spec l Hl) as (cl & El & Cl).
    destruct (constant_operand_spec r Hr) as (cr & Er & Cr).
    destruct (smi_operand_ok l Hl) as [Dl Sl]. destruct (smi_operand_ok r Hr) as [Dr Sr].
    destruct op; try (exists (Some None); split; [done|]; by intros).
    + rewrite Er, Ok_bind. specialize (Hadd eq_refl).
      destruct cr as [v|].
      * destruct (Cr v eq_refl) as [Ev Sv]. eexists. split; [done|]. intros s' o' X.
        destruct (WillAddOverflow o v) eqn:W; [done|]. injection X as <- <-.
        apply WillAddOverflow_spec in W; [|done|by apply smi_s64].
        split; [lia|]. auto.
      * rewrite El, Ok_bind. destruct cl as [v|]; [|exists (Some None); split; [done|]; by intros].
        destruct (Cl v eq_refl) as [Ev Sv]. eexists. split; [done|]. intros s' o' X.
        destruct (WillAddOverflow o v) eqn:W; [done|]. injection X as <- <-.
        apply WillAddOverflow_spec in W; [|done|by apply smi_s64].
        split; [lia|]. auto.
    + rewrite Er, Ok_bind. specialize (Hsub eq_refl).
      destruct cr as [v|]; [|exists (Some None); split; [done|]; by intros].
      destruct (Cr v eq_refl) as [Ev Sv]. eexists. split; [done|]. intros s' o' X.
      destruct (WillSubOverflow o v) eqn:W; [done|]. injection X as <- <-.
      apply WillSubOverflow_spec in W; [|done|by apply smi_s64].
      split; [lia|]. auto.
Qed.

Lemma canonicalize_loop_spec fuel s o :
  is_Some (defns G !! s) -> IsSmi (rho s) = true -> is_s 64 o -> (rank s <= fuel)%nat ->
  exists r, canonicalize_loop G fuel s o = Ok r /\
    forall s' o', r = Some (s', o') ->
      rho s' + o' = rho s + o /\ is_Some (defns G !! s') /\ IsSmi (rho s') = true /\
      (rank s' <= rank s)%nat.
Proof.
  revert s o. induction fuel as [|fuel IH]; intros s o Hd HS Ho Hr;
    cbn [canonicalize_loop];
    destruct (canonicalize_step_spec s o Hd HS Ho) as (r & -> & Hr'); rewrite Ok_bind;
    destruct r as [[[s' o']|]|].
  all: try (by exists None).
  all: try (exists (Some (s, o)); split; [done|]; by intros ? ? [= <- <-]; auto).
  - destruct (Hr' s' o' eq_refl) as (_ & _ & _ & _ & ?). lia.
  - destruct (Hr' s' o' eq_refl) as (Ev & D' & S' & O' & R').
    destruct (IH s' o') as (r & -> & P); [done..|lia|]. exists r. split; [done|].
    intros s2 o2 Es. destruct (P s2 o2 Es) as (E2 & ? & ? & ?). split; [lia|]. auto with lia.
Qed.

(** The rank of the symbol of a boundary. *)
Definition brank (b : RangeBoundary) : nat :=
  match b with Symbol s _ => S (rank s) | _ => 0 end.

Lemma FromDefinition_brank d o b : FromDefinition G d o = Ok b -> (brank b <= S (rank d))%nat.
Proof.
  unfold FromDefinition, utils_assert. intros E.
  apply bind_ok in E as (def & _ & E).
  destruct (kind def); repeat (case_match; simplify_eq/=; try lia).
Qed.

Lemma CanonicalizeBoundary_spec a overflow :
  bound_ok G rho a ->
  exists r, CanonicalizeBoundary G a overflow = Ok r /\
    (r = overflow \/ bound_ok G rho r /\ bval rho r = bval rho a /\ (brank r <= brank a)%nat).
Proof.
  intros Ha. unfold CanonicalizeBoundary. destruct a as [| | |s o|c]; try done.
  - destruct Ha as (Hd & HS & Ho).
    destruct (canonicalize_loop_spec (depth G) s o Hd HS) as (r & -> & Hr).
    { by apply offset_s64. }
    { destruct Hd as [def Hd]. pose proof (rk_depth _ _ HA _ _ Hd). lia. }
    rewrite Ok_bind. destruct r as [[s' o']|]; [|eexists; split; [done|by left]].
    destruct (Hr s' o' eq_refl) as (E & D' & S' & R').
    destruct (IsValidOffsetForSymbolicRangeBoundary o') eqn:V; cbn [negb];
      [|eexists; split; [done|by left]].
    destruct (FromDefinition_ok G rho HG s' o' D' S' V) as (b & Eb & Hb & Vb).
    exists b. split; [done|]. right. split; [done|]. simpl. split; [lia|].
    apply FromDefinition_brank in Eb. lia.
  - eexists. split; [done|]. by right.
Qed.

(** One step along the minimum (maximum) of the range of a symbol goes down (up). *)
Lemma CanonicalizeMinBoundary_spec a x :
  lo_ok G rho a x ->
  exists r, CanonicalizeMinBoundary G a = Ok r /\
    forall b, r = Some b -> lo_ok G rho b x /\ (brank b < brank a)%nat.
Proof.
  intros [->|[Ha Hx]]; [by exists None|].
  unfold CanonicalizeMinBoundary, canonicalize_end. destruct a as [| | |s o|]; try by exists None.
  destruct Ha as ([def Hd] & HS & Ho). unfold defn_at. rewrite Hd, Ok_bind.
  destruct (range def) as [r|] eqn:Er; [|by exists None].
  destruct (min r) as [| | |s' o'|] eqn:Em; try by exists None.
  assert (Ov : exists t, Ok (E:=utils_error) (Some NegativeInfinity) = Ok t /\
    forall b, t = Some b -> lo_ok G rho b x /\ (brank b < brank (Symbol s o))%nat).
  { eexists. split; [done|]. intros b [= <-]. split; [by left|simpl; lia]. }
  destruct (WillAddOverflow o' o) eqn:W; [exact Ov|].
  destruct (IsValidOffsetForSymbolicRangeBoundary (o' + o)) eqn:V; cbn [negb]; [|exact Ov].
  pose proof (gk_range _ _ HG _ _ _ Hd Er) as [Hmin _ Hlo _]. rewrite Em in *.
  destruct Hmin as (D' & S' & V').
  destruct (FromDefinition_ok G rho HG s' (o' + o) D' S' V) as (b & Eb & Hb & Vb).
  rewrite Eb, Ok_bind.
  destruct (CanonicalizeBoundary_spec b NegativeInfinity Hb) as (c & -> & Hc). rewrite Ok_bind.
  eexists. split; [done|]. intros ? [= <-].
  destruct Hc as [->|(Hc & Vc & Rc)]; [split; [by left|simpl; lia]|].
  split; [right; split; [done|]; simpl in *; lia|].
  apply FromDefinition_brank in Eb.
  pose proof (rk_range _ _ HA _ _ _ s' o' Hd Er (or_introl Em)). simpl. lia.
Qed.

Lemma CanonicalizeMaxBoundary_spec a x :
  hi_ok G rho a x ->
  exists r, CanonicalizeMaxBoundary G a = Ok r /\
    forall b, r = Some b -> hi_ok G rho b x /\ (brank b < brank a)%nat.
Proof.
  intros [->|[Ha Hx]]; [by exists None|].
  unfold CanonicalizeMaxBoundary, canonicalize_end. destruct a as [| | |s o|]; try by exists None.
  destruct Ha as ([def Hd] & HS & Ho). unfold defn_at. rewrite Hd, Ok_bind.
  destruct (range def) as [r|] eqn:Er; [|by exists None].
  destruct (max r) as [| | |s' o'|] eqn:Em; try by exists None.
  assert (Ov : exists t, Ok (E:=utils_error) (Some PositiveInfinity) = Ok t /\
    forall b, t = Some b -> hi_ok G rho b x /\ (brank b < brank (Symbol s o))%nat).
  { eexists. split; [done|]. intros b [= <-]. split; [by left|simpl; lia]. }
  destruct (WillAddOverflow o' o) eqn:W; [exact Ov|].
  destruct (IsValidOffsetForSymbolicRangeBoundary (o' + o)) eqn:V; cbn [negb]; [|exact Ov].
  pose proof (gk_range _ _ HG _ _ _ Hd Er) as [_ Hmax _ Hhi]. rewrite Em in *.
  destruct Hmax as (D' & S' & V').
  destruct (FromDefinition_ok G rho HG s' (o' + o) D' S' V) as (b & Eb & Hb & Vb).
  rewrite Eb, Ok_bind.
  destruct (CanonicalizeBoundary_spec b PositiveInfinity Hb) as (c & -> & Hc). rewrite Ok_bind.
  eexists. split; [done|]. intros ? [= <-].
  destruct Hc as [->|(Hc & Vc & Rc)]; [split; [by left|simpl; lia]|].
  split; [right; split; [done|]; simpl in *; lia|].
  apply FromDefinition_brank in Eb.
  pose proof (rk_range _ _ HA _ _ _ s' o' Hd Er (or_intror Em)). simpl. lia.
Qed.

(** ** Comparison of symbolic boundaries

    [P] is [lo_ok] with the step along minima, or [hi_ok] with the step along maxima. *)
Section compare.
Context (P : RangeBoundary -> Z -> Prop).
Context (op : RangeBoundary -> result (option RangeBoundary)).
Context (P_wf : forall b x, P b x -> wf_bound b).
Context (op_spec : forall a x, P a x ->
  exists r, op a = Ok r /\ forall b, r = Some b -> P b x /\ (brank b < brank a)%nat).

Lemma compare_loop_spec fuel a b x y :
  P a x -> P b y -> (brank a + brank b <= fuel)%nat ->
  exists r, compare_loop G fuel op a b = Ok r /\
    forall a' b', r = Some (a', b') ->
      P a' x /\ P b' y /\ bound_ok G rho a' /\ bound_ok G rho b' /\
      bval rho a' - offset a' = bval rho b' - offset b'.
Proof.
  revert a b. induction fuel as [|fuel IH]; intros a b Ha Hb Hf; cbn [compare_loop].
  all: destruct (DependOnSameSymbol_spec a b (P_wf _ _ Ha) (P_wf _ _ Hb)) as (t & -> & Ht).
  all: rewrite Ok_bind; destruct t;
    [destruct (Ht eq_refl) as (? & ? & ?); eexists; split; [done|];
     intros a' b' [= <- <-]; auto|].
  all: destruct (op_spec a x Ha) as (ra & -> & Hra); rewrite Ok_bind; destruct ra as [a'|].
  all: try (destruct (Hra a' eq_refl) as [Pa' Ra']).
  all: try lia.
  all: try (destruct (op_spec b y Hb) as (rb & -> & Hrb); rewrite Ok_bind;
            destruct rb as [b'|]; [destruct (Hrb b' eq_refl) as [Pb' Rb']|by exists None]).
  all: try lia.
  all: apply IH; (done || lia).
Qed.

Lemma CanonicalizeForComparison_spec a b x y :
  P a x -> P b y ->
  exists r, CanonicalizeForComparison G a b op = Ok r /\
    forall a' b', r = Some (a', b') ->
      P a' x /\ P b' y /\ bound_ok G rho a' /\ bound_ok G rho b' /\
      bval rho a' - offset a' = bval rho b' - offset b'.
Proof.
  intros Ha Hb. unfold CanonicalizeForComparison.
  destruct (negb (IsSymbol a) || negb (IsSymbol b)); [by exists None|].
  apply compare_loop_spec; [done..|].
  assert (HB : forall c z, P c z -> (brank c <= S (depth G))%nat).
  { intros c z Hc%P_wf. destruct c as [| | |s o|]; simpl; try lia.
    destruct Hc as ([def Hd] & _). pose proof (rk_depth _ _ HA _ _ Hd). lia. }
  pose proof (HB a x Ha). pose proof (HB b y Hb). lia.
Qed.
End compare.

Lemma lo_ok_wf b x : lo_ok G rho b x -> wf_bound b.
Proof. intros [->|[H _]]; [done|by destruct b]. Qed.
Lemma hi_ok_wf b x : hi_ok G rho b x -> wf_bound b.
Proof. intros [->|[H _]]; [done|by destruct b]. Qed.

Definition compare_min := CanonicalizeForComparison_spec (lo_ok G rho) (CanonicalizeMinBoundary G)
  lo_ok_wf CanonicalizeMinBoundary_spec.
Definition compare_max := CanonicalizeForComparison_spec (hi_ok G rho) (CanonicalizeMaxBoundary G)
  hi_ok_wf CanonicalizeMaxBoundary_spec.

(** A finite boundary is a lower bound of [x] in the extended sense. *)
Lemma lo_finite b x : lo_ok G rho b x -> bound_ok G rho b -> bval rho b <= x.
Proof. intros [->|[_ ?]]; [done|done]. Qed.
Lemma hi_finite b x : hi_ok G rho b x -> bound_ok G rho b -> x <= bval rho b.
Proof. intros [->|[_ ?]]; [done|done]. Qed.

(** ** Intersections *)

Lemma LowerBound_size_spec b size :
  bound_ok G rho b -> exists l, LowerBound_size G b size = Ok l.
Proof.
  intros Hb. unfold LowerBound_size.
  destruct (LowerBound_spec G rho rank HG HA b Hb) as (r & -> & [->|(c & -> & _)]);
    rewrite Ok_bind; [by eexists|]. simpl. repeat case_match; by eexists.
Qed.

Lemma UpperBound_size_spec b size :
  bound_ok G rho b -> exists u, UpperBound_size G b size = Ok u.
Proof.
  intros Hb. unfold UpperBound_size.
  destruct (UpperBound_spec G rho rank HG HA b Hb) as (r & -> & [->|(c & -> & _)]);
    rewrite Ok_bind; [by eexists|]. simpl. repeat case_match; by eexists.
Qed.

Lemma IntersectionMin_spec a b x :
  bound_ok G rho a -> bound_ok G rho b -> bval rho a <= x -> bval rho b <= x ->
  exists c, IntersectionMin G a b = Ok c /\ bound_ok G rho c /\ bval rho c <= x.
Proof.
  intros Ha Hb La Lb. unfold IntersectionMin.
  replace (negb (IsPositiveInfinity a) && negb (IsPositiveInfinity b)) with true
    by (by destruct a, b).
  replace (negb (IsUnknown a) && negb (IsUnknown b)) with true by (by destruct a, b).
  cbn [utils_assert]. rewrite !Ok_bind.
  destruct (Boundary_Equals_spec a b Ha Hb) as (e & -> & _). rewrite Ok_bind.
  destruct e; [by exists a|].
  destruct (IsMinimumOrBelow a _); [by exists b|]. destruct (IsMinimumOrBelow b _); [by exists a|].
  destruct (compare_min a b x x) as (r & -> & Hr); [by right..|]. rewrite Ok_bind.
  destruct r as [[a' b']|].
  - destruct (Hr a' b' eq_refl) as (Pa & Pb & Oa & Ob & _).
    pose proof (lo_finite _ _ Pa Oa). pose proof (lo_finite _ _ Pb Ob).
    destruct (_ <=? _); eauto.
  - destruct (LowerBound_size_spec a kRangeBoundarySmi Ha) as [la ->].
    destruct (LowerBound_size_spec b kRangeBoundarySmi Hb) as [lb ->]. rewrite !Ok_bind.
    destruct (_ <=? _); eauto.
Qed.

Lemma IntersectionMax_spec a b x :
  bound_ok G rho a -> bound_ok G rho b -> x <= bval rho a -> x <= bval rho b ->
  exists c, IntersectionMax G a b = Ok c /\ bound_ok G rho c /\ x <= bval rho c.
Proof.
  intros Ha Hb La Lb. unfold IntersectionMax.
  replace (negb (IsNegativeInfinity a) && negb (IsNegativeInfinity b)) with true
    by (by destruct a, b).
  replace (negb (IsUnknown a) && negb (IsUnknown b)) with true by (by destruct a, b).
  cbn [utils_assert]. rewrite !Ok_bind.
  destruct (Boundary_Equals_spec a b Ha Hb) as (e & -> & _). rewrite Ok_bind.
  destruct e; [by exists a|].
  destruct (IsMaximumOrAbove a _); [by exists b|]. destruct (IsMaximumOrAbove b _); [by exists a|].
  destruct (compare_max a b x x) as (r & -> & Hr); [by right..|]. rewrite Ok_bind.
  destruct r as [[a' b']|].
  - destruct (Hr a' b' eq_refl) as (Pa & Pb & Oa & Ob & _).
    pose proof (hi_finite _ _ Pa Oa). pose proof (hi_finite _ _ Pb Ob).
    destruct (_ <=? _); eauto.
  - destruct (UpperBound_size_spec a kRangeBoundarySmi Ha) as [la ->].
    destruct (UpperBound_size_spec b kRangeBoundarySmi Hb) as [lb ->]. rewrite !Ok_bind.
    destruct (_ <=? _); eauto.
Qed.

Lemma finite_range_new lo hi x :
  bound_ok G rho lo -> bound_ok G rho hi -> bval rho lo <= x <= bval rho hi ->
  Range_new lo hi = Ok (mkRange lo hi) /\ in_range G rho (mkRange lo hi) x.
Proof.
  intros Hl Hh Hx. split; [|by constructor; simpl; (done || lia)]. by destruct lo, hi.
Qed.

Lemma Intersect_spec r other x :
  in_range G rho r x -> in_range G rho other x ->
  exists r', Intersect G r other = Ok r' /\ in_range G rho r' x.
Proof.
  intros [Rm RM Rl Rh] [Om OM Ol Oh]. unfold Intersect.
  destruct (IntersectionMin_spec _ _ x Rm Om Rl Ol) as (lo & -> & Hlo & Llo). rewrite Ok_bind.
  destruct (IntersectionMax_spec _ _ x RM OM Rh Oh) as (hi & -> & Hhi & Lhi). rewrite Ok_bind.
  destruct (finite_range_new lo hi x Hlo Hhi ltac:(lia)) as [E Hr]. eauto.
Qed.

(** A range that contains a value is not reported as unsatisfiable. *)
Lemma IsUnsatisfiable_spec r x :
  in_range G rho r x -> is_s 64 x -> IsUnsatisfiable G r = Ok false.
Proof.
  intros Hr Hx. destruct (resolve G rho rank HG HA r x Hr Hx) as (l & u & lb & ub & R).
  unfold IsUnsatisfiable. destruct Hr as [Rm RM Rl Rh].
  replace (IsPositiveInfinity (min r) || IsNegativeInfinity (max r)) with false
    by (by destruct (min r), (max r)).
  rewrite (rv_min _ _ _ _ _ _ _ R), Ok_bind, (rv_max _ _ _ _ _ _ _ R), Ok_bind.
  pose proof (rv_lo _ _ _ _ _ _ _ R). pose proof (rv_hi _ _ _ _ _ _ _ R).
  destruct (Z.ltb_spec u l); [lia|].
  destruct (DependOnSameSymbol_spec (min r) (max r)) as (t & -> & Ht);
    [by destruct (min r)|by destruct (max r)|]. rewrite Ok_bind. f_equal.
  destruct t; [|done]. destruct (Ht eq_refl) as (_ & _ & E). apply Z.ltb_ge. lia.
Qed.
End symbols.
