(* ===== verification/RangeJoin.v ===== *)
(** Joins and widening of ranges: soundness of [JoinMin], [JoinMax], [Join],
    [EnsureAcyclicSymbol], [WidenMin], [WidenMax] and of the constraints of comparisons.

    A bound of a size may lie outside the size (a symbol plus an offset), so the properties
    are about the values of the size the bounds admit. *)
From stdpp Require Import base numbers list gmap.
From Stdlib Require Import ZArith Lia.
From S2P Require Import Prelude Utils IntegerOps Range RangeSound RangeOps RangeInfer RangeSymbols.
Local Open Scope Z_scope.
Local Open Scope cxx_scope.

Section join.
Context {smi : SmiTarget} (G : FlowGraph) (rho : nat -> Z) (rank : nat -> nat).
Context (HG : graph_ok G rho) (HA : acyclic G rank).

Definition in_size (size : RangeSize) (x : Z) : Prop := size_min size <= x <= size_max size.

Lemma in_size_s64 size x : in_size size x -> is_s 64 x.
Proof. intros [??]. pose proof (size_limits size). apply is_s64. lia. Qed.

(** ** Bounds clamped to a size *)

Lemma Overflowed_lower b x size :
  lower_of b x ->
  exists t, Overflowed G b size = Ok t /\ (t = false -> exists c, b = Constant c /\ in_size size c).
Proof.
  intros [->|(c & -> & _)].
  - exists true. done.
  - unfold Overflowed. simpl. unfold in_size.
    pose proof (size_limits size).
    destruct (Z.leb_spec c (size_min size)); [|destruct (Z.leb_spec (size_max size) c)];
      simpl; eexists; (split; [done|]); intros E%negb_false_iff%Z.eqb_eq;
      exists c; (split; [done|lia]).
Qed.

Lemma Overflowed_upper b x size :
  upper_of b x ->
  exists t, Overflowed G b size = Ok t /\ (t = false -> exists c, b = Constant c /\ in_size size c).
Proof.
  intros [->|(c & -> & Hc & Hx)].
  - exists true. done.
  - apply (Overflowed_lower (Constant c) c). right. by exists c.
Qed.

(** The clamped lower bound is below every value of the size above the boundary. *)
Lemma LowerBound_size_le b size :
  bound_ok G rho b ->
  exists l, LowerBound_size G b size = Ok l /\ in_size size l /\
    (forall x, size_min size <= x -> bval rho b <= x -> l <= x) /\
    (size_min size < l -> l <= bval rho b).
Proof.
  intros Hb. unfold LowerBound_size, in_size. pose proof (size_limits size).
  destruct (LowerBound_spec G rho rank HG HA b Hb) as (r & -> & [->|(c & -> & _ & Hc)]);
    rewrite Ok_bind; simpl.
  - exists (size_min size). split; [done|]. split; [lia|]. split; [by intros|lia].
  - destruct (Z.leb_spec c (size_min size)); [|destruct (Z.leb_spec (size_max size) c)];
      eexists; (split; [done|]); (split; [lia|]); (split; [intros; lia|lia]).
Qed.

Lemma UpperBound_size_ge b size :
  bound_ok G rho b ->
  exists u, UpperBound_size G b size = Ok u /\ in_size size u /\
    (forall x, x <= size_max size -> x <= bval rho b -> x <= u) /\
    (u < size_max size -> bval rho b <= u).
Proof.
  intros Hb. unfold UpperBound_size, in_size. pose proof (size_limits size).
  destruct (UpperBound_spec G rho rank HG HA b Hb) as (r & -> & [->|(c & -> & _ & Hc)]);
    rewrite Ok_bind; simpl.
  - exists (size_max size). split; [done|]. split; [lia|]. split; [by intros|lia].
  - destruct (Z.leb_spec c (size_min size)); [|destruct (Z.leb_spec (size_max size) c)];
      eexists; (split; [done|]); (split; [lia|]); (split; [intros; lia|lia]).
Qed.

(** ** Joins of boundaries *)

Lemma JoinMin_spec a b size :
  bound_ok G rho a -> bound_ok G rho b ->
  bval rho a <= size_max size -> bval rho b <= size_max size ->
  exists c, JoinMin G a b size = Ok c /\ bound_ok G rho c /\
    forall x, size_min size <= x -> bval rho a <= x \/ bval rho b <= x -> bval rho c <= x.
Proof.
  intros Ha Hb La Lb. unfold JoinMin.
  destruct (Boundary_Equals_spec G rho rank HG HA a b Ha Hb) as (e & -> & He). rewrite Ok_bind.
  destruct e; [exists b; rewrite He by done; split; [done|]; split; [done|]; intros; lia|].
  destruct (compare_min G rho rank HG HA a b (bval rho a) (bval rho b)) as (r & -> & Hr);
    [by right..|]. rewrite Ok_bind. destruct r as [[a' b']|].
  - destruct (Hr a' b' eq_refl) as (Pa & Pb & Oa & Ob & E).
    pose proof (lo_finite _ _ _ _ Pa Oa). pose proof (lo_finite _ _ _ _ Pb Ob).
    destruct (Z.leb_spec (offset a') (offset b')); eexists; (split; [done|]); (split; [done|]);
      intros; lia.
  - destruct (LowerBound_size_le a size Ha) as (ia & -> & Ia & Ma & _).
    destruct (LowerBound_size_le b size Hb) as (ib & -> & Ib & Mb & Nb).
    destruct (UpperBound_size_ge a size Ha) as (sa & -> & Sa & _ & Na).
    destruct (UpperBound_size_ge b size Hb) as (sb & -> & Sb & _ & Nb').
    destruct (LowerBound_spec G rho rank HG HA a Ha) as (la & -> & Hla).
    destruct (LowerBound_spec G rho rank HG HA b Hb) as (lb & -> & Hlb).
    rewrite !Ok_bind.
    destruct (Overflowed_lower la _ size Hla) as (oa & -> & Ha'). rewrite !Ok_bind.
    destruct (Overflowed_lower lb _ size Hlb) as (ob & -> & Hb').
    rewrite !Ok_bind. unfold in_size in *.
    destruct (Z.leb_spec sa ib); [destruct oa|]; cbn [andb negb].
    2: { exists a. split; [done|]. split; [done|]. intros x Hx [?|?]; [lia|].
         destruct (Z.lt_ge_cases sa (size_max size)) as [L|L].
         - specialize (Na L). specialize (Mb x Hx H0). lia.
         - specialize (Mb x Hx H0). lia. }
    all: destruct (Z.leb_spec sb ia); [destruct ob|]; cbn [andb negb].
    all: try (exists b; split; [done|]; split; [done|]; intros x Hx [?|?]; [|lia];
      destruct (Z.lt_ge_cases sb (size_max size)) as [L|L];
        [specialize (Nb' L); specialize (Ma x Hx H1); lia|specialize (Ma x Hx H1); lia]).
    all: eexists; split; [done|]; simpl; pose proof (size_limits size).
    all: unfold Minimum; split; [apply is_s64; destruct (_ <? _); lia|].
    all: intros x Hx HO; specialize (Ma x Hx); specialize (Mb x Hx).
    all: destruct (Z.ltb_spec ia ib); destruct HO as [HO|HO];
      try (specialize (Ma HO); lia); specialize (Mb HO); lia.
Qed.

Lemma JoinMax_spec a b size :
  bound_ok G rho a -> bound_ok G rho b ->
  size_min size <= bval rho a -> size_min size <= bval rho b ->
  exists c, JoinMax G a b size = Ok c /\ bound_ok G rho c /\
    forall x, x <= size_max size -> x <= bval rho a \/ x <= bval rho b -> x <= bval rho c.
Proof.
  intros Ha Hb La Lb. unfold JoinMax.
  destruct (Boundary_Equals_spec G rho rank HG HA a b Ha Hb) as (e & -> & He). rewrite Ok_bind.
  destruct e; [exists b; rewrite He by done; split; [done|]; split; [done|]; intros; lia|].
  destruct (compare_max G rho rank HG HA a b (bval rho a) (bval rho b)) as (r & -> & Hr);
    [by right..|]. rewrite Ok_bind. destruct r as [[a' b']|].
  - destruct (Hr a' b' eq_refl) as (Pa & Pb & Oa & Ob & E).
    pose proof (hi_finite _ _ _ _ Pa Oa). pose proof (hi_finite _ _ _ _ Pb Ob).
    destruct (Z.leb_spec (offset b') (offset a')); eexists; (split; [done|]); (split; [done|]);
      intros; lia.
  - destruct (LowerBound_size_le a size Ha) as (ia & -> & Ia & _ & Na).
    destruct (LowerBound_size_le b size Hb) as (ib & -> & Ib & _ & Nb).
    destruct (UpperBound_size_ge a size Ha) as (sa & -> & Sa & Ma & _).
    destruct (UpperBound_size_ge b size Hb) as (sb & -> & Sb & Mb & _).
    destruct (UpperBound_spec G rho rank HG HA b Hb) as (ub & -> & Hub).
    rewrite !Ok_bind.
    destruct (Overflowed_upper ub _ size Hub) as (ob & -> & Hb'). rewrite !Ok_bind.
    destruct (UpperBound_spec G rho rank HG HA a Ha) as (ua & -> & Hua). rewrite !Ok_bind.
    destruct (Overflowed_upper ua _ size Hua) as (oa & -> & Ha').
    rewrite !Ok_bind. unfold in_size in *.
    destruct (Z.leb_spec sa ib); [destruct ob|]; cbn [andb negb].
    2: { exists b. split; [done|]. split; [done|]. intros x Hx [H1|?]; [|lia].
         specialize (Ma x Hx H1). destruct (Z.lt_ge_cases (size_min size) ib) as [L|L];
           [specialize (Nb L)|]; lia. }
    all: destruct (Z.leb_spec sb ia); [destruct oa|]; cbn [andb negb].
    all: try (exists a; split; [done|]; split; [done|]; intros x Hx [?|H1]; [lia|];
      specialize (Mb x Hx H1); destruct (Z.lt_ge_cases (size_min size) ia) as [L|L];
        [specialize (Na L)|]; lia).
    all: eexists; split; [done|]; simpl; pose proof (size_limits size).
    all: unfold Maximum; split; [apply is_s64; destruct (_ <? _); lia|].
    all: intros x Hx HO; specialize (Ma x Hx); specialize (Mb x Hx).
    all: destruct (Z.ltb_spec sb sa); destruct HO as [HO|HO];
      try (specialize (Ma HO); lia); specialize (Mb HO); lia.
Qed.

(** ** Joins of ranges *)

Lemma in_range_known r x : in_range G rho r x -> IsUnknown (min r) = false.
Proof. intros [H _ _ _]. by destruct (min r). Qed.

Lemma DependsOnSymbol_spec a d :
  bound_ok G rho a ->
  exists t, DependsOnSymbol G a d = Ok t /\ (t = true -> rho d = bval rho a - offset a /\ IsSmi (rho d) = true).
Proof.
  intros Ha. destruct a as [| | |s o|]; try done; [|by exists false].
  destruct Ha as (Hs & HS & _). simpl.
  destruct (UnwrapConstraint_spec G rho rank HG HA s Hs) as (e & -> & _ & E). rewrite Ok_bind.
  eexists. split; [done|]. intros <-%Nat.eqb_eq. rewrite E. split; [lia|done].
Qed.

Lemma valid_zero : IsValidOffsetForSymbolicRangeBoundary 0 = true.
Proof. apply valid_offset. limits. Qed.

(** [Range(FromDefinition(d, 0), FromDefinition(d, 0))]. *)
Lemma definition_range d :
  is_Some (defns G !! d) -> IsSmi (rho d) = true ->
  exists r, (lo ← FromDefinition G d 0; hi ← FromDefinition G d 0; Range_new lo hi) = Ok r /\
    in_range G rho r (rho d).
Proof.
  intros Hd HS. destruct (FromDefinition_ok G rho HG d 0 Hd HS valid_zero) as (b & -> & Hb & Vb).
  rewrite !Ok_bind. destruct (finite_range_new G rho b b (rho d) Hb Hb ltac:(lia)) as [-> Hr].
  eauto.
Qed.

(** Joining ranges bound by bound, or extending the lower one to the upper one. *)
Lemma join_ranges range other y w size :
  in_range G rho range w -> in_range G rho other y -> in_size size w -> in_size size y ->
  exists r,
    (inf_range ← LowerBound_size G (min range) size;
     inf_other ← LowerBound_size G (min other) size;
     sup_range ← UpperBound_size G (max range) size;
     sup_other ← UpperBound_size G (max other) size;
     if sup_range <=? inf_other then Ok (set_max range (max other))
     else if sup_other <=? inf_range then Ok (set_min range (min other))
     else
       lo ← JoinMin G (min range) (min other) size;
       hi ← JoinMax G (max range) (max other) size;
       Range_new lo hi) = Ok r /\
    in_range G rho r y /\ forall x, in_size size x -> in_range G rho range x -> in_range G rho r x.
Proof.
  intros [Rm RM Rl Rh] [Om OM Ol Oh] Hw Hy. unfold in_size in *.
  destruct (LowerBound_size_le (min range) size Rm) as (ir & -> & Ir & Mr & Nr).
  destruct (LowerBound_size_le (min other) size Om) as (io & -> & Io & Mo & No).
  destruct (UpperBound_size_ge (max range) size RM) as (sr & -> & Sr & Ur & Vr).
  destruct (UpperBound_size_ge (max other) size OM) as (so & -> & So & Uo & Vo).
  rewrite !Ok_bind. unfold in_size in *.
  pose proof (Mo y ltac:(lia) Ol). pose proof (Uo y ltac:(lia) Oh).
  pose proof (Mr w ltac:(lia) Rl). pose proof (Ur w ltac:(lia) Rh).
  destruct (Z.leb_spec sr io).
  { unfold set_max. replace (IsInfinity (max other)) with false by (by destruct (max other)).
    eexists. split; [done|]. split; [constructor; simpl; (done || lia)|].
    intros x Hx [_ _ Xl Xh]. constructor; simpl; try done. pose proof (Ur x ltac:(lia) Xh). lia. }
  destruct (Z.leb_spec so ir).
  { unfold set_min. replace (IsInfinity (min other)) with false by (by destruct (min other)).
    eexists. split; [done|]. split; [constructor; simpl; (done || lia)|].
    intros x Hx [_ _ Xl Xh]. constructor; simpl; try done. pose proof (Mr x ltac:(lia) Xl). lia. }
  destruct (JoinMin_spec (min range) (min other) size Rm Om) as (lo & -> & Hlo & Llo); [lia..|].
  destruct (JoinMax_spec (max range) (max other) size RM OM) as (hi & -> & Hhi & Lhi); [lia..|].
  rewrite !Ok_bind. specialize (Llo y ltac:(lia) (or_intror Ol)) as L1.
  specialize (Lhi y ltac:(lia) (or_intror Oh)) as L2.
  destruct (finite_range_new G rho lo hi y Hlo Hhi ltac:(lia)) as [-> Hr].
  eexists. split; [done|]. split; [done|]. intros x Hx [_ _ Xl Xh].
  constructor; simpl; auto with lia.
Qed.

(** Joining the range of [d] keeps the values the range had and adds that of [d]. *)
Lemma Join_spec range w d dr size :
  in_range G rho range w -> in_size size w ->
  is_Some (defns G !! d) -> in_range G rho dr (rho d) -> in_size size (rho d) ->
  exists r, Join G range d (Some dr) size = Ok r /\ in_range G rho r (rho d) /\
    forall x, in_size size x -> in_range G rho range x -> in_range G rho r x.
Proof.
  intros HR Hw Hd Hdr Hs. unfold Join.
  rewrite (in_range_known _ _ Hdr), (in_range_known _ _ HR).
  destruct (UnwrapConstraint_spec G rho rank HG HA d Hd) as (u & -> & _ & Eu). rewrite Ok_bind.
  destruct (DependsOnSymbol_spec (min range) u (ir_min _ _ _ _ HR)) as (t1 & -> & H1).
  destruct (DependsOnSymbol_spec (max range) u (ir_max _ _ _ _ HR)) as (t2 & -> & H2).
  rewrite or_else_Ok, Ok_bind.
  assert (exists other, (if t1 || t2 then
      lo ← FromDefinition G d 0; hi ← FromDefinition G d 0; Range_new lo hi
    else Ok dr) = Ok other /\ in_range G rho other (rho d)) as (other & -> & Ho).
  { destruct (t1 || t2) eqn:E; [|eauto]. apply definition_range; [done|]. rewrite <- Eu.
    apply orb_true_iff in E as [-> | ->]; [by apply H1|by apply H2]. }
  rewrite Ok_bind. by apply (join_ranges range other (rho d) w).
Qed.

(** ** Phis *)

(** The symbol of a boundary, if any, is defined in a block that strictly dominates
    [phi_block]. *)
Definition symbol_dominates (phi_block : nat) (b : RangeBoundary) : Prop :=
  forall s o, b = Symbol s o ->
    exists def, defns G !! s = Some def /\ DominatesPhi G (block def) phi_block = true.

Lemma FromDefinition_dominates phi_block d def o b :
  defns G !! d = Some def -> DominatesPhi G (block def) phi_block = true ->
  FromDefinition G d o = Ok b -> symbol_dominates phi_block b.
Proof.
  intros Hd HD E s o' ->. unfold FromDefinition, utils_assert in E.
  apply bind_ok in E as (def' & _ & E). exists def. split; [|done].
  assert (s = d) as -> by (destruct (kind def'); repeat (case_match; simplify_eq/=; try done)).
  done.
Qed.

(** The boundary keeps its value or becomes the limit. *)
Lemma EnsureAcyclicSymbol_spec phi_block b limit :
  bound_ok G rho b -> IsConstant limit = true ->
  exists c, EnsureAcyclicSymbol G phi_block b limit = Ok c /\ symbol_dominates phi_block c /\
    (c = limit \/ bound_ok G rho c /\ bval rho c = bval rho b).
Proof.
  intros Hb HL. destruct b as [| | |s o|v]; try done.
  2: { exists (Constant v). split; [done|]. split; [by intros ? ?|auto]. }
  pose proof Hb as ([def Hd] & HS & Ho). simpl. unfold defn_at. rewrite Hd, Ok_bind.
  destruct (DominatesPhi G (block def) phi_block) eqn:D.
  { eexists. split; [done|]. split; [intros ? ? [= <- <-]; eauto|auto]. }
  assert (exists c, Ok (E:=utils_error) limit = Ok c /\ symbol_dominates phi_block c /\
    (c = limit \/ bound_ok G rho c /\ bval rho c = rho s + o)) as Limit.
  { eexists. split; [done|]. split; [intros ? ? ->; done|auto]. }
  destruct (UnwrapConstraint_spec G rho rank HG HA s (ex_intro _ _ Hd)) as (u & -> & [ud Hu] & Eu).
  rewrite Ok_bind, Hu, Ok_bind.
  destruct (negb _); [cbn [andb]|exact Limit].
  destruct (DominatesPhi G (block ud) phi_block) eqn:Du; [|exact Limit].
  rewrite <- Eu in HS.
  destruct (FromDefinition_ok G rho HG u o (ex_intro _ _ Hu) HS Ho) as (c & E & Hc & Vc).
  exists c. split; [done|]. split; [by eapply FromDefinition_dominates|].
  right. split; [done|]. lia.
Qed.

(** The inputs whose range is known. *)
Definition known_input (size : RangeSize) (i : nat) : Prop :=
  is_Some (defns G !! i) /\ in_size size (rho i).

Lemma GetInputRange_spec size i :
  known_input size i -> size <> kRangeBoundaryInt16 ->
  exists r, GetInputRange G size i = Ok r /\ forall r', r = Some r' -> in_range G rho r' (rho i).
Proof.
  intros [[def Hd] Hs] HN. unfold GetInputRange, GetSmiRange, GetIntRange, defn_at.
  rewrite Hd, Ok_bind. destruct size; [| done | |];
    (eexists; split; [done|]); intros r; destruct (range def) as [r'|] eqn:E;
    try (intros [= <-]; by apply (gk_range _ _ HG _ _ _ Hd E)); try done;
    destruct (negb _); try done; intros [= <-]; unfold in_size in Hs; simpl in Hs;
    constructor; simpl; limits.
Qed.

(** The range computed so far. *)
Definition so_far (size : RangeSize) (r : Range) : Prop :=
  r = Range_unknown \/ exists w, in_size size w /\ in_range G rho r w.

Lemma Join_step range i r size :
  so_far size range -> known_input size i -> (forall r', r = Some r' -> in_range G rho r' (rho i)) ->
  exists range', Join G range i r size = Ok range' /\ so_far size range' /\
    (is_Some r -> in_range G rho range' (rho i)) /\
    forall x, in_size size x -> in_range G rho range x -> in_range G rho range' x.
Proof.
  intros HR [Hi Hs] Hr. destruct r as [r|].
  2: { exists range. split; [done|]. split; [done|]. split; [by intros []|done]. }
  specialize (Hr r eq_refl). destruct HR as [->|(w & Hw & HR)].
  - exists r. split; [unfold Join; by rewrite (in_range_known _ _ Hr)|].
    split; [right; by exists (rho i)|]. split; [done|]. by intros x _ [? _ _ _].
  - destruct (Join_spec range w i r size HR Hw Hi Hr Hs) as (r' & E & H1 & H2).
    exists r'. split; [done|]. split; [right; by exists (rho i)|done].
Qed.

Lemma join_inputs_spec size inputs range :
  so_far size range -> Forall (known_input size) inputs -> size <> kRangeBoundaryInt16 ->
  exists r, join_inputs G size inputs range = Ok r /\ so_far size r /\
    (forall i, i ∈ inputs -> GetInputRange G size i <> Ok None -> in_range G rho r (rho i)) /\
    forall x, in_size size x -> in_range G rho range x -> in_range G rho r x.
Proof.
  intros HR HI HN. revert range HR. induction HI as [|i inputs Hi HI IH]; intros range HR.
  { exists range. split; [done|]. split; [done|]. split; [by intros i ?%elem_of_nil|done]. }
  cbn [join_inputs]. destruct (GetInputRange_spec size i Hi HN) as (r & Er & Hr).
  rewrite Er, Ok_bind.
  destruct (Join_step range i r size HR Hi Hr) as (range' & -> & HR' & H1 & H2). rewrite Ok_bind.
  destruct (IH range' HR') as (r2 & -> & HR2 & H3 & H4). exists r2. split; [done|].
  split; [done|]. split; [|by auto].
  intros j [->|Hj]%elem_of_cons HK; [|by apply H3]. apply H4; [apply Hi|]. apply H1.
  destruct r; [by eexists|by rewrite Er in HK].
Qed.

Lemma set_min_finite r b : bound_ok G rho b -> set_min r b = mkRange b (max r).
Proof. intros H. unfold set_min. by destruct b. Qed.
Lemma set_max_finite r b : bound_ok G rho b -> set_max r b = mkRange (min r) b.
Proof. intros H. unfold set_max. by destruct b. Qed.

Lemma MinSmi_ok : bound_ok G rho MinSmi.
Proof. simpl. limits. Qed.
Lemma MaxSmi_ok : bound_ok G rho MaxSmi.
Proof. simpl. limits. Qed.

(** The range of a [Smi] phi contains the value of every input with a known range, and its
    symbols dominate the phi. *)
Lemma Phi_InferRange_spec phi inputs :
  type_is_smi phi = true -> Forall (known_input kRangeBoundarySmi) inputs ->
  Exists (fun i => GetInputRange G kRangeBoundarySmi i <> Ok None) inputs ->
  exists r, Phi_InferRange G phi inputs Range_unknown = Ok r /\
    symbol_dominates (block phi) (min r) /\ symbol_dominates (block phi) (max r) /\
    forall i, i ∈ inputs -> GetInputRange G kRangeBoundarySmi i <> Ok None ->
      in_range G rho r (rho i).
Proof.
  intros HS HI HE. unfold Phi_InferRange, RangeSizeForPhi. rewrite HS, Ok_bind.
  destruct (join_inputs_spec kRangeBoundarySmi inputs Range_unknown) as (r & -> & HR & Hin & _);
    [by left|done|done|]. rewrite Ok_bind.
  apply Exists_exists in HE as (k & Hk & HK). pose proof (Hin k Hk HK) as [Rm RM _ _].
  destruct (EnsureAcyclicSymbol_spec (block phi) (min r) MinSmi Rm eq_refl) as (lo & -> & Dlo & Vlo).
  rewrite Ok_bind.
  assert (bound_ok G rho lo) as Olo by (destruct Vlo as [->|[? _]]; [apply MinSmi_ok|done]).
  rewrite (set_min_finite _ _ Olo). cbn [min max].
  destruct (EnsureAcyclicSymbol_spec (block phi) (max r) MaxSmi RM eq_refl) as (hi & -> & Dhi & Vhi).
  rewrite Ok_bind.
  assert (bound_ok G rho hi) as Ohi by (destruct Vhi as [->|[? _]]; [apply MaxSmi_ok|done]).
  rewrite (set_max_finite _ _ Ohi). eexists. split; [done|]. split; [done|]. split; [done|].
  intros i Hi Hi'. destruct (Hin i Hi Hi') as [_ _ Il Ih].
  rewrite Forall_forall in HI. destruct (HI i Hi) as [_ [Il' Ih']].
  constructor; simpl; try done.
  - destruct Vlo as [->|[_ ->]]; [exact Il'|done].
  - destruct Vhi as [->|[_ ->]]; [exact Ih'|done].
Qed.
End join.
