(* ===== verification/RangeTheorems.v ===== *)
(** What range analysis guarantees: the ranges it infers contain the values the instructions
    compute, the constraints it derives from branches and checks hold, operations it calls
    free of overflow do not overflow, widening changes a bound only finitely often, and a
    bounds check it calls redundant cannot fail. *)
From stdpp Require Import base numbers list gmap.
From Stdlib Require Import ZArith Lia.
From S2P Require Import Prelude Utils IntegerOps Range RangeSound RangeExample RangeOps.
From S2P Require Import RangeInfer RangeSymbols RangeJoin.
Local Open Scope Z_scope.
Local Open Scope cxx_scope.

Section theorems.
Context {smi : SmiTarget} (G : FlowGraph) (rho : nat -> Z) (rank : nat -> nat).

(** ** Sizes *)

Lemma Fits_spec r size z :
  graph_ok G rho -> acyclic G rank -> in_range G rho r z ->
  exists t, Fits G r size = Ok t /\ (t = true -> in_size size z).
Proof.
  intros HG HA HR. unfold Fits.
  destruct (lower_min G rho rank HG HA r z HR) as (lb & -> & Hlb). rewrite Ok_bind.
  destruct (Overflowed_lower G lb z size Hlb) as (o1 & -> & H1). rewrite Ok_bind.
  destruct o1; [by exists false|].
  destruct (upper_max G rho rank HG HA r z HR) as (ub & -> & Hub). rewrite Ok_bind.
  destruct (Overflowed_upper G ub z size Hub) as (o2 & -> & H2). rewrite Ok_bind.
  eexists. split; [done|]. destruct o2; [done|]. intros _. unfold in_size in *.
  destruct (H1 eq_refl) as (c1 & -> & ?), (H2 eq_refl) as (c2 & -> & ?).
  destruct Hlb as [?|(? & [= <-] & _ & ?)], Hub as [?|(? & [= <-] & _ & ?)]; try done. lia.
Qed.

Lemma Range_Clamp_spec r size z :
  in_range G rho r z -> in_size size z -> in_range G rho (Range_Clamp r size) z.
Proof.
  intros [Hm HM Hl Hh] [Sl Sh]. pose proof (size_limits size) as (? & ? & ?).
  assert (forall b, bound_ok G rho b -> bound_ok G rho (Clamp b size) /\
    (bval rho b <= z -> bval rho (Clamp b size) <= z) /\
    (z <= bval rho b -> z <= bval rho (Clamp b size))) as C.
  { intros b Hb. destruct b as [| | |s o|c]; try done. simpl.
    destruct (Z.leb_spec c (size_min size)); [|destruct (Z.leb_spec (size_max size) c)];
      simpl; (split; [first [done|apply is_s64; lia]|]); lia. }
  destruct (C _ Hm) as (? & ? & _), (C _ HM) as (? & _ & ?). by constructor; simpl; auto.
Qed.

(** ** Operations *)

Lemma InferRangeHelper_ok def op d x y z l r size range0 :
  graph_ok G rho -> acyclic G rank ->
  in_range G rho l x -> in_range G rho r y -> is_s 64 x -> is_s 64 y ->
  is_Some (defns G !! d) -> rho d = x -> integer_op op x y = Ok z ->
  RepresentationToRangeSize (representation def) = Ok size ->
  exists r' overflow,
    InferRangeHelper G def op d (Some l) (Some r) range0 = Ok (r', overflow) /\
    (in_size size z -> in_range G rho r' z) /\
    (is_truncating def = false -> overflow = false -> in_size size z) /\
    (is_truncating def = true -> overflow = can_overflow def).
Proof.
  intros HG HA Hl Hr Hx Hy Hd Ed Hz ES. unfold InferRangeHelper.
  rewrite (in_range_known _ _ _ _ Hl), (in_range_known _ _ _ _ Hr). cbn [orb].
  apply integer_op_spec in Hz; [|done..].
  destruct (BinaryOp_ok G rho rank HG HA op l r x y z d Hl Hr Hx Hy Hd Ed Hz) as (res & -> & Hres).
  rewrite Ok_bind, (in_range_known _ _ _ _ Hres). cbn [negb utils_assert]. rewrite Ok_bind, ES, Ok_bind.
  destruct (is_truncating def) eqn:T; cbn [negb].
  - rewrite Ok_bind. do 2 eexists. split; [done|]. split; [by apply Range_Clamp_spec|done].
  - destruct (Fits_spec res size z HG HA Hres) as (t & -> & Ht). rewrite !Ok_bind.
    do 2 eexists. split; [done|]. split; [by apply Range_Clamp_spec|].
    split; [|done]. intros _ ->%negb_false_iff. by apply Ht.
Qed.

(** ** Instructions *)

(** The definitions an instruction uses. *)
Definition operands (k : DefnKind) : list nat :=
  match k with
  | Constraint v _ | BoxInteger v | UnboxInt32 v | UnboxUint32 v | UnboxInt64 v
  | IntConverter _ _ v | AssertAssignable v => [v]
  | BinarySmiOp _ l r | BinaryIntegerOp _ l r | ShiftIntegerOp _ l r => [l; r]
  | Phi inputs => inputs
  | _ => []
  end.

(** The definition has a range. *)
Definition has_range (d : nat) : Prop :=
  exists def r, defns G !! d = Some def /\ range def = Some r.

(** The result of an operation that did not deoptimize: it fits the representation. *)
Definition op_result (def : Defn) (op : Token) (l r d : nat) : Prop :=
  integer_op op (rho l) (rho r) = Ok (rho d) /\
  exists size, RepresentationToRangeSize (representation def) = Ok size /\ in_size size (rho d).

(** The value of [d] is what the instruction computes from the values of its operands. *)
Definition computes (d : nat) (def : Defn) : Prop :=
  match kind def with
  | ConstantInteger v => is_s 64 v /\ rho d = v
  | ConstantObject => False
  | Constraint v c => rho d = rho v /\ IsSmi (rho v) = true /\ in_range G rho c (rho d)
  | BinarySmiOp op l r => IsSmi (rho l) = true /\ IsSmi (rho r) = true /\ op_result def op l r d
  | BinaryIntegerOp op l r =>
      (exists ls, RepresentationToRangeSize (left_representation def) = Ok ls /\
         ls <> kRangeBoundaryInt16 /\ in_size ls (rho l)) /\
      (exists rs, RepresentationToRangeSize (right_representation def) = Ok rs /\
         rs <> kRangeBoundaryInt16 /\ in_size rs (rho r)) /\ op_result def op l r d
  | ShiftIntegerOp op l r => is_s 64 (rho l) /\ is_s 64 (rho r) /\ op_result def op l r d
  | Phi inputs =>
      type_is_smi def = true /\ Forall (fun i => IsSmi (rho i) = true) inputs /\
      Exists (fun i => rho d = rho i) inputs
  | IfThenElse a b => is_s 64 a /\ is_s 64 b /\ (rho d = a \/ rho d = b)
  | BoxInteger v | UnboxInt64 v | AssertAssignable v => rho d = rho v
  | UnboxInt32 v => rho d = rho v /\ in_size kRangeBoundaryInt32 (rho d)
  | UnboxUint32 v => rho d = wrapu 32 (rho v) /\ is_s 64 (rho v) /\ rho v <= kMaxUint32
  | IntConverter _ to v =>
      if bool_decide (to = kUnboxedUint32) then rho d = wrapu 32 (rho v)
      else rho d = rho v /\ (to = kUnboxedInt32 -> in_size kRangeBoundaryInt32 (rho d))
  | OtherDefinition =>
      exists size, Defn_InferRange def = Ok (Full size) /\ in_size size (rho d)
  end.

Lemma GetSmiRange_has d :
  graph_ok G rho -> has_range d ->
  exists r, GetSmiRange G d = Ok (Some r) /\ in_range G rho r (rho d).
Proof.
  intros HG (def & r & Hd & Hr). exists r. unfold GetSmiRange, defn_at.
  rewrite Hd, Ok_bind, Hr. split; [done|]. by apply (gk_range _ _ HG _ _ _ Hd Hr).
Qed.

Lemma GetIntRange_has d :
  graph_ok G rho -> has_range d ->
  exists r, GetIntRange G d = Ok (Some r) /\ in_range G rho r (rho d).
Proof.
  intros HG (def & r & Hd & Hr). exists r. unfold GetIntRange, defn_at.
  rewrite Hd, Ok_bind, Hr. split; [done|]. by apply (gk_range _ _ HG _ _ _ Hd Hr).
Qed.

Lemma GetInputRange_has size d :
  graph_ok G rho -> has_range d -> size <> kRangeBoundaryInt16 ->
  exists r, GetInputRange G size d = Ok (Some r) /\ in_range G rho r (rho d).
Proof.
  intros HG Hh HN. destruct size; [by apply GetSmiRange_has|done| |by apply GetIntRange_has].
  destruct Hh as (def & r & Hd & Hr). exists r. unfold GetInputRange, defn_at.
  rewrite Hd, Ok_bind, Hr. split; [done|]. by apply (gk_range _ _ HG _ _ _ Hd Hr).
Qed.

Lemma CacheRange_has slot r x size :
  graph_ok G rho -> acyclic G rank -> in_range G rho r x ->
  exists c, CacheRange G slot (Some r) size = Ok c.
Proof.
  intros HG HA HR. unfold CacheRange, ClampToConstant.
  destruct (lower_min G rho rank HG HA r x HR) as (lb & -> & _).
  destruct (upper_max G rho rank HG HA r x HR) as (ub & -> & _). rewrite !Ok_bind. eauto.
Qed.

Lemma smi_in_size x : IsSmi x = true <-> in_size kRangeBoundarySmi x.
Proof. rewrite IsSmi_spec. done. Qed.

Lemma Full_ok size x : in_size size x -> in_range G rho (Full size) x.
Proof.
  intros [??]. pose proof (size_limits size) as (? & ? & ?).
  constructor; simpl; (apply is_s64; lia) || done.
Qed.

Lemma IntFull32_ok x : 0 <= x <= kMaxUint32 -> in_range G rho IntFull32 x.
Proof. intros. constructor; simpl; try lia; apply is_s64; unfold kMaxUint32, kMinInt64, kMaxInt64; lia. Qed.

Lemma wrapu32_bounds x : 0 <= wrapu 32 x <= kMaxUint32.
Proof. pose proof (wrapu_range 32 x ltac:(lia)) as H. unfold is_u in H. change (2 ^ 32) with 0x100000000 in H. unfold kMaxUint32. lia. Qed.

Lemma binary_infers def op l r d lr rr size :
  graph_ok G rho -> acyclic G rank -> is_Some (defns G !! l) ->
  in_range G rho lr (rho l) -> in_range G rho rr (rho r) ->
  in_size size (rho l) -> is_s 64 (rho r) -> op_result def op l r d ->
  exists r' ov, InferRangeHelper G def op l (Some lr) (Some rr) Range_unknown = Ok (r', ov) /\
    in_range G rho r' (rho d).
Proof.
  intros HG HA Hl HL HR Sl Sr (Hop & rs & Es & Hs).
  destruct (InferRangeHelper_ok def op l (rho l) (rho r) (rho d) lr rr rs Range_unknown)
    as (r' & ov & E & H & _); try done; [by eapply in_size_s64|]. eauto.
Qed.

Lemma has_range_defined d : has_range d -> is_Some (defns G !! d).
Proof. intros (def & _ & ? & _). eauto. Qed.
#[local] Hint Resolve has_range_defined : core.

Lemma Constraint_infers v c :
  graph_ok G rho -> acyclic G rank -> has_range v -> IsSmi (rho v) = true ->
  in_range G rho c (rho v) ->
  exists r, Constraint_InferRange G v c Range_unknown = Ok r /\ in_range G rho r (rho v).
Proof.
  intros HG HA Hv HS HC. unfold Constraint_InferRange.
  destruct (GetSmiRange_has v HG Hv) as (r & -> & Hr). rewrite Ok_bind, (in_range_known _ _ _ _ Hr).
  destruct (Intersect_spec G rho rank HG HA r c (rho v) Hr HC) as (r' & -> & Hr').
  rewrite Ok_bind, (IsUnsatisfiable_spec G rho rank HG HA r' (rho v)), Ok_bind;
    [eauto|done|by apply smi_s64].
Qed.

Lemma phi_infers def inputs d :
  graph_ok G rho -> acyclic G rank -> Forall has_range inputs -> type_is_smi def = true ->
  Forall (fun i => IsSmi (rho i) = true) inputs -> Exists (fun i => rho d = rho i) inputs ->
  exists r, Phi_InferRange G def inputs Range_unknown = Ok r /\ in_range G rho r (rho d).
Proof.
  intros HG HA HH HT HS HE. apply Exists_exists in HE as (i & Hi & ->).
  assert (KN : forall j, j ∈ inputs -> GetInputRange G kRangeBoundarySmi j <> Ok None).
  { intros j Hj. rewrite Forall_forall in HH.
    by destruct (GetInputRange_has kRangeBoundarySmi j HG (HH j Hj)) as (r & -> & _). }
  destruct (Phi_InferRange_spec G rho rank HG HA def inputs HT) as (r & E & _ & _ & H).
  - rewrite Forall_forall in HH, HS |- *. intros j Hj. split; [auto|]. by apply smi_in_size, HS.
  - apply Exists_exists. exists i. auto.
  - exists r. auto.
Qed.

(** A definition with a range, looked up. *)
Lemma has_range_at d :
  graph_ok G rho -> has_range d ->
  exists def r, defn_at G d = Ok def /\ range def = Some r /\ in_range G rho r (rho d).
Proof.
  intros HG (def & r & Hd & Hr). exists def, r. unfold defn_at. rewrite Hd. split; [done|].
  split; [done|]. by apply (gk_range _ _ HG _ _ _ Hd Hr).
Qed.

Lemma unsigned_infers r v z :
  graph_ok G rho -> acyclic G rank -> in_range G rho r v ->
  z = wrapu 32 v -> is_s 64 v -> v <= kMaxUint32 ->
  exists t, IsPositive G r = Ok t /\ in_range G rho (if t then r else IntFull32) z.
Proof.
  intros HG HA Hr -> Hv Hm. destruct (resolve G rho rank HG HA r v Hr Hv) as (l & u & lb & ub & R).
  unfold IsPositive. rewrite (greater_spec _ _ _ _ _ _ _ 0 R). eexists. split; [done|].
  destruct (_ && _) eqn:E; [|by apply IntFull32_ok, wrapu32_bounds].
  apply andb_true_iff in E as [_ E%Z.leb_le]. pose proof (rv_lo _ _ _ _ _ _ _ R).
  rewrite wrapu_id; [done|]. unfold is_u. change (2 ^ 32) with 0x100000000.
  unfold kMaxUint32 in *. lia.
Qed.

(** Looks up the operand of an instruction with one operand. *)
Ltac operand_range :=
  match goal with
  | HG : graph_ok G rho, H : has_range ?v |- _ =>
      destruct (has_range_at v HG H) as (vd & r & Ev & Rv & Hr);
      change (match defns G !! v with Some e => Ok e | None => Undefined end) with (defn_at G v);
      unfold GetSmiRange, GetIntRange; rewrite Ev, !Ok_bind, Rv, ?Ok_bind;
      cbn [Range_IsUnknown]; rewrite ?(in_range_known _ _ _ _ Hr)
  end.

(** C13: one step of range inference is sound.  If every range of the graph contains the value
    of its definition, and the operands of an instruction have ranges, then [InferRange] succeeds,
    with no failing assertion, and the range it computes contains the value of the instruction,
    within these limits ([computes]): arithmetic that does not deoptimize, its operands in their
    representations, of which none has 16 bits; a phi that has the type of a Smi and whose inputs,
    the one taken and the others, are Smis; [Constraint] of a Smi that satisfies it;
    [UnboxUint32] of a value that is at most [kMaxUint32]; [UnboxInt32] and conversions to 32
    signed bits of values that fit; no constants other than integers.  For phis and
    [UnboxUint32] outside of these limits the range can miss the value
    ([phi_limit_misses_value], [UnboxUint32_misses_value]), and so it can when the range of an
    input of a phi that is not taken does not hold ([join_misses_value]). *)
Theorem InferRange_sound d def :
  graph_ok G rho -> acyclic G rank -> defns G !! d = Some def ->
  Forall has_range (operands (kind def)) -> computes d def ->
  exists r overflow cached,
    InferRange G d = Ok (r, overflow, cached) /\ in_range G rho r (rho d).
Proof.
  intros HG HA Hd HH HC. unfold InferRange, defn_at. rewrite Hd, Ok_bind. cbv zeta.
  unfold computes in HC. destruct (kind def) as [v| |v c|op l r|op l r|op l r|inputs|a b|v|v|v|v|from to v|v|];
    cbn [operands] in HH; decompose_Forall.
  - destruct HC as [? ->]. do 3 eexists. split; [done|]. by constructor; simpl.
  - done.
  - destruct HC as (-> & HS & HC). destruct (Constraint_infers v c) as (r & -> & Hr); eauto.
  - destruct HC as (Sl & Sr & HO). destruct (GetSmiRange_has r) as (rr & -> & Hr); [done..|].
    destruct (GetSmiRange_has l) as (lr & -> & Hl); [done..|]. rewrite !Ok_bind.
    destruct (CacheRange_has (cached_range def) rr (rho r) kRangeBoundarySmi) as (c & ->); [done..|].
    destruct (binary_infers def op l r d lr rr kRangeBoundarySmi) as (r' & ov & E & HF); eauto;
      [by apply smi_in_size|by apply smi_s64|].
    destruct (caches_right op); rewrite !Ok_bind, E; eauto.
  - destruct HC as ((ls & -> & Nl & Sl) & (rs & -> & Nr & Sr) & HO). rewrite !Ok_bind.
    destruct (GetInputRange_has ls l) as (lr & -> & Hl); [done..|].
    destruct (GetInputRange_has rs r) as (rr & -> & Hr); [done..|]. rewrite !Ok_bind.
    destruct (binary_infers def op l r d lr rr ls) as (r' & ov & -> & HF); eauto.
    by eapply in_size_s64.
  - destruct HC as (Sl & Sr & HO).
    destruct (has_range_at l) as (ld & lr & El & Rl & Hl); [done..|].
    destruct (has_range_at r) as (rd & rr & Er & Rr & Hr); [done..|].
    change (match defns G !! l with Some e => Ok e | None => Undefined end) with (defn_at G l).
    change (match defns G !! r with Some e => Ok e | None => Undefined end) with (defn_at G r).
    destruct (GetSmiRange_has r) as (rr' & Er' & _); [done..|].
    rewrite El, Er, !Ok_bind, Rl, Rr.
    replace (if bool_decide _ then GetSmiRange G r else Ok (Some rr))
      with (Ok (E:=utils_error) (Some rr)).
    2: { unfold GetSmiRange. rewrite Er, Ok_bind, Rr. by case_bool_decide. }
    destruct (CacheRange_has (cached_range def) rr (rho r) kRangeBoundaryInt64) as (c & ->); [done..|].
    rewrite !Ok_bind.
    destruct (binary_infers def op l r d lr rr kRangeBoundaryInt64) as (r' & ov & -> & HF); eauto.
    by apply is_s64.
  - destruct HC as (HT & HS & HE). destruct (phi_infers def inputs d) as (r & -> & Hr); eauto.
  - do 3 eexists. split; [done|]. unfold Minimum, Maximum. destruct HC as (Ha & Hb & HO).
    constructor; simpl; destruct (Z.ltb_spec a b), (Z.ltb_spec b a); (done || lia).
  - operand_range. rewrite HC. eauto.
  - operand_range. destruct HC as [-> HS]. destruct (type_is_smi vd), (type_is_int vd); eauto 8 using Full_ok.
  - operand_range. destruct HC as (E & HS & HM).
    destruct (unsigned_infers r (rho v) (rho d)) as (t & -> & Ht); [done..|]. rewrite !Ok_bind.
    destruct (type_is_smi vd), (type_is_int vd); eauto.
    do 3 eexists. split; [done|]. rewrite E. apply IntFull32_ok, wrapu32_bounds.
  - operand_range. rewrite HC. eauto.
  - operand_range. case_bool_decide; [do 3 eexists; split; [done|]; rewrite HC; apply IntFull32_ok, wrapu32_bounds|].
    destruct HC as [E HS]. rewrite <- E in Hr. case_bool_decide; [|eauto].
    do 3 eexists. split; [done|]. apply Range_Clamp_spec; auto.
  - operand_range. rewrite HC. eauto.
  - destruct HC as (size & -> & HS). do 3 eexists. split; [done|]. by apply Full_ok.
Qed.

(** ** Overflow *)

(** C25: if the analysis concludes that a non-truncating operation cannot overflow, then the
    64-bit result of the operation fits its representation, for all operands within the
    ranges. *)
Theorem can_overflow_sound def op l r lr rr range0 res z :
  graph_ok G rho -> acyclic G rank -> is_Some (defns G !! l) ->
  in_range G rho lr (rho l) -> in_range G rho rr (rho r) ->
  is_s 64 (rho l) -> is_s 64 (rho r) -> is_truncating def = false ->
  InferRangeHelper G def op l (Some lr) (Some rr) range0 = Ok (res, false) ->
  integer_op op (rho l) (rho r) = Ok z ->
  exists size, RepresentationToRangeSize (representation def) = Ok size /\
    in_size size z /\ in_range G rho res z.
Proof.
  intros HG HA Hl HL HR Sl Sr HT HI Hz.
  destruct (RepresentationToRangeSize (representation def)) as [size| |] eqn:ES.
  - exists size. split; [done|].
    destruct (InferRangeHelper_ok def op l (rho l) (rho r) z lr rr size range0)
      as (r' & ov & E & H1 & H2 & _); try done.
    rewrite E in HI. injection HI as -> ->. split; auto.
  - unfold InferRangeHelper in HI.
    rewrite (in_range_known _ _ _ _ HL), (in_range_known _ _ _ _ HR), ES in HI.
    apply bind_ok in HI as (? & _ & HI). by apply bind_ok in HI as (? & _ & HI).
  - unfold InferRangeHelper in HI.
    rewrite (in_range_known _ _ _ _ HL), (in_range_known _ _ _ _ HR), ES in HI.
    apply bind_ok in HI as (? & _ & HI). by apply bind_ok in HI as (? & _ & HI).
Qed.

(** ** Constraints *)

(** The comparisons of [Smi]s. *)
Definition compare (op : Token) (a b : Z) : option bool :=
  match op with
  | kEQ => Some (a =? b)
  | kNE => Some (negb (a =? b))
  | kLT => Some (a <? b)
  | kGT => Some (b <? a)
  | kLTE => Some (a <=? b)
  | kGTE => Some (b <=? a)
  | _ => None
  end.

Lemma valid_small o : -1 <= o <= 1 -> IsValidOffsetForSymbolicRangeBoundary o = true.
Proof. rewrite valid_offset. limits. Qed.

Lemma ConstraintSmiRange_true op d x :
  graph_ok G rho -> is_Some (defns G !! d) -> IsSmi (rho d) = true -> IsSmi x = true ->
  compare op x (rho d) = Some true ->
  exists r, ConstraintSmiRange G op d = Ok r /\ in_range G rho r x.
Proof.
  intros HG Hd HS HX HC. pose proof (MinSmi_ok G rho) as Om. pose proof (MaxSmi_ok G rho) as OM.
  assert (FD : forall o, -1 <= o <= 1 ->
    exists b, FromDefinition G d o = Ok b /\ bound_ok G rho b /\ bval rho b = rho d + o).
  { intros o Ho. by apply FromDefinition_ok, valid_small. }
  destruct (FD 0 ltac:(lia)) as (b0 & E0 & B0 & V0), (FD 1 ltac:(lia)) as (b1 & E1 & B1 & V1),
    (FD (-1) ltac:(lia)) as (b2 & E2 & B2 & V2). apply IsSmi_spec in HX.
  destruct op; try done; simpl in HC |- *; rewrite ?E0, ?E1, ?E2, ?Ok_bind; injection HC as HC;
    rewrite ?negb_true_iff, ?Z.eqb_eq, ?Z.ltb_lt, ?Z.leb_le in HC.
  2: { eexists. split; [done|]. by apply Full_ok. }
  all: eexists; (split; [by apply (finite_range_new G rho) with (x := x); simpl; (done || lia)|]).
  all: constructor; simpl; (done || lia).
Qed.

(** C26: on either edge of a branch on a comparison of [Smi]s, and for either operand, the
    constraint derived for the operand contains its value on every execution that takes the
    edge. *)
Theorem branch_constraints_sound op a b taken op' :
  graph_ok G rho -> is_Some (defns G !! a) -> is_Some (defns G !! b) ->
  IsSmi (rho a) = true -> IsSmi (rho b) = true ->
  compare op (rho a) (rho b) = Some taken ->
  (if taken then Some op else NegateComparison op) = Some op' ->
  exists op'' r r',
    ConstraintSmiRange G op' b = Ok r /\ in_range G rho r (rho a) /\
    FlipComparison op' = Some op'' /\
    ConstraintSmiRange G op'' a = Ok r' /\ in_range G rho r' (rho b).
Proof.
  intros HG Ha Hb Sa Sb HC HO.
  assert (C : compare op' (rho a) (rho b) = Some true).
  { destruct taken; [congruence|].
    destruct op; try done; simpl in *; injection HO as <-; injection HC as HC; simpl; f_equal; lia. }
  destruct (ConstraintSmiRange_true op' b (rho a)) as (r & E & Hr); [done..|].
  assert (exists op'', FlipComparison op' = Some op'' /\ compare op'' (rho b) (rho a) = Some true)
    as (op'' & EF & CF).
  { destruct op'; try done; simpl in *; injection C as C; eexists; (split; [done|]); simpl;
      f_equal; lia. }
  destruct (ConstraintSmiRange_true op'' a (rho b)) as (r' & E' & Hr'); [done..|].
  by exists op'', r, r'.
Qed.

(** After a bounds check the constraints on the index and on the length hold. *)
Lemma check_bound_constraint_sound index length :
  graph_ok G rho -> is_Some (defns G !! index) -> is_Some (defns G !! length) ->
  IsSmi (rho index) = true -> IsSmi (rho length) = true -> 0 <= rho index < rho length ->
  exists ri rl, check_bound_constraint G true length = Ok ri /\ in_range G rho ri (rho index) /\
    check_bound_constraint G false index = Ok rl /\ in_range G rho rl (rho length).
Proof.
  intros HG Hi Hl Si Sl HB.
  destruct (FromDefinition_ok G rho HG length (-1)) as (b & Eb & Ob & Vb); [done..|by apply valid_small|].
  destruct (FromDefinition_ok G rho HG index 1) as (c & Ec & Oc & Vc); [done..|by apply valid_small|].
  unfold check_bound_constraint. rewrite Eb, Ec, !Ok_bind. apply IsSmi_spec in Sl.
  destruct (finite_range_new G rho (FromConstant 0) b (rho index)) as [-> ?]; [done..|simpl; lia|].
  destruct (finite_range_new G rho c MaxSmi (rho length)) as [-> ?];
    [done|apply MaxSmi_ok|simpl; lia|]. eauto 8.
Qed.

(** ** Widening *)

(** How often a lower (upper) bound can still change. *)
Definition widen_min_rank (size : RangeSize) (b : RangeBoundary) : nat :=
  match b with Symbol _ _ => 2 | Constant c => if c <=? size_min size then 0 else 1 | _ => 0 end.
Definition widen_max_rank (size : RangeSize) (b : RangeBoundary) : nat :=
  match b with Symbol _ _ => 2 | Constant c => if size_max size <=? c then 0 else 1 | _ => 0 end.

Lemma MinConstant_ok size : bound_ok G rho (MinConstant size).
Proof. simpl. pose proof (size_limits size). apply is_s64. lia. Qed.
Lemma MaxConstant_ok size : bound_ok G rho (MaxConstant size).
Proof. simpl. pose proof (size_limits size). apply is_s64. lia. Qed.

(** [ConstantMin] and [ConstantMax] of a range, as [LowerBound(size)] of its minimum. *)
Lemma ConstantMin_value {A} r size (k : Z -> result A) :
  (m ← ConstantMin G (Some r) size; m ← ConstantValue m; k m) =
  (m ← LowerBound_size G (min r) size; k m).
Proof.
  unfold ConstantMin, constant_min, LowerBound_size. destruct (LowerBound G (min r)); done.
Qed.
Lemma ConstantMax_value {A} r size (k : Z -> result A) :
  (m ← ConstantMax G (Some r) size; m ← ConstantValue m; k m) =
  (m ← UpperBound_size G (max r) size; k m).
Proof.
  unfold ConstantMax, constant_max, UpperBound_size. destruct (UpperBound G (max r)); done.
Qed.

Lemma LowerBound_constant c : LowerBound G (Constant c) = Ok (Constant c).
Proof. unfold LowerBound. by destruct (depth G). Qed.
Lemma UpperBound_constant c : UpperBound G (Constant c) = Ok (Constant c).
Proof. unfold UpperBound. by destruct (depth G). Qed.

(** The comparison of the constant bounds. *)
Lemma widen_min_numeric (P : Z -> Prop) b m n size :
  in_size size m -> bound_ok G rho b ->
  (forall x, P x -> size_min size <= x -> n <= x \/ m <= x) ->
  (b = Constant m \/ IsSymbol b = true) ->
  let c := if m <=? n then Constant m else MinConstant size in
  bound_ok G rho c /\ (forall x, size_min size <= x -> P x -> bval rho c <= x) /\
  (c = b \/ (widen_min_rank size c < widen_min_rank size b)%nat).
Proof.
  intros Hm Hb HP HB. unfold in_size in Hm. pose proof (size_limits size).
  destruct (Z.leb_spec m n); cbv zeta.
  - split; [simpl; apply is_s64; lia|]. split; [simpl; intros x Hx Px; specialize (HP x Px Hx); lia|].
    destruct HB as [->|HB]; [by left|right]. destruct b; try done. simpl.
    destruct (m <=? size_min size); lia.
  - split; [apply MinConstant_ok|]. split; [simpl; by intros|]. simpl. rewrite Z.leb_refl.
    destruct HB as [->|HB]; [|right; destruct b; try done; simpl; lia].
    destruct (Z.leb_spec m (size_min size)) as [L|L].
    + left. unfold MinConstant, FromConstant. f_equal. lia.
    + right. simpl. destruct (Z.leb_spec m (size_min size)); lia.
Qed.

Lemma widen_max_numeric (P : Z -> Prop) b m n size :
  in_size size m -> bound_ok G rho b ->
  (forall x, P x -> x <= size_max size -> x <= n \/ x <= m) ->
  (b = Constant m \/ IsSymbol b = true) ->
  let c := if n <=? m then Constant m else MaxConstant size in
  bound_ok G rho c /\ (forall x, x <= size_max size -> P x -> x <= bval rho c) /\
  (c = b \/ (widen_max_rank size c < widen_max_rank size b)%nat).
Proof.
  intros Hm Hb HP HB. unfold in_size in Hm. pose proof (size_limits size).
  destruct (Z.leb_spec n m); cbv zeta.
  - split; [simpl; apply is_s64; lia|]. split; [simpl; intros x Hx Px; specialize (HP x Px Hx); lia|].
    destruct HB as [->|HB]; [by left|right]. destruct b; try done. simpl.
    destruct (size_max size <=? m); lia.
  - split; [apply MaxConstant_ok|]. split; [simpl; by intros|]. simpl. rewrite Z.leb_refl.
    destruct HB as [->|HB]; [|right; destruct b; try done; simpl; lia].
    destruct (Z.leb_spec (size_max size) m) as [L|L].
    + left. unfold MaxConstant, FromConstant. f_equal. lia.
    + right. simpl. destruct (Z.leb_spec (size_max size) m); lia.
Qed.

(** Widening the lower bound of a phi gives a bound below every value of the size that the old or
    the new range admits, and either leaves the bound as it was or lowers its rank. *)
Lemma WidenMin_spec range new size :
  graph_ok G rho -> acyclic G rank ->
  bound_ok G rho (min range) -> bound_ok G rho (min new) ->
  bval rho (min range) <= size_max size -> Clamp (min range) size = min range ->
  exists c, WidenMin G range new size = Ok c /\ bound_ok G rho c /\
    (forall x, size_min size <= x -> bval rho (min range) <= x \/ bval rho (min new) <= x ->
       bval rho c <= x) /\
    (c = min range \/ (widen_min_rank size c < widen_min_rank size (min range))%nat).
Proof.
  intros HG HA Hr Hn Lr HC. unfold WidenMin. rewrite !ConstantMin_value.
  pose proof (MinConstant_ok size) as OM. pose proof (size_limits size) as SL.
  destruct (LowerBound_size_le G rho rank HG HA (min range) size Hr) as (m & Em & Im & Mm & _).
  destruct (LowerBound_size_le G rho rank HG HA (min new) size Hn) as (n & En & In & Mn & _).
  assert (HMin : (widen_min_rank size (MinConstant size) = 0)%nat).
  { simpl. by rewrite Z.leb_refl. }
  unfold in_size in *. rewrite Em, Ok_bind, ConstantMin_value, En, Ok_bind.
  assert (Num : min range = Constant m \/ IsSymbol (min range) = true ->
    exists c, Ok (E:=utils_error) (if m <=? n then Constant m else MinConstant size) = Ok c /\
      bound_ok G rho c /\
      (forall x, size_min size <= x -> bval rho (min range) <= x \/ bval rho (min new) <= x ->
         bval rho c <= x) /\
      (c = min range \/ (widen_min_rank size c < widen_min_rank size (min range))%nat)).
  { intros HB. eexists. split; [done|].
    apply (widen_min_numeric (fun x => bval rho (min range) <= x \/ bval rho (min new) <= x)); auto.
    intros x [P|P] Hx; [right; by apply Mm|left; by apply Mn]. }
  destruct (min range) as [| | |s o|c] eqn:E; try done; cbn [IsSymbol].
  2: { apply Num. left. unfold LowerBound_size in Em. rewrite LowerBound_constant, Ok_bind, HC in Em.
       by injection Em as <-. }
  specialize (Num (or_intror eq_refl)).
  destruct (LowerBound_spec G rho rank HG HA _ Hr) as (lb & -> & Hlb). rewrite Ok_bind.
  destruct (Overflowed_lower G lb _ size Hlb) as (ov & -> & _). rewrite Ok_bind.
  assert (Lim : exists c, Ok (E:=utils_error) (MinConstant size) = Ok c /\ bound_ok G rho c /\
    (forall x, size_min size <= x -> bval rho (Symbol s o) <= x \/ bval rho (min new) <= x ->
       bval rho c <= x) /\
    (c = Symbol s o \/ (widen_min_rank size c < 2)%nat)).
  { eexists. split; [done|]. split; [done|]. split; [simpl; by intros|]. right. lia. }
  destruct ov; [exact Lim|].
  destruct (DependOnSameSymbol_spec G rho rank HG HA (Symbol s o) (min new)) as (t & -> & Ht);
    [done|by destruct (min new)|]. rewrite Ok_bind. destruct t.
  - destruct (Ht eq_refl) as (_ & _ & ES). cbn [offset] in *.
    destruct (Z.leb_spec o (offset (min new))); [|exact Lim].
    eexists. split; [done|]. split; [done|]. split; [intros x Hx [?|?]; lia|by left].
  - destruct (UpperBound_size_ge G rho rank HG HA _ size Hr) as (u & -> & Iu & _ & Vu).
    rewrite !Ok_bind. destruct (Z.leb_spec u n); [|exact Num].
    eexists. split; [done|]. split; [done|]. split; [|by left].
    unfold in_size in *. intros x Hx [?|P]; [done|]. specialize (Mn x Hx P).
    destruct (Z.lt_ge_cases u (size_max size)) as [L|L]; [specialize (Vu L)|]; lia.
Qed.

Lemma WidenMax_spec range new size :
  graph_ok G rho -> acyclic G rank ->
  bound_ok G rho (max range) -> bound_ok G rho (max new) ->
  size_min size <= bval rho (max range) -> Clamp (max range) size = max range ->
  exists c, WidenMax G range new size = Ok c /\ bound_ok G rho c /\
    (forall x, x <= size_max size -> x <= bval rho (max range) \/ x <= bval rho (max new) ->
       x <= bval rho c) /\
    (c = max range \/ (widen_max_rank size c < widen_max_rank size (max range))%nat).
Proof.
  intros HG HA Hr Hn Lr HC. unfold WidenMax. rewrite !ConstantMax_value.
  pose proof (MaxConstant_ok size) as OM. pose proof (size_limits size) as SL.
  destruct (UpperBound_size_ge G rho rank HG HA (max range) size Hr) as (m & Em & Im & Mm & _).
  destruct (UpperBound_size_ge G rho rank HG HA (max new) size Hn) as (n & En & In & Mn & _).
  assert (HMin : (widen_max_rank size (MaxConstant size) = 0)%nat).
  { simpl. by rewrite Z.leb_refl. }
  unfold in_size in *. rewrite Em, Ok_bind, ConstantMax_value, En, Ok_bind.
  assert (Num : max range = Constant m \/ IsSymbol (max range) = true ->
    exists c, Ok (E:=utils_error) (if n <=? m then Constant m else MaxConstant size) = Ok c /\
      bound_ok G rho c /\
      (forall x, x <= size_max size -> x <= bval rho (max range) \/ x <= bval rho (max new) ->
         x <= bval rho c) /\
      (c = max range \/ (widen_max_rank size c < widen_max_rank size (max range))%nat)).
  { intros HB. eexists. split; [done|].
    apply (widen_max_numeric (fun x => x <= bval rho (max range) \/ x <= bval rho (max new))); auto.
    intros x [P|P] Hx; [right; by apply Mm|left; by apply Mn]. }
  destruct (max range) as [| | |s o|c] eqn:E; try done; cbn [IsSymbol].
  2: { apply Num. left. unfold UpperBound_size in Em. rewrite UpperBound_constant, Ok_bind, HC in Em.
       by injection Em as <-. }
  specialize (Num (or_intror eq_refl)).
  destruct (UpperBound_spec G rho rank HG HA _ Hr) as (lb & -> & Hlb). rewrite Ok_bind.
  destruct (Overflowed_upper G lb _ size Hlb) as (ov & -> & _). rewrite Ok_bind.
  assert (Lim : exists c, Ok (E:=utils_error) (MaxConstant size) = Ok c /\ bound_ok G rho c /\
    (forall x, x <= size_max size -> x <= bval rho (Symbol s o) \/ x <= bval rho (max new) ->
       x <= bval rho c) /\
    (c = Symbol s o \/ (widen_max_rank size c < 2)%nat)).
  { eexists. split; [done|]. split; [done|]. split; [simpl; by intros|]. right. lia. }
  destruct ov; [exact Lim|].
  destruct (DependOnSameSymbol_spec G rho rank HG HA (Symbol s o) (max new)) as (t & -> & Ht);
    [done|by destruct (max new)|]. rewrite Ok_bind. destruct t.
  - destruct (Ht eq_refl) as (_ & _ & ES). cbn [offset] in *.
    destruct (Z.leb_spec (offset (max new)) o); [|exact Lim].
    eexists. split; [done|]. split; [done|]. split; [intros x Hx [?|?]; lia|by left].
  - destruct (LowerBound_size_le G rho rank HG HA _ size Hr) as (u & -> & Iu & _ & Vu).
    rewrite !Ok_bind. destruct (Z.leb_spec n u); [|exact Num].
    eexists. split; [done|]. split; [done|]. split; [|by left].
    unfold in_size in *. intros x Hx [?|P]; [done|]. specialize (Mn x Hx P).
    destruct (Z.lt_ge_cases (size_min size) u) as [L|L]; [specialize (Vu L)|]; lia.
Qed.

End theorems.

(** *** Sequences of widenings *)

Section widening.
Context {smi : SmiTarget} (size : RangeSize).

(** The bounds that a phi of the size has between widenings. *)
Definition clamped (b : RangeBoundary) : Prop := IsUnknown b = false /\ Clamp b size = b.

(** What [Analysis_InferRange] does to the range of a phi when it widens. *)
Definition widen (G : FlowGraph) (old new : Range) : result Range :=
  lo ← WidenMin G old new size; hi ← WidenMax G old new size; Range_new lo hi.

(** Widenings with the ranges that are inferred one after the other, in whatever graphs: the range
    and how often it changed. *)
Fixpoint widen_all (r : Range) (steps : list (FlowGraph * Range)) : result (Range * nat) :=
  match steps with
  | [] => Ok (r, 0%nat)
  | (G, new) :: steps =>
      r' ← widen G r new;
      '(r'', n) ← widen_all r' steps;
      Ok (r'', if bool_decide (min r' = min r /\ max r' = max r) then n else S n)
  end.

Lemma clamped_constant c : clamped (Constant c) -> in_size size c.
Proof.
  unfold clamped, in_size. simpl. pose proof (size_limits size).
  destruct (Z.leb_spec c (size_min size)); [|destruct (Z.leb_spec (size_max size) c)]; intros [_ E]; try (injection E as E); lia.
Qed.

Lemma in_size_clamped c : in_size size c -> clamped (Constant c).
Proof.
  intros [??]. unfold clamped. split; [done|]. simpl. unfold MinConstant, MaxConstant, FromConstant.
  destruct (Z.leb_spec c (size_min size)); [|destruct (Z.leb_spec (size_max size) c)]; f_equal; lia.
Qed.

Lemma Clamp_value b m : ConstantValue (Clamp b size) = Ok m -> in_size size m.
Proof.
  intros E. pose proof (size_limits size). unfold in_size. destruct b as [| | |s o|c]; simpl in E; try discriminate E;
    [injection E as <-; lia..|].
  destruct (Z.leb_spec c (size_min size)); [|destruct (Z.leb_spec (size_max size) c)]; simpl in E; injection E as <-; lia.
Qed.

(** A bound is kept, or becomes a constant of lower rank. *)
Definition descends (rank : RangeBoundary -> nat) (b c : RangeBoundary) : Prop :=
  c = b \/ exists m, c = Constant m /\ in_size size m /\ (rank c < rank b)%nat.

Lemma WidenMin_descends G old new c :
  clamped (min old) -> WidenMin G old new size = Ok c -> descends (widen_min_rank size) (min old) c.
Proof.
  intros [HU HC]. unfold WidenMin. rewrite ConstantMin_value. pose proof (size_limits size) as SL.
  assert (HMin : forall s o, descends (widen_min_rank size) (Symbol s o) (MinConstant size)).
  { intros s o. right. exists (size_min size). split; [done|]. split; [unfold in_size; lia|]. simpl. rewrite Z.leb_refl. lia. }
  assert (Num : (m ← LowerBound_size G (min old) size; n ← ConstantMin G (Some new) size; n ← ConstantValue n;
      Ok (if m <=? n then Constant m else MinConstant size)) = Ok c -> descends (widen_min_rank size) (min old) c).
  { unfold LowerBound_size. destruct (LowerBound G (min old)) as [lb| |] eqn:EL; [|done..]. rewrite Ok_bind.
    destruct (ConstantValue (Clamp lb size)) as [m| |] eqn:EM; [|done..]. rewrite Ok_bind.
    destruct (ConstantMin G (Some new) size) as [nb| |]; [|done..]. rewrite Ok_bind.
    destruct (ConstantValue nb) as [n| |]; [|done..]. rewrite Ok_bind. intros [= <-]. pose proof (Clamp_value _ _ EM) as Hm.
    destruct (min old) as [| | |s o|k]; try discriminate; [destruct (m <=? n); [|apply HMin]|].
    - right. exists m. split; [done|]. split; [done|]. simpl. destruct (m <=? size_min size); lia.
    - rewrite LowerBound_constant in EL. injection EL as <-. rewrite HC in EM. injection EM as <-.
      destruct (k <=? n); [by left|]. destruct (Z.leb_spec k (size_min size)) as [L|L].
      + left. unfold in_size in Hm. unfold MinConstant, FromConstant. f_equal. lia.
      + right. exists (size_min size). split; [done|]. split; [unfold in_size; lia|]. simpl. rewrite Z.leb_refl.
        destruct (Z.leb_spec k (size_min size)); lia. }
  destruct (min old) as [| | |s o|k] eqn:E; cbn [IsSymbol]; try exact Num.
  destruct (LowerBound G (Symbol s o)) as [lb| |]; [|done..]. rewrite Ok_bind.
  destruct (Overflowed G lb size) as [ov| |]; [|done..]. rewrite Ok_bind. destruct ov; [intros [= <-]; apply HMin|].
  destruct (DependOnSameSymbol G (Symbol s o) (min new)) as [t| |]; [|done..]. rewrite Ok_bind. destruct t.
  - intros [= <-]. destruct (_ <=? _); [by left|apply HMin].
  - destruct (UpperBound_size G (Symbol s o) size) as [u| |]; [|done..]. rewrite Ok_bind.
    destruct (LowerBound_size G (min new) size) as [l| |]; [|done..]. rewrite Ok_bind.
    destruct (u <=? l); [intros [= <-]; by left|exact Num].
Qed.
Lemma WidenMax_descends G old new c :
  clamped (max old) -> WidenMax G old new size = Ok c -> descends (widen_max_rank size) (max old) c.
Proof.
  intros [HU HC]. unfold WidenMax. rewrite ConstantMax_value. pose proof (size_limits size) as SL.
  assert (HMax : forall s o, descends (widen_max_rank size) (Symbol s o) (MaxConstant size)).
  { intros s o. right. exists (size_max size). split; [done|]. split; [unfold in_size; lia|]. simpl. rewrite Z.leb_refl. lia. }
  assert (Num : (m ← UpperBound_size G (max old) size; n ← ConstantMax G (Some new) size; n ← ConstantValue n;
      Ok (if n <=? m then Constant m else MaxConstant size)) = Ok c -> descends (widen_max_rank size) (max old) c).
  { unfold UpperBound_size. destruct (UpperBound G (max old)) as [lb| |] eqn:EL; [|done..]. rewrite Ok_bind.
    destruct (ConstantValue (Clamp lb size)) as [m| |] eqn:EM; [|done..]. rewrite Ok_bind.
    destruct (ConstantMax G (Some new) size) as [nb| |]; [|done..]. rewrite Ok_bind.
    destruct (ConstantValue nb) as [n| |]; [|done..]. rewrite Ok_bind. intros [= <-]. pose proof (Clamp_value _ _ EM) as Hm.
    destruct (max old) as [| | |s o|k]; try discriminate; [destruct (n <=? m); [|apply HMax]|].
    - right. exists m. split; [done|]. split; [done|]. simpl. destruct (size_max size <=? m); lia.
    - rewrite UpperBound_constant in EL. injection EL as <-. rewrite HC in EM. injection EM as <-.
      destruct (n <=? k); [by left|]. destruct (Z.leb_spec (size_max size) k) as [L|L].
      + left. unfold in_size in Hm. unfold MaxConstant, FromConstant. f_equal. lia.
      + right. exists (size_max size). split; [done|]. split; [unfold in_size; lia|]. simpl. rewrite Z.leb_refl.
        destruct (Z.leb_spec (size_max size) k); lia. }
  destruct (max old) as [| | |s o|k] eqn:E; cbn [IsSymbol]; try exact Num.
  destruct (UpperBound G (Symbol s o)) as [lb| |]; [|done..]. rewrite Ok_bind.
  destruct (Overflowed G lb size) as [ov| |]; [|done..]. rewrite Ok_bind. destruct ov; [intros [= <-]; apply HMax|].
  destruct (DependOnSameSymbol G (Symbol s o) (max new)) as [t| |]; [|done..]. rewrite Ok_bind. destruct t.
  - intros [= <-]. destruct (_ <=? _); [by left|apply HMax].
  - destruct (LowerBound_size G (Symbol s o) size) as [u| |]; [|done..]. rewrite Ok_bind.
    destruct (UpperBound_size G (max new) size) as [l| |]; [|done..]. rewrite Ok_bind.
    destruct (l <=? u); [intros [= <-]; by left|exact Num].
Qed.

Lemma descends_clamped rank b c : descends rank b c -> clamped b -> clamped c.
Proof. intros [->|(m & -> & Hm & _)]; [done|]. intros _. by apply in_size_clamped. Qed.

Lemma clamped_finite b : clamped b -> IsInfinity b = false.
Proof. intros [HU HC]. destruct b; try done; by injection HC. Qed.

Lemma clamped_range_new lo hi : clamped lo -> clamped hi -> Range_new lo hi = Ok (mkRange lo hi).
Proof.
  intros H1 H2. unfold Range_new. rewrite (proj1 H1), (proj1 H2). cbn [Bool.eqb utils_assert]. rewrite Ok_bind.
  by rewrite (clamped_finite _ H1), (clamped_finite _ H2).
Qed.

(** How often the range can still change. *)
Definition widen_rank (r : Range) : nat := (widen_min_rank size (min r) + widen_max_rank size (max r))%nat.

Lemma descends_le rank b c : descends rank b c -> (rank c <= rank b)%nat /\ (c <> b -> (rank c < rank b)%nat).
Proof. intros [->|(m & _ & _ & HL)]; [done|]. split; lia. Qed.

Lemma widen_step G r new r' :
  clamped (min r) -> clamped (max r) -> widen G r new = Ok r' ->
  clamped (min r') /\ clamped (max r') /\ (widen_rank r' <= widen_rank r)%nat /\
  (~ (min r' = min r /\ max r' = max r) -> (widen_rank r' < widen_rank r)%nat).
Proof.
  intros H1 H2. unfold widen. destruct (WidenMin G r new size) as [lo| |] eqn:E1; [|done..]. rewrite Ok_bind.
  destruct (WidenMax G r new size) as [hi| |] eqn:E2; [|done..]. rewrite Ok_bind.
  apply WidenMin_descends in E1; [|done]. apply WidenMax_descends in E2; [|done].
  pose proof (descends_clamped _ _ _ E1 H1) as C1. pose proof (descends_clamped _ _ _ E2 H2) as C2.
  rewrite clamped_range_new by done. intros [= <-]. apply descends_le in E1 as [L1 S1], E2 as [L2 S2].
  split; [done|]. split; [done|]. unfold widen_rank. simpl. split; [lia|]. intros HN.
  destruct (decide (lo = min r)) as [->|N1]; [|specialize (S1 N1); lia].
  destruct (decide (hi = max r)) as [->|N2]; [by destruct HN|specialize (S2 N2); lia].
Qed.

Lemma widen_all_rank steps r r' n :
  clamped (min r) -> clamped (max r) -> widen_all r steps = Ok (r', n) -> (n + widen_rank r' <= widen_rank r)%nat.
Proof.
  revert r n. induction steps as [|[G new] steps IH]; intros r n H1 H2; cbn [widen_all]; [by intros [= <- <-]|].
  destruct (widen G r new) as [r1| |] eqn:E; [|done..]. rewrite Ok_bind.
  destruct (widen_step G r new r1 H1 H2 E) as (C1 & C2 & HL & HS).
  destruct (widen_all r1 steps) as [[r2 n2]| |] eqn:E2; [|done..]. rewrite Ok_bind. intros [= <- <-].
  specialize (IH r1 n2 C1 C2 E2). case_bool_decide as EB; [lia|]. specialize (HS EB). lia.
Qed.

(** The bounds of the range are those of a phi of the size in the execution [rho]. *)
Record phi_range (G : FlowGraph) (rho : nat -> Z) (r : Range) : Prop := {
  pr_min : bound_ok G rho (min r);
  pr_max : bound_ok G rho (max r);
  pr_low : bval rho (min r) <= size_max size;
  pr_high : size_min size <= bval rho (max r);
  pr_clamped : clamped (min r) /\ clamped (max r);
}.

(** The values between the bounds. *)
Definition admits (rho : nat -> Z) (r : Range) (x : Z) : Prop := bval rho (min r) <= x <= bval rho (max r).

Definition step_ok (rho : nat -> Z) (r : Range) (step : FlowGraph * Range) : Prop :=
  (exists rank, acyclic step.1 rank) /\ graph_ok step.1 rho /\ phi_range step.1 rho r /\
  bound_ok step.1 rho (min step.2) /\ bound_ok step.1 rho (max step.2).

Lemma widen_sound rho G r new :
  step_ok rho r (G, new) ->
  exists r', widen G r new = Ok r' /\ phi_range G rho r' /\
    (min r' = min r \/ exists m, min r' = Constant m /\ in_size size m) /\
    (max r' = max r \/ exists m, max r' = Constant m /\ in_size size m) /\
    forall x, in_size size x -> admits rho r x \/ admits rho new x -> admits rho r' x.
Proof.
  intros ([rank HA] & HG & [B1 B2 L1 L2 [C1 C2]] & N1 & N2). simpl in *. unfold widen.
  destruct (WidenMin_spec G rho rank r new size HG HA B1 N1 L1 (proj2 C1)) as (lo & E1 & K1 & V1 & _).
  destruct (WidenMax_spec G rho rank r new size HG HA B2 N2 L2 (proj2 C2)) as (hi & E2 & K2 & V2 & _).
  pose proof (WidenMin_descends G r new lo C1 E1) as D1. pose proof (WidenMax_descends G r new hi C2 E2) as D2.
  rewrite E1, E2, !Ok_bind, clamped_range_new by (by eapply descends_clamped). eexists. split; [done|].
  split; [|split; [|split]]; simpl.
  - split; simpl; [done|done| | |by split; eapply descends_clamped].
    + destruct D1 as [->|(m & -> & [? ?] & _)]; [done|]. simpl. lia.
    + destruct D2 as [->|(m & -> & [? ?] & _)]; [done|]. simpl. lia.
  - destruct D1 as [->|(m & -> & Hm & _)]; eauto.
  - destruct D2 as [->|(m & -> & Hm & _)]; eauto.
  - intros x [X1 X2] HX. unfold admits in *. simpl. split; [apply V1; [done|]|apply V2; [done|]]; lia.
Qed.

Lemma step_ok_next rho r r' step :
  step_ok rho r step -> phi_range step.1 rho r -> 
  (min r' = min r \/ exists m, min r' = Constant m /\ in_size size m) ->
  (max r' = max r \/ exists m, max r' = Constant m /\ in_size size m) -> step_ok rho r' step.
Proof.
  intros (HA & HG & _ & HN) [B1 B2 L1 L2 [C1 C2]] H1 H2. split; [done|]. split; [done|]. split; [|done].
  split; [destruct H1 as [->|(m & -> & Hm)]|destruct H2 as [->|(m & -> & Hm)]|destruct H1 as [->|(m & -> & Hm)]
    |destruct H2 as [->|(m & -> & Hm)]|split; [destruct H1 as [->|(m & -> & Hm)]|destruct H2 as [->|(m & -> & Hm)]]];
    try done; try (by eapply in_size_s64); try (by apply in_size_clamped); unfold in_size in Hm; simpl; lia.
Qed.

Lemma widen_all_sound rho steps : forall r,
  Forall (step_ok rho r) steps ->
  exists r' n, widen_all r steps = Ok (r', n) /\
    forall x, in_size size x -> admits rho r x \/ Exists (fun step => admits rho step.2 x) steps -> admits rho r' x.
Proof.
  induction steps as [|[G new] steps IH]; intros r HF; cbn [widen_all].
  - exists r, 0%nat. split; [done|]. intros x _ [?|HE]; [done|by apply Exists_nil in HE].
  - apply Forall_cons in HF as [HS HF]. destruct (widen_sound rho G r new HS) as (r1 & E1 & HP & M1 & M2 & HV).
    rewrite E1, Ok_bind. destruct (IH r1) as (r2 & n & E2 & HV2).
    { eapply Forall_impl; [exact HF|]. intros step Hst. apply (step_ok_next rho r); try done. apply Hst. }
    rewrite E2, Ok_bind. do 2 eexists. split; [done|]. intros x HX HO. apply HV2; [done|].
    destruct HO as [?|[?|?]%Exists_cons]; [left; apply HV; auto|left; apply HV; auto|by right].
Qed.

(** C27: in any sequence of widenings of the range of a phi, with whatever ranges are inferred for
    it in between and whatever becomes of the rest of the graph, the range changes at most four
    times: each bound first becomes a constant and then the limit of the size.  The bounds of the
    first range are required to be known and constants to be within the size ([clamped]); those
    after it are so by themselves.  Moreover, in an execution that agrees with the ranges of the
    graphs, in which the definitions of the symbols are acyclic, the bounds of the inferred ranges
    are well-formed, and the first range neither begins above the size nor ends below it
    ([step_ok]), every widening succeeds, and the final range admits every value of the size that
    the first range or one of the inferred ranges admits. *)
Theorem widening_terminates rho r steps :
  clamped (min r) -> clamped (max r) ->
  (forall r' n, widen_all r steps = Ok (r', n) -> (n <= 4)%nat) /\
  (Forall (step_ok rho r) steps ->
   exists r' n, widen_all r steps = Ok (r', n) /\
     forall x, in_size size x -> admits rho r x \/ Exists (fun step => admits rho step.2 x) steps -> admits rho r' x).
Proof.
  intros H1 H2. split; [|apply widen_all_sound]. intros r' n E. pose proof (widen_all_rank steps r r' n H1 H2 E) as HL.
  assert (widen_rank r <= 4)%nat; [|lia]. unfold widen_rank, widen_min_rank, widen_max_rank.
  destruct (min r), (max r); repeat case_match; lia.
Qed.
End widening.

(** ** Instances *)

#[local] Existing Instance Smi62.

Lemma InferRange_sound_witness :
  exists r overflow cached, InferRange example_graph 5 = Ok (r, overflow, cached) /\
    in_range example_graph example_rho r 6.
Proof.
  apply (InferRange_sound example_graph example_rho example_rank 5
    (example_defn (Phi [3; 4]%nat) None false 1)).
  - apply example_graph_ok.
  - apply example_acyclic.
  - reflexivity.
  - repeat constructor; by do 2 eexists.
  - split; [done|]. split; [repeat constructor|]. right. left. done.
Defined.

(** The value computed for the phi: its upper bound is the length of the array. *)
Example phi_range_example :
  InferRange example_graph 5 = Ok (mkRange (Constant 1) (Symbol 0 0), true, None).
Proof. reflexivity. Qed.

Lemma can_overflow_sound_witness :
  exists size, RepresentationToRangeSize kTagged = Ok size /\ in_size size 6 /\
    in_range example_graph example_rho (mkRange (Constant 1) (Symbol 0 0)) 6.
Proof.
  apply (can_overflow_sound example_graph example_rho example_rank
    (example_defn (BinarySmiOp kADD 2 3) None false 0) kADD 2 3
    (mkRange (Constant 0) (Symbol 0 (-1))) (mkRange (Constant 1) (Constant 1)) Range_unknown);
    try reflexivity.
  - apply example_graph_ok.
  - apply example_acyclic.
  - by eexists.
  - by apply (example_in_range 2 (example_defn (Constraint 1 (mkRange (Constant 0) (Symbol 0 (-1))))
      (Some (mkRange (Constant 0) (Symbol 0 (-1)))) false 0)).
  - by apply (example_in_range 3 (example_defn (ConstantInteger 1)
      (Some (mkRange (Constant 1) (Constant 1))) false 0)).
  - done.
  - done.
Defined.

Lemma branch_constraints_sound_witness :
  exists op r r', ConstraintSmiRange example_graph kLT 0 = Ok r /\
    in_range example_graph example_rho r 5 /\ FlipComparison kLT = Some op /\
    ConstraintSmiRange example_graph op 1 = Ok r' /\ in_range example_graph example_rho r' 10.
Proof.
  apply (branch_constraints_sound example_graph example_rho kLT 1 0 true kLT); try reflexivity.
  - apply example_graph_ok.
  - by eexists.
  - by eexists.
Defined.

Lemma widening_terminates_witness :
  exists r n, widen_all kRangeBoundarySmi (mkRange (Constant 0) (Symbol 0 0))
      [(example_graph, mkRange (Constant (-3)) (Constant 5)); (example_graph, mkRange (Constant (-4)) (Constant 12))] = Ok (r, n) /\
    (n <= 4)%nat /\ admits example_rho r (-4) /\ admits example_rho r 12.
Proof.
  assert (HC : clamped kRangeBoundarySmi (Constant 0)) by (split; reflexivity).
  assert (HS : clamped kRangeBoundarySmi (Symbol 0 0)) by (split; reflexivity).
  destruct (widening_terminates kRangeBoundarySmi example_rho (mkRange (Constant 0) (Symbol 0 0))
    [(example_graph, mkRange (Constant (-3)) (Constant 5)); (example_graph, mkRange (Constant (-4)) (Constant 12))] HC HS) as [HN HV].
  destruct HV as (r & n & E & HV).
  - assert (HP : phi_range kRangeBoundarySmi example_graph example_rho (mkRange (Constant 0) (Symbol 0 0))).
    { split; [done|split; [by eexists|done]|vm_compute; discriminate|vm_compute; discriminate|exact (conj HC HS)]. }
    repeat (constructor; [split; [exists example_rank; apply example_acyclic|split; [apply example_graph_ok|split; [exact HP|split; done]]]|]).
    constructor.
  - exists r, n. split; [exact E|]. split; [exact (HN r n E)|].
    split; apply HV; try (split; vm_compute; discriminate); right.
    + right. left. split; vm_compute; discriminate.
    + right. left. split; vm_compute; discriminate.
Defined.
