(* ===== verification/RangeRedundant.v ===== *)
(** Elimination of bounds checks: [IsRedundantBasedOnRangeInformation] answers, and when it
    says that a check is redundant the check cannot fail. *)
From stdpp Require Import base numbers list gmap.
From Stdlib Require Import ZArith Lia.
From S2P Require Import Prelude Utils IntegerOps Range RangeSound RangeExample RangeOps.
From S2P Require Import RangeInfer RangeSymbols RangeJoin.
Local Open Scope Z_scope.
Local Open Scope cxx_scope.

(** ** Giving a definition a range *)

Section set_range.
Context {smi : SmiTarget} (G : FlowGraph) (rho : nat -> Z) (rank : nat -> nat).
Context (d : nat) (r : Range).

(** A definition of the new graph is one of the old graph, but for the range of [d]. *)
Lemma set_range_inv i def' :
  defns (set_range G d r) !! i = Some def' ->
  exists def, defns G !! i = Some def /\ kind def' = kind def /\
    is_array_length def' = is_array_length def /\ AllowsCSE def' = AllowsCSE def /\
    (range def' = range def \/ i = d /\ range def' = Some r).
Proof.
  unfold set_range, update_defn. simpl. destruct (decide (d = i)) as [->|N].
  - rewrite lookup_alter_eq. destruct (defns G !! i) as [def|]; [|done].
    intros [= <-]. exists def. auto 10.
  - rewrite lookup_alter_ne by done. intros ->. exists def'. auto 10.
Qed.

Lemma set_range_defined i : is_Some (defns (set_range G d r) !! i) <-> is_Some (defns G !! i).
Proof.
  unfold set_range, update_defn. simpl. destruct (decide (d = i)) as [->|N].
  - rewrite lookup_alter_eq. destruct (defns G !! i); simpl; by split.
  - by rewrite lookup_alter_ne.
Qed.

Lemma set_range_bound_ok b : bound_ok (set_range G d r) rho b <-> bound_ok G rho b.
Proof. destruct b; simpl; try done. by rewrite set_range_defined. Qed.

Lemma set_range_in_range r' x : in_range (set_range G d r) rho r' x <-> in_range G rho r' x.
Proof. by split; intros [H1 H2 ? ?]; constructor; try apply set_range_bound_ok. Qed.

Lemma set_range_depth : depth (set_range G d r) = depth G.
Proof.
  unfold depth, set_range, update_defn. simpl. rewrite <- !size_dom.
  f_equal. apply dom_alter_L.
Qed.

Lemma set_range_operand i : smi_operand G rho i -> smi_operand (set_range G d r) rho i.
Proof.
  intros (def & Hi & HK & HS). destruct (proj2 (set_range_defined i) (ex_intro _ _ Hi)) as [def' Hd'].
  exists def'. destruct (set_range_inv i def' Hd') as (def2 & Hi2 & EK & _).
  split; [done|]. split; [congruence|done].
Qed.

Lemma set_range_graph_ok :
  graph_ok G rho -> in_range G rho r (rho d) -> graph_ok (set_range G d r) rho.
Proof.
  intros [H1 H2 H3 H4 H5 H6 H7] HR. constructor.
  - intros i def r' (def0 & Hi & _ & _ & _ & [E|[-> E]])%set_range_inv Er; apply set_range_in_range;
      rewrite E in Er; [eauto|by injection Er as <-].
  - intros i def v (def0 & Hi & -> & _)%set_range_inv. eauto.
  - intros i def v c (def0 & Hi & -> & _)%set_range_inv. rewrite set_range_defined. eauto.
  - intros i def v (def0 & Hi & -> & _)%set_range_inv. rewrite set_range_defined. eauto.
  - intros i def op x y (def0 & Hi & -> & _)%set_range_inv E.
    destruct (H5 _ _ _ _ _ Hi E) as (? & ? & ?). auto using set_range_operand.
  - intros i def (def0 & Hi & _ & -> & _)%set_range_inv. eauto.
  - intros a b da db (da0 & Ha & _ & _ & -> & _)%set_range_inv (db0 & Hb & _ & _ & -> & _)%set_range_inv.
    eauto.
Qed.

Lemma set_range_acyclic :
  acyclic G rank -> (forall s o, min r = Symbol s o \/ max r = Symbol s o -> (rank s < rank d)%nat) ->
  acyclic (set_range G d r) rank.
Proof.
  intros [H1 H2 H3 H4 H5] HR. constructor.
  - intros i def (def0 & Hi & _)%set_range_inv. rewrite set_range_depth. eauto.
  - intros i def v c (def0 & Hi & -> & _)%set_range_inv. eauto.
  - intros i def v (def0 & Hi & -> & _)%set_range_inv. eauto.
  - intros i def op x y (def0 & Hi & -> & _)%set_range_inv. eauto.
  - intros i def r' s o (def0 & Hi & _ & _ & _ & [E|[-> E]])%set_range_inv Er; rewrite E in Er;
      [eauto|]. injection Er as <-. apply HR.
Qed.
End set_range.

(** ** The comparison *)

Section redundant.
Context {smi : SmiTarget} (G : FlowGraph) (rho : nat -> Z) (rank : nat -> nat).
Context (HG : graph_ok G rho) (HA : acyclic G rank).

Lemma original_definition_spec fuel d :
  is_Some (defns G !! d) -> (rank d <= fuel)%nat ->
  exists e, original_definition fuel G d = Ok e /\ is_Some (defns G !! e) /\ rho e = rho d.
Proof.
  revert d. induction fuel as [|fuel IH]; intros d [def Hd] Hr;
    cbn [original_definition]; unfold defn_at; rewrite Hd, Ok_bind.
  all: destruct (kind def) as [| | | | | | | | | | | | |v|] eqn:E;
    try (exists d; repeat split; by eauto).
  - pose proof (rk_assert _ _ HA _ _ _ Hd E). lia.
  - pose proof (rk_assert _ _ HA _ _ _ Hd E).
    destruct (gk_assert _ _ HG _ _ _ Hd E) as [Hv ->]. apply IH; [done|lia].
Qed.

Lemma smi_constant_spec d :
  is_Some (defns G !! d) ->
  exists c, smi_constant G d = Ok c /\ forall v, c = Some v -> rho d = v.
Proof.
  intros [def Hd]. pose proof (rk_depth _ _ HA _ _ Hd). unfold smi_constant.
  destruct (original_definition_spec (depth G) d (ex_intro _ _ Hd) ltac:(lia))
    as (e & -> & [ed He] & Ee). rewrite Ok_bind. unfold defn_at. rewrite He, Ok_bind.
  eexists. split; [done|]. intros v. destruct (kind ed) eqn:E; try done.
  destruct (IsSmi value); [|done]. intros [= <-]. rewrite <- Ee.
  by apply (gk_constant _ _ HG _ _ _ He E).
Qed.

Lemma brank_depth b : wf_bound G rho b -> (brank rank b <= S (depth G))%nat.
Proof.
  destruct b as [| | |s o|]; simpl; try lia. intros ([def Hd] & _).
  pose proof (rk_depth _ _ HA _ _ Hd). lia.
Qed.

Lemma symbolic_check_spec fuel max len x y :
  hi_ok G rho max x -> lo_ok G rho len y -> (brank rank max + brank rank len <= fuel)%nat ->
  exists t, symbolic_check fuel G max len = Ok t /\ (t = true -> x < y).
Proof.
  revert max len. induction fuel as [|fuel IH]; intros max len HM HL HF; cbn [symbolic_check].
  all: destruct (DependOnSameSymbol_spec G rho rank HG HA max len) as (t & -> & Ht);
    [by eapply hi_ok_wf|by eapply lo_ok_wf|]; rewrite Ok_bind; destruct t;
    [destruct (Ht eq_refl) as (Om & Ol & E); eexists; split; [done|]; intros ?%Z.ltb_lt;
     pose proof (hi_finite _ _ _ _ HM Om); pose proof (lo_finite _ _ _ _ HL Ol); lia|].
  all: destruct (CanonicalizeMaxBoundary_spec G rho rank HG HA max x HM) as (m & -> & Hm);
    rewrite Ok_bind; destruct m as [m|].
  all: try (destruct (Hm m eq_refl) as [HM' RM]; try lia; apply IH; (done || lia)).
  all: destruct (CanonicalizeMinBoundary_spec G rho rank HG HA len y HL) as (l & -> & Hl);
    rewrite Ok_bind; destruct l as [l|]; try (by exists false).
  all: destruct (Hl l eq_refl) as [HL' RL]; try lia. apply IH; (done || lia).
Qed.

Lemma check_ranges_spec index length ir :
  is_Some (defns G !! index) -> is_Some (defns G !! length) ->
  IsSmi (rho index) = true -> IsSmi (rho length) = true -> in_range G rho ir (rho index) ->
  exists t, check_ranges G index length ir = Ok t /\ (t = true -> 0 <= rho index < rho length).
Proof.
  intros Hi Hl Si Sl [Rm RM Rl Rh]. unfold check_ranges, ConstantMin, constant_min.
  destruct (LowerBound_spec G rho rank HG HA _ Rm) as (lb & -> & Hlb). rewrite Ok_bind.
  destruct (clamp_lower lb (rho index) kRangeBoundarySmi) as (c & -> & _ & Hc).
  { by eapply lower_of_le. } { apply IsSmi_spec in Si. simpl. lia. }
  rewrite Ok_bind. cbn [ConstantValue]. rewrite Ok_bind.
  destruct (Z.ltb_spec c 0) as [|H0]; [by exists false|].
  destruct (FromDefinition_ok G rho HG index 0 Hi Si (valid_zero)) as (mx & -> & Om & Vm).
  rewrite Ok_bind. destruct (UpperBound_spec G rho rank HG HA mx Om) as (ub & -> & Hub). rewrite Ok_bind.
  destruct (FromDefinition_ok G rho HG length 0 Hl Sl (valid_zero)) as (ln & -> & Ol & Vl).
  rewrite Ok_bind. destruct (LowerBound_spec G rho rank HG HA ln Ol) as (ll & -> & Hll). rewrite Ok_bind.
  destruct (OverflowedSmi ub || OverflowedSmi ll) eqn:EO; [by exists false|].
  apply orb_false_iff in EO as [EO1 EO2].
  destruct Hub as [->|(cu & -> & _ & Hcu)]; [done|]. destruct Hll as [->|(cl & -> & _ & Hcl)]; [done|].
  cbn [ConstantValue]. rewrite !Ok_bind.
  destruct (Z.ltb_spec cu cl) as [|_]; [exists true; split; [done|]; lia|].
  destruct (CanonicalizeBoundary_spec G rho rank HG HA ln PositiveInfinity Ol) as (cb & -> & Hcb).
  rewrite Ok_bind. destruct (OverflowedSmi cb) eqn:EO; [by exists false|].
  destruct Hcb as [->|(Oc & Vc & _)]; [done|].
  destruct (symbolic_check_spec (2 * depth G + 2) mx cb (rho index) (rho length)) as (t & -> & Ht).
  - right. split; [done|lia].
  - right. split; [done|lia].
  - pose proof (brank_depth mx ltac:(by destruct mx)). pose proof (brank_depth cb ltac:(by destruct cb)).
    lia.
  - exists t. split; [done|]. intros ->. specialize (Ht eq_refl). lia.
Qed.

(** A constant index without a range gets a sound one whose symbols, if any, have lower
    rank. *)
Lemma constant_index_range index def v :
  defns G !! index = Some def -> range def = None -> IsSmi (rho index) = true ->
  smi_constant G index = Ok (Some v) ->
  exists r o c, InferRange G index = Ok (r, o, c) /\ in_range G rho r (rho index) /\
    forall s off, min r = Symbol s off \/ max r = Symbol s off -> (rank s < rank index)%nat.
Proof.
  intros Hd Hr HS HC. pose proof (smi_s64 _ HS) as Hs64.
  assert (HK : (exists v, kind def = ConstantInteger v) \/ (exists v, kind def = AssertAssignable v)).
  { unfold smi_constant in HC. apply bind_ok in HC as (o & Eo & HC).
    apply bind_ok in HC as (od & Eod & HC). destruct (depth G) as [|n] in Eo; cbn in Eo;
      unfold defn_at in Eo; rewrite Hd, Ok_bind in Eo; destruct (kind def) eqn:E; eauto;
      injection Eo as <-; unfold defn_at in Eod; rewrite Hd in Eod; injection Eod as <-;
      by rewrite E in HC. }
  unfold InferRange, defn_at. rewrite Hd, Ok_bind. cbv zeta. destruct HK as [[w E]|[w E]]; rewrite E.
  - do 3 eexists. split; [done|]. pose proof (gk_constant _ _ HG _ _ _ Hd E) as <-.
    split; [by constructor; simpl|]. by intros s off [?|?].
  - destruct (gk_assert _ _ HG _ _ _ Hd E) as [[wd Hw] Ew]. rewrite Hw, Ok_bind.
    destruct (range wd) as [r|] eqn:Er; cbn [Range_IsUnknown].
    + pose proof (gk_range _ _ HG _ _ _ Hw Er) as HR. rewrite (in_range_known _ _ _ _ HR).
      do 3 eexists. split; [done|]. rewrite Ew. split; [done|]. intros s off HO.
      pose proof (rk_range _ _ HA _ _ _ s off Hw Er HO). pose proof (rk_assert _ _ HA _ _ _ Hd E). lia.
    + do 3 eexists. split; [done|]. split; [by apply Int64Range_ok|]. by intros s off [?|?].
Qed.
End redundant.

(** ** Soundness *)

(** C1: the test for a redundant bounds check always terminates with an answer, and when the
    answer is that the check is redundant then the index is within bounds in every execution
    that agrees with the graph.  The graph it leaves behind, in which a constant index may
    have received a range, is again sound and acyclic. *)
Theorem redundant_check_sound {smi : SmiTarget} G rho rank index length :
  graph_ok G rho -> acyclic G rank ->
  is_Some (defns G !! index) -> is_Some (defns G !! length) ->
  IsSmi (rho index) = true -> IsSmi (rho length) = true ->
  exists G' redundant,
    IsRedundantBasedOnRangeInformation G index length = Ok (G', redundant) /\
    graph_ok G' rho /\ acyclic G' rank /\
    (redundant = true -> 0 <= rho index < rho length).
Proof.
  intros HG HA [di Hi] Hl Si Sl. unfold IsRedundantBasedOnRangeInformation.
  destruct (smi_constant_spec G rho rank HG HA index (ex_intro _ _ Hi)) as (ci & Eci & Hci).
  destruct (smi_constant_spec G rho rank HG HA length Hl) as (cl & Ecl & Hcl).
  rewrite Eci, Ecl, !Ok_bind.
  assert (Main : exists G' redundant,
    (def ← defn_at G index;
     match range def with
     | Some index_range => b ← check_ranges G index length index_range; Ok (G, b)
     | None =>
         match ci with
         | None => Ok (G, false)
         | Some _ =>
             '(r, _, _) ← InferRange G index;
             _ ← utils_assert (negb (IsUnknown (min r)));
             let G := set_range G index r in
             b ← check_ranges G index length r; Ok (G, b)
         end
     end) = Ok (G', redundant) /\ graph_ok G' rho /\ acyclic G' rank /\
    (redundant = true -> 0 <= rho index < rho length)).
  { unfold defn_at. rewrite Hi, Ok_bind. destruct (range di) as [ir|] eqn:Er.
    - destruct (check_ranges_spec G rho rank HG HA index length ir) as (t & -> & Ht);
        [by eauto|done..|by apply (gk_range _ _ HG _ _ _ Hi Er)|].
      rewrite Ok_bind. by exists G, t.
    - destruct ci as [v|]; [|by exists G, false].
      destruct (constant_index_range G rho rank HG HA index di v Hi Er Si Eci)
        as (r & o & c & -> & HR & HS). rewrite Ok_bind, (in_range_known _ _ _ _ HR).
      cbn [negb utils_assert]. rewrite Ok_bind. cbv zeta.
      pose proof (set_range_graph_ok G rho index r HG HR) as HG'.
      pose proof (set_range_acyclic G rank index r HA HS) as HA'.
      destruct (check_ranges_spec (set_range G index r) rho rank HG' HA' index length r)
        as (t & -> & Ht);
        [apply set_range_defined; by eauto|by apply set_range_defined|done..
        |by apply set_range_in_range|].
      rewrite Ok_bind. by exists (set_range G index r), t. }
  destruct ci as [vi|]; [|exact Main]. destruct cl as [vl|]; [|exact Main].
  do 2 eexists. split; [done|]. split; [done|]. split; [done|].
  rewrite (Hci vi eq_refl), (Hcl vl eq_refl). intros E%andb_true_iff. lia.
Qed.

#[local] Existing Instance Smi62.

Lemma redundant_check_sound_witness :
  exists G' redundant,
    IsRedundantBasedOnRangeInformation example_graph 2 0 = Ok (G', redundant) /\
    graph_ok G' example_rho /\ acyclic G' example_rank /\ (redundant = true -> 0 <= 5 < 10).
Proof.
  apply (redundant_check_sound example_graph example_rho example_rank 2 0).
  - apply example_graph_ok.
  - apply example_acyclic.
  - by eexists.
  - by eexists.
  - reflexivity.
  - reflexivity.
Defined.

(** On this graph the check is found redundant, although neither operand is a constant. *)
Example redundant_example :
  IsRedundantBasedOnRangeInformation example_graph 2 0 = Ok (example_graph, true).
Proof. vm_compute. reflexivity. Qed.
