(* ===== verification/RangeCounterexamples.v ===== *)
(** Executions that the ranges of [range_analysis.cc] miss: each is a concrete graph on which
    the code, evaluated, infers a range that excludes a value the program computes. *)
From stdpp Require Import base numbers list gmap.
From Stdlib Require Import ZArith Lia.
From S2P Require Import Prelude Utils IntegerOps Range RangeSound RangeExample RangeInfer.
Local Open Scope Z_scope.
Local Open Scope cxx_scope.

#[local] Existing Instance Smi62.

(** ** Joining a range that is empty on the path not taken

    [int f(int x, int t) {
       int s = t & 127;
       int v = 20;
       if (x > s && x <= 10) v = x;
       return new List.filled(v, 0)[s]; }]

    [Join] extends the range [[s+1, 10]] of the first input of the phi by the constant 20 and
    keeps the lower bound [s+1], which holds only on the path where [x > s]. *)
Definition smi_defn (k : DefnKind) (block : nat) : Defn := example_defn k None false block.

Definition join_defns : list Defn := [
  smi_defn OtherDefinition 0;                                        (* x *)
  smi_defn OtherDefinition 0;                                        (* t *)
  smi_defn (ConstantInteger 127) 0;
  smi_defn (BinarySmiOp kBIT_AND 1 2) 0;                             (* s *)
  smi_defn (ConstantInteger 20) 0;
  smi_defn (Constraint 0 (mkRange (Symbol 3 1) MaxSmi)) 1;           (* x > s *)
  smi_defn (Constraint 5 (mkRange MinSmi (Constant 10))) 1;          (* x <= 10 *)
  smi_defn (Phi [6; 4]%nat) 2 ].                                     (* v *)

(** Block 0 dominates the others. *)
Definition join_graph : FlowGraph :=
  mkGraph (map_seq 0 join_defns) (fun _ _ => false)
    (fun a b => (a =? 0)%nat || (a =? b)%nat).

(** An execution with [x = 50] and [t = 100]: the phi takes its second input. *)
Definition join_rho : nat -> Z := values [50; 100; 127; 100; 20; 0; 0; 20].

(** On this graph the iterations of the analysis give the phi the range [[s+1, 20]] and conclude that the
    bounds check of [s] against the length [v] is redundant.  In the execution with
    [t = 100], in which the comparison [x > s] fails, [v] is 20 and lies outside its range,
    and the index 100 is not below the length. *)
Example join_misses_value :
  exists G def r,
    Iterate 10 join_graph NONE (seq 0 8) = Ok G /\
    defns G !! 7%nat = Some def /\ range def = Some r /\
    integer_op kBIT_AND (join_rho 1) (join_rho 2) = Ok (join_rho 3) /\
    ~ join_rho 3 < join_rho 0 /\ join_rho 7 = join_rho 4 /\
    ~ in_range G join_rho r (join_rho 7) /\
    IsRedundantBasedOnRangeInformation G 3 7 = Ok (G, true) /\
    ~ join_rho 3 < join_rho 7.
Proof.
  do 3 eexists. split; [vm_compute; reflexivity|]. split; [reflexivity|].
  split; [reflexivity|]. split; [reflexivity|]. split; [by vm_compute|].
  split; [reflexivity|]. split; [by intros [_ _ H _]; vm_compute in H|].
  split; [vm_compute; reflexivity|by vm_compute].
Qed.

(** ** The limit for a symbol that does not dominate an untagged phi

    [int acc = 0;
     while (...) { int y = a.length; if (x < y) acc = x + 1000; }]

    The range of [acc], a phi of 64-bit integers, would be bounded by [y + 999]; [y] is
    defined in the loop, and [EnsureAcyclicSymbol] replaces the bound by the largest [Smi]. *)
Definition int64_defn (k : DefnKind) (block : nat) : Defn :=
  mkDefn k None None false true true false kUnboxedInt64 kUnboxedInt64 kUnboxedInt64
    false false block true false.

Definition limit_defns : list Defn := [
  int64_defn (ConstantInteger 0) 0;
  int64_defn (ConstantInteger 1000) 0;
  smi_defn OtherDefinition 0;                                        (* x *)
  example_defn OtherDefinition (Some (mkRange (Constant 0) MaxSmi)) false 2; (* y *)
  smi_defn (Constraint 2 (mkRange MinSmi (Symbol 3 (-1)))) 2;        (* x < y *)
  int64_defn (UnboxInt64 4) 2;
  int64_defn (BinaryIntegerOp kADD 5 1) 2;
  int64_defn (Phi [0; 6]%nat) 1 ].                                   (* acc *)

Definition limit_graph : FlowGraph := list_graph limit_defns.

Definition limit_rho : nat -> Z :=
  values [0; 1000; kSmiMax - 1; kSmiMax; kSmiMax - 1; kSmiMax - 1; kSmiMax + 999; kSmiMax + 999].

(** The analysis bounds the phi by the largest [Smi], and calls it a [Smi], although in
    the execution with [y] the largest [Smi] and [x = y - 1] the second input of the phi is
    larger than every [Smi]. *)
Theorem phi_limit_misses_value :
  exists G def r,
    Iterate 1 limit_graph NONE [0; 1; 2; 4; 5; 6; 7]%nat = Ok G /\
    defns G !! 7%nat = Some def /\ range def = Some r /\
    max r = MaxSmi /\ Fits G r kRangeBoundarySmi = Ok true /\
    limit_rho 5 = limit_rho 4 /\ limit_rho 4 = limit_rho 2 /\
    limit_rho 2 < limit_rho 3 /\ IsSmi (limit_rho 3) = true /\
    integer_op kADD (limit_rho 5) (limit_rho 1) = Ok (limit_rho 6) /\
    limit_rho 7 = limit_rho 6 /\ IsSmi (limit_rho 7) = false.
Proof.
  do 3 eexists. split; [vm_compute; reflexivity|]. split; [reflexivity|].
  split; [reflexivity|]. split; [reflexivity|]. split; [vm_compute; reflexivity|].
  repeat split.
Qed.

(** ** Truncation to 32 bits *)

Definition unbox_graph (r : Range) : FlowGraph :=
  list_graph [ example_defn OtherDefinition (Some r) false 0;
               int64_defn (UnboxUint32 0) 0 ].

(** The range of [UnboxUint32], which truncates its operand to 32 bits, is that of the
    operand whenever this is not negative: for an operand equal to [2^33 + 5] it excludes the
    result 5. *)
Theorem UnboxUint32_misses_value :
  exists G r o c,
    G = unbox_graph (mkRange (Constant (2 ^ 33)) (Constant (2 ^ 33 + 10))) /\
    InferRange G 1 = Ok (r, o, c) /\
    wrapu 32 (2 ^ 33 + 5) = 5 /\
    in_range G (values [2 ^ 33 + 5; 5]) (mkRange (Constant (2 ^ 33)) (Constant (2 ^ 33 + 10)))
      (2 ^ 33 + 5) /\
    ~ in_range G (values [2 ^ 33 + 5; 5]) r 5.
Proof.
  do 4 eexists. split; [done|]. split; [vm_compute; reflexivity|]. split; [reflexivity|].
  split; [by constructor; vm_compute|]. by intros [_ _ H _]; vm_compute in H.
Qed.

(** ** A lower bound above every [Smi] *)

(** [JoinMin] compares upper bounds clamped to the size: joined with the largest [Smi] the
    bound [s + 1] wins, although it is larger when [s] is the largest [Smi] itself. *)
Example JoinMin_clamped :
  JoinMin limit_graph (Symbol 2 1) MaxSmi kRangeBoundarySmi = Ok (Symbol 2 1) /\
  ~ bval (fun _ => kSmiMax) (Symbol 2 1) <= bval (fun _ => kSmiMax) MaxSmi.
Proof. split; [reflexivity|by vm_compute]. Qed.
