(* ===== verification/ParallelMove.v ===== *)
(** Parallel moves: class [MoveOperands] of [runtime/vm/compiler/backend/il.h] and classes
    [ParallelMoveResolver], [MoveSchedule] and [ParallelMoveEmitter] (scratch registers) of
    [runtime/vm/compiler/backend/parallel_move_resolver.cc].

    The register allocator asks for a set of moves that take effect at once.  The resolver
    orders them, and breaks cycles by exchanging operands.

    A failed [ASSERT] is [Fatal UtilsAssertion]; an index out of range is [Undefined].
    [PerformMove] recurses at most as deep as there are moves; running out of fuel is
    [Fatal UtilsFuel]. *)
From stdpp Require Import base numbers list.
From Stdlib Require Import ZArith Lia.
From S2P Require Import Prelude Utils.
Local Open Scope Z_scope.
Local Open Scope cxx_scope.

Abbreviation result := (outcome utils_error).

(** ** Locations *)

(** [Location]: a tagged word, by its tag, kind and payload. *)
Inductive Location :=
| NoLocation
| ConstantLocation (constant_instruction : nat) (pair_index : bool)
| PairLocation (pair : nat)
| UnallocatedLocation (policy : nat)
| RegisterLocation (reg : Z)
| FpuRegisterLocation (reg : Z)
| StackSlot (stack_index base : Z)
| DoubleStackSlot (stack_index base : Z)
| QuadStackSlot (stack_index base : Z).

#[export] Instance Location_eq_dec : EqDecision Location.
Proof. solve_decision. Defined.

Definition IsInvalid (l : Location) : bool :=
  match l with NoLocation => true | _ => false end.

Definition IsConstant (l : Location) : bool :=
  match l with ConstantLocation _ _ => true | _ => false end.

Definition Equals (a b : Location) : bool := bool_decide (a = b).

(** ** Moves *)

Record MoveOperands := mkMove { dest : Location; src : Location }.

(** [ASSERT(!src_.IsInvalid() || dest_.IsInvalid())]. *)
Definition move_assert (m : MoveOperands) : result () :=
  utils_assert (negb (IsInvalid (src m)) || IsInvalid (dest m)).

Definition IsEliminated (m : MoveOperands) : result bool :=
  _ ← move_assert m; Ok (IsInvalid (src m)).

Definition IsPending (m : MoveOperands) : result bool :=
  _ ← move_assert m; Ok (IsInvalid (dest m) && negb (IsInvalid (src m))).

Definition Blocks (m : MoveOperands) (loc : Location) : result bool :=
  e ← IsEliminated m; Ok (negb e && Equals (src m) loc).

Definition IsRedundant (m : MoveOperands) : result bool :=
  e ← IsEliminated m; Ok (e || IsInvalid (dest m) || Equals (src m) (dest m)).

(** [Eliminate] clears both operands. *)
Definition eliminated : MoveOperands := mkMove NoLocation NoLocation.

(** [MarkPending]: the destination and the pending move. *)
Definition MarkPending (m : MoveOperands) : result (Location * MoveOperands) :=
  p ← IsPending m; _ ← utils_assert (negb p); Ok (dest m, mkMove NoLocation (src m)).

Definition ClearPending (m : MoveOperands) (dest : Location) : result MoveOperands :=
  p ← IsPending m; _ ← utils_assert p; Ok (mkMove dest (src m)).

Definition set_src (m : MoveOperands) (value : Location) : MoveOperands := mkMove (dest m) value.

(** ** The resolver *)

Inductive OpKind := kNop | kMove | kSwap.

#[export] Instance OpKind_eq_dec : EqDecision OpKind.
Proof. solve_decision. Defined.

Record Op := mkOp { op_kind : OpKind; operands : MoveOperands }.

Record ParallelMoveResolver := mkResolver {
  moves_ : list MoveOperands;
  scheduled_ops_ : list Op;
}.

(** [moves_[index]], with the bounds check of [GrowableArray] (an [ASSERT]). *)
Definition move_at (st : ParallelMoveResolver) (index : nat) : result MoveOperands :=
  match moves_ st !! index with Some m => Ok m | None => Fatal UtilsAssertion end.

Definition set_move (st : ParallelMoveResolver) (index : nat) (m : MoveOperands)
    : ParallelMoveResolver :=
  mkResolver (<[index := m]> (moves_ st)) (scheduled_ops_ st).

(** [scheduled_ops_.Add]. *)
Definition add_op (st : ParallelMoveResolver) (op : Op) : ParallelMoveResolver :=
  mkResolver (moves_ st) (scheduled_ops_ st ++ [op]).

(** A [for] loop that threads the state. *)
Fixpoint for_each {S A} (f : S -> A -> result S) (l : list A) (s : S) : result S :=
  match l with
  | [] => Ok s
  | a :: l => s ← f s a; for_each f l s
  end.

Definition BuildInitialMoveList (parallel_move : list MoveOperands) : result (list MoveOperands) :=
  for_each (fun moves move =>
    r ← IsRedundant move; Ok (if (r : bool) then moves else moves ++ [move]))
    parallel_move [].

Definition AddMoveToSchedule (st : ParallelMoveResolver) (index : nat)
    : result ParallelMoveResolver :=
  move ← move_at st index;
  Ok (set_move (add_op st (mkOp kMove move)) index eliminated).

(** The source of a move after a swap of [source] and [destination]. *)
Definition swap_source (source destination : Location) (other : MoveOperands)
    : result MoveOperands :=
  b ← Blocks other source;
  if (b : bool) then Ok (set_src other destination)
  else
    b ← Blocks other destination;
    Ok (if (b : bool) then set_src other source else other).

Fixpoint map_result {A B} (f : A -> result B) (l : list A) : result (list B) :=
  match l with
  | [] => Ok []
  | a :: l => b ← f a; l ← map_result f l; Ok (b :: l)
  end.

Definition AddSwapToSchedule (st : ParallelMoveResolver) (index : nat)
    : result ParallelMoveResolver :=
  move ← move_at st index;
  let source := src move in
  let destination := dest move in
  let st := set_move (add_op st (mkOp kSwap move)) index eliminated in
  moves ← map_result (swap_source source destination) (moves_ st);
  Ok (mkResolver moves (scheduled_ops_ st)).

(** The search for a blocking move after the recursion: whether there is one, which must
    then be pending. *)
Fixpoint find_blocking (destination : Location) (moves : list MoveOperands) : result bool :=
  match moves with
  | [] => Ok false
  | other :: moves =>
      b ← Blocks other destination;
      if (b : bool) then p ← IsPending other; _ ← utils_assert p; Ok true
      else find_blocking destination moves
  end.

(** What [PerformMove] does once no unpending move blocks it. *)
Definition finish_move (st : ParallelMoveResolver) (index : nat) (destination : Location)
    : result ParallelMoveResolver :=
  move ← move_at st index;
  move ← ClearPending move destination;
  let st := set_move st index move in
  if Equals (src move) destination then Ok (set_move st index eliminated)
  else
    blocked ← find_blocking destination (moves_ st);
    if (blocked : bool) then AddSwapToSchedule st index else AddMoveToSchedule st index.

Fixpoint PerformMove (fuel : nat) (st : ParallelMoveResolver) (index : nat)
    : result ParallelMoveResolver :=
  match fuel with
  | O => Fatal UtilsFuel
  | S fuel =>
      move ← move_at st index;
      p ← IsPending move; _ ← utils_assert (negb p);
      r ← IsRedundant move; _ ← utils_assert (negb r);
      _ ← utils_assert (negb (IsInvalid (src move)));
      '(destination, pending) ← MarkPending move;
      let st := set_move st index pending in
      st ← for_each (fun st i =>
             other ← move_at st i;
             b ← Blocks other destination;
             p ← IsPending other;
             if b && negb p then PerformMove fuel st i else Ok st)
             (seq 0 (length (moves_ st))) st;
      finish_move st index destination
  end.

(** The first loop of [Resolve]: moves whose source is not a constant. *)
Definition perform_moves (st : ParallelMoveResolver) : result ParallelMoveResolver :=
  for_each (fun st i =>
    move ← move_at st i;
    e ← IsEliminated move;
    if negb e && negb (IsConstant (src move)) then PerformMove (length (moves_ st)) st i
    else Ok st)
    (seq 0 (length (moves_ st))) st.

(** The second: constants last. *)
Definition perform_constants (st : ParallelMoveResolver) : result (list Op) :=
  for_each (fun ops move =>
    e ← IsEliminated move;
    if (e : bool) then Ok ops
    else _ ← utils_assert (IsConstant (src move)); Ok (ops ++ [mkOp kMove move]))
    (moves_ st) (scheduled_ops_ st).

(** [MoveSchedule::From]. *)
Definition MoveSchedule_From (ops : list Op) : list Op :=
  base.filter (fun op => op_kind op <> kNop) ops.

(** [Resolve]: the schedule. *)
Definition Resolve (parallel_move : list MoveOperands) : result (list Op) :=
  moves ← BuildInitialMoveList parallel_move;
  st ← perform_moves (mkResolver moves []);
  ops ← perform_constants st;
  Ok (MoveSchedule_From ops).

(** ** Scratch registers while a schedule is emitted *)

Definition reads (op : Op) (loc : Location) : bool :=
  Equals (src (operands op)) loc ||
  (bool_decide (op_kind op = kSwap) && Equals (dest (operands op)) loc).

Definition IsScratchLocation (schedule : list Op) (current_move : nat) (loc : Location) : bool :=
  if existsb (fun op => reads op loc) (drop current_move schedule) then false
  else
    existsb (fun op => bool_decide (op_kind op = kMove) && Equals (dest (operands op)) loc)
      (drop (S current_move) schedule).

(** [1 << reg] in [int], converted to [uword]. *)
Definition reg_bit (reg : Z) : Z := wrapu 64 (wraps 32 (1 << reg)).

(** The first register from [reg] on, of [count], that is not blocked and satisfies
    [scratch]. *)
Fixpoint find_register (count : nat) (reg blocked_mask : Z) (scratch : Z -> bool) : option Z :=
  match count with
  | O => None
  | S count =>
      if (reg_bit reg .& blocked_mask =? 0) && scratch reg then Some reg
      else find_register count (reg + 1) blocked_mask scratch
  end.

(** [AllocateScratchRegister]: the register ([-1] if there is none) and [*spilled].
    [location] is [Location::MachineRegisterLocation] of the kind of register. *)
Definition AllocateScratchRegister (schedule : list Op) (current_move : nat)
    (location : Z -> Location) (blocked_mask first_free_register last_free_register : Z)
    : Z * bool :=
  let count := Z.to_nat (last_free_register - first_free_register + 1) in
  match find_register count first_free_register blocked_mask
          (fun reg => IsScratchLocation schedule current_move (location reg)) with
  | Some reg => (reg, false)
  | None =>
      (default (-1) (find_register count first_free_register blocked_mask (fun _ => true)), true)
  end.
