(* ===== verification/ParallelMoveProps.v ===== *)
(** Correctness of the resolver: the schedule has the effect of all moves taken at once.

    [exec] runs a schedule on an environment that gives every location a value; distinct
    locations are taken not to overlap.  During the resolution the chain [ch] lists the
    pending moves, the innermost first: each moves from the destination of the next. *)
From stdpp Require Import base numbers list.
From Stdlib Require Import ZArith Lia.
From S2P Require Import Prelude Utils ParallelMove.
Local Open Scope Z_scope.
Local Open Scope cxx_scope.

(** ** Execution of schedules *)

Section exec.
Context {V : Type}.

Definition Env : Type := Location -> V.

Definition upd (E : Env) (l : Location) (v : V) : Env :=
  fun x => if decide (x = l) then v else E x.

Definition exec_op (E : Env) (op : Op) : Env :=
  let m := operands op in
  match op_kind op with
  | kNop => E
  | kMove => upd E (dest m) (E (src m))
  | kSwap => upd (upd E (dest m) (E (src m))) (src m) (E (dest m))
  end.

Definition exec (ops : list Op) (E : Env) : Env := fold_left exec_op ops E.

Lemma exec_snoc ops op E : exec (ops ++ [op]) E = exec_op (exec ops E) op.
Proof. unfold exec. by rewrite fold_left_app. Qed.

Lemma upd_eq E l v : upd E l v l = v.
Proof. unfold upd. by rewrite decide_True. Qed.
Lemma upd_ne E l v x : x <> l -> upd E l v x = E x.
Proof. intros. unfold upd. by rewrite decide_False. Qed.
End exec.

(** ** Tests on moves *)

Lemma IsInvalid_spec l : IsInvalid l = bool_decide (l = NoLocation).
Proof. by destruct l. Qed.

Lemma Equals_spec a b : Equals a b = true <-> a = b.
Proof. unfold Equals. by rewrite bool_decide_eq_true. Qed.

(** [ASSERT] of every test: a source, or no destination. *)
Definition move_ok (m : MoveOperands) : Prop := src m <> NoLocation \/ dest m = NoLocation.

Lemma move_assert_ok m : move_ok m -> move_assert m = Ok ().
Proof.
  intros H. unfold move_assert. rewrite !IsInvalid_spec. destruct H as [H|H].
  - by rewrite bool_decide_eq_false_2.
  - rewrite (bool_decide_eq_true_2 _ H). by rewrite orb_true_r.
Qed.

Lemma IsEliminated_ok m : move_ok m -> IsEliminated m = Ok (bool_decide (src m = NoLocation)).
Proof. intros H. unfold IsEliminated. by rewrite move_assert_ok, Ok_bind, IsInvalid_spec. Qed.

Lemma IsPending_ok m :
  move_ok m -> IsPending m = Ok (bool_decide (dest m = NoLocation) && negb (bool_decide (src m = NoLocation))).
Proof. intros H. unfold IsPending. by rewrite move_assert_ok, Ok_bind, !IsInvalid_spec. Qed.

Lemma Blocks_ok m l : move_ok m -> l <> NoLocation -> Blocks m l = Ok (bool_decide (src m = l)).
Proof.
  intros H HL. unfold Blocks, Equals. rewrite (IsEliminated_ok m H), Ok_bind. f_equal.
  repeat case_bool_decide; simpl; congruence.
Qed.

Lemma IsRedundant_ok m :
  move_ok m -> IsRedundant m = Ok (bool_decide (src m = NoLocation \/ dest m = NoLocation \/ src m = dest m)).
Proof.
  intros H. unfold IsRedundant, Equals. rewrite (IsEliminated_ok m H), Ok_bind, IsInvalid_spec. f_equal.
  repeat case_bool_decide; simpl; tauto.
Qed.

(** ** The invariant *)

Section resolve.
Context {V : Type} (E0 : @Env V) (orig : list MoveOperands).

(** The destination of a move and the value it should receive. *)
Definition dst (i : nat) : Location := default NoLocation (dest <$> orig !! i).
Definition val (i : nat) : V := E0 (default NoLocation (src <$> orig !! i)).

Context (dst_valid : forall i, (i < length orig)%nat -> dst i <> NoLocation).
Context (dst_machine : forall i, (i < length orig)%nat -> IsConstant (dst i) = false).
Context (dst_inj : forall i j,
  (i < length orig)%nat -> (j < length orig)%nat -> dst i = dst j -> i = j).

(** A move is eliminated, pending, or still to be done. *)
Inductive status (ch : list nat) (i : nat) (m : MoveOperands) : Prop :=
| Eliminated : i ∉ ch -> m = eliminated -> status ch i m
| Pending : i ∈ ch -> dest m = NoLocation -> src m <> NoLocation -> status ch i m
| Active : i ∉ ch -> dest m = dst i -> src m <> NoLocation -> src m <> dst i -> status ch i m.

Record wf (ch : list nat) (M : list MoveOperands) : Prop := {
  wf_length : length M = length orig;
  wf_nodup : NoDup ch;
  wf_chain i : i ∈ ch -> (i < length orig)%nat;
  wf_status i m : M !! i = Some m -> status ch i m;
}.

(** Each pending move but the outermost moves from the destination of the next. *)
Definition linked (M : list MoveOperands) (ch : list nat) : Prop :=
  forall k x p m, ch !! k = Some x -> ch !! (S k) = Some p -> M !! x = Some m -> src m = dst p.

(** The schedule so far has put the values of eliminated moves in place, and those of the
    others where the sources are now. *)
Record sem (M : list MoveOperands) (ops : list Op) : Prop := {
  sem_source i m : M !! i = Some m -> src m <> NoLocation -> exec ops E0 (src m) = val i;
  sem_done i m : M !! i = Some m -> src m = NoLocation -> exec ops E0 (dst i) = val i;
  sem_other l : (forall i, (i < length orig)%nat -> l <> dst i) -> exec ops E0 l = E0 l;
}.

(** What performing a move does to the others: no move reappears; the source of one still to
    be done changes at most to the destination of another that was; the sources of pending
    moves stay, but that of the outermost may become the destination of the innermost. *)
Definition rel (ch : list nat) (M M' : list MoveOperands) : Prop :=
  forall i m', M' !! i = Some m' -> src m' <> NoLocation ->
  exists m, M !! i = Some m /\ src m <> NoLocation /\
    (i ∉ ch -> src m' = src m \/
       IsConstant (src m) = false /\
       exists x mx, M !! x = Some mx /\ src mx <> NoLocation /\ (x ∉ ch) /\ src m' = dst x) /\
    (i ∈ ch -> last ch <> Some i -> src m' = src m) /\
    (last ch = Some i -> src m' = src m \/ exists h, head ch = Some h /\ src m' = dst h).

Lemma status_ok ch i m : status ch i m -> move_ok m.
Proof. intros [_ ->|? ? ?|? ? ? ?]; [by right|by left|by left]. Qed.

Lemma wf_lt ch M i m : wf ch M -> M !! i = Some m -> (i < length orig)%nat.
Proof. intros HW Hi. rewrite <- (wf_length _ _ HW). by eapply lookup_lt_Some. Qed.

Lemma status_active ch i m :
  status ch i m -> i ∉ ch -> src m <> NoLocation ->
  dest m = dst i /\ src m <> dst i.
Proof. intros [_ ->|? ? ?|? ? ? ?] Hi Hs; done. Qed.

Lemma rel_refl ch M : rel ch M M.
Proof. intros i m Hi Hs. exists m. auto 10. Qed.

Lemma rel_trans ch M1 M2 M3 : rel ch M1 M2 -> rel ch M2 M3 -> rel ch M1 M3.
Proof.
  intros R1 R2 i m3 H3 S3. destruct (R2 i m3 H3 S3) as (m2 & H2 & S2 & A2 & B2 & C2).
  destruct (R1 i m2 H2 S2) as (m1 & H1 & S1 & A1 & B1 & C1).
  exists m1. split; [done|]. split; [done|]. split; [|split].
  - intros Hi. destruct (A2 Hi) as [E|(K & x & mx & Hx & Sx & Nx & E)].
    + rewrite E. by apply A1.
    + right. split.
      * destruct (A1 Hi) as [<-|[? _]]; done.
      * destruct (R1 x mx Hx Sx) as (my & Hy & Sy & _). eauto 10.
  - intros Hi HL. rewrite (B2 Hi HL). by apply B1.
  - intros HL. destruct (C2 HL) as [->|?]; [by apply C1|by right].
Qed.

(** The last pending move is not followed by another. *)
Lemma not_last (ch : list nat) k x p :
  NoDup ch -> ch !! k = Some x -> ch !! (S k) = Some p -> last ch <> Some x.
Proof.
  intros ND Hk HS HL. rewrite last_lookup in HL.
  pose proof (NoDup_lookup _ _ _ _ ND Hk HL) as ->.
  apply lookup_lt_Some in HS, Hk. lia.
Qed.

(** The chain stays linked. *)
Lemma rel_linked ch M M' : rel ch M M' -> wf ch M' -> linked M ch -> linked M' ch.
Proof.
  intros R HW HL k x p m' Hk HS Hm'. pose proof (list_elem_of_lookup_2 _ _ _ Hk) as Hx.
  destruct (wf_status _ _ HW _ _ Hm') as [?|_ _ Hs|?]; [done| |done].
  destruct (R x m' Hm' Hs) as (m & Hm & _ & _ & B & _). rewrite B; [exact (HL k x p m Hk HS Hm)|done|].
  by eapply not_last; [apply (wf_nodup _ _ HW)|..].
Qed.

(** ** Eliminating a move *)

Lemma wf_insert ch ch' M c m :
  wf ch' M -> NoDup ch -> (forall i, i ∈ ch -> (i < length orig)%nat) ->
  (forall i, i <> c -> i ∈ ch <-> i ∈ ch') -> status ch c m ->
  wf ch (<[c := m]> M).
Proof.
  intros [HL _ _ HS] ND HC HI Hm. constructor; [by rewrite length_insert|done|done|].
  intros i m' Hi. destruct (decide (i = c)) as [->|N].
  - apply list_lookup_insert_Some in Hi as [(_ & <- & _)|[? _]]; done.
  - rewrite list_lookup_insert_ne in Hi by done.
    destruct (HS i m' Hi) as [? ?|? ? ?|? ? ? ?].
    + apply Eliminated; [by rewrite HI|done].
    + apply Pending; [by rewrite HI|done..].
    + apply Active; [by rewrite HI|done..].
Qed.
(** The source is already the destination. *)
Lemma sem_same M ops c m :
  sem M ops -> M !! c = Some m -> src m <> NoLocation -> src m = dst c ->
  sem (<[c := eliminated]> M) ops.
Proof.
  intros [S1 S2 S3] Hc HN HE. constructor; [| |done].
  - intros i m' [(_ & <- & _)|[_ Hi]]%list_lookup_insert_Some; [done|eauto].
  - intros i m' [(<- & _ & _)|[_ Hi]]%list_lookup_insert_Some; [|eauto].
    intros _. rewrite <- HE. eauto.
Qed.

(** A move whose destination is not the source of another. *)
Lemma sem_move M ops c m :
  length M = length orig -> sem M ops -> M !! c = Some m -> src m <> NoLocation ->
  (forall j mj, M !! j = Some mj -> j <> c -> src mj <> dst c) ->
  sem (<[c := eliminated]> M) (ops ++ [mkOp kMove (mkMove (dst c) (src m))]).
Proof.
  intros HL [S1 S2 S3] Hc HN HB. pose proof (lookup_lt_Some _ _ _ Hc) as Lc. rewrite HL in Lc.
  constructor; rewrite exec_snoc; cbn [exec_op op_kind operands dest src].
  - intros i m' [(_ & <- & _)|[N Hi]]%list_lookup_insert_Some HS; [done|].
    rewrite upd_ne; [eauto|]. by apply (HB i).
  - intros i m' [(<- & _ & _)|[N Hi]]%list_lookup_insert_Some HS; [rewrite upd_eq; eauto|].
    rewrite upd_ne; [eauto|]. intros E. apply lookup_lt_Some in Hi. rewrite HL in Hi.
    apply N. symmetry. by apply dst_inj.
  - intros l Hl. rewrite upd_ne; [auto|]. by apply Hl.
Qed.

(** The sources after a swap. *)
Definition swapped (s d : Location) (m : MoveOperands) : MoveOperands :=
  if decide (src m = s) then set_src m d else if decide (src m = d) then set_src m s else m.

Lemma sem_swap M ops c m h mh :
  length M = length orig -> sem M ops -> M !! c = Some m ->
  M !! h = Some mh -> src mh <> NoLocation -> h <> c -> src m = dst h ->
  sem (swapped (dst h) (dst c) <$> <[c := eliminated]> M)
      (ops ++ [mkOp kSwap (mkMove (dst c) (src m))]).
Proof.
  intros HL [S1 S2 S3] Hc Hh SH N ES. pose proof (lookup_lt_Some _ _ _ Hc) as Lc.
  pose proof (lookup_lt_Some _ _ _ Hh) as Lh. rewrite HL in Lc, Lh.
  pose proof (dst_valid h Lh) as Vh. pose proof (dst_valid c Lc) as Vc.
  assert (Ndc : dst c <> dst h) by (intros E; by apply N, dst_inj).
  constructor; rewrite exec_snoc; cbn [exec_op op_kind operands dest src]; rewrite ES.
  - intros i m' Hi HS. rewrite list_lookup_fmap in Hi.
    destruct (<[c:=eliminated]> M !! i) as [mi|] eqn:Ei; [|done]. injection Hi as <-.
    apply list_lookup_insert_Some in Ei as [(-> & <- & _)|[Ni Hi]].
    { unfold swapped in HS. simpl in HS. rewrite !decide_False in HS by done. done. }
    unfold swapped in *. destruct (decide (src mi = dst h)) as [E|E]; [|destruct (decide (src mi = dst c)) as [E'|E']]; simpl in *.
    + rewrite upd_ne, upd_eq by done. rewrite <- E. apply S1; congruence.
    + rewrite upd_eq. rewrite <- E'. apply S1; congruence.
    + rewrite !upd_ne by done. by apply S1.
  - intros i m' Hi HS. rewrite list_lookup_fmap in Hi.
    destruct (<[c:=eliminated]> M !! i) as [mi|] eqn:Ei; [|done]. injection Hi as <-.
    apply list_lookup_insert_Some in Ei as [(-> & <- & _)|[Ni Hi]].
    { rewrite upd_ne, upd_eq by done. rewrite <- ES. apply S1; congruence. }
    pose proof (lookup_lt_Some _ _ _ Hi) as Li. rewrite HL in Li.
    assert (src mi = NoLocation) as Hn.
    { unfold swapped in HS. repeat case_decide; simpl in HS; congruence. }
    rewrite !upd_ne; [eauto|..]; intros E; apply dst_inj in E; congruence.
  - intros l Hl. rewrite !upd_ne; [auto|..]; by apply Hl.
Qed.
(** ** The end of [PerformMove] *)

Lemma find_blocking_ok d L :
  d <> NoLocation -> Forall move_ok L -> (forall m, m ∈ L -> src m = d -> dest m = NoLocation) ->
  find_blocking d L = Ok (existsb (fun m => bool_decide (src m = d)) L).
Proof.
  intros Hd. induction 1 as [|m L Hm _ IH]; intros HP; [done|]. cbn [find_blocking existsb].
  rewrite Blocks_ok, Ok_bind by done. case_bool_decide as E; simpl.
  - rewrite IsPending_ok, Ok_bind by done. rewrite bool_decide_eq_true_2 by (by apply HP; [left|]).
    by rewrite bool_decide_eq_false_2 by congruence.
  - apply IH. intros m' Hm'. apply HP. by right.
Qed.

Lemma swap_source_ok s d m :
  move_ok m -> s <> NoLocation -> d <> NoLocation -> swap_source s d m = Ok (swapped s d m).
Proof.
  intros Hm Hs Hd. unfold swap_source, swapped. rewrite !Blocks_ok, Ok_bind by done.
  case_bool_decide; [by rewrite decide_True|]. rewrite decide_False, Ok_bind by done.
  by case_bool_decide; [rewrite decide_True|rewrite decide_False].
Qed.

Lemma map_result_ok {A B} (f : A -> result B) g L :
  Forall (fun x => f x = Ok (g x)) L -> map_result f L = Ok (g <$> L).
Proof. induction 1 as [|x L Hx _ IH]; [done|]. cbn [map_result]. by rewrite Hx, Ok_bind, IH. Qed.

Lemma wf_moves_ok ch M : wf ch M -> Forall move_ok M.
Proof.
  intros HW. apply Forall_lookup. intros i m Hi. by eapply status_ok, (wf_status _ _ HW).
Qed.

(** The move performed last, and what it left of the others. *)
Definition finished (c : nat) (ch : list nat) (M1 M2 : list MoveOperands) : Prop :=
  M2 !! c = Some eliminated /\
  forall i m2, M2 !! i = Some m2 -> src m2 <> NoLocation ->
  i <> c /\ exists m1, M1 !! i = Some m1 /\ src m1 <> NoLocation /\
    (i ∉ ch -> src m2 = src m1 \/ IsConstant (src m1) = false /\ src m2 = dst c) /\
    (i ∈ ch -> last ch <> Some i -> src m2 = src m1) /\
    (last ch = Some i -> src m2 = src m1 /\ src m1 <> dst c \/
       exists h, head ch = Some h /\ src m2 = dst h).

Lemma finished_insert c ch M1 m1 :
  M1 !! c = Some m1 ->
  (forall i m, last ch = Some i -> M1 !! i = Some m -> src m <> dst c) ->
  finished c ch M1 (<[c := eliminated]> M1).
Proof.
  intros Hc HR. split; [apply list_lookup_insert_eq; by eapply lookup_lt_Some|].
  intros i m2 [(_ & <- & _)|[N Hi]]%list_lookup_insert_Some HS; [done|].
  split; [done|]. exists m2. split; [done|]. split; [done|]. split; [by left|]. split; [done|].
  intros HL. left. eauto.
Qed.

(** Removing the innermost pending move from the chain. *)
Lemma wf_pop c ch M m :
  wf (c :: ch) M -> status ch c m -> wf ch (<[c := m]> M).
Proof.
  intros HW Hm. pose proof (wf_nodup _ _ HW) as [_ ND]%NoDup_cons.
  apply (wf_insert ch (c :: ch)); try done.
  - intros i Hi. apply (wf_chain _ _ HW). by right.
  - intros i N. rewrite elem_of_cons. tauto.
Qed.
Lemma swapped_eliminated s d : s <> NoLocation -> d <> NoLocation -> swapped s d eliminated = eliminated.
Proof. intros. unfold swapped. simpl. by rewrite !decide_False. Qed.

Lemma swapped_dest s d m : dest (swapped s d m) = dest m.
Proof. unfold swapped. by repeat case_decide. Qed.

Lemma swapped_cases s d m :
  src m = s /\ src (swapped s d m) = d \/
  src m <> s /\ src m = d /\ src (swapped s d m) = s \/
  src m <> s /\ src m <> d /\ swapped s d m = m.
Proof. unfold swapped. repeat case_decide; auto. Qed.

Section swap.
Context (c h : nat) (rest : list nat) (M1 : list MoveOperands) (m1 : MoveOperands).
Context (HW : wf (c :: h :: rest) M1) (HL : linked M1 (c :: h :: rest)) (Hc : M1 !! c = Some m1).
Context (HB : forall i m, M1 !! i = Some m -> i ∉ c :: h :: rest -> src m <> dst c).

Let M2 : list MoveOperands := swapped (dst h) (dst c) <$> <[c := eliminated]> M1.

Lemma swap_bounds : (c < length orig)%nat /\ (h < length orig)%nat /\ c <> h /\ (c ∉ h :: rest).
Proof.
  pose proof (wf_nodup _ _ HW) as [ND _]%NoDup_cons.
  split; [apply (wf_chain _ _ HW); left|]. split; [apply (wf_chain _ _ HW); right; left|].
  split; [|done]. intros ->. apply ND. left.
Qed.

Lemma swap_source_head : src m1 = dst h.
Proof. by apply (HL 0%nat c h m1). Qed.

(** The sources of the pending moves but the outermost are neither of the two locations. *)
Lemma swap_inner i m :
  i ∈ h :: rest -> last (h :: rest) <> Some i -> M1 !! i = Some m ->
  src m <> dst h /\ src m <> dst c.
Proof.
  intros [k Hk]%list_elem_of_lookup HN Hi. destruct swap_bounds as (Lc & Lh & Nch & Nc).
  pose proof (wf_nodup _ _ HW) as [_ ND]%NoDup_cons.
  destruct ((h :: rest) !! (S k)) as [p|] eqn:Ep.
  2: { exfalso. apply HN. rewrite last_lookup. apply lookup_ge_None in Ep.
       pose proof (lookup_lt_Some _ _ _ Hk). replace (pred (length (h :: rest))) with k by lia. done. }
  rewrite (HL (S k) i p m Hk Ep Hi). pose proof (list_elem_of_lookup_2 _ _ _ Ep) as Hp.
  assert (p < length orig)%nat by (apply (wf_chain _ _ HW); by right).
  split; intros E; apply dst_inj in E; try done; subst p; [|done].
  by pose proof (NoDup_lookup _ _ 0%nat _ ND Ep eq_refl).
Qed.

Lemma swapped_lookup i m2 :
  M2 !! i = Some m2 -> src m2 <> NoLocation ->
  i <> c /\ exists m, M1 !! i = Some m /\ m2 = swapped (dst h) (dst c) m /\ src m <> NoLocation.
Proof.
  destruct swap_bounds as (Lc & Lh & _ & _). pose proof (dst_valid _ Lc). pose proof (dst_valid _ Lh).
  unfold M2. rewrite list_lookup_fmap.
  destruct (<[c:=eliminated]> M1 !! i) as [m|] eqn:Ei; [|done]. intros [= <-] HS.
  apply list_lookup_insert_Some in Ei as [(-> & <- & _)|[N Hi]].
  { by rewrite swapped_eliminated in HS. }
  split; [done|]. exists m. split; [done|]. split; [done|].
  destruct (swapped_cases (dst h) (dst c) m) as [[-> _]|[(_ & -> & _)|(_ & _ & E)]]; congruence.
Qed.

Lemma swap_wf : wf (h :: rest) M2.
Proof.
  destruct swap_bounds as (Lc & Lh & Nch & Nc). pose proof (dst_valid _ Lc). pose proof (dst_valid _ Lh).
  pose proof (wf_nodup _ _ HW) as [_ ND]%NoDup_cons.
  constructor; [unfold M2; by rewrite length_fmap, length_insert, (wf_length _ _ HW)|done| |].
  { intros i Hi. apply (wf_chain _ _ HW). by right. }
  intros i m2. unfold M2. rewrite list_lookup_fmap.
  destruct (<[c:=eliminated]> M1 !! i) as [m|] eqn:Ei; [|done]. intros [= <-].
  apply list_lookup_insert_Some in Ei as [(-> & <- & _)|[N Hi]].
  { apply Eliminated; [done|by apply swapped_eliminated]. }
  destruct (wf_status _ _ HW i m Hi) as [NI ->|HI HD HS|NI HD HS HN].
  - apply Eliminated; [by intros ?; apply NI; right|by apply swapped_eliminated].
  - apply elem_of_cons in HI as [->|HI]; [done|]. apply Pending; [done|by rewrite swapped_dest|].
    destruct (swapped_cases (dst h) (dst c) m) as [[_ ->]|[(_ & _ & ->)|(_ & _ & ->)]]; done.
  - apply Active; [by intros ?; apply NI; right|by rewrite swapped_dest| |].
    all: destruct (swapped_cases (dst h) (dst c) m) as [[_ ->]|[(_ & E & _)|(_ & _ & ->)]]; try done;
      try (by destruct (HB i m Hi NI)).
    intros E. apply N, dst_inj; [done| |done]. by eapply wf_lt.
Qed.

Lemma swap_finished : 
  (exists j mj, M1 !! j = Some mj /\ j <> c /\ src mj = dst c) -> finished c (h :: rest) M1 M2.
Proof.
  intros (j & mj & Hj & Nj & Ej). destruct swap_bounds as (Lc & Lh & Nch & Nc).
  pose proof (dst_valid _ Lc). pose proof (dst_valid _ Lh).
  assert (HJ : last (h :: rest) = Some j).
  { destruct (decide (j ∈ h :: rest)) as [I|I].
    - destruct (decide (last (h :: rest) = Some j)); [done|]. by destruct (swap_inner j mj).
    - destruct (HB j mj); [done| |done]. by rewrite not_elem_of_cons. }
  split.
  { unfold M2. rewrite list_lookup_fmap, list_lookup_insert_eq by (by eapply lookup_lt_Some).
    simpl. by rewrite swapped_eliminated. }
  intros i m2 Hi HS. destruct (swapped_lookup i m2 Hi HS) as (N & m & Hm & -> & Sm).
  split; [done|]. exists m. split; [done|]. split; [done|]. split; [|split].
  - intros NI. assert (NI' : i ∉ c :: h :: rest) by (by rewrite not_elem_of_cons).
    destruct (swapped_cases (dst h) (dst c) m) as [[E ->]|[(_ & E & _)|(_ & _ & ->)]]; [| |by left].
    + right. rewrite E. auto.
    + by destruct (HB i m Hm NI').
  - intros HI HN. destruct (swap_inner i m HI HN Hm).
    by destruct (swapped_cases (dst h) (dst c) m) as [[E _]|[(_ & E & _)|(_ & _ & ->)]].
  - intros HI. rewrite HJ in HI. injection HI as ->. rewrite Hm in Hj. injection Hj as <-.
    right. exists h. split; [done|].
    destruct (swapped_cases (dst h) (dst c) m) as [[E _]|[(_ & _ & E)|(_ & E & _)]]; try done.
    exfalso. apply Nch, dst_inj; congruence.
Qed.
End swap.

Lemma existsb_lookup {A} (f : A -> bool) L :
  existsb f L = true -> exists i x, L !! i = Some x /\ f x = true.
Proof.
  intros (x & Hx & Hf)%existsb_exists. apply list_elem_of_In, list_elem_of_lookup in Hx as [i Hi]. eauto.
Qed.

Lemma existsb_none {A} (f : A -> bool) L i x : existsb f L = false -> L !! i = Some x -> f x = false.
Proof.
  intros HF Hi. destruct (f x) eqn:E; [|done].
  rewrite <- HF. symmetry. apply existsb_exists. exists x. split; [|done].
  apply list_elem_of_In. by eapply list_elem_of_lookup_2.
Qed.

Lemma AddMoveToSchedule_eq M ops c m :
  M !! c = Some m ->
  AddMoveToSchedule (mkResolver M ops) c =
  Ok (mkResolver (<[c := eliminated]> M) (ops ++ [mkOp kMove m])).
Proof. intros Hc. unfold AddMoveToSchedule, move_at. simpl. by rewrite Hc, Ok_bind. Qed.

Lemma AddSwapToSchedule_eq M ops c m :
  M !! c = Some m -> Forall move_ok M -> src m <> NoLocation -> dest m <> NoLocation ->
  AddSwapToSchedule (mkResolver M ops) c =
  Ok (mkResolver (swapped (src m) (dest m) <$> <[c := eliminated]> M) (ops ++ [mkOp kSwap m])).
Proof.
  intros Hc HM Hs Hd. unfold AddSwapToSchedule, move_at. simpl. rewrite Hc, Ok_bind.
  rewrite (map_result_ok _ (swapped (src m) (dest m))); [done|].
  apply Forall_lookup. intros i mi Hi. apply swap_source_ok; [|done..].
  apply list_lookup_insert_Some in Hi as [(_ & <- & _)|[_ Hi]]; [by right|].
  rewrite Forall_lookup in HM. eauto.
Qed.

Lemma finish_move_ok c ch M1 ops :
  wf (c :: ch) M1 -> linked M1 (c :: ch) -> sem M1 ops ->
  (forall i m, M1 !! i = Some m -> i ∉ c :: ch -> src m <> dst c) ->
  exists M2 ops2, finish_move (mkResolver M1 ops) c (dst c) = Ok (mkResolver M2 ops2) /\
    wf ch M2 /\ sem M2 ops2 /\ finished c ch M1 M2.
Proof.
  intros HW HL HS HB. assert (Lc : (c < length orig)%nat) by (apply (wf_chain _ _ HW); left).
  pose proof (dst_valid c Lc) as Vc. pose proof (wf_nodup _ _ HW) as [Nc _]%NoDup_cons.
  destruct (lookup_lt_is_Some_2 M1 c) as [m1 Hc]; [by rewrite (wf_length _ _ HW)|].
  destruct (wf_status _ _ HW c m1 Hc) as [NI _|_ HD HN|NI _ _ _]; try (by destruct NI; left).
  unfold finish_move, move_at. cbn [moves_ scheduled_ops_]. rewrite Hc, Ok_bind.
  unfold ClearPending. rewrite IsPending_ok by (by left).
  rewrite (bool_decide_eq_true_2 _ HD), (bool_decide_eq_false_2 _ HN), !Ok_bind.
  cbn [andb negb utils_assert]. rewrite !Ok_bind. cbn [src]. unfold set_move. cbn [moves_ scheduled_ops_].
  destruct (Equals (src m1) (dst c)) eqn:EQ.
  { apply Equals_spec in EQ. rewrite list_insert_insert_eq. do 2 eexists. split; [done|].
    split; [by apply wf_pop; [|apply Eliminated]|]. split; [by eapply sem_same|].
    eapply finished_insert; [done|]. intros i m Hi Hm. destruct ch as [|h ch]; [done|].
    exfalso. rewrite (HL 0%nat c h m1) in EQ by done. apply dst_inj in EQ; [|apply (wf_chain _ _ HW); right; left|done].
    subst h. apply Nc. left. }
  assert (NE : src m1 <> dst c) by (intros E; by rewrite (proj2 (Equals_spec _ _) E) in EQ).
  set (M1' := <[c := mkMove (dst c) (src m1)]> M1) in *.
  assert (HM' : forall i m, M1' !! i = Some m -> src m = dst c -> i <> c /\ M1 !! i = Some m).
  { intros i m [(<- & <- & _)|[N Hi]]%list_lookup_insert_Some Hs; done. }
  assert (HOK : Forall move_ok M1').
  { apply Forall_lookup. intros i m [(<- & <- & _)|[N Hi]]%list_lookup_insert_Some; [by left|].
    by eapply status_ok, (wf_status _ _ HW). }
  rewrite find_blocking_ok; [|done|done|].
  2: { intros m [i Hi]%list_elem_of_lookup E. destruct (HM' i m Hi E) as [N Hm].
       destruct (wf_status _ _ HW i m Hm) as [_ ->|_ ? _|NI _ _ _]; [done..|]. by destruct (HB i m). }
  rewrite Ok_bind. destruct (existsb _ M1') eqn:EB.
  - apply existsb_lookup in EB as (j & mj & Hj & EJ%bool_decide_eq_true).
    destruct (HM' j mj Hj EJ) as [Nj Hj'].
    destruct ch as [|h rest].
    { destruct (HB j mj Hj'); [|done]. by rewrite list_elem_of_singleton. }
    pose proof (HL 0%nat c h m1 eq_refl eq_refl Hc) as Eh.
    destruct (swap_bounds c h rest M1 m1 HW HL Hc HB) as (_ & Lh & Nch & _).
    destruct (lookup_lt_is_Some_2 M1 h) as [mh Hh]; [by rewrite (wf_length _ _ HW)|].
    erewrite AddSwapToSchedule_eq;
      [|unfold M1'; apply list_lookup_insert_eq; by rewrite (wf_length _ _ HW)|exact HOK|done|done].
    cbn [src dest]. unfold M1'. rewrite list_insert_insert_eq. do 2 eexists. split; [done|].
    split; [rewrite Eh; by apply (swap_wf c h rest M1 m1)|]. split.
    + replace (swapped (src m1)) with (swapped (dst h)) by (by rewrite Eh). eapply sem_swap; try done; [by apply (wf_length _ _ HW)|].
      destruct (wf_status _ _ HW h mh Hh) as [NI _|_ _ ?|NI _ _ _]; [|done|];
        destruct NI; right; left.
    + rewrite Eh. apply (swap_finished c h rest M1 m1); try done. by exists j, mj.
  - rewrite (AddMoveToSchedule_eq _ _ _ (mkMove (dst c) (src m1)));
      [|unfold M1'; apply list_lookup_insert_eq; by rewrite (wf_length _ _ HW)].
    unfold M1'. rewrite list_insert_insert_eq. do 2 eexists. split; [done|].
    assert (NB : forall i m, M1 !! i = Some m -> i <> c -> src m <> dst c).
    { intros i m Hi N E. assert (Hi' : M1' !! i = Some m).
      { unfold M1'. by rewrite list_lookup_insert_ne. }
      pose proof (existsb_none _ _ i m EB Hi') as F. by rewrite bool_decide_eq_false in F. }
    split; [by apply wf_pop; [|apply Eliminated]|].
    split; [apply sem_move; auto; by apply (wf_length _ _ HW)|].
    eapply finished_insert; [done|]. intros i m HLi Hi. apply (NB i m Hi).
    intros ->. apply Nc. by eapply last_Some_elem_of.
Qed.

(** ** [PerformMove] *)

(** A move that is still to be done, and may be performed under the chain [ch]. *)
Record ready (ch : list nat) (M : list MoveOperands) (c : nat) (m : MoveOperands) : Prop := {
  rd_at : M !! c = Some m;
  rd_free : c ∉ ch;
  rd_src : src m <> NoLocation;
  rd_machine : IsConstant (src m) = false;
  rd_parent h : head ch = Some h -> src m = dst h;
}.

Definition performs (ch : list nat) (M : list MoveOperands) (c : nat)
    (r : result ParallelMoveResolver) : Prop :=
  exists M' ops', r = Ok (mkResolver M' ops') /\
    wf ch M' /\ sem M' ops' /\ rel ch M M' /\ M' !! c = Some eliminated.

(** The state [PerformMove] recurses in. *)
Lemma mark_pending ch M c m :
  wf ch M -> linked M ch -> ready ch M c m ->
  let M0 := <[c := mkMove NoLocation (src m)]> M in
  wf (c :: ch) M0 /\ linked M0 (c :: ch).
Proof.
  intros HW HL [Hc Nc HS _ HP]. pose proof (wf_lt _ _ _ _ HW Hc) as Lc. cbv zeta.
  pose proof (lookup_lt_Some _ _ _ Hc) as Lc'. split.
  - apply (wf_insert _ ch); [done| | | |].
    + constructor; [done|apply (wf_nodup _ _ HW)].
    + intros i [->|Hi]%elem_of_cons; [done|by apply (wf_chain _ _ HW)].
    + intros i N. rewrite elem_of_cons. tauto.
    + apply Pending; [left|done|done].
  - intros [|k] x p mx Hx Hp Hmx; simpl in Hx, Hp.
    + injection Hx as <-. rewrite list_lookup_insert_eq in Hmx by done. injection Hmx as <-.
      simpl. apply HP. by destruct ch.
    + rewrite list_lookup_insert_ne in Hmx.
      * exact (HL k x p mx Hx Hp Hmx).
      * intros ->. apply Nc. by eapply list_elem_of_lookup_2.
Qed.

Lemma sem_pending M ops c m :
  sem M ops -> M !! c = Some m -> src m <> NoLocation ->
  sem (<[c := mkMove NoLocation (src m)]> M) ops.
Proof.
  intros [S1 S2 S3] Hc HS. constructor; [| |done].
  - intros i m' [(<- & <- & _)|[N Hi]]%list_lookup_insert_Some; simpl; [intros; by apply S1|by apply S1].
  - intros i m' [(<- & <- & _)|[N Hi]]%list_lookup_insert_Some; simpl; [done|by eapply S2].
Qed.

(** The effect of the whole call from those of the recursion and of its end. *)
Lemma rel_finish ch c m M M1 M2 :
  wf (c :: ch) M1 -> ready ch M c m ->
  rel (c :: ch) (<[c := mkMove NoLocation (src m)]> M) M1 -> finished c ch M1 M2 -> rel ch M M2.
Proof.
  intros HW HR R1 [_ F] i m2 Hi HS. pose proof (rd_at _ _ _ _ HR) as Hc.
  pose proof (wf_nodup _ _ HW) as [Nc _]%NoDup_cons.
  destruct (F i m2 Hi HS) as (N & m1 & H1 & S1 & A1 & B1 & C1).
  destruct (R1 i m1 H1 S1) as (m0 & H0 & S0 & A0 & B0 & C0).
  rewrite list_lookup_insert_ne in H0 by done.
  assert (Old : forall x mx, <[c := mkMove NoLocation (src m)]> M !! x = Some mx ->
    src mx <> NoLocation -> exists my, M !! x = Some my /\ src my <> NoLocation).
  { intros x mx [(<- & <- & _)|[_ Hx]]%list_lookup_insert_Some ?; eauto. }
  exists m0. split; [done|]. split; [done|]. split; [|split].
  - intros NI. assert (NI' : i ∉ c :: ch) by (by rewrite not_elem_of_cons).
    assert (K0 : IsConstant (src m1) = false -> IsConstant (src m0) = false).
    { destruct (A0 NI') as [->|[? _]]; done. }
    destruct (A1 NI) as [->|[K ->]].
    + destruct (A0 NI') as [?|(K & x & mx & Hx & Sx & Nx & E)]; [by left|right].
      split; [done|]. destruct (Old x mx Hx Sx) as (my & ? & ?). exists x, my.
      split; [done|]. split; [done|]. split; [|done]. intros ?. apply Nx. by right.
    + right. split; [auto|]. exists c, m. split; [done|]. split; [apply (rd_src _ _ _ _ HR)|by split].
  - intros HI HN. rewrite (B1 HI HN). apply B0; [by right|].
    destruct ch; [by apply elem_of_nil in HI|done].
  - intros HI. destruct (C1 HI) as [[-> NE]|?]; [|by right].
    assert (HI' : last (c :: ch) = Some i) by (destruct ch; done).
    destruct (C0 HI') as [?|(h & [= <-] & E)]; [by left|by destruct NE].
Qed.

Lemma move_at_eq M ops i m : M !! i = Some m -> move_at (mkResolver M ops) i = Ok m.
Proof. intros Hi. unfold move_at. simpl. by rewrite Hi. Qed.

(** A move that does not block [c] does not come to block it. *)
Lemma rel_not_blocking c ch M M' i m' :
  wf (c :: ch) M -> rel (c :: ch) M M' -> M' !! i = Some m' -> i ∉ c :: ch ->
  (forall m, M !! i = Some m -> src m <> dst c) -> src m' <> dst c.
Proof.
  intros HW R Hi NI HB E. assert (Lc : (c < length orig)%nat) by (apply (wf_chain _ _ HW); left).
  pose proof (dst_valid c Lc) as Vc.
  destruct (R i m' Hi ltac:(congruence)) as (m & Hm & _ & A & _).
  destruct (A NI) as [E'|(_ & x & mx & Hx & _ & Nx & E')]; [apply (HB m Hm); congruence|].
  apply Nx. rewrite E in E'. apply dst_inj in E'; [subst x; left|done|by eapply wf_lt].
Qed.

(** The recursive calls: afterwards no move blocks [c] but pending ones. *)
Lemma blocking_loop fuel c ch L :
  (forall M ops i m, wf (c :: ch) M -> linked M (c :: ch) -> sem M ops -> ready (c :: ch) M i m ->
     performs (c :: ch) M i (PerformMove fuel (mkResolver M ops) i)) ->
  (forall i, i ∈ L -> (i < length orig)%nat) ->
  forall M ops, wf (c :: ch) M -> linked M (c :: ch) -> sem M ops ->
  exists M' ops',
    for_each (fun st i =>
      other ← move_at st i; b ← Blocks other (dst c); p ← IsPending other;
      if b && negb p then PerformMove fuel st i else Ok st) L (mkResolver M ops)
    = Ok (mkResolver M' ops') /\
    wf (c :: ch) M' /\ sem M' ops' /\ rel (c :: ch) M M' /\
    forall i m, i ∈ L -> M' !! i = Some m -> i ∉ c :: ch -> src m <> dst c.
Proof.
  intros IH. induction L as [|i L IHL]; intros HLt M ops HW HL HS.
  { exists M, ops. split; [done|]. split; [done|]. split; [done|]. split; [apply rel_refl|].
    by intros ? ? ?%elem_of_nil. }
  assert (Lc : (c < length orig)%nat) by (apply (wf_chain _ _ HW); left).
  pose proof (dst_valid c Lc) as Vc. cbn [for_each].
  destruct (lookup_lt_is_Some_2 M i) as [m Hi]; [rewrite (wf_length _ _ HW); apply HLt; left|].
  pose proof (wf_status _ _ HW i m Hi) as ST. pose proof (status_ok _ _ _ ST) as OK.
  rewrite (move_at_eq _ ops _ _ Hi), Ok_bind, Blocks_ok, Ok_bind, IsPending_ok, Ok_bind by done.
  assert (HLt' : forall j, j ∈ L -> (j < length orig)%nat) by (intros; apply HLt; by right).
  assert (Step : exists M1 ops1, (if bool_decide (src m = dst c) &&
      negb (bool_decide (dest m = NoLocation) && negb (bool_decide (src m = NoLocation)))
      then PerformMove fuel (mkResolver M ops) i else Ok (mkResolver M ops)) =
      Ok (mkResolver M1 ops1) /\ wf (c :: ch) M1 /\ sem M1 ops1 /\ rel (c :: ch) M M1 /\
      (i ∉ c :: ch -> forall m1, M1 !! i = Some m1 -> src m1 <> dst c)).
  { case_bool_decide as EB; cbn [andb].
    2: { exists M, ops. split; [done|]. split; [done|]. split; [done|]. split; [apply rel_refl|].
         intros _ m1 Hm1. congruence. }
    destruct ST as [_ ->|HI HD Hs|NI HD Hs HN]; [done| |].
    - rewrite (bool_decide_eq_true_2 _ HD), (bool_decide_eq_false_2 _ Hs). cbn [andb negb].
      exists M, ops. split; [done|]. split; [done|]. split; [done|]. split; [apply rel_refl|done].
    - assert (Li : (i < length orig)%nat) by (apply HLt; left).
      rewrite bool_decide_eq_false_2 by (rewrite HD; by apply dst_valid). cbn [andb negb].
      destruct (IH M ops i m HW HL HS) as (M1 & ops1 & E & W1 & S1 & R1 & X1).
      { constructor; [done|done|done|rewrite EB; by apply dst_machine|by intros h [= <-]]. }
      exists M1, ops1. split; [done|]. split; [done|]. split; [done|]. split; [done|].
      intros _ m1 Hm1. rewrite X1 in Hm1. by injection Hm1 as <-. }
  destruct Step as (M1 & ops1 & -> & W1 & S1 & R1 & B1). rewrite Ok_bind.
  destruct (IHL HLt' M1 ops1 W1) as (M2 & ops2 & E2 & W2 & S2 & R2 & B2);
    [by eapply rel_linked|done|].
  exists M2, ops2. split; [done|]. split; [done|]. split; [done|]. split; [by eapply rel_trans|].
  intros j mj [->|Hj]%elem_of_cons Hmj NJ; [|by eapply B2].
  eapply (rel_not_blocking c ch M1 M2); eauto.
Qed.

Lemma PerformMove_ok fuel : forall ch M ops c m,
  wf ch M -> linked M ch -> sem M ops -> ready ch M c m ->
  (length orig <= fuel + length ch)%nat ->
  performs ch M c (PerformMove fuel (mkResolver M ops) c).
Proof.
  induction fuel as [|fuel IH]; intros ch M ops c m HW HL HS HR HF.
  { exfalso. assert (ND : NoDup (c :: ch)).
    { constructor; [apply (rd_free _ _ _ _ HR)|apply (wf_nodup _ _ HW)]. }
    assert (INC : (c :: ch) ⊆+ seq 0 (length orig)).
    { apply NoDup_submseteq; [done|]. intros i Hi. apply elem_of_seq. split; [lia|].
      apply elem_of_cons in Hi as [->|Hi];
        [by eapply wf_lt; [|apply (rd_at _ _ _ _ HR)]|by apply (wf_chain _ _ HW)]. }
    apply submseteq_length in INC. rewrite length_seq in INC. simpl in INC. lia. }
  pose proof (rd_at _ _ _ _ HR) as Hc. pose proof (rd_free _ _ _ _ HR) as Nc.
  pose proof (rd_src _ _ _ _ HR) as Sc. pose proof (wf_lt _ _ _ _ HW Hc) as Lc.
  pose proof (wf_status _ _ HW c m Hc) as ST. pose proof (status_ok _ _ _ ST) as OK.
  destruct (status_active _ _ _ ST Nc Sc) as [Ed NE]. pose proof (dst_valid c Lc) as Vc.
  cbn [PerformMove]. rewrite (move_at_eq _ ops _ _ Hc), Ok_bind.
  unfold MarkPending. rewrite (IsPending_ok m OK), !Ok_bind, (IsRedundant_ok m OK), Ed.
  rewrite (bool_decide_eq_false_2 (dst c = NoLocation)) by done.
  rewrite (bool_decide_eq_false_2 (src m = NoLocation \/ dst c = NoLocation \/ src m = dst c))
    by (intros [?|[?|?]]; done).
  cbn [andb negb utils_assert]. rewrite !Ok_bind.
  replace (IsInvalid (src m)) with false by (symmetry; rewrite IsInvalid_spec; by apply bool_decide_eq_false).
  cbn [andb negb utils_assert]. rewrite !Ok_bind. cbv beta iota zeta.
  unfold set_move. cbn [moves_ scheduled_ops_].
  destruct (mark_pending ch M c m HW HL HR) as [HW0 HL0].
  pose proof (sem_pending M ops c m HS Hc Sc) as HS0.
  destruct (blocking_loop fuel c ch
    (seq 0 (length (<[c := mkMove NoLocation (src m)]> M)))) with
    (M := <[c := mkMove NoLocation (src m)]> M) (ops := ops)
    as (M1 & ops1 & -> & W1 & S1 & R1 & B1); try done.
  { intros M' ops' i mi ? ? ? Hr. eapply IH; [done..|exact Hr|]. simpl. lia. }
  { intros i Hi%elem_of_seq. rewrite length_insert, (wf_length _ _ HW) in Hi. lia. }
  rewrite Ok_bind.
  destruct (finish_move_ok c ch M1 ops1 W1) as (M2 & ops2 & -> & W2 & S2 & F2);
    [by eapply rel_linked|done| |].
  { intros i mi Hi NI. apply (B1 i mi); [|done|done]. apply elem_of_seq.
    rewrite length_insert, (wf_length _ _ HW). pose proof (wf_lt _ _ _ _ W1 Hi). lia. }
  exists M2, ops2. split; [done|]. split; [done|]. split; [done|].
  split; [by eapply rel_finish|apply F2].
Qed.

(** ** [Resolve] *)

Lemma perform_loop L :
  (forall i, i ∈ L -> (i < length orig)%nat) ->
  forall M ops, wf [] M -> sem M ops ->
  exists M' ops',
    for_each (fun st i =>
      move ← move_at st i; e ← IsEliminated move;
      if negb e && negb (IsConstant (src move)) then PerformMove (length (moves_ st)) st i
      else Ok st) L (mkResolver M ops) = Ok (mkResolver M' ops') /\
    wf [] M' /\ sem M' ops' /\ rel [] M M' /\
    forall i m, i ∈ L -> M' !! i = Some m -> src m <> NoLocation -> IsConstant (src m) = true.
Proof.
  induction L as [|i L IHL]; intros HLt M ops HW HS.
  { exists M, ops. split; [done|]. split; [done|]. split; [done|]. split; [apply rel_refl|].
    by intros ? ? ?%elem_of_nil. }
  cbn [for_each]. destruct (lookup_lt_is_Some_2 M i) as [m Hi]; [rewrite (wf_length _ _ HW); apply HLt; left|].
  pose proof (wf_status _ _ HW i m Hi) as ST. pose proof (status_ok _ _ _ ST) as OK.
  rewrite (move_at_eq _ ops _ _ Hi), Ok_bind, IsEliminated_ok, Ok_bind by done. cbn [moves_].
  assert (HLt' : forall j, j ∈ L -> (j < length orig)%nat) by (intros; apply HLt; by right).
  assert (Step : exists M1 ops1, (if negb (bool_decide (src m = NoLocation)) && negb (IsConstant (src m))
      then PerformMove (length M) (mkResolver M ops) i else Ok (mkResolver M ops)) =
      Ok (mkResolver M1 ops1) /\ wf [] M1 /\ sem M1 ops1 /\ rel [] M M1 /\
      (forall m1, M1 !! i = Some m1 -> src m1 <> NoLocation -> IsConstant (src m1) = true)).
  { case_bool_decide as EB; cbn [andb negb].
    { exists M, ops. split; [done|]. split; [done|]. split; [done|]. split; [apply rel_refl|].
      intros m1 Hm1. congruence. }
    destruct (IsConstant (src m)) eqn:EC; cbn [negb].
    { exists M, ops. split; [done|]. split; [done|]. split; [done|]. split; [apply rel_refl|].
      intros m1 Hm1. congruence. }
    destruct (PerformMove_ok (length M) [] M ops i m) as (M1 & ops1 & E & W1 & S1 & R1 & X1); try done.
    { constructor; try done. apply not_elem_of_nil. }
    { rewrite (wf_length _ _ HW). simpl. lia. }
    exists M1, ops1. split; [done|]. split; [done|]. split; [done|]. split; [done|].
    intros m1 Hm1. rewrite X1 in Hm1. by injection Hm1 as <-. }
  destruct Step as (M1 & ops1 & -> & W1 & S1 & R1 & B1). rewrite Ok_bind.
  destruct (IHL HLt' M1 ops1 W1 S1) as (M2 & ops2 & E2 & W2 & S2 & R2 & B2).
  exists M2, ops2. split; [done|]. split; [done|]. split; [done|]. split; [by eapply rel_trans|].
  intros j mj [->|Hj]%elem_of_cons Hmj SJ; [|by eapply B2].
  destruct (R2 i mj Hmj SJ) as (m1 & Hm1 & Sm1 & A & _). pose proof (B1 m1 Hm1 Sm1).
  destruct (A (not_elem_of_nil i)) as [->|[? _]]; congruence.
Qed.

(** Constants are moved last, in order. *)
Lemma constants_loop k M ops :
  length M = length orig -> Forall move_ok M -> sem (replicate k eliminated ++ drop k M) ops ->
  (forall i m, M !! i = Some m -> src m <> NoLocation -> IsConstant (src m) = true /\ dest m = dst i) ->
  (k <= length M)%nat ->
  exists ops', for_each (fun ops move =>
      e ← IsEliminated move;
      if (e : bool) then Ok ops
      else _ ← utils_assert (IsConstant (src move)); Ok (ops ++ [mkOp kMove move])) (drop k M) ops
    = Ok ops' /\ sem (replicate (length M) eliminated) ops'.
Proof.
  intros HL HM HS HC HK. remember (length M - k)%nat as n eqn:En. revert k ops HS HK En.
  induction n as [|n IH]; intros k ops HS HK En.
  { replace k with (length M) in * by lia. rewrite drop_all in *. rewrite app_nil_r in HS. by exists ops. }
  destruct (lookup_lt_is_Some_2 M k) as [m Hk]; [lia|].
  rewrite (drop_S _ _ _ Hk) in HS |- *. cbn [for_each].
  assert (OK : move_ok m) by (rewrite Forall_lookup in HM; eauto).
  rewrite IsEliminated_ok, Ok_bind by done. case_bool_decide as E.
  { destruct OK as [?|D]; [done|]. destruct m as [d s]; simpl in *; subst.
    apply (IH (S k) ops); [|lia|lia].
    rewrite replicate_S_end, <- app_assoc. done. }
  destruct (HC k m Hk E) as [-> ED]. cbn [utils_assert]. rewrite Ok_bind.
  rewrite Ok_bind. apply (IH (S k)); [|lia|lia].
  assert (Lk : (k < length orig)%nat) by lia.
  assert (HI : <[k := eliminated]> (replicate k eliminated ++ m :: drop (S k) M) =
    replicate (S k) eliminated ++ drop (S k) M).
  { rewrite insert_app_r_alt by (rewrite length_replicate; lia).
    rewrite length_replicate, Nat.sub_diag, replicate_S_end, <- app_assoc. done. }
  rewrite <- HI. replace m with (mkMove (dst k) (src m)) at 2 by (rewrite <- ED; by destruct m).
  apply sem_move; try done.
  - rewrite length_app, length_replicate. simpl. rewrite length_drop. lia.
  - rewrite lookup_app_r by (rewrite length_replicate; lia). by rewrite length_replicate, Nat.sub_diag.
  - intros j mj Hj N EJ. pose proof (dst_valid k Lk) as Vk.
    assert (KJ : exists i, M !! i = Some mj).
    { apply lookup_app_Some in Hj as [Hj|[_ Hj]].
      - apply lookup_replicate in Hj as [-> _]. by destruct Vk.
      - rewrite <- (drop_S _ _ _ Hk) in Hj. rewrite lookup_drop in Hj. eauto. }
    destruct KJ as [i Hi]. destruct (HC i mj Hi) as [KC _]; [congruence|].
    rewrite EJ, dst_machine in KC by done. done.
Qed.

(** The initial list, of moves that are not redundant, is resolved correctly. *)
Lemma resolve_moves :
  (forall i m, orig !! i = Some m -> src m <> NoLocation /\ src m <> dest m) ->
  exists ops, (st ← perform_moves (mkResolver orig []); perform_constants st) = Ok ops /\
    (forall i, (i < length orig)%nat -> exec ops E0 (dst i) = val i) /\
    (forall l, (forall i, (i < length orig)%nat -> l <> dst i) -> exec ops E0 l = E0 l).
Proof.
  intros HO.
  assert (D : forall i m, orig !! i = Some m -> dst i = dest m) by (intros i m Hi; unfold dst; by rewrite Hi).
  assert (W : wf [] orig).
  { constructor; [done|constructor|by intros i ?%elem_of_nil|]. intros i m Hi.
    destruct (HO i m Hi). apply Active; [apply not_elem_of_nil|by rewrite (D i m)|done|by rewrite (D i m)]. }
  assert (S : sem orig []).
  { constructor; [|intros i m Hi; by destruct (HO i m Hi)|done].
    intros i m Hi _. unfold val. by rewrite Hi. }
  unfold perform_moves. cbn [moves_].
  destruct (perform_loop (seq 0 (length orig))) with (M := orig) (ops := @nil Op)
    as (M1 & ops1 & -> & W1 & S1 & R1 & B1); try done.
  { intros i Hi%elem_of_seq. lia. }
  rewrite Ok_bind. unfold perform_constants. cbn [moves_ scheduled_ops_].
  destruct (constants_loop 0 M1 ops1) as (ops & E & SF); [by apply W1|by eapply wf_moves_ok|done| |lia|].
  { intros i m Hi HS. pose proof (wf_lt _ _ _ _ W1 Hi) as Li. split.
    - apply (B1 i m); [apply elem_of_seq; lia|done|done].
    - by apply (status_active [] i m); [apply (wf_status _ _ W1)|apply not_elem_of_nil|]. }
  rewrite drop_0 in E. exists ops. split; [done|]. split; [|apply SF]. intros i Hi.
  apply (sem_done _ _ SF i eliminated); [|done]. apply lookup_replicate.
  by rewrite (wf_length _ _ W1).
Qed.
End resolve.
