(* ===== verification/ParallelMoveSpec.v ===== *)
(** What the resolver and the emitter of parallel moves guarantee: a schedule has the effect
    of its moves performed at once, and a scratch register can be overwritten. *)
From stdpp Require Import base numbers list.
From Stdlib Require Import ZArith Lia.
From S2P Require Import Prelude Utils ParallelMove ParallelMoveProps.
Local Open Scope Z_scope.
Local Open Scope cxx_scope.

(** ** The initial list *)

(** A redundant move, as a decidable proposition. *)
Definition redundant (m : MoveOperands) : Prop :=
  src m = NoLocation \/ dest m = NoLocation \/ src m = dest m.
#[export] Instance redundant_dec m : Decision (redundant m).
Proof. unfold redundant. apply _. Defined.

Lemma BuildInitialMoveList_ok pm :
  Forall move_ok pm -> BuildInitialMoveList pm = Ok (base.filter (fun m => ~ redundant m) pm).
Proof.
  intros HM. unfold BuildInitialMoveList.
  enough (H : forall acc, for_each (fun moves move =>
      r ← IsRedundant move; Ok (if (r : bool) then moves else moves ++ [move])) pm acc =
    Ok (acc ++ base.filter (fun m => ~ redundant m) pm)) by apply H.
  induction HM as [|m pm Hm _ IH]; intros acc; [by rewrite app_nil_r|].
  cbn [for_each]. rewrite IsRedundant_ok, !Ok_bind by done. rewrite filter_cons.
  fold (redundant m). case_bool_decide as E.
  - rewrite decide_False by tauto. apply IH.
  - rewrite decide_True by done. rewrite IH, <- app_assoc. done.
Qed.

(** Dropping [kNop]s does not change the effect. *)
Lemma exec_From {V} ops (E : @Env V) : exec (MoveSchedule_From ops) E = exec ops E.
Proof.
  unfold MoveSchedule_From. revert E. induction ops as [|op ops IH]; intros E; [done|].
  rewrite filter_cons. case_decide as H; simpl; [apply IH|].
  assert (op_kind op = kNop) as HK by (destruct (decide (op_kind op = kNop)); tauto).
  rewrite IH. f_equal. unfold exec_op. by rewrite HK.
Qed.

(** ** Correctness of schedules *)

(** The moves the register allocator asks for: sources are present, destinations are not
    constants, and no location is the destination of two moves. *)
Record parallel_move_ok (pm : list MoveOperands) : Prop := {
  pm_ok : Forall move_ok pm;
  pm_machine m : m ∈ pm -> IsConstant (dest m) = false;
  pm_unique i j mi mj :
    pm !! i = Some mi -> pm !! j = Some mj -> dest mi = dest mj -> dest mi <> NoLocation -> i = j;
}.

(** The destinations of the moves that remain are still different. *)
Lemma filter_unique pm i j mi mj :
  parallel_move_ok pm ->
  base.filter (fun m => ~ redundant m) pm !! i = Some mi ->
  base.filter (fun m => ~ redundant m) pm !! j = Some mj -> dest mi = dest mj -> i = j.
Proof.
  intros [_ _ HU]. revert i j. induction pm as [|m pm IH]; intros i j; [done|].
  assert (HU' : forall i j mi mj, pm !! i = Some mi -> pm !! j = Some mj -> dest mi = dest mj ->
    dest mi <> NoLocation -> i = j).
  { intros a b ma mb Ha Hb E N. pose proof (HU (S a) (S b) ma mb Ha Hb E N). lia. }
  assert (HH : forall k mk, base.filter (fun m => ~ redundant m) pm !! k = Some mk ->
    dest m = dest mk -> dest m <> NoLocation -> False).
  { intros k mk Hk E N. apply list_elem_of_lookup_2, list_elem_of_filter in Hk as [_ [x Hx]%list_elem_of_lookup].
    by pose proof (HU 0%nat (S x) m mk eq_refl Hx E N). }
  assert (NR : forall k mk, base.filter (fun m => ~ redundant m) pm !! k = Some mk -> dest mk <> NoLocation).
  { intros k mk Hk. apply list_elem_of_lookup_2, list_elem_of_filter in Hk as [HR _].
    unfold redundant in HR. tauto. }
  rewrite filter_cons. case_decide as HR; [|by apply IH].
  destruct i as [|i], j as [|j]; simpl; intros Hi Hj E; [done| | |].
  - injection Hi as <-. exfalso. apply (HH j mj Hj E). rewrite E. eauto.
  - injection Hj as <-. exfalso. apply (HH i mi Hi (eq_sym E)). rewrite <- E. eauto.
  - f_equal. by apply (IH HU' i j).
Qed.

Lemma Resolve_effect pm {V} (E : @Env V) :
  parallel_move_ok pm ->
  exists schedule, Resolve pm = Ok schedule /\ Forall (fun op => op_kind op <> kNop) schedule /\
    (forall m, m ∈ pm -> src m <> NoLocation -> dest m <> NoLocation ->
       exec schedule E (dest m) = E (src m)) /\
    (forall l, (forall m, m ∈ pm -> dest m <> l) -> exec schedule E l = E l).
Proof.
  intros HP. unfold Resolve. rewrite BuildInitialMoveList_ok, Ok_bind by apply HP.
  set (L := base.filter (fun m => ~ redundant m) pm).
  assert (HL : forall i m, L !! i = Some m -> m ∈ pm /\ src m <> NoLocation /\
    dest m <> NoLocation /\ src m <> dest m /\ dst L i = dest m).
  { intros i m Hi. split; [by apply list_elem_of_lookup_2, list_elem_of_filter in Hi as [_ ?]|].
    pose proof Hi as [HR _]%list_elem_of_lookup_2%list_elem_of_filter. unfold redundant in HR.
    split; [tauto|]. split; [tauto|]. split; [tauto|]. unfold dst. by rewrite Hi. }
  assert (HX : forall i, (i < length L)%nat -> exists m, L !! i = Some m).
  { intros i Hi. by apply lookup_lt_is_Some_2. }
  destruct (resolve_moves E L) as (ops & EQ & H1 & H2).
  { intros i (m & Hm)%HX. destruct (HL i m Hm) as (_ & _ & Nd & _ & ->). exact Nd. }
  { intros i (m & Hm)%HX. destruct (HL i m Hm) as (Mi & _ & _ & _ & ->).
    exact (pm_machine _ HP m Mi). }
  { intros i j (mi & Hi)%HX (mj & Hj)%HX Ed. apply (filter_unique pm i j mi mj HP Hi Hj).
    destruct (HL i mi Hi) as (_ & _ & _ & _ & <-), (HL j mj Hj) as (_ & _ & _ & _ & <-). exact Ed. }
  { intros i m Hi. destruct (HL i m Hi) as (_ & ? & _ & ? & _). done. }
  apply bind_ok in EQ as (st & -> & EQ). rewrite Ok_bind, EQ, Ok_bind. eexists. split; [done|].
  split; [by apply Forall_forall; intros op [? _]%list_elem_of_filter|].
  rewrite exec_From. split.
  - intros m Hm Hs Hd. destruct (decide (src m = dest m)) as [ES|ES].
    + rewrite ES. apply H2. intros i (mi & Hi)%HX. destruct (HL i mi Hi) as (Mi & _ & _ & ? & ->).
      intros ED. apply list_elem_of_lookup in Hm as [a Ha], Mi as [b Hb].
      pose proof (pm_unique _ HP a b m mi Ha Hb ED Hd) as ->. congruence.
    + assert (m ∈ L) as [i Hi]%list_elem_of_lookup.
      { apply list_elem_of_filter. split; [unfold redundant; tauto|done]. }
      destruct (HL i m Hi) as (_ & _ & _ & _ & <-). rewrite H1 by (by eapply lookup_lt_Some).
      unfold val. by rewrite Hi.
  - intros l Hl. apply H2. intros i (m & Hm)%HX. destruct (HL i m Hm) as (Mi & _ & _ & _ & ->).
    intros ->. by apply (Hl m).
Qed.

(** C10: [Resolve] terminates without failing an assertion, and its schedule of moves and swaps
    has the effect of the moves performed at once: every destination receives the value its
    source had before, and every other location keeps its value. *)
Theorem Resolve_correct pm :
  parallel_move_ok pm ->
  exists schedule, Resolve pm = Ok schedule /\ Forall (fun op => op_kind op <> kNop) schedule /\
    forall V (E : @Env V),
    (forall m, m ∈ pm -> src m <> NoLocation -> dest m <> NoLocation ->
       exec schedule E (dest m) = E (src m)) /\
    (forall l, (forall m, m ∈ pm -> dest m <> l) -> exec schedule E l = E l).
Proof.
  intros HP. destruct (Resolve_effect pm (fun _ => ()) HP) as (s & ES & HN & _).
  exists s. split; [done|]. split; [done|]. intros V E.
  destruct (Resolve_effect pm E HP) as (s' & ES' & _ & H1 & H2). rewrite ES in ES'.
  by injection ES' as <-.
Qed.

(** A cycle of three, a register copied twice, a constant and a redundant move. *)
Definition example_move : list MoveOperands :=
  [ mkMove (RegisterLocation 1) (RegisterLocation 0); mkMove (RegisterLocation 2) (RegisterLocation 1);
    mkMove (RegisterLocation 0) (RegisterLocation 2); mkMove (StackSlot 3 15) (RegisterLocation 1);
    mkMove (RegisterLocation 4) (ConstantLocation 7 false); mkMove (RegisterLocation 5) (RegisterLocation 5) ].

Lemma Resolve_correct_witness :
  exists schedule, Resolve example_move = Ok schedule /\
    Forall (fun op => op_kind op <> kNop) schedule /\
    forall V (E : @Env V),
    (forall m, m ∈ example_move -> src m <> NoLocation -> dest m <> NoLocation ->
       exec schedule E (dest m) = E (src m)) /\
    (forall l, (forall m, m ∈ example_move -> dest m <> l) -> exec schedule E l = E l).
Proof.
  apply (Resolve_correct example_move). constructor.
  - repeat (apply Forall_cons; split; [by left|]). by apply Forall_nil.
  - intros m Hm. unfold example_move in Hm. repeat (apply elem_of_cons in Hm as [->|Hm]; [done|]).
    by apply elem_of_nil in Hm.
  - intros i j mi mj Hi Hj. unfold example_move in *.
    do 6 (destruct i as [|i]; [injection Hi as <-;
      do 6 (destruct j as [|j]; [injection Hj as <-; done|]); done|]). done.
Defined.

(** The cycle takes two swaps. *)
Example Resolve_example :
  (map op_kind <$> match Resolve example_move with Ok s => Some s | _ => None end) =
  Some [kSwap; kSwap; kMove; kMove].
Proof. reflexivity. Qed.

(** ** Scratch locations *)

Section scratch.
Context {V : Type} (loc : Location).

Definition agree_off (E1 E2 : @Env V) : Prop := forall l, l <> loc -> E1 l = E2 l.

Lemma not_reads op :
  reads op loc = false -> src (operands op) <> loc /\ (op_kind op = kSwap -> dest (operands op) <> loc).
Proof.
  unfold reads, Equals. intros [H1 H2]%orb_false_iff. rewrite bool_decide_eq_false in H1.
  split; [done|]. intros HK. rewrite (bool_decide_eq_true_2 _ HK) in H2. simpl in H2.
  by rewrite bool_decide_eq_false in H2.
Qed.

(** An operation that does not read [loc] cannot tell the environments apart, and a move to
    [loc] makes them equal. *)
Lemma exec_op_agree op E1 E2 :
  reads op loc = false -> agree_off E1 E2 -> agree_off (exec_op E1 op) (exec_op E2 op).
Proof.
  intros [Hs Hd]%not_reads HA l Hl. unfold exec_op. destruct (op_kind op); [by apply HA| |].
  - unfold upd. case_decide; by apply HA.
  - specialize (Hd eq_refl). unfold upd. repeat case_decide; by apply HA.
Qed.

Lemma exec_op_write op E1 E2 :
  reads op loc = false -> op_kind op = kMove -> dest (operands op) = loc -> agree_off E1 E2 ->
  forall l, exec_op E1 op l = exec_op E2 op l.
Proof.
  intros [Hs _]%not_reads HK Hd HA l. unfold exec_op. rewrite HK. unfold upd.
  case_decide as E; [by apply HA|]. apply HA. congruence.
Qed.

Lemma exec_equal ops (E1 E2 : @Env V) : (forall l, E1 l = E2 l) -> forall l, exec ops E1 l = exec ops E2 l.
Proof.
  revert E1 E2. induction ops as [|op ops IH]; intros E1 E2 HE; [done|]. apply IH. intros l.
  unfold exec_op, upd. destruct (op_kind op); repeat case_decide; auto.
Qed.

Lemma exec_dead ops E1 E2 :
  existsb (fun op => reads op loc) ops = false ->
  existsb (fun op => bool_decide (op_kind op = kMove) && Equals (dest (operands op)) loc) ops = true ->
  agree_off E1 E2 -> forall l, exec ops E1 l = exec ops E2 l.
Proof.
  revert E1 E2. induction ops as [|op ops IH]; intros E1 E2 HR HW HA; [done|].
  simpl in HR, HW. apply orb_false_iff in HR as [HR1 HR2]. apply orb_true_iff in HW as [HW|HW].
  - apply andb_true_iff in HW as [HK%bool_decide_eq_true HD%Equals_spec]. simpl.
    apply exec_equal. by apply exec_op_write.
  - simpl. apply (IH (exec_op E1 op) (exec_op E2 op)); [done|done|by apply exec_op_agree].
Qed.
End scratch.

Lemma existsb_drop_S {A} (f : A -> bool) i L : existsb f (drop i L) = false -> existsb f (drop (S i) L) = false.
Proof.
  intros H. destruct (L !! i) as [x|] eqn:E.
  - rewrite (drop_S _ _ _ E) in H. simpl in H. by apply orb_false_iff in H as [_ ?].
  - apply lookup_ge_None in E. by rewrite drop_ge by lia.
Qed.

(** C32: a location that [IsScratchLocation] accepts while operation [i] of a schedule is
    emitted may be overwritten at that point, before or after the operation: the final
    contents of every location are the same. *)
Theorem scratch_location_sound schedule i loc op {V} (E : @Env V) v l :
  IsScratchLocation schedule i loc = true -> schedule !! i = Some op ->
  exec (drop i schedule) (upd E loc v) l = exec (drop i schedule) E l /\
  exec (drop (S i) schedule) (upd (exec_op E op) loc v) l = exec (drop i schedule) E l.
Proof.
  intros HS Hi. unfold IsScratchLocation in HS. destruct (existsb _ (drop i schedule)) eqn:ER; [done|].
  assert (A : forall E' : @Env V, agree_off loc (upd E' loc v) E').
  { intros E' x Hx. by apply upd_ne. }
  split.
  - apply (exec_dead loc); [done| |apply A]. rewrite (drop_S _ _ _ Hi). simpl. by rewrite HS, orb_true_r.
  - rewrite (drop_S _ _ _ Hi). simpl. apply (exec_dead loc); [by apply existsb_drop_S|done|apply A].
Qed.

Definition example_schedule : list Op :=
  [ mkOp kMove (mkMove (RegisterLocation 1) (RegisterLocation 0));
    mkOp kMove (mkMove (RegisterLocation 2) (RegisterLocation 1)) ].

Lemma scratch_location_sound_witness :
  exec (drop 0 example_schedule) (upd (fun _ => 0) (RegisterLocation 2) 5) (RegisterLocation 2) =
    exec (drop 0 example_schedule) (fun _ => 0) (RegisterLocation 2) /\
  exec (drop 1 example_schedule) (upd (exec_op (fun _ => 0)
    (mkOp kMove (mkMove (RegisterLocation 1) (RegisterLocation 0)))) (RegisterLocation 2) 5)
    (RegisterLocation 2) = exec (drop 0 example_schedule) (fun _ => 0) (RegisterLocation 2).
Proof. apply (scratch_location_sound example_schedule 0 (RegisterLocation 2)); reflexivity. Defined.

(** ** Allocation of scratch registers *)

Lemma find_register_spec count reg mask f :
  match find_register count reg mask f with
  | Some r => reg <= r < reg + Z.of_nat count /\ reg_bit r .& mask = 0 /\ f r = true
  | None => forall r, reg <= r < reg + Z.of_nat count -> reg_bit r .& mask = 0 -> f r = false
  end.
Proof.
  revert reg. induction count as [|count IH]; intros reg; cbn [find_register]; [intros; lia|].
  destruct ((reg_bit reg .& mask =? 0) && f reg) eqn:E.
  - apply andb_true_iff in E as [E1%Z.eqb_eq E2]. split; [lia|done].
  - specialize (IH (reg + 1)). destruct (find_register count (reg + 1) mask f) as [r|].
    + destruct IH as (? & ? & ?). split; [lia|done].
    + intros r Hr Hm. destruct (decide (r = reg)) as [->|N]; [|apply IH; [lia|done]].
      rewrite Hm in E. done.
Qed.

(** A register allocated without a spill is free to use; with one, no register is. *)
Lemma AllocateScratchRegister_spec schedule i location mask first last reg spilled :
  AllocateScratchRegister schedule i location mask first last = (reg, spilled) -> first <= last ->
  if spilled then
    (forall r, first <= r <= last -> reg_bit r .& mask = 0 ->
       IsScratchLocation schedule i (location r) = false) /\
    (reg = -1 \/ first <= reg <= last /\ reg_bit reg .& mask = 0)
  else first <= reg <= last /\ reg_bit reg .& mask = 0 /\
       IsScratchLocation schedule i (location reg) = true.
Proof.
  unfold AllocateScratchRegister. intros H HL.
  pose proof (find_register_spec (Z.to_nat (last - first + 1)) first mask
    (fun r => IsScratchLocation schedule i (location r))) as S1.
  pose proof (find_register_spec (Z.to_nat (last - first + 1)) first mask (fun _ => true)) as S2.
  rewrite Z2Nat.id in S1, S2 by lia.
  destruct (find_register _ first mask (fun r => IsScratchLocation schedule i (location r))) as [r|].
  - injection H as <- <-. destruct S1 as (? & ? & ?). split; [lia|done].
  - injection H as <- <-. split; [intros r Hr; apply S1; lia|].
    destruct (find_register _ first mask _) as [r|]; simpl; [right|by left].
    destruct S2 as (? & ? & _). split; [lia|done].
Qed.
