(* ===== verification/BitVector.v ===== *)
(** [BitVector] of [runtime/vm/bit_vector.h] and [.cc]: sets of small integers, as the
    register allocator and the data-flow analyses of the compiler use them.

    [data_] is the list of words, so that [data_length_] is its length; words have 64 bits.
    A failed [ASSERT] is [Fatal UtilsAssertion] and an access past the end of the array
    [Undefined]. *)
From stdpp Require Import base numbers list.
From Stdlib Require Import ZArith Lia.
From S2P Require Import Prelude Utils.
Local Open Scope Z_scope.
Local Open Scope cxx_scope.

Abbreviation result := (outcome utils_error).

Definition kBitsPerWord : Z := 64.

Record BitVector := mkBits { length_ : Z; data_ : list Z }.

Definition data_length_ (b : BitVector) : Z := Z.of_nat (length (data_ b)).

(** [1 + ((length - 1) / kBitsPerWord)]: division truncates. *)
Definition SizeFor (length : Z) : Z := 1 + Z.quot (length - 1) kBitsPerWord.

Definition Clear (b : BitVector) : BitVector := mkBits (length_ b) (map (fun _ => 0) (data_ b)).

(** The constructor: the words are allocated and cleared. *)
Definition BitVector_new (length : Z) : BitVector :=
  Clear (mkBits length (replicate (Z.to_nat (SizeFor length)) 0)).

(** [data_[i]]. *)
Definition word_at (b : BitVector) (i : Z) : result Z :=
  match data_ b !! Z.to_nat i with Some w => Ok w | None => Undefined end.

Definition set_word (b : BitVector) (i : Z) (w : Z) : BitVector :=
  mkBits (length_ b) (<[Z.to_nat i := w]> (data_ b)).

Definition in_bounds (b : BitVector) (i : Z) : result () :=
  utils_assert ((0 <=? i) && (i <? length_ b)).

(** [static_cast<uword>(1) << (i % kBitsPerWord)]. *)
Definition bit_mask (i : Z) : Z := wrapu 64 (1 << Z.rem i kBitsPerWord).

Definition Add (b : BitVector) (i : Z) : result BitVector :=
  _ ← in_bounds b i;
  w ← word_at b (Z.quot i kBitsPerWord);
  Ok (set_word b (Z.quot i kBitsPerWord) (w .| bit_mask i)).

(** [~] of a word. *)
Definition word_not (w : Z) : Z := wrapu 64 (Z.lnot w).

Definition Remove (b : BitVector) (i : Z) : result BitVector :=
  _ ← in_bounds b i;
  w ← word_at b (Z.quot i kBitsPerWord);
  Ok (set_word b (Z.quot i kBitsPerWord) (w .& word_not (bit_mask i))).

Definition Set_ (b : BitVector) (i : Z) (value : bool) : result BitVector :=
  if value then Add b i else Remove b i.

Definition Contains (b : BitVector) (i : Z) : result bool :=
  _ ← in_bounds b i;
  w ← word_at b (Z.quot i kBitsPerWord);
  Ok (negb (w .& bit_mask i =? 0)).

(** The loops over two arrays of the same length: the new words, and whether one changed. *)
Fixpoint update_words (f : Z -> Z -> Z) (data from : list Z) : result (list Z * bool) :=
  match data, from with
  | [], _ => Ok ([], false)
  | before :: data, w :: from =>
      let after := f before w in
      '(data, changed) ← update_words f data from;
      Ok (after :: data, negb (before =? after) || changed)
  | _, [] => Undefined
  end.

Definition AddAll (b from : BitVector) : result (BitVector * bool) :=
  _ ← utils_assert (data_length_ b =? data_length_ from);
  '(data, changed) ← update_words (fun x y => x .| y) (data_ b) (data_ from);
  Ok (mkBits (length_ b) data, changed).

Definition RemoveAll (b from : BitVector) : result (BitVector * bool) :=
  _ ← utils_assert (data_length_ b =? data_length_ from);
  '(data, changed) ← update_words (fun x y => x .& word_not y) (data_ b) (data_ from);
  Ok (mkBits (length_ b) data, changed).

(** [gen->data_[i] & ~kill->data_[i]], word by word. *)
Fixpoint gen_words (kill gen : list Z) : list Z :=
  match kill, gen with
  | k :: kill, g :: gen => (g .& word_not k) :: gen_words kill gen
  | _, _ => []
  end.

Definition KillAndAdd (b kill gen : BitVector) : result (BitVector * bool) :=
  _ ← utils_assert (data_length_ b =? data_length_ kill);
  _ ← utils_assert (data_length_ b =? data_length_ gen);
  '(data, changed) ← update_words (fun x y => x .| y) (data_ b) (gen_words (data_ kill) (data_ gen));
  Ok (mkBits (length_ b) data, changed).

Definition Intersect (b other : BitVector) : result BitVector :=
  _ ← utils_assert (length_ other =? length_ b);
  '(data, _) ← update_words (fun x y => x .& y) (data_ b) (data_ other);
  Ok (mkBits (length_ b) data).

Definition CopyFrom (b other : BitVector) : result BitVector :=
  '(b, _) ← AddAll (Clear b) other; Ok b.

Definition IsEmpty (b : BitVector) : bool := forallb (fun w => w =? 0) (data_ b).

(** [Equals]: the loop over all words but the last, then the last with the bits beyond
    [length_] masked. *)
Fixpoint equal_words (length : Z) (data other : list Z) : result bool :=
  match data, other with
  | [], _ => Ok true
  | [w], w' :: _ =>
      if Z.rem length kBitsPerWord =? 0 then Ok (w =? w')
      else
        let shift_size := kBitsPerWord - Z.rem length kBitsPerWord in
        let mask := (2 ^ 64 - 1) >> shift_size in
        Ok (w .& mask =? w' .& mask)
  | w :: data, w' :: other => if negb (w =? w') then Ok false else equal_words length data other
  | _, [] => Undefined
  end.

Definition Equals (b other : BitVector) : result bool :=
  if negb (length_ b =? length_ other) then Ok false
  else equal_words (length_ b) (data_ b) (data_ other).

Fixpoint subset_words (data other : list Z) : result bool :=
  match data, other with
  | [], _ => Ok true
  | w :: data, w' :: other => if negb (w .& w' =? w) then Ok false else subset_words data other
  | _, [] => Undefined
  end.

Definition SubsetOf (b other : BitVector) : result bool :=
  _ ← utils_assert (length_ b =? length_ other);
  subset_words (data_ b) (data_ other).

Definition SetAll (b : BitVector) : BitVector :=
  mkBits (length_ b) (map (fun _ => 2 ^ 64 - 1) (data_ b)).

(** ** The iterator *)

Record Iterator := mkIter { bit_index_ : Z; word_index_ : Z; current_word_ : Z }.

Definition Done (b : BitVector) (it : Iterator) : bool := data_length_ b <=? word_index_ it.

(** The loop that skips zero words: [None] when it reaches the end. *)
Fixpoint skip_words (fuel : nat) (b : BitVector) (word_index : Z) : result (Z * option Z) :=
  match fuel with
  | O => Fatal UtilsFuel
  | S fuel =>
      let word_index := word_index + 1 in
      if data_length_ b <=? word_index then Ok (word_index, None)
      else
        w ← word_at b word_index;
        if w =? 0 then skip_words fuel b word_index else Ok (word_index, Some w)
  end.

(** The loops that skip zero bytes and zero bits. *)
Fixpoint skip_zeros (fuel : nat) (n mask : Z) (word bit : Z) : result (Z * Z) :=
  if word .& mask =? 0 then
    match fuel with
    | O => Fatal UtilsFuel
    | S fuel => skip_zeros fuel n mask (word >> n) (bit + n)
    end
  else Ok (word, bit).

Definition Advance (b : BitVector) (it : Iterator) : result Iterator :=
  let bit_index := bit_index_ it + 1 in
  let finish (word_index word bit_index : Z) :=
    '(word, bit_index) ← skip_zeros 8 8 0xff word bit_index;
    '(word, bit_index) ← skip_zeros 8 1 0x1 word bit_index;
    Ok (mkIter bit_index word_index (word >> 1)) in
  if current_word_ it =? 0 then
    '(word_index, word) ← skip_words (length (data_ b)) b (word_index_ it);
    match word with
    | None => Ok (mkIter bit_index word_index 0)
    | Some w => finish word_index w (word_index * kBitsPerWord)
    end
  else finish (word_index_ it) (current_word_ it) bit_index.

Definition Iterator_new (b : BitVector) : result Iterator :=
  w ← word_at b 0;
  _ ← utils_assert (0 <? data_length_ b);
  Advance b (mkIter (-1) 0 w).

Definition Current (b : BitVector) (it : Iterator) : result Z :=
  _ ← utils_assert (negb (Done b it)); Ok (bit_index_ it).

(** [for (Iterator it(b); !it.Done(); it.Advance()) ... it.Current()]: the values seen. *)
Fixpoint iterate_from (fuel : nat) (b : BitVector) (it : Iterator) : result (list Z) :=
  if Done b it then Ok []
  else
    match fuel with
    | O => Fatal UtilsFuel
    | S fuel =>
        i ← Current b it;
        it ← Advance b it;
        rest ← iterate_from fuel b it;
        Ok (i :: rest)
    end.

Definition iterate (b : BitVector) : result (list Z) :=
  it ← Iterator_new b;
  iterate_from (Z.to_nat (data_length_ b * kBitsPerWord)) b it.
