(* ===== verification/BitVectorProps.v ===== *)
(** [BitVector] as a set: every operation is the operation on sets its name says, and the
    iterator enumerates the set in increasing order. *)
From stdpp Require Import base numbers list.
From Stdlib Require Import ZArith Lia.
From S2P Require Import Prelude Utils BitVector.
Local Open Scope Z_scope.
Local Open Scope cxx_scope.

(** ** The set *)

(** Membership, also of integers beyond [length_]. *)
Definition bit (b : BitVector) (i : Z) : bool :=
  match data_ b !! Z.to_nat (i / 64) with Some w => Z.testbit w (i mod 64) | None => false end.

Record wf (b : BitVector) : Prop := {
  wf_length : 0 <= length_ b;
  wf_data : data_length_ b = SizeFor (length_ b);
  wf_words : Forall (is_u 64) (data_ b);
}.

(** No bits beyond the length. *)
Definition clean (b : BitVector) : Prop := forall i, length_ b <= i -> bit b i = false.

Lemma SizeFor_bounds n : 0 <= n -> n <= 64 * SizeFor n /\ 1 <= SizeFor n.
Proof.
  intros Hn. unfold SizeFor, kBitsPerWord. pose proof (Z.quot_rem (n - 1) 64 ltac:(lia)) as E.
  destruct (decide (n = 0)) as [->|N]; [done|].
  pose proof (Z.rem_bound_pos (n - 1) 64 ltac:(lia) ltac:(lia)).
  pose proof (Z.quot_pos (n - 1) 64 ltac:(lia) ltac:(lia)). lia.
Qed.

Lemma bit_split i : 0 <= i -> Z.quot i kBitsPerWord = i / 64 /\ Z.rem i kBitsPerWord = i mod 64.
Proof.
  intros Hi. unfold kBitsPerWord. rewrite Z.quot_div_nonneg, Z.rem_mod_nonneg by lia. done.
Qed.

Lemma mod64 i : 0 <= i mod 64 < 64.
Proof. apply Z.mod_pos_bound. lia. Qed.

Lemma div64_inj i j : 0 <= i -> 0 <= j -> Z.to_nat (i / 64) = Z.to_nat (j / 64) -> i mod 64 = j mod 64 -> i = j.
Proof.
  intros Hi Hj ED EM. pose proof (Z.div_pos i 64 ltac:(lia) ltac:(lia)).
  pose proof (Z.div_pos j 64 ltac:(lia) ltac:(lia)).
  pose proof (Z.div_mod i 64 ltac:(lia)). pose proof (Z.div_mod j 64 ltac:(lia)). lia.
Qed.

(** The word of an index within the length. *)
Lemma word_lookup b i :
  wf b -> 0 <= i < length_ b -> exists w, data_ b !! Z.to_nat (i / 64) = Some w /\ is_u 64 w.
Proof.
  intros [HL HD HW] Hi. destruct (SizeFor_bounds (length_ b) HL) as [HB _].
  destruct (lookup_lt_is_Some_2 (data_ b) (Z.to_nat (i / 64))) as [w Hw].
  - unfold data_length_ in HD. pose proof (Z.div_lt_upper_bound i 64 (SizeFor (length_ b))).
    pose proof (Z.div_pos i 64). lia.
  - exists w. split; [done|]. by eapply Forall_lookup_1.
Qed.

Lemma bit_mask_testbit i k :
  0 <= i -> 0 <= k < 64 -> Z.testbit (bit_mask i) k = (k =? i mod 64).
Proof.
  intros Hi Hk. unfold bit_mask. destruct (bit_split i Hi) as [_ ->]. pose proof (mod64 i).
  unfold wrapu. rewrite Z.mod_pow2_bits_low by lia. rewrite Z.shiftl_1_l.
  destruct (Z.eqb_spec k (i mod 64)) as [->|N]; [by apply Z.pow2_bits_true; lia|].
  apply Z.pow2_bits_false. lia.
Qed.

Lemma word_not_testbit w k : 0 <= k < 64 -> Z.testbit (word_not w) k = negb (Z.testbit w k).
Proof. intros Hk. unfold word_not, wrapu. rewrite Z.mod_pow2_bits_low by lia. apply Z.lnot_spec. lia. Qed.

(** Words are determined by their bits. *)
Lemma word_ext x y :
  is_u 64 x -> is_u 64 y -> (forall k, 0 <= k < 64 -> Z.testbit x k = Z.testbit y k) -> x = y.
Proof.
  intros Hx Hy H. apply Z.bits_inj'. intros k Hk. destruct (Z.lt_ge_cases k 64) as [L|L]; [by apply H|].
  by rewrite !(testbit_high 64) by (done || lia).
Qed.

Lemma word_bits x : 0 <= x -> (forall k, 64 <= k -> Z.testbit x k = false) -> is_u 64 x.
Proof.
  intros Hx H. replace x with (wrapu 64 x); [by apply wrapu_range|].
  apply Z.bits_inj'. intros k Hk. unfold wrapu. destruct (Z.lt_ge_cases k 64) as [L|L].
  - by rewrite Z.mod_pow2_bits_low.
  - rewrite Z.mod_pow2_bits_high by lia. by rewrite H.
Qed.

Lemma lor_word x y : is_u 64 x -> is_u 64 y -> is_u 64 (x .| y).
Proof.
  intros Hx Hy. apply word_bits; [apply Z.lor_nonneg; split; [apply Hx|apply Hy]|].
  intros k Hk. by rewrite Z.lor_spec, !(testbit_high 64) by (done || lia).
Qed.

Lemma land_word x y : is_u 64 x -> is_u 64 (x .& y).
Proof.
  intros Hx. apply word_bits; [apply Z.land_nonneg; left; apply Hx|].
  intros k Hk. by rewrite Z.land_spec, (testbit_high 64 x) by (done || lia).
Qed.

Lemma word_zero w : is_u 64 w -> w = 0 <-> forall k, 0 <= k < 64 -> Z.testbit w k = false.
Proof.
  intros Hw. split; [intros -> k _; apply Z.testbit_0_l|].
  intros H. apply word_ext; [done|done|]. intros k Hk. by rewrite H, Z.testbit_0_l.
Qed.

(** ** Single elements *)

Lemma in_bounds_ok b i : 0 <= i < length_ b -> in_bounds b i = Ok ().
Proof. intros Hi. unfold in_bounds. by replace ((0 <=? i) && (i <? length_ b)) with true by lia. Qed.

Lemma word_at_ok b i w :
  0 <= i -> data_ b !! Z.to_nat (i / 64) = Some w -> word_at b (Z.quot i kBitsPerWord) = Ok w.
Proof. intros Hi Hw. unfold word_at. destruct (bit_split i Hi) as [-> _]. by rewrite Hw. Qed.

Lemma Contains_ok b i : wf b -> 0 <= i < length_ b -> Contains b i = Ok (bit b i).
Proof.
  intros HW Hi. destruct (word_lookup b i HW Hi) as (w & Hw & Hu). unfold Contains.
  rewrite in_bounds_ok, Ok_bind, (word_at_ok b i w), Ok_bind by (done || lia). f_equal.
  unfold bit. rewrite Hw. pose proof (mod64 i) as Hm.
  assert (E : w .& bit_mask i = 0 <-> Z.testbit w (i mod 64) = false).
  { rewrite word_zero by (by apply land_word). split.
    - intros H. specialize (H (i mod 64) Hm). rewrite Z.land_spec, bit_mask_testbit, Z.eqb_refl in H by lia.
      by rewrite andb_true_r in H.
    - intros H k Hk. rewrite Z.land_spec, bit_mask_testbit by lia.
      destruct (Z.eqb_spec k (i mod 64)) as [->|_]; [by rewrite H|apply andb_false_r]. }
  destruct (Z.testbit w (i mod 64)), (Z.eqb_spec (w .& bit_mask i) 0) as [Z0|Z0]; try done.
  - by apply E in Z0.
  - destruct Z0. by apply E.
Qed.

(** Replacing the word of [i] by one that differs at [i] only. *)
Lemma set_word_bit b i w w' v j :
  0 <= i -> 0 <= j -> data_ b !! Z.to_nat (i / 64) = Some w ->
  (forall k, 0 <= k < 64 -> Z.testbit w' k = if k =? i mod 64 then v else Z.testbit w k) ->
  bit (set_word b (Z.quot i kBitsPerWord) w') j = if j =? i then v else bit b j.
Proof.
  intros Hi Hj Hw HV. unfold bit, set_word. simpl. destruct (bit_split i Hi) as [-> _].
  destruct (decide (Z.to_nat (j / 64) = Z.to_nat (i / 64))) as [E|N].
  - rewrite E, list_lookup_insert_eq, Hw by (by eapply lookup_lt_Some).
    rewrite HV by apply mod64. destruct (Z.eqb_spec j i) as [->|NJ]; [by rewrite Z.eqb_refl|].
    destruct (Z.eqb_spec (j mod 64) (i mod 64)) as [EM|]; [|done]. by destruct NJ; apply div64_inj.
  - rewrite list_lookup_insert_ne by congruence. destruct (Z.eqb_spec j i) as [->|NJ]; done.
Qed.

Lemma set_word_wf b i w : wf b -> is_u 64 w -> wf (set_word b i w).
Proof.
  intros [HL HD HW] Hw. constructor; [done| |].
  - unfold data_length_, set_word. simpl. by rewrite length_insert.
  - simpl. by apply Forall_insert.
Qed.

Lemma Add_ok b i :
  wf b -> 0 <= i < length_ b ->
  exists b', Add b i = Ok b' /\ wf b' /\ length_ b' = length_ b /\
    forall j, 0 <= j -> bit b' j = (j =? i) || bit b j.
Proof.
  intros HW Hi. destruct (word_lookup b i HW Hi) as (w & Hw & Hu). unfold Add.
  rewrite in_bounds_ok, Ok_bind, (word_at_ok b i w), Ok_bind by (done || lia).
  eexists. split; [done|]. split; [apply set_word_wf; [done|apply lor_word; [done|by apply wrapu_range]]|].
  split; [done|]. intros j Hj. erewrite (set_word_bit b i w _ true); [by destruct (j =? i)|lia|lia|done|].
  intros k Hk. rewrite Z.lor_spec, bit_mask_testbit by lia.
  destruct (k =? i mod 64); [apply orb_true_r|apply orb_false_r].
Qed.

Lemma Remove_ok b i :
  wf b -> 0 <= i < length_ b ->
  exists b', Remove b i = Ok b' /\ wf b' /\ length_ b' = length_ b /\
    forall j, 0 <= j -> bit b' j = negb (j =? i) && bit b j.
Proof.
  intros HW Hi. destruct (word_lookup b i HW Hi) as (w & Hw & Hu). unfold Remove.
  rewrite in_bounds_ok, Ok_bind, (word_at_ok b i w), Ok_bind by (done || lia).
  eexists. split; [done|]. split; [apply set_word_wf; [done|by apply land_word]|].
  split; [done|]. intros j Hj. erewrite (set_word_bit b i w _ false); [by destruct (j =? i)|lia|lia|done|].
  intros k Hk. rewrite Z.land_spec, word_not_testbit, bit_mask_testbit by lia.
  destruct (k =? i mod 64); [apply andb_false_r|apply andb_true_r].
Qed.

(** ** Whole sets *)

Lemma update_words_eq f d1 d2 :
  length d1 = length d2 ->
  update_words f d1 d2 = Ok (zip_with f d1 d2, negb (bool_decide (zip_with f d1 d2 = d1))).
Proof.
  revert d2. induction d1 as [|x d1 IH]; intros [|y d2] HL; try done. cbn [update_words].
  rewrite (IH d2), Ok_bind by (simpl in HL; lia). cbv beta iota zeta. f_equal. f_equal. cbn [zip_with].
  destruct (Z.eqb_spec x (f x y)) as [E|E]; cbn [negb orb].
  - f_equal. apply bool_decide_ext. rewrite <- E. split; [intros ->; done|]. by intros [= ->].
  - symmetry. rewrite bool_decide_eq_false_2; [done|]. congruence.
Qed.

(** A function of words that works bit by bit. *)
Record bitwise (f : Z -> Z -> Z) (g : bool -> bool -> bool) : Prop := {
  bw_word x y : is_u 64 x -> is_u 64 y -> is_u 64 (f x y);
  bw_bit x y k : 0 <= k < 64 -> Z.testbit (f x y) k = g (Z.testbit x k) (Z.testbit y k);
}.

Lemma bitwise_or : bitwise (fun x y => x .| y) orb.
Proof. split; [apply lor_word|]. intros. apply Z.lor_spec. Qed.
Lemma bitwise_and : bitwise (fun x y => x .& y) andb.
Proof. split; [intros; by apply land_word|]. intros. apply Z.land_spec. Qed.
Lemma bitwise_diff : bitwise (fun x y => x .& word_not y) (fun x y => x && negb y).
Proof.
  split; [intros; by apply land_word|]. intros x y k Hk. by rewrite Z.land_spec, word_not_testbit.
Qed.

(** Two vectors are equal if their bits are. *)
Lemma bits_ext b b' :
  wf b -> wf b' -> length_ b = length_ b' -> (forall i, 0 <= i -> bit b i = bit b' i) -> b = b'.
Proof.
  intros [_ HD HW] [_ HD' HW'] HL HB. destruct b as [l d], b' as [l' d']. simpl in *. subst l'. f_equal.
  unfold data_length_ in *. simpl in *.
  apply list_eq_same_length with (n := length d); [lia|done|].
  intros n x y Hn Hx Hy. rewrite Forall_lookup in HW, HW'. apply word_ext; [eauto..|]. intros k Hk.
  specialize (HB (64 * Z.of_nat n + k) ltac:(lia)). unfold bit in HB. simpl in HB.
  rewrite (Z.mul_comm 64), Z.div_add_l, (Z.div_small k), Z.add_0_r, Nat2Z.id in HB by lia.
  rewrite Z.add_comm, Z.mod_add, (Z.mod_small k) in HB by lia. by rewrite Hx, Hy in HB.
Qed.

Lemma update_ok f g a b data :
  bitwise f g -> wf a -> length data = length (data_ a) -> Forall (is_u 64) data ->
  b = mkBits (length_ a) data ->
  exists data' changed, update_words f (data_ a) data = Ok (data', changed) /\
    wf (mkBits (length_ a) data') /\
    (forall i, 0 <= i < 64 * data_length_ a ->
       bit (mkBits (length_ a) data') i = g (bit a i) (bit b i)) /\
    (forall i, 64 * data_length_ a <= i -> bit (mkBits (length_ a) data') i = false) /\
    (changed = true <-> exists i, 0 <= i /\ bit (mkBits (length_ a) data') i <> bit a i).
Proof.
  intros [BW BB] HW HL HU ->. rewrite update_words_eq by done. do 2 eexists. split; [done|].
  pose proof HW as [WL WD WW].
  assert (W' : wf (mkBits (length_ a) (zip_with f (data_ a) data))).
  { constructor; [done| |].
    - cbn [length_]. rewrite <- WD. unfold data_length_. simpl. rewrite length_zip_with. lia.
    - simpl. apply Forall_lookup. intros n x Hx.
      apply lookup_zip_with_Some in Hx as (u & v & -> & Hu & Hv).
      rewrite Forall_lookup in WW, HU. eauto. }
  split; [done|]. split; [|split].
  - intros i Hi. unfold bit. simpl.
    assert (LT : (Z.to_nat (i / 64) < length (data_ a))%nat).
    { unfold data_length_ in Hi. pose proof (Z.div_lt_upper_bound i 64 (Z.of_nat (length (data_ a)))).
      pose proof (Z.div_pos i 64). lia. }
    destruct (lookup_lt_is_Some_2 _ _ LT) as [u Hu].
    destruct (lookup_lt_is_Some_2 data (Z.to_nat (i / 64))) as [v Hv]; [lia|].
    rewrite lookup_zip_with, Hu, Hv. simpl. apply BB, mod64.
  - intros i Hi. unfold bit. simpl. rewrite lookup_ge_None_2; [done|]. rewrite length_zip_with.
    unfold data_length_ in Hi. pose proof (Z.div_le_lower_bound i 64 (Z.of_nat (length (data_ a)))). lia.
  - rewrite negb_true_iff, bool_decide_eq_false. split.
    + intros N. destruct (decide (Exists (fun n => bit (mkBits (length_ a) (zip_with f (data_ a) data)) (Z.of_nat n)
        <> bit a (Z.of_nat n)) (seq 0 (64 * length (data_ a))))) as [E|E].
      * apply Exists_exists in E as (n & _ & Hn). exists (Z.of_nat n). split; [lia|done].
      * exfalso. apply N. assert (mkBits (length_ a) (zip_with f (data_ a) data) = a) as E'.
        { apply bits_ext; [done|done|done|]. intros i Hi.
          destruct (decide (i < 64 * Z.of_nat (length (data_ a)))) as [L|L].
          - destruct (decide (bit (mkBits (length_ a) (zip_with f (data_ a) data)) i = bit a i)); [done|].
            destruct E. apply Exists_exists. exists (Z.to_nat i). rewrite Z2Nat.id by lia.
            split; [apply elem_of_seq; lia|done].
          - assert (HO : forall c, length (data_ c) = length (data_ a) -> bit c i = false).
            { intros c Hc. unfold bit. rewrite lookup_ge_None_2; [done|].
              pose proof (Z.div_le_lower_bound i 64 (Z.of_nat (length (data_ a)))). lia. }
            rewrite !HO; [done|done|]. simpl. rewrite length_zip_with. lia. }
        by rewrite <- E' at 2.
    + intros (i & _ & Hi) E. apply Hi. rewrite E. by destruct a.
Qed.

Lemma bit_beyond b i : 64 * data_length_ b <= i -> bit b i = false.
Proof.
  intros Hi. unfold bit. rewrite lookup_ge_None_2; [done|]. unfold data_length_ in Hi.
  pose proof (Z.div_le_lower_bound i 64 (Z.of_nat (length (data_ b)))). lia.
Qed.

Lemma same_data a b : wf a -> wf b -> length_ a = length_ b -> length (data_ a) = length (data_ b).
Proof. intros [_ Ha _] [_ Hb _] E. unfold data_length_ in *. rewrite E in Ha. lia. Qed.

(** What an operation that updates [a] with the words [data] returns. *)
Definition updates (a : BitVector) (spec : Z -> bool) (r : result (BitVector * bool)) : Prop :=
  exists b changed, r = Ok (b, changed) /\ wf b /\ length_ b = length_ a /\
    (forall i, 0 <= i -> bit b i = spec i) /\
    (changed = true <-> exists i, 0 <= i /\ bit b i <> bit a i).

Lemma update_spec f g a data :
  bitwise f g -> g false false = false -> wf a -> length data = length (data_ a) -> Forall (is_u 64) data ->
  updates a (fun i => g (bit a i) (bit (mkBits (length_ a) data) i))
    ('(d, changed) ← update_words f (data_ a) data; Ok (mkBits (length_ a) d, changed)).
Proof.
  intros HB HG HW HL HU.
  destruct (update_ok f g a (mkBits (length_ a) data) data) as (d & ch & -> & W & H1 & H2 & H3); [done..|].
  rewrite Ok_bind. do 2 eexists. split; [done|]. split; [done|]. split; [done|]. split; [|done].
  intros i Hi. destruct (Z.lt_ge_cases i (64 * data_length_ a)) as [L|L]; [by apply H1|].
  rewrite H2, (bit_beyond a i), (bit_beyond (mkBits (length_ a) data) i); [done| |done|done].
  unfold data_length_ in *. simpl. lia.
Qed.

Lemma AddAll_ok a b :
  wf a -> wf b -> length_ a = length_ b -> updates a (fun i => bit a i || bit b i) (AddAll a b).
Proof.
  intros Ha Hb E. pose proof (same_data a b Ha Hb E) as HL. unfold AddAll, data_length_ at 1 2.
  rewrite HL, Z.eqb_refl. cbn [utils_assert]. rewrite Ok_bind.
  apply (update_spec _ _ a (data_ b) bitwise_or); [done|done|lia|apply Hb].
Qed.

Lemma RemoveAll_ok a b :
  wf a -> wf b -> length_ a = length_ b -> updates a (fun i => bit a i && negb (bit b i)) (RemoveAll a b).
Proof.
  intros Ha Hb E. pose proof (same_data a b Ha Hb E) as HL. unfold RemoveAll, data_length_ at 1 2.
  rewrite HL, Z.eqb_refl. cbn [utils_assert]. rewrite Ok_bind.
  apply (update_spec _ _ a (data_ b) bitwise_diff); [done|done|lia|apply Hb].
Qed.

Lemma gen_words_eq kill gen : gen_words kill gen = zip_with (fun g k => g .& word_not k) gen kill.
Proof. revert gen. induction kill as [|k kill IH]; intros [|g gen]; simpl; [done..|]. by rewrite IH. Qed.

Lemma KillAndAdd_ok a kill gen :
  wf a -> wf kill -> wf gen -> length_ a = length_ kill -> length_ a = length_ gen ->
  updates a (fun i => bit a i || (bit gen i && negb (bit kill i))) (KillAndAdd a kill gen).
Proof.
  intros Ha Hk Hg Ek Eg. pose proof (same_data a kill Ha Hk Ek) as Lk.
  pose proof (same_data a gen Ha Hg Eg) as Lg. unfold KillAndAdd, data_length_ at 1 2 3 4.
  rewrite <- Lk, <- Lg, !Z.eqb_refl. cbn [utils_assert]. rewrite !Ok_bind, gen_words_eq.
  destruct (update_spec _ _ gen (data_ kill) bitwise_diff eq_refl Hg) as (d & ch & E & W & EL & HB & _);
    [lia|apply Hk|]. rewrite update_words_eq, Ok_bind in E by lia. injection E as <- _.
  destruct (update_spec _ _ a (zip_with (fun g k => g .& word_not k) (data_ gen) (data_ kill)) bitwise_or)
    as (b & ch' & E' & W' & EL' & HB' & HC'); [done|done|rewrite length_zip_with; lia|apply W|].
  exists b, ch'. split; [done|]. split; [done|]. split; [done|]. split; [|done].
  intros i Hi. rewrite HB' by done. f_equal. specialize (HB i Hi). rewrite <- Eg in HB. by rewrite HB.
Qed.

Lemma Intersect_ok a b :
  wf a -> wf b -> length_ a = length_ b ->
  exists c, Intersect a b = Ok c /\ wf c /\ length_ c = length_ a /\
    forall i, 0 <= i -> bit c i = bit a i && bit b i.
Proof.
  intros Ha Hb E. pose proof (same_data a b Ha Hb E) as HL. unfold Intersect.
  rewrite E, Z.eqb_refl. cbn [utils_assert]. rewrite Ok_bind, <- E.
  destruct (update_spec _ _ a (data_ b) bitwise_and) as (c & ch & EC & W & EL & HB & _);
    [done|done|lia|apply Hb|]. rewrite update_words_eq in EC |- * by done. rewrite Ok_bind in EC. rewrite Ok_bind.
  injection EC as <- _. eauto.
Qed.

Lemma bits_Clear_ok b : wf b -> wf (Clear b) /\ forall i, bit (Clear b) i = false.
Proof.
  intros [HL HD HW]. split.
  - constructor; [done| |].
    + cbn [Clear length_]. rewrite <- HD. unfold data_length_. simpl. by rewrite length_map.
    + simpl. apply Forall_map. by apply Forall_true.
  - intros i. unfold bit, Clear. simpl. rewrite list_lookup_fmap.
    destruct (data_ b !! _); [apply Z.testbit_0_l|done].
Qed.

Lemma CopyFrom_ok a b :
  wf a -> wf b -> length_ a = length_ b -> exists c, CopyFrom a b = Ok c /\ wf c /\
    length_ c = length_ a /\ forall i, 0 <= i -> bit c i = bit b i.
Proof.
  intros Ha Hb E. destruct (bits_Clear_ok a Ha) as [HC HZ].
  destruct (AddAll_ok (Clear a) b HC Hb E) as (c & ch & EC & W & EL & HB & _).
  unfold CopyFrom. rewrite EC, Ok_bind. exists c. split; [done|]. split; [done|]. split; [done|].
  intros i Hi. by rewrite HB, HZ.
Qed.

Lemma BitVector_new_ok n : 0 <= n -> wf (BitVector_new n) /\ forall i, bit (BitVector_new n) i = false.
Proof.
  intros Hn. destruct (SizeFor_bounds n Hn) as [_ HS]. apply bits_Clear_ok. constructor; [done| |].
  - unfold data_length_. simpl. rewrite length_replicate. lia.
  - simpl. by apply Forall_replicate.
Qed.

(** ** Comparisons *)

Lemma words_of_bits b : wf b -> Forall (fun w => w = 0) (data_ b) <-> forall i, 0 <= i -> bit b i = false.
Proof.
  intros HW. split.
  - intros HZ i Hi. unfold bit. destruct (data_ b !! Z.to_nat (i / 64)) as [w|] eqn:E; [|done].
    rewrite Forall_lookup in HZ. rewrite (HZ _ _ E). apply Z.testbit_0_l.
  - intros HB. destruct (bits_Clear_ok b HW) as [HC HZ].
    assert (b = Clear b) as ->.
    { apply bits_ext; [done|done|done|]. intros i Hi. by rewrite HB, HZ. }
    simpl. apply Forall_map. by apply Forall_true.
Qed.

Lemma IsEmpty_ok b : wf b -> IsEmpty b = true <-> forall i, 0 <= i -> bit b i = false.
Proof.
  intros HW. rewrite <- words_of_bits by done. unfold IsEmpty. rewrite forallb_forall, Forall_forall.
  setoid_rewrite list_elem_of_In. setoid_rewrite Z.eqb_eq. done.
Qed.

Lemma subset_words_ok d1 d2 :
  length d1 = length d2 ->
  exists t, subset_words d1 d2 = Ok t /\ (t = true <-> zip_with (fun x y => x .& y) d1 d2 = d1).
Proof.
  revert d2. induction d1 as [|x d1 IH]; intros [|y d2] HL; try done; [by exists true|].
  cbn [subset_words zip_with]. destruct (Z.eqb_spec (x .& y) x) as [E|E]; cbn [negb].
  - destruct (IH d2) as (t & -> & Ht); [simpl in HL; lia|]. exists t. split; [done|].
    rewrite Ht, E. split; [by intros ->|by intros [= ->]].
  - exists false. split; [done|]. split; [done|]. congruence.
Qed.

Lemma SubsetOf_ok a b :
  wf a -> wf b -> length_ a = length_ b ->
  exists t, SubsetOf a b = Ok t /\ (t = true <-> forall i, 0 <= i -> bit a i = true -> bit b i = true).
Proof.
  intros Ha Hb E. pose proof (same_data a b Ha Hb E) as HL. unfold SubsetOf.
  rewrite E, Z.eqb_refl. cbn [utils_assert]. rewrite Ok_bind.
  destruct (subset_words_ok (data_ a) (data_ b) HL) as (t & -> & Ht). exists t. split; [done|].
  rewrite Ht. destruct (Intersect_ok a b Ha Hb E) as (c & EC & HC & Ec & HB).
  unfold Intersect in EC. rewrite E, Z.eqb_refl in EC. cbn [utils_assert] in EC.
  rewrite Ok_bind, update_words_eq, Ok_bind in EC by done. injection EC as <-. split.
  - intros EQ i Hi HA. specialize (HB i Hi). rewrite <- E, EQ in HB.
    replace (mkBits (length_ a) (data_ a)) with a in HB by (by destruct a). rewrite HA in HB. by destruct (bit b i).
  - intros HS. assert (mkBits (length_ a) (zip_with (fun x y => x .& y) (data_ a) (data_ b)) = a) as EQ.
    { rewrite <- E in HC, HB. apply bits_ext; [done|done|done|]. intros i Hi. rewrite HB by done.
      specialize (HS i Hi). destruct (bit a i); [by rewrite HS|done]. }
    by rewrite <- EQ at 2.
Qed.

(** The mask of the last word. *)
Lemma last_mask_testbit r k :
  0 < r < 64 -> 0 <= k < 64 -> Z.testbit ((2 ^ 64 - 1) >> (kBitsPerWord - r)) k = (k <? r).
Proof.
  intros Hr Hk. unfold kBitsPerWord. rewrite Z.shiftr_spec by lia. change (2 ^ 64 - 1) with (Z.ones 64).
  destruct (Z.ltb_spec k r).
  - apply Z.ones_spec_low. lia.
  - apply Z.ones_spec_high. lia.
Qed.

(** Equality of the last words below the length. *)
Definition last_equal (length w w' : Z) : Prop :=
  forall k, 0 <= k < 64 -> (length mod 64 = 0 \/ k < length mod 64) -> Z.testbit w k = Z.testbit w' k.

Lemma last_words length w w' :
  0 <= length -> is_u 64 w -> is_u 64 w' ->
  (if Z.rem length kBitsPerWord =? 0 then w =? w'
   else w .& ((2 ^ 64 - 1) >> (kBitsPerWord - Z.rem length kBitsPerWord)) =?
        w' .& ((2 ^ 64 - 1) >> (kBitsPerWord - Z.rem length kBitsPerWord))) = true <->
  last_equal length w w'.
Proof.
  intros HL Hw Hw'. destruct (bit_split length HL) as [_ ->]. pose proof (mod64 length) as Hm.
  unfold last_equal. destruct (Z.eqb_spec (length mod 64) 0) as [E|E]; rewrite Z.eqb_eq.
  - split; [intros ->; done|]. intros H. apply word_ext; [done|done|]. intros k Hk. apply H; auto.
  - split.
    + intros EQ k Hk [?|Hk']; [done|]. apply (f_equal (fun z => Z.testbit z k)) in EQ.
      rewrite !Z.land_spec, last_mask_testbit in EQ by lia.
      replace (k <? length mod 64) with true in EQ by lia. by rewrite !andb_true_r in EQ.
    + intros H. apply word_ext; [by apply land_word..|]. intros k Hk.
      rewrite !Z.land_spec, last_mask_testbit by lia. destruct (Z.ltb_spec k (length mod 64)).
      * by rewrite (H k Hk) by auto.
      * by rewrite !andb_false_r.
Qed.

Lemma equal_words_ok len d1 d2 :
  0 <= len -> length d1 = length d2 -> Forall (is_u 64) d1 -> Forall (is_u 64) d2 ->
  exists t, equal_words len d1 d2 = Ok t /\
    (t = true <-> forall n x y, d1 !! n = Some x -> d2 !! n = Some y ->
       if (S n =? length d1)%nat then last_equal len x y else x = y).
Proof.
  intros HL. revert d2. induction d1 as [|x d1 IH]; intros [|y d2] HD H1 H2; try done.
  { exists true. split; [done|]. split; [|done]. by intros _ n ? ?. }
  inversion H1 as [|? ? Hx H1']; inversion H2 as [|? ? Hy H2']; subst.
  destruct d1 as [|x1 d1].
  - destruct d2; [|done]. pose proof (last_words len x y HL Hx Hy) as LW.
    exists (if Z.rem len kBitsPerWord =? 0 then x =? y
       else x .& ((2 ^ 64 - 1) >> (kBitsPerWord - Z.rem len kBitsPerWord)) =?
            y .& ((2 ^ 64 - 1) >> (kBitsPerWord - Z.rem len kBitsPerWord))).
    split; [cbn [equal_words]; by destruct (Z.rem len kBitsPerWord =? 0)|]. rewrite LW. split.
    + intros LE [|n] u v Hu Hv; [|done]. by simplify_eq/=.
    + intros LE. by apply (LE 0%nat).
  - destruct d2 as [|y1 d2]; [done|].
    change (equal_words len (x :: x1 :: d1) (y :: y1 :: d2))
      with (if negb (x =? y) then Ok false else equal_words len (x1 :: d1) (y1 :: d2)).
    destruct (Z.eqb_spec x y) as [->|N]; cbn [negb].
    + destruct (IH (y1 :: d2)) as (t & -> & Ht); [simpl in *; lia|done|done|]. exists t. split; [done|].
      rewrite Ht. split; intros H n u v.
      * destruct n as [|n]; [intros; by simplify_eq/=|]. apply H.
      * apply (H (S n)).
    + exists false. split; [done|]. split; [done|]. intros H. by destruct N; apply (H 0%nat).
Qed.

Lemma Equals_ok a b :
  wf a -> wf b -> 0 < length_ a ->
  exists t, Equals a b = Ok t /\
    (t = true <-> length_ a = length_ b /\ forall i, 0 <= i < length_ a -> bit a i = bit b i).
Proof.
  intros Ha Hb H0. unfold Equals. destruct (Z.eqb_spec (length_ a) (length_ b)) as [E|E]; cbn [negb].
  2: { exists false. split; [done|]. split; [done|]. by intros [? _]. }
  pose proof (same_data a b Ha Hb E) as HD.
  destruct (equal_words_ok (length_ a) (data_ a) (data_ b)) as (t & -> & Ht);
    [apply Ha|done|apply Ha|apply Hb|]. exists t. split; [done|]. rewrite Ht.
  pose proof (wf_words _ Ha) as WA. pose proof (wf_words _ Hb) as WB.
  destruct Ha as [_ WD _]. unfold SizeFor, kBitsPerWord, data_length_ in WD.
  rewrite Z.quot_div_nonneg in WD by lia.
  pose proof (Z.div_mod (length_ a - 1) 64 ltac:(lia)) as D1. pose proof (mod64 (length_ a - 1)) as M1.
  pose proof (Z.div_mod (length_ a) 64 ltac:(lia)) as D2. pose proof (mod64 (length_ a)) as M2.
  set (N := length (data_ a)) in *.
  split.
  - intros H. split; [done|]. intros i Hi.
    pose proof (Z.div_mod i 64 ltac:(lia)) as D3. pose proof (mod64 i) as M3.
    pose proof (Z.div_pos i 64 ltac:(lia) ltac:(lia)) as P3.
    destruct (lookup_lt_is_Some_2 (data_ a) (Z.to_nat (i / 64))) as [x Hx]; [fold N; nia|].
    destruct (lookup_lt_is_Some_2 (data_ b) (Z.to_nat (i / 64))) as [y Hy]; [rewrite <- HD; nia|].
    unfold bit. rewrite Hx, Hy. specialize (H _ x y Hx Hy).
    destruct (Nat.eqb_spec (S (Z.to_nat (i / 64))) N) as [EN|EN]; [|by subst].
    apply H; [done|]. destruct (decide (length_ a mod 64 = 0)) as [|NZ]; [by left|right]. nia.
  - intros [_ H] n x y Hx Hy.
    assert (BX : forall k, 0 <= k < 64 -> bit a (64 * Z.of_nat n + k) = Z.testbit x k /\
      bit b (64 * Z.of_nat n + k) = Z.testbit y k).
    { intros k Hk. unfold bit.
      replace ((64 * Z.of_nat n + k) / 64) with (Z.of_nat n) by (apply (Z.div_unique _ _ _ k); lia).
      replace ((64 * Z.of_nat n + k) mod 64) with k by (apply (Z.mod_unique _ _ (Z.of_nat n)); lia).
      by rewrite Nat2Z.id, Hx, Hy. }
    pose proof (lookup_lt_Some _ _ _ Hx) as Ln. fold N in Ln.
    destruct (Nat.eqb_spec (S n) N) as [EN|EN].
    + intros k Hk HK. destruct (BX k Hk) as [<- <-]. apply H. split; [lia|]. nia.
    + apply word_ext; [exact (Forall_lookup_1 _ _ _ _ WA Hx)|exact (Forall_lookup_1 _ _ _ _ WB Hy)|].
      intros k Hk. destruct (BX k Hk) as [<- <-]. apply H. nia.
Qed.
