(* ===== verification/BitVectorSpec.v ===== *)
(** The iterator of [BitVector] enumerates the set in increasing order; what the operations
    do, and the bits that [SetAll] leaves beyond the length. *)
From stdpp Require Import base numbers list.
From Stdlib Require Import ZArith Lia.
From S2P Require Import Prelude Utils BitVector BitVectorProps.
Local Open Scope Z_scope.
Local Open Scope cxx_scope.

(** ** Skipping zeros *)

Lemma land_ones_zero w n : 0 <= n -> (w .& (2 ^ n - 1) =? 0) = true <-> forall k, 0 <= k < n -> Z.testbit w k = false.
Proof.
  intros Hn. rewrite Z.eqb_eq. replace (2 ^ n - 1) with (Z.ones n) by (rewrite Z.ones_equiv; lia). split.
  - intros E k Hk. apply (f_equal (fun z => Z.testbit z k)) in E.
    rewrite Z.land_spec, Z.ones_spec_low, andb_true_r, Z.testbit_0_l in E by lia. done.
  - intros H. apply Z.bits_inj'. intros k Hk. rewrite Z.land_spec, Z.testbit_0_l.
    destruct (Z.lt_ge_cases k n); [by rewrite H|]. rewrite Z.ones_spec_high by lia. apply andb_false_r.
Qed.

(** The loop shifts out whole groups of [n] zero bits. *)
Lemma skip_zeros_ok n fuel : 0 < n -> forall w b j,
  0 <= j < n * Z.of_nat fuel -> Z.testbit w j = true ->
  exists k, skip_zeros fuel n (2 ^ n - 1) w b = Ok (w >> k, b + k) /\ 0 <= k <= j /\
    (forall i, 0 <= i < k -> Z.testbit w i = false) /\
    exists i, 0 <= i < n /\ Z.testbit w (k + i) = true.
Proof.
  intros Hn. induction fuel as [|fuel IH]; intros w b j Hj HB; [lia|]. cbn [skip_zeros].
  destruct (w .& (2 ^ n - 1) =? 0) eqn:E.
  - pose proof (proj1 (land_ones_zero w n ltac:(lia)) E) as HZ.
    assert (n <= j) by (destruct (Z.lt_ge_cases j n) as [L|L]; [rewrite HZ in HB by lia; done|lia]).
    destruct (IH (w >> n) (b + n) (j - n)) as (k & -> & Hk & HK & i & Hi & HI).
    + lia.
    + rewrite Z.shiftr_spec by lia. by replace (j - n + n) with j by lia.
    + exists (n + k). rewrite Z.shiftr_shiftr by lia. split; [by rewrite Z.add_assoc|]. split; [lia|]. split.
      * intros i' Hi'. destruct (Z.lt_ge_cases i' n); [apply HZ; lia|].
        specialize (HK (i' - n) ltac:(lia)). rewrite Z.shiftr_spec in HK by lia.
        by replace (i' - n + n) with i' in HK by lia.
      * exists i. split; [done|]. rewrite Z.shiftr_spec in HI by lia.
        by replace (n + k + i) with (k + i + n) by lia.
  - exists 0. rewrite Z.shiftr_0_r, Z.add_0_r. split; [done|]. split; [lia|]. split; [intros; lia|].
    destruct (decide (Exists (fun m => Z.testbit w (Z.of_nat m) = true) (seq 0 (Z.to_nat n)))) as [X|X].
    + apply Exists_exists in X as (m & Hm & HM). apply elem_of_seq in Hm. exists (Z.of_nat m).
      split; [lia|done].
    + exfalso. assert ((w .& (2 ^ n - 1) =? 0) = true); [|congruence].
      apply land_ones_zero; [lia|]. intros k Hk. destruct (Z.testbit w k) eqn:EK; [|done].
      destruct X. apply Exists_exists. exists (Z.to_nat k). rewrite Z2Nat.id by lia.
      split; [apply elem_of_seq; lia|done].
Qed.

(** Both loops together find the lowest bit. *)
Definition lowest (w k : Z) : Prop :=
  0 <= k < 64 /\ Z.testbit w k = true /\ forall i, 0 <= i < k -> Z.testbit w i = false.

Lemma find_lowest w wi b :
  is_u 64 w -> w <> 0 ->
  exists k, lowest w k /\
    ('(word, bit_index) ← skip_zeros 8 8 0xff w b;
     '(word, bit_index) ← skip_zeros 8 1 0x1 word bit_index;
     Ok (mkIter bit_index wi (word >> 1))) = Ok (mkIter (b + k) wi (w >> (k + 1))).
Proof.
  intros Hw HN.
  assert (exists j, 0 <= j < 64 /\ Z.testbit w j = true) as (j & Hj & HJ).
  { exists (Z.log2 w). destruct Hw as [H0 HM].
    pose proof (Z.log2_lt_pow2 w 64 ltac:(lia)). pose proof (Z.log2_nonneg w).
    split; [lia|]. apply Z.bit_log2. lia. }
  destruct (skip_zeros_ok 8 8 ltac:(lia) w b j ltac:(lia) HJ) as (k & E & Hk & HK & i & Hi & HI).
  change (2 ^ 8 - 1) with 255 in E. rewrite E, Ok_bind.
  destruct (skip_zeros_ok 1 8 ltac:(lia) (w >> k) (b + k) i ltac:(lia)) as (k' & E' & Hk' & HK' & i' & Hi' & HI').
  { rewrite Z.shiftr_spec by lia. by rewrite Z.add_comm. }
  change (2 ^ 1 - 1) with 1 in E'. rewrite E', Ok_bind. assert (i' = 0) as -> by lia.
  rewrite Z.shiftr_spec in HI' by lia. exists (k + k'). split.
  - assert (k + k' < 64).
    { destruct (Z.lt_ge_cases (k + k') 64) as [L|L]; [done|].
      rewrite (testbit_high 64) in HI' by (done || lia). done. }
    split; [lia|]. split; [by replace (k + k') with (k' + 0 + k) by lia|].
    intros m Hm. destruct (Z.lt_ge_cases m k) as [L|L]; [apply HK; lia|].
    specialize (HK' (m - k) ltac:(lia)). rewrite Z.shiftr_spec in HK' by lia.
    by replace (m - k + k) with m in HK' by lia.
  - rewrite !Z.shiftr_shiftr, !Z.add_assoc by lia. done.
Qed.

(** ** [Advance] *)

(** The iterator has passed all elements below [P]. *)
Record at_pos (b : BitVector) (P : Z) (it : Iterator) (w : Z) : Prop := {
  at_bit : bit_index_ it = P - 1;
  at_word : 0 <= word_index_ it;
  at_data : data_ b !! Z.to_nat (word_index_ it) = Some w;
  at_lo : 64 * word_index_ it <= P;
  at_hi : P <= 64 * word_index_ it + 64;
  at_current : current_word_ it = w >> (P - 64 * word_index_ it);
}.

(** The bit [k] of word [n]. *)
Lemma bit_of_word b n k w :
  0 <= n -> 0 <= k < 64 -> data_ b !! Z.to_nat n = Some w -> bit b (64 * n + k) = Z.testbit w k.
Proof.
  intros Hn Hk Hw. unfold bit.
  replace ((64 * n + k) / 64) with n by (apply (Z.div_unique _ _ _ k); lia).
  replace ((64 * n + k) mod 64) with k by (apply (Z.mod_unique _ _ n); lia). by rewrite Hw.
Qed.

Lemma bit_in_word b i n w :
  0 <= n -> 64 * n <= i < 64 * n + 64 -> data_ b !! Z.to_nat n = Some w ->
  bit b i = Z.testbit w (i - 64 * n).
Proof. intros. rewrite <- (bit_of_word b n) by (done || lia). f_equal. lia. Qed.

Lemma skip_words_ok b fuel : forall n,
  0 <= n -> data_length_ b <= n + Z.of_nat fuel -> n < data_length_ b ->
  exists n' r, skip_words fuel b n = Ok (n', r) /\ n < n' /\
    (forall m, n < m < n' -> m < data_length_ b -> data_ b !! Z.to_nat m = Some 0) /\
    match r with
    | None => data_length_ b <= n'
    | Some w => n' < data_length_ b /\ data_ b !! Z.to_nat n' = Some w /\ w <> 0
    end.
Proof.
  induction fuel as [|fuel IH]; intros n Hn HF HL; [lia|]. cbn [skip_words]. cbv zeta.
  destruct (Z.leb_spec (data_length_ b) (n + 1)).
  { do 2 eexists. split; [done|]. split; [lia|]. split; [intros; lia|done]. }
  destruct (lookup_lt_is_Some_2 (data_ b) (Z.to_nat (n + 1))) as [w Hw]; [unfold data_length_ in *; lia|].
  unfold word_at. rewrite Hw, Ok_bind. destruct (Z.eqb_spec w 0) as [->|N].
  - destruct (IH (n + 1)) as (n' & r & -> & Hn' & HZ & HR); [lia..|].
    do 2 eexists. split; [done|]. split; [lia|]. split; [|done]. intros m Hm HM.
    destruct (decide (m = n + 1)) as [->|]; [done|]. apply HZ; lia.
  - do 2 eexists. split; [done|]. split; [lia|]. split; [intros; lia|done].
Qed.

(** The next element: where the iterator stops. *)
Definition advanced (b : BitVector) (P : Z) (it : Iterator) : Prop :=
  Done b it = true /\ (forall i, P <= i -> bit b i = false) \/
  Done b it = false /\ P <= bit_index_ it /\ bit b (bit_index_ it) = true /\
    (forall i, P <= i < bit_index_ it -> bit b i = false) /\
    exists w, at_pos b (bit_index_ it + 1) it w.

(** Stopping in word [n], where nothing from [P] on precedes it. *)
Lemma advanced_in b P n w k p :
  Forall (is_u 64) (data_ b) -> 0 <= n -> data_ b !! Z.to_nat n = Some w ->
  0 <= p <= 64 -> lowest (w >> p) k -> (forall i, P <= i < 64 * n + p -> bit b i = false) -> P <= 64 * n + p ->
  advanced b P (mkIter (64 * n + p + k) n (w >> (p + k + 1))).
Proof.
  intros HU Hn Hw Hp (Hk & HT & HZ) HP HPn. right. rewrite Z.shiftr_spec in HT by lia.
  assert (Lk : p + k < 64).
  { destruct (Z.lt_ge_cases (p + k) 64) as [L|L]; [done|].
    rewrite (testbit_high 64 w) in HT; [done|by eapply Forall_lookup_1|lia]. }
  unfold Done. cbn [bit_index_ word_index_]. split.
  { apply Z.leb_gt. unfold data_length_. apply lookup_lt_Some in Hw. lia. }
  split; [lia|]. split.
  { rewrite (bit_in_word b _ n w) by (done || lia). by replace (64 * n + p + k - 64 * n) with (k + p) by lia. }
  split.
  - intros i Hi. destruct (Z.lt_ge_cases i (64 * n + p)) as [L|L]; [apply HP; lia|].
    rewrite (bit_in_word b i n w) by (done || lia). specialize (HZ (i - 64 * n - p) ltac:(lia)).
    rewrite Z.shiftr_spec in HZ by lia. by replace (i - 64 * n - p + p) with (i - 64 * n) in HZ by lia.
  - exists w. constructor; cbn [bit_index_ word_index_ current_word_]; try done; try lia. f_equal. lia.
Qed.

Lemma Advance_ok b P it w :
  Forall (is_u 64) (data_ b) -> at_pos b P it w ->
  exists it', Advance b it = Ok it' /\ advanced b P it'.
Proof.
  intros HU [AB AW AD AL AH AC]. destruct it as [bi wi cur]. cbn [bit_index_ word_index_ current_word_] in *.
  assert (Hw : is_u 64 w) by (by eapply Forall_lookup_1).
  pose proof (lookup_lt_Some _ _ _ AD) as LW. unfold Advance. cbn [bit_index_ word_index_ current_word_].
  cbv zeta. destruct (Z.eqb_spec cur 0) as [E|E].
  - assert (ZW : forall i, P <= i < 64 * wi + 64 -> bit b i = false).
    { intros i Hi. rewrite (bit_in_word b i wi w) by (done || lia). rewrite AC in E.
      apply (f_equal (fun z => Z.testbit z (i - P))) in E. rewrite Z.shiftr_spec, Z.testbit_0_l in E by lia.
      by replace (i - P + (P - 64 * wi)) with (i - 64 * wi) in E by lia. }
    destruct (skip_words_ok b (length (data_ b)) wi) as (n' & r & -> & Hn' & HZ & HR);
      [done|unfold data_length_; lia|unfold data_length_; lia|]. rewrite Ok_bind.
    assert (ZB : forall i, P <= i < 64 * n' -> bit b i = false).
    { intros i Hi. destruct (Z.lt_ge_cases i (64 * wi + 64)) as [L|L]; [apply ZW; lia|].
      destruct (Z.lt_ge_cases i (64 * data_length_ b)) as [L'|L']; [|by apply bit_beyond].
      pose proof (Z.div_mod i 64 ltac:(lia)). pose proof (mod64 i).
      rewrite (bit_in_word b i (i / 64) 0); [apply Z.testbit_0_l|lia|lia|apply HZ; lia]. }
    destruct r as [w'|].
    + destruct HR as (Ln' & Hw' & Nw'). assert (is_u 64 w') by (by eapply Forall_lookup_1).
      destruct (find_lowest w' n' (n' * kBitsPerWord)) as (k & HK & ->); [done..|].
      eexists. split; [done|].
      pose proof (advanced_in b P n' w' k 0 HU ltac:(lia) Hw' ltac:(lia)) as A.
      rewrite Z.shiftr_0_r, !Z.add_0_r, Z.add_0_l, (Z.mul_comm 64) in A. apply A; [done| |lia].
      intros i Hi. apply ZB. lia.
    + eexists. split; [done|]. left. unfold Done. cbn [word_index_]. split; [by apply Z.leb_le|].
      intros i Hi. destruct (Z.lt_ge_cases i (64 * n')); [by apply ZB|]. apply bit_beyond. lia.
  - assert (is_u 64 cur) as Hc.
    { rewrite AC. apply word_bits; [apply Z.shiftr_nonneg; apply Hw|]. intros k Hk.
      rewrite Z.shiftr_spec by lia. apply (testbit_high 64); [done|lia]. }
    destruct (find_lowest cur wi (bi + 1)) as (k & HK & ->); [done..|]. eexists. split; [done|].
    pose proof (advanced_in b P wi w k (P - 64 * wi) HU AW AD ltac:(lia)) as A. rewrite <- AC in A.
    pose proof (proj1 HK) as Hk0. specialize (A HK). rewrite AC, Z.shiftr_shiftr by lia.
    replace (bi + 1 + k) with (64 * wi + (P - 64 * wi) + k) by lia.
    replace (P - 64 * wi + (k + 1)) with (P - 64 * wi + k + 1) by lia. apply A; [intros; lia|lia].
Qed.

(** ** Enumeration *)

(** The elements from [P] on, below [N]. *)
Definition elements_from (b : BitVector) (P N : Z) : list Z :=
  base.filter (fun i => bit b i = true) (seqZ P (N - P)).

Lemma filter_none (P : Z -> Prop) `{!forall x, Decision (P x)} (l : list Z) :
  Forall (fun i => ~ P i) l -> base.filter P l = [].
Proof.
  induction 1 as [|x l Hx _ IH]; [done|]. by rewrite filter_cons, decide_False.
Qed.

Lemma elements_none b P N : (forall i, P <= i -> bit b i = false) -> elements_from b P N = [].
Proof.
  intros H. unfold elements_from. apply filter_none, Forall_forall. intros i [Hi _]%elem_of_seqZ.
  by rewrite H.
Qed.

Lemma elements_next b P n N :
  P <= n < N -> bit b n = true -> (forall i, P <= i < n -> bit b i = false) ->
  elements_from b P N = n :: elements_from b (n + 1) N.
Proof.
  intros Hn HB HZ. unfold elements_from.
  replace (N - P) with ((n - P) + (1 + (N - (n + 1)))) by lia.
  rewrite seqZ_app, filter_app by lia.
  rewrite (filter_none _ (seqZ P (n - P))).
  2: { apply Forall_forall. intros i Hi%elem_of_seqZ. by rewrite HZ by lia. }
  replace (P + (n - P)) with n by lia. rewrite seqZ_cons by lia. simpl.
  rewrite filter_cons, decide_True by done. do 3 f_equal; lia.
Qed.

Lemma iterate_from_ok b fuel : forall P it,
  Forall (is_u 64) (data_ b) -> 0 <= P -> advanced b P it ->
  64 * data_length_ b - P <= Z.of_nat fuel ->
  iterate_from fuel b it = Ok (elements_from b P (64 * data_length_ b)).
Proof.
  induction fuel as [|fuel IH]; intros P it HU HP HA HF; cbn [iterate_from];
    destruct HA as [[-> HZ]|(HD & HL & HB & HZ & w & HAt)]; try (by rewrite elements_none).
  all: assert (LN : bit_index_ it < 64 * data_length_ b)
    by (destruct (Z.lt_ge_cases (bit_index_ it) (64 * data_length_ b)); [done|]; by rewrite bit_beyond in HB).
  - lia.
  - rewrite HD. unfold Current. rewrite HD. cbn [negb utils_assert]. rewrite !Ok_bind.
    destruct (Advance_ok b _ it w HU HAt) as (it' & -> & HA'). rewrite Ok_bind.
    rewrite (IH (bit_index_ it + 1) it' HU ltac:(lia) HA') by lia. rewrite Ok_bind. f_equal.
    symmetry. by apply elements_next.
Qed.

(** C30: iterating over a bit vector visits exactly its elements, each once and in increasing
    order. *)
Theorem iterate_elements b :
  wf b -> iterate b = Ok (elements_from b 0 (64 * data_length_ b)).
Proof.
  intros [HL HD HU]. destruct (SizeFor_bounds _ HL) as [_ HS].
  destruct (lookup_lt_is_Some_2 (data_ b) 0) as [w Hw]; [unfold data_length_ in HD; lia|].
  unfold iterate, Iterator_new, word_at. change (Z.to_nat 0) with 0%nat. rewrite Hw, Ok_bind.
  replace (0 <? data_length_ b) with true by (symmetry; apply Z.ltb_lt; lia).
  cbn [utils_assert]. rewrite Ok_bind.
  destruct (Advance_ok b 0 (mkIter (-1) 0 w) w HU) as (it & -> & HA).
  { constructor; cbn [bit_index_ word_index_ current_word_]; done. }
  rewrite Ok_bind. apply iterate_from_ok; [done|done|done|]. unfold kBitsPerWord. lia.
Qed.

Definition example_bits : BitVector := mkBits 192 [5; 0; 2 ^ 63 + 2 ^ 40 + 1].

Lemma wf_example n words :
  (0 <=? n) && (Z.of_nat (length words) =? SizeFor n) && forallb (fun w => (0 <=? w) && (w <? 2 ^ 64)) words = true ->
  wf (mkBits n words).
Proof.
  rewrite !andb_true_iff. intros [[Hn HL] HW]. constructor; simpl; [lia|by apply Z.eqb_eq|].
  rewrite forallb_forall in HW. apply Forall_forall. intros w Hw%list_elem_of_In%HW. unfold is_u. lia.
Qed.

Lemma iterate_elements_witness :
  wf example_bits /\ iterate example_bits = Ok [0; 2; 128; 168; 191].
Proof.
  assert (HW : wf example_bits) by (by apply wf_example).
  split; [exact HW|]. rewrite (iterate_elements example_bits HW). vm_compute. reflexivity.
Defined.

(** ** The set operations *)

(** C31: on vectors of one length, [AddAll], [RemoveAll] and [KillAndAdd] are union,
    difference and the transfer function of a data-flow analysis, and report whether the set
    changed; [Intersect] and [CopyFrom] are intersection and assignment; [SubsetOf] decides
    inclusion and [IsEmpty] emptiness. None of them runs into an assertion or leaves the words
    of the vectors. *)
Theorem bit_vector_operations a b c :
  wf a -> wf b -> wf c -> length_ a = length_ b -> length_ a = length_ c ->
  updates a (fun i => bit a i || bit b i) (AddAll a b) /\
  updates a (fun i => bit a i && negb (bit b i)) (RemoveAll a b) /\
  updates a (fun i => bit a i || (bit c i && negb (bit b i))) (KillAndAdd a b c) /\
  (exists d, Intersect a b = Ok d /\ wf d /\ length_ d = length_ a /\
     forall i, 0 <= i -> bit d i = bit a i && bit b i) /\
  (exists d, CopyFrom a b = Ok d /\ wf d /\ length_ d = length_ a /\
     forall i, 0 <= i -> bit d i = bit b i) /\
  (exists t, SubsetOf a b = Ok t /\
     (t = true <-> forall i, 0 <= i -> bit a i = true -> bit b i = true)) /\
  (IsEmpty a = true <-> forall i, 0 <= i -> bit a i = false).
Proof.
  intros Ha Hb Hc Eb Ec. split; [by apply AddAll_ok|]. split; [by apply RemoveAll_ok|].
  split; [by apply KillAndAdd_ok|]. split; [by apply Intersect_ok|]. split; [by apply CopyFrom_ok|].
  split; [by apply SubsetOf_ok|by apply IsEmpty_ok].
Qed.

Lemma bit_vector_operations_witness :
  wf example_bits /\
  (exists t, SubsetOf example_bits (mkBits 192 [7; 0; 2 ^ 64 - 1]) = Ok t /\
     (t = true <-> forall i, 0 <= i -> bit example_bits i = true ->
                     bit (mkBits 192 [7; 0; 2 ^ 64 - 1]) i = true)).
Proof.
  assert (HW : wf example_bits) by (by apply wf_example).
  split; [exact HW|].
  destruct (bit_vector_operations example_bits (mkBits 192 [7; 0; 2 ^ 64 - 1]) (BitVector_new 192))
    as (_ & _ & _ & _ & _ & H & _);
    [exact HW|by apply wf_example|by apply wf_example|reflexivity|reflexivity|exact H].
Defined.

(** ** Bits beyond the length *)

(** What a sequence of operations leaves. *)
Definition emptied : result (BitVector * list Z * bool) :=
  let b := SetAll (BitVector_new 3) in
  b ← Remove b 0; b ← Remove b 1; b ← Remove b 2;
  seen ← iterate b;
  same ← Equals b (BitVector_new 3);
  Ok (b, seen, same).

(** [SetAll] also sets the bits of the last word beyond the length. After it, and after
    the removal of every element, the vector equals the empty one by [Equals], yet it is not
    empty by [IsEmpty] and its iterator still yields the 61 indices beyond the length, which
    none of [Contains], [Add] and [Remove] accepts. *)
Theorem SetAll_beyond_length :
  exists b, emptied = Ok (b, seqZ 3 61, true) /\ IsEmpty b = false /\
    Contains b 3 = Fatal UtilsAssertion /\ Remove b 3 = Fatal UtilsAssertion.
Proof. exists (mkBits 3 [2 ^ 64 - 8]). repeat split; by vm_compute. Qed.
