(* ===== verification/BitSet.v ===== *)
(** [BitSet<N>] of [runtime/vm/bit_set.h]: fixed-length sequences of bits, and that its
    operations are those of a set with its next and last elements.

    A set is the list of the words of its array, which the invariant [set_wf] gives the length
    [kLengthInWords]; words have 64 bits. A failed [ASSERT] is [Fatal UtilsAssertion] and an
    access past the end of the array [Undefined]. *)
From stdpp Require Import base numbers list.
From Stdlib Require Import ZArith Lia ZifyBool.
From S2P Require Import Prelude Utils BitVector BitVectorProps.
Local Open Scope Z_scope.
Local Open Scope cxx_scope.

Abbreviation result := (outcome utils_error).
Abbreviation kBitsPerWordLog2 := 6.

(** ** Zeros of a word *)

Fixpoint trailing_zeros (p : positive) : Z :=
  match p with
  | xO p => 1 + trailing_zeros p
  | _ => 0
  end.

Definition CountTrailingZerosWord (x : Z) : Z :=
  match x with Zpos p => trailing_zeros p | _ => 64 end.

Definition CountLeadingZerosWord (x : Z) : Z := if x =? 0 then 64 else 63 - Z.log2 x.

Section bitset.
Variable N : Z.

Definition kLengthInWords : Z := 1 + Z.quot (N - 1) kBitsPerWord.

(** [data_[w]]. *)
Definition set_word_at (data_ : list Z) (w : Z) : result Z :=
  match data_ !! Z.to_nat w with Some d => Ok d | None => Undefined end.

Definition set_update (data_ : list Z) (w : Z) (d : Z) : list Z := <[Z.to_nat w := d]> data_.

Definition set_mask (i : Z) : Z := wrapu 64 (1 << (i .& (kBitsPerWord - 1))).

Definition set_bounds (i : Z) : result () := utils_assert ((0 <=? i) && (i <? N)).

Definition Set_ (data_ : list Z) (i : Z) (value : bool) : result (list Z) :=
  _ ← set_bounds i;
  d ← set_word_at data_ (i >> kBitsPerWordLog2);
  Ok (set_update data_ (i >> kBitsPerWordLog2) (if value then d .| set_mask i else d .& word_not (set_mask i))).

Definition Test_ (data_ : list Z) (i : Z) : result bool :=
  _ ← set_bounds i;
  d ← set_word_at data_ (i >> kBitsPerWordLog2);
  Ok (negb (d .& set_mask i =? 0)).

(** The loop of [Next]: [words] are the words from index [w] on. *)
Fixpoint next_from (words : list Z) (w : Z) : Z :=
  match words with
  | [] => -1
  | d :: words =>
      if negb (d =? 0) then (w << kBitsPerWordLog2) + CountTrailingZerosWord d else next_from words (w + 1)
  end.

Definition Next (data_ : list Z) (i : Z) : result Z :=
  _ ← set_bounds i;
  let w := i >> kBitsPerWordLog2 in
  let mask := wrapu 64 (word_not 0 << (i .& (kBitsPerWord - 1))) in
  d ← set_word_at data_ w;
  if negb (d .& mask =? 0) then Ok ((w << kBitsPerWordLog2) + CountTrailingZerosWord (d .& mask))
  else Ok (next_from (drop (Z.to_nat (w + 1)) data_) (w + 1)).

(** [((w + 1) << kBitsPerWordLog2) - CountLeadingZerosWord(d) - 1]. *)
Definition highest_of (w d : Z) : Z := ((w + 1) << kBitsPerWordLog2) - CountLeadingZerosWord d - 1.

(** The loop of [Last] over the words below index [n]. *)
Fixpoint last_from (data_ : list Z) (n : nat) : result Z :=
  match n with
  | O => Ok (-1)
  | S w =>
      d ← set_word_at data_ (Z.of_nat w);
      if negb (d =? 0) then Ok (highest_of (Z.of_nat w) d) else last_from data_ w
  end.

Definition Last (data_ : list Z) : result Z := last_from data_ (Z.to_nat kLengthInWords).

(** The search of [ClearLastAndFindPrevious] backwards for a word that is not zero. *)
Fixpoint back_from (data_ : list Z) (w : nat) (bits : Z) : result (Z * Z) :=
  if bits =? 0 then
    match w with
    | O => Ok (0, bits)
    | S w => bits ← set_word_at data_ (Z.of_nat w); back_from data_ w bits
    end
  else Ok (Z.of_nat w, bits).

Definition ClearLastAndFindPrevious (data_ : list Z) (current_last : Z) : result (Z * list Z) :=
  present ← Test_ data_ current_last;
  _ ← utils_assert present;
  last ← Last data_;
  _ ← utils_assert (last =? current_last);
  let w := current_last >> kBitsPerWordLog2 in
  bits ← set_word_at data_ w;
  let bits := bits .^ set_mask current_last in
  let data_ := set_update data_ w bits in
  '(w, bits) ← back_from data_ (Z.to_nat w) bits;
  Ok (if bits =? 0 then -1 else highest_of w bits, data_).

(** The constructor, and [Reset] on an array of the right size. *)
Definition Reset : list Z := replicate (Z.to_nat kLengthInWords) 0.

End bitset.

(** ** Words *)

Lemma trailing_zeros_spec p :
  0 <= trailing_zeros p /\ Z.testbit (Zpos p) (trailing_zeros p) = true /\
  forall k, 0 <= k < trailing_zeros p -> Z.testbit (Zpos p) k = false.
Proof.
  induction p as [p IH|p IH|]; simpl; [split_and!; [lia|done|lia]| |split_and!; [lia|done|lia]].
  destruct IH as (H0 & HB & HF). change (Zpos p~0) with (2 * Zpos p). split_and!; [lia| |].
  - by rewrite Z.add_comm, Z.add_1_r, Z.testbit_even_succ.
  - intros k Hk. destruct (Z.eq_dec k 0) as [->|N]; [apply Z.testbit_even_0|].
    replace k with (Z.succ (k - 1)) by lia. rewrite Z.testbit_even_succ by lia. apply HF. lia.
Qed.

Lemma CountTrailingZerosWord_spec d :
  is_u 64 d -> d <> 0 ->
  0 <= CountTrailingZerosWord d < 64 /\ Z.testbit d (CountTrailingZerosWord d) = true /\
  forall k, 0 <= k < CountTrailingZerosWord d -> Z.testbit d k = false.
Proof.
  intros Hd N. destruct d as [|p|p]; [done| |by destruct Hd]. destruct (trailing_zeros_spec p) as (H0 & HB & HF).
  simpl CountTrailingZerosWord. split_and!; [done| |done..]. destruct (Z.lt_ge_cases (trailing_zeros p) 64) as [?|HG]; [done|].
  by rewrite (testbit_high 64) in HB.
Qed.

Lemma xor_word x y : is_u 64 x -> is_u 64 y -> is_u 64 (x .^ y).
Proof.
  intros Hx Hy. apply word_bits; [apply Z.lxor_nonneg; split; intros _; [apply Hy|apply Hx]|].
  intros k Hk. by rewrite Z.lxor_spec, !(testbit_high 64) by (done || lia).
Qed.

Lemma word_start w : w << kBitsPerWordLog2 = 64 * w.
Proof. rewrite Z.shiftl_mul_pow2 by done. lia. Qed.

Lemma highest_of_spec w d :
  is_u 64 d -> d <> 0 ->
  exists k, highest_of w d = 64 * w + k /\ 0 <= k < 64 /\ Z.testbit d k = true /\ forall j, k < j -> Z.testbit d j = false.
Proof.
  intros [H0 HU] N. exists (Z.log2 d). unfold highest_of, CountLeadingZerosWord. rewrite word_start.
  rewrite (proj2 (Z.eqb_neq d 0) N). split_and!; [lia|apply Z.log2_nonneg| | |].
  - apply Z.log2_lt_pow2; lia.
  - apply Z.bit_log2. lia.
  - intros j Hj. apply Z.bits_above_log2; lia.
Qed.

(** ** Membership *)

Section bitset.
Variable N : Z.
Hypothesis HN : 0 < N.

Definition member (data_ : list Z) (i : Z) : bool :=
  match data_ !! Z.to_nat (i / 64) with Some d => Z.testbit d (i mod 64) | None => false end.

Record set_wf (data_ : list Z) : Prop := {
  set_length : Z.of_nat (length data_) = kLengthInWords N;
  set_words : Forall (is_u 64) data_;
}.

Lemma words_bounds : N <= 64 * kLengthInWords N /\ 1 <= kLengthInWords N.
Proof. apply (SizeFor_bounds N). lia. Qed.

Lemma index_split i : i >> kBitsPerWordLog2 = i / 64 /\ i .& (kBitsPerWord - 1) = i mod 64.
Proof. rewrite Z.shiftr_div_pow2 by done. split; [done|]. apply (Z.land_ones i 6). done. Qed.

Lemma set_bounds_ok i : 0 <= i < N -> set_bounds N i = Ok ().
Proof. intros Hi. unfold set_bounds. by replace ((0 <=? i) && (i <? N)) with true by lia. Qed.

Lemma set_mask_testbit i k : 0 <= i -> 0 <= k < 64 -> Z.testbit (set_mask i) k = (k =? i mod 64).
Proof.
  intros Hi Hk. rewrite <- bit_mask_testbit by done. unfold set_mask, bit_mask.
  by rewrite (proj2 (index_split i)), (proj2 (bit_split i Hi)).
Qed.

Lemma set_lookup data_ i : set_wf data_ -> 0 <= i < N -> exists d, data_ !! Z.to_nat (i / 64) = Some d /\ is_u 64 d.
Proof.
  intros [HL HW] Hi. pose proof words_bounds as [HB _].
  destruct (lookup_lt_is_Some_2 data_ (Z.to_nat (i / 64))) as [d Hd].
  - pose proof (Z.div_lt_upper_bound i 64 (kLengthInWords N)). pose proof (Z.div_pos i 64). lia.
  - exists d. split; [done|]. by eapply Forall_lookup_1.
Qed.

Lemma set_word_at_ok data_ i d : data_ !! Z.to_nat (i / 64) = Some d -> set_word_at data_ (i >> kBitsPerWordLog2) = Ok d.
Proof. intros E. unfold set_word_at. by rewrite (proj1 (index_split i)), E. Qed.

Lemma Test_ok data_ i : set_wf data_ -> 0 <= i < N -> Test_ N data_ i = Ok (member data_ i).
Proof.
  intros HW Hi. destruct (set_lookup data_ i HW Hi) as (d & E & Hd). unfold Test_.
  rewrite set_bounds_ok, Ok_bind, (set_word_at_ok _ _ d), Ok_bind by done. f_equal. unfold member. rewrite E.
  pose proof (mod64 i) as HM. destruct (Z.eqb_spec (d .& set_mask i) 0) as [E0|N0]; simpl.
  - apply (f_equal (fun x => Z.testbit x (i mod 64))) in E0. rewrite Z.land_spec, set_mask_testbit, Z.eqb_refl, Z.testbit_0_l in E0 by lia.
    by rewrite andb_true_r in E0.
  - destruct (Z.testbit d (i mod 64)) eqn:EB; [done|]. destruct N0. apply word_zero; [by apply land_word|].
    intros k Hk. rewrite Z.land_spec, set_mask_testbit by lia.
    destruct (Z.eqb_spec k (i mod 64)) as [->|?]; [by rewrite EB|apply andb_false_r].
Qed.

Lemma member_update data_ i j d d' v :
  0 <= i -> 0 <= j -> data_ !! Z.to_nat (i / 64) = Some d ->
  (forall k, 0 <= k < 64 -> Z.testbit d' k = if k =? i mod 64 then v else Z.testbit d k) ->
  member (set_update data_ (i / 64) d') j = if j =? i then v else member data_ j.
Proof.
  intros Hi Hj E HB. unfold member, set_update. pose proof (mod64 j) as HM.
  destruct (decide (Z.to_nat (i / 64) = Z.to_nat (j / 64))) as [EJ|NJ].
  - rewrite <- EJ, list_lookup_insert_eq by (by eapply lookup_lt_Some). rewrite E, HB by done.
    destruct (Z.eqb_spec (j mod 64) (i mod 64)) as [EM|NM].
    + rewrite (div64_inj j i) by done. by rewrite Z.eqb_refl.
    + destruct (Z.eqb_spec j i) as [->|?]; [by destruct NM|done].
  - rewrite list_lookup_insert_ne by done. destruct (Z.eqb_spec j i) as [->|?]; [by destruct NJ|done].
Qed.

Lemma set_update_wf data_ w d : set_wf data_ -> is_u 64 d -> set_wf (set_update data_ w d).
Proof. intros [HL HW] Hd. split; [by unfold set_update; rewrite length_insert|by apply Forall_insert]. Qed.

Lemma Set_ok data_ i v :
  set_wf data_ -> 0 <= i < N ->
  exists data', Set_ N data_ i v = Ok data' /\ set_wf data' /\
    forall j, 0 <= j -> member data' j = if j =? i then v else member data_ j.
Proof.
  intros HW Hi. destruct (set_lookup data_ i HW Hi) as (d & E & Hd). unfold Set_.
  rewrite set_bounds_ok, Ok_bind, (set_word_at_ok _ _ d), Ok_bind by done. rewrite (proj1 (index_split i)).
  eexists. split; [done|]. split.
  - apply set_update_wf; [done|]. destruct v; [apply lor_word; [done|by apply wrapu_range]|by apply land_word].
  - intros j Hj. apply (member_update _ _ _ d); [lia|done..|]. intros k Hk.
    destruct v; rewrite ?Z.lor_spec, ?Z.land_spec, ?word_not_testbit, set_mask_testbit by lia;
      destruct (k =? i mod 64), (Z.testbit d k); done.
Qed.

Lemma Reset_ok : set_wf (Reset N) /\ forall i, member (Reset N) i = false.
Proof.
  pose proof words_bounds as [_ HL]. split.
  - split; [unfold Reset; rewrite length_replicate; lia|by apply Forall_replicate].
  - intros i. unfold member, Reset. destruct (_ !! _) as [d|] eqn:E; [|done].
    apply lookup_replicate in E as [-> _]. apply Z.testbit_0_l.
Qed.

(** ** Searches *)

(** The least element from [i] on, or -1. *)
Definition next_element (data_ : list Z) (i r : Z) : Prop :=
  (r = -1 /\ forall j, i <= j -> member data_ j = false) \/
  (i <= r /\ member data_ r = true /\ forall j, i <= j < r -> member data_ j = false).

(** The greatest element, or -1. *)
Definition last_element (data_ : list Z) (r : Z) : Prop :=
  -1 <= r /\ (r = -1 \/ member data_ r = true) /\ forall j, r < j -> 0 <= j -> member data_ j = false.

Lemma member_beyond data_ i : Z.of_nat (length data_) <= i / 64 -> member data_ i = false.
Proof. intros HL. unfold member. by rewrite lookup_ge_None_2 by lia. Qed.

Lemma div64_at w k : 0 <= k < 64 -> (64 * w + k) / 64 = w /\ (64 * w + k) mod 64 = k.
Proof. intros Hk. split; [symmetry; apply (Z.div_unique _ 64 w k); lia|symmetry; apply (Z.mod_unique _ 64 w k); lia]. Qed.

Lemma member_at data_ w k d : 0 <= k < 64 -> data_ !! Z.to_nat w = Some d -> member data_ (64 * w + k) = Z.testbit d k.
Proof. intros Hk E. unfold member. destruct (div64_at w k Hk) as [-> ->]. by rewrite E. Qed.

Lemma index_cases i : exists w k, i = 64 * w + k /\ 0 <= k < 64.
Proof. exists (i / 64), (i mod 64). split; [apply Z.div_mod; lia|apply mod64]. Qed.

(** A search from a bit of one word finds it there or goes on with the next word. *)
Lemma next_in_word data_ w k0 d t :
  0 <= w -> data_ !! Z.to_nat w = Some d -> 0 <= k0 <= t -> t < 64 ->
  Z.testbit d t = true -> (forall k, k0 <= k < t -> Z.testbit d k = false) ->
  next_element data_ (64 * w + k0) (64 * w + t).
Proof.
  intros Hw E Hk Ht HB HF. right. split_and!; [lia|by rewrite (member_at _ _ _ d) by (done || lia)|].
  intros j Hj. replace j with (64 * w + (j - 64 * w)) by lia. rewrite (member_at _ _ _ d) by (done || lia). apply HF. lia.
Qed.

Lemma next_skip data_ w k0 d r :
  0 <= w -> data_ !! Z.to_nat w = Some d -> 0 <= k0 < 64 -> (forall k, k0 <= k < 64 -> Z.testbit d k = false) ->
  next_element data_ (64 * (w + 1)) r -> next_element data_ (64 * w + k0) r.
Proof.
  intros Hw E Hk HF HR.
  assert (HS : forall j, 64 * w + k0 <= j < 64 * (w + 1) -> member data_ j = false).
  { intros j Hj. replace j with (64 * w + (j - 64 * w)) by lia. rewrite (member_at _ _ _ d) by (done || lia). apply HF. lia. }
  destruct HR as [[-> HA]|(Hr & HB & HA)]; [left; split; [done|]|right; split_and!; [lia|done|]];
    intros j Hj; (destruct (Z.lt_ge_cases j (64 * (w + 1))); [apply HS|apply HA]); lia.
Qed.

Lemma next_from_ok words data_ w :
  set_wf data_ -> 0 <= w -> drop (Z.to_nat w) data_ = words -> next_element data_ (64 * w) (next_from words w).
Proof.
  intros HW. revert w. induction words as [|d words IH]; intros w Hw ED; cbn [next_from].
  - left. split; [done|]. intros j Hj. apply member_beyond. apply (f_equal length) in ED. rewrite length_drop in ED. simpl in ED.
    pose proof (Z.div_le_lower_bound j 64 w). lia.
  - assert (E : data_ !! Z.to_nat w = Some d).
    { rewrite <- (Nat.add_0_r (Z.to_nat w)), <- lookup_drop, ED. done. }
    assert (HD : is_u 64 d) by (eapply Forall_lookup_1; [apply HW|done]).
    replace (64 * w) with (64 * w + 0) by lia. destruct (Z.eqb_spec d 0) as [->|ND]; simpl negb; cbv iota.
    + apply (next_skip _ _ _ 0); [done..|lia|intros; apply Z.testbit_0_l|]. apply IH; [lia|].
      replace (Z.to_nat (w + 1)) with (Z.to_nat w + 1)%nat by lia. rewrite <- drop_drop, ED. simpl. by rewrite drop_0.
    + destruct (CountTrailingZerosWord_spec d HD ND) as (HR & HB & HF). rewrite word_start.
      apply (next_in_word _ _ _ d); [done..|lia|lia|done|done].
Qed.

Lemma set_Next_ok data_ i :
  set_wf data_ -> 0 <= i < N -> exists r, Next N data_ i = Ok r /\ next_element data_ i r.
Proof.
  intros HW Hi. destruct (set_lookup data_ i HW Hi) as (d & E & Hd). unfold Next.
  rewrite set_bounds_ok, Ok_bind, (set_word_at_ok _ _ d), Ok_bind by done. cbv zeta.
  destruct (index_split i) as [-> ->]. set (mask := wrapu 64 _).
  pose proof (mod64 i) as HM. pose proof (Z.div_pos i 64 ltac:(lia) ltac:(lia)) as HP.
  assert (HT : forall k, 0 <= k < 64 -> Z.testbit (d .& mask) k = Z.testbit d k && (i mod 64 <=? k)).
  { intros k Hk. unfold mask, wrapu. rewrite Z.land_spec, Z.mod_pow2_bits_low, Z.shiftl_spec by lia. f_equal.
    destruct (Z.leb_spec (i mod 64) k); [|by apply Z.testbit_neg_r; lia]. by rewrite word_not_testbit, Z.testbit_0_l by lia. }
  assert (EI : i = 64 * (i / 64) + i mod 64) by (apply Z.div_mod; lia).
  destruct (Z.eqb_spec (d .& mask) 0) as [E0|N0]; simpl negb; cbv iota; eexists; (split; [done|]); rewrite EI at 1.
  - apply (next_skip _ _ _ d); [done..| |apply next_from_ok; [done|lia|done]]. intros k Hk.
    specialize (HT k ltac:(lia)). rewrite E0, Z.testbit_0_l in HT. destruct (Z.testbit d k); [lia|done].
  - destruct (CountTrailingZerosWord_spec (d .& mask)) as (HR & HB & HF); [by apply land_word|done|].
    rewrite word_start.
    rewrite HT in HB by done. apply andb_true_iff in HB as [HB HL]. apply (next_in_word _ _ _ d); [done..|lia|lia|done|].
    intros k Hk. specialize (HF k ltac:(lia)). rewrite HT in HF by lia. destruct (Z.testbit d k); [lia|done].
Qed.

(** The greatest element below index [n]. *)
Definition last_below (data_ : list Z) (n r : Z) : Prop :=
  -1 <= r /\ (r = -1 \/ member data_ r = true) /\ forall j, r < j -> 0 <= j < n -> member data_ j = false.

Lemma last_in_word data_ w d :
  0 <= w -> data_ !! Z.to_nat w = Some d -> is_u 64 d -> d <> 0 -> last_below data_ (64 * (w + 1)) (highest_of w d).
Proof.
  intros Hw E HD ND. destruct (highest_of_spec w d HD ND) as (k & -> & Hk & HB & HF).
  split_and!; [lia|right; by rewrite (member_at _ _ _ d)|].
  intros j Hj HU. replace j with (64 * w + (j - 64 * w)) by lia. rewrite (member_at _ _ _ d) by (done || lia). apply HF. lia.
Qed.

Lemma last_skip data_ w r :
  0 <= w -> data_ !! Z.to_nat w = Some 0 -> last_below data_ (64 * w) r -> last_below data_ (64 * (w + 1)) r.
Proof.
  intros Hw E (HR & HB & HF). split_and!; [done..|]. intros j Hj HU.
  destruct (Z.lt_ge_cases j (64 * w)); [apply HF; lia|].
  replace j with (64 * w + (j - 64 * w)) by lia. rewrite (member_at _ _ _ 0) by (done || lia). apply Z.testbit_0_l.
Qed.

Lemma set_word_nat data_ (w : nat) d : data_ !! w = Some d -> set_word_at data_ (Z.of_nat w) = Ok d.
Proof. intros E. unfold set_word_at. by rewrite Nat2Z.id, E. Qed.

Lemma last_from_ok data_ n :
  set_wf data_ -> (n <= length data_)%nat ->
  exists r, last_from data_ n = Ok r /\ last_below data_ (64 * Z.of_nat n) r.
Proof.
  intros HW. induction n as [|w IH]; intros HL; cbn [last_from]; [eexists; split; [done|]; split_and!; [lia|by left|lia]|].
  destruct (lookup_lt_is_Some_2 data_ w HL) as [d E]. rewrite (set_word_nat _ _ d), Ok_bind by done.
  assert (HD : is_u 64 d) by (eapply Forall_lookup_1; [apply HW|done]). rewrite Nat2Z.inj_succ, <- Z.add_1_r.
  destruct (Z.eqb_spec d 0) as [->|ND]; simpl negb; cbv iota.
  - destruct IH as (r & -> & HR); [lia|]. exists r. split; [done|]. apply last_skip; [lia|by rewrite Nat2Z.id|done].
  - eexists. split; [done|]. apply last_in_word; [lia|by rewrite Nat2Z.id|done..].
Qed.

Lemma last_below_all data_ r : set_wf data_ -> last_below data_ (64 * kLengthInWords N) r -> last_element data_ r.
Proof.
  intros HW (HR & HB & HF). split_and!; [done..|]. intros j Hj H0.
  destruct (Z.lt_ge_cases j (64 * kLengthInWords N)); [apply HF; lia|]. apply member_beyond. rewrite (set_length _ HW).
  apply Z.div_le_lower_bound; lia.
Qed.

Lemma Last_ok data_ : set_wf data_ -> exists r, Last N data_ = Ok r /\ last_element data_ r.
Proof.
  intros HW. pose proof words_bounds as [_ HL]. pose proof (set_length _ HW) as EL.
  destruct (last_from_ok data_ (Z.to_nat (kLengthInWords N)) HW) as (r & E & HR); [lia|]. exists r. split; [done|].
  apply last_below_all; [done|]. by rewrite Z2Nat.id in HR by lia.
Qed.

Lemma last_element_unique data_ r r' : last_element data_ r -> last_element data_ r' -> r = r'.
Proof.
  intros (HR & HB & HF) (HR' & HB' & HF'). destruct (Z.lt_trichotomy r r') as [L|[L|L]]; [|done|].
  - destruct HB' as [->|HB']; [lia|]. rewrite HF in HB' by lia. done.
  - destruct HB as [->|HB]; [lia|]. rewrite HF' in HB by lia. done.
Qed.

Lemma back_from_ok data_ w bits :
  set_wf data_ -> data_ !! w = Some bits ->
  exists w' bits', back_from data_ w bits = Ok (w', bits') /\
    last_below data_ (64 * (Z.of_nat w + 1)) (if bits' =? 0 then -1 else highest_of w' bits').
Proof.
  intros HW. revert bits. induction w as [|w IH]; intros bits E; cbn [back_from];
    (assert (HD : is_u 64 bits) by (eapply Forall_lookup_1; [apply HW|done]));
    (destruct (Z.eqb_spec bits 0) as [->|ND];
      [|do 2 eexists; split; [done|]; rewrite (proj2 (Z.eqb_neq bits 0) ND); apply last_in_word; [lia|by rewrite Nat2Z.id|done..]]).
  - do 2 eexists. split; [done|]. rewrite Z.eqb_refl. apply (last_skip _ 0); [done..|]. split_and!; [lia|by left|lia].
  - pose proof (lookup_lt_Some _ _ _ E) as HL. destruct (lookup_lt_is_Some_2 data_ w ltac:(lia)) as [d Ed].
    rewrite (set_word_nat _ _ d), Ok_bind by done. destruct (IH d Ed) as (w' & bits' & EB & HR).
    do 2 eexists. split; [done|]. apply last_skip; [lia|by rewrite Nat2Z.id|].
    replace (64 * Z.of_nat (S w)) with (64 * (Z.of_nat w + 1)) by lia. done.
Qed.

Lemma ClearLast_ok data_ i :
  set_wf data_ -> 0 <= i < N -> member data_ i = true -> last_element data_ i ->
  exists r data', ClearLastAndFindPrevious N data_ i = Ok (r, data') /\ set_wf data' /\ last_element data' r /\
    forall j, 0 <= j -> member data' j = if j =? i then false else member data_ j.
Proof.
  intros HW Hi HB HL. unfold ClearLastAndFindPrevious. rewrite Test_ok, Ok_bind, HB by done. unfold utils_assert. rewrite Ok_bind.
  destruct (Last_ok data_ HW) as (l & -> & HL'). rewrite Ok_bind, (last_element_unique _ _ _ HL' HL), Z.eqb_refl, Ok_bind.
  destruct (set_lookup data_ i HW Hi) as (d & E & Hd). rewrite (set_word_at_ok _ _ d), Ok_bind by done. cbv zeta.
  rewrite (proj1 (index_split i)). set (d' := d .^ set_mask i). set (data' := set_update data_ (i / 64) d').
  pose proof (mod64 i) as HM. assert (ET : Z.testbit d (i mod 64) = true) by (revert HB; unfold member; by rewrite E).
  assert (HD' : is_u 64 d').
  { apply xor_word; [done|by apply wrapu_range]. }
  assert (HW' : set_wf data') by by apply set_update_wf.
  assert (HM' : forall j, 0 <= j -> member data' j = if j =? i then false else member data_ j).
  { intros j Hj. apply (member_update _ _ _ d); [lia|done..|]. intros k Hk. unfold d'. rewrite Z.lxor_spec, set_mask_testbit by lia.
    destruct (Z.eqb_spec k (i mod 64)) as [->|?]; [by rewrite ET|apply xorb_false_r]. }
  assert (E' : data' !! Z.to_nat (i / 64) = Some d').
  { apply list_lookup_insert_eq. by eapply lookup_lt_Some. }
  destruct (back_from_ok data' _ d' HW' E') as (w' & bits' & -> & (HR & HRB & HRF)). rewrite Ok_bind.
  do 2 eexists. split; [done|]. split; [done|]. split; [|done]. split; [done|]. split; [done|]. intros j Hj H0.
  destruct (Z.lt_ge_cases j (64 * (Z.of_nat (Z.to_nat (i / 64)) + 1))) as [?|HG]; [apply HRF; lia|].
  rewrite HM' by done. destruct (Z.eqb_spec j i); [done|]. apply HL; [|done].
  pose proof (Z.div_mod i 64 ltac:(lia)). pose proof (Z.div_pos i 64 ltac:(lia) ltac:(lia)). lia.
Qed.

End bitset.
