(* ===== verification/FreeList.v ===== *)
(** The free lists of the old space of the heap: [runtime/vm/heap/freelist.h] and [.cc], with
    the header tags of [runtime/vm/raw_object.h] that they write, the bit fields of
    [runtime/vm/bitfield.h] and the page protection of [runtime/vm/virtual_memory.h].

    Memory is a map from addresses to words of 64 bits, with the protection of every page: a
    store to a page that is not writable is a fault, an access to an unmapped word is
    undefined. A [FreeListElement*] is its address and NULL is 0. The code runs with the
    mutex held, so that the functions that only take it are their locked versions. System
    calls to change the protection succeed. *)
From stdpp Require Import base numbers list gmap.
From Stdlib Require Import ZArith Lia.
From S2P Require Import Prelude Utils BitVector BitSet.
Local Open Scope Z_scope.
Local Open Scope cxx_scope.

Inductive heap_error := HeapAssertion | ProtectionFault | HeapFuel.

(** ** Constants *)

Definition kWordSize : Z := 8.
Definition kWordSizeLog2 : Z := 3.
Definition kObjectAlignment : Z := 2 * kWordSize.
Definition kObjectAlignmentLog2 : Z := kWordSizeLog2 + 1.
Definition kNewObjectAlignmentOffset : Z := kWordSize.
Definition kOldObjectAlignmentOffset : Z := 0.
Definition kFreeListElement : Z := 2.
Definition kNumLists : Z := 128.
Definition kInitialFreeListSearchBudget : Z := 1000.

(** ** Bit fields *)

(** [BitField<uword, T, position, size>]. *)
Record BitField := mkField { position : Z; field_size : Z }.

Definition field_mask (f : BitField) : Z := wrapu 64 (1 << field_size f) - 1.
Definition mask_in_place (f : BitField) : Z := wrapu 64 (field_mask f << position f).
Definition encode_unchecked (f : BitField) (value : Z) : Z :=
  wrapu 64 ((wrapu 64 value .& field_mask f) << position f).
Definition decode (f : BitField) (value : Z) : Z := (value >> position f) .& field_mask f.
Definition is_valid (f : BitField) (value : Z) : bool := decode f (encode_unchecked f value) =? value.
Definition update (f : BitField) (value original : Z) : outcome heap_error Z :=
  if is_valid f value then Ok (encode_unchecked f value .| (word_not (mask_in_place f) .& original))
  else Fatal HeapAssertion.

(** The fields of the tags of an object. *)
Definition OldAndNotMarkedBit : BitField := mkField 2 1.
Definition NewBit : BitField := mkField 3 1.
Definition OldBit : BitField := mkField 4 1.
Definition OldAndNotRememberedBit : BitField := mkField 5 1.
Definition SizeBits : BitField := mkField 8 4.
Definition ClassIdTag : BitField := mkField 12 20.

(** Class [SizeTag]. *)
Definition kMaxSizeTag : Z := ((1 << field_size SizeBits) - 1) * kObjectAlignment.
Definition SizeFits (size : Z) : bool := size <=? kMaxSizeTag.
Definition SizeToTagValue (size : Z) : Z := if negb (SizeFits size) then 0 else size >> kObjectAlignmentLog2.
Definition SizeTag_decode (tag : Z) : Z := decode SizeBits tag << kObjectAlignmentLog2.
Definition SizeTag_update (size tag : Z) : outcome heap_error Z := update SizeBits (SizeToTagValue size) tag.

(** ** State *)

Inductive Protection := kNoAccess | kReadOnly | kReadWrite | kReadExecute | kReadWriteExecute.

#[global] Instance Protection_eq_dec : EqDecision Protection.
Proof. solve_decision. Defined.

Definition is_writable (p : Protection) : bool :=
  match p with kReadWrite | kReadWriteExecute => true | _ => false end.

Record Memory := mkMemory { words : gmap Z Z; pages : Z -> Protection }.

Record FreeList := mkFreeList {
  top_ : Z;
  end_ : Z;
  unaccounted_size_ : Z;
  free_map_ : list Z;
  free_lists_ : list Z;
  freelist_search_budget_ : Z;
  last_free_small_size_ : Z;
}.

Record state := mkState { memory : Memory; freelist : FreeList }.

(** Field updates. *)
Definition set_bump (t e : Z) (f : FreeList) : FreeList :=
  mkFreeList t e (unaccounted_size_ f) (free_map_ f) (free_lists_ f) (freelist_search_budget_ f) (last_free_small_size_ f).
Definition set_unaccounted (u : Z) (f : FreeList) : FreeList :=
  mkFreeList (top_ f) (end_ f) u (free_map_ f) (free_lists_ f) (freelist_search_budget_ f) (last_free_small_size_ f).
Definition set_free_map (m : list Z) (f : FreeList) : FreeList :=
  mkFreeList (top_ f) (end_ f) (unaccounted_size_ f) m (free_lists_ f) (freelist_search_budget_ f) (last_free_small_size_ f).
Definition set_free_lists (l : list Z) (f : FreeList) : FreeList :=
  mkFreeList (top_ f) (end_ f) (unaccounted_size_ f) (free_map_ f) l (freelist_search_budget_ f) (last_free_small_size_ f).
Definition set_budget (b : Z) (f : FreeList) : FreeList :=
  mkFreeList (top_ f) (end_ f) (unaccounted_size_ f) (free_map_ f) (free_lists_ f) b (last_free_small_size_ f).
Definition set_last_small (s : Z) (f : FreeList) : FreeList :=
  mkFreeList (top_ f) (end_ f) (unaccounted_size_ f) (free_map_ f) (free_lists_ f) (freelist_search_budget_ f) s.

(** Code that works on the state and can fail. *)
Definition M (A : Type) : Type := state -> outcome heap_error (A * state).
#[global] Instance M_ret : MRet M := fun A a s => Ok (a, s).
#[global] Instance M_bind : MBind M := fun A B f m s => r ← m s; f r.1 r.2.

Definition heap_assert (b : bool) : M () := fun s => if b then Ok ((), s) else Fatal HeapAssertion.
Definition undefined {A} : M A := fun _ => Undefined.
Definition run {A} (x : outcome heap_error A) : M A := fun s => a ← x; Ok (a, s).
Definition field {A} (f : FreeList -> A) : M A := fun s => Ok (f (freelist s), s).
Definition modify (f : FreeList -> FreeList) : M () := fun s => Ok ((), mkState (memory s) (f (freelist s))).

(** A call of a member of [free_map_]. *)
Definition map_result {A} (x : outcome utils_error A) : outcome heap_error A :=
  match x with
  | Ok a => Ok a
  | Fatal UtilsAssertion => Fatal HeapAssertion
  | Fatal UtilsFuel => Fatal HeapFuel
  | Undefined => Undefined
  end.

(** ** Virtual memory *)

Class PageSize := { page_log2 : Z; page_log2_range : 3 <= page_log2 <= 32 }.

Section freelist.
Context `{PageSize}.

Definition page_size : Z := 2 ^ page_log2.

Definition RoundDown (x alignment : Z) : Z := x .& wrapu 64 (- alignment).
Definition RoundUp (x alignment : Z) : Z := RoundDown (wrapu 64 (x + alignment - 1)) alignment.

Definition InSamePage (address0 address1 : Z) : bool := RoundDown address0 page_size =? RoundDown address1 page_size.

Definition page_of (addr : Z) : Z := addr / page_size.

Definition protect_pages (mode : Protection) (page_address end_address : Z) (old : Z -> Protection) : Z -> Protection :=
  fun p => if (page_of page_address <=? p) && (p * page_size <? end_address) then mode else old p.

Definition Protect (address size : Z) (mode : Protection) : M () := fun s =>
  let end_address := wrapu 64 (address + size) in
  let page_address := RoundDown address page_size in
  Ok ((), mkState (mkMemory (words (memory s)) (protect_pages mode page_address end_address (pages (memory s)))) (freelist s)).

Definition read (addr : Z) : M Z := fun s =>
  match words (memory s) !! addr with
  | None => Undefined
  | Some w => if decide (pages (memory s) (page_of addr) = kNoAccess) then Fatal ProtectionFault else Ok (w, s)
  end.

Definition write (addr value : Z) : M () := fun s =>
  match words (memory s) !! addr with
  | None => Undefined
  | Some _ =>
      if is_writable (pages (memory s) (page_of addr)) then
        Ok ((), mkState (mkMemory (<[addr := value]> (words (memory s))) (pages (memory s))) (freelist s))
      else Fatal ProtectionFault
  end.

(** ** Elements *)

Definition next_address (element : Z) : Z := element + kWordSize.
Definition next (element : Z) : M Z := read (next_address element).
Definition set_next (element next : Z) : M () := write (next_address element) next.
Definition SizeAddress (element : Z) : Z := next_address element + kWordSize.

Definition HeapSize (element : Z) : M Z :=
  tags ← read element;
  let size := SizeTag_decode tags in
  if negb (size =? 0) then mret size
  else size ← read (SizeAddress element); mret (wraps 64 size).

(** The tags of a free element. *)
Definition element_tags (size : Z) : outcome heap_error Z :=
  tags ← SizeTag_update size 0;
  tags ← update ClassIdTag kFreeListElement tags;
  tags ← update OldBit 1 tags;
  tags ← update OldAndNotMarkedBit 1 tags;
  tags ← update OldAndNotRememberedBit 1 tags;
  update NewBit 0 tags.

Definition AsElement (addr size : Z) : M Z :=
  _ ← heap_assert (kObjectAlignment <=? size);
  _ ← heap_assert (IsAligned size kObjectAlignment);
  _ ← heap_assert (addr .& kNewObjectAlignmentOffset =? kOldObjectAlignmentOffset);
  tags ← run (element_tags size);
  _ ← write addr tags;
  _ ← (if kMaxSizeTag <? size then write (SizeAddress addr) (wrapu 64 size) else mret ());
  _ ← set_next addr 0;
  mret addr.

Definition HeaderSizeFor (size : Z) : Z :=
  if size =? 0 then 0 else (if kMaxSizeTag <? size then 3 else 2) * kWordSize.

(** ** Lists *)

Definition IndexForSize (size : Z) : M Z :=
  _ ← heap_assert (kObjectAlignment <=? size);
  _ ← heap_assert (IsAligned size kObjectAlignment);
  let index := size >> kObjectAlignmentLog2 in
  mret (if kNumLists <=? index then kNumLists else index).

(** [free_lists_[index]]. *)
Definition get_list (index : Z) : M Z :=
  l ← (field free_lists_ : M (list Z));
  match (l : list Z) !! Z.to_nat index with Some e => mret e | None => undefined end.

Definition set_list (index element : Z) : M () :=
  l ← field free_lists_;
  if index <? Z.of_nat (length (l : list Z)) then modify (set_free_lists (<[Z.to_nat index := element]> l)) else undefined.

Definition map_Set (index : Z) (value : bool) : M () :=
  m ← field free_map_; m ← run (map_result (Set_ kNumLists m index value)); modify (set_free_map m).

Definition map_Test (index : Z) : M bool :=
  m ← field free_map_; run (map_result (Test_ kNumLists m index)).

Definition map_Next (index : Z) : M Z :=
  m ← field free_map_; run (map_result (Next kNumLists m index)).

Definition map_ClearLast (index : Z) : M Z :=
  m ← field free_map_;
  r ← run (map_result (ClearLastAndFindPrevious kNumLists m index));
  _ ← modify (set_free_map r.2);
  mret r.1.

Definition EnqueueElement (element index : Z) : M () :=
  next ← get_list index;
  _ ← (if (next =? 0) && negb (index =? kNumLists) then
         _ ← map_Set index true;
         last ← field last_free_small_size_;
         modify (set_last_small (Maximum last (index << kObjectAlignmentLog2)))
       else mret ());
  _ ← set_next element next;
  set_list index element.

Definition DequeueElement (index : Z) : M Z :=
  result ← get_list index;
  n ← next result;
  _ ← (if (n =? 0) && negb (index =? kNumLists) then
         let size := index << kObjectAlignmentLog2 in
         last ← field last_free_small_size_;
         if size =? last then
           previous ← map_ClearLast index;
           modify (set_last_small (previous * kObjectAlignment))
         else map_Set index false
       else mret ());
  _ ← set_list index n;
  mret result.

Definition SplitElementAfterAndEnqueue (element size : Z) (is_protected : bool) : M () :=
  heap_size ← HeapSize element;
  let remainder_size := heap_size - size in
  if remainder_size =? 0 then mret ()
  else
    let remainder_address := wrapu 64 (element + size) in
    element ← AsElement remainder_address remainder_size;
    remainder_index ← IndexForSize remainder_size;
    _ ← EnqueueElement element remainder_index;
    if is_protected then
      let remainder_header_size := HeaderSizeFor remainder_size in
      if negb (InSamePage (remainder_address - 1) (remainder_address + remainder_header_size - 1)) then
        Protect (RoundUp remainder_address page_size)
          (remainder_address + remainder_header_size - RoundUp remainder_address page_size) kReadExecute
      else mret ()
    else mret ().

(** ** Allocation *)

(** Takes the element that was found out of the list of large blocks. *)
Definition unlink (previous current region_size : Z) (is_protected : bool) : M () :=
  if previous =? 0 then n ← next current; set_list kNumLists n
  else
    let writable_start := current in
    let writable_end := writable_start + region_size - 1 in
    let target_address := next_address previous in
    let target_is_protected :=
      is_protected && negb (InSamePage target_address writable_start) && negb (InSamePage target_address writable_end) in
    _ ← (if target_is_protected then Protect target_address kWordSize kReadWrite else mret ());
    n ← next current;
    _ ← set_next previous n;
    if target_is_protected then Protect target_address kWordSize kReadExecute else mret ().

(** The search of the list of large blocks. *)
Fixpoint search_large (fuel : nat) (size : Z) (is_protected : bool) (tries_left previous current : Z) : M Z :=
  match fuel with
  | O => fun _ => Fatal HeapFuel
  | S fuel =>
      if current =? 0 then mret 0
      else
        heap_size ← HeapSize current;
        if size <=? heap_size then
          let remainder_size := heap_size - size in
          let region_size := size + HeaderSizeFor remainder_size in
          _ ← (if is_protected then Protect current region_size kReadWrite else mret ());
          _ ← unlink previous current region_size is_protected;
          _ ← SplitElementAfterAndEnqueue current size is_protected;
          _ ← modify (set_budget (Minimum tries_left kInitialFreeListSearchBudget));
          mret current
        else if tries_left <? 0 then
          _ ← modify (set_budget kInitialFreeListSearchBudget); mret 0
        else n ← next current; search_large fuel size is_protected (tries_left - 1) current n
  end.

(** Every round but the last two takes one try. *)
Definition search_fuel (tries_left : Z) : nat := Z.to_nat tries_left + 2.

(** The element of the list of this size, if there is one. *)
Definition exact_list (index : Z) : M bool := if negb (index =? kNumLists) then map_Test index else mret false.

(** The next list of small blocks that is not empty, or -1. *)
Definition next_list (index : Z) : M Z := if index + 1 <? kNumLists then map_Next (index + 1) else mret (-1).

Definition TryAllocateLocked (size : Z) (is_protected : bool) : M Z :=
  index ← IndexForSize size;
  exact ← exact_list index;
  if (exact : bool) then
    element ← DequeueElement index;
    _ ← (if is_protected then Protect element size kReadWrite else mret ());
    mret element
  else
    next_index ← next_list index;
    if negb (next_index =? -1) then
      element ← DequeueElement next_index;
      _ ← (if is_protected then
             heap_size ← HeapSize element;
             let remainder_size := heap_size - size in
             Protect element (size + HeaderSizeFor remainder_size) kReadWrite
           else mret ());
      _ ← SplitElementAfterAndEnqueue element size is_protected;
      mret element
    else
      current ← get_list kNumLists;
      budget ← field freelist_search_budget_;
      let tries_left := budget + (size >> kWordSizeLog2) in
      search_large (search_fuel tries_left) size is_protected tries_left 0 current.

Definition FreeLocked (addr size : Z) : M () :=
  index ← IndexForSize size;
  element ← AsElement addr size;
  EnqueueElement element index.

Definition Reset_lists (f : FreeList) : FreeList :=
  mkFreeList (top_ f) (end_ f) (unaccounted_size_ f) (Reset kNumLists) (replicate (Z.to_nat (kNumLists + 1)) 0)
    (freelist_search_budget_ f) (-1).

(** The constructor: the initializers of the fields, and [Reset]. *)
Definition FreeList_new : FreeList := Reset_lists (mkFreeList 0 0 0 [] [] kInitialFreeListSearchBudget 0).

(** The search of [TryAllocateLargeLocked]. *)
Fixpoint take_large (fuel : nat) (minimum_size tries_left previous current : Z) : M Z :=
  match fuel with
  | O => fun _ => Fatal HeapFuel
  | S fuel =>
      if current =? 0 then mret 0
      else
        n ← next current;
        heap_size ← HeapSize current;
        if minimum_size <=? heap_size then
          _ ← (if previous =? 0 then set_list kNumLists n else set_next previous n);
          _ ← modify (set_budget (Minimum tries_left kInitialFreeListSearchBudget));
          mret current
        else if tries_left <? 0 then
          _ ← modify (set_budget kInitialFreeListSearchBudget); mret 0
        else take_large fuel minimum_size (tries_left - 1) current n
  end.

Definition TryAllocateLargeLocked (minimum_size : Z) : M Z :=
  current ← get_list kNumLists;
  budget ← field freelist_search_budget_;
  let tries_left := budget + (minimum_size >> kWordSizeLog2) in
  take_large (search_fuel tries_left) minimum_size tries_left 0 current.

Definition TryAllocateSmallLocked (size : Z) : M Z :=
  last ← field last_free_small_size_;
  if last <? size then mret 0
  else
    index ← IndexForSize size;
    exact ← exact_list index;
    if (exact : bool) then DequeueElement index
    else
      next_index ← next_list index;
      if negb (next_index =? -1) then
        element ← DequeueElement next_index;
        _ ← SplitElementAfterAndEnqueue element size false;
        mret element
      else mret 0.

(** ** Bump allocation *)

Definition TryAllocateBumpLocked (size : Z) : M Z :=
  result ← field top_;
  e ← field end_;
  let new_top := wrapu 64 (result + size) in
  if new_top <=? e then
    u ← field unaccounted_size_;
    _ ← modify (set_bump new_top e);
    _ ← modify (set_unaccounted (u + size));
    mret result
  else mret 0.

Definition TakeUnaccountedSizeLocked : M Z :=
  result ← field unaccounted_size_;
  _ ← modify (set_unaccounted 0);
  mret result.

Definition MakeIterable : M () :=
  t ← field top_; e ← field end_;
  if t <? e then _ ← AsElement t (e - t); mret () else mret ().

Definition AbandonBumpAllocation : M () :=
  t ← field top_; e ← field end_;
  if t <? e then _ ← FreeLocked t (e - t); modify (set_bump 0 0) else mret ().

Definition AddUnaccountedSize (size : Z) : M () :=
  u ← field unaccounted_size_; modify (set_unaccounted (u + size)).

(** [set_top] and [set_end]. *)
Definition set_top (value : Z) : M () := e ← field end_; modify (set_bump value e).
Definition set_end (value : Z) : M () := t ← field top_; modify (set_bump t value).

End freelist.
