(* ===== verification/FreeListProps.v ===== *)
(** The free lists: blocks of memory, the chains of elements through them, and what the
    operations on single elements and pages do. *)
From stdpp Require Import base numbers list gmap.
From Stdlib Require Import ZArith Lia ZifyBool.
From S2P Require Import Prelude Utils BitVector BitSet FreeList.
Local Open Scope Z_scope.
Local Open Scope cxx_scope.

(** ** Running the code *)

Lemma run_bind {A B} (m : M A) (f : A -> M B) s a s' : m s = Ok (a, s') -> (m ≫= f) s = f a s'.
Proof. intros E. unfold mbind, M_bind. by rewrite E. Qed.

Lemma run_assert {B} (b : bool) (f : () -> M B) s : b = true -> (heap_assert b ≫= f) s = f () s.
Proof. intros ->. done. Qed.

Lemma run_field {A B} (g : FreeList -> A) (f : A -> M B) s : (field g ≫= f) s = f (g (freelist s)) s.
Proof. done. Qed.

Lemma run_modify {B} g (f : () -> M B) s : (modify g ≫= f) s = f () (mkState (memory s) (g (freelist s))).
Proof. done. Qed.

Lemma run_ret {A B} (a : A) (f : A -> M B) s : (mret a ≫= f) s = f a s.
Proof. done. Qed.

(** ** Blocks *)

(** An address and a size. *)
Abbreviation block := (Z * Z)%type.

Record block_ok (b : block) : Prop := {
  block_address : 0 < b.1 /\ b.1 mod 16 = 0;
  block_size : 16 <= b.2 /\ b.2 mod 16 = 0;
  block_end : b.1 + b.2 < 2 ^ 63;
}.

Definition within (x : Z) (b : block) : Prop := b.1 <= x < b.1 + b.2.

Definition apart (b c : block) : Prop := b.1 + b.2 <= c.1 \/ c.1 + c.2 <= b.1.

Fixpoint separated (l : list block) : Prop :=
  match l with
  | [] => True
  | b :: l => Forall (apart b) l /\ separated l
  end.

#[global] Instance separated_perm : Proper (Permutation ==> iff) separated.
Proof.
  assert (HI : forall l l', Permutation l l' -> separated l -> separated l').
  { induction 1 as [|b l l' HP IH|b c l|l1 l2 l3 _ IH1 _ IH2]; simpl; [done| | |auto].
    - intros [HF HS]. split; [by rewrite <- HP|auto].
    - intros [[HA HF]%Forall_cons [HF' HS]]. split; [|by split]. constructor; [|done].
      destruct HA; [right|left]; done. }
  intros l l' HP. split; apply HI; [done|by symmetry].
Qed.

Lemma apart_within b c x : apart b c -> within x b -> within x c -> False.
Proof. unfold apart, within. lia. Qed.

Lemma separated_app l l' :
  separated (l ++ l') <-> separated l /\ separated l' /\ Forall (fun b => Forall (apart b) l') l.
Proof.
  induction l as [|b l IH]; simpl; [rewrite Forall_nil; tauto|]. rewrite Forall_app, IH, Forall_cons. tauto.
Qed.

(** What is left of a block from which [size] bytes are taken. *)
Definition remainder (b : block) (size : Z) : list block :=
  if b.2 =? size then [] else [(b.1 + size, b.2 - size)].

Lemma remainder_ok b size : block_ok b -> 16 <= size <= b.2 -> size mod 16 = 0 -> Forall block_ok (remainder b size).
Proof.
  intros [[HA HB] [HC HD] HE] HS HM. unfold remainder. destruct (Z.eqb_spec (b.2) size); [done|].
  apply Forall_singleton. split; simpl; [split; [lia|]|split; [|]|lia].
  - by rewrite Z.add_mod, HB, HM by lia.
  - assert ((b.2 - size) mod 16 = 0) as HX by (by rewrite Zminus_mod, HD, HM).
    pose proof (Z.div_mod (b.2 - size) 16 ltac:(lia)). lia.
  - by rewrite Zminus_mod, HD, HM.
Qed.

Lemma remainder_within b size x : size <= b.2 -> 0 <= size -> Exists (within x) (remainder b size) -> within x b.
Proof.
  intros HS H0. unfold remainder. destruct (Z.eqb_spec (b.2) size); [by inversion 1|].
  intros HX%Exists_exists. destruct HX as (c & HC & HW). apply list_elem_of_singleton in HC as ->.
  unfold within in *. simpl in *. lia.
Qed.

Lemma remainder_apart b size c : 0 <= size <= b.2 -> apart b c -> Forall (apart c) (remainder b size).
Proof.
  intros HS HA. unfold remainder. destruct (Z.eqb_spec (b.2) size); [constructor|].
  apply Forall_singleton. unfold apart in *. simpl. lia.
Qed.

(** The block is split in two: what is separate from it stays so. *)
Lemma split_separated b size l :
  0 <= size <= b.2 -> separated (b :: l) -> separated ((b.1, size) :: remainder b size ++ l).
Proof.
  intros HS [HF HL]. cbn [separated]. split.
  - apply Forall_app. split.
    + unfold remainder. destruct (_ =? _); [constructor|]. apply Forall_singleton. left. simpl. lia.
    + eapply Forall_impl; [done|]. unfold apart. simpl. lia.
  - apply separated_app. split_and!; [|done|].
    + unfold remainder. destruct (_ =? _); simpl; [done|]. split; [constructor|done].
    + unfold remainder. destruct (_ =? _); [constructor|]. apply Forall_singleton.
      eapply Forall_impl; [done|]. unfold apart. simpl. lia.
Qed.

(** ** Tags *)

Definition tags_of (size : Z) : Z := 8244 + 256 * SizeToTagValue size.

Lemma tag_values : forall t, 0 <= t < 16 ->
  element_tags (16 * t) = Ok (tags_of (16 * t)) /\ decode SizeBits (8244 + 256 * t) = t.
Proof.
  assert (HV : forallb (fun t => match element_tags (16 * t) with Ok v => v =? tags_of (16 * t) | _ => false end &&
                 (decode SizeBits (8244 + 256 * t) =? t)) (seqZ 0 16) = true) by reflexivity.
  intros t Ht. pose proof (proj1 (forallb_forall _ _) HV t) as HT.
  specialize (HT ltac:(apply list_elem_of_In, elem_of_seqZ; lia)). cbv beta in HT. apply andb_true_iff in HT as [H1 H2].
  destruct (element_tags (16 * t)) as [v| |]; [|done..]. split; [f_equal; lia|lia].
Qed.

Lemma tag_value_cases size :
  16 <= size -> size mod 16 = 0 ->
  SizeToTagValue size = (if kMaxSizeTag <? size then 0 else size / 16) /\
  (size <= kMaxSizeTag -> 1 <= size / 16 < 16 /\ size = 16 * (size / 16)).
Proof.
  intros HS HM. unfold SizeToTagValue, SizeFits. change kMaxSizeTag with 240. rewrite Z.shiftr_div_pow2 by done.
  change (2 ^ kObjectAlignmentLog2) with 16. pose proof (Z.div_mod size 16 ltac:(lia)). split; [|lia].
  destruct (Z.leb_spec size 240), (Z.ltb_spec 240 size); simpl; lia.
Qed.

Lemma element_tags_ok size : 16 <= size -> size mod 16 = 0 -> element_tags size = Ok (tags_of size).
Proof.
  intros HS HM. destruct (tag_value_cases size HS HM) as [EV HV].
  destruct (Z.ltb_spec kMaxSizeTag size) as [L|L].
  - unfold element_tags, tags_of, SizeTag_update. rewrite EV. reflexivity.
  - destruct (HV L) as [HR E]. rewrite E. apply tag_values. lia.
Qed.

Lemma tags_decode size : 16 <= size -> size mod 16 = 0 ->
  SizeTag_decode (tags_of size) = if kMaxSizeTag <? size then 0 else size.
Proof.
  intros HS HM. destruct (tag_value_cases size HS HM) as [EV HV]. unfold SizeTag_decode, tags_of. rewrite EV.
  destruct (Z.ltb_spec kMaxSizeTag size) as [L|L]; [reflexivity|]. destruct (HV L) as [HR E].
  rewrite (proj2 (tag_values (size / 16) ltac:(lia))), Z.shiftl_mul_pow2 by done. change (2 ^ kObjectAlignmentLog2) with 16. lia.
Qed.

Section pages.
Context `{PageSize}.

(** ** Pages *)

Lemma page_size_pos : 0 < page_size.
Proof. unfold page_size. pose proof page_log2_range. apply Z.pow_pos_nonneg; lia. Qed.

Lemma RoundDown_page x : is_u 64 x -> RoundDown x page_size = page_size * page_of x.
Proof.
  intros Hx. unfold RoundDown, page_size, page_of, page_size. pose proof page_log2_range as HP.
  rewrite <- Z.shiftr_div_pow2, Z.mul_comm, <- Z.shiftl_mul_pow2, <- Z.ldiff_ones_r by lia.
  apply Z.bits_inj'. intros i Hi. rewrite Z.land_spec, Z.ldiff_spec.
  destruct (Z.lt_ge_cases i 64) as [L|L]; [|by rewrite (testbit_high 64 x)].
  f_equal. unfold wrapu. rewrite Z.mod_pow2_bits_low by done.
  replace (- 2 ^ page_log2) with (Z.lnot (Z.ones page_log2)) by (rewrite Z.ones_equiv; unfold Z.lnot; lia).
  by rewrite Z.lnot_spec.
Qed.

Lemma page_of_round x : page_of (page_size * x) = x.
Proof. unfold page_of. rewrite Z.mul_comm. apply Z.div_mul. pose proof page_size_pos. lia. Qed.

Lemma page_of_mono x y : x <= y -> page_of x <= page_of y.
Proof. intros HL. apply Z.div_le_mono; [apply page_size_pos|done]. Qed.

Lemma page_lt x y : page_of x < page_of y -> x < y.
Proof. intros HL. destruct (Z.lt_ge_cases x y) as [?|HG]; [done|]. apply page_of_mono in HG. lia. Qed.

Lemma page_start p e : p * page_size < e <-> p <= page_of (e - 1).
Proof.
  pose proof page_size_pos as HP. unfold page_of. split; intros HL.
  - apply Z.div_le_lower_bound; lia.
  - pose proof (Z.mul_div_le (e - 1) page_size HP). nia.
Qed.

(** Every page between two addresses has an address between them. *)
Lemma page_hit a e p : a < e -> page_of a <= p <= page_of (e - 1) -> exists x, a <= x < e /\ page_of x = p.
Proof.
  intros HL [H1 H2]. apply page_start in H2. destruct (Z.eq_dec p (page_of a)) as [->|NE]; [by exists a|].
  exists (p * page_size). rewrite (Z.mul_comm p), page_of_round. split; [|done]. split; [|lia].
  pose proof page_size_pos. destruct (Z.lt_ge_cases (page_size * p) a) as [L|?]; [|lia].
  assert (page_of (page_size * p) <= page_of a) as HX by (apply page_of_mono; lia). rewrite page_of_round in HX. lia.
Qed.

Lemma InSamePage_page x y : is_u 64 x -> is_u 64 y -> InSamePage x y = (page_of x =? page_of y).
Proof.
  intros Hx Hy. unfold InSamePage. rewrite !RoundDown_page by done. pose proof page_size_pos.
  destruct (Z.eqb_spec (page_of x) (page_of y)) as [->|NE]; [apply Z.eqb_refl|]. apply Z.eqb_neq. nia.
Qed.

Lemma RoundUp_page x : 0 < x < 2 ^ 63 -> RoundUp x page_size = page_size * (page_of (x - 1) + 1).
Proof.
  intros Hx. pose proof page_size_pos. pose proof page_log2_range.
  assert (page_size <= 2 ^ 32) by (apply Z.pow_le_mono_r; lia).
  assert (is_u 64 (x + page_size - 1)) by (unfold is_u; lia).
  unfold RoundUp. rewrite wrapu_id, RoundDown_page by done. f_equal. unfold page_of.
  replace (x + page_size - 1) with (x - 1 + 1 * page_size) by lia. rewrite Z.div_add by lia. lia.
Qed.

Lemma protect_page mode a e old p :
  is_u 64 a -> protect_pages mode (RoundDown a page_size) e old p =
    if (page_of a <=? p) && (p <=? page_of (e - 1)) then mode else old p.
Proof.
  intros Ha. unfold protect_pages. rewrite RoundDown_page, page_of_round by done.
  replace (p * page_size <? e) with (p <=? page_of (e - 1)); [done|].
  apply eq_true_iff_eq. rewrite Z.ltb_lt, Z.leb_le. symmetry. apply page_start.
Qed.

(** An aligned word lies in one page. *)
Lemma word_page x : x mod 8 = 0 -> page_of (x + 7) = page_of x.
Proof.
  intros HM. pose proof page_log2_range as HP. pose proof page_size_pos as HS.
  assert (HN : page_size <> 0) by lia. assert (HQ : 0 < 2 ^ (page_log2 - 3)) by (apply Z.pow_pos_nonneg; lia).
  assert (E : page_size = 8 * 2 ^ (page_log2 - 3)).
  { unfold page_size. change 8 with (2 ^ 3). rewrite <- Z.pow_add_r by lia. f_equal. lia. }
  pose proof (Z.div_mod x page_size HN) as ED. pose proof (Z.mod_pos_bound x page_size HS) as HB.
  assert (HD : (x mod page_size) mod 8 = 0).
  { rewrite E, Z.rem_mul_r by (done || lia). rewrite HM, Z.mul_comm, Z.add_0_l. by apply Z.mod_mul. }
  pose proof (Z.div_mod (x mod page_size) 8 ltac:(lia)). unfold page_of. symmetry.
  apply (Z.div_unique _ _ _ (x mod page_size + 7)); [left|lia]. split; [lia|].
  set (q := x mod page_size / 8) in *. nia.
Qed.

(** ** Words *)

(** Mapped memory can be read. *)
Definition readable (m : Memory) : Prop := forall x, is_Some (words m !! x) -> pages m (page_of x) <> kNoAccess.

Definition writable (m : Memory) (x : Z) : Prop := is_writable (pages m (page_of x)) = true.

Lemma read_ok s x v : readable (memory s) -> words (memory s) !! x = Some v -> read x s = Ok (v, s).
Proof. intros HR E. unfold read. rewrite E. rewrite decide_False; [done|]. by apply HR. Qed.

Definition with_words (s : state) (w : gmap Z Z) : state := mkState (mkMemory w (pages (memory s))) (freelist s).

Lemma write_ok s x v :
  is_Some (words (memory s) !! x) -> writable (memory s) x ->
  write x v s = Ok ((), with_words s (<[x := v]> (words (memory s)))).
Proof. intros [w E] HW. unfold write. rewrite E, HW. done. Qed.

(** Nothing changes outside the blocks, and the same words are mapped. *)
Definition changes_only (bs : list block) (w w' : gmap Z Z) : Prop :=
  (forall x, ~ Exists (within x) bs -> w' !! x = w !! x) /\ (forall x, is_Some (w' !! x) <-> is_Some (w !! x)).

Lemma changes_refl bs w : changes_only bs w w.
Proof. done. Qed.

Lemma changes_trans bs w1 w2 w3 : changes_only bs w1 w2 -> changes_only bs w2 w3 -> changes_only bs w1 w3.
Proof. intros [H1 H2] [H3 H4]. split; [intros x Hx; by rewrite H3, H1|]. intros x. by rewrite H4, H2. Qed.

Lemma changes_incl bs bs' w w' :
  (forall x, Exists (within x) bs -> Exists (within x) bs') -> changes_only bs w w' -> changes_only bs' w w'.
Proof. intros HI [H1 H2]. split; [intros x Hx; apply H1; auto|done]. Qed.

Lemma changes_insert bs w x v : Exists (within x) bs -> is_Some (w !! x) -> changes_only bs w (<[x := v]> w).
Proof.
  intros HE HS. split.
  - intros y Hy. apply lookup_insert_ne. intros ->. done.
  - intros y. destruct (decide (x = y)) as [->|NE]; [by rewrite lookup_insert_eq|by rewrite lookup_insert_ne].
Qed.

Lemma changes_readable bs m m' :
  changes_only bs (words m) (words m') -> pages m' = pages m -> readable m -> readable m'.
Proof. intros [_ HC] HP HR x Hx. rewrite HP. apply HR. by apply HC. Qed.

Lemma changes_one b w w' c : changes_only [b] w w' -> apart b c -> forall x, within x c -> w' !! x = w !! x.
Proof.
  intros [HC _] HA x Hx. apply HC. intros [HB|HN]%Exists_cons; [by eapply apart_within|by inversion HN].
Qed.

Definition mapped (w : gmap Z Z) (b : block) : Prop := forall x, within x b -> x mod 8 = 0 -> is_Some (w !! x).

(** ** Elements *)

(** The header of a free element. *)
Record header (w : gmap Z Z) (b : block) (n : Z) : Prop := {
  header_tags : w !! b.1 = Some (tags_of b.2);
  header_next : w !! (b.1 + 8) = Some n;
  header_size : kMaxSizeTag < b.2 -> w !! (b.1 + 16) = Some b.2;
}.

Lemma header_within b : block_ok b ->
  within (b.1) b /\ within (b.1 + 8) b /\ (kMaxSizeTag < b.2 -> within (b.1 + 16) b).
Proof. intros [_ [HS _] _]. unfold within. change kMaxSizeTag with 240. lia. Qed.

Lemma header_agree w w' b n : block_ok b -> (forall x, within x b -> w' !! x = w !! x) -> header w b n -> header w' b n.
Proof.
  intros HB HA [H1 H2 H3]. destruct (header_within b HB) as (W1 & W2 & W3).
  split; [rewrite HA by done; done..|]. intros HL. rewrite HA by auto. auto.
Qed.

Lemma aligned_words b : block_ok b -> b.1 mod 8 = 0 /\ (b.1 + 8) mod 8 = 0 /\ (b.1 + 16) mod 8 = 0.
Proof.
  intros [[_ HM] _ _]. assert (b.1 mod 8 = 0) as H8.
  { pose proof (Z.div_mod (b.1) 16 ltac:(lia)) as E. rewrite E, HM. replace (16 * (b.1 / 16) + 0) with (2 * (b.1 / 16) * 8) by lia.
    apply Z.mod_mul. lia. }
  split_and!; [done|by rewrite Zplus_mod, H8|by rewrite Zplus_mod, H8].
Qed.

Lemma HeapSize_ok s b n :
  readable (memory s) -> block_ok b -> header (words (memory s)) b n -> HeapSize (b.1) s = Ok (b.2, s).
Proof.
  intros HR HB [H1 H2 H3]. unfold HeapSize. erewrite run_bind by by apply read_ok. cbv zeta.
  destruct HB as [[HA _] [HS HM] HE]. rewrite tags_decode by done.
  destruct (Z.ltb_spec kMaxSizeTag (b.2)) as [L|L].
  - rewrite Z.eqb_refl. cbn [negb]. erewrite run_bind; [|apply read_ok; [done|]].
    2:{ unfold SizeAddress, next_address, kWordSize. replace (b.1 + 8 + 8) with (b.1 + 16) by lia. by apply H3. }
    unfold mret, M_ret. by rewrite wraps_id by (unfold is_s; lia).
  - rewrite (proj2 (Z.eqb_neq (b.2) 0)) by lia. done.
Qed.

Lemma element_next_ok s b n :
  readable (memory s) -> header (words (memory s)) b n -> next (b.1) s = Ok (n, s).
Proof. intros HR [_ H2 _]. by apply read_ok. Qed.

(** The words of the header can be written. *)
Definition header_writable (m : Memory) (b : block) : Prop :=
  writable m (b.1) /\ writable m (b.1 + 8) /\ (kMaxSizeTag < b.2 -> writable m (b.1 + 16)).

Lemma AsElement_ok s b :
  block_ok b -> mapped (words (memory s)) b -> header_writable (memory s) b ->
  exists w, AsElement (b.1) (b.2) s = Ok (b.1, with_words s w) /\ header w b 0 /\ changes_only [b] (words (memory s)) w.
Proof.
  intros HB HM (W1 & W2 & W3). pose proof (header_within b HB) as (I1 & I2 & I3). pose proof (aligned_words b HB) as (A1 & A2 & A3).
  unfold AsElement. pose proof HB as [[HP HA] [HS HD] HE]. rewrite run_assert by (change kObjectAlignment with 16; lia).
  rewrite run_assert by (by apply (IsAligned_spec (b.2) 4)). rewrite run_assert.
  2:{ apply Z.eqb_eq. apply Z.bits_inj'. intros i Hi. rewrite Z.land_spec, Z.testbit_0_l.
      change kNewObjectAlignmentOffset with (2 ^ 3). rewrite Z.pow2_bits_eqb by lia. destruct (Z.eqb_spec 3 i) as [<-|]; [|apply andb_false_r].
      by rewrite (aligned_low_bit _ 4) by (done || lia). }
  assert (ET : run (element_tags (b.2)) s = Ok (tags_of (b.2), s)) by (unfold run; by rewrite element_tags_ok).
  rewrite (run_bind _ _ _ _ _ ET). set (w0 := words (memory s)).
  set (w1 := <[b.1 := tags_of b.2]> w0).
  set (w2 := if kMaxSizeTag <? b.2 then <[b.1 + 16 := b.2]> w1 else w1).
  rewrite (run_bind _ _ _ () (with_words s w1)) by by apply write_ok, W1; apply HM.
  assert (C1 : changes_only [b] w0 w1) by (apply changes_insert; [by left|by apply HM]).
  assert (C2 : changes_only [b] w1 w2).
  { unfold w2. destruct (Z.ltb_spec kMaxSizeTag (b.2)); [apply changes_insert; [left; auto|apply C1, HM; auto]|apply changes_refl]. }
  rewrite (run_bind _ _ _ () (with_words s w2)).
  2:{ unfold w2, SizeAddress, next_address, kWordSize. replace (b.1 + 8 + 8) with (b.1 + 16) by lia.
      destruct (Z.ltb_spec kMaxSizeTag (b.2)); [|done]. rewrite wrapu_id by (unfold is_u; lia).
      apply (write_ok (with_words s w1)); [apply C1, HM; auto|apply W3; lia]. }
  rewrite (run_bind _ _ _ () (with_words s (<[b.1 + 8 := 0]> w2))).
  2:{ apply (write_ok (with_words s w2)); [apply C2, C1, HM; auto|done]. }
  eexists. split; [done|]. split.
  - split.
    + rewrite lookup_insert_ne by lia. unfold w2. destruct (_ <? _); rewrite ?(lookup_insert_ne _ (b.1 + 16)) by lia; apply lookup_insert_eq.
    + apply lookup_insert_eq.
    + intros HL. rewrite lookup_insert_ne by lia. unfold w2. rewrite (proj2 (Z.ltb_lt _ _) HL). apply lookup_insert_eq.
  - eapply changes_trans; [done|]. eapply changes_trans; [done|]. apply changes_insert; [by left|]. by apply C2, C1, HM.
Qed.

(** ** Chains *)

(** The address of the first element of a list. *)
Definition head_of (l : list block) : Z := match l with [] => 0 | b :: _ => b.1 end.

Fixpoint chain (w : gmap Z Z) (l : list block) : Prop :=
  match l with
  | [] => True
  | b :: l => header w b (head_of l) /\ chain w l
  end.

Lemma elements_agree w w' l :
  Forall block_ok l -> (forall x, Exists (within x) l -> w' !! x = w !! x) -> chain w l -> chain w' l.
Proof.
  induction l as [|b l IH]; [done|]. intros [HB HF]%Forall_cons HA [HH HC]. split.
  - eapply header_agree; [done| |done]. intros x Hx. apply HA. by left.
  - apply IH; [done| |done]. intros x Hx. apply HA. by right.
Qed.

Lemma chain_app w l1 l2 : chain w (l1 ++ l2) -> chain w l2.
Proof. induction l1 as [|b l1 IH]; [done|]. intros [_ HC]. auto. Qed.

End pages.
