(* ===== verification/FreeListSpec.v ===== *)
(** The free lists: the representation of the free blocks; that taking an element from a list,
    adding one and splitting one keep it; and what an allocation does to blocks and pages. *)
From stdpp Require Import base numbers list gmap.
From Stdlib Require Import ZArith Lia ZifyBool.
From S2P Require Import Prelude Utils BitVector BitSet FreeList FreeListProps.
Local Open Scope Z_scope.
Local Open Scope cxx_scope.

(** ** Lists of lists *)

Lemma concat_perm {A} (ls : list (list A)) i l :
  ls !! i = Some l -> concat ls ≡ₚ l ++ concat (delete i ls).
Proof.
  revert i. induction ls as [|k ls IH]; intros [|i] E; simplify_eq/=; [done|].
  rewrite (IH i E). by rewrite Permutation_app_swap_app.
Qed.

Lemma concat_insert {A} (ls : list (list A)) i l l' :
  ls !! i = Some l -> concat (<[i := l']> ls) ≡ₚ l' ++ concat (delete i ls).
Proof.
  revert i. induction ls as [|k ls IH]; intros [|i] E; simplify_eq/=; [done|].
  rewrite (IH i E). by rewrite Permutation_app_swap_app.
Qed.

(** ** Representation *)

Definition index_of (size : Z) : Z := if 2048 <=? size then 128 else size / 16.

(** The fields of the free list, for the lists of free blocks: a bit of the map for every
    list of small blocks that is not empty, and the largest such size. *)
Record lists_ok (f : FreeList) (ls : list (list block)) : Prop := {
  lists_heads : free_lists_ f = head_of <$> ls;
  lists_length : length ls = 129%nat;
  lists_index : forall i l, ls !! i = Some l -> Forall (fun b => block_ok b /\ Z.to_nat (index_of b.2) = i) l;
  lists_map : set_wf kNumLists (free_map_ f);
  lists_member : forall i : nat, (i < 128)%nat -> member (free_map_ f) (Z.of_nat i) = bool_decide (ls !! i <> Some []);
  lists_last : exists r, last_element (free_map_ f) r /\
    (last_free_small_size_ f = 16 * r \/ (r = -1 /\ last_free_small_size_ f = -1));
}.

(** The memory of the blocks: chained through their headers, apart from each other. *)
Record memory_ok (m : Memory) (ls : list (list block)) : Prop := {
  memory_chain : Forall (chain (words m)) ls;
  memory_blocks : Forall block_ok (concat ls);
  memory_separated : separated (concat ls);
  memory_mapped : Forall (mapped (words m)) (concat ls);
}.

(** What the operations on the lists leave alone. *)
Definition same_bump (f f' : FreeList) : Prop :=
  top_ f' = top_ f /\ end_ f' = end_ f /\ unaccounted_size_ f' = unaccounted_size_ f.

Lemma index_of_range size : 16 <= size -> 1 <= index_of size <= 128.
Proof.
  intros HS. unfold index_of. destruct (Z.leb_spec 2048 size); [lia|].
  pose proof (Z.div_le_lower_bound size 16 1). pose proof (Z.div_lt_upper_bound size 16 128). lia.
Qed.

Lemma IndexForSize_ok s size :
  16 <= size -> size mod 16 = 0 -> IndexForSize size s = Ok (index_of size, s).
Proof.
  intros HS HM. unfold IndexForSize. rewrite run_assert by (change kObjectAlignment with 16; lia).
  rewrite run_assert by (by apply (IsAligned_spec size 4)). cbv zeta. unfold mret, M_ret. do 2 f_equal.
  rewrite Z.shiftr_div_pow2 by done. change (2 ^ kObjectAlignmentLog2) with 16. unfold index_of, kNumLists.
  pose proof (Z.div_mod size 16 ltac:(lia)). destruct (Z.leb_spec 2048 size), (Z.leb_spec 128 (size / 16)); lia.
Qed.

Lemma head_nil l : Forall block_ok l -> head_of l = 0 -> l = [].
Proof. destruct l as [|b l]; [done|]. intros [[HA _]%block_address _]%Forall_cons HE. simpl in HE. lia. Qed.

Lemma get_list_ok s ls i l : lists_ok (freelist s) ls -> ls !! i = Some l -> get_list (Z.of_nat i) s = Ok (head_of l, s).
Proof.
  intros HL E. unfold get_list. rewrite run_field, Nat2Z.id, (lists_heads _ _ HL), list_lookup_fmap, E. done.
Qed.

Lemma set_list_ok s ls i x : lists_ok (freelist s) ls -> (i < 129)%nat ->
  set_list (Z.of_nat i) x s = Ok ((), mkState (memory s) (set_free_lists (<[i := x]> (free_lists_ (freelist s))) (freelist s))).
Proof.
  intros HL Hi. unfold set_list. rewrite run_field, (lists_heads _ _ HL), length_fmap, (lists_length _ _ HL).
  rewrite (proj2 (Z.ltb_lt _ _)) by lia. by rewrite Nat2Z.id.
Qed.

(** ** The map of lists *)

Section lists.
Context (f : FreeList) (ls : list (list block)) (HL : lists_ok f ls).

Lemma list_blocks i l : ls !! i = Some l -> Forall block_ok l.
Proof. intros E. eapply Forall_impl; [by apply (lists_index _ _ HL)|]. by intros b [? _]. Qed.

(** The list [i] changes: the heads, the map and the largest size follow. *)
Lemma lists_update i l l' m r last :
  ls !! i = Some l -> Forall (fun b => block_ok b /\ Z.to_nat (index_of b.2) = i) l' -> set_wf kNumLists m ->
  (forall j, 0 <= j -> member m j = if (j =? Z.of_nat i) && (j <? 128) then bool_decide (l' <> []) else member (free_map_ f) j) ->
  last_element m r -> (last = 16 * r \/ (r = -1 /\ last = -1)) ->
  lists_ok (mkFreeList (top_ f) (end_ f) (unaccounted_size_ f) m (<[i := head_of l']> (free_lists_ f))
              (freelist_search_budget_ f) last) (<[i := l']> ls).
Proof.
  intros E HF HW HM HR HE. split; simpl.
  - by rewrite (lists_heads _ _ HL), list_fmap_insert.
  - by rewrite length_insert, (lists_length _ _ HL).
  - intros j k [(-> & -> & _)|[NE EK]]%list_lookup_insert_Some; [done|]. by apply (lists_index _ _ HL).
  - done.
  - intros j Hj. rewrite HM by lia. rewrite (proj2 (Z.ltb_lt (Z.of_nat j) 128)), andb_true_r by lia.
    destruct (Z.eqb_spec (Z.of_nat j) (Z.of_nat i)) as [EJ|NJ].
    + apply Nat2Z.inj in EJ as ->. rewrite list_lookup_insert_eq by (by eapply lookup_lt_Some).
      apply bool_decide_ext. split; [intros ? [=]; done|intros HN ->; done].
    + rewrite list_lookup_insert_ne by lia. by apply (lists_member _ _ HL).
  - by exists r.
Qed.

Lemma map_unchanged i (l l' : list block) j :
  ls !! i = Some l -> (i = 128%nat \/ (l' <> [] /\ l <> [])) -> 0 <= j ->
  member (free_map_ f) j = if (j =? Z.of_nat i) && (j <? 128) then bool_decide (l' <> []) else member (free_map_ f) j.
Proof.
  intros E HC Hj. destruct (Z.eqb_spec j (Z.of_nat i)) as [->|NE]; [|done]. destruct (Z.ltb_spec (Z.of_nat i) 128); [|done]. simpl.
  destruct HC as [?|[N1 N2]]; [lia|]. rewrite (lists_member _ _ HL) by lia. rewrite !bool_decide_true; [done..|congruence].
Qed.

(** With a bit cleared below the last one, that one stays the last. *)
Lemma last_clear m i r :
  last_element (free_map_ f) r -> 0 <= i -> i <> r ->
  (forall j, 0 <= j -> member m j = if j =? i then false else member (free_map_ f) j) -> last_element m r.
Proof.
  intros (HR & HB & HF) Hi NE HM. split; [done|]. split.
  - destruct (Z.eq_dec r (-1)) as [->|NR]; [by left|right]. destruct HB as [?|HB]; [done|].
    rewrite HM by lia. by rewrite (proj2 (Z.eqb_neq r i)) by done.
  - intros j Hj H0. rewrite HM by done. destruct (_ =? _); [done|]. by apply HF.
Qed.

(** With a bit added the last one is the greater. *)
Lemma last_set m i r :
  last_element (free_map_ f) r -> 0 <= i ->
  (forall j, 0 <= j -> member m j = if j =? i then true else member (free_map_ f) j) -> last_element m (Z.max r i).
Proof.
  intros (HR & HB & HF) Hi HM. split; [lia|]. split.
  - right. rewrite HM by lia. destruct (Z.eqb_spec (Z.max r i) i); [done|]. destruct HB as [->|HB]; [lia|].
    by replace (Z.max r i) with r by lia.
  - intros j Hj H0. rewrite HM by done. rewrite (proj2 (Z.eqb_neq j i)) by lia. apply HF; lia.
Qed.

End lists.

(** ** Taking and adding elements *)

Section elements.
Context `{PageSize}.

Lemma run_map {A B} (x : outcome utils_error A) a (g : A -> M B) s :
  x = Ok a -> (run (map_result x) ≫= g) s = g a s.
Proof. intros ->. done. Qed.

Lemma shift_index i : i << kObjectAlignmentLog2 = 16 * i.
Proof. rewrite Z.shiftl_mul_pow2 by done. change (2 ^ kObjectAlignmentLog2) with 16. lia. Qed.

(** The update of the map and of the largest size when the last element of a list goes. *)
Lemma dequeue_map s ls i b :
  lists_ok (freelist s) ls -> ls !! i = Some [b] -> (i < 128)%nat ->
  exists m last r,
    (last' ← field last_free_small_size_;
     if Z.of_nat i << kObjectAlignmentLog2 =? last' then
       previous ← map_ClearLast (Z.of_nat i); modify (set_last_small (previous * kObjectAlignment))
     else map_Set (Z.of_nat i) false) s =
      Ok ((), mkState (memory s) (set_last_small last (set_free_map m (freelist s)))) /\
    set_wf kNumLists m /\
    (forall j, 0 <= j -> member m j = if j =? Z.of_nat i then false else member (free_map_ (freelist s)) j) /\
    last_element m r /\ (last = 16 * r \/ (r = -1 /\ last = -1)).
Proof.
  intros HL E Hi. destruct (lists_last _ _ HL) as (r & HR & HE). pose proof (lists_map _ _ HL) as HW.
  assert (HB : member (free_map_ (freelist s)) (Z.of_nat i) = true).
  { rewrite (lists_member _ _ HL) by done. apply bool_decide_true. by rewrite E. }
  rewrite run_field, shift_index. destruct (Z.eqb_spec (16 * Z.of_nat i) (last_free_small_size_ (freelist s))) as [EI|NI].
  - assert (r = Z.of_nat i) as -> by lia. unfold kNumLists in *.
    destruct (ClearLast_ok 128 ltac:(done) (free_map_ (freelist s)) (Z.of_nat i) HW ltac:(lia) HB HR) as (q & m & EC & HW' & HQ & HM).
    exists m, (16 * q), q. split; [|by auto]. rewrite (run_bind _ _ _ q (mkState (memory s) (set_free_map m (freelist s)))).
    + unfold modify. simpl. change kObjectAlignment with 16. by rewrite Z.mul_comm.
    + unfold map_ClearLast. rewrite run_field, (run_map _ (q, m)) by done. done.
  - destruct (Set_ok 128 ltac:(done) (free_map_ (freelist s)) (Z.of_nat i) false HW ltac:(lia)) as (m & EC & HW' & HM).
    exists m, (last_free_small_size_ (freelist s)), r. split_and!; [|done|done| |done].
    + unfold map_Set. rewrite run_field, (run_map _ m) by done. by destruct s as [? []].
    + apply (last_clear (freelist s) m (Z.of_nat i)); [done|lia| |done]. intros <-. lia.
Qed.

Lemma DequeueElement_ok s ls i b l :
  lists_ok (freelist s) ls -> readable (memory s) -> header (words (memory s)) b (head_of l) -> ls !! i = Some (b :: l) ->
  exists f', DequeueElement (Z.of_nat i) s = Ok (b.1, mkState (memory s) f') /\
    lists_ok f' (<[i := l]> ls) /\ same_bump (freelist s) f' /\
    freelist_search_budget_ f' = freelist_search_budget_ (freelist s).
Proof.
  intros HL HR HH E. pose proof (lookup_lt_Some _ _ _ E) as Hi. rewrite (lists_length _ _ HL) in Hi.
  pose proof (lists_index _ _ HL i _ E) as HI. apply Forall_cons in HI as [_ HI].
  pose proof (list_blocks _ _ HL i _ E) as [_ HBl]%Forall_cons.
  unfold DequeueElement. erewrite run_bind by (by eapply get_list_ok). cbn [head_of].
  erewrite run_bind by (by apply element_next_ok). change kNumLists with 128.
  destruct ((head_of l =? 0) && negb (Z.of_nat i =? 128)) eqn:EC.
  - apply andb_true_iff in EC as [EN ND%negb_true_iff]. apply Z.eqb_eq, head_nil in EN as ->; [|done]. cbn [head_of].
    destruct (dequeue_map s ls i b HL E ltac:(lia)) as (m & last & r & EM & HW & HM & HL' & HE).
    cbv zeta. rewrite (run_bind _ _ _ _ _ EM).
    set (s1 := mkState (memory s) _). erewrite run_bind.
    2:{ unfold set_list. rewrite run_field. simpl. rewrite (lists_heads _ _ HL), length_fmap, (lists_length _ _ HL).
        rewrite (proj2 (Z.ltb_lt _ _)) by lia. rewrite Nat2Z.id. reflexivity. }
    eexists. split; [done|]. split_and!; [|done..]. rewrite <- (lists_heads _ _ HL).
    apply (lists_update _ _ HL i [b] [] m r last); try done. intros j Hj. rewrite HM by done.
    destruct (Z.eqb_spec j (Z.of_nat i)); [|done]. by rewrite (proj2 (Z.ltb_lt _ _)) by lia.
  - rewrite run_ret. rewrite (run_bind _ _ _ _ _ (set_list_ok s ls i (head_of l) HL Hi)). eexists. split; [done|]. split_and!; [|done..].
    destruct (lists_last _ _ HL) as (r & HR' & HE). eapply lists_update; [done..|apply HL| |done|done].
    intros j Hj. eapply map_unchanged; [done..| |done]. destruct (Z.eqb_spec (Z.of_nat i) 128) as [?|N8]; [left; lia|right].
    split; [|done]. intros ->. done.
Qed.

Lemma enqueue_map s ls i :
  lists_ok (freelist s) ls -> ls !! i = Some [] -> (i < 128)%nat ->
  exists m last r,
    (_ ← map_Set (Z.of_nat i) true;
     last' ← field last_free_small_size_;
     modify (set_last_small (Maximum last' (Z.of_nat i << kObjectAlignmentLog2)))) s =
      Ok ((), mkState (memory s) (set_last_small last (set_free_map m (freelist s)))) /\
    set_wf kNumLists m /\
    (forall j, 0 <= j -> member m j = if j =? Z.of_nat i then true else member (free_map_ (freelist s)) j) /\
    last_element m r /\ (last = 16 * r \/ (r = -1 /\ last = -1)).
Proof.
  intros HL E Hi. destruct (lists_last _ _ HL) as (r & HR & HE). pose proof (lists_map _ _ HL) as HW.
  destruct (Set_ok 128 ltac:(done) (free_map_ (freelist s)) (Z.of_nat i) true HW ltac:(lia)) as (m & EC & HW' & HM).
  exists m, (16 * Z.max r (Z.of_nat i)), (Z.max r (Z.of_nat i)). split_and!; [|done|done| |by left].
  - rewrite (run_bind _ _ _ () (mkState (memory s) (set_free_map m (freelist s)))).
    + rewrite run_field. unfold modify. simpl. rewrite shift_index, Maximum_max. do 4 f_equal. destruct HR as (? & _). lia.
    + unfold map_Set. rewrite run_field, (run_map _ m) by done. done.
  - apply (last_set (freelist s)); [done|lia|done].
Qed.

Lemma EnqueueElement_ok s ls i b l :
  lists_ok (freelist s) ls -> ls !! i = Some l -> block_ok b -> Z.to_nat (index_of b.2) = i ->
  is_Some (words (memory s) !! (b.1 + 8)) -> writable (memory s) (b.1 + 8) ->
  exists f', EnqueueElement (b.1) (Z.of_nat i) s =
      Ok ((), mkState (mkMemory (<[b.1 + 8 := head_of l]> (words (memory s))) (pages (memory s))) f') /\
    lists_ok f' (<[i := b :: l]> ls) /\ same_bump (freelist s) f' /\
    freelist_search_budget_ f' = freelist_search_budget_ (freelist s).
Proof.
  intros HL E HB EI HM HWr. pose proof (lookup_lt_Some _ _ _ E) as Hi. rewrite (lists_length _ _ HL) in Hi.
  pose proof (lists_index _ _ HL i _ E) as HI. assert (HI' : Forall (fun b => block_ok b /\ Z.to_nat (index_of b.2) = i) (b :: l)) by by constructor.
  pose proof (list_blocks _ _ HL i _ E) as HBl.
  unfold EnqueueElement. erewrite run_bind by (by eapply get_list_ok). change kNumLists with 128.
  destruct ((head_of l =? 0) && negb (Z.of_nat i =? 128)) eqn:EC.
  - apply andb_true_iff in EC as [EN ND%negb_true_iff]. apply Z.eqb_eq, head_nil in EN as ->; [|done]. cbn [head_of].
    destruct (enqueue_map s ls i HL E ltac:(lia)) as (m & last & r & EM & HW & HM' & HL' & HE).
    rewrite (run_bind _ _ _ _ _ EM). set (s1 := mkState (memory s) _). unfold set_next, next_address, kWordSize.
    rewrite (run_bind _ _ _ _ _ (write_ok s1 _ 0 HM HWr)).
    eexists. split; [unfold set_list; rewrite run_field; simpl; rewrite (lists_heads _ _ HL), length_fmap, (lists_length _ _ HL);
      rewrite (proj2 (Z.ltb_lt _ _)) by lia; rewrite Nat2Z.id; reflexivity|]. split_and!; [|done..].
    rewrite <- (lists_heads _ _ HL). apply (lists_update _ _ HL i [] [b] m r last); try done. intros j Hj. rewrite HM' by done.
    destruct (Z.eqb_spec j (Z.of_nat i)); [|done]. by rewrite (proj2 (Z.ltb_lt _ _)) by lia.
  - rewrite run_ret. unfold set_next, next_address, kWordSize. rewrite (run_bind _ _ _ _ _ (write_ok s _ _ HM HWr)).
    eexists. split; [by apply (set_list_ok (with_words s _) ls i)|]. split_and!; [|done..].
    destruct (lists_last _ _ HL) as (r & HR' & HE). simpl. eapply (lists_update _ _ HL i l (b :: l)); [done..|apply HL| |done|done].
    intros j Hj. eapply map_unchanged; [done..| |done]. destruct (Z.eqb_spec (Z.of_nat i) 128) as [?|N8]; [left; lia|right].
    split; [done|]. intros ->. done.
Qed.

(** ** The memory of the blocks *)

(** A block that is taken out of the lists. *)
Record taken (m : Memory) (b : block) (n : Z) (ls : list (list block)) : Prop := {
  taken_block : block_ok b;
  taken_header : header (words m) b n;
  taken_separated : separated (b :: concat ls);
  taken_mapped : mapped (words m) b;
}.

Lemma memory_remove m ls i b l :
  memory_ok m ls -> ls !! i = Some (b :: l) ->
  memory_ok m (<[i := l]> ls) /\ taken m b (head_of l) (<[i := l]> ls) /\ concat ls ≡ₚ b :: concat (<[i := l]> ls).
Proof.
  intros [HC HB HS HM] E. pose proof (Forall_lookup_1 _ _ _ _ HC E) as [HH HCl].
  assert (EP : concat ls ≡ₚ b :: concat (<[i := l]> ls)) by (by rewrite (concat_perm _ _ _ E), (concat_insert _ _ _ _ E)).
  rewrite EP in HB, HS, HM. apply Forall_cons in HB as [HB1 HB2], HM as [HM1 HM2]. split_and!; [|done|done].
  split; [by apply Forall_insert|done|apply HS|done].
Qed.

Lemma chain_change w w' b l :
  changes_only [b] w w' -> Forall (apart b) l -> Forall block_ok l -> chain w l -> chain w' l.
Proof.
  intros HC HA HB. apply elements_agree; [done|]. intros x Hx. apply Exists_exists in Hx as (c & Hc & Hx).
  eapply changes_one; [done| |done]. rewrite Forall_forall in HA. auto.
Qed.

Lemma mapped_change bs w w' b : changes_only bs w w' -> mapped w b -> mapped w' b.
Proof. intros [_ HC] HM x Hx HA. by apply HC, HM. Qed.

Lemma memory_change m m' ls b :
  changes_only [b] (words m) (words m') -> Forall (apart b) (concat ls) -> memory_ok m ls -> memory_ok m' ls.
Proof.
  intros HC HA [H1 H2 H3 H4]. split; [|done|done|eapply Forall_impl; [done|]; intros c; by eapply mapped_change].
  clear H3 H4. induction ls as [|l ls IH]; [done|]. simpl in *. apply Forall_app in HA as [HA1 HA2], H2 as [HB1 HB2].
  apply Forall_cons in H1 as [HC1 HC2]. constructor; [by eapply chain_change|auto].
Qed.

(** The element is linked to the first of the list it is added to. *)
Lemma memory_add m ls i b l n :
  memory_ok m ls -> taken m b n ls -> ls !! i = Some l ->
  memory_ok (mkMemory (<[b.1 + 8 := head_of l]> (words m)) (pages m)) (<[i := b :: l]> ls) /\
  concat (<[i := b :: l]> ls) ≡ₚ b :: concat ls.
Proof.
  intros HO [HB HH HS HM] E. pose proof (header_within b HB) as (I1 & I2 & I3).
  assert (EP : concat (<[i := b :: l]> ls) ≡ₚ b :: concat ls) by (by rewrite (concat_insert _ _ _ _ E), (concat_perm _ _ _ E)).
  split; [|done]. set (m' := mkMemory _ _).
  assert (HC : changes_only [b] (words m) (words m')) by (apply changes_insert; [by left|by eapply mk_is_Some, header_next]).
  pose proof (memory_change m m' ls b HC (proj1 HS) HO) as [H1 H2 H3 H4]. split.
  - apply Forall_insert; [done|]. split; [|by eapply Forall_lookup_1 in H1].
    destruct HH as [HT HN HZ]. split; simpl; [by rewrite lookup_insert_ne by lia|apply lookup_insert_eq|].
    intros HL. rewrite lookup_insert_ne by lia. auto.
  - rewrite EP. by constructor.
  - by rewrite EP.
  - rewrite EP. constructor; [by eapply mapped_change|done].
Qed.

End elements.

Section alloc.
Context `{PageSize}.

Record rep (s : state) (ls : list (list block)) : Prop := {
  rep_lists : lists_ok (freelist s) ls;
  rep_memory : memory_ok (memory s) ls;
  rep_readable : readable (memory s);
}.

(** ** Protection *)

Definition with_pages (s : state) (p : Z -> Protection) : state := mkState (mkMemory (words (memory s)) p) (freelist s).

(** Changing the protection of the words from [a] to [e]. *)
Lemma Protect_ok s a size mode :
  0 < a -> 0 <= size -> a + size < 2 ^ 63 + 2 ^ 62 ->
  exists p, Protect a size mode s = Ok ((), with_pages s p) /\
    forall q, p q = if (page_of a <=? q) && (q <=? page_of (a + size - 1)) then mode else pages (memory s) q.
Proof.
  intros Ha HS HE. assert (is_u 64 a) by (unfold is_u; lia). unfold Protect. eexists. split; [done|]. intros q.
  rewrite wrapu_id by (unfold is_u; lia). by rewrite protect_page.
Qed.

Lemma rep_pages s ls p :
  rep s ls -> (forall q, p q <> kNoAccess \/ p q = pages (memory s) q) -> rep (with_pages s p) ls.
Proof.
  intros [HL HM HR] HP. split; [done| |].
  - destruct HM as [H1 H2 H3 H4]. by split.
  - intros x Hx. simpl in *. destruct (HP (page_of x)) as [?| ->]; [done|]. by apply HR.
Qed.

Lemma taken_pages s p b n ls : taken (memory s) b n ls -> taken (memory (with_pages s p)) b n ls.
Proof. intros [H1 H2 H3 H4]. by split. Qed.

(** What the last step of a split does to the pages: the part of the header of the remainder
    that shares no page with the allocated block is protected again. *)
Definition split_pages (is_protected : bool) (b : block) (size : Z) (old new : Z -> Protection) : Prop :=
  if is_protected then
    (forall q, q <= page_of (b.1 + size - 1) -> new q = old q) /\
    (forall q, is_writable (new q) = true -> is_writable (old q) = true) /\
    (forall q, page_of (b.1 + size - 1) < q <= page_of (b.1 + size + HeaderSizeFor (b.2 - size) - 1) -> is_writable (new q) = false)
  else new = old.

Lemma split_protect s ls a size h is_protected :
  rep s ls -> 0 < a -> 16 <= size -> 0 < h <= 24 -> a + size < 2 ^ 63 ->
  exists p,
    (if (is_protected : bool) then
       if negb (InSamePage (a + size - 1) (a + size + h - 1)) then
         Protect (RoundUp (a + size) page_size) (a + size + h - RoundUp (a + size) page_size) kReadExecute
       else mret ()
     else mret ()) s = Ok ((), with_pages s p) /\ rep (with_pages s p) ls /\
    (if is_protected then
       (forall q, q <= page_of (a + size - 1) -> p q = pages (memory s) q) /\
       (forall q, is_writable (p q) = true -> is_writable (pages (memory s) q) = true) /\
       (forall q, page_of (a + size - 1) < q <= page_of (a + size + h - 1) -> is_writable (p q) = false)
     else p = pages (memory s)).
Proof.
  intros HR Ha HS Hh HE. assert (EW : s = with_pages s (pages (memory s))) by by destruct s as [[] ?].
  destruct is_protected; [|exists (pages (memory s)); rewrite <- EW; done].
  rewrite InSamePage_page by (unfold is_u; lia).
  destruct (Z.eqb_spec (page_of (a + size - 1)) (page_of (a + size + h - 1))) as [E|NE]; simpl negb; cbv iota.
  { exists (pages (memory s)). rewrite <- EW. split_and!; [done..|]. intros q Hq. lia. }
  pose proof (page_of_mono (a + size - 1) (a + size + h - 1) ltac:(lia)) as HM.
  rewrite RoundUp_page by lia. set (q0 := page_of (a + size - 1)) in *. pose proof page_size_pos as HP.
  assert (HB : page_size * (q0 + 1) <= a + size + h - 1).
  { destruct (Z.le_gt_cases (page_size * (q0 + 1)) (a + size + h - 1)) as [?|HG]; [done|].
    pose proof (page_of_round (q0 + 1)) as E1. pose proof (page_start (q0 + 1) (a + size + h)) as [_ E2].
    assert (q0 + 1 <= page_of (a + size + h - 1)) as E3 by lia. apply E2 in E3. lia. }
  assert (HA : 0 < page_size * (q0 + 1)) by (assert (0 <= q0) by (apply Z.div_pos; lia); nia).
  destruct (Protect_ok s (page_size * (q0 + 1)) (a + size + h - page_size * (q0 + 1)) kReadExecute HA) as (p & EP & Hp); [lia..|].
  exists p. split; [done|]. rewrite page_of_round in Hp.
  replace (page_size * (q0 + 1) + (a + size + h - page_size * (q0 + 1)) - 1) with (a + size + h - 1) in Hp by lia.
  split_and!.
  - apply rep_pages; [done|]. intros q. rewrite Hp. destruct (_ && _); [by left|by right].
  - intros q Hq. rewrite Hp. by rewrite (proj2 (Z.leb_gt _ _)) by lia.
  - intros q. rewrite Hp. by destruct (_ && _).
  - intros q Hq. rewrite Hp. by rewrite !(proj2 (Z.leb_le _ _)) by lia.
Qed.

(** ** Splitting *)

Lemma index_nat size : 16 <= size -> index_of size = Z.of_nat (Z.to_nat (index_of size)).
Proof. intros HS. pose proof (index_of_range size HS). lia. Qed.

Lemma list_exists f ls size : lists_ok f ls -> 16 <= size -> exists l, ls !! Z.to_nat (index_of size) = Some l.
Proof.
  intros HL HS. pose proof (index_of_range size HS). apply lookup_lt_is_Some_2. rewrite (lists_length _ _ HL). lia.
Qed.

(** A block is made an element and added to its list. *)
Lemma add_block s ls b :
  rep s ls -> block_ok b -> mapped (words (memory s)) b -> separated (b :: concat ls) -> header_writable (memory s) b ->
  exists s1 s' ls', AsElement (b.1) (b.2) s = Ok (b.1, s1) /\ EnqueueElement (b.1) (index_of b.2) s1 = Ok ((), s') /\
    rep s' ls' /\ concat ls' ≡ₚ b :: concat ls /\ pages (memory s') = pages (memory s) /\
    changes_only [b] (words (memory s)) (words (memory s')) /\ same_bump (freelist s) (freelist s') /\
    freelist_search_budget_ (freelist s') = freelist_search_budget_ (freelist s).
Proof.
  intros [HL HM HR] HB HP HS HW. destruct (AsElement_ok s b HB HP HW) as (w & EA & HH & HC).
  pose proof (block_size b HB) as [HZ HA]. rewrite (index_nat _ HZ).
  destruct (list_exists _ _ (b.2) HL HZ) as [l El]. destruct (header_within b HB) as (I1 & I2 & _).
  destruct (EnqueueElement_ok (with_words s w) ls _ b l HL El HB eq_refl) as (f' & EE & HL' & HU & HG).
  { simpl. rewrite (header_next _ _ _ HH). by eexists. } { apply HW. }
  set (m1 := mkMemory w (pages (memory s))).
  assert (HM1 : memory_ok m1 ls) by (eapply memory_change; [exact HC|apply HS|done]).
  assert (HT : taken m1 b 0 ls) by (split; [done|done|done|by eapply mapped_change]).
  destruct (memory_add m1 ls _ b l 0 HM1 HT El) as [HM2 EP].
  assert (HC2 : changes_only [b] w (<[b.1 + 8 := head_of l]> w)).
  { apply changes_insert; [by left|]. by eapply mk_is_Some, header_next. }
  assert (HC3 : changes_only [b] (words (memory s)) (<[b.1 + 8 := head_of l]> w)) by by eapply changes_trans.
  do 3 eexists. split; [exact EA|]. split; [exact EE|]. split; [|by split_and!]. split; [done..|]. by eapply changes_readable.
Qed.

Lemma Split_ok s ls b n size is_protected :
  rep s ls -> taken (memory s) b n ls -> 16 <= size <= b.2 -> size mod 16 = 0 ->
  Forall (header_writable (memory s)) (remainder b size) ->
  exists s' ls', SplitElementAfterAndEnqueue (b.1) size is_protected s = Ok ((), s') /\
    rep s' ls' /\ concat ls' ≡ₚ remainder b size ++ concat ls /\
    changes_only [b] (words (memory s)) (words (memory s')) /\
    split_pages is_protected b size (pages (memory s)) (pages (memory s')) /\
    same_bump (freelist s) (freelist s') /\
    freelist_search_budget_ (freelist s') = freelist_search_budget_ (freelist s).
Proof.
  intros HRep HT HS HM HW. pose proof HRep as [HL HMem HR]. pose proof HT as [HB HH HSep HMap].
  unfold SplitElementAfterAndEnqueue. rewrite (run_bind _ _ _ _ _ (HeapSize_ok s b n HR HB HH)). cbv zeta.
  pose proof (remainder_ok b size HB HS HM) as HRB. pose proof (split_separated b size _ ltac:(lia) HSep) as [_ HSep2].
  unfold split_pages. unfold remainder in *. destruct (Z.eqb_spec (b.2) size) as [ES|NS].
  { rewrite (proj2 (Z.eqb_eq (b.2 - size) 0)) by lia. exists s, ls. split_and!; try done.
    destruct is_protected; [|done]. split_and!; [done..|]. replace (b.2 - size) with 0 by lia. change (HeaderSizeFor 0) with 0.
    intros q Hq. replace (b.1 + size + 0 - 1) with (b.1 + size - 1) in Hq by lia. lia. }
  rewrite (proj2 (Z.eqb_neq (b.2 - size) 0)) by lia. rewrite Forall_singleton in HW, HRB. set (r := (b.1 + size, b.2 - size)) in *.
  pose proof HB as [[HA1 HA2] [HZ1 HZ2] HE]. pose proof (block_size r HRB) as [HR1 HR2]. simpl in HR1.
  rewrite (wrapu_id 64 (b.1 + size)) by (unfold is_u; lia).
  assert (HMr : mapped (words (memory s)) r) by (intros x Hx; apply HMap; unfold within in *; simpl in *; lia).
  destruct (add_block s ls r HRep HRB HMr HSep2 HW) as (s1 & s2 & ls' & E1 & E2 & HRep' & EP & EPg & HC & HU & HG).
  rewrite (run_bind _ _ _ _ _ E1), (run_bind _ _ _ _ _ (IndexForSize_ok s1 (b.2 - size) HR1 HR2)), (run_bind _ _ _ _ _ E2).
  assert (Hh : 0 < HeaderSizeFor (b.2 - size) <= 24).
  { unfold HeaderSizeFor. rewrite (proj2 (Z.eqb_neq _ 0)) by lia. destruct (_ <? _); done. }
  destruct (split_protect s2 ls' (b.1) size _ is_protected HRep' HA1 ltac:(lia) Hh ltac:(lia)) as (p & EPr & HRep2 & HPg).
  rewrite EPr. rewrite EPg in HPg. exists (with_pages s2 p), ls'. split_and!; try done.
  eapply changes_incl; [|done]. intros x Hx. apply Exists_exists in Hx as (c & ->%list_elem_of_singleton & Hx).
  left. unfold within in *. simpl in *. lia.
Qed.

(** ** What an allocation does *)

(** The pages of the allocated block are writable, and no other page has become so. Without
    protection the pages stay as they are. *)
Definition grants (is_protected : bool) (old new : Z -> Protection) (r size : Z) : Prop :=
  if is_protected then
    (forall x, r <= x < r + size -> is_writable (new (page_of x)) = true) /\
    (forall q, is_writable (new q) = true -> is_writable (old q) = true \/ exists x, r <= x < r + size /\ page_of x = q)
  else new = old.

(** [size] bytes of a block are taken, and only free blocks are written to. *)
Record allocates (is_protected : bool) (size : Z) (s : state) (ls : list (list block)) (b : block) (s' : state)
    (ls' : list (list block)) : Prop := {
  alloc_fits : size <= b.2;
  alloc_rep : rep s' ls';
  alloc_blocks : exists rest, concat ls ≡ₚ b :: rest /\ concat ls' ≡ₚ remainder b size ++ rest;
  alloc_frame : changes_only (concat ls) (words (memory s)) (words (memory s'));
  alloc_pages : grants is_protected (pages (memory s)) (pages (memory s')) (b.1) size;
  alloc_bump : same_bump (freelist s) (freelist s');
}.

(** Without protection the free blocks are writable. *)
Definition free_writable (is_protected : bool) (m : Memory) (ls : list (list block)) : Prop :=
  is_protected = false -> Forall (fun b => forall x, within x b -> writable m x) (concat ls).

(** The block and the header of its remainder are open for writing. *)
Definition region_open (is_protected : bool) (old new : Z -> Protection) (b : block) (size : Z) : Prop :=
  if is_protected then
    (forall q, page_of (b.1) <= q <= page_of (b.1 + (size + HeaderSizeFor (b.2 - size)) - 1) -> is_writable (new q) = true) /\
    (forall q, is_writable (new q) = true -> is_writable (old q) = true \/
       page_of (b.1) <= q <= page_of (b.1 + (size + HeaderSizeFor (b.2 - size)) - 1))
  else new = old /\ forall x, within x b -> is_writable (old (page_of x)) = true.

Lemma header_bound b size : 16 <= size <= b.2 -> size mod 16 = 0 -> block_ok b ->
  0 <= HeaderSizeFor (b.2 - size) <= b.2 - size.
Proof.
  intros HS HM HB. pose proof (remainder_ok b size HB HS HM) as HR. unfold HeaderSizeFor, remainder in *.
  destruct (Z.eqb_spec (b.2) size), (Z.eqb_spec (b.2 - size) 0); try lia. rewrite Forall_singleton in HR.
  pose proof (block_size _ HR) as [HZ _]. simpl in HZ. change kMaxSizeTag with 240. change kWordSize with 8.
  destruct (Z.ltb_spec 240 (b.2 - size)); lia.
Qed.

Lemma open_remainder is_protected old s b size :
  block_ok b -> 16 <= size <= b.2 -> size mod 16 = 0 -> region_open is_protected old (pages (memory s)) b size ->
  Forall (header_writable (memory s)) (remainder b size).
Proof.
  intros HB HS HM HO. pose proof (remainder_ok b size HB HS HM) as HR. pose proof HB as [[HA _] [HZ _] _].
  unfold remainder in *. destruct (Z.eqb_spec (b.2) size) as [|NE]; [constructor|]. rewrite Forall_singleton in *.
  pose proof (block_size _ HR) as [HZ' _]. simpl in HZ'.
  assert (HX : forall x, b.1 + size <= x < b.1 + size + HeaderSizeFor (b.2 - size) -> writable (memory s) x).
  { pose proof (header_bound b size HS HM HB). intros x Hx. unfold writable. destruct is_protected; simpl in HO.
    - destruct HO as [HO _]. apply HO. split; apply page_of_mono; lia.
    - destruct HO as [-> HO]. apply HO. unfold within. lia. }
  unfold HeaderSizeFor in HX. rewrite (proj2 (Z.eqb_neq (b.2 - size) 0)) in HX by lia.
  change kWordSize with 8 in HX. unfold header_writable. cbn [fst snd].
  destruct (Z.ltb_spec kMaxSizeTag (b.2 - size)); split_and!; try intros ?; try apply HX; lia.
Qed.

Lemma open_grants is_protected old p new b size :
  block_ok b -> 16 <= size <= b.2 -> size mod 16 = 0 ->
  region_open is_protected old p b size -> split_pages is_protected b size p new -> grants is_protected old new (b.1) size.
Proof.
  intros HB HS HM HO HP. pose proof (header_bound b size HS HM HB) as HH.
  destruct is_protected; simpl in *; [|destruct HO as [-> _]; done]. destruct HO as [HO1 HO2], HP as (HP1 & HP2 & HP3). split.
  - intros x Hx. pose proof (page_of_mono x (b.1 + size - 1) ltac:(lia)). rewrite HP1 by done. apply HO1.
    pose proof (page_of_mono (b.1) x ltac:(lia)). pose proof (page_of_mono x (b.1 + (size + HeaderSizeFor (b.2 - size)) - 1) ltac:(lia)). lia.
  - intros q Hq. destruct (Z.le_gt_cases q (page_of (b.1 + size - 1))) as [L|L].
    + destruct (HO2 q (HP2 q Hq)) as [?|HQ]; [by left|right]. apply page_hit; lia.
    + destruct (HO2 q (HP2 q Hq)) as [?|HQ]; [by left|]. rewrite HP3 in Hq; [done|].
      replace (b.1 + size + HeaderSizeFor (b.2 - size) - 1) with (b.1 + (size + HeaderSizeFor (b.2 - size)) - 1) by lia. lia.
Qed.

(** Opening the region. *)
Lemma open_region s ls b size (is_protected : bool) :
  rep s ls -> block_ok b -> 16 <= size <= b.2 -> size mod 16 = 0 ->
  (is_protected = false -> forall x, within x b -> writable (memory s) x) ->
  exists p, (if is_protected then Protect (b.1) (size + HeaderSizeFor (b.2 - size)) kReadWrite else mret ()) s =
      Ok ((), with_pages s p) /\ rep (with_pages s p) ls /\ region_open is_protected (pages (memory s)) p b size.
Proof.
  intros HR HB HS HM HW. pose proof HB as [[HA _] [HZ _] HE].
  pose proof (header_bound b size HS HM HB) as HH. destruct is_protected.
  - destruct (Protect_ok s (b.1) (size + HeaderSizeFor (b.2 - size)) kReadWrite HA) as (p & EP & Hp); [lia..|].
    exists p. split; [done|]. split.
    + apply rep_pages; [done|]. intros q. rewrite Hp. destruct (_ && _); [by left|by right].
    + split; intros q; rewrite Hp; [intros ?; by rewrite !(proj2 (Z.leb_le _ _)) by lia|].
      destruct (_ && _) eqn:E; [intros _; right; lia|by left].
  - exists (pages (memory s)). assert (s = with_pages s (pages (memory s))) as <- by by destruct s as [[] ?].
    split_and!; try done. split; [done|]. by apply HW.
Qed.

End alloc.
