(* ===== verification/FreeListSearch.v ===== *)
(** The free lists: allocation from the lists of small blocks, the search of the list of large
    ones, and what every operation does to the free blocks. *)
From stdpp Require Import base numbers list gmap.
From Stdlib Require Import ZArith Lia ZifyBool.
From S2P Require Import Prelude Utils BitVector BitSet FreeList FreeListProps FreeListSpec.
Local Open Scope Z_scope.
Local Open Scope cxx_scope.

Section search.
Context `{PageSize}.

(** ** Lists of small blocks *)

Lemma block_of_list s ls i b l :
  rep s ls -> ls !! i = Some (b :: l) -> block_ok b /\ Z.to_nat (index_of b.2) = i.
Proof. intros HR E. by apply (lists_index _ _ (rep_lists _ _ HR)) in E as [? _]%Forall_cons. Qed.

Lemma index_size size b : 16 <= size -> size mod 16 = 0 -> block_ok b -> index_of size <= index_of b.2 -> index_of size < 128 ->
  size <= b.2 /\ (index_of b.2 = index_of size -> b.2 = size).
Proof.
  intros HS HM [_ [HZ HZM] _] HI HL. unfold index_of in *.
  pose proof (Z.div_mod size 16 ltac:(lia)). pose proof (Z.div_mod (b.2) 16 ltac:(lia)).
  destruct (Z.leb_spec 2048 size), (Z.leb_spec 2048 (b.2)); lia.
Qed.

Lemma member_range s ls r : rep s ls -> 0 <= r -> member (free_map_ (freelist s)) r = true -> r < 128.
Proof.
  intros HR H0 HM. destruct (Z.lt_ge_cases r 128) as [?|HG]; [done|]. rewrite member_beyond in HM; [done|].
  rewrite (set_length _ _ (lists_map _ _ (rep_lists _ _ HR))). change (kLengthInWords kNumLists) with 2.
  apply Z.div_le_lower_bound; lia.
Qed.

Lemma member_list s ls r :
  rep s ls -> 0 <= r < 128 -> member (free_map_ (freelist s)) r = true -> exists b l, ls !! Z.to_nat r = Some (b :: l).
Proof.
  intros HR Hr HM. pose proof (lists_length _ _ (rep_lists _ _ HR)) as HL.
  rewrite <- (Z2Nat.id r), (lists_member _ _ (rep_lists _ _ HR)) in HM by lia. apply bool_decide_eq_true in HM.
  destruct (lookup_lt_is_Some_2 ls (Z.to_nat r) ltac:(lia)) as [l E]. destruct l as [|b l]; [done|]. by exists b, l.
Qed.

Lemma exact_list_ok s ls size :
  rep s ls -> 16 <= size -> size mod 16 = 0 ->
  exists found, exact_list (index_of size) s = Ok (found, s) /\
    (found = true -> exists b l, ls !! Z.to_nat (index_of size) = Some (b :: l) /\ b.2 = size) /\
    (found = false -> index_of size = 128 \/ ls !! Z.to_nat (index_of size) = Some []).
Proof.
  intros HR HS HM. pose proof (index_of_range size HS) as HI. pose proof (rep_lists _ _ HR) as HL.
  unfold exact_list, kNumLists. destruct (Z.eqb_spec (index_of size) 128) as [E8|N8]; cbn [negb].
  { exists false. split_and!; [done|done|by left]. }
  exists (member (free_map_ (freelist s)) (index_of size)). split_and!.
  - unfold map_Test. rewrite run_field. unfold run. rewrite (Test_ok 128) by (apply HL || lia). done.
  - intros HB. destruct (member_list s ls (index_of size) HR ltac:(lia) HB) as (b & l & E). exists b, l. split; [done|].
    destruct (block_of_list s ls _ b l HR E) as [HBk EI]. pose proof (index_of_range (b.2) ltac:(apply HBk)).
    eapply index_size; [done|done|done|lia..].
  - intros HB. right. rewrite <- (Z2Nat.id (index_of size)), (lists_member _ _ HL) in HB by lia. by apply bool_decide_eq_false, dec_stable in HB.
Qed.

Lemma next_list_ok s ls size :
  rep s ls -> 16 <= size -> size mod 16 = 0 ->
  exists r, next_list (index_of size) s = Ok (r, s) /\
    (r <> -1 -> exists b l, 0 <= r < 128 /\ ls !! Z.to_nat r = Some (b :: l) /\ size <= b.2) /\
    (r = -1 -> forall i l, ls !! i = Some l -> index_of size < Z.of_nat i < 128 -> l = []).
Proof.
  intros HR HS HM. pose proof (index_of_range size HS) as HI. pose proof (rep_lists _ _ HR) as HL.
  unfold next_list, kNumLists. destruct (Z.ltb_spec (index_of size + 1) 128) as [L|L].
  2:{ exists (-1). split_and!; [done|done|]. intros _ i l _ Hi. lia. }
  destruct (set_Next_ok 128 ltac:(done) (free_map_ (freelist s)) (index_of size + 1) (lists_map _ _ HL) ltac:(lia)) as (r & EN & HN).
  exists r. split; [unfold map_Next; rewrite run_field; unfold run, kNumLists; by rewrite EN|]. split.
  - intros NR. destruct HN as [[? _]|(HG & HB & _)]; [done|]. pose proof (member_range s ls r HR ltac:(lia) HB).
    destruct (member_list s ls r HR ltac:(lia) HB) as (b & l & E). exists b, l. split_and!; [lia|lia|done|].
    destruct (block_of_list s ls _ b l HR E) as [HBk EI]. pose proof (index_of_range (b.2) ltac:(apply HBk)).
    eapply index_size; [done|done|done|lia..].
  - intros -> i l E Hi. destruct HN as [[_ HN]|(HG & _)]; [|lia]. specialize (HN (Z.of_nat i) ltac:(lia)).
    rewrite (lists_member _ _ HL) in HN by lia. apply bool_decide_eq_false, dec_stable in HN. by rewrite E in HN; simplify_eq.
Qed.

Lemma rep_budget s ls n : rep s ls -> rep (mkState (memory s) (set_budget n (freelist s))) ls.
Proof. intros [[H1 H2 H3 H4 H5 H6] HM HR]. by split. Qed.

Lemma changes_sub bs b w w' : b ∈ bs -> changes_only [b] w w' -> changes_only bs w w'.
Proof.
  intros HE. apply changes_incl. intros x Hx. apply Exists_exists in Hx as (c & ->%list_elem_of_singleton & Hx).
  apply Exists_exists. by exists b.
Qed.

(** The first element of a list is taken and split. *)
Lemma dequeue_alloc s ls i b l size is_protected :
  rep s ls -> free_writable is_protected (memory s) ls -> ls !! i = Some (b :: l) -> 16 <= size <= b.2 -> size mod 16 = 0 ->
  exists s1 s2 s3 ls', DequeueElement (Z.of_nat i) s = Ok (b.1, s1) /\ HeapSize (b.1) s1 = Ok (b.2, s1) /\
    (if is_protected then Protect (b.1) (size + HeaderSizeFor (b.2 - size)) kReadWrite else mret ()) s1 = Ok ((), s2) /\
    SplitElementAfterAndEnqueue (b.1) size is_protected s2 = Ok ((), s3) /\ (b.2 = size -> s3 = s2) /\
    allocates is_protected size s ls b s3 ls'.
Proof.
  intros [HL HM HR] HW E HS HA. destruct (memory_remove _ _ _ _ _ HM E) as (HM1 & HT & EP).
  destruct (DequeueElement_ok s ls i b l HL HR (taken_header _ _ _ _ HT) E) as (f' & ED & HL1 & HU & _).
  set (s1 := mkState (memory s) f'). assert (HR1 : rep s1 (<[i := l]> ls)) by by split.
  assert (Hb : b ∈ concat ls) by (rewrite EP; left).
  destruct (open_region s1 _ b size is_protected HR1 (taken_block _ _ _ _ HT) HS HA) as (p & EO & HR2 & HO).
  { intros HF. specialize (HW HF). rewrite Forall_forall in HW. by apply HW. }
  pose proof (taken_pages s1 p _ _ _ HT) as HT2.
  pose proof (taken_block _ _ _ _ HT) as HB. pose proof (taken_header _ _ _ _ HT2) as HH.
  destruct (Split_ok (with_pages s1 p) _ b _ size is_protected HR2 HT2 HS HA) as (s3 & ls' & ES & HR3 & EP3 & HC & HPg & HU3 & _).
  { by eapply open_remainder. }
  exists s1, (with_pages s1 p), s3, ls'. split_and!; try done.
  - eapply HeapSize_ok; [done..|]. apply HT.
  - intros EB. revert ES. unfold SplitElementAfterAndEnqueue.
    rewrite (run_bind _ _ _ _ _ (HeapSize_ok _ b _ (rep_readable _ _ HR2) HB HH)). cbv zeta.
    rewrite (proj2 (Z.eqb_eq (b.2 - size) 0)) by lia. by intros [= <-].
  - split; [lia|done|by eexists|by eapply changes_sub|by eapply open_grants|].
    destruct HU as (? & ? & ?), HU3 as (? & ? & ?). simpl in *. unfold same_bump. split_and!; congruence.
Qed.

(** ** The list of large blocks *)

(** A block is taken out of a list, with a write to another block of the list. *)
Lemma memory_replace m m' ls i l l' b c n :
  memory_ok m ls -> ls !! i = Some l -> l ≡ₚ b :: l' -> c ∈ l' ->
  changes_only [c] (words m) (words m') -> header (words m) b n -> chain (words m') l' ->
  memory_ok m' (<[i := l']> ls) /\ taken m' b n (<[i := l']> ls) /\ concat ls ≡ₚ b :: concat (<[i := l']> ls).
Proof.
  intros [HC HB HS HM] E EP Hc HCh HH HC'. set (ls0 := <[i := []]> ls).
  assert (E0 : ls0 !! i = Some []) by (apply list_lookup_insert_eq; by eapply lookup_lt_Some).
  assert (EL : <[i := l']> ls = <[i := l']> ls0) by (unfold ls0; by rewrite list_insert_insert_eq).
  assert (EP0 : concat ls ≡ₚ b :: l' ++ concat ls0).
  { unfold ls0. rewrite (concat_perm _ _ _ E), (concat_insert _ _ _ _ E), EP. done. }
  assert (EP1 : concat (<[i := l']> ls) ≡ₚ l' ++ concat ls0).
  { unfold ls0. by rewrite !(concat_insert _ _ _ _ E). }
  rewrite EP0 in HB, HS, HM. apply Forall_cons in HB as [HBb HB], HM as [HMb HM]. pose proof HS as [HAb HS'].
  pose proof HS' as HS2. apply separated_app in HS2 as (HS3 & HS4 & HS5). apply Forall_app in HB as [HB1 HB2], HM as [HM1 HM2].
  assert (HO0 : memory_ok m ls0) by (split; [by apply Forall_insert|done..]).
  rewrite Forall_forall in HS5. pose proof (memory_change m m' ls0 c HCh (HS5 c Hc) HO0) as [HC0 _ _ HM0].
  rewrite Forall_forall in HAb. assert (HAc : apart c b).
  { destruct (HAb c) as [?|?]; [apply elem_of_app; by left|by right|by left]. }
  assert (HMl : Forall (mapped (words m')) l') by (eapply Forall_impl; [exact HM1|]; intros d; by eapply mapped_change).
  split_and!.
  - rewrite EL in *. split; [by apply Forall_insert|by rewrite EP1; apply Forall_app|by rewrite EP1|by rewrite EP1; apply Forall_app].
  - split; [done| | |by eapply mapped_change].
    + eapply header_agree; [done| |done]. intros x Hx. by eapply changes_one.
    + by rewrite EP1.
  - by rewrite EP0, EP1.
Qed.

Lemma chain_unlink w l0 c b l2 :
  separated (l0 ++ c :: b :: l2) -> Forall block_ok (l0 ++ c :: b :: l2) -> chain w (l0 ++ c :: b :: l2) ->
  chain (<[c.1 + 8 := head_of l2]> w) (l0 ++ c :: l2).
Proof.
  set (w' := <[c.1 + 8 := head_of l2]> w). intros HS HB HC.
  assert (HA : forall d, apart c d -> forall x, within x d -> block_ok c -> w' !! x = w !! x).
  { intros d Hd x Hx HBc. apply lookup_insert_ne. intros <-. destruct (header_within c HBc) as (_ & HI & _). by eapply apart_within. }
  induction l0 as [|d l0 IH]; simpl in *.
  - destruct HS as [[HAb HA2]%Forall_cons _], HC as [[HT HN HZ] [_ HC]]. apply Forall_cons in HB as [HBc [_ HB]%Forall_cons]. split.
    + split; [unfold w'; by rewrite lookup_insert_ne by lia|apply lookup_insert_eq|].
      intros HL. unfold w'. rewrite lookup_insert_ne by lia. auto.
    + eapply elements_agree; [done| |done]. intros x Hx. apply Exists_exists in Hx as (e & He & Hx).
      rewrite Forall_forall in HA2. by apply (HA e); auto.
  - destruct HS as [HAd HS], HC as [HH HC]. apply Forall_cons in HB as [HBd HB]. split; [|by apply IH].
    assert (HE : head_of (l0 ++ c :: l2) = head_of (l0 ++ c :: b :: l2)) by by destruct l0. rewrite HE.
    apply Forall_app in HAd as [_ [Hdc _]%Forall_cons]. apply Forall_app in HB as [_ [HBc _]%Forall_cons].
    eapply header_agree; [done| |done]. intros x Hx. apply (HA d); [|done..]. destruct Hdc; [by right|by left].
Qed.

(** The previous element in a search. *)
Definition previous_of (l : list block) : Z := match last l with Some c => c.1 | None => 0 end.

Lemma lists_replace f ls l l' :
  lists_ok f ls -> ls !! 128%nat = Some l -> Forall (fun b => b ∈ l) l' ->
  lists_ok (set_free_lists (<[128%nat := head_of l']> (free_lists_ f)) f) (<[128%nat := l']> ls).
Proof.
  intros HL E HI. destruct (lists_last _ _ HL) as (r & HR & HE).
  apply (lists_update f ls HL 128 l l' (free_map_ f) r); [done| |apply HL| |done|done].
  - pose proof (lists_index _ _ HL _ _ E) as HX. rewrite Forall_forall in HX, HI. apply Forall_forall. auto.
  - intros j Hj. eapply map_unchanged; [done..|by left|done].
Qed.

(** The result of taking the element [b] out of the list of large blocks. *)
Record unlinked (s : state) (ls : list (list block)) (b : block) (l1 l2 : list block) (s' : state) : Prop := {
  unlinked_rep : rep s' (<[128%nat := l1 ++ l2]> ls);
  unlinked_taken : taken (memory s') b (head_of l2) (<[128%nat := l1 ++ l2]> ls);
  unlinked_blocks : concat ls ≡ₚ b :: concat (<[128%nat := l1 ++ l2]> ls);
  unlinked_frame : changes_only (concat ls) (words (memory s)) (words (memory s'));
  unlinked_bump : same_bump (freelist s) (freelist s');
}.

Lemma unlink_first s ls b l2 :
  rep s ls -> ls !! 128%nat = Some (b :: l2) ->
  unlinked s ls b [] l2 (mkState (memory s) (set_free_lists (<[128%nat := head_of l2]> (free_lists_ (freelist s))) (freelist s))).
Proof.
  intros [HL HM HR] E. destruct (memory_remove _ _ _ _ _ HM E) as (HM1 & HT & EP). split; [|done..]. split; [|done..]. simpl.
  eapply lists_replace; [done..|]. apply Forall_forall. intros c Hc. by right.
Qed.

Lemma unlink_next s ls b c l0 l2 :
  rep s ls -> ls !! 128%nat = Some ((l0 ++ [c]) ++ b :: l2) ->
  unlinked s ls b (l0 ++ [c]) l2 (with_words s (<[c.1 + 8 := head_of l2]> (words (memory s)))).
Proof.
  intros [HL HM HR] E. set (l := (l0 ++ [c]) ++ b :: l2) in *.
  assert (EA : l = l0 ++ c :: b :: l2) by (unfold l; by rewrite <- (assoc_L (++))).
  assert (EB : (l0 ++ [c]) ++ l2 = l0 ++ c :: l2) by (by rewrite <- (assoc_L (++))).
  assert (EPl : l ≡ₚ b :: (l0 ++ [c]) ++ l2) by (unfold l; by rewrite <- Permutation_middle).
  pose proof (list_blocks _ _ HL _ _ E) as HB. pose proof (memory_separated _ _ HM) as HS. rewrite (concat_perm _ _ _ E) in HS.
  apply separated_app in HS as (HS & _ & _). pose proof (Forall_lookup_1 _ _ _ _ (memory_chain _ _ HM) E) as HC.
  rewrite EA in HB, HS, HC. pose proof (chain_app _ l0 _ HC) as [HHc [HHb _]].
  assert (HBc : block_ok c) by (rewrite Forall_forall in HB; apply HB, elem_of_app; right; left).
  assert (HCh : changes_only [c] (words (memory s)) (<[c.1 + 8 := head_of l2]> (words (memory s)))).
  { apply changes_insert; [left; by apply header_within|]. exact (mk_is_Some _ _ (header_next _ _ _ HHc)). }
  set (m' := memory (with_words s (<[c.1 + 8 := head_of l2]> (words (memory s))))).
  destruct (memory_replace (memory s) m' ls 128 l ((l0 ++ [c]) ++ l2) b c (head_of l2) HM E EPl) as (HM' & HT & EP); try done.
  { rewrite EB. apply elem_of_app. right. left. } { rewrite EB. exact (chain_unlink _ l0 c b l2 HS HB HC). }
  split; [|done|done| |done].
  - split; [|done|by eapply changes_readable]. simpl.
    assert (HH : head_of ((l0 ++ [c]) ++ l2) = head_of l) by (rewrite EA, EB; by destruct l0).
    assert (HI : Forall (fun d => d ∈ l) ((l0 ++ [c]) ++ l2)).
    { apply Forall_forall. intros d Hd. rewrite EPl. by right. }
    pose proof (lists_replace _ _ _ _ HL E HI) as HX. rewrite HH, list_insert_id in HX; [by destruct (freelist s)|].
    by rewrite (lists_heads _ _ HL), list_lookup_fmap, E.
  - eapply changes_sub; [|exact HCh]. rewrite (concat_perm _ _ _ E), EA. rewrite !elem_of_app. left. right. left.
Qed.

Lemma unlinked_pages s ls b l1 l2 s' p :
  unlinked s ls b l1 l2 s' -> (forall q, p q <> kNoAccess \/ p q = pages (memory s') q) ->
  unlinked s ls b l1 l2 (with_pages s' p).
Proof. intros [H1 H2 H3 H4 H5] HP. split; [by apply rep_pages|by apply taken_pages|done..]. Qed.

(** The page of a word of another block is not between the first and the last of a region. *)
Lemma page_outside b c t R q :
  apart b c -> within t c -> 0 < R <= b.2 -> page_of t <> page_of (b.1) -> page_of t <> page_of (b.1 + R - 1) ->
  page_of (b.1) <= q <= page_of (b.1 + R - 1) -> q <> page_of t.
Proof.
  intros HA Ht HR N1 N2 Hq ->. assert (b.1 < t) by (apply page_lt; lia). assert (t < b.1 + R - 1) by (apply page_lt; lia).
  unfold apart, within in *. lia.
Qed.

(** Opening the page of a word and closing it again. *)
Lemma reprotect old p p1 p2 b c t R :
  apart b c -> within t c -> 0 < R <= b.2 -> page_of t <> page_of (b.1) -> page_of t <> page_of (b.1 + R - 1) ->
  (forall q, p1 q = if (page_of t <=? q) && (q <=? page_of t) then kReadWrite else p q) ->
  (forall q, p2 q = if (page_of t <=? q) && (q <=? page_of t) then kReadExecute else p1 q) ->
  (forall q, page_of (b.1) <= q <= page_of (b.1 + R - 1) -> is_writable (p q) = true) ->
  (forall q, is_writable (p q) = true -> is_writable (old q) = true \/ page_of (b.1) <= q <= page_of (b.1 + R - 1)) ->
  (forall q, page_of (b.1) <= q <= page_of (b.1 + R - 1) -> is_writable (p2 q) = true) /\
  (forall q, is_writable (p2 q) = true -> is_writable (old q) = true \/ page_of (b.1) <= q <= page_of (b.1 + R - 1)).
Proof.
  intros HA Ht HR N1 N2 E1 E2 H1 H2. split; intros q Hq.
  - assert (q <> page_of t) by (eapply page_outside; done). rewrite E2, E1.
    destruct (_ && _) eqn:EB; [lia|]. by apply H1.
  - rewrite E2 in Hq. destruct (_ && _) eqn:EB; [done|]. rewrite E1, EB in Hq. by apply H2.
Qed.

(** Both cases of [unlink], with the page of the previous element. *)
Lemma unlink_ok s ls b l1 l2 old size is_protected :
  rep s ls -> ls !! 128%nat = Some (l1 ++ b :: l2) -> 16 <= size <= b.2 -> size mod 16 = 0 ->
  region_open is_protected old (pages (memory s)) b size -> free_writable is_protected (memory s) ls ->
  exists s', unlink (previous_of l1) (b.1) (size + HeaderSizeFor (b.2 - size)) is_protected s = Ok ((), s') /\
    unlinked s ls b l1 l2 s' /\ region_open is_protected old (pages (memory s')) b size.
Proof.
  intros HRep E HS HA HO HW. pose proof HRep as [HL HM HR].
  pose proof (Forall_lookup_1 _ _ _ _ (memory_chain _ _ HM) E) as HC. pose proof (list_blocks _ _ HL _ _ E) as HB.
  pose proof (chain_app _ l1 _ HC) as [HHb _]. apply Forall_app in HB as [HB1 [HBb _]%Forall_cons].
  unfold unlink, previous_of. destruct l1 as [|c l0 _] using rev_ind.
  { cbn [last]. rewrite Z.eqb_refl. rewrite (run_bind _ _ _ _ _ (element_next_ok s b _ HR HHb)).
    eexists. split; [exact (set_list_ok s ls 128 (head_of l2) HL ltac:(lia))|]. split; [by apply unlink_first|done]. }
  rewrite last_snoc. apply Forall_app in HB1 as [_ [HBc _]%Forall_cons]. pose proof HBc as [[HAc _] [HZc _] HEc].
  rewrite (proj2 (Z.eqb_neq (c.1) 0)) by lia. cbv zeta. unfold next_address, kWordSize.
  pose proof (header_within c HBc) as (_ & HIc & _). pose proof (aligned_words c HBc) as (_ & HAl & _).
  assert (Hc : c ∈ concat ls) by (rewrite (concat_perm _ _ _ E), !elem_of_app; do 2 left; right; left).
  assert (HMc : is_Some (words (memory s) !! (c.1 + 8))).
  { pose proof (memory_mapped _ _ HM) as HX. rewrite Forall_forall in HX. by apply (HX c). }
  assert (HAp : apart b c).
  { pose proof (memory_separated _ _ HM) as HX. rewrite (concat_perm _ _ _ E), <- Permutation_middle in HX.
    destruct HX as [HX _]. rewrite Forall_forall in HX. apply HX. rewrite !elem_of_app. do 2 left. right. left. }
  pose proof (header_bound b size HS HA HBb) as Hh. pose proof (unlink_next s ls b c l0 l2 HRep E) as HU.
  pose proof HBb as [[HAb _] [HZb _] HEb].
  rewrite !InSamePage_page by (unfold is_u; lia). set (t := c.1 + 8) in *. set (R := size + HeaderSizeFor (b.2 - size)) in *.
  destruct (is_protected && negb (page_of t =? page_of (b.1)) && negb (page_of t =? page_of (b.1 + R - 1))) eqn:ET.
  - assert (is_protected = true) as -> by lia. simpl in HO. destruct HO as [HO1 HO2].
    destruct (Protect_ok s t 8 kReadWrite ltac:(lia) ltac:(lia) ltac:(lia)) as (p1 & EP1 & Hp1).
    rewrite (run_bind _ _ _ _ _ EP1). replace (t + 8 - 1) with (t + 7) in Hp1 by lia. rewrite word_page in Hp1 by done.
    assert (HR1 : readable (memory (with_pages s p1))).
    { apply (rep_readable _ ls), rep_pages; [done|]. intros q. rewrite Hp1. destruct ((page_of t <=? q) && (q <=? page_of t)); [left; discriminate|right; reflexivity]. }
    rewrite (run_bind _ _ _ _ _ (element_next_ok (with_pages s p1) b _ HR1 HHb)).
    rewrite (run_bind _ _ _ _ _ (write_ok (with_pages s p1) t (head_of l2) HMc ltac:(unfold writable; simpl; by rewrite Hp1, !Z.leb_refl))).
    set (s2 := with_words _ _). destruct (Protect_ok s2 t 8 kReadExecute ltac:(lia) ltac:(lia) ltac:(lia)) as (p2 & EP2 & Hp2).
    replace (t + 8 - 1) with (t + 7) in Hp2 by lia. rewrite word_page in Hp2 by done.
    eexists. split; [exact EP2|]. split.
    + apply (unlinked_pages s ls b _ l2 (with_words s (<[t := head_of l2]> (words (memory s)))) p2 HU).
      intros q. rewrite Hp2. simpl. rewrite Hp1. destruct ((page_of t <=? q) && (q <=? page_of t)); [by left|by right].
    + simpl. eapply (reprotect old (pages (memory s)) p1 p2 b c t R); try done; lia.
  - rewrite run_ret, (run_bind _ _ _ _ _ (element_next_ok s b _ HR HHb)). rewrite (run_bind _ _ _ () (with_words s (<[t := head_of l2]> (words (memory s))))).
    { eexists. split; [done|]. by split. }
    apply write_ok; [done|]. unfold writable. destruct is_protected; unfold region_open in HO; cbn [andb] in ET.
    + destruct HO as [HO1 _]. fold R in HO1. apply HO1. pose proof (page_of_mono (b.1) (b.1 + R - 1) ltac:(lia)).
      destruct (Z.eqb_spec (page_of t) (page_of (b.1))), (Z.eqb_spec (page_of t) (page_of (b.1 + R - 1))); cbn [negb andb] in ET; try discriminate; split; congruence || lia.
    + specialize (HW eq_refl). rewrite Forall_forall in HW. by apply (HW c).
Qed.

Lemma same_bump_trans f1 f2 f3 : same_bump f1 f2 -> same_bump f2 f3 -> same_bump f1 f3.
Proof. unfold same_bump. intros (-> & -> & ->) (-> & -> & ->). done. Qed.

(** A block of the list that is large enough is taken. *)
Lemma found_large s ls b l1 l2 size is_protected t :
  rep s ls -> free_writable is_protected (memory s) ls -> ls !! 128%nat = Some (l1 ++ b :: l2) ->
  16 <= size <= b.2 -> size mod 16 = 0 ->
  exists s' ls',
    (_ ← (if is_protected then Protect (b.1) (size + HeaderSizeFor (b.2 - size)) kReadWrite else mret ());
     _ ← unlink (previous_of l1) (b.1) (size + HeaderSizeFor (b.2 - size)) is_protected;
     _ ← SplitElementAfterAndEnqueue (b.1) size is_protected;
     _ ← modify (set_budget (Minimum t kInitialFreeListSearchBudget));
     mret (b.1)) s = Ok (b.1, s') /\ allocates is_protected size s ls b s' ls'.
Proof.
  intros HRep HW E HS HA. pose proof (list_blocks _ _ (rep_lists _ _ HRep) _ _ E) as HB. apply Forall_app in HB as [_ [HB _]%Forall_cons].
  assert (Hb : b ∈ concat ls) by (rewrite (concat_perm _ _ _ E), !elem_of_app; left; right; left).
  destruct (open_region s ls b size is_protected HRep HB HS HA) as (p & EO & HR1 & HO).
  { intros HF. specialize (HW HF). rewrite Forall_forall in HW. by apply HW. }
  rewrite (run_bind _ _ _ _ _ EO).
  assert (HW1 : free_writable is_protected (memory (with_pages s p)) ls).
  { intros HF. specialize (HW HF). unfold region_open in HO. rewrite HF in HO. destruct HO as [-> _]. done. }
  destruct (unlink_ok (with_pages s p) ls b l1 l2 (pages (memory s)) size is_protected HR1 E HS HA HO HW1) as (s2 & EU & HU & HO2).
  rewrite (run_bind _ _ _ _ _ EU). destruct HU as [HR2 HT2 EP2 HC2 HU2].
  destruct (Split_ok s2 _ b _ size is_protected HR2 HT2 HS HA) as (s3 & ls' & ES & HR3 & EP3 & HC3 & HPg & HU3 & _).
  { by eapply open_remainder. }
  rewrite (run_bind _ _ _ _ _ ES), run_modify. do 2 eexists. split; [done|].
  split; [lia|by apply rep_budget|by eexists| |by eapply open_grants|].
  - simpl. eapply changes_trans; [exact HC2|]. by eapply changes_sub.
  - exact (same_bump_trans _ _ _ HU2 HU3).
Qed.

(** How a search from some element of the list can end. *)
Definition searched (is_protected : bool) (size t : Z) (s : state) (ls : list (list block)) (rest : list block) (r : Z) (s' : state) : Prop :=
  (exists b ls', r = b.1 /\ allocates is_protected size s ls b s' ls') \/
  (r = 0 /\ memory s' = memory s /\ rep s' ls /\ same_bump (freelist s) (freelist s') /\
   Forall (fun b => b.2 < size) (take (Z.to_nat (t + 2)) rest)).

Lemma search_large_ok fuel size is_protected t s ls l1 rest :
  rep s ls -> free_writable is_protected (memory s) ls -> ls !! 128%nat = Some (l1 ++ rest) ->
  16 <= size -> size mod 16 = 0 -> Z.max 1 (t + 2) <= Z.of_nat fuel ->
  exists r s', search_large fuel size is_protected t (previous_of l1) (head_of rest) s = Ok (r, s') /\
    searched is_protected size t s ls rest r s'.
Proof.
  intros HRep HW. revert l1 rest t. induction fuel as [|fuel IH]; intros l1 rest t E HS HA HF; [lia|]. cbn [search_large].
  destruct rest as [|b rest]; cbn [head_of].
  { rewrite Z.eqb_refl. exists 0, s. split; [done|]. right. by rewrite take_nil. }
  pose proof HRep as [HL HM HR]. pose proof (list_blocks _ _ HL _ _ E) as HB. apply Forall_app in HB as [_ [HB _]%Forall_cons].
  pose proof (Forall_lookup_1 _ _ _ _ (memory_chain _ _ HM) E) as HC. apply chain_app in HC as [HH HC].
  rewrite (proj2 (Z.eqb_neq (b.1) 0)) by (destruct HB as [[? _] _ _]; lia).
  rewrite (run_bind _ _ _ _ _ (HeapSize_ok s b _ HR HB HH)). destruct (Z.leb_spec size (b.2)) as [L|L].
  { cbv zeta. destruct (found_large s ls b l1 rest size is_protected t HRep HW E ltac:(lia) HA) as (s' & ls' & EF & HP).
    exists (b.1), s'. split; [done|]. left. by exists b, ls'. }
  destruct (Z.ltb_spec t 0) as [L0|L0].
  - rewrite run_modify. do 2 eexists. split; [done|]. right. split_and!; [done|done|by apply rep_budget|done..|].
    assert (Z.to_nat (t + 2) = 0%nat \/ Z.to_nat (t + 2) = 1%nat) as [-> | ->] by lia; [constructor|]. simpl. by constructor.
  - rewrite (run_bind _ _ _ _ _ (element_next_ok s b _ HR HH)).
    assert (E' : ls !! 128%nat = Some ((l1 ++ [b]) ++ rest)) by (by rewrite <- (assoc_L (++))).
    destruct (IH (l1 ++ [b]) rest (t - 1) E' HS HA ltac:(lia)) as (r & s' & ES & HP).
    unfold previous_of in ES. rewrite last_snoc in ES. exists r, s'. split; [done|]. destruct HP as [?|(-> & H1 & H2 & H3 & H4)]; [by left|].
    right. split_and!; try done. replace (Z.to_nat (t + 2)) with (S (Z.to_nat (t - 1 + 2))) by lia. by constructor.
Qed.

End search.

Section operations.
Context `{PageSize}.

(** ** [TryAllocateLocked] *)

(** The blocks that a failed allocation has seen: none of the small blocks fits, nor one of
    those in front of the list of large blocks, as many as the search budget allows. *)
Definition exhausted (size : Z) (f : FreeList) (ls : list (list block)) : Prop :=
  (forall b, b ∈ concat ls -> b.2 < 2048 -> b.2 < size) /\
  forall l, ls !! 128%nat = Some l ->
    Forall (fun b => b.2 < size) (take (Z.to_nat (freelist_search_budget_ f + size / 8 + 2)) l).

Lemma small_block s ls b : rep s ls -> b ∈ concat ls -> exists i l, ls !! i = Some l /\ b ∈ l /\ Z.to_nat (index_of b.2) = i /\ block_ok b.
Proof.
  intros HR Hb. apply list_elem_of_In, in_concat in Hb as (l & Hl & Hb). apply list_elem_of_In in Hl, Hb.
  apply list_elem_of_lookup in Hl as [i E]. exists i, l. pose proof (lists_index _ _ (rep_lists _ _ HR) _ _ E) as HF.
  rewrite Forall_forall in HF. destruct (HF b Hb). done.
Qed.

(** No list of small blocks that could serve the size has an element. *)
Lemma no_small s ls size :
  rep s ls -> 16 <= size -> size mod 16 = 0 ->
  (index_of size = 128 \/ ls !! Z.to_nat (index_of size) = Some []) ->
  (forall i l, ls !! i = Some l -> index_of size < Z.of_nat i < 128 -> l = []) ->
  forall b, b ∈ concat ls -> b.2 < 2048 -> b.2 < size.
Proof.
  intros HR HS HM HX HN b Hb Hlt. destruct (small_block s ls b HR Hb) as (i & l & E & Hin & EI & HB).
  destruct (Z.lt_ge_cases (b.2) size) as [?|HG]; [done|exfalso]. pose proof HB as [_ [HZ _] _].
  pose proof (index_of_range size HS) as HI. pose proof (index_of_range (b.2) HZ) as HI2.
  assert (HLe : index_of size <= index_of (b.2) < 128).
  { unfold index_of. destruct (Z.leb_spec 2048 (b.2)), (Z.leb_spec 2048 size); try lia.
    split; [apply Z.div_le_mono; lia|]. apply Z.div_lt_upper_bound; lia. }
  destruct (Z.eq_dec (index_of size) (index_of (b.2))) as [EQ|NE].
  - destruct HX as [?|HX]; [lia|]. rewrite EQ, EI, E in HX. simplify_eq. by apply elem_of_nil in Hin.
  - assert (l = []) as -> by (eapply HN; [done|lia]). by apply elem_of_nil in Hin.
Qed.

Lemma shift_words size : size >> kWordSizeLog2 = size / 8.
Proof. by rewrite Z.shiftr_div_pow2 by done. Qed.

Lemma TryAllocateLocked_ok s ls size is_protected :
  rep s ls -> free_writable is_protected (memory s) ls -> 16 <= size -> size mod 16 = 0 ->
  exists r s', TryAllocateLocked size is_protected s = Ok (r, s') /\
    ((exists b ls', r = b.1 /\ allocates is_protected size s ls b s' ls') \/
     (r = 0 /\ memory s' = memory s /\ rep s' ls /\ same_bump (freelist s) (freelist s') /\ exhausted size (freelist s) ls)).
Proof.
  intros HR HW HS HM. unfold TryAllocateLocked. rewrite (run_bind _ _ _ _ _ (IndexForSize_ok s size HS HM)).
  destruct (exact_list_ok s ls size HR HS HM) as (found & EX & HX1 & HX2). rewrite (run_bind _ _ _ _ _ EX).
  pose proof (index_of_range size HS) as HI. destruct found.
  { destruct (HX1 eq_refl) as (b & l & E & EB).
    destruct (dequeue_alloc s ls _ b l size is_protected HR HW E ltac:(lia) HM) as (s1 & s2 & s3 & ls' & ED & EZ & EO & ES & EQ & HP).
    rewrite (Z2Nat.id (index_of size)) in ED by lia. rewrite (run_bind _ _ _ _ _ ED).
    replace (b.2 - size) with 0 in EO by lia. change (HeaderSizeFor 0) with 0 in EO. rewrite Z.add_0_r in EO.
    rewrite (run_bind _ _ _ _ _ EO). rewrite <- EQ by done. exists (b.1), s3. split; [done|]. left. by exists b, ls'. }
  destruct (next_list_ok s ls size HR HS HM) as (r & EN & HN1 & HN2). rewrite (run_bind _ _ _ _ _ EN).
  destruct (Z.eqb_spec r (-1)) as [ER|NR]; cbn [negb].
  2:{ destruct (HN1 NR) as (b & l & Hr & E & HF).
      destruct (dequeue_alloc s ls _ b l size is_protected HR HW E ltac:(lia) HM) as (s1 & s2 & s3 & ls' & ED & EZ & EO & ES & _ & HP).
      rewrite (Z2Nat.id r) in ED by lia. rewrite (run_bind _ _ _ _ _ ED).
      rewrite (run_bind _ _ _ () s2) by (destruct is_protected; [by rewrite (run_bind _ _ _ _ _ EZ)|done]).
      rewrite (run_bind _ _ _ _ _ ES). exists (b.1), s3. split; [done|]. left. by exists b, ls'. }
  pose proof (rep_lists _ _ HR) as HL. destruct (lookup_lt_is_Some_2 ls 128) as [l E]; [rewrite (lists_length _ _ HL); lia|].
  rewrite (run_bind _ _ _ _ _ (get_list_ok s ls 128 l HL E)), run_field, shift_words. cbv zeta.
  set (t := freelist_search_budget_ (freelist s) + size / 8).
  destruct (search_large_ok (search_fuel t) size is_protected t s ls [] l HR HW E HS HM) as (x & s' & ES & HP).
  { unfold search_fuel. lia. }
  exists x, s'. split; [done|]. destruct HP as [?|(-> & H1 & H2 & H3 & H4)]; [by left|]. right. split_and!; try done.
  split; [by eapply no_small; eauto|]. intros l' E'. rewrite E in E'. by simplify_eq.
Qed.

(** ** [TryAllocateSmallLocked] *)

Lemma TryAllocateSmallLocked_ok s ls size :
  rep s ls -> free_writable false (memory s) ls -> 16 <= size -> size mod 16 = 0 ->
  exists r s', TryAllocateSmallLocked size s = Ok (r, s') /\
    ((exists b ls', r = b.1 /\ allocates false size s ls b s' ls') \/
     (r = 0 /\ s' = s /\ forall b, b ∈ concat ls -> b.2 < 2048 -> b.2 < size)).
Proof.
  intros HR HW HS HM. unfold TryAllocateSmallLocked. rewrite run_field. pose proof (rep_lists _ _ HR) as HL.
  pose proof (index_of_range size HS) as HI. destruct (Z.ltb_spec (last_free_small_size_ (freelist s)) size) as [L|L].
  { exists 0, s. split; [done|]. right. split_and!; [done..|]. intros b Hb Hlt.
    destruct (small_block s ls b HR Hb) as (i & l & E & Hin & EI & HB). destruct HB as [_ [HZ HZM] _].
    destruct (lists_last _ _ HL) as (q & (HQ1 & HQ2 & HQ3) & HE).
    pose proof (Z.div_mod (b.2) 16 ltac:(lia)). assert (EB : index_of (b.2) = b.2 / 16) by (unfold index_of; by rewrite (proj2 (Z.leb_gt 2048 (b.2)))).
    pose proof (index_of_range (b.2) HZ). destruct (Z.lt_ge_cases q (b.2 / 16)) as [HC|?]; [exfalso|lia].
    assert (Hi : (i < 128)%nat) by (pose proof (Z.div_lt_upper_bound (b.2) 16 128); lia).
    specialize (HQ3 (Z.of_nat i) ltac:(lia) ltac:(lia)). rewrite (lists_member _ _ HL) in HQ3 by done.
    apply bool_decide_eq_false, dec_stable in HQ3. rewrite E in HQ3. simplify_eq. by apply elem_of_nil in Hin. }
  rewrite (run_bind _ _ _ _ _ (IndexForSize_ok s size HS HM)).
  destruct (exact_list_ok s ls size HR HS HM) as (found & EX & HX1 & HX2). rewrite (run_bind _ _ _ _ _ EX). destruct found.
  { destruct (HX1 eq_refl) as (b & l & E & EB).
    destruct (dequeue_alloc s ls _ b l size false HR HW E ltac:(lia) HM) as (s1 & s2 & s3 & ls' & ED & EZ & EO & ES & EQ & HP).
    rewrite (Z2Nat.id (index_of size)) in ED by lia. unfold mret, M_ret in EO. simplify_eq. rewrite <- EQ in ED by done.
    exists (b.1), s3. split; [done|]. left. by exists b, ls'. }
  destruct (next_list_ok s ls size HR HS HM) as (r & EN & HN1 & HN2). rewrite (run_bind _ _ _ _ _ EN).
  destruct (Z.eqb_spec r (-1)) as [ER|NR]; cbn [negb].
  - exists 0, s. split; [done|]. right. split_and!; [done..|]. eapply no_small; eauto.
  - destruct (HN1 NR) as (b & l & Hr & E & HF).
    destruct (dequeue_alloc s ls _ b l size false HR HW E ltac:(lia) HM) as (s1 & s2 & s3 & ls' & ED & EZ & EO & ES & _ & HP).
    rewrite (Z2Nat.id r) in ED by lia. rewrite (run_bind _ _ _ _ _ ED). unfold mret, M_ret in EO. simplify_eq.
    rewrite (run_bind _ _ _ _ _ ES). exists (b.1), s3. split; [done|]. left. by exists b, ls'.
Qed.

(** ** [TryAllocateLargeLocked] *)

(** A whole block of the list of large blocks. *)
Record takes (s : state) (ls : list (list block)) (b : block) (s' : state) (ls' : list (list block)) : Prop := {
  takes_rep : rep s' ls';
  takes_block : exists n, taken (memory s') b n ls';
  takes_blocks : concat ls ≡ₚ b :: concat ls';
  takes_frame : changes_only (concat ls) (words (memory s)) (words (memory s'));
  takes_pages : pages (memory s') = pages (memory s);
  takes_bump : same_bump (freelist s) (freelist s');
}.

Lemma unlinked_takes s ls b l1 l2 s' n :
  unlinked s ls b l1 l2 s' -> pages (memory s') = pages (memory s) ->
  takes s ls b (mkState (memory s') (set_budget n (freelist s'))) (<[128%nat := l1 ++ l2]> ls).
Proof. intros [H1 H2 H3 H4 H5] HP. split; [by apply rep_budget|by eexists|done..]. Qed.

Lemma take_large_ok fuel size t s ls l1 rest :
  rep s ls -> free_writable false (memory s) ls -> ls !! 128%nat = Some (l1 ++ rest) -> Z.max 1 (t + 2) <= Z.of_nat fuel ->
  exists r s', take_large fuel size t (previous_of l1) (head_of rest) s = Ok (r, s') /\
    ((exists b ls', r = b.1 /\ size <= b.2 /\ takes s ls b s' ls') \/
     (r = 0 /\ memory s' = memory s /\ rep s' ls /\ same_bump (freelist s) (freelist s') /\
      Forall (fun b => b.2 < size) (take (Z.to_nat (t + 2)) rest))).
Proof.
  intros HRep HW. revert l1 rest t. induction fuel as [|fuel IH]; intros l1 rest t E HF; [lia|]. cbn [take_large].
  destruct rest as [|b rest]; cbn [head_of].
  { rewrite Z.eqb_refl. exists 0, s. split; [done|]. right. by rewrite take_nil. }
  pose proof HRep as [HL HM HR]. pose proof (list_blocks _ _ HL _ _ E) as HBs. pose proof HBs as HB. apply Forall_app in HB as [HB1 [HB _]%Forall_cons].
  pose proof (Forall_lookup_1 _ _ _ _ (memory_chain _ _ HM) E) as HC. apply chain_app in HC as [HH HC].
  rewrite (proj2 (Z.eqb_neq (b.1) 0)) by (destruct HB as [[? _] _ _]; lia).
  rewrite (run_bind _ _ _ _ _ (element_next_ok s b _ HR HH)), (run_bind _ _ _ _ _ (HeapSize_ok s b _ HR HB HH)).
  destruct (Z.leb_spec size (b.2)) as [L|L].
  - destruct l1 as [|c l0 _] using rev_ind.
    + cbn [previous_of last]. rewrite Z.eqb_refl. rewrite (run_bind _ _ _ _ _ (set_list_ok s ls 128 _ HL ltac:(lia))), run_modify.
      do 2 eexists. split; [done|]. left. exists b, (<[128%nat := [] ++ rest]> ls).
      split; [done|]. split; [done|]. exact (unlinked_takes _ _ _ _ _ _ _ (unlink_first s ls b rest HRep E) eq_refl).
    + unfold previous_of. rewrite last_snoc. apply Forall_app in HB1 as [_ [HBc _]%Forall_cons].
      rewrite (proj2 (Z.eqb_neq (c.1) 0)) by (destruct HBc as [[? _] _ _]; lia).
      assert (Hc : c ∈ concat ls) by (rewrite (concat_perm _ _ _ E), !elem_of_app; do 2 left; right; left).
      pose proof (header_within c HBc) as (_ & HI & _). pose proof (aligned_words c HBc) as (_ & HAl & _).
      rewrite (run_bind _ _ _ () (with_words s (<[c.1 + 8 := head_of rest]> (words (memory s))))), run_modify.
      * do 2 eexists. split; [done|]. left. exists b, (<[128%nat := (l0 ++ [c]) ++ rest]> ls).
        split; [done|]. split; [done|]. exact (unlinked_takes _ _ _ _ _ _ _ (unlink_next s ls b c l0 rest HRep E) eq_refl).
      * pose proof (memory_mapped _ _ HM) as HX. specialize (HW eq_refl). rewrite Forall_forall in HW, HX.
        apply write_ok; [by apply (HX c)|by apply (HW c)].
  - destruct (Z.ltb_spec t 0) as [L0|L0].
    + rewrite run_modify. do 2 eexists. split; [done|]. right. split_and!; [done|done|by apply rep_budget|done..|].
      assert (Z.to_nat (t + 2) = 0%nat \/ Z.to_nat (t + 2) = 1%nat) as [-> | ->] by lia; [constructor|]. simpl. by constructor.
    + assert (E' : ls !! 128%nat = Some ((l1 ++ [b]) ++ rest)) by (by rewrite <- (assoc_L (++))).
      destruct (IH (l1 ++ [b]) rest (t - 1) E' ltac:(lia)) as (r & s' & ES & HP).
      unfold previous_of in ES. rewrite last_snoc in ES. exists r, s'. split; [done|]. destruct HP as [?|(-> & H1 & H2 & H3 & H4)]; [by left|].
      right. split_and!; try done. replace (Z.to_nat (t + 2)) with (S (Z.to_nat (t - 1 + 2))) by lia. by constructor.
Qed.

Lemma TryAllocateLargeLocked_ok s ls size :
  rep s ls -> free_writable false (memory s) ls ->
  exists r s', TryAllocateLargeLocked size s = Ok (r, s') /\
    ((exists b ls', r = b.1 /\ size <= b.2 /\ takes s ls b s' ls') \/
     (r = 0 /\ memory s' = memory s /\ rep s' ls /\ same_bump (freelist s) (freelist s') /\
      forall l, ls !! 128%nat = Some l ->
        Forall (fun b => b.2 < size) (take (Z.to_nat (freelist_search_budget_ (freelist s) + size / 8 + 2)) l))).
Proof.
  intros HR HW. unfold TryAllocateLargeLocked. pose proof (rep_lists _ _ HR) as HL.
  destruct (lookup_lt_is_Some_2 ls 128) as [l E]; [rewrite (lists_length _ _ HL); lia|].
  rewrite (run_bind _ _ _ _ _ (get_list_ok s ls 128 l HL E)), run_field, shift_words. cbv zeta.
  set (t := freelist_search_budget_ (freelist s) + size / 8).
  destruct (take_large_ok (search_fuel t) size t s ls [] l HR HW E) as (x & s' & ES & HP); [unfold search_fuel; lia|].
  exists x, s'. split; [done|]. destruct HP as [?|(-> & H1 & H2 & H3 & H4)]; [by left|]. right. split_and!; try done.
  intros l' E'. rewrite E in E'. by simplify_eq.
Qed.

(** ** [FreeLocked] and the constructor *)

Lemma FreeLocked_ok s ls b :
  rep s ls -> block_ok b -> mapped (words (memory s)) b -> separated (b :: concat ls) -> header_writable (memory s) b ->
  exists s' ls', FreeLocked (b.1) (b.2) s = Ok ((), s') /\ rep s' ls' /\ concat ls' ≡ₚ b :: concat ls /\
    pages (memory s') = pages (memory s) /\ changes_only [b] (words (memory s)) (words (memory s')) /\
    same_bump (freelist s) (freelist s').
Proof.
  intros HR HB HM HS HW. destruct (add_block s ls b HR HB HM HS HW) as (s1 & s' & ls' & E1 & E2 & HR' & EP & HPg & HC & HU & _).
  pose proof (block_size b HB) as [HZ HA]. exists s', ls'. split; [|by split_and!]. unfold FreeLocked.
  by rewrite (run_bind _ _ _ _ _ (IndexForSize_ok s (b.2) HZ HA)), (run_bind _ _ _ _ _ E1).
Qed.

Lemma concat_empty {A} n : concat (replicate n (@nil A)) = [].
Proof. by induction n. Qed.

Lemma Reset_rep m f : readable m -> rep (mkState m (Reset_lists f)) (replicate (Z.to_nat (kNumLists + 1)) []).
Proof.
  intros HR. destruct (Reset_ok 128 ltac:(done)) as [HW HM]. split; [|split; rewrite ?concat_empty; [|done..]|done].
  - split; [|by rewrite length_replicate| |done| |].
    + unfold Reset_lists. cbn [freelist free_lists_]. by rewrite fmap_replicate.
    + intros i l [-> _]%lookup_replicate. done.
    + intros i Hi. unfold Reset_lists. cbn [freelist free_map_]. rewrite HM. symmetry. apply bool_decide_eq_false.
      intros HN. apply HN. apply lookup_replicate. split; [done|]. unfold kNumLists. lia.
    + exists (-1). split; [|by right]. split; [lia|]. split; [by left|]. intros j _ _. apply HM.
  - by apply Forall_replicate.
Qed.

End operations.
