(* ===== verification/FreeListClient.v ===== *)
(** The free lists under any sequence of requests: the blocks that are in use, the bump region
    and the free blocks partition the memory that the lists were given, and memory in use
    keeps what its owner stores. *)
From stdpp Require Import base numbers list gmap.
From Stdlib Require Import ZArith Lia ZifyBool.
From S2P Require Import Prelude Utils BitVector BitSet FreeList FreeListProps FreeListSpec FreeListSearch.
Local Open Scope Z_scope.
Local Open Scope cxx_scope.

#[global] Instance within_dec x b : Decision (within x b).
Proof. unfold within. apply _. Defined.

(** The region of bump allocation. *)
Definition bump (f : FreeList) : list block := if top_ f <? end_ f then [(top_ f, end_ f - top_ f)] else [].

(** ** Requests *)

(** The state of the heap, the blocks in use, and what has been stored in them. *)
Record client := mkClient { heap : state; live : list block; stored : gmap Z Z }.

Inductive request :=
| Allocate (size : Z)
| AllocateSmall (size : Z)
| AllocateBump (size : Z)
| AllocateDataBump (size : Z)
| Abandon
| Release (i : nat)
| Store (i : nat) (word : nat) (value : Z).

Section client.
Context `{PageSize}.

(** A block is in use unless the allocation failed. *)
Definition granted (c : client) (size r : Z) (s : state) : client :=
  mkClient s (if r =? 0 then live c else (r, size) :: live c) (stored c).

(** [Heap::IsAllocatableViaFreeLists]. *)
Definition kAllocatablePageSize : Z := 64 * 1024.
Definition IsAllocatableViaFreeLists (size : Z) : bool := size <? kAllocatablePageSize.

(** The part of [PageSpace::TryAllocateDataBumpLocked] that takes a new bump region from the lists
    when [remaining] bytes are too few: the size of the new region, or [None] when there is no
    large block and the caller allocates elsewhere; the old region is kept then. *)
Definition refill (remaining size : Z) : M (option Z) :=
  if negb (IsAllocatableViaFreeLists size) then mret None
  else
    block ← TryAllocateLargeLocked size;
    if block =? 0 then mret None
    else
      block_size ← HeapSize block;
      t ← field top_;
      _ ← (if 0 <? remaining then FreeLocked t remaining else mret ());
      _ ← set_top block;
      t ← field top_;
      _ ← set_end (t + block_size);
      mret (Some block_size).

(** [PageSpace::TryAllocateDataBumpLocked] of a debug build; [None] when it goes on to allocate in a
    page of its own or a fresh page. *)
Definition TryAllocateDataBumpLocked (size : Z) : M (option Z) :=
  _ ← heap_assert (kObjectAlignment <=? size);
  _ ← heap_assert (IsAligned size kObjectAlignment);
  t ← field top_;
  e ← field end_;
  r ← (if e - t <? size then refill (e - t) size else mret (Some (e - t)));
  match r with
  | None => mret None
  | Some remaining =>
      _ ← heap_assert (size <=? remaining);
      result ← field top_;
      _ ← set_top (result + size);
      _ ← AddUnaccountedSize size;
      t ← field top_;
      e ← field end_;
      _ ← (if t <? e then write t 0 else mret ());
      mret (Some result)
  end.

Definition serve (r : request) (c : client) : outcome heap_error client :=
  match r with
  | Allocate size => x ← TryAllocateLocked size false (heap c); Ok (granted c size x.1 x.2)
  | AllocateSmall size => x ← TryAllocateSmallLocked size (heap c); Ok (granted c size x.1 x.2)
  | AllocateBump size => x ← TryAllocateBumpLocked size (heap c); Ok (granted c size x.1 x.2)
  | AllocateDataBump size => x ← TryAllocateDataBumpLocked size (heap c); Ok (granted c size (default 0 x.1) x.2)
  | Abandon => x ← AbandonBumpAllocation (heap c); Ok (mkClient x.2 (live c) (stored c))
  | Release i =>
      match live c !! i with
      | None => Ok c
      | Some b =>
          x ← FreeLocked (b.1) (b.2) (heap c);
          Ok (mkClient x.2 (delete i (live c)) (filter (fun kv => ~ within kv.1 b) (stored c)))
      end
  | Store i word value =>
      match live c !! i with
      | None => Ok c
      | Some b =>
          let addr := b.1 + 8 * Z.of_nat word in
          if bool_decide (within addr b) then
            x ← write addr value (heap c); Ok (mkClient x.2 (live c) (<[addr := value]> (stored c)))
          else Ok c
      end
  end.

Definition valid_size (size : Z) : Prop := 16 <= size < 2 ^ 63 /\ size mod 16 = 0.

Definition valid (r : request) : Prop :=
  match r with
  | Allocate size | AllocateSmall size | AllocateBump size | AllocateDataBump size => valid_size size
  | _ => True
  end.

Fixpoint serve_all (rs : list request) (c : client) : outcome heap_error client :=
  match rs with
  | [] => Ok c
  | r :: rs => c ← serve r c; serve_all rs c
  end.

(** ** Ownership *)

(** The same addresses are covered. *)
Definition tiles (bs bs' : list block) : Prop := forall x, Exists (within x) bs <-> Exists (within x) bs'.

Record owned (s : state) (lv : list block) (ls : list (list block)) : Prop := {
  owned_rep : rep s ls;
  owned_separated : separated (lv ++ bump (freelist s) ++ concat ls);
  owned_blocks : Forall block_ok (lv ++ bump (freelist s));
  owned_mapped : Forall (mapped (words (memory s))) (lv ++ bump (freelist s));
  owned_writable : forall x, is_Some (words (memory s) !! x) -> writable (memory s) x;
  owned_bump : 0 <= top_ (freelist s) <= end_ (freelist s) /\ end_ (freelist s) < 2 ^ 63;
}.

Lemma tiles_perm bs bs' : bs ≡ₚ bs' -> tiles bs bs'.
Proof. intros HP x. by rewrite HP. Qed.

Lemma tiles_trans a b c : tiles a b -> tiles b c -> tiles a c.
Proof. intros H1 H2 x. by rewrite (H1 x), (H2 x). Qed.

Lemma tiles_split b size l : 0 <= size <= b.2 -> tiles (b :: l) ((b.1, size) :: remainder b size ++ l).
Proof.
  intros HS x. rewrite !Exists_cons, Exists_app. unfold remainder. destruct (Z.eqb_spec (b.2) size) as [<-|NE].
  - rewrite Exists_nil. unfold within. simpl. tauto.
  - rewrite Exists_cons, Exists_nil. unfold within. simpl. split; [|intros [?|[[?|?]|?]]; (by right) || (left; lia)].
    intros [?|?]; [|by right; right]. destruct (Z.lt_ge_cases x (b.1 + size)); [left; lia|right; left; left; lia].
Qed.

Lemma bump_same f f' : same_bump f f' -> bump f' = bump f.
Proof. intros (E1 & E2 & _). unfold bump. by rewrite E1, E2. Qed.

(** The free blocks are mapped, and so writable. *)
Lemma free_pages s lv ls : owned s lv ls -> free_writable false (memory s) ls.
Proof.
  intros HO _. pose proof (rep_memory _ _ (owned_rep _ _ _ HO)) as HM. apply Forall_forall. intros b Hb x Hx.
  pose proof (memory_mapped _ _ HM) as HX. pose proof (memory_blocks _ _ HM) as HB. rewrite Forall_forall in HX, HB.
  specialize (HX b Hb). specialize (HB b Hb). unfold writable.
  assert (HA : x / 8 * 8 <= x < x / 8 * 8 + 8) by (pose proof (Z.div_mod x 8 ltac:(lia)); pose proof (Z.mod_pos_bound x 8 ltac:(lia)); lia).
  assert (HM8 : (x / 8 * 8) mod 8 = 0) by (apply Z.mod_mul; lia).
  assert (HIn : within (x / 8 * 8) b).
  { destruct (aligned_words b HB) as (A1 & _). pose proof (Z.div_mod (b.1) 8 ltac:(lia)). unfold within in *.
    assert (b.1 / 8 <= x / 8) by (apply Z.div_le_mono; lia). lia. }
  pose proof (owned_writable _ _ _ HO _ (HX _ HIn HM8)) as HWr. unfold writable in HWr.
  replace (page_of x) with (page_of (x / 8 * 8)); [done|].
  pose proof (word_page (x / 8 * 8) HM8) as HP. pose proof (page_of_mono (x / 8 * 8) x ltac:(lia)).
  pose proof (page_of_mono x (x / 8 * 8 + 7) ltac:(lia)). lia.
Qed.

(** Blocks that are not free are not written to. *)
Lemma frame_live s lv ls w' x :
  owned s lv ls -> changes_only (concat ls) (words (memory s)) w' -> Exists (within x) lv -> w' !! x = words (memory s) !! x.
Proof.
  intros HO [HC _] Hx. apply HC. intros Hf. apply Exists_exists in Hx as (b & Hb & Hx), Hf as (c & Hc & Hf).
  pose proof (owned_separated _ _ _ HO) as HS. apply separated_app in HS as (_ & _ & HA). rewrite Forall_forall in HA.
  specialize (HA b Hb). rewrite Forall_forall in HA. eapply apart_within; [apply (HA c)|done..]. apply elem_of_app. by right.
Qed.

Lemma mapped_after bs w w' l : changes_only bs w w' -> Forall (mapped w) l -> Forall (mapped w') l.
Proof. intros HC HF. eapply Forall_impl; [done|]. intros b. by eapply mapped_change. Qed.

(** An allocation from the lists. *)
Lemma owned_alloc s lv ls size b s' ls' :
  owned s lv ls -> 16 <= size -> size mod 16 = 0 -> allocates false size s ls b s' ls' ->
  owned s' ((b.1, size) :: lv) ls' /\
  tiles (lv ++ bump (freelist s) ++ concat ls) ((b.1, size) :: lv ++ bump (freelist s') ++ concat ls').
Proof.
  intros HO HS HM [HF HR (rest & E1 & E2) HC HP HU]. destruct HO as [HR0 HSep HB HMp HW HT].
  rewrite (bump_same _ _ HU). set (lb := lv ++ bump (freelist s)) in *.
  assert (EP : lv ++ bump (freelist s) ++ concat ls ≡ₚ b :: lb ++ rest).
  { rewrite (assoc_L (++)), E1. fold lb. by rewrite Permutation_middle. }
  assert (EP' : (b.1, size) :: lv ++ bump (freelist s) ++ concat ls' ≡ₚ (b.1, size) :: remainder b size ++ lb ++ rest).
  { rewrite (assoc_L (++) lv), E2. fold lb. by rewrite Permutation_app_swap_app. }
  pose proof (rep_memory _ _ HR0) as HMem. assert (Hb : b ∈ concat ls) by (rewrite E1; left).
  pose proof (memory_blocks _ _ HMem) as HBf. pose proof (memory_mapped _ _ HMem) as HMf. rewrite Forall_forall in HBf, HMf.
  specialize (HBf b Hb). specialize (HMf b Hb).
  split; [split|].
  - done.
  - simpl app. rewrite (bump_same _ _ HU), EP'. apply split_separated; [lia|]. by rewrite <- EP.
  - rewrite (bump_same _ _ HU). constructor; [|done]. destruct HBf as [? [? ?] ?]. split; simpl; [done|done|lia].
  - rewrite (bump_same _ _ HU). constructor; [|by eapply mapped_after].
    eapply mapped_change; [done|]. intros x Hx. apply HMf. unfold within in *. simpl in *. lia.
  - simpl in HP. intros x Hx. unfold writable. rewrite HP. apply HW. by apply HC.
  - destruct HU as (-> & -> & _). done.
  - eapply tiles_trans; [by apply tiles_perm|]. eapply tiles_trans; [apply (tiles_split b size); lia|].
    by apply tiles_perm.
Qed.

(** Nothing is taken. *)
Lemma owned_same s lv ls s' :
  owned s lv ls -> memory s' = memory s -> rep s' ls -> same_bump (freelist s) (freelist s') ->
  owned s' lv ls /\ bump (freelist s') = bump (freelist s).
Proof.
  intros [HR HSep HB HMp HW HT] HM HR' HU. pose proof (bump_same _ _ HU) as EB. split; [|done].
  destruct HU as (E1 & E2 & _). split; rewrite ?EB, ?HM; try done. by rewrite E1, E2.
Qed.

(** A block that was in use, or the bump region, is given back. *)
Lemma owned_free s ls b others :
  rep s ls -> separated (b :: others ++ concat ls) -> block_ok b -> mapped (words (memory s)) b ->
  (forall x, is_Some (words (memory s) !! x) -> writable (memory s) x) ->
  exists s' ls', FreeLocked (b.1) (b.2) s = Ok ((), s') /\ rep s' ls' /\ concat ls' ≡ₚ b :: concat ls /\
    changes_only [b] (words (memory s)) (words (memory s')) /\ same_bump (freelist s) (freelist s') /\
    (forall x, is_Some (words (memory s') !! x) -> writable (memory s') x).
Proof.
  intros HR HS HB HM HW. pose proof (header_within b HB) as (I1 & I2 & I3). pose proof (aligned_words b HB) as (A1 & A2 & A3).
  destruct (FreeLocked_ok s ls b HR HB HM) as (s' & ls' & EF & HR' & EP & HPg & HC & HU).
  - destruct HS as [HA HS]. apply Forall_app in HA as [_ HA]. split; [done|]. apply HR.
  - split_and!; [apply HW, HM; done|apply HW, HM; done|]. intros HL. apply HW, HM; auto.
  - exists s', ls'. split_and!; try done. intros x Hx. unfold writable. rewrite HPg. apply HW. by apply HC.
Qed.

(** ** Bump allocation *)

Lemma rep_bump s ls t e : rep s ls -> rep (mkState (memory s) (set_bump t e (freelist s))) ls.
Proof. intros [[H1 H2 H3 H4 H5 H6] HM HR]. by split. Qed.

Lemma rep_unaccounted s ls u : rep s ls -> rep (mkState (memory s) (set_unaccounted u (freelist s))) ls.
Proof. intros [[H1 H2 H3 H4 H5 H6] HM HR]. by split. Qed.

Lemma Abandon_ok s lv ls :
  owned s lv ls ->
  exists s' ls', AbandonBumpAllocation s = Ok ((), s') /\ owned s' lv ls' /\ bump (freelist s') = [] /\
    tiles (lv ++ bump (freelist s) ++ concat ls) (lv ++ concat ls') /\
    forall x, Exists (within x) lv -> words (memory s') !! x = words (memory s) !! x.
Proof.
  intros HO. pose proof HO as [HR HSep HB HMp HW HT]. unfold AbandonBumpAllocation. rewrite !run_field. unfold bump in *.
  destruct (Z.ltb_spec (top_ (freelist s)) (end_ (freelist s))) as [L|L].
  2:{ exists s, ls. split_and!; [done|done| |done|done]. by rewrite (proj2 (Z.ltb_ge _ _)). }
  set (b := (top_ (freelist s), end_ (freelist s) - top_ (freelist s))) in *.
  apply Forall_app in HB as [HB [HBb _]%Forall_cons], HMp as [HMp [HMb _]%Forall_cons].
  assert (EP : lv ++ [b] ++ concat ls ≡ₚ b :: lv ++ concat ls) by (by rewrite Permutation_app_swap_app).
  rewrite EP in HSep. destruct (owned_free s ls b lv HR HSep HBb HMb HW) as (s' & ls' & EF & HR' & EP' & HC & HU & HW').
  rewrite (run_bind _ _ _ _ _ EF). do 2 eexists. split; [done|]. assert (EP2 : lv ++ concat ls' ≡ₚ b :: lv ++ concat ls).
  { rewrite EP'. by rewrite Permutation_middle. }
  split_and!; [|done| |].
  - split; simpl; [by apply rep_bump|by rewrite EP2|by rewrite app_nil_r|rewrite app_nil_r; by eapply mapped_after|done|lia].
  - apply tiles_perm. by rewrite EP, EP2.
  - intros x Hx. apply HC. rewrite Exists_cons, Exists_nil. intros [Hf|[]]. destruct HSep as [HA _]. rewrite Forall_forall in HA.
    apply Exists_exists in Hx as (c & Hc & Hx). eapply apart_within; [apply (HA c)|done..]. apply elem_of_app. by left.
Qed.

(** A whole block of the lists is taken, and becomes the bump region when there is none. *)
Lemma owned_take s lv ls b s' ls' :
  owned s lv ls -> takes s ls b s' ls' ->
  owned s' (b :: lv) ls' /\ tiles (lv ++ bump (freelist s) ++ concat ls) ((b :: lv) ++ bump (freelist s') ++ concat ls').
Proof.
  intros [HR HSep HB HMp HW HT] [HR' (n & HTk) EP HC HPg HU]. pose proof HTk as [HBb _ _ HMb]. pose proof (bump_same _ _ HU) as EB.
  assert (EP2 : (b :: lv) ++ bump (freelist s') ++ concat ls' ≡ₚ lv ++ bump (freelist s) ++ concat ls).
  { rewrite EB, EP. simpl. by rewrite <- !Permutation_middle. }
  split; [|by apply tiles_perm]. split; rewrite ?EB; [done|by rewrite <- EB, EP2|by constructor| | |].
  - simpl. constructor; [done|by eapply mapped_after].
  - intros x Hx. unfold writable. rewrite HPg. apply HW. by apply HC.
  - destruct HU as (-> & -> & _). done.
Qed.

Lemma owned_set_bump s lv ls b :
  owned s (b :: lv) ls -> bump (freelist s) = [] ->
  let f := set_bump (b.1) (b.1 + b.2) (freelist s) in bump f = [b] /\ owned (mkState (memory s) f) lv ls.
Proof.
  intros [HR HSep HB HMp HW HT] EB f. rewrite EB, app_nil_r in HB, HMp. rewrite EB in HSep.
  apply Forall_cons in HB as [HBb HB], HMp as [HMb HMp]. pose proof HBb as [[HA _] [HZ _] HE].
  assert (EBu : bump f = [b]).
  { unfold f, bump. simpl. rewrite (proj2 (Z.ltb_lt _ _)) by lia. replace (b.1 + b.2 - b.1) with (b.2) by lia. by destruct b. }
  split; [done|]. split; simpl; rewrite ?EBu; [by apply rep_bump| | | |done|lia].
  - eapply separated_perm; [|exact HSep]. simpl. by rewrite Permutation_middle.
  - apply Forall_app. split; [done|by constructor].
  - apply Forall_app. split; [done|by constructor].
Qed.

Lemma refill_ok s lv ls size :
  owned s lv ls ->
  exists r s' ls', refill (end_ (freelist s) - top_ (freelist s)) size s = Ok (r, s') /\ owned s' lv ls' /\
    (forall n, r = Some n -> size <= n /\ n = end_ (freelist s') - top_ (freelist s')) /\
    tiles (lv ++ bump (freelist s) ++ concat ls) (lv ++ bump (freelist s') ++ concat ls') /\
    forall x, Exists (within x) lv -> words (memory s') !! x = words (memory s) !! x.
Proof.
  intros HO. unfold refill. destruct (IsAllocatableViaFreeLists size); cbn [negb]; [|by exists None, s, ls].
  destruct (TryAllocateLargeLocked_ok s ls size (owned_rep _ _ _ HO) (free_pages _ _ _ HO)) as (r & s2 & E2 & HC).
  rewrite (run_bind _ _ _ _ _ E2). destruct HC as [(b & ls2 & -> & HS & HTk)|(-> & HM & HR & HU & _)].
  2:{ cbn [Z.eqb]. destruct (owned_same s lv ls s2 HO HM HR HU) as [HO2 EB2]. exists None, s2, ls. by rewrite EB2, HM. }
  destruct (owned_take s lv ls b s2 ls2 HO HTk) as (HO2 & HT2). destruct HTk as [HR2 (n & HTk) EP HC HPg HU].
  rewrite (proj2 (Z.eqb_neq (b.1) 0)) by (destruct (taken_block _ _ _ _ HTk) as [[? _] _ _]; lia).
  rewrite (run_bind _ _ _ _ _ (HeapSize_ok s2 b n (rep_readable _ _ HR2) (taken_block _ _ _ _ HTk) (taken_header _ _ _ _ HTk))), run_field.
  destruct HU as (<- & <- & _). set (t := top_ (freelist s2)). set (e := end_ (freelist s2)).
  destruct (Abandon_ok s2 (b :: lv) ls2 HO2) as (s3 & ls3 & E3 & HO3 & EB3 & HT3 & HF3).
  destruct (owned_set_bump s3 lv ls3 b HO3 EB3) as [EBu HO4].
  unfold AbandonBumpAllocation in E3. rewrite !run_field in E3. fold t e in E3.
  assert (exists s4, (if 0 <? e - t then FreeLocked t (e - t) else mret ()) s2 = Ok ((), s4) /\ memory s4 = memory s3 /\
    set_bump (b.1) (b.1 + b.2) (freelist s4) = set_bump (b.1) (b.1 + b.2) (freelist s3)) as (s4 & E4 & EM4 & EF4).
  { replace (0 <? e - t) with (t <? e) by lia. destruct (t <? e); [|injection E3 as <-; by exists s2].
    unfold mbind, M_bind in E3. destruct (FreeLocked t (e - t) s2) as [[[] s4]|?|]; try done. injection E3 as <-. by exists s4. }
  rewrite (run_bind _ _ _ _ _ E4). exists (Some (b.2)), (mkState (memory s4) (set_bump (b.1) (b.1 + b.2) (freelist s4))), ls3.
  split; [reflexivity|]. cbn [freelist memory]. rewrite EF4, EM4, EBu.
  split_and!; [exact HO4| | |].
  - intros m [= <-]. simpl. lia.
  - eapply tiles_trans; [exact HT2|]. eapply tiles_trans; [exact HT3|]. apply tiles_perm. simpl. by rewrite Permutation_middle.
  - intros x Hx. rewrite HF3 by (by right). by eapply frame_live.
Qed.

Lemma bump_remainder t e size u f :
  t < e -> t + size <= e -> bump (set_unaccounted u (set_bump (t + size) e f)) = remainder (t, e - t) size.
Proof.
  intros HL HS. unfold bump, remainder. simpl. destruct (Z.ltb_spec (t + size) e), (Z.eqb_spec (e - t) size); try lia; [|done].
  do 2 f_equal. lia.
Qed.

(** The first [size] bytes of the bump region are taken. *)
Lemma bump_take s lv ls size u :
  let t := top_ (freelist s) in let e := end_ (freelist s) in
  let s' := mkState (memory s) (set_unaccounted u (set_bump (t + size) e (freelist s))) in
  owned s lv ls -> valid_size size -> t + size <= e ->
  t <> 0 /\ owned s' ((t, size) :: lv) ls /\
  tiles (lv ++ bump (freelist s) ++ concat ls) ((t, size) :: lv ++ bump (freelist s') ++ concat ls).
Proof.
  intros t e s' [HR HSep HB HMp HW [HT HE]] [HS HM] L. fold t e in HT, HE.
  assert (EBp : bump (freelist s) = [(t, e - t)]) by (unfold bump; fold t e; by rewrite (proj2 (Z.ltb_lt _ _)) by lia).
  rewrite EBp in *. apply Forall_app in HB as [HB [HBb _]%Forall_cons], HMp as [HMp [HMb _]%Forall_cons].
  pose proof HBb as [[Ht Ht16] [He He16] _]. simpl in Ht, Ht16, He, He16. split; [lia|].
  set (b := (t, e - t)) in *. assert (EN : bump (freelist s') = remainder b size) by (apply bump_remainder; lia).
  assert (EP : lv ++ [b] ++ concat ls ≡ₚ b :: lv ++ concat ls) by (by rewrite Permutation_app_swap_app).
  assert (EP2 : (t, size) :: lv ++ remainder b size ++ concat ls ≡ₚ (b.1, size) :: remainder b size ++ lv ++ concat ls).
  { constructor. by rewrite Permutation_app_swap_app. }
  assert (HRb : Forall block_ok (remainder b size)) by (apply remainder_ok; simpl; [done|lia|done]).
  assert (HMr : Forall (mapped (words (memory s))) (remainder b size)).
  { apply Forall_forall. intros c Hc x Hx. apply HMb. apply (remainder_within b size); simpl; [lia..|]. apply Exists_exists. by exists c. }
  rewrite EN. split.
  - split; rewrite ?EN.
    + exact (rep_unaccounted (mkState (memory s) (set_bump (t + size) e (freelist s))) ls _ (rep_bump s ls _ _ HR)).
    + apply (separated_perm _ _ EP2). apply split_separated; [simpl; lia|]. by rewrite <- EP.
    + constructor; [split; simpl; lia|]. by apply Forall_app.
    + constructor; [intros x Hx; apply HMb; unfold within in *; simpl in *; lia|]. by apply Forall_app.
    + done.
    + simpl. lia.
  - eapply tiles_trans; [by apply tiles_perm|]. eapply tiles_trans; [apply (tiles_split b size); simpl; lia|]. by apply tiles_perm.
Qed.

Lemma AllocateBump_ok s lv ls size :
  owned s lv ls -> valid_size size ->
  exists r s', TryAllocateBumpLocked size s = Ok (r, s') /\ memory s' = memory s /\
    ((r = 0 /\ s' = s) \/
     (r <> 0 /\ owned s' ((r, size) :: lv) ls /\
      tiles (lv ++ bump (freelist s) ++ concat ls) ((r, size) :: lv ++ bump (freelist s') ++ concat ls))).
Proof.
  intros HO HV. pose proof (owned_bump _ _ _ HO) as HT. pose proof HV as [HS _]. unfold TryAllocateBumpLocked. rewrite !run_field. cbv zeta.
  rewrite wrapu_id by (unfold is_u; lia).
  destruct (Z.leb_spec (top_ (freelist s) + size) (end_ (freelist s))) as [L|L]; [|exists 0, s; split_and!; [done|done|by left]].
  rewrite run_field, !run_modify. do 2 eexists. split; [done|]. split; [done|]. right. exact (bump_take s lv ls size _ HO HV L).
Qed.

(** A word of a block in use or of the bump region is written. *)
Lemma owned_write s lv ls b x v :
  owned s lv ls -> b ∈ lv ++ bump (freelist s) -> within x b -> x mod 8 = 0 ->
  let s' := with_words s (<[x := v]> (words (memory s))) in write x v s = Ok ((), s') /\ owned s' lv ls.
Proof.
  intros [HR HSep HB HMp HW HTp] Hb Hx H8 s'.
  assert (HMx : is_Some (words (memory s) !! x)) by (rewrite Forall_forall in HMp; by apply (HMp b)).
  split; [by apply write_ok; [|apply HW]|].
  assert (HC : changes_only [b] (words (memory s)) (<[x := v]> (words (memory s)))) by (apply changes_insert; [by left|done]).
  split; simpl; try done.
  - destruct HR as [HL HM HRd]. split; [done| |by eapply changes_readable].
    eapply memory_change; [exact HC| |done]. rewrite Forall_forall. intros d Hd. rewrite (assoc_L (++)) in HSep.
    apply separated_app in HSep as (_ & _ & HA). rewrite Forall_forall in HA. specialize (HA b Hb). rewrite Forall_forall in HA. by apply HA.
  - by eapply mapped_after.
  - intros y Hy. apply (HW y). by apply HC.
Qed.

Lemma bump_in s lv ls x : owned s lv ls -> Exists (within x) lv -> x <> top_ (freelist s) \/ top_ (freelist s) >= end_ (freelist s).
Proof.
  intros HO Hx. destruct (Z.lt_ge_cases (top_ (freelist s)) (end_ (freelist s))) as [L|L]; [|right; lia]. left. intros ->.
  pose proof (owned_separated _ _ _ HO) as HS. unfold bump in HS. rewrite (proj2 (Z.ltb_lt _ _) L) in HS.
  apply separated_app in HS as (_ & _ & HA). rewrite Forall_forall in HA. apply Exists_exists in Hx as (b & Hb & Hx).
  specialize (HA b Hb). apply Forall_app in HA as [HA _]. apply Forall_cons in HA as [HA _].
  eapply apart_within; [exact HA|exact Hx|]. unfold within. simpl. lia.
Qed.

(** What follows the choice of the bump region. *)
Lemma DataBump_tail s lv ls size (n : Z) :
  owned s lv ls -> valid_size size -> size <= n -> n = end_ (freelist s) - top_ (freelist s) ->
  exists r s', (_ ← heap_assert (size <=? n); result ← field top_; _ ← set_top (result + size); _ ← AddUnaccountedSize size;
      t ← (field top_ : M Z); e ← field end_; _ ← (if t <? e then write t 0 else mret ()); mret (Some result)) s = Ok (Some r, s') /\
    r <> 0 /\ owned s' ((r, size) :: lv) ls /\
    tiles (lv ++ bump (freelist s) ++ concat ls) ((r, size) :: lv ++ bump (freelist s') ++ concat ls) /\
    forall x, Exists (within x) lv -> words (memory s') !! x = words (memory s) !! x.
Proof.
  intros HO HV HS HN. rewrite run_assert by lia. rewrite run_field. set (t := top_ (freelist s)). set (e := end_ (freelist s)).
  set (u := unaccounted_size_ (freelist s) + size). set (s1 := mkState (memory s) (set_unaccounted u (set_bump (t + size) e (freelist s)))).
  destruct (bump_take s lv ls size u HO HV ltac:(lia)) as (H0 & HO1 & HT1). fold t e in HO1, HT1. fold s1 in HO1, HT1.
  change (exists r s', ((t' ← (field top_ : M Z); e' ← field end_; _ ← (if t' <? e' then write t' 0 else mret ()); mret (Some t)) s1 = Ok (Some r, s')) /\
    r <> 0 /\ owned s' ((r, size) :: lv) ls /\
    tiles (lv ++ bump (freelist s) ++ concat ls) ((r, size) :: lv ++ bump (freelist s') ++ concat ls) /\
    forall x, Exists (within x) lv -> words (memory s') !! x = words (memory s) !! x).
  rewrite !run_field. change (top_ (freelist s1)) with (t + size). change (end_ (freelist s1)) with e.
  destruct (Z.ltb_spec (t + size) e) as [L|L]; [|by exists t, s1].
  assert (EB : bump (freelist s1) = [(t + size, e - (t + size))]) by (unfold bump; simpl; by rewrite (proj2 (Z.ltb_lt _ _) L)).
  assert (Hb : (t + size, e - (t + size)) ∈ ((t, size) :: lv) ++ bump (freelist s1)) by (rewrite EB; apply elem_of_app; right; left).
  destruct (owned_write s1 _ ls _ (t + size) 0 HO1 Hb) as [EW HO2]; [unfold within; simpl; lia| |].
  { pose proof (owned_blocks _ _ _ HO1) as HB. rewrite Forall_forall in HB. by destruct (aligned_words _ (HB _ Hb)). }
  rewrite (run_bind _ _ _ _ _ EW). exists t. eexists. split; [reflexivity|]. split_and!; [done|exact HO2|exact HT1|].
  intros x Hx. simpl. rewrite lookup_insert_ne; [done|]. intros <-.
  destruct (bump_in s1 _ ls (t + size) HO1) as [NE|NE]; [by right|done|simpl in NE; lia].
Qed.

Lemma DataBump_ok s lv ls size :
  owned s lv ls -> valid_size size ->
  exists r s' ls', TryAllocateDataBumpLocked size s = Ok (r, s') /\
    (r = None /\ owned s' lv ls' /\ tiles (lv ++ bump (freelist s) ++ concat ls) (lv ++ bump (freelist s') ++ concat ls') \/
     exists a, r = Some a /\ a <> 0 /\ owned s' ((a, size) :: lv) ls' /\
       tiles (lv ++ bump (freelist s) ++ concat ls) ((a, size) :: lv ++ bump (freelist s') ++ concat ls')) /\
    forall x, Exists (within x) lv -> words (memory s') !! x = words (memory s) !! x.
Proof.
  intros HO HV. pose proof HV as [HS HM]. unfold TryAllocateDataBumpLocked. rewrite run_assert by (change kObjectAlignment with 16; lia).
  rewrite run_assert by (by apply (IsAligned_spec size 4)). rewrite !run_field.
  assert (exists r s1 ls1, (if end_ (freelist s) - top_ (freelist s) <? size then refill (end_ (freelist s) - top_ (freelist s)) size
      else mret (Some (end_ (freelist s) - top_ (freelist s)))) s = Ok (r, s1) /\ owned s1 lv ls1 /\
    (forall n, r = Some n -> size <= n /\ n = end_ (freelist s1) - top_ (freelist s1)) /\
    tiles (lv ++ bump (freelist s) ++ concat ls) (lv ++ bump (freelist s1) ++ concat ls1) /\
    forall x, Exists (within x) lv -> words (memory s1) !! x = words (memory s) !! x) as (r & s1 & ls1 & E1 & HO1 & HN & HT1 & HF1).
  { destruct (Z.ltb_spec (end_ (freelist s) - top_ (freelist s)) size) as [L|L]; [by apply refill_ok|].
    do 3 eexists. split; [reflexivity|]. split_and!; try done. intros n [= <-]. lia. }
  rewrite (run_bind _ _ _ _ _ E1). destruct r as [n|]; [|exists None, s1, ls1; split_and!; [done|by left|done]].
  destruct (HN n eq_refl) as [HL EN]. destruct (DataBump_tail s1 lv ls1 size n HO1 HV HL EN) as (a & s2 & E2 & H0 & HO2 & HT2 & HF2).
  exists (Some a), s2, ls1. split; [exact E2|]. split; [right; exists a; split_and!; try done; by eapply tiles_trans|].
  intros x Hx. by rewrite HF2, HF1.
Qed.

End client.

Section theorems.
Context `{PageSize}.

(** ** Every request is served *)

(** What has been stored in a block in use is there. *)
Definition keeps (c : client) : Prop :=
  forall x v, stored c !! x = Some v -> words (memory (heap c)) !! x = Some v /\ Exists (within x) (live c).

Definition parts (c : client) (ls : list (list block)) : list block := live c ++ bump (freelist (heap c)) ++ concat ls.

Definition good (regions : list block) (c : client) : Prop :=
  exists ls, owned (heap c) (live c) ls /\ tiles (parts c ls) regions /\ keeps c.

Lemma tiles_sym a b : tiles a b -> tiles b a.
Proof. intros HT x. by rewrite (HT x). Qed.

(** After a request that leaves the blocks in use alone. *)
Lemma good_frame regions c s' lv ls ls' :
  owned (heap c) (live c) ls -> tiles (parts c ls) regions -> keeps c -> owned s' lv ls' ->
  tiles (parts c ls) (lv ++ bump (freelist s') ++ concat ls') ->
  (forall x, Exists (within x) (live c) -> words (memory s') !! x = words (memory (heap c)) !! x) ->
  (forall x, Exists (within x) (live c) -> Exists (within x) lv) ->
  good regions (mkClient s' lv (stored c)).
Proof.
  intros HO HT HK HO' HT' HF HI. exists ls'. split_and!; [done|eapply tiles_trans; [by apply tiles_sym|done]|].
  intros x v E. destruct (HK x v E) as [EV HE]. split; [by rewrite HF|]. by apply HI.
Qed.

Lemma good_alloc regions c size b s' ls ls' :
  owned (heap c) (live c) ls -> tiles (parts c ls) regions -> keeps c -> valid_size size ->
  allocates false size (heap c) ls b s' ls' -> good regions (granted c size (b.1) s').
Proof.
  intros HO HT HK [HS HM] HA. destruct (owned_alloc _ _ _ size _ _ _ HO (proj1 HS) HM HA) as [HO' HT'].
  unfold granted. rewrite (proj2 (Z.eqb_neq (b.1) 0)).
  - eapply good_frame; [done..| |by right]. intros x Hx. eapply frame_live; [done| |done]. apply HA.
  - pose proof (owned_blocks _ _ _ HO') as HB. simpl app in HB. apply Forall_cons in HB as [[[HB0 _] _ _] _].
    cbn [fst] in HB0. lia.
Qed.

Lemma good_same regions c s' ls :
  owned (heap c) (live c) ls -> tiles (parts c ls) regions -> keeps c ->
  memory s' = memory (heap c) -> rep s' ls -> same_bump (freelist (heap c)) (freelist s') ->
  good regions (mkClient s' (live c) (stored c)).
Proof.
  intros HO HT HK HM HR HU. destruct (owned_same _ _ _ s' HO HM HR HU) as [HO' EB].
  eapply good_frame; [done..|by rewrite EB|by rewrite HM|done].
Qed.

Lemma serve_release regions c i b :
  good regions c -> live c !! i = Some b -> exists c', serve (Release i) c = Ok c' /\ good regions c'.
Proof.
  intros (ls & HO & HT & HK) E. pose proof HO as [HR HSep HB HMp HW HTp]. cbn [serve]. rewrite E.
  pose proof (delete_Permutation _ _ _ E) as EP. set (lv := delete i (live c)) in *.
  unfold parts in *. rewrite EP in HSep, HB, HMp. apply Forall_cons in HB as [HBb HB], HMp as [HMb HMp]. simpl in HSep.
  assert (HSep2 : separated (b :: (lv ++ bump (freelist (heap c))) ++ concat ls)) by (by rewrite <- (assoc_L (++))).
  destruct (owned_free (heap c) ls b _ HR HSep2 HBb HMb HW) as (s' & ls' & EF & HR' & EP' & HC & HU & HW').
  rewrite EF, Ok_bind. eexists. split; [done|]. exists ls'. simpl. pose proof (bump_same _ _ HU) as EBu.
  assert (EP2 : lv ++ bump (freelist s') ++ concat ls' ≡ₚ b :: lv ++ bump (freelist (heap c)) ++ concat ls).
  { rewrite EBu, EP'. rewrite !(assoc_L (++)). by rewrite Permutation_middle. }
  split_and!.
  - split; rewrite ?EBu; try done; [rewrite <- EBu; by rewrite EP2|by eapply mapped_after|destruct HU as (-> & -> & _); done].
  - unfold parts. simpl. eapply tiles_trans; [|exact HT]. apply tiles_perm. by rewrite EP2, EP.
  - intros x v HS. simpl in *. apply map_lookup_filter_Some in HS as [HS HN]. simpl in HN. destruct (HK x v HS) as [EV HE].
    rewrite EP, Exists_cons in HE. destruct HE as [?|HE]; [done|]. split; [|done]. rewrite <- EV. apply HC.
    rewrite Exists_cons, Exists_nil. tauto.
Qed.

Lemma serve_store regions c i word value :
  good regions c -> exists c', serve (Store i word value) c = Ok c' /\ good regions c'.
Proof.
  intros HG. pose proof HG as (ls & HO & HT & HK). cbn [serve]. destruct (live c !! i) as [b|] eqn:E; [|by eexists].
  set (x := b.1 + 8 * Z.of_nat word). destruct (bool_decide (within x b)) eqn:EW; [|by eexists].
  apply bool_decide_eq_true in EW. assert (Hb : b ∈ live c) by (by eapply list_elem_of_lookup_2).
  assert (Hx : Exists (within x) (live c)) by (apply Exists_exists; by exists b).
  assert (H8 : x mod 8 = 0).
  { pose proof (owned_blocks _ _ _ HO) as HB. rewrite Forall_forall in HB.
    destruct (aligned_words b (HB b (proj2 (elem_of_app _ _ _) (or_introl Hb)))) as (A & _). unfold x. by rewrite Z.mul_comm, Z_mod_plus_full. }
  destruct (owned_write (heap c) _ ls b x value HO) as [EWr HO']; [apply elem_of_app; by left|done..|].
  rewrite EWr, Ok_bind. eexists. split; [done|]. exists ls. split_and!; [exact HO'|done|].
  intros y v. simpl. intros [[<- <-]|[NE HS]]%lookup_insert_Some; [by rewrite lookup_insert_eq|].
  destruct (HK y v HS). by rewrite lookup_insert_ne.
Qed.

Lemma serve_ok regions r c : good regions c -> valid r -> exists c', serve r c = Ok c' /\ good regions c'.
Proof.
  intros HG HV. pose proof HG as (ls & HO & HT & HK). pose proof (owned_rep _ _ _ HO) as HR. pose proof (free_pages _ _ _ HO) as HW.
  destruct r as [size|size|size|m| |i|i word value]; cbn [valid] in HV.
  - destruct (TryAllocateLocked_ok (heap c) ls size false HR HW) as (x & s' & E & HC); [apply HV..|].
    cbn [serve]. rewrite E, Ok_bind. eexists. split; [done|]. destruct HC as [(b & ls' & -> & HA)|(-> & HM & HR' & HU & _)].
    + by eapply good_alloc.
    + by eapply good_same.
  - destruct (TryAllocateSmallLocked_ok (heap c) ls size HR HW) as (x & s' & E & HC); [apply HV..|].
    cbn [serve]. rewrite E, Ok_bind. eexists. split; [done|]. destruct HC as [(b & ls' & -> & HA)|(-> & -> & _)].
    + by eapply good_alloc.
    + by eapply good_same.
  - destruct (AllocateBump_ok (heap c) (live c) ls size HO HV) as (x & s' & E & HM & HC).
    cbn [serve]. rewrite E, Ok_bind. eexists. split; [done|]. unfold granted. cbn [fst snd]. destruct HC as [[-> ->]|(NX & HO' & HT')].
    + by eapply good_same.
    + rewrite (proj2 (Z.eqb_neq x 0) NX). eapply good_frame; [done..|by rewrite HM|by right].
  - destruct (DataBump_ok (heap c) (live c) ls m HO HV) as (x & s' & ls' & E & HC & HF).
    cbn [serve]. rewrite E, Ok_bind. eexists. split; [done|]. unfold granted. cbn [fst snd].
    destruct HC as [(-> & HO' & HT')|(a & -> & NX & HO' & HT')]; simpl.
    + by eapply good_frame.
    + rewrite (proj2 (Z.eqb_neq a 0) NX). eapply good_frame; [done..|by right].
  - destruct (Abandon_ok (heap c) (live c) ls HO) as (s' & ls' & E & HO' & EB & HT' & HF).
    cbn [serve]. rewrite E, Ok_bind. eexists. split; [done|]. cbn [snd]. eapply (good_frame _ _ s'); [done..|by rewrite EB|done|done].
  - destruct (live c !! i) as [b|] eqn:E; [by eapply serve_release|]. cbn [serve]. rewrite E. by eexists.
  - by apply serve_store.
Qed.

(** ** Properties *)

(** A new free list, and the regions that its owner is about to give it. *)
Definition start (m : Memory) (regions : list block) : client := mkClient (mkState m FreeList_new) regions ∅.

Lemma start_good m regions :
  Forall block_ok regions -> separated regions -> Forall (mapped (words m)) regions ->
  (forall x, is_Some (words m !! x) -> writable m x) -> good regions (start m regions).
Proof.
  intros HB HS HM HW. exists (replicate (Z.to_nat (kNumLists + 1)) []).
  assert (HR : readable m) by (intros x Hx EN; specialize (HW x Hx); unfold writable in HW; by rewrite EN in HW).
  split_and!.
  - split; [by apply Reset_rep| | | | |done]; change (bump (freelist (heap (start m regions)))) with (@nil block);
      cbn [live start]; rewrite ?concat_empty, ?app_nil_r; done.
  - unfold parts. change (bump (freelist (heap (start m regions)))) with (@nil block). cbn [live start].
    rewrite concat_empty, !app_nil_r. by apply tiles_perm.
  - intros x v. unfold start. cbn [stored]. by rewrite lookup_empty.
Qed.

(** C2: whatever the sequence of allocations (from the lists, from small lists only, from the
    bump region, and as [PageSpace::TryAllocateDataBumpLocked] does it, which takes a new bump
    region from the lists), releases and stores of the owners,
    the free lists serve every request, granted or not, without a failed assertion, a fault or
    an access to unmapped memory. New pages, which the page space adds when a request is not
    granted, are not part of the sequence. At any time the blocks in use, the bump region and the free blocks are apart and
    together cover exactly the regions the lists were given, and every word of a block in
    use holds what its owner stored there. *)
Theorem freelist_safe m regions rs :
  Forall block_ok regions -> separated regions -> Forall (mapped (words m)) regions ->
  (forall x, is_Some (words m !! x) -> writable m x) -> Forall valid rs ->
  exists c ls, serve_all rs (start m regions) = Ok c /\ rep (heap c) ls /\
    separated (live c ++ bump (freelist (heap c)) ++ concat ls) /\
    tiles (live c ++ bump (freelist (heap c)) ++ concat ls) regions /\
    forall x v, stored c !! x = Some v -> words (memory (heap c)) !! x = Some v /\ Exists (within x) (live c).
Proof.
  intros HB HS HM HW HV. assert (HG : good regions (start m regions)) by by apply start_good.
  revert HG. generalize (start m regions) as c. induction HV as [|r rs Hr HV IH]; intros c HG.
  - destruct HG as (ls & HO & HT & HK). exists c, ls. split_and!; [done|apply HO|apply HO|done|done].
  - destruct (serve_ok regions r c HG Hr) as (c' & E & HG'). cbn [serve_all]. rewrite E, Ok_bind. by apply IH.
Qed.

(** C16: [TryAllocateLocked] returns the address of a free block that is large enough, with what
    is left of the block free again, and writes only to free memory; or it returns 0, when
    no small block fits and none of the large blocks within the search budget does. With
    protected pages it needs no page to be writable beforehand: the pages of the block are
    writable afterwards, and no others have become so. *)
Theorem TryAllocateLocked_spec s ls size is_protected :
  rep s ls -> free_writable is_protected (memory s) ls -> 16 <= size -> size mod 16 = 0 ->
  exists r s', TryAllocateLocked size is_protected s = Ok (r, s') /\
    ((exists b rest ls', r = b.1 /\ size <= b.2 /\ rep s' ls' /\
        concat ls ≡ₚ b :: rest /\ concat ls' ≡ₚ remainder b size ++ rest /\
        changes_only (concat ls) (words (memory s)) (words (memory s')) /\
        grants is_protected (pages (memory s)) (pages (memory s')) r size) \/
     (r = 0 /\ memory s' = memory s /\ rep s' ls /\ exhausted size (freelist s) ls)).
Proof.
  intros HR HW HS HM. destruct (TryAllocateLocked_ok s ls size is_protected HR HW HS HM) as (r & s' & E & HC).
  exists r, s'. split; [done|]. destruct HC as [(b & ls' & -> & [H1 H2 (rest & H3 & H4) H5 H6 H7])|(-> & H1 & H2 & H3 & H4)].
  - left. by exists b, rest, ls'.
  - by right.
Qed.

End theorems.

(** C38: on a set of [N] bits, [Set] changes one member and [Test] reads it, [Next] is the least
    member from an index on and [ClearLastAndFindPrevious] removes the greatest member and
    returns the one before it. *)
Theorem BitSet_spec N data i v :
  0 < N -> set_wf N data -> 0 <= i < N ->
  Test_ N data i = Ok (member data i) /\
  (exists data', Set_ N data i v = Ok data' /\ set_wf N data' /\
     forall j, 0 <= j -> member data' j = if j =? i then v else member data j) /\
  (exists r, Next N data i = Ok r /\ next_element data i r) /\
  (last_element data i -> member data i = true ->
   exists r data', ClearLastAndFindPrevious N data i = Ok (r, data') /\ set_wf N data' /\ last_element data' r /\
     forall j, 0 <= j -> member data' j = if j =? i then false else member data j).
Proof.
  intros HN HW Hi. split_and!; [by apply Test_ok|by apply Set_ok|by apply set_Next_ok|]. intros HL HM. by apply ClearLast_ok.
Qed.

(** ** A concrete heap *)

Lemma page_4K_range : 3 <= 12 <= 32.
Proof. lia. Qed.

#[local] Instance page_4K : PageSize := { page_log2 := 12; page_log2_range := page_4K_range }.

(** A region of [n] words at address [a]. *)
Definition region_words (a n : Z) : gmap Z Z := list_to_map ((fun i => (a + 8 * i, 0)) <$> seqZ 0 n).

Lemma region_mapped a n : a mod 8 = 0 -> mapped (region_words a n) (a, 8 * n).
Proof.
  intros HA x Hx HX. apply not_eq_None_Some. intros EN. apply not_elem_of_list_to_map in EN. apply EN.
  rewrite <- list_fmap_compose. apply list_elem_of_fmap. unfold within in Hx. simpl in Hx. exists ((x - a) / 8).
  assert (HD : (x - a) mod 8 = 0) by (by rewrite Zminus_mod, HA, HX).
  pose proof (Z.div_mod (x - a) 8 ltac:(lia)). split; [simpl; lia|]. apply elem_of_seqZ. lia.
Qed.

Definition example_memory : Memory := mkMemory (region_words 65536 2048) (fun _ => kReadWrite).
Definition example_requests : list request :=
  [Release 0; Allocate 32; Store 0 1 7; Allocate 2048; AllocateSmall 48; AllocateDataBump 256; AllocateBump 64; Release 1; Abandon].

Lemma example_blocks : Forall block_ok [(65536, 16384)].
Proof. apply Forall_singleton. split; [split| split|]; vm_compute; (reflexivity || discriminate). Qed.

Lemma example_mapped : Forall (mapped (words example_memory)) [(65536, 16384)].
Proof. apply Forall_singleton. apply (region_mapped 65536 2048). reflexivity. Qed.

Lemma freelist_safe_witness :
  exists c, serve_all example_requests (start example_memory [(65536, 16384)]) = Ok c /\
    separated (live c ++ bump (freelist (heap c))) /\ words (memory (heap c)) !! 65544 = Some 7.
Proof.
  destruct (freelist_safe example_memory [(65536, 16384)] example_requests example_blocks) as (c & ls & E & _ & HS & _ & HK).
  - split; constructor.
  - exact example_mapped.
  - intros x _. reflexivity.
  - repeat constructor; vm_compute; try reflexivity; discriminate.
  - exists c. split; [exact E|]. split.
    + rewrite (assoc_L (++)) in HS. apply separated_app in HS as [HS _]. exact HS.
    + apply HK. assert (ES : (stored <$> (match serve_all example_requests (start example_memory [(65536, 16384)]) with Ok c => Some c | _ => None end))
        = Some (<[65544 := 7]> ∅)) by (vm_compute; reflexivity). rewrite E in ES. injection ES as ES. rewrite ES. reflexivity.
Defined.

Lemma TryAllocateLocked_spec_witness :
  exists s ls r s', rep s ls /\ concat ls ≡ₚ [(65536, 16384)] /\ TryAllocateLocked 32 true s = Ok (r, s') /\ (r = 65536 \/ r = 0).
Proof.
  assert (HR : rep (mkState example_memory FreeList_new) (replicate (Z.to_nat (kNumLists + 1)) [])).
  { apply Reset_rep. intros x _. discriminate. }
  pose proof example_blocks as HB. pose proof example_mapped as HM. rewrite Forall_singleton in HB, HM.
  destruct (FreeLocked_ok _ _ (65536, 16384) HR HB HM) as (s & ls & _ & HR' & EP & _).
  - rewrite concat_empty. split; [constructor|exact I].
  - repeat split.
  - rewrite concat_empty in EP. exists s, ls.
    destruct (TryAllocateLocked_spec s ls 32 true HR') as (r & s' & E & HC); [discriminate|lia|reflexivity|].
    exists r, s'. split; [exact HR'|]. split; [exact EP|]. split; [exact E|].
    destruct HC as [(b & rest & ls' & -> & _ & _ & EB & _)|(-> & _)]; [left|right; reflexivity].
    rewrite EP in EB. assert (Hb : b ∈ [(65536, 16384)]) by (rewrite EB; left). apply list_elem_of_singleton in Hb as ->. reflexivity.
Defined.

Lemma BitSet_spec_witness :
  Test_ 128 [0; 5] 66 = Ok true /\
  exists r data', ClearLastAndFindPrevious 128 [0; 5] 66 = Ok (r, data') /\ last_element data' r.
Proof.
  destruct (BitSet_spec 128 [0; 5] 66 true) as (HT & _ & _ & HC); [lia| |lia|].
  - split; [reflexivity|]. repeat (constructor; [split; [lia|reflexivity]|]). constructor.
  - split; [rewrite HT; reflexivity|]. destruct HC as (r & d & E & _ & HL & _).
    + split; [lia|]. split; [right; reflexivity|]. intros j Hj H0.
      destruct (Z.lt_ge_cases j 128) as [L|L]; [|apply member_beyond; simpl; apply Z.div_le_lower_bound; lia].
      assert (HA : forallb (fun j => negb (member [0; 5] j)) (seqZ 67 61) = true) by reflexivity.
      rewrite forallb_forall in HA. specialize (HA j). rewrite <- list_elem_of_In, elem_of_seqZ in HA.
      apply negb_true_iff, HA. lia.
    + reflexivity.
    + exists r, d. split; [exact E|exact HL].
Defined.
