(* ===== verification/Random.v ===== *)
(** The random number generator: [runtime/vm/random.cc], [runtime/vm/random.h].

    A multiply-with-carry generator over a 64-bit state.  [NextState] is the
    effect of the compare-and-swap loop when no other thread interferes; [step]
    is the loop itself, with any number of threads interleaving and with the
    spurious failures [compare_exchange_weak] allows, and refines it. *)
From stdpp Require Import base numbers list relations.
From Stdlib Require Import ZArith Lia.
From S2P Require Import Prelude.
Local Open Scope Z_scope.
Local Open Scope cxx_scope.

Module Random.

Definition MASK_32 : Z := 0xffffffff.
Definition A : Z := 0xffffda61.

(** Returns the new state, which is also the result. *)
Definition NextState (state : Z) : Z :=
  let state_lo := state .& MASK_32 in
  let state_hi := (state >> 32) .& MASK_32 in
  wrapu 64 (wrapu 64 (A * state_lo) + state_hi).

(** ** The lock-free loop

    A thread is between calls, or inside [NextState] with the value of [old_state]
    it last read. *)
Inductive thread := Idle | Trying (old_state : Z).

(** The shared [_state], the threads, and the results returned so far, newest
    first, with the thread that got each. *)
Record config := mkConfig {
  _state : Z;
  threads : list thread;
  returned : list (nat * Z);
}.

Inductive step : config -> config -> Prop :=
| step_load c t :
    threads c !! t = Some Idle ->
    step c (mkConfig (_state c) (<[t := Trying (_state c)]> (threads c)) (returned c))
| step_cas_success c t old_state :
    threads c !! t = Some (Trying old_state) -> _state c = old_state ->
    step c (mkConfig (NextState old_state) (<[t := Idle]> (threads c))
              ((t, NextState old_state) :: returned c))
(* The exchange fails, because the state has changed or spuriously: [old_state] is
   set to the current value and the loop goes round. *)
| step_cas_failure c t old_state :
    threads c !! t = Some (Trying old_state) ->
    step c (mkConfig (_state c) (<[t := Trying (_state c)]> (threads c)) (returned c)).

Definition Initialize (seed : Z) : Z :=
  NextState (NextState (NextState (NextState seed))).

(** The result and the new state. *)
Definition NextUInt32 (state : Z) : Z * Z :=
  let state := NextState state in (state .& MASK_32, state).

(** The two calls are evaluated left to right (all supported compilers do). *)
Definition NextUInt64 (state : Z) : Z * Z :=
  let '(hi, state) := NextUInt32 state in
  let '(lo, state) := NextUInt32 state in
  ((hi << 32) .| lo, state).

(** ** One thread *)

Lemma land_mask x : x .& MASK_32 = x mod 2 ^ 32.
Proof. change MASK_32 with (Z.ones 32). by apply Z.land_ones. Qed.

(** The modulus of the generator. *)
Definition M : Z := A * 2 ^ 32 - 1.

Lemma NextState_eq state :
  is_u 64 state -> NextState state = A * (state mod 2 ^ 32) + state / 2 ^ 32 /\
  is_u 64 (NextState state).
Proof.
  intros [H1 H2]. unfold NextState, is_u. cbv zeta. rewrite !land_mask, Z.shiftr_div_pow2 by lia.
  assert (0 <= state / 2 ^ 32 < 2 ^ 32) as Hd.
  { split; [apply Z.div_pos; lia|apply Z.div_lt_upper_bound; lia]. }
  rewrite (Z.mod_small (state / 2 ^ 32)) by done.
  pose proof (Z.mod_pos_bound state (2 ^ 32) ltac:(lia)).
  rewrite wrapu_add_l, wrapu_id by (unfold is_u, A; lia). unfold A. lia.
Qed.

Lemma NextState_congruent state :
  is_u 64 state -> NextState state * 2 ^ 32 = state + (state mod 2 ^ 32) * M.
Proof.
  intros Hs. destruct (NextState_eq state Hs) as [-> _].
  pose proof (Z.div_mod state (2 ^ 32)). unfold M, A. lia.
Qed.

Lemma NextState_range state : 0 < state < M -> 0 < NextState state < M.
Proof.
  intros Hs. assert (is_u 64 state) as Hu by (unfold is_u, M, A in *; lia).
  pose proof (NextState_congruent state Hu) as E.
  pose proof (Z.mod_pos_bound state (2 ^ 32) ltac:(lia)). unfold M, A in *. lia.
Qed.

(** One step of the generator never overflows; it maps the states strictly
    between 0 and [M = A * 2^32 - 1] to themselves without ever merging two of them,
    being multiplication by the inverse of [2^32] modulo [M]. *)
Theorem NextState_permutes state :
  0 < state < M ->
  NextState state = A * (state mod 2 ^ 32) + state / 2 ^ 32 /\
  0 < NextState state < M /\
  (NextState state * 2 ^ 32) mod M = state /\
  (forall state', 0 < state' < M -> NextState state' = NextState state -> state' = state).
Proof.
  assert (forall s, 0 < s < M -> is_u 64 s) as Hu by (unfold is_u, M, A; intros; lia).
  assert (forall s, 0 < s < M -> (NextState s * 2 ^ 32) mod M = s) as Hinv.
  { intros s Hs. rewrite NextState_congruent by auto.
    rewrite Z.mod_add by (unfold M, A; lia). apply Z.mod_small. lia. }
  intros Hs. split_and!; [by apply NextState_eq, Hu|by apply NextState_range..|by apply Hinv|].
  intros s' Hs' E. rewrite <- (Hinv s'), <- (Hinv state) by done. by rewrite E.
Qed.

(** ** Many threads *)

(** [n] steps of the generator. *)
Definition NextStates (n : nat) (state : Z) : Z := Nat.iter n NextState state.

(** The results in the order they were returned are the successive states. *)
Definition sequential (s0 : Z) (c : config) : Prop :=
  _state c = NextStates (length (returned c)) s0 /\
  forall k, (k < length (returned c))%nat ->
    snd <$> returned c !! k = Some (NextStates (length (returned c) - k) s0).

Lemma step_sequential s0 c c' : sequential s0 c -> step c c' -> sequential s0 c'.
Proof.
  intros [Hs Hr] Hst. destruct Hst as [c t Ht|c t old Ht Ho|c t old Ht]; [done| |done].
  split; cbn; [by rewrite <- Ho, Hs|]. intros [|k] Hk; cbn.
  - by rewrite <- Ho, Hs.
  - apply Hr. lia.
Qed.


End Random.

Lemma NextState_permutes_witness :
  (Random.NextState 12345 * 2 ^ 32) mod Random.M = 12345.
Proof.
  exact (proj1 (proj2 (proj2 (Random.NextState_permutes 12345
    ltac:(vm_compute; split; reflexivity))))).
Defined.

