(* ===== verification/Circular.v ===== *)
(** Positions of a circular table: the distance from one index forwards to another, as the
    proofs about the hash tables with open addressing measure their searches. *)
From stdpp Require Import base numbers list.
From Stdlib Require Import ZArith Lia.

(** The number of steps from [s] forwards to [i] in a table of [n] entries. *)
Definition dist (n s i : nat) : nat := if (s <=? i)%nat then (i - s)%nat else (i + n - s)%nat.

Ltac circ := unfold dist in *;
  repeat match goal with
    | H : context [(?a <=? ?b)%nat] |- _ => destruct (Nat.leb_spec a b)
    | |- context [(?a <=? ?b)%nat] => destruct (Nat.leb_spec a b)
    end; lia.

(** The index after [p]. *)
Definition succ (n p : nat) : nat := if (p + 1 =? n)%nat then 0%nat else (p + 1)%nat.

Lemma succ_lt n p : (p < n -> succ n p < n)%nat.
Proof. unfold succ. destruct (Nat.eqb_spec (p + 1) n); lia. Qed.

Lemma dist_lt n s i : (s < n -> i < n -> dist n s i < n)%nat.
Proof. intros. circ. Qed.

Lemma dist_self n s : dist n s s = 0%nat.
Proof. circ. Qed.

Lemma dist_zero n s i : (s < n -> i < n -> dist n s i = 0 -> i = s)%nat.
Proof. intros. circ. Qed.

(** Stepping towards another index. *)
Lemma dist_succ_l n p i : (p < n -> i < n -> i <> p -> dist n p i = S (dist n (succ n p) i))%nat.
Proof. intros. unfold succ. destruct (Nat.eqb_spec (p + 1) n); circ. Qed.

Lemma dist_succ_r n s p :
  (s < n -> p < n -> succ n p <> s -> dist n s (succ n p) = S (dist n s p))%nat.
Proof. unfold succ. intros ? ? Hne. destruct (Nat.eqb_spec (p + 1) n); circ. Qed.

Lemma dist_inj n s i j : (s < n -> i < n -> j < n -> dist n s i = dist n s j -> i = j)%nat.
Proof. intros. circ. Qed.

(** Searching forwards from [s] meets the elements of a set [P] that is not empty, one of
    them first. *)
Lemma first_stop (P : nat -> Prop) `{!forall i, Decision (P i)} n s x :
  (s < n -> x < n -> P x ->
   exists q, q < n /\ P q /\ dist n s q <= dist n s x /\
     forall j, j < n -> dist n s j < dist n s q -> ~ P j)%nat.
Proof.
  intros Hs. remember (dist n s x) as d eqn:Ed. revert x Ed.
  induction d as [d IH] using lt_wf_ind. intros x -> Hx HP.
  destruct (decide (Exists (fun y => P y /\ dist n s y < dist n s x)%nat (seq 0 n))) as [E|E].
  - apply Exists_exists in E as (y & Hy%elem_of_seq & HPy & Hd).
    destruct (IH _ Hd y eq_refl) as (q & Hq & HPq & Hle & HB); [lia|done|].
    exists q. split_and!; [done..|lia|done].
  - exists x. split_and!; [done..|lia|]. intros j Hj Hd HPj. apply E, Exists_exists.
    exists j. split; [apply elem_of_seq; lia|done].
Qed.

(** ** Tables updated at one index *)

Lemma split_at {A} (t : list A) p e :
  t !! p = Some e ->
  t = take p t ++ e :: drop (S p) t /\ forall e', <[p := e']> t = take p t ++ e' :: drop (S p) t.
Proof.
  intros E. split; [symmetry; by apply take_drop_middle|].
  intros e'. rewrite insert_take_drop; [done|]. by eapply lookup_lt_Some.
Qed.

Lemma lookup_update {A} (t : list A) p e i e' :
  <[p := e]> t !! i = Some e' -> (i = p /\ e' = e) \/ (i <> p /\ t !! i = Some e').
Proof.
  intros E. apply list_lookup_insert_Some in E.
  destruct E as [(? & ? & _)|[? ?]]; [by left|right; by split].
Qed.
