(* ===== verification/HashMap.v ===== *)
(** The open-addressing hash map [SimpleHashMap] of [runtime/platform/hashmap.cc].

    Keys and values are pointers: integers, with zero for [NULL].  The match function is
    the client's.  An [Entry*] into the table is the index of the entry.  A loop that
    needs more than the given fuel ends in [Diverges], a failed [ASSERT] in
    [HashAssertion]; the properties show that neither happens. *)
From stdpp Require Import base numbers list.
From Stdlib Require Import ZArith Lia.
From S2P Require Import Prelude Utils.
Local Open Scope Z_scope.
Local Open Scope cxx_scope.

Inductive hash_error := HashAssertion | Diverges.

Definition hash_result := outcome hash_error.

Record Entry := mkEntry { key : Z; value : Z; hash : Z }.

Definition NULL : Z := 0.

(** [Entry()]. *)
Definition Entry_new : Entry := mkEntry NULL NULL 0.

Record SimpleHashMap := mkMap {
  map_ : list Entry;
  capacity_ : Z;
  occupancy_ : Z;
}.

Definition hash_assert (condition : bool) : hash_result unit :=
  if condition then Ok () else Fatal HashAssertion.

(** An access to the entry at an index; outside the array it is undefined. *)
Definition entry_at (m : SimpleHashMap) (p : nat) : hash_result Entry :=
  match map_ m !! p with
  | Some e => Ok e
  | None => Undefined
  end.

Definition with_entry (m : SimpleHashMap) (p : nat) (e : Entry) : SimpleHashMap :=
  mkMap (<[p := e]> (map_ m)) (capacity_ m) (occupancy_ m).

Definition with_occupancy (m : SimpleHashMap) (n : Z) : SimpleHashMap :=
  mkMap (map_ m) (capacity_ m) (wrapu 32 n).

(** [p++; if (p >= end) p = map_]. *)
Definition next_index (m : SimpleHashMap) (p : nat) : nat :=
  if Z.of_nat (p + 1) =? capacity_ m then 0%nat else (p + 1)%nat.

Definition start_index (m : SimpleHashMap) (hash : Z) : nat :=
  Z.to_nat (hash .& (capacity_ m - 1)).

Definition Initialize (capacity : Z) : hash_result SimpleHashMap :=
  _ ← hash_assert (IsPowerOfTwo capacity);
  Ok (mkMap (replicate (Z.to_nat capacity) Entry_new) capacity 0).

(** [StringHash]: of the characters of a string, which are signed; a zero hash is one. *)
Definition hash_char (h c : Z) : Z :=
  let h := wrapu 32 (h + c) in
  let h := wrapu 32 (h + wrapu 32 (h << 10)) in
  h .^ (h >> 6).

Definition StringHash (key : option (list Z)) : Z :=
  match key with
  | None => 0
  | Some key =>
      let h := fold_left hash_char key 0 in
      let h := wrapu 32 (h + wrapu 32 (h << 3)) in
      let h := h .^ (h >> 11) in
      let h := wrapu 32 (h + wrapu 32 (h << 15)) in
      if h =? 0 then 1 else h
  end.

Definition SamePointerValue (key1 key2 : Z) : bool := key1 =? key2.

Section hashmap.
Context (match_ : Z -> Z -> bool).

(** [SimpleHashMap(match, initial_capacity)]. *)
Definition SimpleHashMap_new (initial_capacity : Z) : hash_result SimpleHashMap :=
  Initialize initial_capacity.

Fixpoint probe_loop (fuel : nat) (m : SimpleHashMap) (k h : Z) (p : nat)
    : hash_result nat :=
  e ← entry_at m p;
  if negb (key e =? NULL) && (negb (h =? hash e) || negb (match_ k (key e))) then
    match fuel with
    | O => Fatal Diverges
    | S fuel => probe_loop fuel m k h (next_index m p)
    end
  else Ok p.

Definition Probe (m : SimpleHashMap) (k h : Z) : hash_result nat :=
  _ ← hash_assert (negb (k =? NULL));
  _ ← hash_assert (IsPowerOfTwo (capacity_ m));
  let p := start_index m h in
  _ ← hash_assert (Z.of_nat p <? capacity_ m);
  _ ← hash_assert (occupancy_ m <? capacity_ m);
  probe_loop (length (map_ m)) m k h p.

(** The loop of [Resize] over the entries of the old map from [p] on; [lookup] is
    [Lookup(.., true)]. *)
Fixpoint rehash (lookup : SimpleHashMap -> Z -> Z -> hash_result (SimpleHashMap * nat))
    (old : list Entry) (n : nat) (m : SimpleHashMap) : hash_result SimpleHashMap :=
  match n with
  | O => Ok m
  | S n' =>
      match old with
      | [] => Undefined
      | e :: old =>
          if negb (key e =? NULL) then
            '(m, p) ← lookup m (key e) (hash e);
            e' ← entry_at m p;
            rehash lookup old n' (with_entry m p (mkEntry (key e') (value e) (hash e')))
          else rehash lookup old n m
      end
  end.

Definition Resize (lookup : SimpleHashMap -> Z -> Z -> hash_result (SimpleHashMap * nat))
    (m : SimpleHashMap) : hash_result SimpleHashMap :=
  m' ← Initialize (wrapu 32 (capacity_ m * 2));
  rehash lookup (map_ m) (Z.to_nat (occupancy_ m)) m'.

(** The part of [Lookup] for an absent key with [insert]: [Lookup] and [Resize] call each
    other, for at most [depth] nested calls. *)
Fixpoint Insert (depth : nat) (m : SimpleHashMap) (k h : Z)
    : hash_result (SimpleHashMap * nat) :=
  p ← Probe m k h;
  e ← entry_at m p;
  if negb (key e =? NULL) then Ok (m, p)
  else
    let m := with_entry m p (mkEntry k NULL h) in
    let m := with_occupancy m (occupancy_ m + 1) in
    if capacity_ m <=? wrapu 32 (occupancy_ m + Z.quot (occupancy_ m) 4) then
      match depth with
      | O => Fatal Diverges
      | S depth =>
          m ← Resize (Insert depth) m;
          p ← Probe m k h;
          Ok (m, p)
      end
    else Ok (m, p).

(** [Lookup(key, hash, insert)]; [None] for a [NULL] result. *)
Definition Lookup (m : SimpleHashMap) (k h : Z) (insert : bool)
    : hash_result (SimpleHashMap * option nat) :=
  if insert then '(m, p) ← Insert 2 m k h; Ok (m, Some p)
  else
    p ← Probe m k h;
    e ← entry_at m p;
    Ok (m, if negb (key e =? NULL) then Some p else None).

(** The loop of [Remove]: [candidate] is the entry to clear, [next] scans forwards. *)
Fixpoint remove_loop (fuel : nat) (m : SimpleHashMap) (candidate next : nat)
    : hash_result (SimpleHashMap * nat) :=
  let next := next_index m next in
  e ← entry_at m next;
  if key e =? NULL then Ok (m, candidate)
  else
    match fuel with
    | O => Fatal Diverges
    | S fuel =>
        let start := start_index m (hash e) in
        if ((candidate <? next)%nat && ((start <=? candidate)%nat || (next <? start)%nat))
           || ((next <? candidate)%nat
               && ((start <=? candidate)%nat && (next <? start)%nat))
        then remove_loop fuel (with_entry m candidate e) next next
        else remove_loop fuel m candidate next
    end.

Definition Remove (m : SimpleHashMap) (k h : Z) : hash_result SimpleHashMap :=
  candidate ← Probe m k h;
  e ← entry_at m candidate;
  if key e =? NULL then Ok m
  else
    _ ← hash_assert (occupancy_ m <? capacity_ m);
    '(m, candidate) ← remove_loop (length (map_ m)) m candidate candidate;
    e ← entry_at m candidate;
    let m := with_entry m candidate (mkEntry NULL (value e) (hash e)) in
    Ok (with_occupancy m (occupancy_ m - 1)).

(** [Clear(clear)]: the map, and the values [clear] is called on; [clear] may be [NULL]. *)
Definition Clear (m : SimpleHashMap) (clear : bool) : SimpleHashMap * list Z :=
  (mkMap (map (fun e => mkEntry NULL (value e) (hash e)) (map_ m)) (capacity_ m) 0,
   if clear then map value (filter (fun e => negb (key e =? NULL)) (map_ m)) else []).

(** The loop of [Next]: the first occupied entry, where [es] starts at the index [p]. *)
Fixpoint first_from (es : list Entry) (p : nat) : option nat :=
  match es with
  | [] => None
  | e :: es => if negb (key e =? NULL) then Some p else first_from es (S p)
  end.

Definition Next (m : SimpleHashMap) (p : Z) : hash_result (option nat) :=
  _ ← hash_assert ((-1 <=? p) && (p <? capacity_ m));
  let p := Z.to_nat (p + 1) in
  Ok (first_from (drop p (map_ m)) p).

Definition Start (m : SimpleHashMap) : hash_result (option nat) := Next m (-1).

End hashmap.
