(* ===== verification/HashMapProps.v ===== *)
(** [SimpleHashMap] is a finite map: the invariant of its table, termination of its
    loops, and what lookup, insertion, growing and removal do to its contents. *)
From stdpp Require Import base numbers list sorting.
From Stdlib Require Import ZArith Lia.
From S2P Require Import Prelude Utils Circular HashMap.
Local Open Scope Z_scope.
Local Open Scope cxx_scope.

(** ** Tables *)

Definition used (t : list Entry) (i : nat) : Prop :=
  exists e, t !! i = Some e /\ key e <> NULL.

#[export] Instance used_entry_dec (e : Entry) : Decision (key e <> NULL).
Proof. apply _. Defined.

(** The entries in use. *)
Definition entries (t : list Entry) : list Entry := filter (fun e => key e <> NULL) t.
Definition contents (m : SimpleHashMap) : list Entry := entries (map_ m).

Lemma entries_app t1 t2 : entries (t1 ++ t2) = entries t1 ++ entries t2.
Proof. apply filter_app. Qed.

Lemma entries_fill t p e e' :
  t !! p = Some e -> key e = NULL -> key e' <> NULL ->
  entries (<[p := e']> t) ≡ₚ e' :: entries t.
Proof.
  intros E He He'. destruct (split_at t p e E) as [Et Ei]. rewrite Ei.
  replace (entries t) with (entries (take p t ++ e :: drop (S p) t)) by (by rewrite <- Et).
  rewrite !entries_app. unfold entries at 2 4. rewrite filter_cons_True by done.
  rewrite filter_cons_False by (by intros []). by rewrite Permutation_middle.
Qed.

Lemma entries_clear t p e e' :
  t !! p = Some e -> key e <> NULL -> key e' = NULL ->
  entries t ≡ₚ e :: entries (<[p := e']> t).
Proof.
  intros E He He'. destruct (split_at t p e E) as [Et Ei]. rewrite Ei.
  replace (entries t) with (entries (take p t ++ e :: drop (S p) t)) by (by rewrite <- Et).
  rewrite !entries_app. unfold entries at 2 4. rewrite filter_cons_True by done.
  rewrite filter_cons_False by (by intros []). by rewrite Permutation_middle.
Qed.

(** A table that is not full has a free entry. *)
Lemma free_entry t :
  (length (entries t) < length t)%nat -> exists x e, t !! x = Some e /\ key e = NULL.
Proof.
  induction t as [|e t IH]; [simpl; lia|]. intros Hl.
  destruct (decide (key e = NULL)) as [He|He]; [by exists 0%nat, e|].
  destruct IH as (x & e' & E & Hk).
  - unfold entries in *. rewrite filter_cons_True in Hl by done. simpl in Hl. lia.
  - by exists (S x), e'.
Qed.

Section hashmap.
Context (match_ : Z -> Z -> bool).
Context (match_equiv : Equivalence (fun x y => match_ x y = true)).

(** The entry holds the key [k] with the hash [h]. *)
Definition same (k h : Z) (e : Entry) : Prop :=
  key e <> NULL /\ hash e = h /\ match_ k (key e) = true.

(** Where the search for a hash starts in a table of [2 ^ b] entries. *)
Definition home (b h : Z) : nat := Z.to_nat (h .& (2 ^ b - 1)).

(** A table of [2 ^ b] entries: the search for an entry that is in use does not meet a free
    entry before it, and no two entries hold the same key. *)
Record table_ok (b : Z) (t : list Entry) : Prop := {
  ok_bits : 0 <= b < 32;
  ok_length : Z.of_nat (length t) = 2 ^ b;
  ok_hash i e : t !! i = Some e -> key e <> NULL -> is_u 32 (hash e);
  ok_path i e : t !! i = Some e -> key e <> NULL ->
    forall j, (j < length t)%nat ->
      (dist (length t) (home b (hash e)) j < dist (length t) (home b (hash e)) i)%nat ->
      used t j;
  ok_unique i j e e' : t !! i = Some e -> t !! j = Some e' ->
    key e <> NULL -> same (key e) (hash e) e' -> i = j;
}.

(** At most 80% of the table is in use. *)
Record inv (m : SimpleHashMap) : Prop := {
  inv_table : exists b, capacity_ m = 2 ^ b /\ table_ok b (map_ m);
  inv_occupancy : occupancy_ m = Z.of_nat (length (contents m));
  inv_load : 5 * occupancy_ m < 4 * capacity_ m;
}.

Lemma inv_free m : inv m -> occupancy_ m < capacity_ m.
Proof. intros [_ Ho Hl]. lia. Qed.

(** *** Arithmetic of indices *)

Lemma IsPowerOfTwo_pow b : 0 <= b -> IsPowerOfTwo (2 ^ b) = true.
Proof.
  intros Hb. unfold IsPowerOfTwo. pose proof (pow2_pos b Hb).
  assert (2 ^ b .& (2 ^ b - 1) = 0) as ->.
  { replace (2 ^ b - 1) with (Z.ones b) by (rewrite Z.ones_equiv; lia).
    rewrite Z.land_ones by done. apply Z.mod_same. lia. }
  simpl. destruct (Z.eqb_spec (2 ^ b) 0); [lia|done].
Qed.

Lemma home_lt b h n : 0 <= b -> Z.of_nat n = 2 ^ b -> (home b h < n)%nat.
Proof.
  intros Hb Hn. unfold home. replace (2 ^ b - 1) with (Z.ones b) by (rewrite Z.ones_equiv; lia).
  rewrite Z.land_ones by done. pose proof (Z.mod_pos_bound h (2 ^ b)). lia.
Qed.

Lemma next_index_succ m p :
  Z.of_nat (length (map_ m)) = capacity_ m -> next_index m p = succ (length (map_ m)) p.
Proof.
  intros E. unfold next_index, succ. rewrite <- E.
  destruct (Z.eqb_spec (Z.of_nat (p + 1)) (Z.of_nat (length (map_ m)))),
    (Nat.eqb_spec (p + 1) (length (map_ m))); lia || done.
Qed.

(** *** Probing *)

(** Probing stops at an entry. *)
Definition stops (k h : Z) (e : Entry) : Prop := key e = NULL \/ same k h e.

Lemma stops_dec k h e :
  negb (key e =? NULL) && (negb (h =? hash e) || negb (match_ k (key e))) = false
  <-> stops k h e.
Proof.
  unfold stops, same. destruct (Z.eqb_spec (key e) NULL), (Z.eqb_spec h (hash e)),
    (match_ k (key e)); simpl; split; intros; try done; try (by left); try (by right; auto);
    intuition congruence.
Qed.

(** From [p], with a free entry [x] ahead within the fuel, the loop returns the first entry
    at which probing stops. *)
Lemma probe_loop_spec m k h x ex fuel p :
  Z.of_nat (length (map_ m)) = capacity_ m -> (p < length (map_ m))%nat ->
  map_ m !! x = Some ex -> key ex = NULL -> (dist (length (map_ m)) p x <= fuel)%nat ->
  exists q e, probe_loop match_ fuel m k h p = Ok q /\ map_ m !! q = Some e /\ stops k h e /\
    (dist (length (map_ m)) p q <= dist (length (map_ m)) p x)%nat /\
    forall j e', map_ m !! j = Some e' ->
      (dist (length (map_ m)) p j < dist (length (map_ m)) p q)%nat -> ~ stops k h e'.
Proof.
  intros Hn. set (n := length (map_ m)) in *. revert p.
  induction fuel as [|fuel IH]; intros p Hp Hx Hk Hd;
    assert (x < n)%nat as Hxn by (by eapply lookup_lt_Some);
    destruct (lookup_lt_is_Some_2 (map_ m) p Hp) as [e He];
    (destruct (decide (stops k h e)) as [Hs|Hs];
      [exists p, e; split_and!; [|done..|rewrite dist_self; lia|rewrite dist_self; lia];
       cbn [probe_loop]; unfold entry_at; rewrite He; cbn [mbind outcome_bind];
       by rewrite (proj2 (stops_dec k h e) Hs)|]).
  - assert (p = x) as ->; [symmetry; apply (dist_zero n); [done..|lia]|].
    simplify_eq. by destruct Hs; left.
  - assert (x <> p) as Hxp by (intros ->; simplify_eq; by destruct Hs; left).
    pose proof (dist_succ_l n p x Hp Hxn Hxp) as Ed.
    destruct (IH (succ n p) (succ_lt n p Hp) Hx Hk) as (q & e' & Eq & Hq & Hst & Hqd & Hbef);
      [lia|].
    assert (q < n)%nat as Hqn by (by eapply lookup_lt_Some).
    assert (q <> p) as Hqp by (intros ->; simplify_eq).
    pose proof (dist_succ_l n p q Hp Hqn Hqp).
    exists q, e'. split_and!; [|done..|lia|].
    + cbn [probe_loop]. unfold entry_at. rewrite He. cbn [mbind outcome_bind].
      destruct (_ && _) eqn:Eb; [|by apply stops_dec in Eb].
      by rewrite next_index_succ.
    + intros j ej Hj Hjd. destruct (decide (j = p)) as [->|Hjp]; [by simplify_eq|].
      assert (j < n)%nat as Hjn by (by eapply lookup_lt_Some).
      pose proof (dist_succ_l n p j Hp Hjn Hjp). apply (Hbef j ej Hj). lia.
Qed.

(** *** The invariant and probing *)

Lemma match_sym x y : match_ x y = true -> match_ y x = true.
Proof. destruct match_equiv as [_ Hsym _]. apply Hsym. Qed.

Lemma same_trans k h e e' : same k h e -> same k h e' -> same (key e) (hash e) e'.
Proof.
  intros (? & <- & Hm) (? & ? & Hm'). split_and!; [done..|].
  destruct match_equiv as [_ Hsym Htrans]. exact (Htrans _ _ _ (Hsym _ _ Hm) Hm').
Qed.

Lemma Probe_spec m b k h :
  capacity_ m = 2 ^ b -> table_ok b (map_ m) -> occupancy_ m = Z.of_nat (length (contents m)) ->
  occupancy_ m < capacity_ m -> k <> NULL ->
  exists q e, Probe match_ m k h = Ok q /\ map_ m !! q = Some e /\ stops k h e /\
    (forall j e', map_ m !! j = Some e' -> same k h e' -> j = q) /\
    (forall j, (j < length (map_ m))%nat ->
      (dist (length (map_ m)) (home b h) j < dist (length (map_ m)) (home b h) q)%nat ->
      used (map_ m) j).
Proof.
  intros Ec Ht Eo Hf Hk. pose proof (ok_bits _ _ Ht) as Hb.
  pose proof (ok_length _ _ Ht) as Hl.
  destruct (free_entry (map_ m)) as (x & ex & Hx & Hkx); [unfold contents in *; lia|].
  assert (x < length (map_ m))%nat as Hxn by (by eapply lookup_lt_Some).
  pose proof (home_lt b h _ (proj1 Hb) Hl) as Hh.
  destruct (probe_loop_spec m k h x ex (length (map_ m)) (home b h))
    as (q & e & Eq & Hq & Hs & _ & Hbef); [lia|done..| |].
  { pose proof (dist_lt _ _ _ Hh Hxn). lia. }
  assert (q < length (map_ m))%nat as Hqn by (by eapply lookup_lt_Some).
  exists q, e. split_and!; [|done..| |].
  - unfold Probe, start_index, hash_assert. rewrite Ec, IsPowerOfTwo_pow by lia.
    fold (home b h). destruct (Z.eqb_spec k NULL); [done|].
    rewrite (proj2 (Z.ltb_lt _ _)) by lia. rewrite (proj2 (Z.ltb_lt _ _)) by lia. done.
  - intros j e' Hj Hsame. assert (j < length (map_ m))%nat as Hjn by (by eapply lookup_lt_Some).
    destruct (Nat.lt_trichotomy (dist (length (map_ m)) (home b h) j)
      (dist (length (map_ m)) (home b h) q)) as [Hlt|[Heq|Hlt]].
    + destruct (Hbef j e' Hj Hlt). by right.
    + by apply (dist_inj (length (map_ m)) (home b h)).
    + destruct Hs as [Hs|Hs].
      * destruct Hsame as (Hke & <- & _).
        destruct (ok_path _ _ Ht j e' Hj Hke q Hqn Hlt) as (? & ? & ?). by simplify_eq.
      * eapply (ok_unique _ _ Ht); [done..|apply Hsame|by apply (same_trans k h)].
  - intros j Hj Hd. destruct (lookup_lt_is_Some_2 (map_ m) j Hj) as [ej Hej].
    exists ej. split; [done|]. intros Hn. destruct (Hbef j ej Hej Hd). by left.
Qed.

Lemma Probe_inv m k h :
  inv m -> k <> NULL ->
  exists q e, Probe match_ m k h = Ok q /\ map_ m !! q = Some e /\ stops k h e /\
    (forall j e', map_ m !! j = Some e' -> same k h e' -> j = q).
Proof.
  intros Hi Hk. pose proof (inv_free m Hi) as Hf. destruct Hi as [(b & Ec & Ht) Eo _].
  destruct (Probe_spec m b k h) as (q & e & ? & ? & ? & ? & _); [done..|]. by exists q, e.
Qed.

Lemma elem_of_contents m e :
  e ∈ contents m <-> key e <> NULL /\ exists p, map_ m !! p = Some e.
Proof. unfold contents, entries. by rewrite list_elem_of_filter, list_elem_of_lookup. Qed.

(** *** Filling a free entry *)

Lemma used_fill t p e i :
  key e <> NULL -> used t i -> used (<[p := e]> t) i.
Proof.
  intros Hk (e' & E & Hk'). destruct (decide (i = p)) as [->|Hne].
  - exists e. split; [|done]. apply list_lookup_insert_eq. by eapply lookup_lt_Some.
  - exists e'. by rewrite list_lookup_insert_ne by done.
Qed.

(** A lookup in an updated table. *)
Lemma table_fill b t p e0 e :
  table_ok b t -> t !! p = Some e0 -> key e <> NULL -> is_u 32 (hash e) ->
  (forall j, (j < length t)%nat ->
    (dist (length t) (home b (hash e)) j < dist (length t) (home b (hash e)) p)%nat -> used t j) ->
  (forall j e', t !! j = Some e' -> same (key e) (hash e) e' -> j = p) ->
  table_ok b (<[p := e]> t).
Proof.
  intros Ht Hp Hk Hh Hpath Huniq. destruct Ht as [Hb Hl Hhash Hpaths Hunique].
  split; rewrite ?length_insert; [done..| | |].
  - intros i e' E Hk'. apply lookup_update in E. destruct E as [(_ & ->)|(_ & E)]; eauto.
  - intros i e' E Hk' j Hj Hd. apply used_fill; [done|].
    apply lookup_update in E. destruct E as [(-> & ->)|(_ & E)]; eauto.
  - intros i j e1 e2 E1 E2 Hk1 Hs. apply lookup_update in E1, E2.
    destruct E1 as [(-> & ->)|(Hi & E1)], E2 as [(-> & ->)|(Hj & E2)]; [done| | |by eauto].
    + symmetry. by eapply Huniq.
    + eapply Huniq; [done|]. destruct Hs as (_ & Hhs & Hm). split_and!; [done..|].
      by apply match_sym.
Qed.

(** The map with the free entry at [p] filled. *)
Definition filled (m : SimpleHashMap) (p : nat) (e : Entry) : SimpleHashMap :=
  mkMap (<[p := e]> (map_ m)) (capacity_ m) (occupancy_ m + 1).

Lemma entry_at_filled m p e :
  (p < length (map_ m))%nat -> entry_at (filled m p e) p = Ok e.
Proof. intros Hp. unfold entry_at, filled. cbn. by rewrite list_lookup_insert_eq. Qed.

Definition absent (k h : Z) (es : list Entry) : Prop := forall e, e ∈ es -> ~ same k h e.

(** The invariant without the requirement of a free entry. *)
Record full_inv (m : SimpleHashMap) : Prop := {
  full_table : exists b, capacity_ m = 2 ^ b /\ table_ok b (map_ m);
  full_occupancy : occupancy_ m = Z.of_nat (length (contents m));
}.

Lemma inv_full m : inv m <-> full_inv m /\ 5 * occupancy_ m < 4 * capacity_ m.
Proof. split; [intros []; by repeat split|intros [[] ?]; by split]. Qed.

Lemma inv_capacity m : full_inv m -> 1 <= capacity_ m < 2 ^ 32 /\ 0 <= occupancy_ m.
Proof.
  intros [(b & -> & Ht) Eo]. pose proof (ok_bits _ _ Ht) as Hb. pose proof (pow2_pos b).
  pose proof (Z.pow_lt_mono_r 2 b 32). lia.
Qed.

(** Probing for an absent key finds the free entry at which to put it. *)
Lemma Probe_absent m k h :
  inv m -> k <> NULL -> is_u 32 h -> absent k h (contents m) ->
  exists p e0, Probe match_ m k h = Ok p /\ map_ m !! p = Some e0 /\ key e0 = NULL /\
    forall v, full_inv (filled m p (mkEntry k v h)) /\
      contents (filled m p (mkEntry k v h)) ≡ₚ mkEntry k v h :: contents m.
Proof.
  intros Hi Hk Hh Hab. pose proof (inv_free m Hi) as Hf. destruct Hi as [(b & Ec & Ht) Eo _].
  destruct (Probe_spec m b k h) as (p & e0 & Ep & Hp & Hs & Hu & Hpath); [done..|].
  assert (key e0 = NULL) as Hk0.
  { destruct Hs as [|Hs]; [done|]. destruct (Hab e0); [|done].
    apply elem_of_contents. split; [apply Hs|by exists p]. }
  exists p, e0. split_and!; [done..|]. intros v.
  assert (contents (filled m p (mkEntry k v h)) ≡ₚ mkEntry k v h :: contents m) as Hperm
    by (by eapply entries_fill).
  split; [|done]. split.
  - exists b. split; [done|]. eapply table_fill; [done..|]. exact Hu.
  - rewrite Hperm. simpl. lia.
Qed.

(** *** Growing *)

(** The condition under which [Lookup] grows the map it has inserted into. *)
Definition crowded (m : SimpleHashMap) : bool :=
  capacity_ m <=? wrapu 32 (occupancy_ m + Z.quot (occupancy_ m) 4).

Lemma crowded_spec m :
  0 <= occupancy_ m < 2 ^ 31 ->
  crowded m = (capacity_ m <=? occupancy_ m + occupancy_ m / 4).
Proof.
  intros Ho. unfold crowded. rewrite Z.quot_div_nonneg by lia. f_equal.
  apply wrapu_id. change (2 ^ 31) with 2147483648 in Ho. split; [Z.div_mod_to_equations; lia|].
  change (2 ^ 32) with 4294967296. Z.div_mod_to_equations; lia.
Qed.

(** Inserting an absent key. *)
Lemma Insert_absent depth m k h :
  inv m -> k <> NULL -> is_u 32 h -> absent k h (contents m) ->
  exists p,
    (forall v, full_inv (filled m p (mkEntry k v h)) /\
      contents (filled m p (mkEntry k v h)) ≡ₚ mkEntry k v h :: contents m) /\
    (p < length (map_ m))%nat /\
    Insert match_ depth m k h =
      let m' := filled m p (mkEntry k NULL h) in
      if crowded m' then
        match depth with
        | O => Fatal Diverges
        | S depth =>
            m ← Resize (Insert match_ depth) m';
            p ← Probe match_ m k h;
            Ok (m, p)
        end
      else Ok (m', p).
Proof.
  intros Hi Hk Hh Hab. pose proof (inv_capacity m (proj1 (proj1 (inv_full m) Hi))) as Hcap.
  pose proof (inv_free _ Hi) as Hf.
  destruct (Probe_absent m k h) as (p & e0 & Ep & Hp & Hk0 & Hfill); [done..|].
  exists p. split; [done|]. split; [by eapply lookup_lt_Some|].
  assert (with_occupancy (with_entry m p (mkEntry k NULL h)) (occupancy_ m + 1)
          = filled m p (mkEntry k NULL h)) as Em.
  { unfold with_occupancy, with_entry, filled. cbn. f_equal. apply wrapu_id.
    split; lia. }
  destruct depth; cbn [Insert]; rewrite Ep; cbn [mbind outcome_bind]; unfold entry_at;
    rewrite Hp; cbn [mbind outcome_bind]; rewrite Hk0;
    change (negb (NULL =? NULL)) with false; cbv iota zeta;
    change (occupancy_ (with_entry m p (mkEntry k NULL h))) with (occupancy_ m);
    by rewrite Em.
Qed.

(** The entries of a table are distinct from each other. *)
Definition distinct (es : list Entry) : Prop :=
  ForallOrdPairs (fun e e' => ~ same (key e) (hash e) e') es.

Lemma distinct_entries b t : table_ok b t -> distinct (entries t).
Proof.
  intros Ht. assert (forall i j e e', t !! i = Some e -> t !! j = Some e' ->
    key e <> NULL -> same (key e) (hash e) e' -> i = j) as Hu by apply (ok_unique _ _ Ht).
  clear Ht. induction t as [|e t IH]; [constructor|].
  assert (distinct (entries t)) as Hd.
  { apply IH. intros i j e1 e2 E1 E2 Hk Hs. by apply (inj S), (Hu (S i) (S j) e1 e2). }
  unfold entries. rewrite filter_cons. case_decide as Hk; [|done].
  constructor; [|done]. apply Forall_forall. intros e' He' Hs.
  apply list_elem_of_filter in He' as [_ He']. apply list_elem_of_lookup in He' as [j Hj].
  by specialize (Hu 0%nat (S j) e e' eq_refl Hj Hk Hs).
Qed.

Lemma same_sym e e' :
  key e <> NULL -> same (key e) (hash e) e' -> same (key e') (hash e') e.
Proof. intros Hk (? & ? & Hm). split_and!; [done..|]. by apply match_sym. Qed.

(** There is room for [n] more entries. *)
Definition room (m : SimpleHashMap) (n : nat) : Prop :=
  occupancy_ m + Z.of_nat n + (occupancy_ m + Z.of_nat n) / 4 < capacity_ m.

Lemma room_next m p e n :
  full_inv m -> room m (S n) -> room (filled m p e) n.
Proof.
  intros Hi. pose proof (inv_capacity m Hi) as Hcap. unfold room, filled. cbn.
  by replace (occupancy_ m + 1 + Z.of_nat n) with (occupancy_ m + Z.of_nat (S n)) by lia.
Qed.

Lemma room_free m n : full_inv m -> room m n -> 5 * occupancy_ m < 4 * capacity_ m.
Proof.
  intros Hi. pose proof (inv_capacity m Hi) as Hcap. unfold room. Z.div_mod_to_equations; lia.
Qed.

Lemma room_uncrowded m n :
  full_inv m -> capacity_ m <= 2 ^ 31 -> room m n -> crowded m = false.
Proof.
  intros Hi Hc Hr. pose proof (inv_capacity m Hi) as Hcap. pose proof (room_free m n Hi Hr).
  unfold room in Hr. rewrite crowded_spec by lia. apply Z.leb_gt.
  Z.div_mod_to_equations; lia.
Qed.

(** With room for the key, it is put into the table as it is. *)
Lemma Insert_room depth m n k h :
  full_inv m -> capacity_ m <= 2 ^ 31 -> room m (S n) -> k <> NULL -> is_u 32 h ->
  absent k h (contents m) ->
  exists p, (p < length (map_ m))%nat /\
    Insert match_ depth m k h = Ok (filled m p (mkEntry k NULL h), p) /\
    forall v, full_inv (filled m p (mkEntry k v h)) /\
      contents (filled m p (mkEntry k v h)) ≡ₚ mkEntry k v h :: contents m.
Proof.
  intros Hi Hc Hr Hk Hh Hab.
  destruct (Insert_absent depth m k h) as (p & Hfill & Hp & ->); [|done..|].
  { apply inv_full. split; [done|]. by eapply room_free. }
  exists p. split; [done|]. split; [|done]. cbv zeta.
  by rewrite (room_uncrowded _ n) by (apply Hfill || by apply room_next || done).
Qed.

Lemma rehash_spec depth old n m :
  full_inv m -> capacity_ m <= 2 ^ 31 -> room m n -> n = length (entries old) ->
  distinct (entries old) ->
  (forall e, e ∈ entries old -> is_u 32 (hash e) /\ absent (key e) (hash e) (contents m)) ->
  exists m', rehash (Insert match_ depth) old n m = Ok m' /\ inv m' /\
    capacity_ m' = capacity_ m /\ contents m' ≡ₚ contents m ++ entries old.
Proof.
  revert n m. induction old as [|e old IH]; intros n m Hi Hc Hr Hn Hd Habs.
  { subst n. exists m. split_and!; [done|apply inv_full; by eauto using room_free|done|].
    by rewrite app_nil_r. }
  unfold entries in Hn, Hd, Habs |- *. rewrite filter_cons in Hn, Hd, Habs |- *.
  case_decide as Hk; fold (entries old) in *; simpl in Hn.
  - subst n. destruct (Habs e) as [Hh Hab]; [by left|].
    destruct (Insert_room depth m (length (entries old)) (key e) (hash e))
      as (p & Hp & Ei & Hfill); [done..|].
    destruct (Hfill (value e)) as [Hi' Hperm].
    destruct (IH (length (entries old)) (filled m p (mkEntry (key e) (value e) (hash e))))
      as (m' & E' & Hinv & Hcap & Hcont); [done..|by apply room_next|done|by inversion Hd| |].
    { intros e1 He1. destruct (Habs e1) as [Hh1 Hab1]; [by right|]. split; [done|].
      intros e2 He2 Hs. rewrite Hperm in He2. apply elem_of_cons in He2 as [->|He2];
        [|by eapply Hab1].
      inversion Hd as [|? ? Hall]. subst. rewrite Forall_forall in Hall.
      apply (Hall e1 He1). apply list_elem_of_filter in He1 as [Hk1 _].
      by apply same_sym in Hs. }
    exists m'. split_and!; [|done..|].
    + cbn [rehash]. destruct (Z.eqb_spec (key e) NULL); [done|]. cbn [negb].
      rewrite Ei. cbn [mbind outcome_bind]. rewrite entry_at_filled by done.
      cbn [mbind outcome_bind key hash].
      rewrite <- E'. unfold with_entry, filled. cbn. by rewrite list_insert_insert_eq.
    + rewrite Hcont, Hperm. destruct e. simpl. by rewrite Permutation_middle.
  - destruct (IH n m) as (m' & E' & Hm'); [done..|]. exists m'. split; [|done].
    rewrite <- E'. destruct (decide (key e = NULL)) as [E|]; [|done].
    destruct n; cbn [rehash]; [by destruct old|]. by rewrite E.
Qed.

(** *** New maps *)

Lemma entries_replicate n : entries (replicate n Entry_new) = [].
Proof.
  unfold entries. induction n as [|n IH]; [done|]. simpl.
  by rewrite filter_cons_False by (by intros []).
Qed.

Lemma new_not_used n i e : replicate n Entry_new !! i = Some e -> key e = NULL.
Proof. intros E. by apply lookup_replicate in E as [-> _]. Qed.

Lemma Initialize_spec b :
  0 <= b < 32 ->
  exists m, Initialize (2 ^ b) = Ok m /\ capacity_ m = 2 ^ b /\ occupancy_ m = 0 /\
    contents m = [] /\ inv m.
Proof.
  intros Hb. exists (mkMap (replicate (Z.to_nat (2 ^ b)) Entry_new) (2 ^ b) 0).
  pose proof (pow2_pos b). unfold contents. cbn. split_and!; [|done..|apply entries_replicate|].
  { unfold Initialize, hash_assert. by rewrite IsPowerOfTwo_pow by lia. }
  split; cbn; [|by unfold contents; cbn; rewrite entries_replicate|lia].
  exists b. split; [done|]. split; rewrite ?length_replicate; try lia.
  all: intros i; intros; exfalso; by eauto using new_not_used.
Qed.

(** [Resize] of a map that may be full: the same entries in a table twice as large. *)
Lemma Resize_spec depth m :
  full_inv m -> occupancy_ m <= capacity_ m -> capacity_ m < 2 ^ 31 ->
  exists m', Resize (Insert match_ depth) m = Ok m' /\ inv m' /\
    capacity_ m' = capacity_ m * 2 /\ contents m' ≡ₚ contents m.
Proof.
  intros Hi Ho Hc. pose proof (inv_capacity m Hi) as Hcap.
  destruct Hi as [(b & Ec & Ht) Eo]. pose proof (ok_bits _ _ Ht) as Hb.
  assert (capacity_ m * 2 = 2 ^ (b + 1)) as Ec2 by (rewrite Z.pow_add_r by lia; lia).
  assert (b < 31) as Hb1 by (apply (Z.pow_lt_mono_r_iff 2); lia).
  pose proof (Z.pow_le_mono_r 2 (b + 1) 31).
  destruct (Initialize_spec (b + 1)) as (m0 & E0 & Ec0 & Eo0 & Eco0 & Hi0); [lia|].
  unfold Resize. rewrite wrapu_id by (split; lia). rewrite Ec2, E0. cbn [mbind outcome_bind].
  destruct (rehash_spec depth (map_ m) (Z.to_nat (occupancy_ m)) m0)
    as (m' & E' & Hi' & Ec' & Hcont').
  - by apply inv_full.
  - lia.
  - unfold room. rewrite Eo0, Ec0, <- Ec2. Z.div_mod_to_equations; lia.
  - unfold contents in Eo. lia.
  - by eapply distinct_entries.
  - intros e He. apply list_elem_of_filter in He as [Hk He].
    apply list_elem_of_lookup in He as [i He]. split; [by eapply ok_hash|].
    intros e' He'. rewrite Eco0 in He'. by apply elem_of_nil in He'.
  - exists m'. split_and!; [done..|lia|]. by rewrite Hcont', Eco0.
Qed.

(** *** Lookup *)

Lemma key_test e : key e <> NULL -> negb (key e =? NULL) = true.
Proof. by destruct (Z.eqb_spec (key e) NULL). Qed.

Lemma contents_lookup m p e : map_ m !! p = Some e -> key e <> NULL -> e ∈ contents m.
Proof. intros. apply elem_of_contents. eauto. Qed.

(** Probing finds the entry of a key that is present. *)
Lemma Probe_present m k h e :
  inv m -> k <> NULL -> e ∈ contents m -> same k h e ->
  exists p, Probe match_ m k h = Ok p /\ map_ m !! p = Some e.
Proof.
  intros Hi Hk He Hs. apply elem_of_contents in He as [_ [i He]].
  destruct (Probe_inv m k h) as (q & e' & Ep & Hq & _ & Hu); [done..|].
  exists q. split; [done|]. by rewrite <- (Hu i e).
Qed.

(** The specification of a map from keys with their hashes to values as a list of entries
    in which no two hold the same key. *)
Inductive find_result (k h : Z) (es : list Entry) : option Entry -> Prop :=
| found e : e ∈ es -> same k h e -> find_result k h es (Some e)
| not_found : absent k h es -> find_result k h es None.

Lemma probe_absent m k h q e :
  map_ m !! q = Some e -> key e = NULL ->
  (forall j e', map_ m !! j = Some e' -> same k h e' -> j = q) -> absent k h (contents m).
Proof.
  intros Hq Hn Hu e' He' Hs. apply elem_of_contents in He' as [Hk' [i He']].
  assert (i = q) as -> by eauto. by simplify_eq.
Qed.

Lemma find_total m k h :
  inv m -> k <> NULL -> absent k h (contents m) \/ exists e, e ∈ contents m /\ same k h e.
Proof.
  intros Hi Hk. destruct (Probe_inv m k h) as (q & e & _ & Hq & Hs & Hu); [done..|].
  destruct Hs as [Hs|Hs].
  - left. by eapply probe_absent.
  - right. exists e. split; [|done]. eapply contents_lookup; [done|apply Hs].
Qed.

(** [Lookup] without insertion terminates and decides membership: it returns the entry
    of the key when there is one, [NULL] otherwise, and does not change the map. *)
Lemma Lookup_find m k h :
  inv m -> k <> NULL ->
  exists r, Lookup match_ m k h false = Ok (m, r) /\
    find_result k h (contents m) (p ← r; map_ m !! p) /\
    (is_Some r -> is_Some (p ← r; map_ m !! p)).
Proof.
  intros Hi Hk. destruct (Probe_inv m k h) as (q & e & Ep & Hq & Hs & Hu); [done..|].
  unfold Lookup. rewrite Ep. cbn [mbind outcome_bind]. unfold entry_at. rewrite Hq.
  cbn [mbind outcome_bind]. eexists. split; [reflexivity|].
  destruct (Z.eqb_spec (key e) NULL) as [Hn|Hn]; cbn.
  - split; [|by intros []]. constructor. by eapply probe_absent.
  - rewrite Hq. split; [|by eauto]. constructor; [by eapply contents_lookup|].
    by destruct Hs.
Qed.

(** [Lookup] with insertion terminates, within two nested calls of [Resize], keeps the
    invariant and returns the entry of the key; a present key leaves the map unchanged, an
    absent one adds exactly one entry with a [NULL] value, growing the table if needed. *)
Lemma Lookup_insert m k h :
  inv m -> k <> NULL -> is_u 32 h -> capacity_ m < 2 ^ 31 ->
  exists m' p e, Lookup match_ m k h true = Ok (m', Some p) /\ inv m' /\
    map_ m' !! p = Some e /\ same k h e /\
    (m' = m \/
     absent k h (contents m) /\ e = mkEntry k NULL h /\ contents m' ≡ₚ e :: contents m /\
     (capacity_ m' = capacity_ m \/
      capacity_ m' = 2 * capacity_ m /\ 2 * capacity_ m' <= 5 * occupancy_ m')).
Proof.
  intros Hi Hk Hh Hc.
  destruct (find_total m k h Hi Hk) as [Hab|(e & He & Hs)].
  2: { destruct (Probe_present m k h e) as (p & Ep & Hp); [done..|].
       exists m, p, e. split_and!; [|done..|by left]. cbn. rewrite Ep. cbn.
       unfold entry_at. rewrite Hp. cbn. by rewrite key_test by apply Hs. }
  destruct (Insert_absent 2 m k h) as (p & Hfill & Hp & Ei); [done..|].
  destruct (Hfill NULL) as [Hi' Hperm]. unfold Lookup. rewrite Ei. cbv zeta.
  assert (same k h (mkEntry k NULL h)) as Hs by (split_and!; [done..|apply match_equiv]).
  pose proof (inv_capacity _ Hi') as Hcap. pose proof (inv_free _ Hi) as Hf.
  destruct (crowded _) eqn:Ecr.
  - destruct (Resize_spec 1 (filled m p (mkEntry k NULL h))) as (m' & Er & Hi2 & Ec2 & Hc2);
      [done|cbn in *; lia..|].
    destruct (Probe_present m' k h (mkEntry k NULL h)) as (q & Ep & Hq); [done..| |done|].
    { rewrite Hc2, Hperm. by left. }
    exists m', q, (mkEntry k NULL h). rewrite Er. cbn [mbind outcome_bind].
    rewrite Ep. cbn [mbind outcome_bind]. split_and!; [done..|]. right.
    split_and!; [done..|by rewrite Hc2|]. right. rewrite Ec2. split; [cbn; lia|].
    assert (occupancy_ m' = occupancy_ m + 1) as ->.
    { destruct Hi2 as [_ -> _]. by rewrite Hc2, <- (full_occupancy _ Hi'). }
    rewrite crowded_spec in Ecr by (cbn in *; lia). apply Z.leb_le in Ecr.
    unfold filled in Ecr |- *. cbn [capacity_ occupancy_] in *. Z.div_mod_to_equations; lia.
  - exists (filled m p (mkEntry k NULL h)), p, (mkEntry k NULL h).
    split_and!; [done| | |done|].
    + apply inv_full. split; [done|]. unfold filled in Hcap, Ecr |- *.
      cbn [capacity_ occupancy_] in Hcap |- *.
      rewrite crowded_spec in Ecr by (cbn [occupancy_]; lia).
      apply Z.leb_gt in Ecr. cbn [capacity_ occupancy_] in Ecr. Z.div_mod_to_equations; lia.
    + cbn. by apply list_lookup_insert_eq.
    + right. split_and!; [done..|by left].
Qed.

(** *** Changing a value *)

Lemma entries_update t p e e' :
  t !! p = Some e -> key e <> NULL -> key e' <> NULL ->
  exists es, entries t ≡ₚ e :: es /\ entries (<[p := e']> t) ≡ₚ e' :: es.
Proof.
  intros Hp Hk Hk'. exists (entries (<[p := Entry_new]> t)). split; [by apply entries_clear|].
  rewrite <- (list_insert_insert_eq t p e' Entry_new).
  apply (entries_fill _ _ Entry_new); [|done..]. apply list_lookup_insert_eq. by eapply lookup_lt_Some.
Qed.

Lemma inv_value m p e v :
  inv m -> map_ m !! p = Some e -> key e <> NULL ->
  inv (with_entry m p (mkEntry (key e) v (hash e))).
Proof.
  intros [(b & Ec & Ht) Ho Hl] Hp Hk. split; cbn; [| |done].
  - exists b. split; [done|]. eapply table_fill; [done..| | |]; cbn.
    + by eapply ok_hash.
    + by eapply ok_path.
    + intros j e' Hj Hs. symmetry. by eapply (ok_unique _ _ Ht).
  - rewrite Ho. unfold contents. cbn. destruct (entries_update (map_ m) p e (mkEntry (key e) v (hash e))) as (es & -> & ->); done.
Qed.

(** *** Clearing *)

Lemma entries_cleared t : entries (map (fun e => mkEntry NULL (value e) (hash e)) t) = [].
Proof.
  unfold entries. induction t as [|e t IH]; [done|]. simpl.
  by rewrite filter_cons_False by (by intros []).
Qed.

Lemma cleared_key t i e :
  map (fun e => mkEntry NULL (value e) (hash e)) t !! i = Some e -> key e = NULL.
Proof.
  intros E. apply list_elem_of_lookup_2, list_elem_of_fmap in E.
  by destruct E as (? & -> & _).
Qed.

Lemma Clear_spec m clear :
  inv m -> inv (Clear m clear).1 /\ contents (Clear m clear).1 = [].
Proof.
  intros Hi. pose proof (inv_capacity m (proj1 (proj1 (inv_full m) Hi))) as Hcap.
  destruct Hi as [(b & Ec & Ht) Ho Hl]. unfold contents, Clear. cbn.
  split; [|apply entries_cleared].
  split; cbn; [|by unfold contents; cbn; rewrite entries_cleared|lia].
  exists b. split; [done|]. split; rewrite ?length_map; [apply Ht..| | |];
    intros i; intros; exfalso; by eauto using cleared_key.
Qed.

End hashmap.
