(* ===== verification/HashMapRemove.v ===== *)
(** Removal from [SimpleHashMap]: the entries after the removed one move back so that no
    search stops too soon. *)
From stdpp Require Import base numbers list sorting.
From Stdlib Require Import ZArith Lia.
From S2P Require Import Prelude Utils Circular HashMap HashMapProps.
Local Open Scope Z_scope.
Local Open Scope cxx_scope.

(** ** The condition for moving an entry *)

Definition movable (candidate next start : nat) : bool :=
  ((candidate <? next)%nat && ((start <=? candidate)%nat || (next <? start)%nat))
  || ((next <? candidate)%nat && ((start <=? candidate)%nat && (next <? start)%nat)).

(** The candidate is on the way from the initial position to the entry. *)
Lemma movable_spec n c nx s :
  (c < n -> nx < n -> s < n -> c <> nx ->
   movable c nx s = true <-> dist n s c < dist n s nx)%nat.
Proof.
  intros. unfold movable.
  destruct (Nat.ltb_spec c nx), (Nat.leb_spec s c), (Nat.ltb_spec nx s), (Nat.ltb_spec nx c);
    cbn; split; intros; done || circ.
Qed.

(** Going from [s] through [c] and then past [x] passes [x]. *)
Lemma dist_between n s c x i :
  (s < n -> c < n -> x < n -> i < n ->
   dist n s c < dist n s i -> dist n c x < dist n c i -> dist n s x < dist n s i)%nat.
Proof. intros. circ. Qed.

Lemma entries_free t c e e' :
  key e = NULL -> key e' = NULL -> entries (<[c := e]> t) = entries (<[c := e']> t).
Proof.
  intros He He'. destruct (decide (c < length t)%nat) as [Hc|Hc].
  - rewrite !insert_take_drop by done. rewrite !entries_app. f_equal.
    unfold entries. by rewrite !filter_cons_False by (by intros []).
  - by rewrite !list_insert_ge by lia.
Qed.

(** Moving an entry into the hole keeps the other entries. *)
Lemma entries_move t c nx e :
  (c < length t)%nat -> t !! nx = Some e -> key e <> NULL -> c <> nx ->
  entries (<[nx := Entry_new]> (<[c := e]> t)) ≡ₚ entries (<[c := Entry_new]> t).
Proof.
  intros Hc Hnx Hk Hne. rewrite list_insert_insert_ne by done.
  assert (<[nx := Entry_new]> t !! c <> None) as Hl.
  { rewrite list_lookup_insert_ne by done. by apply lookup_lt_is_Some_2 in Hc as [? ->]. }
  rewrite (entries_clear (<[c := Entry_new]> t) nx e Entry_new)
    by (done || by rewrite list_lookup_insert_ne by done).
  rewrite (list_insert_insert_ne _ nx c) by done.
  rewrite <- (entries_fill (<[c := Entry_new]> (<[nx := Entry_new]> t)) c Entry_new e)
    by (done || by apply list_lookup_insert_eq; rewrite length_insert).
  by rewrite list_insert_insert_eq.
Qed.

Section remove.
Context (match_ : Z -> Z -> bool).
Context (match_equiv : Equivalence (fun x y => match_ x y = true)).

(** The table while an entry is being removed: [c] is the entry to clear, the entries from
    [c] to [nx] are in use and the one at [x] is not; an entry that is searched through [c]
    is after [nx]. *)
Record removing (b : Z) (t : list Entry) (c nx x : nat) : Prop := {
  rm_bits : 0 <= b < 32;
  rm_length : Z.of_nat (length t) = 2 ^ b;
  rm_c : used t c;
  rm_nx : (nx < length t)%nat;
  rm_x : (x < length t)%nat;
  rm_free : exists e, t !! x = Some e /\ key e = NULL;
  rm_before : (dist (length t) c nx < dist (length t) c x)%nat;
  rm_hash i e : t !! i = Some e -> key e <> NULL -> i <> c -> is_u 32 (hash e);
  rm_path i e : t !! i = Some e -> key e <> NULL -> i <> c ->
    forall j, (j < length t)%nat ->
      (dist (length t) (home b (hash e)) j < dist (length t) (home b (hash e)) i)%nat ->
      used t j /\ (j = c -> dist (length t) c nx < dist (length t) c i)%nat;
  rm_unique i j e e' : t !! i = Some e -> t !! j = Some e' -> i <> c -> j <> c ->
    key e <> NULL -> same match_ (key e) (hash e) e' -> i = j;
}.

Lemma used_lt t i : used t i -> (i < length t)%nat.
Proof. intros (e & E & _). by eapply lookup_lt_Some. Qed.

(** Removal starts at the entry to remove. *)
Lemma removing_start b t c x e :
  table_ok match_ b t -> used t c -> t !! x = Some e -> key e = NULL -> removing b t c c x.
Proof.
  intros Ht Hc Hx Hk. pose proof (used_lt _ _ Hc) as Hcl.
  assert (x < length t)%nat as Hxl by (by eapply lookup_lt_Some).
  assert (x <> c) as Hxc by (destruct Hc as (? & ? & ?); intros ->; by simplify_eq).
  split; [apply Ht..|done|done|done|by eauto| | | |].
  - rewrite dist_self. destruct (dist (length t) c x) eqn:E; [|lia].
    by apply dist_zero in E.
  - intros i ei Hi Hki _. by eapply (ok_hash _ _ _ Ht).
  - intros i ei Hi Hki Hic j Hj Hd. split; [by eapply (ok_path _ _ _ Ht)|].
    intros _. rewrite dist_self. assert (i < length t)%nat by (by eapply lookup_lt_Some).
    destruct (dist (length t) c i) eqn:E; [|lia]. by apply dist_zero in E.
  - intros i j e1 e2 E1 E2 _ _ Hk1 Hs. by eapply (ok_unique _ _ _ Ht).
Qed.

(** The next index. *)
Lemma removing_next b t c nx x :
  removing b t c nx x ->
  (succ (length t) nx < length t)%nat /\ succ (length t) nx <> c /\
  dist (length t) c (succ (length t) nx) = S (dist (length t) c nx) /\
  dist (length t) nx x = S (dist (length t) (succ (length t) nx) x).
Proof.
  intros H. pose proof (used_lt _ _ (rm_c _ _ _ _ _ H)) as Hc. pose proof (rm_nx _ _ _ _ _ H).
  pose proof (rm_x _ _ _ _ _ H). pose proof (rm_before _ _ _ _ _ H) as Hb.
  assert (succ (length t) nx <> c) as Hne.
  { intros E. unfold succ in E. destruct (Nat.eqb_spec (nx + 1) (length t)); circ. }
  split_and!; [by apply succ_lt|done|by apply dist_succ_r|].
  apply dist_succ_l; [done..|]. intros ->. lia.
Qed.

(** The candidate can be cleared when the next entry is free. *)
Lemma removing_done b t c nx x e e' :
  removing b t c nx x -> t !! succ (length t) nx = Some e -> key e = NULL -> key e' = NULL ->
  table_ok match_ b (<[c := e']> t).
Proof.
  intros H Hnx Hk Hk'. destruct (removing_next _ _ _ _ _ H) as (Hs & Hne & Ed & _).
  pose proof (used_lt _ _ (rm_c _ _ _ _ _ H)) as Hc. pose proof (rm_bits _ _ _ _ _ H) as Hb.
  split; rewrite ?length_insert; [apply H..| | |].
  - intros i ei Hi Hki. apply lookup_update in Hi as [(-> & ->)|(Hic & Hi)]; [done|].
    by eapply (rm_hash _ _ _ _ _ H).
  - intros i ei Hi Hki j Hj Hd. apply lookup_update in Hi as [(-> & ->)|(Hic & Hi)]; [done|].
    assert (i < length t)%nat as Hil by (by eapply lookup_lt_Some).
    pose proof (home_lt b (hash ei) _ (proj1 Hb) (rm_length _ _ _ _ _ H)) as Hh.
    destruct (rm_path _ _ _ _ _ H i ei Hi Hki Hic j Hj Hd) as [(ej & Hej & Hkj) Hjc].
    destruct (decide (j = c)) as [->|Hjne].
    + specialize (Hjc eq_refl).
      assert (dist (length t) c (succ (length t) nx) <> dist (length t) c i) as Hnei.
      { intros E. apply dist_inj in E; [|done..]. subst i. by simplify_eq. }
      destruct (rm_path _ _ _ _ _ H i ei Hi Hki Hic (succ (length t) nx) Hs)
        as [(e2 & He2 & Hk2) _]; [|by simplify_eq].
      eapply (dist_between _ _ c); [done..|]. lia.
    + exists ej. by rewrite list_lookup_insert_ne.
  - intros i j e1 e2 E1 E2 Hk1 Hsame.
    apply lookup_update in E1 as [(-> & ->)|(Hi & E1)]; [done|].
    apply lookup_update in E2 as [(-> & ->)|(Hj & E2)]; [by destruct Hsame|].
    by eapply (rm_unique _ _ _ _ _ H).
Qed.

Lemma removing_x b t c nx x :
  removing b t c nx x -> used t (succ (length t) nx) -> succ (length t) nx <> x.
Proof.
  intros H (e & He & Hk) E. destruct (rm_free _ _ _ _ _ H) as (ex & Hx & Hkx).
  rewrite E in He. by simplify_eq.
Qed.

(** The entry at the next index stays. *)
Lemma removing_stay b t c nx x e :
  removing b t c nx x -> t !! succ (length t) nx = Some e -> key e <> NULL ->
  ~ (dist (length t) (home b (hash e)) c
     < dist (length t) (home b (hash e)) (succ (length t) nx))%nat ->
  removing b t c (succ (length t) nx) x.
Proof.
  intros H Hnx Hk Hstay. destruct (removing_next _ _ _ _ _ H) as (Hs & Hne & Ed & _).
  pose proof (used_lt _ _ (rm_c _ _ _ _ _ H)) as Hc.
  assert (succ (length t) nx <> x) as Hx by (eapply removing_x; [done|by exists e]).
  pose proof (rm_before _ _ _ _ _ H) as Hbef. pose proof (rm_x _ _ _ _ _ H) as Hxl.
  destruct H as [Hb Hl Hu _ _ Hfree _ Hhash Hpath Huniq]. split; try done.
  - assert (dist (length t) c (succ (length t) nx) <> dist (length t) c x); [|lia].
    intros E. by apply dist_inj in E.
  - intros i ei Hi Hki Hic j Hj Hd. destruct (Hpath i ei Hi Hki Hic j Hj Hd) as [Huj Hjc].
    split; [done|]. intros ->. specialize (Hjc eq_refl).
    assert (i < length t)%nat by (by eapply lookup_lt_Some).
    assert (dist (length t) c (succ (length t) nx) <> dist (length t) c i); [|lia].
    intros E. apply dist_inj in E; [|done..]. subst i. by simplify_eq.
Qed.

(** The entry at the next index moves to the candidate and becomes the candidate. *)
Lemma removing_move b t c nx x e :
  removing b t c nx x -> t !! succ (length t) nx = Some e -> key e <> NULL ->
  (dist (length t) (home b (hash e)) c
   < dist (length t) (home b (hash e)) (succ (length t) nx))%nat ->
  removing b (<[c := e]> t) (succ (length t) nx) (succ (length t) nx) x.
Proof.
  intros H Hnx Hk Hmove. destruct (removing_next _ _ _ _ _ H) as (Hs & Hne & Ed & _).
  pose proof (used_lt _ _ (rm_c _ _ _ _ _ H)) as Hc.
  assert (succ (length t) nx <> x) as Hx by (eapply removing_x; [done|by exists e]).
  pose proof (rm_x _ _ _ _ _ H) as Hxl.
  assert (forall i, (i < length t)%nat -> i <> succ (length t) nx ->
    (0 < dist (length t) (succ (length t) nx) i)%nat) as Hpos.
  { intros i Hi Hn. destruct (dist _ _ i) eqn:E; [|lia]. by apply dist_zero in E. }
  destruct H as [Hb Hl Hu _ _ (ex & Hex & Hkx) _ Hhash Hpath Huniq].
  split; rewrite ?length_insert; try done.
  - apply used_fill; [done|by exists e].
  - exists ex. split; [|done]. rewrite list_lookup_insert_ne; [done|].
    intros ->. destruct Hu as (? & ? & ?). by simplify_eq.
  - rewrite dist_self. by apply Hpos.
  - intros i ei Hi Hki Hin. apply lookup_update in Hi as [(-> & ->)|(Hic & Hi)]; eauto.
  - intros i ei Hi Hki Hin j Hj Hd.
    assert (i < length t)%nat as Hil
      by (rewrite <- (length_insert t c e); by eapply lookup_lt_Some).
    split; [|intros _; rewrite dist_self; by apply Hpos].
    apply used_fill; [done|]. apply lookup_update in Hi as [(-> & ->)|(Hic & Hi)].
    + eapply (proj1 (Hpath _ e Hnx Hk Hne j Hj ltac:(lia))).
    + by eapply (proj1 (Hpath i ei Hi Hki Hic j Hj Hd)).
  - intros i j e1 e2 E1 E2 Hi Hj Hk1 Hsame.
    apply lookup_update in E1 as [(-> & ->)|(Hic & E1)],
      E2 as [(-> & ->)|(Hjc & E2)]; [done| | |by eauto].
    + destruct Hj. symmetry. eapply (Huniq _ j e e2); done.
    + destruct Hi. eapply (Huniq i _ e1 e); done.
Qed.

(** The loop of [Remove] terminates before the free entry, and clearing the entry it returns
    leaves a table without the entry to remove. *)
Lemma remove_loop_spec b m fuel c nx x :
  capacity_ m = 2 ^ b -> removing b (map_ m) c nx x ->
  (dist (length (map_ m)) nx x <= S fuel)%nat ->
  exists m' c', remove_loop fuel m c nx = Ok (m', c') /\ used (map_ m') c' /\
    capacity_ m' = capacity_ m /\ occupancy_ m' = occupancy_ m /\
    (forall e', key e' = NULL -> table_ok match_ b (<[c' := e']> (map_ m'))) /\
    entries (<[c' := Entry_new]> (map_ m')) ≡ₚ entries (<[c := Entry_new]> (map_ m)).
Proof.
  revert m c nx. induction fuel as [|fuel IH]; intros m c nx Hcap H Hfuel;
    destruct (removing_next _ _ _ _ _ H) as (Hs & Hne & Ed & Ex);
    pose proof (used_lt _ _ (rm_c _ _ _ _ _ H)) as Hc;
    pose proof (rm_length _ _ _ _ _ H) as Hl; pose proof (rm_bits _ _ _ _ _ H) as Hb;
    destruct (lookup_lt_is_Some_2 (map_ m) _ Hs) as [e He];
    cbn [remove_loop]; unfold entry_at; rewrite next_index_succ by lia; rewrite He;
    cbn [mbind outcome_bind]; destruct (Z.eqb_spec (key e) NULL) as [Hk|Hk].
  1, 3: exists m, c; split_and!; [done|apply H|done..| |done];
    intros e' Hk'; by eapply removing_done.
  - exfalso. apply (removing_x _ _ _ _ _ H); [by exists e|].
    symmetry. apply (dist_zero (length (map_ m))); [done|apply H|lia].
  - fold (movable c (succ (length (map_ m)) nx) (start_index m (hash e))).
    assert (start_index m (hash e) = home b (hash e)) as ->
      by (unfold start_index, home; by rewrite Hcap).
    pose proof (home_lt b (hash e) _ (proj1 Hb) Hl) as Hh.
    pose proof (movable_spec (length (map_ m)) c _ _ Hc Hs Hh (not_eq_sym Hne)) as Hmv.
    destruct (movable _ _ _).
    + destruct (IH (with_entry m c e) (succ (length (map_ m)) nx) (succ (length (map_ m)) nx))
        as (m' & c' & E & Hu & Hc' & Ho & Ht & Hperm); [done| | |].
      * apply removing_move; [done..|]. by apply Hmv.
      * cbn. rewrite length_insert. lia.
      * exists m', c'. split_and!; [done..|]. rewrite Hperm. by apply entries_move.
    + apply IH; [done| |lia]. eapply removing_stay; [done..|]. intros Hlt.
      by apply Hmv in Hlt.
Qed.

Lemma entry_at_Some m p e : map_ m !! p = Some e -> entry_at m p = Ok e.
Proof. unfold entry_at. by intros ->. Qed.

#[local] Instance same_dec k h e : Decision (same match_ k h e).
Proof. unfold same. apply _. Defined.

(** Distinct entries hold a key at most once. *)
Lemma distinct_once k h es :
  distinct match_ es -> (length (filter (same match_ k h) es) <= 1)%nat.
Proof.
  induction 1 as [|e es Hall Hd IH]; [simpl; lia|]. rewrite filter_cons.
  case_decide as Hs; [|done]. simpl. destruct (filter _ es) as [|e' es'] eqn:E; [simpl; lia|].
  exfalso. rewrite Forall_forall in Hall. assert (e' ∈ filter (same match_ k h) es) as He'
    by (rewrite E; by left).
  apply list_elem_of_filter in He' as [Hs' He']. apply (Hall e' He').
  by apply (same_trans match_ match_equiv k h).
Qed.

Lemma removed_absent k h e es es' :
  distinct match_ es -> same match_ k h e -> es ≡ₚ e :: es' -> absent match_ k h es'.
Proof.
  intros Hd Hs Hp e' He' Hs'. pose proof (distinct_once k h es Hd) as Hl. rewrite Hp in Hl.
  rewrite filter_cons_True in Hl by done. simpl in Hl.
  destruct (filter (same match_ k h) es') eqn:E; [|simpl in Hl; lia].
  assert (e' ∈ filter (same match_ k h) es') as Hin by (by apply list_elem_of_filter).
  rewrite E in Hin. by apply elem_of_nil in Hin.
Qed.

(** [Remove] terminates, keeps the invariant of the table and removes exactly the entry
    of the key; an absent key leaves the map as it is. *)
Lemma Remove_spec m k h :
  inv match_ m -> k <> NULL ->
  exists m', Remove match_ m k h = Ok m' /\ inv match_ m' /\
    capacity_ m' = capacity_ m /\ absent match_ k h (contents m') /\
    (m' = m \/ exists e, same match_ k h e /\ contents m ≡ₚ e :: contents m').
Proof.
  intros Hi Hk. destruct (Probe_inv match_ match_equiv m k h Hi Hk)
    as (c & e & Ep & Hc & Hst & Hu).
  unfold Remove. rewrite Ep. cbn [mbind outcome_bind]. rewrite (entry_at_Some m c e Hc).
  cbn [mbind outcome_bind]. destruct (Z.eqb_spec (key e) NULL) as [Hn|Hn].
  { exists m. split_and!; [done..| |by left]. by eapply probe_absent. }
  destruct Hst as [|Hs]; [done|]. pose proof Hi as [(b & Ecap & Ht) Ho _].
  pose proof (inv_load _ _ Hi) as Hld. pose proof (inv_free _ _ Hi) as Hf.
  pose proof (ok_length _ _ _ Ht) as Hl.
  destruct (free_entry (map_ m)) as (x & ex & Hx & Hkx); [unfold contents in *; lia|].
  unfold hash_assert. rewrite (proj2 (Z.ltb_lt _ _)) by done. cbn [mbind outcome_bind].
  destruct (remove_loop_spec b m (length (map_ m)) c c x)
    as (m' & c' & E & (e' & He' & Hk') & Ec' & Eo' & Ht' & Hperm); [done| | |].
  { eapply removing_start; [done|by exists e|done..]. }
  { assert (dist (length (map_ m)) c x < length (map_ m))%nat; [|lia].
    apply dist_lt; by eapply lookup_lt_Some. }
  rewrite E. cbn [mbind outcome_bind]. rewrite (entry_at_Some m' c' e' He').
  cbn [mbind outcome_bind].
  assert (contents m ≡ₚ e :: entries (<[c' := mkEntry NULL (value e') (hash e')]> (map_ m')))
    as Hcont.
  { rewrite (entries_free _ c' _ Entry_new) by done. rewrite Hperm.
    by apply entries_clear. }
  assert (occupancy_ m = Z.of_nat (S (length
    (entries (<[c' := mkEntry NULL (value e') (hash e')]> (map_ m')))))) as Ho'
    by (by rewrite Ho, Hcont).
  pose proof (inv_capacity match_ m (proj1 (proj1 (inv_full _ m) Hi))) as Hcap.
  eexists. split; [reflexivity|].
  assert (wrapu 32 (occupancy_ m' - 1) = occupancy_ m - 1) as Ew.
  { rewrite Eo'. apply wrapu_id. split; lia. }
  split; [|split; [done|split; [|right; by exists e]]].
  - split; unfold contents, with_occupancy, with_entry in *; cbn [map_ capacity_ occupancy_];
      rewrite ?Ew, ?Ec'; [exists b; by eauto|lia..].
  - eapply removed_absent; [|exact Hs|exact Hcont]. by eapply distinct_entries.
Qed.

End remove.
