(* ===== verification/HashMapRefine.v ===== *)
(** [SimpleHashMap] with pointer keys refines a finite map: any sequence of operations on
    it terminates without a failed assertion and observes what the finite map gives. *)
From stdpp Require Import base numbers list gmap.
From Stdlib Require Import ZArith Lia.
From S2P Require Import Prelude Utils Circular HashMap HashMapProps HashMapRemove.
Local Open Scope Z_scope.
Local Open Scope cxx_scope.

#[export] Instance SamePointerValue_equiv :
  Equivalence (fun x y => SamePointerValue x y = true).
Proof. split; repeat intros ?; unfold SamePointerValue in *; lia. Qed.

(** ** Operations of a client *)

Inductive op := Put (k v : Z) | Get (k : Z) | Del (k : Z) | Reset.

(** The key of an operation is not [NULL]. *)
Definition op_ok (o : op) : Prop :=
  match o with Put k _ | Get k | Del k => k <> NULL | Reset => True end.

Section client.
Context (hash_of : Z -> Z).

Definition run_op (m : SimpleHashMap) (o : op) : hash_result (SimpleHashMap * option Z) :=
  match o with
  | Put k v =>
      '(m, r) ← Lookup SamePointerValue m k (hash_of k) true;
      match r with
      | None => Undefined
      | Some p =>
          e ← entry_at m p;
          Ok (with_entry m p (mkEntry (key e) v (hash e)), None)
      end
  | Get k =>
      '(m, r) ← Lookup SamePointerValue m k (hash_of k) false;
      match r with
      | None => Ok (m, None)
      | Some p => e ← entry_at m p; Ok (m, Some (value e))
      end
  | Del k => m ← Remove SamePointerValue m k (hash_of k); Ok (m, None)
  | Reset => Ok ((Clear m false).1, None)
  end.

Fixpoint run_ops (m : SimpleHashMap) (os : list op)
    : hash_result (SimpleHashMap * list (option Z)) :=
  match os with
  | [] => Ok (m, [])
  | o :: os =>
      '(m, r) ← run_op m o;
      '(m, rs) ← run_ops m os;
      Ok (m, r :: rs)
  end.

(** ** The specification *)

Definition spec_op (M : gmap Z Z) (o : op) : gmap Z Z * option Z :=
  match o with
  | Put k v => (<[k := v]> M, None)
  | Get k => (M, M !! k)
  | Del k => (delete k M, None)
  | Reset => (∅, None)
  end.

Fixpoint spec_ops (M : gmap Z Z) (os : list op) : gmap Z Z * list (option Z) :=
  match os with
  | [] => (M, [])
  | o :: os =>
      let (M, r) := spec_op M o in
      let (M, rs) := spec_ops M os in
      (M, r :: rs)
  end.

(** ** The refinement *)

Definition entry_of (kv : Z * Z) : Entry := mkEntry kv.1 kv.2 (hash_of kv.1).

Record represents (m : SimpleHashMap) (M : gmap Z Z) : Prop := {
  rep_inv : inv SamePointerValue m;
  rep_contents : contents m ≡ₚ map entry_of (map_to_list M);
}.

Context (hash_u : forall k, is_u 32 (hash_of k)).

Lemma rep_elem m M e :
  represents m M -> e ∈ contents m <-> exists k v, M !! k = Some v /\ e = entry_of (k, v).
Proof.
  intros [_ Hc]. rewrite Hc, list_elem_of_fmap. split.
  - intros ([k v] & -> & Hin). apply elem_of_map_to_list in Hin. by exists k, v.
  - intros (k & v & Hk & ->). exists (k, v). split; [done|]. by apply elem_of_map_to_list.
Qed.

Lemma rep_same m M k e :
  represents m M -> e ∈ contents m -> same SamePointerValue k (hash_of k) e ->
  exists v, M !! k = Some v /\ e = entry_of (k, v).
Proof.
  intros Hr He (_ & _ & Hm). apply (rep_elem m M) in He as (k' & v & Hk & ->); [|done].
  apply Z.eqb_eq in Hm. cbn in Hm. subst k'. by exists v.
Qed.

Lemma rep_absent m M k :
  represents m M -> k <> NULL -> absent SamePointerValue k (hash_of k) (contents m) ->
  M !! k = None.
Proof.
  intros Hr Hk Hab. destruct (M !! k) as [v|] eqn:E; [|done].
  destruct (Hab (entry_of (k, v))); [apply (rep_elem m M); [done|by eauto]|].
  split_and!; [done..|]. apply Z.eqb_refl.
Qed.

Lemma rep_size m M : represents m M -> occupancy_ m = Z.of_nat (size M).
Proof.
  intros [[_ -> _] Hc]. rewrite Hc, length_map. by rewrite length_map_to_list.
Qed.

(** The entries of a map with a key. *)
Lemma entries_of_insert (M : gmap Z Z) k v :
  map entry_of (map_to_list (<[k := v]> M))
  ≡ₚ entry_of (k, v) :: map entry_of (map_to_list (delete k M)).
Proof.
  rewrite <- insert_delete_eq, map_to_list_insert by apply lookup_delete_eq. done.
Qed.

Lemma entries_of_lookup (M : gmap Z Z) k v :
  M !! k = Some v ->
  map entry_of (map_to_list M) ≡ₚ entry_of (k, v) :: map entry_of (map_to_list (delete k M)).
Proof. intros E. rewrite <- entries_of_insert. by rewrite insert_id. Qed.

Lemma rep_add m m' M k v :
  represents m M -> inv SamePointerValue m' -> M !! k = None ->
  contents m' ≡ₚ entry_of (k, v) :: contents m -> represents m' (<[k := v]> M).
Proof.
  intros [_ Hc] Hi Hn Hc'. split; [done|]. rewrite Hc', Hc, entries_of_insert.
  by rewrite delete_id.
Qed.

Lemma rep_value m M p k v0 v :
  represents m M -> k <> NULL -> map_ m !! p = Some (entry_of (k, v0)) ->
  represents (with_entry m p (entry_of (k, v))) (<[k := v]> M).
Proof.
  intros Hr Hk Hp. pose proof Hr as [Hi Hc].
  assert (M !! k = Some v0) as Hm.
  { assert (entry_of (k, v0) ∈ contents m) as He by (by eapply contents_lookup).
    apply (rep_elem m M) in He as (k' & v' & E & Ee); [|done]. by simplify_eq/=. }
  split; [by eapply (inv_value _ _ m p (entry_of (k, v0)))|].
  destruct (entries_update (map_ m) p _ (entry_of (k, v)) Hp) as (es & E1 & E2); [done..|].
  unfold contents in *. cbn. rewrite E2, entries_of_insert. f_equiv.
  rewrite E1, (entries_of_lookup M k v0 Hm) in Hc. by apply Permutation_cons_inv in Hc.
Qed.

Lemma rep_remove m m' M k e :
  represents m M -> inv SamePointerValue m' -> same SamePointerValue k (hash_of k) e ->
  contents m ≡ₚ e :: contents m' -> represents m' (delete k M).
Proof.
  intros Hr Hi Hs Hc. assert (e ∈ contents m) as He by (rewrite Hc; by left).
  destruct (rep_same m M k e Hr He Hs) as (v & Hm & ->). split; [done|].
  destruct Hr as [_ Hc0]. rewrite Hc, (entries_of_lookup M k v Hm) in Hc0.
  by apply Permutation_cons_inv in Hc0.
Qed.

(** Growing stops as soon as the table is large enough. *)
Definition grown (m m' : SimpleHashMap) : Prop :=
  capacity_ m' = capacity_ m \/ 2 * capacity_ m' <= 5 * occupancy_ m'.

Lemma put_ok m M k v :
  represents m M -> capacity_ m < 2 ^ 31 -> k <> NULL ->
  exists m', run_op m (Put k v) = Ok (m', None) /\ represents m' (<[k := v]> M) /\ grown m m'.
Proof.
  intros Hr Hc Hk. destruct (Lookup_insert SamePointerValue _ m k (hash_of k))
    as (m1 & p & e & El & Hi1 & Hp & Hs & Hcase); [apply Hr|done..|].
  assert (exists v0, e = entry_of (k, v0) /\ exists M1, represents m1 M1 /\
    <[k := v]> M1 = <[k := v]> M /\ grown m m1) as (v0 & -> & M1 & Hr1 & EM & Hg).
  { destruct Hcase as [->|(Hab & -> & Hcont & Hcap)].
    - destruct (rep_same m M k e Hr) as (v0 & _ & ->); [|done|].
      { eapply contents_lookup; [done|apply Hs]. }
      exists v0. split; [done|]. exists M. split_and!; [done..|by left].
    - exists NULL. split; [done|]. exists (<[k := NULL]> M). split_and!.
      + eapply rep_add; [done..|by eapply rep_absent|done].
      + apply insert_insert_eq.
      + destruct Hcap as [Hcap|[_ Hcap]]; [by left|by right]. }
  exists (with_entry m1 p (entry_of (k, v))). split_and!.
  - unfold run_op. rewrite El. cbn [mbind outcome_bind]. by rewrite (entry_at_Some m1 p _ Hp).
  - rewrite <- EM. by eapply rep_value.
  - exact Hg.
Qed.

Lemma run_op_ok m M o :
  represents m M -> capacity_ m < 2 ^ 31 -> op_ok o ->
  exists m', run_op m o = Ok (m', (spec_op M o).2) /\ represents m' (spec_op M o).1 /\
    grown m m'.
Proof.
  intros Hr Hc Ho. destruct o as [k v|k|k|].
  - by apply put_ok.
  - destruct (Lookup_find SamePointerValue _ m k (hash_of k)) as (r & El & Hf & Hr');
      [apply Hr|done|].
    exists m. split_and!; [|done|by left]. unfold run_op. rewrite El. cbn [mbind outcome_bind].
    destruct r as [p|]; cbn in Hf, Hr' |- *.
    + destruct (map_ m !! p) as [e|] eqn:Hp; [|by destruct Hr' as [? ?]].
      inversion Hf as [? He Hs|]; subst.
      destruct (rep_same m M k e Hr He Hs) as (v & -> & ->). by rewrite (entry_at_Some m p _ Hp).
    + inversion Hf as [|Hab]. by rewrite (rep_absent m M k).
  - destruct (Remove_spec SamePointerValue _ m k (hash_of k)) as (m' & Er & Hi & Hcap & Hab & Hcase);
      [apply Hr|done|].
    exists m'. unfold run_op. rewrite Er. split_and!; [done| |by left].
    destruct Hcase as [->|(e & Hs & Hcont)]; [|by eapply rep_remove].
    cbn. by rewrite delete_id by (by eapply rep_absent).
  - destruct (Clear_spec SamePointerValue m false) as [Hi Hcont]; [apply Hr|].
    exists (Clear m false).1. split_and!; [done| |by left]. split; [done|].
    rewrite Hcont. cbn. by rewrite map_to_list_empty.
Qed.

Lemma spec_op_size M o : (size (spec_op M o).1 <= S (size M))%nat.
Proof.
  destruct o as [k v|k|k|]; cbn.
  - rewrite map_size_insert. destruct (M !! k); cbn; lia.
  - lia.
  - rewrite map_size_delete. destruct (M !! k); cbn; lia.
  - rewrite map_size_empty. lia.
Qed.

Lemma run_ops_ok n os m M :
  represents m M -> (size M <= n)%nat -> Forall op_ok os ->
  capacity_ m <= 2 ^ 30 \/ 2 * capacity_ m <= 5 * Z.of_nat n ->
  Z.of_nat n + Z.of_nat (length os) <= 2 ^ 29 ->
  exists m', run_ops m os = Ok (m', (spec_ops M os).2) /\ represents m' (spec_ops M os).1.
Proof.
  revert n m M. induction os as [|o os IH]; intros n m M Hr Hsz Hok Hcap Hn; [by exists m|].
  inversion Hok as [|? ? Ho Hos]; subst. cbn [length] in Hn.
  destruct (run_op_ok m M o) as (m1 & E1 & Hr1 & Hg); [done|lia|done|].
  pose proof (spec_op_size M o) as Hsz1. pose proof (rep_size m1 _ Hr1) as Ho1.
  destruct (IH (S n) m1 (spec_op M o).1) as (m' & E' & Hr'); [done|lia|done| |lia|].
  { destruct Hg as [->|Hg]; lia. }
  exists m'. cbn [run_ops spec_ops]. rewrite E1. cbn [mbind outcome_bind].
  destruct (spec_op M o) as [M1 r] eqn:Es. cbn [fst snd] in *. rewrite E'.
  cbn [mbind outcome_bind]. by destruct (spec_ops M1 os).
Qed.

(** C15: a new map of [2 ^ b] entries, used through any sequence of insertions, lookups,
    removals and clearings with keys that are not [NULL], gives the results of a finite map:
    every operation terminates, no assertion fails, however the hashes collide; at the end
    the occupancy is the size of the finite map and at most 80% of the capacity. *)
Theorem hashmap_refines b os :
  0 <= b <= 30 -> Forall op_ok os -> Z.of_nat (length os) <= 2 ^ 29 ->
  exists m m', SimpleHashMap_new (2 ^ b) = Ok m /\
    run_ops m os = Ok (m', (spec_ops ∅ os).2) /\
    occupancy_ m' = Z.of_nat (size (spec_ops ∅ os).1) /\
    5 * occupancy_ m' < 4 * capacity_ m'.
Proof.
  intros Hb Hok Hl. destruct (Initialize_spec SamePointerValue b) as (m & Em & Ec & _ & Ect & Hi);
    [lia|].
  assert (represents m ∅) as Hr by (split; [done|by rewrite Ect, map_to_list_empty]).
  destruct (run_ops_ok 0 os m ∅) as (m' & E' & Hr');
    [done|by rewrite map_size_empty|done| |lia|].
  { left. rewrite Ec. apply Z.pow_le_mono_r; lia. }
  exists m, m'. split_and!; [done..|by apply rep_size|apply Hr'].
Qed.

End client.

(** The hypotheses hold for a map of one entry whose keys all have the same hash. *)
Lemma hashmap_refines_witness :
  exists m m', SimpleHashMap_new (2 ^ 0) = Ok m /\
    run_ops (fun _ => 7) m [Put 1 10; Put 2 20; Put 3 30; Del 1; Get 1; Get 3; Put 2 21; Get 2]
    = Ok (m', [None; None; None; None; None; Some 30; None; Some 21]) /\
    occupancy_ m' = 2 /\ 5 * occupancy_ m' < 4 * capacity_ m'.
Proof.
  apply (hashmap_refines (fun _ => 7) ltac:(intros; split; lia) 0
    [Put 1 10; Put 2 20; Put 3 30; Del 1; Get 1; Get 3; Put 2 21; Get 2]); [lia| |cbn; lia].
  repeat constructor; done.
Defined.

(** ** Iteration *)

(** [for (Entry* p = map.Start(); p != NULL; p = map.Next(p))]: the entries visited. *)
Fixpoint visit (fuel : nat) (m : SimpleHashMap) (p : option nat) : hash_result (list Entry) :=
  match p with
  | None => Ok []
  | Some p =>
      match fuel with
      | O => Fatal Diverges
      | S fuel =>
          e ← entry_at m p;
          next ← Next m (Z.of_nat p);
          es ← visit fuel m next;
          Ok (e :: es)
      end
  end.

Definition iterate (m : SimpleHashMap) : hash_result (list Entry) :=
  p ← Start m; visit (length (map_ m)) m p.

Lemma first_from_None es p : first_from es p = None -> entries es = [].
Proof.
  revert p. induction es as [|e es IH]; intros p; [done|]. cbn [first_from].
  destruct (Z.eqb_spec (key e) NULL); cbn [negb]; [|done]. intros E. unfold entries.
  rewrite filter_cons_False by (by intros []). by eapply IH.
Qed.

Lemma first_from_Some es p q :
  first_from es p = Some q -> exists e, (p <= q)%nat /\ es !! (q - p)%nat = Some e /\
    entries es = e :: entries (drop (S (q - p)) es).
Proof.
  revert p. induction es as [|e es IH]; intros p; [done|]. cbn [first_from].
  destruct (Z.eqb_spec (key e) NULL); cbn [negb].
  - intros (e' & Hle & Hl & He)%IH. exists e'. replace (q - p)%nat with (S (q - S p)) by lia.
    split_and!; [lia|done|]. unfold entries at 1. rewrite filter_cons_False by (by intros []).
    exact He.
  - intros [= <-]. exists e. rewrite Nat.sub_diag. split_and!; [lia|done|].
    unfold entries at 1. by rewrite filter_cons_True.
Qed.

Lemma visit_from m p fuel :
  Z.of_nat (length (map_ m)) = capacity_ m -> (p <= length (map_ m))%nat ->
  (length (map_ m) - p <= fuel)%nat ->
  visit fuel m (first_from (drop p (map_ m)) p) = Ok (entries (drop p (map_ m))).
Proof.
  intros Hc. revert p. induction fuel as [|fuel IH]; intros p Hp Hf;
    (destruct (first_from _ p) as [q|] eqn:E; cbn [visit];
      [|by rewrite (first_from_None _ _ E)]);
    apply first_from_Some in E as (e & Hle & Hl & ->);
    rewrite lookup_drop in Hl; replace (p + (q - p))%nat with q in Hl by lia;
    assert (q < length (map_ m))%nat by (by eapply lookup_lt_Some); [lia|].
  rewrite (entry_at_Some m q e Hl). cbn [mbind outcome_bind]. unfold Next, hash_assert.
  rewrite (proj2 (andb_true_iff _ _)) by lia. cbn [mbind outcome_bind].
  replace (Z.to_nat (Z.of_nat q + 1)) with (S q) by lia. rewrite IH by lia.
  cbn [mbind outcome_bind]. rewrite drop_drop. do 4 f_equal. lia.
Qed.

(** Iterating from [Start] with [Next] visits every entry in use once, in the order of the
    table, and nothing else. *)
Theorem hashmap_iteration m : inv SamePointerValue m -> iterate m = Ok (contents m).
Proof.
  intros [(b & Ec & Ht) _ _]. pose proof (ok_length _ _ _ Ht) as Hl.
  unfold iterate, Start, Next, hash_assert. pose proof (pow2_pos b (proj1 (ok_bits _ _ _ Ht))).
  rewrite (proj2 (andb_true_iff _ _)) by lia. cbn [mbind outcome_bind].
  apply (visit_from m 0); lia.
Qed.
