(* ===== verification/PortSet.v ===== *)
(** [PortSet] of [runtime/vm/port_set.h]: the hash set of ports with open addressing that
    the port map and every message handler keep.

    An entry of the template's type [T] is a port with the other fields [A] of [T], whose
    default values are [blank]. [%] truncates, so that the index of a negative port is
    negative; an access outside the array is [Undefined]. A failed [ASSERT] is
    [Fatal UtilsAssertion]; allocation never fails. An [Iterator] carries the counter with
    which a debug build detects that the set was modified. *)
From stdpp Require Import base numbers list.
From Stdlib Require Import ZArith Lia.
From S2P Require Import Prelude Utils.
Local Open Scope Z_scope.
Local Open Scope cxx_scope.

Abbreviation result := (outcome utils_error).

Definition ILLEGAL_PORT : Z := 0.
Definition kFreePort : Z := 0.
Definition kDeletedPort : Z := 3.
Definition kInitialCapacity : Z := 8.

Record Entry (A : Type) := mkEntry { port : Z; fields : A }.
Arguments mkEntry {A}.
Arguments port {A}.
Arguments fields {A}.

Record PortSet (A : Type) := mkPortSet {
  map_ : list (Entry A);
  capacity_ : Z;
  used_ : Z;
  deleted_ : Z;
  dirty_counter_ : Z;
}.
Arguments mkPortSet {A}.
Arguments map_ {A}.
Arguments capacity_ {A}.
Arguments used_ {A}.
Arguments deleted_ {A}.
Arguments dirty_counter_ {A}.

Record Iterator := mkIterator { index_ : Z; it_dirty_counter_ : Z }.

Section port_set.
Context {A : Type} (blank : A).
Implicit Type m : PortSet A.

(** [T()]. *)
Definition Entry_new : Entry A := mkEntry kFreePort blank.

(** [map_[index]]. *)
Definition slot (map : list (Entry A)) (index : Z) : result (Entry A) :=
  if index <? 0 then Undefined
  else match map !! Z.to_nat index with Some e => Ok e | None => Undefined end.

Definition set_slot (map : list (Entry A)) (index : Z) (e : Entry A) : result (list (Entry A)) :=
  _ ← slot map index; Ok (<[Z.to_nat index := e]> map).

Definition is_vacant (port : Z) : bool := (port =? kFreePort) || (port =? kDeletedPort).

Definition PortSet_new : PortSet A :=
  mkPortSet (replicate (Z.to_nat kInitialCapacity) Entry_new) kInitialCapacity 0 0 0.

Definition IsEmpty m : bool := used_ m =? 0.

(** ** Iterators *)

Definition Iterator_at m (index : Z) : Iterator := mkIterator index (dirty_counter_ m).

Definition WasModified m (it : Iterator) : bool := negb (it_dirty_counter_ it =? dirty_counter_ m).

(** [operator*]. *)
Definition deref m (it : Iterator) : result (Entry A) :=
  _ ← utils_assert ((0 <=? index_ it) && (index_ it <? capacity_ m));
  _ ← utils_assert (negb (WasModified m it));
  slot (map_ m) (index_ it).

(** [operator==] of two iterators of this set. *)
Definition it_equal m (it other : Iterator) : result bool :=
  _ ← utils_assert (negb (WasModified m it));
  Ok (index_ it =? index_ other).

(** The first occupied slot from [index] on: the loops of [begin] and [operator++]. *)
Fixpoint occupied_from (fuel : nat) m (index : Z) : result Z :=
  if capacity_ m <=? index then Ok index
  else
    e ← slot (map_ m) index;
    if is_vacant (port e) then
      match fuel with
      | O => Fatal UtilsFuel
      | S fuel => occupied_from fuel m (index + 1)
      end
    else Ok index.

(** [operator++]. *)
Definition advance m (it : Iterator) : result Iterator :=
  _ ← utils_assert (negb (WasModified m it));
  index ← occupied_from (length (map_ m)) m (index_ it + 1);
  Ok (mkIterator index (it_dirty_counter_ it)).

Definition begin m : result Iterator :=
  index ← occupied_from (length (map_ m)) m 0; Ok (Iterator_at m index).

Definition end_ m : Iterator := Iterator_at m (capacity_ m).

(** [Iterator::Delete]. *)
Definition Delete m (it : Iterator) : result (PortSet A) :=
  _ ← utils_assert (negb (WasModified m it));
  map ← set_slot (map_ m) (index_ it) (mkEntry kDeletedPort blank);
  Ok (mkPortSet map (capacity_ m) (used_ m - 1) (deleted_ m + 1) (dirty_counter_ m)).

(** ** Lookup *)

Fixpoint find_loop (fuel : nat) m (p start_index index : Z) (entry : Entry A) : result Z :=
  if port entry =? kFreePort then Ok (-1)
  else if port entry =? p then Ok index
  else
    match fuel with
    | O => Fatal UtilsFuel
    | S fuel =>
        let index := Z.rem (index + 1) (capacity_ m) in
        _ ← utils_assert (negb (index =? start_index));
        entry ← slot (map_ m) index;
        find_loop fuel m p start_index index entry
    end.

Definition FindIndexOfPort m (p : Z) : result Z :=
  if p =? ILLEGAL_PORT then Ok (-1)
  else
    let index := Z.rem p (capacity_ m) in
    entry ← slot (map_ m) index;
    find_loop (length (map_ m)) m p index index entry.

Definition TryLookup m (p : Z) : result Iterator :=
  index ← FindIndexOfPort m p;
  Ok (if 0 <=? index then Iterator_at m index else Iterator_at m (capacity_ m)).

Definition Contains m (p : Z) : result bool :=
  index ← FindIndexOfPort m p; Ok (0 <=? index).

(** ** Insertion *)

(** [while (new_ports[new_index].port != 0)]. *)
Fixpoint free_loop (fuel : nat) (map : list (Entry A)) (capacity index : Z) : result Z :=
  e ← slot map index;
  if negb (port e =? 0) then
    match fuel with
    | O => Fatal UtilsFuel
    | S fuel => free_loop fuel map capacity (Z.rem (index + 1) capacity)
    end
  else Ok index.

(** The loop of [Rehash] over the entries of the set. *)
Fixpoint rehash_loop (fuel : nat) m (it : Iterator) (new_capacity : Z) (new_ports : list (Entry A))
    : result (list (Entry A)) :=
  at_end ← it_equal m it (end_ m);
  if (at_end : bool) then Ok new_ports
  else
    match fuel with
    | O => Fatal UtilsFuel
    | S fuel =>
        entry ← deref m it;
        new_index ← free_loop (length new_ports) new_ports new_capacity (Z.rem (port entry) new_capacity);
        new_ports ← set_slot new_ports new_index entry;
        it ← advance m it;
        rehash_loop fuel m it new_capacity new_ports
    end.

Definition Rehash m (new_capacity : Z) : result (PortSet A) :=
  let new_ports := replicate (Z.to_nat new_capacity) Entry_new in
  it ← begin m;
  new_ports ← rehash_loop (length (map_ m)) m it new_capacity new_ports;
  Ok (mkPortSet new_ports new_capacity (used_ m) 0 (dirty_counter_ m + 1)).

Definition MaintainInvariants m : result (PortSet A) :=
  let empty := capacity_ m - used_ m - deleted_ m in
  if Z.quot (capacity_ m) 4 * 3 <? used_ m then Rehash m (capacity_ m * 2)
  else if empty <? deleted_ m then Rehash m (capacity_ m)
  else Ok m.

Definition Rebalance m : result (PortSet A) := MaintainInvariants m.

(** The search of [Insert] for a free or deleted slot. *)
Fixpoint vacant_loop (fuel : nat) m (index : Z) : result Z :=
  cur ← slot (map_ m) index;
  if negb (is_vacant (port cur)) then
    match fuel with
    | O => Fatal UtilsFuel
    | S fuel => vacant_loop fuel m (Z.rem (index + 1) (capacity_ m))
    end
  else Ok index.

Definition Insert m (entry : Entry A) : result (PortSet A) :=
  found ← FindIndexOfPort m (port entry);
  _ ← utils_assert (found <? 0);
  index ← vacant_loop (length (map_ m)) m (Z.rem (port entry) (capacity_ m));
  cur ← slot (map_ m) index;
  _ ← utils_assert (is_vacant (port cur));
  let deleted := if port cur =? kDeletedPort then deleted_ m - 1 else deleted_ m in
  map ← set_slot (map_ m) index entry;
  let m := mkPortSet map (capacity_ m) (used_ m) deleted (dirty_counter_ m) in
  found ← FindIndexOfPort m (port entry);
  _ ← utils_assert (0 <=? found);
  m ← MaintainInvariants (mkPortSet (map_ m) (capacity_ m) (used_ m + 1) (deleted_ m) (dirty_counter_ m));
  Ok (mkPortSet (map_ m) (capacity_ m) (used_ m) (deleted_ m) (dirty_counter_ m + 1)).

End port_set.
