(* ===== verification/PortSetProps.v ===== *)
(** [PortSet]: the invariant of its table, that every search ends, and what lookup, insertion,
    deletion and rehashing do to the entries. *)
From stdpp Require Import base numbers list sorting.
From Stdlib Require Import ZArith Lia.
From S2P Require Import Prelude Utils Circular PortSet.
Local Open Scope Z_scope.
Local Open Scope cxx_scope.

Section port_set.
Context {A : Type} (blank : A).
Implicit Type t : list (Entry A).
Implicit Type m : PortSet A.

(** ** Tables *)

Definition vacant (e : Entry A) : Prop := is_vacant (port e) = true.

#[local] Instance vacant_dec e : Decision (vacant e).
Proof. apply _. Defined.

Lemma vacant_iff e : vacant e <-> port e = 0 \/ port e = 3.
Proof. unfold vacant, is_vacant, kFreePort, kDeletedPort. lia. Qed.

Definition occupied t : list (Entry A) := filter (fun e => ~ vacant e) t.
Definition dead t : list (Entry A) := filter (fun e => port e = kDeletedPort) t.
Definition contents m : list (Entry A) := occupied (map_ m).

(** The slot of index [j] is not free: searches continue past it. *)
Definition busy t (j : nat) : Prop := exists e, t !! j = Some e /\ port e <> 0.

(** Where the search for a port starts. *)
Definition home (n : nat) (p : Z) : nat := Z.to_nat (p mod Z.of_nat n).

Record table_ok t : Prop := {
  ok_length : exists k, length t = (8 * k)%nat /\ (0 < k)%nat;
  ok_port i e : t !! i = Some e -> ~ vacant e -> 0 <= port e;
  ok_path i e : t !! i = Some e -> ~ vacant e ->
    forall j, (j < length t)%nat ->
      (dist (length t) (home (length t) (port e)) j < dist (length t) (home (length t) (port e)) i)%nat ->
      busy t j;
  ok_unique i j e e' : t !! i = Some e -> t !! j = Some e' -> ~ vacant e -> port e' = port e -> i = j;
}.

(** The counters are right. *)
Record counted m : Prop := {
  cn_table : table_ok (map_ m);
  cn_capacity : capacity_ m = Z.of_nat (length (map_ m));
  cn_used : used_ m = Z.of_nat (length (contents m));
  cn_deleted : deleted_ m = Z.of_nat (length (dead (map_ m)));
}.

(** The invariant between a deletion and the next [Rebalance]: there is a free slot. *)
Record inv m : Prop := {
  inv_table : table_ok (map_ m);
  inv_capacity : capacity_ m = Z.of_nat (length (map_ m));
  inv_used : used_ m = Z.of_nat (length (contents m));
  inv_deleted : deleted_ m = Z.of_nat (length (dead (map_ m)));
  inv_free : used_ m + deleted_ m < capacity_ m;
}.

Lemma inv_counted m : inv m <-> counted m /\ used_ m + deleted_ m < capacity_ m.
Proof. split; [intros []; split; [by constructor|done]|intros [[] ?]; by constructor]. Qed.

(** What [MaintainInvariants] establishes. *)
Definition balanced m : Prop :=
  inv m /\ 4 * used_ m <= 3 * capacity_ m /\ 2 * deleted_ m <= capacity_ m - used_ m.

(** What the operations need: there is room for one more entry. *)
Definition stable m : Prop := inv m /\ 4 * used_ m <= 3 * capacity_ m.

Lemma balanced_stable m : balanced m -> stable m.
Proof. intros (? & ? & _). done. Qed.

(** ** Counting *)

(** Replacing one element changes a filtered list at that element only. *)
Lemma filter_replace (P : Entry A -> Prop) `{!forall e, Decision (P e)} t p e e' :
  t !! p = Some e ->
  exists l, base.filter P t ≡ₚ (if decide (P e) then e :: l else l) /\
    base.filter P (<[p := e']> t) ≡ₚ (if decide (P e') then e' :: l else l).
Proof.
  intros E. destruct (split_at t p e E) as [Et Ei].
  exists (base.filter P (take p t) ++ base.filter P (drop (S p) t)).
  rewrite Ei, Et at 1. rewrite !filter_app, !filter_cons.
  split; case_decide; by rewrite ?Permutation_middle.
Qed.

Lemma free_slot t :
  (length (occupied t) + length (dead t) < length t)%nat -> exists x e, t !! x = Some e /\ port e = 0.
Proof.
  induction t as [|e t IH]; [simpl; lia|]. unfold occupied, dead in *. rewrite !filter_cons.
  intros HL. destruct (decide (port e = 0)) as [E|E]; [by exists 0%nat, e|].
  destruct IH as (x & e' & Hx & He'); [|by exists (S x), e'].
  repeat case_decide; simpl in HL; try lia.
  rewrite vacant_iff in *. unfold kDeletedPort in *. tauto.
Qed.

Lemma occupied_lookup t e : e ∈ occupied t <-> ~ vacant e /\ exists i, t !! i = Some e.
Proof. unfold occupied. rewrite list_elem_of_filter, list_elem_of_lookup. done. Qed.

(** ** Indices *)

Lemma port_home_lt n p : (0 < n)%nat -> (home n p < n)%nat.
Proof. intros Hn. unfold home. pose proof (Z.mod_pos_bound p (Z.of_nat n)). lia. Qed.

Lemma rem_home n p : 0 <= p -> (0 < n)%nat -> Z.rem p (Z.of_nat n) = Z.of_nat (home n p).
Proof.
  intros Hp Hn. rewrite Z.rem_mod_nonneg by lia. unfold home.
  pose proof (Z.mod_pos_bound p (Z.of_nat n)). lia.
Qed.

Lemma rem_succ n i : (i < n)%nat -> Z.rem (Z.of_nat i + 1) (Z.of_nat n) = Z.of_nat (succ n i).
Proof.
  intros Hi. rewrite Z.rem_mod_nonneg by lia. unfold succ. destruct (Nat.eqb_spec (i + 1) n) as [E|E].
  - replace (Z.of_nat i + 1) with (Z.of_nat n) by lia. by rewrite Z.mod_same by lia.
  - rewrite Z.mod_small by lia. lia.
Qed.

Lemma slot_lookup t i e : t !! i = Some e -> slot t (Z.of_nat i) = Ok e.
Proof. intros E. unfold slot. rewrite (proj2 (Z.ltb_ge _ _)) by lia. by rewrite Nat2Z.id, E. Qed.

Lemma set_slot_ok t i e : (i < length t)%nat -> set_slot t (Z.of_nat i) e = Ok (<[i := e]> t).
Proof.
  intros Hi. destruct (lookup_lt_is_Some_2 t i Hi) as [e0 E]. unfold set_slot.
  rewrite (slot_lookup t i e0 E), Ok_bind. by rewrite Nat2Z.id.
Qed.

Lemma ok_nonempty t : table_ok t -> (0 < length t)%nat.
Proof. intros [(k & ? & ?) _ _ _]. lia. Qed.

(** ** Searching *)

(** The first slot from [s] on at which a search ends. *)
Definition first (P : Entry A -> Prop) t (s q : nat) : Prop :=
  (exists e, t !! q = Some e /\ P e) /\
  forall j e, t !! j = Some e -> (dist (length t) s j < dist (length t) s q)%nat -> ~ P e.

#[local] Instance from_option_dec (P : Entry A -> Prop) `{!forall e, Decision (P e)} o :
  Decision (from_option P False o).
Proof. destruct o; apply _. Defined.

Lemma first_exists (P : Entry A -> Prop) `{!forall e, Decision (P e)} t s x e :
  (s < length t)%nat -> t !! x = Some e -> P e -> exists q, (q < length t)%nat /\ first P t s q.
Proof.
  intros Hs Hx HP.
  destruct (first_stop (fun i => from_option P False (t !! i)) (length t) s x)
    as (q & Hq & HPq & _ & HB); [done|by eapply lookup_lt_Some|by rewrite Hx|].
  exists q. split; [done|]. split.
  - destruct (t !! q) as [e'|]; [by exists e'|done].
  - intros j e' Hj Hd HPe. apply (HB j); [by eapply lookup_lt_Some|done|by rewrite Hj].
Qed.

(** A step of a search that has not reached [q]. *)
Lemma search_step n s i q :
  (s < n -> i < n -> q < n -> dist n s i <= dist n s q -> i <> q ->
   succ n i < n /\ succ n i <> s /\ dist n s (succ n i) <= dist n s q /\
   dist n s q - dist n s i = S (dist n s q - dist n s (succ n i)))%nat.
Proof.
  intros Hs Hi Hq Hd Hne. pose proof (succ_lt n i Hi).
  assert (dist n s i <> dist n s q) by (intros E; by apply (dist_inj n s) in E).
  assert (succ n i <> s) as Hsi.
  { intros E. pose proof (dist_lt n s q Hs Hq). unfold succ in E.
    destruct (Nat.eqb_spec (i + 1) n); circ. }
  pose proof (dist_succ_r n s i Hs Hi Hsi). lia.
Qed.

Definition is_stop (p : Z) (e : Entry A) : Prop := port e = 0 \/ port e = p.

#[local] Instance is_stop_dec p e : Decision (is_stop p e).
Proof. apply _. Defined.

Lemma find_loop_ok m p s q eq fuel : forall i e,
  capacity_ m = Z.of_nat (length (map_ m)) ->
  (s < length (map_ m))%nat -> first (is_stop p) (map_ m) s q -> map_ m !! q = Some eq ->
  map_ m !! i = Some e -> (dist (length (map_ m)) s i <= dist (length (map_ m)) s q)%nat ->
  (dist (length (map_ m)) s q - dist (length (map_ m)) s i <= fuel)%nat ->
  find_loop fuel m p (Z.of_nat s) (Z.of_nat i) e =
    Ok (if port eq =? 0 then -1 else Z.of_nat q).
Proof.
  induction fuel as [|fuel IH]; intros i e HC Hs HQ Hq Hi Hd HF;
    pose proof (lookup_lt_Some _ _ _ Hi) as Li; pose proof (lookup_lt_Some _ _ _ Hq) as Lq;
    (destruct (decide (i = q)) as [->|N];
      [replace eq with e in * by congruence; cbn [find_loop];
       destruct HQ as [(e' & He' & [HP|HP]) _]; replace e' with e in * by congruence;
       [by rewrite HP|]; destruct (Z.eqb_spec (port e) 0) as [E0|E0];
       [by rewrite E0|]; unfold kFreePort; rewrite (proj2 (Z.eqb_neq _ _) E0), HP, Z.eqb_refl; done|]).
  - destruct N. apply (dist_inj (length (map_ m)) s); [done..|lia].
  - destruct (search_step (length (map_ m)) s i q) as (L & NS & D1 & D2); [done..|].
    assert (HN : ~ is_stop p e) by (apply (proj2 HQ i e Hi); lia). unfold is_stop in HN.
    cbn [find_loop]. unfold kFreePort. rewrite (proj2 (Z.eqb_neq (port e) 0)) by tauto.
    rewrite (proj2 (Z.eqb_neq (port e) p)) by tauto. rewrite HC, rem_succ by done.
    rewrite (proj2 (Z.eqb_neq _ _)) by lia. cbn [negb utils_assert]. rewrite Ok_bind.
    destruct (lookup_lt_is_Some_2 (map_ m) _ L) as [e' He']. rewrite (slot_lookup _ _ _ He'), Ok_bind.
    apply IH; [done..|lia].
Qed.

(** [FindIndexOfPort], where [q] is the first stop from the home of the port. *)
Lemma FindIndexOfPort_first m p q eq :
  table_ok (map_ m) -> capacity_ m = Z.of_nat (length (map_ m)) -> 0 < p ->
  first (is_stop p) (map_ m) (home (length (map_ m)) p) q -> map_ m !! q = Some eq ->
  FindIndexOfPort m p = Ok (if port eq =? 0 then -1 else Z.of_nat q).
Proof.
  intros HT HC Hp HQ Hq. pose proof (ok_nonempty _ HT) as Hn. unfold FindIndexOfPort, ILLEGAL_PORT.
  rewrite (proj2 (Z.eqb_neq p 0)) by lia. rewrite HC, rem_home by lia.
  pose proof (port_home_lt (length (map_ m)) p Hn) as Hh.
  destruct (lookup_lt_is_Some_2 (map_ m) _ Hh) as [e He]. rewrite (slot_lookup _ _ _ He), Ok_bind.
  apply find_loop_ok; try done; rewrite dist_self; [lia|].
  pose proof (dist_lt (length (map_ m)) (home (length (map_ m)) p) q Hh (lookup_lt_Some _ _ _ Hq)). lia.
Qed.

Lemma valid_not_vacant e p : port e = p -> 0 < p -> p <> 3 -> ~ vacant e.
Proof. rewrite vacant_iff. lia. Qed.

Lemma FindIndexOfPort_present m i e :
  table_ok (map_ m) -> capacity_ m = Z.of_nat (length (map_ m)) ->
  map_ m !! i = Some e -> ~ vacant e -> FindIndexOfPort m (port e) = Ok (Z.of_nat i).
Proof.
  intros HT HC Hi HV. pose proof (ok_nonempty _ HT) as Hn.
  assert (0 < port e) as Hp.
  { pose proof (ok_port _ HT i e Hi HV). rewrite vacant_iff in HV. lia. }
  pose proof (port_home_lt (length (map_ m)) (port e) Hn) as Hh.
  destruct (first_exists (is_stop (port e)) (map_ m) _ i e Hh Hi) as (q & Lq & HQ); [by right|].
  destruct (lookup_lt_is_Some_2 _ _ Lq) as [eq Hq].
  rewrite (FindIndexOfPort_first m (port e) q eq) by done.
  assert (port eq = port e) as EP.
  { destruct HQ as [(e' & He' & HS) HB]. replace e' with eq in * by congruence.
    destruct HS as [H0|]; [|done]. destruct (decide (q = i)) as [->|N]; [congruence|].
    assert (dist (length (map_ m)) (home (length (map_ m)) (port e)) q <
            dist (length (map_ m)) (home (length (map_ m)) (port e)) i)%nat as HD.
    { pose proof (lookup_lt_Some _ _ _ Hi) as Li. apply Nat.nle_gt. intros L.
      destruct (decide (dist (length (map_ m)) (home (length (map_ m)) (port e)) i =
        dist (length (map_ m)) (home (length (map_ m)) (port e)) q)) as [E|E].
      - apply (dist_inj (length (map_ m))) in E; [by subst|done..].
      - apply (HB i e Hi); [lia|by right]. }
    destruct (ok_path _ HT i e Hi HV q Lq HD) as (e'' & H1 & H2). congruence. }
  rewrite EP, (proj2 (Z.eqb_neq _ _)) by lia.
  by rewrite (ok_unique _ HT i q e eq Hi Hq HV EP).
Qed.

Lemma inv_free_slot m : inv m -> exists x e, map_ m !! x = Some e /\ port e = 0.
Proof.
  intros [HT HC HU HD HF]. apply free_slot. unfold contents in *. lia.
Qed.

Lemma FindIndexOfPort_absent m p :
  inv m -> 0 < p -> (forall i e, map_ m !! i = Some e -> port e <> p) -> FindIndexOfPort m p = Ok (-1).
Proof.
  intros HI Hp HA. pose proof (inv_table _ HI) as HT. pose proof (ok_nonempty _ HT) as Hn.
  destruct (inv_free_slot m HI) as (x & ex & Hx & H0).
  destruct (first_exists (is_stop p) (map_ m) (home (length (map_ m)) p) x ex) as (q & Lq & HQ);
    [by apply port_home_lt|done|by left|].
  destruct (lookup_lt_is_Some_2 _ _ Lq) as [eq Hq].
  rewrite (FindIndexOfPort_first m p q eq) by (done || apply HI).
  destruct HQ as [(e' & He' & [HS|HS]) _]; replace e' with eq in * by congruence; [by rewrite HS|].
  by destruct (HA q eq Hq).
Qed.

(** The loops that look for a slot to fill. *)
Lemma vacant_loop_ok m s q fuel : forall i,
  capacity_ m = Z.of_nat (length (map_ m)) -> (s < length (map_ m))%nat ->
  first vacant (map_ m) s q -> (q < length (map_ m))%nat -> (i < length (map_ m))%nat ->
  (dist (length (map_ m)) s i <= dist (length (map_ m)) s q)%nat ->
  (dist (length (map_ m)) s q - dist (length (map_ m)) s i <= fuel)%nat ->
  vacant_loop fuel m (Z.of_nat i) = Ok (Z.of_nat q).
Proof.
  induction fuel as [|fuel IH]; intros i HC Hs HQ Lq Li Hd HF;
    destruct (lookup_lt_is_Some_2 _ _ Li) as [e Hi]; cbn [vacant_loop];
    rewrite (slot_lookup _ _ _ Hi), Ok_bind;
    (destruct (decide (i = q)) as [->|N];
      [destruct HQ as [(e' & He' & HP) _]; replace e' with e in HP by congruence; by rewrite HP|]).
  - destruct N. apply (dist_inj (length (map_ m)) s); [done..|lia].
  - destruct (search_step (length (map_ m)) s i q) as (L & NS & D1 & D2); [done..|].
    assert (HN : ~ vacant e) by (apply (proj2 HQ i e Hi); lia).
    unfold vacant in HN. apply not_true_is_false in HN. rewrite HN, HC, rem_succ by done. cbn [negb].
    apply IH; [done..|lia].
Qed.

Lemma free_loop_ok t s q fuel : forall i,
  (s < length t)%nat -> first (fun e => port e = 0) t s q -> (q < length t)%nat -> (i < length t)%nat ->
  (dist (length t) s i <= dist (length t) s q)%nat ->
  (dist (length t) s q - dist (length t) s i <= fuel)%nat ->
  free_loop fuel t (Z.of_nat (length t)) (Z.of_nat i) = Ok (Z.of_nat q).
Proof.
  induction fuel as [|fuel IH]; intros i Hs HQ Lq Li Hd HF;
    destruct (lookup_lt_is_Some_2 _ _ Li) as [e Hi]; cbn [free_loop];
    rewrite (slot_lookup _ _ _ Hi), Ok_bind;
    (destruct (decide (i = q)) as [->|N];
      [destruct HQ as [(e' & He' & HP) _]; replace e' with e in HP by congruence; by rewrite HP|]).
  - destruct N. apply (dist_inj (length t) s); [done..|lia].
  - destruct (search_step (length t) s i q) as (L & NS & D1 & D2); [done..|].
    assert (HN : port e <> 0) by (apply (proj2 HQ i e Hi); lia).
    rewrite (proj2 (Z.eqb_neq _ _) HN), rem_succ by done. cbn [negb]. apply IH; [done..|lia].
Qed.

(** ** Filling and clearing slots *)

Lemma busy_update t p e j : port e <> 0 -> (j < length t)%nat -> busy t j \/ j = p -> busy (<[p := e]> t) j.
Proof.
  intros He Hj HB. destruct (decide (j = p)) as [->|N].
  - exists e. by rewrite list_lookup_insert_eq.
  - destruct HB as [(e' & H1 & H2)|]; [|done]. exists e'. by rewrite list_lookup_insert_ne by congruence.
Qed.

(** A vacant slot [q] of the search for a port that is absent takes its entry. *)
Lemma table_put t q e0 e :
  table_ok t -> t !! q = Some e0 -> 0 < port e -> ~ vacant e ->
  (forall i e', t !! i = Some e' -> port e' <> port e) ->
  (forall j, (j < length t)%nat ->
    (dist (length t) (home (length t) (port e)) j < dist (length t) (home (length t) (port e)) q)%nat -> busy t j) ->
  table_ok (<[q := e]> t).
Proof.
  intros HT Hq Hp HV HA HB. constructor; rewrite ?length_insert.
  - apply HT.
  - intros i e' [[-> ->]|[N H]]%lookup_update HV'; [lia|by apply (ok_port _ HT i)].
  - intros i e' HE HV' j Hj HD. apply busy_update; [lia|done|]. left.
    destruct (lookup_update _ _ _ _ _ HE) as [[-> ->]|[N H]]; [by apply HB|].
    by apply (ok_path _ HT i e').
  - intros i j e1 e2 H1 H2 HV1 EP.
    destruct (lookup_update _ _ _ _ _ H1) as [[-> ->]|[N1 H1']], (lookup_update _ _ _ _ _ H2) as [[-> ->]|[N2 H2']].
    + done.
    + by destruct (HA j e2).
    + by destruct (HA i e1).
    + by apply (ok_unique _ HT i j e1 e2).
Qed.

(** The fields of an entry change. *)
Lemma table_modify t i e e' :
  table_ok t -> t !! i = Some e -> ~ vacant e -> port e' = port e -> table_ok (<[i := e']> t).
Proof.
  intros HT Hi HV EP. assert (HV' : ~ vacant e') by (rewrite vacant_iff in *; by rewrite EP).
  assert (LU : forall j e1, <[i := e']> t !! j = Some e1 -> ~ vacant e1 ->
    exists e2, t !! j = Some e2 /\ ~ vacant e2 /\ port e2 = port e1).
  { intros j e1 [[-> ->]|[_ H]]%lookup_update HV1; eauto. }
  rewrite vacant_iff in HV'. constructor; rewrite ?length_insert.
  - apply HT.
  - intros j e1 H1 HV1. destruct (LU j e1 H1 HV1) as (e2 & H2 & HV2 & <-). by apply (ok_port _ HT j).
  - intros j e1 H1 HV1 k Hk Hd. destruct (LU j e1 H1 HV1) as (e2 & H2 & HV2 & E2). apply busy_update; [tauto|done|]. left.
    rewrite <- E2 in Hd. by apply (ok_path _ HT j e2).
  - intros j k e1 e2 H1 H2 HV1 E12. destruct (LU j e1 H1 HV1) as (e1' & H1' & HV1' & E1).
    destruct (LU k e2 H2) as (e2' & H2' & HV2' & E2); [rewrite vacant_iff in *; by rewrite E12|].
    apply (ok_unique _ HT j k e1' e2'); [done..|congruence].
Qed.

Lemma modify_counts t i e e' :
  t !! i = Some e -> ~ vacant e -> port e' = port e ->
  length (dead (<[i := e']> t)) = length (dead t) /\
  exists l, occupied t ≡ₚ e :: l /\ occupied (<[i := e']> t) ≡ₚ e' :: l.
Proof.
  intros Hi HV EP. assert (HV' : ~ vacant e') by (rewrite vacant_iff in *; by rewrite EP). split.
  - destruct (filter_replace (fun e => port e = kDeletedPort) t i e e' Hi) as (l & E1 & E2).
    unfold dead. rewrite E1, E2. rewrite vacant_iff in *. by rewrite !decide_False by (unfold kDeletedPort; tauto).
  - destruct (filter_replace (fun e => ~ vacant e) t i e e' Hi) as (l & E1 & E2).
    exists l. unfold occupied. rewrite E1, E2. by rewrite !decide_True by done.
Qed.

Definition tombstone : Entry A := mkEntry kDeletedPort blank.

Lemma tombstone_vacant : vacant tombstone.
Proof. done. Qed.

Lemma table_delete t i e : table_ok t -> t !! i = Some e -> table_ok (<[i := tombstone]> t).
Proof.
  intros HT Hi. constructor; rewrite ?length_insert.
  - apply HT.
  - intros j e' [[-> ->]|[N H]]%lookup_update HV'; [by destruct HV'|by apply (ok_port _ HT j)].
  - intros k e' HE HV' j Hj HD. apply busy_update; [done|done|]. left.
    destruct (lookup_update _ _ _ _ _ HE) as [[-> ->]|[N H]]; [by destruct HV'|].
    by apply (ok_path _ HT k e').
  - intros k j e1 e2 H1 H2 HV1 EP.
    destruct (lookup_update _ _ _ _ _ H1) as [[-> ->]|[N1 H1']]; [by destruct HV1|].
    destruct (lookup_update _ _ _ _ _ H2) as [[-> ->]|[N2 H2']].
    + destruct HV1. rewrite vacant_iff. right. by rewrite <- EP.
    + by apply (ok_unique _ HT k j e1 e2).
Qed.

Lemma occupied_put t q e0 e :
  t !! q = Some e0 -> vacant e0 -> ~ vacant e -> occupied (<[q := e]> t) ≡ₚ e :: occupied t.
Proof.
  intros Hq H0 HV. destruct (filter_replace (fun e => ~ vacant e) t q e0 e Hq) as (l & E1 & E2).
  unfold occupied. rewrite E1, E2. by rewrite decide_True, decide_False by tauto.
Qed.

Lemma occupied_delete t i e :
  t !! i = Some e -> ~ vacant e -> occupied t ≡ₚ e :: occupied (<[i := tombstone]> t).
Proof.
  intros Hq HV. destruct (filter_replace (fun e => ~ vacant e) t i e tombstone Hq) as (l & E1 & E2).
  unfold occupied. rewrite E1, E2. rewrite decide_True, decide_False; [done| |done].
  intros HN. by apply HN.
Qed.

Lemma dead_put t q e0 e :
  t !! q = Some e0 -> ~ vacant e ->
  Z.of_nat (length (dead (<[q := e]> t))) =
    Z.of_nat (length (dead t)) - (if port e0 =? kDeletedPort then 1 else 0).
Proof.
  intros Hq HV. destruct (filter_replace (fun e => port e = kDeletedPort) t q e0 e Hq) as (l & E1 & E2).
  unfold dead. rewrite E1, E2. rewrite vacant_iff in HV. rewrite (decide_False (P := port e = _)) by (unfold kDeletedPort; tauto).
  destruct (Z.eqb_spec (port e0) kDeletedPort); [rewrite decide_True by done; simpl; lia|].
  rewrite decide_False by done. lia.
Qed.

Lemma dead_delete t i e :
  t !! i = Some e -> ~ vacant e -> length (dead (<[i := tombstone]> t)) = S (length (dead t)).
Proof.
  intros Hq HV. destruct (filter_replace (fun e => port e = kDeletedPort) t i e tombstone Hq) as (l & E1 & E2).
  unfold dead. rewrite E1, E2. rewrite vacant_iff in HV. rewrite (decide_False (P := port e = _)) by (unfold kDeletedPort; tauto).
  by rewrite decide_True.
Qed.

(** ** Iteration *)

Lemma occupied_drop_vacant t i e : t !! i = Some e -> vacant e -> occupied (drop i t) = occupied (drop (S i) t).
Proof.
  intros Hi HV. rewrite (drop_S t e i) by done. unfold occupied. by rewrite filter_cons_False by tauto.
Qed.

(** The next occupied slot. *)
Lemma occupied_from_ok m fuel : forall i,
  capacity_ m = Z.of_nat (length (map_ m)) -> (i <= length (map_ m))%nat -> (length (map_ m) - i <= fuel)%nat ->
  exists j, occupied_from fuel m (Z.of_nat i) = Ok (Z.of_nat j) /\ (i <= j <= length (map_ m))%nat /\
    occupied (drop i (map_ m)) = occupied (drop j (map_ m)) /\
    (forall k e, (i <= k < j)%nat -> map_ m !! k = Some e -> vacant e) /\
    ((j < length (map_ m))%nat -> exists e, map_ m !! j = Some e /\ ~ vacant e).
Proof.
  induction fuel as [|fuel IH]; intros i HC Hi HF; cbn [occupied_from];
    (destruct (Z.leb_spec (capacity_ m) (Z.of_nat i));
      [exists i; split_and!; [done|lia|lia|done|intros; lia|intros; lia]|]).
  - lia.
  - destruct (lookup_lt_is_Some_2 (map_ m) i) as [e He]; [lia|]. rewrite (slot_lookup _ _ _ He), Ok_bind.
    destruct (is_vacant (port e)) eqn:EV.
    + replace (Z.of_nat i + 1) with (Z.of_nat (S i)) by lia.
      destruct (IH (S i)) as (j & -> & Hj & EO & HV & HE); [done|lia|lia|].
      exists j. split_and!; [done|lia|lia| | |done].
      * by rewrite (occupied_drop_vacant _ i e).
      * intros k e' Hk He'. destruct (decide (k = i)) as [->|]; [by simplify_eq|]. apply (HV k); [lia|done].
    + exists i. split_and!; [done|lia|lia|done|intros; lia|]. intros _. exists e. split; [done|].
      unfold vacant. by rewrite EV.
Qed.

Lemma fresh_iterator m i : WasModified m (mkIterator i (dirty_counter_ m)) = false.
Proof. unfold WasModified. simpl. by rewrite Z.eqb_refl. Qed.

Lemma begin_ok m :
  capacity_ m = Z.of_nat (length (map_ m)) ->
  exists j, begin m = Ok (Iterator_at m (Z.of_nat j)) /\ (j <= length (map_ m))%nat /\
    contents m = occupied (drop j (map_ m)) /\
    ((j < length (map_ m))%nat -> exists e, map_ m !! j = Some e /\ ~ vacant e).
Proof.
  intros HC. destruct (occupied_from_ok m (length (map_ m)) 0) as (j & E & Hj & EO & _ & HE); [done|lia|lia|].
  exists j. unfold begin. change 0 with (Z.of_nat 0). rewrite E, Ok_bind. split_and!; [done|lia|by rewrite <- EO|done].
Qed.

Lemma advance_ok m i :
  capacity_ m = Z.of_nat (length (map_ m)) -> (i < length (map_ m))%nat ->
  exists j, advance m (Iterator_at m (Z.of_nat i)) = Ok (Iterator_at m (Z.of_nat j)) /\
    (i < j <= length (map_ m))%nat /\
    occupied (drop (S i) (map_ m)) = occupied (drop j (map_ m)) /\
    ((j < length (map_ m))%nat -> exists e, map_ m !! j = Some e /\ ~ vacant e).
Proof.
  intros HC Hi. destruct (occupied_from_ok m (length (map_ m)) (S i)) as (j & E & Hj & EO & _ & HE); [done|lia|lia|].
  exists j. unfold advance, Iterator_at. rewrite fresh_iterator. cbn [negb utils_assert index_ it_dirty_counter_].
  rewrite Ok_bind. replace (Z.of_nat i + 1) with (Z.of_nat (S i)) by lia. rewrite E, Ok_bind.
  split_and!; [done|lia|lia|done|done].
Qed.

Lemma deref_ok m i e :
  capacity_ m = Z.of_nat (length (map_ m)) -> map_ m !! i = Some e -> deref m (Iterator_at m (Z.of_nat i)) = Ok e.
Proof.
  intros HC Hi. unfold deref, Iterator_at. rewrite fresh_iterator. cbn [negb utils_assert index_].
  apply lookup_lt_Some in Hi as Li. replace ((0 <=? Z.of_nat i) && (Z.of_nat i <? capacity_ m)) with true by lia.
  cbn [utils_assert]. rewrite !Ok_bind. by apply slot_lookup.
Qed.

Lemma at_end_ok m i :
  capacity_ m = Z.of_nat (length (map_ m)) ->
  it_equal m (Iterator_at m (Z.of_nat i)) (end_ m) = Ok (i =? length (map_ m))%nat.
Proof.
  intros HC. unfold it_equal, end_, Iterator_at. rewrite fresh_iterator. cbn [negb utils_assert index_].
  rewrite Ok_bind, HC. f_equal.
  destruct (Z.eqb_spec (Z.of_nat i) (Z.of_nat (length (map_ m)))), (Nat.eqb_spec i (length (map_ m))); done || lia.
Qed.

(** ** Rehashing *)

Lemma entries_new n :
  occupied (replicate n (Entry_new blank)) = [] /\ dead (replicate n (Entry_new blank)) = [].
Proof.
  unfold occupied, dead. induction n as [|n [IH1 IH2]]; [done|]. simpl. rewrite !filter_cons.
  rewrite IH1, IH2, !decide_False; [done|done|]. intros H. by apply H.
Qed.

Lemma table_new k : (0 < k)%nat -> table_ok (replicate (8 * k) (Entry_new blank)).
Proof.
  intros Hk. assert (HV : forall i e, replicate (8 * k) (Entry_new blank) !! i = Some e -> vacant e).
  { intros i e [-> _]%lookup_replicate. done. }
  constructor.
  - exists k. by rewrite length_replicate.
  - intros i e Hi HN. by destruct (HN (HV i e Hi)).
  - intros i e Hi HN. by destruct (HN (HV i e Hi)).
  - intros i j e e' Hi _ HN. by destruct (HN (HV i e Hi)).
Qed.

(** An entry is put into a table without deleted slots. *)
Lemma free_loop_put t e :
  table_ok t -> dead t = [] -> (length (occupied t) < length t)%nat -> 0 < port e -> ~ vacant e ->
  (forall e', e' ∈ occupied t -> port e' <> port e) ->
  exists q, free_loop (length t) t (Z.of_nat (length t)) (Z.rem (port e) (Z.of_nat (length t))) = Ok (Z.of_nat q) /\
    (q < length t)%nat /\ table_ok (<[q := e]> t) /\ dead (<[q := e]> t) = [] /\
    occupied (<[q := e]> t) ≡ₚ e :: occupied t.
Proof.
  intros HT HD HL Hp HV HA. pose proof (ok_nonempty _ HT) as Hn.
  destruct (free_slot t) as (x & ex & Hx & H0); [rewrite HD; simpl; lia|].
  pose proof (port_home_lt (length t) (port e) Hn) as Hh.
  destruct (first_exists (fun e => port e = 0) t _ x ex Hh Hx H0) as (q & Lq & HQ).
  destruct (proj1 HQ) as (e0 & Hq & E0). exists q. rewrite rem_home by lia. split_and!.
  - apply (free_loop_ok t (home (length t) (port e))); try done; rewrite dist_self; [lia|].
    pose proof (dist_lt (length t) _ q Hh Lq). lia.
  - done.
  - apply (table_put t q e0); try done.
    + intros i e' Hi HE. apply (HA e'); [|done]. apply occupied_lookup. split; [|by exists i].
      rewrite vacant_iff in *. congruence.
    + intros j Hj Hd. destruct (lookup_lt_is_Some_2 t j Hj) as [ej Hej]. exists ej. split; [done|].
      by apply (proj2 HQ j).
  - apply length_zero_iff_nil. pose proof (dead_put t q e0 e Hq HV) as E. rewrite HD in E. simpl in E.
    rewrite E0 in E. simpl in E. lia.
  - apply (occupied_put t q e0); [done|rewrite vacant_iff; by left|done].
Qed.

Lemma ports_NoDup t : table_ok t -> NoDup (port <$> occupied t).
Proof.
  intros [_ _ _ HU]. revert HU. induction t as [|e t IH]; intros HU; [constructor|].
  assert (ND : NoDup (port <$> occupied t)).
  { apply IH. intros i j e1 e2 H1 H2 HV EP. by injection (HU (S i) (S j) e1 e2 H1 H2 HV EP). }
  unfold occupied in *. rewrite filter_cons. case_decide as HV; [|done].
  rewrite fmap_cons. constructor; [|done]. intros (e' & EP & He')%list_elem_of_fmap.
  apply list_elem_of_filter in He' as [_ [j Hj]%list_elem_of_lookup].
  by specialize (HU 0%nat (S j) e e' eq_refl Hj HV (eq_sym EP)).
Qed.

Lemma rehash_loop_ok m fuel : forall i t,
  table_ok (map_ m) -> capacity_ m = Z.of_nat (length (map_ m)) -> (i <= length (map_ m))%nat ->
  ((i < length (map_ m))%nat -> exists e, map_ m !! i = Some e /\ ~ vacant e) ->
  (length (map_ m) - i <= fuel)%nat ->
  table_ok t -> dead t = [] -> (length (contents m) < length t)%nat ->
  occupied t ++ occupied (drop i (map_ m)) ≡ₚ contents m ->
  exists t', rehash_loop fuel m (Iterator_at m (Z.of_nat i)) (Z.of_nat (length t)) t = Ok t' /\
    table_ok t' /\ length t' = length t /\ dead t' = [] /\ occupied t' ≡ₚ contents m.
Proof.
  induction fuel as [|fuel IH]; intros i t HT HC Hi He HF HT' HD HL HP; cbn [rehash_loop];
    rewrite at_end_ok, Ok_bind by done;
    (destruct (Nat.eqb_spec i (length (map_ m))) as [->|N];
      [exists t; split_and!; [done..|]; by rewrite drop_all, app_nil_r in HP|]).
  - lia.
  - destruct He as (e & He & HV); [lia|]. rewrite (deref_ok m i e) by done. rewrite Ok_bind.
    rewrite (drop_S _ e i) in HP by done. unfold occupied at 2 in HP.
    rewrite filter_cons_True in HP by done. fold (occupied (drop (S i) (map_ m))) in HP.
    assert (Hp : 0 < port e).
    { pose proof (ok_port _ HT i e He HV). rewrite vacant_iff in HV. lia. }
    destruct (free_loop_put t e) as (q & -> & Lq & HT'' & HD' & EO); [done|done| |done|done| |].
    { apply Permutation_length in HP. rewrite length_app in HP. simpl in HP. lia. }
    { intros e' He' EP. pose proof (ports_NoDup _ HT) as ND. fold (contents m) in ND. rewrite <- HP in ND.
      rewrite fmap_app in ND. apply NoDup_app in ND as (_ & ND & _). apply (ND (port e)).
      - rewrite <- EP. by apply list_elem_of_fmap_2.
      - by left. }
    rewrite Ok_bind, set_slot_ok, Ok_bind by done.
    destruct (advance_ok m i) as (j & -> & Hj & ED & HE); [done|lia|]. rewrite Ok_bind.
    rewrite <- (length_insert t q e). destruct (IH j (<[q := e]> t)) as (t' & E & R1 & R2 & R3 & R4);
      try done; rewrite ?length_insert in *; [lia|lia|done| |exists t'; by rewrite R2].
    rewrite EO, <- ED, <- HP. simpl. by rewrite Permutation_middle.
Qed.

Lemma Rehash_ok m k :
  counted m -> (0 < k)%nat -> (length (contents m) < 8 * k)%nat ->
  exists m', Rehash blank m (Z.of_nat (8 * k)) = Ok m' /\ inv m' /\ contents m' ≡ₚ contents m /\
    capacity_ m' = Z.of_nat (8 * k) /\ used_ m' = used_ m /\ deleted_ m' = 0.
Proof.
  intros [HT HC HU HD] Hk HL. destruct (begin_ok m HC) as (j & Ej & Hj & EO & HE).
  destruct (entries_new (8 * k)) as [E1 E2].
  destruct (rehash_loop_ok m (length (map_ m)) j (replicate (8 * k) (Entry_new blank)))
    as (t & E & R1 & R2 & R3 & R4); rewrite ?length_replicate in *; try done; [lia|by apply table_new|by rewrite E1, EO|].
  unfold Rehash. rewrite Ej, Ok_bind, Nat2Z.id, E, Ok_bind. eexists. split; [done|].
  split_and!; [|done..]. constructor; cbn [map_ capacity_ used_ deleted_].
  - done.
  - by rewrite R2.
  - unfold contents at 1. cbn [map_]. by rewrite R4.
  - by rewrite R3.
  - rewrite HU. lia.
Qed.

(** [MaintainInvariants] balances a set that has one entry too many, or any number of
    deleted slots. *)
Lemma MaintainInvariants_ok m :
  counted m -> 4 * used_ m <= 3 * capacity_ m + 4 ->
  exists m', MaintainInvariants blank m = Ok m' /\ balanced m' /\ contents m' ≡ₚ contents m.
Proof.
  intros HI HL. destruct (ok_length _ (cn_table _ HI)) as (k & Ek & Hk).
  pose proof (cn_capacity _ HI) as HC. pose proof (cn_used _ HI) as HU. pose proof (cn_deleted _ HI) as HD.
  assert (EC : capacity_ m = 8 * Z.of_nat k) by lia.
  assert (EQ : Z.quot (capacity_ m) 4 * 3 = 6 * Z.of_nat k).
  { rewrite EC. replace (8 * Z.of_nat k) with (2 * Z.of_nat k * 4) by lia. rewrite Z.quot_mul by lia. lia. }
  unfold MaintainInvariants. rewrite EQ. destruct (Z.ltb_spec (6 * Z.of_nat k) (used_ m)) as [L|L].
  - replace (capacity_ m * 2) with (Z.of_nat (8 * (2 * k))) by lia.
    destruct (Rehash_ok m (2 * k)) as (m' & -> & HI' & EO & EC' & EU & ED); [done|lia|lia|].
    exists m'. split; [done|]. split; [|done]. split; [done|]. lia.
  - destruct (Z.ltb_spec (capacity_ m - used_ m - deleted_ m) (deleted_ m)) as [L'|L'].
    + replace (capacity_ m) with (Z.of_nat (8 * k)) by lia.
      destruct (Rehash_ok m k) as (m' & -> & HI' & EO & EC' & EU & ED); [done|lia|lia|].
      exists m'. split; [done|]. split; [|done]. split; [done|]. lia.
    + exists m. split; [done|]. split; [|done]. split; [apply inv_counted; split; [done|]|]; lia.
Qed.

(** ** Insertion and deletion *)

Definition absent (p : Z) m : Prop := forall e, e ∈ contents m -> port e <> p.

Lemma absent_lookup p m i e : absent p m -> 0 < p -> p <> 3 -> map_ m !! i = Some e -> port e <> p.
Proof.
  intros HA H0 H3 Hi EP. apply (HA e); [|done]. apply occupied_lookup. split; [|by exists i].
  by apply (valid_not_vacant e p).
Qed.

Lemma with_dirty_balanced m d :
  balanced m -> balanced (mkPortSet (map_ m) (capacity_ m) (used_ m) (deleted_ m) d).
Proof. intros [[H1 H2 H3 H4 H5] HB]. by split; [constructor|]. Qed.

Lemma Insert_ok m e :
  stable m -> 0 < port e -> port e <> 3 -> absent (port e) m ->
  exists m', Insert blank m e = Ok m' /\ balanced m' /\ contents m' ≡ₚ e :: contents m.
Proof.
  intros [HI HB1] H0 H3 HA. pose proof (inv_table _ HI) as HT. pose proof (ok_nonempty _ HT) as Hn.
  pose proof (inv_capacity _ HI) as HC. assert (HV : ~ vacant e) by (by apply (valid_not_vacant e (port e))).
  pose proof (port_home_lt (length (map_ m)) (port e) Hn) as Hh.
  destruct (inv_free_slot m HI) as (x & ex & Hx & Ex).
  destruct (first_exists vacant (map_ m) _ x ex Hh Hx) as (q & Lq & HQ); [rewrite vacant_iff; by left|].
  destruct (proj1 HQ) as (e0 & Hq & V0). unfold Insert.
  rewrite FindIndexOfPort_absent by (done || (intros i e'; by apply absent_lookup)).
  rewrite Ok_bind. cbn [Z.ltb Z.compare utils_assert]. rewrite Ok_bind, HC, rem_home by lia.
  rewrite (vacant_loop_ok m (home (length (map_ m)) (port e)) q), Ok_bind
    by (done || rewrite dist_self; pose proof (dist_lt (length (map_ m)) _ q Hh Lq); lia).
  rewrite (slot_lookup _ _ _ Hq), Ok_bind, V0. cbn [utils_assert]. rewrite Ok_bind, set_slot_ok, Ok_bind by done.
  cbn [map_ capacity_ used_ deleted_ dirty_counter_].
  assert (HT' : table_ok (<[q := e]> (map_ m))).
  { apply (table_put _ q e0); try done.
    - intros i e'. by apply absent_lookup.
    - intros j Hj Hd. destruct (lookup_lt_is_Some_2 _ j Hj) as [ej Hej]. exists ej. split; [done|].
      pose proof (proj2 HQ j ej Hej Hd) as HN. rewrite vacant_iff in HN. tauto. }
  rewrite (FindIndexOfPort_present _ q e) by (cbn [map_ capacity_]; rewrite ?length_insert, ?list_lookup_insert_eq; done).
  rewrite Ok_bind, (proj2 (Z.leb_le 0 _)) by lia. cbn [utils_assert]. rewrite Ok_bind.
  pose proof (occupied_put _ q e0 e Hq V0 HV) as EO. pose proof (dead_put _ q e0 e Hq HV) as ED.
  match goal with |- context [MaintainInvariants _ ?m'] => destruct (MaintainInvariants_ok m') as (m'' & -> & HB & EC) end.
  { destruct HI as [_ _ HU HD HF]. pose proof (Permutation_length EO) as EL. simpl in EL.
    constructor; cbn [map_ capacity_ used_ deleted_]; unfold contents in *; cbn [map_]; rewrite ?length_insert;
      [done|done|lia|destruct (port e0 =? kDeletedPort); lia]. }
  { cbn [used_ capacity_]. lia. }
  rewrite Ok_bind. eexists. split; [done|]. split; [by apply with_dirty_balanced|].
  unfold contents at 1. cbn [map_]. fold (contents m''). by rewrite EC.
Qed.

(** [TryLookup] followed by [Delete]. *)
Lemma Delete_ok m i e :
  inv m -> map_ m !! i = Some e -> ~ vacant e ->
  exists m', Delete blank m (Iterator_at m (Z.of_nat i)) = Ok m' /\ inv m' /\
    map_ m' = <[i := tombstone]> (map_ m) /\ dirty_counter_ m' = dirty_counter_ m /\
    capacity_ m' = capacity_ m /\ used_ m' = used_ m - 1 /\ contents m ≡ₚ e :: contents m'.
Proof.
  intros [HT HC HU HD HF] Hi HV. unfold Delete, Iterator_at. rewrite fresh_iterator.
  cbn [negb utils_assert index_]. rewrite Ok_bind, set_slot_ok, Ok_bind by (by eapply lookup_lt_Some).
  fold tombstone. pose proof (occupied_delete _ i e Hi HV) as EO. pose proof (dead_delete _ i e Hi HV) as ED.
  pose proof (Permutation_length EO) as EL. simpl in EL.
  eexists. split; [done|]. split_and!; try done.
  constructor; cbn [map_ capacity_ used_ deleted_]; unfold contents in *; cbn [map_]; rewrite ?length_insert;
    [by apply (table_delete _ i e)|done|lia|lia|lia].
Qed.

Lemma Rebalance_ok m :
  inv m -> 4 * used_ m <= 3 * capacity_ m ->
  exists m', Rebalance blank m = Ok m' /\ balanced m' /\ contents m' ≡ₚ contents m.
Proof. intros [HI _]%inv_counted HL. apply MaintainInvariants_ok; [done|lia]. Qed.

Lemma TryLookup_present m i e :
  inv m -> map_ m !! i = Some e -> ~ vacant e -> TryLookup m (port e) = Ok (Iterator_at m (Z.of_nat i)).
Proof.
  intros HI Hi HV. unfold TryLookup. rewrite (FindIndexOfPort_present m i e) by (done || apply HI).
  rewrite Ok_bind. by rewrite (proj2 (Z.leb_le 0 _)) by lia.
Qed.

Lemma TryLookup_absent m p : inv m -> 0 < p -> p <> 3 -> absent p m -> TryLookup m p = Ok (end_ m).
Proof.
  intros HI H0 H3 HA. unfold TryLookup.
  by rewrite FindIndexOfPort_absent by (done || (intros i e; by apply absent_lookup)).
Qed.

Lemma PortSet_new_ok : balanced (PortSet_new blank) /\ contents (PortSet_new blank) = [].
Proof.
  destruct (entries_new 8) as [E1 E2]. split; [|done]. split; [|done].
  constructor; try done. apply (table_new 1); lia.
Qed.

End port_set.
