(* ===== verification/PortSetSpec.v ===== *)
(** [PortSet] refines a finite map from ports, and the ports for which its lookup goes wrong. *)
From stdpp Require Import base numbers list gmap sorting.
From Stdlib Require Import ZArith Lia.
From S2P Require Import Prelude Utils Circular PortSet PortSetProps.
Local Open Scope Z_scope.
Local Open Scope cxx_scope.

(** ** Clients of the set *)

(** The operations as the port map uses them: insertion, lookup, an assignment through the
    reference that a lookup returns, and the deletion of what a lookup finds. *)
Inductive op (A : Type) :=
  | Put (p : Z) (a : A)
  | Get (p : Z)
  | Modify (p : Z) (a : A)
  | Close (p : Z).
Arguments Put {A}.
Arguments Get {A}.
Arguments Modify {A}.
Arguments Close {A}.

Section port_set.
Context {A : Type} (blank : A).
Implicit Type m : PortSet A.
Implicit Type M : gmap Z A.

(** The iterator of a lookup and the entry it refers to, unless it is the end. *)
Definition lookup_entry m (p : Z) : result (option (Iterator * Entry A)) :=
  it ← TryLookup m p;
  at_end ← it_equal m it (end_ m);
  if (at_end : bool) then Ok None else e ← deref m it; Ok (Some (it, e)).

(** [*it = ...]. *)
Definition assign m (it : Iterator) (e : Entry A) : result (PortSet A) :=
  map ← set_slot (map_ m) (index_ it) e;
  Ok (mkPortSet map (capacity_ m) (used_ m) (deleted_ m) (dirty_counter_ m)).

Definition run_op m (o : op A) : result (PortSet A * option A) :=
  match o with
  | Put p a => m ← Insert blank m (mkEntry p a); Ok (m, None)
  | Get p => found ← lookup_entry m p;
      Ok (m, match found with Some (_, e) => Some (fields e) | None => None end)
  | Modify p a =>
      found ← lookup_entry m p;
      match found with
      | None => Ok (m, None)
      | Some (it, e) => m ← assign m it (mkEntry (port e) a); Ok (m, Some (fields e))
      end
  | Close p =>
      found ← lookup_entry m p;
      match found with
      | None => Ok (m, None)
      | Some (it, e) => m ← Delete blank m it; m ← Rebalance blank m; Ok (m, Some (fields e))
      end
  end.

Fixpoint run_ops m (os : list (op A)) : result (PortSet A * list (option A)) :=
  match os with
  | [] => Ok (m, [])
  | o :: os => '(m, r) ← run_op m o; '(m, rs) ← run_ops m os; Ok (m, r :: rs)
  end.

(** ** The abstract map *)

Definition spec_op M (o : op A) : gmap Z A * option A :=
  match o with
  | Put p a => (<[p := a]> M, None)
  | Get p => (M, M !! p)
  | Modify p a => (match M !! p with Some _ => <[p := a]> M | None => M end, M !! p)
  | Close p => (delete p M, M !! p)
  end.

Fixpoint spec_ops M (os : list (op A)) : gmap Z A * list (option A) :=
  match os with
  | [] => (M, [])
  | o :: os => let '(M, r) := spec_op M o in let '(M, rs) := spec_ops M os in (M, r :: rs)
  end.

(** The ports the map allocates, and those a client may look up. *)
Definition valid_port (p : Z) : Prop := 0 < p /\ p <> kDeletedPort.
Definition valid_query (p : Z) : Prop := 0 <= p /\ p <> kDeletedPort.

Definition op_ok M (o : op A) : Prop :=
  match o with
  | Put p a => valid_port p /\ M !! p = None
  | Get p | Modify p _ | Close p => valid_query p
  end.

Fixpoint ops_ok M (os : list (op A)) : Prop :=
  match os with
  | [] => True
  | o :: os => op_ok M o /\ ops_ok (spec_op M o).1 os
  end.

Record represents m M : Prop := {
  rep_stable : stable m;
  rep_lookup p a : M !! p = Some a <-> mkEntry p a ∈ contents m;
}.

Lemma elem_contents m e : e ∈ contents m <-> ~ vacant e /\ exists i, map_ m !! i = Some e.
Proof. apply occupied_lookup. Qed.

Lemma port_set_absent m M p : represents m M -> M !! p = None -> absent p m.
Proof.
  intros HR HN [p' a] He EP. simpl in EP. subst. apply (rep_lookup _ _ HR) in He. congruence.
Qed.

Lemma rep_present m M p a :
  represents m M -> M !! p = Some a -> exists i, map_ m !! i = Some (mkEntry p a) /\ ~ vacant (mkEntry p a).
Proof. intros HR [HV [i Hi]]%(rep_lookup _ _ HR)%elem_contents. by exists i. Qed.

Lemma rep_port m M p a : represents m M -> M !! p = Some a -> valid_port p.
Proof.
  intros HR HM. destruct (rep_present m M p a HR HM) as (i & Hi & HV).
  pose proof (ok_port _ (inv_table _ (proj1 (rep_stable _ _ HR))) i _ Hi HV). rewrite vacant_iff in HV.
  simpl in *. unfold valid_port, kDeletedPort. lia.
Qed.

Lemma rep_unique m M e e' : represents m M -> e ∈ contents m -> e' ∈ contents m -> port e = port e' -> e = e'.
Proof.
  intros HR He He' EP. destruct e as [p a], e' as [p' a']. simpl in EP. subst.
  apply (rep_lookup _ _ HR) in He, He'. by simplify_eq.
Qed.

Lemma represents_new : represents (PortSet_new blank) ∅.
Proof.
  destruct (PortSet_new_ok blank) as [HB HE]. constructor; [by apply balanced_stable|].
  intros p a. rewrite HE, lookup_empty, elem_of_nil. done.
Qed.

(** ** Operations *)

Lemma it_equal_end m i :
  capacity_ m = Z.of_nat (length (map_ m)) -> (i < length (map_ m))%nat ->
  it_equal m (Iterator_at m (Z.of_nat i)) (end_ m) = Ok false.
Proof.
  intros HC Hi. rewrite at_end_ok by done. by rewrite (proj2 (Nat.eqb_neq _ _)) by lia.
Qed.

Lemma lookup_entry_ok m M p :
  represents m M -> valid_query p ->
  match M !! p with
  | None => lookup_entry m p = Ok None
  | Some a => exists i, lookup_entry m p = Ok (Some (Iterator_at m (Z.of_nat i), mkEntry p a)) /\
      map_ m !! i = Some (mkEntry p a) /\ ~ vacant (mkEntry p a)
  end.
Proof.
  intros HR [H0 H3]. pose proof (proj1 (rep_stable _ _ HR)) as HI. pose proof (inv_capacity _ HI) as HC.
  destruct (M !! p) as [a|] eqn:HM.
  - destruct (rep_present m M p a HR HM) as (i & Hi & HV). exists i. split; [|done].
    pose proof (TryLookup_present m i (mkEntry p a) HI Hi HV) as ET. cbn [port] in ET.
    unfold lookup_entry. rewrite ET, Ok_bind.
    rewrite it_equal_end by (done || by eapply lookup_lt_Some). rewrite Ok_bind.
    by rewrite (deref_ok m i (mkEntry p a)), Ok_bind by done.
  - assert (TryLookup m p = Ok (end_ m)) as E.
    { destruct (decide (p = 0)) as [->|N]; [done|]. apply TryLookup_absent; [done|lia|done|].
      by apply (port_set_absent m M). }
    unfold lookup_entry, it_equal. rewrite E, Ok_bind. unfold end_, Iterator_at. rewrite fresh_iterator.
    cbn [negb utils_assert index_]. by rewrite !Ok_bind, Z.eqb_refl.
Qed.

Lemma Put_ok m M p a :
  represents m M -> valid_port p -> M !! p = None ->
  exists m', Insert blank m (mkEntry p a) = Ok m' /\ represents m' (<[p := a]> M).
Proof.
  intros HR [H0 H3] HM.
  destruct (Insert_ok blank m (mkEntry p a)) as (m' & E & HB & EO);
    [apply HR|done|done|by apply (port_set_absent m M)|].
  exists m'. split; [done|]. constructor; [by apply balanced_stable|]. intros p' a'. rewrite EO, elem_of_cons.
  rewrite <- (rep_lookup _ _ HR). destruct (decide (p = p')) as [->|N].
  - rewrite lookup_insert_eq. split; [intros [= ->]; by left|]. intros [[= ->]|H]; [done|congruence].
  - rewrite lookup_insert_ne by done. split; [by right|]. intros [[= -> _]|H]; done.
Qed.

Lemma Modify_ok m M p a0 a i :
  represents m M -> map_ m !! i = Some (mkEntry p a0) -> ~ vacant (mkEntry p a0) ->
  exists m', assign m (Iterator_at m (Z.of_nat i)) (mkEntry p a) = Ok m' /\ represents m' (<[p := a]> M).
Proof.
  intros HR Hi HV. unfold assign. cbn [Iterator_at index_].
  rewrite set_slot_ok, Ok_bind by (by eapply lookup_lt_Some). eexists. split; [done|].
  destruct (rep_stable _ _ HR) as [[HT HC HU HD HF] HB].
  destruct (modify_counts (map_ m) i (mkEntry p a0) (mkEntry p a)) as (ED & l & E1 & E2); [done..|].
  assert (EL : length (occupied (<[i := mkEntry p a]> (map_ m))) = length (occupied (map_ m)))
    by (by rewrite E1, E2).
  constructor.
  - split; [|done]. unfold contents in *. constructor; cbn [map_ capacity_ used_ deleted_]; unfold contents;
      cbn [map_]; rewrite ?length_insert; [by apply (table_modify _ i (mkEntry p a0))|done|lia|lia|lia].
  - intros p' a'. unfold contents. cbn [map_]. rewrite E2, elem_of_cons.
    assert (HL : p' <> p -> mkEntry p' a' ∈ l <-> M !! p' = Some a').
    { intros N. rewrite (rep_lookup _ _ HR). unfold contents. rewrite E1, elem_of_cons.
      split; [by right|]. by intros [[= -> _]|]. }
    destruct (decide (p = p')) as [<-|N].
    + rewrite lookup_insert_eq. split; [intros [= ->]; by left|]. intros [[= ->]|H]; [done|].
      pose proof (ports_NoDup _ HT) as ND. rewrite E1 in ND. apply NoDup_cons in ND as [ND _].
      destruct ND. by apply (list_elem_of_fmap_2 port l (mkEntry p a')).
    + rewrite lookup_insert_ne by done. rewrite <- HL by done. split; [by right|]. by intros [[= -> _]|].
Qed.

Lemma represents_perm m m' M : represents m M -> stable m' -> contents m' ≡ₚ contents m -> represents m' M.
Proof. intros HR HS EC. constructor; [done|]. intros p a. by rewrite (rep_lookup _ _ HR), EC. Qed.

Lemma Delete_represents m M p a i :
  represents m M -> map_ m !! i = Some (mkEntry p a) -> ~ vacant (mkEntry p a) ->
  exists m', Delete blank m (Iterator_at m (Z.of_nat i)) = Ok m' /\ represents m' (delete p M) /\
    map_ m' = <[i := tombstone blank]> (map_ m) /\ dirty_counter_ m' = dirty_counter_ m /\
    capacity_ m' = capacity_ m /\ used_ m' = used_ m - 1.
Proof.
  intros HR Hi HV. destruct (rep_stable _ _ HR) as [HI HB1].
  destruct (Delete_ok blank m i (mkEntry p a) HI Hi HV) as (m' & E' & HI' & EM & ED & EC & EU & EO).
  exists m'. split; [done|]. split; [|done]. constructor; [split; [done|lia]|]. intros p' a'.
  rewrite lookup_delete_Some, (rep_lookup _ _ HR), EO, elem_of_cons.
  pose proof (ports_NoDup _ (inv_table _ HI)) as ND. fold (contents m) in ND. rewrite EO in ND.
  apply NoDup_cons in ND as [ND _]. split.
  - intros [N [[= -> _]|H]]; [by destruct N|done].
  - intros H. split; [|by right]. intros ->. destruct ND.
    by apply (list_elem_of_fmap_2 port (contents m') (mkEntry p' a')).
Qed.

Lemma Rebalance_represents m M : represents m M -> exists m', Rebalance blank m = Ok m' /\ represents m' M.
Proof.
  intros HR. destruct (rep_stable _ _ HR) as [HI HB]. destruct (Rebalance_ok blank m HI HB) as (m' & E & HB' & EO).
  exists m'. split; [done|]. apply (represents_perm m); [done|by apply balanced_stable|done].
Qed.

Lemma Close_ok m M p a i :
  represents m M -> map_ m !! i = Some (mkEntry p a) -> ~ vacant (mkEntry p a) ->
  exists m' m'', Delete blank m (Iterator_at m (Z.of_nat i)) = Ok m' /\ Rebalance blank m' = Ok m'' /\
    represents m'' (delete p M).
Proof.
  intros HR Hi HV. destruct (Delete_represents m M p a i HR Hi HV) as (m' & E & HR' & _).
  destruct (Rebalance_represents m' _ HR') as (m'' & E' & HR''). by exists m', m''.
Qed.

Lemma port_set_run_op_ok m M o :
  represents m M -> op_ok M o ->
  exists m', run_op m o = Ok (m', (spec_op M o).2) /\ represents m' (spec_op M o).1.
Proof.
  intros HR HO. destruct o as [p a|p|p a|p]; cbn [run_op spec_op op_ok fst snd] in *.
  - destruct HO as [HP HM]. destruct (Put_ok m M p a HR HP HM) as (m' & -> & HR'). rewrite Ok_bind. eauto.
  - pose proof (lookup_entry_ok m M p HR HO) as HL. destruct (M !! p) as [a|].
    + destruct HL as (i & -> & _). rewrite Ok_bind. eauto.
    + rewrite HL, Ok_bind. eauto.
  - pose proof (lookup_entry_ok m M p HR HO) as HL. destruct (M !! p) as [a0|].
    + destruct HL as (i & -> & Hi & HV). rewrite Ok_bind. cbn [port fields].
      destruct (Modify_ok m M p a0 a i HR Hi HV) as (m' & -> & HR'). rewrite Ok_bind. eauto.
    + rewrite HL, Ok_bind. eauto.
  - pose proof (lookup_entry_ok m M p HR HO) as HL. destruct (M !! p) as [a0|] eqn:HM.
    + destruct HL as (i & -> & Hi & HV). rewrite Ok_bind.
      destruct (Close_ok m M p a0 i HR Hi HV) as (m' & m'' & -> & E & HR'). rewrite Ok_bind, E, Ok_bind. eauto.
    + rewrite HL, Ok_bind, delete_id by done. eauto.
Qed.

Lemma port_set_run_ops_ok os : forall m M,
  represents m M -> ops_ok M os ->
  exists m', run_ops m os = Ok (m', (spec_ops M os).2) /\ represents m' (spec_ops M os).1.
Proof.
  induction os as [|o os IH]; intros m M HR HO; [by exists m|]. destruct HO as [HO HOS]. cbn [run_ops spec_ops].
  destruct (port_set_run_op_ok m M o HR HO) as (m' & -> & HR'). rewrite Ok_bind.
  destruct (spec_op M o) as [M' r]. cbn [fst snd] in *.
  destruct (IH m' M' HR' HOS) as (m'' & -> & HR''). rewrite Ok_bind.
  destruct (spec_ops M' os) as [M'' rs]. eauto.
Qed.

(** ** Iteration *)

(** [for (auto entry : *ports)]. *)
Fixpoint visit (fuel : nat) m (it : Iterator) : result (list (Entry A)) :=
  at_end ← it_equal m it (end_ m);
  if (at_end : bool) then Ok []
  else
    match fuel with
    | O => Fatal UtilsFuel
    | S fuel =>
        e ← deref m it;
        it ← advance m it;
        rest ← visit fuel m it;
        Ok (e :: rest)
    end.

Definition entries m : result (list (Entry A)) := it ← begin m; visit (length (map_ m)) m it.

Lemma visit_ok m fuel : forall i,
  capacity_ m = Z.of_nat (length (map_ m)) -> (i <= length (map_ m))%nat ->
  ((i < length (map_ m))%nat -> exists e, map_ m !! i = Some e /\ ~ vacant e) ->
  (length (map_ m) - i <= fuel)%nat ->
  visit fuel m (Iterator_at m (Z.of_nat i)) = Ok (occupied (drop i (map_ m))).
Proof.
  induction fuel as [|fuel IH]; intros i HC Hi He HF; cbn [visit]; rewrite at_end_ok, Ok_bind by done;
    (destruct (Nat.eqb_spec i (length (map_ m))) as [->|N]; [by rewrite drop_all|]).
  - lia.
  - destruct He as (e & He & HV); [lia|]. rewrite (deref_ok m i e) by done. rewrite Ok_bind.
    destruct (advance_ok m i) as (j & -> & Hj & ED & HE); [done|lia|]. rewrite Ok_bind.
    rewrite IH by (done || lia). rewrite Ok_bind, (drop_S _ e i), <- ED by done.
    unfold occupied at 2. by rewrite filter_cons_True.
Qed.

Lemma entries_ok m : inv m -> entries m = Ok (contents m).
Proof.
  intros HI. destruct (begin_ok m (inv_capacity _ HI)) as (j & E & Hj & EO & HE). unfold entries.
  rewrite E, Ok_bind, visit_ok by (done || lia || apply HI). by rewrite EO.
Qed.

(** C19: any sequence of insertions, lookups, modifications and deletions of a [PortSet], with ports
    that are not negative and not the marker of deleted slots (3, with which and with negative
    ports lookups go wrong: [deleted_port_found], [negative_port_undefined]), and that inserts
    no port twice and not port 0, behaves as on a finite map from ports: no assertion fails, no
    search loops, no access leaves the table, and iterating over the set visits each pair of
    the map exactly once. *)
Theorem port_set_refines os :
  ops_ok ∅ os ->
  exists m es, run_ops (PortSet_new blank) os = Ok (m, (spec_ops ∅ os).2) /\ entries m = Ok es /\
    (fun e => (port e, fields e)) <$> es ≡ₚ map_to_list (spec_ops ∅ os).1.
Proof.
  intros HO. destruct (port_set_run_ops_ok os _ _ represents_new HO) as (m & E & HR).
  exists m, (contents m). split; [done|]. destruct (rep_stable _ _ HR) as [HI _].
  split; [by apply entries_ok|]. apply NoDup_Permutation.
  - apply (NoDup_fmap_1 fst). rewrite <- list_fmap_compose. apply (ports_NoDup _ (inv_table _ HI)).
  - apply NoDup_map_to_list.
  - intros [p a]. rewrite elem_of_map_to_list, (rep_lookup _ _ HR), list_elem_of_fmap. split.
    + intros ([p' a'] & [= -> ->] & H). done.
    + intros H. by exists (mkEntry p a).
Qed.

End port_set.

Lemma port_set_refines_witness :
  exists m es, run_ops 0 (PortSet_new 0) [Put 7 1; Put 15 2; Close 7; Put 23 3; Modify 15 9; Get 15; Get 7; Get 0] =
      Ok (m, [None; None; Some 1; None; Some 2; Some 9; None; None]) /\ entries m = Ok es /\
    (fun e => (port e, fields e)) <$> es ≡ₚ [(15, 9); (23, 3)].
Proof.
  destruct (port_set_refines 0 [Put 7 1; Put 15 2; Close 7; Put 23 3; Modify 15 9; Get 15; Get 7; Get 0])
    as (m & es & E1 & E2 & E3).
  { repeat split; try done. }
  exists m, es. split; [exact E1|]. split; [exact E2|]. rewrite E3. vm_compute.
  first [reflexivity|apply perm_swap].
Defined.

(** ** Ports that are not valid *)

(** [FindIndexOfPort] guards against the marker of free slots but not against that of
    deleted ones: once a port on its search path has been closed (port 11 here), looking up
    port 3 finds the deleted slot, with the fields of a new entry, and the set reports that it
    contains port 3. *)
Theorem deleted_port_found :
  exists m, run_ops 0 (PortSet_new 0) [Put 11 1; Close 11] = Ok (m, [None; Some 1]) /\
    Contains m kDeletedPort = Ok true /\
    run_op 0 m (Get kDeletedPort) = Ok (m, Some 0) /\ contents m = [].
Proof. eexists. split; [vm_compute; reflexivity|]. split_and!; by vm_compute. Qed.

(** The index of a negative port is negative, so that the lookup of most of them reads
    outside the table. *)
Theorem negative_port_undefined p :
  p < 0 -> Z.rem p 8 <> 0 -> TryLookup (PortSet_new 0) p = Undefined.
Proof.
  intros Hp HN. unfold TryLookup, FindIndexOfPort, ILLEGAL_PORT, slot.
  rewrite (proj2 (Z.eqb_neq p 0)) by lia. change (capacity_ (PortSet_new 0)) with 8.
  pose proof (Z.rem_nonpos p 8). rewrite (proj2 (Z.ltb_lt _ _)) by lia. done.
Qed.

Lemma negative_port_undefined_witness : -5 < 0 /\ TryLookup (PortSet_new 0) (-5) = Undefined.
Proof. split; [lia|]. apply (negative_port_undefined (-5)); [lia|vm_compute; lia]. Defined.
