(* ===== verification/MessageQueue.v ===== *)
(** [Message] and [MessageQueue] of [runtime/vm/message.h] and [.cc]: the linked queues of
    messages that every message handler owns.

    A queue owns its messages: [cells] holds them by address, where address zero is [NULL]. A
    [std::unique_ptr<Message>] that is passed to [Enqueue] or returned by [Dequeue] is an
    address with its message. The build is a debug build: a failed [ASSERT] is
    [Fatal UtilsAssertion], and an access to a message the queue does not own is
    [Undefined]. *)
From stdpp Require Import base numbers list gmap.
From Stdlib Require Import ZArith Lia.
From S2P Require Import Prelude Utils.
Local Open Scope Z_scope.

Abbreviation result := (outcome utils_error).

(** ** Messages *)

Inductive Priority := kNormalPriority | kOOBPriority.

#[export] Instance Priority_eq_dec : EqDecision Priority.
Proof. solve_decision. Defined.

Definition kIllegalPort : Z := 0.
Definition kPersistentHandleSnapshotLen : Z := -1.
Definition kFinalizerSnapshotLen : Z := -2.

(** The payload is a pointer; of the finalizable data, only its external size matters. *)
Record Message := mkMessage {
  dest_port_ : Z;
  payload_ : Z;
  snapshot_length_ : Z;
  finalizable_data_ : option Z;
  priority_ : Priority;
}.

Definition IsOOB (m : Message) : bool := bool_decide (priority_ m = kOOBPriority).
Definition IsRaw (m : Message) : bool := snapshot_length_ m =? 0.
Definition IsPersistentHandle (m : Message) : bool := snapshot_length_ m =? kPersistentHandleSnapshotLen.
Definition IsFinalizerInvocationRequest (m : Message) : bool := snapshot_length_ m =? kFinalizerSnapshotLen.
Definition IsSnapshot (m : Message) : bool :=
  negb (IsRaw m) && negb (IsPersistentHandle m) && negb (IsFinalizerInvocationRequest m).

Definition Size (m : Message) : Z :=
  snapshot_length_ m + match finalizable_data_ m with Some external_size => external_size | None => 0 end.

(** The constructors. *)
Definition Message_snapshot (dest_port snapshot snapshot_length : Z) (finalizable_data : option Z)
    (priority : Priority) : result Message :=
  let m := mkMessage dest_port snapshot snapshot_length finalizable_data priority in
  _ ← utils_assert (IsSnapshot m); Ok m.

Definition Message_raw (dest_port raw_obj : Z) (priority : Priority) : Message :=
  mkMessage dest_port raw_obj 0 None priority.

Definition Message_handle (dest_port handle : Z) (priority : Priority) : Message :=
  mkMessage dest_port handle kPersistentHandleSnapshotLen None priority.

Definition Message_finalizer (handle : Z) (priority : Priority) : Message :=
  mkMessage kIllegalPort handle kFinalizerSnapshotLen None priority.

(** ** Queues *)

Record Cell := mkCell { next_ : Z; message : Message }.

Record MessageQueue := mkQueue { cells : gmap Z Cell; head_ : Z; tail_ : Z }.

Definition NULL : Z := 0.

Definition MessageQueue_new : MessageQueue := mkQueue ∅ NULL NULL.

Definition IsEmpty (q : MessageQueue) : bool := head_ q =? NULL.

(** [p->...]. *)
Definition cell_at (cs : gmap Z Cell) (p : Z) : result Cell :=
  match cs !! p with Some c => Ok c | None => Undefined end.

(** [p->next_ = next]. *)
Definition set_next (cs : gmap Z Cell) (p next : Z) : result (gmap Z Cell) :=
  c ← cell_at cs p; Ok (<[p := mkCell next (message c)]> cs).

(** The loop of [Enqueue] from [cur] on, which splices the message in. *)
Fixpoint enqueue_loop (fuel : nat) (q : MessageQueue) (msg cur : Z) : result MessageQueue :=
  c ← cell_at (cells q) cur;
  if next_ c =? NULL then
    _ ← utils_assert (tail_ q =? cur);
    t ← cell_at (cells q) (tail_ q);
    _ ← utils_assert (dest_port_ (message t) =? kIllegalPort);
    cs ← set_next (cells q) (tail_ q) msg;
    Ok (mkQueue cs (head_ q) msg)
  else
    n ← cell_at (cells q) (next_ c);
    if negb (dest_port_ (message n) =? kIllegalPort) then
      cs ← set_next (cells q) msg (next_ c);
      cs ← set_next cs cur msg;
      Ok (mkQueue cs (head_ q) (tail_ q))
    else
      match fuel with
      | O => Fatal UtilsFuel
      | S fuel => enqueue_loop fuel q msg (next_ c)
      end.

Definition Enqueue (q : MessageQueue) (msg : Z) (m : Message) (before_events : bool) : result MessageQueue :=
  (* The message comes with a null [next_]. *)
  let cs := <[msg := mkCell NULL m]> (cells q) in
  if head_ q =? NULL then
    _ ← utils_assert (tail_ q =? NULL);
    Ok (mkQueue cs msg msg)
  else
    _ ← utils_assert (negb (tail_ q =? NULL));
    if negb before_events then
      cs ← set_next cs (tail_ q) msg;
      Ok (mkQueue cs (head_ q) msg)
    else
      _ ← utils_assert (dest_port_ m =? kIllegalPort);
      h ← cell_at cs (head_ q);
      if negb (dest_port_ (message h) =? kIllegalPort) then
        cs ← set_next cs msg (head_ q);
        Ok (mkQueue cs msg (tail_ q))
      else enqueue_loop (size cs) (mkQueue cs (head_ q) (tail_ q)) msg (head_ q).

Definition Dequeue (q : MessageQueue) : result (MessageQueue * option (Z * Message)) :=
  let r := head_ q in
  if negb (r =? NULL) then
    c ← cell_at (cells q) r;
    let head := next_ c in
    let tail := if head =? NULL then NULL else tail_ q in
    Ok (mkQueue (delete r (cells q)) head tail, Some (r, message c))
  else Ok (q, None).

(** The loop of [Clear], which destroys the messages from [cur] on. *)
Fixpoint clear_loop (fuel : nat) (cs : gmap Z Cell) (cur : Z) : result (gmap Z Cell) :=
  if negb (cur =? NULL) then
    match fuel with
    | O => Fatal UtilsFuel
    | S fuel => c ← cell_at cs cur; clear_loop fuel (delete cur cs) (next_ c)
    end
  else Ok cs.

Definition Clear (q : MessageQueue) : result MessageQueue :=
  cs ← clear_loop (size (cells q)) (cells q) (head_ q); Ok (mkQueue cs NULL NULL).

(** ** Iteration *)

(** [Iterator::Next]: the current message and the iterator after it; [HasNext] compares the
    iterator with [NULL]. *)
Definition Next (q : MessageQueue) (it : Z) : result (Z * Z) := c ← cell_at (cells q) it; Ok (it, next_ c).

Fixpoint length_loop (fuel : nat) (q : MessageQueue) (it length : Z) : result Z :=
  if negb (it =? NULL) then
    match fuel with
    | O => Fatal UtilsFuel
    | S fuel => '(_, it) ← Next q it; length_loop fuel q it (length + 1)
    end
  else Ok length.

Definition Length (q : MessageQueue) : result Z := length_loop (size (cells q)) q (head_ q) 0.

(** [FindMessageById]: the id of a message is its address. *)
Fixpoint find_message (fuel : nat) (q : MessageQueue) (it id : Z) : result Z :=
  if negb (it =? NULL) then
    match fuel with
    | O => Fatal UtilsFuel
    | S fuel =>
        '(current, it) ← Next q it;
        _ ← utils_assert (negb (current =? NULL));
        if current =? id then Ok current else find_message fuel q it id
    end
  else Ok NULL.

Definition FindMessageById (q : MessageQueue) (id : Z) : result Z :=
  find_message (size (cells q)) q (head_ q) id.
