(* ===== verification/MessageQueueSpec.v ===== *)
(** [MessageQueue] refines a list of messages: [Enqueue] appends, or inserts a control message
    after the control messages at the front; [Dequeue] takes the first. *)
From stdpp Require Import base numbers list gmap fin_maps.
From Stdlib Require Import ZArith Lia.
From S2P Require Import Prelude Utils MessageQueue.
Local Open Scope Z_scope.

(** ** List segments *)

(** The messages [l] are linked from [p] up to [q]. *)
Fixpoint lseg (cs : gmap Z Cell) (p : Z) (l : list (Z * Message)) (q : Z) : Prop :=
  match l with
  | [] => p = q
  | (a, m) :: l => p = a /\ a <> NULL /\ exists n, cs !! a = Some (mkCell n m) /\ lseg cs n l q
  end.

Lemma lseg_app cs l1 l2 q : forall p, lseg cs p (l1 ++ l2) q <-> exists r, lseg cs p l1 r /\ lseg cs r l2 q.
Proof.
  induction l1 as [|[a m] l1 IH]; intros p; simpl.
  - split; [by exists p|]. by intros (r & -> & ?).
  - setoid_rewrite IH. split.
    + intros (-> & N & n & Hn & r & H1 & H2). exists r. split; [|done]. split; [done|]. split; [done|]. by exists n.
    + intros (r & (-> & N & n & Hn & H1) & H2). split; [done|]. split; [done|]. exists n. split; [done|]. by exists r.
Qed.

Lemma lseg_insert cs a c l q : forall p, (a ∉ l.*1) -> lseg cs p l q -> lseg (<[a := c]> cs) p l q.
Proof.
  induction l as [|[b m] l IH]; intros p Ha; [done|]. rewrite fmap_cons, not_elem_of_cons in Ha. simpl in *.
  destruct Ha as [N Ha]. intros (-> & ? & n & Hn & HS). split; [done|]. split; [done|]. exists n.
  rewrite lookup_insert_ne by congruence. split; [done|]. by apply IH.
Qed.

Lemma lseg_delete cs a l q : forall p, (a ∉ l.*1) -> lseg cs p l q -> lseg (delete a cs) p l q.
Proof.
  induction l as [|[b m] l IH]; intros p Ha; [done|]. rewrite fmap_cons, not_elem_of_cons in Ha. simpl in *.
  destruct Ha as [N Ha]. intros (-> & ? & n & Hn & HS). split; [done|]. split; [done|]. exists n.
  rewrite lookup_delete_ne by congruence. split; [done|]. by apply IH.
Qed.

(** The last link of a segment is redirected. *)
Lemma lseg_set_last cs p l a m q r :
  (a ∉ l.*1) -> lseg cs p (l ++ [(a, m)]) q -> lseg (<[a := mkCell r m]> cs) p (l ++ [(a, m)]) r.
Proof.
  intros Ha (b & HS & -> & N & n & Hn & _)%lseg_app. apply lseg_app. exists a. split; [by apply lseg_insert|].
  simpl. split; [done|]. split; [done|]. exists r. by rewrite lookup_insert_eq.
Qed.

(** ** The list of a queue *)

Definition last_address (l : list (Z * Message)) : Z :=
  match last l with Some (a, _) => a | None => NULL end.

Record rep (q : MessageQueue) (l : list (Z * Message)) : Prop := {
  rep_chain : lseg (cells q) (head_ q) l NULL;
  rep_nodup : NoDup l.*1;
  rep_owned : dom (cells q) = list_to_set l.*1;
  rep_tail : tail_ q = last_address l;
}.

Lemma queue_rep_size q l : rep q l -> size (cells q) = length l.
Proof.
  intros [_ HN HO _]. rewrite <- size_dom, HO, size_list_to_set by done. by rewrite length_fmap.
Qed.

Lemma rep_fresh q l a : rep q l -> a ∉ l.*1 -> cells q !! a = None.
Proof. intros HR Ha. apply not_elem_of_dom. rewrite (rep_owned _ _ HR). set_solver. Qed.

Lemma IsEmpty_rep q l : rep q l -> IsEmpty q = true <-> l = [].
Proof.
  intros [HC _ _ _]. unfold IsEmpty. rewrite Z.eqb_eq. destruct l as [|[a m] l]; [done|].
  destruct HC as (E & N & _). split; congruence.
Qed.

Lemma rep_new : rep MessageQueue_new [].
Proof. constructor; try done. constructor. Qed.

(** ** [Enqueue] *)

Definition is_control (x : Z * Message) : bool := dest_port_ x.2 =? kIllegalPort.

(** After the control messages at the front. *)
Fixpoint insert_control (x : Z * Message) (l : list (Z * Message)) : list (Z * Message) :=
  match l with
  | [] => [x]
  | y :: l' => if is_control y then y :: insert_control x l' else x :: l
  end.

Definition enqueue_list (l : list (Z * Message)) (x : Z * Message) (before_events : bool) :=
  if before_events then insert_control x l else l ++ [x].

Lemma insert_control_perm x l : insert_control x l ≡ₚ x :: l.
Proof.
  induction l as [|y l IH]; [done|]. simpl. destruct (is_control y); [|done].
  rewrite IH. by constructor.
Qed.

Lemma enqueue_perm l x b : enqueue_list l x b ≡ₚ x :: l.
Proof. destruct b; simpl; [apply insert_control_perm|]. by rewrite Permutation_app_comm. Qed.

Lemma last_address_snoc l a m : last_address (l ++ [(a, m)]) = a.
Proof. unfold last_address. by rewrite last_snoc. Qed.

(** The representation after a change of the links. *)
Lemma rep_put q l cs h t x l' :
  rep q l -> x.1 ∉ l.*1 -> l' ≡ₚ x :: l -> dom cs = {[ x.1 ]} ∪ dom (cells q) ->
  lseg cs h l' NULL -> t = last_address l' -> rep (mkQueue cs h t) l'.
Proof.
  intros [HC HN HO HT] Hx HP HD HS Ht. constructor; simpl; [done| | |done].
  - rewrite HP. by constructor.
  - rewrite HD, HO, HP. done.
Qed.

Lemma cell_at_ok cs a c : cs !! a = Some c -> cell_at cs a = Ok c.
Proof. intros E. unfold cell_at. by rewrite E. Qed.

Lemma set_next_ok cs a c n : cs !! a = Some c -> set_next cs a n = Ok (<[a := mkCell n (message c)]> cs).
Proof. intros E. unfold set_next. by rewrite (cell_at_ok _ _ _ E), Ok_bind. Qed.

(** The queue with the cell of the message that is not linked yet. *)
Definition with_cell (q : MessageQueue) (msg : Z) (m : Message) : gmap Z Cell :=
  <[msg := mkCell NULL m]> (cells q).

Lemma dom_with_cell q msg m a c :
  a = msg \/ a ∈ dom (cells q) -> dom (<[a := c]> (with_cell q msg m)) = {[ msg ]} ∪ dom (cells q).
Proof. intros Ha. unfold with_cell. rewrite !dom_insert_L. apply subseteq_union_1_L. destruct Ha as [->|]; set_solver. Qed.

Lemma append_ok q l msg m l' t mt :
  rep q l -> msg <> NULL -> (msg ∉ l.*1) -> l = l' ++ [(t, mt)] ->
  exists cs, set_next (with_cell q msg m) (tail_ q) msg = Ok cs /\
    rep (mkQueue cs (head_ q) msg) (l ++ [(msg, m)]).
Proof.
  intros HR H0 Hm El. pose proof (rep_chain _ _ HR) as HC. pose proof (rep_nodup _ _ HR) as HN.
  pose proof (rep_tail _ _ HR) as HT. rewrite El, last_address_snoc in HT. rewrite HT.
  assert (Ht : (t ∉ l'.*1) /\ t <> msg).
  { rewrite El in HN, Hm. rewrite fmap_app in HN, Hm. apply NoDup_app in HN as (_ & HN & _). split.
    - intros H. apply (HN t H). by left.
    - intros ->. apply Hm, elem_of_app. right. by left. }
  destruct Ht as [Ht Nt].
  assert (Hc : exists n, cells q !! t = Some (mkCell n mt)).
  { rewrite El in HC. apply lseg_app in HC as (r & _ & _ & _ & n & Hn & _). by exists n. }
  destruct Hc as [n Hn]. eexists. split.
  { apply (set_next_ok _ _ (mkCell n mt)). unfold with_cell. by rewrite lookup_insert_ne. }
  cbn [message]. apply (rep_put q l) with (x := (msg, m)); [done|done| | | |].
  - by rewrite Permutation_app_comm.
  - apply dom_with_cell. right. by eapply elem_of_dom_2.
  - apply lseg_app. exists msg. split.
    + rewrite El. apply (lseg_set_last _ _ _ _ _ NULL); [done|]. rewrite <- El. by apply lseg_insert.
    + simpl. split; [done|]. split; [done|]. exists NULL. split; [|done].
      unfold with_cell. by rewrite lookup_insert_ne, lookup_insert_eq.
  - by rewrite last_address_snoc.
Qed.


Lemma NoDup_middle (l1 l2 : list Z) a : NoDup (l1 ++ a :: l2) -> (a ∉ l1) /\ (a ∉ l2).
Proof.
  intros (_ & H1 & H2)%NoDup_app. apply NoDup_cons in H2 as [H2 _]. split; [|done].
  intros H. apply (H1 a H). by left.
Qed.

(** The message is linked in between [cur] and [b]. *)
Lemma splice_ok q l1 cur mc b mb l2 msg m :
  rep q (l1 ++ (cur, mc) :: (b, mb) :: l2) -> msg <> NULL -> (msg ∉ (l1 ++ (cur, mc) :: (b, mb) :: l2).*1) ->
  exists cs1 cs2, set_next (with_cell q msg m) msg b = Ok cs1 /\ set_next cs1 cur msg = Ok cs2 /\
    rep (mkQueue cs2 (head_ q) (tail_ q)) (l1 ++ (cur, mc) :: (msg, m) :: (b, mb) :: l2).
Proof.
  intros HR H0 Hm. pose proof HR as [HC HN HO HT].
  rewrite fmap_app, fmap_cons in HN. apply NoDup_middle in HN as [Nc1 Nc2].
  pose proof Hm as Hm'. rewrite fmap_app, fmap_cons in Hm'.
  rewrite not_elem_of_app, not_elem_of_cons in Hm'. destruct Hm' as (M1 & Nc & M2). cbn [fst] in *.
  pose proof HC as (r & HS1 & -> & Ncur & n & Hn & HS2)%lseg_app. pose proof HS2 as [-> _].
  do 2 eexists. split.
  { apply (set_next_ok _ _ (mkCell NULL m)). unfold with_cell. by rewrite lookup_insert_eq. }
  cbn [message]. unfold with_cell. rewrite insert_insert_eq. split.
  { apply (set_next_ok _ _ (mkCell b mc)). by rewrite lookup_insert_ne. }
  cbn [message]. apply (rep_put q _ _ _ _ (msg, m) _ HR Hm).
  - rewrite !Permutation_middle. rewrite perm_swap. by rewrite <- Permutation_middle.
  - rewrite !dom_insert_L. apply elem_of_dom_2 in Hn. clear - Hn. set_solver.
  - apply lseg_app. exists cur. split; [by apply lseg_insert, lseg_insert|].
    cbn [lseg]. split; [done|]. split; [done|]. exists msg. rewrite lookup_insert_eq. split; [done|].
    split; [done|]. split; [done|]. exists b. rewrite lookup_insert_ne, lookup_insert_eq by done. split; [done|].
    by apply (lseg_insert _ _ _ ((b, mb) :: l2)), (lseg_insert _ _ _ ((b, mb) :: l2)).
  - rewrite HT. unfold last_address. by rewrite !last_app_cons, !last_cons_cons.
Qed.

Lemma enqueue_loop_unfold fuel q msg cur :
  enqueue_loop fuel q msg cur =
  (c ← cell_at (cells q) cur;
   if next_ c =? NULL then
     _ ← utils_assert (tail_ q =? cur);
     t ← cell_at (cells q) (tail_ q);
     _ ← utils_assert (dest_port_ (message t) =? kIllegalPort);
     cs ← set_next (cells q) (tail_ q) msg;
     Ok (mkQueue cs (head_ q) msg)
   else
     n ← cell_at (cells q) (next_ c);
     if negb (dest_port_ (message n) =? kIllegalPort) then
       cs ← set_next (cells q) msg (next_ c);
       cs ← set_next cs cur msg;
       Ok (mkQueue cs (head_ q) (tail_ q))
     else
       match fuel with O => Fatal UtilsFuel | S fuel => enqueue_loop fuel q msg (next_ c) end).
Proof. by destruct fuel. Qed.

(** [cur] is a control message of the queue. *)
Lemma enqueue_loop_ok q msg m l2 : forall fuel l1 cur mc,
  rep q (l1 ++ (cur, mc) :: l2) -> msg <> NULL -> (msg ∉ (l1 ++ (cur, mc) :: l2).*1) ->
  is_control (cur, mc) = true -> (length l2 <= fuel)%nat ->
  exists q', enqueue_loop fuel (mkQueue (with_cell q msg m) (head_ q) (tail_ q)) msg cur = Ok q' /\
    rep q' (l1 ++ (cur, mc) :: insert_control (msg, m) l2).
Proof.
  induction l2 as [|[b mb] l2 IH]; intros fuel l1 cur mc HR H0 Hm HK HF; pose proof HR as [HC HN HO HT];
    pose proof HC as (r & HS1 & -> & Ncur & n & Hn & HS2)%lseg_app;
    pose proof Hm as Hm'; rewrite fmap_app, not_elem_of_app in Hm'; destruct Hm' as [Hm1 Hm2];
    pose proof (proj1 (not_elem_of_cons _ _ _) Hm2) as [Nm Hm3]; cbn [fst] in Nm;
    (assert (Hn' : with_cell q msg m !! cur = Some (mkCell n mc)) by (unfold with_cell; by rewrite lookup_insert_ne));
    rewrite enqueue_loop_unfold; cbn [cells tail_ head_]; rewrite (cell_at_ok _ _ _ Hn'), Ok_bind; cbn [next_].
  - simpl in HS2. subst n. rewrite last_address_snoc in HT.
    destruct (append_ok q (l1 ++ [(cur, mc)]) msg m l1 cur mc) as (cs & E & HR'); [done..|].
    rewrite HT in *. rewrite !Z.eqb_refl. cbn [utils_assert]. rewrite Ok_bind, (cell_at_ok _ _ _ Hn'), Ok_bind.
    unfold is_control in HK. cbn [snd message] in *. rewrite HK. cbn [utils_assert]. rewrite Ok_bind, E, Ok_bind.
    eexists. split; [done|]. by rewrite <- app_assoc in HR'.
  - destruct HS2 as (-> & Nb & nb & Hb & HS2). rewrite (proj2 (Z.eqb_neq b NULL)) by done.
    assert (Hb' : with_cell q msg m !! b = Some (mkCell nb mb)).
    { unfold with_cell. rewrite lookup_insert_ne; [done|]. intros ->. apply Hm3. by left. }
    rewrite (cell_at_ok _ _ _ Hb'), Ok_bind. cbn [message insert_control]. unfold is_control at 1. cbn [snd].
    destruct (dest_port_ mb =? kIllegalPort) eqn:EK; cbn [negb].
    + destruct fuel as [|fuel]; [simpl in HF; lia|].
      destruct (IH fuel (l1 ++ [(cur, mc)]) b mb) as (q' & -> & HR'); rewrite <- ?app_assoc; try done; [simpl in *; lia|].
      exists q'. split; [done|]. by rewrite <- app_assoc in HR'.
    + destruct (splice_ok q l1 cur mc b mb l2 msg m HR H0 Hm) as (cs1 & cs2 & -> & E2 & HR').
      rewrite Ok_bind, E2, Ok_bind. eexists. done.
Qed.

Lemma Enqueue_ok q l msg m before_events :
  rep q l -> msg <> NULL -> (msg ∉ l.*1) -> (before_events = true -> l <> [] -> dest_port_ m = kIllegalPort) ->
  exists q', Enqueue q msg m before_events = Ok q' /\ rep q' (enqueue_list l (msg, m) before_events).
Proof.
  intros HR H0 Hm HB. pose proof HR as [HC HN HO HT]. unfold Enqueue. fold (with_cell q msg m).
  destruct l as [|[h mh] l].
  - simpl in HC. rewrite HC, HT. cbn. eexists. split; [done|].
    assert (HR' : rep (mkQueue (with_cell q msg m) msg msg) [(msg, m)]); [|by destruct before_events].
    apply (rep_put q _ _ _ _ (msg, m) _ HR Hm); [done|by unfold with_cell; rewrite dom_insert_L| |done].
    simpl. split; [done|]. split; [done|]. exists NULL. unfold with_cell. by rewrite lookup_insert_eq.
  - destruct HC as (Eh & Nh & n & Hn & HS). rewrite Eh, (proj2 (Z.eqb_neq h NULL)) by done.
    destruct (exists_last (l := (h, mh) :: l)) as (l' & [t mt] & El); [done|].
    assert (Ht : tail_ q <> NULL).
    { rewrite HT, El, last_address_snoc. intros ->. pose proof (rep_chain _ _ HR) as HC. rewrite El in HC.
      apply lseg_app in HC as (r & _ & _ & N & _). done. }
    rewrite (proj2 (Z.eqb_neq _ _) Ht). cbn [negb utils_assert]. rewrite Ok_bind.
    destruct before_events; cbn [negb enqueue_list].
    + rewrite HB, Z.eqb_refl by done. cbn [utils_assert]. rewrite Ok_bind.
      assert (Hh : with_cell q msg m !! h = Some (mkCell n mh)).
      { unfold with_cell. rewrite lookup_insert_ne; [done|]. intros ->. apply Hm. by left. }
      rewrite (cell_at_ok _ _ _ Hh), Ok_bind. cbn [message insert_control]. unfold is_control at 1. cbn [snd].
      destruct (dest_port_ mh =? kIllegalPort) eqn:EK; cbn [negb].
      * destruct (enqueue_loop_ok q msg m l (size (with_cell q msg m)) [] h mh) as (q' & E & HR'); try done.
        { unfold with_cell. rewrite map_size_insert_None by (by apply (rep_fresh q ((h, mh) :: l))). rewrite (queue_rep_size _ _ HR). simpl. lia. }
        rewrite Eh in E. by exists q'.
      * rewrite (set_next_ok _ _ (mkCell NULL m)) by (unfold with_cell; by rewrite lookup_insert_eq).
        rewrite Ok_bind. eexists. split; [done|]. cbn [message].
        apply (rep_put q _ _ _ _ (msg, m) _ HR Hm); [done|by apply dom_with_cell; left| |].
        -- cbn [lseg]. split; [done|]. split; [done|]. exists h. rewrite lookup_insert_eq. split; [done|].
           unfold with_cell. rewrite insert_insert_eq. apply (lseg_insert _ _ _ ((h, mh) :: l)); [done|].
           pose proof (rep_chain _ _ HR) as HC. by rewrite Eh in HC.
        -- rewrite HT. unfold last_address. by rewrite !last_cons_cons.
    + destruct (append_ok q ((h, mh) :: l) msg m l' t mt) as (cs & -> & HR'); [done..|]. rewrite Ok_bind, Eh in *. by eexists.
Qed.

(** ** [Dequeue] and [Clear] *)

Lemma rep_pop q a m l n :
  rep q ((a, m) :: l) -> cells q !! a = Some (mkCell n m) -> lseg (cells q) n l NULL ->
  rep (mkQueue (delete a (cells q)) n (if n =? NULL then NULL else tail_ q)) l.
Proof.
  intros [HC HN HO HT] Hn HS. rewrite fmap_cons in HN, HO. apply NoDup_cons in HN as [Ha HN]. cbn [fst] in *.
  constructor; simpl.
  - by apply lseg_delete.
  - done.
  - rewrite dom_delete_L, HO. simpl. assert (a ∉ (list_to_set l.*1 : gset Z)) by (by rewrite elem_of_list_to_set).
    clear - H. set_solver.
  - destruct l as [|[b mb] l]; [simpl in HS; by rewrite HS|].
    destruct HS as (-> & Nb & _). rewrite (proj2 (Z.eqb_neq b NULL)) by done. rewrite HT.
    unfold last_address. by rewrite last_cons_cons.
Qed.

Lemma Dequeue_ok q l :
  rep q l ->
  match l with
  | [] => Dequeue q = Ok (q, None)
  | x :: l => exists q', Dequeue q = Ok (q', Some x) /\ rep q' l
  end.
Proof.
  intros HR. pose proof (rep_chain _ _ HR) as HC. unfold Dequeue. destruct l as [|[a m] l].
  - simpl in HC. by rewrite HC.
  - destruct HC as (Ea & Na & n & Hn & HS). rewrite Ea, (proj2 (Z.eqb_neq a NULL)) by done. cbn [negb].
    rewrite (cell_at_ok _ _ _ Hn), Ok_bind. cbn [next_ message]. eexists. split; [done|]. by apply (rep_pop q a m).
Qed.

Lemma clear_loop_ok l : forall fuel q,
  rep q l -> (length l <= fuel)%nat -> clear_loop fuel (cells q) (head_ q) = Ok ∅.
Proof.
  induction l as [|[a m] l IH]; intros fuel q HR HF; pose proof (rep_chain _ _ HR) as HC.
  - simpl in HC. rewrite HC. destruct fuel; cbn [clear_loop]; (rewrite (proj1 (map_size_empty_iff (cells q)));
      [done|by rewrite (queue_rep_size _ _ HR)]).
  - destruct fuel as [|fuel]; [simpl in HF; lia|]. destruct HC as (Ea & Na & n & Hn & HS). cbn [clear_loop].
    rewrite Ea, (proj2 (Z.eqb_neq a NULL)) by done. cbn [negb]. rewrite (cell_at_ok _ _ _ Hn), Ok_bind.
    apply (IH fuel _ (rep_pop q a m l n HR Hn HS)). simpl in HF. lia.
Qed.

Lemma Clear_ok q l : rep q l -> Clear q = Ok MessageQueue_new.
Proof.
  intros HR. unfold Clear. rewrite (clear_loop_ok l) by (done || by rewrite (queue_rep_size _ _ HR)). done.
Qed.

(** ** Iteration *)

Lemma Next_ok cs h t l1 a m l2 :
  lseg cs h (l1 ++ (a, m) :: l2) NULL ->
  exists n, Next (mkQueue cs h t) a = Ok (a, n) /\ a <> NULL /\ lseg cs n l2 NULL.
Proof.
  intros (r & _ & -> & N & n & Hn & HS)%lseg_app. exists n. unfold Next. cbn [cells].
  rewrite (cell_at_ok _ _ _ Hn), Ok_bind. done.
Qed.

Lemma length_loop_ok q l2 : forall fuel it k l1,
  rep q (l1 ++ l2) -> lseg (cells q) it l2 NULL -> (length l2 <= fuel)%nat ->
  length_loop fuel q it k = Ok (k + Z.of_nat (length l2)).
Proof.
  induction l2 as [|[a m] l2 IH]; intros fuel it k l1 HR HS HF.
  - simpl in HS. subst. destruct fuel; cbn; f_equal; lia.
  - destruct fuel as [|fuel]; [simpl in HF; lia|]. destruct HS as (-> & N & _). cbn [length_loop].
    rewrite (proj2 (Z.eqb_neq a NULL)) by done. cbn [negb]. destruct q as [cs h t].
    destruct (Next_ok cs h t l1 a m l2 (rep_chain _ _ HR)) as (n & -> & _ & HS'). rewrite Ok_bind.
    rewrite (IH fuel n _ (l1 ++ [(a, m)])); [simpl length; f_equal; lia|by rewrite <- app_assoc|done|simpl in HF; lia].
Qed.

Lemma Length_ok q l : rep q l -> Length q = Ok (Z.of_nat (length l)).
Proof.
  intros HR. unfold Length. apply (length_loop_ok q l _ _ 0 []); [done|apply HR|by rewrite (queue_rep_size _ _ HR)].
Qed.

Lemma find_message_ok q id l2 : forall fuel it l1,
  rep q (l1 ++ l2) -> lseg (cells q) it l2 NULL -> (length l2 <= fuel)%nat -> (id ∉ l1.*1) ->
  find_message fuel q it id = Ok (if decide (id ∈ l2.*1) then id else NULL).
Proof.
  induction l2 as [|[a m] l2 IH]; intros fuel it l1 HR HS HF H1.
  - simpl in HS. subst. rewrite decide_False by apply not_elem_of_nil. by destruct fuel.
  - destruct fuel as [|fuel]; [simpl in HF; lia|]. destruct HS as (-> & N & _). cbn [find_message].
    rewrite (proj2 (Z.eqb_neq a NULL)) by done. cbn [negb]. destruct q as [cs h t].
    destruct (Next_ok cs h t l1 a m l2 (rep_chain _ _ HR)) as (n & -> & _ & HS'). rewrite Ok_bind.
    rewrite (proj2 (Z.eqb_neq a NULL)) by done. cbn [negb utils_assert]. rewrite Ok_bind.
    destruct (Z.eqb_spec a id) as [->|Na]; [by rewrite decide_True by left|].
    rewrite (IH fuel n (l1 ++ [(a, m)])).
    + f_equal. apply decide_ext. rewrite fmap_cons, elem_of_cons. naive_solver.
    + by rewrite <- app_assoc.
    + done.
    + simpl in HF. lia.
    + rewrite fmap_app, not_elem_of_app. split; [done|]. simpl. rewrite list_elem_of_singleton. naive_solver.
Qed.

Lemma FindMessageById_ok q l id :
  rep q l -> FindMessageById q id = Ok (if decide (id ∈ l.*1) then id else NULL).
Proof.
  intros HR. unfold FindMessageById. apply (find_message_ok q id l _ _ []); [done|apply HR| |apply not_elem_of_nil].
  by rewrite (queue_rep_size _ _ HR).
Qed.

(** ** Sequences of operations *)

Inductive queue_op :=
  | EnqueueOp (msg : Z) (m : Message) (before_events : bool)
  | DequeueOp
  | ClearOp
  | LengthOp
  | FindOp (id : Z).

(** What an operation returns. *)
Inductive queue_answer :=
  | Done
  | Dequeued (x : option (Z * Message))
  | Number (n : Z).

Definition run_queue_op (q : MessageQueue) (o : queue_op) : result (MessageQueue * queue_answer) :=
  match o with
  | EnqueueOp msg m before_events => q ← Enqueue q msg m before_events; Ok (q, Done)
  | DequeueOp => '(q, x) ← Dequeue q; Ok (q, Dequeued x)
  | ClearOp => q ← Clear q; Ok (q, Done)
  | LengthOp => n ← Length q; Ok (q, Number n)
  | FindOp id => n ← FindMessageById q id; Ok (q, Number n)
  end.

Fixpoint run_queue_ops (q : MessageQueue) (os : list queue_op) : result (MessageQueue * list queue_answer) :=
  match os with
  | [] => Ok (q, [])
  | o :: os => '(q, a) ← run_queue_op q o; '(q, rest) ← run_queue_ops q os; Ok (q, a :: rest)
  end.

Definition spec_queue_op (l : list (Z * Message)) (o : queue_op) : list (Z * Message) * queue_answer :=
  match o with
  | EnqueueOp msg m before_events => (enqueue_list l (msg, m) before_events, Done)
  | DequeueOp => (tail l, Dequeued (head l))
  | ClearOp => ([], Done)
  | LengthOp => (l, Number (Z.of_nat (length l)))
  | FindOp id => (l, Number (if decide (id ∈ l.*1) then id else NULL))
  end.

Fixpoint spec_queue_ops (l : list (Z * Message)) (os : list queue_op) : list (Z * Message) * list queue_answer :=
  match os with
  | [] => (l, [])
  | o :: os => let '(l, a) := spec_queue_op l o in let '(l, rest) := spec_queue_ops l os in (l, a :: rest)
  end.

(** A message that is enqueued lives at an address of its own, and only control messages are
    enqueued before events. *)
Fixpoint queue_ops_ok (l : list (Z * Message)) (os : list queue_op) : Prop :=
  match os with
  | [] => True
  | o :: os =>
      match o with
      | EnqueueOp msg m before_events =>
          msg <> NULL /\ (msg ∉ l.*1) /\ (before_events = true -> dest_port_ m = kIllegalPort)
      | _ => True
      end /\ queue_ops_ok (spec_queue_op l o).1 os
  end.

Lemma run_queue_op_ok q l o os :
  rep q l -> queue_ops_ok l (o :: os) ->
  exists q', run_queue_op q o = Ok (q', (spec_queue_op l o).2) /\ rep q' (spec_queue_op l o).1.
Proof.
  intros HR [HO _]. destruct o as [msg m b| | | |id]; cbn [run_queue_op spec_queue_op fst snd] in *.
  - destruct HO as (H0 & Hm & HB). destruct (Enqueue_ok q l msg m b) as (q' & -> & HR'); [auto..|].
    rewrite Ok_bind. eauto.
  - pose proof (Dequeue_ok q l HR) as HD. destruct l as [|x l].
    + rewrite HD, Ok_bind. eauto.
    + destruct HD as (q' & -> & HR'). rewrite Ok_bind. eauto.
  - rewrite (Clear_ok q l HR), Ok_bind. eauto using rep_new.
  - rewrite (Length_ok q l HR), Ok_bind. eauto.
  - rewrite (FindMessageById_ok q l id HR), Ok_bind. eauto.
Qed.

Lemma run_queue_ops_ok os : forall q l,
  rep q l -> queue_ops_ok l os ->
  exists q', run_queue_ops q os = Ok (q', (spec_queue_ops l os).2) /\ rep q' (spec_queue_ops l os).1.
Proof.
  induction os as [|o os IH]; intros q l HR HO; [by exists q|]. cbn [run_queue_ops spec_queue_ops].
  destruct (run_queue_op_ok q l o os HR HO) as (q' & -> & HR'). rewrite Ok_bind. destruct HO as [_ HO].
  destruct (spec_queue_op l o) as [l' a]. cbn [fst snd] in *.
  destruct (IH q' l' HR' HO) as (q'' & -> & HR''). rewrite Ok_bind. destruct (spec_queue_ops l' os). eauto.
Qed.

(** C20: a message queue behaves as a list of messages: [Enqueue] appends the message, or puts
    a control message after the control messages at the front and before all events,
    [Dequeue] takes the first one, and [Length] and [FindMessageById] see exactly the messages
    that are pending. No assertion fails, no list is cyclic and no message is leaked: the
    queue owns the pending messages only. *)
Theorem message_queue_refines os :
  queue_ops_ok [] os ->
  exists q, run_queue_ops MessageQueue_new os = Ok (q, (spec_queue_ops [] os).2) /\
    dom (cells q) = list_to_set (spec_queue_ops [] os).1.*1.
Proof.
  intros HO. destruct (run_queue_ops_ok os _ _ rep_new HO) as (q & E & HR). exists q. split; [done|apply HR].
Qed.

Definition event (p : Z) : Message := Message_raw p 0 kNormalPriority.

Lemma message_queue_refines_witness :
  exists q, run_queue_ops MessageQueue_new
      [EnqueueOp 8 (event 7) false; EnqueueOp 16 (event 0) true; EnqueueOp 24 (event 0) true;
       LengthOp; FindOp 24; DequeueOp; DequeueOp; DequeueOp; DequeueOp] =
      Ok (q, [Done; Done; Done; Number 3; Number 24; Dequeued (Some (16, event 0));
              Dequeued (Some (24, event 0)); Dequeued (Some (8, event 7)); Dequeued None]) /\
    dom (cells q) = (∅ : gset Z).
Proof.
  destruct (message_queue_refines
      [EnqueueOp 8 (event 7) false; EnqueueOp 16 (event 0) true; EnqueueOp 24 (event 0) true;
       LengthOp; FindOp 24; DequeueOp; DequeueOp; DequeueOp; DequeueOp]) as (q & E & HD).
  { repeat split; try done; try (by apply (bool_decide_unpack _)). }
  exists q. split; [exact E|exact HD].
Defined.
