(* ===== verification/ThreadPool.v ===== *)
(** The thread pool: [runtime/vm/thread_pool.h] and [.cc].

    The functions with the suffix [Locked], and the pieces of [WorkerLoop], [RunImpl] and
    [Shutdown] between taking and releasing the monitor of the pool, are functions on the
    fields of the pool; a failed [ASSERT] is [Fatal PoolAssertion]. A worker and a task are
    numbers, which stand for their addresses.

    Around them the threads are a state machine: where each worker is in its loop, whether a
    waiting worker has been notified, whom a thread that has left the loop still has to join.
    An [action] is what one thread does next; a list of actions is an interleaving. An action
    that is not possible in a state leaves it as it is. Waiting can end at any time, as a
    condition variable allows. [OnEnterIdleLocked], which subclasses override, does nothing. A
    worker marks itself as blocked while it executes a task, and only when it is not blocked yet;
    [Shutdown] is called once, as a later call finds nothing left to do. *)
From stdpp Require Import base numbers list gmap.
From Stdlib Require Import ZArith Lia.
From S2P Require Import Prelude.
Local Open Scope Z_scope.

Inductive pool_error := PoolAssertion.
Abbreviation result := (outcome pool_error).
Definition pool_assert (b : bool) : result () := if b then Ok () else Fatal PoolAssertion.

Abbreviation worker := nat.
Abbreviation task := nat.

Record ThreadPool := mkPool {
  shutting_down_ : bool;
  count_running_ : Z;
  count_idle_ : Z;
  count_dead_ : Z;
  running_workers_ : list worker;
  idle_workers_ : list worker;
  dead_workers_ : list worker;
  pending_tasks_ : Z;
  tasks_ : list task;
  all_workers_dead_ : bool;
  max_pool_size_ : Z;
}.

Definition ThreadPool_new (max_pool_size : Z) : ThreadPool := mkPool false 0 0 0 [] [] [] 0 [] false max_pool_size.

(** ** Lists of workers *)

Definition IsEmpty {A} (l : list A) : bool := match l with [] => true | _ => false end.
Definition ContainsForDebugging (l : list worker) (w : worker) : bool := bool_decide (w ∈ l).
Definition Remove (l : list worker) (w : worker) : list worker := filter (fun x => x <> w) l.

(** The fields of the running, the idle and the dead workers. *)
Definition set_running (l : list worker) (n : Z) (p : ThreadPool) : ThreadPool :=
  mkPool (shutting_down_ p) n (count_idle_ p) (count_dead_ p) l (idle_workers_ p) (dead_workers_ p)
    (pending_tasks_ p) (tasks_ p) (all_workers_dead_ p) (max_pool_size_ p).
Definition set_idle (l : list worker) (n : Z) (p : ThreadPool) : ThreadPool :=
  mkPool (shutting_down_ p) (count_running_ p) n (count_dead_ p) (running_workers_ p) l (dead_workers_ p)
    (pending_tasks_ p) (tasks_ p) (all_workers_dead_ p) (max_pool_size_ p).
Definition set_dead (l : list worker) (n : Z) (p : ThreadPool) : ThreadPool :=
  mkPool (shutting_down_ p) (count_running_ p) (count_idle_ p) n (running_workers_ p) (idle_workers_ p) l
    (pending_tasks_ p) (tasks_ p) (all_workers_dead_ p) (max_pool_size_ p).
Definition set_tasks (l : list task) (n : Z) (p : ThreadPool) : ThreadPool :=
  mkPool (shutting_down_ p) (count_running_ p) (count_idle_ p) (count_dead_ p) (running_workers_ p) (idle_workers_ p)
    (dead_workers_ p) n l (all_workers_dead_ p) (max_pool_size_ p).
Definition set_max (n : Z) (p : ThreadPool) : ThreadPool :=
  mkPool (shutting_down_ p) (count_running_ p) (count_idle_ p) (count_dead_ p) (running_workers_ p) (idle_workers_ p)
    (dead_workers_ p) (pending_tasks_ p) (tasks_ p) (all_workers_dead_ p) n.
Definition set_flags (shutting_down all_dead : bool) (p : ThreadPool) : ThreadPool :=
  mkPool shutting_down (count_running_ p) (count_idle_ p) (count_dead_ p) (running_workers_ p) (idle_workers_ p)
    (dead_workers_ p) (pending_tasks_ p) (tasks_ p) all_dead (max_pool_size_ p).

Definition inc (n : Z) : Z := wrapu 64 (n + 1).
Definition dec (n : Z) : Z := wrapu 64 (n - 1).

Definition IdleToRunningLocked (w : worker) (p : ThreadPool) : result ThreadPool :=
  _ ← pool_assert (ContainsForDebugging (idle_workers_ p) w);
  let p := set_idle (Remove (idle_workers_ p) w) (dec (count_idle_ p)) p in
  Ok (set_running (running_workers_ p ++ [w]) (inc (count_running_ p)) p).

Definition RunningToIdleLocked (w : worker) (p : ThreadPool) : result ThreadPool :=
  _ ← pool_assert (IsEmpty (tasks_ p));
  _ ← pool_assert (ContainsForDebugging (running_workers_ p) w);
  let p := set_running (Remove (running_workers_ p) w) (dec (count_running_ p)) p in
  Ok (set_idle (idle_workers_ p ++ [w]) (inc (count_idle_ p)) p).

(** The exit monitor is notified by setting [all_workers_dead_]. *)
Definition IdleToDeadLocked (w : worker) (p : ThreadPool) : result ThreadPool :=
  _ ← pool_assert (IsEmpty (tasks_ p));
  _ ← pool_assert (ContainsForDebugging (idle_workers_ p) w);
  let p := set_idle (Remove (idle_workers_ p) w) (dec (count_idle_ p)) p in
  let p := set_dead (dead_workers_ p ++ [w]) (inc (count_dead_ p)) p in
  Ok (if shutting_down_ p && IsEmpty (running_workers_ p) && IsEmpty (idle_workers_ p)
      then set_flags (shutting_down_ p) true p else p).

(** The dead workers are moved to the list of the caller, which is empty before. *)
Definition ObtainDeadWorkersLocked (p : ThreadPool) : list worker * ThreadPool := (dead_workers_ p, set_dead [] 0 p).

(** A new worker [w]. *)
Definition add_worker (w : worker) (p : ThreadPool) : ThreadPool :=
  set_idle (idle_workers_ p ++ [w]) (inc (count_idle_ p)) p.

(** Whether an idle worker is notified, and the new worker; [w] is the next one to be allocated. *)
Definition ScheduleTaskLocked (t : task) (w : worker) (p : ThreadPool) : result (ThreadPool * bool * option worker) :=
  let p := set_tasks (tasks_ p ++ [t]) (inc (pending_tasks_ p)) p in
  _ ← pool_assert (1 <=? pending_tasks_ p);
  if pending_tasks_ p <=? count_idle_ p then
    _ ← pool_assert (negb (IsEmpty (idle_workers_ p)));
    Ok (p, true, None)
  else if (0 <? max_pool_size_ p) && (max_pool_size_ p <=? wrapu 64 (count_idle_ p + count_running_ p)) then
    Ok (p, negb (IsEmpty (idle_workers_ p)), None)
  else Ok (add_worker w p, false, Some w).

(** [None] when it returns [false]. *)
Definition RunImpl (t : task) (w : worker) (p : ThreadPool) : result (option (ThreadPool * bool * option worker)) :=
  if shutting_down_ p then Ok None else r ← ScheduleTaskLocked t w p; Ok (Some r).

(** ** The loop of a worker *)

(** Where a worker is: its thread is being started, at the start of the loop, executing a task,
    waiting (and notified or not), joining dead workers, or at its end. *)
Inductive Phase :=
| Starting
| Looping
| Executing (t : task)
| Waiting (notified : bool)
| Joining (l : list worker)
| Finished.

(** The end of the loop: the dead workers are taken and the worker dies. *)
Definition leave_loop (w : worker) (p : ThreadPool) : result (Phase * ThreadPool) :=
  let '(l, p) := ObtainDeadWorkersLocked p in
  p ← IdleToDeadLocked w p;
  Ok (Joining l, p).

(** What follows the tasks. *)
Definition after_tasks (w : worker) (p : ThreadPool) : result (Phase * ThreadPool) :=
  _ ← (if IsEmpty (running_workers_ p) then pool_assert (IsEmpty (tasks_ p)) else Ok ());
  if IsEmpty (running_workers_ p) && negb (IsEmpty (tasks_ p)) then Ok (Looping, p)
  else if shutting_down_ p then leave_loop w p
  else Ok (Waiting false, p).

(** From the start of the loop to the first task or the wait. *)
Definition loop_top (w : worker) (p : ThreadPool) : result (Phase * ThreadPool) :=
  if IsEmpty (tasks_ p) then after_tasks w p
  else
    p ← IdleToRunningLocked w p;
    match tasks_ p with
    | [] => after_tasks w p
    | t :: rest => Ok (Executing t, set_tasks rest (dec (pending_tasks_ p)) p)
    end.

(** From the end of a task to the next one or the wait. *)
Definition task_done (w : worker) (p : ThreadPool) : result (Phase * ThreadPool) :=
  match tasks_ p with
  | t :: rest => Ok (Executing t, set_tasks rest (dec (pending_tasks_ p)) p)
  | [] => p ← RunningToIdleLocked w p; after_tasks w p
  end.

(** After a wait. *)
Definition wake (w : worker) (timed_out : bool) (p : ThreadPool) : result (Phase * ThreadPool) :=
  if negb (IsEmpty (tasks_ p)) then Ok (Looping, p)
  else if shutting_down_ p || timed_out then leave_loop w p
  else Ok (Waiting false, p).

(** ** Blocked workers *)

Definition MarkCurrentWorkerAsBlocked (w : worker) (p : ThreadPool) : ThreadPool * option worker :=
  if 0 <? max_pool_size_ p then
    let p := set_max (inc (max_pool_size_ p)) p in
    if IsEmpty (idle_workers_ p) && (0 <? pending_tasks_ p) then (add_worker w p, Some w) else (p, None)
  else (p, None).

Definition MarkCurrentWorkerAsUnBlocked (p : ThreadPool) : result ThreadPool :=
  if 0 <? max_pool_size_ p then
    let p := set_max (dec (max_pool_size_ p)) p in
    _ ← pool_assert (0 <? max_pool_size_ p);
    Ok p
  else Ok p.

(** ** Threads *)

(** The thread that calls [Shutdown]: before, waiting for the exit monitor, joining, after. *)
Inductive ShutdownPhase := ShutNone | ShutWaiting | ShutJoining (l : list worker) | ShutDone.

(** The last fields record the workers that were joined, and when a worker died, the tasks in the
    order in which they were accepted and started, and those that are done. *)
Record System := mkSystem {
  pool : ThreadPool;
  threads : gmap worker Phase;
  blocked : list worker;
  fresh : worker;
  shutdown : ShutdownPhase;
  joined : list worker;
  deaths : gmap worker nat;
  accepted : list task;
  started : list task;
  finished : list task;
}.

Definition System_new (max_pool_size : Z) : System :=
  mkSystem (ThreadPool_new max_pool_size) ∅ [] 0 ShutNone [] ∅ [] [] [].

Inductive action :=
| Run (t : task) (pick : option worker)
| Start (w : worker)
| Enter (w : worker)
| Done (w : worker)
| Wake (w : worker) (timed_out : bool)
| Join (w : worker)
| Block (w : worker)
| Unblock (w : worker)
| Shutdown
| Exit
| ShutJoin.

(** [Notify] wakes one of the workers that are waiting, if there is one. *)
Definition is_waiting (ph : Phase) : bool := match ph with Waiting false => true | _ => false end.

Definition can_notify (pick : option worker) (th : gmap worker Phase) : bool :=
  match pick with
  | Some w => bool_decide (is_waiting <$> th !! w = Some true)
  | None => forallb (fun kv => negb (is_waiting kv.2)) (map_to_list th)
  end.

Definition notify (pick : option worker) (th : gmap worker Phase) : gmap worker Phase :=
  match pick with Some w => <[w := Waiting true]> th | None => th end.

Definition notify_phase (ph : Phase) : Phase := match ph with Waiting _ => Waiting true | _ => ph end.

(** The thread of a new worker is started. *)
Definition spawn (w : option worker) (th : gmap worker Phase) : gmap worker Phase :=
  match w with Some w => <[w := Starting]> th | None => th end.

(** A worker continues: its phase, the tasks it starts, the time of its death. *)
Definition continue (w : worker) (r : Phase * ThreadPool) (done : list task) (s : System) : System :=
  let '(ph, p) := r in
  mkSystem p (<[w := ph]> (threads s)) (blocked s) (fresh s) (shutdown s) (joined s)
    (match ph with Joining _ => <[w := size (deaths s)]> (deaths s) | _ => deaths s end)
    (accepted s) (started s ++ match ph with Executing t => [t] | _ => [] end) (finished s ++ done).

(** Joins [w] and deletes it. *)
Definition join_worker (w : worker) (s : System) : System :=
  mkSystem (pool s) (delete w (threads s)) (blocked s) (fresh s) (shutdown s) (joined s ++ [w]) (deaths s)
    (accepted s) (started s) (finished s).

Definition set_shutdown (sp : ShutdownPhase) (s : System) : System :=
  mkSystem (pool s) (threads s) (blocked s) (fresh s) sp (joined s) (deaths s) (accepted s) (started s) (finished s).

Definition exec (a : action) (s : System) : result System :=
  let th := threads s in
  match a with
  | Run t pick =>
      r ← RunImpl t (fresh s) (pool s);
      match r with
      | None => Ok s
      | Some (p, notifies, new) =>
          if negb notifies || can_notify pick th then
            Ok (mkSystem p (spawn new (if notifies : bool then notify pick th else th)) (blocked s)
                  (match new with Some _ => S (fresh s) | None => fresh s end) (shutdown s) (joined s) (deaths s)
                  (accepted s ++ [t]) (started s) (finished s))
          else Ok s
      end
  | Start w =>
      match th !! w with
      | Some Starting =>
          _ ← pool_assert (ContainsForDebugging (idle_workers_ (pool s)) w);
          Ok (continue w (Looping, pool s) [] s)
      | _ => Ok s
      end
  | Enter w =>
      match th !! w with Some Looping => r ← loop_top w (pool s); Ok (continue w r [] s) | _ => Ok s end
  | Done w =>
      match th !! w with
      | Some (Executing t) =>
          if ContainsForDebugging (blocked s) w then Ok s else r ← task_done w (pool s); Ok (continue w r [t] s)
      | _ => Ok s
      end
  | Wake w timed_out =>
      match th !! w with Some (Waiting _) => r ← wake w timed_out (pool s); Ok (continue w r [] s) | _ => Ok s end
  | Join w =>
      match th !! w with
      | Some (Joining []) => Ok (continue w (Finished, pool s) [] s)
      | Some (Joining (v :: l)) =>
          match th !! v with
          | Some Finished =>
              Ok (join_worker v (mkSystem (pool s) (<[w := Joining l]> th) (blocked s) (fresh s) (shutdown s) (joined s)
                    (deaths s) (accepted s) (started s) (finished s)))
          | _ => Ok s
          end
      | _ => Ok s
      end
  | Block w =>
      match th !! w with
      | Some (Executing _) =>
          if ContainsForDebugging (blocked s) w then Ok s
          else
            let '(p, new) := MarkCurrentWorkerAsBlocked (fresh s) (pool s) in
            Ok (mkSystem p (spawn new th) (w :: blocked s) (match new with Some _ => S (fresh s) | None => fresh s end)
                  (shutdown s) (joined s) (deaths s) (accepted s) (started s) (finished s))
      | _ => Ok s
      end
  | Unblock w =>
      if ContainsForDebugging (blocked s) w then
        p ← MarkCurrentWorkerAsUnBlocked (pool s);
        Ok (mkSystem p th (Remove (blocked s) w) (fresh s) (shutdown s) (joined s) (deaths s) (accepted s) (started s) (finished s))
      else Ok s
  | Shutdown =>
      match shutdown s with
      | ShutNone =>
          let none := IsEmpty (running_workers_ (pool s)) && IsEmpty (idle_workers_ (pool s)) in
          Ok (mkSystem (set_flags true (none || all_workers_dead_ (pool s)) (pool s))
                (if none then th else notify_phase <$> th) (blocked s) (fresh s) ShutWaiting (joined s) (deaths s)
                (accepted s) (started s) (finished s))
      | _ => Ok s
      end
  | Exit =>
      match shutdown s with
      | ShutWaiting =>
          if all_workers_dead_ (pool s) then
            _ ← pool_assert (count_idle_ (pool s) =? 0);
            _ ← pool_assert (count_running_ (pool s) =? 0);
            _ ← pool_assert (IsEmpty (idle_workers_ (pool s)));
            _ ← pool_assert (IsEmpty (running_workers_ (pool s)));
            let '(l, p) := ObtainDeadWorkersLocked (pool s) in
            Ok (mkSystem p th (blocked s) (fresh s) (ShutJoining l) (joined s) (deaths s) (accepted s) (started s) (finished s))
          else Ok s
      | _ => Ok s
      end
  | ShutJoin =>
      match shutdown s with
      | ShutJoining [] =>
          _ ← pool_assert (count_dead_ (pool s) =? 0);
          _ ← pool_assert (IsEmpty (dead_workers_ (pool s)));
          Ok (set_shutdown ShutDone s)
      | ShutJoining (v :: l) =>
          match th !! v with Some Finished => Ok (join_worker v (set_shutdown (ShutJoining l) s)) | _ => Ok s end
      | _ => Ok s
      end
  end.

Fixpoint exec_all (l : list action) (s : System) : result System :=
  match l with [] => Ok s | a :: l => s ← exec a s; exec_all l s end.

(** Two tasks on a pool of one thread, and a shutdown. *)
Example pool_example :
  match exec_all [Run 1 None; Run 2 None; Start 0; Enter 0; Shutdown; Run 3 None; Done 0; Done 0; Join 0; Exit; ShutJoin; ShutJoin]
          (System_new 1) with
  | Ok s => accepted s = [1; 2]%nat /\ finished s = [1; 2]%nat /\ shutdown s = ShutDone /\ joined s = [0]%nat
  | _ => False
  end.
Proof. vm_compute. repeat split. Qed.
