(* ===== verification/ThreadPoolProps.v ===== *)
(** The thread pool under any interleaving: no assertion fails, no task is lost or run twice,
    no pending task is left without a thread that will take it, and shutting down ends. *)
From stdpp Require Import base numbers list gmap.
From Stdlib Require Import ZArith Lia ZifyBool.
From S2P Require Import Prelude ThreadPool.
Local Open Scope Z_scope.

(** ** Collecting over the threads *)

Definition collect {A} (f : worker -> Phase -> list A) (th : gmap worker Phase) : list A :=
  concat ((fun kv => f kv.1 kv.2) <$> map_to_list th).

Section collect.
Context {A : Type} (f : worker -> Phase -> list A).

Lemma collect_insert th w ph : th !! w = None -> collect f (<[w := ph]> th) ≡ₚ f w ph ++ collect f th.
Proof. intros E. unfold collect. by rewrite map_to_list_insert. Qed.

Lemma collect_delete th w ph : th !! w = Some ph -> collect f th ≡ₚ f w ph ++ collect f (delete w th).
Proof. intros E. unfold collect. rewrite <- (map_to_list_delete th w ph) by done. done. Qed.

Lemma collect_update th w ph ph' :
  th !! w = Some ph -> collect f (<[w := ph']> th) ≡ₚ f w ph' ++ collect f (delete w th).
Proof. intros E. rewrite <- insert_delete_eq. apply collect_insert. apply lookup_delete_eq. Qed.

(** An update that does not change what is collected. *)
Lemma collect_same th w ph ph' : th !! w = Some ph -> f w ph' = f w ph -> collect f (<[w := ph']> th) ≡ₚ collect f th.
Proof. intros E EF. by rewrite (collect_update _ _ _ _ E), (collect_delete _ _ _ E), EF. Qed.

Lemma elem_of_collect th x : x ∈ collect f th <-> exists w ph, th !! w = Some ph /\ x ∈ f w ph.
Proof.
  unfold collect. rewrite list_elem_of_In, in_concat. split.
  - intros (l & Hl & Hx). apply list_elem_of_In, list_elem_of_fmap in Hl as ([w ph] & -> & Hk). apply elem_of_map_to_list in Hk.
    exists w, ph. split; [done|]. by apply list_elem_of_In.
  - intros (w & ph & E & Hx). exists (f w ph). split; [|by apply list_elem_of_In]. apply list_elem_of_In, list_elem_of_fmap.
    exists (w, ph). split; [done|]. by apply elem_of_map_to_list.
Qed.

Lemma collect_empty : collect f ∅ = [].
Proof. unfold collect. by rewrite map_to_list_empty. Qed.

End collect.

Lemma collect_ext {A} (f g : worker -> Phase -> list A) th :
  (forall w ph, th !! w = Some ph -> f w ph = g w ph) -> collect f th = collect g th.
Proof.
  intros HE. unfold collect. f_equal. apply list_fmap_ext. intros i [w ph] HI. apply HE. apply elem_of_map_to_list.
  by eapply list_elem_of_lookup_2.
Qed.

Lemma collect_fmap {A} (f : worker -> Phase -> list A) (g : Phase -> Phase) th :
  collect f (g <$> th) ≡ₚ collect (fun w ph => f w (g ph)) th.
Proof.
  unfold collect. rewrite map_to_list_fmap, <- list_fmap_compose. done.
Qed.

(** Each worker at most once. *)
Lemma NoDup_collect (P : Phase -> bool) th : NoDup (collect (fun w ph => if P ph then [w] else []) th).
Proof.
  unfold collect. pose proof (NoDup_fst_map_to_list th) as HN. induction (map_to_list th) as [|[w ph] l IH]; [constructor|].
  simpl in *. apply NoDup_cons in HN as [HW HN]. destruct (P ph); [|by apply IH]. simpl. apply NoDup_cons. split; [|by apply IH].
  intros HE. apply HW. apply list_elem_of_In, in_concat in HE as (k & Hk & HE). apply list_elem_of_In, list_elem_of_fmap in Hk as ([v q] & -> & Hv).
  simpl in HE. apply list_elem_of_In in HE. destruct (P q); [|by apply elem_of_nil in HE]. apply list_elem_of_singleton in HE as ->.
  apply list_elem_of_fmap. by exists (v, q).
Qed.

(** ** The invariant *)

Definition ids (P : Phase -> bool) (w : worker) (ph : Phase) : list worker := if P ph then [w] else [].

Definition is_idle (ph : Phase) : bool := match ph with Starting | Looping | Waiting _ => true | _ => false end.
Definition is_running (ph : Phase) : bool := match ph with Executing _ => true | _ => false end.
Definition is_dead (ph : Phase) : bool := match ph with Joining _ | Finished => true | _ => false end.
(** An idle worker that is about to look for a task. *)
Definition is_awake (ph : Phase) : bool := match ph with Starting | Looping | Waiting true => true | _ => false end.

Definition executing (w : worker) (ph : Phase) : list task := match ph with Executing t => [t] | _ => [] end.
Definition joining (w : worker) (ph : Phase) : list worker := match ph with Joining l => l | _ => [] end.

Definition shut_list (sp : ShutdownPhase) : list worker := match sp with ShutJoining l => l | _ => [] end.

(** The dead workers that are not joined yet. *)
Definition unjoined (s : System) : list worker :=
  dead_workers_ (pool s) ++ shut_list (shutdown s) ++ collect joining (threads s).

Definition awake (s : System) : list worker := collect (ids is_awake) (threads s).

Definition size_z {A} (l : list A) : Z := Z.of_nat (length l).

(** [n] bounds the numbers of workers and tasks; [max] is the size given to the constructor. *)
Record Inv (n max : Z) (s : System) : Prop := {
  inv_idle : idle_workers_ (pool s) ≡ₚ collect (ids is_idle) (threads s);
  inv_running : running_workers_ (pool s) ≡ₚ collect (ids is_running) (threads s);
  inv_dead : unjoined s ≡ₚ collect (ids is_dead) (threads s);
  inv_count_idle : count_idle_ (pool s) = size_z (idle_workers_ (pool s));
  inv_count_running : count_running_ (pool s) = size_z (running_workers_ (pool s));
  inv_count_dead : count_dead_ (pool s) = size_z (dead_workers_ (pool s));
  inv_pending : pending_tasks_ (pool s) = size_z (tasks_ (pool s));
  inv_bound : size_z (idle_workers_ (pool s)) + size_z (running_workers_ (pool s)) + size_z (unjoined s) <= n /\
    size_z (tasks_ (pool s)) <= n;
  inv_fresh : forall w, is_Some (threads s !! w) -> (w < fresh s)%nat;
  inv_workers : joined s ++ collect (ids (fun _ => true)) (threads s) ≡ₚ seq 0 (fresh s);
  inv_accepted : accepted s = started s ++ tasks_ (pool s);
  inv_started : started s ≡ₚ finished s ++ collect executing (threads s);
  inv_blocked : NoDup (blocked s) /\ forall w, w ∈ blocked s -> exists t, threads s !! w = Some (Executing t);
  inv_max : max_pool_size_ (pool s) = if max =? 0 then 0 else max + size_z (blocked s);
  inv_one : size_z (dead_workers_ (pool s)) <= 1;
}.

(** ** Moving a worker *)

Lemma Remove_perm l k w : l ≡ₚ w :: k -> NoDup l -> Remove l w ≡ₚ k.
Proof.
  intros HP HN. unfold Remove. rewrite HP in HN |- *. apply NoDup_cons in HN as [HW HN]. rewrite filter_cons_False by (intros ?; done).
  clear HP. induction k as [|x k IH]; [done|]. apply not_elem_of_cons in HW as [HX HW]. apply NoDup_cons in HN as [_ HN].
  rewrite filter_cons_True by done. by rewrite IH.
Qed.

Section move.
Context {A : Type} (f : worker -> Phase -> list A) (th : gmap worker Phase) (X : list A) (w : worker) (ph ph' : Phase).
Context (HX : X ≡ₚ collect f th) (E : th !! w = Some ph).

Lemma move_keep : f w ph' = f w ph -> X ≡ₚ collect f (<[w := ph']> th).
Proof. intros EF. by rewrite HX, (collect_same _ _ _ _ _ E EF). Qed.

Lemma move_gain : f w ph = [] -> X ++ f w ph' ≡ₚ collect f (<[w := ph']> th).
Proof. intros EF. by rewrite HX, (collect_update _ _ _ _ _ E), (collect_delete _ _ _ _ E), EF, Permutation_app_comm. Qed.

End move.

Lemma move_lose P th X w ph ph' :
  X ≡ₚ collect (ids P) th -> th !! w = Some ph -> P ph = true -> P ph' = false ->
  Remove X w ≡ₚ collect (ids P) (<[w := ph']> th) /\ size_z (Remove X w) = size_z X - 1.
Proof.
  intros HX E HP HP'. assert (EX : X ≡ₚ w :: collect (ids P) (delete w th)).
  { rewrite HX, (collect_delete _ _ _ _ E). unfold ids at 1. by rewrite HP. }
  assert (HN : NoDup X) by (rewrite HX; apply NoDup_collect). pose proof (Remove_perm _ _ _ EX HN) as ER. split.
  - rewrite ER, (collect_update _ _ _ _ _ E). unfold ids at 2. by rewrite HP'.
  - unfold size_z. rewrite ER, EX. simpl. lia.
Qed.

Lemma move_add P th X w ph ph' :
  X ≡ₚ collect (ids P) th -> th !! w = Some ph -> P ph = false -> P ph' = true -> X ++ [w] ≡ₚ collect (ids P) (<[w := ph']> th).
Proof.
  intros HX E HP HP'. replace [w] with (ids P w ph') by (unfold ids; by rewrite HP').
  eapply move_gain; [done..|]. unfold ids. by rewrite HP.
Qed.

Lemma elem_of_ids P th w ph : th !! w = Some ph -> P ph = true -> w ∈ collect (ids P) th.
Proof. intros E HP. apply elem_of_collect. exists w, ph. split; [done|]. unfold ids. rewrite HP. left. Qed.

Lemma ids_elem P th w : w ∈ collect (ids P) th -> exists ph, th !! w = Some ph /\ P ph = true.
Proof.
  intros (v & ph & E & HW)%elem_of_collect. unfold ids in HW. destruct (P ph) eqn:EP; [|by apply elem_of_nil in HW].
  apply list_elem_of_singleton in HW as ->. by exists ph.
Qed.

(** ** Counts *)

Lemma inc_ok n m : 0 <= m <= n -> n + 1 < 2 ^ 64 -> inc m = m + 1.
Proof. intros. apply wrapu_id. unfold is_u. lia. Qed.

Lemma dec_ok n m : 1 <= m <= n -> n + 1 < 2 ^ 64 -> dec m = m - 1.
Proof. intros. apply wrapu_id. unfold is_u. lia. Qed.

Lemma size_nonneg {A} (l : list A) : 0 <= size_z l.
Proof. unfold size_z. lia. Qed.

Lemma size_app {A} (l k : list A) : size_z (l ++ k) = size_z l + size_z k.
Proof. unfold size_z. rewrite length_app. lia. Qed.

Lemma size_perm {A} (l k : list A) : l ≡ₚ k -> size_z l = size_z k.
Proof. intros HP. unfold size_z. by rewrite HP. Qed.

Lemma size_elem {A} (l : list A) x : x ∈ l -> 1 <= size_z l.
Proof. destruct l as [|y l]; [intros HX; by apply elem_of_nil in HX|]. unfold size_z. simpl. lia. Qed.

(** ** Workers that continue *)

Section worker.
Context (n max : Z) (s : System) (w : worker) (ph : Phase).
Context (HI : Inv n max s) (HN : n + 1 < 2 ^ 64) (E : threads s !! w = Some ph).

Lemma contains_idle : is_idle ph = true -> ContainsForDebugging (idle_workers_ (pool s)) w = true.
Proof. intros HP. apply bool_decide_eq_true. rewrite (inv_idle _ _ _ HI). by eapply elem_of_ids. Qed.

Lemma contains_running : is_running ph = true -> ContainsForDebugging (running_workers_ (pool s)) w = true.
Proof. intros HP. apply bool_decide_eq_true. rewrite (inv_running _ _ _ HI). by eapply elem_of_ids. Qed.

Lemma still_blocked ph' :
  is_running ph = false \/ is_running ph' = true \/ (w ∉ blocked s) ->
  NoDup (blocked s) /\ forall v, v ∈ blocked s -> exists t, <[w := ph']> (threads s) !! v = Some (Executing t).
Proof.
  intros HC. destruct (inv_blocked _ _ _ HI) as [HD HB]. split; [done|]. intros v Hv. destruct (HB v Hv) as [t Et].
  destruct (decide (w = v)) as [<-|NE]; [|exists t; by rewrite lookup_insert_ne]. rewrite lookup_insert_eq.
  rewrite E in Et. simplify_eq. destruct HC as [HC|[HC|HC]]; [done| |done]. destruct ph'; try done. by eexists.
Qed.

Lemma still_fresh ph' v : is_Some (<[w := ph']> (threads s) !! v) -> (v < fresh s)%nat.
Proof. intros [<-|[_ ?]]%lookup_insert_is_Some; apply (inv_fresh _ _ _ HI); [by eexists|done]. Qed.

Lemma still_workers ph' : joined s ++ collect (ids (fun _ => true)) (<[w := ph']> (threads s)) ≡ₚ seq 0 (fresh s).
Proof. rewrite (collect_same _ _ _ ph ph' E) by done. apply HI. Qed.

(** A worker stays idle. *)
Lemma inv_stay ph' : is_idle ph = true -> is_idle ph' = true -> Inv n max (continue w (ph', pool s) [] s).
Proof.
  intros HP HP'. assert (HJ : collect joining (<[w := ph']> (threads s)) ≡ₚ collect joining (threads s)).
  { eapply collect_same; [done|]. by destruct ph, ph'. }
  assert (HU : dead_workers_ (pool s) ++ shut_list (shutdown s) ++ collect joining (<[w := ph']> (threads s)) ≡ₚ unjoined s).
  { by rewrite HJ. }
  destruct ph' as [| |t|b|l|]; try done; (split; unfold unjoined; simpl; rewrite ?app_nil_r, ?(size_perm _ _ HU); try apply HI;
    [eapply move_keep; [apply HI|done|by destruct ph]..|rewrite HU; eapply move_keep; [apply HI|done|by destruct ph]
    |apply still_fresh|apply still_workers|rewrite (inv_started _ _ _ HI); f_equiv; symmetry; eapply collect_same; [done|by destruct ph]
    |apply still_blocked; left; by destruct ph]).
Qed.

(** The pool after an idle worker has taken the first task. *)
Definition taken_pool (w : worker) (rest : list task) (p : ThreadPool) : ThreadPool :=
  set_tasks rest (dec (pending_tasks_ p))
    (set_running (running_workers_ p ++ [w]) (inc (count_running_ p)) (set_idle (Remove (idle_workers_ p) w) (dec (count_idle_ p)) p)).

Lemma idle_counts : is_idle ph = true ->
  1 <= size_z (idle_workers_ (pool s)) /\ dec (count_idle_ (pool s)) = size_z (idle_workers_ (pool s)) - 1 /\
  inc (count_running_ (pool s)) = size_z (running_workers_ (pool s)) + 1.
Proof.
  intros HP. destruct (inv_bound _ _ _ HI) as [HB _]. rewrite (inv_count_idle _ _ _ HI), (inv_count_running _ _ _ HI).
  pose proof (size_nonneg (unjoined s)). pose proof (size_nonneg (running_workers_ (pool s))).
  pose proof (size_elem _ w (bool_decide_eq_true_1 _ (contains_idle HP))).
  rewrite (dec_ok n), (inc_ok n) by lia. lia.
Qed.

Lemma inv_take t rest : is_idle ph = true -> tasks_ (pool s) = t :: rest ->
  Inv n max (continue w (Executing t, taken_pool w rest (pool s)) [] s).
Proof.
  intros HP ET. destruct (move_lose is_idle _ _ w ph (Executing t) (inv_idle _ _ _ HI) E HP eq_refl) as [H1 H2].
  assert (HJ : collect joining (<[w := Executing t]> (threads s)) ≡ₚ collect joining (threads s)) by (eapply collect_same; [done|by destruct ph]).
  assert (HU : dead_workers_ (pool s) ++ shut_list (shutdown s) ++ collect joining (<[w := Executing t]> (threads s)) ≡ₚ unjoined s) by (by rewrite HJ).
  destruct (inv_bound _ _ _ HI) as [HB HBt]. destruct (idle_counts HP) as (HC1 & HC2 & HC3).
  pose proof (inv_pending _ _ _ HI) as HPd. rewrite ET in HPd, HBt.
  assert (HPd' : dec (pending_tasks_ (pool s)) = size_z rest).
  { rewrite HPd. unfold size_z in *. cbn [length] in *. rewrite (dec_ok n) by lia. lia. }
  split; unfold unjoined; simpl; rewrite ?app_nil_r, ?(size_perm _ _ HU), ?HC2, ?HC3, ?H2, ?HPd', ?size_app; try done; try apply HI.
  - eapply move_add; [apply HI|done|by destruct ph|done].
  - rewrite HU. eapply move_keep; [apply HI|done|by destruct ph].
  - unfold size_z in *. cbn [length] in *. lia.
  - apply still_fresh.
  - apply still_workers.
  - rewrite (inv_accepted _ _ _ HI), ET. by rewrite <- (assoc_L (++)).
  - rewrite (inv_started _ _ _ HI), <- (assoc_L (++)). f_equiv. rewrite (collect_update _ _ _ _ _ E), (collect_delete _ _ _ _ E).
    replace (executing w ph) with (@nil task) by (by destruct ph). by rewrite Permutation_app_comm.
  - apply still_blocked. left. by destruct ph.
Qed.

(** A running worker goes on with the next task. *)
Lemma inv_next t0 t rest : ph = Executing t0 -> tasks_ (pool s) = t :: rest ->
  Inv n max (continue w (Executing t, set_tasks rest (dec (pending_tasks_ (pool s))) (pool s)) [t0] s).
Proof.
  pose proof still_fresh as HSF. pose proof still_workers as HSW. pose proof still_blocked as HSB. intros EP ET. rewrite EP in E, HSB.
  assert (HU : dead_workers_ (pool s) ++ shut_list (shutdown s) ++ collect joining (<[w := Executing t]> (threads s)) ≡ₚ unjoined s).
  { unfold unjoined. do 2 f_equiv. by eapply collect_same. }
  destruct (inv_bound _ _ _ HI) as [HB HBt]. pose proof (inv_pending _ _ _ HI) as HPd. rewrite ET in HPd, HBt.
  assert (HPd' : dec (pending_tasks_ (pool s)) = size_z rest).
  { rewrite HPd. unfold size_z in *. cbn [length] in *. rewrite (dec_ok n) by lia. lia. }
  split; unfold unjoined; simpl; rewrite ?(size_perm _ _ HU), ?HPd'; try done; try apply HI; try apply HSF; try apply HSW.
  - eapply move_keep; [apply HI|done..].
  - eapply move_keep; [apply HI|done..].
  - rewrite HU. eapply move_keep; [apply HI|done..].
  - unfold size_z in *. cbn [length] in *. lia.
  - rewrite (inv_accepted _ _ _ HI), ET. by rewrite <- (assoc_L (++)).
  - rewrite (inv_started _ _ _ HI), (collect_update _ _ _ _ _ E), (collect_delete _ _ _ _ E). simpl.
    rewrite <- !(assoc_L (++)). f_equiv. simpl. by rewrite (Permutation_app_comm _ [t]).
  - apply HSB. right. by left.
Qed.

(** The pool after a running worker has become idle. *)
Definition rested_pool (w : worker) (p : ThreadPool) : ThreadPool :=
  set_idle (idle_workers_ p ++ [w]) (inc (count_idle_ p)) (set_running (Remove (running_workers_ p) w) (dec (count_running_ p)) p).

Lemma RunningToIdle_ok : is_running ph = true -> tasks_ (pool s) = [] -> RunningToIdleLocked w (pool s) = Ok (rested_pool w (pool s)).
Proof. intros HP ET. unfold RunningToIdleLocked. by rewrite ET, contains_running. Qed.

Lemma inv_rest t0 ph' : ph = Executing t0 -> is_idle ph' = true -> w ∉ blocked s ->
  Inv n max (continue w (ph', rested_pool w (pool s)) [t0] s).
Proof.
  pose proof still_fresh as HSF. pose proof still_workers as HSW. pose proof still_blocked as HSB. pose proof contains_running as HCR.
  intros EP HP' HNB. rewrite EP in E, HSB, HCR. destruct (move_lose is_running _ _ w _ ph' (inv_running _ _ _ HI) E eq_refl ltac:(by destruct ph')) as [H1 H2].
  assert (HU : dead_workers_ (pool s) ++ shut_list (shutdown s) ++ collect joining (<[w := ph']> (threads s)) ≡ₚ unjoined s).
  { unfold unjoined. do 2 f_equiv. eapply collect_same; [done|]. by destruct ph'. }
  destruct (inv_bound _ _ _ HI) as [HB HBt]. pose proof (size_nonneg (unjoined s)). pose proof (size_nonneg (idle_workers_ (pool s))).
  pose proof (size_elem _ w (bool_decide_eq_true_1 _ (HCR eq_refl))) as HR.
  assert (HC1 : dec (count_running_ (pool s)) = size_z (running_workers_ (pool s)) - 1) by (rewrite (inv_count_running _ _ _ HI); apply (dec_ok n); lia).
  assert (HC2 : inc (count_idle_ (pool s)) = size_z (idle_workers_ (pool s)) + 1) by (rewrite (inv_count_idle _ _ _ HI); apply (inc_ok n); lia).
  destruct ph' as [| |t|b|l|]; try done; (split; unfold unjoined; simpl; rewrite ?(size_perm _ _ HU), ?HC1, ?HC2, ?H2, ?size_app, ?app_nil_r; try done; try apply HI; try apply HSF; try apply HSW;
    [by eapply move_add; [apply HI|done..]|rewrite HU; eapply move_keep; [apply HI|done..]|change (size_z [w]) with 1; lia
    |rewrite (inv_started _ _ _ HI), (collect_update _ _ _ _ _ E), (collect_delete _ _ _ _ E); simpl; by rewrite <- (assoc_L (++))
    |apply HSB; by right; right]).
Qed.

(** The pool after an idle worker has died. *)
Definition dead_pool (w : worker) (p : ThreadPool) : ThreadPool :=
  let p := set_dead [w] 1 (set_idle (Remove (idle_workers_ p) w) (dec (count_idle_ p)) p) in
  if shutting_down_ p && IsEmpty (running_workers_ p) && IsEmpty (idle_workers_ p) then set_flags (shutting_down_ p) true p else p.

Lemma leave_ok : is_idle ph = true -> tasks_ (pool s) = [] ->
  leave_loop w (pool s) = Ok (Joining (dead_workers_ (pool s)), dead_pool w (pool s)).
Proof.
  intros HP ET. unfold leave_loop, ObtainDeadWorkersLocked, IdleToDeadLocked. simpl. by rewrite ET, (contains_idle HP).
Qed.

(** What the flag does not touch. *)
Lemma dead_pool_fields p : exists b,
  dead_pool w p = mkPool (shutting_down_ p) (count_running_ p) (dec (count_idle_ p)) 1 (running_workers_ p) (Remove (idle_workers_ p) w) [w]
    (pending_tasks_ p) (tasks_ p) b (max_pool_size_ p) /\
  b = all_workers_dead_ p || (shutting_down_ p && IsEmpty (running_workers_ p) && IsEmpty (Remove (idle_workers_ p) w)).
Proof.
  eexists. split; [|done]. unfold dead_pool. simpl. destruct (shutting_down_ p && _ && _) eqn:EB; rewrite ?orb_true_r, ?orb_false_r; [|done].
  by destruct (shutting_down_ p).
Qed.

Lemma inv_die : is_idle ph = true ->
  Inv n max (continue w (Joining (dead_workers_ (pool s)), dead_pool w (pool s)) [] s).
Proof.
  intros HP. destruct (dead_pool_fields (pool s)) as (b & -> & _). set (D := dead_workers_ (pool s)).
  destruct (move_lose is_idle _ _ w _ (Joining D) (inv_idle _ _ _ HI) E HP eq_refl) as [H1 H2].
  assert (HJ : collect joining (threads s) ≡ₚ collect joining (delete w (threads s))).
  { rewrite (collect_delete _ _ _ _ E). by destruct ph. }
  assert (HU : [w] ++ shut_list (shutdown s) ++ collect joining (<[w := Joining D]> (threads s)) ≡ₚ unjoined s ++ [w]).
  { unfold unjoined. fold D. rewrite (collect_update _ _ _ _ _ E), HJ. simpl. rewrite (Permutation_app_swap_app D).
    by rewrite Permutation_cons_append. }
  destruct (inv_bound _ _ _ HI) as [HB HBt]. destruct (idle_counts HP) as (HC1 & HC2 & HC3).
  split; unfold unjoined; simpl; rewrite ?app_nil_r, ?HC2, ?H2; try done; try apply HI.
  - eapply move_keep; [apply HI|done|by destruct ph].
  - change (w :: shut_list (shutdown s) ++ collect joining (<[w := Joining D]> (threads s))) with
      ([w] ++ shut_list (shutdown s) ++ collect joining (<[w := Joining D]> (threads s))).
    rewrite HU. eapply move_add; [apply HI|done|by destruct ph|done].
  - change (w :: shut_list (shutdown s) ++ collect joining (<[w := Joining D]> (threads s))) with
      ([w] ++ shut_list (shutdown s) ++ collect joining (<[w := Joining D]> (threads s))).
    rewrite (size_perm _ _ HU), size_app. change (size_z [w]) with 1. lia.
  - apply still_fresh.
  - apply still_workers.
  - rewrite (inv_started _ _ _ HI). f_equiv. symmetry. eapply collect_same; [done|by destruct ph].
  - apply still_blocked. left. by destruct ph.
Qed.

End worker.

(** Two steps of a worker under the monitor are one. *)
Lemma continue_continue w ph p r done s :
  is_idle ph = true -> continue w r [] (continue w (ph, p) done s) = continue w r done s.
Proof.
  intros HP. destruct r as [ph' p']. unfold continue. simpl. rewrite insert_insert_eq.
  destruct ph; try done; simpl; by rewrite !app_nil_r.
Qed.

(** ** New tasks and workers *)

Lemma inv_mono n m max s : Inv n max s -> n <= m -> Inv m max s.
Proof. intros HI HL. destruct (inv_bound _ _ _ HI). destruct HI. split; try done. lia. Qed.

(** A task is added. *)
Definition with_task (t : task) (s : System) : System :=
  mkSystem (set_tasks (tasks_ (pool s) ++ [t]) (inc (pending_tasks_ (pool s))) (pool s)) (threads s) (blocked s) (fresh s)
    (shutdown s) (joined s) (deaths s) (accepted s ++ [t]) (started s) (finished s).

Lemma inv_task n max s t : Inv n max s -> n + 1 < 2 ^ 64 -> Inv (n + 1) max (with_task t s).
Proof.
  intros HI HN. destruct (inv_bound _ _ _ HI) as [HB HBt]. pose proof (size_nonneg (tasks_ (pool s))) as H0.
  assert (HP : inc (pending_tasks_ (pool s)) = size_z (tasks_ (pool s)) + 1) by (rewrite (inv_pending _ _ _ HI); apply (inc_ok n); lia).
  split; unfold unjoined; simpl; rewrite ?HP, ?size_app; try done; try apply HI.
  - change (size_z [t]) with 1. unfold unjoined in HB. rewrite !size_app in HB. lia.
  - rewrite (inv_accepted _ _ _ HI). by rewrite <- (assoc_L (++)).
Qed.

(** A worker is added and its thread started. *)
Definition with_worker (s : System) : System :=
  mkSystem (add_worker (fresh s) (pool s)) (<[fresh s := Starting]> (threads s)) (blocked s) (S (fresh s))
    (shutdown s) (joined s) (deaths s) (accepted s) (started s) (finished s).

Lemma fresh_thread n max s : Inv n max s -> threads s !! fresh s = None.
Proof. intros HI. apply eq_None_not_Some. intros HS. apply (inv_fresh _ _ _ HI) in HS. lia. Qed.

Lemma inv_spawn n max s : Inv n max s -> n + 1 < 2 ^ 64 -> Inv (n + 1) max (with_worker s).
Proof.
  intros HI HN. destruct (inv_bound _ _ _ HI) as [HB HBt]. pose proof (fresh_thread _ _ _ HI) as EF.
  pose proof (size_nonneg (idle_workers_ (pool s))) as H0. pose proof (size_nonneg (running_workers_ (pool s))) as H1.
  pose proof (size_nonneg (unjoined s)) as H2.
  assert (HP : inc (count_idle_ (pool s)) = size_z (idle_workers_ (pool s)) + 1) by (rewrite (inv_count_idle _ _ _ HI); apply (inc_ok n); lia).
  assert (HU : dead_workers_ (pool s) ++ shut_list (shutdown s) ++ collect joining (<[fresh s := Starting]> (threads s)) ≡ₚ unjoined s).
  { unfold unjoined. do 2 f_equiv. by rewrite collect_insert. }
  split; unfold unjoined; simpl; rewrite ?(size_perm _ _ HU), ?HP, ?size_app; try done; try apply HI.
  - rewrite collect_insert, (inv_idle _ _ _ HI) by done. by rewrite Permutation_app_comm.
  - rewrite collect_insert by done. apply HI.
  - rewrite HU, collect_insert by done. apply HI.
  - change (size_z [fresh s]) with 1. lia.
  - intros w [<-|[_ HS]]%lookup_insert_is_Some; [lia|]. apply (inv_fresh _ _ _ HI) in HS. lia.
  - rewrite collect_insert by done. simpl. rewrite <- Permutation_middle. rewrite (inv_workers _ _ _ HI).
    change (0%nat :: seq 1 (fresh s)) with (seq 0 (S (fresh s))). rewrite seq_S. by rewrite Permutation_cons_append.
  - rewrite collect_insert by done. apply HI.
  - destruct (inv_blocked _ _ _ HI) as [HD HB']. split; [done|]. intros w Hw. destruct (HB' w Hw) as [t Et]. exists t.
    rewrite lookup_insert_ne; [done|]. intros <-. by rewrite EF in Et.
Qed.

(** A waiting worker is notified. *)
Lemma notify_continue w s :
  mkSystem (pool s) (<[w := Waiting true]> (threads s)) (blocked s) (fresh s) (shutdown s) (joined s) (deaths s) (accepted s) (started s) (finished s)
  = continue w (Waiting true, pool s) [] s.
Proof. unfold continue. by rewrite !app_nil_r. Qed.

(** ** Joining *)

(** A dead worker that has finished is taken from a list of workers to join, and joined. *)
Lemma inv_join n max s v th sp :
  Inv n max s -> threads s !! v = Some Finished -> th !! v = Some Finished ->
  (forall A (f : worker -> Phase -> list A), (forall w l l', f w (Joining l) = f w (Joining l')) -> collect f th ≡ₚ collect f (threads s)) ->
  (forall w t, threads s !! w = Some (Executing t) -> th !! w = Some (Executing t)) -> (forall w, is_Some (th !! w) -> is_Some (threads s !! w)) ->
  v :: dead_workers_ (pool s) ++ shut_list sp ++ collect joining th ≡ₚ unjoined s ->
  Inv n max (mkSystem (pool s) (delete v th) (blocked s) (fresh s) sp (joined s ++ [v]) (deaths s) (accepted s) (started s) (finished s)).
Proof.
  intros HI E ET HC HEx Hd HU.
  assert (HJ : collect joining (delete v th) ≡ₚ collect joining th) by (by rewrite (collect_delete _ th v Finished ET)).
  assert (HU2 : dead_workers_ (pool s) ++ shut_list sp ++ collect joining (delete v th) ≡ₚ collect (ids is_dead) (delete v th)).
  { apply (Permutation_cons_inv (a := v)). rewrite HJ, HU, (inv_dead _ _ _ HI), <- (HC _ (ids is_dead)), (collect_delete _ th v Finished ET) by done. done. }
  assert (HS : size_z (unjoined s) = size_z (dead_workers_ (pool s) ++ shut_list sp ++ collect joining (delete v th)) + 1).
  { rewrite <- (size_perm _ _ HU). unfold size_z. simpl. rewrite HJ. lia. }
  destruct (inv_bound _ _ _ HI) as [HB HBt]. split; unfold unjoined; simpl; try done; try apply HI.
  - rewrite (inv_idle _ _ _ HI), <- HC by done. by rewrite (collect_delete _ th v Finished ET).
  - rewrite (inv_running _ _ _ HI), <- HC by done. by rewrite (collect_delete _ th v Finished ET).
  - lia.
  - intros w [_ HS']%lookup_delete_is_Some. apply (inv_fresh _ _ _ HI). auto.
  - rewrite <- (inv_workers _ _ _ HI), <- (HC _ (ids (fun _ => true))), (collect_delete _ th v Finished ET), <- (assoc_L (++)) by done. done.
  - rewrite (inv_started _ _ _ HI), <- HC by done. by rewrite (collect_delete _ th v Finished ET).
  - destruct (inv_blocked _ _ _ HI) as [HD HBk]. split; [done|]. intros w Hw. destruct (HBk w Hw) as [t Et]. exists t.
    rewrite lookup_delete_ne; [by apply HEx|]. intros <-. by rewrite E in Et.
Qed.

(** ** Moves *)

(** What a thread does in one or two steps; the number is 0 for the steps of the pool itself, and
    otherwise how many workers and tasks the step can add. *)

Definition with_notified (pick : option worker) (s : System) : System :=
  match pick with Some w => continue w (Waiting true, pool s) [] s | None => s end.

Definition with_blocked (w : worker) (s : System) : System :=
  mkSystem (if 0 <? max_pool_size_ (pool s) then set_max (inc (max_pool_size_ (pool s))) (pool s) else pool s) (threads s)
    (w :: blocked s) (fresh s) (shutdown s) (joined s) (deaths s) (accepted s) (started s) (finished s).

Definition with_unblocked (w : worker) (s : System) : System :=
  mkSystem (if 0 <? max_pool_size_ (pool s) then set_max (dec (max_pool_size_ (pool s))) (pool s) else pool s) (threads s)
    (Remove (blocked s) w) (fresh s) (shutdown s) (joined s) (deaths s) (accepted s) (started s) (finished s).

Definition no_workers (p : ThreadPool) : bool := IsEmpty (running_workers_ p) && IsEmpty (idle_workers_ p).

Definition with_shutdown (s : System) : System :=
  mkSystem (set_flags true (no_workers (pool s) || all_workers_dead_ (pool s)) (pool s))
    (if no_workers (pool s) then threads s else notify_phase <$> threads s) (blocked s) (fresh s) ShutWaiting (joined s) (deaths s)
    (accepted s) (started s) (finished s).

Definition with_exit (s : System) : System :=
  mkSystem (set_dead [] 0 (pool s)) (threads s) (blocked s) (fresh s) (ShutJoining (dead_workers_ (pool s))) (joined s) (deaths s)
    (accepted s) (started s) (finished s).

(** [w] has joined the first of its workers, [v]. *)
Definition with_joined (w v : worker) (l : list worker) (s : System) : System :=
  mkSystem (pool s) (delete v (<[w := Joining l]> (threads s))) (blocked s) (fresh s) (shutdown s) (joined s ++ [v]) (deaths s)
    (accepted s) (started s) (finished s).

Inductive move : Z -> System -> System -> Prop :=
| MoveLoop s w ph : threads s !! w = Some ph -> is_idle ph = true -> ph <> Looping -> move 0 s (continue w (Looping, pool s) [] s)
| MoveWait s w ph :
    threads s !! w = Some ph -> is_idle ph = true -> tasks_ (pool s) = [] -> shutting_down_ (pool s) = false ->
    move 0 s (continue w (Waiting false, pool s) [] s)
| MoveTake s w t rest :
    threads s !! w = Some Looping -> tasks_ (pool s) = t :: rest -> move 0 s (continue w (Executing t, taken_pool w rest (pool s)) [] s)
| MoveNext s w t0 t rest :
    threads s !! w = Some (Executing t0) -> tasks_ (pool s) = t :: rest ->
    move 0 s (continue w (Executing t, set_tasks rest (dec (pending_tasks_ (pool s))) (pool s)) [t0] s)
| MoveRest s w t0 : threads s !! w = Some (Executing t0) -> tasks_ (pool s) = [] -> w ∉ blocked s ->
    move 0 s (continue w (Looping, rested_pool w (pool s)) [t0] s)
| MoveDie s w ph : threads s !! w = Some ph -> is_idle ph = true -> tasks_ (pool s) = [] ->
    move 0 s (continue w (Joining (dead_workers_ (pool s)), dead_pool w (pool s)) [] s)
| MoveJoin s w v l : threads s !! w = Some (Joining (v :: l)) -> threads s !! v = Some Finished -> move 0 s (with_joined w v l s)
| MoveFinish s w : threads s !! w = Some (Joining []) -> move 0 s (continue w (Finished, pool s) [] s)
| MoveExit s : shutdown s = ShutWaiting -> all_workers_dead_ (pool s) = true -> move 0 s (with_exit s)
| MoveShutJoin s v l : shutdown s = ShutJoining (v :: l) -> threads s !! v = Some Finished ->
    move 0 s (join_worker v (set_shutdown (ShutJoining l) s))
| MoveShutDone s : shutdown s = ShutJoining [] -> move 0 s (set_shutdown ShutDone s)
| MoveRunNotify s t pick : shutting_down_ (pool s) = false -> can_notify pick (threads s) = true ->
    (size_z (tasks_ (pool s)) < size_z (idle_workers_ (pool s)) \/ 0 < max_pool_size_ (pool s)) ->
    idle_workers_ (pool s) <> [] -> move 2 s (with_notified pick (with_task t s))
| MoveRunFull s t : shutting_down_ (pool s) = false -> 0 < max_pool_size_ (pool s) ->
    max_pool_size_ (pool s) <= size_z (running_workers_ (pool s)) -> idle_workers_ (pool s) = [] -> move 2 s (with_task t s)
| MoveRunNew s t : shutting_down_ (pool s) = false -> move 2 s (with_worker (with_task t s))
| MoveBlockNew s w t : threads s !! w = Some (Executing t) -> w ∉ blocked s -> tasks_ (pool s) <> [] ->
    0 < max_pool_size_ (pool s) -> move 2 s (with_worker (with_blocked w s))
| MoveBlock s w t : threads s !! w = Some (Executing t) -> w ∉ blocked s ->
    (0 < max_pool_size_ (pool s) -> tasks_ (pool s) <> [] -> idle_workers_ (pool s) <> []) -> move 2 s (with_blocked w s)
| MoveUnblock s w : w ∈ blocked s -> move 2 s (with_unblocked w s)
| MoveShutdown s : shutdown s = ShutNone -> move 2 s (with_shutdown s).

(** *** The invariant *)

Lemma inv_finish n max s w : Inv n max s -> threads s !! w = Some (Joining []) -> Inv n max (continue w (Finished, pool s) [] s).
Proof.
  intros HI E. assert (HU : dead_workers_ (pool s) ++ shut_list (shutdown s) ++ collect joining (<[w := Finished]> (threads s)) ≡ₚ unjoined s).
  { unfold unjoined. do 2 f_equiv. by eapply collect_same. }
  split; unfold unjoined; simpl; rewrite ?app_nil_r, ?(size_perm _ _ HU); try apply HI.
  - eapply move_keep; [apply HI|done..].
  - eapply move_keep; [apply HI|done..].
  - rewrite HU. eapply move_keep; [apply HI|done..].
  - by eapply still_fresh.
  - by eapply still_workers.
  - rewrite (inv_started _ _ _ HI). f_equiv. symmetry. by eapply collect_same.
  - eapply still_blocked; [done..|]. by left.
Qed.

Lemma blocked_bound n max s : Inv n max s -> size_z (blocked s) <= size_z (running_workers_ (pool s)).
Proof.
  intros HI. destruct (inv_blocked _ _ _ HI) as [HD HB]. unfold size_z. apply inj_le. apply submseteq_length, NoDup_submseteq; [done|].
  intros w Hw. rewrite (inv_running _ _ _ HI). destruct (HB w Hw) as [t E]. by eapply elem_of_ids.
Qed.

Lemma unblocked_worker n max s w t : Inv n max s -> threads s !! w = Some (Executing t) -> w ∉ blocked s ->
  size_z (blocked s) < size_z (running_workers_ (pool s)).
Proof.
  intros HI E HW. destruct (inv_blocked _ _ _ HI) as [HD HB].
  enough (length (w :: blocked s) <= length (running_workers_ (pool s)))%nat by (unfold size_z; simpl in *; lia).
  apply submseteq_length, NoDup_submseteq; [by constructor|]. intros v Hv. rewrite (inv_running _ _ _ HI).
  apply elem_of_cons in Hv as [->|Hv]; [by eapply elem_of_ids|]. destruct (HB v Hv) as [t' E']. by eapply elem_of_ids.
Qed.

(** The sizes fit a machine word. *)
Definition fits (n max : Z) : Prop := 0 <= n /\ 0 <= max /\ max + n + 3 < 2 ^ 64.

Lemma inv_block n max s w t : Inv n max s -> fits n max -> threads s !! w = Some (Executing t) -> w ∉ blocked s ->
  Inv n max (with_blocked w s).
Proof.
  intros HI HF E HW. destruct (inv_blocked _ _ _ HI) as [HD HB]. pose proof (inv_max _ _ _ HI) as HM.
  pose proof (unblocked_worker _ _ _ _ _ HI E HW) as HL. pose proof (size_nonneg (blocked s)) as H0. destruct (inv_bound _ _ _ HI) as [HB1 HB2].
  pose proof (size_nonneg (unjoined s)). pose proof (size_nonneg (idle_workers_ (pool s))). destruct HF as (HF1 & HF2 & HF3).
  split; unfold unjoined; simpl; try (destruct (0 <? max_pool_size_ (pool s)); apply HI).
  - split; [by constructor|]. intros v [->|Hv]%elem_of_cons; [by eexists|by apply HB].
  - rewrite HM. unfold size_z at 3. cbn [length]. fold (size_z (blocked s)). destruct (max =? 0) eqn:EM; [simpl; by rewrite HM|].
    destruct (0 <? max + size_z (blocked s)) eqn:EL; [|lia]. simpl. unfold size_z in *.
    rewrite (inc_ok (max + n)) by lia. lia.
Qed.

Lemma size_Remove l w : NoDup l -> w ∈ l -> size_z (Remove l w) = size_z l - 1.
Proof.
  intros HN [k HP]%elem_of_Permutation. rewrite (size_perm _ _ (Remove_perm _ _ _ HP HN)), (size_perm _ _ HP). unfold size_z. simpl. lia.
Qed.

Lemma inv_unblock n max s w : Inv n max s -> fits n max -> w ∈ blocked s ->
  Inv n max (with_unblocked w s) /\ (0 < max_pool_size_ (pool s) -> 0 < dec (max_pool_size_ (pool s))).
Proof.
  intros HI HF HW. destruct (inv_blocked _ _ _ HI) as [HD HB]. pose proof (inv_max _ _ _ HI) as HM.
  pose proof (blocked_bound _ _ _ HI) as HL. pose proof (size_elem _ _ HW) as H0. destruct (inv_bound _ _ _ HI) as [HB1 HB2].
  pose proof (size_nonneg (unjoined s)). pose proof (size_nonneg (idle_workers_ (pool s))). destruct HF as (HF1 & HF2 & HF3).
  assert (HE : max <> 0 -> dec (max_pool_size_ (pool s)) = max + (size_z (blocked s) - 1)).
  { intros HM0. rewrite HM. replace (max =? 0) with false by lia. rewrite (dec_ok (max + n)) by lia. lia. }
  split; [|intros HP; rewrite HM in HP; destruct (max =? 0) eqn:EM; [lia|]; rewrite HE by lia; lia].
  split; unfold unjoined; simpl; try (destruct (0 <? max_pool_size_ (pool s)); apply HI).
  - split; [by apply NoDup_filter|]. intros v [_ Hv]%list_elem_of_filter. by apply HB.
  - rewrite size_Remove by done. destruct (max =? 0) eqn:EM; [rewrite HM; exact HM|].
    rewrite HM at 1. destruct (0 <? max + size_z (blocked s)) eqn:EL; [|lia]. simpl. apply HE. lia.
Qed.

Lemma collect_notified {A} (f : worker -> Phase -> list A) th :
  (forall w b, f w (Waiting b) = f w (Waiting true)) -> collect f (notify_phase <$> th) ≡ₚ collect f th.
Proof. intros HF. rewrite collect_fmap. erewrite collect_ext; [done|]. intros w ph _. destruct ph; simpl; rewrite ?(HF w notified); done. Qed.

Lemma inv_shutdown n max s : Inv n max s -> shutdown s = ShutNone -> Inv n max (with_shutdown s).
Proof.
  intros HI ES. set (th := if no_workers (pool s) then threads s else notify_phase <$> threads s).
  assert (HC : forall A (f : worker -> Phase -> list A), (forall w b, f w (Waiting b) = f w (Waiting true)) -> collect f th ≡ₚ collect f (threads s)).
  { intros A f HF. unfold th. destruct (no_workers (pool s)); [done|]. by apply collect_notified. }
  assert (HL : forall w, th !! w = threads s !! w \/ th !! w = notify_phase <$> threads s !! w).
  { intros w. unfold th. destruct (no_workers (pool s)); [by left|right; apply lookup_fmap]. }
  assert (HU : dead_workers_ (pool s) ++ collect joining th ≡ₚ unjoined s) by (unfold unjoined; rewrite ES, HC by done; done).
  split; unfold unjoined; simpl; fold th; rewrite ?(size_perm _ _ HU); try apply HI.
  - rewrite HC by done. apply HI.
  - rewrite HC by done. apply HI.
  - rewrite HU, HC by done. apply HI.
  - intros w HS. apply (inv_fresh _ _ _ HI). destruct (HL w) as [E|E]; rewrite E in HS; [done|]. by apply fmap_is_Some in HS.
  - rewrite HC by done. apply HI.
  - rewrite HC by done. apply HI.
  - destruct (inv_blocked _ _ _ HI) as [HD HB]. split; [done|]. intros w Hw. destruct (HB w Hw) as [t E]. exists t.
    by destruct (HL w) as [E1|E1]; rewrite E1, E.
Qed.

Lemma inv_exit n max s : Inv n max s -> shutdown s = ShutWaiting -> Inv n max (with_exit s).
Proof.
  intros HI ES. assert (HU : dead_workers_ (pool s) ++ collect joining (threads s) = unjoined s) by (unfold unjoined; by rewrite ES).
  split; unfold unjoined; simpl; rewrite ?HU; try apply HI; done.
Qed.

Lemma inv_set_shutdown n max s sp : Inv n max s -> shut_list sp = shut_list (shutdown s) -> Inv n max (set_shutdown sp s).
Proof. intros HI ES. split; unfold unjoined; simpl; rewrite ?ES; apply HI. Qed.

Lemma inv_notify n max s pick : Inv n max s -> can_notify pick (threads s) = true -> Inv n max (with_notified pick s).
Proof.
  intros HI HC. destruct pick as [w|]; [|done]. apply bool_decide_eq_true, fmap_Some in HC as (ph & E & HW).
  eapply inv_stay; [done|exact E| |done]. destruct ph as [| |t|b|l|]; try done.
Qed.

Lemma inv_joined n max s w v l : Inv n max s -> threads s !! w = Some (Joining (v :: l)) -> threads s !! v = Some Finished ->
  Inv n max (with_joined w v l s).
Proof.
  intros HI E EV. assert (NE : w <> v) by (intros ->; congruence). apply inv_join; try done.
  - by rewrite lookup_insert_ne.
  - intros A f HF. eapply collect_same; [done|]. apply HF.
  - intros u t EU. rewrite lookup_insert_ne; [done|]. intros ->. congruence.
  - intros u [<-|[_ HS]]%lookup_insert_is_Some; [by eexists|done].
  - unfold unjoined. rewrite (collect_update _ _ _ _ _ E), (collect_delete _ _ _ _ E). simpl. rewrite !Permutation_middle. do 2 f_equiv.
Qed.

Lemma inv_shut_join n max s v l : Inv n max s -> shutdown s = ShutJoining (v :: l) -> threads s !! v = Some Finished ->
  Inv n max (join_worker v (set_shutdown (ShutJoining l) s)).
Proof. intros HI ES EV. apply (inv_join n max s v (threads s) (ShutJoining l)); try done. unfold unjoined. rewrite ES. simpl. by rewrite Permutation_middle. Qed.

Lemma move_inv n max k s s' : Inv n max s -> fits n max -> move k s s' -> Inv (n + k) max s'.
Proof.
  intros HI HF HM. assert (HN : n + 2 < 2 ^ 64) by (unfold fits in HF; lia).
  assert (HN1 : n + 1 < 2 ^ 64) by lia. assert (HN2 : n + 1 + 1 < 2 ^ 64) by lia.
  destruct HM; try (rewrite Z.add_0_r).
  - by eapply inv_stay.
  - by eapply inv_stay.
  - by eapply inv_take.
  - by eapply inv_next.
  - by eapply inv_rest.
  - by eapply inv_die.
  - by apply inv_joined.
  - by apply inv_finish.
  - by apply inv_exit.
  - by apply inv_shut_join.
  - apply inv_set_shutdown; [done|]. by rewrite H.
  - apply (inv_mono (n + 1)); [apply inv_notify; [by apply inv_task|done]|lia].
  - apply (inv_mono (n + 1)); [by apply inv_task|lia].
  - apply (inv_mono (n + 1 + 1)); [apply inv_spawn; [by apply inv_task|lia]|lia].
  - apply (inv_mono (n + 1)); [apply inv_spawn; [by eapply inv_block|lia]|lia].
  - apply (inv_mono n); [by eapply inv_block|lia].
  - apply (inv_mono n); [by apply inv_unblock|lia].
  - apply (inv_mono n); [by apply inv_shutdown|lia].
Qed.

(** *** Pending tasks *)

(** Enough idle workers are awake; a pool of unbounded size has one for each pending task; tasks
    are pending only while a worker is not blocked. *)
Record Live (max : Z) (s : System) : Prop := {
  live_awake : size_z (awake s) >= Z.min (size_z (idle_workers_ (pool s))) (size_z (tasks_ (pool s)));
  live_unbounded : max = 0 -> size_z (tasks_ (pool s)) <= size_z (awake s);
  live_busy : tasks_ (pool s) <> [] -> size_z (blocked s) < size_z (idle_workers_ (pool s)) + size_z (running_workers_ (pool s));
}.

Lemma size_nil {A} (l : list A) : l = [] <-> size_z l = 0.
Proof. unfold size_z. rewrite <- length_zero_iff_nil. lia. Qed.

(** The number of workers in some of the phases, when one worker changes. *)
Lemma size_ids P th w ph ph' : th !! w = Some ph ->
  size_z (collect (ids P) (<[w := ph']> th)) = size_z (collect (ids P) th) - Z.b2z (P ph) + Z.b2z (P ph').
Proof.
  intros E. rewrite (size_perm _ _ (collect_update _ _ _ _ ph' E)), (size_perm _ _ (collect_delete (ids P) _ _ _ E)), !size_app.
  unfold ids at 1 3. unfold size_z. destruct (P ph), (P ph'); simpl; lia.
Qed.

Lemma size_ids_delete P th w ph : th !! w = Some ph ->
  size_z (collect (ids P) (delete w th)) = size_z (collect (ids P) th) - Z.b2z (P ph).
Proof. intros E. rewrite (size_perm _ _ (collect_delete (ids P) _ _ _ E)), size_app. unfold ids at 2. unfold size_z. destruct (P ph); simpl; lia. Qed.

Lemma size_ids_new P th w ph : th !! w = None -> size_z (collect (ids P) (<[w := ph]> th)) = size_z (collect (ids P) th) + Z.b2z (P ph).
Proof. intros E. rewrite (size_perm _ _ (collect_insert _ _ _ ph E)), size_app. unfold ids at 1. unfold size_z. destruct (P ph); simpl; lia. Qed.

Lemma awake_le n max s : Inv n max s -> size_z (awake s) <= size_z (idle_workers_ (pool s)).
Proof.
  intros HI. unfold size_z. apply inj_le. apply submseteq_length. rewrite (inv_idle _ _ _ HI).
  apply NoDup_submseteq; [apply NoDup_collect|]. intros w (ph & E & HP)%ids_elem. eapply elem_of_ids; [done|]. by destruct ph as [| |t|b|l|].
Qed.

(** When nobody waits, all idle workers are awake. *)
Lemma awake_all n max s : Inv n max s -> can_notify None (threads s) = true -> size_z (idle_workers_ (pool s)) <= size_z (awake s).
Proof.
  intros HI HC. unfold size_z. apply inj_le. apply submseteq_length. rewrite (inv_idle _ _ _ HI).
  apply NoDup_submseteq; [apply NoDup_collect|]. intros w (ph & E & HP)%ids_elem. eapply elem_of_ids; [done|].
  simpl in HC. rewrite forallb_forall in HC. specialize (HC (w, ph)). rewrite <- list_elem_of_In, elem_of_map_to_list in HC.
  apply HC in E. by destruct ph as [| |t|[]|l|].
Qed.

Definition lively (max awake idle running tasks blocked : Z) : Prop :=
  Z.min idle tasks <= awake /\ (max = 0 -> tasks <= awake) /\ (tasks <> 0 -> blocked < idle + running).

Definition count (P : Phase -> bool) (s : System) : Z := size_z (collect (ids P) (threads s)).

Lemma live_lively n max s : Inv n max s ->
  Live max s <-> lively max (count is_awake s) (count is_idle s) (count is_running s) (size_z (tasks_ (pool s))) (size_z (blocked s)).
Proof.
  intros HI. unfold lively, count. rewrite <- (size_perm _ _ (inv_idle _ _ _ HI)), <- (size_perm _ _ (inv_running _ _ _ HI)), <- size_nil.
  fold (awake s). split; [intros []; split; [lia|done]|]. intros (? & ? & ?). split; [lia|done..].
Qed.

(** What the invariant says of the numbers. *)
Lemma inv_numbers n max s : Inv n max s ->
  0 <= count is_awake s <= count is_idle s /\ size_z (blocked s) <= count is_running s /\ 0 <= size_z (blocked s) /\ 0 <= size_z (tasks_ (pool s)) /\
  size_z (idle_workers_ (pool s)) = count is_idle s /\ size_z (running_workers_ (pool s)) = count is_running s.
Proof.
  intros HI. unfold count. rewrite <- (size_perm _ _ (inv_idle _ _ _ HI)), <- (size_perm _ _ (inv_running _ _ _ HI)).
  pose proof (awake_le _ _ _ HI). pose proof (blocked_bound _ _ _ HI). unfold awake in *.
  pose proof (size_nonneg (blocked s)). pose proof (size_nonneg (tasks_ (pool s))). pose proof (size_nonneg (collect (ids is_awake) (threads s))). lia.
Qed.

Lemma count_continue P s w ph ph' p done : threads s !! w = Some ph ->
  count P (continue w (ph', p) done s) = count P s - Z.b2z (P ph) + Z.b2z (P ph').
Proof. intros E. unfold count. simpl. by apply size_ids. Qed.

Lemma count_with_worker n max P s : Inv n max s -> count P (with_worker s) = count P s + Z.b2z (P Starting).
Proof. intros HI. unfold count. simpl. apply size_ids_new. by eapply fresh_thread. Qed.

Lemma count_notified P s pick : can_notify pick (threads s) = true ->
  count P (with_notified pick s) = count P s + match pick with Some _ => Z.b2z (P (Waiting true)) - Z.b2z (P (Waiting false)) | None => 0 end.
Proof.
  intros HC. destruct pick as [w|]; cbn [with_notified]; [|lia]. apply bool_decide_eq_true, fmap_Some in HC as (ph & E & HW).
  destruct ph as [| |t|[]|l|]; try done. rewrite (count_continue _ _ _ _ _ _ _ E). lia.
Qed.

Lemma size_cons {A} (x : A) l : size_z (x :: l) = size_z l + 1.
Proof. unfold size_z. simpl. lia. Qed.

Lemma count_same_joining P s w v l : threads s !! w = Some (Joining (v :: l)) -> threads s !! v = Some Finished ->
  P Finished = false -> P (Joining l) = P (Joining (v :: l)) -> count P (with_joined w v l s) = count P s.
Proof.
  intros E EV HF HP. unfold count. simpl. assert (NE : w <> v) by (intros ->; congruence).
  rewrite (size_ids_delete P _ v Finished) by (by rewrite lookup_insert_ne). rewrite (size_ids _ _ _ _ _ E), HP, HF. simpl. lia.
Qed.

Lemma count_shut_join P s v l : threads s !! v = Some Finished -> P Finished = false ->
  count P (join_worker v (set_shutdown (ShutJoining l) s)) = count P s.
Proof. intros E HF. unfold count. simpl. rewrite (size_ids_delete P _ v Finished E), HF. simpl. lia. Qed.

Lemma notified_none th : can_notify None (notify_phase <$> th) = true.
Proof.
  simpl. apply forallb_forall. intros [w ph] HE%list_elem_of_In%elem_of_map_to_list. apply lookup_fmap_Some in HE as (ph' & <- & _).
  by destruct ph'.
Qed.

Lemma shutdown_awake n max s : Inv n max s -> Inv n max (with_shutdown s) -> shutdown s = ShutNone ->
  count is_idle (with_shutdown s) = count is_idle s /\ count is_running (with_shutdown s) = count is_running s /\
  count is_idle s <= count is_awake (with_shutdown s).
Proof.
  intros HI HI' ES. destruct (inv_numbers _ _ _ HI) as (_ & _ & _ & _ & H1 & H2).
  destruct (inv_numbers _ _ _ HI') as (H3 & _ & _ & _ & H4 & H5). simpl in H4, H5. split; [lia|]. split; [lia|].
  destruct (no_workers (pool s)) eqn:EN.
  - unfold no_workers in EN. destruct (running_workers_ (pool s)), (idle_workers_ (pool s)) eqn:EI; try done. rewrite <- H1. apply H3.
  - pose proof (awake_all _ _ _ HI') as HA. simpl in HA. rewrite EN in HA. specialize (HA (notified_none _)).
    change (size_z (awake (with_shutdown s))) with (count is_awake (with_shutdown s)) in HA. lia.
Qed.

Lemma move_live n max k s s' : Inv n max s -> fits n max -> move k s s' -> Live max s -> Live max s'.
Proof.
  intros HI HF HM. pose proof (move_inv _ _ _ _ _ HI HF HM) as HI'. rewrite (live_lively _ _ _ HI), (live_lively _ _ _ HI').
  pose proof (inv_numbers _ _ _ HI) as HNs. pose proof (inv_max _ _ _ HI) as HMx.
  generalize (inv_numbers _ _ _ HI'). unfold lively. destruct HF as (HF1 & HF2 & HF3). destruct HM.
  - rewrite !(count_continue _ _ _ _ _ _ _ H). simpl. destruct ph as [| |t|[]|l|]; try done; simpl; lia.
  - rewrite !(count_continue _ _ _ _ _ _ _ H). simpl. rewrite H1. change (size_z (@nil task)) with 0.
    destruct ph as [| |t|[]|l|]; try done; simpl; lia.
  - rewrite !(count_continue _ _ _ _ _ _ _ H). simpl. rewrite H0, size_cons. simpl. pose proof (size_nonneg rest). lia.
  - rewrite !(count_continue _ _ _ _ _ _ _ H). simpl. rewrite H0, size_cons. simpl. pose proof (size_nonneg rest). lia.
  - rewrite !(count_continue _ _ _ _ _ _ _ H). simpl. rewrite H0. change (size_z (@nil task)) with 0. simpl. lia.
  - rewrite !(count_continue _ _ _ _ _ _ _ H). destruct (dead_pool_fields w (pool s)) as (b & -> & _). simpl. rewrite H1.
    change (size_z (@nil task)) with 0. destruct ph as [| |t|[]|l|]; try done; simpl; lia.
  - rewrite !count_same_joining by done. tauto.
  - rewrite !(count_continue _ _ _ _ _ _ _ H). simpl. lia.
  - tauto.
  - rewrite !count_shut_join by done. tauto.
  - tauto.
  - rewrite !count_notified by done. destruct pick as [w|]; simpl.
    + rewrite size_app. change (size_z [t]) with 1. change (count ?P (with_task t s)) with (count P s). lia.
    + pose proof (awake_all _ _ _ HI H0) as HA. change (size_z (awake s)) with (count is_awake s) in HA.
      rewrite size_app. change (size_z [t]) with 1. change (count ?P (with_task t s)) with (count P s).
      destruct (max =? 0) eqn:EM; rewrite size_nil in H2; lia.
  - simpl. rewrite size_app. change (size_z [t]) with 1. change (count ?P (with_task t s)) with (count P s).
    apply size_nil in H2. destruct (max =? 0) eqn:EM; lia.
  - rewrite !(count_with_worker _ _ _ _ (inv_task n max s t HI ltac:(lia))). simpl. rewrite size_app. change (size_z [t]) with 1.
    change (count ?P (with_task t s)) with (count P s). lia.
  - rewrite !(count_with_worker _ _ _ _ (inv_block n max s w t HI (conj HF1 (conj HF2 HF3)) H H0)).
    change (count ?P (with_blocked w s)) with (count P s). simpl. rewrite size_cons. destruct (0 <? _); simpl; lia.
  - change (count ?P (with_blocked w s)) with (count P s). pose proof (unblocked_worker _ _ _ _ _ HI H H0). simpl. rewrite size_cons.
    rewrite !size_nil in H1. destruct (max =? 0) eqn:EM; [|]; destruct (0 <? _) eqn:EL; simpl; lia.
  - change (count ?P (with_unblocked w s)) with (count P s). simpl. rewrite size_Remove by (done || apply HI). destruct (0 <? _); simpl; lia.
  - destruct (shutdown_awake _ _ _ HI (inv_shutdown _ _ _ HI H) H) as (H1 & H2 & H3). rewrite H1, H2. simpl. lia.
Qed.

(** *** Shutting down *)

Definition is_shut (sp : ShutdownPhase) : bool := match sp with ShutNone => false | _ => true end.
Definition is_left (sp : ShutdownPhase) : bool := match sp with ShutJoining _ | ShutDone => true | _ => false end.

Record Shut (s : System) : Prop := {
  shut_flag : shutting_down_ (pool s) = is_shut (shutdown s);
  shut_awake : shutting_down_ (pool s) = true -> forall w, threads s !! w <> Some (Waiting false);
  shut_dead : all_workers_dead_ (pool s) = shutting_down_ (pool s) && no_workers (pool s);
  shut_left : is_left (shutdown s) = true -> all_workers_dead_ (pool s) = true /\ dead_workers_ (pool s) = [];
}.

Lemma alive_worker n max s w ph : Inv n max s -> threads s !! w = Some ph -> is_dead ph = false -> no_workers (pool s) = false.
Proof.
  intros HI E HD. unfold no_workers. destruct (is_idle ph) eqn:EP.
  - pose proof (contains_idle _ _ _ _ _ HI E EP) as HC. apply bool_decide_eq_true in HC.
    destruct (idle_workers_ (pool s)); [by apply elem_of_nil in HC|]. by rewrite andb_false_r.
  - pose proof (contains_running _ _ _ _ _ HI E ltac:(by destruct ph)) as HC. apply bool_decide_eq_true in HC.
    destruct (running_workers_ (pool s)); [by apply elem_of_nil in HC|done].
Qed.

Lemma alive_shut n max s w ph : Inv n max s -> Shut s -> threads s !! w = Some ph -> is_dead ph = false ->
  all_workers_dead_ (pool s) = false /\ is_left (shutdown s) = false.
Proof.
  intros HI HS E HD. assert (HA : all_workers_dead_ (pool s) = false) by (rewrite (shut_dead _ HS), (alive_worker _ _ _ _ _ HI E HD); by destruct (shutting_down_ _)).
  split; [done|]. destruct (is_left (shutdown s)) eqn:EL; [|done]. destruct (shut_left _ HS EL). congruence.
Qed.

Lemma IsEmpty_app {A} (l : list A) x : IsEmpty (l ++ [x]) = false.
Proof. by destruct l. Qed.

(** A worker that is alive continues, and keeps the pool alive. *)
Lemma shut_continue n max s w ph ph' p done : Inv n max s -> Shut s -> threads s !! w = Some ph -> is_dead ph = false ->
  shutting_down_ p = shutting_down_ (pool s) -> all_workers_dead_ p = shutting_down_ p && no_workers p ->
  (shutting_down_ p = true -> ph' <> Waiting false) -> Shut (continue w (ph', p) done s).
Proof.
  intros HI HS E HD H1 H2 H3. destruct (alive_shut _ _ _ _ _ HI HS E HD) as [_ HL]. split; simpl.
  - rewrite H1. apply HS.
  - intros HT v. rewrite H1 in HT. pose proof (shut_awake _ HS HT v) as HV. destruct (decide (w = v)) as [<-|NE].
    + rewrite lookup_insert_eq. intros [= ->]. apply H3; [congruence|done].
    + by rewrite lookup_insert_ne.
  - done.
  - congruence.
Qed.

Lemma move_shut n max k s s' : Inv n max s -> move k s s' -> Shut s -> Shut s'.
Proof.
  intros HI HM HS. destruct HM.
  - eapply shut_continue; try done; [by destruct ph|apply HS].
  - eapply shut_continue; try done; [by destruct ph|apply HS|congruence].
  - destruct (alive_shut _ _ _ _ _ HI HS H eq_refl) as [HA _]. eapply shut_continue; try done. simpl. unfold no_workers. simpl.
    rewrite HA, IsEmpty_app. by destruct (shutting_down_ _).
  - eapply shut_continue; try done. simpl. apply HS.
  - destruct (alive_shut _ _ _ _ _ HI HS H eq_refl) as [HA _]. eapply shut_continue; try done. simpl. unfold no_workers. simpl.
    rewrite HA, IsEmpty_app, andb_false_r. by destruct (shutting_down_ _).
  - assert (HD : is_dead ph = false) by (by destruct ph). destruct (alive_shut _ _ _ _ _ HI HS H HD) as [HA _].
    destruct (dead_pool_fields w (pool s)) as (b & EP & EB). eapply shut_continue; try done; rewrite EP; simpl; try done.
    rewrite EB, HA. unfold no_workers. simpl. by rewrite andb_assoc.
  - split; simpl; try apply HS. intros HT u [_ [[_ E]|[_ E]]%lookup_insert_Some]%lookup_delete_Some; [done|]. by apply (shut_awake _ HS HT u).
  - split; simpl; try apply HS. intros HT u [[_ E]|[_ E]]%lookup_insert_Some; [done|]. by apply (shut_awake _ HS HT u).
  - split; simpl; try apply HS; [|done]. by rewrite (shut_flag _ HS), H.
  - split; simpl; [by rewrite (shut_flag _ HS), H| |apply HS|intros _; apply HS; by rewrite H].
    intros HT u [_ E]%lookup_delete_Some. by apply (shut_awake _ HS HT u).
  - split; simpl; [by rewrite (shut_flag _ HS), H|apply HS..|intros _; apply HS; by rewrite H].
  - assert (HL : Shut (with_task t s)) by (split; simpl; apply HS). destruct pick as [w|]; [|done].
    apply bool_decide_eq_true, fmap_Some in H0 as (ph & E & HW). split; simpl; try apply HS. congruence.
  - split; simpl; apply HS.
  - split; simpl; try apply HS; [congruence|]. by rewrite (shut_dead _ HS), H.
  - destruct (alive_shut _ _ _ _ _ HI HS H eq_refl) as [HA HL]. split; simpl; destruct (0 <? _); simpl; try apply HS; try congruence;
      [intros HT u [[_ E]|[_ E]]%lookup_insert_Some; [done|]; by apply (shut_awake _ HS HT u)..| |];
      rewrite HA; unfold no_workers; simpl; by rewrite IsEmpty_app, !andb_false_r.
  - split; simpl; destruct (0 <? _); simpl; apply HS.
  - split; simpl; destruct (0 <? _); simpl; apply HS.
  - split; simpl; [done| | |done].
    + intros _ w. destruct (no_workers (pool s)) eqn:EN; [intros E; by rewrite (alive_worker _ _ _ _ _ HI E eq_refl) in EN|].
      intros (ph & EP & _)%lookup_fmap_Some. by destruct ph.
    + rewrite (shut_dead _ HS), (shut_flag _ HS), H. simpl. unfold no_workers. simpl. by rewrite orb_false_r.
Qed.

(** *** Deaths *)

(** The workers that a dead worker joins died before it. *)
Record Death (s : System) : Prop := {
  death_alive : forall w ph, threads s !! w = Some ph -> is_dead ph = false -> deaths s !! w = None;
  death_fresh : forall w, is_Some (deaths s !! w) -> (w < fresh s)%nat;
  death_dead : forall w ph, threads s !! w = Some ph -> is_dead ph = true -> exists i, deaths s !! w = Some i /\ (i < size (deaths s))%nat;
  death_order : forall w l v, threads s !! w = Some (Joining l) -> v ∈ l ->
    exists i j, deaths s !! v = Some i /\ deaths s !! w = Some j /\ (i < j)%nat;
}.

Lemma dead_lookup n max s v : Inv n max s -> v ∈ unjoined s -> exists ph, threads s !! v = Some ph /\ is_dead ph = true.
Proof. intros HI HV. rewrite (inv_dead _ _ _ HI) in HV. by apply ids_elem. Qed.

(** A step of a worker that does not die, of which the threads and workers to join are no more than before. *)
Lemma death_keep s s' : Death s -> deaths s' = deaths s -> (fresh s <= fresh s')%nat ->
  (forall w ph', threads s' !! w = Some ph' -> (exists ph, threads s !! w = Some ph /\ is_dead ph = is_dead ph') \/ (w >= fresh s)%nat /\ is_dead ph' = false) ->
  (forall w l', threads s' !! w = Some (Joining l') -> exists l, threads s !! w = Some (Joining l) /\ l' ⊆ l) -> Death s'.
Proof.
  intros HD ED HF HT HJ. split; rewrite ED.
  - intros w ph E EP. destruct (HT w ph E) as [(q & EQ & HQ)|[HW _]].
    + apply (death_alive _ HD w q EQ). congruence.
    + apply eq_None_not_Some. intros HS. apply (death_fresh _ HD) in HS. lia.
  - intros w HS. apply (death_fresh _ HD) in HS. lia.
  - intros w ph E EP. destruct (HT w ph E) as [(q & EQ & HQ)|[_ HW]]; [|congruence]. apply (death_dead _ HD w q EQ). congruence.
  - intros w l v E HV. destruct (HJ w l E) as (l0 & E0 & HL). apply (death_order _ HD w l0 v E0). by apply HL.
Qed.

Lemma death_continue s w ph ph' p done : Death s -> threads s !! w = Some ph -> is_dead ph = is_dead ph' ->
  (forall l, ph' <> Joining l) -> Death (continue w (ph', p) done s).
Proof.
  intros HD E HP HJ. eapply death_keep; [done|simpl; destruct ph'; try done; by edestruct HJ|done| |]; simpl.
  - intros v q [[<- <-]|[_ EV]]%lookup_insert_Some; left; eauto.
  - intros v l [[<- EV]|[_ EV]]%lookup_insert_Some; [by edestruct HJ|]. by exists l.
Qed.

Lemma death_die n max s w ph p : Inv n max s -> Death s -> threads s !! w = Some ph -> is_idle ph = true ->
  Death (continue w (Joining (dead_workers_ (pool s)), p) [] s).
Proof.
  intros HI HD E HP. assert (EN : deaths s !! w = None) by (apply (death_alive _ HD w ph E); by destruct ph).
  assert (EO : forall v, is_Some (deaths s !! v) -> <[w := size (deaths s)]> (deaths s) !! v = deaths s !! v).
  { intros v HV. apply lookup_insert_ne. intros ->. rewrite EN in HV. by apply is_Some_None in HV. }
  split; simpl; rewrite ?map_size_insert_None by done.
  - intros v q [[<- <-]|[NE EV]]%lookup_insert_Some HQ; [done|]. rewrite lookup_insert_ne by done. by eapply death_alive.
  - intros v [<-|[_ HV]]%lookup_insert_is_Some; [apply (inv_fresh _ _ _ HI); by eexists|by apply (death_fresh _ HD)].
  - intros v q [[<- <-]|[NE EV]]%lookup_insert_Some HQ.
    + exists (size (deaths s)). rewrite lookup_insert_eq. split; [done|lia].
    + rewrite lookup_insert_ne by done. destruct (death_dead _ HD v q EV HQ) as (i & Ei & HL). exists i. split; [done|lia].
  - intros u l v [[<- [= <-]]|[NE EV]]%lookup_insert_Some HV.
    + destruct (dead_lookup _ _ _ v HI) as (q & EQ & HQ); [unfold unjoined; apply elem_of_app; by left|].
      destruct (death_dead _ HD v q EQ HQ) as (i & Ei & HL). exists i, (size (deaths s)). rewrite lookup_insert_eq, EO by (by rewrite Ei). done.
    + destruct (death_order _ HD u l v EV HV) as (i & j & Ei & Ej & HL). exists i, j. rewrite !EO by (by rewrite ?Ei, ?Ej). done.
Qed.

Lemma death_same s s' : Death s -> threads s' = threads s -> deaths s' = deaths s -> fresh s' = fresh s -> Death s'.
Proof.
  intros HD ET ED EF. eapply death_keep; [done|done|lia| |]; rewrite ET; [intros w ph E; left; by exists ph|intros w l E; by exists l].
Qed.

Lemma death_worker s : Death s -> Death (with_worker s).
Proof.
  intros HD. eapply death_keep; [done|done|simpl; lia| |]; simpl.
  - intros w ph [[<- <-]|[_ E]]%lookup_insert_Some; [right; split; [lia|done]|left; by exists ph].
  - intros w l [[_ E]|[_ E]]%lookup_insert_Some; [done|by exists l].
Qed.

Lemma move_death n max k s s' : Inv n max s -> move k s s' -> Death s -> Death s'.
Proof.
  intros HI HM HD. destruct HM.
  - eapply death_continue; [done..|by destruct ph|done].
  - eapply death_continue; [done..|by destruct ph|done].
  - by eapply death_continue.
  - by eapply death_continue.
  - by eapply death_continue.
  - by eapply death_die.
  - eapply death_keep; [done|done|done| |]; simpl.
    + intros u ph [_ [[<- <-]|[_ E]]%lookup_insert_Some]%lookup_delete_Some; left; eauto.
    + intros u l' [_ [[<- [= <-]]|[_ E]]%lookup_insert_Some]%lookup_delete_Some; eexists; (split; [done|]); [|done].
      intros x Hx. by right.
  - by eapply death_continue.
  - by apply (death_same s).
  - eapply death_keep; [done|done|done| |]; simpl.
    + intros u ph [_ E]%lookup_delete_Some. left. by exists ph.
    + intros u l' [_ E]%lookup_delete_Some. by exists l'.
  - by apply (death_same s).
  - assert (HL : Death (with_task t s)) by (by apply (death_same s)). destruct pick as [w|]; [|done].
    apply bool_decide_eq_true, fmap_Some in H0 as (ph & E & HW). eapply death_continue; [done|done|by destruct ph|done].
  - by apply (death_same s).
  - apply death_worker. by apply (death_same s).
  - apply death_worker. by apply (death_same s).
  - by apply (death_same s).
  - by apply (death_same s).
  - eapply death_keep; [done|done|done| |]; simpl; destruct (no_workers (pool s)).
    + intros u ph E. left. by exists ph.
    + intros u ph (q & <- & E)%lookup_fmap_Some. left. exists q. by destruct q.
    + intros u l' E. by exists l'.
    + intros u l' (q & EQ & E)%lookup_fmap_Some. exists l'. by destruct q; simplify_eq/=.
Qed.

(** *** Actions are moves *)

(** Every action succeeds, and is one step or two. *)
Record Good (n max : Z) (s : System) : Prop := {
  good_inv : Inv n max s;
  good_live : Live max s;
  good_shut : Shut s;
  good_death : Death s;
}.

Lemma move_good n max k s s' : Good n max s -> fits n max -> move k s s' -> Good (n + k) max s'.
Proof.
  intros HG HF HM. pose proof (good_inv _ _ _ HG) as HI. split.
  - by eapply move_inv.
  - eapply move_live; [done..|apply HG].
  - eapply move_shut; [done..|apply HG].
  - eapply move_death; [done..|apply HG].
Qed.

Lemma after_tasks_nil w p : tasks_ p = [] ->
  after_tasks w p = if shutting_down_ p then leave_loop w p else Ok (Waiting false, p).
Proof. intros ET. unfold after_tasks. rewrite ET. simpl. rewrite andb_false_r. by destruct (IsEmpty _). Qed.

Definition cost (a : action) : Z := match a with Run _ _ | Block _ | Unblock _ | Shutdown => 2 | _ => 0 end.

(** The steps that a thread of the pool can take, without a spurious wakeup. *)
Definition enabled (a : action) (s : System) : bool :=
  match a with
  | Start w => match threads s !! w with Some Starting => true | _ => false end
  | Enter w => match threads s !! w with Some Looping => true | _ => false end
  | Done w => match threads s !! w with Some (Executing _) => negb (ContainsForDebugging (blocked s) w) | _ => false end
  | Wake w timed_out => match threads s !! w with Some (Waiting true) => negb timed_out | _ => false end
  | Join w =>
      match threads s !! w with
      | Some (Joining []) => true
      | Some (Joining (v :: _)) => match threads s !! v with Some Finished => true | _ => false end
      | _ => false
      end
  | Exit => match shutdown s with ShutWaiting => all_workers_dead_ (pool s) | _ => false end
  | ShutJoin =>
      match shutdown s with
      | ShutJoining [] => true
      | ShutJoining (v :: _) => match threads s !! v with Some Finished => true | _ => false end
      | _ => false
      end
  | _ => false
  end.

Definition does (a : action) (s : System) : Prop :=
  (exec a s = Ok s /\ enabled a s = false) \/
  exists s' mid, exec a s = Ok s' /\
    (mid = s \/ move 0 s mid /\ tasks_ (pool s) = [] /\ shutdown mid = shutdown s) /\ move (cost a) mid s'.

Lemma does_move a s s' : exec a s = Ok s' -> move (cost a) s s' -> does a s.
Proof. intros HE HM. right. exists s', s. auto. Qed.

Lemma does_nothing a s : exec a s = Ok s -> enabled a s = false -> does a s.
Proof. intros HE HD. by left. Qed.

Lemma notify_with pick s t : can_notify pick (threads s) = true ->
  mkSystem (pool (with_task t s)) (notify pick (threads s)) (blocked s) (fresh s) (shutdown s) (joined s) (deaths s) (accepted s ++ [t])
    (started s) (finished s) = with_notified pick (with_task t s).
Proof. intros _. destruct pick as [w|]; [|done]. cbn [with_notified]. by rewrite <- notify_continue. Qed.

Section exec.
Context (n max : Z) (s : System) (HI : Inv n max s) (HS : Shut s) (HF : fits n max).

(** Whether a new task gets no new worker. *)
Definition enough_workers : bool :=
  (size_z (tasks_ (pool s)) <? size_z (idle_workers_ (pool s))) ||
  ((0 <? max_pool_size_ (pool s)) && (max_pool_size_ (pool s) <=? size_z (idle_workers_ (pool s)) + size_z (running_workers_ (pool s)))).

Lemma RunImpl_ok t : shutting_down_ (pool s) = false ->
  RunImpl t (fresh s) (pool s) =
  Ok (Some (if enough_workers then (pool (with_task t s), negb (IsEmpty (idle_workers_ (pool s))), None)
            else (add_worker (fresh s) (pool (with_task t s)), false, Some (fresh s)))).
Proof.
  intros ES. destruct (inv_bound _ _ _ HI) as [HB HBt]. destruct HF as (HF1 & HF2 & HF3). pose proof (inv_numbers _ _ _ HI) as HNs.
  pose proof (size_nonneg (unjoined s)).
  assert (HP : inc (pending_tasks_ (pool s)) = size_z (tasks_ (pool s)) + 1) by (rewrite (inv_pending _ _ _ HI); apply (inc_ok n); lia).
  assert (HW : wrapu 64 (count_idle_ (pool s) + count_running_ (pool s)) = size_z (idle_workers_ (pool s)) + size_z (running_workers_ (pool s))).
  { rewrite (inv_count_idle _ _ _ HI), (inv_count_running _ _ _ HI). apply wrapu_id. unfold is_u. lia. }
  unfold RunImpl, ScheduleTaskLocked, enough_workers. simpl. rewrite ES, HW, HP, (inv_count_idle _ _ _ HI).
  replace (1 <=? size_z (tasks_ (pool s)) + 1) with true by lia. simpl.
  destruct (size_z (tasks_ (pool s)) + 1 <=? size_z (idle_workers_ (pool s))) eqn:E1.
  - replace (size_z (tasks_ (pool s)) <? size_z (idle_workers_ (pool s))) with true by lia. simpl.
    destruct (idle_workers_ (pool s)) eqn:EI; [|done]. change (size_z (@nil worker)) with 0 in E1. lia.
  - replace (size_z (tasks_ (pool s)) <? size_z (idle_workers_ (pool s))) with false by lia. simpl. by destruct (_ && _).
Qed.

Lemma does_run t pick : does (Run t pick) s.
Proof.
  destruct (shutting_down_ (pool s)) eqn:ES; [apply does_nothing; [simpl; unfold RunImpl; by rewrite ES|done]|].
  pose proof (RunImpl_ok t ES) as HR. destruct enough_workers eqn:EW.
  2:{ eapply does_move; [|by apply (MoveRunNew s t)]. simpl. by rewrite HR. }
  destruct (IsEmpty (idle_workers_ (pool s))) eqn:EI.
  - unfold enough_workers in EW. destruct (idle_workers_ (pool s)) as [|w0 l0] eqn:EL; [|done].
    pose proof (size_nonneg (tasks_ (pool s))). change (size_z (@nil worker)) with 0 in EW.
    eapply does_move; [|apply (MoveRunFull s t); [done|lia..|done]]. simpl. by rewrite HR.
  - assert (HL : idle_workers_ (pool s) <> []) by (by destruct (idle_workers_ (pool s))).
    destruct (can_notify pick (threads s)) eqn:EN; [|apply does_nothing; [simpl; rewrite HR; simpl; by rewrite EN|done]].
    eapply does_move; [|apply (MoveRunNotify s t pick); [done..| |done]].
    + rewrite <- notify_with by done. simpl. rewrite HR. simpl. by rewrite EN.
    + unfold enough_workers in EW. lia.
Qed.

Lemma does_start w : does (Start w) s.
Proof.
  destruct (threads s !! w) as [[]|] eqn:E; try (apply does_nothing; simpl; by rewrite E).
  eapply does_move; [|by apply (MoveLoop s w Starting)]. simpl. by rewrite E, (contains_idle _ _ _ _ _ HI E eq_refl).
Qed.

Lemma does_enter w : does (Enter w) s.
Proof.
  destruct (threads s !! w) as [[]|] eqn:E; try (apply does_nothing; simpl; by rewrite E).
  destruct (tasks_ (pool s)) as [|t rest] eqn:ET.
  - destruct (shutting_down_ (pool s)) eqn:ES.
    + eapply does_move; [|by apply (MoveDie s w Looping)]. simpl. rewrite E. unfold loop_top. rewrite ET. simpl.
      by rewrite after_tasks_nil, ES, (leave_ok _ _ _ _ _ HI E).
    + eapply does_move; [|by apply (MoveWait s w Looping)]. simpl. rewrite E. unfold loop_top. rewrite ET. simpl.
      by rewrite after_tasks_nil, ES.
  - eapply does_move; [|by apply (MoveTake s w t rest)]. simpl. rewrite E. unfold loop_top, IdleToRunningLocked.
    rewrite ET, (contains_idle _ _ _ _ _ HI E eq_refl). simpl. by rewrite ET.
Qed.

Lemma does_wake w b : does (Wake w b) s.
Proof.
  destruct (threads s !! w) as [[| |t|c|l|]|] eqn:E; try (apply does_nothing; simpl; by rewrite E).
  destruct (tasks_ (pool s)) as [|t rest] eqn:ET.
  - destruct (shutting_down_ (pool s) || b) eqn:ES.
    + eapply does_move; [|by apply (MoveDie s w (Waiting c))]. simpl. rewrite E. unfold wake. rewrite ET. simpl.
      by rewrite ES, (leave_ok _ _ _ _ _ HI E).
    + eapply does_move; [|apply (MoveWait s w (Waiting c)); [done..|by destruct (shutting_down_ (pool s))]]. simpl. rewrite E. unfold wake.
      rewrite ET. simpl. by rewrite ES.
  - eapply does_move; [|by apply (MoveLoop s w (Waiting c))]. simpl. rewrite E. unfold wake. by rewrite ET.
Qed.

Lemma does_done w : does (Done w) s.
Proof.
  destruct (threads s !! w) as [[| |t|c|l|]|] eqn:E; try (apply does_nothing; simpl; by rewrite E).
  destruct (ContainsForDebugging (blocked s) w) eqn:EB; [apply does_nothing; simpl; by rewrite E, EB|].
  apply bool_decide_eq_false in EB as HB.
  destruct (tasks_ (pool s)) as [|t' rest] eqn:ET; [|eapply does_move; [|by apply (MoveNext s w t t' rest)]; simpl; rewrite E, EB; unfold task_done; by rewrite ET].
  pose proof (MoveRest s w t E ET HB) as HM. set (mid := continue w (Looping, rested_pool w (pool s)) [t] s) in *.
  assert (HN : n + 1 < 2 ^ 64) by (unfold fits in HF; lia).
  pose proof (inv_rest n max s w _ HI HN E t Looping eq_refl eq_refl HB) as HI'. fold mid in HI'.
  assert (E' : threads mid !! w = Some Looping) by (simpl; apply lookup_insert_eq).
  assert (HD : task_done w (pool s) = if shutting_down_ (pool s) then leave_loop w (pool mid) else Ok (Waiting false, pool mid)).
  { unfold task_done. rewrite ET, (RunningToIdle_ok _ _ _ _ _ HI E eq_refl ET). simpl. by rewrite after_tasks_nil. }
  destruct (shutting_down_ (pool s)) eqn:ES.
  - rewrite (leave_ok _ _ _ _ _ HI' E' eq_refl ET) in HD. right. exists (continue w (Joining (dead_workers_ (pool mid)), dead_pool w (pool mid)) [] mid), mid.
    split; [|split; [by right|by apply (MoveDie mid w Looping)]]. simpl exec. rewrite E, EB, HD, Ok_bind.
    f_equal. symmetry. by apply (continue_continue w Looping).
  - right. exists (continue w (Waiting false, pool mid) [] mid), mid.
    split; [|split; [by right|by apply (MoveWait mid w Looping)]]. simpl exec. rewrite E, EB, HD, Ok_bind.
    f_equal. symmetry. by apply (continue_continue w Looping).
Qed.

Lemma does_join w : does (Join w) s.
Proof.
  destruct (threads s !! w) as [[| |t|c|l|]|] eqn:E; try (apply does_nothing; simpl; by rewrite E).
  destruct l as [|v l].
  - eapply does_move; [|by apply (MoveFinish s w)]. simpl. by rewrite E.
  - destruct (threads s !! v) as [[]|] eqn:EV; try (apply does_nothing; simpl; by rewrite E, EV).
    eapply does_move; [|by apply (MoveJoin s w v l)]. simpl. by rewrite E, EV.
Qed.

Lemma does_block w : does (Block w) s.
Proof.
  destruct (threads s !! w) as [[| |t|c|l|]|] eqn:E; try (apply does_nothing; [simpl; by rewrite E|done]).
  destruct (ContainsForDebugging (blocked s) w) eqn:EB; [apply does_nothing; [simpl; by rewrite E, EB|done]|].
  apply bool_decide_eq_false in EB as HB. pose proof (inv_pending _ _ _ HI) as HP. pose proof (size_nonneg (tasks_ (pool s))) as H0.
  pose proof (size_nil (tasks_ (pool s))) as HT.
  destruct (0 <? max_pool_size_ (pool s)) eqn:EM.
  - destruct (IsEmpty (idle_workers_ (pool s)) && (0 <? pending_tasks_ (pool s))) eqn:EC.
    + eapply does_move; [|apply (MoveBlockNew s w t); [done..| |lia]]; [|rewrite HT; lia].
      simpl. rewrite E, EB. unfold MarkCurrentWorkerAsBlocked, with_blocked, with_worker. simpl. by rewrite EM, EC.
    + eapply does_move; [|apply (MoveBlock s w t); [done..|]].
      * simpl. rewrite E, EB. unfold MarkCurrentWorkerAsBlocked, with_blocked. simpl. by rewrite EM, EC.
      * intros _ HN. rewrite HT in HN. destruct (idle_workers_ (pool s)); [|done]. simpl in EC. lia.
  - eapply does_move; [|apply (MoveBlock s w t); [done..|lia]].
    simpl. rewrite E, EB. unfold MarkCurrentWorkerAsBlocked, with_blocked. by rewrite EM.
Qed.

Lemma does_unblock w : does (Unblock w) s.
Proof.
  destruct (ContainsForDebugging (blocked s) w) eqn:EB; [|apply does_nothing; [simpl; by rewrite EB|done]].
  apply bool_decide_eq_true in EB as HB. destruct (inv_unblock _ _ _ w HI HF HB) as [_ HM].
  eapply does_move; [|by apply (MoveUnblock s w)]. simpl. rewrite EB. unfold MarkCurrentWorkerAsUnBlocked, with_unblocked.
  destruct (0 <? max_pool_size_ (pool s)) eqn:EM; [|done]. simpl. by replace (0 <? dec (max_pool_size_ (pool s))) with true by lia.
Qed.

Lemma does_shutdown : does Shutdown s.
Proof.
  destruct (shutdown s) eqn:ES; try (apply does_nothing; [simpl; by rewrite ES|done]).
  eapply does_move; [|by apply (MoveShutdown s)]. simpl. by rewrite ES.
Qed.

Lemma does_exit : does Exit s.
Proof.
  destruct (shutdown s) eqn:ES; try (apply does_nothing; simpl; by rewrite ES).
  destruct (all_workers_dead_ (pool s)) eqn:EA; [|apply does_nothing; simpl; by rewrite ES, EA].
  eapply does_move; [|by apply (MoveExit s)]. simpl. rewrite ES, EA, (inv_count_idle _ _ _ HI), (inv_count_running _ _ _ HI).
  pose proof (shut_dead _ HS) as HD. rewrite EA in HD. unfold no_workers in HD. destruct (shutting_down_ (pool s)); [|done].
  destruct (running_workers_ (pool s)), (idle_workers_ (pool s)); try done.
Qed.

Lemma does_shut_join : does ShutJoin s.
Proof.
  destruct (shutdown s) as [| |[|v l]|] eqn:ES; try (apply does_nothing; simpl; by rewrite ES).
  - eapply does_move; [|by apply (MoveShutDone s)]. simpl. destruct (shut_left _ HS) as [_ HD]; [by rewrite ES|].
    by rewrite ES, (inv_count_dead _ _ _ HI), HD.
  - destruct (threads s !! v) as [[]|] eqn:EV; try (apply does_nothing; simpl; by rewrite ES, EV).
    eapply does_move; [|by apply (MoveShutJoin s v l)]. simpl. by rewrite ES, EV.
Qed.

Lemma exec_does a : does a s.
Proof.
  destruct a; [apply does_run|apply does_start|apply does_enter|apply does_done|apply does_wake|apply does_join|apply does_block
    |apply does_unblock|apply does_shutdown|apply does_exit|apply does_shut_join].
Qed.

End exec.

(** An action keeps all of it; the numbers of workers and tasks grow by two at most. *)
Lemma exec_good n max s a : Good n max s -> fits n max -> exists s', exec a s = Ok s' /\ Good (n + cost a) max s'.
Proof.
  intros HG HF. assert (HC : 0 <= cost a) by (by destruct a).
  destruct (exec_does n max s (good_inv _ _ _ HG) (good_shut _ _ _ HG) HF a) as [[HE _]|(s' & mid & HE & HM1 & HM2)].
  - exists s. split; [done|]. destruct HG as [H1 H2 H3 H4]. split; try done. eapply inv_mono; [done|lia].
  - exists s'. split; [done|]. assert (HG1 : Good n max mid).
    { destruct HM1 as [->|(HM1 & _)]; [done|]. replace n with (n + 0) by lia. by eapply move_good. }
    by eapply move_good.
Qed.

Lemma good_mono n m max s : Good n max s -> n <= m -> Good m max s.
Proof. intros [H1 H2 H3 H4] HL. split; try done. by eapply inv_mono. Qed.

Lemma good_new max : 0 <= max -> Good 0 max (System_new max).
Proof.
  intros HM. split; split; try done.
  - intros w HS. simpl in HS. rewrite lookup_empty in HS. by apply is_Some_None in HS.
  - split; [constructor|]. intros w HW. by apply elem_of_nil in HW.
  - simpl. destruct (max =? 0) eqn:EM; unfold size_z; simpl; lia.
  - intros w HS. simpl in HS. rewrite lookup_empty in HS. by apply is_Some_None in HS.
Qed.

Lemma exec_all_good l n max s : Good n max s -> 0 <= n -> 0 <= max -> max + n + 2 * size_z l + 3 < 2 ^ 64 ->
  exists s', exec_all l s = Ok s' /\ Good (n + 2 * size_z l) max s'.
Proof.
  revert n s. induction l as [|a l IH]; intros n s HG HN HM HL; cbn [exec_all].
  - exists s. split; [done|]. eapply good_mono; [done|]. unfold size_z. simpl. lia.
  - rewrite size_cons in *. pose proof (size_nonneg l). destruct (exec_good n max s a HG) as (s1 & -> & HG1); [unfold fits; lia|].
    destruct (IH (n + 2) s1) as (s2 & E2 & HG2); [eapply good_mono; [done|destruct a; simpl; lia]|lia..|]. rewrite Ok_bind.
    exists s2. split; [done|]. eapply good_mono; [done|lia].
Qed.

(** The states that a pool reaches. *)
Lemma reached l max : 0 <= max -> max + 2 * size_z l + 3 < 2 ^ 64 ->
  exists s, exec_all l (System_new max) = Ok s /\ Good (2 * size_z l) max s /\ fits (2 * size_z l) max.
Proof.
  intros HM HL. pose proof (size_nonneg l). destruct (exec_all_good l 0 max (System_new max) (good_new max HM)) as (s & E & HG); [lia..|].
  exists s. split; [done|]. split; [done|]. unfold fits. lia.
Qed.

(** ** Progress *)

(** How many more steps a thread takes at most, and the whole pool. *)
Definition weight (ph : Phase) : nat :=
  match ph with Starting => 4 | Looping => 3 | Executing _ => 4 | Waiting _ => 4 | Joining _ => 2 | Finished => 1 end.
Definition shut_weight (sp : ShutdownPhase) : nat := match sp with ShutWaiting => 2 | ShutJoining _ => 1 | _ => 0 end.
Definition work (th : gmap worker Phase) : nat := length (collect (fun _ ph => replicate (weight ph) ()) th).
Definition measure (s : System) : nat := 2 * length (tasks_ (pool s)) + work (threads s) + shut_weight (shutdown s).

Lemma work_update th w ph ph' : th !! w = Some ph -> (work (<[w := ph']> th) + weight ph = work th + weight ph')%nat.
Proof.
  intros E. unfold work. rewrite (Permutation_length (collect_update _ _ _ _ ph' E)).
  rewrite (Permutation_length (collect_delete _ _ _ _ E)), !length_app, !length_replicate. lia.
Qed.

Lemma work_delete th w ph : th !! w = Some ph -> (work (delete w th) + weight ph = work th)%nat.
Proof.
  intros E. unfold work. rewrite (Permutation_length (collect_delete _ _ _ _ E)), !length_app, !length_replicate. lia.
Qed.

(** While tasks are pending or the pool is shutting down, every step brings it closer to its end. *)
Lemma move_measure k s s' : Shut s -> tasks_ (pool s) <> [] \/ shutdown s <> ShutNone -> move k s s' -> k = 0 ->
  (measure s' < measure s)%nat.
Proof.
  intros HS HA HM HK. unfold measure. destruct HM; try lia; simpl;
    try (match goal with |- context[<[_ := ?q]> (threads s)] => pose proof (work_update _ _ _ q H) as HW; simpl in HW end).
  - destruct ph; simpl in *; try done; lia.
  - destruct HA as [HA|HA]; [done|]. rewrite (shut_flag _ HS) in H2. by destruct (shutdown s).
  - rewrite H0. simpl. lia.
  - rewrite H0. simpl. lia.
  - lia.
  - destruct (dead_pool_fields w (pool s)) as (b & -> & _). simpl. destruct ph; simpl in *; try done; lia.
  - assert (NE : w <> v) by (intros ->; congruence).
    pose proof (work_delete (<[w := Joining l]> (threads s)) v Finished ltac:(by rewrite lookup_insert_ne)). simpl in *. lia.
  - lia.
  - rewrite H. simpl. lia.
  - pose proof (work_delete _ _ _ H0). rewrite H. simpl in *. lia.
  - rewrite H. simpl. lia.
Qed.

Lemma enabled_cost a s : enabled a s = true -> cost a = 0.
Proof. by destruct a. Qed.

(** The steps of the pool itself keep the blocked workers, and do not undo a shutdown. *)
Lemma move_keeps k s s' : move k s s' -> k = 0 -> blocked s' = blocked s /\ (shutdown s <> ShutNone -> shutdown s' <> ShutNone).
Proof. intros HM HK. by destruct HM. Qed.

Lemma enabled_step n max s a : Good n max s -> fits n max -> tasks_ (pool s) <> [] \/ shutdown s <> ShutNone -> enabled a s = true ->
  exists s', exec a s = Ok s' /\ Good n max s' /\ (measure s' < measure s)%nat /\ blocked s' = blocked s /\
    (shutdown s <> ShutNone -> shutdown s' <> ShutNone).
Proof.
  intros HG HF HA HE. pose proof (enabled_cost _ _ HE) as HC.
  destruct (exec_good n max s a HG HF) as (s1 & E1 & HG1). rewrite HC, Z.add_0_r in HG1. exists s1. split; [done|]. split; [done|].
  destruct (exec_does n max s (good_inv _ _ _ HG) (good_shut _ _ _ HG) HF a) as [[_ HD]|(s' & mid & EX & HM1 & HM2)]; [congruence|].
  rewrite EX in E1. injection E1 as <-. destruct (move_keeps _ _ _ HM2 HC) as [HB2 HK2].
  destruct HM1 as [->|(HM1 & ET & ES)].
  - split; [|done]. eapply move_measure; [apply HG|done..].
  - pose proof (move_good _ _ _ _ _ HG HF HM1) as HG2. destruct (move_keeps _ _ _ HM1 eq_refl) as [HB1 HK1].
    destruct HA as [HA|HA]; [done|]. split; [|split; [congruence|auto]].
    pose proof (move_measure _ _ _ (good_shut _ _ _ HG) (or_intror HA) HM1 eq_refl).
    pose proof (move_measure _ _ _ (good_shut _ _ _ HG2) (or_intror (HK1 HA)) HM2 HC). lia.
Qed.

Lemma awake_enabled s w ph : threads s !! w = Some ph -> is_awake ph = true -> exists a, enabled a s = true.
Proof.
  intros E HP. destruct ph as [| |t|[]|l|]; try done; [exists (Start w)|exists (Enter w)|exists (Wake w false)]; simpl; by rewrite E.
Qed.

Lemma running_enabled s w ph : threads s !! w = Some ph -> is_running ph = true -> w ∉ blocked s -> exists a, enabled a s = true.
Proof.
  intros E HP HB. destruct ph; try done. exists (Done w). simpl. rewrite E. unfold ContainsForDebugging. by rewrite bool_decide_eq_false_2.
Qed.

(** A running worker that is not blocked, if there are more running workers than blocked ones. *)
Lemma some_unblocked n max s : Inv n max s -> size_z (blocked s) < size_z (running_workers_ (pool s)) ->
  exists w ph, threads s !! w = Some ph /\ is_running ph = true /\ w ∉ blocked s.
Proof.
  intros HI HL. assert (HN : NoDup (running_workers_ (pool s))) by (rewrite (inv_running _ _ _ HI); apply NoDup_collect).
  destruct (decide (Exists (fun w => w ∉ blocked s) (running_workers_ (pool s)))) as [(w & HW & HB)%Exists_exists|HE].
  - rewrite (inv_running _ _ _ HI) in HW. apply ids_elem in HW as (ph & E & HP). eauto.
  - exfalso. assert (HS : running_workers_ (pool s) ⊆+ blocked s).
    { apply NoDup_submseteq; [done|]. intros w HW. destruct (decide (w ∈ blocked s)) as [?|HB]; [done|]. destruct HE. apply Exists_exists. eauto. }
    apply submseteq_length in HS. unfold size_z in HL. lia.
Qed.

Lemma task_progress n max s : Good n max s -> tasks_ (pool s) <> [] -> exists a, enabled a s = true.
Proof.
  intros [HI HL HS HD] HT. pose proof (live_busy _ _ HL HT) as HB. pose proof (live_awake _ _ HL) as HA. rewrite size_nil in HT.
  pose proof (size_nonneg (tasks_ (pool s))). destruct (awake s) as [|w l] eqn:EW.
  - change (size_z (@nil worker)) with 0 in HA. destruct (some_unblocked n max s HI) as (w & ph & E & HP & HW); [lia|]. by eapply running_enabled.
  - assert (HW : w ∈ awake s) by (rewrite EW; left). apply ids_elem in HW as (ph & E & HP). by eapply awake_enabled.
Qed.

Lemma alive_progress n max s : Good n max s -> shutdown s <> ShutNone -> blocked s = [] -> no_workers (pool s) = false ->
  exists a, enabled a s = true.
Proof.
  intros [HI HL HS HD] HSD HB HN. unfold no_workers in HN. destruct (running_workers_ (pool s)) as [|w l] eqn:ER.
  - destruct (idle_workers_ (pool s)) as [|w l] eqn:EI; [done|]. assert (HW : w ∈ collect (ids is_idle) (threads s)) by (rewrite <- (inv_idle _ _ _ HI), EI; left).
    apply ids_elem in HW as (ph & E & HP). eapply awake_enabled; [done|]. destruct ph as [| |t|[]|k|]; try done.
    destruct (shut_awake _ HS) with w; [|done]. rewrite (shut_flag _ HS). by destruct (shutdown s).
  - assert (HW : w ∈ collect (ids is_running) (threads s)) by (rewrite <- (inv_running _ _ _ HI), ER; left).
    apply ids_elem in HW as (ph & E & HP). eapply running_enabled; [done..|]. rewrite HB. apply not_elem_of_nil.
Qed.

(** A worker that joins others can go on, or one that died before it. *)
Lemma joining_progress n max s i w l : Good n max s -> threads s !! w = Some (Joining l) -> deaths s !! w = Some i -> exists a, enabled a s = true.
Proof.
  intros HG. revert w l. induction i as [i IH] using lt_wf_ind. intros w l E ED. destruct HG as [HI HL HS HD].
  destruct l as [|v l]; [exists (Join w); simpl; by rewrite E|].
  destruct (dead_lookup _ _ _ v HI) as (ph & EV & HP).
  { unfold unjoined. rewrite !elem_of_app. right. right. apply elem_of_collect. exists w, (Joining (v :: l)). split; [done|]. left. }
  destruct (death_order _ HD w (v :: l) v E) as (j & k & Ej & Ek & HJ); [left|]. rewrite ED in Ek. injection Ek as <-.
  destruct ph as [| |t|b|l'|]; try done; [by eapply (IH j)|]. exists (Join w). simpl. by rewrite E, EV.
Qed.

Lemma shut_progress n max s : Good n max s -> shutdown s <> ShutNone -> shutdown s <> ShutDone -> blocked s = [] -> exists a, enabled a s = true.
Proof.
  intros HG H1 H2 HB. destruct (no_workers (pool s)) eqn:EN; [|by eapply alive_progress]. destruct (shutdown s) as [| |l|] eqn:ES; try done.
  - exists Exit. simpl. rewrite ES, (shut_dead _ (good_shut _ _ _ HG)), EN, (shut_flag _ (good_shut _ _ _ HG)), ES. done.
  - destruct l as [|v l]; [exists ShutJoin; simpl; by rewrite ES|].
    destruct (dead_lookup _ _ _ v (good_inv _ _ _ HG)) as (ph & EV & HP).
    { unfold unjoined. rewrite ES, !elem_of_app. right. left. simpl. left. }
    destruct ph as [| |t|b|l'|]; try done; [|exists ShutJoin; simpl; by rewrite ES, EV].
    destruct (death_dead _ (good_death _ _ _ HG) v _ EV eq_refl) as (i & Ei & _). by eapply joining_progress.
Qed.

(** No thread is left when the shutdown is done: one that died last would be joined by a later one. *)
Lemma done_no_thread n max s w ph : Good n max s -> shutdown s = ShutDone -> threads s !! w = Some ph -> False.
Proof.
  intros [HI HL HS HD] ES. destruct (shut_left _ HS) as [HA HE]; [by rewrite ES|].
  assert (HDead : forall w ph, threads s !! w = Some ph -> is_dead ph = true).
  { intros u q E. destruct (is_dead q) eqn:EQ; [done|]. destruct (alive_shut _ _ _ _ _ HI HS E EQ). congruence. }
  assert (HX : forall m w ph i, threads s !! w = Some ph -> deaths s !! w = Some i -> (i + m >= size (deaths s))%nat -> False).
  { induction m as [|m IH]; intros u q i E Ei HM.
    - destruct (death_dead _ HD u q E (HDead _ _ E)) as (j & Ej & HJ). rewrite Ei in Ej. injection Ej as <-. lia.
    - assert (HU : u ∈ unjoined s) by (rewrite (inv_dead _ _ _ HI); eapply elem_of_ids; [done|by eapply HDead]).
      unfold unjoined in HU. rewrite HE, ES in HU. simpl in HU. apply elem_of_collect in HU as (x & qx & Ex & Hx).
      destruct qx as [| |t|b|l|]; try (by apply elem_of_nil in Hx). destruct (death_order _ HD x l u Ex Hx) as (i' & j & Ei' & Ej & HJ).
      rewrite Ei in Ei'. injection Ei' as <-. apply (IH x _ j Ex Ej). lia. }
  intros E. destruct (death_dead _ HD w ph E (HDead _ _ E)) as (i & Ei & _). apply (HX (size (deaths s)) w ph i E Ei). lia.
Qed.

Lemma done_complete n max s : Good n max s -> shutdown s = ShutDone ->
  threads s = ∅ /\ tasks_ (pool s) = [] /\ joined s ≡ₚ seq 0 (fresh s) /\ accepted s = started s /\ started s ≡ₚ finished s.
Proof.
  intros HG ES. assert (HT : threads s = ∅).
  { apply map_eq. intros w. rewrite lookup_empty. destruct (threads s !! w) eqn:E; [|done]. by edestruct (done_no_thread n max s w). }
  destruct HG as [HI HL HS HD]. pose proof (inv_idle _ _ _ HI) as H1. pose proof (inv_running _ _ _ HI) as H2. rewrite HT, collect_empty in H1, H2.
  assert (ET : tasks_ (pool s) = []).
  { destruct (decide (tasks_ (pool s) = [])) as [?|NE]; [done|]. pose proof (live_busy _ _ HL NE) as HB.
    rewrite (size_perm _ _ H1), (size_perm _ _ H2) in HB. pose proof (size_nonneg (blocked s)). unfold size_z in *. simpl in HB. lia. }
  pose proof (inv_workers _ _ _ HI) as HW. rewrite HT, collect_empty, app_nil_r in HW.
  pose proof (inv_accepted _ _ _ HI) as HAc. rewrite ET, app_nil_r in HAc.
  pose proof (inv_started _ _ _ HI) as HSt. rewrite HT, collect_empty, app_nil_r in HSt. done.
Qed.

(** The pool on its own: every action is enabled when it happens. *)
Fixpoint run_enabled (l : list action) (s : System) : option System :=
  match l with
  | [] => Some s
  | a :: l => if enabled a s then match exec a s with Ok s' => run_enabled l s' | _ => None end else None
  end.

Lemma run_to_end n max s : Good n max s -> fits n max -> shutdown s <> ShutNone -> blocked s = [] ->
  exists l s', run_enabled l s = Some s' /\ shutdown s' = ShutDone /\ Good n max s'.
Proof.
  remember (measure s) as m eqn:Em. revert s Em. induction m as [m IH] using lt_wf_ind. intros s Em HG HF HS HB.
  assert (shutdown s = ShutDone \/ shutdown s <> ShutDone) as [HD|HD] by (destruct (shutdown s); auto); [by exists [], s|].
  destruct (shut_progress n max s HG HS HD HB) as [a HE].
  destruct (enabled_step n max s a HG HF (or_intror HS) HE) as (s1 & E1 & HG1 & HM & HB1 & HS1).
  destruct (IH (measure s1) ltac:(lia) s1 eq_refl HG1 HF (HS1 HS) ltac:(congruence)) as (l & s2 & E2 & HD2).
  exists (a :: l), s2. simpl. by rewrite HE, E1.
Qed.

(** ** The theorems *)

(** C7: whatever the threads do and in whichever order, no assertion of the pool fails. The lists
    and the counts agree with what the threads are doing; the tasks are started in the order in
    which they were accepted, each of them once, and those started are done or being executed;
    every worker that was created is alive, or was joined once, and at most one that died waits for
    somebody to take it. *)
Theorem pool_invariant max l : 0 <= max -> max + 2 * size_z l + 3 < 2 ^ 64 ->
  exists s, exec_all l (System_new max) = Ok s /\
    idle_workers_ (pool s) ≡ₚ collect (ids is_idle) (threads s) /\ running_workers_ (pool s) ≡ₚ collect (ids is_running) (threads s) /\
    unjoined s ≡ₚ collect (ids is_dead) (threads s) /\
    count_idle_ (pool s) = size_z (idle_workers_ (pool s)) /\ count_running_ (pool s) = size_z (running_workers_ (pool s)) /\
    count_dead_ (pool s) = size_z (dead_workers_ (pool s)) /\ size_z (dead_workers_ (pool s)) <= 1 /\ pending_tasks_ (pool s) = size_z (tasks_ (pool s)) /\
    accepted s = started s ++ tasks_ (pool s) /\ started s ≡ₚ finished s ++ collect executing (threads s) /\
    joined s ++ collect (ids (fun _ => true)) (threads s) ≡ₚ seq 0 (fresh s).
Proof.
  intros HM HL. destruct (reached l max HM HL) as (s & E & [HI _ _ _] & _). exists s. split; [done|]. by destruct HI.
Qed.

Definition example_actions : list action :=
  [Run 1 None; Run 2 None; Start 0; Enter 0; Run 3 None; Start 1; Enter 1; Block 0; Start 2; Done 1; Enter 2].

Lemma pool_invariant_witness :
  exists s, exec_all example_actions (System_new 2) = Ok s /\ accepted s = started s ++ tasks_ (pool s).
Proof.
  destruct (pool_invariant 2 example_actions ltac:(lia) ltac:(vm_compute; reflexivity)) as (s & E & _ & _ & _ & _ & _ & _ & _ & _ & HA & _).
  exists s. split; [exact E|exact HA].
Defined.

(** C4: a task never waits for a thread that nobody wakes. While tasks are pending some worker can go
    on, and every step that the workers take brings the pool closer to having none; in a pool
    of unbounded size there is for each pending task a worker of its own that is about to look for one. *)
Theorem pool_progress max l s : 0 <= max -> max + 2 * size_z l + 3 < 2 ^ 64 -> exec_all l (System_new max) = Ok s ->
  tasks_ (pool s) <> [] ->
  (exists a, enabled a s = true) /\
  (forall a, enabled a s = true -> exists s', exec a s = Ok s' /\ (measure s' < measure s)%nat) /\
  (max = 0 -> size_z (tasks_ (pool s)) <= size_z (awake s)).
Proof.
  intros HM HL E HT. destruct (reached l max HM HL) as (s0 & E0 & HG & HF). rewrite E in E0. injection E0 as <-. split; [by eapply task_progress|].
  split; [|apply (good_live _ _ _ HG)]. intros a HE. destruct (enabled_step _ _ s a HG HF (or_introl HT) HE) as (s' & E' & _ & HM' & _). eauto.
Qed.

Lemma pool_progress_witness :
  exists s, exec_all [Run 1 None; Run 2 None] (System_new 0) = Ok s /\ tasks_ (pool s) = [1; 2]%nat /\
    (exists a, enabled a s = true) /\ size_z (tasks_ (pool s)) <= size_z (awake s).
Proof.
  eexists. split; [vm_compute; reflexivity|]. split; [reflexivity|].
  edestruct (pool_progress 0 [Run 1 None; Run 2 None]) as (H1 & _ & H2);
    [lia|vm_compute; reflexivity|vm_compute; reflexivity|discriminate|].
  split; [exact H1|exact (H2 eq_refl)].
Defined.

(** C3: shutting down ends. Once [Shutdown] has been called, every step of a thread of the pool is one of
    finitely many; unless a worker is blocked, the threads reach the end of [Shutdown] by their own
    steps; and there all accepted tasks are done and every worker that was created has been joined. *)
Theorem pool_shutdown max l s : 0 <= max -> max + 2 * size_z l + 3 < 2 ^ 64 -> exec_all l (System_new max) = Ok s ->
  shutdown s <> ShutNone ->
  (forall a, enabled a s = true -> exists s', exec a s = Ok s' /\ (measure s' < measure s)%nat) /\
  (shutdown s <> ShutDone -> blocked s = [] -> exists a, enabled a s = true) /\
  (blocked s = [] -> exists k s', run_enabled k s = Some s' /\ shutdown s' = ShutDone /\ accepted s' ≡ₚ finished s') /\
  (shutdown s = ShutDone -> threads s = ∅ /\ joined s ≡ₚ seq 0 (fresh s) /\ accepted s = started s /\ started s ≡ₚ finished s).
Proof.
  intros HM HL E HS. destruct (reached l max HM HL) as (s0 & E0 & HG & HF). rewrite E in E0. injection E0 as <-. split; [|split; [|split]].
  - intros a HE. destruct (enabled_step _ _ s a HG HF (or_intror HS) HE) as (s' & E' & _ & HM' & _). eauto.
  - intros HD HB. by eapply shut_progress.
  - intros HB. destruct (run_to_end _ _ s HG HF HS HB) as (k & s' & HR & HD & HG'). exists k, s'. split; [done|]. split; [done|].
    destruct (done_complete _ _ s' HG' HD) as (_ & _ & _ & -> & H1). done.
  - intros HD. destruct (done_complete _ _ s HG HD) as (H1 & _ & H2 & H3). done.
Qed.

Lemma pool_shutdown_witness :
  exists s, exec_all [Run 1 None; Run 2 None; Start 0; Shutdown] (System_new 1) = Ok s /\ shutdown s = ShutWaiting /\
    exists k s', run_enabled k s = Some s' /\ shutdown s' = ShutDone /\ accepted s' ≡ₚ finished s'.
Proof.
  eexists. split; [vm_compute; reflexivity|]. split; [reflexivity|].
  edestruct (pool_shutdown 1 [Run 1 None; Run 2 None; Start 0; Shutdown]) as (_ & _ & H & _);
    [lia|vm_compute; reflexivity|vm_compute; reflexivity|discriminate|].
  exact (H eq_refl).
Defined.
