(* ===== verification/MessageHandlerState.v ===== *)
(** The state of a message handler and of the world it runs in; see [MessageHandler]. *)
From stdpp Require Import base numbers list gmap.
From Stdlib Require Import ZArith Lia.
From S2P Require Import Prelude Utils MessageQueue.
Local Open Scope Z_scope.

Inductive MessageStatus := kOK | kError | kShutdown.

#[export] Instance MessageStatus_eq_dec : EqDecision MessageStatus.
Proof. solve_decision. Defined.

(** The values of the enumeration, which are compared. *)
Definition status_value (s : MessageStatus) : Z := match s with kOK => 0 | kError => 1 | kShutdown => 2 end.

(** What a handler needs of a message queue: [MessageQueue] provides it. The address is that
    of the message. *)
Class QueueOps (Q : Type) := {
  queue_new : Q;
  queue_enqueue : Q -> Z -> Message -> bool -> outcome utils_error Q;
  queue_dequeue : Q -> outcome utils_error (Q * option (Z * Message));
  queue_clear : Q -> outcome utils_error Q;
  queue_is_empty : Q -> bool;
}.

#[export] Instance MessageQueue_ops : QueueOps MessageQueue := {
  queue_new := MessageQueue_new;
  queue_enqueue := Enqueue;
  queue_dequeue := Dequeue;
  queue_clear := Clear;
  queue_is_empty := IsEmpty;
}.

(** ** The environment *)

(** The calls made while the monitor is released. *)
Inductive action :=
  | Post (m : Message) (before_events : bool)   (* MessageHandler::PostMessage *)
  | Interrupt                                   (* HandleOOBMessages, at a stack check *)
  | Pause (capability : Z)                      (* a kPauseMsg is handled *)
  | Resume (capability : Z)                     (* a kResumeMsg is handled *)
  | IncrementLivePorts
  | DecrementLivePorts
  | PortClosed                                  (* the end of PortMap::ClosePort *)
  | CloseAll                                    (* CloseAllPorts *)
  | SetShouldPauseOnStart (b : bool)
  | SetShouldPauseOnExit (b : bool)
  | AcquireQueues (b : bool).                   (* AcquiredQueues is constructed, destroyed *)

Record release := mkRelease { status : MessageStatus; timed_out : bool; actions : list action }.

Section state.
Context {Q : Type}.

(** The fields of [MessageHandler]; of pointers to the pool and to callbacks, whether they are
    set. *)
Record MessageHandler := mkHandler {
  queue_ : Q;
  oob_queue_ : Q;
  oob_message_handling_allowed_ : bool;
  paused_for_messages_ : bool;
  live_ports_ : Z;
  paused_ : Z;
  should_pause_on_start_ : bool;
  should_pause_on_exit_ : bool;
  is_paused_on_start_ : bool;
  is_paused_on_exit_ : bool;
  remembered_paused_on_exit_status_ : MessageStatus;
  paused_timestamp_ : Z;
  task_running_ : bool;
  delete_me_ : bool;
  pool_ : bool;
  start_callback_ : bool;
  end_callback_ : bool;
}.


Definition with_queue (x : Q) (r : MessageHandler) : MessageHandler :=
    mkHandler x (oob_queue_ r) (oob_message_handling_allowed_ r) (paused_for_messages_ r) (live_ports_ r)
    (paused_ r) (should_pause_on_start_ r) (should_pause_on_exit_ r) (is_paused_on_start_ r)
    (is_paused_on_exit_ r) (remembered_paused_on_exit_status_ r) (paused_timestamp_ r) (task_running_ r)
    (delete_me_ r) (pool_ r) (start_callback_ r) (end_callback_ r).
Definition with_oob_queue (x : Q) (r : MessageHandler) : MessageHandler :=
    mkHandler (queue_ r) x (oob_message_handling_allowed_ r) (paused_for_messages_ r) (live_ports_ r)
    (paused_ r) (should_pause_on_start_ r) (should_pause_on_exit_ r) (is_paused_on_start_ r)
    (is_paused_on_exit_ r) (remembered_paused_on_exit_status_ r) (paused_timestamp_ r) (task_running_ r)
    (delete_me_ r) (pool_ r) (start_callback_ r) (end_callback_ r).
Definition with_oob_message_handling_allowed (x : bool) (r : MessageHandler) : MessageHandler :=
    mkHandler (queue_ r) (oob_queue_ r) x (paused_for_messages_ r) (live_ports_ r) (paused_ r)
    (should_pause_on_start_ r) (should_pause_on_exit_ r) (is_paused_on_start_ r) (is_paused_on_exit_ r)
    (remembered_paused_on_exit_status_ r) (paused_timestamp_ r) (task_running_ r) (delete_me_ r) (pool_ r)
    (start_callback_ r) (end_callback_ r).
Definition with_paused_for_messages (x : bool) (r : MessageHandler) : MessageHandler :=
    mkHandler (queue_ r) (oob_queue_ r) (oob_message_handling_allowed_ r) x (live_ports_ r) (paused_ r)
    (should_pause_on_start_ r) (should_pause_on_exit_ r) (is_paused_on_start_ r) (is_paused_on_exit_ r)
    (remembered_paused_on_exit_status_ r) (paused_timestamp_ r) (task_running_ r) (delete_me_ r) (pool_ r)
    (start_callback_ r) (end_callback_ r).
Definition with_live_ports (x : Z) (r : MessageHandler) : MessageHandler :=
    mkHandler (queue_ r) (oob_queue_ r) (oob_message_handling_allowed_ r) (paused_for_messages_ r) x
    (paused_ r) (should_pause_on_start_ r) (should_pause_on_exit_ r) (is_paused_on_start_ r)
    (is_paused_on_exit_ r) (remembered_paused_on_exit_status_ r) (paused_timestamp_ r) (task_running_ r)
    (delete_me_ r) (pool_ r) (start_callback_ r) (end_callback_ r).
Definition with_paused (x : Z) (r : MessageHandler) : MessageHandler :=
    mkHandler (queue_ r) (oob_queue_ r) (oob_message_handling_allowed_ r) (paused_for_messages_ r)
    (live_ports_ r) x (should_pause_on_start_ r) (should_pause_on_exit_ r) (is_paused_on_start_ r)
    (is_paused_on_exit_ r) (remembered_paused_on_exit_status_ r) (paused_timestamp_ r) (task_running_ r)
    (delete_me_ r) (pool_ r) (start_callback_ r) (end_callback_ r).
Definition with_should_pause_on_start (x : bool) (r : MessageHandler) : MessageHandler :=
    mkHandler (queue_ r) (oob_queue_ r) (oob_message_handling_allowed_ r) (paused_for_messages_ r)
    (live_ports_ r) (paused_ r) x (should_pause_on_exit_ r) (is_paused_on_start_ r) (is_paused_on_exit_ r)
    (remembered_paused_on_exit_status_ r) (paused_timestamp_ r) (task_running_ r) (delete_me_ r) (pool_ r)
    (start_callback_ r) (end_callback_ r).
Definition with_should_pause_on_exit (x : bool) (r : MessageHandler) : MessageHandler :=
    mkHandler (queue_ r) (oob_queue_ r) (oob_message_handling_allowed_ r) (paused_for_messages_ r)
    (live_ports_ r) (paused_ r) (should_pause_on_start_ r) x (is_paused_on_start_ r) (is_paused_on_exit_ r)
    (remembered_paused_on_exit_status_ r) (paused_timestamp_ r) (task_running_ r) (delete_me_ r) (pool_ r)
    (start_callback_ r) (end_callback_ r).
Definition with_is_paused_on_start (x : bool) (r : MessageHandler) : MessageHandler :=
    mkHandler (queue_ r) (oob_queue_ r) (oob_message_handling_allowed_ r) (paused_for_messages_ r)
    (live_ports_ r) (paused_ r) (should_pause_on_start_ r) (should_pause_on_exit_ r) x (is_paused_on_exit_
    r) (remembered_paused_on_exit_status_ r) (paused_timestamp_ r) (task_running_ r) (delete_me_ r) (pool_
    r) (start_callback_ r) (end_callback_ r).
Definition with_is_paused_on_exit (x : bool) (r : MessageHandler) : MessageHandler :=
    mkHandler (queue_ r) (oob_queue_ r) (oob_message_handling_allowed_ r) (paused_for_messages_ r)
    (live_ports_ r) (paused_ r) (should_pause_on_start_ r) (should_pause_on_exit_ r) (is_paused_on_start_ r)
    x (remembered_paused_on_exit_status_ r) (paused_timestamp_ r) (task_running_ r) (delete_me_ r) (pool_ r)
    (start_callback_ r) (end_callback_ r).
Definition with_remembered_paused_on_exit_status (x : MessageStatus) (r : MessageHandler) : MessageHandler :=
    mkHandler (queue_ r) (oob_queue_ r) (oob_message_handling_allowed_ r) (paused_for_messages_ r)
    (live_ports_ r) (paused_ r) (should_pause_on_start_ r) (should_pause_on_exit_ r) (is_paused_on_start_ r)
    (is_paused_on_exit_ r) x (paused_timestamp_ r) (task_running_ r) (delete_me_ r) (pool_ r)
    (start_callback_ r) (end_callback_ r).
Definition with_paused_timestamp (x : Z) (r : MessageHandler) : MessageHandler :=
    mkHandler (queue_ r) (oob_queue_ r) (oob_message_handling_allowed_ r) (paused_for_messages_ r)
    (live_ports_ r) (paused_ r) (should_pause_on_start_ r) (should_pause_on_exit_ r) (is_paused_on_start_ r)
    (is_paused_on_exit_ r) (remembered_paused_on_exit_status_ r) x (task_running_ r) (delete_me_ r) (pool_
    r) (start_callback_ r) (end_callback_ r).
Definition with_task_running (x : bool) (r : MessageHandler) : MessageHandler :=
    mkHandler (queue_ r) (oob_queue_ r) (oob_message_handling_allowed_ r) (paused_for_messages_ r)
    (live_ports_ r) (paused_ r) (should_pause_on_start_ r) (should_pause_on_exit_ r) (is_paused_on_start_ r)
    (is_paused_on_exit_ r) (remembered_paused_on_exit_status_ r) (paused_timestamp_ r) x (delete_me_ r)
    (pool_ r) (start_callback_ r) (end_callback_ r).
Definition with_delete_me (x : bool) (r : MessageHandler) : MessageHandler :=
    mkHandler (queue_ r) (oob_queue_ r) (oob_message_handling_allowed_ r) (paused_for_messages_ r)
    (live_ports_ r) (paused_ r) (should_pause_on_start_ r) (should_pause_on_exit_ r) (is_paused_on_start_ r)
    (is_paused_on_exit_ r) (remembered_paused_on_exit_status_ r) (paused_timestamp_ r) (task_running_ r) x
    (pool_ r) (start_callback_ r) (end_callback_ r).
Definition with_pool (x : bool) (r : MessageHandler) : MessageHandler :=
    mkHandler (queue_ r) (oob_queue_ r) (oob_message_handling_allowed_ r) (paused_for_messages_ r)
    (live_ports_ r) (paused_ r) (should_pause_on_start_ r) (should_pause_on_exit_ r) (is_paused_on_start_ r)
    (is_paused_on_exit_ r) (remembered_paused_on_exit_status_ r) (paused_timestamp_ r) (task_running_ r)
    (delete_me_ r) x (start_callback_ r) (end_callback_ r).
Definition with_start_callback (x : bool) (r : MessageHandler) : MessageHandler :=
    mkHandler (queue_ r) (oob_queue_ r) (oob_message_handling_allowed_ r) (paused_for_messages_ r)
    (live_ports_ r) (paused_ r) (should_pause_on_start_ r) (should_pause_on_exit_ r) (is_paused_on_start_ r)
    (is_paused_on_exit_ r) (remembered_paused_on_exit_status_ r) (paused_timestamp_ r) (task_running_ r)
    (delete_me_ r) (pool_ r) x (end_callback_ r).
Definition with_end_callback (x : bool) (r : MessageHandler) : MessageHandler :=
    mkHandler (queue_ r) (oob_queue_ r) (oob_message_handling_allowed_ r) (paused_for_messages_ r)
    (live_ports_ r) (paused_ r) (should_pause_on_start_ r) (should_pause_on_exit_ r) (is_paused_on_start_ r)
    (is_paused_on_exit_ r) (remembered_paused_on_exit_status_ r) (paused_timestamp_ r) (task_running_ r)
    (delete_me_ r) (pool_ r) (start_callback_ r) x.

(** Time is in milliseconds; [next_address] is where the next message is allocated, and
    [start_status] what the start callback returns. *)
Record World := mkWorld {
  handler : MessageHandler;
  next_address : Z;
  pool_tasks : nat;
  pool_shutting_down : bool;
  owned_by_port_map : bool;
  has_isolate : bool;
  is_runnable : bool;
  resume_request : bool;
  resume_capabilities : list (option Z);
  clock : Z;
  start_status : MessageStatus;
  script : list release;
  received : list Message;
  handled : list Message;
  cleared : bool;
  deleted : bool;
  ended : bool;
}.


Definition with_handler (x : MessageHandler) (r : World) : World :=
    mkWorld x (next_address r) (pool_tasks r) (pool_shutting_down r) (owned_by_port_map r) (has_isolate r)
    (is_runnable r) (resume_request r) (resume_capabilities r) (clock r) (start_status r) (script r)
    (received r) (handled r) (cleared r) (deleted r) (ended r).
Definition with_next_address (x : Z) (r : World) : World :=
    mkWorld (handler r) x (pool_tasks r) (pool_shutting_down r) (owned_by_port_map r) (has_isolate r)
    (is_runnable r) (resume_request r) (resume_capabilities r) (clock r) (start_status r) (script r)
    (received r) (handled r) (cleared r) (deleted r) (ended r).
Definition with_pool_tasks (x : nat) (r : World) : World :=
    mkWorld (handler r) (next_address r) x (pool_shutting_down r) (owned_by_port_map r) (has_isolate r)
    (is_runnable r) (resume_request r) (resume_capabilities r) (clock r) (start_status r) (script r)
    (received r) (handled r) (cleared r) (deleted r) (ended r).
Definition with_is_runnable (x : bool) (r : World) : World :=
    mkWorld (handler r) (next_address r) (pool_tasks r) (pool_shutting_down r) (owned_by_port_map r)
    (has_isolate r) x (resume_request r) (resume_capabilities r) (clock r) (start_status r) (script r)
    (received r) (handled r) (cleared r) (deleted r) (ended r).
Definition with_resume_request (x : bool) (r : World) : World :=
    mkWorld (handler r) (next_address r) (pool_tasks r) (pool_shutting_down r) (owned_by_port_map r)
    (has_isolate r) (is_runnable r) x (resume_capabilities r) (clock r) (start_status r) (script r)
    (received r) (handled r) (cleared r) (deleted r) (ended r).
Definition with_resume_capabilities (x : list (option Z)) (r : World) : World :=
    mkWorld (handler r) (next_address r) (pool_tasks r) (pool_shutting_down r) (owned_by_port_map r)
    (has_isolate r) (is_runnable r) (resume_request r) x (clock r) (start_status r) (script r) (received r)
    (handled r) (cleared r) (deleted r) (ended r).
Definition with_script (x : list release) (r : World) : World :=
    mkWorld (handler r) (next_address r) (pool_tasks r) (pool_shutting_down r) (owned_by_port_map r)
    (has_isolate r) (is_runnable r) (resume_request r) (resume_capabilities r) (clock r) (start_status r) x
    (received r) (handled r) (cleared r) (deleted r) (ended r).
Definition with_received (x : list Message) (r : World) : World :=
    mkWorld (handler r) (next_address r) (pool_tasks r) (pool_shutting_down r) (owned_by_port_map r)
    (has_isolate r) (is_runnable r) (resume_request r) (resume_capabilities r) (clock r) (start_status r)
    (script r) x (handled r) (cleared r) (deleted r) (ended r).
Definition with_handled (x : list Message) (r : World) : World :=
    mkWorld (handler r) (next_address r) (pool_tasks r) (pool_shutting_down r) (owned_by_port_map r)
    (has_isolate r) (is_runnable r) (resume_request r) (resume_capabilities r) (clock r) (start_status r)
    (script r) (received r) x (cleared r) (deleted r) (ended r).
Definition with_cleared (x : bool) (r : World) : World :=
    mkWorld (handler r) (next_address r) (pool_tasks r) (pool_shutting_down r) (owned_by_port_map r)
    (has_isolate r) (is_runnable r) (resume_request r) (resume_capabilities r) (clock r) (start_status r)
    (script r) (received r) (handled r) x (deleted r) (ended r).
Definition with_deleted (x : bool) (r : World) : World :=
    mkWorld (handler r) (next_address r) (pool_tasks r) (pool_shutting_down r) (owned_by_port_map r)
    (has_isolate r) (is_runnable r) (resume_request r) (resume_capabilities r) (clock r) (start_status r)
    (script r) (received r) (handled r) (cleared r) x (ended r).
Definition with_ended (x : bool) (r : World) : World :=
    mkWorld (handler r) (next_address r) (pool_tasks r) (pool_shutting_down r) (owned_by_port_map r)
    (has_isolate r) (is_runnable r) (resume_request r) (resume_capabilities r) (clock r) (start_status r)
    (script r) (received r) (handled r) (cleared r) (deleted r) x.

End state.

Arguments MessageHandler Q : clear implicits.
Arguments World Q : clear implicits.
