(* ===== verification/MessageHandler.v ===== *)
(** [MessageHandler] of [runtime/vm/message_handler.h] and [.cc]: the queues of an isolate or
    of a native port, the task on the thread pool that drains them, and pausing.

    The monitor of the handler makes every method atomic up to the points where it releases
    the monitor: around the callbacks of the embedder and of subclasses, and while waiting.
    What happens while the monitor is released is the environment's choice: the [script] of the
    world lists, for each release in turn, the calls that other threads or the callback make
    and the status the callback returns. A script that has ended makes no calls and returns
    [kOK]. So [HandleMessage], which subclasses define, is arbitrary.

    The world also holds what the handler refers to: the tasks that its thread pool has yet to
    run, the flags of its isolate, the logs of the messages received and handled, and
    whether a queue was cleared.
    Tracing, idle-time accounting, the notification of waiting threads and [MessageNotify],
    which only interrupts a running mutator, have no part in it. The build is a debug build
    with the service (not [PRODUCT]); a failed [ASSERT] is [Fatal UtilsAssertion]. *)
From stdpp Require Import base numbers list gmap.
From Stdlib Require Import ZArith Lia.
From S2P Require Import Prelude Utils MessageQueue MessageHandlerState.
Local Open Scope Z_scope.

Declare Scope handler_scope.
Delimit Scope handler_scope with handler.

(** ** The monad of the handler *)

Definition M (Q A : Type) : Type := World Q -> outcome utils_error (World Q * A).

Section monad.
Context {Q : Type}.

Definition ret {A} (a : A) : M Q A := fun w => Ok (w, a).
Definition bind {A B} (x : M Q A) (f : A -> M Q B) : M Q B :=
  fun w => match x w with Ok (w, a) => f a w | Fatal e => Fatal e | Undefined => Undefined end.
Definition fail {A} (e : utils_error) : M Q A := fun _ => Fatal e.
Definition gets {A} (f : World Q -> A) : M Q A := fun w => Ok (w, f w).
Definition modify (f : World Q -> World Q) : M Q unit := fun w => Ok (f w, ()).
Definition assert_ (f : World Q -> bool) : M Q unit :=
  fun w => if f w then Ok (w, ()) else Fatal UtilsAssertion.
Definition lift {A} (x : outcome utils_error A) : M Q A :=
  fun w => match x with Ok a => Ok (w, a) | Fatal e => Fatal e | Undefined => Undefined end.
Definition when (b : bool) (x : M Q unit) : M Q unit := if b then x else ret ().

(** A field of the handler is assigned. *)
Definition update (f : MessageHandler Q -> MessageHandler Q) : M Q unit :=
  modify (fun w => with_handler (f (handler w)) w).
End monad.

Notation "x <- a ;; b" := (bind a (fun x => b))
  (at level 100, a at level 98, right associativity) : handler_scope.
Notation "a ;;; b" := (bind a (fun _ => b)) (at level 100, right associativity) : handler_scope.
Local Open Scope handler_scope.

Section handler.
Context {Q : Type} `{QueueOps Q}.
Abbreviation M := (M Q).
Implicit Type w : World Q.

(** ** Fields and predicates *)

Definition h {A} (f : MessageHandler Q -> A) : World Q -> A := fun w => f (handler w).

Definition paused w : bool := 0 <? h paused_ w.
Definition HasLivePorts w : bool := 0 <? h live_ports_ w.
Definition oob_empty w : bool := queue_is_empty (h oob_queue_ w).

Definition ShouldPauseOnStart (st : MessageStatus) w : bool :=
  if negb (has_isolate w) then false
  else negb (bool_decide (st = kShutdown)) && h should_pause_on_start_ w && is_runnable w.

Definition ShouldPauseOnExit (st : MessageStatus) w : bool :=
  if negb (has_isolate w) then false
  else negb (bool_decide (st = kShutdown)) && h should_pause_on_exit_ w && is_runnable w.

(** The constructor. *)
Definition MessageHandler_new : MessageHandler Q :=
  mkHandler queue_new queue_new true false 0 0 false false false false kOK (-1) false false false false false.

(** ** The thread pool and the isolate *)

(** [pool_->Run<MessageHandlerTask>(this)]: refused when the pool is shutting down. *)
Definition pool_run : M bool :=
  down <- gets pool_shutting_down ;;
  if (down : bool) then ret false
  else modify (fun w => with_pool_tasks (S (pool_tasks w)) w) ;;; ret true.

(** [AddResumeCapability]: whether the capability was new; the first free slot is reused. *)
Fixpoint insertion_index (caps : list (option Z)) (i : nat) : option nat :=
  match caps with
  | [] => None
  | None :: _ => Some i
  | Some _ :: caps => insertion_index caps (S i)
  end.

(** A bound on the slots ([target::kSmiMax / (6 * kWordSize)], on a 64-bit target without
    compressed pointers): more capabilities are ignored. *)
Definition kMaxResumeCapabilities : Z := (2 ^ 62 - 1) / (6 * 8).

Definition AddResumeCapability (capability : Z) : M bool :=
  caps <- gets resume_capabilities ;;
  if bool_decide (Some capability ∈ caps) then ret false
  else
    match insertion_index caps 0 with
    | None =>
        if kMaxResumeCapabilities <=? Z.of_nat (length caps) then ret false
        else modify (with_resume_capabilities (caps ++ [Some capability])) ;;; ret true
    | Some i => modify (with_resume_capabilities (<[i := Some capability]> caps)) ;;; ret true
    end.

(** [RemoveResumeCapability]: the first slot that holds it is cleared. *)
Fixpoint capability_index (caps : list (option Z)) (capability : Z) (i : nat) : option nat :=
  match caps with
  | [] => None
  | c :: caps => if bool_decide (c = Some capability) then Some i else capability_index caps capability (S i)
  end.

Definition RemoveResumeCapability (capability : Z) : M bool :=
  caps <- gets resume_capabilities ;;
  match capability_index caps capability 0 with
  | None => ret false
  | Some i => modify (with_resume_capabilities (<[i := None]> caps)) ;;; ret true
  end.

Definition increment_paused : M unit := update (fun r => with_paused (paused_ r + 1) r).
Definition decrement_paused : M unit :=
  assert_ (h (fun r => 0 <? paused_ r)) ;;; update (fun r => with_paused (paused_ r - 1) r).

Definition increment_live_ports : M unit := update (fun r => with_live_ports (live_ports_ r + 1) r).
Definition decrement_live_ports : M unit := update (fun r => with_live_ports (live_ports_ r - 1) r).

(** ** Queues *)

(** The message, which the caller allocated, is put into its queue. *)
Definition enqueue_message (m : Message) (before_events : bool) : M unit :=
  address <- gets next_address ;;
  modify (fun w => with_received (received w ++ [m]) (with_next_address (address + 1) w)) ;;;
  (if IsOOB m then
     q <- gets (h oob_queue_) ;;
     q <- lift (queue_enqueue q address m before_events) ;;
     update (with_oob_queue q)
   else
     q <- gets (h queue_) ;;
     q <- lift (queue_enqueue q address m before_events) ;;
     update (with_queue q)).

Definition PostMessage (m : Message) (before_events : bool) : M unit :=
  enqueue_message m before_events ;;;
  start <- gets (h (fun r => pool_ r && negb (task_running_ r))) ;;
  when start
    (assert_ (h (fun r => negb (delete_me_ r))) ;;;
     update (with_task_running true) ;;;
     launched_successfully <- pool_run ;;
     assert_ (fun _ => launched_successfully)).

Definition DequeueMessage (min_priority : Priority) : M (option Message) :=
  q <- gets (h oob_queue_) ;;
  r <- lift (queue_dequeue q) ;;
  update (with_oob_queue (fst r)) ;;;
  match snd r with
  | Some (_, m) => ret (Some m)
  | None =>
      if bool_decide (min_priority = kNormalPriority) then
        q <- gets (h queue_) ;;
        r <- lift (queue_dequeue q) ;;
        update (with_queue (fst r)) ;;;
        ret (snd <$> snd r)
      else ret None
  end.

Definition ClearOOBQueue : M unit :=
  q <- gets (h oob_queue_) ;;
  q <- lift (queue_clear q) ;;
  modify (with_cleared true) ;;;
  update (with_oob_queue q).

Definition CloseAllPorts : M unit :=
  q <- gets (h queue_) ;;
  q <- lift (queue_clear q) ;;
  modify (with_cleared true) ;;;
  update (with_queue q) ;;;
  ClearOOBQueue.

(** [delete this] when no task is running. *)
Definition RequestDeletion : M unit :=
  assert_ owned_by_port_map ;;;
  running <- gets (h task_running_) ;;
  if (running : bool) then update (with_delete_me true) else modify (with_deleted true).

(** ** Released monitors *)

(** A call of another thread or of the callback; [handle] is [HandleMessages]. *)
Definition HandleOOBMessages (handle : bool -> bool -> M MessageStatus) : M MessageStatus :=
  allowed <- gets (h oob_message_handling_allowed_) ;;
  if negb allowed then ret kOK
  else assert_ (h (fun r => negb (delete_me_ r))) ;;; handle false false.

Definition run_action (handle : bool -> bool -> M MessageStatus) (a : action) : M unit :=
  match a with
  | Post m before_events => PostMessage m before_events
  | Interrupt => HandleOOBMessages handle ;;; ret ()
  | Pause capability => added <- AddResumeCapability capability ;; when added increment_paused
  | Resume capability => removed <- RemoveResumeCapability capability ;; when removed decrement_paused
  | IncrementLivePorts => increment_live_ports
  | DecrementLivePorts => decrement_live_ports
  | PortClosed =>
      delete <- gets (fun w => negb (HasLivePorts w) && owned_by_port_map w) ;;
      when delete RequestDeletion
  | CloseAll => CloseAllPorts
  | SetShouldPauseOnStart b => update (with_should_pause_on_start b)
  | SetShouldPauseOnExit b => update (with_should_pause_on_exit b)
  | AcquireQueues b => update (with_oob_message_handling_allowed (negb b))
  end.

Fixpoint run_actions (handle : bool -> bool -> M MessageStatus) (l : list action) : M unit :=
  match l with
  | [] => ret ()
  | a :: l => run_action handle a ;;; run_actions handle l
  end.

Definition default_release : release := mkRelease kOK true [].

(** [ml->Exit(); ...; ml->Enter()]: what the script says. *)
Definition released (handle : bool -> bool -> M MessageStatus) : M release :=
  s <- gets script ;;
  match s with
  | [] => ret default_release
  | r :: s => modify (with_script s) ;;; run_actions handle (actions r) ;;; ret r
  end.

(** ** Handling messages *)

Definition min_priority (allow : bool) w : Priority :=
  if allow && negb (paused w) then kNormalPriority else kOOBPriority.

(** [HandleMessages], and its loop for the message that was dequeued last. *)
Fixpoint HandleMessages (fuel : nat) (allow_normal_messages allow_multiple_normal_messages : bool)
    {struct fuel} : M MessageStatus :=
  match fuel with
  | O => fail UtilsFuel
  | S fuel =>
      (* StartIsolateScope *)
      released (HandleMessages fuel) ;;;
      p <- gets (min_priority allow_normal_messages) ;;
      message <- DequeueMessage p ;;
      handle_loop fuel allow_normal_messages allow_multiple_normal_messages kOK message
  end
with handle_loop (fuel : nat) (allow_normal_messages allow_multiple_normal_messages : bool)
    (max_status : MessageStatus) (message : option Message) {struct fuel} : M MessageStatus :=
  match message with
  | None => ret max_status
  | Some m =>
      match fuel with
      | O => fail UtilsFuel
      | S fuel =>
          modify (fun w => with_handled (handled w ++ [m]) w) ;;;
          r <- released (HandleMessages fuel) ;;
          let max_status :=
            if status_value max_status <? status_value (status r) then status r else max_status in
          if bool_decide (status r = kShutdown) then ClearOOBQueue ;;; ret max_status
          else
            let allow_normal_messages :=
              if bool_decide (priority_ m = kNormalPriority) && negb allow_multiple_normal_messages
              then false else allow_normal_messages in
            p <- gets (min_priority (bool_decide (max_status = kOK) && allow_normal_messages)) ;;
            message <- DequeueMessage p ;;
            handle_loop fuel allow_normal_messages allow_multiple_normal_messages max_status message
      end
  end.

Definition HandleNextMessage (fuel : nat) : M MessageStatus :=
  assert_ (h (fun r => negb (pool_ r))) ;;;
  assert_ (h (fun r => negb (delete_me_ r))) ;;;
  HandleMessages fuel true false.

(** The loop of [PauseAndHandleAllMessages]: the status it returns early, if any. *)
Fixpoint pause_loop (waits : nat) (fuel : nat) : M (option MessageStatus) :=
  empty <- gets (fun w => queue_is_empty (h queue_ w) && oob_empty w) ;;
  if negb empty then ret None
  else
    match waits with
    | O => fail UtilsFuel
    | S waits =>
        r <- released (HandleMessages fuel) ;;
        assert_ (h task_running_) ;;;
        assert_ (h (fun r => negb (delete_me_ r))) ;;;
        if timed_out r then ret None
        else
          only_oob <- gets (h (fun r => queue_is_empty (queue_ r))) ;;
          if (only_oob : bool) then
            st <- HandleMessages fuel false false ;;
            if bool_decide (st <> kOK) then
              update (with_paused_for_messages false) ;;; ret (Some st)
            else pause_loop waits fuel
          else pause_loop waits fuel
    end.

Definition PauseAndHandleAllMessages (waits fuel : nat) : M MessageStatus :=
  assert_ (h task_running_) ;;;
  assert_ (h (fun r => negb (delete_me_ r))) ;;;
  update (with_paused_for_messages true) ;;;
  early <- pause_loop waits fuel ;;
  match early with
  | Some st => ret st
  | None => update (with_paused_for_messages false) ;;; HandleMessages fuel true true
  end.

(** ** Pausing *)

Definition PausedOnStartLocked (fuel : nat) (paused : bool) : M unit :=
  if paused then
    assert_ (h (fun r => negb (is_paused_on_start_ r))) ;;;
    assert_ (h (fun r => paused_timestamp_ r =? -1)) ;;;
    now <- gets clock ;;
    update (with_paused_timestamp now) ;;;
    (* NotifyPauseOnStart *)
    released (HandleMessages fuel) ;;;
    update (with_is_paused_on_start true)
  else
    assert_ (h is_paused_on_start_) ;;;
    assert_ (h (fun r => negb (paused_timestamp_ r =? -1))) ;;;
    update (with_paused_timestamp (-1)) ;;;
    isolate <- gets has_isolate ;;
    when isolate (modify (with_resume_request false)) ;;;
    update (with_is_paused_on_start false).

Definition PausedOnExitLocked (fuel : nat) (paused : bool) : M unit :=
  if paused then
    assert_ (h (fun r => negb (is_paused_on_exit_ r))) ;;;
    assert_ (h (fun r => paused_timestamp_ r =? -1)) ;;;
    now <- gets clock ;;
    update (with_paused_timestamp now) ;;;
    (* NotifyPauseOnExit *)
    released (HandleMessages fuel) ;;;
    update (with_is_paused_on_exit true)
  else
    assert_ (h is_paused_on_exit_) ;;;
    assert_ (h (fun r => negb (paused_timestamp_ r =? -1))) ;;;
    update (with_paused_timestamp (-1)) ;;;
    isolate <- gets has_isolate ;;
    when isolate (modify (with_resume_request false)) ;;;
    update (with_is_paused_on_exit false).

(** ** The task *)

Definition Run (start_callback end_callback : bool) : M bool :=
  assert_ (h (fun r => negb (pool_ r))) ;;;
  assert_ (h (fun r => negb (delete_me_ r))) ;;;
  update (fun r => with_task_running true (with_end_callback end_callback
    (with_start_callback start_callback (with_pool true r)))) ;;;
  ok <- pool_run ;;
  when (negb ok) (update (fun r => with_task_running false (with_end_callback false
    (with_start_callback false (with_pool false r))))) ;;;
  ret ok.

(** The task returns while it is still paused. *)
Definition still_paused : M unit :=
  assert_ oob_empty ;;; update (with_task_running false).

(** The block of [TaskCallback] that pauses on start: [None] when the task returns. *)
Definition task_pause_on_start (fuel : nat) : M (option MessageStatus) :=
  should <- gets (ShouldPauseOnStart kOK) ;;
  if negb should then ret (Some kOK)
  else
    already <- gets (h is_paused_on_start_) ;;
    when (negb already) (PausedOnStartLocked fuel true) ;;;
    st <- HandleMessages fuel false false ;;
    should <- gets (ShouldPauseOnStart st) ;;
    if (should : bool) then still_paused ;;; ret None
    else PausedOnStartLocked fuel false ;;; ret (Some st).

(** The block that is entered when the handler is paused on exit. *)
Definition task_resume_on_exit (fuel : nat) (st : MessageStatus) : M (option MessageStatus) :=
  on_exit <- gets (h is_paused_on_exit_) ;;
  if negb on_exit then ret (Some st)
  else
    st <- HandleMessages fuel false false ;;
    should <- gets (ShouldPauseOnExit st) ;;
    if (should : bool) then still_paused ;;; ret None
    else
      PausedOnExitLocked fuel false ;;;
      remembered <- gets (h remembered_paused_on_exit_status_) ;;
      ret (Some remembered).

(** The start callback and the pending messages. *)
Definition task_handle (fuel : nat) (st : MessageStatus) : M MessageStatus :=
  if bool_decide (st = kOK) then
    start <- gets (h start_callback_) ;;
    st <- (if (start : bool) then
             released (HandleMessages fuel) ;;;
             update (with_start_callback false) ;;;
             gets start_status
           else ret st) ;;
    if bool_decide (st = kShutdown) then ret st
    else HandleMessages fuel (bool_decide (st = kOK)) true
  else ret st.

(** The block that pauses before exiting: whether the task goes on. *)
Definition task_pause_on_exit (fuel : nat) (st : MessageStatus) : M bool :=
  should <- gets (ShouldPauseOnExit st) ;;
  if negb should then ret true
  else
    update (with_remembered_paused_on_exit_status st) ;;;
    PausedOnExitLocked fuel true ;;;
    st <- HandleMessages fuel false false ;;
    should <- gets (ShouldPauseOnExit st) ;;
    if (should : bool) then still_paused ;;; ret false
    else PausedOnExitLocked fuel false ;;; ret true.

(** The end of the task, where the monitor is released. *)
Definition task_end (delete_me run_end_callback : bool) : M unit :=
  assert_ oob_empty ;;;
  update (with_task_running false) ;;;
  assert_ (fun _ => negb delete_me || negb run_end_callback) ;;;
  when run_end_callback (modify (with_ended true)) ;;;
  when delete_me (modify (with_deleted true)).

(** [TaskCallback], once the pool runs a task. *)
Definition TaskCallback (fuel : nat) : M unit :=
  assert_ (h task_running_) ;;;
  st <- task_pause_on_start fuel ;;
  match st with
  | None => ret ()
  | Some st =>
      st <- task_resume_on_exit fuel st ;;
      match st with
      | None => ret ()
      | Some st =>
          st <- task_handle fuel st ;;
          live <- gets HasLivePorts ;;
          if negb (bool_decide (st = kOK)) || negb live then
            go_on <- task_pause_on_exit fuel st ;;
            if negb go_on then ret ()
            else
              update (with_pool false) ;;;
              run_end_callback <- gets (h end_callback_) ;;
              delete_me <- gets (h delete_me_) ;;
              task_end delete_me run_end_callback
          else task_end false false
      end
  end.

(** The pool takes a task and runs it. *)
Definition run_task (fuel : nat) : M unit :=
  n <- gets pool_tasks ;;
  match n with
  | O => ret ()
  | S n => modify (with_pool_tasks n) ;;; TaskCallback fuel
  end.

End handler.
