(* ===== verification/MessageHandlerProps.v ===== *)
(** The invariant of a message handler, and that [HandleMessages] terminates whatever happens
    while the monitor is released: it leaves no urgent message behind, and no other one unless
    the handler is paused or failed. *)
From stdpp Require Import base numbers list gmap.
From Stdlib Require Import ZArith Lia.
From S2P Require Import Prelude Utils MessageQueue MessageQueueSpec MessageHandlerState MessageHandler.
Local Open Scope Z_scope.
Local Open Scope handler_scope.

(** ** What a queue promises *)

Class QueueLaws (Q : Type) `{QueueOps Q} := {
  queue_rep : Q -> list (Z * Message) -> Prop;
  queue_new_rep : queue_rep queue_new [];
  queue_enqueue_rep q l a m before_events :
    queue_rep q l -> a <> NULL -> (a ∉ l.*1) -> (before_events = true -> dest_port_ m = kIllegalPort) ->
    exists q', queue_enqueue q a m before_events = Ok q' /\ queue_rep q' (enqueue_list l (a, m) before_events);
  queue_dequeue_rep q l :
    queue_rep q l ->
    exists q', queue_dequeue q = Ok (q', head l) /\ queue_rep q' (tail l);
  queue_clear_rep q l : queue_rep q l -> exists q', queue_clear q = Ok q' /\ queue_rep q' [];
  queue_is_empty_rep q l : queue_rep q l -> queue_is_empty q = true <-> l = [];
}.

#[export] Instance MessageQueue_laws : QueueLaws MessageQueue.
Proof.
  refine {| queue_rep := rep |}; simpl.
  - apply rep_new.
  - intros q l a m b HR H0 Ha HB. apply Enqueue_ok; auto.
  - intros q l HR. pose proof (Dequeue_ok q l HR) as HD. destruct l as [|x l]; [by exists q|done].
  - intros q l HR. exists MessageQueue_new. split; [by apply (Clear_ok q l)|apply rep_new].
  - apply IsEmpty_rep.
Defined.

Section handler.
Context {Q : Type} `{QueueLaws Q}.
Implicit Type w : World Q.

(** ** The invariant *)

Definition held (caps : list (option Z)) : list (option Z) := base.filter is_Some caps.

(** Scripts keep the conventions of the callers: only control messages go before events, a
    handler that the port map owns gets no further live ports and, having no isolate, no
    interrupts, and a handler that runs is not told to pause on start. *)
Definition action_ok (owned : bool) (a : action) : Prop :=
  match a with
  | Post m before_events => before_events = true -> dest_port_ m = kIllegalPort
  | IncrementLivePorts | Interrupt => owned = false
  | SetShouldPauseOnStart b => b = false
  | _ => True
  end.

Definition release_ok (owned : bool) (r : release) : Prop := Forall (action_ok owned) (actions r).

(** [lq] and [lo] are the pending messages, [fl] the messages that are about to be handled. *)
Record winv w (lq lo : list (Z * Message)) (fl : list Message) : Prop := {
  wi_queue : queue_rep (h queue_ w) lq;
  wi_oob : queue_rep (h oob_queue_ w) lo;
  wi_address : 0 < next_address w;
  wi_addresses : Forall (fun x => 0 < x.1 < next_address w) (lq ++ lo);
  wi_normal : Forall (fun x => IsOOB x.2 = false) lq;
  wi_urgent : Forall (fun x => IsOOB x.2 = true) lo;
  wi_log : cleared w = false -> received w ≡ₚ handled w ++ fl ++ lq.*2 ++ lo.*2;
  wi_caps : h paused_ w = Z.of_nat (length (held (resume_capabilities w)));
  wi_delete : h delete_me_ w = true -> h live_ports_ w <= 0 /\ owned_by_port_map w = true;
  wi_owned : owned_by_port_map w = true -> h end_callback_ w = false;
  wi_script : Forall (release_ok (owned_by_port_map w)) (script w);
}.

(** No task has to be started. *)
Definition busy w : Prop := h pool_ w = true -> h task_running_ w = true.

(** What handling messages leaves as it is. *)
Record ext w w' : Prop := {
  e_on_start : h is_paused_on_start_ w' = h is_paused_on_start_ w;
  e_on_exit : h is_paused_on_exit_ w' = h is_paused_on_exit_ w;
  e_timestamp : h paused_timestamp_ w' = h paused_timestamp_ w;
  e_remembered : h remembered_paused_on_exit_status_ w' = h remembered_paused_on_exit_status_ w;
  e_pool : h pool_ w' = h pool_ w;
  e_start : h start_callback_ w' = h start_callback_ w;
  e_start_status : start_status w' = start_status w;
  e_end : h end_callback_ w' = h end_callback_ w;
  e_running : h task_running_ w' = h task_running_ w;
  e_should : h should_pause_on_start_ w = false -> h should_pause_on_start_ w' = false;
  e_runnable : is_runnable w' = is_runnable w;
  e_isolate : has_isolate w' = has_isolate w;
  e_owned : owned_by_port_map w' = owned_by_port_map w;
  e_clock : clock w' = clock w;
  e_tasks : pool_tasks w' = pool_tasks w;
  e_down : pool_shutting_down w' = pool_shutting_down w;
  e_ended : ended w' = ended w;
  e_deleted : h task_running_ w = true -> deleted w' = deleted w;
  e_received : received w `prefix_of` received w';
  e_handled : handled w `prefix_of` handled w';
  e_script : script w' `suffix_of` script w;
}.

(** Calls from outside leave more as it is. *)
Definition calm w w' : Prop :=
  h should_pause_on_start_ w' = h should_pause_on_start_ w /\ h paused_ w' = h paused_ w /\
  (h task_running_ w = false -> h delete_me_ w' = h delete_me_ w).

#[export] Instance ext_preorder : PreOrder ext.
Proof.
  split.
  - intros w. by constructor.
  - intros w1 w2 w3 [] []. constructor; try congruence; try (by etrans); [by auto|].
    intros HR. rewrite e_deleted1; [by apply e_deleted0|congruence].
Qed.

Lemma ext_busy w w' : ext w w' -> busy w -> busy w'.
Proof. intros X HB. unfold busy. rewrite (e_pool _ _ X), (e_running _ _ X). done. Qed.

Ltac ext := constructor; simpl; intros; solve [done | reflexivity | by apply prefix_app_r].

(** ** Resources *)

(** How much a call contributes to the messages that are handled. *)
Definition weight (a : action) : nat := match a with Post _ _ | Interrupt => 1 | _ => 0 end.
Definition weights (l : list action) : nat := list_sum (map weight l).
Definition credits (s : list release) : nat := list_sum (map (fun r => weights (actions r)) s).

Definition measure w (lq lo : list (Z * Message)) : nat := (length lq + length lo + credits (script w))%nat.

Lemma handler_bind_ok {A B} (x : M Q A) (f : A -> M Q B) w w' a : x w = Ok (w', a) -> bind x f w = f a w'.
Proof. intros E. unfold bind. by rewrite E. Qed.

Lemma assert_bind {A} (f : World Q -> bool) (k : M Q A) w : f w = true -> bind (assert_ f) (fun _ => k) w = k w.
Proof. intros E. unfold bind, assert_. by rewrite E. Qed.

Lemma gets_bind {A B} (f : World Q -> A) (k : A -> M Q B) w : bind (gets f) k w = k (f w) w.
Proof. done. Qed.

Lemma update_bind {A} f (k : M Q A) w :
  bind (update f) (fun _ => k) w = k (with_handler (f (handler w)) w).
Proof. done. Qed.

Lemma modify_bind {A} f (k : M Q A) w : bind (modify f) (fun _ => k) w = k (f w).
Proof. done. Qed.

(** The first step of a program is [x], which returns [a] in [w']. *)
Ltac step E := rewrite (handler_bind_ok _ _ _ _ _ E).
Ltac run := unfold when, gets, update, modify, assert_, lift, ret, bind; simpl.

(** ** Capabilities *)

Lemma held_app l1 l2 : held (l1 ++ l2) = held l1 ++ held l2.
Proof. apply filter_app. Qed.

Lemma held_cons x l : length (held (x :: l)) = (length (held [x]) + length (held l))%nat.
Proof. by rewrite <- length_app, <- held_app. Qed.

Lemma held_insert (l : list (option Z)) i (o o' : option Z) :
  l !! i = Some o ->
  (length (held (<[i := o']> l)) + length (held [o]) = length (held l) + length (held [o']))%nat.
Proof.
  revert i. induction l as [|x l IH]; intros [|i] E; simpl in E; [done|done| |].
  - injection E as ->. simpl. rewrite !(held_cons _ l). lia.
  - simpl. specialize (IH i E). rewrite (held_cons x l), (held_cons x (<[i := o']> l)). lia.
Qed.

Lemma insertion_index_ok caps : forall i,
  match insertion_index caps i with
  | None => True
  | Some j => (i <= j)%nat /\ caps !! (j - i)%nat = Some None
  end.
Proof.
  induction caps as [|[c|] caps IH]; intros i; simpl; [done| |].
  - specialize (IH (S i)). destruct (insertion_index caps (S i)) as [j|]; [|done]. destruct IH as [L E].
    split; [lia|]. by replace (j - i)%nat with (S (j - S i)) by lia.
  - split; [lia|]. by rewrite Nat.sub_diag.
Qed.

Lemma capability_index_ok caps c : forall i,
  match capability_index caps c i with
  | None => True
  | Some j => (i <= j)%nat /\ caps !! (j - i)%nat = Some (Some c)
  end.
Proof.
  induction caps as [|o caps IH]; intros i; simpl; [done|]. case_bool_decide as E.
  - split; [lia|]. by rewrite Nat.sub_diag, E.
  - specialize (IH (S i)). destruct (capability_index caps c (S i)) as [j|]; [|done]. destruct IH as [L E'].
    split; [lia|]. by replace (j - i)%nat with (S (j - S i)) by lia.
Qed.

Lemma winv_script w lq lo fl r s :
  winv w lq lo fl -> script w = r :: s -> winv (with_script s w) lq lo fl /\ release_ok (owned_by_port_map w) r.
Proof.
  intros [] E. rewrite E in wi_script0. apply Forall_cons in wi_script0 as [HR HS]. split; [|done]. by constructor.
Qed.

Lemma fresh_address w (l : list (Z * Message)) :
  Forall (fun x => 0 < x.1 < next_address w) l -> next_address w ∉ l.*1.
Proof. rewrite Forall_forall. intros HF ([a m] & E & Hx)%list_elem_of_fmap. apply HF in Hx. simpl in *. lia. Qed.

Lemma Forall_enqueue (P : Z * Message -> Prop) l x b : Forall P l -> P x -> Forall P (enqueue_list l x b).
Proof. intros HF HP. rewrite enqueue_perm. by constructor. Qed.

Lemma enqueue_snd l x b : (enqueue_list l x b).*2 ≡ₚ x.2 :: l.*2.
Proof. by rewrite enqueue_perm. Qed.

Lemma enqueue_length l x b : length (enqueue_list l x b) = S (length l).
Proof. by rewrite enqueue_perm. Qed.

(** The message is appended to the queue of its priority. *)
Lemma enqueue_message_ok w lq lo fl m b :
  winv w lq lo fl -> action_ok (owned_by_port_map w) (Post m b) ->
  exists w' lq' lo', enqueue_message m b w = Ok (w', ()) /\ winv w' lq' lo' fl /\ ext w w' /\
    (length lq' + length lo' = S (length lq + length lo))%nat /\ script w' = script w /\
    calm w w' /\ deleted w' = deleted w /\ (lq', lo') = (if IsOOB m then (lq, enqueue_list lo (next_address w, m) b)
                  else (enqueue_list lq (next_address w, m) b, lo)).
Proof.
  intros HI HB. pose proof HI as [Rq Ro HA HAs HN HU HL HC HD HO HS].
  apply Forall_app in HAs as [Aq Ao]. unfold enqueue_message.
  assert (HM : forall l, Forall (fun x : Z * Message => 0 < x.1 < next_address w) l ->
                         Forall (fun x => 0 < x.1 < next_address w + 1) l).
  { intros l HF. eapply Forall_impl; [done|]. simpl. lia. }
  unfold h in *.
  destruct (IsOOB m) eqn:EO.
  - destruct (queue_enqueue_rep (oob_queue_ (handler w)) lo (next_address w) m b) as (q' & E & R');
      [done|unfold NULL; lia|by apply fresh_address|done|].
    eexists _, lq, (enqueue_list lo (next_address w, m) b). split.
    { run. unfold h. simpl. rewrite E. done. }
    split; [|split; [ext|split; [rewrite enqueue_length; lia|by split]]].
    constructor; unfold h; simpl; try done.
    + lia.
    + apply Forall_app. split; [by apply HM|]. apply Forall_enqueue; [by apply HM|simpl; lia].
    + by apply Forall_enqueue.
    + intros Hc. rewrite enqueue_snd, HL by done. simpl.
      rewrite (Permutation_app_comm _ [m]), <- !Permutation_middle. done.
  - destruct (queue_enqueue_rep (queue_ (handler w)) lq (next_address w) m b) as (q' & E & R');
      [done|unfold NULL; lia|by apply fresh_address|done|].
    eexists _, (enqueue_list lq (next_address w, m) b), lo. split.
    { run. unfold h. simpl. rewrite E. done. }
    split; [|split; [ext|split; [rewrite enqueue_length; lia|by split]]].
    constructor; unfold h; simpl; try done.
    + lia.
    + apply Forall_app. split; [|by apply HM]. apply Forall_enqueue; [by apply HM|simpl; lia].
    + by apply Forall_enqueue.
    + intros Hc. rewrite enqueue_snd, HL by done. simpl.
      rewrite (Permutation_app_comm _ [m]), <- !Permutation_middle. done.
Qed.

Lemma PostMessage_busy m b w w' : enqueue_message m b w = Ok (w', ()) -> busy w' -> PostMessage m b w = Ok (w', ()).
Proof.
  intros E HB. unfold PostMessage. step E. unfold gets at 1, bind at 1. unfold busy, h in *. simpl.
  destruct (pool_ (handler w')); [by rewrite HB|done].
Qed.

(** The next message: urgent ones first, others only if the priority admits them. *)
Lemma DequeueMessage_ok w lq lo p :
  winv w lq lo [] ->
  exists w' message, DequeueMessage p w = Ok (w', message) /\ ext w w' /\
    script w' = script w /\ h paused_ w' = h paused_ w /\
    match message with
    | Some m =>
        (lo <> [] /\ winv w' lq (tail lo) [m] /\ m :: (tail lo).*2 = lo.*2 \/
         lo = [] /\ p = kNormalPriority /\ winv w' (tail lq) [] [m] /\ m :: (tail lq).*2 = lq.*2)
    | None => winv w' lq lo [] /\ lo = [] /\ (p = kNormalPriority -> lq = [])
    end.
Proof.
  intros HI. pose proof HI as [Rq Ro HA HAs HN HU HL HC HD HO HS]. unfold DequeueMessage.
  destruct (queue_dequeue_rep _ lo Ro) as (qo & Eo & Ro'). unfold h in *.
  apply Forall_app in HAs as [Aq Ao]. destruct lo as [|[a m] lo]; simpl in Eo, Ro'.
  - destruct (queue_dequeue_rep _ lq Rq) as (qq & Eq & Rq').
    destruct p; [|destruct lq as [|[a m] lq]; simpl in Eq, Rq'].
    2-3: eexists _, None.
    + destruct lq as [|[a m] lq]; simpl in Eq, Rq'.
      * eexists _, None. run. unfold h. rewrite Eo. simpl. rewrite Eq. simpl. split; [done|]. split; [ext|].
        split; [done|]. split; [done|]. split; [by constructor|done].
      * eexists _, (Some m). run. unfold h. rewrite Eo. simpl. rewrite Eq. simpl. split; [done|]. split; [ext|].
        split; [done|]. split; [done|]. right. split; [done|]. split; [done|]. split; [|done].
        apply Forall_cons in HN as [_ HN], Aq as [_ Aq]. constructor; simpl; try done.
        by rewrite app_nil_r.
    + run. unfold h. rewrite Eo. simpl. split; [done|]. split; [ext|]. split; [done|]. split; [done|].
      split; [by constructor|done].
    + run. unfold h. rewrite Eo. simpl. split; [done|]. split; [ext|]. split; [done|]. split; [done|].
      split; [constructor; try done; by rewrite app_nil_r|done].
  - eexists _, (Some m). run. unfold h. rewrite Eo. simpl. split; [done|]. split; [ext|]. split; [done|].
    split; [done|]. left. split; [done|]. split; [|done]. apply Forall_cons in HU as [_ HU], Ao as [_ Ao].
    constructor; simpl; try done; [by apply Forall_app|]. intros Hc. rewrite HL by done. simpl.
    by rewrite <- !Permutation_middle.
Qed.

Lemma ClearOOBQueue_ok w lq lo fl :
  winv w lq lo fl ->
  exists w', ClearOOBQueue w = Ok (w', ()) /\ winv w' lq [] fl /\ ext w w' /\ script w' = script w /\ calm w w'.
Proof.
  intros HI. pose proof HI as [Rq Ro HA HAs HN HU HL HC HD HO HS].
  destruct (queue_clear_rep _ lo Ro) as (q & E & R). unfold ClearOOBQueue. eexists. run. unfold h in *.
  rewrite E. split; [done|]. apply Forall_app in HAs as [Aq Ao].
  split; [|split; [ext|done]]. constructor; simpl; try done. by rewrite app_nil_r.
Qed.

Lemma CloseAllPorts_ok w lq lo fl :
  winv w lq lo fl ->
  exists w', CloseAllPorts w = Ok (w', ()) /\ winv w' [] [] fl /\ ext w w' /\ script w' = script w /\ calm w w'.
Proof.
  intros HI. pose proof HI as [Rq Ro HA HAs HN HU HL HC HD HO HS].
  destruct (queue_clear_rep _ lq Rq) as (q & E & R). unfold CloseAllPorts.
  set (w1 := with_handler (with_queue q (handler w)) (with_cleared true w)).
  assert (HI1 : winv w1 [] lo fl).
  { apply Forall_app in HAs as [Aq Ao]. constructor; simpl; try done. }
  destruct (ClearOOBQueue_ok w1 [] lo fl HI1) as (w' & E' & HI' & X & ES & HK).
  exists w'. split; [|split; [done|split; [|by split]]].
  - rewrite <- E'. run. unfold h in *. by rewrite E.
  - etrans; [|done]. ext.
Qed.

(** ** Calls while the monitor is released *)

(** [handle] handles messages, with a measure below [n]. *)
Definition handles (n : nat) (handle : bool -> bool -> M Q MessageStatus) : Prop :=
  forall allow multiple w lq lo, winv w lq lo [] -> busy w -> (measure w lq lo < n)%nat ->
  exists w' st lq', handle allow multiple w = Ok (w', st) /\ winv w' lq' [] [] /\ ext w w' /\
    (measure w' lq' [] <= measure w lq lo)%nat /\
    (st = kOK -> allow = true -> multiple = true -> paused w' = false -> lq' = []).

Lemma winv_update w lq lo fl (f : MessageHandler Q -> MessageHandler Q) :
  winv w lq lo fl ->
  queue_ (f (handler w)) = queue_ (handler w) -> oob_queue_ (f (handler w)) = oob_queue_ (handler w) ->
  paused_ (f (handler w)) = paused_ (handler w) ->
  end_callback_ (f (handler w)) = end_callback_ (handler w) ->
  (delete_me_ (f (handler w)) = true -> live_ports_ (f (handler w)) <= 0 /\ owned_by_port_map w = true) ->
  winv (with_handler (f (handler w)) w) lq lo fl.
Proof.
  intros [Rq Ro HA HAs HN HU HL HC HD HO HS] E1 E2 E3 E4 E5. unfold h in *.
  constructor; unfold h; simpl; rewrite ?E1, ?E2, ?E3, ?E4; done.
Qed.

(** A call that does not touch the queues. *)
Definition quiet (x : M Q unit) w lq lo : Prop :=
  exists w', x w = Ok (w', ()) /\ winv w' lq lo [] /\ ext w w' /\ script w' = script w.

Lemma quiet_ret w lq lo : winv w lq lo [] -> quiet (ret ()) w lq lo.
Proof. intros HI. by exists w. Qed.

Lemma quiet_update w lq lo f :
  winv (with_handler (f (handler w)) w) lq lo [] -> ext w (with_handler (f (handler w)) w) ->
  quiet (update f) w lq lo.
Proof. intros HI X. by exists (with_handler (f (handler w)) w). Qed.

(** Writing the slots of the capabilities when one is added. *)
Lemma add_capability_quiet w lq lo caps :
  winv w lq lo [] -> length (held caps) = S (length (held (resume_capabilities w))) ->
  quiet (added <- (modify (with_resume_capabilities caps) ;;; ret true) ;; when added increment_paused) w lq lo.
Proof.
  intros HI HL. unfold quiet, increment_paused. run. eexists. split; [done|]. split; [|split; [ext|done]].
  destruct HI as [Rq Ro HA HAs HN HU HLg HC HD HO HS]. constructor; unfold h in *; simpl; try done. rewrite HC. lia.
Qed.

Lemma Pause_quiet w lq lo c :
  winv w lq lo [] -> quiet (added <- AddResumeCapability c ;; when added increment_paused) w lq lo.
Proof.
  intros HI. pose proof (insertion_index_ok (resume_capabilities w) 0) as HX.
  assert (HA : forall caps, length (held caps) = S (length (held (resume_capabilities w))) ->
    quiet (added <- (modify (with_resume_capabilities caps) ;;; ret true) ;; when added increment_paused) w lq lo)
    by (intros; by apply add_capability_quiet).
  unfold quiet, AddResumeCapability in *. unfold gets, bind at 1 2. case_bool_decide as EC; [by apply quiet_ret|].
  destruct (insertion_index (resume_capabilities w) 0) as [i|].
  - destruct HX as [_ HX]. rewrite Nat.sub_0_r in HX.
    pose proof (held_insert (resume_capabilities w) i None (Some c) HX) as HY. simpl in HY. apply HA. lia.
  - destruct (kMaxResumeCapabilities <=? Z.of_nat (length (resume_capabilities w))); [by apply quiet_ret|].
    apply HA. rewrite held_app, length_app. simpl. lia.
Qed.

Lemma Resume_quiet w lq lo c :
  winv w lq lo [] -> quiet (removed <- RemoveResumeCapability c ;; when removed decrement_paused) w lq lo.
Proof.
  intros HI. unfold RemoveResumeCapability, decrement_paused, quiet. run.
  pose proof (capability_index_ok (resume_capabilities w) c 0) as HX.
  destruct (capability_index (resume_capabilities w) c 0) as [i|]; simpl; [|by apply quiet_ret].
  destruct HX as [_ HX]. rewrite Nat.sub_0_r in HX.
  pose proof (held_insert (resume_capabilities w) i (Some c) None HX) as HY. simpl in HY.
  destruct HI as [Rq Ro HA HAs HN HU HL HC HD HO HS]. unfold h in *. simpl.
  rewrite HC, (proj2 (Z.ltb_lt 0 _)) by lia.
  eexists. split; [done|]. split; [|split; [ext|done]].
  constructor; unfold h in *; simpl; try done. rewrite HC. lia.
Qed.

Lemma PortClosed_quiet w lq lo :
  winv w lq lo [] ->
  quiet (delete <- gets (fun w => negb (HasLivePorts w) && owned_by_port_map w) ;; when delete RequestDeletion) w lq lo.
Proof.
  intros HI. unfold HasLivePorts, RequestDeletion, quiet. run. unfold h.
  destruct (Z.ltb_spec 0 (live_ports_ (handler w))) as [HL|HL]; simpl; [by apply quiet_ret|].
  destruct (owned_by_port_map w) eqn:EO; simpl; [|by apply quiet_ret]. rewrite EO.
  destruct (task_running_ (handler w)) eqn:ET; (eexists; split; [done|]; split; [|split; [|done]]).
  - by apply winv_update.
  - ext.
  - destruct HI. by constructor.
  - constructor; simpl; unfold h; intros; try done. congruence.
Qed.

Lemma live_ports_quiet w lq lo k :
  winv w lq lo [] -> (0 < k -> owned_by_port_map w = false \/ h delete_me_ w = false) ->
  quiet (update (fun r => with_live_ports (live_ports_ r + k) r)) w lq lo.
Proof.
  intros HI HO. apply quiet_update; [|ext]. apply winv_update; try done. simpl. intros HD.
  destruct (wi_delete _ _ _ _ HI HD) as [HX HY]. unfold h in HX. split; [|done].
  destruct (Z.lt_ge_cases 0 k) as [L|L]; [|lia]. unfold h in HO. destruct (HO L); congruence.
Qed.

Lemma not_deleted w lq lo fl :
  winv w lq lo fl -> owned_by_port_map w = false -> h delete_me_ w = false.
Proof.
  intros HI HO. destruct (h delete_me_ w) eqn:E; [|done]. destruct (wi_delete _ _ _ _ HI E). congruence.
Qed.

Lemma run_action_ok n handle a w lq lo :
  handles n handle -> winv w lq lo [] -> busy w -> action_ok (owned_by_port_map w) a ->
  (measure w lq lo + weight a <= n)%nat ->
  exists w' lq' lo', run_action handle a w = Ok (w', ()) /\ winv w' lq' lo' [] /\ ext w w' /\
    (measure w' lq' lo' <= measure w lq lo + weight a)%nat.
Proof.
  intros HH HI HB HA HM.
  assert (HQ : quiet (run_action handle a) w lq lo ->
    exists w' lq' lo', run_action handle a w = Ok (w', ()) /\ winv w' lq' lo' [] /\ ext w w' /\
      (measure w' lq' lo' <= measure w lq lo + weight a)%nat).
  { intros (w' & E & HI' & X & ES). exists w', lq, lo. split_and!; try done. unfold measure. rewrite ES. lia. }
  destruct a as [m b| |c|c| | | | |b|b|b]; cbn [run_action weight] in *.
  - destruct (enqueue_message_ok w lq lo [] m b HI HA) as (w' & lq' & lo' & E & HI' & X & EL & ES & _).
    exists w', lq', lo'. split_and!; try done; [by apply PostMessage_busy, (ext_busy w)|]. unfold measure. rewrite ES. lia.
  - unfold HandleOOBMessages, gets, assert_, bind, ret. destruct (h oob_message_handling_allowed_ w); simpl.
    + pose proof (not_deleted w lq lo [] HI HA) as HD. unfold h in *. rewrite HD. simpl. destruct (HH false false w lq lo HI HB) as (w' & st & lq' & -> & HI' & X & EM & _); [lia|].
      exists w', lq', []. split_and!; try done. lia.
    + exists w, lq, lo. split_and!; try done. lia.
  - by apply HQ, Pause_quiet.
  - by apply HQ, Resume_quiet.
  - apply HQ, live_ports_quiet; [done|by left].
  - apply HQ, (live_ports_quiet w lq lo (-1)); [done|lia].
  - by apply HQ, PortClosed_quiet.
  - destruct (CloseAllPorts_ok w lq lo [] HI) as (w' & E & HI' & X & ES & _).
    exists w', [], []. split_and!; try done. unfold measure. rewrite ES. simpl. lia.
  - apply HQ, quiet_update; [by apply winv_update; try apply HI|]. simpl in HA. subst b. ext.
  - apply HQ, quiet_update; [by apply winv_update; try apply HI|ext].
  - apply HQ, quiet_update; [by apply winv_update; try apply HI|ext].
Qed.

Lemma run_actions_ok n handle l : forall w lq lo,
  handles n handle -> winv w lq lo [] -> busy w -> Forall (action_ok (owned_by_port_map w)) l ->
  (measure w lq lo + weights l <= n)%nat ->
  exists w' lq' lo', run_actions handle l w = Ok (w', ()) /\ winv w' lq' lo' [] /\ ext w w' /\
    (measure w' lq' lo' <= measure w lq lo + weights l)%nat.
Proof.
  induction l as [|a l IH]; intros w lq lo HH HI HB HA HM; cbn [run_actions].
  { exists w, lq, lo. split_and!; try done. lia. }
  apply Forall_cons in HA as [HA HAl]. unfold weights in *. simpl in HM |- *.
  destruct (run_action_ok n handle a w lq lo) as (w1 & lq1 & lo1 & E1 & HI1 & X1 & M1); [done..|lia|].
  step E1. destruct (IH w1 lq1 lo1) as (w2 & lq2 & lo2 & E2 & HI2 & X2 & M2);
    [done|done|by apply (ext_busy w)|by rewrite (e_owned _ _ X1)|lia|].
  exists w2, lq2, lo2. split_and!; try done; [by etrans|lia].
Qed.

(** A release of the monitor. *)
Lemma released_ok n handle w lq lo :
  handles n handle -> winv w lq lo [] -> busy w -> (measure w lq lo <= n)%nat ->
  exists w' r lq' lo', released handle w = Ok (w', r) /\ winv w' lq' lo' [] /\ ext w w' /\
    (measure w' lq' lo' <= measure w lq lo)%nat /\ (r = default_release \/ r ∈ script w).
Proof.
  intros HH HI HB HM. unfold released. unfold gets at 1, bind at 1.
  destruct (script w) as [|r s] eqn:ES.
  { exists w, default_release, lq, lo. split_and!; try done. by left. }
  destruct (winv_script w lq lo [] r s HI ES) as [HI' HR].
  assert (EM : measure w lq lo = (measure (with_script s w) lq lo + weights (actions r))%nat).
  { unfold measure. rewrite ES. unfold credits. simpl. lia. }
  destruct (run_actions_ok n handle (actions r) (with_script s w) lq lo) as (w' & lq' & lo' & E & HI'' & X & M);
    [done|done|done|done|lia|].
  exists w', r, lq', lo'. split_and!; [|done| |lia|right; by left].
  - unfold modify, bind, ret. by rewrite E.
  - etrans; [|done]. constructor; simpl; intros; try done. rewrite ES. by exists [r].
Qed.

(** ** [HandleMessages] *)

Lemma winv_handled w lq lo m :
  winv w lq lo [m] ->
  winv (with_handled (handled w ++ [m]) w) lq lo [] /\ ext w (with_handled (handled w ++ [m]) w).
Proof.
  intros [Rq Ro HA HAs HN HU HL HC HD HO HS]. split; [|ext].
  constructor; simpl; try done. intros Hc. rewrite HL by done. by rewrite <- app_assoc.
Qed.

Definition drains (n : nat) (an am : bool) (ms : MessageStatus) (loop : option Message -> M Q MessageStatus) : Prop :=
  forall message w lq lo, busy w ->
  match message with
  | Some m => winv w lq lo [m] /\ (measure w lq lo < n)%nat
  | None => winv w lq lo [] /\ lo = [] /\ (ms = kOK -> an = true -> paused w = false -> lq = [])
  end ->
  exists w' st lq', loop message w = Ok (w', st) /\ winv w' lq' [] [] /\ ext w w' /\
    (measure w' lq' [] <= measure w lq lo)%nat /\
    (st = kOK -> an = true -> am = true -> paused w' = false -> lq' = []).

(** The next message is taken and handled. *)
Lemma next_ok n an am ms loop (ok : bool) w lq lo :
  drains n an am ms loop -> winv w lq lo [] -> busy w -> (measure w lq lo <= n)%nat -> ok = bool_decide (ms = kOK) ->
  exists w' st lq', (p <- gets (min_priority (ok && an)) ;; message <- DequeueMessage p ;; loop message) w = Ok (w', st) /\
    winv w' lq' [] [] /\ ext w w' /\ (measure w' lq' [] <= measure w lq lo)%nat /\
    (st = kOK -> an = true -> am = true -> paused w' = false -> lq' = []).
Proof.
  intros HD HI HB HM ->. set (p := min_priority (bool_decide (ms = kOK) && an) w).
  destruct (DequeueMessage_ok w lq lo p HI) as (w1 & message & E & X & ES & EP & HMsg).
  assert (EX : exists lq1 lo1, (measure w1 lq1 lo1 <= measure w lq lo)%nat /\
    match message with
    | Some m => winv w1 lq1 lo1 [m] /\ (measure w1 lq1 lo1 < n)%nat
    | None => winv w1 lq1 lo1 [] /\ lo1 = [] /\ (ms = kOK -> an = true -> paused w1 = false -> lq1 = [])
    end).
  { unfold measure in *. rewrite ES. destruct message as [m|].
    - destruct HMsg as [(Hlo & HI1 & EL)|(Hlo & Hp & HI1 & EL)];
        apply (f_equal length) in EL; simpl in EL; rewrite !length_fmap in EL.
      + exists lq, (tail lo). split; [lia|]. split; [done|lia].
      + subst lo. exists (tail lq), []. simpl. split; [simpl in HM; lia|]. split; [done|simpl in HM; lia].
    - destruct HMsg as (HI1 & -> & HL). exists lq, []. split; [simpl; lia|]. split; [done|]. split; [done|].
      intros Hms Han Hpz. apply HL. unfold p, min_priority. rewrite Hms, Han. unfold paused in *. rewrite EP in Hpz.
      by rewrite Hpz. }
  destruct EX as (lq1 & lo1 & HM1 & HMsg'). destruct (HD message w1 lq1 lo1 (ext_busy _ _ X HB) HMsg') as (w2 & st & lq2 & E2 & HI2 & X2 & M2 & HF).
  exists w2, st, lq2. split; [|split; [done|split; [by etrans|split; [lia|done]]]].
  unfold gets at 1, bind at 1. fold p. by step E.
Qed.

Lemma handle_messages fuel :
  handles fuel (HandleMessages fuel) /\ forall an am ms, drains fuel an am ms (handle_loop fuel an am ms).
Proof.
  induction fuel as [|fuel [IHH IHL]].
  - split; [intros ? ? ? ? ? _ _ ?; lia|]. intros an am ms [m|] w lq lo HB HM; [destruct HM; lia|].
    destruct HM as (HI & -> & HL). exists w, ms, lq. split_and!; try done. auto.
  - split.
    + intros an am w lq lo HI HB HM. cbn [HandleMessages].
      destruct (released_ok fuel (HandleMessages fuel) w lq lo IHH HI HB) as (w1 & r & lq1 & lo1 & E1 & HI1 & X1 & M1 & _); [lia|].
      step E1. destruct (next_ok fuel an am kOK (handle_loop fuel an am kOK) true w1 lq1 lo1)
        as (w2 & st & lq2 & E2 & HI2 & X2 & M2 & HF); [apply IHL|done|by apply (ext_busy w)|lia|done|].
      exists w2, st, lq2. split_and!; try done; [by etrans|lia].
    + intros an am ms [m|] w lq lo HB HM; cbn [handle_loop].
      2: { destruct HM as (HI & -> & HL). exists w, ms, lq. split_and!; try done. auto. }
      destruct HM as [HI HM]. destruct (winv_handled w lq lo m HI) as [HI0 X0].
      unfold modify at 1, bind at 1.
      destruct (released_ok fuel (HandleMessages fuel) _ lq lo IHH HI0 (ext_busy _ _ X0 HB))
        as (w1 & r & lq1 & lo1 & E1 & HI1 & X1 & M1 & _); [unfold measure in *; simpl; lia|].
      step E1. cbv zeta. set (ms' := if _ <? _ then _ else _).
      assert (M1' : (measure w1 lq1 lo1 <= measure w lq lo)%nat) by (unfold measure in *; simpl in *; lia).
      case_bool_decide as ESt.
      * destruct (ClearOOBQueue_ok w1 lq1 lo1 [] HI1) as (w2 & E2 & HI2 & X2 & ES2 & _). step E2.
        exists w2, ms', lq1. split_and!; try done; [by do 2 (etrans; [done|])|unfold measure in *; rewrite ES2; simpl; lia|].
        intros Hms. exfalso. revert Hms. unfold ms'. rewrite ESt. by destruct ms.
      * set (an' := if _ && _ then _ else _).
        destruct (next_ok fuel an' am ms' (handle_loop fuel an' am ms') (bool_decide (ms' = kOK)) w1 lq1 lo1)
          as (w2 & st & lq2 & E2 & HI2 & X2 & M2 & HF); [apply IHL|done|by apply (ext_busy _ _ X1), (ext_busy _ _ X0)|lia|done|].
        exists w2, st, lq2. split_and!; try done; [by do 2 (etrans; [done|])|lia|].
        intros Hst Han Ham. apply HF; [done| |done]. unfold an'. rewrite Ham, Han. by rewrite andb_false_r.
Qed.

End handler.
