(* ===== verification/MessageHandlerTask.v ===== *)
(** The task of a message handler: [TaskCallback] returns whatever happens meanwhile, without
    running into one of its assertions, and leaves no message that could be handled. *)
From stdpp Require Import base numbers list gmap.
From Stdlib Require Import ZArith Lia.
From S2P Require Import Prelude Utils MessageQueue MessageQueueSpec MessageHandlerState MessageHandler.
From S2P Require Import MessageHandlerProps.
Local Open Scope Z_scope.
Local Open Scope handler_scope.

Section handler.
Context {Q : Type} `{QueueLaws Q}.
Implicit Type w : World Q.

Ltac step E := rewrite (handler_bind_ok _ _ _ _ _ E).
Ltac run := unfold when, gets, update, modify, assert_, lift, ret, bind; simpl.

(** [failed] says that a start callback has failed: a task that runs one which fails handles the
    urgent messages only. *)
Context (failed : Prop).

(** ** States of a task *)

(** A task of the handler is running. *)
Record running w lq lo : Prop := {
  rn_inv : winv w lq lo [];
  rn_running : h task_running_ w = true;
  rn_pool : h pool_ w = true;
  rn_tasks : pool_tasks w = 0%nat;
  rn_clock : 0 <= clock w;
  rn_native : owned_by_port_map w = true -> has_isolate w = false;
  rn_alive : deleted w = false;
  rn_up : pool_shutting_down w = false;
}.

(** The timestamp is set while the handler is paused. *)
Definition paused_at w (on_start on_exit : bool) : Prop :=
  h is_paused_on_start_ w = on_start /\ h is_paused_on_exit_ w = on_exit /\ on_start && on_exit = false /\
  (h paused_timestamp_ w = -1 <-> on_start || on_exit = false).

(** Between tasks: a handler that is paused on start should be, and one that is paused on exit
    should not be paused on start. *)
Definition pausing w : Prop :=
  (exists on_start on_exit, paused_at w on_start on_exit) /\
  (h is_paused_on_start_ w = true -> ShouldPauseOnStart kOK w = true) /\
  (h is_paused_on_exit_ w = true -> ShouldPauseOnStart kOK w = false).

(** The task has returned and may be started again. *)
Record parked w lq : Prop := {
  pk_inv : winv w lq [] [];
  pk_running : h task_running_ w = false;
  pk_pool : h pool_ w = true;
  pk_tasks : pool_tasks w = 0%nat;
  pk_clock : 0 <= clock w;
  pk_native : owned_by_port_map w = true -> has_isolate w = false;
  pk_alive : deleted w = false;
  pk_up : pool_shutting_down w = false;
  pk_kept : h delete_me_ w = false;
  pk_pausing : pausing w;
  pk_done : lq = [] \/ paused w = true \/ h is_paused_on_start_ w = true \/ h is_paused_on_exit_ w = true \/ failed;
}.

(** The handler has left the pool. *)
Record detached w lq lo : Prop := {
  dt_inv : winv w lq lo [];
  dt_running : h task_running_ w = false;
  dt_pool : h pool_ w = false;
  dt_tasks : pool_tasks w = 0%nat;
  dt_clock : 0 <= clock w;
  dt_native : owned_by_port_map w = true -> has_isolate w = false;
  dt_alive : deleted w = false;
  dt_up : pool_shutting_down w = false;
  dt_kept : h delete_me_ w = false;
  dt_pausing : paused_at w false false;
}.

(** How a task ends: the handler was deleted, has left the pool, or waits for messages. *)
Definition finished w : Prop :=
  deleted w = true \/ (exists lq lo, detached w lq lo) \/ (exists lq, parked w lq).

Lemma running_busy w lq lo : running w lq lo -> busy w.
Proof. intros HR _. apply HR. Qed.

Lemma running_ext w w' lq lo lq' lo' : running w lq lo -> ext w w' -> winv w' lq' lo' [] -> running w' lq' lo'.
Proof.
  intros [HI HR HP HT HC HN HA HU] X HI'. destruct X. constructor; rewrite ?e_running, ?e_pool, ?e_tasks, ?e_clock,
    ?e_owned, ?e_isolate, ?e_deleted, ?e_down; done.
Qed.

Lemma paused_at_ext w w' b1 b2 : paused_at w b1 b2 -> ext w w' -> paused_at w' b1 b2.
Proof. intros (E1 & E2 & E3 & E4) []. unfold paused_at. by rewrite e_on_start, e_on_exit, e_timestamp. Qed.

(** What the blocks of a task leave as it is. *)
Record mild w w' : Prop := {
  ml_start : h start_callback_ w' = h start_callback_ w;
  ml_start_status : start_status w' = start_status w;
  ml_should : h should_pause_on_start_ w = false -> h should_pause_on_start_ w' = false;
  ml_runnable : is_runnable w' = is_runnable w;
  ml_isolate : has_isolate w' = has_isolate w;
  ml_received : received w `prefix_of` received w';
  ml_handled : handled w `prefix_of` handled w';
  ml_script : script w' `suffix_of` script w;
}.

#[export] Instance mild_preorder : PreOrder mild.
Proof.
  split.
  - intros w. by constructor.
  - intros w1 w2 w3 [] []. constructor; try congruence; try (by etrans). by auto.
Qed.

Lemma ext_mild w w' : ext w w' -> mild w w'.
Proof. intros []. by constructor. Qed.

Lemma ShouldPauseOnStart_mild w w' :
  mild w w' -> ShouldPauseOnStart kOK w = false -> ShouldPauseOnStart kOK w' = false.
Proof.
  intros X. unfold ShouldPauseOnStart. rewrite (ml_isolate _ _ X), (ml_runnable _ _ X).
  destruct (has_isolate w), (is_runnable w); simpl; rewrite ?andb_true_r, ?andb_false_r; try done. apply X.
Qed.

(** A field that does not matter is assigned. *)
Lemma running_update w lq lo (f : MessageHandler Q -> MessageHandler Q) :
  running w lq lo ->
  queue_ (f (handler w)) = queue_ (handler w) -> oob_queue_ (f (handler w)) = oob_queue_ (handler w) ->
  paused_ (f (handler w)) = paused_ (handler w) -> end_callback_ (f (handler w)) = end_callback_ (handler w) ->
  task_running_ (f (handler w)) = task_running_ (handler w) -> pool_ (f (handler w)) = pool_ (handler w) ->
  delete_me_ (f (handler w)) = delete_me_ (handler w) -> live_ports_ (f (handler w)) = live_ports_ (handler w) ->
  running (with_handler (f (handler w)) w) lq lo.
Proof.
  intros [HI HR HP HT HC HN HA HU] E1 E2 E3 E4 E5 E6 E7 E8. constructor; unfold h in *; simpl; try congruence; try done.
  apply winv_update; try done. rewrite E7, E8. apply HI.
Qed.

(** ** [HandleMessages] and releases in a task *)

Lemma HandleMessages_ok fuel an am w lq lo :
  running w lq lo -> (measure w lq lo < fuel)%nat ->
  exists w' st lq', HandleMessages fuel an am w = Ok (w', st) /\ running w' lq' [] /\ ext w w' /\
    (measure w' lq' [] <= measure w lq lo)%nat /\
    (st = kOK -> an = true -> am = true -> paused w' = false -> lq' = []).
Proof.
  intros HR HM. destruct (proj1 (handle_messages fuel) an am w lq lo) as (w' & st & lq' & E & HI' & X & M & HF);
    [apply HR|by eapply running_busy|done|].
  exists w', st, lq'. split_and!; try done. by apply (running_ext w w' lq lo).
Qed.

Lemma released_running fuel w lq lo :
  running w lq lo -> (measure w lq lo < fuel)%nat ->
  exists w' r lq' lo', released (HandleMessages fuel) w = Ok (w', r) /\ running w' lq' lo' /\ ext w w' /\
    (measure w' lq' lo' <= measure w lq lo)%nat /\ (r = default_release \/ r ∈ script w).
Proof.
  intros HR HM. destruct (released_ok fuel (HandleMessages fuel) w lq lo) as (w' & r & lq' & lo' & E & HI' & X & M & Hr);
    [apply handle_messages|apply HR|by eapply running_busy|lia|].
  exists w', r, lq', lo'. split_and!; try done. by apply (running_ext w w' lq lo).
Qed.

(** ** Pausing *)

Lemma PausedOnStart_begin fuel w lq lo :
  running w lq lo -> (measure w lq lo < fuel)%nat -> paused_at w false false ->
  exists w' lq' lo', PausedOnStartLocked fuel true w = Ok (w', ()) /\ running w' lq' lo' /\
    (measure w' lq' lo' <= measure w lq lo)%nat /\ paused_at w' true false /\ mild w w'.
Proof.
  intros HR HM (E1 & E2 & _ & E4). unfold PausedOnStartLocked.
  unfold h in *. rewrite assert_bind by (by rewrite E1).
  rewrite assert_bind by (by apply Z.eqb_eq, E4). rewrite gets_bind, update_bind.
  set (w1 := with_handler _ w). pose proof (rn_clock _ _ _ HR) as HC.
  assert (HR1 : running w1 lq lo) by (by apply running_update).
  destruct (released_running fuel w1 lq lo HR1 HM) as (w2 & r & lq2 & lo2 & E & HR2 & X & M2 & _).
  step E. do 3 eexists. split; [done|]. split; [by apply running_update|].
  split; [exact M2|]. split; [|destruct X; by constructor]. destruct X. unfold paused_at, h in *. simpl in *.
  rewrite e_on_exit, e_timestamp. split_and!; [done|done|done|]. split; [lia|done].
Qed.

Lemma PausedOnExit_begin fuel w lq lo :
  running w lq lo -> (measure w lq lo < fuel)%nat -> paused_at w false false ->
  exists w' lq' lo', PausedOnExitLocked fuel true w = Ok (w', ()) /\ running w' lq' lo' /\
    (measure w' lq' lo' <= measure w lq lo)%nat /\ paused_at w' false true /\ mild w w'.
Proof.
  intros HR HM (E1 & E2 & _ & E4). unfold PausedOnExitLocked.
  unfold h in *. rewrite assert_bind by (by rewrite E2).
  rewrite assert_bind by (by apply Z.eqb_eq, E4). rewrite gets_bind, update_bind.
  set (w1 := with_handler _ w). pose proof (rn_clock _ _ _ HR) as HC.
  assert (HR1 : running w1 lq lo) by (by apply running_update).
  destruct (released_running fuel w1 lq lo HR1 HM) as (w2 & r & lq2 & lo2 & E & HR2 & X & M2 & _).
  step E. do 3 eexists. split; [done|]. split; [by apply running_update|].
  split; [exact M2|]. split; [|destruct X; by constructor]. destruct X. unfold paused_at, h in *. simpl in *.
  rewrite e_on_start, e_timestamp. split_and!; [done|done|done|]. split; [lia|done].
Qed.

Lemma running_resume w lq lo b : running w lq lo -> running (with_resume_request b w) lq lo.
Proof. intros [HI HR HP HT HC HN HA HU]. constructor; try done. destruct HI. by constructor. Qed.

Lemma PausedOnStart_end fuel w lq lo :
  running w lq lo -> paused_at w true false ->
  exists w', PausedOnStartLocked fuel false w = Ok (w', ()) /\ running w' lq lo /\ paused_at w' false false /\
    mild w w' /\ measure w' lq lo = measure w lq lo.
Proof.
  intros HR (E1 & E2 & _ & E4). unfold PausedOnStartLocked, h in *.
  rewrite assert_bind by done. rewrite assert_bind.
  2: { apply negb_true_iff, Z.eqb_neq. intros E. by apply E4 in E. }
  rewrite update_bind, gets_bind. set (w1 := with_handler _ w).
  assert (HR1 : running w1 lq lo) by (by apply running_update).
  set (w2 := if has_isolate w1 then with_resume_request false w1 else w1).
  assert (HR2 : running w2 lq lo) by (unfold w2; destruct (has_isolate w1); [by apply running_resume|done]).
  assert (E : when (has_isolate w1) (modify (with_resume_request false)) w1 = Ok (w2, ()))
    by (unfold w2; by destruct (has_isolate w1)).
  step E. eexists. split; [done|]. split; [by apply running_update|].
  unfold w2. destruct (has_isolate w1); (split; [done|]; by split).
Qed.

Lemma PausedOnExit_end fuel w lq lo :
  running w lq lo -> paused_at w false true ->
  exists w', PausedOnExitLocked fuel false w = Ok (w', ()) /\ running w' lq lo /\ paused_at w' false false /\
    mild w w' /\ measure w' lq lo = measure w lq lo.
Proof.
  intros HR (E1 & E2 & _ & E4). unfold PausedOnExitLocked, h in *.
  rewrite assert_bind by done. rewrite assert_bind.
  2: { apply negb_true_iff, Z.eqb_neq. intros E. by apply E4 in E. }
  rewrite update_bind, gets_bind. set (w1 := with_handler _ w).
  assert (HR1 : running w1 lq lo) by (by apply running_update).
  set (w2 := if has_isolate w1 then with_resume_request false w1 else w1).
  assert (HR2 : running w2 lq lo) by (unfold w2; destruct (has_isolate w1); [by apply running_resume|done]).
  assert (E : when (has_isolate w1) (modify (with_resume_request false)) w1 = Ok (w2, ()))
    by (unfold w2; by destruct (has_isolate w1)).
  step E. eexists. split; [done|]. split; [by apply running_update|].
  unfold w2. destruct (has_isolate w1); (split; [done|]; by split).
Qed.

(** ** The blocks of the task *)

Lemma ShouldPauseOnStart_status st w :
  ShouldPauseOnStart st w = if bool_decide (st = kShutdown) then false else ShouldPauseOnStart kOK w.
Proof. unfold ShouldPauseOnStart. destruct (has_isolate w); simpl; by destruct st. Qed.

Lemma ShouldPauseOnExit_isolate st w : ShouldPauseOnExit st w = true -> has_isolate w = true /\ st <> kShutdown.
Proof. unfold ShouldPauseOnExit. destruct (has_isolate w); [|done]. by destruct st. Qed.

Lemma ShouldPauseOnStart_isolate st w : ShouldPauseOnStart st w = true -> has_isolate w = true.
Proof. unfold ShouldPauseOnStart. by destruct (has_isolate w). Qed.

Lemma oob_empty_ok w lq fl : winv w lq [] fl -> oob_empty w = true.
Proof. intros HI. apply (queue_is_empty_rep _ [] (wi_oob _ _ _ _ HI)). done. Qed.

Lemma isolate_kept w lq lo : running w lq lo -> has_isolate w = true -> h delete_me_ w = false.
Proof.
  intros HR HI. apply not_true_is_false. intros HD.
  destruct (wi_delete _ _ _ _ (rn_inv _ _ _ HR) HD) as [_ HO]. pose proof (rn_native _ _ _ HR HO). congruence.
Qed.

(** The task ends with the handler in the pool. *)
Lemma parked_end w lq :
  running w lq [] -> h delete_me_ w = false -> pausing w ->
  lq = [] \/ paused w = true \/ h is_paused_on_start_ w = true \/ h is_paused_on_exit_ w = true \/ failed ->
  parked (with_handler (with_task_running false (handler w)) w) lq.
Proof.
  intros [HI HR HP HT HC HN HA HU] HD HZ HQ. constructor; try done.
  apply winv_update; try done. apply HI.
Qed.

Lemma still_paused_ok w lq :
  running w lq [] -> has_isolate w = true -> pausing w ->
  h is_paused_on_start_ w = true \/ h is_paused_on_exit_ w = true ->
  exists w', still_paused w = Ok (w', ()) /\ parked w' lq.
Proof.
  intros HR HI HZ HP. unfold still_paused. rewrite assert_bind by (eapply oob_empty_ok; apply HR).
  eexists. split; [done|]. apply parked_end; [done|by eapply isolate_kept|done|tauto].
Qed.

(** What a block leaves when the task goes on: [b] tells whether the handler is paused on
    exit. *)
Definition goes_on w (st : MessageStatus) w' (b : bool) lq lo : Prop :=
  running w' lq lo /\ paused_at w' false b /\ mild w w' /\
  (st <> kOK -> lo = []) /\ (b = false /\ st = kShutdown \/ ShouldPauseOnStart kOK w' = false).

Lemma still_paused_mild w w' : still_paused w = Ok (w', ()) -> mild w w'.
Proof.
  unfold still_paused, assert_, update, modify, bind. destruct (oob_empty w); [|done]. intros [= <-]. by constructor.
Qed.

Lemma task_pause_on_start_ok fuel w lq lo :
  running w lq lo -> (measure w lq lo < fuel)%nat -> pausing w ->
  exists w' r, task_pause_on_start fuel w = Ok (w', r) /\
    match r with
    | None => (exists lq', parked w' lq') /\ mild w w'
    | Some st => exists b lq' lo', goes_on w st w' b lq' lo' /\ (measure w' lq' lo' <= measure w lq lo)%nat
    end.
Proof.
  intros HR HM ((on_start & on_exit & HP) & HZ1 & HZ2). pose proof HP as (E1 & E2 & E3 & E4).
  unfold task_pause_on_start. rewrite gets_bind. destruct (ShouldPauseOnStart kOK w) eqn:ES; cbn [negb].
  2: { exists w, (Some kOK). split; [done|]. exists on_exit, lq, lo. split; [|lia]. destruct on_start; [specialize (HZ1 E1); congruence|].
       split_and!; try done. by right. }
  destruct on_exit; [specialize (HZ2 E2); congruence|]. rewrite gets_bind, E1.
  assert (HB : exists w1 lq1 lo1, when (negb on_start) (PausedOnStartLocked fuel true) w = Ok (w1, ()) /\
    running w1 lq1 lo1 /\ (measure w1 lq1 lo1 <= measure w lq lo)%nat /\ paused_at w1 true false /\ mild w w1).
  { destruct on_start; [by exists w, lq, lo|by apply PausedOnStart_begin]. }
  destruct HB as (w1 & lq1 & lo1 & Ew & HR1 & M1 & HP1 & X1). step Ew.
  destruct (HandleMessages_ok fuel false false w1 lq1 lo1 HR1) as (w2 & st & lq2 & E & HR2 & X2 & M2 & _); [lia|].
  step E. rewrite gets_bind. pose proof (paused_at_ext _ _ _ _ HP1 X2) as HP2.
  assert (X : mild w w2) by (etrans; [done|by apply ext_mild]).
  destruct (ShouldPauseOnStart st w2) eqn:ES2.
  - destruct (still_paused_ok w2 lq2 HR2) as (w3 & E3' & HK).
    + by eapply ShouldPauseOnStart_isolate.
    + split; [by exists true, false|]. rewrite ShouldPauseOnStart_status in ES2. case_bool_decide; [done|].
      split; [done|]. destruct HP2 as (_ & -> & _). done.
    + left. apply HP2.
    + step E3'. exists w3, None. split; [done|]. split; [by exists lq2|]. etrans; [done|]. by apply still_paused_mild.
  - destruct (PausedOnStart_end fuel w2 lq2 [] HR2 HP2) as (w3 & E3' & HR3 & HP3 & X3 & M3). step E3'.
    exists w3, (Some st). split; [done|]. exists false, lq2, []. split; [|lia]. split_and!; try done; [by etrans|].
    rewrite ShouldPauseOnStart_status in ES2. case_bool_decide; [by left|]. right.
    by apply (ShouldPauseOnStart_mild w2).
Qed.

Lemma task_resume_on_exit_ok fuel w st b lq lo :
  running w lq lo -> (measure w lq lo < fuel)%nat -> paused_at w false b ->
  (st <> kOK -> lo = []) -> (b = false /\ st = kShutdown \/ ShouldPauseOnStart kOK w = false) ->
  exists w' r, task_resume_on_exit fuel st w = Ok (w', r) /\
    match r with
    | None => (exists lq', parked w' lq') /\ mild w w'
    | Some st => exists lq' lo', goes_on w st w' false lq' lo' /\ (measure w' lq' lo' <= measure w lq lo)%nat
    end.
Proof.
  intros HR HM HP HL HS. pose proof HP as (E1 & E2 & _). unfold task_resume_on_exit. rewrite gets_bind, E2.
  destruct b; cbn [negb].
  2: { exists w, (Some st). split; [done|]. exists lq, lo. split; [|lia]. by split_and!. }
  destruct HS as [[? _]|HS]; [done|].
  destruct (HandleMessages_ok fuel false false w lq lo HR HM) as (w1 & st1 & lq1 & E & HR1 & X1 & M1 & _).
  step E. rewrite gets_bind. pose proof (paused_at_ext _ _ _ _ HP X1) as HP1. apply ext_mild in X1.
  pose proof (ShouldPauseOnStart_mild _ _ X1 HS) as HS1.
  destruct (ShouldPauseOnExit st1 w1) eqn:EX.
  - destruct (still_paused_ok w1 lq1 HR1) as (w2 & E3 & HK).
    + by eapply ShouldPauseOnExit_isolate.
    + split; [by exists false, true|]. destruct HP1 as (-> & _). done.
    + right. apply HP1.
    + step E3. exists w2, None. split; [done|]. split; [by exists lq1|]. etrans; [done|]. by apply still_paused_mild.
  - destruct (PausedOnExit_end fuel w1 lq1 [] HR1 HP1) as (w2 & E3 & HR2 & HP2 & X2 & M2). step E3.
    rewrite gets_bind. do 2 eexists. split; [done|]. exists lq1, []. split; [|lia]. split_and!; try done; [by etrans|].
    right. by apply (ShouldPauseOnStart_mild w1).
Qed.

(** The start callback does not ask for a shutdown, and [failed] if it fails. *)
Definition starts w : Prop := h start_callback_ w = true -> start_status w <> kShutdown /\ (start_status w = kError -> failed).

Lemma starts_mild w w' : starts w -> mild w w' -> starts w'.
Proof. intros HS X. unfold starts. by rewrite (ml_start _ _ X), (ml_start_status _ _ X). Qed.

Lemma task_handle_ok fuel w st lq lo :
  running w lq lo -> (measure w lq lo < fuel)%nat -> paused_at w false false -> starts w ->
  (st <> kOK -> lo = []) -> (st = kShutdown \/ ShouldPauseOnStart kOK w = false) ->
  exists w' st' lq', task_handle fuel st w = Ok (w', st') /\ running w' lq' [] /\ paused_at w' false false /\
    (measure w' lq' [] <= measure w lq lo)%nat /\
    received w `prefix_of` received w' /\ handled w `prefix_of` handled w' /\
    (st' = kOK -> lq' = [] \/ paused w' = true \/ failed) /\ (st' = kShutdown \/ ShouldPauseOnStart kOK w' = false) /\
    starts w'.
Proof.
  intros HR HM HP HS HL HZ. unfold task_handle. case_bool_decide as ES.
  2: { exists w, st, lq. rewrite (HL ES) in *. by split_and!. }
  destruct HZ as [?|HZ]; [congruence|]. rewrite gets_bind.
  assert (HB : exists w1 st1 lq1 lo1,
    (if h start_callback_ w then
       released (HandleMessages fuel) ;;; update (with_start_callback false) ;;; gets start_status
     else ret st) w = Ok (w1, st1) /\ running w1 lq1 lo1 /\ (measure w1 lq1 lo1 <= measure w lq lo)%nat /\
    paused_at w1 false false /\ (st1 <> kShutdown /\ (st1 = kError -> failed)) /\ ShouldPauseOnStart kOK w1 = false /\ starts w1 /\
    received w `prefix_of` received w1 /\ handled w `prefix_of` handled w1).
  { destruct (h start_callback_ w) eqn:EC; [|exists w, st, lq, lo; subst st; by split_and!].
    destruct (released_running fuel w lq lo HR HM) as (w1 & r & lq1 & lo1 & E & HR1 & X & M1 & Hr).
    step E. rewrite update_bind. do 4 eexists. split; [done|]. split; [by apply running_update|].
    split; [exact M1|]. split; [exact (paused_at_ext w w1 _ _ HP X)|]. split.
    - simpl. rewrite (e_start_status _ _ X). by apply HS.
    - split; [|split; [done|split; apply X]]. apply ext_mild in X. by apply (ShouldPauseOnStart_mild _ _ X). }
  destruct HB as (w1 & st1 & lq1 & lo1 & Ew & HR1 & M1 & HP1 & HN1 & HZ1 & HS1 & R1 & D1). step Ew.
  destruct HN1 as [NS HFl]. rewrite bool_decide_false by done.
  destruct (HandleMessages_ok fuel (bool_decide (st1 = kOK)) true w1 lq1 lo1 HR1)
    as (w2 & st2 & lq2 & E2 & HR2 & X2 & M2 & HF); [lia|].
  exists w2, st2, lq2. split; [done|]. split; [done|]. split; [by apply (paused_at_ext w1)|]. split; [lia|].
  split; [etrans; [done|apply X2]|]. split; [etrans; [done|apply X2]|]. split.
  - intros Hst. destruct (paused w2) eqn:EP; [by right; left|]. destruct st1; [left; by apply HF|right; right; by apply HFl|done].
  - apply ext_mild in X2. split; [right; by apply (ShouldPauseOnStart_mild w1)|by apply (starts_mild w1)].
Qed.

Lemma task_pause_on_exit_ok fuel w st lq :
  running w lq [] -> (measure w lq [] < fuel)%nat -> paused_at w false false ->
  (st = kShutdown \/ ShouldPauseOnStart kOK w = false) ->
  exists w' go_on, task_pause_on_exit fuel st w = Ok (w', go_on) /\
    received w `prefix_of` received w' /\ handled w `prefix_of` handled w' /\ (starts w -> starts w') /\
    if (go_on : bool) then exists lq', running w' lq' [] /\ paused_at w' false false else exists lq', parked w' lq'.
Proof.
  intros HR HM HP HZ. unfold task_pause_on_exit. rewrite gets_bind.
  destruct (ShouldPauseOnExit st w) eqn:EX; cbn [negb].
  2: { exists w, true. split; [done|]. split; [done|]. split; [done|]. split; [done|]. by exists lq. }
  destruct (ShouldPauseOnExit_isolate _ _ EX) as [_ NS]. destruct HZ as [?|HZ]; [done|]. rewrite update_bind.
  set (w0 := with_handler _ w). assert (HR0 : running w0 lq []) by (by apply running_update).
  destruct (PausedOnExit_begin fuel w0 lq [] HR0 HM HP) as (w1 & lq1 & lo1 & E1 & HR1 & M1 & HP1 & X1). step E1.
  assert (M1' : (measure w1 lq1 lo1 < fuel)%nat) by (eapply Nat.le_lt_trans; [exact M1|exact HM]).
  destruct (HandleMessages_ok fuel false false w1 lq1 lo1 HR1 M1') as (w2 & st2 & lq2 & E2 & HR2 & X2 & M2 & _).
  step E2. rewrite gets_bind. pose proof (paused_at_ext _ _ _ _ HP1 X2) as HP2. apply ext_mild in X2.
  assert (X : mild w0 w2) by (by etrans).
  destruct (ShouldPauseOnExit st2 w2) eqn:EX2.
  - destruct (still_paused_ok w2 lq2 HR2) as (w3 & E3 & HK).
    + by eapply ShouldPauseOnExit_isolate.
    + split; [by exists false, true|]. destruct HP2 as (-> & _). split; [done|]. intros _.
      by apply (ShouldPauseOnStart_mild w0).
    + right. apply HP2.
    + step E3. exists w3, false. split; [done|]. apply still_paused_mild in E3. assert (X' : mild w0 w3) by (by etrans).
      split; [apply X'|]. split; [apply X'|]. split; [intros; by apply (starts_mild w0)|]. by exists lq2.
  - destruct (PausedOnExit_end fuel w2 lq2 [] HR2 HP2) as (w3 & E3 & HR3 & HP3 & X3 & M3). step E3.
    exists w3, true. split; [done|]. assert (X' : mild w0 w3) by (by etrans).
    split; [apply X'|]. split; [apply X'|]. split; [intros; by apply (starts_mild w0)|]. by exists lq2.
Qed.

(** The handler leaves the pool, and is deleted if that was requested. *)
Lemma task_leave_ok w lq :
  running w lq [] -> paused_at w false false ->
  exists w', (update (with_pool false) ;;;
      run_end_callback <- gets (h end_callback_) ;;
      delete_me <- gets (h delete_me_) ;;
      task_end delete_me run_end_callback) w = Ok (w', ()) /\
    finished w' /\ received w' = received w /\ handled w' = handled w /\ starts w' = starts w.
Proof.
  intros [HI HR HP HT HC HN HA HU] HZ. rewrite update_bind, !gets_bind. set (w1 := with_handler _ w).
  assert (HI1 : winv w1 lq [] []) by (apply winv_update; try done; apply HI). unfold task_end.
  rewrite assert_bind by (by eapply oob_empty_ok). rewrite update_bind. set (w2 := with_handler _ w1).
  assert (HI2 : winv w2 lq [] []) by (apply winv_update; try done; apply HI1).
  change (h end_callback_ w1) with (h end_callback_ w). change (h delete_me_ w1) with (h delete_me_ w).
  destruct (h delete_me_ w) eqn:ED.
  - destruct (wi_delete _ _ _ _ HI ED) as [_ HO]. rewrite (wi_owned _ _ _ _ HI HO). cbn [negb orb].
    rewrite assert_bind by done. exists (with_deleted true w2). split; [done|]. split; [by left|by repeat split].
  - rewrite assert_bind by done. destruct (h end_callback_ w).
    + exists (with_ended true w2). split; [done|]. split; [|by repeat split]. right; left. exists lq, [].
      constructor; try done. destruct HI2. by constructor.
    + exists w2. split; [done|]. split; [|by repeat split]. right; left. exists lq, []. by constructor.
Qed.

Lemma task_end_parked w lq :
  running w lq [] -> h delete_me_ w = false -> paused_at w false false -> lq = [] \/ paused w = true \/ failed ->
  exists w', task_end false false w = Ok (w', ()) /\ parked w' lq /\ received w' = received w /\ handled w' = handled w /\ starts w' = starts w.
Proof.
  intros HR HD HP HQ. unfold task_end. rewrite assert_bind by (eapply oob_empty_ok; apply HR). rewrite update_bind.
  eexists. split; [done|]. split; [|by repeat split]. apply parked_end; [done|done| |tauto].
  split; [by exists false, false|]. destruct HP as (-> & -> & _). done.
Qed.

Lemma TaskCallback_ok fuel w lq lo :
  running w lq lo -> pausing w -> starts w -> (measure w lq lo < fuel)%nat ->
  exists w', TaskCallback fuel w = Ok (w', ()) /\ finished w' /\ starts w' /\
    received w `prefix_of` received w' /\ handled w `prefix_of` handled w'.
Proof.
  intros HR HZ HS HM. unfold TaskCallback. rewrite assert_bind by apply HR.
  destruct (task_pause_on_start_ok fuel w lq lo HR HM HZ) as (w1 & r1 & E1 & H1). step E1.
  destruct r1 as [st1|]; [|destruct H1 as [HK X]; exists w1; split; [done|]; split; [by right; right|];
    split; [by apply (starts_mild w)|split; apply X]].
  destruct H1 as (b & lq1 & lo1 & (HR1 & HP1 & X1 & HL1 & HZ1) & M1).
  destruct (task_resume_on_exit_ok fuel w1 st1 b lq1 lo1) as (w2 & r2 & E2 & H2); [done|lia|done..|]. step E2.
  destruct r2 as [st2|]; [|destruct H2 as [HK X]; exists w2; split; [done|]; split; [by right; right|];
    split; [by apply (starts_mild w1); [apply (starts_mild w)|]|split; (etrans; [apply X1|apply X])]].
  destruct H2 as (lq2 & lo2 & (HR2 & HP2 & X2 & HL2 & HZ2) & M2).
  destruct (task_handle_ok fuel w2 st2 lq2 lo2) as (w3 & st3 & lq3 & E3 & HR3 & HP3 & M3 & R3 & D3 & HQ3 & HZ3 & HS3);
    [done|lia|done|by apply (starts_mild w1); [apply (starts_mild w)|]|done|tauto|]. step E3.
  assert (R : received w `prefix_of` received w3) by (etrans; [apply X1|]; etrans; [apply X2|done]).
  assert (D : handled w `prefix_of` handled w3) by (etrans; [apply X1|]; etrans; [apply X2|done]).
  rewrite gets_bind. destruct (negb (bool_decide (st3 = kOK)) || negb (HasLivePorts w3)) eqn:EX.
  - destruct (task_pause_on_exit_ok fuel w3 st3 lq3) as (w4 & go & E4 & R4 & D4 & HS4 & H4); [done|lia|done|done|]. step E4.
    destruct go; cbn [negb].
    + destruct H4 as (lq4 & HR4 & HP4). destruct (task_leave_ok w4 lq4 HR4 HP4) as (w5 & E5 & HF & ER & EH & ES).
      exists w5. split; [done|]. split; [done|]. rewrite ES, ER, EH. split; [auto|]. split; by etrans.
    + exists w4. split; [done|]. split; [by right; right|]. split; [auto|]. split; by etrans.
  - apply orb_false_iff in EX as [EX1 EX2]. apply negb_false_iff, bool_decide_eq_true in EX1. apply negb_false_iff in EX2.
    destruct (task_end_parked w3 lq3 HR3) as (w4 & E4 & HK & ER & EH & ES); [|done|by apply HQ3|].
    + apply not_true_is_false. intros HD. destruct (wi_delete _ _ _ _ (rn_inv _ _ _ HR3) HD) as [HL _].
      unfold HasLivePorts in EX2. lia.
    + exists w4. split; [done|]. split; [right; right; by exists lq3|]. by rewrite ES, ER, EH.
Qed.

End handler.
