(* ===== verification/MessageHandlerSystem.v ===== *)
(** A message handler in the system: other threads post messages and close ports, the thread
    pool runs its task. No pending message is forgotten, every task returns, and what goes
    wrong when the start callback fails. *)
From stdpp Require Import base numbers list gmap relations.
From Stdlib Require Import ZArith Lia.
From S2P Require Import Prelude Utils MessageQueue MessageQueueSpec MessageHandlerState MessageHandler.
From S2P Require Import MessageHandlerProps MessageHandlerTask.
Local Open Scope Z_scope.
Local Open Scope handler_scope.

Section handler.
Context {Q : Type} `{QueueLaws Q}.
Implicit Type w : World Q.

(** Whether start callbacks may fail. *)
Context (failures : bool).

Local Notation parked := (parked (failures = true)).
Local Notation finished := (finished (failures = true)).
Local Notation starts := (starts (failures = true)).

Ltac step E := rewrite (handler_bind_ok _ _ _ _ _ E).

(** ** Steps *)

(** The calls that other threads make between and during tasks. *)
Definition external w (a : action) : Prop :=
  match a with
  | Post m before_events => before_events = true -> dest_port_ m = kIllegalPort
  | IncrementLivePorts => owned_by_port_map w = false \/ h delete_me_ w = false
  | DecrementLivePorts | PortClosed | CloseAll | SetShouldPauseOnExit _ | AcquireQueues _ => True
  | _ => False
  end.

(** None of these handles messages. *)
Definition no_handling : bool -> bool -> M Q MessageStatus := fun _ _ => fail UtilsFuel.

(** The fuel covers the pending messages and those that the script posts. *)
Definition enough (fuel : nat) w (s : list release) : Prop :=
  forall lq lo, queue_rep (h queue_ w) lq -> queue_rep (h oob_queue_ w) lo ->
  (length lq + length lo + credits s < fuel)%nat.

Inductive sys_step w : World Q -> Prop :=
  | SysCall a w' :
      deleted w = false -> external w a -> run_action no_handling a w = Ok (w', ()) -> sys_step w w'
  | SysRun start_callback end_callback ok w' :
      deleted w = false -> h pool_ w = false ->
      (start_callback = true -> start_status w = kOK \/ (failures = true /\ start_status w = kError)) -> (owned_by_port_map w = true -> end_callback = false) ->
      Run start_callback end_callback w = Ok (w', ok) -> sys_step w w'
  | SysTask s fuel w' :
      deleted w = false -> pool_tasks w <> 0%nat -> Forall (release_ok (owned_by_port_map w)) s ->
      enough fuel w s -> run_task fuel (with_script s w) = Ok (w', ()) -> sys_step w w'.

(** A new handler. *)
Record initial w : Prop := {
  in_handler : exists b1 b2, handler w = with_should_pause_on_start b1 (with_should_pause_on_exit b2 MessageHandler_new);
  in_address : 0 < next_address w;
  in_tasks : pool_tasks w = 0%nat;
  in_clock : 0 <= clock w;
  in_native : owned_by_port_map w = true -> has_isolate w = false;
  in_alive : deleted w = false;
  in_up : pool_shutting_down w = false;
  in_caps : held (resume_capabilities w) = [];
  in_received : received w = [];
  in_handled : handled w = [];
  in_script : script w = [];
}.

Definition reachable w : Prop := exists w0, initial w0 /\ rtc sys_step w0 w.

(** ** The invariant *)

(** A task was started that the pool has not run yet. *)
Record scheduled w lq lo : Prop := {
  sc_inv : winv w lq lo [];
  sc_running : h task_running_ w = true;
  sc_pool : h pool_ w = true;
  sc_tasks : pool_tasks w = 1%nat;
  sc_clock : 0 <= clock w;
  sc_native : owned_by_port_map w = true -> has_isolate w = false;
  sc_alive : deleted w = false;
  sc_up : pool_shutting_down w = false;
  sc_pausing : pausing w;
}.

Definition sys_ok w : Prop :=
  deleted w = true \/
  starts w /\ ((exists lq lo, scheduled w lq lo) \/ (exists lq, parked w lq) \/ (exists lq lo, detached w lq lo)).

Lemma initial_ok w : initial w -> sys_ok w.
Proof.
  intros [(b1 & b2 & Eh) HA HT HC HN HD HU HCp HRe HHa HS]. right. unfold starts, h. rewrite Eh. split; [done|].
  right; right. exists [], []. constructor; unfold h; rewrite ?Eh; try done.
  - constructor; unfold h; rewrite ?Eh; simpl; try done; try apply queue_new_rep.
    + by rewrite HRe, HHa.
    + by rewrite HCp.
    + by rewrite HS.
  - unfold paused_at, h. by rewrite Eh.
Qed.

Lemma ShouldPauseOnStart_calm w w' st : ext w w' -> calm w w' -> ShouldPauseOnStart st w' = ShouldPauseOnStart st w.
Proof. intros X (E & _). unfold ShouldPauseOnStart. by rewrite (e_isolate _ _ X), (e_runnable _ _ X), E. Qed.

Lemma pausing_calm w w' : ext w w' -> calm w w' -> pausing w -> pausing w'.
Proof.
  intros X K ((b1 & b2 & HP) & H1 & H2). split; [exists b1, b2; by apply (paused_at_ext w)|].
  rewrite (e_on_start _ _ X), (e_on_exit _ _ X), (ShouldPauseOnStart_calm _ _ _ X K). done.
Qed.

Lemma starts_ext w w' : starts w -> ext w w' -> starts w'.
Proof. intros HS X. by apply (starts_mild _ w), ext_mild. Qed.

(** A call other than a post. *)
Lemma external_ok w a lq lo :
  winv w lq lo [] -> external w a -> (forall m b, a <> Post m b) ->
  exists w' lq' lo', run_action no_handling a w = Ok (w', ()) /\ winv w' lq' lo' [] /\ ext w w' /\ calm w w' /\
    ((lq', lo') = (lq, lo) \/ (lq', lo') = ([], [])).
Proof.
  intros HI HE HN.
  assert (HQ : forall x, quiet x w lq lo -> (forall w', x w = Ok (w', ()) -> calm w w') ->
    exists w' lq' lo', x w = Ok (w', ()) /\ winv w' lq' lo' [] /\ ext w w' /\ calm w w' /\
      ((lq', lo') = (lq, lo) \/ (lq', lo') = ([], []))).
  { intros x (w' & E & HI' & X & _) HK. exists w', lq, lo. split_and!; try done; [by apply HK|by left]. }
  destruct a as [m b| |c|c| | | | |b|b|b]; cbn [run_action external] in *; try done; [by destruct (HN m b)|..].
  - apply HQ; [by apply live_ports_quiet|]. by intros w' [= <-].
  - apply HQ; [apply (live_ports_quiet w lq lo (-1)); [done|lia]|]. by intros w' [= <-].
  - apply HQ; [by apply PortClosed_quiet|]. unfold RequestDeletion, gets, when, assert_, update, modify, bind, ret.
    intros w'. destruct (negb (HasLivePorts w) && owned_by_port_map w) eqn:EC; [|by intros [= <-]].
    apply andb_true_iff in EC as [_ ->]. unfold calm, h. destruct (task_running_ (handler w)); by intros [= <-].
  - destruct (CloseAllPorts_ok w lq lo [] HI) as (w' & E & HI' & X & _ & HK). exists w', [], [].
    split_and!; try done. by right.
  - apply HQ; [apply quiet_update; [by apply winv_update; try apply HI|by constructor]|]. by intros w' [= <-].
  - apply HQ; [apply quiet_update; [by apply winv_update; try apply HI|by constructor]|]. by intros w' [= <-].
Qed.

(** ** Every step preserves it *)

Lemma scheduled_ext w w' lq lo lq' lo' :
  scheduled w lq lo -> ext w w' -> calm w w' -> winv w' lq' lo' [] -> scheduled w' lq' lo'.
Proof.
  intros [HI HR HP HT HC HN HA HU HZ] X K HI'. pose proof (pausing_calm _ _ X K HZ). destruct X.
  constructor; rewrite ?e_running, ?e_pool, ?e_tasks, ?e_clock, ?e_owned, ?e_isolate, ?e_deleted, ?e_down; done.
Qed.

Lemma parked_ext w w' lq lq' :
  parked w lq -> ext w w' -> calm w w' -> winv w' lq' [] [] -> lq' = lq \/ lq' = [] -> deleted w' = false -> parked w' lq'.
Proof.
  intros [HI HR HP HT HC HN HA HU HK HZ HD] X K HI' HL HA'. pose proof (pausing_calm _ _ X K HZ).
  destruct K as (_ & KP & KD). destruct X.
  constructor; rewrite ?e_running, ?e_pool, ?e_tasks, ?e_clock, ?e_owned, ?e_isolate, ?e_down, ?KD, ?e_on_start, ?e_on_exit; try done.
  unfold paused in *. rewrite KP. destruct HL as [-> | ->]; [done|by left].
Qed.

Lemma detached_ext w w' lq lo lq' lo' :
  detached w lq lo -> ext w w' -> calm w w' -> winv w' lq' lo' [] -> deleted w' = false -> detached w' lq' lo'.
Proof.
  intros [HI HR HP HT HC HN HA HU HK HZ] X (_ & _ & KD) HI' HA'. pose proof (paused_at_ext _ _ _ _ HZ X). destruct X.
  constructor; rewrite ?e_running, ?e_pool, ?e_tasks, ?e_clock, ?e_owned, ?e_isolate, ?e_down, ?KD; done.
Qed.

Lemma call_ok w a lq lo :
  starts w -> scheduled w lq lo \/ (lo = [] /\ parked w lq) \/ detached w lq lo -> external w a ->
  (forall m b, a <> Post m b) -> exists w', run_action no_handling a w = Ok (w', ()) /\ sys_ok w'.
Proof.
  intros HS HW HE HN.
  assert (HI : winv w lq lo []) by (destruct HW as [HW|[[-> HW]|HW]]; apply HW).
  destruct (external_ok w a lq lo HI HE HN) as (w' & lq' & lo' & E & HI' & X & K & HL). exists w'. split; [done|].
  destruct (deleted w') eqn:ED; [by left|]. right. split; [by apply (starts_ext w)|].
  destruct HW as [HW|[[-> HW]|HW]].
  - left. exists lq', lo'. by apply (scheduled_ext w w' lq lo).
  - right; left. exists lq'. destruct HL as [HL|HL]; injection HL as -> ->; (apply (parked_ext w w' lq); [done..|tauto|done]).
  - right; right. exists lq', lo'. by apply (detached_ext w w' lq lo).
Qed.

(** A message is posted to a handler that waits for messages: its task is started. *)
Lemma launch_ok w w' lq lq' lo' m b :
  parked w lq -> enqueue_message m b w = Ok (w', ()) -> winv w' lq' lo' [] ->
  ext w w' -> calm w w' -> deleted w' = deleted w ->
  exists w'', PostMessage m b w = Ok (w'', ()) /\ scheduled w'' lq' lo' /\ starts w'' = starts w'.
Proof.
  intros HK E HI' X K ED. pose proof (pausing_calm _ _ X K (pk_pausing _ _ _ HK)) as HZ.
  destruct HK as [HI HR HP HT HC HN HA HU HKd _ HD]. destruct K as (_ & _ & KD). specialize (KD HR).
  unfold PostMessage. step E. rewrite gets_bind. destruct X. unfold h in *.
  rewrite e_pool, e_running, HP, HR. cbn [andb negb when].
  rewrite assert_bind by (by rewrite KD, HKd). rewrite update_bind. unfold pool_run.
  eexists. split; [unfold bind, gets, modify, ret, assert_; simpl; rewrite e_down, HU; done|]. split; [|done].
  constructor; unfold h; simpl; rewrite ?e_clock, ?e_owned, ?e_isolate, ?e_tasks, ?e_down, ?e_pool, ?ED; try done.
  - destruct HI'. by constructor.
  - by rewrite HT.
Qed.

Lemma post_ok w m b lq lo :
  starts w -> scheduled w lq lo \/ (lo = [] /\ parked w lq) \/ detached w lq lo -> external w (Post m b) ->
  exists w', PostMessage m b w = Ok (w', ()) /\ sys_ok w'.
Proof.
  intros HS HW HE.
  assert (HI : winv w lq lo []) by (destruct HW as [HW|[[-> HW]|HW]]; apply HW).
  destruct (enqueue_message_ok w lq lo [] m b HI HE) as (w' & lq' & lo' & E & HI' & X & _ & _ & K & ED & _).
  assert (HS' : starts w') by (by apply (starts_ext w)).
  destruct HW as [HW|[[-> HW]|HW]].
  - exists w'. split; [apply PostMessage_busy; [done|apply (ext_busy w); [done|intros _; apply HW]]|].
    right. split; [done|]. left. exists lq', lo'. by apply (scheduled_ext w w' lq lo).
  - destruct (launch_ok w w' lq lq' lo' m b) as (w'' & E' & HSc & ES); [done..|].
    exists w''. split; [done|]. right. rewrite ES. split; [done|]. left. by exists lq', lo'.
  - exists w'. split; [apply PostMessage_busy; [done|apply (ext_busy w); [done|]]|].
    { intros HP. rewrite (dt_pool _ _ _ HW) in HP. done. }
    right. split; [done|]. right; right. exists lq', lo'. apply (detached_ext w w' lq lo); try done.
    rewrite ED. apply HW.
Qed.

Lemma sys_ok_cases w :
  sys_ok w -> deleted w = false ->
  starts w /\ exists lq lo, scheduled w lq lo \/ (lo = [] /\ parked w lq) \/ detached w lq lo.
Proof.
  intros [?|[HS HW]] HD; [congruence|]. split; [done|].
  destruct HW as [(lq & lo & HW)|[(lq & HW)|(lq & lo & HW)]]; [exists lq, lo; by left|exists lq, []; right; left; done|].
  exists lq, lo. by right; right.
Qed.

Lemma SysCall_ok w a :
  sys_ok w -> deleted w = false -> external w a -> exists w', run_action no_handling a w = Ok (w', ()) /\ sys_ok w'.
Proof.
  intros HO HD HE. destruct (sys_ok_cases w HO HD) as (HS & lq & lo & HW).
  destruct a as [m b| | | | | | | | | | ]; [by apply (post_ok w m b lq lo)|..]; by apply (call_ok w _ lq lo).
Qed.

Lemma SysRun_ok w sc ec :
  sys_ok w -> deleted w = false -> h pool_ w = false ->
  (sc = true -> start_status w = kOK \/ (failures = true /\ start_status w = kError)) ->
  (owned_by_port_map w = true -> ec = false) ->
  exists w', Run sc ec w = Ok (w', true) /\ sys_ok w'.
Proof.
  intros HO HD HP HSc HEc. destruct (sys_ok_cases w HO HD) as (_ & lq & lo & HW).
  assert (HW' : detached w lq lo).
  { destruct HW as [HW|[[_ HW]|HW]]; [pose proof (sc_pool _ _ _ HW)|pose proof (pk_pool _ _ _ HW)|done]; congruence. }
  destruct HW' as [HI HR _ HT HC HN HA HU HK HZ]. unfold Run. unfold h in *.
  rewrite assert_bind by (by rewrite HP). rewrite assert_bind by (by rewrite HK). rewrite update_bind.
  eexists. split; [unfold pool_run, bind, gets, modify, ret, when; simpl; rewrite HU; done|].
  right. split; [intros HSt; simpl; destruct (HSc HSt) as [-> |[-> ->]]; done|]. left. exists lq, lo. constructor; unfold h; simpl; try done.
  - destruct HI. constructor; try done.
  - by rewrite HT.
  - split; [by exists false, false|]. destruct HZ as (E1 & E2 & _). unfold h in *. simpl. by rewrite E1, E2.
Qed.

(** The pool runs the task, with any script. *)
Lemma SysTask_ok w s fuel :
  sys_ok w -> deleted w = false -> pool_tasks w <> 0%nat -> Forall (release_ok (owned_by_port_map w)) s ->
  enough fuel w s ->
  exists w', run_task fuel (with_script s w) = Ok (w', ()) /\
    MessageHandlerTask.finished (h start_callback_ w = true /\ start_status w = kError) w' /\ sys_ok w' /\
    received w `prefix_of` received w' /\ handled w `prefix_of` handled w'.
Proof.
  intros HO HD HT HSc HF. destruct (sys_ok_cases w HO HD) as (HS & lq & lo & HW).
  assert (HW' : scheduled w lq lo).
  { destruct HW as [HW|[[_ HW]|HW]]; [done|pose proof (pk_tasks _ _ _ HW)|pose proof (dt_tasks _ _ _ HW)]; congruence. }
  pose proof HW' as [HI HR HP HT' HC HN HA HU HZ]. unfold run_task. rewrite gets_bind. simpl. rewrite HT', modify_bind.
  set (w1 := with_pool_tasks 0 _).
  assert (HI1 : winv w1 lq lo []) by (destruct HI; by constructor).
  assert (HR1 : running w1 lq lo) by (by constructor).
  assert (HM : (measure w1 lq lo < fuel)%nat) by (apply (HF lq lo); apply HI).
  destruct (TaskCallback_ok _ fuel w1 lq lo HR1 HZ HS HM) as (w' & E & HFi & HS' & R & D).
  destruct (TaskCallback_ok (h start_callback_ w = true /\ start_status w = kError) fuel w1 lq lo HR1 HZ) as (w2 & E2 & HFi2 & _); [|done|].
  { intros HSt. split; [by apply HS|done]. }
  rewrite E in E2. injection E2 as <-. exists w'. split; [done|]. split; [done|]. split; [|done]. destruct HFi as [HX|[HX|HX]]; [by left|right; split; [done|]..]; tauto.
Qed.

Lemma sys_step_ok w w' : sys_ok w -> sys_step w w' -> sys_ok w'.
Proof.
  intros HO HS. destruct HS as [a w' HD HE E|sc ec ok w' HD HP HSc HEc E|s fuel w' HD HT HSc HF E].
  - destruct (SysCall_ok w a HO HD HE) as (w'' & E' & HO'). congruence.
  - destruct (SysRun_ok w sc ec HO HD HP HSc HEc) as (w'' & E' & HO'). congruence.
  - destruct (SysTask_ok w s fuel HO HD HT HSc HF) as (w'' & E' & _ & HO' & _). congruence.
Qed.

Lemma reachable_ok w : reachable w -> sys_ok w.
Proof.
  intros (w0 & HI & HS). apply initial_ok in HI. induction HS as [|w0 w1 w2 H1 _ IH]; [done|].
  by apply IH, (sys_step_ok w0).
Qed.

(** ** Properties *)

(** Something keeps the handler from handling normal messages. *)
Definition suspended w : bool := paused w || h is_paused_on_start_ w || h is_paused_on_exit_ w.

Definition queue_empty w : bool := queue_is_empty (h queue_ w).

Lemma queue_empty_ok w lq lo fl : winv w lq lo fl -> queue_empty w = true <-> lq = [].
Proof. intros HI. apply queue_is_empty_rep, HI. Qed.

Lemma finished_facts F w :
  MessageHandlerTask.finished F w ->
  deleted w = true \/ h pool_ w = false \/ (oob_empty w = true /\ (queue_empty w = true \/ suspended w = true \/ F)).
Proof.
  intros [HD|[(lq & lo & HW)|(lq & HW)]]; [by left|right; left; apply HW|]. right; right.
  pose proof (pk_inv _ _ _ HW) as HI. split; [by eapply oob_empty_ok|].
  destruct (pk_done _ _ _ HW) as [HL|HL]; [left; by apply (queue_empty_ok w lq [] [])|right].
  unfold suspended. destruct HL as [-> |[-> |[-> |?]]]; rewrite ?orb_true_r; tauto.
Qed.

(** All messages were handled when none is pending. *)
Lemma log_facts w lq lo :
  winv w lq lo [] -> cleared w = false ->
  exists pending, received w ≡ₚ handled w ++ pending /\
    (oob_empty w = true -> queue_empty w = true -> pending = []).
Proof.
  intros HI HC. exists (lq.*2 ++ lo.*2). split; [by apply (wi_log _ _ _ _ HI)|]. intros HE HQ.
  apply (queue_empty_ok w lq lo [] HI) in HQ. apply (queue_is_empty_rep _ lo (wi_oob _ _ _ _ HI)) in HE. by subst.
Qed.

(** C6: consider a handler in a pool that is not shutting down, whose start callbacks never ask
    for a shutdown and, unless [failures], never fail, and other threads that keep the
    conventions of [external] and [release_ok]: only control messages go before events, a
    handler being deleted gets no live ports, one owned by the port map no interrupts and no
    end callback, one that runs is not told to pause on start. In every state that posts, port
    changes, interrupts and tasks can reach, whatever the interleaving: whenever the handler
    is in the pool and has a pending message that it may handle, an urgent one or, unless it is
    paused, any other, its task is waiting in the pool, exactly once. For messages that are not
    urgent this needs that no start callback fails. As long as the queues have not been
    cleared, as closing all ports or a shutdown does, every message received was handled once or
    is pending. *)
Theorem handler_no_lost_wakeup w :
  reachable w -> deleted w = false ->
  (h pool_ w = true -> oob_empty w = false -> pool_tasks w = 1%nat) /\
  (h pool_ w = true -> queue_empty w = false -> suspended w = false -> failures = false -> pool_tasks w = 1%nat) /\
  (pool_tasks w <= 1)%nat /\
  (cleared w = false -> exists pending, received w ≡ₚ handled w ++ pending /\
     (oob_empty w = true -> queue_empty w = true -> pending = [])).
Proof.
  intros HR HD. destruct (sys_ok_cases w (reachable_ok w HR) HD) as (_ & lq & lo & [HW|[[-> HW]|HW]]).
  - rewrite (sc_tasks _ _ _ HW). split_and!; try done. apply (log_facts w lq lo), HW.
  - assert (HF : finished w) by (right; right; by exists lq).
    destruct (finished_facts _ w HF) as [?|[HP|[HE HN]]]; [congruence|rewrite (pk_pool _ _ _ HW) in HP; done|].
    rewrite (pk_tasks _ _ _ HW). split_and!; [congruence| |lia|apply (log_facts w lq []), HW].
    intros _ HQ HS HFl. destruct HN as [?|[?|?]]; congruence.
  - rewrite (dt_tasks _ _ _ HW), (dt_pool _ _ _ HW). split_and!; [done|done|lia|apply (log_facts w lq lo), HW].
Qed.

(** C5: under the same conditions (a pool that is not shutting down, start callbacks that do not ask
    for a shutdown, callers that keep their conventions), in every reachable state calls from
    other threads return without a failed assertion. When the pool runs the task of the
    handler, the task returns without a failed assertion, whatever calls are made while the
    monitor is released, having handled messages only in addition. Then the handler was
    deleted, has left the pool, or has no urgent message pending and no other one either,
    unless it is paused or the task ran a start callback that failed. *)
Theorem handler_progress w :
  reachable w -> deleted w = false ->
  (forall a, external w a -> exists w', run_action no_handling a w = Ok (w', ())) /\
  (forall s fuel, pool_tasks w <> 0%nat -> Forall (release_ok (owned_by_port_map w)) s -> enough fuel w s ->
   exists w', run_task fuel (with_script s w) = Ok (w', ()) /\ handled w `prefix_of` handled w' /\
     (deleted w' = true \/ h pool_ w' = false \/
      (oob_empty w' = true /\
       (queue_empty w' = true \/ suspended w' = true \/ (h start_callback_ w = true /\ start_status w = kError))))).
Proof.
  intros HR HD. pose proof (reachable_ok w HR) as HO. split.
  - intros a HE. destruct (SysCall_ok w a HO HD HE) as (w' & E & _). by exists w'.
  - intros s fuel HT HS HF. destruct (SysTask_ok w s fuel HO HD HT HS HF) as (w' & E & HFi & _ & _ & D).
    exists w'. split; [done|]. split; [done|]. by apply finished_facts.
Qed.

End handler.

(** ** Examples *)

Definition normal (p : Z) : Message := Message_raw p 0 kNormalPriority.
Definition urgent : Message := Message_raw 0 0 kOOBPriority.

(** A new handler whose start callback returns [st], where the isolate can be run. *)
Definition new_world (st : MessageStatus) : World MessageQueue :=
  mkWorld MessageHandler_new 1 0 false false true true false [] 0 st [] [] [] false false false.

Lemma new_world_initial st : initial (new_world st).
Proof. constructor; try done. by exists false, false. Qed.

(** What a program does, where it succeeds. *)
Definition after {A} (x : M MessageQueue A) (w : World MessageQueue) : World MessageQueue :=
  match x w with Ok (w', _) => w' | _ => w end.

(** The handler gets a live port, is run and receives a message. *)
Definition live (st : MessageStatus) : World MessageQueue :=
  after (run_action no_handling IncrementLivePorts) (new_world st).
Definition launched (st : MessageStatus) : World MessageQueue := after (Run true false) (live st).
Definition started (st : MessageStatus) : World MessageQueue :=
  after (run_action no_handling (Post (normal 7) false)) (launched st).

Lemma after_ok {A} (x : M MessageQueue A) w a :
  match x w with Ok (_, a') => a' = a | _ => False end -> x w = Ok (after x w, a).
Proof. unfold after. destruct (x w) as [[w' a']| |]; [by intros ->|done..]. Qed.

Lemma started_reachable : reachable false (started kOK).
Proof.
  exists (new_world kOK). split; [apply new_world_initial|].
  apply rtc_l with (live kOK).
  { apply (SysCall false _ IncrementLivePorts); [reflexivity|by left|]. apply after_ok. vm_compute. reflexivity. }
  apply rtc_l with (launched kOK).
  { apply (SysRun false _ true false true); [reflexivity|reflexivity|by left|reflexivity|].
    apply after_ok. vm_compute. reflexivity. }
  apply rtc_l with (started kOK); [|apply rtc_refl].
  apply (SysCall false _ (Post (normal 7) false)); [vm_compute; reflexivity|discriminate|].
  unfold started. refine (after_ok (run_action no_handling (Post (normal 7) false)) (launched kOK) () _).
  vm_compute. reflexivity.
Qed.

Lemma handler_no_lost_wakeup_witness :
  reachable false (started kOK) /\ queue_empty (started kOK) = false /\ pool_tasks (started kOK) = 1%nat.
Proof.
  split; [exact started_reachable|]. split; [vm_compute; reflexivity|].
  apply (handler_no_lost_wakeup false (started kOK)); [exact started_reachable|vm_compute; reflexivity..].
Defined.

(** The message is handled while an urgent one arrives, which pauses the handler. *)
Definition example_script : list release :=
  [mkRelease kOK false []; mkRelease kOK false [];
   mkRelease kOK false [Post urgent false; Post (normal 8) false]; mkRelease kOK false [Pause 1]].

Lemma example_enough : enough 10 (started kOK) example_script.
Proof.
  intros lq lo Rq Ro. pose proof (queue_rep_size _ _ Rq) as Eq. pose proof (queue_rep_size _ _ Ro) as Eo.
  rewrite <- Eq, <- Eo. vm_compute. lia.
Qed.

Lemma handler_progress_witness :
  exists w', run_task 10 (with_script example_script (started kOK)) = Ok (w', ()) /\
    handled (started kOK) `prefix_of` handled w' /\
    (deleted w' = true \/ h pool_ w' = false \/
     (oob_empty w' = true /\
      (queue_empty w' = true \/ suspended w' = true \/ (h start_callback_ (started kOK) = true /\ start_status (started kOK) = kError)))).
Proof.
  apply (handler_progress false (started kOK)).
  - exact started_reachable.
  - vm_compute. reflexivity.
  - vm_compute. discriminate.
  - repeat constructor; discriminate.
  - exact example_enough.
Defined.

(** What that task did. *)
Example example_run :
  let w' := after (run_task 10) (with_script example_script (started kOK)) in
  handled w' = [normal 7; urgent] /\ queue_empty w' = false /\ paused w' = true /\ pool_tasks w' = 0%nat.
Proof. vm_compute. done. Qed.

(** ** A start callback that fails *)

(** The status of the start callback is overwritten by that of the messages handled after
    it. When the callback fails while a message is pending and a port is live, the task
    returns with the handler still in the pool, the message pending and no task to handle it,
    although nothing is paused. *)
Example start_error_forgotten :
  exists w', run_task 10 (started kError) = Ok (w', ()) /\
    h pool_ w' = true /\ deleted w' = false /\ ended w' = false /\ handled w' = [] /\
    queue_empty w' = false /\ suspended w' = false /\ pool_tasks w' = 0%nat.
Proof. eexists. split_and!; vm_compute; reflexivity. Qed.

(** When the start callback asks for a shutdown, the urgent messages that arrived meanwhile
    are not handled: the assertion at the end of the task, that none is pending, fails. *)
Example start_shutdown_assertion :
  run_task 10 (with_script [mkRelease kOK false [Post urgent false]] (started kShutdown)) = Fatal UtilsAssertion.
Proof. vm_compute. reflexivity. Qed.
