(* ===== verification/PortMap.v ===== *)
(** [PortMap] of [runtime/vm/port.h] and [.cc]: the ports of the VM and the message handlers
    that own them.

    The operations of the handlers that the port map calls are a type class, which
    [MessageHandler] implements. A [MessageHandler*] is an integer, zero being null; the
    handlers and the sets of ports that they hold for the port map are looked up by it, and a
    handler that does not exist is [Undefined]. The mutex makes each method atomic. *)
From stdpp Require Import base numbers list gmap.
From Stdlib Require Import ZArith Lia.
From S2P Require Import Prelude Utils Random PortSet PortSetSpec MessageQueue MessageHandlerState MessageHandler.
Local Open Scope Z_scope.
Local Open Scope cxx_scope.

Abbreviation result := (outcome utils_error).

Inductive PortState := kNewPort | kLivePort | kControlPort | kInactivePort.

#[export] Instance PortState_eq_dec : EqDecision PortState.
Proof. solve_decision. Defined.

(** The fields of [PortMap::Entry] next to the port: the handler and the state. *)
Abbreviation PortFields := (Z * PortState)%type.
Definition blank_fields : PortFields := (0, kNewPort).

(** What the port map knows of an isolate. *)
Record Isolate := mkIsolate { isolate_id : Z; isolate_group : Z; origin_id : Z }.

Class HandlerOps (H : Type) := {
  ho_increment_live_ports : H -> result H;
  ho_decrement_live_ports : H -> result H;
  ho_HasLivePorts : H -> bool;
  ho_OwnedByPortMap : H -> bool;
  ho_PostMessage : H -> Message -> bool -> result H;
  ho_CloseAllPorts : H -> result H;
  ho_RequestDeletion : H -> result H;
  ho_isolate : H -> option Isolate;
}.

(** A program of a handler, run for its effect. *)
Definition effect {Q A} (x : M Q A) (w : World Q) : result (World Q) := '(w, _) ← x w; Ok w.

(** The handlers of the VM, with the isolates they belong to. *)
#[export] Instance MessageHandler_ops `{QueueOps Q} : HandlerOps (World Q * option Isolate) := {
  ho_increment_live_ports x := w ← effect increment_live_ports x.1; Ok (w, x.2);
  ho_decrement_live_ports x := w ← effect decrement_live_ports x.1; Ok (w, x.2);
  ho_HasLivePorts x := HasLivePorts x.1;
  ho_OwnedByPortMap x := owned_by_port_map x.1;
  ho_PostMessage x m before_events := w ← effect (PostMessage m before_events) x.1; Ok (w, x.2);
  ho_CloseAllPorts x := w ← effect CloseAllPorts x.1; Ok (w, x.2);
  ho_RequestDeletion x := w ← effect RequestDeletion x.1; Ok (w, x.2);
  ho_isolate x := x.2;
}.

Section port_map.
Context {H : Type} `{HandlerOps H}.

Record PortMap := mkPortMap {
  ports_ : option (PortSet PortFields);
  prng_ : Z;
  handlers : gmap Z H;
  handler_ports : gmap Z (PortSet ());
}.
Implicit Type s : PortMap.

Definition with_ports (m : PortSet PortFields) s : PortMap := mkPortMap (Some m) (prng_ s) (handlers s) (handler_ports s).
Definition with_handlers (hs : gmap Z H) s : PortMap := mkPortMap (ports_ s) (prng_ s) hs (handler_ports s).

(** [handler->...]. *)
Definition handler_at s (id : Z) : result H :=
  match handlers s !! id with Some x => Ok x | None => Undefined end.

Definition on_handler s (id : Z) (f : H -> result H) : result PortMap :=
  x ← handler_at s id; x ← f x; Ok (with_handlers (<[id := x]> (handlers s)) s).

(** [handler->ports_]. *)
Definition ports_at s (id : Z) : result (PortSet ()) :=
  match handler_ports s !! id with Some p => Ok p | None => Undefined end.

Definition with_handler_ports s (id : Z) (p : PortSet ()) : PortMap :=
  mkPortMap (ports_ s) (prng_ s) (handlers s) (<[id := p]> (handler_ports s)).

(** ** Allocating ports *)

Definition kMask1 : Z := 0xFFFFFFFFFFFFF.
Definition kMask2 : Z := 0x3.

(** [ObjectPtr::IsWellFormed]. *)
Definition IsWellFormed (value : Z) : bool := (value .& 1 =? 0) || ((value - 1) mod 8 =? 0).

(** The loop: [continue] goes on to its condition, so that a marker port is not in itself a
    reason for another iteration. *)
Fixpoint allocate_loop (fuel : nat) (m : PortSet PortFields) (state : Z) : result (Z * Z) :=
  match fuel with
  | O => Fatal UtilsFuel
  | S fuel =>
      let '(next, state) := Random.NextUInt64 state in
      let r := (next .& kMask1) .| kMask2 in
      _ ← (if (r =? kFreePort) || (r =? kDeletedPort) then Ok ()
           else utils_assert (negb (IsWellFormed r)));
      used ← Contains m r;
      if (used : bool) then allocate_loop fuel m state else Ok (r, state)
  end.

Definition AllocatePort (fuel : nat) (m : PortSet PortFields) (state : Z) : result (Z * Z) :=
  '(r, state) ← allocate_loop fuel m state;
  _ ← utils_assert (negb (r =? 0));
  used ← Contains m r;
  _ ← utils_assert (negb used);
  Ok (r, state).

Definition CreatePort (fuel : nat) s (handler : Z) : result (PortMap * Z) :=
  _ ← utils_assert (negb (handler =? 0));
  match ports_ s with
  | None => Ok (s, ILLEGAL_PORT)
  | Some m =>
      '(p, state) ← AllocatePort fuel m (prng_ s);
      hp ← ports_at s handler;
      hp ← Insert () hp (mkEntry p ());
      m ← Insert blank_fields m (mkEntry p (handler, kNewPort));
      Ok (mkPortMap (Some m) state (handlers s) (<[handler := hp]> (handler_ports s)), p)
  end.

(** ** States of ports *)

Definition SetPortState s (p : Z) (state : PortState) : result PortMap :=
  match ports_ s with
  | None => Ok s
  | Some m =>
      found ← lookup_entry m p;
      match found with
      | None => Fatal UtilsAssertion
      | Some (it, e) =>
          let '(handler, old_state) := fields e in
          m ← assign m it (mkEntry (port e) (handler, state));
          let s := with_ports m s in
          if bool_decide (state = kLivePort) then on_handler s handler ho_increment_live_ports
          else if bool_decide (state = kInactivePort) && bool_decide (old_state = kLivePort) then
            on_handler s handler ho_decrement_live_ports
          else Ok s
      end
  end.

(** ** Closing ports *)

(** [if (entry.state == kLivePort) handler->decrement_live_ports()]. *)
Definition drop_live s (fs : PortFields) : result PortMap :=
  if bool_decide (fs.2 = kLivePort) then on_handler s fs.1 ho_decrement_live_ports else Ok s.

Definition ClosePort s (p : Z) : result (PortMap * bool) :=
  match ports_ s with
  | None => Ok (s, false)
  | Some m =>
      found ← lookup_entry m p;
      match found with
      | None => Ok (s, false)
      | Some (it, e) =>
          let handler := (fields e).1 in
          _ ← utils_assert (negb (handler =? 0));
          s ← drop_live s (fields e);
          m ← Delete blank_fields m it;
          m ← Rebalance blank_fields m;
          hp ← ports_at s handler;
          isolate_it ← TryLookup hp p;
          at_end ← it_equal hp isolate_it (end_ hp);
          _ ← utils_assert (negb at_end);
          hp ← Delete () hp isolate_it;
          hp ← Rebalance () hp;
          let s := with_handler_ports (with_ports m s) handler hp in
          x ← handler_at s handler;
          s ← (if negb (ho_HasLivePorts x) && ho_OwnedByPortMap x
               then on_handler s handler ho_RequestDeletion else Ok s);
          Ok (s, true)
      end
  end.

(** The loop of [ClosePorts] over the ports of the handler. *)
Fixpoint close_loop (fuel : nat) s (handler : Z) (m : PortSet PortFields) (hp : PortSet ()) (isolate_it : Iterator)
    : result (PortMap * PortSet PortFields * PortSet ()) :=
  at_end ← it_equal hp isolate_it (end_ hp);
  if (at_end : bool) then Ok (s, m, hp)
  else
    match fuel with
    | O => Fatal UtilsFuel
    | S fuel =>
        he ← deref hp isolate_it;
        found ← lookup_entry m (port he);
        match found with
        | None => Fatal UtilsAssertion
        | Some (it, e) =>
            _ ← utils_assert (port e =? port he);
            _ ← utils_assert ((fields e).1 =? handler);
            s ← drop_live s (fields e);
            m ← Delete blank_fields m it;
            hp ← Delete () hp isolate_it;
            isolate_it ← advance hp isolate_it;
            close_loop fuel s handler m hp isolate_it
        end
    end.

Definition ClosePorts s (handler : Z) : result PortMap :=
  match ports_ s with
  | None => Ok s
  | Some m =>
      hp ← ports_at s handler;
      isolate_it ← begin hp;
      '(s, m, hp) ← close_loop (length (map_ hp)) s handler m hp isolate_it;
      _ ← utils_assert (PortSet.IsEmpty hp);
      m ← Rebalance blank_fields m;
      on_handler (with_handler_ports (with_ports m s) handler hp) handler ho_CloseAllPorts
  end.

(** ** Messages *)

Definition PostMessage s (m : Message) (before_events : bool) : result (PortMap * bool) :=
  match ports_ s with
  | None => Ok (s, false)
  | Some ports =>
      found ← lookup_entry ports (dest_port_ m);
      match found with
      | None => Ok (s, false)
      | Some (_, e) =>
          let handler := (fields e).1 in
          _ ← utils_assert (negb (handler =? 0));
          s ← on_handler s handler (fun x => ho_PostMessage x m before_events);
          Ok (s, true)
      end
  end.

(** ** Queries *)

(** The fields of the entry of a port. *)
Definition find_fields s (p : Z) : result (option PortFields) :=
  match ports_ s with
  | None => Ok None
  | Some m =>
      found ← lookup_entry m p;
      Ok match found with Some (_, e) => Some (fields e) | None => None end
  end.

(** [current] is [Isolate::Current()]. *)
Definition IsLocalPort s (current : option Z) (p : Z) : result bool :=
  found ← find_fields s p;
  match found with
  | None => Ok false
  | Some fs =>
      _ ← utils_assert (negb (fs.1 =? 0));
      x ← handler_at s fs.1;
      Ok match ho_isolate x with Some i => bool_decide (current = Some (isolate_id i)) | None => false end
  end.

Definition IsLivePort s (p : Z) : result bool :=
  found ← find_fields s p;
  Ok match found with
     | None => false
     | Some fs => bool_decide (fs.2 = kLivePort) || bool_decide (fs.2 = kControlPort)
     end.

Definition GetIsolate s (p : Z) : result (option Isolate) :=
  found ← find_fields s p;
  match found with None => Ok None | Some fs => x ← handler_at s fs.1; Ok (ho_isolate x) end.

Definition GetOriginId s (p : Z) : result Z :=
  found ← find_fields s p;
  match found with
  | None => Ok ILLEGAL_PORT
  | Some fs =>
      x ← handler_at s fs.1;
      Ok match ho_isolate x with None => ILLEGAL_PORT | Some i => origin_id i end
  end.

Definition IsReceiverInThisIsolateGroupOrClosed s (receiver group : Z) : result bool :=
  found ← find_fields s receiver;
  match found with
  | None => Ok true
  | Some fs =>
      x ← handler_at s fs.1;
      Ok match ho_isolate x with None => false | Some i => isolate_group i =? group end
  end.

(** ** Start and end *)

(** [seed] is the state of a new random number generator. *)
Definition Init s (seed : Z) : PortMap :=
  match ports_ s with
  | None => mkPortMap (Some (PortSet_new blank_fields)) seed (handlers s) (handler_ports s)
  | Some _ => s
  end.

(** The loop of [Cleanup], which deletes the handler of every port. *)
Fixpoint cleanup_loop (fuel : nat) s (m : PortSet PortFields) (it : Iterator) : result (PortMap * PortSet PortFields) :=
  at_end ← it_equal m it (end_ m);
  if (at_end : bool) then Ok (s, m)
  else
    match fuel with
    | O => Fatal UtilsFuel
    | S fuel =>
        e ← deref m it;
        _ ← utils_assert (negb ((fields e).1 =? 0));
        s ← drop_live s (fields e);
        _ ← handler_at s (fields e).1;
        let s := with_handlers (delete (fields e).1 (handlers s)) s in
        m ← Delete blank_fields m it;
        it ← advance m it;
        cleanup_loop fuel s m it
    end.

Definition Cleanup s : result PortMap :=
  match ports_ s with
  | None => Fatal UtilsAssertion
  | Some m =>
      it ← begin m;
      '(s, m) ← cleanup_loop (length (map_ m)) s m it;
      m ← Rebalance blank_fields m;
      Ok (mkPortMap None 0 (handlers s) (handler_ports s))
  end.

End port_map.

Arguments PortMap H : clear implicits.
