(* ===== verification/PortMapProps.v ===== *)
(** The invariant of the port map: its set of ports, the sets that the handlers hold and the
    counts of live ports agree. Every operation preserves it; and what goes wrong when the
    random numbers yield a marker, when a marker is looked up, and when a port is made live
    twice. *)
From stdpp Require Import base numbers list gmap sorting.
From Stdlib Require Import ZArith Lia.
From S2P Require Import Prelude Utils Random Circular PortSet PortSetProps PortSetSpec MessageQueue MessageQueueSpec MessageHandlerState MessageHandler MessageHandlerProps MessageHandlerTask MessageHandlerSystem PortMap.
From S2P Require Import MessageQueue MessageHandlerState MessageHandler PortMap.
Local Open Scope Z_scope.
Local Open Scope cxx_scope.

(** ** What a handler promises *)

(** Neither the owner nor the isolate of a handler changes. *)
Definition same_owner `{HandlerOps H} (x x' : H) : Prop :=
  ho_OwnedByPortMap x' = ho_OwnedByPortMap x /\ ho_isolate x' = ho_isolate x.

(** [hl_open] handlers have not been asked to delete themselves. *)
Class HandlerLaws (H : Type) `{HandlerOps H} := {
  hl_live : H -> Z;
  hl_open : H -> Prop;
  hl_HasLivePorts x : ho_HasLivePorts x = (0 <? hl_live x);
  hl_increment x : hl_open x ->
    exists x', ho_increment_live_ports x = Ok x' /\ hl_open x' /\ hl_live x' = hl_live x + 1 /\ same_owner x x';
  hl_decrement x : hl_open x ->
    exists x', ho_decrement_live_ports x = Ok x' /\ hl_open x' /\ hl_live x' = hl_live x - 1 /\ same_owner x x';
  hl_post x m : hl_open x ->
    exists x', ho_PostMessage x m false = Ok x' /\ hl_open x' /\ hl_live x' = hl_live x /\ same_owner x x';
  hl_close_all x : hl_open x ->
    exists x', ho_CloseAllPorts x = Ok x' /\ hl_open x' /\ hl_live x' = hl_live x /\ same_owner x x';
  hl_delete x : hl_open x -> ho_OwnedByPortMap x = true -> hl_live x <= 0 ->
    exists x', ho_RequestDeletion x = Ok x' /\ hl_live x' = hl_live x /\ same_owner x x';
}.

(** ** Ports of a handler *)

Abbreviation ports := (gmap Z PortFields).

Definition of_handler (id : Z) (kv : Z * PortFields) : Prop := kv.2.1 = id.
Definition is_live (id : Z) (kv : Z * PortFields) : Prop := kv.2 = (id, kLivePort).

#[export] Instance of_handler_dec id kv : Decision (of_handler id kv).
Proof. unfold of_handler. apply _. Defined.
#[export] Instance is_live_dec id kv : Decision (is_live id kv).
Proof. unfold is_live. apply _. Defined.

Definition ports_of (M : ports) (id : Z) : gmap Z () := (fun _ => ()) <$> base.filter (of_handler id) M.
Definition live_of (M : ports) (id : Z) : Z := Z.of_nat (size (base.filter (is_live id) M)).

Lemma ports_of_lookup M id p : ports_of M id !! p = Some () <-> exists st, M !! p = Some (id, st).
Proof.
  unfold ports_of. rewrite lookup_fmap_Some. setoid_rewrite map_lookup_filter_Some. unfold of_handler. simpl. split.
  - intros ([id' st] & _ & HM & HE). simpl in HE. subst. by exists st.
  - intros (st & HM). by exists (id, st).
Qed.

Lemma ports_of_ext M M' id :
  (forall p st, M !! p = Some (id, st) -> exists st', M' !! p = Some (id, st')) ->
  (forall p st, M' !! p = Some (id, st) -> exists st', M !! p = Some (id, st')) ->
  ports_of M id = ports_of M' id.
Proof.
  intros H1 H2. apply map_eq. intros p. destruct (ports_of M id !! p) as [[]|] eqn:E.
  - apply ports_of_lookup in E as (st & E). symmetry. apply ports_of_lookup. eauto.
  - destruct (ports_of M' id !! p) as [[]|] eqn:E'; [|done]. apply ports_of_lookup in E' as (st & E').
    destruct (H2 p st E') as (st' & E''). by rewrite (proj2 (ports_of_lookup M id p)) in E by eauto.
Qed.

Lemma ports_of_insert M p id st : ports_of (<[p := (id, st)]> M) id = <[p := ()]> (ports_of M id).
Proof.
  unfold ports_of. rewrite map_filter_insert_True by done. by rewrite fmap_insert.
Qed.

Lemma ports_of_delete M p id : ports_of (delete p M) id = delete p (ports_of M id).
Proof. unfold ports_of. by rewrite map_filter_delete, fmap_delete. Qed.

Lemma ports_of_insert_ne M p id id' st : id <> id' -> M !! p = None -> ports_of (<[p := (id, st)]> M) id' = ports_of M id'.
Proof.
  intros N HM. unfold ports_of. by rewrite map_filter_insert_False, delete_id by done.
Qed.

(** One port's contribution to a count. *)
Lemma filter_size (P : Z * PortFields -> Prop) `{!forall kv, Decision (P kv)} (M : ports) p :
  size (base.filter P M) =
    (size (base.filter P (delete p M)) +
     match M !! p with Some v => if decide (P (p, v)) then 1 else 0 | None => 0 end)%nat.
Proof.
  destruct (M !! p) as [v|] eqn:E; [|by rewrite delete_id, Nat.add_0_r].
  rewrite <- (insert_delete_id M p v E) at 1. case_decide as HP.
  - rewrite map_filter_insert_True, map_size_insert_None by (done || rewrite map_lookup_filter_None; left; by rewrite lookup_delete_eq).
    lia.
  - rewrite map_filter_insert_False by done. rewrite (delete_id (delete p M)) by (by rewrite lookup_delete_eq). lia.
Qed.

(** Whether a port is live for a handler. *)
Definition live1 (id : Z) (v : option PortFields) : Z := if bool_decide (v = Some (id, kLivePort)) then 1 else 0.

Lemma live_of_split M p id : live_of M id = live_of (delete p M) id + live1 id (M !! p).
Proof.
  unfold live_of, live1. rewrite (filter_size _ M p). destruct (M !! p) as [v|].
  - unfold is_live at 2. simpl. case_decide; case_bool_decide; simplify_eq; lia.
  - case_bool_decide; [done|]. lia.
Qed.

Lemma live_of_insert M p id v : live_of (<[p := v]> M) id = live_of M id - live1 id (M !! p) + live1 id (Some v).
Proof.
  rewrite (live_of_split (<[p := v]> M) p), (live_of_split M p), lookup_insert_eq, delete_insert_eq. lia.
Qed.

Lemma live_of_delete M p id : live_of (delete p M) id = live_of M id - live1 id (M !! p).
Proof. rewrite (live_of_split M p). lia. Qed.


Section port_map.
Context {H : Type} `{HandlerLaws H}.
Implicit Type s : PortMap H.
Implicit Type M : ports.

(** ** The invariant *)

Record pm_inv s M : Prop := {
  pi_ports : exists m, ports_ s = Some m /\ represents m M;
  pi_handler p id st : M !! p = Some (id, st) -> id <> 0 /\ is_Some (handlers s !! id);
  pi_known id : is_Some (handlers s !! id) -> is_Some (handler_ports s !! id);
  pi_sets id hp : handler_ports s !! id = Some hp -> represents hp (ports_of M id);
  pi_live id x : handlers s !! id = Some x -> hl_live x = live_of M id;
  pi_open id x p st : handlers s !! id = Some x -> M !! p = Some (id, st) -> hl_open x;
  pi_owned id x p p' st st' : handlers s !! id = Some x -> ho_OwnedByPortMap x = true ->
    M !! p = Some (id, st) -> M !! p' = Some (id, st') -> p = p';
}.

Lemma on_handler_ok s id x x' f :
  handlers s !! id = Some x -> f x = Ok x' ->
  on_handler s id f = Ok (with_handlers (<[id := x']> (handlers s)) s).
Proof. intros E F. unfold on_handler, handler_at. by rewrite E, Ok_bind, F, Ok_bind. Qed.

(** A handler changes, and the ports accordingly. *)
Lemma pm_handler s M M' m' id x x' :
  pm_inv s M -> handlers s !! id = Some x -> represents m' M' ->
  same_owner x x' -> hl_open x' \/ (forall p st, M' !! p <> Some (id, st)) ->
  hl_live x' = live_of M' id -> (forall id', id' <> id -> live_of M' id' = live_of M id') ->
  (forall id', ports_of M' id' = ports_of M id') ->
  pm_inv (with_handlers (<[id := x']> (handlers s)) (with_ports m' s)) M'.
Proof.
  intros [HP HH HK HS HL HO HW] Hx HR [EO _] HOp HLx HLe HPo.
  assert (HM : forall p id' st, M' !! p = Some (id', st) -> exists st', M !! p = Some (id', st')).
  { intros p id' st HM. apply ports_of_lookup. rewrite <- HPo. apply ports_of_lookup. eauto. }
  constructor; simpl.
  - by exists m'.
  - intros p id' st (st' & Hp)%HM. destruct (HH p id' st' Hp) as [N HI]. split; [done|].
    rewrite lookup_insert_is_Some. destruct (decide (id = id')); [by left|by right].
  - intros id'. rewrite lookup_insert_is_Some. intros [<-|[_ HI]]; apply HK; [by eexists|done].
  - intros id' hp Hhp. rewrite HPo. by apply HS.
  - intros id' y. rewrite lookup_insert_Some. intros [[<- <-]|[N Hy]]; [done|]. rewrite HLe by done. by apply HL.
  - intros id' y p st. rewrite lookup_insert_Some. intros [[<- <-]|[N Hy]] HMp.
    + destruct HOp as [?|HOp]; [done|]. by destruct (HOp p st).
    + destruct (HM p id' st HMp) as (st' & Hp). by apply (HO id' y p st').
  - intros id' y p p' st st'. rewrite lookup_insert_Some. intros [[<- <-]|[N Hy]] Ho P1 P2;
      destruct (HM _ _ _ P1) as (? & P1'), (HM _ _ _ P2) as (? & P2').
    + rewrite EO in Ho. by apply (HW id x p p' _ _ Hx Ho P1' P2').
    + by apply (HW id' y p p' _ _ Hy Ho P1' P2').
Qed.

(** ** [SetPortState] *)

(** The changes of state that callers make: a live port becomes inactive only. *)
Definition transition (old new : PortState) : Prop :=
  (new = kLivePort -> old <> kLivePort) /\ (old = kLivePort -> new = kInactivePort).

Lemma SetPortState_ok s M p id old new :
  pm_inv s M -> M !! p = Some (id, old) -> transition old new ->
  exists s', SetPortState s p new = Ok s' /\ pm_inv s' (<[p := (id, new)]> M).
Proof.
  intros HI Hp [HT1 HT2]. destruct (pi_ports _ _ HI) as (m & Em & HR). unfold SetPortState. rewrite Em.
  pose proof (rep_port m M p _ HR Hp) as [V0 V3].
  assert (VQ : valid_query p) by (split; [lia|done]).
  pose proof (lookup_entry_ok m M p HR VQ) as HF. rewrite Hp in HF.
  destruct HF as (i & -> & Hi & HV). rewrite Ok_bind. cbn [fields port].
  destruct (Modify_ok m M p (id, old) (id, new) i HR Hi HV) as (m' & -> & HR'). rewrite Ok_bind.
  destruct (pi_handler _ _ HI p id old Hp) as [N [x Hx]].
  pose proof (pi_open _ _ HI id x p old Hx Hp) as HO. pose proof (pi_live _ _ HI id x Hx) as HL.
  assert (HPo : forall id', ports_of (<[p := (id, new)]> M) id' = ports_of M id').
  { intros id'. apply ports_of_ext; intros q st.
    - rewrite lookup_insert_Some. intros [[<- [= <- <-]]|[_ Hq]]; eauto.
    - intros Hq. destruct (decide (p = q)) as [<-|]; [|rewrite lookup_insert_ne by done; eauto].
      rewrite lookup_insert_eq. rewrite Hp in Hq. injection Hq as -> ->. eauto. }
  assert (HLe : forall id', id' <> id -> live_of (<[p := (id, new)]> M) id' = live_of M id').
  { intros id' N'. rewrite live_of_insert, Hp. unfold live1. rewrite !bool_decide_false by congruence. lia. }
  assert (HLi : live_of (<[p := (id, new)]> M) id = live_of M id - live1 id (Some (id, old)) + live1 id (Some (id, new))).
  { by rewrite live_of_insert, Hp. }
  assert (HC : forall x', same_owner x x' -> hl_open x' -> hl_live x' = live_of (<[p := (id, new)]> M) id ->
    pm_inv (with_handlers (<[id := x']> (handlers s)) (with_ports m' s)) (<[p := (id, new)]> M)).
  { intros x' HS' HO' HL'. apply (pm_handler s M _ m' id x x'); try done. by left. }
  case_bool_decide as EN; [|case_bool_decide as EI; [case_bool_decide as EO|]]; cbn [andb].
  - destruct (hl_increment x HO) as (x' & E & HO' & HL' & HS').
    rewrite (on_handler_ok _ id x x') by done. eexists. split; [done|]. apply HC; try done.
    rewrite HLi. unfold live1. rewrite bool_decide_false, bool_decide_true by naive_solver. lia.
  - destruct (hl_decrement x HO) as (x' & E & HO' & HL' & HS').
    rewrite (on_handler_ok _ id x x') by done. eexists. split; [done|]. apply HC; try done.
    rewrite HLi. unfold live1. rewrite bool_decide_true, bool_decide_false by naive_solver. lia.
  - eexists. split; [done|]. replace (with_ports m' s) with (with_handlers (<[id := x]> (handlers s)) (with_ports m' s))
      by (unfold with_handlers, with_ports; simpl; by rewrite insert_id).
    apply HC; [done|done|]. rewrite HLi. unfold live1. rewrite !bool_decide_false by naive_solver. lia.
  - eexists. split; [done|]. replace (with_ports m' s) with (with_handlers (<[id := x]> (handlers s)) (with_ports m' s))
      by (unfold with_handlers, with_ports; simpl; by rewrite insert_id).
    apply HC; [done|done|]. rewrite HLi. unfold live1. rewrite !bool_decide_false by naive_solver. lia.
Qed.

(** ** [PostMessage] *)

Lemma PostMessage_ok s M m :
  pm_inv s M -> valid_query (dest_port_ m) ->
  match M !! dest_port_ m with
  | None => PostMessage s m false = Ok (s, false)
  | Some (id, _) => exists x x', handlers s !! id = Some x /\ ho_PostMessage x m false = Ok x' /\
      PostMessage s m false = Ok (with_handlers (<[id := x']> (handlers s)) s, true) /\
      pm_inv (with_handlers (<[id := x']> (handlers s)) s) M
  end.
Proof.
  intros HI HV. destruct (pi_ports _ _ HI) as (ps & Em & HR). unfold PostMessage. rewrite Em.
  pose proof (lookup_entry_ok ps M _ HR HV) as HF. destruct (M !! dest_port_ m) as [[id st]|] eqn:Hp.
  - destruct HF as (i & -> & Hi & _). rewrite Ok_bind. cbn [fields fst].
    destruct (pi_handler _ _ HI _ id st Hp) as [N [x Hx]]. pose proof (pi_open _ _ HI id x _ st Hx Hp) as HO.
    destruct (hl_post x m HO) as (x' & E & HO' & HL' & HS'). exists x, x'. split; [done|]. split; [done|].
    rewrite (proj2 (Z.eqb_neq id 0)) by done. cbn [negb utils_assert]. rewrite Ok_bind.
    rewrite (on_handler_ok s id x x') by done. rewrite Ok_bind. split; [done|].
    replace (with_handlers (<[id := x']> (handlers s)) s) with (with_handlers (<[id := x']> (handlers s)) (with_ports ps s))
      by (unfold with_handlers, with_ports; simpl; by rewrite Em).
    apply (pm_handler s M M ps id x x'); try done; [by left|]. rewrite HL'. by apply (pi_live _ _ HI).
  - by rewrite HF, Ok_bind.
Qed.

(** ** [ClosePort] *)

Lemma with_same_handler s id x : handlers s !! id = Some x -> with_handlers (<[id := x]> (handlers s)) s = s.
Proof. intros Hx. destruct s. unfold with_handlers. simpl in *. by rewrite insert_id. Qed.

Lemma drop_live_ok s id st x :
  handlers s !! id = Some x -> hl_open x ->
  exists x', drop_live s (id, st) = Ok (with_handlers (<[id := x']> (handlers s)) s) /\ hl_open x' /\
    hl_live x' = hl_live x - live1 id (Some (id, st)) /\ same_owner x x'.
Proof.
  intros Hx HO. unfold drop_live, live1. cbn [fst snd]. destruct (decide (st = kLivePort)) as [->|N].
  - rewrite !bool_decide_true by done. destruct (hl_decrement x HO) as (x' & E & HO' & HL' & HS').
    exists x'. rewrite (on_handler_ok s id x x') by done. done.
  - rewrite !bool_decide_false by congruence. exists x. rewrite with_same_handler by done.
    split_and!; try done. lia.
Qed.

(** A port is removed everywhere. *)
Lemma pm_remove s M p id st x x' m' hp' :
  pm_inv s M -> M !! p = Some (id, st) -> handlers s !! id = Some x ->
  represents m' (delete p M) -> represents hp' (ports_of (delete p M) id) ->
  same_owner x x' -> hl_open x' \/ (forall q st, delete p M !! q <> Some (id, st)) ->
  hl_live x' = live_of (delete p M) id ->
  pm_inv (mkPortMap (Some m') (prng_ s) (<[id := x']> (handlers s)) (<[id := hp']> (handler_ports s))) (delete p M).
Proof.
  intros [HP HH HK HS HL HO HW] Hp Hx HR HR' [EO _] HOp HLx.
  assert (HM : forall q id' st, delete p M !! q = Some (id', st) -> M !! q = Some (id', st)).
  { intros q id' st' Hq. by apply lookup_delete_Some in Hq as [_ Hq]. }
  constructor; simpl.
  - by exists m'.
  - intros q id' st' Hq%HM. destruct (HH q id' st' Hq) as [N HI]. split; [done|].
    rewrite lookup_insert_is_Some. destruct (decide (id = id')); [by left|by right].
  - intros id'. rewrite !lookup_insert_is_Some. intros [<-|[N HI]]; [by left|right; auto].
  - intros id' hp. rewrite lookup_insert_Some. intros [[<- <-]|[N Hhp]]; [done|].
    rewrite ports_of_delete, delete_id; [by apply HS|]. apply eq_None_not_Some. intros [[] Hq].
    apply ports_of_lookup in Hq as (st' & Hq). congruence.
  - intros id' y. rewrite lookup_insert_Some. intros [[<- <-]|[N Hy]]; [done|]. rewrite live_of_delete, Hp.
    unfold live1. rewrite bool_decide_false by congruence. rewrite (HL id' y Hy). lia.
  - intros id' y q st'. rewrite lookup_insert_Some. intros [[<- <-]|[N Hy]] Hq.
    + destruct HOp as [?|HOp]; [done|]. by destruct (HOp q st').
    + by apply (HO id' y q st' Hy), HM.
  - intros id' y q q' st1 st2. rewrite lookup_insert_Some. intros [[<- <-]|[N Hy]] Ho P1%HM P2%HM.
    + rewrite EO in Ho. by apply (HW id x q q' _ _ Hx Ho P1 P2).
    + by apply (HW id' y q q' _ _ Hy Ho P1 P2).
Qed.

Lemma ClosePort_ok s M p :
  pm_inv s M -> valid_query p ->
  match M !! p with
  | None => ClosePort s p = Ok (s, false)
  | Some _ => exists s', ClosePort s p = Ok (s', true) /\ pm_inv s' (delete p M)
  end.
Proof.
  intros HI HV. destruct (pi_ports _ _ HI) as (m & Em & HR). unfold ClosePort. rewrite Em.
  pose proof (lookup_entry_ok m M _ HR HV) as HF. destruct (M !! p) as [[id st]|] eqn:Hp; [|by rewrite HF, Ok_bind].
  destruct HF as (i & -> & Hi & HVa). rewrite Ok_bind. cbn [fields fst].
  destruct (pi_handler _ _ HI p id st Hp) as [N [x Hx]]. pose proof (pi_open _ _ HI id x p st Hx Hp) as HO.
  rewrite (proj2 (Z.eqb_neq id 0)) by done. cbn [negb utils_assert]. rewrite Ok_bind.
  destruct (drop_live_ok s id st x Hx HO) as (x' & -> & HO' & HL' & HS'). rewrite Ok_bind.
  destruct (Close_ok blank_fields m M p (id, st) i HR Hi HVa) as (m1 & m2 & -> & Em2 & HR2). rewrite Ok_bind, Em2, Ok_bind.
  destruct (pi_known _ _ HI id) as [hp Hhp]; [by eexists|]. pose proof (pi_sets _ _ HI id hp Hhp) as HRh.
  unfold ports_at. cbn [handler_ports with_handlers]. rewrite Hhp, Ok_bind.
  assert (Hin : ports_of M id !! p = Some ()) by (apply ports_of_lookup; eauto).
  destruct (rep_present hp _ p () HRh Hin) as (k & Hk & HVk). destruct (rep_stable _ _ HRh) as [HIh _].
  pose proof (TryLookup_present hp k _ HIh Hk HVk) as ET. cbn [port] in ET. rewrite ET, Ok_bind.
  rewrite it_equal_end by (apply HIh || by eapply lookup_lt_Some). rewrite Ok_bind. cbn [negb utils_assert]. rewrite Ok_bind.
  destruct (Close_ok () hp (ports_of M id) p () k HRh Hk HVk) as (h1 & h2 & -> & Eh2 & HRh2). rewrite Ok_bind, Eh2, Ok_bind.
  rewrite <- ports_of_delete in HRh2. unfold handler_at. cbn [handlers with_handler_ports with_ports with_handlers].
  rewrite lookup_insert_eq, Ok_bind.
  assert (HLd : hl_live x' = live_of (delete p M) id) by (rewrite HL', live_of_delete, Hp, (pi_live _ _ HI id x Hx); done).
  destruct (negb (ho_HasLivePorts x') && ho_OwnedByPortMap x') eqn:ED.
  - apply andb_true_iff in ED as [E1 E2]. rewrite hl_HasLivePorts in E1. apply negb_true_iff, Z.ltb_ge in E1.
    destruct (hl_delete x' HO' E2 E1) as (x'' & E'' & HL'' & HS'').
    rewrite (on_handler_ok _ id x' x'') by (done || by simpl; rewrite lookup_insert_eq). rewrite Ok_bind.
    eexists. split; [done|]. unfold with_handlers, with_handler_ports, with_ports. simpl. rewrite insert_insert_eq.
    apply (pm_remove s M p id st x x''); try done.
    + destruct HS' as [? ?], HS'' as [? ?]. split; congruence.
    + right. intros q st' [Nq Hq]%lookup_delete_Some. destruct HS' as [EO' _].
      destruct Nq. apply (pi_owned _ _ HI id x p q st st' Hx); [congruence|done..].
    + by rewrite HL''.
  - rewrite Ok_bind. eexists. split; [done|]. apply (pm_remove s M p id st x x'); try done. by left.
Qed.

End port_map.

Section port_map.
Context {H : Type} `{HandlerLaws H}.
Implicit Type s : PortMap H.
Implicit Type M : ports.

(** ** [ClosePorts] *)

(** The ports of other handlers. *)
Definition others (M : ports) (id : Z) : ports := base.filter (fun kv => ~ of_handler id kv) M.

Lemma others_lookup M id p v : others M id !! p = Some v <-> M !! p = Some v /\ v.1 <> id.
Proof. unfold others. by rewrite map_lookup_filter_Some. Qed.

Lemma others_delete M id p st : M !! p = Some (id, st) -> others (delete p M) id = others M id.
Proof.
  intros Hp. apply map_eq. intros q. apply option_eq. intros v. rewrite !others_lookup, lookup_delete_Some.
  split; [naive_solver|]. intros [Hq N]. split_and!; try done. intros ->. rewrite Hp in Hq. by simplify_eq.
Qed.

Lemma others_none M id : (forall p st, M !! p <> Some (id, st)) -> others M id = M.
Proof.
  intros HN. apply map_eq. intros q. apply option_eq. intros v. rewrite others_lookup.
  split; [by intros [? _]|]. intros Hq. split; [done|]. destruct v as [id' st]. simpl. intros ->. by destruct (HN q st).
Qed.

(** The state of the loop: the sets that it works on are those of the map. *)
Definition looking s (m : PortSet PortFields) (id : Z) (hp : PortSet ()) : PortMap H :=
  with_handler_ports (with_ports m s) id hp.

Lemma occupied_nil_take {A} (t : list (Entry A)) i :
  occupied t = occupied (drop i t) -> occupied (take i t) = [].
Proof.
  intros E. assert (E2 : occupied t = occupied (take i t) ++ occupied (drop i t))
    by (unfold occupied; by rewrite <- filter_app, take_drop).
  rewrite E in E2 at 1. apply (f_equal length) in E2. rewrite length_app in E2. apply length_zero_iff_nil. lia.
Qed.

Lemma occupied_tombstone {A} (blank : A) (t : list (Entry A)) i e :
  t !! i = Some e -> occupied t = occupied (drop i t) ->
  occupied (<[i := tombstone blank]> t) = occupied (drop (S i) (<[i := tombstone blank]> t)).
Proof.
  intros Hi EO. pose proof (occupied_nil_take t i EO) as EN. pose proof (lookup_lt_Some _ _ _ Hi) as Li.
  rewrite drop_insert_lt by lia. rewrite insert_take_drop by done. unfold occupied in *.
  rewrite filter_app, EN, filter_cons_False; [done|]. intros HV. by apply HV.
Qed.

Lemma close_loop_ok fuel : forall s M m hp id i x,
  pm_inv (looking s m id hp) M -> handlers s !! id = Some x -> hl_open x ->
  (i <= length (map_ hp))%nat -> contents hp = occupied (drop i (map_ hp)) ->
  ((i < length (map_ hp))%nat -> exists e, map_ hp !! i = Some e /\ ~ vacant e) ->
  (length (map_ hp) - i <= fuel)%nat ->
  exists s' m' hp' x', close_loop fuel s id m hp (Iterator_at hp (Z.of_nat i)) = Ok (s', m', hp') /\
    pm_inv (looking s' m' id hp') (others M id) /\ handlers s' !! id = Some x' /\ hl_open x' /\
    contents hp' = [] /\ prng_ s' = prng_ s.
Proof.
  induction fuel as [|fuel IH]; intros s M m hp id i x HI Hx HO Hi EO He HF;
    destruct (pi_ports _ _ HI) as (m0 & Em & HR); simpl in Em; injection Em as <-;
    (assert (HRh : represents hp (ports_of M id)) by (apply (pi_sets _ _ HI id); simpl; by rewrite lookup_insert_eq));
    destruct (rep_stable _ _ HRh) as [HIh _]; cbn [close_loop]; rewrite at_end_ok, Ok_bind by apply HIh;
    (destruct (Nat.eqb_spec i (length (map_ hp))) as [->|N];
      [exists s, m, hp, x; split; [done|]; rewrite drop_all in EO; split; [|done]; rewrite others_none; [done|];
       intros p st Hp; assert (Hq : mkEntry p () ∈ contents hp)
         by (apply (rep_lookup _ _ HRh), ports_of_lookup; eauto); rewrite EO in Hq; by apply elem_of_nil in Hq|]).
  - lia.
  - destruct He as ([p []] & He & HV); [lia|]. rewrite (deref_ok hp i (mkEntry p ())) by (done || apply HIh).
    rewrite Ok_bind. cbn [port].
    assert (Hin : mkEntry p () ∈ contents hp) by (apply elem_contents; eauto).
    apply (rep_lookup _ _ HRh), ports_of_lookup in Hin as (st & Hp).
    destruct (rep_port m M p _ HR Hp) as [V0 V3]. assert (VQ : valid_query p) by (split; [lia|done]).
    pose proof (lookup_entry_ok m M p HR VQ) as HFm. rewrite Hp in HFm. destruct HFm as (k & -> & Hk & HVk).
    rewrite Ok_bind. cbn [port fields fst]. rewrite !Z.eqb_refl. cbn [utils_assert]. rewrite !Ok_bind.
    destruct (drop_live_ok s id st x Hx HO) as (x' & -> & HO' & HL' & HS'). rewrite Ok_bind.
    destruct (Delete_represents blank_fields m M p (id, st) k HR Hk HVk) as (m' & -> & HR' & _). rewrite Ok_bind.
    destruct (Delete_represents () hp _ p () i HRh He HV) as (hp' & -> & HRh' & Et & Ed & Ec & _). rewrite Ok_bind.
    assert (HC' : capacity_ hp' = Z.of_nat (length (map_ hp'))) by (rewrite Ec, Et, length_insert; apply HIh).
    assert (EIt : Iterator_at hp (Z.of_nat i) = Iterator_at hp' (Z.of_nat i)) by (unfold Iterator_at; by rewrite Ed).
    rewrite EIt. pose proof (lookup_lt_Some _ _ _ He) as Li.
    destruct (advance_ok hp' i HC') as (j & -> & Hj & EJ & HEj); [by rewrite Et, length_insert|]. rewrite Ok_bind.
    rewrite <- ports_of_delete in HRh'.
    destruct (IH (with_handlers (<[id := x']> (handlers s)) s) (delete p M) m' hp' id j x')
      as (s' & m'' & hp'' & x'' & E & HI' & R); try done.
    + pose proof (pi_live _ _ HI id x Hx) as HL. unfold looking, with_handler_ports, with_ports, with_handlers in *.
      apply (pm_remove (looking s m id hp) M p id st x x' m' hp') in HI; try done; [|by left|].
      * unfold looking in HI. simpl in HI. by rewrite insert_insert_eq in HI.
      * by rewrite HL', live_of_delete, Hp, HL.
    + simpl. by rewrite lookup_insert_eq.
    + lia.
    + rewrite <- EJ. unfold contents in *. rewrite Et. by apply (occupied_tombstone () _ i (mkEntry p ())).
    + rewrite Et, length_insert in *. lia.
    + exists s', m'', hp'', x''. split; [done|]. by rewrite (others_delete M id p st Hp) in HI'.
Qed.

Lemma ClosePorts_ok s M id x :
  pm_inv s M -> handlers s !! id = Some x -> hl_open x ->
  exists s', ClosePorts s id = Ok s' /\ pm_inv s' (others M id).
Proof.
  intros HI Hx HO. destruct (pi_ports _ _ HI) as (m & Em & HR). unfold ClosePorts. rewrite Em.
  destruct (pi_known _ _ HI id) as [hp Hhp]; [by eexists|]. unfold ports_at. rewrite Hhp, Ok_bind.
  pose proof (pi_sets _ _ HI id hp Hhp) as HRh. destruct (rep_stable _ _ HRh) as [HIh _].
  destruct (begin_ok hp (inv_capacity _ HIh)) as (j & -> & Hj & EO & HE). rewrite Ok_bind.
  destruct (close_loop_ok (length (map_ hp)) s M m hp id j x) as (s' & m' & hp' & x' & -> & HI' & Hx' & HO' & EC & _);
    try done; [|lia|].
  { unfold looking, with_handler_ports, with_ports. destruct s. simpl in *. subst. by rewrite insert_id. }
  rewrite Ok_bind. destruct (pi_ports _ _ HI') as (m0 & Em0 & HR'). simpl in Em0. injection Em0 as <-.
  assert (HRh' : represents hp' (ports_of (others M id) id))
    by (apply (pi_sets _ _ HI' id); simpl; by rewrite lookup_insert_eq).
  destruct (rep_stable _ _ HRh') as [HIh' _]. assert (EE : PortSet.IsEmpty hp' = true)
    by (unfold PortSet.IsEmpty; by rewrite (inv_used _ HIh'), EC).
  rewrite EE. cbn [utils_assert]. rewrite Ok_bind. destruct (Rebalance_represents blank_fields m' _ HR') as (m'' & -> & HR''). rewrite Ok_bind.
  destruct (hl_close_all x' HO') as (x'' & E & HO'' & HL'' & HS''). rewrite (on_handler_ok _ id x' x'') by done.
  eexists. split; [done|]. apply (pm_handler _ _ (others M id) m'' id x' x'') in HI'; try done; [by left|].
  rewrite HL''. by apply (pi_live _ _ HI').
Qed.

(** ** [CreatePort] *)

Lemma port_map_contains_ok {A} (m : PortSet A) (N : gmap Z A) p :
  represents m N -> valid_port p -> Contains m p = Ok (bool_decide (is_Some (N !! p))).
Proof.
  intros HR [V0 V3]. destruct (rep_stable _ _ HR) as [HI _]. unfold Contains. destruct (N !! p) as [a|] eqn:E.
  - destruct (rep_present m N p a HR E) as (i & Hi & HV).
    pose proof (FindIndexOfPort_present m i _ (inv_table _ HI) (inv_capacity _ HI) Hi HV) as EF. cbn [port] in EF.
    rewrite EF, Ok_bind, (proj2 (Z.leb_le 0 _)) by lia. by rewrite bool_decide_true.
  - rewrite FindIndexOfPort_absent, Ok_bind, bool_decide_false; [done|by intros []|done|done|].
    intros i e. apply absent_lookup; [by apply (port_set_absent m N)|done..].
Qed.

(** The numbers that are tried: the two lowest bits are set, and all fit into 52 bits. *)
Lemma port_number next : 0 <= next ->
  0 < (next .& kMask1) .| kMask2 < 2 ^ 52 /\ ((next .& kMask1) .| kMask2) .& 3 = 3.
Proof.
  intros Hn. set (a := next .& kMask1). assert (Ha : is_u 52 a).
  { split; [apply Z.land_nonneg; by left|]. unfold a. change kMask1 with (Z.ones 52). rewrite Z.land_ones by lia.
    by apply Z.mod_pos_bound. }
  assert (HL : 0 <= a .| kMask2) by (apply Z.lor_nonneg; split; [apply Ha|done]).
  split.
  - assert (Z.testbit (a .| kMask2) 0 = true) as HB by (rewrite Z.lor_spec; apply orb_true_r).
    assert (a .| kMask2 <> 0) by (intros E; rewrite E in HB; done).
    split; [lia|]. replace (a .| kMask2) with (wrapu 52 (a .| kMask2)); [apply wrapu_range; lia|].
    apply Z.bits_inj'. intros k Hk. rewrite testbit_wrapu by lia. destruct (Z.ltb_spec k 52) as [L|L]; [done|].
    rewrite Z.lor_spec, (testbit_high 52 a), (testbit_high 52 kMask2) by (done || lia). done.
  - apply Z.bits_inj'. intros k Hk. rewrite Z.land_spec, Z.lor_spec. change kMask2 with 3.
    destruct (Z.testbit 3 k); by rewrite ?orb_true_r, ?andb_false_r.
Qed.

Lemma NextUInt64_nonneg st : 0 <= (Random.NextUInt64 st).1.
Proof.
  unfold Random.NextUInt64, Random.NextUInt32. simpl. apply Z.lor_nonneg. split; [apply Z.shiftl_nonneg|];
    apply Z.land_nonneg; by right.
Qed.

Lemma allocate_loop_ok fuel m M : forall state p state',
  represents m M -> allocate_loop fuel m state = Ok (p, state') -> p <> kDeletedPort ->
  valid_port p /\ p < 2 ^ 52 /\ M !! p = None /\ Contains m p = Ok false.
Proof.
  induction fuel as [|fuel IH]; intros state p state' HR E HN; [done|]. cbn [allocate_loop] in E.
  destruct (Random.NextUInt64 state) as [next state1] eqn:EN. pose proof (NextUInt64_nonneg state) as Hn.
  rewrite EN in Hn. destruct (port_number next Hn) as [Hr _]. set (r := (next .& kMask1) .| kMask2) in *.
  match type of E with mbind _ ?c = _ => destruct c as [[]| |]; [|done..] end. rewrite Ok_bind in E.
  destruct (Contains m r) as [[]| |] eqn:EC; [by apply (IH state1 p state')| |done..].
  injection E as -> ->. assert (HV : valid_port p) by (split; [lia|done]).
  pose proof (port_map_contains_ok m M p HR HV) as HC. rewrite EC in HC. injection HC as HC. split_and!; try done; [lia|].
  symmetry in HC. apply bool_decide_eq_false in HC. by apply eq_None_not_Some.
Qed.

Lemma pm_create s M m id x p hp m' hp' state :
  pm_inv s M -> ports_ s = Some m -> id <> 0 -> handlers s !! id = Some x -> hl_open x ->
  (ho_OwnedByPortMap x = true -> forall q st, M !! q <> Some (id, st)) -> M !! p = None ->
  handler_ports s !! id = Some hp ->
  represents m' (<[p := (id, kNewPort)]> M) -> represents hp' (<[p := ()]> (ports_of M id)) ->
  pm_inv (mkPortMap (Some m') state (handlers s) (<[id := hp']> (handler_ports s))) (<[p := (id, kNewPort)]> M).
Proof.
  intros [HP HH HK HS HL HO HW] Em N Hx HOx HOw Hp Hhp HR HR'. constructor; simpl.
  - by exists m'.
  - intros q id' st. rewrite lookup_insert_Some. intros [[<- [= <- <-]]|[_ Hq]]; [by split; [|eexists]|by apply (HH q id' st)].
  - intros id' HI. rewrite lookup_insert_is_Some. destruct (decide (id = id')); [by left|right; auto].
  - intros id' hp0. rewrite lookup_insert_Some. intros [[<- <-]|[N' Hhp0]]; [by rewrite ports_of_insert|].
    rewrite ports_of_insert_ne by done. by apply HS.
  - intros id' y Hy. rewrite live_of_insert, Hp. unfold live1. rewrite !bool_decide_false by congruence.
    rewrite (HL id' y Hy). lia.
  - intros id' y q st Hy. rewrite lookup_insert_Some. intros [[<- [= <- <-]]|[_ Hq]]; [congruence|by apply (HO id' y q st)].
  - intros id' y q q' st st' Hy Ho. rewrite !lookup_insert_Some.
    intros [[<- [= <- <-]]|[_ Hq]] [[<- E]|[_ Hq']]; try done.
    + replace y with x in Ho by congruence. by destruct (HOw Ho q' st').
    + injection E as -> <-. replace y with x in Ho by congruence. by destruct (HOw Ho q st).
    + by apply (HW id' y q q' st st').
Qed.

Lemma CreatePort_ok fuel s M m id x p state :
  pm_inv s M -> ports_ s = Some m -> id <> 0 -> handlers s !! id = Some x -> hl_open x ->
  (ho_OwnedByPortMap x = true -> forall q st, M !! q <> Some (id, st)) ->
  allocate_loop fuel m (prng_ s) = Ok (p, state) -> p <> kDeletedPort ->
  exists s', CreatePort fuel s id = Ok (s', p) /\ pm_inv s' (<[p := (id, kNewPort)]> M) /\
    M !! p = None /\ valid_port p /\ p < 2 ^ 52.
Proof.
  intros HI Em N Hx HO HW EA HN. destruct (pi_ports _ _ HI) as (m0 & Em0 & HR). replace m0 with m in HR by congruence.
  destruct (allocate_loop_ok fuel m M _ _ _ HR EA HN) as (HV & HB & Hp & EC). unfold CreatePort, AllocatePort.
  rewrite (proj2 (Z.eqb_neq id 0)) by done. cbn [negb utils_assert]. rewrite Ok_bind, Em, EA, Ok_bind.
  rewrite (proj2 (Z.eqb_neq p 0)) by (destruct HV; lia). cbn [negb utils_assert]. rewrite Ok_bind, EC, Ok_bind.
  cbn [negb utils_assert]. rewrite !Ok_bind. destruct (pi_known _ _ HI id) as [hp Hhp]; [by eexists|].
  unfold ports_at. rewrite Hhp, Ok_bind. pose proof (pi_sets _ _ HI id hp Hhp) as HRh.
  destruct (Put_ok () hp _ p () HRh HV) as (hp' & -> & HRh').
  { apply eq_None_not_Some. intros [[] Hq]. apply ports_of_lookup in Hq as (st & Hq). congruence. }
  rewrite Ok_bind. destruct (Put_ok blank_fields m M p (id, kNewPort) HR HV Hp) as (m' & -> & HR').
  rewrite Ok_bind. eexists. split; [done|]. split; [|done]. by apply (pm_create s M m id x p hp).
Qed.

End port_map.

(** ** The handlers of the VM *)

Section handlers.
Context {Q : Type} `{QueueLaws Q}.
Implicit Type w : World Q.

Definition open_world w : Prop := sys_ok true w /\ deleted w = false /\ h delete_me_ w = false.

(** What a call from the port map leaves as it is. *)
Definition calls_kept w w' : Prop :=
  deleted w' = deleted w /\ h delete_me_ w' = h delete_me_ w /\ h live_ports_ w' = h live_ports_ w /\
  owned_by_port_map w' = owned_by_port_map w.

Lemma enqueue_kept m b w w' : enqueue_message m b w = Ok (w', ()) -> calls_kept w w'.
Proof.
  unfold enqueue_message, lift, gets, modify, update, bind. simpl.
  destruct (IsOOB m); destruct (queue_enqueue _ _ _ _); intros [= <-]; done.
Qed.

Lemma post_kept m b w w' : MessageHandler.PostMessage m b w = Ok (w', ()) -> calls_kept w w'.
Proof.
  unfold MessageHandler.PostMessage. unfold bind at 1.
  destruct (enqueue_message m b w) as [[w1 []]| |] eqn:E; [|done..]. apply enqueue_kept in E as (K1 & K2 & K3 & K4).
  unfold gets, when, assert_, update, modify, pool_run, bind, ret, calls_kept, h in *. simpl.
  destruct (_ && _); [|intros [= <-]; done]. destruct (negb (delete_me_ (handler w1))); [|done].
  destruct (pool_shutting_down w1); simpl; [done|]. intros [= <-]. simpl. done.
Qed.

Lemma close_all_kept w w' : CloseAllPorts w = Ok (w', ()) -> calls_kept w w'.
Proof.
  unfold CloseAllPorts, ClearOOBQueue, lift, gets, modify, update, bind. simpl.
  destruct (queue_clear _) as [q| |]; [|done..]. simpl. destruct (queue_clear _) as [q'| |]; [|done..].
  intros [= <-]. done.
Qed.

Lemma open_call w a w' :
  open_world w -> external w a -> run_action no_handling a w = Ok (w', ()) ->
  deleted w' = deleted w -> h delete_me_ w' = h delete_me_ w -> open_world w'.
Proof.
  intros (HO & HD & HM) HE E ED EM. destruct (SysCall_ok true w a HO HD HE) as (w'' & E' & HO').
  split; [congruence|]. rewrite ED, EM. done.
Qed.

#[export] Instance MessageHandler_laws : HandlerLaws (World Q * option Isolate).
Proof.
  refine {| hl_live x := h live_ports_ x.1; hl_open x := open_world x.1 |}.
  - done.
  - intros [w i] HO. eexists (_, i). split; [done|]. split; [|done].
    eapply (open_call w IncrementLivePorts); try done. right. apply HO.
  - intros [w i] HO. eexists (_, i). split; [done|]. split; [|done]. by eapply (open_call w DecrementLivePorts).
  - intros [w i] m HO. pose proof HO as (HS & HD & HM). simpl in *.
    destruct (SysCall_ok true w (Post m false) HS HD) as (w' & E & _); [done|].
    destruct (post_kept m false w w' E) as (K1 & K2 & K3 & K4).
    exists (w', i). unfold effect. change (MessageHandler.PostMessage m false w = Ok (w', ())) in E.
    rewrite E, !Ok_bind. split; [done|]. split; [by apply (open_call w (Post m false))|]. done.
  - intros [w i] HO. pose proof HO as (HS & HD & HM). simpl in *.
    destruct (SysCall_ok true w CloseAll HS HD) as (w' & E & _); [done|].
    destruct (close_all_kept w w' E) as (K1 & K2 & K3 & K4).
    exists (w', i). unfold effect. simpl in E. rewrite E, !Ok_bind. split; [done|].
    split; [by apply (open_call w CloseAll)|]. done.
  - intros [w i] HO HW HL. simpl in *. unfold effect, RequestDeletion, assert_, gets, update, modify, bind. rewrite HW.
    destruct (h task_running_ w); (eexists (_, i); split; [rewrite !Ok_bind; done|done]).
Defined.

End handlers.

(** ** Properties *)


(** A map without ports and with one handler, number 1, of an isolate. *)
Definition example_isolate : Isolate := mkIsolate 5 6 7.

Definition example_map (seed : Z) : PortMap (World MessageQueue * option Isolate) :=
  Init (mkPortMap None 0 {[ 1 := (new_world kOK, Some example_isolate) ]} {[ 1 := PortSet_new () ]}) seed.

Lemma ports_of_empty id : ports_of ∅ id = ∅.
Proof. unfold ports_of. by rewrite map_filter_empty, fmap_empty. Qed.

Lemma example_map_inv seed : pm_inv (example_map seed) ∅.
Proof.
  constructor; simpl.
  - exists (PortSet_new blank_fields). split; [done|apply represents_new].
  - intros p id st. by rewrite lookup_empty.
  - intros id [x [<- _]%lookup_singleton_Some]. rewrite lookup_singleton_eq. by eexists.
  - intros id hp [<- <-]%lookup_singleton_Some. rewrite ports_of_empty. apply represents_new.
  - intros id x [<- <-]%lookup_singleton_Some. done.
  - intros id x p st _. by rewrite lookup_empty.
  - intros id x p p' st st' _ _. by rewrite lookup_empty.
Qed.

Definition example_port : Z := 2761533440860979.


(** ** The port of the marker *)

(** A state of the generator after which it returns the marker of deleted entries. *)
Definition marker_seed : Z := 10237007586057522487.

(** The test for the marker ports has no effect. [continue] in a [do] loop goes on to the
    condition, and the marker, which no entry of an empty set has, ends the loop: [AllocatePort] returns
    [kDeletedPort]. *)
Theorem AllocatePort_returns_marker :
  exists state, AllocatePort 1 (PortSet_new blank_fields) marker_seed = Ok (kDeletedPort, state).
Proof. eexists. vm_compute. reflexivity. Qed.

(** The port that [AllocatePort] returns then is lost: the set does not count the entry as
    used by a port, and it is not found by iterating over the set. *)
Example marker_port_lost :
  exists s m, CreatePort 1 (example_map marker_seed) 1 = Ok (s, kDeletedPort) /\ ports_ s = Some m /\
    PortSet.IsEmpty m = false /\ (it ← begin m; it_equal m it (end_ m)) = Ok true.
Proof.
  eexists _, _. split; [vm_compute; reflexivity|]. split; [reflexivity|]. split; vm_compute; reflexivity.
Qed.

(** Closing the port with the number of the marker, which a program can name, while a
    deleted entry is in the set finds that entry, whose handler is null, and fails the
    assertion; without an assertion it calls the null handler. *)
Theorem ClosePort_of_marker :
  ('(s, p) ← CreatePort 1 (example_map 12345) 1;
   '(s, _) ← CreatePort 1 s 1;
   '(s, _) ← ClosePort s p;
   ClosePort s kDeletedPort) = Fatal UtilsAssertion.
Proof. vm_compute. reflexivity. Qed.
