(* ===== verification/PriorityQueue.v ===== *)
(** [PriorityQueue] of [runtime/platform/priority_queue.h]: a binary min-heap in an array,
    with a [SimpleHashMap] from values to their offsets in the array.

    Priorities are 64-bit integers and values pointer-sized words, as in the VM's uses; the
    value 0 is [NULL], which the map does not accept as a key.  Offsets are natural numbers.
    Entries of the array past [size_] are not initialized: they are [Entry_garbage], and
    [min_heap_[i]] is [Undefined] past the end of the array.  Failure of [malloc] is not
    modelled. *)
From stdpp Require Import base numbers list gmap.
From Stdlib Require Import ZArith Lia.
From S2P Require Import Prelude Utils HashMap.
Local Open Scope Z_scope.
Local Open Scope cxx_scope.

(** ** The map the queue uses *)

(** What the queue asks of a map from non-[NULL] words to words: [FindMapEntry] (the value
    found), [SetMapEntry], the removal of an entry and the number of entries. *)
Class PointerMap (M : Type) := {
  pm_find : M -> Z -> hash_result (option Z);
  pm_set : M -> Z -> Z -> hash_result M;
  pm_remove : M -> Z -> hash_result M;
  pm_size : M -> Z;
}.

(** The hash of a key is its low word. *)
Definition HashKey (key : Z) : Z := wrapu 32 key.

Definition FindMapEntry (m : SimpleHashMap) (key : Z) : hash_result (option Z) :=
  '(m, r) ← Lookup SamePointerValue m key (HashKey key) false;
  match r with
  | None => Ok None
  | Some p => e ← entry_at m p; Ok (Some (HashMap.value e))
  end.

Definition SetMapEntry (m : SimpleHashMap) (key value : Z) : hash_result SimpleHashMap :=
  '(m, r) ← Lookup SamePointerValue m key (HashKey key) true;
  match r with
  | None => Undefined
  | Some p => e ← entry_at m p; Ok (with_entry m p (mkEntry (HashMap.key e) value (hash e)))
  end.

#[export] Instance SimpleHashMap_PointerMap : PointerMap SimpleHashMap := {
  pm_find := FindMapEntry;
  pm_set := SetMapEntry;
  pm_remove m key := Remove SamePointerValue m key (HashKey key);
  pm_size := occupancy_;
}.

(** ** The queue *)

Record PQEntry := mkPQ { priority : Z; value : Z }.

Definition Entry_garbage : PQEntry := mkPQ 0 0.

Definition kMinimumSize : Z := 16.

Section queue.
Context {M : Type} `{!PointerMap M}.

Record PriorityQueue := mkQueue {
  min_heap_ : list PQEntry;
  min_heap_size_ : Z;
  size_ : nat;
  hashmap_ : M;
}.

Definition heap_at (q : PriorityQueue) (i : nat) : hash_result PQEntry :=
  match min_heap_ q !! i with Some e => Ok e | None => Undefined end.

Definition set_heap (q : PriorityQueue) (i : nat) (e : PQEntry) : hash_result PriorityQueue :=
  match min_heap_ q !! i with
  | Some _ => Ok (mkQueue (<[i := e]> (min_heap_ q)) (min_heap_size_ q) (size_ q) (hashmap_ q))
  | None => Undefined
  end.

Definition set_size (q : PriorityQueue) (n : nat) : PriorityQueue :=
  mkQueue (min_heap_ q) (min_heap_size_ q) n (hashmap_ q).

Definition set_map (q : PriorityQueue) (key value : Z) : hash_result PriorityQueue :=
  m ← pm_set (hashmap_ q) key value;
  Ok (mkQueue (min_heap_ q) (min_heap_size_ q) (size_ q) m).

Definition RemoveMapEntry (q : PriorityQueue) (key : Z) : hash_result PriorityQueue :=
  r ← pm_find (hashmap_ q) key;
  _ ← hash_assert (match r with Some _ => true | None => false end);
  m ← pm_remove (hashmap_ q) key;
  Ok (mkQueue (min_heap_ q) (min_heap_size_ q) (size_ q) m).

(** [PriorityQueue()], on an empty map. *)
Definition PriorityQueue_new (hashmap : M) : PriorityQueue :=
  mkQueue (replicate (Z.to_nat kMinimumSize) Entry_garbage) kMinimumSize 0 hashmap.

Definition IsEmpty (q : PriorityQueue) : bool := (size_ q =? 0)%nat.

Definition ContainsValue (q : PriorityQueue) (v : Z) : hash_result bool :=
  r ← pm_find (hashmap_ q) v; Ok (match r with Some _ => true | None => false end).

(** [realloc] keeps the entries that fit. *)
Definition PQ_Resize (q : PriorityQueue) (new_min_heap_size : Z) : hash_result PriorityQueue :=
  _ ← hash_assert (Z.of_nat (size_ q) <? new_min_heap_size);
  _ ← hash_assert (negb (new_min_heap_size =? min_heap_size_ q));
  Ok (mkQueue (resize (Z.to_nat new_min_heap_size) Entry_garbage (min_heap_ q))
        new_min_heap_size (size_ q) (hashmap_ q)).

Definition PQ_Set (q : PriorityQueue) (offset1 : nat) (entry : PQEntry) : hash_result PriorityQueue :=
  q ← set_heap q offset1 entry;
  set_map q (value entry) (Z.of_nat offset1).

Definition Swap (q : PriorityQueue) (offset1 offset2 : nat) : hash_result PriorityQueue :=
  temp ← heap_at q offset1;
  other ← heap_at q offset2;
  q ← set_heap q offset1 other;
  q ← set_heap q offset2 temp;
  e1 ← heap_at q offset1;
  q ← set_map q (value e1) (Z.of_nat offset1);
  e2 ← heap_at q offset2;
  set_map q (value e2) (Z.of_nat offset2).

Definition Replace (q : PriorityQueue) (index with_other : nat) : hash_result PriorityQueue :=
  old ← heap_at q index;
  q ← RemoveMapEntry q (value old);
  entry ← heap_at q with_other;
  q ← set_map q (value entry) (Z.of_nat index);
  set_heap q index entry.

(** The loop of [BubbleUp]; [offset] goes to its parent each time. *)
Fixpoint bubble_up (fuel : nat) (q : PriorityQueue) (offset : nat) : hash_result PriorityQueue :=
  if (offset =? 0)%nat then Ok q
  else
    match fuel with
    | O => Fatal Diverges
    | S fuel =>
        let parent := ((offset - 1) / 2)%nat in
        ep ← heap_at q parent;
        eo ← heap_at q offset;
        q ← (if priority eo <? priority ep then Swap q parent offset else Ok q);
        bubble_up fuel q parent
    end.

Definition BubbleUp (q : PriorityQueue) (offset : nat) : hash_result PriorityQueue :=
  bubble_up offset q offset.

(** The loop of [BubbleDown]; [offset] goes to a child each time. *)
Fixpoint bubble_down (fuel : nat) (q : PriorityQueue) (offset : nat) : hash_result PriorityQueue :=
  let left_child_index := (2 * offset + 1)%nat in
  if negb (left_child_index <? size_ q)%nat then Ok q
  else
    el ← heap_at q left_child_index;
    eo ← heap_at q offset;
    let smallest_index := if priority el <? priority eo then left_child_index else offset in
    let right_child_index := (left_child_index + 1)%nat in
    smallest_index ←
      (if (right_child_index <? size_ q)%nat then
         er ← heap_at q right_child_index;
         es ← heap_at q smallest_index;
         Ok (if priority er <? priority es then right_child_index else smallest_index)
       else Ok smallest_index);
    if (offset =? smallest_index)%nat then Ok q
    else
      match fuel with
      | O => Fatal Diverges
      | S fuel => q ← Swap q offset smallest_index; bubble_down fuel q smallest_index
      end.

Definition BubbleDown (q : PriorityQueue) (offset : nat) : hash_result PriorityQueue :=
  bubble_down (size_ q) q offset.

Definition PQ_Insert (q : PriorityQueue) (p v : Z) : hash_result PriorityQueue :=
  c ← ContainsValue q v;
  _ ← hash_assert (negb c);
  q ← (if Z.of_nat (size_ q) =? min_heap_size_ q then PQ_Resize q (min_heap_size_ q << 1) else Ok q);
  q ← PQ_Set q (size_ q) (mkPQ p v);
  q ← BubbleUp q (size_ q);
  Ok (set_size q (S (size_ q))).

Definition PQ_Minimum (q : PriorityQueue) : hash_result PQEntry :=
  _ ← hash_assert (negb (IsEmpty q));
  heap_at q 0.

Definition RemoveAt (q : PriorityQueue) (offset : nat) : hash_result PriorityQueue :=
  _ ← hash_assert (offset <? size_ q)%nat;
  let q := set_size q (size_ q - 1) in
  q ← (if (offset =? size_ q)%nat then e ← heap_at q offset; RemoveMapEntry q (value e)
       else q ← Replace q offset (size_ q); BubbleDown q offset);
  if (Z.of_nat (size_ q) <=? (min_heap_size_ q >> 2)) && (kMinimumSize <=? (min_heap_size_ q >> 1))
  then PQ_Resize q (min_heap_size_ q >> 1) else Ok q.

Definition RemoveMinimum (q : PriorityQueue) : hash_result PriorityQueue :=
  _ ← hash_assert (negb (IsEmpty q));
  RemoveAt q 0.

Definition RemoveByValue (q : PriorityQueue) (v : Z) : hash_result (PriorityQueue * bool) :=
  r ← pm_find (hashmap_ q) v;
  match r with
  | Some offset =>
      q ← RemoveAt q (Z.to_nat offset);
      _ ← hash_assert (pm_size (hashmap_ q) =? Z.of_nat (size_ q));
      Ok (q, true)
  | None => Ok (q, false)
  end.

(** [InsertOrChangePriority]; overflow of the signed difference is undefined. *)
Definition InsertOrChangePriority (q : PriorityQueue) (p v : Z) : hash_result (PriorityQueue * bool) :=
  r ← pm_find (hashmap_ q) v;
  match r with
  | None => q ← PQ_Insert q p v; Ok (q, true)
  | Some offset =>
      let offset := Z.to_nat offset in
      _ ← hash_assert (offset <? size_ q)%nat;
      e ← heap_at q offset;
      q ← set_heap q offset (mkPQ p (value e));
      q ← (if (offset =? 0)%nat then BubbleDown q offset
           else
             ep ← heap_at q ((offset - 1) / 2)%nat;
             if WillSubOverflow p (priority ep) then Undefined
             else
               let diff := p - priority ep in
               if diff <? 0 then BubbleUp q offset
               else if 0 <? diff then BubbleDown q offset else Ok q);
      Ok (q, false)
  end.
End queue.
Arguments PriorityQueue : clear implicits.
