(* ===== verification/PriorityQueueProps.v ===== *)
(** The priority queue refines a finite map from values to priorities.

    [PointerMapLaws] states what the queue relies on of its map, and [SimpleHashMap] provides
    it.  [heap_ok] is the representation invariant without the order; [ordered] is the heap
    order, [above] and [below] the order but for one entry that may be too small for its
    parent or too large for its children. *)
From stdpp Require Import base numbers list gmap.
From Stdlib Require Import ZArith Lia.
From S2P Require Import Prelude Utils Circular HashMap HashMapProps HashMapRemove HashMapRefine PriorityQueue.
Local Open Scope Z_scope.
Local Open Scope cxx_scope.

Lemma hOk_bind {A B} (x : A) (f : A -> hash_result B) : (mbind (M:=hash_result) f (Ok x)) = f x.
Proof. done. Qed.

Ltac hbind := rewrite ?Ok_bind, ?hOk_bind in *.

(** ** The interface of the map *)

(** The largest number of entries the laws are stated for. *)
Definition map_limit : Z := 2 ^ 28.

Class PointerMapLaws (M : Type) `{!PointerMap M} := {
  pm_rep : M -> gmap Z Z -> Prop;
  pm_find_ok m X k : pm_rep m X -> k <> NULL -> pm_find m k = Ok (X !! k);
  pm_set_ok m X k v :
    pm_rep m X -> k <> NULL -> Z.of_nat (size (<[k := v]> X)) <= map_limit ->
    exists m', pm_set m k v = Ok m' /\ pm_rep m' (<[k := v]> X);
  pm_remove_ok m X k :
    pm_rep m X -> k <> NULL -> exists m', pm_remove m k = Ok m' /\ pm_rep m' (delete k X);
  pm_size_ok m X : pm_rep m X -> pm_size m = Z.of_nat (size X);
}.

(** [SimpleHashMap] with the hash of the queue. *)
Definition hashmap_rep (m : SimpleHashMap) (X : gmap Z Z) : Prop :=
  represents HashKey m X /\ capacity_ m <= 2 ^ 30.

Lemma HashKey_u k : is_u 32 (HashKey k).
Proof. by apply wrapu_range. Qed.

Lemma FindMapEntry_ok m X k :
  hashmap_rep m X -> k <> NULL -> FindMapEntry m k = Ok (X !! k).
Proof.
  intros [Hr Hc] Hk. destruct (run_op_ok HashKey HashKey_u m X (Get k)) as (m' & E & _);
    [done|lia|done|].
  unfold FindMapEntry. unfold run_op in E. cbn [spec_op snd] in E.
  destruct (Lookup SamePointerValue m k (HashKey k) false) as [[m1 r]| |]; try done.
  hbind. destruct r as [p|].
  - destruct (entry_at m1 p); try done. hbind. congruence.
  - congruence.
Qed.

Lemma SetMapEntry_ok m X k v :
  hashmap_rep m X -> k <> NULL -> Z.of_nat (size (<[k := v]> X)) <= map_limit ->
  exists m', SetMapEntry m k v = Ok m' /\ hashmap_rep m' (<[k := v]> X).
Proof.
  intros [Hr Hc] Hk Hn.
  destruct (run_op_ok HashKey HashKey_u m X (Put k v)) as (m' & E & Hr' & Hg); [done|lia|done|].
  exists m'. unfold run_op in E. cbn [spec_op snd fst] in E, Hr'. unfold SetMapEntry.
  destruct (Lookup SamePointerValue m k (HashKey k) true) as [[m1 r]| |]; try done.
  hbind. destruct r as [p|]; [|done].
  destruct (entry_at m1 p); try done. hbind. injection E as <-.
  split; [done|]. split; [done|]. destruct Hg as [->|Hg]; [done|].
  rewrite (rep_size HashKey _ _ Hr') in Hg. unfold map_limit in Hn. lia.
Qed.

Lemma RemoveEntry_ok m X k :
  hashmap_rep m X -> k <> NULL ->
  exists m', Remove SamePointerValue m k (HashKey k) = Ok m' /\ hashmap_rep m' (delete k X).
Proof.
  intros [Hr Hc] Hk.
  destruct (run_op_ok HashKey HashKey_u m X (Del k)) as (m' & E & Hr' & _); [done|lia|done|].
  destruct (Remove_spec SamePointerValue _ m k (HashKey k)) as (m1 & E1 & _ & Hcap & _);
    [apply Hr|done|].
  exists m1. split; [done|]. unfold run_op in E. cbn [spec_op snd fst] in E, Hr'. rewrite E1 in E. hbind.
  injection E as <-. split; [done|lia].
Qed.

#[export] Instance SimpleHashMap_laws : PointerMapLaws SimpleHashMap := {
  pm_rep := hashmap_rep;
  pm_find_ok := FindMapEntry_ok;
  pm_set_ok := SetMapEntry_ok;
  pm_remove_ok := RemoveEntry_ok;
  pm_size_ok m X Hr := rep_size HashKey m X (proj1 Hr);
}.

(** ** Entries and order *)

Definition prio (h : list PQEntry) (i : nat) : Z := priority (default Entry_garbage (h !! i)).

(** Among the first [n] entries. *)
Definition holds (h : list PQEntry) (n : nat) (e : PQEntry) : Prop :=
  exists i, (i < n)%nat /\ h !! i = Some e.

Definition child (p c : nat) : Prop := (c = 2 * p + 1 \/ c = 2 * p + 2)%nat.

Definition ordered (h : list PQEntry) (n : nat) : Prop :=
  forall p c, child p c -> (c < n)%nat -> prio h p <= prio h c.

(** The entry at [o] may be smaller than its parent. *)
Definition above (h : list PQEntry) (n o : nat) : Prop :=
  (forall p c, child p c -> (c < n)%nat -> c <> o -> prio h p <= prio h c) /\
  (forall p c, child p o -> child o c -> (c < n)%nat -> prio h p <= prio h c).

(** The entry at [o] may be larger than its children. *)
Definition below (h : list PQEntry) (n o : nat) : Prop :=
  (forall p c, child p c -> (c < n)%nat -> p <> o -> prio h p <= prio h c) /\
  (forall p c, child p o -> child o c -> (c < n)%nat -> prio h p <= prio h c).

Definition swap (h : list PQEntry) (a b : nat) : list PQEntry :=
  match h !! a, h !! b with
  | Some ea, Some eb => <[b := ea]> (<[a := eb]> h)
  | _, _ => h
  end.

Lemma swap_lookup h a b i :
  (a < length h)%nat -> (b < length h)%nat -> a <> b ->
  swap h a b !! i = if decide (i = a) then h !! b else if decide (i = b) then h !! a else h !! i.
Proof.
  intros La Lb N. unfold swap.
  destruct (lookup_lt_is_Some_2 h a La) as [ea Ea], (lookup_lt_is_Some_2 h b Lb) as [eb Eb].
  rewrite Ea, Eb. destruct (decide (i = a)) as [->|Na].
  - by rewrite list_lookup_insert_ne, list_lookup_insert_eq by done.
  - destruct (decide (i = b)) as [->|Nb].
    + rewrite list_lookup_insert_eq by (by rewrite length_insert). done.
    + by rewrite !list_lookup_insert_ne by done.
Qed.

Lemma swap_length h a b : length (swap h a b) = length h.
Proof. unfold swap. destruct (h !! a), (h !! b); by rewrite ?length_insert. Qed.

Lemma swap_prio h a b i :
  (a < length h)%nat -> (b < length h)%nat -> a <> b ->
  prio (swap h a b) i = if decide (i = a) then prio h b else if decide (i = b) then prio h a else prio h i.
Proof.
  intros La Lb N. unfold prio. rewrite swap_lookup by done. by repeat case_decide.
Qed.

Lemma swap_holds h n a b e :
  (n <= length h)%nat -> (a < n)%nat -> (b < n)%nat -> a <> b ->
  holds (swap h a b) n e <-> holds h n e.
Proof.
  intros HL La Lb N. split; intros (i & Hi & E).
  - rewrite swap_lookup in E by lia. repeat case_decide; [by exists b|by exists a|by exists i].
  - destruct (decide (i = a)) as [->|Na]; [|destruct (decide (i = b)) as [->|Nb]].
    + exists b. split; [done|]. rewrite swap_lookup by lia. by rewrite decide_False, decide_True by done.
    + exists a. split; [done|]. rewrite swap_lookup by lia. by rewrite decide_True by done.
    + exists i. split; [done|]. rewrite swap_lookup by lia. by rewrite !decide_False by done.
Qed.

(** Moving an entry up past a larger parent. *)
Lemma above_swap h n p o :
  (n <= length h)%nat -> (o < n)%nat -> child p o -> above h n o -> prio h o < prio h p ->
  above (swap h p o) n p.
Proof.
  intros HL Lo Hc [A1 A2] HP. unfold child in *.
  assert (SP : forall i, prio (swap h p o) i =
    if decide (i = p) then prio h o else if decide (i = o) then prio h p else prio h i).
  { intros i. apply swap_prio; lia. }
  split; unfold child; intros q c.
  - intros Hqc Lc Nc. rewrite !SP. pose proof (A1 p c). pose proof (A2 p c). pose proof (A1 q c).
    repeat case_decide; subst; lia.
  - intros Hqp Hpc Lc. rewrite !SP. pose proof (A1 q p). pose proof (A1 p c).
    repeat case_decide; subst; lia.
Qed.

(** With no larger parent the order holds, and trivially but for the parent. *)
Lemma above_ordered h n p o :
  (o < n)%nat -> child p o -> above h n o -> prio h p <= prio h o -> above h n p.
Proof.
  intros Lo Hc [A1 A2] HP.
  assert (O : ordered h n).
  { intros q c Hqc Lc. destruct (decide (c = o)) as [->|N]; [|by apply A1].
    unfold child in *. assert (q = p) as -> by lia. done. }
  split; intros q c; [intros; by apply O|]. intros Hqp Hpc Lc.
  pose proof (O q p Hqp). pose proof (O p c Hpc Lc). unfold child in *. lia.
Qed.

(** Moving an entry down past its smallest child. *)
Lemma below_swap h n o s :
  (n <= length h)%nat -> (s < n)%nat -> child o s -> below h n o -> prio h s < prio h o ->
  (forall c, child o c -> (c < n)%nat -> prio h s <= prio h c) ->
  below (swap h o s) n s.
Proof.
  intros HL Ls Hc [B1 B2] HP HM. unfold child in *.
  assert (SP : forall i, prio (swap h o s) i =
    if decide (i = o) then prio h s else if decide (i = s) then prio h o else prio h i).
  { intros i. apply swap_prio; lia. }
  split; unfold child; intros q c.
  - intros Hqc Lc Nq. rewrite !SP. pose proof (HM c). pose proof (B2 q s). pose proof (B1 q c).
    repeat case_decide; subst; lia.
  - intros Hqs Hsc Lc. rewrite !SP. specialize (B1 s c). repeat case_decide; subst; lia.
Qed.

Lemma below_ordered h n o :
  below h n o -> (forall c, child o c -> (c < n)%nat -> prio h o <= prio h c) -> ordered h n.
Proof.
  intros [B1 _] HM p c Hc Lc. destruct (decide (p = o)) as [->|N]; [by apply HM|by apply B1].
Qed.

(** The root is the minimum. *)
Lemma ordered_root h n i : ordered h n -> (i < n)%nat -> prio h 0 <= prio h i.
Proof.
  intros HO. induction i as [i IH] using (well_founded_induction Nat.lt_wf_0). intros Hi.
  destruct i as [|i]; [lia|]. pose proof (Nat.div_mod i 2 ltac:(lia)) as D.
  pose proof (Nat.mod_upper_bound i 2 ltac:(lia)).
  specialize (IH (i / 2)%nat ltac:(lia) ltac:(lia)).
  specialize (HO (i / 2)%nat (S i)). unfold child in HO. lia.
Qed.

(** ** The representation *)

Section queue.
Context {M : Type} `{!PointerMap M} `{!PointerMapLaws M}.
Implicit Types q : PriorityQueue M.

(** The map gives the offset of every value among the first [n] entries. *)
Definition indexed (h : list PQEntry) (n : nat) (X : gmap Z Z) : Prop :=
  forall v k, X !! v = Some k <->
    exists i e, (i < n)%nat /\ h !! i = Some e /\ value e = v /\ k = Z.of_nat i.

Record heap_ok (n : nat) q : Prop := {
  hk_length : Z.of_nat (length (min_heap_ q)) = min_heap_size_ q;
  hk_capacity : kMinimumSize <= min_heap_size_ q;
  hk_size : (n <= length (min_heap_ q))%nat;
  hk_limit : Z.of_nat n <= map_limit;
  hk_values e : holds (min_heap_ q) n e -> value e <> NULL;
  hk_index : exists X, pm_rep (hashmap_ q) X /\ indexed (min_heap_ q) n X;
}.

Lemma indexed_inj h n X i j ei ej :
  indexed h n X -> (i < n)%nat -> (j < n)%nat -> h !! i = Some ei -> h !! j = Some ej ->
  value ei = value ej -> i = j.
Proof.
  intros HI Li Lj Ei Ej EV.
  assert (X !! value ei = Some (Z.of_nat i)) as H1 by (apply HI; by exists i, ei).
  assert (X !! value ei = Some (Z.of_nat j)) as H2 by (apply HI; by exists j, ej).
  rewrite H1 in H2. injection H2. lia.
Qed.

(** A map that indexes [n] entries has [n] keys. *)
Lemma indexed_size h n X : (n <= length h)%nat -> indexed h n X -> size X = n.
Proof.
  revert X. induction n as [|n IH]; intros X HL HI.
  - apply map_size_empty_iff, map_empty. intros v. destruct (X !! v) eqn:E; [|done].
    apply HI in E as (i & _ & ? & _). lia.
  - destruct (lookup_lt_is_Some_2 h n) as [e He]; [lia|].
    assert (HX : X !! value e = Some (Z.of_nat n)) by (apply HI; exists n, e; auto with lia).
    rewrite <- (insert_delete_id X _ _ HX), map_size_insert_None by apply lookup_delete_eq.
    f_equal. apply IH; [lia|]. intros v k. rewrite lookup_delete_Some, (HI v k). split.
    + intros [N (i & ei & Li & Ei & Ev & Ek)]. exists i, ei. split; [|done].
      destruct (decide (i = n)) as [->|]; [congruence|lia].
    + intros (i & ei & Li & Ei & Ev & Ek). split; [|exists i, ei; auto with lia].
      intros E. assert (i = n) by (eapply indexed_inj; [exact HI| | |exact Ei|exact He|]; (lia || congruence)).
      lia.
Qed.

Lemma set_map_ok q X k v :
  pm_rep (hashmap_ q) X -> k <> NULL -> Z.of_nat (size (<[k := v]> X)) <= map_limit ->
  exists m, set_map q k v = Ok (mkQueue (min_heap_ q) (min_heap_size_ q) (size_ q) m) /\
    pm_rep m (<[k := v]> X).
Proof.
  intros HX Hk HN. destruct (pm_set_ok (hashmap_ q) X k v HX Hk HN) as (m & E & Hm).
  exists m. split; [|done]. unfold set_map. by rewrite E.
Qed.

Lemma heap_at_eq q i e : min_heap_ q !! i = Some e -> heap_at q i = Ok e.
Proof. intros H. unfold heap_at. by rewrite H. Qed.

Lemma set_heap_eq q i e :
  (i < length (min_heap_ q))%nat ->
  set_heap q i e = Ok (mkQueue (<[i := e]> (min_heap_ q)) (min_heap_size_ q) (size_ q) (hashmap_ q)).
Proof. intros [x Hx]%lookup_lt_is_Some_2. unfold set_heap. by rewrite Hx. Qed.

(** Swapping two entries updates the index. *)
Lemma indexed_swap h n X a b ea eb :
  (n <= length h)%nat -> (a < n)%nat -> (b < n)%nat -> a <> b ->
  h !! a = Some ea -> h !! b = Some eb -> indexed h n X ->
  indexed (swap h a b) n (<[value ea := Z.of_nat b]> (<[value eb := Z.of_nat a]> X)).
Proof.
  intros HL La Lb N Ea Eb HI v k.
  assert (NV : value ea <> value eb) by (intros E; apply N; eapply indexed_inj; eauto).
  rewrite lookup_insert_Some, lookup_insert_Some, (HI v k). split.
  - intros [[<- <-]|[N1 [[<- <-]|[N2 (i & e & Li & Ei & Ev & Ek)]]]].
    + exists b, ea. split; [done|]. rewrite swap_lookup by lia. by rewrite decide_False, decide_True.
    + exists a, eb. split; [done|]. rewrite swap_lookup by lia. by rewrite decide_True.
    + exists i, e. split; [done|]. rewrite swap_lookup by lia.
      rewrite decide_False by congruence. rewrite decide_False by congruence. done.
  - intros (i & e & Li & Ei & Ev & Ek). rewrite swap_lookup in Ei by lia.
    repeat case_decide; subst.
    + right. split; [congruence|]. left. split; congruence.
    + left. split; congruence.
    + right. split; [|right; split].
      * intros E. apply H. by apply (indexed_inj h n X i a e ea HI).
      * intros E. apply H0. by apply (indexed_inj h n X i b e eb HI).
      * exists i, e. auto.
Qed.

Lemma indexed_insert_size (X : gmap Z Z) k v w : X !! k = Some w -> size (<[k := v]> X) = size X.
Proof. intros H. rewrite map_size_insert, H. done. Qed.

(** The same queue but for the order of its entries. *)
Record permuted (n : nat) q q' : Prop := {
  pe_ok : heap_ok n q';
  pe_capacity : min_heap_size_ q' = min_heap_size_ q;
  pe_size : size_ q' = size_ q;
  pe_holds e : holds (min_heap_ q') n e <-> holds (min_heap_ q) n e;
}.

Lemma permuted_refl n q : heap_ok n q -> permuted n q q.
Proof. by constructor. Qed.

Lemma permuted_trans n q1 q2 q3 : permuted n q1 q2 -> permuted n q2 q3 -> permuted n q1 q3.
Proof.
  intros [A1 B1 C1 D1] [A2 B2 C2 D2]. constructor; [done|congruence|congruence|].
  intros e. by rewrite D2, D1.
Qed.

Lemma Swap_ok n q a b :
  heap_ok n q -> (a < n)%nat -> (b < n)%nat -> a <> b ->
  exists q', Swap q a b = Ok q' /\ permuted n q q' /\ min_heap_ q' = swap (min_heap_ q) a b.
Proof.
  intros HK La Lb N. pose proof (hk_size _ _ HK) as HS. destruct (hk_index _ _ HK) as (X & HX & HI).
  destruct (lookup_lt_is_Some_2 (min_heap_ q) a) as [ea Ea]; [lia|].
  destruct (lookup_lt_is_Some_2 (min_heap_ q) b) as [eb Eb]; [lia|].
  assert (Va : value ea <> NULL) by (apply (hk_values _ _ HK); by exists a).
  assert (Vb : value eb <> NULL) by (apply (hk_values _ _ HK); by exists b).
  assert (Xa : X !! value ea = Some (Z.of_nat a)) by (apply HI; by exists a, ea).
  assert (Xb : X !! value eb = Some (Z.of_nat b)) by (apply HI; by exists b, eb).
  pose proof (indexed_size _ _ _ HS HI) as HN. pose proof (hk_limit _ _ HK) as HLim.
  unfold Swap. rewrite (heap_at_eq _ _ _ Ea), (heap_at_eq _ _ _ Eb). hbind.
  rewrite set_heap_eq by lia. hbind. rewrite set_heap_eq by (simpl; rewrite length_insert; lia). hbind.
  cbn [min_heap_ min_heap_size_ size_ hashmap_].
  assert (ES : <[b := ea]> (<[a := eb]> (min_heap_ q)) = swap (min_heap_ q) a b).
  { unfold swap. by rewrite Ea, Eb. }
  rewrite ES. erewrite heap_at_eq.
  2: { cbn [min_heap_]. rewrite swap_lookup by lia. rewrite decide_True by done. exact Eb. }
  hbind. edestruct (set_map_ok (mkQueue (swap (min_heap_ q) a b) (min_heap_size_ q) (size_ q) (hashmap_ q)) X
    (value eb) (Z.of_nat a)) as (m1 & E1 & H1); [done|done| |].
  { rewrite (indexed_insert_size _ _ _ _ Xb), HN. done. }
  rewrite E1. hbind. cbn [min_heap_ min_heap_size_ size_ hashmap_]. erewrite heap_at_eq.
  2: { cbn [min_heap_]. rewrite swap_lookup by lia. rewrite decide_False, decide_True by done. exact Ea. }
  hbind. edestruct (set_map_ok (mkQueue (swap (min_heap_ q) a b) (min_heap_size_ q) (size_ q) m1)
    (<[value eb := Z.of_nat a]> X) (value ea) (Z.of_nat b)) as (m2 & E2 & H2); [done|done| |].
  { erewrite indexed_insert_size, (indexed_insert_size _ _ _ _ Xb), HN; [done|].
    rewrite lookup_insert_ne; [exact Xa|]. intros E. apply N. symmetry. eapply indexed_inj; eauto. }
  rewrite E2. eexists. split; [done|]. cbn [min_heap_ min_heap_size_ size_]. split; [|done].
  constructor; [|done|done|intros e; by apply swap_holds].
  constructor; cbn [min_heap_ min_heap_size_ hashmap_]; rewrite ?swap_length; try apply HK.
  - intros e He. apply (hk_values _ _ HK). by apply (swap_holds _ n a b e).
  - eexists. split; [exact H2|]. by eapply indexed_swap.
Qed.

Lemma parent_child o : o <> 0%nat -> child ((o - 1) / 2) o.
Proof.
  intros N. unfold child. pose proof (Nat.div_mod (o - 1) 2 ltac:(lia)).
  pose proof (Nat.mod_upper_bound (o - 1) 2 ltac:(lia)). lia.
Qed.

Lemma prio_eq h i e : h !! i = Some e -> prio h i = priority e.
Proof. intros H. unfold prio. by rewrite H. Qed.

Lemma bubble_up_ok fuel n : forall q o,
  heap_ok n q -> (o < n)%nat -> (o <= fuel)%nat ->
  exists q', bubble_up fuel q o = Ok q' /\ permuted n q q' /\ (above (min_heap_ q) n o -> ordered (min_heap_ q') n).
Proof.
  induction fuel as [|fuel IH]; intros q o HK Lo HF; cbn [bubble_up];
    destruct (Nat.eqb_spec o 0) as [->|N]; try lia.
  1,2: exists q; split; [done|]; split; [by apply permuted_refl|];
    intros HA p c Hc Lc; apply (proj1 HA); [done|done|unfold child in Hc; lia].
  pose proof (parent_child o N) as HC. cbv zeta. set (p := ((o - 1) / 2)%nat) in *.
  assert (Lp : (p < o)%nat) by (unfold child in HC; lia). pose proof (hk_size _ _ HK) as HS.
  destruct (lookup_lt_is_Some_2 (min_heap_ q) p) as [ep Ep]; [lia|].
  destruct (lookup_lt_is_Some_2 (min_heap_ q) o) as [eo Eo]; [lia|].
  rewrite (heap_at_eq _ _ _ Ep), (heap_at_eq _ _ _ Eo). hbind.
  destruct (Z.ltb_spec (priority eo) (priority ep)) as [HP|HP].
  - destruct (Swap_ok n q p o HK) as (q1 & E1 & P1 & H1); [lia..|]. rewrite E1. hbind.
    destruct (IH q1 p) as (q2 & E2 & P2 & O2); [apply P1|lia|lia|].
    exists q2. split; [done|]. split; [by eapply permuted_trans|]. intros HA. apply O2.
    rewrite H1. apply above_swap; try done. by rewrite (prio_eq _ _ _ Ep), (prio_eq _ _ _ Eo).
  - hbind. destruct (IH q p) as (q2 & E2 & P2 & O2); [done|lia|lia|]. exists q2. split; [done|]. split; [done|].
    intros HA. apply O2. eapply above_ordered; try done. by rewrite (prio_eq _ _ _ Ep), (prio_eq _ _ _ Eo).
Qed.

Lemma BubbleUp_ok n q o :
  heap_ok n q -> (o < n)%nat ->
  exists q', BubbleUp q o = Ok q' /\ permuted n q q' /\ (above (min_heap_ q) n o -> ordered (min_heap_ q') n).
Proof. intros. by apply bubble_up_ok. Qed.

(** The choice of the smallest of an entry and its children. *)
Lemma smallest_ok n q o el eo :
  heap_ok n q -> size_ q = n -> (o < n)%nat ->
  min_heap_ q !! (2 * o + 1)%nat = Some el -> min_heap_ q !! o = Some eo -> (2 * o + 1 < n)%nat ->
  exists s,
    (let smallest_index := if priority el <? priority eo then (2 * o + 1)%nat else o in
     let right_child_index := (2 * o + 1 + 1)%nat in
     if (right_child_index <? size_ q)%nat then
       er ← heap_at q right_child_index;
       es ← heap_at q smallest_index;
       Ok (if priority er <? priority es then right_child_index else smallest_index)
     else Ok smallest_index) = (Ok s : hash_result nat) /\
    (forall c, child o c -> (c < n)%nat -> prio (min_heap_ q) s <= prio (min_heap_ q) c) /\
    (s = o \/ child o s /\ (s < n)%nat /\ prio (min_heap_ q) s < prio (min_heap_ q) o).
Proof.
  intros HK Hn Lo El Eo Ll. pose proof (hk_size _ _ HK) as HS. unfold child. cbv zeta. rewrite Hn.
  set (h := min_heap_ q) in *. pose proof (prio_eq _ _ _ El) as Pl. pose proof (prio_eq _ _ _ Eo) as Po.
  set (s0 := if priority el <? priority eo then (2 * o + 1)%nat else o).
  assert (H0 : (s0 = o /\ prio h o <= prio h (2 * o + 1) \/
    s0 = (2 * o + 1)%nat /\ prio h (2 * o + 1) < prio h o)).
  { unfold s0. destruct (Z.ltb_spec (priority el) (priority eo)); [right|left]; (split; [done|lia]). }
  destruct (Nat.ltb_spec (2 * o + 1 + 1) n) as [Lr|Lr].
  - destruct (lookup_lt_is_Some_2 h (2 * o + 1 + 1)) as [er Er]; [lia|].
    destruct (lookup_lt_is_Some_2 h s0) as [es Es]; [lia|].
    rewrite (heap_at_eq _ _ _ Er), (heap_at_eq _ _ _ Es). hbind.
    pose proof (prio_eq _ _ _ Er) as Pr. pose proof (prio_eq _ _ _ Es) as Ps.
    destruct (Z.ltb_spec (priority er) (priority es)) as [HP|HP];
      (eexists; split; [done|]; split).
    + intros c Hc Lc. assert (c = (2 * o + 1)%nat \/ c = (2 * o + 1 + 1)%nat) as [-> | ->] by lia; [|lia].
      destruct H0 as [[-> ?]|[-> ?]]; lia.
    + right. destruct H0 as [[-> ?]|[-> ?]]; lia.
    + intros c Hc Lc. assert (c = (2 * o + 1)%nat \/ c = (2 * o + 1 + 1)%nat) as [-> | ->] by lia; [|lia].
      destruct H0 as [[-> ?]|[-> ?]]; lia.
    + destruct H0 as [[-> ?]|[-> ?]]; [by left|right]. lia.
  - exists s0. split; [done|]. split.
    + intros c Hc Lc. assert (c = (2 * o + 1)%nat) as -> by lia. destruct H0 as [[-> ?]|[-> ?]]; lia.
    + destruct H0 as [[-> ?]|[-> ?]]; [by left|right]. lia.
Qed.

Lemma bubble_down_ok fuel n : forall q o,
  heap_ok n q -> size_ q = n -> (o < n)%nat -> (n <= fuel + o)%nat ->
  exists q', bubble_down fuel q o = Ok q' /\ permuted n q q' /\
    (below (min_heap_ q) n o -> ordered (min_heap_ q') n).
Proof.
  induction fuel as [|fuel IH]; intros q o HK Hn Lo HF; [lia|]. cbn [bubble_down]. cbv zeta.
  rewrite Hn. destruct (Nat.ltb_spec (2 * o + 1) n) as [Ll|Ll]; cbn [negb].
  2: { exists q. split; [done|]. split; [by apply permuted_refl|]. intros HB.
       apply (below_ordered _ _ o HB). unfold child. intros c Hc Lc. lia. }
  pose proof (hk_size _ _ HK) as HS.
  destruct (lookup_lt_is_Some_2 (min_heap_ q) (2 * o + 1)) as [el El]; [lia|].
  destruct (lookup_lt_is_Some_2 (min_heap_ q) o) as [eo Eo]; [lia|].
  rewrite (heap_at_eq _ _ _ El), (heap_at_eq _ _ _ Eo). hbind.
  destruct (smallest_ok n q o el eo HK Hn Lo El Eo Ll) as (s & Es & Hmin & Hs).
  cbv zeta in Es. rewrite Hn in Es. rewrite Es. hbind.
  destruct (Nat.eqb_spec o s) as [<-|N].
  { exists q. split; [done|]. split; [by apply permuted_refl|]. intros HB.
    by apply (below_ordered _ _ o HB). }
  destruct Hs as [->|(Hc & Ls & HP)]; [done|].
  destruct (Swap_ok n q o s HK Lo Ls N) as (q1 & E1 & P1 & H1). rewrite E1. hbind.
  destruct (IH q1 s) as (q2 & E2 & P2 & O2); [apply P1|by rewrite (pe_size _ _ _ P1)|done| |].
  { unfold child in Hc. lia. }
  exists q2. split; [done|]. split; [by eapply permuted_trans|].
  intros HB. apply O2. rewrite H1. by apply below_swap.
Qed.

Lemma BubbleDown_ok n q o :
  heap_ok n q -> size_ q = n -> (o < n)%nat ->
  exists q', BubbleDown q o = Ok q' /\ permuted n q q' /\
    (below (min_heap_ q) n o -> ordered (min_heap_ q') n).
Proof. intros HK Hn Lo. unfold BubbleDown. apply bubble_down_ok; try done. lia. Qed.

(** ** Entries past [n] do not matter *)

Definition agree (n : nat) (h h' : list PQEntry) : Prop := forall i, (i < n)%nat -> h !! i = h' !! i.

Lemma agree_holds n h h' e : agree n h h' -> holds h n e <-> holds h' n e.
Proof. intros HA. split; intros (i & Li & E); exists i; (split; [done|]); by rewrite <- E, (HA i Li). Qed.

Lemma agree_prio n h h' i : agree n h h' -> (i < n)%nat -> prio h i = prio h' i.
Proof. intros HA Hi. unfold prio. by rewrite (HA i Hi). Qed.

Lemma agree_ordered n h h' : agree n h h' -> ordered h n -> ordered h' n.
Proof.
  intros HA HO p c Hc Lc. assert (p < n)%nat by (unfold child in Hc; lia).
  rewrite <- !(agree_prio n h h') by done. by apply HO.
Qed.

Lemma agree_indexed n h h' X : agree n h h' -> indexed h n X -> indexed h' n X.
Proof.
  intros HA HI v k. rewrite (HI v k). split; intros (i & e & Li & E & H); exists i, e;
    (split; [done|]); (split; [by rewrite <- E, (HA i Li)|done]).
Qed.

Lemma PQ_Resize_ok n q new :
  heap_ok n q -> Z.of_nat (size_ q) < new -> Z.of_nat n <= new -> new <> min_heap_size_ q ->
  kMinimumSize <= new ->
  exists q', PQ_Resize q new = Ok q' /\ heap_ok n q' /\ size_ q' = size_ q /\
    agree n (min_heap_ q) (min_heap_ q') /\ min_heap_size_ q' = new.
Proof.
  intros HK HS Hn HN HM. unfold PQ_Resize.
  replace (Z.of_nat (size_ q) <? new) with true by lia.
  replace (new =? min_heap_size_ q) with false by lia. cbn [negb hash_assert]. hbind.
  eexists. split; [done|]. cbn [min_heap_ min_heap_size_ size_ hashmap_].
  assert (HA : agree n (min_heap_ q) (resize (Z.to_nat new) Entry_garbage (min_heap_ q))).
  { intros i Hi. pose proof (hk_size _ _ HK). symmetry. apply lookup_resize; lia. }
  split; [|done]. constructor; cbn [min_heap_ min_heap_size_ size_ hashmap_].
  - rewrite length_resize. unfold kMinimumSize in HM. lia.
  - done.
  - rewrite length_resize. lia.
  - apply (hk_limit _ _ HK).
  - intros e He. apply (hk_values _ _ HK). by apply (agree_holds _ _ _ e HA).
  - destruct (hk_index _ _ HK) as (X & HX & HI). exists X. split; [done|]. by eapply agree_indexed.
Qed.
End queue.
