(* ===== verification/PriorityQueueSpec.v ===== *)
(** What the operations of the priority queue do to the map from values to priorities it
    represents; and its clients: over [SimpleHashMap] the queue refines a finite map with
    extraction of a minimum, for any sequence of operations; removal by value can break the
    order, after which what is extracted need not be of least priority. *)
From stdpp Require Import base numbers list gmap.
From Stdlib Require Import ZArith Lia.
From S2P Require Import Prelude Utils Circular HashMap HashMapProps HashMapRefine PriorityQueue PriorityQueueProps.
Local Open Scope Z_scope.
Local Open Scope cxx_scope.

Section queue.
Context {M : Type} `{!PointerMap M} `{!PointerMapLaws M}.
Implicit Types q : PriorityQueue M.

(** The queue has the entries of [Q], in some order. *)
Record entries_rep q (Q : gmap Z Z) : Prop := {
  er_ok : heap_ok (size_ q) q;
  er_holds v p : Q !! v = Some p <-> holds (min_heap_ q) (size_ q) (mkPQ p v);
}.

(** And, when [sorted], the order is that of a heap. *)
Record queue_rep (sorted : bool) q (Q : gmap Z Z) : Prop := {
  qr_entries : entries_rep q Q;
  qr_ordered : sorted = true -> ordered (min_heap_ q) (size_ q);
}.

Lemma queue_rep_value q Q v p : entries_rep q Q -> Q !! v = Some p -> v <> NULL.
Proof. intros [HK HH] H. by apply HH, (hk_values _ _ HK) in H. Qed.

(** What the map knows about a value. *)
Lemma find_ok q Q v :
  entries_rep q Q -> v <> NULL ->
  match Q !! v with
  | Some p => exists i, (i < size_ q)%nat /\ min_heap_ q !! i = Some (mkPQ p v) /\
      pm_find (hashmap_ q) v = Ok (Some (Z.of_nat i))
  | None => pm_find (hashmap_ q) v = Ok None
  end.
Proof.
  intros [HK HH] Hv. destruct (hk_index _ _ HK) as (X & HX & HI).
  rewrite (pm_find_ok _ _ _ HX Hv). destruct (Q !! v) as [p|] eqn:E.
  - apply HH in E as (i & Li & Ei). exists i. split; [done|]. split; [done|]. f_equal.
    apply HI. by exists i, (mkPQ p v).
  - f_equal. destruct (X !! v) as [k|] eqn:EX; [|done].
    apply HI in EX as (i & [p w] & Li & Ei & Ev & _). simpl in Ev. subst w.
    assert (Q !! v = Some p) by (apply HH; by exists i). congruence.
Qed.

Lemma ContainsValue_ok q Q v :
  entries_rep q Q -> v <> NULL -> ContainsValue q v = Ok (bool_decide (is_Some (Q !! v))).
Proof.
  intros HR Hv. pose proof (find_ok q Q v HR Hv) as HF. unfold ContainsValue.
  destruct (Q !! v) as [p|].
  - destruct HF as (i & _ & _ & ->). hbind. by rewrite bool_decide_eq_true_2 by eauto.
  - rewrite HF. hbind. by rewrite bool_decide_eq_false_2 by (by intros [? ?]).
Qed.

(** ** Insertion *)

Lemma indexed_add h n X p v :
  (n < length h)%nat -> indexed h n X -> X !! v = None ->
  indexed (<[n := mkPQ p v]> h) (S n) (<[v := Z.of_nat n]> X).
Proof.
  intros HL HI HN w k. rewrite lookup_insert_Some, (HI w k). split.
  - intros [[<- <-]|[N (i & e & Li & E & H)]].
    + exists n, (mkPQ p v). split; [lia|]. by rewrite list_lookup_insert_eq.
    + exists i, e. split; [lia|]. rewrite list_lookup_insert_ne by lia. done.
  - intros (i & e & Li & E & Ev & Ek). destruct (decide (i = n)) as [->|N].
    + rewrite list_lookup_insert_eq in E by done. injection E as <-. by left.
    + rewrite list_lookup_insert_ne in E by done. right. split.
      * intros ->. assert (X !! w = Some k) by (apply HI; exists i, e; auto with lia). congruence.
      * exists i, e. auto with lia.
Qed.

Lemma holds_add h n e e' :
  (n < length h)%nat -> holds (<[n := e]> h) (S n) e' <-> e' = e \/ holds h n e'.
Proof.
  intros HL. split.
  - intros (i & Li & E). destruct (decide (i = n)) as [->|N].
    + rewrite list_lookup_insert_eq in E by done. left. congruence.
    + rewrite list_lookup_insert_ne in E by done. right. exists i. auto with lia.
  - intros [->|(i & Li & E)].
    + exists n. split; [lia|]. by rewrite list_lookup_insert_eq.
    + exists i. split; [lia|]. by rewrite list_lookup_insert_ne by lia.
Qed.

Lemma PQ_Set_ok q p v :
  heap_ok (size_ q) q -> (size_ q < length (min_heap_ q))%nat -> v <> NULL ->
  Z.of_nat (S (size_ q)) <= map_limit -> pm_find (hashmap_ q) v = Ok None ->
  exists q', PQ_Set q (size_ q) (mkPQ p v) = Ok q' /\ heap_ok (S (size_ q)) q' /\
    size_ q' = size_ q /\ min_heap_ q' = <[size_ q := mkPQ p v]> (min_heap_ q).
Proof.
  intros HK HL Hv HLim HF. destruct (hk_index _ _ HK) as (X & HX & HI).
  rewrite (pm_find_ok _ _ _ HX Hv) in HF. injection HF as HF.
  pose proof (indexed_size _ _ _ (hk_size _ _ HK) HI) as HN.
  unfold PQ_Set. rewrite set_heap_eq by done. hbind.
  edestruct (set_map_ok (mkQueue (<[size_ q := mkPQ p v]> (min_heap_ q)) (min_heap_size_ q)
    (size_ q) (hashmap_ q)) X v (Z.of_nat (size_ q))) as (m & E & Hm); [done|done| |].
  { rewrite map_size_insert, HF. simpl. lia. }
  cbn [value]. rewrite E. eexists. split; [done|]. cbn [min_heap_ min_heap_size_ size_]. split; [|done].
  constructor; cbn [min_heap_ min_heap_size_ hashmap_]; rewrite ?length_insert; try apply HK; try lia.
  - intros e [->|He]%holds_add; [done|by apply (hk_values _ _ HK)|done].
  - eexists. split; [exact Hm|]. by apply indexed_add.
Qed.

Lemma above_last h n e : (n < length h)%nat -> ordered h n -> above (<[n := e]> h) (S n) n.
Proof.
  intros HL HO.
  assert (P : forall i, (i < n)%nat -> prio (<[n := e]> h) i = prio h i).
  { intros i Hi. unfold prio. by rewrite list_lookup_insert_ne by lia. }
  split; unfold child; intros p c; [|intros; lia]. intros Hc Lc N.
  rewrite !P by lia. apply HO; [done|lia].
Qed.

Lemma PQ_Insert_ok b q Q p v :
  queue_rep b q Q -> v <> NULL -> Q !! v = None -> Z.of_nat (S (size_ q)) <= map_limit ->
  exists q', PQ_Insert q p v = Ok q' /\ queue_rep b q' (<[v := p]> Q).
Proof.
  intros [HE HO] Hv HN HLim. pose proof (find_ok q Q v HE Hv) as HF. rewrite HN in HF.
  unfold PQ_Insert. rewrite (ContainsValue_ok q Q v HE Hv). hbind.
  rewrite bool_decide_eq_false_2 by (rewrite HN; by intros [? ?]). cbn [negb hash_assert]. hbind.
  destruct HE as [HK HH].
  assert (exists q1, (if Z.of_nat (size_ q) =? min_heap_size_ q
      then PQ_Resize q (min_heap_size_ q << 1) else Ok q) = Ok q1 /\ heap_ok (size_ q) q1 /\
      size_ q1 = size_ q /\ agree (size_ q) (min_heap_ q) (min_heap_ q1) /\
      (size_ q < length (min_heap_ q1))%nat /\ hashmap_ q1 = hashmap_ q) as (q1 & E1 & K1 & S1 & A1 & L1 & M1).
  { pose proof (hk_length _ _ HK) as HL. pose proof (hk_capacity _ _ HK) as HC. unfold kMinimumSize in HC.
    pose proof (hk_size _ _ HK) as HSz. destruct (Z.eqb_spec (Z.of_nat (size_ q)) (min_heap_size_ q)) as [EQ|NE].
    - rewrite Z.shiftl_mul_pow2 by lia. change (2 ^ 1) with 2.
      destruct (PQ_Resize_ok (size_ q) q (min_heap_size_ q * 2)) as (q1 & E & K & S & A & C);
        [done|lia|lia|lia|unfold kMinimumSize; lia|].
      exists q1. split; [done|]. split; [done|]. split; [done|]. split; [done|]. split.
      + pose proof (hk_length _ _ K). lia.
      + unfold PQ_Resize in E. destruct (_ <? _); [|done]. destruct (negb _); [|done]. by injection E as <-.
    - exists q. split; [done|]. split; [done|]. split; [done|]. split; [by intros i ?|]. split; [lia|done]. }
  rewrite E1. hbind. clear E1. rewrite <- S1 in *.
  destruct (PQ_Set_ok q1 p v K1) as (q2 & E2 & K2 & S2 & H2); [done|done|done|by rewrite M1|].
  rewrite E2. hbind. rewrite S2.
  destruct (BubbleUp_ok (S (size_ q1)) q2 (size_ q1) K2) as (q3 & E3 & P3 & O3); [lia|].
  rewrite E3. hbind. eexists. split; [done|]. rewrite (pe_size _ _ _ P3), S2.
  assert (K3 : heap_ok (S (size_ q1)) (set_size q3 (S (size_ q1)))).
  { destruct (pe_ok _ _ _ P3) as [? ? ? ? ? ?]. by constructor. }
  constructor; [constructor|]; cbn [set_size min_heap_ size_]; [done| |].
  2: { intros Hb. apply O3. rewrite H2. apply above_last; [done|]. eapply agree_ordered; [done|]. by apply HO. }
  intros w x. rewrite (pe_holds _ _ _ P3), H2, holds_add by done.
  rewrite lookup_insert_Some, <- (agree_holds _ _ _ _ A1), (HH w x). split.
  - intros [[-> ->]|[_ ?]]; auto.
  - intros [[= <- <-]|?]; [by left|]. right. split; [|done]. intros ->.
    assert (Q !! w = Some x) by (by apply HH). congruence.
Qed.

(** ** The minimum *)

Lemma Minimum_ok b q Q :
  queue_rep b q Q -> Q <> ∅ ->
  exists e, PQ_Minimum q = Ok e /\ Q !! value e = Some (priority e) /\ (0 < size_ q)%nat /\
    min_heap_ q !! 0%nat = Some e /\
    (b = true -> forall v p, Q !! v = Some p -> priority e <= p).
Proof.
  intros [[HK HH] HO] HN. destruct (map_choose Q HN) as (v0 & p0 & H0).
  apply HH in H0 as (i0 & Li & _). unfold PQ_Minimum, IsEmpty.
  destruct (Nat.eqb_spec (size_ q) 0) as [?|_]; [lia|]. cbn [negb hash_assert]. hbind.
  destruct (lookup_lt_is_Some_2 (min_heap_ q) 0) as [e He]; [pose proof (hk_size _ _ HK); lia|].
  exists e. split; [by apply heap_at_eq|]. split; [apply HH; exists 0%nat; split; [lia|by destruct e]|].
  split; [lia|]. split; [done|]. intros Hb v p (i & Lp & Ei)%HH.
  pose proof (ordered_root _ _ i (HO Hb) Lp) as HP.
  by rewrite (prio_eq _ _ _ He), (prio_eq _ _ _ Ei) in HP.
Qed.

(** ** Removal *)

Lemma RemoveMapEntry_ok q X v k :
  pm_rep (hashmap_ q) X -> v <> NULL -> X !! v = Some k ->
  exists m, RemoveMapEntry q v = Ok (mkQueue (min_heap_ q) (min_heap_size_ q) (size_ q) m) /\
    pm_rep m (delete v X).
Proof.
  intros HX Hv HK. destruct (pm_remove_ok _ _ _ HX Hv) as (m & E & Hm). exists m. split; [|done].
  unfold RemoveMapEntry. rewrite (pm_find_ok _ _ _ HX Hv), HK. hbind. cbn [hash_assert]. hbind.
  rewrite E. by hbind.
Qed.

(** The entry at [o] gone: the last one takes its place. *)
Definition removed (h : list PQEntry) (m o : nat) : list PQEntry :=
  if (o =? m)%nat then h else <[o := default Entry_garbage (h !! m)]> h.

Lemma removed_lookup h m o i :
  (m < length h)%nat -> (o <= m)%nat -> (i < m)%nat ->
  removed h m o !! i = if decide (i = o) then h !! m else h !! i.
Proof.
  intros HL Ho Hi. unfold removed. destruct (Nat.eqb_spec o m) as [->|N].
  - by rewrite decide_False by lia.
  - destruct (lookup_lt_is_Some_2 h m HL) as [e He]. rewrite He. simpl.
    destruct (decide (i = o)) as [->|No]; [by rewrite list_lookup_insert_eq by lia|].
    by rewrite list_lookup_insert_ne.
Qed.

Lemma removed_indexed h m o X e l :
  (m < length h)%nat -> (o <= m)%nat -> indexed h (S m) X -> h !! o = Some e -> h !! m = Some l ->
  indexed (removed h m o) m
    (if (o =? m)%nat then delete (value e) X else <[value l := Z.of_nat o]> (delete (value e) X)).
Proof.
  intros HL Ho HI Ee El v k.
  assert (INJ : forall i ei, (i < S m)%nat -> h !! i = Some ei -> value ei = value e -> i = o).
  { intros i ei Li Ei EV. apply (indexed_inj h (S m) X i o ei e HI); (done || lia). }
  assert (INJl : forall i ei, (i < S m)%nat -> h !! i = Some ei -> value ei = value l -> i = m).
  { intros i ei Li Ei EV. apply (indexed_inj h (S m) X i m ei l HI); (done || lia). }
  destruct (Nat.eqb_spec o m) as [->|N].
  - rewrite lookup_delete_Some, (HI v k). split.
    + intros [NV (i & ei & Li & Ei & Ev & Ek)]. exists i, ei.
      assert (i <> m) by (intros ->; congruence). split; [lia|].
      rewrite removed_lookup by lia. by rewrite decide_False by done.
    + intros (i & ei & Li & Ei & Ev & Ek). rewrite removed_lookup, decide_False in Ei by lia.
      split; [|exists i, ei; auto with lia]. intros EV.
      assert (i = m) by (eapply INJ; [lia|done|congruence]). lia.
  - rewrite lookup_insert_Some, lookup_delete_Some, (HI v k). split.
    + intros [[<- <-]|[NV [NV' (i & ei & Li & Ei & Ev & Ek)]]].
      * exists o, l. split; [lia|]. rewrite removed_lookup by lia. by rewrite decide_True by done.
      * exists i, ei. assert (i <> m) by (intros ->; congruence). assert (i <> o) by (intros ->; congruence).
        split; [lia|]. rewrite removed_lookup by lia. by rewrite decide_False by done.
    + intros (i & ei & Li & Ei & Ev & Ek). rewrite removed_lookup in Ei by lia.
      destruct (decide (i = o)) as [->|No]; [left; split; congruence|]. right.
      split; [|split; [|exists i, ei; auto with lia]].
      * intros EV. assert (i = m) by (eapply INJl; [lia|done|congruence]). lia.
      * intros EV. assert (i = o) by (eapply INJ; [lia|done|congruence]). done.
Qed.

Lemma removed_holds h m o X e e' :
  (m < length h)%nat -> (o <= m)%nat -> indexed h (S m) X -> h !! o = Some e ->
  holds (removed h m o) m e' <-> holds h (S m) e' /\ e' <> e.
Proof.
  intros HL Ho HI Ee. split.
  - intros (i & Li & Ei). rewrite removed_lookup in Ei by lia. destruct (decide (i = o)) as [->|No].
    + split; [exists m; auto with lia|]. intros ->.
      assert (m = o) by (eapply indexed_inj; [exact HI| | |exact Ei|exact Ee|]; (lia || done)). lia.
    + split; [exists i; auto with lia|]. intros ->.
      assert (i = o) by (eapply indexed_inj; [exact HI| | |exact Ei|exact Ee|]; (lia || done)). done.
  - intros [(i & Li & Ei) N]. assert (i <> o) by (intros ->; congruence).
    destruct (decide (i = m)) as [->|Nm].
    + exists o. split; [lia|]. rewrite removed_lookup by lia. by rewrite decide_True by done.
    + exists i. split; [lia|]. rewrite removed_lookup by lia. by rewrite decide_False by done.
Qed.

(** In order but for [o], if the last entry is not smaller than the parent of [o]. *)
Lemma removed_below h m o :
  (m < length h)%nat -> (o < m)%nat -> ordered h (S m) ->
  (forall p, child p o -> prio h p <= prio h m) -> below (removed h m o) m o.
Proof.
  intros HL Ho HO HP.
  assert (P : forall i, (i < m)%nat -> prio (removed h m o) i = if decide (i = o) then prio h m else prio h i).
  { intros i Hi. unfold prio. rewrite removed_lookup by lia. by case_decide. }
  split; intros p c Hc Lc.
  - intros N. assert (p < m)%nat by (unfold child in Hc; lia). rewrite !P by done.
    rewrite (decide_False (P := p = o)) by done. case_decide; [subst; auto|apply HO; [done|lia]].
  - intros Lc'. assert (p < m /\ o < m)%nat by (unfold child in *; lia).
    rewrite !P by lia. rewrite !decide_False by (unfold child in *; lia).
    pose proof (HO p o Hc). pose proof (HO o c Lc). lia.
Qed.

Lemma ordered_less h n : ordered h (S n) -> ordered h n.
Proof. intros HO p c Hc Lc. apply HO; [done|lia]. Qed.

Lemma removed_length h m o : length (removed h m o) = length h.
Proof. unfold removed. destruct (o =? m)%nat; by rewrite ?length_insert. Qed.

Lemma removed_heap_ok q h m o X e mp mhs :
  heap_ok (S m) q -> h = min_heap_ q -> mhs = min_heap_size_ q ->
  (o <= m)%nat -> h !! o = Some e -> pm_rep mp X -> indexed (removed h m o) m X ->
  (exists X0, indexed h (S m) X0) ->
  heap_ok m (mkQueue (removed h m o) mhs m mp).
Proof.
  intros HK -> -> Ho He HX HI (X0 & HI0). pose proof (hk_size _ _ HK). pose proof (hk_limit _ _ HK).
  constructor; cbn [min_heap_ min_heap_size_ hashmap_]; rewrite ?removed_length; try apply HK; try lia.
  - intros e' [He' _]%(removed_holds _ _ _ X0 e); [|lia|done..]. by apply (hk_values _ _ HK).
  - eauto.
Qed.

(** The first part of [RemoveAt]: the entry is removed and the order restored below it. *)
Lemma remove_entry q o m e :
  heap_ok (S m) q -> (o <= m)%nat -> min_heap_ q !! o = Some e ->
  exists q',
    (let q := set_size q m in
     if (o =? size_ q)%nat then e ← heap_at q o; RemoveMapEntry q (value e)
     else q ← Replace q o (size_ q); BubbleDown q o) = Ok q' /\
    heap_ok m q' /\ size_ q' = m /\ min_heap_size_ q' = min_heap_size_ q /\
    (forall e', holds (min_heap_ q') m e' <-> holds (min_heap_ q) (S m) e' /\ e' <> e) /\
    (ordered (min_heap_ q) (S m) -> (forall p, child p o -> prio (min_heap_ q) p <= prio (min_heap_ q) m) ->
     ordered (min_heap_ q') m).
Proof.
  intros HK Ho He. destruct (hk_index _ _ HK) as (X & HX & HI). pose proof (hk_size _ _ HK) as HS.
  destruct (lookup_lt_is_Some_2 (min_heap_ q) m) as [l Hl]; [lia|].
  assert (Ve : value e <> NULL) by (apply (hk_values _ _ HK); exists o; auto with lia).
  assert (Vl : value l <> NULL) by (apply (hk_values _ _ HK); exists m; auto with lia).
  assert (Xe : X !! value e = Some (Z.of_nat o)) by (apply HI; exists o, e; auto with lia).
  pose proof (indexed_size _ _ _ HS HI) as HN. pose proof (hk_limit _ _ HK) as HLim.
  assert (HR : forall e', holds (removed (min_heap_ q) m o) m e' <-> holds (min_heap_ q) (S m) e' /\ e' <> e).
  { intros e'. by eapply removed_holds. }
  cbv zeta. cbn [set_size size_].
  pose proof (removed_indexed (min_heap_ q) m o X e l ltac:(lia) Ho HI He Hl) as RI.
  destruct (RemoveMapEntry_ok (set_size q m) X (value e) (Z.of_nat o)) as (m1 & E1 & H1); [done..|].
  destruct (Nat.eqb_spec o m) as [->|N].
  - rewrite (heap_at_eq (set_size q m) m e He). hbind. rewrite E1. cbn [set_size min_heap_ min_heap_size_ size_].
    eexists. split; [done|]. cbn [min_heap_ min_heap_size_ size_].
    assert (ER : removed (min_heap_ q) m m = min_heap_ q) by (unfold removed; by rewrite Nat.eqb_refl).
    rewrite ER in HR, RI. split.
    { pose proof (removed_heap_ok q _ m m _ e m1 _ HK eq_refl eq_refl ltac:(lia) He H1) as W.
      rewrite ER in W. eauto. }
    split; [done|]. split; [done|]. split; [done|]. intros HO _. by apply ordered_less.
  - unfold Replace. rewrite (heap_at_eq (set_size q m) o e He). hbind. rewrite E1. hbind.
    cbn [set_size min_heap_ min_heap_size_ size_]. erewrite heap_at_eq by exact Hl. hbind.
    edestruct (set_map_ok (mkQueue (min_heap_ q) (min_heap_size_ q) m m1) (delete (value e) X)
      (value l) (Z.of_nat o)) as (m2 & E2 & H2); [done|done| |].
    { rewrite map_size_insert, map_size_delete, Xe. simpl. destruct (delete _ _ !! _); simpl; lia. }
    rewrite E2. hbind. cbn [min_heap_ min_heap_size_ size_ hashmap_].
    rewrite set_heap_eq by (cbn [min_heap_]; lia). hbind. cbn [min_heap_ min_heap_size_ size_ hashmap_].
    assert (ER : removed (min_heap_ q) m o = <[o := l]> (min_heap_ q)).
    { unfold removed. rewrite Hl. by destruct (Nat.eqb_spec o m). }
    rewrite <- ER.
    destruct (BubbleDown_ok m (mkQueue (removed (min_heap_ q) m o) (min_heap_size_ q) m m2) o)
      as (q' & E' & P' & O'); [by eapply removed_heap_ok; eauto|done|lia|].
    exists q'. split; [done|]. split; [apply P'|]. split; [by rewrite (pe_size _ _ _ P')|].
    split; [by rewrite (pe_capacity _ _ _ P')|]. split.
    + intros e'. by rewrite (pe_holds _ _ _ P').
    + intros HO HP. apply O'. apply removed_below; (done || lia).
Qed.

Lemma RemoveAt_ok q o e :
  heap_ok (size_ q) q -> (o < size_ q)%nat -> min_heap_ q !! o = Some e ->
  exists q', RemoveAt q o = Ok q' /\ heap_ok (size_ q') q' /\ size_ q = S (size_ q') /\
    (forall e', holds (min_heap_ q') (size_ q') e' <-> holds (min_heap_ q) (size_ q) e' /\ e' <> e) /\
    (ordered (min_heap_ q) (size_ q) ->
     (forall p, child p o -> prio (min_heap_ q) p <= prio (min_heap_ q) (size_ q')) ->
     ordered (min_heap_ q') (size_ q')).
Proof.
  intros HK Ho He. destruct (size_ q) as [|m] eqn:Em; [lia|].
  destruct (remove_entry q o m e HK ltac:(lia) He) as (q1 & E1 & K1 & S1 & C1 & H1 & O1).
  unfold RemoveAt. rewrite Em. replace (o <? S m)%nat with true by (symmetry; by apply Nat.ltb_lt).
  cbn [hash_assert]. hbind. replace (S m - 1)%nat with m by lia. cbv zeta in E1 |- *. rewrite E1. hbind.
  destruct ((Z.of_nat (size_ q1) <=? min_heap_size_ q1 >> 2) && (kMinimumSize <=? min_heap_size_ q1 >> 1)) eqn:EC.
  2: { exists q1. rewrite S1. auto. }
  apply andb_true_iff in EC as [EC1%Z.leb_le EC2%Z.leb_le].
  rewrite !Z.shiftr_div_pow2 in EC1, EC2 |- * by lia. change (2 ^ 2) with 4 in *. change (2 ^ 1) with 2 in *.
  assert (B1 : Z.of_nat m < min_heap_size_ q1 / 2).
  { rewrite S1 in EC1. unfold kMinimumSize in EC2. pose proof (Z.div_mod (min_heap_size_ q1) 2).
    pose proof (Z.mod_pos_bound (min_heap_size_ q1) 2). pose proof (Z.mod_pos_bound (min_heap_size_ q1) 4).
    pose proof (Z.div_mod (min_heap_size_ q1) 4). lia. }
  assert (B2 : min_heap_size_ q1 / 2 <> min_heap_size_ q1).
  { unfold kMinimumSize in EC2. pose proof (Z.div_mod (min_heap_size_ q1) 2).
    pose proof (Z.mod_pos_bound (min_heap_size_ q1) 2). lia. }
  destruct (PQ_Resize_ok m q1 (min_heap_size_ q1 / 2) K1) as (q2 & E2 & K2 & S2 & A2 & C2);
    [by rewrite S1|lia|done|done|].
  exists q2. rewrite S2, S1. split; [done|]. split; [done|]. split; [done|]. split.
  - intros e'. by rewrite <- (agree_holds _ _ _ _ A2), H1.
  - intros HO HP. apply (agree_ordered _ _ _ A2). auto.
Qed.

Lemma RemoveMinimum_ok b q Q e :
  queue_rep b q Q -> (0 < size_ q)%nat -> min_heap_ q !! 0%nat = Some e ->
  exists q', RemoveMinimum q = Ok q' /\ queue_rep b q' (delete (value e) Q).
Proof.
  intros [[HK HH] HO] HS He. destruct (RemoveAt_ok q 0 e HK HS He) as (q' & E & K & S & H & O).
  exists q'. split.
  { unfold RemoveMinimum, IsEmpty. destruct (Nat.eqb_spec (size_ q) 0); [lia|]. cbn [negb hash_assert]. by hbind. }
  constructor; [constructor; [done|]|intros Hb; apply O; [by apply HO|unfold child; lia]].
  intros v p. rewrite H, lookup_delete_Some, (HH v p). split.
  - intros [N HE]. split; [done|]. intros <-. done.
  - intros [HE N]. split; [|done]. intros EV. apply N.
    destruct HE as (i & Li & Ei). destruct (hk_index _ _ HK) as (X & _ & HI).
    assert (i = 0%nat) as -> by (by apply (indexed_inj _ _ X i 0 (mkPQ p v) e HI)). congruence.
Qed.

(** ** Changing a priority *)

Lemma set_priority_ok q o p v p0 :
  heap_ok (size_ q) q -> (o < size_ q)%nat -> min_heap_ q !! o = Some (mkPQ p0 v) ->
  let q' := mkQueue (<[o := mkPQ p v]> (min_heap_ q)) (min_heap_size_ q) (size_ q) (hashmap_ q) in
  heap_ok (size_ q) q' /\
  (forall e, holds (min_heap_ q') (size_ q) e <->
     e = mkPQ p v \/ holds (min_heap_ q) (size_ q) e /\ value e <> v) /\
  (forall i, prio (min_heap_ q') i = if decide (i = o) then p else prio (min_heap_ q) i).
Proof.
  intros HK Ho He. pose proof (hk_size _ _ HK) as HS. destruct (hk_index _ _ HK) as (X & HX & HI).
  cbv zeta. cbn [min_heap_ min_heap_size_ hashmap_].
  assert (LK : forall i, <[o := mkPQ p v]> (min_heap_ q) !! i =
    if decide (i = o) then Some (mkPQ p v) else min_heap_ q !! i).
  { intros i. destruct (decide (i = o)) as [->|N];
      [by rewrite list_lookup_insert_eq by lia|by rewrite list_lookup_insert_ne]. }
  assert (HH : forall e, holds (<[o := mkPQ p v]> (min_heap_ q)) (size_ q) e <->
    e = mkPQ p v \/ holds (min_heap_ q) (size_ q) e /\ value e <> v).
  { intros e. split.
    - intros (i & Li & E). rewrite LK in E. destruct (decide (i = o)) as [->|N]; [left; congruence|right].
      split; [by exists i|]. intros EV. apply N. by apply (indexed_inj _ _ X i o e (mkPQ p0 v) HI).
    - intros [->|[(i & Li & E) N]].
      + exists o. split; [done|]. rewrite LK. by rewrite decide_True.
      + exists i. split; [done|]. rewrite LK, decide_False; [done|]. intros ->.
        rewrite He in E. injection E as <-. done. }
  split; [|split; [done|]].
  - constructor; cbn [min_heap_ min_heap_size_ hashmap_]; rewrite ?length_insert; try apply HK.
    + intros e [->|[HE _]]%HH; [|by apply (hk_values _ _ HK)].
      apply (hk_values _ _ HK (mkPQ p0 v)). by exists o.
    + exists X. split; [done|]. intros w k. rewrite (HI w k). split.
      * intros (i & e & Li & E & EV & EK). destruct (decide (i = o)) as [->|N].
        -- exists o, (mkPQ p v). split; [done|]. rewrite LK, decide_True by done.
           rewrite He in E. injection E as <-. done.
        -- exists i, e. split; [done|]. by rewrite LK, decide_False.
      * intros (i & e & Li & E & EV & EK). rewrite LK in E. destruct (decide (i = o)) as [->|N].
        -- injection E as <-. exists o, (mkPQ p0 v). done.
        -- by exists i, e.
  - intros i. unfold prio. rewrite LK. by case_decide.
Qed.

(** Changed priorities leave the order intact but for one side. *)
Section change.
Context (h h' : list PQEntry) (n o : nat) (p : Z).
Context (HO : ordered h n) (Ho : (o < n)%nat).
Context (HP : forall i, prio h' i = if decide (i = o) then p else prio h i).

Lemma change_above par : child par o -> p <= prio h par -> above h' n o.
Proof.
  intros HC Hp. pose proof (HO par o HC Ho) as Q. split; intros a c Hac Lc.
  - intros N. rewrite !HP. rewrite (decide_False (P := c = o)) by done. case_decide as E; [|by apply HO].
    subst a. pose proof (HO o c Hac Lc). lia.
  - intros Lc'. rewrite !HP. rewrite !decide_False by (unfold child in *; lia).
    pose proof (HO a o Hac Ho). pose proof (HO o c Lc Lc'). lia.
Qed.

Lemma change_below : (forall par, child par o -> prio h par <= p) -> below h' n o.
Proof.
  intros Hp. split; intros a c Hac Lc.
  - intros N. rewrite !HP. rewrite (decide_False (P := a = o)) by done.
    case_decide as E; [subst c; by apply Hp|by apply HO].
  - intros Lc'. rewrite !HP. rewrite !decide_False by (unfold child in *; lia).
    pose proof (HO a o Hac Ho). pose proof (HO o c Lc Lc'). lia.
Qed.

Lemma change_same par : child par o -> p = prio h par -> ordered h' n.
Proof.
  intros HC Hp. destruct (change_above par HC) as [A _]; [lia|]. intros a c Hac Lc.
  destruct (decide (c = o)) as [->|N]; [|by apply A]. rewrite !HP.
  assert (a = par) as -> by (unfold child in *; lia). rewrite decide_False by (unfold child in *; lia).
  rewrite decide_True by done. lia.
Qed.
End change.

(** Priorities whose differences do not overflow. *)
Definition small_priorities (Q : gmap Z Z) : Prop := forall v p, Q !! v = Some p -> is_s 63 p.

Lemma small_difference a b : is_s 63 a -> is_s 63 b -> WillSubOverflow a b = false.
Proof.
  intros Ha Hb. apply WillSubOverflow_spec; rewrite ?is_s64; unfold is_s, kMinInt64, kMaxInt64 in *;
    change (2 ^ (63 - 1)) with 0x4000000000000000 in *; lia.
Qed.

Lemma change_rep b q q1 q2 Q v p0 p :
  entries_rep q Q -> size_ q1 = size_ q -> Q !! v = Some p0 ->
  (forall e, holds (min_heap_ q1) (size_ q) e <->
     e = mkPQ p v \/ holds (min_heap_ q) (size_ q) e /\ value e <> v) ->
  permuted (size_ q) q1 q2 -> (b = true -> ordered (min_heap_ q2) (size_ q)) -> queue_rep b q2 (<[v := p]> Q).
Proof.
  intros [HK HH] S1 HQ H1 P2 O2. pose proof (pe_size _ _ _ P2) as S2. rewrite S1 in S2.
  constructor; [constructor|]; rewrite S2; [apply P2| |done].
  intros w x. rewrite (pe_holds _ _ _ P2), H1, lookup_insert_Some, (HH w x). cbn [value]. split.
  - intros [[-> ->]|[N HE]]; [by left|right; split; [done|congruence]].
  - intros [[= <- <-]|[HE N]]; [by left|right; split; [congruence|done]].
Qed.

Lemma InsertOrChangePriority_ok b q Q p v :
  queue_rep b q Q -> v <> NULL -> Z.of_nat (S (size_ q)) <= map_limit ->
  small_priorities Q -> is_s 63 p ->
  exists q', InsertOrChangePriority q p v = Ok (q', bool_decide (Q !! v = None)) /\
    queue_rep b q' (<[v := p]> Q).
Proof.
  intros HR Hv HLim HSm Hp. pose proof HR as [HE HO]. pose proof (find_ok q Q v HE Hv) as HF.
  unfold InsertOrChangePriority. destruct (Q !! v) as [p0|] eqn:EQ.
  2: { rewrite HF. hbind. destruct (PQ_Insert_ok b q Q p v HR Hv EQ HLim) as (q' & E & H'). rewrite E. hbind.
       exists q'. by rewrite bool_decide_eq_true_2. }
  rewrite bool_decide_eq_false_2 by done. destruct HF as (o & Lo & Ho & EF). rewrite EF. hbind. cbv zeta.
  rewrite Nat2Z.id. replace (o <? size_ q)%nat with true by (symmetry; by apply Nat.ltb_lt).
  cbn [hash_assert]. hbind. rewrite (heap_at_eq _ _ _ Ho). hbind. cbn [value].
  pose proof (hk_size _ _ (er_ok _ _ HE)) as HS. rewrite set_heap_eq by lia. hbind.
  destruct (set_priority_ok q o p v p0 (er_ok _ _ HE) Lo Ho) as (K1 & H1 & P1). cbv zeta in K1, H1, P1.
  set (q1 := mkQueue (<[o := mkPQ p v]> (min_heap_ q)) (min_heap_size_ q) (size_ q) (hashmap_ q)) in *.
  enough (exists q2, (if (o =? 0)%nat then BubbleDown q1 o
      else ep ← heap_at q1 ((o - 1) / 2)%nat;
           if WillSubOverflow p (priority ep) then Undefined
           else if p - priority ep <? 0 then BubbleUp q1 o
                else if 0 <? p - priority ep then BubbleDown q1 o else Ok q1) = Ok q2 /\
    permuted (size_ q) q1 q2 /\ (b = true -> ordered (min_heap_ q2) (size_ q))) as (q2 & E2 & P2 & O2).
  { exists q2. rewrite E2. hbind. split; [done|]. by eapply (change_rep b q q1). }
  destruct (Nat.eqb_spec o 0) as [->|N].
  { destruct (BubbleDown_ok (size_ q) q1 0 K1 eq_refl Lo) as (q2 & E2 & P2 & O2). exists q2.
    split; [done|]. split; [done|]. intros Hb. apply O2. eapply change_below; [exact (HO Hb)|done|exact P1|].
    unfold child. intros par Hc. lia. }
  pose proof (parent_child o N) as HC. set (par := ((o - 1) / 2)%nat) in *.
  assert (Lp : (par < o)%nat) by (unfold child in HC; lia).
  destruct (lookup_lt_is_Some_2 (min_heap_ q) par) as [ep Ep]; [lia|].
  assert (Ep1 : min_heap_ q1 !! par = Some ep) by (unfold q1; simpl; rewrite list_lookup_insert_ne; [done|lia]).
  rewrite (heap_at_eq _ _ _ Ep1). hbind.
  assert (Sp : is_s 63 (priority ep)).
  { apply (HSm (value ep)). apply (er_holds _ _ HE). exists par. split; [lia|]. by destruct ep. }
  rewrite small_difference by done. pose proof (prio_eq _ _ _ Ep) as EP.
  destruct (Z.ltb_spec (p - priority ep) 0) as [D|D].
  { destruct (BubbleUp_ok (size_ q) q1 o K1 Lo) as (q2 & E2 & P2 & O2). exists q2. split; [done|]. split; [done|].
    intros Hb. apply O2. eapply change_above; [exact (HO Hb)|done|exact P1|exact HC|lia]. }
  destruct (Z.ltb_spec 0 (p - priority ep)) as [D'|D'].
  { destruct (BubbleDown_ok (size_ q) q1 o K1 eq_refl Lo) as (q2 & E2 & P2 & O2). exists q2.
    split; [done|]. split; [done|]. intros Hb. apply O2. eapply change_below; [exact (HO Hb)|done|exact P1|].
    intros par' Hc'. assert (par' = par) as -> by (unfold child in *; lia). lia. }
  exists q1. split; [done|]. split; [by apply permuted_refl|]. intros Hb.
  eapply change_same; [exact (HO Hb)|done|exact P1|exact HC|lia].
Qed.

(** ** Removal by value *)

(** The entry is removed; the order survives if the last entry is not smaller than the parent
    of the removed one. *)
Lemma RemoveByValue_ok q Q v :
  entries_rep q Q -> v <> NULL ->
  exists q', RemoveByValue q v = Ok (q', bool_decide (is_Some (Q !! v))) /\ entries_rep q' (delete v Q) /\
    (Q !! v = None -> q' = q).
Proof.
  intros HE Hv. pose proof (find_ok q Q v HE Hv) as HF. unfold RemoveByValue.
  destruct (Q !! v) as [p|] eqn:EQ.
  2: { rewrite HF. hbind. exists q. rewrite bool_decide_eq_false_2 by (by intros [? ?]).
       split; [done|]. split; [by rewrite delete_id|done]. }
  rewrite bool_decide_eq_true_2 by eauto. destruct HF as (o & Lo & Ho & EF). rewrite EF. hbind.
  rewrite Nat2Z.id. destruct HE as [HK HH].
  destruct (RemoveAt_ok q o (mkPQ p v) HK Lo Ho) as (q' & E & K & S & H & _). rewrite E. hbind.
  destruct (hk_index _ _ K) as (X & HX & HI).
  rewrite (pm_size_ok _ _ HX), (indexed_size _ _ _ (hk_size _ _ K) HI), Z.eqb_refl. cbn [hash_assert]. hbind.
  exists q'. split; [done|]. split; [|done]. constructor; [done|]. intros w x. rewrite H, lookup_delete_Some, (HH w x). split.
  - intros [N HE]. split; [done|]. congruence.
  - intros [HE N]. split; [|done]. intros <-. apply N.
    apply HH in HE. congruence.
Qed.
End queue.

(** ** Operations of a client *)

(** [Push] inserts a value or changes its priority; [Pop] takes the minimum out of the queue
    unless it is empty; [Has] tests for a value. *)
Inductive pq_op := Push (p v : Z) | Pop | Has (v : Z) | Drop (v : Z).

Inductive pq_out := Fresh (b : bool) | Popped (e : option PQEntry) | Found (b : bool) | Dropped (b : bool).

Definition pq_op_ok (o : pq_op) : Prop :=
  match o with Push p v => is_s 63 p /\ v <> NULL | Pop => True | Has v | Drop v => v <> NULL end.

Section client.
Context {M : Type} `{!PointerMap M}.

Definition run_pq (q : PriorityQueue M) (o : pq_op) : hash_result (PriorityQueue M * pq_out) :=
  match o with
  | Push p v => '(q, b) ← InsertOrChangePriority q p v; Ok (q, Fresh b)
  | Pop =>
      if IsEmpty q then Ok (q, Popped None)
      else e ← PQ_Minimum q; q ← RemoveMinimum q; Ok (q, Popped (Some e))
  | Has v => b ← ContainsValue q v; Ok (q, Found b)
  | Drop v => '(q, b) ← RemoveByValue q v; Ok (q, Dropped b)
  end.

Fixpoint run_pqs (q : PriorityQueue M) (os : list pq_op) : hash_result (PriorityQueue M * list pq_out) :=
  match os with
  | [] => Ok (q, [])
  | o :: os => '(q, r) ← run_pq q o; '(q, rs) ← run_pqs q os; Ok (q, r :: rs)
  end.
End client.

(** ** The specification *)

(** A step of the specification: a minimum may be any of several. After an entry has been removed by
    its value the queue is no longer [sorted], and what is extracted is some entry. *)
Inductive pq_step (sorted : bool) (Q : gmap Z Z) : pq_op -> pq_out -> bool -> gmap Z Z -> Prop :=
| step_push p v : pq_step sorted Q (Push p v) (Fresh (bool_decide (Q !! v = None))) sorted (<[v := p]> Q)
| step_pop_empty : Q = ∅ -> pq_step sorted Q Pop (Popped None) sorted Q
| step_pop e :
    Q !! value e = Some (priority e) -> (sorted = true -> forall v p, Q !! v = Some p -> priority e <= p) ->
    pq_step sorted Q Pop (Popped (Some e)) sorted (delete (value e) Q)
| step_has v : pq_step sorted Q (Has v) (Found (bool_decide (is_Some (Q !! v)))) sorted Q
| step_drop v :
    pq_step sorted Q (Drop v) (Dropped (bool_decide (is_Some (Q !! v)))) (sorted && bool_decide (Q !! v = None)) (delete v Q).

Inductive pq_steps (sorted : bool) (Q : gmap Z Z) : list pq_op -> list pq_out -> bool -> gmap Z Z -> Prop :=
| steps_nil : pq_steps sorted Q [] [] sorted Q
| steps_cons o r sorted1 Q1 os rs sorted2 Q2 :
    pq_step sorted Q o r sorted1 Q1 -> pq_steps sorted1 Q1 os rs sorted2 Q2 -> pq_steps sorted Q (o :: os) (r :: rs) sorted2 Q2.

(** ** The refinement *)

Section refine.
Context {M : Type} `{!PointerMap M} `{!PointerMapLaws M}.

Lemma entries_rep_size (q : PriorityQueue M) Q : entries_rep q Q -> size Q = size_ q.
Proof.
  intros [HK HH]. destruct (hk_index _ _ HK) as (X & HX & HI).
  rewrite <- (indexed_size _ _ _ (hk_size _ _ HK) HI). rewrite <- !(size_dom (D:=gset Z)). f_equal.
  apply set_eq. intros v. rewrite !elem_of_dom. split; intros [x Hx].
  - apply HH in Hx as (i & Li & Ei). exists (Z.of_nat i). apply HI. by exists i, (mkPQ x v).
  - apply HI in Hx as (i & [p w] & Li & Ei & Ev & _). simpl in Ev. subst w. exists p. apply HH. by exists i.
Qed.

Lemma run_pq_ok b q Q o :
  queue_rep b q Q -> small_priorities Q -> pq_op_ok o -> Z.of_nat (S (size Q)) <= map_limit ->
  exists q' r b' Q', run_pq q o = Ok (q', r) /\ pq_step b Q o r b' Q' /\ queue_rep b' q' Q' /\
    small_priorities Q' /\ (size Q' <= S (size Q))%nat.
Proof.
  intros HR HS Ho HL. pose proof HR as [HE HO]. rewrite (entries_rep_size _ _ HE) in HL.
  destruct o as [p v| |v|v]; unfold run_pq.
  - destruct Ho as [Hp Hv].
    destruct (InsertOrChangePriority_ok b q Q p v HR Hv HL HS Hp) as (q' & -> & HR'). hbind.
    do 4 eexists. split; [done|]. split; [apply step_push|]. split; [done|]. split.
    + intros w x. rewrite lookup_insert_Some. intros [[_ <-]|[_ ?]]; [done|by eapply HS].
    + rewrite map_size_insert. destruct (Q !! v); simpl; lia.
  - unfold IsEmpty. destruct (Nat.eqb_spec (size_ q) 0) as [E|N].
    + do 4 eexists. split; [done|]. split; [apply step_pop_empty|auto].
      apply map_size_empty_iff. by rewrite (entries_rep_size _ _ HE).
    + assert (HN : Q <> ∅) by (intros ->; apply N; by rewrite <- (entries_rep_size _ _ HE), map_size_empty).
      destruct (Minimum_ok b q Q HR HN) as (e & -> & HQ & H0 & He & Hmin). hbind.
      destruct (RemoveMinimum_ok b q Q e HR H0 He) as (q' & -> & HR'). hbind.
      do 4 eexists. split; [done|]. split; [by apply step_pop|]. split; [done|]. split.
      * intros w x [_ ?]%lookup_delete_Some. by eapply HS.
      * rewrite map_size_delete, HQ. simpl. lia.
  - rewrite (ContainsValue_ok q Q v HE Ho). hbind.
    do 4 eexists. split; [done|]. split; [apply step_has|auto].
  - destruct (RemoveByValue_ok q Q v HE Ho) as (q' & E & HE' & HK). rewrite E. hbind.
    do 4 eexists. split; [done|]. split; [apply step_drop|]. split; [|split].
    + split; [done|]. intros [Hb HN%bool_decide_eq_true]%andb_true_iff. rewrite (HK HN). by apply HO.
    + intros w x [_ ?]%lookup_delete_Some. by eapply HS.
    + rewrite map_size_delete. destruct (Q !! v); simpl; lia.
Qed.

Lemma run_pqs_ok os : forall b q Q,
  queue_rep b q Q -> small_priorities Q -> Forall pq_op_ok os ->
  Z.of_nat (size Q) + Z.of_nat (length os) <= map_limit ->
  exists q' rs b' Q', run_pqs q os = Ok (q', rs) /\ pq_steps b Q os rs b' Q' /\ queue_rep b' q' Q'.
Proof.
  induction os as [|o os IH]; intros b q Q HR HS HF HL.
  { exists q, [], b, Q. split; [done|]. split; [constructor|done]. }
  inversion HF as [|? ? Ho Hos]; subst. cbn [length] in HL. cbn [run_pqs].
  destruct (run_pq_ok b q Q o HR HS Ho) as (q1 & r & b1 & Q1 & -> & HSt & HR1 & HS1 & HL1); [lia|]. hbind.
  destruct (IH b1 q1 Q1 HR1 HS1 Hos) as (q2 & rs & b2 & Q2 & -> & HSt2 & HR2); [lia|]. hbind.
  exists q2, (r :: rs), b2, Q2. split; [done|]. split; [by econstructor|done].
Qed.
End refine.

(** A new queue, with its map. *)
Definition new_queue : hash_result (PriorityQueue SimpleHashMap) :=
  m ← SimpleHashMap_new kMinimumSize; Ok (PriorityQueue_new m).

Lemma new_queue_ok : exists q, new_queue = Ok q /\ queue_rep true q ∅.
Proof.
  assert (HM : exists m, SimpleHashMap_new kMinimumSize = Ok m /\ hashmap_rep m ∅).
  { destruct (Initialize_spec SamePointerValue 4) as (m & E & Ec & _ & Ect & Hi); [lia|].
    exists m. split; [done|]. split; [split; [done|by rewrite Ect, map_to_list_empty]|by rewrite Ec]. }
  destruct HM as (m & E & HR). unfold new_queue. rewrite E. hbind. eexists. split; [done|].
  constructor; [constructor|].
  - constructor; cbn [PriorityQueue_new min_heap_ min_heap_size_ size_ hashmap_]; try done; try lia.
    + intros e (i & ? & _). lia.
    + exists ∅. split; [done|]. intros v k. rewrite lookup_empty. split; [done|]. intros (i & e & ? & _). lia.
  - intros v p. rewrite lookup_empty. split; [done|]. intros (i & ? & _). simpl in *. lia.
  - intros _ p c _ ?. simpl in *. lia.
Qed.

(** C18: a queue over [SimpleHashMap], used through any sequence of up to [2 ^ 28] insertions, changes
    of priority, tests, removals by value and extractions of the minimum, with values that are
    not [NULL] and priorities of 63 bits, behaves as a finite map from values to priorities:
    every operation terminates, no assertion of the queue or of its map fails, the entries and
    the answers are those of the map. As long as no entry has been removed by its value, every
    extraction yields an entry of least priority; after that only some entry (see
    [RemoveByValue_breaks_order]). *)
Theorem priority_queue_refines os :
  Forall pq_op_ok os -> Z.of_nat (length os) <= map_limit ->
  exists q q' rs sorted Q, new_queue = Ok q /\ run_pqs q os = Ok (q', rs) /\
    pq_steps true ∅ os rs sorted Q /\ queue_rep sorted q' Q.
Proof.
  intros HF HL. destruct new_queue_ok as (q & E & HR).
  destruct (run_pqs_ok os true q ∅ HR) as (q' & rs & b & Q & E' & HS & HR'); [done|done|by rewrite map_size_empty|].
  exists q, q', rs, b, Q. auto.
Qed.

Lemma priority_queue_refines_witness :
  exists q q' rs sorted Q, new_queue = Ok q /\
    run_pqs q [Push 5 1; Push 3 2; Push 4 3; Push 1 3; Pop; Has 3; Pop; Push 2 4; Drop 1; Pop] = Ok (q', rs) /\
    pq_steps true ∅ [Push 5 1; Push 3 2; Push 4 3; Push 1 3; Pop; Has 3; Pop; Push 2 4; Drop 1; Pop] rs sorted Q /\
    queue_rep sorted q' Q.
Proof.
  apply (priority_queue_refines [Push 5 1; Push 3 2; Push 4 3; Push 1 3; Pop; Has 3; Pop; Push 2 4; Drop 1; Pop]).
  - repeat constructor; vm_compute; done.
  - vm_compute. done.
Defined.

Example priority_queue_example :
  (q ← new_queue; '(_, rs) ← run_pqs q [Push 5 1; Push 3 2; Push 4 3; Push 1 3; Pop; Has 3; Pop; Pop; Pop]; Ok rs)
  = Ok [Fresh true; Fresh true; Fresh true; Fresh false; Popped (Some (mkPQ 1 3)); Found false;
        Popped (Some (mkPQ 3 2)); Popped (Some (mkPQ 5 1)); Popped None].
Proof. vm_compute. reflexivity. Qed.

(** ** Removal by value *)

(** The queue with seven entries, the fourth of which will be removed. *)
Definition seven : list pq_op :=
  [Push 1 101; Push 10 102; Push 2 103; Push 20 104; Push 21 105; Push 5 106; Push 3 107].

(** After [RemoveByValue] the queue can return an entry that is not of least priority:
    [RemoveAt] moves the last entry of the heap into the place of the removed one and only
    moves it down, though it may be smaller than its new parent.  Here, once two minima have
    been extracted, [Minimum] gives priority 5 while the queue still holds 107 with
    priority 3. *)
Example RemoveByValue_breaks_order :
  exists q0 q1 rs q2 q3 out,
    new_queue = Ok q0 /\ run_pqs q0 seven = Ok (q1, rs) /\
    RemoveByValue q1 104 = Ok (q2, true) /\
    run_pqs q2 [Pop; Pop] = Ok (q3, out) /\
    PQ_Minimum q3 = Ok (mkPQ 5 106) /\
    holds (min_heap_ q3) (size_ q3) (mkPQ 3 107).
Proof.
  do 6 eexists. split; [vm_compute; reflexivity|]. split; [vm_compute; reflexivity|].
  split; [vm_compute; reflexivity|]. split; [vm_compute; reflexivity|].
  split; [vm_compute; reflexivity|]. exists 3%nat. split; [vm_compute; lia|reflexivity].
Qed.
