(* ===== verification/Uri.v ===== *)
(** Parsing and resolving URIs: [runtime/vm/uri.h] and [.cc].

    A C string is the list of its characters as unsigned bytes, without the terminating zero;
    a pointer into it is the rest of the list, which a read past the end sees as the zero. The
    buffers that the code allocates are the lists it writes into them. Whether [char] is
    signed, which depends on the target, is a type class. *)
From Stdlib Require Import ZArith Lia Ascii String.
From stdpp Require Import base numbers list.
From S2P Require Import Prelude Utils.
Local Open Scope Z_scope.
Local Open Scope cxx_scope.

Abbreviation result := (outcome utils_error).
Abbreviation cstring := (list Z).

Class CharType := { char_signed : bool }.

(** A string literal. *)
Definition literal (s : string) : cstring := (fun c => Z.of_nat (nat_of_ascii c)) <$> list_ascii_of_string s.

Abbreviation slash := 47.
Abbreviation colon := 58.
Abbreviation at_sign := 64.
Abbreviation hash := 35.
Abbreviation question := 63.
Abbreviation percent := 37.
Abbreviation dot := 46.

(** ** The C library *)

(** [*p] and [p[i]]. *)
Definition char_at (s : cstring) (i : nat) : Z := default 0 (s !! i).

Definition mem (c : Z) (s : cstring) : bool := existsb (Z.eqb c) s.

Fixpoint strcspn (s reject : cstring) : nat :=
  match s with
  | [] => 0
  | c :: s => if mem c reject then 0 else S (strcspn s reject)
  end.

Definition strcmp_eq (a b : cstring) : bool := bool_decide (a = b).

(** [strncmp(a, b, n) == 0]: the terminating zeros take part in the comparison. *)
Definition strncmp_eq (a b : cstring) (n : nat) : bool := bool_decide (take n (a ++ [0]) = take n (b ++ [0])).

(** [strrchr]: the index of the last occurrence. *)
Fixpoint strrchr (s : cstring) (c : Z) : option nat :=
  match s with
  | [] => None
  | d :: s =>
      match strrchr s c with
      | Some i => Some (S i)
      | None => if d =? c then Some 0%nat else None
      end
  end.

(** The conversion of a [char] to [int]. *)
Definition int_of_char `{CharType} (c : Z) : Z := if char_signed then wraps 8 c else c.

Definition hex_digit (d : Z) : Z := if d <? 10 then 48 + d else 65 + (d - 10).

(** The digits of [n] in hexadecimal, [digits] at most, without leading zeros. *)
Fixpoint hex_digits (digits : nat) (n : Z) : cstring :=
  match digits with
  | O => []
  | S digits => (if n <? 16 then [] else hex_digits digits (n / 16)) ++ [hex_digit (n mod 16)]
  end.

(** [SNPrint(buffer, 4, "%%%02X", v)]: the first three characters of the output. *)
Definition print_escape (v : Z) : cstring :=
  let digits := hex_digits 8 (wrapu 32 v) in
  take 3 (percent :: (if (length digits <? 2)%nat then 48 :: digits else digits)).

(** ** Characters *)

Definition IsUnreservedChar (value : Z) : bool :=
  ((97 <=? value) && (value <=? 122)) || ((65 <=? value) && (value <=? 90)) ||
  ((48 <=? value) && (value <=? 57)) || (value =? 45) || (value =? dot) || (value =? 95) || (value =? 126).

Definition IsDelimiter (value : Z) : bool := mem value (literal ":/?#[]@!$&'()*+,;=").

Definition IsHexDigit (value : Z) : bool :=
  ((48 <=? value) && (value <=? 57)) || ((65 <=? value) && (value <=? 70)) || ((97 <=? value) && (value <=? 102)).

Definition HexValue (digit : Z) : result Z :=
  if (48 <=? digit) && (digit <=? 57) then Ok (digit - 48)
  else if (65 <=? digit) && (digit <=? 70) then Ok (digit - 65 + 10)
  else if (97 <=? digit) && (digit <=? 102) then Ok (digit - 97 + 10)
  else Fatal UtilsAssertion.

(** [s] is the string from [pos] to [len]; -1 when no escape sequence is there. *)
Definition GetEscapedValue (s : cstring) : result Z :=
  match s with
  | c :: digit1 :: digit2 :: _ =>
      if negb (c =? percent) then Ok (-1)
      else if negb (IsHexDigit digit1) || negb (IsHexDigit digit2) then Ok (-1)
      else a ← HexValue digit1; b ← HexValue digit2; Ok (a * 16 + b)
  | _ => Ok (-1)
  end.

Section uri.
Context `{CharType}.

(** ** Escapes *)

(** What is written for an escape sequence, and for another character. *)
Definition escaped_output (escaped_value : Z) : cstring :=
  if IsUnreservedChar escaped_value then [escaped_value] else print_escape escaped_value.

Definition plain_output (c : Z) : cstring :=
  let v := int_of_char c in
  if (v =? percent) || IsDelimiter v || IsUnreservedChar v then [c] else print_escape v.

Fixpoint normalize_loop (s : cstring) : result cstring :=
  match s with
  | [] => Ok []
  | c :: tail =>
      escaped_value ← GetEscapedValue s;
      if 0 <=? escaped_value then
        match tail with
        | _ :: _ :: rest => out ← normalize_loop rest; Ok (escaped_output escaped_value ++ out)
        | _ => Ok []
        end
      else out ← normalize_loop tail; Ok (plain_output c ++ out)
  end.

(** [NormalizeEscapes(str, len)]: [Alloc] asserts that its size is not negative. *)
Definition NormalizeEscapes (str : cstring) (len : Z) : result cstring :=
  _ ← utils_assert (0 <=? len * 3 + 1);
  normalize_loop (take (Z.to_nat len) str).

Fixpoint StringLower (s : cstring) : result cstring :=
  match s with
  | [] => Ok []
  | c :: tail =>
      escaped_value ← GetEscapedValue s;
      if 0 <=? escaped_value then
        match tail with
        | d1 :: d2 :: rest => out ← StringLower rest; Ok (c :: d1 :: d2 :: out)
        | _ => Ok s
        end
      else
        out ← StringLower tail;
        Ok ((if (65 <=? c) && (c <=? 90) then c + (97 - 65) else c) :: out)
  end.

(** ** Parsing *)

(** A null pointer is [None]; the path is never null after a successful parse. *)
Record ParsedUri := mkUri {
  scheme : option cstring;
  userinfo : option cstring;
  host : option cstring;
  port : option cstring;
  path : cstring;
  query : option cstring;
  fragment : option cstring;
}.

(** The user info, the host, the port and the length of the authority. *)
Definition ParseAuthority (authority : cstring)
    : result (option cstring * option cstring * option cstring * Z) :=
  let userinfo_len := strcspn authority [at_sign; slash] in
  '(userinfo, current, len) ←
    (if char_at authority userinfo_len =? at_sign then
       u ← NormalizeEscapes authority (Z.of_nat userinfo_len);
       Ok (Some u, drop (userinfo_len + 1) authority, Z.of_nat userinfo_len + 1)
     else Ok (None, authority, 0));
  let host_len := strcspn current [colon; slash] in
  host ← NormalizeEscapes current (Z.of_nat host_len);
  host ← StringLower host;
  let len := len + Z.of_nat host_len in
  if char_at current host_len =? colon then
    let port_start := drop (host_len + 1) current in
    let port_len := strcspn port_start [slash] in
    Ok (userinfo, Some host, Some (take port_len port_start), len + (1 + Z.of_nat port_len))
  else Ok (userinfo, Some host, None, len).

(** [None] when it returns [false]. *)
Definition ParseUri (uri : cstring) : result (option ParsedUri) :=
  let scheme_len := strcspn uri [colon; slash] in
  '(scheme, rest) ←
    (if char_at uri scheme_len =? colon then
       s ← StringLower (take scheme_len uri); Ok (Some s, drop (scheme_len + 1) uri)
     else Ok (None, uri));
  let hash_pos := strcspn rest [hash] in
  fragment ←
    (if char_at rest hash_pos =? hash then
       let fragment_start := drop (hash_pos + 1) rest in
       f ← NormalizeEscapes fragment_start (Z.of_nat (length fragment_start)); Ok (Some f)
     else Ok None);
  let question_pos := strcspn rest [question; hash] in
  query ←
    (if char_at rest question_pos =? question then
       q ← NormalizeEscapes (drop (question_pos + 1) rest) (Z.of_nat hash_pos - (Z.of_nat question_pos + 1));
       Ok (Some q)
     else Ok None);
  '(userinfo, host, port, path_start) ←
    (if (char_at rest 0 =? slash) && (char_at rest 1 =? slash) then
       '(userinfo, host, port, authority_len) ← ParseAuthority (drop 2 rest);
       Ok (userinfo, host, port, if authority_len <? 0 then -1 else 2 + authority_len)
     else Ok (None, None, None, 0));
  if path_start <? 0 then Ok None
  else
    path ← NormalizeEscapes (drop (Z.to_nat path_start) rest) (Z.of_nat question_pos - path_start);
    Ok (Some (mkUri scheme userinfo host port path query fragment)).

(** ** Paths *)

(** The loop of [RemoveLastSegment]: where it stops. *)
Fixpoint last_segment (buffer : cstring) (current : nat) : nat :=
  match current with
  | O => O
  | S before => if char_at buffer current =? slash then current else last_segment buffer before
  end.

(** [buffer] is what has been written up to [current]. *)
Definition RemoveLastSegment (buffer : cstring) : cstring :=
  match length buffer with
  | O => buffer
  | S last => take (last_segment buffer last) buffer
  end.

Definition SegmentLength (input : cstring) : nat :=
  match input with
  | c :: rest => if c =? slash then S (strcspn rest [slash]) else strcspn input [slash]
  | [] => strcspn input [slash]
  end.

(** One iteration of the loop of [RemoveDotSegments]: the new input and output. *)
Definition dot_step (input output : cstring) : cstring * cstring :=
  if strncmp_eq (literal "../") input 3 then (drop 3 input, output)
  else if strncmp_eq (literal "./") input 3 then (drop 2 input, output)
  else if strncmp_eq (literal "/./") input 3 then (drop 2 input, output)
  else if strcmp_eq (literal "/.") input then (literal "/", output)
  else if strncmp_eq (literal "/../") input 4 then (drop 3 input, RemoveLastSegment output)
  else if strcmp_eq (literal "/..") input then (literal "/", RemoveLastSegment output)
  else if strcmp_eq (literal "..") input then (drop 2 input, output)
  else if strcmp_eq (literal ".") input then (drop 1 input, output)
  else
    let segment_len := SegmentLength input in
    let separator := if negb (char_at input 0 =? slash) && negb (bool_decide (output = [])) then [slash] else [] in
    (drop segment_len input, output ++ separator ++ take segment_len input).

Fixpoint dot_loop (fuel : nat) (input output : cstring) : result cstring :=
  match input with
  | [] => Ok output
  | _ =>
      match fuel with
      | O => Fatal UtilsFuel
      | S fuel => let '(input, output) := dot_step input output in dot_loop fuel input output
      end
  end.

Definition RemoveDotSegments (path : cstring) : result cstring := dot_loop (length path) path [].

Definition MergePaths (base_path ref_path : cstring) : cstring :=
  match base_path with
  | [] => slash :: ref_path
  | _ =>
      match strrchr base_path slash with
      | None => ref_path
      | Some truncated_base_len => take truncated_base_len base_path ++ slash :: ref_path
      end
  end.

(** ** Building and resolving *)

(** A separator and the part after it, or nothing for a null part. *)
Definition part_after (separator : cstring) (part : option cstring) : cstring :=
  match part with None => [] | Some p => separator ++ p end.

Definition BuildUri (uri : ParsedUri) : result cstring :=
  let tail := part_after [question] (query uri) ++ part_after [hash] (fragment uri) in
  match scheme uri with
  | None =>
      _ ← utils_assert (bool_decide (userinfo uri = None /\ host uri = None /\ port uri = None));
      Ok (path uri ++ tail)
  | Some scheme =>
      match host uri with
      | None =>
          _ ← utils_assert (bool_decide (userinfo uri = None /\ port uri = None));
          Ok (scheme ++ [colon] ++ path uri ++ tail)
      | Some host =>
          let user := match userinfo uri with None => [] | Some u => u ++ [at_sign] end in
          let path_separator := if (char_at (path uri) 0 =? 0) || (char_at (path uri) 0 =? slash) then [] else [slash] in
          Ok (scheme ++ literal "://" ++ user ++ host ++ part_after [colon] (port uri) ++
              path_separator ++ path uri ++ tail)
      end
  end.

(** [None] when it returns [false]. *)
Definition ResolveUri (ref_uri base_uri : cstring) : result (option cstring) :=
  ref ← ParseUri ref_uri;
  match ref with
  | None => Ok None
  | Some ref =>
      match scheme ref with
      | Some s =>
          if strcmp_eq s (literal "dart") then Ok (Some ref_uri)
          else
            p ← RemoveDotSegments (path ref);
            target ← BuildUri (mkUri (scheme ref) (userinfo ref) (host ref) (port ref) p (query ref) (fragment ref));
            Ok (Some target)
      | None =>
          base ← ParseUri base_uri;
          match base with
          | None => Ok None
          | Some base =>
              if match scheme base with Some s => strcmp_eq s (literal "dart") | None => false end then Ok (Some ref_uri)
              else if bool_decide (host ref <> None) then
                p ← RemoveDotSegments (path ref);
                target ← BuildUri (mkUri (scheme base) (userinfo ref) (host ref) (port ref) p (query ref) (fragment ref));
                Ok (Some target)
              else if char_at (path ref) 0 =? 0 then
                target ← BuildUri (mkUri (scheme base) (userinfo base) (host base) (port base) (path base)
                  (match query ref with None => query base | q => q end) (fragment ref));
                Ok (Some target)
              else if char_at (path ref) 0 =? slash then
                p ← RemoveDotSegments (path ref);
                target ← BuildUri (mkUri (scheme base) (userinfo base) (host base) (port base) p (query ref) (fragment ref));
                Ok (Some target)
              else if bool_decide (scheme base = None) && bool_decide (host base = None) &&
                      negb (char_at (path base) 0 =? slash) then Ok None
              else
                p ← RemoveDotSegments (MergePaths (path base) (path ref));
                target ← BuildUri (mkUri (scheme base) (userinfo base) (host base) (port base) p (query ref) (fragment ref));
                Ok (Some target)
          end
      end
  end.

End uri.

(** ** The examples of RFC 3986, section 5.4, and of the tests *)

#[export] Instance SignedChar : CharType := { char_signed := true }.

(** The reference is resolved to the target. *)
Definition resolves (base ref target : string) : bool :=
  match ResolveUri (literal ref) (literal base) with
  | Ok (Some t) => strcmp_eq t (literal target)
  | _ => false
  end.

Example rfc_examples :
  forallb (fun x => resolves "http://a/b/c/d;p?q" x.1 x.2)
    [("g:h", "g:h"); ("g", "http://a/b/c/g"); ("./g", "http://a/b/c/g"); ("g/", "http://a/b/c/g/"); ("/g", "http://a/g");
     ("//g", "http://g"); ("?y", "http://a/b/c/d;p?y"); ("g?y", "http://a/b/c/g?y"); ("#s", "http://a/b/c/d;p?q#s");
     ("g?y#s", "http://a/b/c/g?y#s"); (";x", "http://a/b/c/;x"); ("", "http://a/b/c/d;p?q"); (".", "http://a/b/c/");
     ("..", "http://a/b/"); ("../g", "http://a/b/g"); ("../../g", "http://a/g"); ("../../../g", "http://a/g");
     ("/./g", "http://a/g"); ("g.", "http://a/b/c/g."); ("..g", "http://a/b/c/..g"); ("./g/.", "http://a/b/c/g/");
     ("g;x=1/../y", "http://a/b/c/y"); ("g?y/../x", "http://a/b/c/g?y/../x"); ("g#s/./x", "http://a/b/c/g#s/./x")]%string
  = true.
Proof. vm_compute. reflexivity. Qed.

Example test_examples :
  resolves "scheme://auth/a/b/c/d/e" "../../1/./2/../3/4/../5/././6/../7" "scheme://auth/a/b/1/3/5/7" &&
  resolves "scheme:/This%09Is A P%61th?This%09Is A Qu%65ry" "#A Fr%61gment"
    "scheme:/This%09Is%20A%20Path?This%09Is%20A%20Query#A%20Fragment" &&
  resolves "scheme://UsEr N%61%4de@h%4FsT.c%6fm:80/" "" "scheme://UsEr%20NaMe@host.com:80/" &&
  resolves "scheme:/%1b%1B" "" "scheme:/%1B%1B" && resolves "scheme:/%1g" "" "scheme:/%1g" = true.
Proof. vm_compute. reflexivity. Qed.
