(* ===== verification/UriProps.v ===== *)
(** [Uri]: the normal form of escapes and that [NormalizeEscapes] reaches it; the paths, with
    the termination of [RemoveDotSegments] within its buffer and the stack of segments that it
    is on absolute paths. *)
From Stdlib Require Import ZArith Lia ZifyBool Ascii String.
From stdpp Require Import base numbers list sets.
From S2P Require Import Prelude Utils Uri.
Local Open Scope Z_scope.

(** ** Searching *)

(** No character of [s] is among [reject]. *)
Definition free (reject s : cstring) : Prop := Forall (fun c => mem c reject = false) s.

(** A search for [reject] stops at the start of [s]. *)
Definition stops (reject s : cstring) : Prop :=
  match s with [] => True | c :: _ => mem c reject = true end.

Lemma strcspn_app s rest reject : free reject s -> stops reject rest -> strcspn (s ++ rest) reject = length s.
Proof.
  intros HF HS. induction HF as [|c s Hc HF IH]; simpl.
  - destruct rest as [|c rest]; simpl in *; [done|by rewrite HS].
  - by rewrite Hc, IH.
Qed.

Lemma char_at_app s rest : char_at (s ++ rest) (length s) = char_at rest 0.
Proof. unfold char_at. by rewrite lookup_app_r, Nat.sub_diag by lia. Qed.

Lemma drop_app_S (s : cstring) c rest : drop (length s + 1) (s ++ c :: rest) = rest.
Proof. rewrite drop_app. replace (length s + 1 - length s)%nat with 1%nat by lia. by rewrite drop_ge by lia. Qed.

Lemma mem_elem c s : mem c s = true <-> c ∈ s.
Proof.
  unfold mem. rewrite existsb_exists. setoid_rewrite Z.eqb_eq. split.
  - intros (d & Hd & ->). by apply list_elem_of_In.
  - intros Hc. exists c. split; [by apply list_elem_of_In|done].
Qed.

Lemma free_sub reject reject' s : (forall c, c ∈ reject -> c ∈ reject') -> free reject' s -> free reject s.
Proof.
  intros HS HF. eapply Forall_impl; [done|]. intros c Hc. simpl in Hc. destruct (mem c reject) eqn:E; [|done].
  apply mem_elem, HS, mem_elem in E. congruence.
Qed.

Lemma free_app reject s t : free reject (s ++ t) <-> free reject s /\ free reject t.
Proof. apply Forall_app. Qed.

(** Weakens a [free] hypothesis to fewer characters. *)
Ltac free :=
  lazymatch goal with
  | |- free _ _ => first [done | eapply free_sub; [|eassumption]; intros ?; set_solver]
  end.

(** ** Escapes *)

(** Induction along the loops over a string, which skip two more characters of an escape. *)
Lemma string_ind3 (P : cstring -> Prop) :
  P [] ->
  (forall c tail, P tail -> (forall d1 d2 rest, tail = d1 :: d2 :: rest -> P rest) -> P (c :: tail)) ->
  forall s, P s.
Proof.
  intros H0 H1 s. remember (length s) as n eqn:Hn. revert s Hn.
  induction n as [n IH] using lt_wf_ind; intros [|c tail] ->; [done|]. apply H1.
  - eapply IH; [|done]. simpl. lia.
  - intros d1 d2 rest ->. eapply IH; [|done]. simpl. lia.
Qed.

(** A property of bytes by cases. *)
Lemma byte_cases (P : Z -> bool) :
  forallb P (seqZ 0 256) = true -> forall v, 0 <= v < 256 -> P v = true.
Proof.
  intros HP v Hv. rewrite forallb_forall in HP. apply HP, list_elem_of_In, elem_of_seqZ. lia.
Qed.

Definition hex_value (d : Z) : Z := if d <=? 57 then d - 48 else if d <=? 70 then d - 55 else d - 87.

Lemma IsHexDigit_cases d :
  IsHexDigit d = true <-> 48 <= d <= 57 \/ 65 <= d <= 70 \/ 97 <= d <= 102.
Proof. unfold IsHexDigit. lia. Qed.

Lemma HexValue_ok d : IsHexDigit d = true -> HexValue d = Ok (hex_value d) /\ 0 <= hex_value d < 16.
Proof.
  intros HD%IsHexDigit_cases. unfold HexValue, hex_value.
  repeat (case_match; try lia); (split; [f_equal; lia|lia]).
Qed.

(** The value of the escape sequence at the start of [s]. *)
Definition escape_of (s : cstring) : option Z :=
  match s with
  | c :: d1 :: d2 :: _ =>
      if (c =? percent) && IsHexDigit d1 && IsHexDigit d2 then Some (hex_value d1 * 16 + hex_value d2) else None
  | _ => None
  end.

Lemma escape_of_range s v : escape_of s = Some v -> 0 <= v < 256.
Proof.
  destruct s as [|c [|d1 [|d2 s]]]; simpl; try done. case_match eqn:E; [|done]. intros [= <-].
  destruct (HexValue_ok d1), (HexValue_ok d2); [lia..|lia].
Qed.

Lemma GetEscapedValue_ok s : GetEscapedValue s = Ok (default (-1) (escape_of s)).
Proof.
  destruct s as [|c [|d1 [|d2 s]]]; try done. unfold GetEscapedValue, escape_of.
  destruct (c =? percent); [|done]. destruct (IsHexDigit d1) eqn:E1; [|done].
  destruct (IsHexDigit d2) eqn:E2; [|done]. simpl.
  by rewrite (proj1 (HexValue_ok d1 E1)), (proj1 (HexValue_ok d2 E2)), !Ok_bind.
Qed.

(** The equations of the two loops. *)
Lemma normalize_escape `{CharType} c d1 d2 rest v :
  escape_of (c :: d1 :: d2 :: rest) = Some v ->
  normalize_loop (c :: d1 :: d2 :: rest) = (out ← normalize_loop rest; Ok (escaped_output v ++ out)).
Proof.
  intros E. cbn [normalize_loop]. rewrite (GetEscapedValue_ok (c :: d1 :: d2 :: rest)), E, Ok_bind. cbn [default id].
  pose proof (escape_of_range _ _ E). by rewrite (proj2 (Z.leb_le 0 v)) by lia.
Qed.

Lemma normalize_plain `{CharType} c tail :
  escape_of (c :: tail) = None ->
  normalize_loop (c :: tail) = (out ← normalize_loop tail; Ok (plain_output c ++ out)).
Proof. intros E. cbn [normalize_loop]. by rewrite GetEscapedValue_ok, E, Ok_bind. Qed.

(** The two cases of a string that is not empty. *)
Lemma escape_cases c tail :
  escape_of (c :: tail) = None \/
  exists d1 d2 rest v, tail = d1 :: d2 :: rest /\ escape_of (c :: tail) = Some v /\ c = percent /\
    IsHexDigit d1 = true /\ IsHexDigit d2 = true /\ v = hex_value d1 * 16 + hex_value d2.
Proof.
  destruct (escape_of (c :: tail)) as [v|] eqn:E; [right|by left].
  destruct tail as [|d1 [|d2 rest]]; try done. simpl in E. case_match eqn:HB; [|done]. simplify_eq.
  exists d1, d2, rest, (hex_value d1 * 16 + hex_value d2). split_and!; lia || done.
Qed.

(** ** Percent-decoding and normal forms *)

(** Characters that normalization treats as bytes: where [char] is signed, ASCII only. *)
Definition char_ok `{CharType} (c : Z) : Prop := 0 < c < if char_signed then 128 else 256.

(** What a string stands for, RFC 3986, section 2.1. *)
Fixpoint decode (s : cstring) : cstring :=
  match s with
  | [] => []
  | c :: tail =>
      match tail, escape_of s with
      | _ :: _ :: rest, Some v => v :: decode rest
      | _, _ => c :: decode tail
      end
  end.

(** Every percent sign starts an escape sequence, and where [char] is signed the characters
    are ASCII. *)
Inductive well_escaped `{CharType} : cstring -> Prop :=
| well_nil : well_escaped []
| well_char c s : char_ok c -> c <> percent -> well_escaped s -> well_escaped (c :: s)
| well_escape d1 d2 s :
    IsHexDigit d1 = true -> IsHexDigit d2 = true -> well_escaped s -> well_escaped (percent :: d1 :: d2 :: s).

(** Unreserved and delimiting characters stand for themselves, other bytes are escaped with
    upper-case digits. *)
Inductive normal : cstring -> Prop :=
| normal_nil : normal []
| normal_char c s : IsUnreservedChar c || IsDelimiter c = true -> normal s -> normal (c :: s)
| normal_escape v s : 0 <= v < 256 -> IsUnreservedChar v = false -> normal s -> normal (print_escape v ++ s).

Definition plain_char (c : Z) : bool := IsUnreservedChar c || IsDelimiter c.

Lemma plain_char_range c : plain_char c = true -> 33 <= c < 127 /\ c <> percent.
Proof.
  unfold plain_char, IsUnreservedChar, IsDelimiter, mem.
  change (literal _) with [58; 47; 63; 35; 91; 93; 64; 33; 36; 38; 39; 40; 41; 42; 43; 44; 59; 61]. cbn [existsb]. lia.
Qed.

Lemma print_escape_eq v :
  0 <= v < 256 -> print_escape v = [percent; hex_digit (v / 16); hex_digit (v mod 16)].
Proof.
  intros Hv. apply (bool_decide_eq_true_1 (print_escape v = _)). revert v Hv.
  apply (byte_cases (fun v => bool_decide (print_escape v = _))). vm_compute. reflexivity.
Qed.

Lemma hex_digit_value d : 0 <= d < 16 -> IsHexDigit (hex_digit d) = true /\ hex_value (hex_digit d) = d.
Proof. intros Hd. unfold hex_digit. rewrite IsHexDigit_cases. unfold hex_value. repeat case_match; lia. Qed.

Lemma nibbles v : 0 <= v < 256 -> 0 <= v / 16 < 16 /\ 0 <= v mod 16 < 16 /\ v / 16 * 16 + v mod 16 = v.
Proof. intros Hv. Z.div_mod_to_equations. lia. Qed.

Lemma escape_of_print v s : 0 <= v < 256 -> escape_of (print_escape v ++ s) = Some v.
Proof.
  intros Hv. rewrite print_escape_eq by done. destruct (nibbles v Hv) as (H1 & H2 & H3). simpl.
  destruct (hex_digit_value (v / 16) H1) as [-> ->], (hex_digit_value (v mod 16) H2) as [-> ->].
  simpl. f_equal. lia.
Qed.

Lemma escape_of_plain c s : c <> percent -> escape_of (c :: s) = None.
Proof. intros N. destruct s as [|d1 [|d2 s]]; try done. simpl. by rewrite (proj2 (Z.eqb_neq c _)). Qed.

Lemma decode_print v s : 0 <= v < 256 -> decode (print_escape v ++ s) = v :: decode s.
Proof.
  intros Hv. pose proof (escape_of_print v s Hv) as HE. rewrite print_escape_eq in * by done.
  cbn [app decode] in *. by rewrite HE.
Qed.

Lemma decode_plain c s : c <> percent -> decode (c :: s) = c :: decode s.
Proof. intros N. cbn [decode]. rewrite escape_of_plain by done. by destruct s as [|? [|? ?]]. Qed.

Section escapes.
Context `{CharType}.

Lemma ascii_int c : 0 <= c < (if char_signed then 128 else 256) -> int_of_char c = c.
Proof.
  unfold int_of_char. destruct char_signed; [|done]. intros Hc. unfold wraps.
  rewrite Z.mod_small by lia. lia.
Qed.

Lemma plain_output_char c : plain_char c = true -> plain_output c = [c].
Proof.
  intros HP. pose proof (plain_char_range c HP) as [HR _]. unfold plain_output.
  rewrite ascii_int by (unfold char_ok in *; destruct char_signed; lia). unfold plain_char in HP. apply orb_prop in HP as [-> | ->]; by rewrite ?orb_true_r.
Qed.

Lemma plain_output_escape c : char_ok c -> c <> percent -> plain_char c = false -> plain_output c = print_escape c.
Proof.
  intros HC N HP. unfold plain_output.
  rewrite ascii_int by (unfold char_ok in *; destruct char_signed; lia). unfold plain_char in HP. apply orb_false_elim in HP as [-> ->].
  by rewrite (proj2 (Z.eqb_neq c _)).
Qed.

Lemma char_ok_byte c : char_ok c -> 0 <= c < 256.
Proof. unfold char_ok. destruct char_signed; lia. Qed.

Lemma plain_output_length c : (length (plain_output c) <= 3)%nat.
Proof.
  unfold plain_output. case_match; [simpl; lia|]. unfold print_escape. rewrite length_take. lia.
Qed.

(** The output of a character or of an escape, with what follows. *)
Lemma plain_output_ok c out :
  char_ok c -> c <> percent -> normal out ->
  normal (plain_output c ++ out) /\ decode (plain_output c ++ out) = c :: decode out.
Proof.
  intros HC N HO. destruct (plain_char c) eqn:HP.
  - rewrite plain_output_char by done. simpl. split; [by constructor|by apply decode_plain].
  - rewrite plain_output_escape by done. pose proof (char_ok_byte c HC). unfold plain_char in HP.
    apply orb_false_elim in HP as [HU _]. split; [by apply normal_escape|by apply decode_print].
Qed.

Lemma escaped_output_ok v out :
  0 <= v < 256 -> normal out ->
  normal (escaped_output v ++ out) /\ decode (escaped_output v ++ out) = v :: decode out.
Proof.
  intros Hv HO. unfold escaped_output. destruct (IsUnreservedChar v) eqn:HU.
  - simpl. split; [constructor; [by rewrite HU|done]|]. apply decode_plain.
    apply (plain_char_range v). unfold plain_char. by rewrite HU.
  - split; [by apply normal_escape|by apply decode_print].
Qed.

Lemma escaped_output_length v : (length (escaped_output v) <= 3)%nat.
Proof.
  unfold escaped_output. case_match; [simpl; lia|]. unfold print_escape. rewrite length_take. lia.
Qed.

(** Normalization never fails and fits its buffer. *)
Lemma normalize_total s : exists out, normalize_loop s = Ok out /\ (length out <= 3 * length s)%nat.
Proof.
  induction s as [|c tail IH IH3] using string_ind3; [by exists []|].
  destruct (escape_cases c tail) as [E|(d1 & d2 & rest & v & -> & E & _)].
  - destruct IH as (out & EO & HL). rewrite (normalize_plain c tail E), EO, Ok_bind. eexists. split; [done|].
    rewrite length_app. pose proof (plain_output_length c). simpl. lia.
  - destruct (IH3 d1 d2 rest eq_refl) as (out & EO & HL). rewrite (normalize_escape _ _ _ _ v E), EO, Ok_bind.
    eexists. split; [done|]. rewrite length_app. pose proof (escaped_output_length v). simpl. lia.
Qed.

(** The normal form stands for the same characters. *)
Lemma normalize_normal s :
  well_escaped s -> exists out, normalize_loop s = Ok out /\ normal out /\ decode out = decode s.
Proof.
  induction 1 as [|c s HC N HW (out & EO & HN & HD)|d1 d2 s H1 H2 HW (out & EO & HN & HD)].
  - exists []. split_and!; [done|constructor|done].
  - rewrite normalize_plain, EO, Ok_bind by (by apply escape_of_plain). eexists. split; [done|].
    rewrite decode_plain, <- HD by done. by apply plain_output_ok.
  - assert (E : escape_of (percent :: d1 :: d2 :: s) = Some (hex_value d1 * 16 + hex_value d2))
      by (simpl; by rewrite H1, H2).
    rewrite (normalize_escape _ _ _ _ _ E), EO, Ok_bind. eexists. split; [done|].
    cbn [decode]. rewrite E, <- HD. apply escaped_output_ok; [by apply escape_of_range in E|done].
Qed.

(** A string in normal form is left as it is. *)
Lemma normalize_fixed s : normal s -> normalize_loop s = Ok s.
Proof.
  induction 1 as [|c s HP HN IH|v s Hv HU HN IH]; [done|..].
  - pose proof (plain_char_range c HP) as [_ N].
    by rewrite normalize_plain, IH, Ok_bind, plain_output_char by (done || by apply escape_of_plain).
  - pose proof (escape_of_print v s Hv) as E. rewrite print_escape_eq in * by done. cbn [app] in *.
    rewrite (normalize_escape _ _ _ _ _ E), IH, Ok_bind. unfold escaped_output.
    by rewrite HU, print_escape_eq by done.
Qed.

Lemma NormalizeEscapes_normal s rest : normal s -> NormalizeEscapes (s ++ rest) (Z.of_nat (length s)) = Ok s.
Proof.
  intros HN. unfold NormalizeEscapes, utils_assert. rewrite (proj2 (Z.leb_le 0 _)), Ok_bind by lia.
  rewrite Nat2Z.id, take_app_length. by apply normalize_fixed.
Qed.

End escapes.

(** ** Normal forms of concatenations *)

Lemma normal_app s t : normal s -> normal t -> normal (s ++ t).
Proof.
  induction 1 as [|c s HP HN IH|v s Hv HU HN IH]; intros HT; [done|constructor; auto|].
  rewrite <- (assoc_L (++)). apply normal_escape; auto.
Qed.

Lemma hex_digit_not_slash d : 0 <= d < 16 -> hex_digit d <> slash.
Proof. intros Hd. unfold hex_digit. case_match; lia. Qed.

(** A slash is never part of an escape. *)
Lemma normal_split s t : normal (s ++ slash :: t) -> normal s /\ normal t.
Proof.
  remember (s ++ slash :: t) as u eqn:Hu. intros HN. revert s Hu.
  induction HN as [|c u HP HN IH|v u Hv HU HN IH]; intros s Hu.
  - by destruct s.
  - destruct s as [|c' s]; simplify_eq/=; [split; [constructor|done]|].
    destruct (IH s eq_refl) as [Hs Ht]. split; [by constructor|done].
  - destruct (nibbles v Hv) as (H1 & H2 & _).
    pose proof (hex_digit_not_slash (v / 16) H1) as N1. pose proof (hex_digit_not_slash (v mod 16) H2) as N2.
    pose proof (print_escape_eq v Hv) as EP. rewrite EP in Hu.
    destruct s as [|c1 [|c2 [|c3 s]]]; simplify_eq/=; [lia..|].
    destruct (IH s eq_refl) as [Hs Ht]. split; [|done].
    change (percent :: hex_digit (v / 16) :: hex_digit (v mod 16) :: s)
      with ([percent; hex_digit (v / 16); hex_digit (v mod 16)] ++ s).
    rewrite <- EP. by apply normal_escape.
Qed.

(** ** Termination and the size of the buffer *)

(** The input of an iteration is at the start of a segment, unless nothing was written. *)
Definition at_segment (input output : cstring) : Prop :=
  output = [] \/ match input with [] => True | c :: _ => c = slash end.

Lemma last_segment_le buffer n : (last_segment buffer n <= n)%nat.
Proof. induction n as [|n IH]; simpl; [done|]. case_match; lia. Qed.

Lemma RemoveLastSegment_length output : (length (RemoveLastSegment output) <= length output)%nat.
Proof. unfold RemoveLastSegment. case_match; [lia|]. rewrite length_take. lia. Qed.

Lemma strcspn_le s reject : (strcspn s reject <= length s)%nat.
Proof. induction s as [|c s IH]; simpl; [done|]. case_match; lia. Qed.

(** The search stops at the end or at one of the characters. *)
Lemma strcspn_stops s reject : stops reject (drop (strcspn s reject) s).
Proof. induction s as [|c s IH]; simpl; [done|]. destruct (mem c reject) eqn:E; simpl; [done|apply IH]. Qed.

Lemma SegmentLength_bounds c input : (1 <= SegmentLength (c :: input) <= length (c :: input))%nat.
Proof.
  cbn [SegmentLength length]. pose proof (strcspn_le input [slash]). case_match; [lia|].
  unfold strcspn, mem. simpl. rewrite orb_false_r. case_match; [lia|].
  pose proof (strcspn_le input [slash]) as HL. unfold strcspn, mem in HL. lia.
Qed.

Lemma stops_slash s : stops [slash] s -> match s with [] => True | c :: _ => c = slash end.
Proof. destruct s as [|c s]; [done|]. simpl. unfold mem. simpl. lia. Qed.

Lemma SegmentLength_next c input : at_segment (drop (SegmentLength (c :: input)) (c :: input)) [0].
Proof.
  right. apply stops_slash. cbn [SegmentLength]. destruct (c =? slash) eqn:E; [|apply strcspn_stops].
  cbn [drop]. apply strcspn_stops.
Qed.

(** The string literals of an iteration. *)
Ltac literals :=
  change (literal "../") with [dot; dot; slash];
  change (literal "./") with [dot; slash];
  change (literal "/./") with [slash; dot; slash];
  change (literal "/.") with [slash; dot];
  change (literal "/../") with [slash; dot; dot; slash];
  change (literal "/..") with [slash; dot; dot];
  change (literal "..") with [dot; dot];
  change (literal ".") with [dot];
  change (literal "/") with [slash].

(** Finishes a branch of an iteration. *)
Ltac branch :=
  simpl; rewrite ?drop_0; simpl; split_and!; [lia|set_solver|unfold at_segment; auto|lia].

(** The inputs on which the comparisons of an iteration succeed. *)
Lemma strncmp_3 a b c input :
  c <> 0 -> strncmp_eq [a; b; c] input 3 = true -> exists rest, input = a :: b :: c :: rest.
Proof.
  intros N HB%bool_decide_eq_true. simpl in HB. destruct input as [|a' [|b' [|c' rest]]]; simplify_eq/=. eauto.
Qed.

Lemma strncmp_4 a b c d input :
  d <> 0 -> strncmp_eq [a; b; c; d] input 4 = true -> exists rest, input = a :: b :: c :: d :: rest.
Proof.
  intros N HB%bool_decide_eq_true. simpl in HB.
  destruct input as [|a' [|b' [|c' [|d' rest]]]]; simplify_eq/=. eauto.
Qed.

(** With the length of the literal and one more, [strncmp] compares whole strings. *)
Lemma strncmp_whole a b input :
  strncmp_eq [a; b] input 3 = true -> a <> 0 -> b <> 0 -> (0 ∉ input) -> input = [a; b].
Proof.
  intros HB%bool_decide_eq_true Na Nb N0. simpl in HB.
  destruct input as [|a' [|b' [|c' rest]]]; simplify_eq/=; [done|]. set_solver.
Qed.

Lemma dot_step_ok input output :
  input <> [] -> (0 ∉ input) -> at_segment input output ->
  let '(input', output') := dot_step input output in
  (length input' < length input)%nat /\ (0 ∉ input') /\ at_segment input' output' /\
  (length input' + length output' <= length input + length output)%nat.
Proof.
  intros HN H0 HA. unfold dot_step. literals.
  pose proof (RemoveLastSegment_length output) as HL.
  destruct (strncmp_eq [dot; dot; slash] input 3) eqn:E1.
  { apply strncmp_3 in E1 as [rest ->]; [|done]. destruct HA as [-> | ?]; [|done]. branch. }
  destruct (strncmp_eq [dot; slash] input 3) eqn:E2.
  { apply strncmp_whole in E2 as ->; [|done..]. destruct HA as [-> | ?]; [|done]. branch. }
  destruct (strncmp_eq [slash; dot; slash] input 3) eqn:E3.
  { apply strncmp_3 in E3 as [rest ->]; [|done]. branch. }
  destruct (strcmp_eq [slash; dot] input) eqn:E4.
  { apply bool_decide_eq_true in E4 as <-. branch. }
  destruct (strncmp_eq [slash; dot; dot; slash] input 4) eqn:E5.
  { apply strncmp_4 in E5 as [rest ->]; [|done]. branch. }
  destruct (strcmp_eq [slash; dot; dot] input) eqn:E6.
  { apply bool_decide_eq_true in E6 as <-. branch. }
  destruct (strcmp_eq [dot; dot] input) eqn:E7.
  { apply bool_decide_eq_true in E7 as <-. branch. }
  destruct (strcmp_eq [dot] input) eqn:E8.
  { apply bool_decide_eq_true in E8 as <-. branch. }
  destruct input as [|c rest]; [done|]. pose proof (SegmentLength_bounds c rest) as HB.
  assert (ES : (if negb (char_at (c :: rest) 0 =? slash) && negb (bool_decide (output = [])) then [slash] else []) = []).
  { destruct HA as [-> | ->]; [by rewrite bool_decide_true, andb_false_r|done]. }
  rewrite ES. rewrite length_drop, !length_app, length_take. simpl length in *. split_and!; [lia| | |lia].
  - intros HI. apply H0. rewrite <- (take_drop (SegmentLength (c :: rest)) (c :: rest)).
    apply elem_of_app. by right.
  - destruct (SegmentLength_next c rest) as [?|HX]; [done|by right].
Qed.

Lemma dot_loop_ok fuel : forall input output,
  (length input <= fuel)%nat -> (0 ∉ input) -> at_segment input output ->
  exists out, dot_loop fuel input output = Ok out /\ (length out <= length input + length output)%nat.
Proof.
  induction fuel as [|fuel IH]; intros input output HF H0 HA.
  { destruct input; [|simpl in HF; lia]. by exists output. }
  destruct input as [|c rest]; [by exists output|].
  pose proof (dot_step_ok (c :: rest) output ltac:(done) H0 HA) as HS. cbn [dot_loop].
  destruct (dot_step (c :: rest) output) as [input' output']. destruct HS as (HL & H0' & HA' & HB).
  destruct (IH input' output') as (out & E & HO); [lia|done..|]. exists out. split; [done|lia].
Qed.

(** ** Segments *)

Definition no_slash (s : cstring) : Prop := free [slash] s.

(** The segments between the slashes of a path. *)
Fixpoint split (s : cstring) : list cstring :=
  match s with
  | [] => [[]]
  | c :: s =>
      if c =? slash then [] :: split s
      else match split s with seg :: segs => (c :: seg) :: segs | [] => [] end
  end.

(** The absolute path of segments. *)
Definition join (segs : list cstring) : cstring := concat ((fun s => slash :: s) <$> segs).

(** RFC 3986, section 5.2.4, on segments: the result so far is a stack. *)
Fixpoint resolve (stack segs : list cstring) : list cstring :=
  match segs with
  | [] => stack
  | s :: segs =>
      let last := match segs with [] => [[]] | _ => [] end in
      if decide (s = [dot]) then resolve (stack ++ last) segs
      else if decide (s = [dot; dot]) then resolve (removelast stack ++ last) segs
      else resolve (stack ++ [s]) segs
  end.

Lemma join_app a b : join (a ++ b) = join a ++ join b.
Proof. unfold join. by rewrite fmap_app, concat_app. Qed.

Lemma join_cons s segs : join (s :: segs) = slash :: s ++ join segs.
Proof. done. Qed.

Lemma join_split s : join (split s) = slash :: s.
Proof.
  induction s as [|c s IH]; [done|]. cbn [split]. destruct (c =? slash) eqn:E.
  - apply Z.eqb_eq in E as ->. by rewrite join_cons, IH.
  - destruct (split s) as [|seg segs]; [done|]. rewrite join_cons in *. simpl. congruence.
Qed.

Lemma split_no_slash s : Forall no_slash (split s).
Proof.
  induction s as [|c s IH]; simpl; [by repeat constructor|]. destruct (c =? slash) eqn:E.
  - constructor; [constructor|done].
  - destruct (split s) as [|seg segs]; [done|]. apply Forall_cons in IH as [Hs HS]. constructor; [|done].
    constructor; [|done]. unfold mem. simpl. lia.
Qed.

Lemma join_stops segs : stops [slash] (join segs).
Proof. by destruct segs. Qed.

(** ** One segment is taken off the output *)

Lemma last_segment_at buffer i k :
  (i <= k)%nat -> char_at buffer i = slash -> (forall j, (i < j <= k)%nat -> char_at buffer j <> slash) ->
  last_segment buffer k = i.
Proof.
  intros Hi HS HN. induction k as [|k IH]; [simpl; lia|]. cbn [last_segment].
  destruct (decide (i = S k)) as [->|N]; [by rewrite HS|].
  rewrite (proj2 (Z.eqb_neq _ _)) by (apply HN; lia). apply IH; [lia|]. intros j Hj. apply HN. lia.
Qed.

Lemma no_slash_lookup s j : no_slash s -> char_at s j <> slash.
Proof.
  intros HF. unfold char_at. destruct (s !! j) as [c|] eqn:E; [|done]. simpl.
  pose proof (proj1 (Forall_lookup _ _) HF j c E) as HM. unfold mem in HM. simpl in HM. lia.
Qed.

Lemma RemoveLastSegment_join stack : Forall no_slash stack -> RemoveLastSegment (join stack) = join (removelast stack).
Proof.
  intros HF. destruct stack as [|s stack _] using rev_ind; [done|].
  apply Forall_app in HF as [_ [Hs _]%Forall_cons]. rewrite removelast_last, join_app.
  set (b := join stack). unfold RemoveLastSegment, join. simpl. rewrite app_nil_r, length_app. simpl.
  destruct (length b + S (length s))%nat as [|k] eqn:EK; [lia|].
  rewrite (last_segment_at _ (length b)); [by rewrite take_app_length|lia|by rewrite char_at_app|].
  intros j Hj. unfold char_at. rewrite lookup_app_r by lia.
  replace (j - length b)%nat with (S (j - length b - 1)) by lia. apply (no_slash_lookup s _ Hs).
Qed.

(** ** The loop on segments *)

(** The iteration on an ordinary segment. *)
Lemma dot_step_plain s segs output :
  no_slash s -> s <> [dot] -> s <> [dot; dot] ->
  dot_step (slash :: s ++ join segs) output = (join segs, output ++ slash :: s).
Proof.
  intros HF N1 N2. pose proof (join_stops segs) as HS.
  assert (HJ : match join segs with [] => True | c :: _ => c = slash end) by by apply stops_slash.
  assert (ES : SegmentLength (slash :: s ++ join segs) = S (length s)).
  { simpl. by rewrite strcspn_app. }
  assert (HC : forall j, char_at s j <> slash) by (intros; by apply no_slash_lookup).
  unfold dot_step. literals. rewrite ES. cbn [drop take]. rewrite drop_app_length, take_app_length.
  assert (E3 : strncmp_eq [slash; dot; slash] (slash :: s ++ join segs) 3 = false).
  { apply not_true_iff_false. intros [rest E]%strncmp_3; [|done].
    destruct s as [|c1 [|c2 s]]; simplify_eq/=;
      try (by destruct (join segs); simplify_eq/=); by destruct (HC 1%nat). }
  assert (E4 : strcmp_eq [slash; dot] (slash :: s ++ join segs) = false).
  { apply not_true_iff_false. intros E%bool_decide_eq_true.
    destruct s as [|c1 [|c2 s]]; simplify_eq/=; destruct (join segs); simplify_eq/=. }
  assert (E5 : strncmp_eq [slash; dot; dot; slash] (slash :: s ++ join segs) 4 = false).
  { apply not_true_iff_false. intros [rest E]%strncmp_4; [|done].
    destruct s as [|c1 [|c2 [|c3 s]]]; simplify_eq/=;
      try (by destruct (join segs); simplify_eq/=); by destruct (HC 2%nat). }
  assert (E6 : strcmp_eq [slash; dot; dot] (slash :: s ++ join segs) = false).
  { apply not_true_iff_false. intros E%bool_decide_eq_true.
    destruct s as [|c1 [|c2 [|c3 s]]]; simplify_eq/=; destruct (join segs); simplify_eq/=. }
  by rewrite E3, E4, E5, E6.
Qed.

Lemma removelast_no_slash stack : Forall no_slash stack -> Forall no_slash (removelast stack).
Proof.
  destruct stack as [|s stack _] using rev_ind; [done|]. rewrite removelast_last.
  by intros [? _]%Forall_app.
Qed.

(** The iterations on a last segment that is empty. *)
Lemma dot_loop_slash fuel stack : (1 <= fuel)%nat -> dot_loop fuel [slash] (join stack) = Ok (join (stack ++ [[]])).
Proof.
  intros HF. destruct fuel as [|fuel]; [lia|]. cbn [dot_loop].
  change [slash] with (slash :: [] ++ join []). rewrite dot_step_plain; [|constructor|done|done].
  rewrite join_app. by destruct fuel.
Qed.

(** The loop on the path of [segs], with the path of [stack] written so far. *)
Lemma dot_loop_join segs : forall stack fuel,
  Forall no_slash segs -> Forall no_slash stack -> (length (join segs) <= fuel)%nat ->
  dot_loop fuel (join segs) (join stack) = Ok (join (resolve stack segs)).
Proof.
  induction segs as [|s segs IH]; intros stack fuel HF HS HL; [by destruct fuel|].
  apply Forall_cons in HF as [Hs HF].
  assert (EJ : join (s :: segs) = slash :: s ++ join segs) by done. rewrite EJ in *.
  destruct fuel as [|fuel]; [simpl in HL; lia|]. simpl length in HL. rewrite length_app in HL.
  assert (HR : Forall no_slash (removelast stack)) by by apply removelast_no_slash.
  cbn [dot_loop resolve]. destruct (decide (s = [dot])) as [->|N1]; [|destruct (decide (s = [dot; dot])) as [->|N2]].
  - destruct segs as [|s' segs].
    + change (dot_step _ _) with ([slash], join stack). apply dot_loop_slash. simpl in HL. lia.
    + change (dot_step _ _) with (join (s' :: segs), join stack). rewrite app_nil_r. apply IH; [done..|lia].
  - destruct segs as [|s' segs].
    + change (dot_step _ _) with ([slash], RemoveLastSegment (join stack)).
      rewrite RemoveLastSegment_join by done. apply dot_loop_slash. simpl in HL. lia.
    + change (dot_step _ _) with (join (s' :: segs), RemoveLastSegment (join stack)).
      rewrite RemoveLastSegment_join, app_nil_r by done. apply IH; [done..|lia].
  - rewrite dot_step_plain by done. replace (join stack ++ slash :: s) with (join (stack ++ [s])).
    + apply IH; [done| |lia]. apply Forall_app. split; [done|by apply Forall_singleton].
    + by rewrite join_app, join_cons, app_nil_r.
Qed.

(** ** The result *)

Definition plain_segment (s : cstring) : Prop := s <> [dot] /\ s <> [dot; dot].

(** What holds of the segments and of the empty one holds of the result. *)
Lemma resolve_forall (P : cstring -> Prop) segs : forall stack,
  P [] -> Forall P stack -> Forall P segs -> Forall P (resolve stack segs).
Proof.
  induction segs as [|s segs IH]; intros stack H0 HS HF; [done|]. apply Forall_cons in HF as [Hs HF]. cbn [resolve].
  assert (HL : Forall P (match segs with [] => [[]] | _ => [] end)) by (destruct segs; by repeat constructor).
  assert (HR : Forall P (removelast stack)).
  { destruct stack as [|x stack _] using rev_ind; [done|]. rewrite removelast_last. by apply Forall_app in HS as [? _]. }
  repeat case_decide; apply IH; try done; apply Forall_app; split; try done. by apply Forall_singleton.
Qed.

Lemma resolve_plain segs : forall stack, Forall plain_segment stack -> Forall plain_segment (resolve stack segs).
Proof.
  induction segs as [|s segs IH]; intros stack HS; [done|]. cbn [resolve].
  assert (HL : Forall plain_segment (match segs with [] => [[]] | _ => [] end)) by (destruct segs; by repeat constructor).
  assert (HR : Forall plain_segment (removelast stack)).
  { destruct stack as [|x stack _] using rev_ind; [done|]. rewrite removelast_last. by apply Forall_app in HS as [? _]. }
  repeat case_decide; apply IH; apply Forall_app; split; try done. by apply Forall_singleton.
Qed.

Lemma resolve_id segs : forall stack, Forall plain_segment segs -> resolve stack segs = stack ++ segs.
Proof.
  induction segs as [|s segs IH]; intros stack HF; cbn [resolve]; [by rewrite app_nil_r|].
  apply Forall_cons in HF as [[N1 N2] HF]. rewrite !decide_False by done. by rewrite IH, <- (assoc_L (++)).
Qed.

Lemma resolve_ne segs : forall stack, segs <> [] -> resolve stack segs <> [].
Proof.
  induction segs as [|s segs IH]; intros stack HN; [done|]. cbn [resolve].
  destruct segs as [|s' segs]; [|repeat case_decide; by apply IH].
  cbn [resolve]. repeat case_decide; intros [_ ?]%app_eq_nil; done.
Qed.

Lemma split_app s t : no_slash s -> split (s ++ slash :: t) = s :: split t.
Proof.
  induction 1 as [|c s Hc HF IH]; [done|]. simpl in *. rewrite orb_false_r in Hc. by rewrite Hc, IH.
Qed.

Lemma split_one s : no_slash s -> split s = [s].
Proof. induction 1 as [|c s Hc HF IH]; [done|]. simpl in *. rewrite orb_false_r in Hc. by rewrite Hc, IH. Qed.

Lemma split_join segs : segs <> [] -> Forall no_slash segs -> exists q, join segs = slash :: q /\ split q = segs.
Proof.
  intros HN HF. induction HF as [|s segs Hs HF IH]; [done|]. rewrite join_cons. eexists. split; [done|].
  destruct segs as [|s' segs]; [rewrite app_nil_r; by apply split_one|].
  destruct IH as (q & EJ & ES); [done|]. rewrite EJ, split_app by done. by rewrite ES.
Qed.

Lemma split_ne s : split s <> [].
Proof. intros E. pose proof (join_split s) as J. by rewrite E in J. Qed.

(** [RemoveDotSegments] on an absolute path. *)
Lemma RemoveDotSegments_join q : RemoveDotSegments (slash :: q) = Ok (join (resolve [] (split q))).
Proof.
  unfold RemoveDotSegments. rewrite <- (join_split q). change [] with (join []) at 1.
  apply dot_loop_join; [apply split_no_slash|constructor|done].
Qed.
