(* ===== verification/UriSpec.v ===== *)
(** URIs: parsing inverts building, resolution follows RFC 3986, section 5.2, and the places
    where the code departs from what its comments and the RFC say. *)
From Stdlib Require Import ZArith Lia ZifyBool Ascii String.
From stdpp Require Import base numbers list sets.
From S2P Require Import Prelude Utils Uri UriProps.
Local Open Scope Z_scope.

Section spec.
Context `{CharType}.

(** ** Well-formed components *)

(** The property holds of the part unless it is absent. *)
Definition part (P : cstring -> Prop) (x : option cstring) : Prop := from_option P True x.

Definition uri_tail (u : ParsedUri) : cstring := part_after [question] (query u) ++ part_after [hash] (fragment u).

Definition absolute (p : cstring) : Prop := exists q, p = slash :: q.

(** Components in normal form, without the characters that end them. Without an authority
    the path does not look like one; with one it is absolute, or the URI ends there. Without
    a scheme there is no authority, and no colon before the first slash. *)
Record wf_uri (u : ParsedUri) : Prop := {
  wf_scheme : part (fun s => free [colon; slash] s /\ StringLower s = Ok s) (scheme u);
  wf_userinfo : part (fun s => normal s /\ free [at_sign; slash; question; hash] s) (userinfo u);
  wf_host : part (fun s => normal s /\ free [colon; slash; at_sign; question; hash] s /\ StringLower s = Ok s) (host u);
  wf_port : part (free [slash; at_sign; question; hash]) (port u);
  wf_path : normal (path u) /\ free [question; hash] (path u);
  wf_query : part (fun s => normal s /\ free [hash] s) (query u);
  wf_fragment : part normal (fragment u);
  wf_authority :
    match host u with
    | None => userinfo u = None /\ port u = None /\ ~ exists q, path u = slash :: slash :: q
    | Some _ => absolute (path u) \/ (path u = [] /\ query u = None /\ fragment u = None)
    end;
  wf_relative : scheme u = None ->
    host u = None /\
    let s := path u ++ uri_tail u in char_at s (strcspn s [colon; slash]) <> colon;
}.

(** ** Parsing the parts *)

Lemma parse_fragment front f :
  free [hash] front -> part normal f ->
  strcspn (front ++ part_after [hash] f) [hash] = length front /\
  (if char_at (front ++ part_after [hash] f) (length front) =? hash then
     let start := drop (length front + 1) (front ++ part_after [hash] f) in
     x ← NormalizeEscapes start (Z.of_nat (length start)); Ok (Some x)
   else Ok None) = Ok f.
Proof.
  intros HF HN. split; [apply strcspn_app; [done|by destruct f]|]. rewrite char_at_app.
  destruct f as [f|]; [|done]. cbn [part_after app char_at]. simpl. rewrite drop_app_S.
  rewrite <- (app_nil_r f) at 1. by rewrite NormalizeEscapes_normal, Ok_bind.
Qed.

Lemma parse_query front q f :
  free [question; hash] front -> part (fun s => normal s /\ free [hash] s) q ->
  let rest := front ++ part_after [question] q ++ part_after [hash] f in
  strcspn rest [question; hash] = length front /\
  (if char_at rest (length front) =? question then
     x ← NormalizeEscapes (drop (length front + 1) rest)
           (Z.of_nat (length (front ++ part_after [question] q)) - (Z.of_nat (length front) + 1));
     Ok (Some x)
   else Ok None) = Ok q.
Proof.
  intros HF HN. simpl. split; [apply strcspn_app; [done|by destruct q, f]|]. rewrite char_at_app.
  destruct q as [q|]; [|by destruct f]. destruct HN as [HN _]. cbn [part_after app char_at]. simpl.
  rewrite drop_app_S, length_app. simpl length.
  replace (Z.of_nat (length front + S (length q)) - (Z.of_nat (length front) + 1)) with (Z.of_nat (length q)) by lia.
  by rewrite NormalizeEscapes_normal, Ok_bind.
Qed.

Definition user_part (u : option cstring) : cstring := match u with None => [] | Some u => u ++ [at_sign] end.

Definition authority (u : option cstring) (h : cstring) (p : option cstring) : cstring :=
  user_part u ++ h ++ part_after [colon] p.

Lemma part_colon_free reject p :
  mem colon reject = false -> part (free reject) p -> free reject (part_after [colon] p).
Proof. intros HC HP. destruct p as [p|]; [|constructor]. simpl. by constructor. Qed.

Lemma part_free_sub reject reject' p :
  (forall c, c ∈ reject -> c ∈ reject') -> part (free reject') p -> part (free reject) p.
Proof. intros HS HP. destruct p as [p|]; [|done]. by eapply (free_sub reject reject'). Qed.

Lemma char_at_stops rest c : stops [slash] rest -> c <> slash -> c <> 0 -> char_at rest 0 =? c = false.
Proof.
  rewrite Z.eqb_neq. destruct rest as [|d rest]; cbn; [lia|]. rewrite orb_false_r. lia.
Qed.

Lemma parse_authority u h p rest :
  part (fun s => normal s /\ free [at_sign; slash; question; hash] s) u ->
  normal h /\ free [colon; slash; at_sign; question; hash] h /\ StringLower h = Ok h ->
  part (free [slash; at_sign; question; hash]) p -> stops [slash] rest ->
  ParseAuthority (authority u h p ++ rest) = Ok (u, Some h, p, Z.of_nat (length (authority u h p))).
Proof.
  intros Hu (HN & HF & HL) Hp HR. unfold ParseAuthority, authority. rewrite <- !(assoc_L (++)).
  set (current := h ++ part_after [colon] p ++ rest).
  assert (E1 : (if char_at (user_part u ++ current) (strcspn (user_part u ++ current) [at_sign; slash]) =? at_sign then
       x ← NormalizeEscapes (user_part u ++ current) (Z.of_nat (strcspn (user_part u ++ current) [at_sign; slash]));
       Ok (Some x, drop (strcspn (user_part u ++ current) [at_sign; slash] + 1) (user_part u ++ current),
           Z.of_nat (strcspn (user_part u ++ current) [at_sign; slash]) + 1)
     else Ok (None, user_part u ++ current, 0)) = Ok (u, current, Z.of_nat (length (user_part u)))).
  { destruct u as [u|]; cbn [user_part].
    - destruct Hu as [HNu HFu]. rewrite <- (assoc_L (++)). cbn [app].
      rewrite strcspn_app by (free || done). rewrite char_at_app, drop_app_S, NormalizeEscapes_normal by done.
      rewrite Ok_bind, length_app. cbn. do 3 f_equal. lia.
    - cbn [app]. unfold current. rewrite (assoc_L (++)).
      rewrite strcspn_app; [|apply free_app; split; [free|]; apply part_colon_free; [done|];
        eapply part_free_sub; [|done]; set_solver|].
      + by rewrite char_at_app, char_at_stops.
      + destruct rest as [|c rest]; [done|]. simpl in *. unfold mem in *. simpl in *. lia. }
  rewrite E1, Ok_bind. unfold current.
  rewrite strcspn_app; [|free|destruct p as [p|]; [done|]].
  - rewrite NormalizeEscapes_normal, Ok_bind, HL, Ok_bind, char_at_app by done.
    destruct p as [p|]; cbn [part_after app].
    + cbn [char_at]. rewrite drop_app_S, strcspn_app, take_app_length by (done || simpl in Hp; free).
      simpl. rewrite !length_app. simpl. do 2 f_equal. lia.
    + rewrite char_at_stops by done. rewrite !length_app. simpl. do 2 f_equal. lia.
  - simpl. destruct rest as [|c rest]; [done|]. simpl in *. unfold mem in *. simpl in *. lia.
Qed.

(** ** Parsing what was built *)

Definition authority_part (u : ParsedUri) : cstring :=
  match host u with None => [] | Some h => slash :: slash :: authority (userinfo u) h (port u) end.

(** All of the URI after the scheme. *)
Definition after_scheme (u : ParsedUri) : cstring := authority_part u ++ path u ++ uri_tail u.

Lemma authority_free u : wf_uri u -> free [question; hash] (authority_part u).
Proof.
  intros [_ HU HH HP _ _ _ _ _]. unfold authority_part. destruct (host u) as [h|]; [|constructor].
  destruct HH as (_ & HF & _). do 2 (constructor; [done|]).
  change (free [question; hash] (authority (userinfo u) h (port u))). unfold authority. rewrite !free_app. split_and!.
  - destruct (userinfo u) as [s|]; [|constructor]. destruct HU as [_ HU]. apply free_app. split; [free|by repeat constructor].
  - free.
  - apply part_colon_free; [done|]. eapply part_free_sub; [|done]. set_solver.
Qed.

Lemma path_stops u h : wf_uri u -> host u = Some h -> stops [slash] (path u ++ uri_tail u).
Proof.
  intros HW EH. pose proof (wf_authority u HW) as HA. rewrite EH in HA.
  destruct HA as [[q ->] | (-> & EQ & EF)]; [done|]. unfold uri_tail. by rewrite EQ, EF.
Qed.

(** The step of [ParseUri] that looks for an authority. *)
Lemma parse_after_scheme u :
  wf_uri u ->
  (if (char_at (after_scheme u) 0 =? slash) && (char_at (after_scheme u) 1 =? slash) then
     '(userinfo, host, port, authority_len) ← ParseAuthority (drop 2 (after_scheme u));
     Ok (userinfo, host, port, if authority_len <? 0 then -1 else 2 + authority_len)
   else Ok (None, None, None, 0)) = Ok (userinfo u, host u, port u, Z.of_nat (length (authority_part u))).
Proof.
  intros HW. pose proof (wf_authority u HW) as HA. unfold after_scheme, authority_part.
  pose proof (path_stops u) as HS. destruct (host u) as [h|] eqn:EH.
  - change (('(userinfo, host, port, authority_len) ←
        ParseAuthority (authority (userinfo u) h (port u) ++ path u ++ uri_tail u);
      Ok (userinfo, host, port, if authority_len <? 0 then -1 else 2 + authority_len)) =
      Ok (userinfo u, Some h, port u, Z.of_nat (S (S (length (authority (userinfo u) h (port u))))))).
    rewrite parse_authority; [|apply HW| |apply HW|by apply (HS h)].
    + rewrite Ok_bind, (proj2 (Z.ltb_ge _ 0)) by lia. simpl. do 2 f_equal. lia.
    + pose proof (wf_host u HW) as HH. by rewrite EH in HH.
  - destruct HA as (-> & -> & HA). cbn [app]. case_match eqn:E; [|done]. exfalso.
    destruct (path u) as [|c1 [|c2 q]] eqn:EP; cbn in E.
    + unfold uri_tail in E. destruct (query u), (fragment u); simpl in E; lia.
    + unfold uri_tail in E. destruct (query u), (fragment u); cbn in E; lia.
    + apply HA. exists q. assert (c1 = slash) as -> by lia. by assert (c2 = slash) as -> by lia.
Qed.

(** [ParseUri] once the scheme has been found. *)
Lemma parse_with_scheme u uri :
  wf_uri u ->
  (if char_at uri (strcspn uri [colon; slash]) =? colon then
     s ← StringLower (take (strcspn uri [colon; slash]) uri); Ok (Some s, drop (strcspn uri [colon; slash] + 1) uri)
   else Ok (None, uri)) = Ok (scheme u, after_scheme u) ->
  ParseUri uri = Ok (Some u).
Proof.
  intros HW E. unfold ParseUri. rewrite E, Ok_bind. clear E.
  destruct (wf_path u HW) as [HN HF]. pose proof (authority_free u HW) as HA.
  assert (HQ : free [question; hash] (authority_part u ++ path u)) by by apply free_app.
  assert (HX : free [hash] ((authority_part u ++ path u) ++ part_after [question] (query u))).
  { apply free_app. split; [free|]. pose proof (wf_query u HW) as HY.
    destruct (query u) as [q|]; [|constructor]. destruct HY as [_ HY]. by constructor. }
  assert (ER : after_scheme u = (authority_part u ++ path u) ++ part_after [question] (query u) ++ part_after [hash] (fragment u)).
  { unfold after_scheme, uri_tail. by rewrite (assoc_L (++)). }
  destruct (parse_fragment _ (fragment u) HX (wf_fragment u HW)) as [E1 E2].
  destruct (parse_query _ (query u) (fragment u) HQ (wf_query u HW)) as [E3 E4].
  rewrite <- (assoc_L (++)), <- ER in E1, E2. cbv zeta in E2, E3, E4 |- *. rewrite <- ER in E3, E4.
  rewrite E1, E2, Ok_bind, E3, E4, Ok_bind, (parse_after_scheme u HW), Ok_bind.
  rewrite (proj2 (Z.ltb_ge _ 0)) by lia. rewrite Nat2Z.id, length_app. unfold after_scheme at 1. rewrite drop_app_length.
  replace (Z.of_nat (length (authority_part u) + length (path u)) - Z.of_nat (length (authority_part u)))
    with (Z.of_nat (length (path u))) by lia.
  rewrite NormalizeEscapes_normal, Ok_bind by done. by destruct u.
Qed.

Lemma build_eq u :
  wf_uri u -> BuildUri u = Ok (match scheme u with None => [] | Some s => s ++ [colon] end ++ after_scheme u).
Proof.
  intros HW. pose proof (wf_authority u HW) as HA. pose proof (wf_relative u HW) as HR.
  unfold BuildUri, utils_assert, after_scheme, authority_part, uri_tail in *. destruct (scheme u) as [s|].
  - destruct (host u) as [h|].
    + assert (E : ((char_at (path u) 0 =? 0) || (char_at (path u) 0 =? slash)) = true).
      { destruct HA as [[q ->] | (-> & _)]; done. }
      rewrite E. unfold authority, user_part. f_equal. change (literal "://") with [colon; slash; slash].
      destruct (userinfo u); simpl; repeat (rewrite <- (assoc_L (++)); simpl); done.
    + destruct HA as (-> & -> & _). rewrite bool_decide_true by done. by rewrite Ok_bind, <- (assoc_L (++)).
  - destruct HR as [EH _]; [done|]. rewrite EH in *. destruct HA as (-> & -> & _).
    by rewrite bool_decide_true, Ok_bind.
Qed.

Lemma parse_build u s : wf_uri u -> BuildUri u = Ok s -> ParseUri s = Ok (Some u).
Proof.
  intros HW. rewrite build_eq by done. intros [= <-]. apply parse_with_scheme; [done|].
  pose proof (wf_scheme u HW) as HS. pose proof (wf_relative u HW) as HR. destruct (scheme u) as [s|].
  - destruct HS as [HF HL]. rewrite <- (assoc_L (++)). cbn [app].
    rewrite strcspn_app, char_at_app, take_app_length, drop_app_S, HL by done. done.
  - destruct HR as [EH HC]; [done|]. unfold after_scheme, authority_part. rewrite EH. cbn [app].
    by rewrite (proj2 (Z.eqb_neq _ _) HC).
Qed.

End spec.

(** ** Resolution on components *)

(** Section 5.2.4, for an absolute path. *)
Definition remove_dots (p : cstring) : cstring := join (resolve [] (split (drop 1 p))).

(** Section 5.2.3, for a base with an authority: the last segment of its path is replaced. *)
Definition merge (base ref : cstring) : cstring :=
  match base with
  | [] => slash :: ref
  | _ => join (removelast (split (drop 1 base))) ++ slash :: ref
  end.

(** Section 5.2.2, for a reference without scheme and authority. *)
Definition rfc_target (base ref : ParsedUri) : ParsedUri :=
  let target := mkUri (scheme base) (userinfo base) (host base) (port base) in
  match path ref with
  | [] => target (path base) (match query ref with None => query base | q => q end) (fragment ref)
  | c :: _ =>
      let p := if c =? slash then path ref else merge (path base) (path ref) in
      target (remove_dots p) (query ref) (fragment ref)
  end.

(** ** Paths in normal form *)

(** What survives cutting and joining at slashes. *)
Definition path_ok (p : cstring) : Prop := normal p /\ free [question; hash] p.

Lemma path_ok_slash p : path_ok (slash :: p) <-> path_ok p.
Proof.
  split.
  - intros [HN HF]. apply Forall_cons in HF as [_ HF]. split; [|done]. by apply (normal_split []) in HN as [_ ?].
  - intros [HN HF]. split; constructor; done.
Qed.

Lemma path_ok_app p q : path_ok p -> path_ok q -> path_ok (p ++ q).
Proof. intros [N1 F1] [N2 F2]. split; [by apply normal_app|by apply free_app]. Qed.

Lemma path_ok_split p q : path_ok (p ++ slash :: q) -> path_ok p /\ path_ok q.
Proof.
  intros [HN [F1 F2%Forall_cons]%free_app]. destruct F2 as [_ F2]. apply normal_split in HN as [N1 N2]. by split.
Qed.

Lemma path_ok_segments segs : path_ok (join segs) -> Forall path_ok segs.
Proof.
  induction segs as [|s segs IH]; [done|]. rewrite join_cons, path_ok_slash. intros HP.
  destruct segs as [|s' segs]; [rewrite app_nil_r in HP; by apply Forall_singleton|].
  rewrite join_cons in HP. apply path_ok_split in HP as [Hs HP]. constructor; [done|].
  apply IH. by rewrite join_cons, path_ok_slash.
Qed.

Lemma path_ok_join segs : Forall path_ok segs -> path_ok (join segs).
Proof.
  induction 1 as [|s segs Hs HF IH]; [by repeat constructor|]. rewrite join_cons, path_ok_slash. by apply path_ok_app.
Qed.

Lemma path_ok_nil : path_ok [].
Proof. by repeat constructor. Qed.

Lemma segments_ok q : path_ok (slash :: q) -> Forall path_ok (split q).
Proof. intros HP. apply path_ok_segments. by rewrite join_split. Qed.

Lemma remove_dots_ok q : path_ok (slash :: q) -> path_ok (remove_dots (slash :: q)).
Proof.
  intros HP. apply path_ok_join, resolve_forall; [apply path_ok_nil|constructor|]. simpl. rewrite drop_0. by apply segments_ok.
Qed.

Lemma remove_dots_absolute p : absolute (remove_dots p).
Proof.
  unfold remove_dots. pose proof (resolve_ne (split (drop 1 p)) [] (split_ne _)) as HN.
  destruct (resolve [] (split (drop 1 p))) as [|s segs]; [done|]. by eexists.
Qed.

(** ** Merging *)

Lemma strrchr_none s : no_slash s -> strrchr s slash = None.
Proof.
  induction 1 as [|c s Hc HF IH]; [done|]. simpl in *. rewrite IH. rewrite orb_false_r in Hc. by rewrite Hc.
Qed.

Lemma strrchr_last b s : no_slash s -> strrchr (b ++ slash :: s) slash = Some (length b).
Proof.
  intros HF. induction b as [|c b IH]; simpl; [by rewrite strrchr_none|by rewrite IH].
Qed.

Lemma MergePaths_eq base ref : base = [] \/ absolute base -> MergePaths base ref = merge base ref.
Proof.
  intros [-> | [q ->]]; [done|]. unfold MergePaths, merge. simpl drop. rewrite drop_0.
  pose proof (split_no_slash q) as HF. pose proof (split_ne q) as HN. rewrite <- (join_split q).
  destruct (split q) as [|s segs _] using rev_ind; [done|].
  apply Forall_app in HF as [_ [Hs _]%Forall_cons]. rewrite removelast_last, join_app.
  change (join [s]) with (slash :: s ++ []). rewrite app_nil_r.
  destruct (join segs ++ slash :: s) as [|c rest] eqn:E; [by symmetry in E; apply app_cons_not_nil in E|]. rewrite <- E.
  by rewrite strrchr_last, take_app_length.
Qed.

Lemma merge_ok base ref : base = [] \/ absolute base -> path_ok base -> path_ok ref -> path_ok (merge base ref).
Proof.
  intros [-> | [q ->]] HB HR; simpl; [by apply path_ok_slash|]. rewrite drop_0.
  apply path_ok_app; [|by apply path_ok_slash]. apply segments_ok in HB. apply path_ok_join.
  destruct (split q) as [|s segs _] using rev_ind; [done|]. rewrite removelast_last. by apply Forall_app in HB as [? _].
Qed.

Lemma merge_absolute base ref : absolute (merge base ref).
Proof.
  destruct base as [|c base]; [by eexists|]. unfold merge.
  destruct (removelast (split (drop 1 (c :: base)))) as [|s segs]; [by eexists|]. rewrite join_cons. by eexists.
Qed.

(** ** The target *)

Section resolve.
Context `{CharType}.

Lemma normal_head c s : normal (c :: s) -> c <> 0.
Proof.
  intros HN. remember (c :: s) as l eqn:EL. destruct HN as [|d t HP HN|v t Hv HU HN]; [done| |].
  - simplify_eq. apply (plain_char_range c) in HP as [? _]. lia.
  - rewrite print_escape_eq in EL by done. simpl in EL. simplify_eq. lia.
Qed.

(** The target takes the authority of the base, so that its path must be absolute. *)
Lemma target_wf base s h p q f :
  wf_uri base -> scheme base = Some s -> host base = Some h -> absolute p -> path_ok p ->
  part (fun s => normal s /\ free [hash] s) q -> part normal f ->
  wf_uri (mkUri (scheme base) (userinfo base) (host base) (port base) p q f).
Proof.
  intros HW ES EH HA HP HQ HF. destruct HW. constructor; simpl; try done.
  - rewrite EH. by left.
  - by rewrite ES.
Qed.

Lemma rfc_target_wf base ref s h :
  wf_uri base -> wf_uri ref -> scheme base = Some s -> host base = Some h -> (path base = [] -> path ref <> []) ->
  wf_uri (rfc_target base ref).
Proof.
  intros HB HR ES EH HN. pose proof (wf_authority base HB) as HA. rewrite EH in HA.
  assert (HBP : path base = [] \/ absolute (path base)) by (destruct HA as [?|(? & _)]; auto).
  unfold rfc_target. destruct (path ref) as [|c r] eqn:EP.
  - apply (target_wf base s h); try done.
    + destruct HBP as [E|?]; [by destruct (HN E)|done].
    + apply HB.
    + destruct (query ref) as [q|] eqn:EQ; [|apply HB]. pose proof (wf_query ref HR) as HQ. by rewrite EQ in HQ.
    + apply HR.
  - assert (HX : path_ok (c :: r)) by (rewrite <- EP; apply HR).
    apply (target_wf base s h); [done..|apply remove_dots_absolute| |apply HR|apply HR].
    destruct (c =? slash) eqn:EC; [apply Z.eqb_eq in EC as ->; by apply remove_dots_ok|].
    pose proof (merge_ok (path base) (c :: r) HBP (wf_path base HB) HX) as HM.
    destruct (merge_absolute (path base) (c :: r)) as [m E]. rewrite E in *. by apply remove_dots_ok.
Qed.

Lemma RemoveDotSegments_absolute p : absolute p -> RemoveDotSegments p = Ok (remove_dots p).
Proof. intros [q ->]. rewrite RemoveDotSegments_join. unfold remove_dots. simpl. by rewrite drop_0. Qed.

Lemma build_some u : wf_uri u -> exists t, BuildUri u = Ok t /\ ParseUri t = Ok (Some u).
Proof. intros HW. eexists. split; [by apply build_eq|]. eapply parse_build; [done|by apply build_eq]. Qed.

(** The path that [ResolveUri] computes. *)
Lemma resolve_relative base ref rs bs s h t :
  ParseUri rs = Ok (Some ref) -> ParseUri bs = Ok (Some base) ->
  wf_uri base -> wf_uri ref -> scheme base = Some s -> s <> literal "dart" -> host base = Some h ->
  scheme ref = None -> BuildUri (rfc_target base ref) = Ok t ->
  ResolveUri rs bs = Ok (Some t).
Proof.
  intros ER EB HB HR ES ND EH ESr ET. unfold ResolveUri. rewrite ER, Ok_bind, ESr, EB, Ok_bind, ES.
  unfold strcmp_eq. rewrite bool_decide_false by done.
  destruct (wf_relative ref HR ESr) as [EHr _]. rewrite EHr. rewrite bool_decide_false by (intros ?; done).
  pose proof (wf_authority base HB) as HA. rewrite EH in HA.
  assert (HBP : path base = [] \/ absolute (path base)) by (destruct HA as [?|(? & _)]; auto).
  unfold rfc_target in ET. destruct (path ref) as [|c r] eqn:EP.
  - rewrite <- ES. cbn. by rewrite ET.
  - pose proof (proj1 (wf_path ref HR)) as HN. rewrite EP in HN. apply normal_head in HN.
    change (char_at (c :: r) 0) with c. rewrite (proj2 (Z.eqb_neq c 0) HN). destruct (c =? slash) eqn:EC.
    + apply Z.eqb_eq in EC as ->. rewrite RemoveDotSegments_absolute, Ok_bind, <- ES, ET by (by eexists). done.
    + rewrite bool_decide_false by done. cbn [andb]. rewrite MergePaths_eq by done.
      rewrite RemoveDotSegments_absolute, Ok_bind, <- ES, ET by apply merge_absolute. done.
Qed.

(** ** Properties *)

(** C29: normalization of escapes never fails, on any bytes, and never writes past its buffer of
    three times the length. If every percent sign of the input starts an escape sequence and,
    where [char] is signed, its characters are ASCII ([well_escaped]), then the result is in normal
    form and stands for the same characters, and normalizing it again changes nothing. Without
    these conditions it may not be so ([NormalizeEscapes_high_bytes],
    [NormalizeEscapes_not_idempotent]). *)
Theorem NormalizeEscapes_spec s :
  exists out, NormalizeEscapes s (Z.of_nat (length s)) = Ok out /\ (length out <= 3 * length s)%nat /\
    (well_escaped s -> normal out /\ decode out = decode s /\ NormalizeEscapes out (Z.of_nat (length out)) = Ok out).
Proof.
  assert (EN : NormalizeEscapes s (Z.of_nat (length s)) = normalize_loop s).
  { unfold NormalizeEscapes, utils_assert. rewrite (proj2 (Z.leb_le 0 _)), Ok_bind by lia. by rewrite Nat2Z.id, take_ge. }
  rewrite EN. destruct (normalize_total s) as (out & E & HL). exists out. split_and!; [done..|].
  intros HW. destruct (normalize_normal s HW) as (out' & E' & HN & HD). rewrite E in E'. simplify_eq.
  split_and!; [done..|]. rewrite <- (app_nil_r out') at 1. by apply NormalizeEscapes_normal.
Qed.

(** C28: [RemoveDotSegments] terminates on every string and writes no more characters than the
    path has, the size of its buffer. On an absolute path it is the stack of segments of
    RFC 3986: the result is an absolute path without dot segments, and removing them again
    changes nothing. *)
Theorem RemoveDotSegments_spec p :
  (0 ∉ p) ->
  (exists out, RemoveDotSegments p = Ok out /\ (length out <= length p)%nat) /\
  (absolute p -> exists segs, RemoveDotSegments p = Ok (join segs) /\ segs = resolve [] (split (drop 1 p)) /\
     Forall plain_segment segs /\ RemoveDotSegments (join segs) = Ok (join segs)).
Proof.
  intros H0. split.
  - destruct (dot_loop_ok (length p) p []) as (out & E & HL); [done..|by left|]. exists out. split; [done|]. simpl in HL. lia.
  - intros HA. exists (resolve [] (split (drop 1 p))).
    assert (HP : Forall plain_segment (resolve [] (split (drop 1 p)))) by by apply resolve_plain.
    split_and!; [by apply RemoveDotSegments_absolute|done..|].
    destruct (split_join (resolve [] (split (drop 1 p)))) as (q & EJ & EQ);
      [apply resolve_ne, split_ne|apply resolve_forall; [constructor..|apply split_no_slash]|].
    rewrite EJ, RemoveDotSegments_join, EQ, resolve_id by done. by rewrite <- EJ.
Qed.

(** C22: building a URI from well-formed components succeeds, and parsing the result gives the
    components back. *)
Theorem uri_roundtrip u :
  wf_uri u -> exists s, BuildUri u = Ok s /\ ParseUri s = Ok (Some u).
Proof. apply build_some. Qed.

(** C17: let a base with an authority and a scheme other than [dart], and a reference with
    neither scheme nor authority, have well-formed components ([wf_uri]: in normal form and
    without the characters that end them), and let not both have an empty path. Then both are
    built, resolving the reference against the base succeeds, and the target, parsed again, has
    exactly the components that section 5.2 of RFC 3986 gives it; unless the reference has no
    path of its own, the path of the target has no dot segments. When both paths are empty and
    the reference has a query or a fragment, the target has one right after its authority, and
    parsing it fails an assertion ([ParseUri_authority_query]). *)
Theorem ResolveUri_rfc base ref s h :
  wf_uri base -> wf_uri ref -> scheme base = Some s -> s <> literal "dart" -> host base = Some h ->
  scheme ref = None -> (path base = [] -> path ref <> []) ->
  exists bs rs t, BuildUri base = Ok bs /\ BuildUri ref = Ok rs /\ ResolveUri rs bs = Ok (Some t) /\
    ParseUri t = Ok (Some (rfc_target base ref)) /\
    (path ref <> [] -> Forall plain_segment (split (drop 1 (path (rfc_target base ref))))).
Proof.
  intros HB HR ES ND EH ESr HN. destruct (build_some base HB) as (bs & EB & PB), (build_some ref HR) as (rs & ER & PR).
  pose proof (rfc_target_wf base ref s h HB HR ES EH HN) as HT. destruct (build_some _ HT) as (t & ET & PT).
  exists bs, rs, t. split_and!; [done..|by eapply resolve_relative|done|].
  intros HP. unfold rfc_target. destruct (path ref) as [|c r]; [done|]. cbn [path].
  set (p := if c =? slash then _ else _). unfold remove_dots.
  destruct (split_join (resolve [] (split (drop 1 p)))) as (q & EJ & EQ);
    [apply resolve_ne, split_ne|apply resolve_forall; [constructor..|apply split_no_slash]|].
  rewrite EJ. simpl. rewrite drop_0, EQ. by apply resolve_plain.
Qed.

End resolve.

(** ** Concrete URIs *)

(** A string of unreserved characters and delimiters is in normal form. *)
Lemma normal_plain s : forallb plain_char s = true -> normal s.
Proof. induction s as [|c s IH]; [constructor|]. simpl. intros [HC HS]%andb_true_iff. constructor; auto. Qed.

Lemma free_compute reject s : forallb (fun c => negb (mem c reject)) s = true -> free reject s.
Proof.
  induction s as [|c s IH]; [constructor|]. simpl. intros [HC%negb_true_iff HS]%andb_true_iff. constructor; [done|].
  by apply IH.
Qed.

Definition example_base : ParsedUri :=
  mkUri (Some (literal "http")) (Some (literal "me")) (Some (literal "a.org")) (Some (literal "80"))
    (literal "/b/c") (Some (literal "q=1")) None.

Definition example_ref : ParsedUri :=
  mkUri None None None None (literal "../g;x") None (Some (literal "frag")).

Ltac concrete_wf :=
  constructor; simpl;
  repeat match goal with
    | |- _ /\ _ => split
    | |- normal _ => apply normal_plain; reflexivity
    | |- free _ _ => apply free_compute; reflexivity
    | |- True => exact I
    | |- _ = _ => reflexivity
    end.

Lemma example_base_wf : wf_uri example_base.
Proof. concrete_wf; [left; by eexists|done]. Qed.

Lemma example_ref_wf : wf_uri example_ref.
Proof. concrete_wf; [intros [q E]; discriminate E|]. intros _. split; [done|]. vm_compute. discriminate. Qed.

Lemma RemoveDotSegments_spec_witness :
  exists segs, RemoveDotSegments (literal "/a/./b/../c/..") = Ok (join segs) /\ Forall plain_segment segs /\
    join segs = literal "/a/".
Proof.
  assert (H0 : 0 ∉ literal "/a/./b/../c/..") by (apply (bool_decide_unpack _); vm_compute; exact I).
  destruct (RemoveDotSegments_spec (literal "/a/./b/../c/..") H0) as [_ HS].
  destruct HS as (segs & E & ES & HP & _); [by eexists|]. exists segs. split_and!; [exact E|exact HP|].
  rewrite ES. vm_compute. reflexivity.
Defined.

Lemma uri_roundtrip_witness :
  exists s, BuildUri example_base = Ok s /\ s = literal "http://me@a.org:80/b/c?q=1" /\
    ParseUri s = Ok (Some example_base).
Proof.
  destruct (uri_roundtrip example_base example_base_wf) as (s & E & EP). exists s. split_and!; [exact E| |exact EP].
  vm_compute in E. injection E as E. rewrite <- E. vm_compute. reflexivity.
Defined.

Lemma ResolveUri_rfc_witness :
  exists bs rs t, BuildUri example_base = Ok bs /\ BuildUri example_ref = Ok rs /\ ResolveUri rs bs = Ok (Some t) /\
    ParseUri t = Ok (Some (rfc_target example_base example_ref)) /\
    path (rfc_target example_base example_ref) = literal "/g;x".
Proof.
  destruct (ResolveUri_rfc example_base example_ref (literal "http") (literal "a.org") example_base_wf example_ref_wf)
    as (bs & rs & t & EB & ER & ET & EP & _); [reflexivity|discriminate|reflexivity|reflexivity|discriminate|].
  exists bs, rs, t. split_and!; [exact EB|exact ER|exact ET|exact EP|]. vm_compute. reflexivity.
Defined.

Lemma NormalizeEscapes_spec_witness :
  exists out, NormalizeEscapes (literal "%7ea b%2f") 9 = Ok out /\ out = literal "~a%20b%2F" /\
    normal out /\ decode out = decode (literal "%7ea b%2f").
Proof.
  destruct (NormalizeEscapes_spec (literal "%7ea b%2f")) as (out & E & _ & HW).
  destruct HW as (HN & HD & _); [repeat first [apply well_escape; [reflexivity..|]
    | apply well_char; [by vm_compute|discriminate|] | apply well_nil]|].
  exists out. split_and!; [exact E| |exact HN|exact HD].
  vm_compute in E. injection E as E. rewrite <- E. vm_compute. reflexivity.
Defined.

(** ** Where the code departs from the RFC and its comments *)

(** The authority is taken to end at a slash only: with a query or a fragment right after
    the host the path has a negative length, and the allocation of its buffer fails an
    assertion. *)
Example ParseUri_authority_query :
  ParseUri (literal "http://h?q") = Fatal UtilsAssertion /\ ParseUri (literal "http://h#f") = Fatal UtilsAssertion.
Proof. split; vm_compute; reflexivity. Qed.

(** A reference with an authority, against a base without a scheme, builds a URI that
    [BuildUri] excludes by assertion. *)
Example ResolveUri_no_scheme : ResolveUri (literal "//auth/x") (literal "/a/b") = Fatal UtilsAssertion.
Proof. vm_compute. reflexivity. Qed.

(** Where [char] is signed, all bytes above 127 get the same escape. *)
Example NormalizeEscapes_high_bytes :
  NormalizeEscapes [195; 169] 2 = Ok (literal "%FF%FF") /\ NormalizeEscapes [226; 130; 172] 3 = Ok (literal "%FF%FF%FF").
Proof. split; vm_compute; reflexivity. Qed.

(** An initial ["./"] is discarded only where it is all of the input: the comparison takes the
    terminating zero along. *)
Example RemoveDotSegments_initial_dot :
  RemoveDotSegments (literal "./x") = Ok (literal "./x") /\ RemoveDotSegments (literal "../x") = Ok (literal "x").
Proof. split; vm_compute; reflexivity. Qed.

(** The search for the scheme does not stop at a query or a fragment. *)
Example ParseUri_colon_in_query :
  ParseUri (literal "?a:b") = Ok (Some (mkUri (Some (literal "?a")) None None None (literal "b") None None)).
Proof. vm_compute. reflexivity. Qed.

(** A percent sign that starts no escape sequence can start one in the result. *)
Example NormalizeEscapes_not_idempotent :
  NormalizeEscapes (literal "%%341") 5 = Ok (literal "%41") /\ NormalizeEscapes (literal "%41") 3 = Ok (literal "A").
Proof. split; vm_compute; reflexivity. Qed.
