(* ===== verification/Unicode.v ===== *)
(** UTF-8 and UTF-16: [runtime/platform/unicode.cc] and [unicode.h].

    An array with its length is a list; an array from an index on is the list without the
    elements before the index.  The functions that fill an array return the elements they
    write, from the first one on.  A loop that needs more than the length of its input ends
    in [UnicodeDiverges], a failed [ASSERT] in [UnicodeAssertion]; reading past the end of
    the input is undefined. *)
From stdpp Require Import base numbers list.
From Stdlib Require Import ZArith Lia.
From S2P Require Import Prelude Utils.
Local Open Scope Z_scope.
Local Open Scope cxx_scope.

Inductive unicode_error := UnicodeAssertion | UnicodeDiverges.

Definition unicode := outcome unicode_error.

Definition unicode_assert (condition : bool) : unicode unit :=
  if condition then Ok () else Fatal UnicodeAssertion.

Module Utf.

Definition kMaxCodePoint : Z := 0x10FFFF.

Definition IsLatin1 (code_point : Z) : bool := (0 <=? code_point) && (code_point <=? 0xFF).
Definition IsBmp (code_point : Z) : bool := (0 <=? code_point) && (code_point <=? 0xFFFF).
Definition IsSupplementary (code_point : Z) : bool :=
  (0xFFFF <? code_point) && (code_point <=? kMaxCodePoint).
Definition IsOutOfRange (code_point : Z) : bool :=
  (code_point <? 0) || (kMaxCodePoint <? code_point).

End Utf.

Module Utf16.

Definition kMaxCodeUnit : Z := 0xFFFF.
Definition kLeadSurrogateOffset : Z := 0xD800 - (0x10000 >> 10).

Definition Length (ch : Z) : Z := if ch <=? kMaxCodeUnit then 1 else 2.

Definition IsSurrogate (ch : Z) : bool := ch .& 0xFFFFF800 =? 0xD800.
Definition IsLeadSurrogate (ch : Z) : bool := ch .& 0xFFFFFC00 =? 0xD800.
Definition IsTrailSurrogate (ch : Z) : bool := ch .& 0xFFFFFC00 =? 0xDC00.

Definition Decode (lead trail : Z) : Z :=
  0x10000 + ((lead .& 0x000003FF) << 10) + (trail .& 0x3FF).

(** [Next(characters, &i, len)] at [characters + i]: the character and how far [i] moves. *)
Definition Next (characters : list Z) : unicode (Z * nat) :=
  match characters with
  | [] => Undefined
  | ch :: rest =>
      if IsLeadSurrogate ch then
        match rest with
        | ch2 :: _ =>
            if IsTrailSurrogate ch2 then Ok (Decode ch ch2, 2%nat) else Ok (ch, 1%nat)
        | [] => Ok (ch, 1%nat)
        end
      else Ok (ch, 1%nat)
  end.

Definition Encode (codepoint : Z) : unicode (list Z) :=
  _ ← unicode_assert (kMaxCodeUnit <? codepoint);
  Ok [wrapu 16 (kLeadSurrogateOffset + (codepoint >> 10));
      wrapu 16 (0xDC00 + (codepoint .& 0x3FF))].

End Utf16.

Module Utf8.

Inductive Type_ := kLatin1 | kBMP | kSupplementary.

Definition kTrailBytes : list Z :=
  [1; 1; 1; 1; 1; 1; 1; 1; 1; 1; 1; 1; 1; 1; 1; 1;
   1; 1; 1; 1; 1; 1; 1; 1; 1; 1; 1; 1; 1; 1; 1; 1;
   1; 1; 1; 1; 1; 1; 1; 1; 1; 1; 1; 1; 1; 1; 1; 1;
   1; 1; 1; 1; 1; 1; 1; 1; 1; 1; 1; 1; 1; 1; 1; 1;
   1; 1; 1; 1; 1; 1; 1; 1; 1; 1; 1; 1; 1; 1; 1; 1;
   1; 1; 1; 1; 1; 1; 1; 1; 1; 1; 1; 1; 1; 1; 1; 1;
   1; 1; 1; 1; 1; 1; 1; 1; 1; 1; 1; 1; 1; 1; 1; 1;
   1; 1; 1; 1; 1; 1; 1; 1; 1; 1; 1; 1; 1; 1; 1; 1;
   0; 0; 0; 0; 0; 0; 0; 0; 0; 0; 0; 0; 0; 0; 0; 0;
   0; 0; 0; 0; 0; 0; 0; 0; 0; 0; 0; 0; 0; 0; 0; 0;
   0; 0; 0; 0; 0; 0; 0; 0; 0; 0; 0; 0; 0; 0; 0; 0;
   0; 0; 0; 0; 0; 0; 0; 0; 0; 0; 0; 0; 0; 0; 0; 0;
   2; 2; 2; 2; 2; 2; 2; 2; 2; 2; 2; 2; 2; 2; 2; 2;
   2; 2; 2; 2; 2; 2; 2; 2; 2; 2; 2; 2; 2; 2; 2; 2;
   3; 3; 3; 3; 3; 3; 3; 3; 3; 3; 3; 3; 3; 3; 3; 3;
   4; 4; 4; 4; 4; 4; 4; 4; 5; 5; 5; 5; 6; 6; 0; 0].

Definition kMagicBits : list Z :=
  [0; 0x00000000; 0x00003080; 0x000E2080; 0x03C82080; 0xFA082080; 0x82082080].

Definition kOverlongMinimum : list Z := [0; 0x0; 0x80; 0x800; 0x10000; 0xFFFFFFFF; 0xFFFFFFFF].

Definition kMaxOneByteChar : Z := 0x7F.
Definition kMaxTwoByteChar : Z := 0x7FF.
Definition kMaxThreeByteChar : Z := 0xFFFF.
Definition kMaxFourByteChar : Z := Utf.kMaxCodePoint.

Definition IsTrailByte (code_unit : Z) : bool := code_unit .& 0xC0 =? 0x80.
Definition IsNonShortestForm (code_point : Z) (num_code_units : nat) : bool :=
  code_point <? nth num_code_units kOverlongMinimum 0.
Definition IsLatin1SequenceStart (code_unit : Z) : bool := code_unit <=? 0xC3.
Definition IsSupplementarySequenceStart (code_unit : Z) : bool := 0xF0 <=? code_unit.

(** One iteration of [CodeUnitCount]. *)
Definition count_unit (acc : Z * Type_) (code_unit : Z) : Z * Type_ :=
  let (len, char_type) := acc in
  if negb (IsTrailByte code_unit) then
    let len := len + 1 in
    if negb (IsLatin1SequenceStart code_unit) then
      if IsSupplementarySequenceStart code_unit then (len + 1, kSupplementary)
      else match char_type with kLatin1 => (len, kBMP) | _ => (len, char_type) end
    else (len, char_type)
  else (len, char_type).

Definition CodeUnitCount (utf8_array : list Z) : Z * Type_ :=
  fold_left count_unit utf8_array (0, kLatin1).

Definition Length (ch : Z) : unicode Z :=
  if ch <=? kMaxOneByteChar then Ok 1
  else if ch <=? kMaxTwoByteChar then Ok 2
  else if ch <=? kMaxThreeByteChar then Ok 3
  else _ ← unicode_assert (ch <=? kMaxFourByteChar); Ok 4.

(** [~(1 << 6)]: the result is stored in a byte, whose top bit is set separately. *)
Definition kMask : Z := Z.lnot (1 << 6).

Definition Encode (ch : Z) : unicode (list Z) :=
  if ch <=? kMaxOneByteChar then Ok [wrapu 8 ch]
  else if ch <=? kMaxTwoByteChar then
    Ok [wrapu 8 (0xC0 .| (ch >> 6)); wrapu 8 (0x80 .| (ch .& kMask))]
  else if ch <=? kMaxThreeByteChar then
    Ok [wrapu 8 (0xE0 .| (ch >> 12)); wrapu 8 (0x80 .| ((ch >> 6) .& kMask));
        wrapu 8 (0x80 .| (ch .& kMask))]
  else
    _ ← unicode_assert (ch <=? kMaxFourByteChar);
    Ok [wrapu 8 (0xF0 .| (ch >> 18)); wrapu 8 (0x80 .| ((ch >> 12) .& kMask));
        wrapu 8 (0x80 .| ((ch >> 6) .& kMask)); wrapu 8 (0x80 .| (ch .& kMask))].

(** The loop over the trail bytes from the index [i] on, for [n] more bytes: the bits put
    together and whether a byte is malformed; [None] at the end of the array. *)
Fixpoint trail_loop (utf8_array : list Z) (n i : nat) (ch : Z) (is_malformed : bool)
    : option (Z * bool) :=
  match n with
  | O => Some (ch, is_malformed)
  | S n =>
      match utf8_array !! i with
      | Some code_unit =>
          trail_loop utf8_array n (S i) (wrapu 32 (wrapu 32 (ch << 6) + code_unit))
            (is_malformed || negb (IsTrailByte code_unit))
      | None => None
      end
  end.

(** [Decode(utf8_array, array_len, &ch)]: the number of bytes and the character. *)
Definition Decode (utf8_array : list Z) : unicode (nat * Z) :=
  match utf8_array with
  | [] => Undefined
  | byte :: _ =>
      let ch := byte .& 0xFF in
      if 0x80 <=? ch then
        let num_trail_bytes := Z.to_nat (nth (Z.to_nat ch) kTrailBytes 0) in
        let i := Nat.max 1 num_trail_bytes in
        match trail_loop utf8_array (num_trail_bytes - 1) 1 ch false with
        | None => Ok (0%nat, -1)
        | Some (ch, is_malformed) =>
            let ch := wrapu 32 (ch - nth num_trail_bytes kMagicBits 0) in
            if negb (negb is_malformed && (i =? num_trail_bytes)%nat
                     && negb (Utf.IsOutOfRange (wraps 32 ch))
                     && negb (IsNonShortestForm ch i))
            then Ok (0%nat, -1)
            else Ok (i, wraps 32 ch)
        end
      else Ok (1%nat, ch)
  end.

(** [IsValid] from an index on. *)
Fixpoint valid_loop (fuel : nat) (utf8_array : list Z) : unicode bool :=
  match utf8_array with
  | [] => Ok true
  | byte :: _ =>
      match fuel with
      | O => Fatal UnicodeDiverges
      | S fuel =>
          let ch := byte .& 0xFF in
          if 0x80 <=? ch then
            let num_trail_bytes := Z.to_nat (nth (Z.to_nat ch) kTrailBytes 0) in
            let j := Nat.max 1 num_trail_bytes in
            match trail_loop utf8_array (num_trail_bytes - 1) 1 ch false with
            | None => Ok false
            | Some (ch, is_malformed) =>
                let ch := wrapu 32 (ch - nth num_trail_bytes kMagicBits 0) in
                if negb (negb is_malformed && (j =? num_trail_bytes)%nat
                         && negb (Utf.IsOutOfRange (wraps 32 ch))
                         && negb (IsNonShortestForm ch j))
                then Ok false
                else valid_loop fuel (drop j utf8_array)
            end
          else valid_loop fuel (drop 1 utf8_array)
      end
  end.

Definition IsValid (utf8_array : list Z) : unicode bool :=
  valid_loop (length utf8_array) utf8_array.

(** The loops of the [DecodeTo] functions: [utf8_array] from the index [i] on, [len - j]
    elements left of the destination; whether it succeeds, and what it writes. *)
Definition writes (units : list Z) (r : unicode (bool * list Z)) : unicode (bool * list Z) :=
  '(ok, dst) ← r; Ok (ok, units ++ dst).

Fixpoint DecodeToLatin1_loop (fuel : nat) (utf8_array : list Z) (len : nat)
    : unicode (bool * list Z) :=
  match utf8_array, len with
  | [], _ => Ok (true, [])
  | _, O => Ok (false, [])
  | byte :: _, S len' =>
      match fuel with
      | O => Fatal UnicodeDiverges
      | S fuel =>
          _ ← unicode_assert (IsLatin1SequenceStart byte);
          '(num_bytes, ch) ← Decode utf8_array;
          if ch =? -1 then Ok (false, [])
          else
            _ ← unicode_assert (Utf.IsLatin1 ch);
            writes [wrapu 8 ch] (DecodeToLatin1_loop fuel (drop num_bytes utf8_array) len')
      end
  end.

Fixpoint DecodeToUTF16_loop (fuel : nat) (utf8_array : list Z) (len : nat)
    : unicode (bool * list Z) :=
  match utf8_array, len with
  | [], _ => Ok (true, [])
  | _, O => Ok (false, [])
  | byte :: _, S len' =>
      match fuel with
      | O => Fatal UnicodeDiverges
      | S fuel =>
          let is_supplementary := IsSupplementarySequenceStart byte in
          '(num_bytes, ch) ← Decode utf8_array;
          if ch =? -1 then Ok (false, [])
          else if is_supplementary then
            match len' with
            | O => Ok (false, [])
            | S len'' =>
                units ← Utf16.Encode ch;
                writes units (DecodeToUTF16_loop fuel (drop num_bytes utf8_array) len'')
            end
          else
            writes [wrapu 16 ch] (DecodeToUTF16_loop fuel (drop num_bytes utf8_array) len')
      end
  end.

Fixpoint DecodeToUTF32_loop (fuel : nat) (utf8_array : list Z) (len : nat)
    : unicode (bool * list Z) :=
  match utf8_array, len with
  | [], _ => Ok (true, [])
  | _, O => Ok (false, [])
  | byte :: _, S len' =>
      match fuel with
      | O => Fatal UnicodeDiverges
      | S fuel =>
          '(num_bytes, ch) ← Decode utf8_array;
          if ch =? -1 then Ok (false, [])
          else writes [ch] (DecodeToUTF32_loop fuel (drop num_bytes utf8_array) len')
      end
  end.

Definition DecodeToLatin1 (utf8_array : list Z) (len : nat) : unicode (bool * list Z) :=
  DecodeToLatin1_loop (length utf8_array) utf8_array len.
Definition DecodeToUTF16 (utf8_array : list Z) (len : nat) : unicode (bool * list Z) :=
  DecodeToUTF16_loop (length utf8_array) utf8_array len.
Definition DecodeToUTF32 (utf8_array : list Z) (len : nat) : unicode (bool * list Z) :=
  DecodeToUTF32_loop (length utf8_array) utf8_array len.

(** The loop of [ReportInvalidByte]: [i] when it ends; what it prints is left out. *)
Fixpoint ReportInvalidByte_loop (fuel : nat) (utf8_array : list Z) (i len : nat)
    : unicode nat :=
  match drop i utf8_array, len with
  | [], _ | _, O => Ok i
  | byte :: _, S len' =>
      match fuel with
      | O => Fatal UnicodeDiverges
      | S fuel =>
          let is_supplementary := IsSupplementarySequenceStart byte in
          '(num_bytes, ch) ← Decode (drop i utf8_array);
          if ch =? -1 then Ok i
          else ReportInvalidByte_loop fuel utf8_array (i + num_bytes)
                 (if is_supplementary then len' - 1 else len')%nat
      end
  end.

Definition ReportInvalidByte (utf8_array : list Z) (len : nat) : unicode nat :=
  ReportInvalidByte_loop (length utf8_array) utf8_array 0 len.

End Utf8.
