(* ===== verification/UnicodeProps.v ===== *)
(** UTF-8 and UTF-16 conversions: decoding inverts encoding and accepts nothing else, and
    the functions over strings agree with the sequence of characters they hold. *)
From stdpp Require Import base numbers list.
From Stdlib Require Import ZArith Lia.
From S2P Require Import Prelude Utils Unicode.
Local Open Scope Z_scope.
Local Open Scope cxx_scope.

(** ** The encoding of a character *)

Definition character (ch : Z) : Prop := 0 <= ch <= Utf.kMaxCodePoint.

(** The bytes of a character, by arithmetic. *)
Definition utf8 (ch : Z) : list Z :=
  if ch <? 0x80 then [ch]
  else if ch <? 0x800 then [0xC0 + ch / 64; 0x80 + ch mod 64]
  else if ch <? 0x10000 then
    [0xE0 + ch / 4096; 0x80 + ch / 64 mod 64; 0x80 + ch mod 64]
  else
    [0xF0 + ch / 262144; 0x80 + ch / 4096 mod 64; 0x80 + ch / 64 mod 64; 0x80 + ch mod 64].

Lemma IsTrailByte_spec b : is_u 8 b -> Utf8.IsTrailByte b = (0x80 <=? b) && (b <? 0xC0).
Proof.
  intros Hb. apply eqb_true_iff.
  apply (all_bytes (fun b => Bool.eqb (Utf8.IsTrailByte b) ((0x80 <=? b) && (b <? 0xC0))));
    [vm_compute; reflexivity|done].
Qed.

Definition trail_bytes (b : Z) : Z :=
  if b <? 0x80 then 1 else if b <? 0xC0 then 0 else if b <? 0xE0 then 2
  else if b <? 0xF0 then 3 else if b <? 0xF8 then 4 else if b <? 0xFC then 5
  else if b <? 0xFE then 6 else 0.

Lemma kTrailBytes_spec b :
  is_u 8 b -> nth (Z.to_nat b) Utf8.kTrailBytes 0 = trail_bytes b.
Proof.
  intros Hb. apply Z.eqb_eq.
  apply (all_bytes (fun b => nth (Z.to_nat b) Utf8.kTrailBytes 0 =? trail_bytes b));
    [vm_compute; reflexivity|done].
Qed.

Lemma byte_mask b : is_u 8 b -> b .& 0xFF = b.
Proof. intros Hb. change 0xFF with (Z.ones 8). rewrite Z.land_ones by lia. by apply wrapu_id. Qed.

(** The low six bits with the mark of a trail byte. *)
Lemma trail_unit x : wrapu 8 (0x80 .| (x .& Utf8.kMask)) = 0x80 + x mod 64.
Proof.
  pose proof (lor_add 2 (wrapu 6 x) 6 ltac:(lia) (wrapu_range 6 x ltac:(lia))) as E.
  change (2 * 2 ^ 6) with 0x80 in E. unfold wrapu at 2 in E. change (2 ^ 6) with 64 in E.
  rewrite <- E. apply (u_bits 8); [lia|by apply wrapu_range| |].
  - apply lor_u; [lia|done|]. pose proof (wrapu_range 6 x ltac:(lia)). unfold is_u in *. lia.
  - unfold Utf8.kMask. enum_range; by bit_norm.
Qed.

(** The lead byte. *)
Lemma lead_unit c n x :
  0 <= n -> 0 <= x < 2 ^ n -> (c << n) + x < 256 -> 0 <= c ->
  wrapu 8 ((c << n) .| x) = (c << n) + x.
Proof.
  intros Hn Hx Hc H0. rewrite lor_add, Z.shiftl_mul_pow2 in * by done. apply wrapu_id.
  pose proof (pow2_pos n Hn). unfold is_u. nia.
Qed.

Lemma Encode_utf8 ch : character ch -> Utf8.Encode ch = Ok (utf8 ch).
Proof.
  intros [H0 H1]. change Utf.kMaxCodePoint with 0x10FFFF in H1.
  unfold Utf8.Encode, utf8, Utf8.kMaxOneByteChar, Utf8.kMaxTwoByteChar,
    Utf8.kMaxThreeByteChar, Utf8.kMaxFourByteChar, Utf.kMaxCodePoint.
  rewrite !trail_unit, !Z.shiftr_div_pow2 by lia.
  change (2 ^ 6) with 64. change (2 ^ 12) with 4096. change (2 ^ 18) with 262144.
  destruct (Z.ltb_spec ch 0x80); [rewrite (proj2 (Z.leb_le _ _)) by lia|].
  { by rewrite wrapu_id by (unfold is_u; lia). }
  rewrite (proj2 (Z.leb_gt _ _)) by lia.
  destruct (Z.ltb_spec ch 0x800); [rewrite (proj2 (Z.leb_le _ _)) by lia|].
  { change 0xC0 with (6 << 5) at 1. rewrite lead_unit; [done|lia|..]; try lia;
      change (6 << 5) with 192; change (2 ^ 5) with 32; Z.div_mod_to_equations; lia. }
  rewrite (proj2 (Z.leb_gt _ _)) by lia.
  destruct (Z.ltb_spec ch 0x10000); [rewrite (proj2 (Z.leb_le _ _)) by lia|].
  { change 0xE0 with (14 << 4) at 1. rewrite lead_unit; [done|lia|..]; try lia;
      change (14 << 4) with 224; change (2 ^ 4) with 16; Z.div_mod_to_equations; lia. }
  rewrite (proj2 (Z.leb_gt _ _)) by lia. rewrite (proj2 (Z.leb_le _ _)) by lia. cbn [unicode_assert mbind outcome_bind].
  change 0xF0 with (30 << 3) at 1. rewrite lead_unit; [done|lia|..]; try lia;
    change (30 << 3) with 240; change (2 ^ 3) with 8; Z.div_mod_to_equations; lia.
Qed.

(** ** Decoding a character *)

(** The bits put together, without wrap-around. *)
Lemma append_bits ch b :
  0 <= ch < 2 ^ 25 -> is_u 8 b -> wrapu 32 (wrapu 32 (ch << 6) + b) = ch * 64 + b.
Proof.
  intros Hc Hb. unfold is_u in Hb. rewrite Z.shiftl_mul_pow2 by lia.
  change (2 ^ 25) with 33554432 in Hc. change (2 ^ 6) with 64. change (2 ^ 8) with 256 in Hb.
  rewrite (wrapu_id 32 (ch * 64)) by (unfold is_u; lia).
  apply wrapu_id. unfold is_u. lia.
Qed.

(** The value of the bits [v] of a sequence of [n] bytes, and whether it is accepted. *)
Definition finish (n : nat) (v : Z) (is_malformed : bool) : unicode (nat * Z) :=
  let ch := wrapu 32 (v - nth n Utf8.kMagicBits 0) in
  if negb (negb is_malformed && (Nat.max 1 n =? n)%nat
           && negb (Utf.IsOutOfRange (wraps 32 ch)) && negb (Utf8.IsNonShortestForm ch (Nat.max 1 n)))
  then Ok (0%nat, -1)
  else Ok (Nat.max 1 n, wraps 32 ch).

Lemma finish_ok n v ch :
  (1 <= n)%nat -> v - nth n Utf8.kMagicBits 0 = ch -> character ch ->
  nth n Utf8.kOverlongMinimum 0 <= ch -> finish n v false = Ok (n, ch).
Proof.
  intros Hn E [H0 H1] Hmin. change Utf.kMaxCodePoint with 0x10FFFF in H1.
  unfold finish. rewrite E, Nat.max_r by done. rewrite Nat.eqb_refl.
  rewrite (wrapu_id 32) by (unfold is_u; lia). rewrite wraps_id by (unfold is_s; lia).
  unfold Utf.IsOutOfRange, Utf.kMaxCodePoint, Utf8.IsNonShortestForm.
  rewrite (proj2 (Z.ltb_ge ch 0)) by lia. rewrite (proj2 (Z.ltb_ge 0x10FFFF ch)) by lia.
  by rewrite (proj2 (Z.ltb_ge ch _)) by done.
Qed.

Lemma finish_inv n v m k ch :
  finish n v m = Ok (k, ch) ->
  (k = 0%nat /\ ch = -1) \/
  (m = false /\ (1 <= n)%nat /\ k = n /\ character ch /\
   wrapu 32 (v - nth n Utf8.kMagicBits 0) = ch /\ nth n Utf8.kOverlongMinimum 0 <= ch).
Proof.
  unfold finish. set (u := wrapu 32 _).
  assert (is_u 32 u) as Hu by (by apply wrapu_range). clearbody u.
  destruct (negb _) eqn:E; intros [= <- <-]; [by left|]. right.
  apply negb_false_iff in E. rewrite !andb_true_iff, !negb_true_iff in E.
  destruct E as (((Em & En) & Eo) & Es). apply Nat.eqb_eq in En.
  unfold Utf.IsOutOfRange in Eo. apply orb_false_iff in Eo as [Eo1%Z.ltb_ge Eo2%Z.ltb_ge].
  apply Z.ltb_ge in Es. rewrite En in Es |- *. assert (wraps 32 u = u) as Ew.
  { rewrite wraps_of_u in * by (done || lia). destruct (Z.ltb_spec u (2 ^ (32 - 1))); [done|].
    unfold is_u in Hu. change (2 ^ 32) with 4294967296 in *. lia. }
  rewrite Ew in *. unfold character. split_and!; done || lia.
Qed.

Lemma Decode_ascii b rest : is_u 8 b -> b < 0x80 -> Utf8.Decode (b :: rest) = Ok (1%nat, b).
Proof.
  intros Hb Hlt. unfold Utf8.Decode. rewrite byte_mask by done.
  by rewrite (proj2 (Z.leb_gt _ _)) by lia.
Qed.

Lemma Decode_lead b rest :
  is_u 8 b -> 0x80 <= b ->
  Utf8.Decode (b :: rest) =
    let n := Z.to_nat (trail_bytes b) in
    match Utf8.trail_loop (b :: rest) (n - 1) 1 b false with
    | None => Ok (0%nat, -1)
    | Some (v, m) => finish n v m
    end.
Proof.
  intros Hb Hge. unfold Utf8.Decode. rewrite byte_mask by done.
  rewrite (proj2 (Z.leb_le _ _)) by lia. rewrite kTrailBytes_spec by done. done.
Qed.

Ltac lead b := (* the number of bytes of a lead byte whose range is known *)
  unfold trail_bytes;
  repeat match goal with
    | |- context [b <? ?c] =>
        first [rewrite (proj2 (Z.ltb_lt b c)) by lia | rewrite (proj2 (Z.ltb_ge b c)) by lia]
    end.

Lemma trail_step bs n i ch m b :
  bs !! i = Some b -> 0 <= ch < 2 ^ 25 -> is_u 8 b ->
  Utf8.trail_loop bs (S n) i ch m =
    Utf8.trail_loop bs n (S i) (ch * 64 + b) (m || negb (Utf8.IsTrailByte b)).
Proof. cbn [Utf8.trail_loop]. intros -> ? ?. by rewrite append_bits. Qed.

Lemma trail_end bs i ch m : Utf8.trail_loop bs 0 i ch m = Some (ch, m).
Proof. done. Qed.

Ltac counts :=
  repeat match goal with
    | |- context [Z.to_nat ?k] =>
        lazymatch isZcst k with true => idtac end;
        let n := eval vm_compute in (Z.to_nat k) in change (Z.to_nat k) with n
    end; cbn [Nat.sub].

Lemma trail_ok x : 0 <= x < 64 -> Utf8.IsTrailByte (0x80 + x) = true.
Proof. intros. rewrite IsTrailByte_spec by (unfold is_u; lia). lia. Qed.

(** Decode the bytes of a character whose lead byte is [b]. *)
Ltac decode_from b :=
  rewrite Decode_lead by (unfold is_u; lia); cbv zeta; lead b; counts;
  repeat (erewrite trail_step; [|reflexivity|lia|unfold is_u; lia]);
  rewrite trail_end, !trail_ok by lia; cbn [negb orb];
  apply finish_ok; [lia| |done|cbn; lia]; cbn; unfold b; Z.div_mod_to_equations; lia.

Lemma Decode_utf8 ch rest :
  character ch -> Utf8.Decode (utf8 ch ++ rest) = Ok (length (utf8 ch), ch).
Proof.
  intros Hc. pose proof Hc as [H0 H1]. change Utf.kMaxCodePoint with 0x10FFFF in H1.
  pose proof (Z.mod_pos_bound ch 64 ltac:(lia)).
  pose proof (Z.mod_pos_bound (ch / 64) 64 ltac:(lia)).
  pose proof (Z.mod_pos_bound (ch / 4096) 64 ltac:(lia)).
  unfold utf8. destruct (Z.ltb_spec ch 0x80); [|destruct (Z.ltb_spec ch 0x800);
    [|destruct (Z.ltb_spec ch 0x10000)]]; cbn [app length].
  - apply Decode_ascii; [unfold is_u; lia|done].
  - assert (0 <= ch / 64 < 32)
      by (split; [apply Z.div_pos; lia|apply Z.div_lt_upper_bound; lia]).
    set (b0 := 0xC0 + ch / 64). assert (0xC0 <= b0 < 0xE0) by lia.
    decode_from b0.
  - assert (0 <= ch / 4096 < 16)
      by (split; [apply Z.div_pos; lia|apply Z.div_lt_upper_bound; lia]).
    set (b0 := 0xE0 + ch / 4096). assert (0xE0 <= b0 < 0xF0) by lia.
    decode_from b0.
  - assert (0 <= ch / 262144 < 8)
      by (split; [apply Z.div_pos; lia|apply Z.div_lt_upper_bound; lia]).
    set (b0 := 0xF0 + ch / 262144). assert (0xF0 <= b0 < 0xF8) by lia.
    decode_from b0.
Qed.

(** The bytes of a character from its six-bit groups. *)
Lemma utf8_groups2 q0 q1 :
  0 <= q1 < 64 -> 0x80 <= q0 * 64 + q1 < 0x800 ->
  utf8 (q0 * 64 + q1) = [0xC0 + q0; 0x80 + q1].
Proof.
  intros H1 Hr. unfold utf8. rewrite (proj2 (Z.ltb_ge _ 0x80)) by lia.
  rewrite (proj2 (Z.ltb_lt _ 0x800)) by lia.
  repeat f_equal; Z.div_mod_to_equations; lia.
Qed.

Lemma utf8_groups3 q0 q1 q2 :
  0 <= q1 < 64 -> 0 <= q2 < 64 -> 0x800 <= (q0 * 64 + q1) * 64 + q2 < 0x10000 ->
  utf8 ((q0 * 64 + q1) * 64 + q2) = [0xE0 + q0; 0x80 + q1; 0x80 + q2].
Proof.
  intros H1 H2 Hr. unfold utf8. rewrite (proj2 (Z.ltb_ge _ 0x80)) by lia.
  rewrite (proj2 (Z.ltb_ge _ 0x800)) by lia. rewrite (proj2 (Z.ltb_lt _ 0x10000)) by lia.
  repeat f_equal; Z.div_mod_to_equations; lia.
Qed.

Lemma utf8_groups4 q0 q1 q2 q3 :
  0 <= q1 < 64 -> 0 <= q2 < 64 -> 0 <= q3 < 64 ->
  0x10000 <= ((q0 * 64 + q1) * 64 + q2) * 64 + q3 ->
  utf8 (((q0 * 64 + q1) * 64 + q2) * 64 + q3) = [0xF0 + q0; 0x80 + q1; 0x80 + q2; 0x80 + q3].
Proof.
  intros H1 H2 H3 Hr. unfold utf8. rewrite (proj2 (Z.ltb_ge _ 0x80)) by lia.
  rewrite (proj2 (Z.ltb_ge _ 0x800)) by lia. rewrite (proj2 (Z.ltb_ge _ 0x10000)) by lia.
  repeat f_equal; Z.div_mod_to_equations; lia.
Qed.

Lemma IsTrailByte_inv b : is_u 8 b -> negb (Utf8.IsTrailByte b) = false -> 0x80 <= b < 0xC0.
Proof. intros Hb E. rewrite IsTrailByte_spec in E by done. lia. Qed.

(** What [Decode] returns on any bytes. *)
Definition decoded (bs : list Z) (n : nat) (ch : Z) : Prop :=
  (n = 0%nat /\ ch = -1) \/
  (character ch /\ n = length (utf8 ch) /\ bs = utf8 ch ++ drop n bs).

Lemma trail_short bs n i ch m :
  (i <= length bs)%nat -> (length bs < i + n)%nat -> Utf8.trail_loop bs n i ch m = None.
Proof.
  revert i ch m. induction n as [|n IH]; intros i ch m Hi Hl; [lia|]. cbn [Utf8.trail_loop].
  destruct (bs !! i) eqn:E; [|done]. apply lookup_lt_Some in E. apply IH; lia.
Qed.

(** A lead byte followed by [length ts] trail bytes is either rejected or accepted with the
    bits put together. *)
Lemma trail_inv b ts rest n k ch :
  Forall (is_u 8) ts -> is_u 8 b -> (length ts <= 3)%nat -> b < 0xF8 -> length ts = (n - 1)%nat ->
  match Utf8.trail_loop (b :: ts ++ rest) (n - 1) 1 b false with
  | None => Ok (0%nat, -1)
  | Some (v, m) => finish n v m
  end = Ok (k, ch) ->
  (k = 0%nat /\ ch = -1) \/
  (Forall (fun b => 0x80 <= b < 0xC0) ts /\ k = n /\ character ch /\
   wrapu 32 (fold_left (fun v b => v * 64 + b) ts b - nth n Utf8.kMagicBits 0) = ch /\
   nth n Utf8.kOverlongMinimum 0 <= ch).
Proof.
  intros Hts Hb Hl Hlt Hn. rewrite <- Hn.
  assert (exists m, Utf8.trail_loop (b :: ts ++ rest) (length ts) 1 b false
    = Some (fold_left (fun v b => v * 64 + b) ts b, m) /\
    (m = false -> Forall (fun b => 0x80 <= b < 0xC0) ts)) as (m & -> & Hm).
  { clear Hn. unfold is_u in Hb. change (2 ^ 8) with 256 in Hb.
    destruct ts as [|b1 [|b2 [|b3 [|? ?]]]]; [..|simpl in Hl; lia];
      repeat (apply Forall_cons in Hts as [? Hts]);
      repeat match goal with H : is_u 8 ?x |- _ =>
        assert (0 <= x < 256) by exact H; pose proof (IsTrailByte_inv x H); revert H end; intros;
      cbn [app length fold_left];
      repeat (erewrite trail_step; [|reflexivity|lia|done]); rewrite trail_end; cbn [orb];
      eexists; (split; [reflexivity|]); rewrite ?orb_false_iff; intros;
      repeat constructor; tauto. }
  intros [Hf|(Hf & _ & -> & Hc & Ev & Hmin)]%finish_inv; [by left|right].
  split_and!; [by apply Hm|done..].
Qed.

Lemma Decode_inv_lead b rest n ch :
  is_u 8 b -> 0x80 <= b -> Forall (is_u 8) rest ->
  Utf8.Decode (b :: rest) = Ok (n, ch) -> decoded (b :: rest) n ch.
Proof.
  intros Hb Hge Hrest. rewrite Decode_lead by done. cbv zeta.
  set (k := Z.to_nat (trail_bytes b)).
  assert (k = 0%nat \/ (k = 2%nat /\ 0xC0 <= b < 0xE0) \/ (k = 3%nat /\ 0xE0 <= b < 0xF0) \/
    (k = 4%nat /\ 0xF0 <= b < 0xF8) \/ (5 <= k <= 6)%nat) as Hk.
  { unfold k, trail_bytes. repeat case_match; lia. }
  clearbody k. destruct (decide (length rest < k - 1)%nat) as [Hs|Hs].
  { rewrite trail_short by (simpl; lia). intros [= <- <-]. by left. }
  destruct (decide (k = 0 \/ 5 <= k)%nat) as [Hk5|Hk5].
  { destruct (Utf8.trail_loop _ _ _ _ _) as [[v m]|]; [|intros [= <- <-]; by left].
    intros [Hf|(_ & ? & _ & [_ Hc] & _ & Hmin)]%finish_inv; [by left|].
    assert (k = 5 \/ k = 6)%nat as [-> | ->] by lia; cbn in Hmin; unfold Utf.kMaxCodePoint in Hc;
      lia. }
  assert (exists ts rest', rest = ts ++ rest' /\ length ts = (k - 1)%nat) as (ts & rest' & -> & Hts).
  { exists (take (k - 1) rest), (drop (k - 1) rest). rewrite take_drop, length_take.
    split; [done|lia]. }
  apply Forall_app in Hrest as [Hu _].
  intros [Hf|(Htr & -> & Hc & Ev & Hmin)]%trail_inv; [by left| |done|done|lia|lia|done].
  right. assert (utf8 ch = b :: ts) as E; [|rewrite E; split_and!; [done|simpl; lia|]].
  2: { replace k with (length (b :: ts)) by (simpl; lia). cbn [length drop]. by rewrite drop_app_length. }
  unfold is_u in Hb. destruct Hk as [?|[[-> ?]|[[-> ?]|[[-> ?]|?]]]]; [lia| | | |lia];
    destruct ts as [|b1 [|b2 [|b3 [|? ?]]]]; try (simpl in Hts; lia);
    repeat (apply Forall_cons in Htr as [? Htr]); cbn [fold_left nth Utf8.kMagicBits
      Utf8.kOverlongMinimum] in Ev, Hmin; rewrite wrapu_id in Ev by (unfold is_u; lia); subst ch.
  - replace (_ - _) with ((b - 0xC0) * 64 + (b1 - 0x80)) by lia.
    rewrite utf8_groups2 by lia. repeat f_equal; lia.
  - replace (_ - _) with (((b - 0xE0) * 64 + (b1 - 0x80)) * 64 + (b2 - 0x80)) by lia.
    rewrite utf8_groups3 by lia. repeat f_equal; lia.
  - replace (_ - _)
      with ((((b - 0xF0) * 64 + (b1 - 0x80)) * 64 + (b2 - 0x80)) * 64 + (b3 - 0x80)) by lia.
    rewrite utf8_groups4 by lia. repeat f_equal; lia.
Qed.

Lemma Decode_inv bs n ch :
  Forall (is_u 8) bs -> Utf8.Decode bs = Ok (n, ch) -> decoded bs n ch.
Proof.
  intros Hbs. destruct bs as [|b rest]; [done|]. apply Forall_cons in Hbs as [Hb Hrest].
  destruct (Z.lt_ge_cases b 0x80) as [Hlt|Hge]; [|by apply Decode_inv_lead].
  rewrite Decode_ascii by done. intros [= <- <-]. right. unfold is_u in Hb.
  assert (utf8 b = [b]) as ->; [unfold utf8; by rewrite (proj2 (Z.ltb_lt _ _)) by lia|].
  split; [|done]. unfold character, Utf.kMaxCodePoint. lia.
Qed.

Lemma Decode_total bs : bs <> [] -> exists n ch, Utf8.Decode bs = Ok (n, ch).
Proof.
  destruct bs as [|b rest]; [done|]. intros _. unfold Utf8.Decode. cbv zeta.
  destruct (_ <=? _); [|by eauto]. destruct (Utf8.trail_loop _ _ _ _ _) as [[v m]|]; [|by eauto].
  destruct (negb _); eauto.
Qed.

(** ** Strings *)

(** The bytes of a string of characters. *)
Definition utf8_string (chs : list Z) : list Z := concat (map utf8 chs).

(** The array holds exactly these characters. *)
Definition text (bs chs : list Z) : Prop := Forall character chs /\ bs = utf8_string chs.

Lemma utf8_length_pos ch : (0 < length (utf8 ch))%nat.
Proof. unfold utf8. repeat case_match; simpl; lia. Qed.

Lemma text_nil chs : text [] chs <-> chs = [].
Proof.
  split; [|intros ->; by split]. intros [_ E]. destruct chs as [|ch chs]; [done|].
  apply (f_equal length) in E. unfold utf8_string in E. cbn in E. rewrite length_app in E.
  pose proof (utf8_length_pos ch). lia.
Qed.

Lemma text_cons ch rest chs :
  character ch -> text (utf8 ch ++ rest) chs <-> exists chs', chs = ch :: chs' /\ text rest chs'.
Proof.
  intros Hch. split.
  - intros [Hall E]. destruct chs as [|c chs'].
    { apply (f_equal length) in E. rewrite length_app in E. cbn in E.
      pose proof (utf8_length_pos ch). lia. }
    apply Forall_cons in Hall as [Hc Hall]. cbn in E. fold (utf8_string chs') in E.
    assert (c = ch) as ->.
    { pose proof (Decode_utf8 ch rest Hch) as D. rewrite E in D.
      change (concat (map utf8 (c :: chs'))) with (utf8 c ++ utf8_string chs') in D.
      rewrite Decode_utf8 in D by done. by simplify_eq. }
    exists chs'. split; [done|]. split; [done|]. by apply app_inv_head in E.
  - intros (chs' & -> & Hall & ->). split; [by constructor|done].
Qed.

(** One step through an array. *)
Lemma text_step bs :
  Forall (is_u 8) bs -> bs <> [] ->
  exists n ch, Utf8.Decode bs = Ok (n, ch) /\
    ((n = 0%nat /\ ch = -1 /\ forall chs, ~ text bs chs) \/
     (character ch /\ n = length (utf8 ch) /\ bs = utf8 ch ++ drop n bs)).
Proof.
  intros Hbs Hne. destruct (Decode_total bs Hne) as (n & ch & E). exists n, ch.
  split; [done|]. destruct (Decode_inv bs n ch Hbs E) as [[-> ->]|Hok]; [left|by right].
  split_and!; [done..|]. intros [|c chs] Ht.
  - destruct Ht as [_ ->]. by apply Hne.
  - destruct Ht as [Hall Eb]. apply Forall_cons in Hall as [Hc _].
    cbn in Eb. subst bs. change (concat (map utf8 (c :: chs))) with (utf8 c ++ utf8_string chs) in E.
    rewrite Decode_utf8 in E by done. simplify_eq.
Qed.

(** The loops of the [DecodeTo] functions, by what they write for a character. *)
Section converts.
Context (units : Z -> list Z) (P : list Z -> Prop).
Context (run : nat -> list Z -> nat -> unicode (bool * list Z)).
Context (units_pos : forall ch, (0 < length (units ch))%nat).
Context (P_drop : forall ch rest, character ch -> P (utf8 ch ++ rest) -> P rest).
Context (run_nil : forall fuel len, run fuel [] len = Ok (true, [])).
Context (run_full : forall fuel bs, bs <> [] -> run fuel bs 0 = Ok (false, [])).
Context (run_bad : forall fuel bs len,
  bs <> [] -> P bs -> Utf8.Decode bs = Ok (0%nat, -1) ->
  run (S fuel) bs (S len) = Ok (false, [])).
Context (run_step : forall fuel ch rest len,
  character ch -> P (utf8 ch ++ rest) ->
  run (S fuel) (utf8 ch ++ rest) (S len) =
    if (length (units ch) <=? S len)%nat
    then Utf8.writes (units ch) (run fuel rest (S len - length (units ch)))
    else Ok (false, [])).

Lemma converts fuel bs len :
  Forall (is_u 8) bs -> P bs -> (length bs <= fuel)%nat ->
  exists ok dst, run fuel bs len = Ok (ok, dst) /\
    (ok = true <->
     exists chs, text bs chs /\ (length (concat (map units chs)) <= len)%nat /\
       dst = concat (map units chs)).
Proof.
  revert bs len. induction fuel as [|fuel IH]; intros bs len Hbs HP Hl.
  { destruct bs; [|simpl in Hl; lia]. rewrite run_nil. exists true, [].
    split; [done|]. split; [|done]. intros _. exists []. by rewrite text_nil; split_and!; [|simpl; lia|]. }
  destruct (decide (bs = [])) as [->|Hne].
  { rewrite run_nil. exists true, []. split; [done|]. split; [|done]. intros _.
    exists []. by rewrite text_nil; split_and!; [|simpl; lia|]. }
  destruct len as [|len].
  { rewrite run_full by done. exists false, []. split; [done|]. split; [done|].
    intros ([|c chs] & Ht & Hlen & _).
    - destruct Ht as [_ ->]. by destruct Hne.
    - cbn in Hlen. rewrite length_app in Hlen. pose proof (units_pos c). lia. }
  destruct (text_step bs Hbs Hne) as (n & ch & Ed & [(-> & -> & Hno)|(Hch & -> & Eb)]).
  { rewrite run_bad by done. exists false, []. split; [done|]. split; [done|].
    intros (chs & Ht & _). by destruct (Hno chs). }
  set (rest := drop (length (utf8 ch)) bs) in *. clearbody rest. subst bs.
  rewrite run_step by done. rewrite length_app in Hl. pose proof (utf8_length_pos ch).
  destruct (Nat.leb_spec (length (units ch)) (S len)) as [Hu|Hu].
  - apply Forall_app in Hbs as [_ Hrest].
    destruct (IH rest (S len - length (units ch))%nat) as (ok & dst & -> & Hok);
      [done|by eapply P_drop|lia|].
    exists ok, (units ch ++ dst). split; [done|]. rewrite Hok. split.
    + intros (chs & Ht & Hlen & ->). exists (ch :: chs). rewrite text_cons by done.
      split_and!; [by eauto| |done]. cbn. rewrite length_app. lia.
    + intros (chs & (chs' & -> & Ht)%text_cons & Hlen & E); [|done]. exists chs'.
      cbn in Hlen, E. rewrite length_app in Hlen. split_and!; [done|lia|].
      by apply app_inv_head in E.
  - exists false, []. split; [done|]. split; [done|].
    intros (chs & (chs' & -> & Ht)%text_cons & Hlen & _); [|done].
    cbn in Hlen. rewrite length_app in Hlen. lia.
Qed.

End converts.
