(* ===== verification/UnicodeStrings.v ===== *)
(** Strings in UTF-8 and UTF-16: validation, the number of code units, and conversion. *)
From stdpp Require Import base numbers list.
From Stdlib Require Import ZArith Lia.
From S2P Require Import Prelude Utils Unicode UnicodeProps.
Local Open Scope Z_scope.
Local Open Scope cxx_scope.

(** ** Characters *)

Lemma utf8_bytes ch : character ch -> Forall (is_u 8) (utf8 ch).
Proof.
  intros [H0 H1]. change Utf.kMaxCodePoint with 0x10FFFF in H1.
  pose proof (Z.mod_pos_bound ch 64 ltac:(lia)).
  pose proof (Z.mod_pos_bound (ch / 64) 64 ltac:(lia)).
  pose proof (Z.mod_pos_bound (ch / 4096) 64 ltac:(lia)).
  unfold utf8, is_u.
  destruct (Z.ltb_spec ch 0x80); [|destruct (Z.ltb_spec ch 0x800);
    [|destruct (Z.ltb_spec ch 0x10000)]]; repeat constructor; try lia;
    Z.div_mod_to_equations; lia.
Qed.

(** C21: [Encode] gives the bytes of a character, as many as [Length] says, and [Decode]
    returns the character whatever follows; on any other bytes that do not start with the
    encoding of a character (truncated, malformed, not in shortest form, out of range) it
    returns zero bytes and the character [-1]. *)
Theorem utf8_roundtrip :
  (forall ch, character ch -> exists bs,
    Utf8.Encode ch = Ok bs /\ Utf8.Length ch = Ok (Z.of_nat (length bs)) /\
    Forall (is_u 8) bs /\ forall rest, Utf8.Decode (bs ++ rest) = Ok (length bs, ch)) /\
  (forall bs, Forall (is_u 8) bs -> bs <> [] ->
    Utf8.Decode bs = Ok (0%nat, -1) \/
    exists ch e rest, character ch /\ Utf8.Encode ch = Ok e /\ bs = e ++ rest /\
      Utf8.Decode bs = Ok (length e, ch)).
Proof.
  split.
  - intros ch Hch. exists (utf8 ch). split_and!; [by apply Encode_utf8| |by apply utf8_bytes|].
    + destruct Hch as [H0 H1]. change Utf.kMaxCodePoint with 0x10FFFF in H1.
      unfold Utf8.Length, utf8, Utf8.kMaxOneByteChar, Utf8.kMaxTwoByteChar,
        Utf8.kMaxThreeByteChar, Utf8.kMaxFourByteChar, Utf.kMaxCodePoint, unicode_assert.
      repeat case_match; done || lia.
    + intros rest. by apply Decode_utf8.
  - intros bs Hbs Hne. destruct (text_step bs Hbs Hne) as (n & ch & E & [(-> & -> & _)|Hok]);
      [by left|right].
    destruct Hok as (Hch & -> & Eb). exists ch, (utf8 ch), (drop (length (utf8 ch)) bs).
    split_and!; [done|by apply Encode_utf8|done..].
Qed.

(** ** Validation *)

Lemma valid_step fuel bs n ch :
  bs <> [] -> Utf8.Decode bs = Ok (n, ch) ->
  Utf8.valid_loop (S fuel) bs =
    if ch =? -1 then Ok false else Utf8.valid_loop fuel (drop n bs).
Proof.
  destruct bs as [|b rest]; [done|]. intros _. unfold Utf8.Decode. cbn [Utf8.valid_loop].
  cbv zeta. generalize (Z.to_nat (nth (Z.to_nat (b .& 0xFF)) Utf8.kTrailBytes 0)) as num.
  intros num. generalize (nth num Utf8.kMagicBits 0) as magic. intros magic.
  destruct (Z.leb_spec 0x80 (b .& 0xFF)).
  - destruct (Utf8.trail_loop _ _ _ _ _) as [[v m]|]; [|by intros [= <- <-]].
    destruct (negb _) eqn:E; intros [= <- <-]; [done|].
    apply negb_false_iff in E. rewrite !andb_true_iff, !negb_true_iff in E.
    destruct E as ((_ & Eo) & _). unfold Utf.IsOutOfRange in Eo.
    apply orb_false_iff in Eo as [Eo _]. apply Z.ltb_ge in Eo.
    by rewrite (proj2 (Z.eqb_neq _ _)) by lia.
  - intros [= <- <-]. destruct (Z.eqb_spec (b .& 0xFF) (-1)) as [E|]; [|done].
    change 0xFF with (Z.ones 8) in E. rewrite Z.land_ones in E by lia.
    pose proof (Z.mod_pos_bound b (2 ^ 8) ltac:(lia)). lia.
Qed.

Lemma valid_loop_spec fuel bs :
  Forall (is_u 8) bs -> (length bs <= fuel)%nat ->
  exists r, Utf8.valid_loop fuel bs = Ok r /\ (r = true <-> exists chs, text bs chs).
Proof.
  revert bs. induction fuel as [|fuel IH]; intros bs Hbs Hl.
  { destruct bs; [|simpl in Hl; lia]. exists true. split; [done|]. split; [|done].
    exists []. by apply text_nil. }
  destruct (decide (bs = [])) as [->|Hne].
  { exists true. split; [done|]. split; [|done]. exists []. by apply text_nil. }
  destruct (text_step bs Hbs Hne) as (n & ch & Ed & Hcase).
  rewrite (valid_step fuel bs n ch Hne Ed).
  destruct Hcase as [(-> & -> & Hno)|(Hch & -> & Eb)].
  { exists false. split; [done|]. split; [done|]. by intros (chs & []%Hno). }
  destruct (Z.eqb_spec ch (-1)) as [->|_]; [by destruct Hch|].
  set (rest := drop (length (utf8 ch)) bs) in *. clearbody rest. subst bs.
  rewrite length_app in Hl. pose proof (utf8_length_pos ch).
  apply Forall_app in Hbs as [_ Hrest].
  destruct (IH rest Hrest) as (r & -> & Hr); [lia|]. exists r. split; [done|].
  rewrite Hr. split.
  - intros (chs & Ht). exists (ch :: chs). apply text_cons; [done|by eauto].
  - intros (chs & (chs' & -> & Ht)%text_cons); [|done]. by eauto.
Qed.

(** C37: [IsValid] terminates on every array and accepts exactly the encodings of sequences of
    characters. *)
Theorem utf8_valid bs :
  Forall (is_u 8) bs ->
  exists r, Utf8.IsValid bs = Ok r /\ (r = true <-> exists chs, text bs chs).
Proof. intros Hbs. by apply valid_loop_spec. Qed.

(** ** Lead bytes *)

Lemma utf8_lead ch :
  character ch -> exists b ts, utf8 ch = b :: ts /\ Forall (fun t => 0x80 <= t < 0xC0) ts /\
    is_u 8 b /\ Utf8.IsTrailByte b = false /\
    Utf8.IsLatin1SequenceStart b = (ch <=? 0xFF) /\
    Utf8.IsSupplementarySequenceStart b = (0xFFFF <? ch).
Proof.
  intros Hch. pose proof (utf8_bytes ch Hch) as Hb. destruct Hch as [H0 H1].
  change Utf.kMaxCodePoint with 0x10FFFF in H1.
  pose proof (Z.mod_pos_bound ch 64 ltac:(lia)).
  pose proof (Z.mod_pos_bound (ch / 64) 64 ltac:(lia)).
  pose proof (Z.mod_pos_bound (ch / 4096) 64 ltac:(lia)).
  unfold utf8, Utf8.IsLatin1SequenceStart, Utf8.IsSupplementarySequenceStart in *.
  destruct (Z.ltb_spec ch 0x80); [|destruct (Z.ltb_spec ch 0x800);
    [|destruct (Z.ltb_spec ch 0x10000)]]; apply Forall_cons in Hb as [Hb0 Hb];
    eexists _, _; (split_and!; [reflexivity| |done|rewrite IsTrailByte_spec by done|..]);
    try (repeat constructor; lia);
    apply eq_true_iff_eq || apply not_true_is_false; rewrite ?Z.leb_le, ?Z.ltb_lt, ?andb_true_iff, ?Z.leb_le, ?Z.ltb_lt;
    clear Hb Hb0; Z.div_mod_to_equations; lia.
Qed.

(** ** UTF-16 *)

(** The code units of a character, and of a string. *)
Definition utf16 (ch : Z) : list Z :=
  if ch <=? 0xFFFF then [ch] else [0xD7C0 + ch / 1024; 0xDC00 + ch mod 1024].

Definition utf16_string (chs : list Z) : list Z := concat (map utf16 chs).

Lemma land_3FF x : x .& 0x3FF = x mod 1024.
Proof. change 0x3FF with (Z.ones 10). by rewrite Z.land_ones by lia. Qed.

Lemma Encode_utf16 ch :
  0xFFFF < ch <= Utf.kMaxCodePoint -> Utf16.Encode ch = Ok (utf16 ch).
Proof.
  intros [H0 H1]. unfold Utf16.Encode, utf16, unicode_assert, Utf16.kMaxCodeUnit.
  change Utf.kMaxCodePoint with 0x10FFFF in H1.
  rewrite (proj2 (Z.ltb_lt _ _)) by lia. rewrite (proj2 (Z.leb_gt _ _)) by lia.
  cbn [mbind outcome_bind]. change Utf16.kLeadSurrogateOffset with 0xD7C0.
  rewrite land_3FF, Z.shiftr_div_pow2 by lia. change (2 ^ 10) with 1024.
  rewrite !wrapu_id; [done|..]; unfold is_u; Z.div_mod_to_equations; lia.
Qed.

(** The most restricted form for the characters so far and one more. *)
Definition widen (t : Utf8.Type_) (ch : Z) : Utf8.Type_ :=
  if 0xFFFF <? ch then Utf8.kSupplementary
  else if 0xFF <? ch then match t with Utf8.kLatin1 => Utf8.kBMP | _ => t end
  else t.

Lemma count_character ch len t :
  character ch ->
  fold_left Utf8.count_unit (utf8 ch) (len, t)
  = (len + Z.of_nat (length (utf16 ch)), widen t ch).
Proof.
  intros Hch. destruct (utf8_lead ch Hch) as (b & ts & -> & Hts & Hb & Htr & Hl & Hs).
  assert (forall acc, fold_left Utf8.count_unit ts acc = acc) as Hskip.
  { induction Hts as [|t' ts Ht _ IH]; [done|]. intros [len' t'']. cbn [fold_left].
    unfold Utf8.count_unit at 2. rewrite IsTrailByte_spec by (unfold is_u; lia).
    rewrite (proj2 (andb_true_iff _ _)) by lia. apply IH. }
  cbn [fold_left]. rewrite Hskip. unfold Utf8.count_unit, widen, utf16.
  rewrite Htr, Hl, Hs. cbn [negb].
  destruct (Z.leb_spec ch 0xFF), (Z.ltb_spec 0xFFFF ch), (Z.leb_spec ch 0xFFFF),
    (Z.ltb_spec 0xFF ch); try lia; cbn [negb length]; try (f_equal; lia).
  destruct t; f_equal; lia.
Qed.

Lemma count_string chs len t :
  Forall character chs ->
  fold_left Utf8.count_unit (utf8_string chs) (len, t)
  = (len + Z.of_nat (length (utf16_string chs)), fold_left widen chs t).
Proof.
  intros Hall. revert len t. induction Hall as [|ch chs Hch _ IH]; intros len t;
    [by rewrite Z.add_0_r|].
  change (utf8_string (ch :: chs)) with (utf8 ch ++ utf8_string chs).
  change (utf16_string (ch :: chs)) with (utf16 ch ++ utf16_string chs).
  rewrite fold_left_app, count_character, IH, length_app by done. cbn [fold_left].
  f_equal. lia.
Qed.

Lemma utf16_pos ch : (0 < length (utf16 ch))%nat.
Proof. unfold utf16. case_match; simpl; lia. Qed.

Lemma DecodeToUTF16_converts bs len :
  Forall (is_u 8) bs ->
  exists ok dst, Utf8.DecodeToUTF16 bs len = Ok (ok, dst) /\
    (ok = true <-> exists chs, text bs chs /\ (length (utf16_string chs) <= len)%nat /\
       dst = utf16_string chs).
Proof.
  intros Hbs. apply (converts utf16 (fun _ => True) Utf8.DecodeToUTF16_loop); try done.
  - apply utf16_pos.
  - by intros [] ?.
  - by intros [|fuel] [|b bs'].
  - intros fuel [|b bs'] len' Hne _ E; [done|]. cbn [Utf8.DecodeToUTF16_loop]. by rewrite E.
  - intros fuel ch rest len' Hch _. pose proof (Decode_utf8 ch rest Hch) as Ed.
    destruct (utf8_lead ch Hch) as (b & ts & E & _ & _ & _ & _ & Hs).
    rewrite E in Ed |- *. cbn [app] in Ed |- *. cbn [Utf8.DecodeToUTF16_loop].
    rewrite Ed. cbn [mbind outcome_bind]. rewrite Hs.
    rewrite (proj2 (Z.eqb_neq ch (-1))) by (unfold character in Hch; lia).
    assert (drop (length (b :: ts)) (b :: ts ++ rest) = rest) as ->
      by (cbn; by rewrite drop_app_length).
    unfold character in Hch. destruct (Z.ltb_spec 0xFFFF ch) as [Hsup|Hbmp].
    + assert (length (utf16 ch) = 2%nat) as El
        by (unfold utf16; by rewrite (proj2 (Z.leb_gt _ _)) by lia).
      rewrite El. destruct len' as [|len']; [done|]. rewrite Encode_utf16 by lia. cbn. 
      by rewrite Nat.sub_0_r.
    + assert (utf16 ch = [ch]) as -> by (unfold utf16; by rewrite (proj2 (Z.leb_le _ _)) by lia).
      rewrite wrapu_id by (unfold is_u; lia). cbn. by rewrite Nat.sub_0_r.
Qed.

(** Reading all characters of an array of code units. *)
Fixpoint characters (fuel : nat) (units : list Z) : unicode (list Z) :=
  match units, fuel with
  | [], _ => Ok []
  | _, O => Fatal UnicodeDiverges
  | _, S fuel =>
      '(ch, n) ← Utf16.Next units;
      chs ← characters fuel (drop n units);
      Ok (ch :: chs)
  end.

(** The mask of a surrogate keeps its block of 1024 code units. *)
Lemma surrogate_block x : is_u 16 x -> x .& 0xFFFFFC00 = x / 1024 * 1024.
Proof.
  intros Hx. apply (u_bits 32); [lia|apply land_u; [lia|done]| |].
  - unfold is_u in *. change (2 ^ 16) with 65536 in Hx. Z.div_mod_to_equations; lia.
  - change 1024 with (2 ^ 10). rewrite <- Z.shiftl_mul_pow2, <- Z.shiftr_div_pow2 by lia.
    enum_range; by bit_norm.
Qed.

Lemma IsLead_spec x : is_u 16 x -> Utf16.IsLeadSurrogate x = (0xD800 <=? x) && (x <? 0xDC00).
Proof.
  intros Hx. unfold Utf16.IsLeadSurrogate. rewrite surrogate_block by done.
  apply eq_true_iff_eq. rewrite Z.eqb_eq, andb_true_iff, Z.leb_le, Z.ltb_lt.
  Z.div_mod_to_equations; lia.
Qed.

Lemma IsTrail_spec x : is_u 16 x -> Utf16.IsTrailSurrogate x = (0xDC00 <=? x) && (x <? 0xE000).
Proof.
  intros Hx. unfold Utf16.IsTrailSurrogate. rewrite surrogate_block by done.
  apply eq_true_iff_eq. rewrite Z.eqb_eq, andb_true_iff, Z.leb_le, Z.ltb_lt.
  Z.div_mod_to_equations; lia.
Qed.

(** A character that is not a surrogate. *)
Definition scalar (ch : Z) : Prop := character ch /\ ~ (0xD800 <= ch < 0xE000).

Lemma Next_utf16 ch rest :
  scalar ch -> Utf16.Next (utf16 ch ++ rest) = Ok (ch, length (utf16 ch)).
Proof.
  intros [[H0 H1] Hs]. change Utf.kMaxCodePoint with 0x10FFFF in H1. unfold utf16.
  destruct (Z.leb_spec ch 0xFFFF).
  - cbn [app Utf16.Next]. rewrite IsLead_spec by (unfold is_u; lia).
    by rewrite (proj2 (andb_false_iff _ _)) by lia.
  - assert (64 <= ch / 1024 < 1088) by (Z.div_mod_to_equations; lia).
    pose proof (Z.mod_pos_bound ch 1024 ltac:(lia)).
    cbn [app Utf16.Next]. rewrite IsLead_spec, IsTrail_spec by (unfold is_u; lia).
    rewrite !(proj2 (andb_true_iff _ _)) by lia. f_equal. f_equal.
    unfold Utf16.Decode. rewrite !land_3FF, Z.shiftl_mul_pow2 by lia.
    change (2 ^ 10) with 1024.
    assert ((0xD7C0 + ch / 1024) mod 1024 = ch / 1024 - 64) as ->.
    { symmetry. apply (Z.mod_unique_pos _ _ 54); lia. }
    assert ((0xDC00 + ch mod 1024) mod 1024 = ch mod 1024) as ->.
    { symmetry. apply (Z.mod_unique_pos _ _ 55); lia. }
    pose proof (Z.div_mod ch 1024 ltac:(lia)). lia.
Qed.

Lemma characters_utf16 fuel chs :
  Forall scalar chs -> (length chs <= fuel)%nat -> characters fuel (utf16_string chs) = Ok chs.
Proof.
  intros Hall. revert fuel. induction Hall as [|ch chs Hch _ IH]; intros fuel Hf; [by destruct fuel|].
  destruct fuel as [|fuel]; [simpl in Hf; lia|].
  change (utf16_string (ch :: chs)) with (utf16 ch ++ utf16_string chs).
  pose proof (Next_utf16 ch (utf16_string chs) Hch) as En.
  pose proof (utf16_pos ch). destruct (utf16 ch) as [|u us] eqn:Eu; [simpl in *; lia|].
  cbn [app characters]. cbn [app] in En. rewrite En. cbn [mbind outcome_bind].
  assert (drop (length (u :: us)) (u :: us ++ utf16_string chs) = utf16_string chs) as ->
    by (cbn; by rewrite drop_app_length).
  rewrite IH by (simpl in Hf; lia). done.
Qed.

(** C36: [DecodeToUTF16] terminates on every array and succeeds exactly when the array holds
    characters whose code units fit the destination, which it then writes.  On the encoding
    of characters, [CodeUnitCount] is the number of code units it writes and the most
    restricted form they fit.  If no character is a surrogate, [Next] reads the characters back
    from the code units; two surrogates that make up a pair it would read as one character. *)
Theorem utf8_to_utf16 :
  (forall bs len, Forall (is_u 8) bs ->
    exists ok dst, Utf8.DecodeToUTF16 bs len = Ok (ok, dst) /\
      (ok = true <-> exists chs, text bs chs /\ (length (utf16_string chs) <= len)%nat /\
         dst = utf16_string chs)) /\
  (forall bs chs, text bs chs ->
    Utf8.CodeUnitCount bs
      = (Z.of_nat (length (utf16_string chs)), fold_left widen chs Utf8.kLatin1)) /\
  (forall chs, Forall scalar chs -> characters (length chs) (utf16_string chs) = Ok chs).
Proof.
  split_and!.
  - intros bs len Hbs. by apply DecodeToUTF16_converts.
  - intros bs chs [Hall ->]. by apply count_string.
  - intros chs Hall. by apply characters_utf16.
Qed.

(** ** UTF-32 and Latin-1 *)

Lemma DecodeToUTF32_converts bs len :
  Forall (is_u 8) bs ->
  exists ok dst, Utf8.DecodeToUTF32 bs len = Ok (ok, dst) /\
    (ok = true <-> exists chs, text bs chs /\ (length chs <= len)%nat /\ dst = chs).
Proof.
  intros Hbs. assert (forall chs : list Z, concat (map (fun ch => [ch]) chs) = chs) as Hid.
  { induction chs; simpl; congruence. }
  destruct (converts (fun ch => [ch]) (fun _ => True) Utf8.DecodeToUTF32_loop)
    with (fuel := length bs) (bs := bs) (len := len) as (ok & dst & E & Hok); try done.
  - intros ch. simpl. lia.
  - by intros [] ?.
  - by intros [|fuel] [|b bs'].
  - intros fuel [|b bs'] len' Hne _ E; [done|]. cbn [Utf8.DecodeToUTF32_loop]. by rewrite E.
  - intros fuel ch rest len' Hch _. pose proof (Decode_utf8 ch rest Hch) as Ed.
    destruct (utf8_lead ch Hch) as (b & ts & E & _). rewrite E in Ed |- *. cbn [app] in Ed |- *.
    cbn [Utf8.DecodeToUTF32_loop]. rewrite Ed. cbn [mbind outcome_bind].
    rewrite (proj2 (Z.eqb_neq ch (-1))) by (unfold character in Hch; lia).
    assert (drop (length (b :: ts)) (b :: ts ++ rest) = rest) as ->
      by (cbn; by rewrite drop_app_length).
    cbn. by rewrite Nat.sub_0_r.
  - exists ok, dst. split; [done|]. rewrite Hok. by setoid_rewrite Hid.
Qed.

(** The bytes of Latin-1 text. *)
Definition latin1_bytes (bs : list Z) : Prop := Forall (fun b => b <= 0xC3) bs.

Lemma count_unit_latin1 bs acc :
  Forall (is_u 8) bs -> (fold_left Utf8.count_unit bs acc).2 = Utf8.kLatin1 ->
  acc.2 = Utf8.kLatin1 /\ latin1_bytes bs.
Proof.
  intros Hbs. revert acc. induction Hbs as [|b bs Hb _ IH]; intros [len t]; [by split; [|constructor]|].
  cbn [fold_left]. intros E. apply IH in E as [Et Hl]. unfold Utf8.count_unit in Et.
  unfold Utf8.IsLatin1SequenceStart in Et. rewrite IsTrailByte_spec in Et by done.
  destruct (Z.leb_spec 0x80 b), (Z.ltb_spec b 0xC0), (Z.leb_spec b 0xC3),
    (Utf8.IsSupplementarySequenceStart b), t; cbn in Et; try done; try lia;
    (split; [done|constructor; [lia|done]]).
Qed.

(** When [CodeUnitCount] reports Latin-1, the assertions of [DecodeToLatin1] hold. *)
Lemma DecodeToLatin1_converts bs len :
  Forall (is_u 8) bs -> (Utf8.CodeUnitCount bs).2 = Utf8.kLatin1 ->
  exists ok dst, Utf8.DecodeToLatin1 bs len = Ok (ok, dst) /\
    (ok = true <-> exists chs, text bs chs /\ (length chs <= len)%nat /\ dst = chs).
Proof.
  intros Hbs Hty. apply count_unit_latin1 in Hty as [_ Hl]; [|done].
  assert (forall chs : list Z, concat (map (fun ch => [ch]) chs) = chs) as Hid.
  { induction chs; simpl; congruence. }
  destruct (converts (fun ch => [ch]) latin1_bytes Utf8.DecodeToLatin1_loop)
    with (fuel := length bs) (bs := bs) (len := len) as (ok & dst & E & Hok); try done.
  - intros ch. simpl. lia.
  - intros ch rest _ HP. by apply Forall_app in HP as [_ HP].
  - by intros [] ?.
  - by intros [|fuel] [|b bs'].
  - intros fuel [|b bs'] len' Hne HP E; [done|]. apply Forall_cons in HP as [Hb _].
    cbn [Utf8.DecodeToLatin1_loop]. unfold unicode_assert at 1, Utf8.IsLatin1SequenceStart.
    rewrite (proj2 (Z.leb_le _ _)) by done. cbn [mbind outcome_bind]. by rewrite E.
  - intros fuel ch rest len' Hch HP. pose proof (Decode_utf8 ch rest Hch) as Ed.
    destruct (utf8_lead ch Hch) as (b & ts & E & _ & _ & _ & Hst & _).
    rewrite E in Ed, HP |- *. cbn [app] in Ed, HP |- *. apply Forall_cons in HP as [Hb _].
    assert (Utf8.IsLatin1SequenceStart b = true) as Hb' by (by apply Z.leb_le).
    assert (0 <= ch <= 0xFF) as Hch' by (rewrite Hb' in Hst; unfold character in Hch; lia).
    cbn [Utf8.DecodeToLatin1_loop]. unfold unicode_assert. rewrite Hb'.
    cbn [mbind outcome_bind]. rewrite Ed. cbn [mbind outcome_bind].
    rewrite (proj2 (Z.eqb_neq ch (-1))) by lia. unfold Utf.IsLatin1.
    rewrite (proj2 (andb_true_iff _ _)) by lia. cbn [mbind outcome_bind].
    rewrite wrapu_id by (unfold is_u; lia).
    assert (drop (length (b :: ts)) (b :: ts ++ rest) = rest) as ->
      by (cbn; by rewrite drop_app_length).
    cbn. by rewrite Nat.sub_0_r.
  - exists ok, dst. split; [done|]. rewrite Hok. by setoid_rewrite Hid.
Qed.

(** ** Witnesses *)

(** The euro sign; the overlong form of a slash. *)
Lemma utf8_roundtrip_witness :
  Utf8.Decode [0xE2; 0x82; 0xAC; 0x41] = Ok (3%nat, 0x20AC) /\
  (Utf8.Decode [0xC0; 0xAF] = Ok (0%nat, -1) \/
    exists ch e rest, character ch /\ Utf8.Encode ch = Ok e /\ [0xC0; 0xAF] = e ++ rest /\
      Utf8.Decode [0xC0; 0xAF] = Ok (length e, ch)).
Proof.
  split.
  - destruct (proj1 utf8_roundtrip 0x20AC ltac:(by vm_compute)) as (bs & E & _ & _ & Hd).
    assert (bs = [0xE2; 0x82; 0xAC]) as -> by (vm_compute in E; congruence).
    apply (Hd [0x41]).
  - apply (proj2 utf8_roundtrip [0xC0; 0xAF]); [|done]. repeat constructor; done.
Defined.

Lemma utf8_valid_witness :
  exists r, Utf8.IsValid [0xF0; 0x9F; 0x98; 0x80] = Ok r /\
    (r = true <-> exists chs, text [0xF0; 0x9F; 0x98; 0x80] chs).
Proof. apply (utf8_valid [0xF0; 0x9F; 0x98; 0x80]). repeat constructor; done. Defined.

Lemma utf8_to_utf16_witness :
  Utf8.CodeUnitCount (utf8_string [0x41; 0x1F600]) = (3, Utf8.kSupplementary) /\
  characters 2 (utf16_string [0x41; 0x1F600]) = Ok [0x41; 0x1F600].
Proof.
  split.
  - apply (proj1 (proj2 utf8_to_utf16) _ [0x41; 0x1F600]). split; [|done].
    repeat constructor; done.
  - apply (proj2 (proj2 utf8_to_utf16) [0x41; 0x1F600]).
    repeat constructor; cbn; lia || done.
Defined.
