(* ===== verification/DataStream.v ===== *)
(** The variable-length integers of [runtime/vm/datastream.h].

    A [ReadStream] is the list of the bytes from [current_] to [end_]; a read function
    returns what it reads and the rest.  A write function gives the bytes it appends.  A
    type [T] is its width [w] in bits; values of an unsigned [T] are below [2 ^ w], values
    of a signed one in two's complement range.  A failed [ASSERT] ends in
    [StreamAssertion]; a write loop that needs more than the given fuel in
    [StreamDiverges]; a shift by the width of the type or more is undefined. *)
From stdpp Require Import base numbers list.
From Stdlib Require Import ZArith Lia.
From S2P Require Import Prelude Utils.
Local Open Scope Z_scope.
Local Open Scope cxx_scope.

Inductive stream_error := StreamAssertion | StreamDiverges.

Definition streaming := outcome stream_error.

Definition stream_assert (condition : bool) : streaming unit :=
  if condition then Ok () else Fatal StreamAssertion.

Definition kDataBitsPerByte : Z := 7.
Definition kByteMask : Z := (1 << kDataBitsPerByte) - 1.
Definition kMaxUnsignedDataPerByte : Z := kByteMask.
Definition kMinDataPerByte : Z := - (1 << (kDataBitsPerByte - 1)).
Definition kMaxDataPerByte : Z := Z.lnot kMinDataPerByte .& kByteMask.
Definition kEndByteMarker : Z := 255 - kMaxDataPerByte.
Definition kEndUnsignedByteMarker : Z := 255 - kMaxUnsignedDataPerByte.

(** [LEB128Constants]. *)
Definition kDataByteMask : Z := (1 << 7) - 1.
Definition kMoreDataMask : Z := 1 << 7.
Definition kSignMask : Z := 1 << (7 - 1).

Definition ReadByte (st : list Z) : streaming (Z * list Z) :=
  match st with
  | [] => Fatal StreamAssertion
  | b :: st => Ok (b, st)
  end.

(** [static_cast<T>(v) << s] for a [T] of width [w]. *)
Definition shift_left (w v s : Z) : streaming Z :=
  if s <? w then Ok (wrapu w (v << s)) else Undefined.

(** The loop of [Read<T>(end_byte_marker)] from the byte [b] on, in bits of [T]. *)
Fixpoint Read_loop (w end_byte_marker r s b : Z) (st : list Z) : streaming (Z * list Z) :=
  x ← shift_left w b s;
  let r := r .| x in
  let s := wrapu 8 (s + kDataBitsPerByte) in
  match st with
  | [] => Fatal StreamAssertion
  | b :: st =>
      if b <=? kMaxUnsignedDataPerByte then Read_loop w end_byte_marker r s b st
      else
        x ← shift_left w (wrapu w (b - end_byte_marker)) s;
        Ok (r .| x, st)
  end.

Definition Read_bits (w end_byte_marker : Z) (st : list Z) : streaming (Z * list Z) :=
  '(b, st) ← ReadByte st;
  if kMaxUnsignedDataPerByte <? b then Ok (wrapu w (b - end_byte_marker), st)
  else Read_loop w end_byte_marker 0 0 b st.

(** [Read<T>(end_byte_marker)]. *)
Definition Read (w : Z) (is_signed : bool) (end_byte_marker : Z) (st : list Z)
    : streaming (Z * list Z) :=
  '(v, st) ← Read_bits w end_byte_marker st;
  Ok (if is_signed then wraps w v else v, st).

(** [ReadUnsigned<T>()], for the default [T = intptr_t]. *)
Definition ReadUnsigned (w : Z) (st : list Z) : streaming (Z * list Z) :=
  Read w true kEndUnsignedByteMarker st.

(** The [UNROLLED_BODY] of all bit starts but the last and its [UNROLLED_END]. *)
Fixpoint unrolled (w end_byte_marker r : Z) (bit_starts : list Z) (st : list Z)
    : streaming (Z * list Z) :=
  match bit_starts with
  | [] => Undefined
  | [bit_start] =>
      '(b, st) ← ReadByte st;
      _ ← stream_assert (kMaxUnsignedDataPerByte <? b);
      Ok (r .| wrapu w (wrapu w (b - end_byte_marker) << bit_start), st)
  | bit_start :: bit_starts =>
      '(b, st) ← ReadByte st;
      if kMaxUnsignedDataPerByte <? b then
        Ok (r .| wrapu w (wrapu w (b - end_byte_marker) << bit_start), st)
      else unrolled w end_byte_marker (r .| wrapu w (b << bit_start)) bit_starts st
  end.

Definition unrolled_init (w end_byte_marker : Z) (bit_starts : list Z) (st : list Z)
    : streaming (Z * list Z) :=
  '(b, st) ← ReadByte st;
  if kMaxUnsignedDataPerByte <? b then Ok (wrapu w (b - end_byte_marker), st)
  else unrolled w end_byte_marker b bit_starts st.

Definition Read16 (end_byte_marker : Z) : list Z -> streaming (Z * list Z) :=
  unrolled_init 16 end_byte_marker [7; 14].
Definition Read32 (end_byte_marker : Z) : list Z -> streaming (Z * list Z) :=
  unrolled_init 32 end_byte_marker [7; 14; 21; 28].
Definition Read64 (end_byte_marker : Z) : list Z -> streaming (Z * list Z) :=
  unrolled_init 64 end_byte_marker [7; 14; 21; 28; 35; 42; 49; 56; 63].

(** [ReadRefId]: the bytes as [int8_t]; the end of the stream is not checked. *)
Fixpoint ref_stages (n : nat) (result : Z) (st : list Z) : streaming (Z * list Z) :=
  match st with
  | [] => Undefined
  | b :: st =>
      let byte := wraps 8 b in
      let result := byte + (result << 7) in
      if byte <? 0 then Ok (result, st)
      else match n with
           | O => Fatal StreamAssertion
           | S n => ref_stages n result st
           end
  end.

Definition ReadRefId (st : list Z) : streaming (Z * list Z) :=
  '(result, st) ← ref_stages 3 0 st; Ok (result + 128, st).

(** The loop of [ReadLEB128] and [ReadSLEB128]: the bits, their number and the last byte. *)
Fixpoint leb_loop (w r s : Z) (st : list Z) : streaming (Z * Z * Z * list Z) :=
  _ ← stream_assert (s <? w);
  match st with
  | [] => Fatal StreamAssertion
  | b :: st =>
      let r := r .| wrapu w ((b .& kDataByteMask) << s) in
      let s := wrapu 8 (s + 7) in
      if negb (b .& kMoreDataMask =? 0) then leb_loop w r s st
      else
        _ ← stream_assert (s <? 7 + w);
        Ok (r, s, b, st)
  end.

(** [ReadLEB128<T>()] and [ReadSLEB128<T>()] for an unsigned [T]. *)
Definition ReadLEB128 (w : Z) (st : list Z) : streaming (Z * list Z) :=
  '(r, _, _, st) ← leb_loop w 0 0 st; Ok (r, st).

Definition ReadSLEB128 (w : Z) (st : list Z) : streaming (Z * list Z) :=
  '(r, s, b, st) ← leb_loop w 0 0 st;
  let sign_bits :=
    if negb (b .& kSignMask =? 0) && (s <? w) then wrapu w (Z.lnot ((1 << s) - 1)) else 0 in
  Ok (r .| sign_bits, st).

(** [WriteUnsigned(value)]. *)
Fixpoint WriteUnsigned_loop (fuel : nat) (value : Z) : streaming (list Z) :=
  if kMaxUnsignedDataPerByte <? value then
    match fuel with
    | O => Fatal StreamDiverges
    | S fuel =>
        st ← WriteUnsigned_loop fuel (value >> kDataBitsPerByte);
        Ok (wrapu 8 (value .& kByteMask) :: st)
    end
  else Ok [wrapu 8 (value + kEndUnsignedByteMarker)].

Definition WriteUnsigned (w value : Z) : streaming (list Z) :=
  _ ← stream_assert (0 <=? value);
  WriteUnsigned_loop (Z.to_nat w) value.

(** [Write<T>(value)] for a signed [T]. *)
Fixpoint Write_loop (fuel : nat) (v : Z) : streaming (list Z) :=
  if (v <? kMinDataPerByte) || (kMaxDataPerByte <? v) then
    match fuel with
    | O => Fatal StreamDiverges
    | S fuel =>
        st ← Write_loop fuel (v >> kDataBitsPerByte);
        Ok (wrapu 8 (v .& kByteMask) :: st)
    end
  else Ok [wrapu 8 (v + kEndByteMarker)].

Definition Write (w value : Z) : streaming (list Z) := Write_loop (Z.to_nat w) value.

(** [Raw<N, T>::Write] for [N > 1]: the value as a signed integer. *)
Definition Raw_Write (w value : Z) : streaming (list Z) := Write w (wraps w value).

Definition WriteRefId (value : Z) : streaming (list Z) :=
  _ ← stream_assert (IsUint true 64 28 value);
  Ok ((if negb (value >> 21 =? 0) then [(value >> 21) .& 127] else [])
      ++ (if negb (value >> 14 =? 0) then [(value >> 14) .& 127] else [])
      ++ (if negb (value >> 7 =? 0) then [(value >> 7) .& 127] else [])
      ++ [((value >> 0) .& 127) .| 128]).

(** [WriteLEB128(value)] for an unsigned [T]. *)
Fixpoint WriteLEB128_loop (fuel : nat) (remainder : Z) : streaming (list Z) :=
  let part := remainder .& kDataByteMask in
  let remainder := remainder >> 7 in
  if remainder =? 0 then Ok [part]
  else
    match fuel with
    | O => Fatal StreamDiverges
    | S fuel => st ← WriteLEB128_loop fuel remainder; Ok (part .| kMoreDataMask :: st)
    end.

Definition WriteLEB128 (w value : Z) : streaming (list Z) :=
  WriteLEB128_loop (Z.to_nat w) value.

(** [WriteSLEB128(value)] for a signed [T]. *)
Fixpoint WriteSLEB128_loop (fuel : nat) (w : Z) (is_negative : bool) (remainder : Z)
    : streaming (list Z) :=
  let part := remainder .& kDataByteMask in
  let remainder := remainder >> 7 in
  '(remainder, is_last_part) ←
    (if is_negative then
       let sign_extend := Z.lnot ((1 << (w - 7)) - 1) in
       let remainder := remainder .| sign_extend in
       _ ← stream_assert (remainder <? 0);
       Ok (remainder, (remainder =? -1) && negb (part .& kSignMask =? 0))
     else
       _ ← stream_assert (0 <=? remainder);
       Ok (remainder, (remainder =? 0) && (part .& kSignMask =? 0)));
  if is_last_part : bool then Ok [part]
  else
    match fuel with
    | O => Fatal StreamDiverges
    | S fuel =>
        st ← WriteSLEB128_loop fuel w is_negative remainder;
        Ok (part .| kMoreDataMask :: st)
    end.

Definition WriteSLEB128 (w value : Z) : streaming (list Z) :=
  WriteSLEB128_loop (Z.to_nat w) w (value <? 0) value.
