(* ===== verification/DataStreamProps.v ===== *)
(** Streams of variable-length integers: what is written is read back, and the unrolled
    readers agree with the loop. *)
From stdpp Require Import base numbers list.
From Stdlib Require Import ZArith Lia.
From S2P Require Import Prelude Utils DataStream.
Local Open Scope Z_scope.
Local Open Scope cxx_scope.

(** ** Putting bits together *)

(** The low [s] bits [r] and the value [v] above them, in [w] bits. *)
Definition joined (w r s v : Z) : Z := wrapu w (r + v * 2 ^ s).

Lemma lor_joined w r s v :
  0 <= s <= w -> is_u s r -> r .| wrapu w (v << s) = joined w r s v.
Proof.
  intros Hs Hr. unfold joined. pose proof (pow2_le s w Hs).
  assert (r + v * 2 ^ s = (v << s) .| r) as ->.
  { rewrite lor_add by (lia || done). lia. }
  apply Z.bits_inj'. intros i Hi. autorewrite with bits.
  destruct (Z.ltb_spec i w); cbn [andb]; [apply orb_comm|].
  rewrite (testbit_high s r) by (done || lia). done.
Qed.

Lemma joined_small w r s v :
  0 <= s -> is_u s r -> 0 <= v -> is_u (s + 7) (r + v * 2 ^ s) -> s + 7 <= w ->
  joined w r s v = r + v * 2 ^ s.
Proof.
  intros Hs Hr Hv Hu Hw. apply wrapu_id. pose proof (pow2_le (s + 7) w ltac:(lia)).
  unfold is_u in *. lia.
Qed.

(** Seven more bits. *)
Lemma append_u r s v : 0 <= s -> is_u s r -> 0 <= v < 128 -> is_u (s + 7) (r + v * 2 ^ s).
Proof.
  intros Hs Hr Hv. unfold is_u in *. rewrite Z.pow_add_r by lia. change (2 ^ 7) with 128.
  pose proof (pow2_pos s Hs). nia.
Qed.

Lemma joined_split w r s v :
  0 <= s -> joined w (r + v mod 128 * 2 ^ s) (s + 7) (v / 128) = joined w r s v.
Proof.
  intros Hs. unfold joined. f_equal. rewrite Z.pow_add_r by lia. change (2 ^ 7) with 128.
  pose proof (Z.div_mod v 128 ltac:(lia)). nia.
Qed.

Lemma land_127 v : v .& 127 = v mod 128.
Proof. change 127 with (Z.ones 7). by rewrite Z.land_ones by lia. Qed.

Lemma shiftr_7 v : v >> 7 = v / 128.
Proof. by rewrite Z.shiftr_div_pow2 by lia. Qed.

(** ** The reader after [s] bits *)

Definition resume (w m r s : Z) (st : list Z) : streaming (Z * list Z) :=
  match st with
  | [] => Fatal StreamAssertion
  | b :: st =>
      if b <=? kMaxUnsignedDataPerByte then Read_loop w m r s b st
      else x ← shift_left w (wrapu w (b - m)) s; Ok (r .| x, st)
  end.

Lemma shift_left_ok w v s : s < w -> shift_left w v s = Ok (wrapu w (v << s)).
Proof. intros Hs. unfold shift_left. by rewrite (proj2 (Z.ltb_lt _ _)). Qed.

Lemma Read_bits_resume w m st : 0 < w -> Read_bits w m st = resume w m 0 0 st.
Proof.
  intros Hw. destruct st as [|b st]; [done|]. unfold Read_bits, resume. cbn [ReadByte mbind outcome_bind].
  destruct (Z.ltb_spec kMaxUnsignedDataPerByte b), (Z.leb_spec b kMaxUnsignedDataPerByte);
    [lia| |done|lia].
  rewrite shift_left_ok by done. cbn [mbind outcome_bind].
  by rewrite Z.shiftl_0_r, wrapu_idemp.
Qed.

(** The last byte of a value. *)
Lemma resume_end w m r s b st :
  0 <= s < w -> is_u s r -> 127 < b ->
  resume w m r s (b :: st) = Ok (joined w r s (b - m), st).
Proof.
  intros Hs Hr Hb. unfold resume. change kMaxUnsignedDataPerByte with 127.
  rewrite (proj2 (Z.leb_gt _ _)) by lia. 
  rewrite shift_left_ok by lia. cbn [mbind outcome_bind].
  rewrite lor_joined by (lia || done). unfold joined. f_equal. f_equal.
  rewrite <- wrapu_add_r, wrapu_mul_l, wrapu_add_r. done.
Qed.

(** Another byte of a value. *)
Lemma resume_more w m r s b st :
  0 <= s -> s + 7 < 256 -> s < w -> is_u s r -> 0 <= b <= 127 ->
  resume w m r s (b :: st) = resume w m (joined w r s b) (s + 7) st.
Proof.
  intros Hs H8 Hw Hr Hb. unfold resume at 1. change kMaxUnsignedDataPerByte with 127.
  rewrite (proj2 (Z.leb_le _ _)) by lia.
  destruct st as [|b' st]; cbn [Read_loop];
    rewrite (shift_left_ok w b s) by done; cbn [mbind outcome_bind]; [done|].
  rewrite lor_joined by (lia || done). rewrite (wrapu_id 8); [done|].
  unfold kDataBitsPerByte, is_u. lia.
Qed.

(** ** Round trips *)

(** A value [v] with [w - s] bits left, too large for the last byte, has more than a byte. *)
Lemma narrow w s v :
  0 <= s -> s < w -> is_s (w - s) v -> v < -64 \/ 63 < v ->
  s + 7 < w /\ is_s (w - (s + 7)) (v / 128).
Proof.
  intros Hs Hw Hv Hbig. unfold is_s in *.
  assert (7 < w - s) as Hws.
  { destruct (Z.lt_ge_cases 7 (w - s)); [done|]. pose proof (pow2_le (w - s - 1) 6 ltac:(lia)).
    change (2 ^ 6) with 64 in *. lia. }
  split; [lia|]. replace (w - s - 1) with (7 + (w - (s + 7) - 1)) in Hv by lia.
  rewrite Z.pow_add_r in Hv by lia. change (2 ^ 7) with 128 in Hv.
  Z.div_mod_to_equations; lia.
Qed.

Lemma unsigned_narrow w s v :
  0 <= s -> s < w -> is_u (w - s) v -> 127 < v ->
  s + 7 < w /\ is_u (w - (s + 7)) (v / 128).
Proof.
  intros Hs Hw Hv Hbig. unfold is_u in *.
  assert (7 < w - s) as Hws.
  { destruct (Z.lt_ge_cases 7 (w - s)); [done|]. pose proof (pow2_le (w - s) 7 ltac:(lia)).
    change (2 ^ 7) with 128 in *. lia. }
  split; [lia|]. replace (w - s) with (7 + (w - (s + 7))) in Hv by lia.
  rewrite Z.pow_add_r in Hv by lia. change (2 ^ 7) with 128 in Hv.
  Z.div_mod_to_equations; lia.
Qed.

Lemma Write_resume fuel w s r v rest :
  0 <= s -> s < w -> w <= 64 -> is_u s r -> is_s (w - s) v -> w - s <= Z.of_nat fuel ->
  exists bs, Write_loop fuel v = Ok bs /\
    resume w kEndByteMarker r s (bs ++ rest) = Ok (joined w r s v, rest).
Proof.
  revert s r v. induction fuel as [|fuel IH]; intros s r v Hs Hw H64 Hr Hv Hf; [lia|].
  cbn [Write_loop]. change kMinDataPerByte with (-64). change kMaxDataPerByte with 63.
  change kEndByteMarker with 192. destruct ((v <? -64) || (63 <? v)) eqn:E.
  - destruct (narrow w s v) as [Hlt Hv']; [done..|lia|].
    pose proof (Z.mod_pos_bound v 128 ltac:(lia)).
    unfold kDataBitsPerByte, kByteMask. change ((1 << 7) - 1) with 127.
    rewrite shiftr_7, land_127, (wrapu_id 8 (v mod 128)) by (unfold is_u; lia).
    assert (is_u (s + 7) (r + v mod 128 * 2 ^ s)) as Hr' by (by apply append_u).
    destruct (IH (s + 7) (r + v mod 128 * 2 ^ s) (v / 128)) as (bs & -> & Ebs);
      [lia|lia|lia|done|done|lia|].
    exists (v mod 128 :: bs). split; [done|]. cbn [app].
    rewrite resume_more by (lia || done).
    rewrite (joined_small w r s) by (done || lia). change kEndByteMarker with 192 in Ebs.
    by rewrite Ebs, joined_split.
  - exists [v + 192]. split; [by rewrite wrapu_id by (unfold is_u; lia)|]. cbn [app].
    rewrite resume_end by (lia || done). do 2 f_equal. f_equal. lia.
Qed.

Lemma WriteUnsigned_resume fuel w s r v rest :
  0 <= s -> s < w -> w <= 64 -> is_u s r -> is_u (w - s) v -> w - s <= Z.of_nat fuel ->
  exists bs, WriteUnsigned_loop fuel v = Ok bs /\
    resume w kEndUnsignedByteMarker r s (bs ++ rest) = Ok (joined w r s v, rest).
Proof.
  revert s r v. induction fuel as [|fuel IH]; intros s r v Hs Hw H64 Hr Hv Hf; [lia|].
  cbn [WriteUnsigned_loop]. change kMaxUnsignedDataPerByte with 127.
  change kEndUnsignedByteMarker with 128. destruct (Z.ltb_spec 127 v) as [Hbig|Hsmall].
  - destruct (unsigned_narrow w s v) as [Hlt Hv']; [done..|].
    pose proof (Z.mod_pos_bound v 128 ltac:(lia)).
    unfold kDataBitsPerByte, kByteMask. change ((1 << 7) - 1) with 127.
    rewrite shiftr_7, land_127, (wrapu_id 8 (v mod 128)) by (unfold is_u; lia).
    assert (is_u (s + 7) (r + v mod 128 * 2 ^ s)) as Hr' by (by apply append_u).
    destruct (IH (s + 7) (r + v mod 128 * 2 ^ s) (v / 128)) as (bs & -> & Ebs);
      [lia|lia|lia|done|done|lia|].
    exists (v mod 128 :: bs). split; [done|]. cbn [app].
    rewrite resume_more by (lia || done).
    rewrite (joined_small w r s) by (done || lia). change kEndUnsignedByteMarker with 128 in Ebs.
    by rewrite Ebs, joined_split.
  - exists [v + 128]. unfold is_u in Hv.
    split; [by rewrite wrapu_id by (unfold is_u; lia)|]. cbn [app].
    rewrite resume_end by (lia || done). do 2 f_equal. f_equal. lia.
Qed.

(** ** LEB128 *)

Lemma more_mask b : is_u 8 b -> (b .& kMoreDataMask =? 0) = (b <? 128).
Proof.
  intros Hb. apply eqb_true_iff.
  by apply (all_bytes (fun b => Bool.eqb (b .& kMoreDataMask =? 0) (b <? 128))).
Qed.

Lemma sign_mask b : is_u 8 b -> b < 128 -> (b .& kSignMask =? 0) = (b <? 64).
Proof.
  intros Hb Hlt. assert (negb (b <? 128) || Bool.eqb (b .& kSignMask =? 0) (b <? 64) = true) as H.
  { by apply (all_bytes (fun b => negb (b <? 128) || Bool.eqb (b .& kSignMask =? 0) (b <? 64))). }
  rewrite (proj2 (Z.ltb_lt b 128)) in H by done. cbn [negb orb] in H. exact (eqb_prop _ _ H).
Qed.

Lemma lor_128 p : 0 <= p < 128 -> p .| kMoreDataMask = p + 128.
Proof.
  intros Hp. rewrite Z.lor_comm. change kMoreDataMask with (1 << 7).
  rewrite lor_add by (lia || done). lia.
Qed.

Lemma leb_more w r s p st :
  0 <= s -> s < w -> w <= 64 -> is_u s r -> 0 <= p < 128 ->
  leb_loop w r s (p .| kMoreDataMask :: st) = leb_loop w (joined w r s p) (s + 7) st.
Proof.
  intros Hs Hw H64 Hr Hp. rewrite lor_128 by done. cbn [leb_loop]. unfold stream_assert at 1.
  rewrite (proj2 (Z.ltb_lt s w)) by done. cbn [mbind outcome_bind].
  rewrite more_mask by (unfold is_u; lia). rewrite (proj2 (Z.ltb_ge _ 128)) by lia.
  cbn [negb]. change kDataByteMask with 127. rewrite land_127.
  assert ((p + 128) mod 128 = p) as -> by (Z.div_mod_to_equations; lia).
  rewrite lor_joined by (lia || done). by rewrite wrapu_id by (unfold is_u; lia).
Qed.

Lemma leb_end w r s p st :
  0 <= s -> s < w -> w <= 64 -> is_u s r -> 0 <= p < 128 ->
  leb_loop w r s (p :: st) = Ok (joined w r s p, s + 7, p, st).
Proof.
  intros Hs Hw H64 Hr Hp. cbn [leb_loop]. unfold stream_assert.
  rewrite (proj2 (Z.ltb_lt s w)) by done. cbn [mbind outcome_bind].
  rewrite more_mask by (unfold is_u; lia). rewrite (proj2 (Z.ltb_lt _ 128)) by lia.
  cbn [negb]. change kDataByteMask with 127. rewrite land_127, (Z.mod_small p) by done.
  rewrite lor_joined, (wrapu_id 8) by (unfold is_u in *; lia || done).
  by rewrite (proj2 (Z.ltb_lt _ (7 + w))) by lia.
Qed.

Lemma LEB128_loop fuel w s r v rest :
  0 <= s -> s < w -> w <= 64 -> is_u s r -> is_u (w - s) v -> w - s <= Z.of_nat fuel ->
  exists bs s' b, WriteLEB128_loop fuel v = Ok bs /\
    leb_loop w r s (bs ++ rest) = Ok (joined w r s v, s', b, rest).
Proof.
  revert s r v. induction fuel as [|fuel IH]; intros s r v Hs Hw H64 Hr Hv Hf; [lia|].
  cbn [WriteLEB128_loop]. change kDataByteMask with 127. rewrite shiftr_7, land_127.
  pose proof (Z.mod_pos_bound v 128 ltac:(lia)). unfold is_u in Hv.
  destruct (Z.eqb_spec (v / 128) 0) as [E|E].
  - exists [v mod 128], (s + 7), (v mod 128). split; [done|]. cbn [app].
    rewrite leb_end by (lia || done). rewrite <- (joined_split w r s v), E by done.
    unfold joined. do 3 f_equal. f_equal. f_equal. lia.
  - destruct (unsigned_narrow w s v) as [Hlt Hv'];
      [done..|Z.div_mod_to_equations; lia|].
    assert (is_u (s + 7) (r + v mod 128 * 2 ^ s)) as Hr' by (by apply append_u).
    destruct (IH (s + 7) (r + v mod 128 * 2 ^ s) (v / 128)) as (bs & s' & b & -> & Ebs);
      [lia|lia|lia|done|done|lia|].
    exists ((v mod 128) .| kMoreDataMask :: bs), s', b. split; [done|]. cbn [app].
    rewrite leb_more by (lia || done). rewrite (joined_small w r s) by (done || lia).
    by rewrite Ebs, joined_split.
Qed.

(** ** Signed LEB128 *)

(** The sign bits that [ReadSLEB128] adds. *)
Definition sleb_finish (w r s b : Z) : Z :=
  r .| (if negb (b .& kSignMask =? 0) && (s <? w) then wrapu w (Z.lnot ((1 << s) - 1)) else 0).

Lemma lnot_ones k : 0 <= k -> Z.lnot ((1 << k) - 1) = (-1) << k.
Proof. intros Hk. rewrite !Z.shiftl_mul_pow2 by done. unfold Z.lnot. lia. Qed.

Lemma sleb_last w r s v :
  0 <= s -> s < w -> w <= 64 -> is_u s r -> -64 <= v <= 63 ->
  sleb_finish w (joined w r s (v mod 128)) (s + 7) (v mod 128) = joined w r s v.
Proof.
  intros Hs Hw H64 Hr Hv. unfold sleb_finish.
  rewrite sign_mask by (unfold is_u; Z.div_mod_to_equations; lia).
  destruct (Z.lt_ge_cases v 0).
  - assert (v mod 128 = v + 128) as -> by (Z.div_mod_to_equations; lia).
    rewrite (proj2 (Z.ltb_ge _ 64)) by lia. cbn [negb andb].
    destruct (Z.ltb_spec (s + 7) w).
    + rewrite lnot_ones by lia. assert (is_u (s + 7) (r + (v + 128) * 2 ^ s)) by (apply append_u; lia || done).
      rewrite joined_small, lor_joined by (lia || done). unfold joined. f_equal.
      rewrite Z.pow_add_r by lia. change (2 ^ 7) with 128. lia.
    + rewrite Z.lor_0_r. unfold joined, wrapu.
      replace (r + (v + 128) * 2 ^ s) with (r + v * 2 ^ s + 2 ^ (s + 7 - w) * 2 ^ w).
      { apply Z.mod_add. pose proof (pow2_pos w). lia. }
      rewrite <- Z.pow_add_r by lia. replace (s + 7 - w + w) with (s + 7) by lia.
      rewrite Z.pow_add_r by lia. change (2 ^ 7) with 128. lia.
  - rewrite (Z.mod_small v) by lia. rewrite (proj2 (Z.ltb_lt _ 64)) by lia.
    cbn [negb andb]. by rewrite Z.lor_0_r.
Qed.

(** Setting the sign bits of a negative value again does not change it. *)
Lemma lor_sign y k : 0 <= k -> - 2 ^ k <= y < 0 -> y .| Z.lnot ((1 << k) - 1) = y.
Proof.
  intros Hk Hy. rewrite lnot_ones by done.
  assert (y = ((-1) << k) .| (y + 2 ^ k)) as E by (rewrite lor_add by lia; lia).
  rewrite E at 1. rewrite (Z.lor_comm _ (y + 2 ^ k)), <- Z.lor_assoc, Z.lor_diag.
  by rewrite Z.lor_comm, <- E.
Qed.

(** One part of a signed value. *)
Lemma WriteSLEB128_part fuel w v :
  8 <= w -> is_s w v ->
  WriteSLEB128_loop fuel w (v <? 0) v =
    if (-64 <=? v) && (v <=? 63) then Ok [v mod 128]
    else match fuel with
         | O => Fatal StreamDiverges
         | S fuel =>
             st ← WriteSLEB128_loop fuel w (v / 128 <? 0) (v / 128);
             Ok ((v mod 128) .| kMoreDataMask :: st)
         end.
Proof.
  intros Hw Hv. unfold is_s in Hv. pose proof (Z.mod_pos_bound v 128 ltac:(lia)) as Hm.
  assert (2 ^ (w - 1) = 64 * 2 ^ (w - 7)) as Ew.
  { change 64 with (2 ^ 6). rewrite <- Z.pow_add_r by lia. f_equal. lia. }
  pose proof (pow2_pos (w - 7) ltac:(lia)).
  destruct fuel; cbn [WriteSLEB128_loop]; change kDataByteMask with 127;
    rewrite shiftr_7, land_127, sign_mask by (unfold is_u; lia); unfold stream_assert;
    (destruct (Z.ltb_spec v 0) as [Hn|Hn];
    [rewrite lor_sign by (Z.div_mod_to_equations; lia);
     rewrite (proj2 (Z.ltb_lt (v / 128) 0)) by (Z.div_mod_to_equations; lia)
    |rewrite (proj2 (Z.leb_le 0 (v / 128))) by (Z.div_mod_to_equations; lia);
     rewrite ?(proj2 (Z.ltb_ge (v / 128) 0)) by (Z.div_mod_to_equations; lia)]);
    cbn [mbind outcome_bind];
    match goal with |- (if ?a then _ else _) = (if ?b then _ else _) =>
      assert (a = b) as ->; [|done] end;
    apply eq_true_iff_eq; rewrite ?andb_true_iff, ?negb_true_iff, ?Z.eqb_eq, ?Z.leb_le, ?Z.ltb_lt, ?Z.ltb_ge;
    Z.div_mod_to_equations; lia.
Qed.

Lemma SLEB128_loop fuel w s r v rest :
  8 <= w -> 0 <= s -> s < w -> w <= 64 -> is_u s r -> is_s (w - s) v -> w - s <= Z.of_nat fuel ->
  exists bs r' s' b, WriteSLEB128_loop fuel w (v <? 0) v = Ok bs /\
    leb_loop w r s (bs ++ rest) = Ok (r', s', b, rest) /\
    sleb_finish w r' s' b = joined w r s v.
Proof.
  intros H8. revert s r v. induction fuel as [|fuel IH]; intros s r v Hs Hw H64 Hr Hv Hf; [lia|].
  assert (is_s w v) as Hvw.
  { unfold is_s in *. pose proof (pow2_le (w - s - 1) (w - 1) ltac:(lia)). lia. }
  rewrite WriteSLEB128_part by done. pose proof (Z.mod_pos_bound v 128 ltac:(lia)).
  destruct ((-64 <=? v) && (v <=? 63)) eqn:E.
  - exists [v mod 128]. eexists _, _, _. split; [done|]. cbn [app].
    rewrite leb_end by (lia || done). split; [done|]. apply sleb_last; lia || done.
  - destruct (narrow w s v) as [Hlt Hv']; [done..|lia|].
    assert (is_u (s + 7) (r + v mod 128 * 2 ^ s)) as Hr' by (by apply append_u).
    destruct (IH (s + 7) (r + v mod 128 * 2 ^ s) (v / 128)) as (bs & r' & s' & b & -> & Ebs & Ef);
      [lia|lia|lia|done|done|lia|].
    exists ((v mod 128) .| kMoreDataMask :: bs), r', s', b. split; [done|]. cbn [app].
    rewrite leb_more by (lia || done). rewrite (joined_small w r s) by (done || lia).
    by rewrite Ebs, Ef, joined_split.
Qed.

(** ** Reference ids *)

Lemma RefId_roundtrip v rest :
  is_u 28 v -> exists bs, WriteRefId v = Ok bs /\ ReadRefId (bs ++ rest) = Ok (v, rest).
Proof.
  intros Hv. unfold WriteRefId.
  assert (IsUint true 64 28 v = true) as ->.
  { apply IsUint_signed_spec; [lia|lia| |done]. unfold is_u, is_s in *.
    change (2 ^ 28) with 268435456 in Hv. change (2 ^ (64 - 1)) with 9223372036854775808. lia. }
  unfold is_u in Hv. change (2 ^ 28) with 268435456 in Hv. cbn [stream_assert mbind outcome_bind].
  rewrite !land_127, Z.shiftr_0_r, !Z.shiftr_div_pow2 by lia.
  change (2 ^ 7) with 128.
  replace (v / 2 ^ 14) with (v / 128 / 128) by (by rewrite Z.div_div by lia).
  replace (v / 2 ^ 21) with (v / 128 / 128 / 128) by (by rewrite !Z.div_div by lia).
  pose proof (Z.mod_pos_bound v 128 ltac:(lia)).
  assert ((v mod 128) .| 128 = v mod 128 + 128) as -> by (by apply lor_128). eexists. split; [reflexivity|].
  assert (forall n r b st, 0 <= b < 128 ->
    ref_stages (S n) r (b :: st) = ref_stages n (b + r * 128) st) as Hmore.
  { intros n r b st Hb. cbn [ref_stages]. rewrite wraps_id by (unfold is_s; lia).
    rewrite (proj2 (Z.ltb_ge b 0)) by lia. by rewrite Z.shiftl_mul_pow2 by lia. }
  assert (forall n r b st, 0 <= b < 128 ->
    ref_stages n r (b + 128 :: st) = Ok (b - 128 + r * 128, st)) as Hlast.
  { intros n r b st Hb. assert (wraps 8 (b + 128) = b - 128) as Ew.
    { rewrite wraps_of_u by (unfold is_u; lia). rewrite (proj2 (Z.ltb_ge _ _)) by (cbn; lia).
      cbn. lia. }
    destruct n; cbn [ref_stages]; rewrite Ew, (proj2 (Z.ltb_lt _ 0)) by lia;
      by rewrite Z.shiftl_mul_pow2 by lia. }
  assert (0 <= v / 128 / 128 / 128 mod 128 < 128) by (apply Z.mod_pos_bound; lia).
  assert (0 <= v / 128 / 128 mod 128 < 128) by (apply Z.mod_pos_bound; lia).
  assert (0 <= v / 128 mod 128 < 128) by (apply Z.mod_pos_bound; lia).
  unfold ReadRefId.
  destruct (Z.eqb_spec (v / 128 / 128 / 128) 0), (Z.eqb_spec (v / 128 / 128) 0), (Z.eqb_spec (v / 128) 0);
    try (exfalso; Z.div_mod_to_equations; lia); cbn [negb app];
    rewrite ?Hmore, Hlast by done; cbn [mbind outcome_bind]; do 2 f_equal;
    Z.div_mod_to_equations; lia.
Qed.

(** ** The claims *)

Lemma joined_zero w v : joined w 0 0 v = wrapu w v.
Proof. unfold joined. f_equal. lia. Qed.

Lemma zero_u : is_u 0 0.
Proof. done. Qed.

(** C23: what the write functions append is read back by the read functions for every value of
    the type, and the rest of the stream is left: signed and unsigned integers, LEB128,
    SLEB128 and reference ids.  The write loops end within the width of the type. *)
Theorem stream_roundtrip w :
  w = 32 \/ w = 64 ->
  (forall v rest, is_s w v -> exists bs, Write w v = Ok bs /\
     Read w true kEndByteMarker (bs ++ rest) = Ok (v, rest)) /\
  (forall v rest, is_u (w - 1) v -> exists bs, WriteUnsigned w v = Ok bs /\
     ReadUnsigned w (bs ++ rest) = Ok (v, rest)) /\
  (forall v rest, is_u w v -> exists bs, WriteLEB128 w v = Ok bs /\
     ReadLEB128 w (bs ++ rest) = Ok (v, rest)) /\
  (forall v rest, is_s w v -> exists bs, WriteSLEB128 w v = Ok bs /\
     ReadSLEB128 w (bs ++ rest) = Ok (wrapu w v, rest)) /\
  (forall v rest, is_u 28 v -> exists bs, WriteRefId v = Ok bs /\
     ReadRefId (bs ++ rest) = Ok (v, rest)).
Proof.
  intros Hw. assert (8 <= w <= 64) as Hw' by lia. pose proof zero_u. split_and!.
  - intros v rest Hv. destruct (Write_resume (Z.to_nat w) w 0 0 v rest) as (bs & E & Er);
      rewrite ?Z.sub_0_r; [lia|lia|lia|done|done|lia|].
    exists bs. split; [done|]. unfold Read. rewrite Read_bits_resume, Er by lia.
    cbn [mbind outcome_bind]. by rewrite joined_zero, wraps_wrapu, wraps_id by (done || lia).
  - intros v rest Hv. pose proof (pow2_half w ltac:(lia)). unfold is_u in Hv.
    destruct (WriteUnsigned_resume (Z.to_nat w) w 0 0 v rest) as (bs & E & Er);
      rewrite ?Z.sub_0_r; [lia|lia|lia|done|unfold is_u; lia|lia|].
    exists bs. unfold WriteUnsigned, stream_assert. rewrite (proj2 (Z.leb_le 0 v)) by lia.
    split; [done|]. unfold ReadUnsigned, Read. rewrite Read_bits_resume, Er by lia.
    cbn [mbind outcome_bind]. rewrite joined_zero, wraps_wrapu.
    by rewrite wraps_id by (unfold is_s; lia).
  - intros v rest Hv. destruct (LEB128_loop (Z.to_nat w) w 0 0 v rest) as (bs & s' & b & E & Er);
      rewrite ?Z.sub_0_r; [lia|lia|lia|done|done|lia|].
    exists bs. split; [done|]. unfold ReadLEB128. rewrite Er. cbn [mbind outcome_bind].
    by rewrite joined_zero, wrapu_id.
  - intros v rest Hv.
    destruct (SLEB128_loop (Z.to_nat w) w 0 0 v rest) as (bs & r' & s' & b & E & Er & Ef);
      rewrite ?Z.sub_0_r; [lia|lia|lia|lia|done|done|lia|].
    exists bs. split; [done|]. unfold ReadSLEB128. rewrite Er. cbn [mbind outcome_bind].
    fold (sleb_finish w r' s' b). by rewrite Ef, joined_zero.
  - intros v rest. apply RefId_roundtrip.
Qed.

(** ** The unrolled readers *)

(** The bit starts from [s] on, of [n] bodies and the end. *)
Fixpoint bit_starts (n : nat) (s : Z) : list Z :=
  match n with
  | O => [s]
  | S n => s :: bit_starts n (s + 7)
  end.

Lemma resume_beyond w m r s st x : w <= s -> resume w m r s st <> Ok x.
Proof.
  intros Hs. unfold resume. destruct st as [|b st]; [done|].
  assert (forall v, shift_left w v s = Undefined) as Hsh.
  { intros v. unfold shift_left. by rewrite (proj2 (Z.ltb_ge _ _)). }
  destruct (_ <=? _); [destruct st; cbn [Read_loop]|]; by rewrite Hsh.
Qed.

Lemma unrolled_resume n w m r s st x :
  Forall (is_u 8) st -> 0 <= s -> is_u s r ->
  s + 7 * Z.of_nat n < w <= s + 7 * Z.of_nat n + 7 -> w <= 64 ->
  unrolled w m r (bit_starts n s) st = Ok x <-> resume w m r s st = Ok x.
Proof.
  revert r s st. induction n as [|n IH]; intros r s st Hst Hs Hr Hw H64;
    destruct st as [|b st]; [done| |destruct n; done|];
    apply Forall_cons in Hst as [Hb Hst]; unfold is_u in Hb; change (2 ^ 8) with 256 in Hb.
  - cbn [bit_starts unrolled ReadByte mbind outcome_bind].
    change kMaxUnsignedDataPerByte with 127. unfold stream_assert.
    destruct (Z.ltb_spec 127 b).
    + rewrite resume_end by (lia || done). cbn [mbind outcome_bind].
      rewrite lor_joined by (lia || done). unfold joined.
      by rewrite <- wrapu_add_r, wrapu_mul_l, wrapu_add_r.
    + rewrite resume_more by (lia || done). split; [done|].
      intros E. by apply resume_beyond in E; [|lia].
  - assert (unrolled w m r (bit_starts (S n) s) (b :: st) =
      if 127 <? b then Ok (r .| wrapu w (wrapu w (b - m) << s), st)
      else unrolled w m (r .| wrapu w (b << s)) (bit_starts n (s + 7)) st) as ->.
    { cbn [bit_starts]. destruct n; done. }
    rewrite !lor_joined by (lia || done). destruct (Z.ltb_spec 127 b).
    + rewrite resume_end by (lia || done). unfold joined.
      by rewrite <- wrapu_add_r, wrapu_mul_l, wrapu_add_r.
    + assert (is_u (s + 7) (r + b * 2 ^ s)) by (apply append_u; lia || done).
      rewrite resume_more, joined_small by (lia || done). apply IH; lia || done.
Qed.

Lemma unrolled_init_bits n w m st x :
  Forall (is_u 8) st -> 7 + 7 * Z.of_nat n < w <= 7 + 7 * Z.of_nat n + 7 -> w <= 64 ->
  unrolled_init w m (bit_starts n 7) st = Ok x <-> Read_bits w m st = Ok x.
Proof.
  intros Hst Hw H64. rewrite Read_bits_resume by lia.
  destruct st as [|b st]; [done|]. apply Forall_cons in Hst as [Hb Hst].
  unfold is_u in Hb. change (2 ^ 8) with 256 in Hb. unfold unrolled_init.
  cbn [ReadByte mbind outcome_bind]. change kMaxUnsignedDataPerByte with 127.
  pose proof zero_u. destruct (Z.ltb_spec 127 b).
  - rewrite resume_end by (lia || done). by rewrite joined_zero.
  - rewrite resume_more by (lia || done). rewrite joined_zero.
    pose proof (pow2_le 8 w ltac:(lia)). change (2 ^ 8) with 256 in *.
    rewrite wrapu_id by (unfold is_u; lia).
    apply unrolled_resume; [done|lia|unfold is_u; lia|lia|lia].
Qed.

(** A raw value is read back, at each width. *)
Lemma Raw_roundtrip n w v rest :
  7 + 7 * Z.of_nat n < w <= 7 + 7 * Z.of_nat n + 7 -> w <= 64 -> Forall (is_u 8) rest -> is_u w v ->
  exists bs, Raw_Write w v = Ok bs /\
    (Forall (is_u 8) bs -> unrolled_init w kEndByteMarker (bit_starts n 7) (bs ++ rest) = Ok (v, rest)).
Proof.
  intros Hw H64 Hrest Hv. pose proof zero_u.
  destruct (Write_resume (Z.to_nat w) w 0 0 (wraps w v) rest) as (bs & E & Er);
    rewrite ?Z.sub_0_r; [lia|lia|lia|done|apply wraps_range; lia|lia|].
  exists bs. split; [done|]. intros Hbs.
  apply unrolled_init_bits; [by apply Forall_app|done|done|].
  rewrite Read_bits_resume, Er by lia. by rewrite joined_zero, wrapu_wraps, wrapu_id.
Qed.

Lemma Write_loop_bytes fuel v bs : Write_loop fuel v = Ok bs -> Forall (is_u 8) bs.
Proof.
  revert v bs. induction fuel as [|fuel IH]; intros v bs; cbn [Write_loop];
    destruct (_ || _); try done.
  1, 3: intros [= <-]; repeat constructor; by apply wrapu_range.
  intros (st & E & [= <-])%bind_ok. constructor; [by apply wrapu_range|by eapply IH].
Qed.

(** The unrolled readers of 32 and 64 bits return a value exactly when the loop does, the
    same one; and every value written raw at 16, 32 or 64 bits is read back by the unrolled
    reader of its width. *)
Theorem unrolled_readers st rest :
  Forall (is_u 8) st -> Forall (is_u 8) rest ->
  (forall m x, Read32 m st = Ok x <-> Read 32 false m st = Ok x) /\
  (forall m x, Read64 m st = Ok x <-> Read 64 false m st = Ok x) /\
  (forall v, is_u 16 v -> exists bs, Raw_Write 16 v = Ok bs /\
     Read16 kEndByteMarker (bs ++ rest) = Ok (v, rest)) /\
  (forall v, is_u 32 v -> exists bs, Raw_Write 32 v = Ok bs /\
     Read32 kEndByteMarker (bs ++ rest) = Ok (v, rest)) /\
  (forall v, is_u 64 v -> exists bs, Raw_Write 64 v = Ok bs /\
     Read64 kEndByteMarker (bs ++ rest) = Ok (v, rest)).
Proof.
  intros Hst Hrest.
  assert (forall w m x, Read w false m st = Ok x <-> Read_bits w m st = Ok x) as Hread.
  { intros w m x. unfold Read. by destruct (Read_bits w m st) as [[]| |]. }
  assert (forall n w v, 7 + 7 * Z.of_nat n < w <= 7 + 7 * Z.of_nat n + 7 -> w <= 64 -> is_u w v ->
    exists bs, Raw_Write w v = Ok bs /\
      unrolled_init w kEndByteMarker (bit_starts n 7) (bs ++ rest) = Ok (v, rest)) as Hraw.
  { intros n w v Hw H64 Hv. destruct (Raw_roundtrip n w v rest Hw H64 Hrest Hv) as (bs & E & Er).
    exists bs. split; [done|]. apply Er. by eapply Write_loop_bytes. }
  split_and!.
  - intros m x. rewrite Hread. by apply (unrolled_init_bits 3).
  - intros m x. rewrite Hread. by apply (unrolled_init_bits 8).
  - intros v Hv. by apply (Hraw 1%nat).
  - intros v Hv. by apply (Hraw 3%nat).
  - intros v Hv. by apply (Hraw 8%nat).
Qed.

(** ** Witnesses *)

Lemma stream_roundtrip_witness :
  exists bs, Write 64 (-70000) = Ok bs /\ Read 64 true kEndByteMarker (bs ++ [7]) = Ok (-70000, [7]).
Proof.
  destruct (stream_roundtrip 64 (or_intror eq_refl)) as (W & _). apply W. vm_compute. split; congruence.
Defined.

Lemma unrolled_readers_witness :
  exists bs, Raw_Write 32 4294967291 = Ok bs /\
    Read32 kEndByteMarker (bs ++ [1]) = Ok (4294967291, [1]).
Proof.
  destruct (unrolled_readers [] [1]) as (_ & _ & _ & W & _); [constructor|by repeat constructor|].
  apply W. vm_compute. split; congruence.
Defined.
