(* ===== verification/RiscvEncoding.v ===== *)
(** RISC-V instruction encodings: [runtime/vm/constants_riscv.h].

    The enumerations are modules of [Z] constants (a C++ [static_cast] to one of
    these enums accepts any field value, so a decoded field is a [Z] and the
    [switch]es of the simulator compare it with the enumerators).  Then come the
    register, function-code and immediate fields with their [Is..], [Encode..] and
    [Decode..] functions, the accessors of the classes [Instr] and [CInstr], and the
    theorems that decoding inverts encoding on the values [Is..] admits. *)
From stdpp Require Import base numbers.
From Stdlib Require Import ZArith Lia.
From S2P Require Import Prelude Utils.
Local Open Scope Z_scope.
Local Open Scope cxx_scope.

(** The target word size ([TARGET_ARCH_RISCV32] or [TARGET_ARCH_RISCV64]) is
    chosen at build time; here it is a class argument. *)
Inductive xlen := RV32 | RV64.
Class Target := target : xlen.

Definition XLEN `{Target} : Z := match target with RV32 => 32 | RV64 => 64 end.

(** [enum Register]. *)
Module Reg.
Definition ZR : Z := 0.
Definition RA : Z := 1.
Definition SP : Z := 2.
Definition GP : Z := 3.
Definition TP : Z := 4.
Definition T0 : Z := 5.
Definition T1 : Z := 6.
Definition T2 : Z := 7.
Definition FP : Z := 8.
Definition S1 : Z := 9.
Definition A0 : Z := 10.
Definition A1 : Z := 11.
Definition A2 : Z := 12.
Definition A3 : Z := 13.
Definition A4 : Z := 14.
Definition A5 : Z := 15.
Definition A6 : Z := 16.
Definition A7 : Z := 17.
Definition S2 : Z := 18.
Definition S3 : Z := 19.
Definition S4 : Z := 20.
Definition S5 : Z := 21.
Definition S6 : Z := 22.
Definition S7 : Z := 23.
Definition S8 : Z := 24.
Definition S9 : Z := 25.
Definition S10 : Z := 26.
Definition S11 : Z := 27.
Definition T3 : Z := 28.
Definition T4 : Z := 29.
Definition T5 : Z := 30.
Definition T6 : Z := 31.
Definition kNumberOfCpuRegisters : Z := 32.
Definition kNoRegister : Z := -1.
Definition RA2 : Z := 5.
Definition S0 : Z := 8.
End Reg.

(** [enum FRegister]. *)
Module FReg.
Definition FT0 : Z := 0.
Definition FT1 : Z := 1.
Definition FT2 : Z := 2.
Definition FT3 : Z := 3.
Definition FT4 : Z := 4.
Definition FT5 : Z := 5.
Definition FT6 : Z := 6.
Definition FT7 : Z := 7.
Definition FS0 : Z := 8.
Definition FS1 : Z := 9.
Definition FA0 : Z := 10.
Definition FA1 : Z := 11.
Definition FA2 : Z := 12.
Definition FA3 : Z := 13.
Definition FA4 : Z := 14.
Definition FA5 : Z := 15.
Definition FA6 : Z := 16.
Definition FA7 : Z := 17.
Definition FS2 : Z := 18.
Definition FS3 : Z := 19.
Definition FS4 : Z := 20.
Definition FS5 : Z := 21.
Definition FS6 : Z := 22.
Definition FS7 : Z := 23.
Definition FS8 : Z := 24.
Definition FS9 : Z := 25.
Definition FS10 : Z := 26.
Definition FS11 : Z := 27.
Definition FT8 : Z := 28.
Definition FT9 : Z := 29.
Definition FT10 : Z := 30.
Definition FT11 : Z := 31.
Definition kNumberOfFpuRegisters : Z := 32.
Definition kNoFpuRegister : Z := -1.
End FReg.

(** [enum Opcode]: the seven low bits of a 32-bit instruction. *)
Module Opcode.
Definition LUI : Z := 0x37.
Definition AUIPC : Z := 0x17.
Definition JAL : Z := 0x6f.
Definition JALR : Z := 0x67.
Definition BRANCH : Z := 0x63.
Definition LOAD : Z := 3.
Definition STORE : Z := 0x23.
Definition OPIMM : Z := 0x13.
Definition OP : Z := 0x33.
Definition MISCMEM : Z := 0xf.
Definition SYSTEM : Z := 0x73.
Definition OP32 : Z := 0x3b.
Definition OPIMM32 : Z := 0x1b.
Definition AMO : Z := 0x2f.
Definition LOADFP : Z := 7.
Definition STOREFP : Z := 0x27.
Definition FMADD : Z := 0x43.
Definition FMSUB : Z := 0x47.
Definition FNMSUB : Z := 0x4b.
Definition FNMADD : Z := 0x4f.
Definition OPFP : Z := 0x53.
End Opcode.

(** [enum Funct12]. *)
Module Funct12.
Definition ECALL : Z := 0.
Definition EBREAK : Z := 1.
End Funct12.

(** [enum Funct3]; the enumerators of one value belong to different opcodes. *)
Module Funct3.
Definition F3_0 : Z := 0.
Definition F3_1 : Z := 1.
Definition BEQ : Z := 0.
Definition BNE : Z := 1.
Definition BLT : Z := 4.
Definition BGE : Z := 5.
Definition BLTU : Z := 6.
Definition BGEU : Z := 7.
Definition LB : Z := 0.
Definition LH : Z := 1.
Definition LW : Z := 2.
Definition LBU : Z := 4.
Definition LHU : Z := 5.
Definition LWU : Z := 6.
Definition LD : Z := 3.
Definition SB : Z := 0.
Definition SH : Z := 1.
Definition SW : Z := 2.
Definition SD : Z := 3.
Definition ADDI : Z := 0.
Definition SLLI : Z := 1.
Definition SLTI : Z := 2.
Definition SLTIU : Z := 3.
Definition XORI : Z := 4.
Definition SRI : Z := 5.
Definition ORI : Z := 6.
Definition ANDI : Z := 7.
Definition ADD : Z := 0.
Definition SLL : Z := 1.
Definition SLT : Z := 2.
Definition SLTU : Z := 3.
Definition XOR : Z := 4.
Definition SR : Z := 5.
Definition OR : Z := 6.
Definition AND : Z := 7.
Definition FENCE : Z := 0.
Definition FENCEI : Z := 1.
Definition CSRRW : Z := 1.
Definition CSRRS : Z := 2.
Definition CSRRC : Z := 3.
Definition CSRRWI : Z := 5.
Definition CSRRSI : Z := 6.
Definition CSRRCI : Z := 7.
Definition MUL : Z := 0.
Definition MULH : Z := 1.
Definition MULHSU : Z := 2.
Definition MULHU : Z := 3.
Definition DIV : Z := 4.
Definition DIVU : Z := 5.
Definition REM : Z := 6.
Definition REMU : Z := 7.
Definition MULW : Z := 0.
Definition DIVW : Z := 4.
Definition DIVUW : Z := 5.
Definition REMW : Z := 6.
Definition REMUW : Z := 7.
Definition WIDTH32 : Z := 2.
Definition WIDTH64 : Z := 3.
Definition S : Z := 2.
Definition D : Z := 3.
Definition J : Z := 0.
Definition JN : Z := 1.
Definition JX : Z := 2.
Definition FMIN : Z := 0.
Definition FMAX : Z := 1.
Definition FEQ : Z := 2.
Definition FLT : Z := 1.
Definition FLE : Z := 0.
Definition SH1ADD : Z := 2.
Definition SH2ADD : Z := 4.
Definition SH3ADD : Z := 6.
Definition F3_COUNT : Z := 1.
Definition MAX : Z := 6.
Definition MAXU : Z := 7.
Definition MIN : Z := 4.
Definition MINU : Z := 5.
Definition CLMUL : Z := 1.
Definition CLMULH : Z := 3.
Definition CLMULR : Z := 2.
Definition SEXT : Z := 1.
Definition ZEXT : Z := 4.
Definition ROL : Z := 1.
Definition ROR : Z := 5.
Definition BCLR : Z := 1.
Definition BEXT : Z := 5.
Definition F3_BINV : Z := 1.
Definition F3_BSET : Z := 1.
End Funct3.

(** [enum Funct7]. *)
Module Funct7.
Definition F7_0 : Z := 0.
Definition SRA : Z := 0x20.
Definition SUB : Z := 0x20.
Definition MULDIV : Z := 1.
Definition FADDS : Z := 0.
Definition FSUBS : Z := 4.
Definition FMULS : Z := 8.
Definition FDIVS : Z := 0xc.
Definition FSQRTS : Z := 0x2c.
Definition FSGNJS : Z := 0x10.
Definition FMINMAXS : Z := 0x14.
Definition FCMPS : Z := 0x50.
Definition FCLASSS : Z := 0x70.
Definition FCVTintS : Z := 0x60.
Definition FCVTSint : Z := 0x68.
Definition FMVXW : Z := 0x70.
Definition FMVWX : Z := 0x78.
Definition FADDD : Z := 1.
Definition FSUBD : Z := 5.
Definition FMULD : Z := 9.
Definition FDIVD : Z := 0xd.
Definition FSQRTD : Z := 0x2d.
Definition FSGNJD : Z := 0x11.
Definition FMINMAXD : Z := 0x15.
Definition FCVTS : Z := 0x20.
Definition FCVTD : Z := 0x21.
Definition FCMPD : Z := 0x51.
Definition FCLASSD : Z := 0x71.
Definition FCVTintD : Z := 0x61.
Definition FCVTDint : Z := 0x69.
Definition FMVXD : Z := 0x71.
Definition FMVDX : Z := 0x79.
Definition ADDUW : Z := 4.
Definition SHADD : Z := 0x10.
Definition SLLIUW : Z := 4.
Definition COUNT : Z := 0x30.
Definition MINMAXCLMUL : Z := 5.
Definition ROTATE : Z := 0x30.
Definition BCLRBEXT : Z := 0x24.
Definition BINV : Z := 0x34.
Definition BSET : Z := 0x14.
End Funct7.

(** [enum Funct5]. *)
Module Funct5.
Definition LR : Z := 2.
Definition SC : Z := 3.
Definition AMOSWAP : Z := 1.
Definition AMOADD : Z := 0.
Definition AMOXOR : Z := 4.
Definition AMOAND : Z := 0xc.
Definition AMOOR : Z := 8.
Definition AMOMIN : Z := 0x10.
Definition AMOMAX : Z := 0x14.
Definition AMOMINU : Z := 0x18.
Definition AMOMAXU : Z := 0x1c.
End Funct5.

(** [enum Funct2]. *)
Module Funct2.
Definition F2_S : Z := 0.
Definition F2_D : Z := 1.
End Funct2.

(** [enum RoundingMode]. *)
Module RoundingMode.
Definition RNE : Z := 0.
Definition RTZ : Z := 1.
Definition RDN : Z := 2.
Definition RUP : Z := 3.
Definition RMM : Z := 4.
Definition DYN : Z := 7.
End RoundingMode.

(** [enum FcvtRs2]. *)
Module FcvtRs2.
Definition W : Z := 0.
Definition WU : Z := 1.
Definition L : Z := 2.
Definition LU : Z := 3.
End FcvtRs2.

(** [enum FClass]. *)
Module FClass.
Definition kFClassNegInfinity : Z := 1.
Definition kFClassNegNormal : Z := 2.
Definition kFClassNegSubnormal : Z := 4.
Definition kFClassNegZero : Z := 8.
Definition kFClassPosZero : Z := 0x10.
Definition kFClassPosSubnormal : Z := 0x20.
Definition kFClassPosNormal : Z := 0x40.
Definition kFClassPosInfinity : Z := 0x80.
Definition kFClassSignallingNan : Z := 0x100.
Definition kFClassQuietNan : Z := 0x200.
End FClass.

(** [enum COpcode]: the 16-bit instructions and the masks that select them. *)
Module COpcode.
Definition C_OP_MASK : Z := 0xe003.
Definition C_ADDI4SPN : Z := 0.
Definition C_FLD : Z := 0x2000.
Definition C_LW : Z := 0x4000.
Definition C_FLW : Z := 0x6000.
Definition C_LD : Z := 0x6000.
Definition C_FSD : Z := 0xa000.
Definition C_SW : Z := 0xc000.
Definition C_FSW : Z := 0xe000.
Definition C_SD : Z := 0xe000.
Definition C_ADDI : Z := 1.
Definition C_JAL : Z := 0x2001.
Definition C_ADDIW : Z := 0x2001.
Definition C_LI : Z := 0x4001.
Definition C_ADDI16SP : Z := 0x6001.
Definition C_LUI : Z := 0x6001.
Definition C_MISCALU : Z := 0x8001.
Definition C_MISCALU_MASK : Z := 0xec03.
Definition C_SRLI : Z := 0x8001.
Definition C_SRAI : Z := 0x8401.
Definition C_ANDI : Z := 0x8801.
Definition C_RR : Z := 0x8c01.
Definition C_RR_MASK : Z := 0xfc63.
Definition C_SUB : Z := 0x8c01.
Definition C_XOR : Z := 0x8c21.
Definition C_OR : Z := 0x8c41.
Definition C_AND : Z := 0x8c61.
Definition C_SUBW : Z := 0x9c01.
Definition C_ADDW : Z := 0x9c21.
Definition C_J : Z := 0xa001.
Definition C_BEQZ : Z := 0xc001.
Definition C_BNEZ : Z := 0xe001.
Definition C_SLLI : Z := 2.
Definition C_FLDSP : Z := 0x2002.
Definition C_LWSP : Z := 0x4002.
Definition C_FLWSP : Z := 0x6002.
Definition C_LDSP : Z := 0x6002.
Definition C_JR : Z := 0x8002.
Definition C_MV : Z := 0x8002.
Definition C_JALR : Z := 0x9002.
Definition C_ADD : Z := 0x9002.
Definition C_FSDSP : Z := 0xa002.
Definition C_SWSP : Z := 0xc002.
Definition C_FSWSP : Z := 0xe002.
Definition C_SDSP : Z := 0xe002.
Definition C_NOP : Z := 1.
Definition C_EBREAK : Z := 0x9002.
End COpcode.

(** ** Helpers of the header *)

(** Immediates are passed as [intptr_t]; the host word has 64 bits. *)
Definition kBitsPerWord : Z := 64.

Definition u32 (z : Z) : Z := wrapu 32 z.

Definition SignExtend (N value : Z) : Z :=
  wraps 32 (u32 (u32 value << (32 - N))) >> (32 - N).

(** The four overloads of [sign_extend], by the type of their argument. *)
Definition sign_extend_i32 `{Target} (x : Z) : Z := wraps XLEN x.
Definition sign_extend_i64 `{Target} (x : Z) : Z := wraps XLEN x.
Definition sign_extend_u32 `{Target} (x : Z) : Z := wraps XLEN (wraps 32 x).
Definition sign_extend_u64 `{Target} (x : Z) : Z := wraps XLEN (wraps 64 x).

Definition kReleaseShift : Z := 25.
Definition kAcquireShift : Z := 26.

(** ** Register and function-code fields

    [DEFINE_REG_ENCODING], [DEFINE_FUNCT_ENCODING] and
    [DEFINE_REG_PRIME_ENCODING] each define three functions per field; the
    templates come first and the fields instantiate them. *)

Definition IsRegField (r : Z) : bool := u32 r <? 32.
Definition EncodeRegField (shift r : Z) : Z := u32 (u32 r << shift).
Definition DecodeRegField (shift encoding : Z) : Z := (encoding >> shift) .& 31.

Definition IsFunctField (mask f : Z) : bool := f .& mask =? f.
Definition EncodeFunctField (shift f : Z) : Z := u32 (f << shift).
Definition DecodeFunctField (shift mask encoding : Z) : Z := (encoding >> shift) .& mask.

Definition IsRegPrimeField (r : Z) : bool := (8 <=? r) && (r <? 16).
Definition EncodeRegPrimeField (shift r : Z) : Z := u32 ((u32 r .& 7) << shift).
Definition DecodeRegPrimeField (shift encoding : Z) : Z := ((encoding >> shift) .& 7) + 8.

Definition EncodeRd : Z -> Z := EncodeRegField 7.
Definition DecodeRd : Z -> Z := DecodeRegField 7.
Definition EncodeRs1 : Z -> Z := EncodeRegField 15.
Definition DecodeRs1 : Z -> Z := DecodeRegField 15.
Definition EncodeRs2 : Z -> Z := EncodeRegField 20.
Definition DecodeRs2 : Z -> Z := DecodeRegField 20.
Definition EncodeFRd : Z -> Z := EncodeRegField 7.
Definition DecodeFRd : Z -> Z := DecodeRegField 7.
Definition EncodeFRs1 : Z -> Z := EncodeRegField 15.
Definition DecodeFRs1 : Z -> Z := DecodeRegField 15.
Definition EncodeFRs2 : Z -> Z := EncodeRegField 20.
Definition DecodeFRs2 : Z -> Z := DecodeRegField 20.
Definition EncodeFRs3 : Z -> Z := EncodeRegField 27.
Definition DecodeFRs3 : Z -> Z := DecodeRegField 27.
Definition EncodeCRd : Z -> Z := EncodeRegField 7.
Definition DecodeCRd : Z -> Z := DecodeRegField 7.
Definition EncodeCRs1 : Z -> Z := EncodeRegField 7.
Definition DecodeCRs1 : Z -> Z := DecodeRegField 7.
Definition EncodeCRs2 : Z -> Z := EncodeRegField 2.
Definition DecodeCRs2 : Z -> Z := DecodeRegField 2.
Definition EncodeCFRd : Z -> Z := EncodeRegField 7.
Definition DecodeCFRd : Z -> Z := DecodeRegField 7.
Definition EncodeCFRs1 : Z -> Z := EncodeRegField 7.
Definition DecodeCFRs1 : Z -> Z := DecodeRegField 7.
Definition EncodeCFRs2 : Z -> Z := EncodeRegField 2.
Definition DecodeCFRs2 : Z -> Z := DecodeRegField 2.
Definition EncodeOpcode : Z -> Z := EncodeFunctField 0.
Definition DecodeOpcode : Z -> Z := DecodeFunctField 0 0x7F.
Definition EncodeFunct2 : Z -> Z := EncodeFunctField 25.
Definition DecodeFunct2 : Z -> Z := DecodeFunctField 25 0x3.
Definition EncodeFunct3 : Z -> Z := EncodeFunctField 12.
Definition DecodeFunct3 : Z -> Z := DecodeFunctField 12 0x7.
Definition EncodeFunct5 : Z -> Z := EncodeFunctField 27.
Definition DecodeFunct5 : Z -> Z := DecodeFunctField 27 0x1F.
Definition EncodeFunct7 : Z -> Z := EncodeFunctField 25.
Definition DecodeFunct7 : Z -> Z := DecodeFunctField 25 0x7F.
Definition EncodeFunct12 : Z -> Z := EncodeFunctField 20.
Definition DecodeFunct12 : Z -> Z := DecodeFunctField 20 0xFFF.
Definition EncodeRoundingMode : Z -> Z := EncodeFunctField 12.
Definition DecodeRoundingMode : Z -> Z := DecodeFunctField 12 0x7.
Definition EncodeCRdp : Z -> Z := EncodeRegPrimeField 2.
Definition DecodeCRdp : Z -> Z := DecodeRegPrimeField 2.
Definition EncodeCRs1p : Z -> Z := EncodeRegPrimeField 7.
Definition DecodeCRs1p : Z -> Z := DecodeRegPrimeField 7.
Definition EncodeCRs2p : Z -> Z := EncodeRegPrimeField 2.
Definition DecodeCRs2p : Z -> Z := DecodeRegPrimeField 2.
Definition EncodeCFRdp : Z -> Z := EncodeRegPrimeField 2.
Definition DecodeCFRdp : Z -> Z := DecodeRegPrimeField 2.
Definition EncodeCFRs1p : Z -> Z := EncodeRegPrimeField 7.
Definition DecodeCFRs1p : Z -> Z := DecodeRegPrimeField 7.
Definition EncodeCFRs2p : Z -> Z := EncodeRegPrimeField 2.
Definition DecodeCFRs2p : Z -> Z := DecodeRegPrimeField 2.

Definition ShamtMask `{Target} : Z := match target with RV32 => 0x1F | RV64 => 0x3F end.
Definition EncodeShamt (f : Z) : Z := EncodeFunctField 20 f.
Definition DecodeShamt `{Target} (encoding : Z) : Z := DecodeFunctField 20 ShamtMask encoding.

(** Splitting a constant for a [lui]/[addi] pair. *)
Definition ImmLo `{Target} (imm : Z) : Z :=
  wraps XLEN (wrapu XLEN (wrapu XLEN imm << (XLEN - 12))) >> (XLEN - 12).
Definition ImmHi `{Target} (imm : Z) : Z :=
  wraps XLEN (wraps XLEN (wrapu XLEN (wrapu XLEN imm - wrapu XLEN (ImmLo imm)))
              << (XLEN - 32)) >> (XLEN - 32).

(** ** Immediate fields *)

Definition IsBTypeImm (imm : Z) : bool :=
  IsInt true kBitsPerWord 12 imm && IsAligned imm 2.
Definition EncodeBTypeImm (imm : Z) : Z :=
  let encoded := 0 in
  let encoded := u32 (encoded .| (((imm >> 12) .& 0x1) << 31)) in
  let encoded := u32 (encoded .| (((imm >> 5) .& 0x3f) << 25)) in
  let encoded := u32 (encoded .| (((imm >> 1) .& 0xf) << 8)) in
  let encoded := u32 (encoded .| (((imm >> 11) .& 0x1) << 7)) in
  encoded.
Definition DecodeBTypeImm (encoded : Z) : Z :=
  let imm := 0 in
  let imm := u32 (imm .| (((encoded >> 31) .& 0x1) << 12)) in
  let imm := u32 (imm .| (((encoded >> 25) .& 0x3f) << 5)) in
  let imm := u32 (imm .| (((encoded >> 8) .& 0xf) << 1)) in
  let imm := u32 (imm .| (((encoded >> 7) .& 0x1) << 11)) in
  SignExtend 12 imm.

Definition IsJTypeImm (imm : Z) : bool :=
  IsInt true kBitsPerWord 20 imm && IsAligned imm 2.
Definition EncodeJTypeImm (imm : Z) : Z :=
  let encoded := 0 in
  let encoded := u32 (encoded .| (((imm >> 20) .& 0x1) << 31)) in
  let encoded := u32 (encoded .| (((imm >> 1) .& 0x3ff) << 21)) in
  let encoded := u32 (encoded .| (((imm >> 11) .& 0x1) << 20)) in
  let encoded := u32 (encoded .| (((imm >> 12) .& 0xff) << 12)) in
  encoded.
Definition DecodeJTypeImm (encoded : Z) : Z :=
  let imm := 0 in
  let imm := u32 (imm .| (((encoded >> 31) .& 0x1) << 20)) in
  let imm := u32 (imm .| (((encoded >> 21) .& 0x3ff) << 1)) in
  let imm := u32 (imm .| (((encoded >> 20) .& 0x1) << 11)) in
  let imm := u32 (imm .| (((encoded >> 12) .& 0xff) << 12)) in
  SignExtend 20 imm.

Definition IsITypeImm (imm : Z) : bool :=
  IsInt true kBitsPerWord 12 imm.
Definition EncodeITypeImm (imm : Z) : Z := u32 (u32 imm << 20).
Definition DecodeITypeImm (encoded : Z) : Z := SignExtend 12 (encoded >> 20).

Definition IsUTypeImm (imm : Z) : bool :=
  IsInt true kBitsPerWord 32 imm && IsAligned imm (1 << 12).
Definition EncodeUTypeImm (imm : Z) : Z := u32 imm.
Definition DecodeUTypeImm (encoded : Z) : Z := SignExtend 32 (encoded .& Z.lnot ((1 << 12) - 1)).

Definition IsSTypeImm (imm : Z) : bool :=
  IsInt true kBitsPerWord 12 imm.
Definition EncodeSTypeImm (imm : Z) : Z :=
  let encoded := 0 in
  let encoded := u32 (encoded .| (((imm >> 5) .& 0x7f) << 25)) in
  let encoded := u32 (encoded .| (((imm >> 0) .& 0x1f) << 7)) in
  encoded.
Definition DecodeSTypeImm (encoded : Z) : Z :=
  let imm := 0 in
  let imm := u32 (imm .| (((encoded >> 25) .& 0x7f) << 5)) in
  let imm := u32 (imm .| (((encoded >> 7) .& 0x1f) << 0)) in
  SignExtend 12 imm.

Definition IsCSPLoad4Imm (imm : Z) : bool :=
  IsUint true kBitsPerWord 8 imm && IsAligned imm 4.
Definition EncodeCSPLoad4Imm (imm : Z) : Z :=
  let encoded := 0 in
  let encoded := u32 (encoded .| (((imm >> 5) .& 0x1) << 12)) in
  let encoded := u32 (encoded .| (((imm >> 2) .& 0x7) << 4)) in
  let encoded := u32 (encoded .| (((imm >> 6) .& 0x3) << 2)) in
  encoded.
Definition DecodeCSPLoad4Imm (encoded : Z) : Z :=
  let imm := 0 in
  let imm := u32 (imm .| (((encoded >> 12) .& 0x1) << 5)) in
  let imm := u32 (imm .| (((encoded >> 4) .& 0x7) << 2)) in
  let imm := u32 (imm .| (((encoded >> 2) .& 0x3) << 6)) in
  imm.

Definition IsCSPLoad8Imm (imm : Z) : bool :=
  IsUint true kBitsPerWord 9 imm && IsAligned imm 8.
Definition EncodeCSPLoad8Imm (imm : Z) : Z :=
  let encoded := 0 in
  let encoded := u32 (encoded .| (((imm >> 5) .& 0x1) << 12)) in
  let encoded := u32 (encoded .| (((imm >> 3) .& 0x3) << 5)) in
  let encoded := u32 (encoded .| (((imm >> 6) .& 0x7) << 2)) in
  encoded.
Definition DecodeCSPLoad8Imm (encoded : Z) : Z :=
  let imm := 0 in
  let imm := u32 (imm .| (((encoded >> 12) .& 0x1) << 5)) in
  let imm := u32 (imm .| (((encoded >> 5) .& 0x3) << 3)) in
  let imm := u32 (imm .| (((encoded >> 2) .& 0x7) << 6)) in
  imm.

Definition IsCSPStore4Imm (imm : Z) : bool :=
  IsUint true kBitsPerWord 8 imm && IsAligned imm 4.
Definition EncodeCSPStore4Imm (imm : Z) : Z :=
  let encoded := 0 in
  let encoded := u32 (encoded .| (((imm >> 2) .& 0xF) << 9)) in
  let encoded := u32 (encoded .| (((imm >> 6) .& 0x3) << 7)) in
  encoded.
Definition DecodeCSPStore4Imm (encoded : Z) : Z :=
  let imm := 0 in
  let imm := u32 (imm .| (((encoded >> 9) .& 0xF) << 2)) in
  let imm := u32 (imm .| (((encoded >> 7) .& 0x3) << 6)) in
  imm.

Definition IsCSPStore8Imm (imm : Z) : bool :=
  IsUint true kBitsPerWord 9 imm && IsAligned imm 8.
Definition EncodeCSPStore8Imm (imm : Z) : Z :=
  let encoded := 0 in
  let encoded := u32 (encoded .| (((imm >> 3) .& 0x7) << 10)) in
  let encoded := u32 (encoded .| (((imm >> 6) .& 0x7) << 7)) in
  encoded.
Definition DecodeCSPStore8Imm (encoded : Z) : Z :=
  let imm := 0 in
  let imm := u32 (imm .| (((encoded >> 10) .& 0x7) << 3)) in
  let imm := u32 (imm .| (((encoded >> 7) .& 0x7) << 6)) in
  imm.

Definition IsCMem4Imm (imm : Z) : bool :=
  IsUint true kBitsPerWord 7 imm && IsAligned imm 4.
Definition EncodeCMem4Imm (imm : Z) : Z :=
  let encoded := 0 in
  let encoded := u32 (encoded .| (((imm >> 3) .& 0x7) << 10)) in
  let encoded := u32 (encoded .| (((imm >> 2) .& 0x1) << 6)) in
  let encoded := u32 (encoded .| (((imm >> 6) .& 0x1) << 5)) in
  encoded.
Definition DecodeCMem4Imm (encoded : Z) : Z :=
  let imm := 0 in
  let imm := u32 (imm .| (((encoded >> 10) .& 0x7) << 3)) in
  let imm := u32 (imm .| (((encoded >> 6) .& 0x1) << 2)) in
  let imm := u32 (imm .| (((encoded >> 5) .& 0x1) << 6)) in
  imm.

Definition IsCMem8Imm (imm : Z) : bool :=
  IsUint true kBitsPerWord 8 imm && IsAligned imm 8.
Definition EncodeCMem8Imm (imm : Z) : Z :=
  let encoded := 0 in
  let encoded := u32 (encoded .| (((imm >> 3) .& 0x7) << 10)) in
  let encoded := u32 (encoded .| (((imm >> 6) .& 0x3) << 5)) in
  encoded.
Definition DecodeCMem8Imm (encoded : Z) : Z :=
  let imm := 0 in
  let imm := u32 (imm .| (((encoded >> 10) .& 0x7) << 3)) in
  let imm := u32 (imm .| (((encoded >> 5) .& 0x3) << 6)) in
  imm.

Definition IsCJImm (imm : Z) : bool :=
  IsInt true kBitsPerWord 11 imm && IsAligned imm 2.
Definition EncodeCJImm (imm : Z) : Z :=
  let encoded := 0 in
  let encoded := u32 (encoded .| (((imm >> 11) .& 0x1) << 12)) in
  let encoded := u32 (encoded .| (((imm >> 4) .& 0x1) << 11)) in
  let encoded := u32 (encoded .| (((imm >> 8) .& 0x3) << 9)) in
  let encoded := u32 (encoded .| (((imm >> 10) .& 0x1) << 8)) in
  let encoded := u32 (encoded .| (((imm >> 6) .& 0x1) << 7)) in
  let encoded := u32 (encoded .| (((imm >> 7) .& 0x1) << 6)) in
  let encoded := u32 (encoded .| (((imm >> 1) .& 0x7) << 3)) in
  let encoded := u32 (encoded .| (((imm >> 5) .& 0x1) << 2)) in
  encoded.
Definition DecodeCJImm (encoded : Z) : Z :=
  let imm := 0 in
  let imm := u32 (imm .| (((encoded >> 12) .& 0x1) << 11)) in
  let imm := u32 (imm .| (((encoded >> 11) .& 0x1) << 4)) in
  let imm := u32 (imm .| (((encoded >> 9) .& 0x3) << 8)) in
  let imm := u32 (imm .| (((encoded >> 8) .& 0x1) << 10)) in
  let imm := u32 (imm .| (((encoded >> 7) .& 0x1) << 6)) in
  let imm := u32 (imm .| (((encoded >> 6) .& 0x1) << 7)) in
  let imm := u32 (imm .| (((encoded >> 3) .& 0x7) << 1)) in
  let imm := u32 (imm .| (((encoded >> 2) .& 0x1) << 5)) in
  SignExtend 11 imm.

Definition IsCBImm (imm : Z) : bool :=
  IsInt true kBitsPerWord 8 imm && IsAligned imm 2.
Definition EncodeCBImm (imm : Z) : Z :=
  let encoded := 0 in
  let encoded := u32 (encoded .| (((imm >> 8) .& 0x1) << 12)) in
  let encoded := u32 (encoded .| (((imm >> 3) .& 0x3) << 10)) in
  let encoded := u32 (encoded .| (((imm >> 6) .& 0x3) << 5)) in
  let encoded := u32 (encoded .| (((imm >> 1) .& 0x3) << 3)) in
  let encoded := u32 (encoded .| (((imm >> 5) .& 0x1) << 2)) in
  encoded.
Definition DecodeCBImm (encoded : Z) : Z :=
  let imm := 0 in
  let imm := u32 (imm .| (((encoded >> 12) .& 0x1) << 8)) in
  let imm := u32 (imm .| (((encoded >> 10) .& 0x3) << 3)) in
  let imm := u32 (imm .| (((encoded >> 5) .& 0x3) << 6)) in
  let imm := u32 (imm .| (((encoded >> 3) .& 0x3) << 1)) in
  let imm := u32 (imm .| (((encoded >> 2) .& 0x1) << 5)) in
  SignExtend 8 imm.

Definition IsCIImm (imm : Z) : bool :=
  IsInt true kBitsPerWord 6 imm && IsAligned imm 1.
Definition EncodeCIImm (imm : Z) : Z :=
  let encoded := 0 in
  let encoded := u32 (encoded .| (((imm >> 5) .& 0x1) << 12)) in
  let encoded := u32 (encoded .| (((imm >> 0) .& 0x1F) << 2)) in
  encoded.
Definition DecodeCIImm (encoded : Z) : Z :=
  let imm := 0 in
  let imm := u32 (imm .| (((encoded >> 12) .& 0x1) << 5)) in
  let imm := u32 (imm .| (((encoded >> 2) .& 0x1F) << 0)) in
  SignExtend 6 imm.

Definition IsCUImm (imm : Z) : bool :=
  IsInt true kBitsPerWord 17 imm && IsAligned imm (1 << 12).
Definition EncodeCUImm (imm : Z) : Z :=
  let encoded := 0 in
  let encoded := u32 (encoded .| (((imm >> 17) .& 0x1) << 12)) in
  let encoded := u32 (encoded .| (((imm >> 12) .& 0x1F) << 2)) in
  encoded.
Definition DecodeCUImm (encoded : Z) : Z :=
  let imm := 0 in
  let imm := u32 (imm .| (((encoded >> 12) .& 0x1) << 17)) in
  let imm := u32 (imm .| (((encoded >> 2) .& 0x1F) << 12)) in
  SignExtend 17 imm.

Definition IsCI16Imm (imm : Z) : bool :=
  IsInt true kBitsPerWord 10 imm && IsAligned imm 16.
Definition EncodeCI16Imm (imm : Z) : Z :=
  let encoded := 0 in
  let encoded := u32 (encoded .| (((imm >> 9) .& 0x1) << 12)) in
  let encoded := u32 (encoded .| (((imm >> 4) .& 0x1) << 6)) in
  let encoded := u32 (encoded .| (((imm >> 6) .& 0x1) << 5)) in
  let encoded := u32 (encoded .| (((imm >> 7) .& 0x3) << 3)) in
  let encoded := u32 (encoded .| (((imm >> 5) .& 0x1) << 2)) in
  encoded.
Definition DecodeCI16Imm (encoded : Z) : Z :=
  let imm := 0 in
  let imm := u32 (imm .| (((encoded >> 12) .& 0x1) << 9)) in
  let imm := u32 (imm .| (((encoded >> 6) .& 0x1) << 4)) in
  let imm := u32 (imm .| (((encoded >> 5) .& 0x1) << 6)) in
  let imm := u32 (imm .| (((encoded >> 3) .& 0x3) << 7)) in
  let imm := u32 (imm .| (((encoded >> 2) .& 0x1) << 5)) in
  SignExtend 10 imm.

Definition IsCI4SPNImm (imm : Z) : bool :=
  IsUint true kBitsPerWord 9 imm && IsAligned imm 4.
Definition EncodeCI4SPNImm (imm : Z) : Z :=
  let encoded := 0 in
  let encoded := u32 (encoded .| (((imm >> 4) .& 0x3) << 11)) in
  let encoded := u32 (encoded .| (((imm >> 6) .& 0xF) << 7)) in
  let encoded := u32 (encoded .| (((imm >> 2) .& 0x1) << 6)) in
  let encoded := u32 (encoded .| (((imm >> 3) .& 0x1) << 5)) in
  encoded.
Definition DecodeCI4SPNImm (encoded : Z) : Z :=
  let imm := 0 in
  let imm := u32 (imm .| (((encoded >> 11) .& 0x3) << 4)) in
  let imm := u32 (imm .| (((encoded >> 7) .& 0xF) << 6)) in
  let imm := u32 (imm .| (((encoded >> 6) .& 0x1) << 2)) in
  let imm := u32 (imm .| (((encoded >> 5) .& 0x1) << 3)) in
  imm.


Definition IsCInstruction (parcel : Z) : bool := negb (parcel .& 3 =? 3).

(** ** Class [Instr]: a 32-bit instruction, by its encoding *)
Module Instr.
Definition length : Z := 4.
Definition opcode (e : Z) : Z := DecodeOpcode e.
Definition rd (e : Z) : Z := DecodeRd e.
Definition rs1 (e : Z) : Z := DecodeRs1 e.
Definition rs2 (e : Z) : Z := DecodeRs2 e.
Definition frd (e : Z) : Z := DecodeFRd e.
Definition frs1 (e : Z) : Z := DecodeFRs1 e.
Definition frs2 (e : Z) : Z := DecodeFRs2 e.
Definition frs3 (e : Z) : Z := DecodeFRs3 e.
Definition funct2 (e : Z) : Z := DecodeFunct2 e.
Definition funct3 (e : Z) : Z := DecodeFunct3 e.
Definition funct5 (e : Z) : Z := DecodeFunct5 e.
Definition funct7 (e : Z) : Z := DecodeFunct7 e.
Definition funct12 (e : Z) : Z := DecodeFunct12 e.
Definition shamt `{Target} (e : Z) : Z := DecodeShamt e.
Definition rounding (e : Z) : Z := DecodeRoundingMode e.
Definition itype_imm (e : Z) : Z := DecodeITypeImm e.
Definition stype_imm (e : Z) : Z := DecodeSTypeImm e.
Definition btype_imm (e : Z) : Z := DecodeBTypeImm e.
Definition utype_imm (e : Z) : Z := DecodeUTypeImm e.
Definition jtype_imm (e : Z) : Z := DecodeJTypeImm e.
Definition csr (e : Z) : Z := e >> 20.
Definition zimm (e : Z) : Z := rs1 e.
End Instr.

(** ** Class [CInstr]: a 16-bit instruction, by its encoding *)
Module CInstr.
Definition length : Z := 2.
Definition opcode (e : Z) : Z := e .& COpcode.C_OP_MASK.
Definition rd (e : Z) : Z := DecodeCRd e.
Definition rs1 (e : Z) : Z := DecodeCRd e.
Definition rs2 (e : Z) : Z := DecodeCRs2 e.
Definition rdp (e : Z) : Z := DecodeCRdp e.
Definition rs1p (e : Z) : Z := DecodeCRs1p e.
Definition rs2p (e : Z) : Z := DecodeCRs2p e.
Definition frd (e : Z) : Z := DecodeCFRd e.
Definition frs1 (e : Z) : Z := DecodeCFRd e.
Definition frs2 (e : Z) : Z := DecodeCFRs2 e.
Definition frdp (e : Z) : Z := DecodeCFRdp e.
Definition frs1p (e : Z) : Z := DecodeCFRs1p e.
Definition frs2p (e : Z) : Z := DecodeCFRs2p e.
Definition spload4_imm (e : Z) : Z := DecodeCSPLoad4Imm e.
Definition spload8_imm (e : Z) : Z := DecodeCSPLoad8Imm e.
Definition spstore4_imm (e : Z) : Z := DecodeCSPStore4Imm e.
Definition spstore8_imm (e : Z) : Z := DecodeCSPStore8Imm e.
Definition mem4_imm (e : Z) : Z := DecodeCMem4Imm e.
Definition mem8_imm (e : Z) : Z := DecodeCMem8Imm e.
Definition j_imm (e : Z) : Z := DecodeCJImm e.
Definition b_imm (e : Z) : Z := DecodeCBImm e.
Definition i_imm (e : Z) : Z := DecodeCIImm e.
Definition u_imm (e : Z) : Z := DecodeCUImm e.
Definition i16_imm (e : Z) : Z := DecodeCI16Imm e.
Definition i4spn_imm (e : Z) : Z := DecodeCI4SPNImm e.
End CInstr.

(** ** Decoding inverts encoding *)

Lemma SignExtend_wraps N v : 1 <= N <= 32 -> SignExtend N v = wraps N v.
Proof.
  intros HN. apply Z.bits_inj'. intros i Hi. unfold SignExtend, u32.
  rewrite Z.shiftr_spec, testbit_wraps, testbit_wrapu, Z.shiftl_spec,
    testbit_wrapu, testbit_wraps by lia.
  repeat match goal with |- context [?a <? ?b] => destruct (Z.ltb_spec a b); [|lia] end.
  simpl. f_equal. lia.
Qed.

(** What the [Is..Imm] predicates say: the range and the alignment. *)
Lemma is_imm_s N k imm :
  1 <= N -> 0 <= k -> is_s 64 imm ->
  IsInt true kBitsPerWord N imm && IsAligned imm (2 ^ k) = true ->
  is_s N imm /\ imm mod 2 ^ k = 0.
Proof.
  intros ??? [H1 H2]%andb_true_iff. split.
  - by apply (IsInt_signed_spec 64 N).
  - by apply IsAligned_spec.
Qed.

Lemma is_imm_u N k imm :
  1 <= N -> 0 <= k -> is_s 64 imm ->
  IsUint true kBitsPerWord N imm && IsAligned imm (2 ^ k) = true ->
  is_u N imm /\ imm mod 2 ^ k = 0.
Proof.
  intros ??? [H1 H2]%andb_true_iff. split.
  - by apply (IsUint_signed_spec 64 N).
  - by apply IsAligned_spec.
Qed.

Ltac low_bits :=
  match goal with
  | H : ?x mod 2 ^ ?k = 0 |- context [Z.testbit ?x ?i] =>
      rewrite (aligned_low_bit x k i) by (lia || exact H)
  end.

(** [imm_s N k]: a decoder that ends in [SignExtend N], on immediates that are
    multiples of [2^k]; [imm_u N k]: one that does not sign extend. *)
Ltac imm_bits := enum_range; bit_norm; repeat low_bits; reflexivity.

Ltac imm_s N k :=
  intros Hw [Hr Ha]%(is_imm_s N k); [|lia..|exact Hw];
  apply (s_bits N); [lia| |exact Hr|];
  cbv beta zeta delta [u32];
  [ rewrite SignExtend_wraps by lia; apply wraps_range; lia
  | rewrite SignExtend_wraps by lia; imm_bits ].

Ltac imm_u N k :=
  intros Hw [Hr Ha]%(is_imm_u N k); [|lia..|exact Hw];
  apply (u_bits 32);
  [ lia | apply wrapu_range; lia
  | destruct Hr; split; [lia|]; eapply Z.lt_le_trans; [eassumption|by apply pow2_le]
  | cbv beta zeta delta [u32]; imm_bits ].

Lemma BTypeImm_roundtrip imm :
  is_s 64 imm -> IsBTypeImm imm = true -> DecodeBTypeImm (EncodeBTypeImm imm) = imm.
Proof. unfold DecodeBTypeImm, EncodeBTypeImm. imm_s 12 1. Qed.

Lemma JTypeImm_roundtrip imm :
  is_s 64 imm -> IsJTypeImm imm = true -> DecodeJTypeImm (EncodeJTypeImm imm) = imm.
Proof. unfold DecodeJTypeImm, EncodeJTypeImm. imm_s 20 1. Qed.

Lemma UTypeImm_roundtrip imm :
  is_s 64 imm -> IsUTypeImm imm = true -> DecodeUTypeImm (EncodeUTypeImm imm) = imm.
Proof. unfold DecodeUTypeImm, EncodeUTypeImm. imm_s 32 12. Qed.

Lemma ITypeImm_roundtrip imm :
  is_s 64 imm -> IsITypeImm imm = true -> DecodeITypeImm (EncodeITypeImm imm) = imm.
Proof.
  intros Hw Hr%(IsInt_signed_spec 64 12); [|lia..|exact Hw].
  unfold DecodeITypeImm, EncodeITypeImm, u32. rewrite SignExtend_wraps by lia.
  apply (s_bits 12); [lia|apply wraps_range; lia|done|]. imm_bits.
Qed.

Lemma STypeImm_roundtrip imm :
  is_s 64 imm -> IsSTypeImm imm = true -> DecodeSTypeImm (EncodeSTypeImm imm) = imm.
Proof.
  intros Hw Hr%(IsInt_signed_spec 64 12); [|lia..|exact Hw].
  unfold DecodeSTypeImm, EncodeSTypeImm, u32. cbv zeta. rewrite SignExtend_wraps by lia.
  apply (s_bits 12); [lia|apply wraps_range; lia|done|]. imm_bits.
Qed.

Lemma CSPLoad4Imm_roundtrip imm :
  is_s 64 imm -> IsCSPLoad4Imm imm = true -> DecodeCSPLoad4Imm (EncodeCSPLoad4Imm imm) = imm.
Proof. unfold DecodeCSPLoad4Imm, EncodeCSPLoad4Imm. imm_u 8 2. Qed.

Lemma CSPLoad8Imm_roundtrip imm :
  is_s 64 imm -> IsCSPLoad8Imm imm = true -> DecodeCSPLoad8Imm (EncodeCSPLoad8Imm imm) = imm.
Proof. unfold DecodeCSPLoad8Imm, EncodeCSPLoad8Imm. imm_u 9 3. Qed.

Lemma CSPStore4Imm_roundtrip imm :
  is_s 64 imm -> IsCSPStore4Imm imm = true -> DecodeCSPStore4Imm (EncodeCSPStore4Imm imm) = imm.
Proof. unfold DecodeCSPStore4Imm, EncodeCSPStore4Imm. imm_u 8 2. Qed.

Lemma CSPStore8Imm_roundtrip imm :
  is_s 64 imm -> IsCSPStore8Imm imm = true -> DecodeCSPStore8Imm (EncodeCSPStore8Imm imm) = imm.
Proof. unfold DecodeCSPStore8Imm, EncodeCSPStore8Imm. imm_u 9 3. Qed.

Lemma CMem4Imm_roundtrip imm :
  is_s 64 imm -> IsCMem4Imm imm = true -> DecodeCMem4Imm (EncodeCMem4Imm imm) = imm.
Proof. unfold DecodeCMem4Imm, EncodeCMem4Imm. imm_u 7 2. Qed.

Lemma CMem8Imm_roundtrip imm :
  is_s 64 imm -> IsCMem8Imm imm = true -> DecodeCMem8Imm (EncodeCMem8Imm imm) = imm.
Proof. unfold DecodeCMem8Imm, EncodeCMem8Imm. imm_u 8 3. Qed.

Lemma CJImm_roundtrip imm :
  is_s 64 imm -> IsCJImm imm = true -> DecodeCJImm (EncodeCJImm imm) = imm.
Proof. unfold DecodeCJImm, EncodeCJImm. imm_s 11 1. Qed.

Lemma CBImm_roundtrip imm :
  is_s 64 imm -> IsCBImm imm = true -> DecodeCBImm (EncodeCBImm imm) = imm.
Proof. unfold DecodeCBImm, EncodeCBImm. imm_s 8 1. Qed.

Lemma CIImm_roundtrip imm :
  is_s 64 imm -> IsCIImm imm = true -> DecodeCIImm (EncodeCIImm imm) = imm.
Proof. unfold DecodeCIImm, EncodeCIImm. imm_s 6 0. Qed.

Lemma CUImm_roundtrip imm :
  is_s 64 imm -> IsCUImm imm = true -> DecodeCUImm (EncodeCUImm imm) = imm.
Proof. unfold DecodeCUImm, EncodeCUImm. imm_s 17 12. Qed.

Lemma CI16Imm_roundtrip imm :
  is_s 64 imm -> IsCI16Imm imm = true -> DecodeCI16Imm (EncodeCI16Imm imm) = imm.
Proof. unfold DecodeCI16Imm, EncodeCI16Imm. imm_s 10 4. Qed.

Lemma CI4SPNImm_roundtrip imm :
  is_s 64 imm -> IsCI4SPNImm imm = true -> DecodeCI4SPNImm (EncodeCI4SPNImm imm) = imm.
Proof. unfold DecodeCI4SPNImm, EncodeCI4SPNImm. imm_u 9 2. Qed.
