(* ===== verification/RiscvEncodingProps.v ===== *)
(** What the encoding functions of [runtime/vm/constants_riscv.h] promise: decoding an
    encoded immediate gives it back, for every immediate the [Is..Imm] predicate
    accepts; splitting a constant in a high and a low part loses nothing. *)
From stdpp Require Import base numbers.
From Stdlib Require Import ZArith Lia.
From S2P Require Import Prelude Utils RiscvEncoding.
Local Open Scope Z_scope.
Local Open Scope cxx_scope.

(** The immediates of the 32-bit formats survive encoding and decoding. *)
Theorem wide_immediates_roundtrip imm :
  is_s 64 imm ->
  (IsITypeImm imm = true -> DecodeITypeImm (EncodeITypeImm imm) = imm) /\
  (IsSTypeImm imm = true -> DecodeSTypeImm (EncodeSTypeImm imm) = imm) /\
  (IsBTypeImm imm = true -> DecodeBTypeImm (EncodeBTypeImm imm) = imm) /\
  (IsUTypeImm imm = true -> DecodeUTypeImm (EncodeUTypeImm imm) = imm) /\
  (IsJTypeImm imm = true -> DecodeJTypeImm (EncodeJTypeImm imm) = imm).
Proof.
  auto 6 using ITypeImm_roundtrip, STypeImm_roundtrip, BTypeImm_roundtrip,
    UTypeImm_roundtrip, JTypeImm_roundtrip.
Qed.

Lemma wide_immediates_roundtrip_witness : DecodeBTypeImm (EncodeBTypeImm (-2048)) = -2048.
Proof.
  exact (proj1 (proj2 (proj2 (wide_immediates_roundtrip (-2048)
    ltac:(vm_compute; split; congruence)))) eq_refl).
Defined.

(** The immediates of the compressed formats survive encoding and decoding. *)
Theorem compressed_immediates_roundtrip imm :
  is_s 64 imm ->
  (IsCSPLoad4Imm imm = true -> DecodeCSPLoad4Imm (EncodeCSPLoad4Imm imm) = imm) /\
  (IsCSPLoad8Imm imm = true -> DecodeCSPLoad8Imm (EncodeCSPLoad8Imm imm) = imm) /\
  (IsCSPStore4Imm imm = true -> DecodeCSPStore4Imm (EncodeCSPStore4Imm imm) = imm) /\
  (IsCSPStore8Imm imm = true -> DecodeCSPStore8Imm (EncodeCSPStore8Imm imm) = imm) /\
  (IsCMem4Imm imm = true -> DecodeCMem4Imm (EncodeCMem4Imm imm) = imm) /\
  (IsCMem8Imm imm = true -> DecodeCMem8Imm (EncodeCMem8Imm imm) = imm) /\
  (IsCJImm imm = true -> DecodeCJImm (EncodeCJImm imm) = imm) /\
  (IsCBImm imm = true -> DecodeCBImm (EncodeCBImm imm) = imm) /\
  (IsCIImm imm = true -> DecodeCIImm (EncodeCIImm imm) = imm) /\
  (IsCUImm imm = true -> DecodeCUImm (EncodeCUImm imm) = imm) /\
  (IsCI16Imm imm = true -> DecodeCI16Imm (EncodeCI16Imm imm) = imm) /\
  (IsCI4SPNImm imm = true -> DecodeCI4SPNImm (EncodeCI4SPNImm imm) = imm).
Proof.
  intros Hi. split_and!; intros.
  - by apply CSPLoad4Imm_roundtrip.
  - by apply CSPLoad8Imm_roundtrip.
  - by apply CSPStore4Imm_roundtrip.
  - by apply CSPStore8Imm_roundtrip.
  - by apply CMem4Imm_roundtrip.
  - by apply CMem8Imm_roundtrip.
  - by apply CJImm_roundtrip.
  - by apply CBImm_roundtrip.
  - by apply CIImm_roundtrip.
  - by apply CUImm_roundtrip.
  - by apply CI16Imm_roundtrip.
  - by apply CI4SPNImm_roundtrip.
Qed.

Lemma compressed_immediates_roundtrip_witness :
  DecodeCSPLoad4Imm (EncodeCSPLoad4Imm 252) = 252.
Proof.
  exact (proj1 (compressed_immediates_roundtrip 252
    ltac:(vm_compute; split; congruence)) eq_refl).
Defined.

(** ** Splitting a constant *)

Section split.
Context `{Target}.

Lemma XLEN_32_64 : XLEN = 32 \/ XLEN = 64.
Proof. unfold XLEN; destruct target; auto. Qed.

Lemma ImmLo_wraps imm : ImmLo imm = wraps 12 imm.
Proof.
  unfold ImmLo. rewrite wraps_wrapu. apply Z.bits_inj'. intros i Hi.
  destruct XLEN_32_64 as [E|E]; rewrite E;
    rewrite Z.shiftr_spec, !testbit_wraps, Z.shiftl_spec, testbit_wrapu by lia;
    (rewrite (proj2 (Z.ltb_lt _ _)) by lia); cbn [andb]; f_equal; lia.
Qed.

Lemma ImmHi_wraps imm : ImmHi imm = wraps 32 (imm - wraps 12 imm).
Proof.
  unfold ImmHi. rewrite wrapu_sub_l, wrapu_sub_r, wraps_wrapu, ImmLo_wraps.
  apply Z.bits_inj'. intros i Hi.
  destruct XLEN_32_64 as [E|E]; rewrite E;
    rewrite Z.shiftr_spec, !testbit_wraps, Z.shiftl_spec, testbit_wraps by lia;
    f_equal; lia.
Qed.

Lemma wraps12_aligned imm : (imm - wraps 12 imm) mod 2 ^ 12 = 0.
Proof.
  fold (wrapu 12 (imm - wraps 12 imm)).
  rewrite <- wrapu_sub_r, wrapu_wraps, wrapu_sub_r, Z.sub_diag. done.
Qed.

Lemma ImmHi_ImmLo_exact imm :
  - 2 ^ 31 <= imm < 2 ^ 31 - 2 ^ 11 -> ImmHi imm + ImmLo imm = imm.
Proof.
  rewrite ImmHi_wraps, ImmLo_wraps. pose proof (wraps_range 12 imm ltac:(lia)) as Hlo.
  intros Hi. rewrite wraps_id; [lia|lia|].
  pose proof (wraps12_aligned imm) as Ha.
  apply Z.mod_divide in Ha as [q Hq]; [|done]. unfold is_s in *.
  change (2 ^ (12 - 1)) with 2048 in *. change (2 ^ 12) with 4096 in *.
  change (2 ^ 31) with 2147483648 in *. change (2 ^ (32 - 1)) with 2147483648.
  change (2 ^ 11) with 2048 in *. lia.
Qed.

(** A constant splits into a part for [lui] or [auipc] and a signed 12-bit part
    whose sum is the constant modulo [2^32], both within the range of their
    instruction; the sum is exact for every offset up to 2 KiB below [2^31]. *)
Theorem ImmHi_ImmLo imm :
  is_s 12 (ImmLo imm) /\ is_s 32 (ImmHi imm) /\ ImmHi imm mod 2 ^ 12 = 0 /\
  wraps 32 (ImmHi imm + ImmLo imm) = wraps 32 imm /\
  (- 2 ^ 31 <= imm < 2 ^ 31 - 2 ^ 11 -> ImmHi imm + ImmLo imm = imm).
Proof.
  rewrite ImmHi_wraps, ImmLo_wraps. pose proof (wraps_range 12 imm ltac:(lia)) as Hlo.
  assert (wraps 32 (imm - wraps 12 imm) mod 2 ^ 12 = 0) as Hmod.
  { fold (wrapu 12 (wraps 32 (imm - wraps 12 imm))). rewrite wrapu_wraps_le by lia.
    apply wraps12_aligned. }
  split_and!; [done|by apply wraps_range|done| |].
  - apply wraps_eq_wrapu. rewrite <- wrapu_add_l, wrapu_wraps, wrapu_add_l. f_equal. lia.
  - intros Hi. pose proof (ImmHi_ImmLo_exact imm Hi) as E.
    by rewrite ImmHi_wraps, ImmLo_wraps in E.
Qed.

End split.
