(* ===== verification/RiscvState.v ===== *)
(** The state of the RISC-V simulator and the operations every instruction uses:
    [runtime/vm/simulator_riscv.h] (class [Simulator]: the register file, the
    reservation, the counters) and the memory, register-clobbering and CSR helpers
    of [runtime/vm/simulator_riscv.cc].

    The simulator runs generated code in the memory of its host process, so the
    model's memory is a finite map from addresses to bytes; touching an address
    outside the map is a fault of the host.  A [float] or [double] is its bit
    pattern.  [#if defined(DEBUG)] is the class argument [Debug]. *)
From stdpp Require Import base numbers list gmap.
From Stdlib Require Import ZArith Lia.
From S2P Require Import Prelude Utils Random RiscvEncoding.
Local Open Scope Z_scope.
Local Open Scope cxx_scope.

Class Debug := DEBUG : bool.

(** Why the simulator ends the process. *)
Inductive sim_error :=
| IllegalInstruction (encoding : Z)
| EncounteredEBREAK
| MisalignedAtomic
| OutOfBoundsStack
| BadMemoryAccess
| StackMisaligned
| UnknownCSR (csr : Z)
| UNIMPLEMENTED
| UNREACHABLE
| InvalidRoundingMode
| StackUnbalanced
| NotPreserved (reg : Z)
| FNotPreserved (reg : Z)
| SegmentationFault (addr : Z).

Abbreviation result := (outcome sim_error).

(** Calls out of simulated code go through a redirection: an [ecall] instruction
    embedded in an object that names the host function ([class Redirection]).
    [ecall_address] is the address of that instruction. *)
Inductive CallKind :=
| kRuntimeCall | kLeafRuntimeCall | kLeafFloatRuntimeCall | kNativeCallWrapper.

Record Redirection := mkRedirection {
  external_function_ : Z;
  call_kind_ : CallKind;
  argument_count_ : Z;
  ecall_address : Z;
}.

(** [redirections] is the static list [Redirection::list_], newest first. *)
Record Simulator := mkSimulator {
  pc_ : Z;
  xregs_ : list Z;
  instret_ : Z;
  reserved_address_ : Z;
  reserved_value_ : Z;
  fregs_ : list Z;
  fcsr_ : Z;
  stack_base_ : Z;
  random_ : Z;
  memory : gmap Z Z;
  redirections : list Redirection;
}.

Definition with_pc (s : Simulator) (v : Z) : Simulator :=
  {| pc_ := v; xregs_ := xregs_ s; instret_ := instret_ s;
     reserved_address_ := reserved_address_ s; reserved_value_ := reserved_value_ s;
     fregs_ := fregs_ s; fcsr_ := fcsr_ s; stack_base_ := stack_base_ s;
     random_ := random_ s; memory := memory s;
     redirections := redirections s |}.

Definition with_xregs (s : Simulator) (v : list Z) : Simulator :=
  {| pc_ := pc_ s; xregs_ := v; instret_ := instret_ s;
     reserved_address_ := reserved_address_ s; reserved_value_ := reserved_value_ s;
     fregs_ := fregs_ s; fcsr_ := fcsr_ s; stack_base_ := stack_base_ s;
     random_ := random_ s; memory := memory s;
     redirections := redirections s |}.

Definition with_instret (s : Simulator) (v : Z) : Simulator :=
  {| pc_ := pc_ s; xregs_ := xregs_ s; instret_ := v;
     reserved_address_ := reserved_address_ s; reserved_value_ := reserved_value_ s;
     fregs_ := fregs_ s; fcsr_ := fcsr_ s; stack_base_ := stack_base_ s;
     random_ := random_ s; memory := memory s;
     redirections := redirections s |}.

Definition with_reservation (s : Simulator) (a v : Z) : Simulator :=
  {| pc_ := pc_ s; xregs_ := xregs_ s; instret_ := instret_ s;
     reserved_address_ := a; reserved_value_ := v;
     fregs_ := fregs_ s; fcsr_ := fcsr_ s; stack_base_ := stack_base_ s;
     random_ := random_ s; memory := memory s;
     redirections := redirections s |}.

Definition with_fregs (s : Simulator) (v : list Z) : Simulator :=
  {| pc_ := pc_ s; xregs_ := xregs_ s; instret_ := instret_ s;
     reserved_address_ := reserved_address_ s; reserved_value_ := reserved_value_ s;
     fregs_ := v; fcsr_ := fcsr_ s; stack_base_ := stack_base_ s;
     random_ := random_ s; memory := memory s;
     redirections := redirections s |}.

Definition with_random (s : Simulator) (v : Z) : Simulator :=
  {| pc_ := pc_ s; xregs_ := xregs_ s; instret_ := instret_ s;
     reserved_address_ := reserved_address_ s; reserved_value_ := reserved_value_ s;
     fregs_ := fregs_ s; fcsr_ := fcsr_ s; stack_base_ := stack_base_ s;
     random_ := v; memory := memory s;
     redirections := redirections s |}.

Definition with_memory (s : Simulator) (v : gmap Z Z) : Simulator :=
  {| pc_ := pc_ s; xregs_ := xregs_ s; instret_ := instret_ s;
     reserved_address_ := reserved_address_ s; reserved_value_ := reserved_value_ s;
     fregs_ := fregs_ s; fcsr_ := fcsr_ s; stack_base_ := stack_base_ s;
     random_ := random_ s; memory := v;
     redirections := redirections s |}.

Definition with_redirections (s : Simulator) (v : list Redirection) : Simulator :=
  {| pc_ := pc_ s; xregs_ := xregs_ s; instret_ := instret_ s;
     reserved_address_ := reserved_address_ s; reserved_value_ := reserved_value_ s;
     fregs_ := fregs_ s; fcsr_ := fcsr_ s; stack_base_ := stack_base_ s;
     random_ := random_ s; memory := memory s; redirections := v |}.

Section state.
Context `{Target} `{Debug}.

(** [uintx_t] and [intx_t] conversions. *)
Definition ux (z : Z) : Z := wrapu XLEN z.
Definition sx (z : Z) : Z := wraps XLEN z.

Definition kMinIntX : Z := - 2 ^ (XLEN - 1).
Definition kMaxUIntX : Z := 2 ^ XLEN - 1.

(** [uword] constants -1 and -2. *)
Definition kBadLR : Z := ux (-1).
Definition kEndSimulatingPC : Z := ux (-2).

(** ** Registers *)

Definition get_xreg (s : Simulator) (rs : Z) : Z := xregs_ s !!! Z.to_nat rs.

(** The parameter of [set_xreg] has type [uintx_t]. *)
Definition set_xreg (s : Simulator) (rd value : Z) : Simulator :=
  if negb (rd =? Reg.ZR) then with_xregs s (<[Z.to_nat rd := ux value]> (xregs_ s))
  else s.

(** [pc_ += offset]. *)
Definition add_pc (s : Simulator) (offset : Z) : Simulator :=
  with_pc s (ux (pc_ s + offset)).

Definition kNaNBox : Z := 0xFFFFFFFF00000000.

Definition get_fregd (s : Simulator) (rs : Z) : Z := fregs_ s !!! Z.to_nat rs.
Definition set_fregd (s : Simulator) (rd value : Z) : Simulator :=
  with_fregs s (<[Z.to_nat rd := wrapu 64 value]> (fregs_ s)).

Definition get_fregs (s : Simulator) (rs : Z) : Z :=
  let bits64 := get_fregd s rs in
  if negb (bits64 .& kNaNBox =? kNaNBox) then 0x7fc00000
  else wrapu 32 bits64.

Definition set_fregs (s : Simulator) (rd value : Z) : Simulator :=
  let bits32 := wrapu 32 value in
  set_fregd s rd (bits32 .| kNaNBox).

(** ** Memory *)

(** The C++ types the [MemoryRead] and [MemoryWrite] templates are used at. *)
Inductive ctype :=
| int8_t | uint8_t | int16_t | uint16_t | int32_t | uint32_t | int64_t | uint64_t
| float_t | double_t.

Definition sizeof (t : ctype) : Z :=
  match t with
  | int8_t | uint8_t => 1
  | int16_t | uint16_t => 2
  | int32_t | uint32_t | float_t => 4
  | int64_t | uint64_t | double_t => 8
  end.

(** The value of type [t] whose object representation is the unsigned number. *)
Definition of_repr (t : ctype) (v : Z) : Z :=
  match t with
  | int8_t | int16_t | int32_t | int64_t => wraps (8 * sizeof t) v
  | _ => v
  end.

(** Conversion of an integer to the type [t]. *)
Definition convert (t : ctype) (v : Z) : Z := of_repr t (wrapu (8 * sizeof t) v).

Fixpoint load_bytes (m : gmap Z Z) (addr : Z) (n : nat) : result (list Z) :=
  match n with
  | O => Ok []
  | S n =>
      match m !! addr with
      | Some b => bs ← load_bytes m (addr + 1) n; Ok (b :: bs)
      | None => Fatal (SegmentationFault addr)
      end
  end.

Fixpoint store_bytes (m : gmap Z Z) (addr : Z) (bs : list Z) : result (gmap Z Z) :=
  match bs with
  | [] => Ok m
  | b :: bs =>
      match m !! addr with
      | Some _ => store_bytes (<[addr := b]> m) (addr + 1) bs
      | None => Fatal (SegmentationFault addr)
      end
  end.

(** [LoadUnaligned] and [StoreUnaligned] ([platform/unaligned.h]) on a
    little-endian host. *)
Definition LoadUnaligned (t : ctype) (m : gmap Z Z) (addr : Z) : result Z :=
  bs ← load_bytes m addr (Z.to_nat (sizeof t));
  Ok (of_repr t (u_of_bytes bs)).

Definition StoreUnaligned (t : ctype) (m : gmap Z Z) (addr value : Z)
    : result (gmap Z Z) :=
  store_bytes m addr (bytes_of_u (Z.to_nat (sizeof t)) value).

(** The sanity checks of debug builds, shared by [MemoryRead] and [MemoryWrite]. *)
Definition CheckAccess (s : Simulator) (t : ctype) (addr base : Z) : result unit :=
  if DEBUG then
    if (base =? Reg.SP) || (base =? Reg.FP) then
      if (stack_base_ s <? ux (addr + sizeof t)) || (addr <? get_xreg s Reg.SP)
      then Fatal OutOfBoundsStack else Ok ()
    else
      let kPageSize := 16 * 1024 in
      if (addr <? kPageSize) || (ux (Z.lnot kPageSize) <=? ux (addr + sizeof t))
      then Fatal BadMemoryAccess else Ok ()
  else Ok ().

Definition MemoryRead (t : ctype) (s : Simulator) (addr base : Z) : result Z :=
  CheckAccess s t addr base ≫= fun _ => LoadUnaligned t (memory s) addr.

Definition MemoryWrite (t : ctype) (s : Simulator) (addr value base : Z)
    : result Simulator :=
  _ ← CheckAccess s t addr base;
  m ← StoreUnaligned t (memory s) addr (convert t value);
  Ok (with_memory s m).

(** ** Calls between host and simulated code *)

Definition R (reg : Z) : Z := wrapu 32 (1 << reg).

Definition kAbiArgumentCpuRegs : Z :=
  R Reg.A0 .| R Reg.A1 .| R Reg.A2 .| R Reg.A3 .| R Reg.A4 .| R Reg.A5 .| R Reg.A6
  .| R Reg.A7.
Definition kAbiVolatileCpuRegs : Z :=
  kAbiArgumentCpuRegs .| R Reg.T0 .| R Reg.T1 .| R Reg.T2 .| R Reg.T3 .| R Reg.T4
  .| R Reg.T5 .| R Reg.T6 .| R Reg.RA.
Definition kAbiArgumentFpuRegs : Z :=
  R FReg.FA0 .| R FReg.FA1 .| R FReg.FA2 .| R FReg.FA3 .| R FReg.FA4 .| R FReg.FA5
  .| R FReg.FA6 .| R FReg.FA7.
Definition kAbiVolatileFpuRegs : Z :=
  kAbiArgumentFpuRegs .| R FReg.FT0 .| R FReg.FT1 .| R FReg.FT2 .| R FReg.FT3
  .| R FReg.FT4 .| R FReg.FT5 .| R FReg.FT6 .| R FReg.FT7 .| R FReg.FT8
  .| R FReg.FT9 .| R FReg.FT10 .| R FReg.FT11.
Definition kAbiPreservedCpuRegs : Z :=
  R Reg.S1 .| R Reg.S2 .| R Reg.S3 .| R Reg.S4 .| R Reg.S5 .| R Reg.S6 .| R Reg.S7
  .| R Reg.S8 .| R Reg.S9 .| R Reg.S10 .| R Reg.S11.

(** [Redirection::Get]: one redirection per host function; a new one, allocated at
    [fresh], goes to the front of the list. *)
Definition Redirection_Get (l : list Redirection) (external_function : Z)
    (call_kind : CallKind) (argument_count fresh : Z) : list Redirection * Redirection :=
  match find (fun r => external_function_ r =? external_function) l with
  | Some r => (l, r)
  | None =>
      let r := mkRedirection external_function call_kind argument_count fresh in
      (r :: l, r)
  end.

Definition RedirectExternalReference (s : Simulator) (function : Z)
    (call_kind : CallKind) (argument_count fresh : Z) : Simulator * Z :=
  let '(l, r) :=
    Redirection_Get (redirections s) function call_kind argument_count fresh in
  (with_redirections s l, ecall_address r).

Definition FromECallInstruction (l : list Redirection) (ecall_instruction : Z)
    : option Redirection :=
  find (fun r => ecall_address r =? ecall_instruction) l.

Definition FunctionForRedirect (l : list Redirection) (address_of_ecall : Z) : Z :=
  match find (fun r => ecall_address r =? address_of_ecall) l with
  | Some r => external_function_ r
  | None => 0
  end.

(** [Simulator::Simulator()]: [seed] is the state of the default [Random],
    [stack_base] the high address of the stack it allocates and [m] the memory of
    the host process. *)
Definition Simulator_new (seed stack_base : Z) (m : gmap Z Z) (l : list Redirection)
    : Simulator :=
  let fill (i : Z) (p : list Z * Z) :=
    let '(v, r) := Random.NextUInt64 (snd p) in (<[Z.to_nat i := ux v]> (fst p), r) in
  let '(xregs, random) := for_loop 31 1 1 fill (replicate 32 0, seed) in
  let s := {| pc_ := 0; xregs_ := xregs; instret_ := 0; reserved_address_ := 0;
              reserved_value_ := 0; fregs_ := replicate 32 kNaNBox; fcsr_ := 0;
              stack_base_ := stack_base; random_ := random; memory := m;
              redirections := l |} in
  let s := set_xreg s Reg.SP stack_base in
  let s := set_xreg s Reg.RA kBadLR in
  with_pc s kBadLR.

(** One iteration of the loops that overwrite the volatile registers. *)
Definition clobber_xreg (i : Z) (s : Simulator) : Simulator :=
  if negb (kAbiVolatileCpuRegs .& (1 << i) =? 0) then
    let '(v, r) := Random.NextUInt64 (random_ s) in
    with_random (with_xregs s (<[Z.to_nat i := ux v]> (xregs_ s))) r
  else s.

Definition clobber_freg (i : Z) (s : Simulator) : Simulator :=
  if negb (kAbiVolatileFpuRegs .& (1 << i) =? 0) then
    with_fregs s (<[Z.to_nat i := kNaNBox]> (fregs_ s))
  else s.

Definition ClobberVolatileRegisters (s : Simulator) : Simulator :=
  if DEBUG then
    let s := with_reservation s 0 0 in
    let s := for_loop 32 0 1 clobber_xreg s in
    for_loop 32 0 1 clobber_freg s
  else s.

(** What [PreservedRegisters] holds: a copy of both register files. *)
Record PreservedRegisters := mkPreserved { pxregs : list Z; pfregs : list Z }.

(** In release builds the structure stays uninitialised and is never read. *)
Definition SavePreservedRegisters (s : Simulator) : PreservedRegisters :=
  if DEBUG then mkPreserved (xregs_ s) (fregs_ s) else mkPreserved [] [].

(** [PrepareCall] saves the registers and overwrites the volatile ones. *)
Definition PrepareCall (s : Simulator) : PreservedRegisters * Simulator :=
  if DEBUG then
    (mkPreserved (xregs_ s) (fregs_ s),
     for_loop 32 0 1 clobber_freg (for_loop 32 0 1 clobber_xreg s))
  else (mkPreserved [] [], s).

Definition kPreservedAtCall : Z :=
  kAbiPreservedCpuRegs .| (1 << Reg.TP) .| (1 << Reg.GP) .| (1 << Reg.SP)
  .| (1 << Reg.FP).

Definition CheckPreservedRegisters (s : Simulator) (preserved : PreservedRegisters)
    : result unit :=
  if DEBUG then
    if negb (pxregs preserved !!! Z.to_nat Reg.SP =? get_xreg s Reg.SP)
    then Fatal StackUnbalanced
    else
      let check_x (i : Z) (r : result unit) :=
        r ≫= fun _ =>
        if negb (kPreservedAtCall .& (1 << i) =? 0)
           && negb (pxregs preserved !!! Z.to_nat i =? get_xreg s i)
        then Fatal (NotPreserved i) else Ok () in
      let check_f (i : Z) (r : result unit) :=
        r ≫= fun _ =>
        if (kAbiVolatileFpuRegs .& (1 << i) =? 0)
           && negb (pfregs preserved !!! Z.to_nat i =? get_fregd s i)
        then Fatal (FNotPreserved i) else Ok () in
      for_loop 32 0 1 check_f (for_loop 32 0 1 check_x (Ok ()))
  else Ok ().

(** ** Control and status registers *)

Definition csr_fcsr : Z := 0x003.
Definition csr_cycle : Z := 0xC00.
Definition csr_time : Z := 0xC01.
Definition csr_instret : Z := 0xC02.
Definition csr_cycleh : Z := 0xC80.
Definition csr_timeh : Z := 0xC81.
Definition csr_instreth : Z := 0xC82.

Definition is32 : bool := match target with RV32 => true | RV64 => false end.
Definition is64 : bool := match target with RV32 => false | RV64 => true end.

Definition CSRRead (s : Simulator) (csr : Z) : result Z :=
  if csr =? csr_fcsr then Ok (sx (fcsr_ s))
  else if csr =? csr_cycle then Ok (sx (instret_ s / 2))
  else if csr =? csr_time then Ok 0
  else if csr =? csr_instret then Ok (sx (instret_ s))
  else if is32 && (csr =? csr_cycleh) then Ok (sx ((instret_ s / 2) >> 32))
  else if is32 && (csr =? csr_timeh) then Ok 0
  else if is32 && (csr =? csr_instreth) then Ok (sx (instret_ s >> 32))
  else Fatal (UnknownCSR csr).

Definition CSRWrite (s : Simulator) (csr value : Z) : result Simulator :=
  Fatal UNIMPLEMENTED.
Definition CSRSet (s : Simulator) (csr mask : Z) : result Simulator :=
  Fatal UNIMPLEMENTED.
Definition CSRClear (s : Simulator) (csr mask : Z) : result Simulator :=
  Fatal UNIMPLEMENTED.

End state.
