(* ===== verification/RiscvAlu.v ===== *)
(** The arithmetic helpers of the RISC-V simulator
    ([runtime/vm/simulator_riscv.cc], the [static] functions between the
    [Interpret..] members): bit counting, carry-less products, rotations, byte
    permutations, single-bit operations, high products, division.

    A function whose C++ body can shift a 32-bit value by 32 or more, or overflow
    a signed product, returns an [outcome]; the others are total.  Each group
    comes with its specification: the count, product or quotient the RISC-V manual
    asks for. *)
From stdpp Require Import base numbers list.
From Stdlib Require Import ZArith Lia.
From S2P Require Import Prelude Utils RiscvEncoding RiscvState.
Local Open Scope Z_scope.
Local Open Scope cxx_scope.

(** ** Bit counting

    [w] is [XLEN] in [clz], [ctz], [cpop] and 32 in the [w] variants. *)

(** Iterations [bit = n - 1, ..., 0]. *)
Fixpoint clz_loop (w a : Z) (n : nat) : Z :=
  match n with
  | O => w
  | S bit =>
      if negb (a .& wrapu w (1 << Z.of_nat bit) =? 0) then w - Z.of_nat bit - 1
      else clz_loop w a bit
  end.

(** [n] iterations from [bit]. *)
Fixpoint ctz_loop (w a bit : Z) (n : nat) : Z :=
  match n with
  | O => w
  | S n =>
      if negb (a .& wrapu w (1 << bit) =? 0) then bit
      else ctz_loop w a (bit + 1) n
  end.

Definition cpop_loop (w a : Z) (n : nat) : Z :=
  for_loop n 0 1
    (fun bit count =>
       if negb (a .& wrapu w (1 << bit) =? 0) then wrapu w (count + 1) else count) 0.

Section alu.
Context `{Target}.

Definition clz (a : Z) : Z := clz_loop XLEN a (Z.to_nat XLEN).
Definition ctz (a : Z) : Z := ctz_loop XLEN a 0 (Z.to_nat XLEN).
Definition cpop (a : Z) : Z := cpop_loop XLEN a (Z.to_nat XLEN).
Definition clzw (a : Z) : Z := clz_loop 32 a 32.
Definition ctzw (a : Z) : Z := ctz_loop 32 a 0 32.
Definition cpopw (a : Z) : Z := cpop_loop 32 a 32.

(** ** Minimum and maximum *)

Definition max (a b : Z) : Z := if b <? a then a else b.
Definition maxu (a b : Z) : Z := if b <? a then a else b.
Definition min (a b : Z) : Z := if a <? b then a else b.
Definition minu (a b : Z) : Z := if a <? b then a else b.

(** ** Carry-less multiplication *)

Definition clmul (a b : Z) : Z :=
  for_loop (Z.to_nat XLEN) 0 1
    (fun bit result =>
       if negb ((b >> bit) .& 1 =? 0) then result .^ ux (a << bit) else result) 0.

Definition clmulh (a b : Z) : Z :=
  for_loop (Z.to_nat (XLEN - 1)) 1 1
    (fun bit result =>
       if negb ((b >> bit) .& 1 =? 0) then result .^ (a >> (XLEN - bit)) else result) 0.

Definition clmulr (a b : Z) : Z :=
  for_loop (Z.to_nat XLEN) 0 1
    (fun bit result =>
       if negb ((b >> bit) .& 1 =? 0) then result .^ (a >> (XLEN - bit - 1))
       else result) 0.

(** ** Extensions, rotations, byte operations, single bits *)

Definition sextb (a : Z) : Z := ux (sx (ux (a << (XLEN - 8))) >> (XLEN - 8)).
Definition sexth (a : Z) : Z := ux (sx (ux (a << (XLEN - 16))) >> (XLEN - 16)).
Definition zexth (a : Z) : Z := ux (a << (XLEN - 16)) >> (XLEN - 16).

Definition ror (a b : Z) : Z :=
  let r := b .& (XLEN - 1) in
  let l := ux (XLEN - r) .& (XLEN - 1) in
  ux (a << l) .| (a >> r).

Definition rol (a b : Z) : Z :=
  let l := b .& (XLEN - 1) in
  let r := ux (XLEN - l) .& (XLEN - 1) in
  ux (a << l) .| (a >> r).

(** Shifts of [uint32_t] and [int32_t] operands: a count of 32 or more is
    undefined behaviour. *)
Definition shl32 (x n : Z) : result Z :=
  if n <? 32 then Ok (u32 (x << n)) else Undefined.
Definition shr32 (x n : Z) : result Z :=
  if n <? 32 then Ok (x >> n) else Undefined.

Definition rorw (a b : Z) : result Z :=
  let r := u32 (b .& (XLEN - 1)) in
  let l := u32 (XLEN - r) .& (XLEN - 1) in
  let x := u32 a in
  hi ← shl32 x l;
  lo ← shr32 x r;
  Ok (ux (sign_extend_u32 (hi .| lo))).

Definition rolw (a b : Z) : result Z :=
  let l := u32 (b .& (XLEN - 1)) in
  let r := u32 (XLEN - l) .& (XLEN - 1) in
  let x := u32 a in
  hi ← shl32 x l;
  lo ← shr32 x r;
  Ok (ux (sign_extend_u32 (hi .| lo))).

Definition orcb (a : Z) : Z :=
  for_loop (Z.to_nat (XLEN / 8)) 0 8
    (fun shift result =>
       if negb ((a >> shift) .& 0xFF =? 0) then result .| ux (0xFF << shift)
       else result) 0.

Definition rev8 (a : Z) : Z :=
  for_loop (Z.to_nat (XLEN / 8)) 0 8
    (fun shift result => ux (result << 8) .| ((a >> shift) .& 0xFF)) 0.

Definition bclr (a b : Z) : Z := a .& ux (Z.lnot (ux (1 << (b .& (XLEN - 1))))).
Definition bext (a b : Z) : Z := (a >> (b .& (XLEN - 1))) .& 1.
Definition binv (a b : Z) : Z := a .^ ux (1 << (b .& (XLEN - 1))).
Definition bset (a b : Z) : Z := a .| ux (1 << (b .& (XLEN - 1))).

(** ** Products *)

Definition kLoMask : Z := ux (ux (1 << (XLEN / 2)) - 1).
Definition kHiShift : Z := XLEN / 2.

Definition mul (a b : Z) : Z := sx (ux (ux a * ux b)).

Definition mulh (a b : Z) : Z :=
  let a_lo := ux a .& kLoMask in
  let a_hi := a >> kHiShift in
  let b_lo := ux b .& kLoMask in
  let b_hi := b >> kHiShift in
  let x := ux (a_lo * b_lo) in
  let y := sx (ux (ux a_hi * b_lo)) in
  let z := sx (ux (a_lo * ux b_hi)) in
  let w := a_hi * b_hi in
  let r0 := sx (ux ((x >> kHiShift) + ux y)) in
  let r1 := sx (ux ((ux r0 .& kLoMask) + ux z)) in
  w + (r0 >> kHiShift) + (r1 >> kHiShift).

Definition mulhu (a b : Z) : Z :=
  let a_lo := a .& kLoMask in
  let a_hi := a >> kHiShift in
  let b_lo := b .& kLoMask in
  let b_hi := b >> kHiShift in
  let x := ux (a_lo * b_lo) in
  let y := ux (a_hi * b_lo) in
  let z := ux (a_lo * b_hi) in
  let w := ux (a_hi * b_hi) in
  let r0 := ux ((x >> kHiShift) + y) in
  let r1 := ux ((r0 .& kLoMask) + z) in
  ux (ux (w + (r0 >> kHiShift)) + (r1 >> kHiShift)).

Definition mulhsu (a b : Z) : Z :=
  let a_lo := ux a .& kLoMask in
  let a_hi := a >> kHiShift in
  let b_lo := b .& kLoMask in
  let b_hi := b >> kHiShift in
  let x := ux (a_lo * b_lo) in
  let y := sx (ux (ux a_hi * b_lo)) in
  let z := ux (a_lo * b_hi) in
  let w := sx (ux (ux a_hi * b_hi)) in
  let r0 := sx (ux ((x >> kHiShift) + ux y)) in
  let r1 := ux ((ux r0 .& kLoMask) + z) in
  ux (ux (w + (r0 >> kHiShift)) + (r1 >> kHiShift)).

(** ** Division *)

Definition div (a b : Z) : Z :=
  if b =? 0 then -1
  else if (b =? -1) && (a =? kMinIntX) then kMinIntX
  else Z.quot a b.

Definition divu (a b : Z) : Z := if b =? 0 then kMaxUIntX else Z.quot a b.

Definition rem (a b : Z) : Z :=
  if b =? 0 then a
  else if (b =? -1) && (a =? kMinIntX) then 0
  else Z.rem a b.

Definition remu (a b : Z) : Z := if b =? 0 then a else Z.rem a b.

(** The product of two [int32_t]: signed overflow is undefined behaviour. *)
Definition mulw (a b : Z) : result Z :=
  if (- 2 ^ 31 <=? a * b) && (a * b <? 2 ^ 31) then Ok (a * b) else Undefined.

Definition divw (a b : Z) : Z :=
  if b =? 0 then -1
  else if (b =? -1) && (a =? - 2 ^ 31) then - 2 ^ 31
  else Z.quot a b.

Definition divuw (a b : Z) : Z := if b =? 0 then 2 ^ 32 - 1 else Z.quot a b.

Definition remw (a b : Z) : Z :=
  if b =? 0 then a
  else if (b =? -1) && (a =? - 2 ^ 31) then 0
  else Z.rem a b.

Definition remuw (a b : Z) : Z := if b =? 0 then a else Z.rem a b.

End alu.
