(* ===== verification/RiscvAluProps.v ===== *)
(** The arithmetic helpers of the RISC-V simulator compute what the instruction set
    manual asks for: high products, quotients and remainders, bit counts, carry-less
    products, rotations, byte permutations; and the two word helpers whose C++ has
    undefined behaviour. *)
From stdpp Require Import base numbers list.
From Stdlib Require Import ZArith Lia.
From S2P Require Import Prelude Utils RiscvEncoding RiscvState RiscvAlu.
Local Open Scope Z_scope.
Local Open Scope cxx_scope.

(** ** High products *)

(** Schoolbook multiplication in base [W]: what the three [mulh..] helpers do, over
    the integers. *)
Lemma high_product W ah al bh bl :
  0 < W -> 0 <= al < W -> 0 <= bl < W ->
  let r0 := al * bl / W + ah * bl in
  let r1 := r0 mod W + al * bh in
  ah * bh + r0 / W + r1 / W = (ah * W + al) * (bh * W + bl) / (W * W).
Proof.
  intros HW Hal Hbl r0 r1. rewrite <- Z.div_div by lia.
  replace ((ah * W + al) * (bh * W + bl))
    with (al * bl + (ah * bh * W + ah * bl + al * bh) * W) by ring.
  rewrite Z.div_add by lia.
  replace (al * bl / W + (ah * bh * W + ah * bl + al * bh))
    with (r1 + (r0 / W + ah * bh) * W).
  - rewrite Z.div_add by lia. lia.
  - unfold r1. pose proof (Z.div_mod r0 W). unfold r0 in *. nia.
Qed.

Section products.
Context `{Target}.

(** The base of the digits, and half of it. *)
Definition base : Z := 2 ^ kHiShift.

Lemma base_facts :
  XLEN = 2 * kHiShift /\ 0 < kHiShift /\ 2 <= base /\ 2 ^ XLEN = base * base /\
  2 * 2 ^ (XLEN - 1) = base * base.
Proof.
  unfold base, kHiShift, XLEN; destruct target; vm_compute; repeat split; congruence.
Qed.

Lemma hi_div a : a >> kHiShift = a / base.
Proof. apply Z.shiftr_div_pow2. destruct base_facts as (_ & ? & _). lia. Qed.

Lemma kLoMask_ones : kLoMask = Z.ones kHiShift.
Proof. unfold kLoMask, kHiShift, ux, XLEN; destruct target; reflexivity. Qed.

Lemma lo_mod a : a .& kLoMask = a mod base.
Proof.
  destruct base_facts as (? & ? & _). rewrite kLoMask_ones. apply Z.land_ones. lia.
Qed.

Lemma ux_lo a : ux a mod base = a mod base.
Proof.
  destruct base_facts as (? & ? & _). apply (wrapu_wrapu_le kHiShift XLEN). lia.
Qed.

Lemma ux_id a : 0 <= a < base * base -> ux a = a.
Proof.
  intros. destruct base_facts as (_ & _ & _ & E & _). apply wrapu_id. unfold is_u. lia.
Qed.

Lemma sx_ux_id a : - (base * base) <= 2 * a < base * base -> sx (ux a) = a.
Proof.
  intros. destruct base_facts as (HX & ? & _ & _ & E). unfold sx, ux. rewrite wraps_wrapu.
  apply wraps_id; [lia|]. unfold is_s. lia.
Qed.

(** Products of signed values wrap the same whether the factors were converted. *)
Lemma ux_mul a b : ux (ux a * b) = ux (a * b).
Proof. apply wrapu_mul_l. Qed.
Lemma ux_mul_r a b : ux (a * ux b) = ux (a * b).
Proof. apply wrapu_mul_r. Qed.
Lemma ux_add a b : ux (a + ux b) = ux (a + b).
Proof. apply wrapu_add_r. Qed.
Lemma ux_add_l a b : ux (ux a + b) = ux (a + b).
Proof. apply wrapu_add_l. Qed.

Lemma digits a : a = (a / base) * base + a mod base /\ 0 <= a mod base < base.
Proof.
  destruct base_facts as (_ & _ & ? & _).
  split; [pose proof (Z.div_mod a base); lia|apply Z.mod_pos_bound; lia].
Qed.

Lemma base_even : exists h, base = 2 * h.
Proof.
  destruct base_facts as (? & ? & _). exists (2 ^ (kHiShift - 1)). apply pow2_half. lia.
Qed.

Lemma u_digit a : is_u XLEN a -> 0 <= a / base < base.
Proof.
  intros [??]. destruct base_facts as (_ & _ & ? & E & _).
  destruct (digits a). nia.
Qed.

Lemma s_digit a : is_s XLEN a -> - base <= 2 * (a / base) < base.
Proof.
  intros [??]. destruct base_facts as (HX & ? & ? & _ & E).
  destruct base_even as [h Hh]. rewrite Hh in *.
  assert (- h <= a / (2 * h)) by (apply Z.div_le_lower_bound; lia).
  assert (a / (2 * h) < h) by (apply Z.div_lt_upper_bound; lia). lia.
Qed.

(** The digits of the operands of a high product, and the base. *)
Ltac digit_facts a b :=
  let ah := fresh "ah" in let al := fresh "al" in
  let bh := fresh "bh" in let bl := fresh "bl" in
  destruct base_facts as (_ & _ & HW & _), base_even as [h Hh];
  destruct (digits a) as [Ea ?], (digits b) as [Eb ?];
  set (ah := a / base) in *; set (al := a mod base) in *;
  set (bh := b / base) in *; set (bl := b mod base) in *.

(** The carry out of the low digits. *)
Lemma carry_bound al bl W : 0 <= al < W -> 0 <= bl < W -> 0 <= al * bl / W <= W - 2 \/ W = 1.
Proof.
  intros. destruct (decide (W = 1)); [auto|left].
  split; [apply Z.div_pos; nia|]. apply Z.lt_succ_r, Z.div_lt_upper_bound; nia.
Qed.

Lemma high_bound a b N : 0 <= a < N -> 0 <= b < N -> 0 <= a * b / N < N.
Proof. intros. split; [apply Z.div_pos; nia|apply Z.div_lt_upper_bound; nia]. Qed.

Lemma mulhu_high a b :
  is_u XLEN a -> is_u XLEN b -> mulhu a b = a * b / 2 ^ XLEN.
Proof.
  intros Ha Hb. pose proof (u_digit a Ha). pose proof (u_digit b Hb).
  unfold is_u in *. destruct base_facts as (_ & _ & _ & E2 & _). rewrite E2 in *.
  unfold mulhu. cbv zeta. rewrite !hi_div, !lo_mod. digit_facts a b.
  destruct (carry_bound al bl base) as [?|?]; [lia..| |lia].
  rewrite (ux_id (al * bl)), (ux_id (ah * bl)), (ux_id (al * bh)), (ux_id (ah * bh))
    by nia.
  rewrite (ux_id (al * bl / base + ah * bl)) by nia.
  set (r0 := al * bl / base + ah * bl).
  pose proof (Z.mod_pos_bound r0 base ltac:(lia)).
  rewrite (ux_id (r0 mod base + al * bh)) by nia.
  rewrite ux_add_l.
  pose proof (high_product base ah al bh bl ltac:(lia) ltac:(done) ltac:(done)) as E.
  cbv zeta in E. fold r0 in E. rewrite E, <- Ea, <- Eb. by apply ux_id, high_bound.
Qed.

Lemma mulh_high a b :
  is_s XLEN a -> is_s XLEN b -> mulh a b = a * b / 2 ^ XLEN.
Proof.
  intros Ha%s_digit Hb%s_digit. destruct base_facts as (_ & _ & _ & -> & _).
  unfold mulh. cbv zeta. rewrite !hi_div, !lo_mod, !ux_lo, !ux_mul, !ux_mul_r.
  digit_facts a b. destruct (carry_bound al bl base) as [?|?]; [lia..| |lia].
  rewrite (ux_id (al * bl)), (sx_ux_id (ah * bl)), (sx_ux_id (al * bh)) by nia.
  rewrite !ux_add. rewrite (sx_ux_id (al * bl / base + ah * bl)) by nia.
  set (r0 := al * bl / base + ah * bl).
  pose proof (Z.mod_pos_bound r0 base ltac:(lia)).
  rewrite (sx_ux_id (r0 mod base + al * bh)) by nia.
  rewrite Ea, Eb. apply high_product; lia.
Qed.

Lemma mulhsu_high a b :
  is_s XLEN a -> is_u XLEN b -> mulhsu a b = ux (a * b / 2 ^ XLEN).
Proof.
  intros Ha%s_digit Hb%u_digit. destruct base_facts as (_ & _ & _ & -> & _).
  unfold mulhsu. cbv zeta. rewrite !hi_div, !lo_mod, !ux_lo, !ux_mul.
  digit_facts a b. destruct (carry_bound al bl base) as [?|?]; [lia..| |lia].
  rewrite (ux_id (al * bl)), (sx_ux_id (ah * bl)), (ux_id (al * bh)),
    (sx_ux_id (ah * bh)) by nia.
  rewrite !ux_add. rewrite (sx_ux_id (al * bl / base + ah * bl)) by nia.
  set (r0 := al * bl / base + ah * bl).
  pose proof (Z.mod_pos_bound r0 base ltac:(lia)).
  rewrite (ux_id (r0 mod base + al * bh)) by nia.
  rewrite ux_add_l, Ea, Eb. f_equal. apply high_product; lia.
Qed.

End products.

Section words.
Context `{Target}.

Lemma mul_low a b : ux (mul a b) = ux (a * b).
Proof. unfold mul, ux, sx. by autorewrite with wrap. Qed.

(** A product is the word [ux p] below the word [p / 2^XLEN]. *)
Lemma product_words p : p / 2 ^ XLEN * 2 ^ XLEN + ux p = p.
Proof.
  unfold ux, wrapu. pose proof (Z.div_mod p (2 ^ XLEN)).
  pose proof (pow2_pos XLEN). unfold XLEN in *. destruct target; lia.
Qed.

Lemma XLEN_gt0 : 0 < XLEN.
Proof. unfold XLEN; destruct target; lia. Qed.

Lemma high_bound_mixed a b M :
  - M <= a < M -> 0 <= b < 2 * M -> - M <= a * b / (2 * M) < M.
Proof.
  intros. split; [apply Z.div_le_lower_bound; nia|apply Z.div_lt_upper_bound; nia].
Qed.

(** The multiplication helpers split the full product of two registers in two
    words: [mul] returns the low word, and [mulh], [mulhu] and [mulhsu] the high
    word of the signed, unsigned and mixed product, so that the two words together
    are the product over the integers. *)
Theorem mul_words a b :
  is_u XLEN a -> is_u XLEN b ->
  mulhu a b * 2 ^ XLEN + ux (mul (sx a) (sx b)) = a * b /\
  mulh (sx a) (sx b) * 2 ^ XLEN + ux (mul (sx a) (sx b)) = sx a * sx b /\
  sx (mulhsu (sx a) b) * 2 ^ XLEN + ux (mul (sx a) (sx b)) = sx a * b.
Proof.
  intros Ha Hb. pose proof XLEN_gt0.
  assert (is_s XLEN (sx a)) as Hsa by by apply wraps_range.
  assert (is_s XLEN (sx b)) as Hsb by by apply wraps_range.
  rewrite mulhu_high, mulh_high, mulhsu_high, mul_low by done.
  assert (ux (sx a * sx b) = ux (a * b)) as E1.
  { unfold ux, sx. rewrite <- wrapu_mul_l, <- wrapu_mul_r. by autorewrite with wrap. }
  assert (ux (sx a * sx b) = ux (sx a * b)) as E2.
  { unfold ux, sx. rewrite <- (wrapu_mul_r _ _ (wraps _ b)). by autorewrite with wrap. }
  split_and!.
  - rewrite E1. apply product_words.
  - apply product_words.
  - rewrite E2. unfold sx at 1, ux at 1. rewrite wraps_wrapu, wraps_id.
    + apply product_words.
    + done.
    + unfold is_s, is_u in *. rewrite (pow2_half XLEN) in * by done.
      by apply high_bound_mixed.
Qed.

End words.

Lemma mul_words_witness :
  let _ := RV64 : Target in
  mulhu 0xFFFFFFFFFFFFFFFF 3 * 2 ^ 64 + ux (mul (-1) 3) = 0xFFFFFFFFFFFFFFFF * 3 /\
  mulh (-1) 3 * 2 ^ 64 + ux (mul (-1) 3) = -1 * 3 /\
  sx (mulhsu (-1) 3) * 2 ^ 64 + ux (mul (-1) 3) = -1 * 3.
Proof.
  exact (@mul_words RV64 0xFFFFFFFFFFFFFFFF 3
           ltac:(vm_compute; split; congruence) ltac:(vm_compute; split; congruence)).
Defined.

(** ** Division *)

(** What the manual asks of a signed division of width [w], its two special cases
    included: the quotient and remainder are values of the type, [b * q + r = a] up
    to wrap-around, the remainder is smaller than the divisor and has the sign of
    the dividend. *)
Definition signed_division (w a b q r : Z) : Prop :=
  is_s w q /\ is_s w r /\ wraps w (b * q + r) = a /\
  (b = 0 -> q = -1 /\ r = a) /\
  (b <> 0 -> Z.abs r < Z.abs b /\ 0 <= r * a) /\
  (b <> 0 -> b * q + r = a \/ (a = - 2 ^ (w - 1) /\ b = -1)).

Definition unsigned_division (w a b q r : Z) : Prop :=
  is_u w q /\ is_u w r /\ b * q + r = a /\
  (b = 0 -> q = 2 ^ w - 1 /\ r = a) /\
  (b <> 0 -> 0 <= r < b).

Lemma quot_signed w a b :
  0 < w -> is_s w a -> is_s w b -> b <> 0 -> ~ (b = -1 /\ a = - 2 ^ (w - 1)) ->
  signed_division w a b (Z.quot a b) (Z.rem a b).
Proof.
  intros Hw Ha Hb Hb0 Hov. pose proof (Z.quot_rem' a b) as E.
  pose proof (Z.rem_bound_abs a b Hb0) as Hr. pose proof (Z.rem_sign_mul a b Hb0) as Hs.
  unfold signed_division, is_s in *.
  assert (Z.abs (Z.quot a b) <= Z.abs a) as Hq.
  { rewrite <- Z.quot_abs by done. apply Z.quot_le_upper_bound; nia. }
  assert (b = -1 -> Z.quot a b = - a) by lia.
  assert (b <> -1 -> Z.quot a b < 2 ^ (w - 1)) by nia.
  split_and!; try lia; try nia.
  - rewrite <- E. by apply wraps_id.
Qed.

Lemma signed_division_code w m a b :
  1 < w -> m = - 2 ^ (w - 1) -> is_s w a -> is_s w b ->
  signed_division w a b
    (if b =? 0 then -1 else if (b =? -1) && (a =? m) then m else Z.quot a b)
    (if b =? 0 then a else if (b =? -1) && (a =? m) then 0 else Z.rem a b).
Proof.
  intros Hw -> Ha Hb. pose proof (pow2_le 1 (w - 1) ltac:(lia)).
  destruct (Z.eqb_spec b 0) as [->|Hb0].
  { unfold signed_division, is_s in *. split_and!; try lia. by apply wraps_id; [lia|]. }
  destruct (Z.eqb_spec b (-1)), (Z.eqb_spec a (- 2 ^ (w - 1)));
    cbn [andb]; try (apply quot_signed; [lia|done|done|done|lia]).
  subst. unfold signed_division, is_s in *. split_and!; try lia.
  unfold wraps. replace (-1 * - 2 ^ (w - 1) + 0 + 2 ^ (w - 1)) with (1 * 2 ^ w)
    by (rewrite (pow2_half w); lia).
  rewrite Z.mod_mul; lia.
Qed.

Lemma unsigned_division_code w a b :
  0 < w -> is_u w a -> is_u w b ->
  unsigned_division w a b
    (if b =? 0 then 2 ^ w - 1 else Z.quot a b) (if b =? 0 then a else Z.rem a b).
Proof.
  intros Hw [??] [??]. pose proof (pow2_pos w). unfold unsigned_division, is_u.
  destruct (Z.eqb_spec b 0) as [->|Hb0]; [lia|].
  rewrite Z.quot_div_nonneg, Z.rem_mod_nonneg by lia.
  pose proof (Z.div_mod a b Hb0). pose proof (Z.mod_pos_bound a b).
  pose proof (Z.div_pos a b). split_and!; nia.
Qed.

Section divisions.
Context `{Target}.

(** The division helpers, at register width and at word width, signed and
    unsigned, return a quotient and a remainder of their types that satisfy the
    division equation, with the manual's results for a zero divisor and for the
    overflowing quotient. *)
Theorem division_spec a b :
  (is_s XLEN a -> is_s XLEN b -> signed_division XLEN a b (div a b) (rem a b)) /\
  (is_u XLEN a -> is_u XLEN b -> unsigned_division XLEN a b (divu a b) (remu a b)) /\
  (is_s 32 a -> is_s 32 b -> signed_division 32 a b (divw a b) (remw a b)) /\
  (is_u 32 a -> is_u 32 b -> unsigned_division 32 a b (divuw a b) (remuw a b)).
Proof.
  split_and!; intros.
  - apply signed_division_code; [|done..]. unfold XLEN; destruct target; lia.
  - apply unsigned_division_code; [apply XLEN_gt0|done..].
  - by apply signed_division_code.
  - by apply unsigned_division_code.
Qed.

(** The product of two words is computed as an [int32_t] product, which is
    undefined behaviour exactly when it does not fit in 32 bits. *)
Theorem mulw_undefined a b : mulw a b = Undefined <-> ~ is_s 32 (a * b).
Proof.
  unfold mulw, is_s. change (2 ^ (32 - 1)) with (2 ^ 31).
  destruct (Z.leb_spec (- 2 ^ 31) (a * b)), (Z.ltb_spec (a * b) (2 ^ 31));
    cbn [andb]; split; first [done | lia].
Qed.

End divisions.

Lemma division_spec_witness :
  let _ := RV32 : Target in
  signed_division 32 (- 2 ^ 31) (-1) (div (- 2 ^ 31) (-1)) (rem (- 2 ^ 31) (-1)).
Proof.
  exact (proj1 (@division_spec RV32 (- 2 ^ 31) (-1))
           ltac:(vm_compute; split; congruence) ltac:(vm_compute; split; congruence)).
Defined.

(** ** Bit counts *)

(** A single bit, tested the way the loops do it. *)
Lemma test_bit w a bit :
  0 <= bit < w -> negb (a .& wrapu w (1 << bit) =? 0) = Z.testbit a bit.
Proof.
  intros. rewrite wrapu_id.
  2:{ unfold is_u. rewrite Z.shiftl_1_l. split; [apply Z.pow_nonneg; lia|].
      apply Z.pow_lt_mono_r; lia. }
  assert (a .& (1 << bit) = if Z.testbit a bit then 1 << bit else 0) as ->.
  { apply Z.bits_inj'. intros i Hi. rewrite Z.land_spec, Z.shiftl_1_l.
    destruct (decide (i = bit)) as [->|Hne].
    - rewrite Z.pow2_bits_true by lia. destruct (Z.testbit a bit);
        [by rewrite Z.pow2_bits_true by lia|by rewrite Z.bits_0].
    - rewrite Z.pow2_bits_false by lia. rewrite andb_false_r.
      destruct (Z.testbit a bit); [by rewrite Z.pow2_bits_false by lia|by rewrite Z.bits_0]. }
  destruct (Z.testbit a bit); [|done].
  rewrite Z.shiftl_1_l. pose proof (pow2_pos bit ltac:(lia)).
  by destruct (Z.eqb_spec (2 ^ bit) 0); [lia|].
Qed.

Lemma clz_loop_spec w a n :
  Z.of_nat n <= w -> 0 <= a < 2 ^ Z.of_nat n ->
  clz_loop w a n = if a =? 0 then w else w - 1 - Z.log2 a.
Proof.
  induction n as [|n IH]; intros Hn Ha; cbn [clz_loop].
  - change (2 ^ Z.of_nat 0) with 1 in Ha. by replace a with 0 by lia.
  - rewrite test_bit by lia.
    replace (Z.of_nat (S n)) with (Z.succ (Z.of_nat n)) in * by lia.
    rewrite Z.pow_succ_r in Ha by lia.
    destruct (Z.testbit a (Z.of_nat n)) eqn:E.
    + assert (2 ^ Z.of_nat n <= a) as Hge.
      { destruct (Z.le_gt_cases (2 ^ Z.of_nat n) a); [done|].
        rewrite (testbit_high (Z.of_nat n)) in E; [done|unfold is_u; lia|lia]. }
      pose proof (pow2_pos (Z.of_nat n) ltac:(lia)).
      destruct (Z.eqb_spec a 0); [lia|].
      rewrite (Z.log2_unique a (Z.of_nat n)); [lia|lia|].
      rewrite Z.pow_succ_r; lia.
    + apply IH; [lia|]. split; [lia|].
      destruct (Z.le_gt_cases (2 ^ Z.of_nat n) a); [|lia].
      assert (Z.testbit a (Z.of_nat n) = true); [|congruence].
      replace (Z.of_nat n) with (Z.log2 a); [apply Z.bit_log2; lia|].
      apply Z.log2_unique; [lia|]. rewrite Z.pow_succ_r; lia.
Qed.

Lemma ctz_loop_spec w a n bit :
  0 <= bit -> bit + Z.of_nat n <= w ->
  let r := ctz_loop w a bit n in
  (forall i, bit <= i < bit + Z.of_nat n -> i < r -> Z.testbit a i = false) /\
  ((bit <= r < bit + Z.of_nat n /\ Z.testbit a r = true) \/ r = w).
Proof.
  revert bit. induction n as [|n IH]; intros bit Hb Hw; cbn [ctz_loop].
  - split; [intros; lia|by right].
  - rewrite test_bit by lia. destruct (Z.testbit a bit) eqn:E.
    + split; [intros; lia|]. left. split; [lia|done].
    + destruct (IH (bit + 1)) as [H1 H2]; [lia..|]. split.
      * intros i Hi Hr. destruct (decide (i = bit)) as [->|]; [done|]. apply H1; lia.
      * destruct H2 as [[??]|?]; [left|by right]. split; [lia|done].
Qed.

(** The number of set bits among the first [n]. *)
Definition popcount (a : Z) (n : nat) : Z :=
  Z.of_nat (length (filter (fun i => Z.testbit a (Z.of_nat i) = true) (seq 0 n))).

Lemma popcount_S a n :
  popcount a (S n) = popcount a n + (if Z.testbit a (Z.of_nat n) then 1 else 0).
Proof.
  unfold popcount. rewrite seq_S, filter_app, length_app, Nat2Z.inj_add. f_equal.
  simpl. rewrite filter_cons. by destruct (Z.testbit a (Z.of_nat n)).
Qed.

Lemma popcount_bound a n : 0 <= popcount a n <= Z.of_nat n.
Proof. induction n; [done|]. rewrite popcount_S. destruct (Z.testbit _ _); lia. Qed.

Lemma cpop_loop_spec w a n :
  Z.of_nat n <= w -> cpop_loop w a n = popcount a n.
Proof.
  intros Hn. unfold cpop_loop.
  apply (for_loop_inv (fun k r => r = popcount a k)); [done|].
  intros k r Hk ->. cbv beta. rewrite Z.mul_1_r, Z.add_0_l, test_bit, popcount_S by lia.
  destruct (Z.testbit a (Z.of_nat k)); [|lia].
  apply wrapu_id. pose proof (popcount_bound a k).
  pose proof (Z.pow_gt_lin_r 2 w). unfold is_u. lia.
Qed.

(** [k] is the number of trailing zeros of [a], [w] when [a] is zero. *)
Definition trailing_zeros (w a k : Z) : Prop :=
  (a = 0 -> k = w) /\
  (a <> 0 -> 0 <= k < w /\ Z.testbit a k = true /\ (2 ^ k | a)).

Lemma ctz_loop_trailing w a :
  0 < w -> is_u w a -> trailing_zeros w a (ctz_loop w a 0 (Z.to_nat w)).
Proof.
  intros Hw Ha. pose proof (ctz_loop_spec w a (Z.to_nat w) 0 ltac:(lia) ltac:(lia)) as [H1 H2].
  cbv zeta in *. set (r := ctz_loop w a 0 (Z.to_nat w)) in *.
  rewrite Z2Nat.id in * by lia. split.
  - intros ->. destruct H2 as [[_ E]|?]; [by rewrite Z.bits_0 in E|done].
  - intros Hne. destruct H2 as [[Hr E]|Hr].
    + split_and!; [lia..|done|]. exists (a >> r).
      rewrite <- Z.shiftl_mul_pow2 by lia. apply Z.bits_inj'. intros i Hi.
      rewrite Z.shiftl_spec by lia. destruct (Z.lt_ge_cases i r).
      * rewrite (Z.testbit_neg_r _ (i - r)) by lia. apply H1; lia.
      * rewrite Z.shiftr_spec by lia. f_equal. lia.
    + exfalso. apply Hne. apply Z.bits_inj'. intros i Hi. rewrite Z.bits_0.
      destruct (Z.lt_ge_cases i w); [apply H1; lia|]. apply (testbit_high w); [done|lia].
Qed.

Section counts.
Context `{Target}.

(** [clz], [ctz] and [cpop] count the leading zeros, the trailing zeros and the
    set bits of a register, and the [w] variants those of a word; the counts of
    zeros of a zero operand are the width. *)
Theorem count_spec a :
  (is_u XLEN a ->
     clz a = (if a =? 0 then XLEN else XLEN - 1 - Z.log2 a) /\
     trailing_zeros XLEN a (ctz a) /\ cpop a = popcount a (Z.to_nat XLEN)) /\
  (is_u 32 a ->
     clzw a = (if a =? 0 then 32 else 32 - 1 - Z.log2 a) /\
     trailing_zeros 32 a (ctzw a) /\ cpopw a = popcount a 32).
Proof.
  pose proof XLEN_gt0. split; intros Ha; split_and!.
  - apply clz_loop_spec; rewrite Z2Nat.id by lia; [lia|done].
  - by apply ctz_loop_trailing.
  - apply cpop_loop_spec. lia.
  - by apply clz_loop_spec.
  - by apply (ctz_loop_trailing 32).
  - by apply cpop_loop_spec.
Qed.

(** ** Carry-less products *)

(** The product of the polynomials over GF(2) whose coefficients are the bits of
    [a] and the first [n] bits of [b]. *)
Definition clprod (a b : Z) (n : nat) : Z :=
  for_loop n 0 1
    (fun bit p => if Z.testbit b bit then p .^ (a << bit) else p) 0.

Lemma bit_test b bit : 0 <= bit -> negb ((b >> bit) .& 1 =? 0) = Z.testbit b bit.
Proof.
  intros. rewrite Z.shiftr_div_pow2 by done. change 1 with (Z.ones 1).
  rewrite Z.land_ones by lia. rewrite Z.testbit_eqb by done.
  destruct (Z.eqb_spec (b / 2 ^ bit mod 2 ^ 1) 0) as [E|E];
    change (2 ^ 1) with 2 in E;
    pose proof (Z.mod_pos_bound (b / 2 ^ bit) 2 ltac:(lia));
    destruct (Z.eqb_spec ((b / 2 ^ bit) mod 2) 1); lia || done.
Qed.

(** [clmul], [clmulh] and [clmulr] are the low word, the high word and the word
    from bit [XLEN - 1] of the carry-less product of two registers. *)
Theorem clmul_spec a b :
  is_u XLEN a ->
  let p := clprod a b (Z.to_nat XLEN) in
  clmul a b = ux p /\ clmulh a b = p >> XLEN /\ clmulr a b = p >> (XLEN - 1).
Proof.
  intros Ha p. pose proof XLEN_gt0. unfold p, clprod. split_and!.
  - apply (for_loop_rel (fun r p => r = ux p)); [by unfold ux, XLEN; destruct target|].
    intros k r q Hk ->. rewrite bit_test by lia.
    destruct (Z.testbit b _); [|done]. symmetry. apply wrapu_lxor. lia.
  - unfold clmulh. replace (Z.to_nat XLEN) with (S (Z.to_nat (XLEN - 1))) by lia.
    cbn [for_loop]. apply (for_loop_rel (fun r p => r = p >> XLEN)).
    + destruct (Z.testbit b 0); [|by rewrite Z.shiftr_0_l].
      rewrite Z.shiftl_0_r, Z.lxor_0_l, Z.shiftr_div_pow2 by lia.
      symmetry. apply Z.div_small, Ha.
    + intros k r q Hk ->. rewrite bit_test by lia. destruct (Z.testbit b _); [|done].
      rewrite Z.shiftr_lxor, shiftr_shiftl_lt by lia. done.
  - apply (for_loop_rel (fun r p => r = p >> (XLEN - 1))); [by rewrite Z.shiftr_0_l|].
    intros k r q Hk ->. rewrite bit_test by lia. destruct (Z.testbit b _); [|done].
    rewrite Z.shiftr_lxor, shiftr_shiftl_lt by lia. do 2 f_equal. lia.
Qed.

End counts.

Lemma count_spec_witness :
  let _ := RV64 : Target in
  clz 0x00F0 = 64 - 1 - Z.log2 0x00F0 /\ trailing_zeros 64 0x00F0 (ctz 0x00F0) /\
  cpop 0x00F0 = popcount 0x00F0 64.
Proof.
  exact (proj1 (@count_spec RV64 0x00F0) ltac:(vm_compute; split; congruence)).
Defined.

Lemma clmul_spec_witness :
  let _ := RV32 : Target in
  let p := clprod 0x80000003 0x80000001 32 in
  clmul 0x80000003 0x80000001 = ux p /\
  clmulh 0x80000003 0x80000001 = p >> 32 /\ clmulr 0x80000003 0x80000001 = p >> 31.
Proof.
  exact (@clmul_spec RV32 0x80000003 0x80000001 ltac:(vm_compute; split; congruence)).
Defined.

(** ** Rotations, extensions, single bits *)

Section rotations.
Context `{Target}.

Lemma land_XLEN b : b .& (XLEN - 1) = b mod XLEN.
Proof.
  unfold XLEN; destruct target;
    [change (32 - 1) with (Z.ones 5)|change (64 - 1) with (Z.ones 6)];
    by rewrite Z.land_ones by lia.
Qed.

Lemma mod_XLEN b : 0 <= b mod XLEN < XLEN.
Proof. apply Z.mod_pos_bound, XLEN_gt0. Qed.

Lemma opposite_shift r : 0 <= r < XLEN -> ux (XLEN - r) .& (XLEN - 1) = (- r) mod XLEN.
Proof.
  intros. rewrite land_XLEN. unfold ux. rewrite wrapu_id.
  - replace (XLEN - r) with (- r + 1 * XLEN) by lia. apply Z.mod_add. lia.
  - unfold is_u. pose proof (Z.pow_gt_lin_r 2 XLEN). lia.
Qed.

(** The bits of [(a << l) | (a >> r)] with [l + r] a multiple of the width. *)
Lemma rotate_bits a r i :
  is_u XLEN a -> 0 <= r < XLEN -> 0 <= i < XLEN ->
  Z.testbit (ux (a << ((- r) mod XLEN)) .| (a >> r)) i = Z.testbit a ((i + r) mod XLEN).
Proof.
  intros Ha Hr Hi. pose proof (mod_XLEN (- r)).
  rewrite Z.lor_spec, Z.shiftr_spec by lia. unfold ux.
  rewrite testbit_wrapu, Z.shiftl_spec by lia.
  rewrite (proj2 (Z.ltb_lt i XLEN)) by lia. cbn [andb].
  destruct (decide (r = 0)) as [->|Hr0].
  { change (- 0) with 0. rewrite Z.mod_0_l, Z.sub_0_r, Z.add_0_r, Z.mod_small by lia.
    apply orb_diag. }
  assert ((- r) mod XLEN = XLEN - r) as ->.
  { symmetry. apply (Z.mod_unique_pos _ _ (-1)); lia. }
  destruct (Z.lt_ge_cases (i + r) XLEN).
  - rewrite Z.mod_small, (Z.testbit_neg_r _ (i - (XLEN - r))) by lia. done.
  - rewrite (testbit_high XLEN a (i + r)) by (done || lia). rewrite orb_false_r. f_equal.
    apply (Z.mod_unique_pos _ _ 1); lia.
Qed.

Lemma ror_bits a b i :
  is_u XLEN a -> 0 <= i < XLEN ->
  Z.testbit (ror a b) i = Z.testbit a ((i + b) mod XLEN).
Proof.
  intros Ha Hi. pose proof (mod_XLEN b). unfold ror. cbv zeta.
  rewrite (land_XLEN b), opposite_shift, rotate_bits by done.
  by rewrite Z.add_mod_idemp_r by lia.
Qed.

Lemma rol_bits a b i :
  is_u XLEN a -> 0 <= i < XLEN ->
  Z.testbit (rol a b) i = Z.testbit a ((i - b) mod XLEN).
Proof.
  intros Ha Hi. pose proof (mod_XLEN b). pose proof (mod_XLEN (- (b mod XLEN))).
  unfold rol. cbv zeta. rewrite (land_XLEN b), opposite_shift by done.
  assert (b mod XLEN = (- ((- (b mod XLEN)) mod XLEN)) mod XLEN) as E.
  { rewrite <- (Z.sub_0_l (_ mod XLEN)), Zminus_mod_idemp_r.
    replace (0 - - (b mod XLEN)) with (b mod XLEN) by lia. by rewrite Zmod_mod. }
  rewrite E at 1. rewrite rotate_bits by done. f_equal.
  rewrite Z.add_mod_idemp_r by lia. rewrite <- (Zminus_mod_idemp_r i b).
  f_equal.
Qed.

Lemma ror_u a b : is_u XLEN a -> is_u XLEN (ror a b).
Proof.
  intros Ha. pose proof XLEN_gt0. unfold ror. cbv zeta. apply lor_u; [lia|apply wrapu_range; lia|].
  apply shiftr_u; [rewrite land_XLEN; apply mod_XLEN|done].
Qed.

Lemma rol_u a b : is_u XLEN a -> is_u XLEN (rol a b).
Proof.
  intros Ha. pose proof XLEN_gt0. unfold rol. cbv zeta. apply lor_u; [lia|apply wrapu_range; lia|].
  apply shiftr_u; [|done]. rewrite land_XLEN. apply mod_XLEN.
Qed.

(** The rotations move every bit of a register by the rotation count modulo the
    width, stay within the register, and undo each other. *)
Theorem rotate_spec a b :
  is_u XLEN a ->
  is_u XLEN (ror a b) /\ is_u XLEN (rol a b) /\
  (forall i, 0 <= i < XLEN ->
     Z.testbit (ror a b) i = Z.testbit a ((i + b) mod XLEN) /\
     Z.testbit (rol a b) i = Z.testbit a ((i - b) mod XLEN)) /\
  rol (ror a b) b = a /\ ror (rol a b) b = a.
Proof.
  intros Ha. pose proof XLEN_gt0. pose proof (ror_u a b Ha). pose proof (rol_u a b Ha).
  split_and!; [done..|by auto using ror_bits, rol_bits| |];
    (apply (u_bits XLEN); [lia|by auto using ror_u, rol_u..|]); intros i Hi.
  - rewrite rol_bits, ror_bits by auto using mod_XLEN.
    rewrite Z.add_mod_idemp_l by lia. f_equal. rewrite Z.sub_add. by apply Z.mod_small.
  - rewrite ror_bits, rol_bits by auto using mod_XLEN.
    rewrite Zminus_mod_idemp_l. f_equal. rewrite Z.add_simpl_r. by apply Z.mod_small.
Qed.

(** On a 64-bit target the word rotations shift a 32-bit value by [r] and by
    [(64 - r) mod 64], so one of the two shift counts is 32 or more: unless the
    count is a multiple of 64 the result is undefined. *)
Theorem rotate_word_undefined a b :
  XLEN = 64 ->
  (b mod 64 <> 0 -> rorw a b = Undefined /\ rolw a b = Undefined) /\
  (b mod 64 = 0 -> rorw a b = Ok (ux (wraps 32 a)) /\ rolw a b = Ok (ux (wraps 32 a))).
Proof.
  intros HX. pose proof (mod_XLEN b) as Hb. rewrite HX in Hb.
  assert (u32 (b .& (XLEN - 1)) = b mod 64) as E.
  { rewrite land_XLEN, HX. apply wrapu_id. unfold is_u. lia. }
  assert (u32 (XLEN - b mod 64) .& (XLEN - 1) = (- b) mod 64) as E'.
  { rewrite land_XLEN, HX. unfold u32. rewrite wrapu_id by (unfold is_u; lia).
    rewrite Zminus_mod_idemp_r. replace (64 - b) with (- b + 1 * 64) by lia.
    by rewrite Z.mod_add. }
  unfold rorw, rolw, shl32, shr32. cbv zeta. rewrite E, E'. split; intros Hb0.
  - assert ((- b) mod 64 = 64 - b mod 64) as ->.
    { rewrite Z.mod_opp_l_nz; lia. }
    destruct (Z.ltb_spec (64 - b mod 64) 32), (Z.ltb_spec (b mod 64) 32); cbn; try lia; done.
  - rewrite Z.mod_opp_l_z, Hb0 by lia. cbn. unfold u32, sign_extend_u32.
    rewrite Z.shiftl_0_r, Z.shiftr_0_r, wrapu_idemp, Z.lor_diag.
    unfold ux. by rewrite wrapu_wraps, wraps_wrapu.
Qed.

(** The mask of the single-bit operations. *)
Lemma one_bit b i :
  0 <= i < XLEN -> Z.testbit (ux (1 << (b .& (XLEN - 1)))) i = (i =? b mod XLEN).
Proof.
  intros Hi. pose proof (mod_XLEN b). rewrite land_XLEN, Z.shiftl_1_l. unfold ux.
  rewrite testbit_wrapu, (proj2 (Z.ltb_lt i XLEN)) by lia. cbn [andb].
  rewrite Z.pow2_bits_eqb by lia. apply Z.eqb_sym.
Qed.

Lemma extend_bits n a :
  0 < n <= XLEN ->
  sx (ux (a << (XLEN - n))) >> (XLEN - n) = wraps n a.
Proof.
  intros Hn. unfold sx, ux. rewrite wraps_wrapu. apply Z.bits_inj'. intros i Hi.
  rewrite Z.shiftr_spec, !testbit_wraps, Z.shiftl_spec by lia. f_equal. lia.
Qed.

(** The single-bit operations clear, invert, set and extract bit [b mod XLEN]
    and leave the other bits alone; the extensions keep the low 8 or 16 bits. *)
Theorem bit_ops_spec a b :
  is_u XLEN a ->
  (forall i, 0 <= i < XLEN ->
     Z.testbit (bclr a b) i = (if i =? b mod XLEN then false else Z.testbit a i) /\
     Z.testbit (binv a b) i = (if i =? b mod XLEN then negb (Z.testbit a i) else Z.testbit a i) /\
     Z.testbit (bset a b) i = (if i =? b mod XLEN then true else Z.testbit a i)) /\
  bext a b = (if Z.testbit a (b mod XLEN) then 1 else 0) /\
  sextb a = ux (wraps 8 a) /\ sexth a = ux (wraps 16 a) /\ zexth a = wrapu 16 a.
Proof.
  intros Ha. pose proof XLEN_gt0. pose proof (mod_XLEN b).
  assert (16 <= XLEN) by (unfold XLEN; destruct target; lia).
  split_and!.
  - intros i Hi. unfold bclr, binv, bset. rewrite Z.land_spec, Z.lxor_spec, Z.lor_spec.
    unfold ux at 1. rewrite testbit_wrapu, testbit_lnot by lia.
    rewrite one_bit, (proj2 (Z.ltb_lt i XLEN)) by lia.
    destruct (Z.eqb_spec i (b mod XLEN)); by destruct (Z.testbit a i).
  - unfold bext. rewrite land_XLEN. apply Z.bits_inj'. intros i Hi.
    rewrite Z.land_spec, Z.shiftr_spec by lia.
    destruct (decide (i = 0)) as [->|].
    + rewrite andb_true_r, Z.add_0_l. by destruct (Z.testbit a _).
    + rewrite (testbit_high 1 1 i), andb_false_r by (done || lia).
      destruct (Z.testbit a _); [|by rewrite Z.bits_0].
      symmetry. apply (testbit_high 1); [done|lia].
  - unfold sextb. by rewrite extend_bits by lia.
  - unfold sexth. by rewrite extend_bits by lia.
  - unfold zexth, ux. apply Z.bits_inj'. intros i Hi.
    rewrite Z.shiftr_spec, !testbit_wrapu, Z.shiftl_spec by lia.
    replace (i + (XLEN - 16) - (XLEN - 16)) with i by lia.
    destruct (Z.ltb_spec (i + (XLEN - 16)) XLEN), (Z.ltb_spec i 16); done || lia.
Qed.

(** ** Byte operations *)

Definition register_bytes : nat := Z.to_nat (XLEN / 8).

Lemma register_bytes_eq : XLEN = 8 * Z.of_nat register_bytes.
Proof. unfold register_bytes, XLEN; by destruct target. Qed.

(** The bytes of a register, read one at a time from the right. *)
Lemma byte_at a k : (a >> (0 + Z.of_nat k * 8)) .& 0xFF = a / 2 ^ (8 * Z.of_nat k) mod 256.
Proof.
  rewrite Z.shiftr_div_pow2 by lia. change 0xFF with (Z.ones 8).
  rewrite Z.land_ones by lia. do 2 f_equal. f_equal. lia.
Qed.

Lemma rev8_bytes a : rev8 a = u_of_bytes (reverse (bytes_of_u register_bytes a)).
Proof.
  unfold rev8. fold register_bytes.
  apply (for_loop_inv (fun k r => r = u_of_bytes (reverse (bytes_of_u k a)))); [done|].
  intros k r Hk ->. cbv beta.
  rewrite byte_at, bytes_of_u_S, reverse_app. cbn [u_of_bytes reverse app].
  change (reverse [?x]) with [x]. cbn [u_of_bytes app].
  pose proof (u_of_bytes_range (reverse (bytes_of_u k a))) as Hr.
  rewrite length_reverse, length_bytes_of_u in Hr.
  destruct Hr as [Hr1 Hr2]; [apply Forall_reverse, bytes_of_u_bytes|].
  pose proof (Z.mod_pos_bound (a / 2 ^ (8 * Z.of_nat k)) 256 ltac:(lia)).
  assert (ux (u_of_bytes (reverse (bytes_of_u k a)) << 8)
          = u_of_bytes (reverse (bytes_of_u k a)) << 8) as ->.
  { apply wrapu_id. unfold is_u. rewrite Z.shiftl_mul_pow2 by lia.
    pose proof (pow2_le (8 * Z.of_nat k + 8) XLEN). rewrite register_bytes_eq in *.
    rewrite (Z.pow_add_r 2 _ 8) in * by lia. lia. }
  rewrite lor_add by lia. change (2 ^ 8) with 256. lia.
Qed.

(** [orcb] on one byte. *)
Definition or_combine (b : Z) : Z := if b =? 0 then 0 else 0xFF.

Lemma or_combine_bytes l : Forall (is_u 8) (map or_combine l).
Proof.
  apply Forall_map, Forall_true. intros b. unfold or_combine. by destruct (b =? 0).
Qed.

Lemma orcb_bytes a : orcb a = u_of_bytes (map or_combine (bytes_of_u register_bytes a)).
Proof.
  unfold orcb. fold register_bytes.
  apply (for_loop_inv (fun k r => r = u_of_bytes (map or_combine (bytes_of_u k a)))); [done|].
  intros k r Hk ->. cbv beta. rewrite byte_at, bytes_of_u_S, map_app, u_of_bytes_app.
  rewrite length_map, length_bytes_of_u. cbn [map u_of_bytes].
  pose proof (u_of_bytes_range _ (or_combine_bytes (bytes_of_u k a))) as Hr.
  rewrite length_map, length_bytes_of_u in Hr.
  set (r := u_of_bytes _) in *. unfold or_combine.
  destruct (Z.eqb_spec (a / 2 ^ (8 * Z.of_nat k) mod 256) 0); cbn [negb]; [lia|].
  replace (0 + Z.of_nat k * 8) with (8 * Z.of_nat k) by lia.
  assert (ux (0xFF << (8 * Z.of_nat k)) = 0xFF << (8 * Z.of_nat k)) as ->.
  { apply wrapu_id. unfold is_u. rewrite Z.shiftl_mul_pow2 by lia.
    pose proof (pow2_le (8 * Z.of_nat k + 8) XLEN). rewrite register_bytes_eq in *.
    rewrite (Z.pow_add_r 2 _ 8) in * by lia. pose proof (pow2_pos (8 * Z.of_nat k)). lia. }
  rewrite Z.lor_comm, lor_add by (done || lia). lia.
Qed.

(** [rev8] reverses the bytes of a register, and so is its own inverse; [orcb]
    replaces every non-zero byte by [0xFF]. *)
Theorem byte_ops_spec a :
  is_u XLEN a ->
  rev8 a = u_of_bytes (reverse (bytes_of_u register_bytes a)) /\
  rev8 (rev8 a) = a /\
  orcb a = u_of_bytes (map or_combine (bytes_of_u register_bytes a)).
Proof.
  intros Ha. split_and!; [apply rev8_bytes| |apply orcb_bytes].
  rewrite (rev8_bytes (rev8 a)), rev8_bytes.
  set (l := reverse (bytes_of_u register_bytes a)).
  assert (length l = register_bytes) as El
    by (unfold l; by rewrite length_reverse, length_bytes_of_u).
  rewrite <- El at 1. rewrite bytes_of_u_of_bytes.
  - unfold l. rewrite reverse_involutive, u_of_bytes_of_u, <- register_bytes_eq.
    by apply wrapu_id.
  - apply Forall_reverse, bytes_of_u_bytes.
Qed.

End rotations.

Lemma rotate_spec_witness :
  let _ := RV32 : Target in rol (ror 0x80000001 37) 37 = 0x80000001.
Proof.
  exact (proj1 (proj2 (proj2 (proj2
    (@rotate_spec RV32 0x80000001 37 ltac:(vm_compute; split; congruence)))))).
Defined.

Lemma rotate_word_undefined_witness :
  let _ := RV64 : Target in rorw 0x80000001 1 = Undefined.
Proof.
  exact (proj1 (proj1 (@rotate_word_undefined RV64 0x80000001 1 eq_refl) ltac:(discriminate))).
Defined.

Lemma bit_ops_spec_witness :
  let _ := RV64 : Target in bext 0x10 68 = 1 /\ sextb 0x80 = ux (wraps 8 0x80).
Proof.
  pose proof (@bit_ops_spec RV64 0x80 68 ltac:(vm_compute; split; congruence)) as H.
  split; [reflexivity|exact (proj1 (proj2 (proj2 H)))].
Defined.

Lemma byte_ops_spec_witness :
  let _ := RV32 : Target in rev8 0x01020304 = 0x04030201 /\ rev8 (rev8 0x01020304) = 0x01020304.
Proof.
  split; [reflexivity|].
  exact (proj1 (proj2 (@byte_ops_spec RV32 0x01020304 ltac:(vm_compute; split; congruence)))).
Defined.
