(* ===== verification/RiscvFloat.v ===== *)
(** The floating-point instructions of the RISC-V simulator
    ([runtime/vm/simulator_riscv.cc], [InterpretFMADD] to [InterpretOPFP]).

    A [float] or [double] is its IEEE 754 bit pattern.  The C++ operators and
    library functions the simulator applies to them are modelled by the Standard
    Library's reference arithmetic ([SpecFloat], round to nearest even, the host's
    default), except that the bit pattern of a NaN result is left to the host:
    IEEE 754 does not fix it, so it is the class argument [HostFPU]. *)
From stdpp Require Import base numbers list gmap.
From Stdlib Require Import ZArith Lia SpecFloat.
From S2P Require Import Prelude Utils RiscvEncoding RiscvState.
Local Open Scope Z_scope.
Local Open Scope cxx_scope.

Inductive format := binary32 | binary64.

Definition prec (f : format) : Z := match f with binary32 => 24 | binary64 => 53 end.
Definition emax (f : format) : Z := match f with binary32 => 128 | binary64 => 1024 end.
Definition width (f : format) : Z := match f with binary32 => 32 | binary64 => 64 end.
(** Width of the fraction field and of the exponent field. *)
Definition frac_bits (f : format) : Z := prec f - 1.
Definition exp_bits (f : format) : Z := width f - prec f.

Definition sign_field (f : format) (x : Z) : bool := Z.testbit x (width f - 1).
Definition exp_field (f : format) (x : Z) : Z := (x >> frac_bits f) .& Z.ones (exp_bits f).
Definition frac_field (f : format) (x : Z) : Z := x .& Z.ones (frac_bits f).

(** The datum a bit pattern represents, and back. *)
Definition decode (f : format) (x : Z) : spec_float :=
  let s := sign_field f x in
  let e := exp_field f x in
  let m := frac_field f x in
  let emin := 3 - emax f - prec f in
  if e =? 0 then
    match m with Zpos p => S754_finite s p emin | _ => S754_zero s end
  else if e =? Z.ones (exp_bits f) then
    if m =? 0 then S754_infinity s else S754_nan
  else
    match m + 2 ^ frac_bits f with
    | Zpos p => S754_finite s p (e - 1 + emin)
    | _ => S754_nan
    end.

Definition pattern (f : format) (s : bool) (e m : Z) : Z :=
  ((if s then 1 else 0) << (width f - 1)) .| (e << frac_bits f) .| m.

(** [nan] is the pattern to use when the datum is a NaN. *)
Definition encode (f : format) (nan : Z) (x : spec_float) : Z :=
  let emin := 3 - emax f - prec f in
  match x with
  | S754_zero s => pattern f s 0 0
  | S754_infinity s => pattern f s (Z.ones (exp_bits f)) 0
  | S754_nan => nan
  | S754_finite s m e =>
      if Zpos m <? 2 ^ frac_bits f then pattern f s 0 (Zpos m)
      else pattern f s (e - emin + 1) (Zpos m - 2 ^ frac_bits f)
  end.

(** [host_nan f xs]: the NaN the host computes from the operands [xs]. *)
Class HostFPU := host_nan : format -> list Z -> Z.

(** [std::numeric_limits<T>::quiet_NaN()]. *)
Definition quiet_NaN (f : format) : Z :=
  match f with binary32 => 0x7fc00000 | binary64 => 0x7ff8000000000000 end.

Section fpu.
Context `{HostFPU}.

Definition fop2 (op : Z -> Z -> spec_float -> spec_float -> spec_float)
    (f : format) (a b : Z) : Z :=
  encode f (host_nan f [a; b]) (op (prec f) (emax f) (decode f a) (decode f b)).

Definition fadd : format -> Z -> Z -> Z := fop2 SFadd.
Definition fsub : format -> Z -> Z -> Z := fop2 SFsub.
Definition fmul : format -> Z -> Z -> Z := fop2 SFmul.
Definition fdiv : format -> Z -> Z -> Z := fop2 SFdiv.

Definition fsqrt (f : format) (a : Z) : Z :=
  encode f (host_nan f [a]) (SFsqrt (prec f) (emax f) (decode f a)).

(** Unary minus and [fabs] act on the sign bit. *)
Definition fneg (f : format) (a : Z) : Z := a .^ (1 << (width f - 1)).
Definition fabs (f : format) (a : Z) : Z := a .& Z.ones (width f - 1).

Definition feq (f : format) (a b : Z) : bool := SFeqb (decode f a) (decode f b).
Definition flt (f : format) (a b : Z) : bool := SFltb (decode f a) (decode f b).
Definition fle (f : format) (a b : Z) : bool := SFleb (decode f a) (decode f b).

Definition isnan (f : format) (a : Z) : bool :=
  match decode f a with S754_nan => true | _ => false end.
Definition signbit (f : format) (a : Z) : bool := sign_field f a.

(** [static_cast<T>(integer)]. *)
Definition f_of_int (f : format) (z : Z) : Z :=
  encode f (quiet_NaN f) (binary_normalize (prec f) (emax f) z 0 false).

(** [static_cast] between [float] and [double]. *)
Definition f_cast (from to : format) (a : Z) : Z :=
  match decode from a with
  | S754_finite s m e =>
      encode to (quiet_NaN to) (binary_round (prec to) (emax to) s m e)
  | S754_nan => host_nan to [a]
  | x => encode to (quiet_NaN to) x
  end.

(** Rounding a finite datum [(-1)^s m 2^e] to an integral value. *)
Inductive int_rounding := Trunc | Floor | Ceil | NearestAway.

Definition int_magnitude (r : int_rounding) (s : bool) (m e : Z) : Z :=
  let d := 2 ^ (- e) in
  let q := m / d in
  match r with
  | Trunc => q
  | Floor => if s && negb (m mod d =? 0) then q + 1 else q
  | Ceil => if negb s && negb (m mod d =? 0) then q + 1 else q
  | NearestAway => (2 * m + d) / (2 * d)
  end.

(** [truncf], [floorf], [ceilf], [roundf] and their [double] versions. *)
Definition fint (r : int_rounding) (f : format) (a : Z) : Z :=
  match decode f a with
  | S754_finite s m e =>
      if 0 <=? e then a
      else
        let q := int_magnitude r s (Zpos m) e in
        encode f (quiet_NaN f)
          (if q =? 0 then S754_zero s
           else binary_normalize (prec f) (emax f) (if s then - q else q) 0 s)
  | S754_nan => host_nan f [a]
  | _ => a
  end.

(** The truncated value of a finite datum, as an integer. *)
Definition int_value (f : format) (a : Z) : option Z :=
  match decode f a with
  | S754_zero _ => Some 0
  | S754_finite s m e =>
      let q := if 0 <=? e then Zpos m * 2 ^ e else Zpos m / 2 ^ (- e) in
      Some (if s then - q else q)
  | _ => None
  end.

(** [static_cast<integer>(x)] for an integer type with range [lo..hi]: undefined
    when the truncated value does not fit. *)
Definition int_of_f (f : format) (lo hi a : Z) : result Z :=
  match int_value f a with
  | Some z => if (lo <=? z) && (z <=? hi) then Ok z else Undefined
  | None => Undefined
  end.

(** [fmod(x, 2) != 0] for an integral [x]. *)
Definition fmod2_ne0 (f : format) (a : Z) : bool :=
  match int_value f a with Some z => Z.odd z | None => true end.

(** ** Minimum, maximum, classification *)

Definition rv_fmin (f : format) (x y : Z) : Z :=
  if isnan f x && isnan f y then quiet_NaN f
  else if isnan f x then y
  else if isnan f y then x
  else if feq f x y then (if signbit f x then x else y)
  else if flt f x y then x else y.

Definition rv_fmax (f : format) (x y : Z) : Z :=
  if isnan f x && isnan f y then quiet_NaN f
  else if isnan f x then y
  else if isnan f y then x
  else if feq f x y then (if signbit f x then y else x)
  else if flt f y x then x else y.

Definition is_quiet (f : format) (x : Z) : bool :=
  negb (x .& (1 << (frac_bits f - 1)) =? 0).

Definition fclass (f : format) (x : Z) : Z :=
  match decode f x with
  | S754_infinity s =>
      if s then FClass.kFClassNegInfinity else FClass.kFClassPosInfinity
  | S754_nan =>
      if is_quiet f x then FClass.kFClassQuietNan else FClass.kFClassSignallingNan
  | S754_zero s => if s then FClass.kFClassNegZero else FClass.kFClassPosZero
  | S754_finite s m _ =>
      if Zpos m <? 2 ^ frac_bits f then
        if s then FClass.kFClassNegSubnormal else FClass.kFClassPosSubnormal
      else if s then FClass.kFClassNegNormal else FClass.kFClassPosNormal
  end.

(** ** Conversion to integers *)

Definition roundeven (f : format) (x : Z) : Z :=
  let rounded := fint NearestAway f x in
  let half := match f with binary32 => 0x3f000000 | binary64 => 0x3fe0000000000000 end in
  let one := match f with binary32 => 0x3f800000 | binary64 => 0x3ff0000000000000 end in
  if feq f (fabs f (fsub f x rounded)) half then
    if fmod2_ne0 f rounded then
      if flt f 0 rounded then fsub f rounded one else fadd f rounded one
    else rounded
  else rounded.

Definition Round (f : format) (x rounding : Z) : result Z :=
  if rounding =? RoundingMode.RNE then Ok (roundeven f x)
  else if rounding =? RoundingMode.RTZ then Ok (fint Trunc f x)
  else if rounding =? RoundingMode.RDN then Ok (fint Floor f x)
  else if rounding =? RoundingMode.RUP then Ok (fint Ceil f x)
  else if rounding =? RoundingMode.RMM then Ok (fint NearestAway f x)
  else if rounding =? RoundingMode.DYN then Fatal UNIMPLEMENTED
  else Fatal InvalidRoundingMode.

(** The common shape of the eight [fcvt..] functions: saturate below [lo], round
    below [hi], saturate otherwise. *)
Definition fcvt (f : format) (lo hi x rounding : Z) : result Z :=
  if flt f x (f_of_int f lo) then Ok lo
  else if flt f x (f_of_int f hi) then
    y ← Round f x rounding; int_of_f f lo hi y
  else Ok hi.

Definition fcvtws : Z -> Z -> result Z := fcvt binary32 (- 2 ^ 31) (2 ^ 31 - 1).
Definition fcvtwus : Z -> Z -> result Z := fcvt binary32 0 (2 ^ 32 - 1).
Definition fcvtls : Z -> Z -> result Z := fcvt binary32 (- 2 ^ 63) (2 ^ 63 - 1).
Definition fcvtlus : Z -> Z -> result Z := fcvt binary32 0 (2 ^ 64 - 1).
Definition fcvtwd : Z -> Z -> result Z := fcvt binary64 (- 2 ^ 31) (2 ^ 31 - 1).
Definition fcvtwud : Z -> Z -> result Z := fcvt binary64 0 (2 ^ 32 - 1).
Definition fcvtld : Z -> Z -> result Z := fcvt binary64 (- 2 ^ 63) (2 ^ 63 - 1).
Definition fcvtlud : Z -> Z -> result Z := fcvt binary64 0 (2 ^ 64 - 1).

End fpu.
