(* ===== verification/RiscvInterp.v ===== *)
(** The 32-bit instructions of the RISC-V simulator
    ([runtime/vm/simulator_riscv.cc], [Simulator::Interpret(Instr)] and the members
    it calls).  Every member is a function from the state to an outcome; the final
    [pc_ += instr.length()] of a member is [advance]. *)
From stdpp Require Import base numbers list gmap.
From Stdlib Require Import ZArith Lia.
From S2P Require Import Prelude Utils Random RiscvEncoding RiscvState RiscvAlu RiscvFloat.
Local Open Scope Z_scope.
Local Open Scope cxx_scope.

(** A host function called through a redirection either returns to the simulator,
    having changed its state in any way and with a result, or throws: the runtime
    then unwinds to a setjmp buffer with the state [JumpToFrame] has set up. *)
Inductive host_result :=
| HostReturn (s : Simulator) (res : Z)
| HostUnwind (s : Simulator).

Class Host := host_function : Z -> CallKind -> Simulator -> host_result.

Section interp.
Context `{Target} `{Debug} `{HostFPU} `{Host}.

Definition illegal {A} (i : Z) : result A := Fatal (IllegalInstruction i).

Definition advance (s : Simulator) : Simulator := add_pc s Instr.length.

(** [set_xreg(rd, v); pc_ += instr.length()]. *)
Definition retire (i : Z) (s : Simulator) (v : Z) : result Simulator :=
  Ok (advance (set_xreg s (Instr.rd i) v)).

(** The operands of an instruction: [rs1], [rs2] and the I immediate. *)
Definition X1 (i : Z) (s : Simulator) : Z := get_xreg s (Instr.rs1 i).
Definition X2 (i : Z) (s : Simulator) : Z := get_xreg s (Instr.rs2 i).
Definition S1 (f : format) (i : Z) (s : Simulator) : Z :=
  match f with
  | binary32 => get_fregs s (Instr.frs1 i)
  | binary64 => get_fregd s (Instr.frs1 i)
  end.
Definition S2 (f : format) (i : Z) (s : Simulator) : Z :=
  match f with
  | binary32 => get_fregs s (Instr.frs2 i)
  | binary64 => get_fregd s (Instr.frs2 i)
  end.
Definition S3 (f : format) (i : Z) (s : Simulator) : Z :=
  match f with
  | binary32 => get_fregs s (Instr.frs3 i)
  | binary64 => get_fregd s (Instr.frs3 i)
  end.
Definition set_freg (f : format) (s : Simulator) (rd v : Z) : Simulator :=
  match f with binary32 => set_fregs s rd v | binary64 => set_fregd s rd v end.
Definition fretire (f : format) (i : Z) (s : Simulator) (v : Z) : result Simulator :=
  Ok (advance (set_freg f s (Instr.frd i) v)).

(** ** Upper immediates, jumps, branches *)

Definition InterpretLUI (i : Z) (s : Simulator) : result Simulator :=
  retire i s (sign_extend_i64 (Instr.utype_imm i)).

Definition InterpretAUIPC (i : Z) (s : Simulator) : result Simulator :=
  retire i s (pc_ s + sign_extend_i64 (Instr.utype_imm i)).

Definition InterpretJAL (i : Z) (s : Simulator) : result Simulator :=
  let s := set_xreg s (Instr.rd i) (ux (pc_ s + Instr.length)) in
  Ok (add_pc s (sign_extend_i64 (Instr.jtype_imm i))).

Definition InterpretJALR (i : Z) (s : Simulator) : result Simulator :=
  let base := X1 i s in
  let offset := ux (Instr.itype_imm i) in
  let s := set_xreg s (Instr.rd i) (ux (pc_ s + Instr.length)) in
  Ok (with_pc s (ux (base + offset))).

Definition InterpretBRANCH (i : Z) (s : Simulator) : result Simulator :=
  let branch (taken : bool) :=
    Ok (add_pc s (if taken then Instr.btype_imm i else Instr.length)) in
  let f3 := Instr.funct3 i in
  if f3 =? Funct3.BEQ then branch (X1 i s =? X2 i s)
  else if f3 =? Funct3.BNE then branch (negb (X1 i s =? X2 i s))
  else if f3 =? Funct3.BLT then branch (sx (X1 i s) <? sx (X2 i s))
  else if f3 =? Funct3.BGE then branch (sx (X2 i s) <=? sx (X1 i s))
  else if f3 =? Funct3.BLTU then branch (X1 i s <? X2 i s)
  else if f3 =? Funct3.BGEU then branch (X2 i s <=? X1 i s)
  else illegal i.

(** ** Loads and stores *)

Definition InterpretLOAD (i : Z) (s : Simulator) : result Simulator :=
  let addr := ux (X1 i s + Instr.itype_imm i) in
  let load (t : ctype) :=
    v ← MemoryRead t s addr (Instr.rs1 i); retire i s v in
  let f3 := Instr.funct3 i in
  if f3 =? Funct3.LB then load int8_t
  else if f3 =? Funct3.LH then load int16_t
  else if f3 =? Funct3.LW then load int32_t
  else if f3 =? Funct3.LBU then load uint8_t
  else if f3 =? Funct3.LHU then load uint16_t
  else if is64 && (f3 =? Funct3.LWU) then load uint32_t
  else if is64 && (f3 =? Funct3.LD) then load int64_t
  else illegal i.

Definition InterpretLOADFP (i : Z) (s : Simulator) : result Simulator :=
  let addr := ux (X1 i s + Instr.itype_imm i) in
  let f3 := Instr.funct3 i in
  if f3 =? Funct3.S then
    v ← MemoryRead float_t s addr (Instr.rs1 i); fretire binary32 i s v
  else if f3 =? Funct3.D then
    v ← MemoryRead double_t s addr (Instr.rs1 i); fretire binary64 i s v
  else illegal i.

Definition InterpretSTORE (i : Z) (s : Simulator) : result Simulator :=
  let addr := ux (X1 i s + Instr.stype_imm i) in
  let store (t : ctype) :=
    s ← MemoryWrite t s addr (X2 i s) (Instr.rs1 i); Ok (advance s) in
  let f3 := Instr.funct3 i in
  if f3 =? Funct3.SB then store uint8_t
  else if f3 =? Funct3.SH then store uint16_t
  else if f3 =? Funct3.SW then store uint32_t
  else if is64 && (f3 =? Funct3.SD) then store uint64_t
  else illegal i.

Definition InterpretSTOREFP (i : Z) (s : Simulator) : result Simulator :=
  let addr := ux (X1 i s + Instr.stype_imm i) in
  let f3 := Instr.funct3 i in
  if f3 =? Funct3.S then
    s ← MemoryWrite float_t s addr (S2 binary32 i s) (Instr.rs1 i); Ok (advance s)
  else if f3 =? Funct3.D then
    s ← MemoryWrite double_t s addr (S2 binary64 i s) (Instr.rs1 i); Ok (advance s)
  else illegal i.

(** ** Register-immediate operations *)

Definition InterpretOPIMM (i : Z) (s : Simulator) : result Simulator :=
  let imm := Instr.itype_imm i in
  let shamt := Instr.shamt i in
  let f3 := Instr.funct3 i in
  let f7 := Instr.funct7 i in
  if f3 =? Funct3.ADDI then retire i s (X1 i s + imm)
  else if f3 =? Funct3.SLTI then retire i s (if sx (X1 i s) <? sx imm then 1 else 0)
  else if f3 =? Funct3.SLTIU then retire i s (if X1 i s <? ux imm then 1 else 0)
  else if f3 =? Funct3.XORI then retire i s (X1 i s .^ ux imm)
  else if f3 =? Funct3.ORI then retire i s (X1 i s .| ux imm)
  else if f3 =? Funct3.ANDI then retire i s (X1 i s .& ux imm)
  else if f3 =? Funct3.SLLI then
    if f7 =? Funct7.COUNT then
      if shamt =? 0 then retire i s (clz (X1 i s))
      else if shamt =? 1 then retire i s (ctz (X1 i s))
      else if shamt =? 2 then retire i s (cpop (X1 i s))
      else if shamt =? 4 then retire i s (sextb (X1 i s))
      else if shamt =? 5 then retire i s (sexth (X1 i s))
      else illegal i
    else if f7 .& 126 =? Funct7.BCLRBEXT then retire i s (bclr (X1 i s) shamt)
    else if f7 .& 126 =? Funct7.BINV then retire i s (binv (X1 i s) shamt)
    else if f7 .& 126 =? Funct7.BSET then retire i s (bset (X1 i s) shamt)
    else retire i s (X1 i s << shamt)
  else if f3 =? Funct3.SRI then
    if f7 .& 126 =? Funct7.SRA then retire i s (sx (X1 i s) >> shamt)
    else if f7 .& 126 =? Funct7.ROTATE then retire i s (ror (X1 i s) shamt)
    else if f7 =? 20 then retire i s (orcb (X1 i s))
    else if f7 =? (if is32 then 52 else 53) then retire i s (rev8 (X1 i s))
    else if f7 .& 126 =? Funct7.BCLRBEXT then retire i s (bext (X1 i s) shamt)
    else retire i s (X1 i s >> shamt)
  else illegal i.

Definition InterpretOPIMM32 (i : Z) (s : Simulator) : result Simulator :=
  let shamt := Instr.shamt i in
  let f3 := Instr.funct3 i in
  let f7 := Instr.funct7 i in
  if f3 =? Funct3.ADDI then
    let a := u32 (X1 i s) in
    let b := u32 (Instr.itype_imm i) in
    retire i s (sign_extend_u32 (u32 (a + b)))
  else if f3 =? Funct3.SLLI then
    if f7 =? Funct7.SLLIUW then
      retire i s (u32 (X1 i s) << shamt)
    else if f7 =? Funct7.COUNT then
      if shamt =? 0 then retire i s (clzw (u32 (X1 i s)))
      else if shamt =? 1 then retire i s (ctzw (u32 (X1 i s)))
      else if shamt =? 2 then retire i s (cpopw (u32 (X1 i s)))
      else illegal i
    else
      v ← shl32 (u32 (X1 i s)) shamt; retire i s (sign_extend_u32 v)
  else if f3 =? Funct3.SRI then
    if f7 =? Funct7.SRA then
      v ← shr32 (wraps 32 (X1 i s)) shamt; retire i s (sign_extend_i32 v)
    else if f7 =? Funct7.ROTATE then
      v ← rorw (X1 i s) shamt; retire i s v
    else
      v ← shr32 (u32 (X1 i s)) shamt; retire i s (sign_extend_u32 v)
  else illegal i.

(** ** Register-register operations *)

Definition InterpretOP_0 (i : Z) (s : Simulator) : result Simulator :=
  let f3 := Instr.funct3 i in
  let shamt := X2 i s .& (XLEN - 1) in
  if f3 =? Funct3.ADD then retire i s (X1 i s + X2 i s)
  else if f3 =? Funct3.SLL then retire i s (X1 i s << shamt)
  else if f3 =? Funct3.SLT then
    retire i s (if sx (X1 i s) <? sx (X2 i s) then 1 else 0)
  else if f3 =? Funct3.SLTU then retire i s (if X1 i s <? X2 i s then 1 else 0)
  else if f3 =? Funct3.XOR then retire i s (X1 i s .^ X2 i s)
  else if f3 =? Funct3.SR then retire i s (X1 i s >> shamt)
  else if f3 =? Funct3.OR then retire i s (X1 i s .| X2 i s)
  else if f3 =? Funct3.AND then retire i s (X1 i s .& X2 i s)
  else illegal i.

Definition InterpretOP_MULDIV (i : Z) (s : Simulator) : result Simulator :=
  let f3 := Instr.funct3 i in
  let a := X1 i s in
  let b := X2 i s in
  if f3 =? Funct3.MUL then retire i s (mul (sx a) (sx b))
  else if f3 =? Funct3.MULH then retire i s (mulh (sx a) (sx b))
  else if f3 =? Funct3.MULHSU then retire i s (mulhsu (sx a) b)
  else if f3 =? Funct3.MULHU then retire i s (mulhu a b)
  else if f3 =? Funct3.DIV then retire i s (div (sx a) (sx b))
  else if f3 =? Funct3.DIVU then retire i s (divu a b)
  else if f3 =? Funct3.REM then retire i s (rem (sx a) (sx b))
  else if f3 =? Funct3.REMU then retire i s (remu a b)
  else illegal i.

Definition InterpretOP_SUB (i : Z) (s : Simulator) : result Simulator :=
  let f3 := Instr.funct3 i in
  if f3 =? Funct3.ADD then retire i s (X1 i s - X2 i s)
  else if f3 =? Funct3.SR then retire i s (sx (X1 i s) >> (X2 i s .& (XLEN - 1)))
  else if f3 =? Funct3.AND then retire i s (X1 i s .& ux (Z.lnot (X2 i s)))
  else if f3 =? Funct3.OR then retire i s (X1 i s .| ux (Z.lnot (X2 i s)))
  else if f3 =? Funct3.XOR then retire i s (X1 i s .^ ux (Z.lnot (X2 i s)))
  else illegal i.

Definition InterpretOP_SHADD (i : Z) (s : Simulator) : result Simulator :=
  let f3 := Instr.funct3 i in
  if f3 =? Funct3.SH1ADD then retire i s (ux (X1 i s << 1) + X2 i s)
  else if f3 =? Funct3.SH2ADD then retire i s (ux (X1 i s << 2) + X2 i s)
  else if f3 =? Funct3.SH3ADD then retire i s (ux (X1 i s << 3) + X2 i s)
  else illegal i.

Definition InterpretOP_MINMAXCLMUL (i : Z) (s : Simulator) : result Simulator :=
  let f3 := Instr.funct3 i in
  let a := X1 i s in
  let b := X2 i s in
  if f3 =? Funct3.MAX then retire i s (max (sx a) (sx b))
  else if f3 =? Funct3.MAXU then retire i s (maxu a b)
  else if f3 =? Funct3.MIN then retire i s (min (sx a) (sx b))
  else if f3 =? Funct3.MINU then retire i s (minu a b)
  else if f3 =? Funct3.CLMUL then retire i s (clmul a b)
  else if f3 =? Funct3.CLMULH then retire i s (clmulh a b)
  else if f3 =? Funct3.CLMULR then retire i s (clmulr a b)
  else illegal i.

Definition InterpretOP_ROTATE (i : Z) (s : Simulator) : result Simulator :=
  let f3 := Instr.funct3 i in
  if f3 =? Funct3.ROR then retire i s (ror (X1 i s) (X2 i s))
  else if f3 =? Funct3.ROL then retire i s (rol (X1 i s) (X2 i s))
  else illegal i.

Definition InterpretOP_BCLRBEXT (i : Z) (s : Simulator) : result Simulator :=
  let f3 := Instr.funct3 i in
  if f3 =? Funct3.BCLR then retire i s (bclr (X1 i s) (X2 i s))
  else if f3 =? Funct3.BEXT then retire i s (bext (X1 i s) (X2 i s))
  else illegal i.

Definition InterpretOP (i : Z) (s : Simulator) : result Simulator :=
  let f7 := Instr.funct7 i in
  if f7 =? 0 then InterpretOP_0 i s
  else if f7 =? Funct7.SUB then InterpretOP_SUB i s
  else if f7 =? Funct7.MULDIV then InterpretOP_MULDIV i s
  else if f7 =? Funct7.SHADD then InterpretOP_SHADD i s
  else if f7 =? Funct7.MINMAXCLMUL then InterpretOP_MINMAXCLMUL i s
  else if f7 =? Funct7.ROTATE then InterpretOP_ROTATE i s
  else if f7 =? Funct7.BCLRBEXT then InterpretOP_BCLRBEXT i s
  else if f7 =? Funct7.BINV then retire i s (binv (X1 i s) (X2 i s))
  else if f7 =? Funct7.BSET then retire i s (bset (X1 i s) (X2 i s))
  else if is32 && (f7 =? 4) then retire i s (zexth (X1 i s))
  else illegal i.

(** ** Word operations *)

Definition InterpretOP32_0 (i : Z) (s : Simulator) : result Simulator :=
  let f3 := Instr.funct3 i in
  let a := u32 (X1 i s) in
  let shamt := X2 i s .& (32 - 1) in
  if is64 && (f3 =? Funct3.ADD) then
    retire i s (sign_extend_u32 (u32 (a + u32 (X2 i s))))
  else if is64 && (f3 =? Funct3.SLL) then
    v ← shl32 a shamt; retire i s (sign_extend_u32 v)
  else if is64 && (f3 =? Funct3.SR) then
    v ← shr32 a shamt; retire i s (sign_extend_u32 v)
  else illegal i.

Definition InterpretOP32_SUB (i : Z) (s : Simulator) : result Simulator :=
  let f3 := Instr.funct3 i in
  if is64 && (f3 =? Funct3.ADD) then
    retire i s (sign_extend_u32 (u32 (u32 (X1 i s) - u32 (X2 i s))))
  else if is64 && (f3 =? Funct3.SR) then
    v ← shr32 (wraps 32 (X1 i s)) (X2 i s .& (32 - 1)); retire i s (sign_extend_i32 v)
  else illegal i.

Definition InterpretOP32_MULDIV (i : Z) (s : Simulator) : result Simulator :=
  let f3 := Instr.funct3 i in
  let a := wraps 32 (X1 i s) in
  let b := wraps 32 (X2 i s) in
  if is64 && (f3 =? Funct3.MULW) then
    v ← mulw a b; retire i s (sign_extend_i32 v)
  else if is64 && (f3 =? Funct3.DIVW) then retire i s (sign_extend_i32 (divw a b))
  else if is64 && (f3 =? Funct3.DIVUW) then
    retire i s (sign_extend_u32 (divuw (u32 (X1 i s)) (u32 (X2 i s))))
  else if is64 && (f3 =? Funct3.REMW) then retire i s (sign_extend_i32 (remw a b))
  else if is64 && (f3 =? Funct3.REMUW) then
    retire i s (sign_extend_u32 (remuw (u32 (X1 i s)) (u32 (X2 i s))))
  else illegal i.

Definition InterpretOP32_SHADD (i : Z) (s : Simulator) : result Simulator :=
  let f3 := Instr.funct3 i in
  let a := u32 (X1 i s) in
  if f3 =? Funct3.SH1ADD then retire i s (ux (a << 1) + X2 i s)
  else if f3 =? Funct3.SH2ADD then retire i s (ux (a << 2) + X2 i s)
  else if f3 =? Funct3.SH3ADD then retire i s (ux (a << 3) + X2 i s)
  else illegal i.

Definition InterpretOP32_ADDUW (i : Z) (s : Simulator) : result Simulator :=
  let f3 := Instr.funct3 i in
  if is64 && (f3 =? Funct3.F3_0) then retire i s (u32 (X1 i s) + X2 i s)
  else if is64 && (f3 =? Funct3.ZEXT) then retire i s (zexth (X1 i s))
  else illegal i.

Definition InterpretOP32_ROTATE (i : Z) (s : Simulator) : result Simulator :=
  let f3 := Instr.funct3 i in
  if f3 =? Funct3.ROR then v ← rorw (X1 i s) (X2 i s); retire i s v
  else if f3 =? Funct3.ROL then v ← rolw (X1 i s) (X2 i s); retire i s v
  else illegal i.

Definition InterpretOP32 (i : Z) (s : Simulator) : result Simulator :=
  let f7 := Instr.funct7 i in
  if is64 && (f7 =? 0) then InterpretOP32_0 i s
  else if is64 && (f7 =? Funct7.SUB) then InterpretOP32_SUB i s
  else if is64 && (f7 =? Funct7.MULDIV) then InterpretOP32_MULDIV i s
  else if is64 && (f7 =? Funct7.SHADD) then InterpretOP32_SHADD i s
  else if is64 && (f7 =? Funct7.ADDUW) then InterpretOP32_ADDUW i s
  else if is64 && (f7 =? Funct7.ROTATE) then InterpretOP32_ROTATE i s
  else illegal i.

(** ** Fences, environment calls, CSRs *)

(** [std::atomic_thread_fence] orders memory accesses between threads; it does not
    change the state of this one. *)
Definition InterpretMISCMEM (i : Z) (s : Simulator) : result Simulator :=
  let f3 := Instr.funct3 i in
  if f3 =? Funct3.FENCE then Ok (advance s)
  else if f3 =? Funct3.FENCEI then Ok (advance s)
  else illegal i.

Definition InterpretEBREAK (s : Simulator) : result Simulator := Fatal EncounteredEBREAK.

Definition InterpretECALL (i : Z) (s : Simulator) : result Simulator :=
  if negb (Instr.rs1 i =? Reg.ZR) then
    (* Assembler::SimulatorPrintObject: prints an object, no effect on the state. *)
    Ok (advance s)
  else if negb (IsAligned (get_xreg s Reg.SP) 16) then Fatal StackMisaligned
  else
    let saved_ra := get_xreg s Reg.RA in
    match FromECallInstruction (redirections s) (pc_ s) with
    | None => Undefined
    | Some redirection =>
        match host_function (external_function_ redirection)
                (call_kind_ redirection) s with
        | HostUnwind s => Ok s
        | HostReturn s res =>
            let s := ClobberVolatileRegisters s in
            let s := match call_kind_ redirection with
                     | kRuntimeCall | kNativeCallWrapper => s
                     | kLeafRuntimeCall => set_xreg s Reg.A0 res
                     | kLeafFloatRuntimeCall => set_fregd s FReg.FA0 res
                     end in
            Ok (with_pc s saved_ra)
        end
    end.

Definition InterpretSYSTEM (i : Z) (s : Simulator) : result Simulator :=
  let f3 := Instr.funct3 i in
  let csr := Instr.csr i in
  let zimm := Instr.zimm i in
  let src := get_xreg s (Instr.rs1 i) in
  let write (v : Z) :=
    if Instr.rd i =? Reg.ZR then
      s ← CSRWrite s csr v; Ok (advance s)
    else
      result ← CSRRead s csr; s ← CSRWrite s csr v; retire i s result in
  if f3 =? 0 then
    if Instr.funct12 i =? Funct12.ECALL then InterpretECALL i s
    else if Instr.funct12 i =? Funct12.EBREAK then InterpretEBREAK s
    else illegal i
  else if f3 =? Funct3.CSRRW then write (sx src)
  else if f3 =? Funct3.CSRRS then
    result ← CSRRead s csr;
    s ← (if Instr.rs1 i =? Reg.ZR then Ok s else CSRSet s csr (sx src));
    retire i s result
  else if f3 =? Funct3.CSRRC then
    result ← CSRRead s csr;
    s ← (if Instr.rs1 i =? Reg.ZR then Ok s else CSRClear s csr (sx src));
    retire i s result
  else if f3 =? Funct3.CSRRWI then write zimm
  else if f3 =? Funct3.CSRRSI then
    result ← CSRRead s csr;
    s ← (if zimm =? 0 then Ok s else CSRSet s csr zimm);
    retire i s result
  else if f3 =? Funct3.CSRRCI then
    result ← CSRRead s csr;
    s ← (if zimm =? 0 then Ok s else CSRClear s csr zimm);
    retire i s result
  else illegal i.

(** ** Atomics

    The [std::atomic] operations, run without interference from other threads:
    the model is the simulator thread between two context switches. *)

Definition atomic_addr (t : ctype) (i : Z) (s : Simulator) : result Z :=
  let addr := X1 i s in
  if negb (addr .& (sizeof t - 1) =? 0) then Fatal MisalignedAtomic else Ok addr.

Definition InterpretLR (t : ctype) (i : Z) (s : Simulator) : result Simulator :=
  addr ← atomic_addr t i s;
  v ← LoadUnaligned t (memory s) addr;
  let s := with_reservation s addr (ux v) in
  Ok (set_xreg s (Instr.rd i) (reserved_value_ s)).

Definition InterpretSC (t : ctype) (i : Z) (s : Simulator) : result Simulator :=
  addr ← atomic_addr t i s;
  if negb (addr =? reserved_address_ s) then Ok (set_xreg s (Instr.rd i) 1)
  else
    let expected := convert t (reserved_value_ s) in
    let desired := convert t (X2 i s) in
    current ← LoadUnaligned t (memory s) addr;
    if current =? expected then
      m ← StoreUnaligned t (memory s) addr desired;
      Ok (set_xreg (with_memory s m) (Instr.rd i) 0)
    else Ok (set_xreg s (Instr.rd i) 1).

(** [sign_extend] at the type of the operation. *)
Definition sign_extend_t (t : ctype) (v : Z) : Z :=
  match t with
  | int32_t => sign_extend_i32 v
  | uint32_t => sign_extend_u32 v
  | int64_t => sign_extend_i64 v
  | _ => sign_extend_u64 v
  end.

(** The read-modify-write operations: the old value goes to [rd], [f old arg] to
    memory.  ([fetch_add] and friends wrap around; the compare-exchange loops of
    the minimum and maximum succeed with the value they loaded.) *)
Definition InterpretAMORMW (f : Z -> Z -> Z) (t : ctype) (i : Z) (s : Simulator)
    : result Simulator :=
  addr ← atomic_addr t i s;
  let arg := convert t (X2 i s) in
  old ← LoadUnaligned t (memory s) addr;
  m ← StoreUnaligned t (memory s) addr (convert t (f old arg));
  Ok (set_xreg (with_memory s m) (Instr.rd i) (sign_extend_t t old)).

Definition InterpretAMOSWAP := InterpretAMORMW (fun _ arg => arg).
Definition InterpretAMOADD := InterpretAMORMW Z.add.
Definition InterpretAMOXOR := InterpretAMORMW Z.lxor.
Definition InterpretAMOAND := InterpretAMORMW Z.land.
Definition InterpretAMOOR := InterpretAMORMW Z.lor.
Definition InterpretAMOMIN :=
  InterpretAMORMW (fun expected compare => if expected <? compare then expected else compare).
Definition InterpretAMOMAX :=
  InterpretAMORMW (fun expected compare => if compare <? expected then expected else compare).

(** The [switch] on [funct5], at the signed and the unsigned type of the width. *)
Definition amo_switch (t tu : ctype) (i : Z) (s : Simulator) : result Simulator :=
  let f5 := Instr.funct5 i in
  if f5 =? Funct5.LR then InterpretLR t i s
  else if f5 =? Funct5.SC then InterpretSC t i s
  else if f5 =? Funct5.AMOSWAP then InterpretAMOSWAP t i s
  else if f5 =? Funct5.AMOADD then InterpretAMOADD t i s
  else if f5 =? Funct5.AMOXOR then InterpretAMOXOR t i s
  else if f5 =? Funct5.AMOAND then InterpretAMOAND t i s
  else if f5 =? Funct5.AMOOR then InterpretAMOOR t i s
  else if f5 =? Funct5.AMOMIN then InterpretAMOMIN t i s
  else if f5 =? Funct5.AMOMAX then InterpretAMOMAX t i s
  else if f5 =? Funct5.AMOMINU then InterpretAMOMIN tu i s
  else if f5 =? Funct5.AMOMAXU then InterpretAMOMAX tu i s
  else illegal i.

Definition InterpretAMO32 (i : Z) (s : Simulator) : result Simulator :=
  s ← amo_switch int32_t uint32_t i s; Ok (advance s).

Definition InterpretAMO64 (i : Z) (s : Simulator) : result Simulator :=
  s ← (if is64 then amo_switch int64_t uint64_t i s else illegal i); Ok (advance s).

Definition InterpretAMO (i : Z) (s : Simulator) : result Simulator :=
  let f3 := Instr.funct3 i in
  if f3 =? Funct3.WIDTH32 then InterpretAMO32 i s
  else if f3 =? Funct3.WIDTH64 then InterpretAMO64 i s
  else illegal i.

(** ** Floating point *)

(** The [switch] on [funct2] of the four multiply-add instructions; [g f a b c]
    computes the result in format [f]. *)
Definition fma_switch (g : format -> Z -> Z -> Z -> Z) (i : Z) (s : Simulator)
    : result Simulator :=
  let f2 := Instr.funct2 i in
  let go (f : format) := fretire f i s (g f (S1 f i s) (S2 f i s) (S3 f i s)) in
  if f2 =? Funct2.F2_S then go binary32
  else if f2 =? Funct2.F2_D then go binary64
  else illegal i.

Definition InterpretFMADD :=
  fma_switch (fun f rs1 rs2 rs3 => fadd f (fmul f rs1 rs2) rs3).
Definition InterpretFMSUB :=
  fma_switch (fun f rs1 rs2 rs3 => fsub f (fmul f rs1 rs2) rs3).
Definition InterpretFNMSUB :=
  fma_switch (fun f rs1 rs2 rs3 => fadd f (fneg f (fmul f rs1 rs2)) rs3).
Definition InterpretFNMADD :=
  fma_switch (fun f rs1 rs2 rs3 => fsub f (fneg f (fmul f rs1 rs2)) rs3).

(** Sign injection on the bit patterns. *)
Definition InterpretFSGNJ (f : format) (i : Z) (s : Simulator) : result Simulator :=
  let kSignMask := 1 << (width f - 1) in
  let keep := wrapu (width f) (Z.lnot kSignMask) in
  let rs1 := S1 f i s in
  let rs2 := S2 f i s in
  let f3 := Instr.funct3 i in
  if f3 =? Funct3.J then fretire f i s ((rs1 .& keep) .| (rs2 .& kSignMask))
  else if f3 =? Funct3.JN then
    fretire f i s ((rs1 .& keep) .| (wrapu (width f) (Z.lnot rs2) .& kSignMask))
  else if f3 =? Funct3.JX then
    fretire f i s ((rs1 .& keep) .| ((rs1 .^ rs2) .& kSignMask))
  else illegal i.

Definition InterpretFMINMAX (f : format) (i : Z) (s : Simulator) : result Simulator :=
  let f3 := Instr.funct3 i in
  if f3 =? Funct3.FMIN then fretire f i s (rv_fmin f (S1 f i s) (S2 f i s))
  else if f3 =? Funct3.FMAX then fretire f i s (rv_fmax f (S1 f i s) (S2 f i s))
  else illegal i.

Definition InterpretFCMP (f : format) (i : Z) (s : Simulator) : result Simulator :=
  let f3 := Instr.funct3 i in
  let rs1 := S1 f i s in
  let rs2 := S2 f i s in
  if f3 =? Funct3.FEQ then retire i s (if feq f rs1 rs2 then 1 else 0)
  else if f3 =? Funct3.FLT then retire i s (if flt f rs1 rs2 then 1 else 0)
  else if f3 =? Funct3.FLE then retire i s (if fle f rs1 rs2 then 1 else 0)
  else illegal i.

(** [FCLASSS] and [FCLASSD]; the latter moves to an integer register only on
    64-bit targets. *)
Definition InterpretFCLASS (f : format) (i : Z) (s : Simulator) : result Simulator :=
  let f3 := Instr.funct3 i in
  let rs1 := S1 f i s in
  if f3 =? 1 then retire i s (fclass f rs1)
  else if f3 =? 0 then
    match f with
    | binary32 => retire i s (sign_extend_i32 (wraps 32 rs1))
    | binary64 => if is64 then retire i s (wraps 64 rs1) else illegal i
    end
  else illegal i.

Definition InterpretFCVTint (f : format) (i : Z) (s : Simulator) : result Simulator :=
  let rs1 := S1 f i s in
  let rm := Instr.rounding i in
  let w := match f with binary32 => fcvtws | binary64 => fcvtwd end in
  let wu := match f with binary32 => fcvtwus | binary64 => fcvtwud end in
  let l := match f with binary32 => fcvtls | binary64 => fcvtld end in
  let lu := match f with binary32 => fcvtlus | binary64 => fcvtlud end in
  let kind := Instr.rs2 i in
  if kind =? FcvtRs2.W then v ← w rs1 rm; retire i s (sign_extend_i32 v)
  else if kind =? FcvtRs2.WU then v ← wu rs1 rm; retire i s (sign_extend_u32 v)
  else if is64 && (kind =? FcvtRs2.L) then v ← l rs1 rm; retire i s (sign_extend_i64 v)
  else if is64 && (kind =? FcvtRs2.LU) then
    v ← lu rs1 rm; retire i s (sign_extend_u64 v)
  else illegal i.

Definition InterpretFCVTfromint (f : format) (i : Z) (s : Simulator) : result Simulator :=
  let kind := Instr.rs2 i in
  let x := X1 i s in
  if kind =? FcvtRs2.W then fretire f i s (f_of_int f (wraps 32 x))
  else if kind =? FcvtRs2.WU then fretire f i s (f_of_int f (u32 x))
  else if is64 && (kind =? FcvtRs2.L) then fretire f i s (f_of_int f (wraps 64 x))
  else if is64 && (kind =? FcvtRs2.LU) then fretire f i s (f_of_int f (wrapu 64 x))
  else illegal i.

Definition InterpretOPFP_S (i : Z) (s : Simulator) : option (result Simulator) :=
  let f := binary32 in
  let f7 := Instr.funct7 i in
  let rs1 := S1 f i s in
  let rs2 := S2 f i s in
  if f7 =? Funct7.FADDS then Some (fretire f i s (fadd f rs1 rs2))
  else if f7 =? Funct7.FSUBS then Some (fretire f i s (fsub f rs1 rs2))
  else if f7 =? Funct7.FMULS then Some (fretire f i s (fmul f rs1 rs2))
  else if f7 =? Funct7.FDIVS then Some (fretire f i s (fdiv f rs1 rs2))
  else if f7 =? Funct7.FSQRTS then Some (fretire f i s (fsqrt f rs1))
  else if f7 =? Funct7.FSGNJS then Some (InterpretFSGNJ f i s)
  else if f7 =? Funct7.FMINMAXS then Some (InterpretFMINMAX f i s)
  else if f7 =? Funct7.FCMPS then Some (InterpretFCMP f i s)
  else if f7 =? Funct7.FCLASSS then Some (InterpretFCLASS f i s)
  else if f7 =? Funct7.FCVTintS then Some (InterpretFCVTint f i s)
  else if f7 =? Funct7.FCVTSint then Some (InterpretFCVTfromint f i s)
  else if f7 =? Funct7.FMVWX then Some (fretire f i s (u32 (X1 i s)))
  else None.

Definition InterpretOPFP_D (i : Z) (s : Simulator) : option (result Simulator) :=
  let f := binary64 in
  let f7 := Instr.funct7 i in
  let rs1 := S1 f i s in
  let rs2 := S2 f i s in
  if f7 =? Funct7.FADDD then Some (fretire f i s (fadd f rs1 rs2))
  else if f7 =? Funct7.FSUBD then Some (fretire f i s (fsub f rs1 rs2))
  else if f7 =? Funct7.FMULD then Some (fretire f i s (fmul f rs1 rs2))
  else if f7 =? Funct7.FDIVD then Some (fretire f i s (fdiv f rs1 rs2))
  else if f7 =? Funct7.FSQRTD then Some (fretire f i s (fsqrt f rs1))
  else if f7 =? Funct7.FSGNJD then Some (InterpretFSGNJ f i s)
  else if f7 =? Funct7.FMINMAXD then Some (InterpretFMINMAX f i s)
  else if f7 =? Funct7.FCVTS then
    Some (if Instr.rs2 i =? 1 then
            fretire binary32 i s (f_cast binary64 binary32 (S1 binary64 i s))
          else illegal i)
  else if f7 =? Funct7.FCVTD then
    Some (if Instr.rs2 i =? 0 then
            fretire binary64 i s (f_cast binary32 binary64 (S1 binary32 i s))
          else illegal i)
  else if f7 =? Funct7.FCMPD then Some (InterpretFCMP f i s)
  else if f7 =? Funct7.FCLASSD then Some (InterpretFCLASS f i s)
  else if f7 =? Funct7.FCVTintD then Some (InterpretFCVTint f i s)
  else if f7 =? Funct7.FCVTDint then Some (InterpretFCVTfromint f i s)
  else if is64 && (f7 =? Funct7.FMVDX) then Some (fretire f i s (X1 i s))
  else None.

(** The [switch] on [funct7]: single precision, then double precision, as the
    source lists the cases. *)
Definition InterpretOPFP (i : Z) (s : Simulator) : result Simulator :=
  match InterpretOPFP_S i s with
  | Some r => r
  | None => match InterpretOPFP_D i s with Some r => r | None => illegal i end
  end.

(** ** Dispatch on the opcode *)

Definition Interpret (i : Z) (s : Simulator) : result Simulator :=
  let op := Instr.opcode i in
  if op =? Opcode.LUI then InterpretLUI i s
  else if op =? Opcode.AUIPC then InterpretAUIPC i s
  else if op =? Opcode.JAL then InterpretJAL i s
  else if op =? Opcode.JALR then InterpretJALR i s
  else if op =? Opcode.BRANCH then InterpretBRANCH i s
  else if op =? Opcode.LOAD then InterpretLOAD i s
  else if op =? Opcode.STORE then InterpretSTORE i s
  else if op =? Opcode.OPIMM then InterpretOPIMM i s
  else if op =? Opcode.OPIMM32 then InterpretOPIMM32 i s
  else if op =? Opcode.OP then InterpretOP i s
  else if op =? Opcode.OP32 then InterpretOP32 i s
  else if op =? Opcode.MISCMEM then InterpretMISCMEM i s
  else if op =? Opcode.SYSTEM then InterpretSYSTEM i s
  else if op =? Opcode.AMO then InterpretAMO i s
  else if op =? Opcode.LOADFP then InterpretLOADFP i s
  else if op =? Opcode.STOREFP then InterpretSTOREFP i s
  else if op =? Opcode.FMADD then InterpretFMADD i s
  else if op =? Opcode.FMSUB then InterpretFMSUB i s
  else if op =? Opcode.FNMADD then InterpretFNMADD i s
  else if op =? Opcode.FNMSUB then InterpretFNMSUB i s
  else if op =? Opcode.OPFP then InterpretOPFP i s
  else illegal i.

End interp.
