(* ===== verification/RiscvCompressed.v ===== *)
(** The 16-bit instructions of the RISC-V simulator ([Simulator::Interpret(CInstr)])
    and the execution loop ([ExecuteNoTrace]) of [runtime/vm/simulator_riscv.cc].

    The [switch] of [Interpret(CInstr)] is one function per group of cases; a case
    that leaves the [switch] with [break] ends in [cadvance], one that returns
    does not. *)
From stdpp Require Import base numbers list gmap.
From Stdlib Require Import ZArith Lia.
From S2P Require Import Prelude Utils Random RiscvEncoding RiscvState RiscvAlu RiscvFloat RiscvInterp.
Local Open Scope Z_scope.
Local Open Scope cxx_scope.

Section compressed.
Context `{Target} `{Debug} `{HostFPU} `{Host}.

Definition cadvance (s : Simulator) : Simulator := add_pc s CInstr.length.

(** [set_xreg(rd, v); break;]. *)
Definition cretire (rd v : Z) (s : Simulator) : result Simulator :=
  Ok (cadvance (set_xreg s rd v)).
Definition cfretire (f : format) (rd v : Z) (s : Simulator) : result Simulator :=
  Ok (cadvance (set_freg f s rd v)).

(** ** Stack-pointer-relative loads and stores *)
Definition InterpretC_LWSP (i : Z) (s : Simulator) : result Simulator :=
  let addr := ux (get_xreg s Reg.SP + CInstr.spload4_imm i) in
  v ← MemoryRead int32_t s addr Reg.SP; cretire (CInstr.rd i) v s.

(** [C_FLWSP] on 32-bit targets, [C_LDSP] on 64-bit ones. *)
Definition InterpretC_FLWSP_LDSP (i : Z) (s : Simulator) : result Simulator :=
  if is32 then
    let addr := ux (get_xreg s Reg.SP + CInstr.spload4_imm i) in
    v ← MemoryRead float_t s addr Reg.SP; cfretire binary32 (CInstr.frd i) v s
  else
    let addr := ux (get_xreg s Reg.SP + CInstr.spload8_imm i) in
    v ← MemoryRead int64_t s addr Reg.SP; cretire (CInstr.rd i) v s.

Definition InterpretC_FLDSP (i : Z) (s : Simulator) : result Simulator :=
  let addr := ux (get_xreg s Reg.SP + CInstr.spload8_imm i) in
  v ← MemoryRead double_t s addr Reg.SP; cfretire binary64 (CInstr.frd i) v s.

Definition InterpretC_SWSP (i : Z) (s : Simulator) : result Simulator :=
  let addr := ux (get_xreg s Reg.SP + CInstr.spstore4_imm i) in
  s ← MemoryWrite uint32_t s addr (get_xreg s (CInstr.rs2 i)) Reg.SP; Ok (cadvance s).

Definition InterpretC_FSWSP_SDSP (i : Z) (s : Simulator) : result Simulator :=
  if is32 then
    let addr := ux (get_xreg s Reg.SP + CInstr.spstore4_imm i) in
    s ← MemoryWrite float_t s addr (get_fregs s (CInstr.frs2 i)) Reg.SP; Ok (cadvance s)
  else
    let addr := ux (get_xreg s Reg.SP + CInstr.spstore8_imm i) in
    s ← MemoryWrite uint64_t s addr (get_xreg s (CInstr.rs2 i)) Reg.SP; Ok (cadvance s).

Definition InterpretC_FSDSP (i : Z) (s : Simulator) : result Simulator :=
  let addr := ux (get_xreg s Reg.SP + CInstr.spstore8_imm i) in
  s ← MemoryWrite double_t s addr (get_fregd s (CInstr.frs2 i)) Reg.SP; Ok (cadvance s).

(** ** Register-relative loads and stores *)
Definition InterpretC_LW (i : Z) (s : Simulator) : result Simulator :=
  let addr := ux (get_xreg s (CInstr.rs1p i) + CInstr.mem4_imm i) in
  v ← MemoryRead int32_t s addr (CInstr.rs1p i); cretire (CInstr.rdp i) v s.

Definition InterpretC_FLW_LD (i : Z) (s : Simulator) : result Simulator :=
  if is32 then
    let addr := ux (get_xreg s (CInstr.rs1p i) + CInstr.mem4_imm i) in
    v ← MemoryRead float_t s addr (CInstr.rs1p i); cfretire binary32 (CInstr.frdp i) v s
  else
    let addr := ux (get_xreg s (CInstr.rs1p i) + CInstr.mem8_imm i) in
    v ← MemoryRead int64_t s addr (CInstr.rs1p i); cretire (CInstr.rdp i) v s.

Definition InterpretC_FLD (i : Z) (s : Simulator) : result Simulator :=
  let addr := ux (get_xreg s (CInstr.rs1p i) + CInstr.mem8_imm i) in
  v ← MemoryRead double_t s addr (CInstr.rs1p i); cfretire binary64 (CInstr.frdp i) v s.

Definition InterpretC_SW (i : Z) (s : Simulator) : result Simulator :=
  let addr := ux (get_xreg s (CInstr.rs1p i) + CInstr.mem4_imm i) in
  s ← MemoryWrite uint32_t s addr (get_xreg s (CInstr.rs2p i)) (CInstr.rs1p i);
  Ok (cadvance s).

Definition InterpretC_FSW_SD (i : Z) (s : Simulator) : result Simulator :=
  if is32 then
    let addr := ux (get_xreg s (CInstr.rs1p i) + CInstr.mem4_imm i) in
    s ← MemoryWrite float_t s addr (get_fregs s (CInstr.frs2p i)) (CInstr.rs1p i);
    Ok (cadvance s)
  else
    let addr := ux (get_xreg s (CInstr.rs1p i) + CInstr.mem8_imm i) in
    s ← MemoryWrite uint64_t s addr (get_xreg s (CInstr.rs2p i)) (CInstr.rs1p i);
    Ok (cadvance s).

Definition InterpretC_FSD (i : Z) (s : Simulator) : result Simulator :=
  let addr := ux (get_xreg s (CInstr.rs1p i) + CInstr.mem8_imm i) in
  s ← MemoryWrite double_t s addr (get_fregd s (CInstr.frs2p i)) (CInstr.rs1p i);
  Ok (cadvance s).

(** ** Control flow *)
Definition InterpretC_J (i : Z) (s : Simulator) : result Simulator :=
  Ok (add_pc s (sign_extend_i32 (wraps 32 (CInstr.j_imm i)))).

Definition InterpretC_JAL (i : Z) (s : Simulator) : result Simulator :=
  let s := set_xreg s Reg.RA (ux (pc_ s + CInstr.length)) in
  Ok (add_pc s (sign_extend_i32 (wraps 32 (CInstr.j_imm i)))).

(** [C_JR], [C_MV], [C_JALR], [C_ADD] and [C_EBREAK] share an opcode. *)
Definition InterpretC_JR (i : Z) (s : Simulator) : result Simulator :=
  if negb (i .& (COpcode.C_JALR .^ COpcode.C_JR) =? 0) then
    if (CInstr.rs1 i =? Reg.ZR) && (CInstr.rs2 i =? Reg.ZR) then InterpretEBREAK s
    else if CInstr.rs2 i =? Reg.ZR then
      let target := get_xreg s (CInstr.rs1 i) in
      let s := set_xreg s Reg.RA (ux (pc_ s + CInstr.length)) in
      Ok (with_pc s target)
    else
      cretire (CInstr.rd i) (get_xreg s (CInstr.rs1 i) + get_xreg s (CInstr.rs2 i)) s
  else
    if negb (CInstr.rd i =? Reg.ZR) && negb (CInstr.rs2 i =? Reg.ZR) then
      cretire (CInstr.rd i) (get_xreg s (CInstr.rs2 i)) s
    else if negb (CInstr.rs2 i =? Reg.ZR) then illegal i
    else Ok (with_pc s (get_xreg s (CInstr.rs1 i))).

Definition InterpretC_BEQZ (i : Z) (s : Simulator) : result Simulator :=
  if get_xreg s (CInstr.rs1p i) =? 0 then Ok (add_pc s (CInstr.b_imm i))
  else Ok (cadvance s).

Definition InterpretC_BNEZ (i : Z) (s : Simulator) : result Simulator :=
  if negb (get_xreg s (CInstr.rs1p i) =? 0) then Ok (add_pc s (CInstr.b_imm i))
  else Ok (cadvance s).

(** ** Immediates *)
Definition InterpretC_LI (i : Z) (s : Simulator) : result Simulator :=
  if CInstr.rd i =? Reg.ZR then illegal i
  else cretire (CInstr.rd i) (sign_extend_i64 (CInstr.i_imm i)) s.

(** [C_LUI], and [C_ADDI16SP] when [rd] is [SP]. *)
Definition InterpretC_LUI (i : Z) (s : Simulator) : result Simulator :=
  if CInstr.rd i =? Reg.SP then
    if CInstr.i16_imm i =? 0 then illegal i
    else cretire (CInstr.rd i)
           (get_xreg s (CInstr.rs1 i) + sign_extend_i64 (CInstr.i16_imm i)) s
  else if (CInstr.rd i =? Reg.ZR) || (CInstr.u_imm i =? 0) then illegal i
  else cretire (CInstr.rd i) (sign_extend_i64 (CInstr.u_imm i)) s.

Definition InterpretC_ADDI (i : Z) (s : Simulator) : result Simulator :=
  cretire (CInstr.rd i) (get_xreg s (CInstr.rs1 i) + CInstr.i_imm i) s.

Definition InterpretC_ADDIW (i : Z) (s : Simulator) : result Simulator :=
  let a := u32 (get_xreg s (CInstr.rs1 i)) in
  let b := u32 (CInstr.i_imm i) in
  cretire (CInstr.rd i) (sign_extend_u32 (u32 (a + b))) s.

Definition InterpretC_ADDI4SPN (i : Z) (s : Simulator) : result Simulator :=
  if CInstr.i4spn_imm i =? 0 then illegal i
  else cretire (CInstr.rdp i) (get_xreg s Reg.SP + CInstr.i4spn_imm i) s.

Definition InterpretC_SLLI (i : Z) (s : Simulator) : result Simulator :=
  if CInstr.i_imm i =? 0 then illegal i
  else cretire (CInstr.rd i)
         (get_xreg s (CInstr.rs1 i) << (CInstr.i_imm i .& (XLEN - 1))) s.

(** ** Arithmetic on the popular registers *)
Definition InterpretC_RR (i : Z) (s : Simulator) : result Simulator :=
  let op := i .& COpcode.C_RR_MASK in
  let rs1p := CInstr.rs1p i in
  let a := get_xreg s rs1p in
  let b := get_xreg s (CInstr.rs2p i) in
  if op =? COpcode.C_AND then cretire rs1p (a .& b) s
  else if op =? COpcode.C_OR then cretire rs1p (a .| b) s
  else if op =? COpcode.C_XOR then cretire rs1p (a .^ b) s
  else if op =? COpcode.C_SUB then cretire rs1p (a - b) s
  else if op =? COpcode.C_ADDW then
    cretire rs1p (sign_extend_u32 (u32 (u32 a + u32 b))) s
  else if op =? COpcode.C_SUBW then
    cretire rs1p (sign_extend_u32 (u32 (u32 a - u32 b))) s
  else illegal i.

Definition InterpretC_MISCALU (i : Z) (s : Simulator) : result Simulator :=
  let op := i .& COpcode.C_MISCALU_MASK in
  let rs1p := CInstr.rs1p i in
  let imm := CInstr.i_imm i in
  if op =? COpcode.C_SRLI then
    if imm =? 0 then illegal i
    else cretire rs1p (get_xreg s rs1p >> (imm .& (XLEN - 1))) s
  else if op =? COpcode.C_SRAI then
    if imm =? 0 then illegal i
    else cretire rs1p (sx (get_xreg s rs1p) >> (imm .& (XLEN - 1))) s
  else if op =? COpcode.C_ANDI then cretire rs1p (get_xreg s rs1p .& ux imm) s
  else if op =? COpcode.C_RR then InterpretC_RR i s
  else illegal i.

(** [Simulator::Interpret(CInstr)]. *)
Definition InterpretC (i : Z) (s : Simulator) : result Simulator :=
  let op := CInstr.opcode i in
  if op =? COpcode.C_LWSP then InterpretC_LWSP i s
  else if op =? COpcode.C_LDSP then InterpretC_FLWSP_LDSP i s
  else if op =? COpcode.C_FLDSP then InterpretC_FLDSP i s
  else if op =? COpcode.C_SWSP then InterpretC_SWSP i s
  else if op =? COpcode.C_SDSP then InterpretC_FSWSP_SDSP i s
  else if op =? COpcode.C_FSDSP then InterpretC_FSDSP i s
  else if op =? COpcode.C_LW then InterpretC_LW i s
  else if op =? COpcode.C_LD then InterpretC_FLW_LD i s
  else if op =? COpcode.C_FLD then InterpretC_FLD i s
  else if op =? COpcode.C_SW then InterpretC_SW i s
  else if op =? COpcode.C_SD then InterpretC_FSW_SD i s
  else if op =? COpcode.C_FSD then InterpretC_FSD i s
  else if op =? COpcode.C_J then InterpretC_J i s
  else if is32 && (op =? COpcode.C_JAL) then InterpretC_JAL i s
  else if op =? COpcode.C_JR then InterpretC_JR i s
  else if op =? COpcode.C_BEQZ then InterpretC_BEQZ i s
  else if op =? COpcode.C_BNEZ then InterpretC_BNEZ i s
  else if op =? COpcode.C_LI then InterpretC_LI i s
  else if op =? COpcode.C_LUI then InterpretC_LUI i s
  else if op =? COpcode.C_ADDI then InterpretC_ADDI i s
  else if is64 && (op =? COpcode.C_ADDIW) then InterpretC_ADDIW i s
  else if op =? COpcode.C_ADDI4SPN then InterpretC_ADDI4SPN i s
  else if op =? COpcode.C_SLLI then InterpretC_SLLI i s
  else if op =? COpcode.C_MISCALU then InterpretC_MISCALU i s
  else illegal i.

(** ** The execution loop *)

(** One iteration of [ExecuteNoTrace]: fetch, interpret, count. *)
Definition execute_one (s : Simulator) : result Simulator :=
  parcel ← LoadUnaligned uint16_t (memory s) (pc_ s);
  s ← (if IsCInstruction parcel then InterpretC parcel s
       else
         instr ← LoadUnaligned uint32_t (memory s) (pc_ s);
         Interpret instr s);
  Ok (with_instret s (wrapu 64 (instret_ s + 1))).

(** [while (pc_ != kEndSimulatingPC)], for at most [fuel] iterations; [None] when
    the fuel does not suffice. *)
Fixpoint ExecuteNoTrace (fuel : nat) (s : Simulator) : option (result Simulator) :=
  if pc_ s =? kEndSimulatingPC then Some (Ok s)
  else
    match fuel with
    | O => None
    | S fuel =>
        match execute_one s with
        | Ok s => ExecuteNoTrace fuel s
        | Fatal e => Some (Fatal e)
        | Undefined => Some Undefined
        end
    end.

End compressed.
