(* ===== verification/RiscvInvariant.v ===== *)
(** The invariant of the RISC-V simulator's state: every register, counter and
    byte holds a value of its C++ type, the register files have 32 entries and the
    register [ZR] reads zero.  Every instruction preserves it. *)
From stdpp Require Import base numbers list gmap.
From Stdlib Require Import ZArith Lia.
From S2P Require Import Prelude Utils Random RiscvEncoding RiscvState RiscvAlu RiscvFloat RiscvInterp RiscvCompressed.
Local Open Scope Z_scope.
Local Open Scope cxx_scope.

Create HintDb wf discriminated.
#[export] Hint Constants Opaque : wf.

Section invariant.
Context `{Target} `{Debug}.

Record wf (s : Simulator) : Prop := {
  wf_pc : is_u XLEN (pc_ s);
  wf_xlen : length (xregs_ s) = 32%nat;
  wf_xregs : Forall (is_u XLEN) (xregs_ s);
  wf_zr : xregs_ s !! 0%nat = Some 0;
  wf_flen : length (fregs_ s) = 32%nat;
  wf_fregs : Forall (is_u 64) (fregs_ s);
  wf_instret : is_u 64 (instret_ s);
  wf_reserved : is_u XLEN (reserved_address_ s) /\ is_u XLEN (reserved_value_ s);
  wf_memory : map_Forall (fun _ b => is_u 8 b) (memory s);
}.

Lemma XLEN_cases : XLEN = 32 \/ XLEN = 64.
Proof. unfold XLEN. destruct target; auto. Qed.

Lemma XLEN_pos : 0 < XLEN.
Proof. destruct XLEN_cases; lia. Qed.

Lemma ux_u z : is_u XLEN (ux z).
Proof. apply wrapu_range. pose proof XLEN_pos; lia. Qed.

Lemma small_u z : 0 <= z < 2 ^ 32 -> is_u XLEN z.
Proof.
  unfold is_u. destruct XLEN_cases as [-> | ->]; [done|].
  pose proof (pow2_le 32 64 ltac:(lia)). lia.
Qed.

Lemma wf_get_xreg s r : wf s -> is_u XLEN (get_xreg s r).
Proof.
  intros Hs. unfold get_xreg.
  destruct (xregs_ s !! Z.to_nat r) as [v|] eqn:E.
  - rewrite (list_lookup_total_correct _ _ _ E).
    eapply Forall_lookup_1; [apply wf_xregs, Hs|done].
  - rewrite list_lookup_total_alt, E. by apply small_u.
Qed.

Lemma get_xreg_ZR s : wf s -> get_xreg s Reg.ZR = 0.
Proof. intros Hs. apply list_lookup_total_correct, wf_zr, Hs. Qed.

(** *** The state operations preserve the invariant *)

Lemma wf_with_pc s v : wf s -> is_u XLEN v -> wf (with_pc s v).
Proof. intros [] ?; by split. Qed.

Lemma wf_add_pc s d : wf s -> wf (add_pc s d).
Proof. intros; apply wf_with_pc; [done|apply ux_u]. Qed.

Lemma wf_with_instret s v : wf s -> is_u 64 v -> wf (with_instret s v).
Proof. intros [] ?; by split. Qed.

Lemma wf_with_reservation s a v :
  wf s -> is_u XLEN a -> is_u XLEN v -> wf (with_reservation s a v).
Proof. intros [] ??; by split. Qed.

Lemma wf_with_random s v : wf s -> wf (with_random s v).
Proof. intros []; by split. Qed.

Lemma wf_write_xreg s k v :
  wf s -> (k <> 0)%nat -> wf (with_xregs s (<[k := ux v]> (xregs_ s))).
Proof.
  intros [] ?; split; simpl; try done.
  - by rewrite length_insert.
  - apply Forall_insert; [done|apply ux_u].
  - by rewrite list_lookup_insert_ne.
Qed.

Lemma wf_set_xreg s rd v : wf s -> 0 <= rd -> wf (set_xreg s rd v).
Proof.
  intros Hs Hrd. unfold set_xreg, Reg.ZR.
  destruct (Z.eqb_spec rd 0); simpl; [done|]. apply wf_write_xreg; [done|lia].
Qed.

Lemma wf_write_freg s k v :
  wf s -> is_u 64 v -> wf (with_fregs s (<[k := v]> (fregs_ s))).
Proof.
  intros [] ?; split; simpl; try done.
  - by rewrite length_insert.
  - by apply Forall_insert.
Qed.

Lemma wf_set_fregd s rd v : wf s -> wf (set_fregd s rd v).
Proof. intros; apply wf_write_freg; [done|by apply wrapu_range]. Qed.

Lemma wf_with_memory s m :
  wf s -> map_Forall (fun _ b => is_u 8 b) m -> wf (with_memory s m).
Proof. intros [] ?; by split. Qed.

Lemma store_bytes_bytes m a bs m' :
  map_Forall (fun _ b => is_u 8 b) m -> Forall (is_u 8) bs ->
  store_bytes m a bs = Ok m' -> map_Forall (fun _ b => is_u 8 b) m'.
Proof.
  intros Hm Hbs. revert m a Hm. induction Hbs as [|b bs Hb _ IH]; simpl;
    intros m a Hm E; [by simplify_eq|].
  destruct (m !! a); [|done]. eapply IH; [|done]. by apply map_Forall_insert_2.
Qed.

Lemma StoreUnaligned_bytes t s a v m :
  wf s -> StoreUnaligned t (memory s) a v = Ok m ->
  map_Forall (fun _ b => is_u 8 b) m.
Proof.
  intros Hs. apply store_bytes_bytes; [apply wf_memory, Hs|apply bytes_of_u_bytes].
Qed.

(** *** Decoded register numbers are never negative *)

Lemma DecodeRegField_nonneg n e : 0 <= DecodeRegField n e.
Proof. apply Z.land_nonneg. lia. Qed.

Lemma DecodeRegPrimeField_pos n e : 0 <= DecodeRegPrimeField n e.
Proof.
  unfold DecodeRegPrimeField. pose proof (Z.land_nonneg (e >> n) 7). lia.
Qed.

End invariant.

(** ** Invariants

    A predicate on states that the state operations of the instructions preserve;
    [wf] is one, and so is [wf] together with what no instruction changes. *)
Class Invariant `{Target} `{Debug} (P : Simulator -> Prop) : Prop := {
  inv_wf s : P s -> wf s;
  inv_with_pc s v : P s -> is_u XLEN v -> P (with_pc s v);
  inv_set_xreg s rd v : P s -> 0 <= rd -> P (set_xreg s rd v);
  inv_set_fregd s rd v : P s -> P (set_fregd s rd v);
  inv_store t s a v m :
    P s -> StoreUnaligned t (memory s) a v = Ok m -> P (with_memory s m);
  inv_with_reservation s a v :
    P s -> is_u XLEN a -> is_u XLEN v -> P (with_reservation s a v);
  inv_clobber s : P s -> P (ClobberVolatileRegisters s);
}.

(** What the simulator needs of the host functions it calls: they keep the
    invariant. *)
Class HostOk `{Target} `{Host} (P : Simulator -> Prop) : Prop :=
  host_ok : forall f k s, P s ->
    match host_function f k s with HostReturn s' _ | HostUnwind s' => P s' end.

(** The outcomes that satisfy the invariant when they are states. *)
Definition wfo (P : Simulator -> Prop) (r : result Simulator) : Prop :=
  match r with Ok s => P s | _ => True end.

Section outcomes.
Context `{Target} `{Debug} {P : Simulator -> Prop} `{!Invariant P}.

Lemma inv_add_pc s d : P s -> P (add_pc s d).
Proof. intros; apply inv_with_pc; [done|apply ux_u]. Qed.

Lemma inv_set_freg f s rd v : P s -> P (set_freg f s rd v).
Proof. intros; destruct f; by apply inv_set_fregd. Qed.

Lemma inv_get_xreg s r : P s -> is_u XLEN (get_xreg s r).
Proof. intros; by apply wf_get_xreg, inv_wf. Qed.

Lemma inv_MemoryWrite t s a v base s' :
  P s -> MemoryWrite t s a v base = Ok s' -> P s'.
Proof.
  intros Hs. unfold MemoryWrite.
  intros (_ & _ & (m & Hm & [= <-])%bind_ok)%bind_ok. by eapply inv_store.
Qed.

Lemma wfo_if (b : bool) x y : wfo P x -> wfo P y -> wfo P (if b then x else y).
Proof. by destruct b. Qed.

Lemma wfo_bind {A} (x : result A) f :
  (forall a, x = Ok a -> wfo P (f a)) -> wfo P (x ≫= f).
Proof. destruct x; simpl; auto. Qed.

Lemma wfo_bind_wf (x : result Simulator) f :
  wfo P x -> (forall a, P a -> wfo P (f a)) -> wfo P (x ≫= f).
Proof. destruct x; simpl; auto. Qed.

Lemma wfo_ok s : P s -> wfo P (Ok s).
Proof. done. Qed.

Lemma wfo_illegal i : wfo P (illegal i).
Proof. done. Qed.

Lemma wfo_retire i s v : P s -> wfo P (retire i s v).
Proof. intros. apply inv_add_pc, inv_set_xreg; [done|apply DecodeRegField_nonneg]. Qed.

Lemma wfo_fretire f i s v : P s -> wfo P (fretire f i s v).
Proof. intros. by apply inv_add_pc, inv_set_freg. Qed.

Lemma wfo_cretire rd s v : P s -> 0 <= rd -> wfo P (cretire rd v s).
Proof. intros. by apply inv_add_pc, inv_set_xreg. Qed.

Lemma wfo_cfretire f rd s v : P s -> wfo P (cfretire f rd v s).
Proof. intros. by apply inv_add_pc, inv_set_freg. Qed.

End outcomes.

#[export] Hint Resolve ux_u : wf.
#[export] Hint Extern 1 (0 <= _) =>
  first [apply DecodeRegField_nonneg | apply DecodeRegPrimeField_pos | done] : wf.

(** Walk down the conditionals and binds of an [Interpret..] function. *)
Ltac wfo_step :=
  match goal with
  | |- wfo _ (if _ then _ else _) => apply wfo_if
  | |- wfo _ (_ ≫= _) => apply wfo_bind; intros ? ?
  | |- wfo _ (Ok _) => apply wfo_ok
  | |- wfo _ (illegal _) => apply wfo_illegal
  | H : ?P ?s |- wfo ?P (retire _ ?s _) => exact (wfo_retire _ s _ H)
  | H : ?P ?s |- wfo ?P (fretire _ _ ?s _) => exact (wfo_fretire _ _ s _ H)
  | H : ?P ?s |- wfo ?P (cretire _ _ ?s) => apply (wfo_cretire _ s _ H); auto with wf
  | H : ?P ?s |- wfo ?P (cfretire _ _ _ ?s) => exact (wfo_cfretire _ _ s _ H)
  | |- wfo _ _ => solve [eauto with wf]
  | |- _ (advance _) => apply inv_add_pc
  | |- _ (cadvance _) => apply inv_add_pc
  | |- _ => solve [eauto with wf]
  end.
Ltac wfo := cbv zeta; repeat wfo_step.

Section wf_instance.
Context `{Target} `{Debug}.

Lemma wf_clobber_xreg k s : wf s -> wf (clobber_xreg (0 + Z.of_nat k * 1) s).
Proof.
  intros Hs. unfold clobber_xreg.
  destruct k as [|k]; [done|].
  destruct (negb _); [|done].
  destruct (Random.NextUInt64 (random_ s)) as [v r].
  apply wf_with_random, wf_write_xreg; [done|lia].
Qed.

Lemma wf_clobber_freg i s : wf s -> wf (clobber_freg i s).
Proof.
  intros Hs. unfold clobber_freg. destruct (negb _); [|done].
  by apply wf_write_freg.
Qed.

Lemma wf_ClobberVolatileRegisters s : wf s -> wf (ClobberVolatileRegisters s).
Proof.
  intros Hs. unfold ClobberVolatileRegisters. destruct DEBUG; [|done].
  apply (for_loop_inv (fun _ => wf)).
  - apply (for_loop_inv (fun _ => wf)).
    + apply wf_with_reservation; [done|by apply small_u..].
    + intros; by apply wf_clobber_xreg.
  - intros; by apply wf_clobber_freg.
Qed.

#[export] Instance wf_invariant : Invariant wf.
Proof.
  split; auto using wf_with_pc, wf_set_xreg, wf_set_fregd, wf_with_reservation,
    wf_ClobberVolatileRegisters.
  intros t s a v m Hs Hm. apply wf_with_memory; [done|]. by eapply StoreUnaligned_bytes.
Qed.

End wf_instance.

Section preservation.
Context `{Target} `{Debug} `{HostFPU} `{Host} {P : Simulator -> Prop}.
Context `{!Invariant P} `{!HostOk P}.

#[local] Hint Extern 1 (P (add_pc _ _)) => apply inv_add_pc : wf.
#[local] Hint Extern 1 (P (with_pc _ _)) => apply inv_with_pc : wf.
#[local] Hint Extern 1 (P (set_xreg _ _ _)) => apply inv_set_xreg : wf.
#[local] Hint Extern 1 (P (set_fregd _ _ _)) => apply inv_set_fregd : wf.
#[local] Hint Extern 1 (P (set_freg _ _ _ _)) => apply inv_set_freg : wf.
#[local] Hint Extern 1 (P (with_memory _ _)) => eapply inv_store : wf.
#[local] Hint Extern 1 (P (with_reservation _ _ _)) => apply inv_with_reservation : wf.
#[local] Hint Extern 1 (is_u XLEN (get_xreg _ _)) => apply inv_get_xreg : wf.
#[local] Hint Extern 2 (P _) => eapply inv_MemoryWrite : wf.

Lemma wfo_LUI i s : P s -> wfo P (InterpretLUI i s).
Proof. intros; unfold InterpretLUI; wfo. Qed.
Lemma wfo_AUIPC i s : P s -> wfo P (InterpretAUIPC i s).
Proof. intros; unfold InterpretAUIPC; wfo. Qed.
Lemma wfo_JAL i s : P s -> wfo P (InterpretJAL i s).
Proof. intros; unfold InterpretJAL; wfo. Qed.
Lemma wfo_JALR i s : P s -> wfo P (InterpretJALR i s).
Proof. intros; unfold InterpretJALR; wfo. Qed.
Lemma wfo_BRANCH i s : P s -> wfo P (InterpretBRANCH i s).
Proof. intros; unfold InterpretBRANCH; wfo. Qed.
Lemma wfo_LOAD i s : P s -> wfo P (InterpretLOAD i s).
Proof. intros; unfold InterpretLOAD; wfo. Qed.
Lemma wfo_LOADFP i s : P s -> wfo P (InterpretLOADFP i s).
Proof. intros; unfold InterpretLOADFP; wfo. Qed.
Lemma wfo_STORE i s : P s -> wfo P (InterpretSTORE i s).
Proof. intros; unfold InterpretSTORE; wfo. Qed.
Lemma wfo_STOREFP i s : P s -> wfo P (InterpretSTOREFP i s).
Proof. intros; unfold InterpretSTOREFP; wfo. Qed.
Lemma wfo_OPIMM i s : P s -> wfo P (InterpretOPIMM i s).
Proof. intros; unfold InterpretOPIMM; wfo. Qed.
Lemma wfo_OPIMM32 i s : P s -> wfo P (InterpretOPIMM32 i s).
Proof. intros; unfold InterpretOPIMM32; wfo. Qed.
Lemma wfo_OP_0 i s : P s -> wfo P (InterpretOP_0 i s).
Proof. intros; unfold InterpretOP_0; wfo. Qed.
Lemma wfo_OP_MULDIV i s : P s -> wfo P (InterpretOP_MULDIV i s).
Proof. intros; unfold InterpretOP_MULDIV; wfo. Qed.
Lemma wfo_OP_SUB i s : P s -> wfo P (InterpretOP_SUB i s).
Proof. intros; unfold InterpretOP_SUB; wfo. Qed.
Lemma wfo_OP_SHADD i s : P s -> wfo P (InterpretOP_SHADD i s).
Proof. intros; unfold InterpretOP_SHADD; wfo. Qed.
Lemma wfo_OP_MINMAXCLMUL i s : P s -> wfo P (InterpretOP_MINMAXCLMUL i s).
Proof. intros; unfold InterpretOP_MINMAXCLMUL; wfo. Qed.
Lemma wfo_OP_ROTATE i s : P s -> wfo P (InterpretOP_ROTATE i s).
Proof. intros; unfold InterpretOP_ROTATE; wfo. Qed.
Lemma wfo_OP_BCLRBEXT i s : P s -> wfo P (InterpretOP_BCLRBEXT i s).
Proof. intros; unfold InterpretOP_BCLRBEXT; wfo. Qed.
#[local] Hint Resolve wfo_LUI wfo_AUIPC wfo_JAL wfo_JALR wfo_BRANCH wfo_LOAD wfo_LOADFP wfo_STORE wfo_STOREFP wfo_OPIMM wfo_OPIMM32 wfo_OP_0 wfo_OP_MULDIV wfo_OP_SUB wfo_OP_SHADD wfo_OP_MINMAXCLMUL wfo_OP_ROTATE wfo_OP_BCLRBEXT : wf.

Lemma wfo_OP i s : P s -> wfo P (InterpretOP i s).
Proof. intros; unfold InterpretOP; wfo. Qed.
Lemma wfo_OP32_0 i s : P s -> wfo P (InterpretOP32_0 i s).
Proof. intros; unfold InterpretOP32_0; wfo. Qed.
Lemma wfo_OP32_SUB i s : P s -> wfo P (InterpretOP32_SUB i s).
Proof. intros; unfold InterpretOP32_SUB; wfo. Qed.
Lemma wfo_OP32_MULDIV i s : P s -> wfo P (InterpretOP32_MULDIV i s).
Proof. intros; unfold InterpretOP32_MULDIV; wfo. Qed.
Lemma wfo_OP32_SHADD i s : P s -> wfo P (InterpretOP32_SHADD i s).
Proof. intros; unfold InterpretOP32_SHADD; wfo. Qed.
Lemma wfo_OP32_ADDUW i s : P s -> wfo P (InterpretOP32_ADDUW i s).
Proof. intros; unfold InterpretOP32_ADDUW; wfo. Qed.
Lemma wfo_OP32_ROTATE i s : P s -> wfo P (InterpretOP32_ROTATE i s).
Proof. intros; unfold InterpretOP32_ROTATE; wfo. Qed.
#[local] Hint Resolve wfo_OP wfo_OP32_0 wfo_OP32_SUB wfo_OP32_MULDIV wfo_OP32_SHADD wfo_OP32_ADDUW wfo_OP32_ROTATE : wf.

Lemma wfo_OP32 i s : P s -> wfo P (InterpretOP32 i s).
Proof. intros; unfold InterpretOP32; wfo. Qed.
Lemma wfo_MISCMEM i s : P s -> wfo P (InterpretMISCMEM i s).
Proof. intros; unfold InterpretMISCMEM; wfo. Qed.

Lemma wfo_ECALL i s : P s -> wfo P (InterpretECALL i s).
Proof.
  intros Hs. unfold InterpretECALL. apply wfo_if; [by apply inv_add_pc|].
  apply wfo_if; [done|]. cbv zeta.
  destruct (FromECallInstruction _ _) as [r|]; [|done].
  pose proof (host_ok (external_function_ r) (call_kind_ r) s Hs).
  destruct (host_function _ _ s) as [s' res|s']; [|done].
  apply inv_with_pc; [|by apply inv_get_xreg].
  destruct (call_kind_ r); [..|by apply inv_clobber].
  - by apply inv_clobber.
  - by apply inv_set_xreg, (Z.lt_le_incl 0); [apply inv_clobber|].
  - by apply inv_set_fregd, inv_clobber.
Qed.

(** The CSR writes are unimplemented, so nothing follows them. *)
Ltac no_csr_write :=
  match goal with
  | E : (if ?b then Ok _ else _) = Ok _ |- _ => destruct b; simplify_eq
  | E : CSRWrite _ _ _ = Ok _ |- _ => discriminate E
  | E : CSRSet _ _ _ = Ok _ |- _ => discriminate E
  | E : CSRClear _ _ _ = Ok _ |- _ => discriminate E
  end.

Lemma wfo_SYSTEM i s : P s -> wfo P (InterpretSYSTEM i s).
Proof.
  intros. unfold InterpretSYSTEM.
  cbv zeta. repeat first [wfo_step | no_csr_write];
    first [done | by apply wfo_ECALL].
Qed.

Lemma wfo_LR t i s : P s -> wfo P (InterpretLR t i s).
Proof.
  intros. unfold InterpretLR. wfo. apply inv_set_xreg; [|apply DecodeRegField_nonneg].
  apply inv_with_reservation; [done| |apply ux_u].
  unfold atomic_addr in *. cbv zeta in *. destruct (negb _); simplify_eq.
  by apply inv_get_xreg.
Qed.

Lemma wfo_SC t i s : P s -> wfo P (InterpretSC t i s).
Proof.
  intros. unfold InterpretSC. wfo;
    (apply inv_set_xreg; [eauto with wf|apply DecodeRegField_nonneg]).
Qed.

Lemma wfo_AMORMW f t i s : P s -> wfo P (InterpretAMORMW f t i s).
Proof.
  intros. unfold InterpretAMORMW. wfo;
    (apply inv_set_xreg; [eauto with wf|apply DecodeRegField_nonneg]).
Qed.

#[local] Hint Resolve wfo_LR wfo_SC wfo_AMORMW : wf.

Lemma wfo_amo_switch t tu i s : P s -> wfo P (amo_switch t tu i s).
Proof. intros. unfold amo_switch. wfo; by apply wfo_AMORMW. Qed.

Lemma wfo_AMO i s : P s -> wfo P (InterpretAMO i s).
Proof.
  intros. unfold InterpretAMO, InterpretAMO32, InterpretAMO64. cbv zeta.
  repeat apply wfo_if; [..|apply wfo_illegal];
    (apply wfo_bind_wf; [|intros; by apply inv_add_pc]).
  - by apply wfo_amo_switch.
  - apply wfo_if; [by apply wfo_amo_switch|apply wfo_illegal].
Qed.

Lemma wfo_fma_switch g i s : P s -> wfo P (fma_switch g i s).
Proof. intros; unfold fma_switch; wfo. Qed.
Lemma wfo_FSGNJ f i s : P s -> wfo P (InterpretFSGNJ f i s).
Proof. intros; unfold InterpretFSGNJ; wfo. Qed.
Lemma wfo_FMINMAX f i s : P s -> wfo P (InterpretFMINMAX f i s).
Proof. intros; unfold InterpretFMINMAX; wfo. Qed.
Lemma wfo_FCMP f i s : P s -> wfo P (InterpretFCMP f i s).
Proof. intros; unfold InterpretFCMP; wfo. Qed.
Lemma wfo_FCLASS f i s : P s -> wfo P (InterpretFCLASS f i s).
Proof. intros; unfold InterpretFCLASS; destruct f; wfo. Qed.
Lemma wfo_FCVTint f i s : P s -> wfo P (InterpretFCVTint f i s).
Proof. intros; unfold InterpretFCVTint; wfo. Qed.
Lemma wfo_FCVTfromint f i s : P s -> wfo P (InterpretFCVTfromint f i s).
Proof. intros; unfold InterpretFCVTfromint; wfo. Qed.
#[local] Hint Resolve wfo_FSGNJ wfo_FMINMAX wfo_FCMP wfo_FCLASS wfo_FCVTint wfo_FCVTfromint : wf.

Definition wfo_opt (r : option (result Simulator)) : Prop :=
  match r with Some r => wfo P r | None => True end.

Lemma wfo_opt_if (b : bool) r x :
  wfo P r -> wfo_opt x -> wfo_opt (if b then Some r else x).
Proof. by destruct b. Qed.

(* Unification must not look inside the floating-point operations. *)
#[local] Opaque wfo.
Ltac wfo_opt_step :=
  lazymatch goal with
  | |- wfo_opt (if _ then _ else _) => apply wfo_opt_if; [wfo|]
  | |- wfo_opt None => exact I
  end.

Lemma wfo_OPFP_S i s : P s -> wfo_opt (InterpretOPFP_S i s).
Proof. intros. unfold InterpretOPFP_S; cbv zeta. repeat wfo_opt_step. Qed.
Lemma wfo_OPFP_D i s : P s -> wfo_opt (InterpretOPFP_D i s).
Proof. intros. unfold InterpretOPFP_D; cbv zeta. repeat wfo_opt_step. Qed.
#[local] Transparent wfo.

Lemma wfo_OPFP i s : P s -> wfo P (InterpretOPFP i s).
Proof.
  intros Hs. pose proof (wfo_OPFP_S i s Hs). pose proof (wfo_OPFP_D i s Hs).
  unfold InterpretOPFP. destruct (InterpretOPFP_S i s); [done|].
  by destruct (InterpretOPFP_D i s).
Qed.

#[local] Hint Resolve wfo_OP32 wfo_MISCMEM wfo_SYSTEM wfo_AMO wfo_OPFP : wf.

Lemma wfo_Interpret i s : P s -> wfo P (Interpret i s).
Proof. intros. unfold Interpret. wfo; by apply wfo_fma_switch. Qed.

(** *** Compressed instructions *)

Lemma wfo_C_LWSP i s : P s -> wfo P (InterpretC_LWSP i s).
Proof. intros; unfold InterpretC_LWSP; wfo. Qed.
Lemma wfo_C_FLWSP_LDSP i s : P s -> wfo P (InterpretC_FLWSP_LDSP i s).
Proof. intros; unfold InterpretC_FLWSP_LDSP; wfo. Qed.
Lemma wfo_C_FLDSP i s : P s -> wfo P (InterpretC_FLDSP i s).
Proof. intros; unfold InterpretC_FLDSP; wfo. Qed.
Lemma wfo_C_SWSP i s : P s -> wfo P (InterpretC_SWSP i s).
Proof. intros; unfold InterpretC_SWSP; wfo. Qed.
Lemma wfo_C_FSWSP_SDSP i s : P s -> wfo P (InterpretC_FSWSP_SDSP i s).
Proof. intros; unfold InterpretC_FSWSP_SDSP; wfo. Qed.
Lemma wfo_C_FSDSP i s : P s -> wfo P (InterpretC_FSDSP i s).
Proof. intros; unfold InterpretC_FSDSP; wfo. Qed.
Lemma wfo_C_LW i s : P s -> wfo P (InterpretC_LW i s).
Proof. intros; unfold InterpretC_LW; wfo. Qed.
Lemma wfo_C_FLW_LD i s : P s -> wfo P (InterpretC_FLW_LD i s).
Proof. intros; unfold InterpretC_FLW_LD; wfo. Qed.
Lemma wfo_C_FLD i s : P s -> wfo P (InterpretC_FLD i s).
Proof. intros; unfold InterpretC_FLD; wfo. Qed.
Lemma wfo_C_SW i s : P s -> wfo P (InterpretC_SW i s).
Proof. intros; unfold InterpretC_SW; wfo. Qed.
Lemma wfo_C_FSW_SD i s : P s -> wfo P (InterpretC_FSW_SD i s).
Proof. intros; unfold InterpretC_FSW_SD; wfo. Qed.
Lemma wfo_C_FSD i s : P s -> wfo P (InterpretC_FSD i s).
Proof. intros; unfold InterpretC_FSD; wfo. Qed.
Lemma wfo_C_J i s : P s -> wfo P (InterpretC_J i s).
Proof. intros; unfold InterpretC_J; wfo. Qed.
Lemma wfo_C_JAL i s : P s -> wfo P (InterpretC_JAL i s).
Proof. intros; unfold InterpretC_JAL; wfo. Qed.
Lemma wfo_C_BEQZ i s : P s -> wfo P (InterpretC_BEQZ i s).
Proof. intros; unfold InterpretC_BEQZ; wfo. Qed.
Lemma wfo_C_BNEZ i s : P s -> wfo P (InterpretC_BNEZ i s).
Proof. intros; unfold InterpretC_BNEZ; wfo. Qed.
Lemma wfo_C_LI i s : P s -> wfo P (InterpretC_LI i s).
Proof. intros; unfold InterpretC_LI; wfo. Qed.
Lemma wfo_C_LUI i s : P s -> wfo P (InterpretC_LUI i s).
Proof. intros; unfold InterpretC_LUI; wfo. Qed.
Lemma wfo_C_ADDI i s : P s -> wfo P (InterpretC_ADDI i s).
Proof. intros; unfold InterpretC_ADDI; wfo. Qed.
Lemma wfo_C_ADDIW i s : P s -> wfo P (InterpretC_ADDIW i s).
Proof. intros; unfold InterpretC_ADDIW; wfo. Qed.
Lemma wfo_C_ADDI4SPN i s : P s -> wfo P (InterpretC_ADDI4SPN i s).
Proof. intros; unfold InterpretC_ADDI4SPN; wfo. Qed.
Lemma wfo_C_SLLI i s : P s -> wfo P (InterpretC_SLLI i s).
Proof. intros; unfold InterpretC_SLLI; wfo. Qed.
Lemma wfo_C_RR i s : P s -> wfo P (InterpretC_RR i s).
Proof. intros; unfold InterpretC_RR; wfo. Qed.
#[local] Hint Resolve wfo_C_LWSP wfo_C_FLWSP_LDSP wfo_C_FLDSP wfo_C_SWSP wfo_C_FSWSP_SDSP wfo_C_FSDSP wfo_C_LW wfo_C_FLW_LD wfo_C_FLD wfo_C_SW wfo_C_FSW_SD wfo_C_FSD wfo_C_J wfo_C_JAL wfo_C_BEQZ wfo_C_BNEZ wfo_C_LI wfo_C_LUI wfo_C_ADDI wfo_C_ADDIW wfo_C_ADDI4SPN wfo_C_SLLI wfo_C_RR : wf.

Lemma wfo_C_MISCALU i s : P s -> wfo P (InterpretC_MISCALU i s).
Proof. intros; unfold InterpretC_MISCALU; wfo. Qed.
Lemma wfo_C_JR i s : P s -> wfo P (InterpretC_JR i s).
Proof. intros; unfold InterpretC_JR; wfo; done. Qed.
#[local] Hint Resolve wfo_C_MISCALU wfo_C_JR : wf.

Lemma wfo_InterpretC i s : P s -> wfo P (InterpretC i s).
Proof. intros; unfold InterpretC; wfo. Qed.

(** One iteration of the loop, up to the count of instructions. *)
Lemma wfo_interpret_at s :
  P s ->
  wfo P (parcel ← LoadUnaligned uint16_t (memory s) (pc_ s);
         if IsCInstruction parcel then InterpretC parcel s
         else instr ← LoadUnaligned uint32_t (memory s) (pc_ s); Interpret instr s).
Proof.
  intros Hs. apply wfo_bind; intros parcel _.
  apply wfo_if; [by apply wfo_InterpretC|].
  apply wfo_bind; intros instr _. by apply wfo_Interpret.
Qed.

End preservation.
