(* ===== verification/RiscvStateProps.v ===== *)
(** Properties of the simulator's state operations: registers and NaN boxing, memory
    accesses, redirections, register clobbering. *)
From stdpp Require Import base numbers list gmap.
From Stdlib Require Import ZArith Lia.
From S2P Require Import Prelude Utils Random RiscvEncoding RiscvState RiscvAlu RiscvFloat RiscvInterp RiscvCompressed RiscvInvariant.
Local Open Scope Z_scope.
Local Open Scope cxx_scope.

(** A register number. *)
Definition is_reg (r : Z) : Prop := 0 <= r < 32.

(** ** Registers *)

Section registers.
Context `{Target} `{Debug}.

Lemma get_set_xreg_same s rd v :
  wf s -> is_reg rd -> rd <> Reg.ZR -> get_xreg (set_xreg s rd v) rd = ux v.
Proof.
  intros Hs [??] Hne. unfold get_xreg, set_xreg.
  destruct (Z.eqb_spec rd Reg.ZR); [done|]. simpl.
  apply list_lookup_total_insert_eq. rewrite (wf_xlen s Hs). lia.
Qed.

Lemma get_set_xreg_other s rd r v :
  0 <= rd -> 0 <= r -> r <> rd -> get_xreg (set_xreg s rd v) r = get_xreg s r.
Proof.
  intros ? ? Hne. unfold get_xreg, set_xreg.
  destruct (Z.eqb_spec rd Reg.ZR); [done|]. simpl.
  apply list_lookup_total_insert_ne. lia.
Qed.

Lemma set_xreg_ZR s v : set_xreg s Reg.ZR v = s.
Proof. reflexivity. Qed.

Lemma get_set_fregd_same s rd v :
  wf s -> is_reg rd -> get_fregd (set_fregd s rd v) rd = wrapu 64 v.
Proof.
  intros Hs [??]. unfold get_fregd, set_fregd. simpl.
  apply list_lookup_total_insert_eq. rewrite (wf_flen s Hs). lia.
Qed.

Lemma get_set_fregd_other s rd r v :
  0 <= rd -> 0 <= r -> r <> rd -> get_fregd (set_fregd s rd v) r = get_fregd s r.
Proof.
  intros. unfold get_fregd, set_fregd. simpl. apply list_lookup_total_insert_ne. lia.
Qed.

Lemma kNaNBox_ones : kNaNBox = Z.ones 32 << 32.
Proof. reflexivity. Qed.

(** Boxing keeps the low word and sets the high one. *)
Lemma boxed_bits v :
  let b := wrapu 64 (wrapu 32 v .| kNaNBox) in
  b .& kNaNBox = kNaNBox /\ wrapu 32 b = wrapu 32 v.
Proof.
  cbv zeta. rewrite kNaNBox_ones. split.
  - apply Z.bits_inj'. intros i Hi. rewrite Z.land_spec, Z.shiftl_spec by done.
    destruct (Z.lt_ge_cases i 32).
    { rewrite (Z.testbit_neg_r _ (i - 32)) by lia. apply andb_false_r. }
    rewrite testbit_wrapu, Z.lor_spec, Z.shiftl_spec by lia.
    destruct (Z.ltb_spec i 64).
    + rewrite (Z.ones_spec_low 32 (i - 32)) by lia. by rewrite orb_true_r.
    + rewrite (Z.ones_spec_high 32 (i - 32)) by lia. apply andb_false_r.
  - rewrite wrapu_wrapu_le by lia. apply wrapu_bits; [lia|]. intros i Hi.
    rewrite Z.lor_spec, testbit_wrapu, Z.shiftl_spec, (Z.testbit_neg_r _ (i - 32)) by lia.
    rewrite (proj2 (Z.ltb_lt i 32)) by lia. by rewrite orb_false_r.
Qed.

(** A single-precision value written to a floating-point register reads back
    unchanged, other registers keep their contents, and a register last written in
    double precision reads as the canonical NaN in single precision unless its high
    word is all ones. *)
Theorem nan_boxing s rd v :
  wf s -> is_reg rd ->
  get_fregs (set_fregs s rd v) rd = wrapu 32 v /\
  (forall r, is_reg r -> r <> rd ->
     get_fregs (set_fregs s rd v) r = get_fregs s r /\
     get_fregd (set_fregs s rd v) r = get_fregd s r) /\
  get_fregs (set_fregd s rd v) rd =
    (if wrapu 64 v >> 32 =? 2 ^ 32 - 1 then wrapu 32 v else 0x7fc00000).
Proof.
  intros Hs Hrd. destruct (boxed_bits v) as [E1 E2]. split_and!.
  - unfold get_fregs, set_fregs. rewrite get_set_fregd_same by done.
    by rewrite E1, E2, Z.eqb_refl.
  - intros r [??] Hne. destruct Hrd. unfold get_fregs, set_fregs.
    by rewrite !get_set_fregd_other by done.
  - unfold get_fregs. rewrite get_set_fregd_same, wrapu_wrapu_le by (done || lia).
    assert ((wrapu 64 v .& kNaNBox =? kNaNBox) = (wrapu 64 v >> 32 =? 2 ^ 32 - 1)) as ->.
    2:{ by destruct (wrapu 64 v >> 32 =? _). }
    assert (wrapu 64 v .& kNaNBox = (wrapu 64 v >> 32) << 32) as ->.
    { pose proof (wrapu_range 64 v ltac:(lia)) as Hv. rewrite kNaNBox_ones.
      apply Z.bits_inj'. intros i Hi. rewrite Z.land_spec, !Z.shiftl_spec by done.
      destruct (Z.lt_ge_cases i 32).
      { rewrite !(Z.testbit_neg_r _ (i - 32)) by lia. apply andb_false_r. }
      rewrite Z.shiftr_spec, Z.sub_add by lia. destruct (Z.lt_ge_cases i 64).
      - rewrite Z.ones_spec_low by lia. apply andb_true_r.
      - rewrite (testbit_high 64) by (done || lia). done. }
    rewrite kNaNBox_ones, !Z.shiftl_mul_pow2 by lia. change (Z.ones 32) with (2 ^ 32 - 1).
    destruct (Z.eqb_spec (wrapu 64 v >> 32) (2 ^ 32 - 1)) as [->|Hne]; [apply Z.eqb_refl|].
    apply Z.eqb_neq. lia.
Qed.

End registers.

(** ** A fresh simulator *)

Section fresh.
Context `{Target} `{Debug}.

(** The registers after the loop of the constructor. *)
Lemma fill_registers seed :
  let fill := fun i (p : list Z * Z) =>
    let '(v, r) := Random.NextUInt64 (snd p) in (<[Z.to_nat i := ux v]> (fst p), r) in
  let p := for_loop 31 1 1 fill (replicate 32 0, seed) in
  length p.1 = 32%nat /\ Forall (is_u XLEN) p.1 /\ p.1 !! 0%nat = Some 0.
Proof.
  cbv zeta. set (fill := fun i (p : list Z * Z) => _).
  apply (for_loop_inv (fun _ (p : list Z * Z) => length p.1 = 32%nat /\
    Forall (is_u XLEN) p.1 /\ p.1 !! 0%nat = Some 0)).
  - split_and!; [done| |done]. apply Forall_replicate. by apply small_u.
  - intros k [xs r] _ (Hl & Hf & Hz). unfold fill. cbn [fst snd] in *.
    destruct (Random.NextUInt64 r) as [v r']. cbn [fst]. split_and!.
    + by rewrite length_insert.
    + apply Forall_insert; [done|apply ux_u].
    + rewrite list_lookup_insert_ne; [done|lia].
Qed.

Lemma Simulator_new_state seed base m l :
  map_Forall (fun _ b => is_u 8 b) m ->
  exists s, wf s /\ memory s = m /\
    Simulator_new seed base m l =
      with_pc (set_xreg (set_xreg s Reg.SP base) Reg.RA kBadLR) kBadLR.
Proof.
  intros Hm. unfold Simulator_new. pose proof (fill_registers seed) as Hp. cbv zeta in *.
  destruct (for_loop 31 1 1 _ (replicate 32 0, seed)) as [xs r].
  destruct Hp as (Hl & Hf & Hz). cbn [fst] in *. eexists. split; [|split]; [..|reflexivity].
  - split; try done; try by apply small_u.
    + by apply Forall_replicate.
    + split; by apply small_u.
  - done.
Qed.

Lemma wf_Simulator_new seed base m l :
  map_Forall (fun _ b => is_u 8 b) m -> wf (Simulator_new seed base m l).
Proof.
  intros (s & Hs & _ & ->)%(Simulator_new_state seed base m l).
  apply wf_with_pc; [|apply ux_u]. by apply wf_set_xreg; [apply wf_set_xreg|].
Qed.

(** The constructor sets up a well-formed simulator, with the stack pointer at
    the base of the stack, and the program counter and the return address at the
    known bad value. *)
Theorem Simulator_new_ok seed base m l :
  is_u XLEN base -> map_Forall (fun _ b => is_u 8 b) m ->
  let s := Simulator_new seed base m l in
  wf s /\ pc_ s = kBadLR /\ get_xreg s Reg.SP = base /\ get_xreg s Reg.RA = kBadLR /\
  memory s = m.
Proof.
  intros Hb Hm. cbv zeta. split; [by apply wf_Simulator_new|].
  destruct (Simulator_new_state seed base m l Hm) as (s & Hs & Em & ->). split_and!.
  - done.
  - change (get_xreg (with_pc ?s _) ?r) with (get_xreg s r).
    rewrite get_set_xreg_other, get_set_xreg_same; try done. by apply wrapu_id.
  - change (get_xreg (with_pc ?s _) ?r) with (get_xreg s r).
    rewrite get_set_xreg_same; [apply wrapu_idemp| |done..]. by apply wf_set_xreg.
  - done.
Qed.

(** [n] bytes at the address [a]. *)
Definition bytes_at (a : Z) (bs : list Z) : gmap Z Z :=
  list_to_map (zip ((fun i => a + Z.of_nat i) <$> seq 0 (length bs)) bs).

Lemma bytes_at_bytes a bs :
  Forall (is_u 8) bs -> map_Forall (fun _ b => is_u 8 b) (bytes_at a bs).
Proof.
  intros Hb k b Hk. apply elem_of_list_to_map_2, elem_of_zip_r in Hk.
  by eapply Forall_forall in Hb.
Qed.

End fresh.

(** ** Memory *)

Section memory.
Context `{Target} `{Debug}.

(** The [n] addresses from [a] are mapped. *)
Definition mapped (m : gmap Z Z) (a : Z) (n : nat) : Prop :=
  forall i, 0 <= i < Z.of_nat n -> is_Some (m !! (a + i)).

Lemma mapped_S m a n : mapped m a (S n) <-> is_Some (m !! a) /\ mapped m (a + 1) n.
Proof.
  unfold mapped. split.
  - intros Hm. split; [rewrite <- (Z.add_0_r a); apply Hm; lia|].
    intros i Hi. replace (a + 1 + i) with (a + (i + 1)) by lia. apply Hm. lia.
  - intros [Hz Hm] i Hi. destruct (decide (i = 0)) as [->|]; [by rewrite Z.add_0_r|].
    replace (a + i) with (a + 1 + (i - 1)) by lia. apply Hm. lia.
Qed.

Lemma load_bytes_ok m a n : mapped m a n <-> is_ok (load_bytes m a n).
Proof.
  revert a. induction n as [|n IH]; intros a; simpl.
  - split; [done|]. intros _ i Hi. lia.
  - rewrite mapped_S, IH. destruct (m !! a) as [b|]; simpl.
    + destruct (load_bytes m (a + 1) n); simpl; split; first [done | by intros [_ ?] | by eauto].
    + split; [intros [[? ?] _]|]; done.
Qed.

Lemma load_bytes_length m a n bs : load_bytes m a n = Ok bs -> length bs = n.
Proof.
  revert a bs. induction n as [|n IH]; intros a bs; simpl; [by intros [= <-]|].
  destruct (m !! a); [|done]. intros (bs' & E & [= <-])%bind_ok. simpl. f_equal. by eapply IH.
Qed.

Lemma load_bytes_lookup m a n bs :
  load_bytes m a n = Ok bs -> forall i, (i < n)%nat -> m !! (a + Z.of_nat i) = bs !! i.
Proof.
  revert a bs. induction n as [|n IH]; intros a bs; simpl; [lia|].
  destruct (m !! a) as [b|] eqn:E; [|done]. intros (bs' & E' & [= <-])%bind_ok i Hi.
  destruct i as [|i]; [by rewrite Z.add_0_r|]. simpl. rewrite <- (IH _ _ E') by lia.
  f_equal. lia.
Qed.

(** Memory after a store, address by address. *)
Lemma store_bytes_lookup m a bs m' :
  store_bytes m a bs = Ok m' ->
  forall x, m' !! x = if decide (a <= x < a + Z.of_nat (length bs))
                      then bs !! Z.to_nat (x - a) else m !! x.
Proof.
  revert m a. induction bs as [|b bs IH]; intros m a; cbn [store_bytes].
  - intros [= ->] x. rewrite decide_False by (cbn; lia). done.
  - destruct (m !! a) eqn:E; [|done]. intros E' x. rewrite (IH _ _ E' x).
    cbn [length]. destruct (decide (x = a)) as [->|].
    + rewrite decide_False, decide_True by lia. rewrite Z.sub_diag. simpl.
      apply lookup_insert_eq.
    + destruct (decide (a + 1 <= x < a + 1 + Z.of_nat (length bs))).
      * rewrite decide_True by lia.
        replace (Z.to_nat (x - a)) with (S (Z.to_nat (x - (a + 1)))) by lia. done.
      * rewrite decide_False, lookup_insert_ne by lia. done.
Qed.

Lemma store_bytes_ok m a bs : mapped m a (length bs) <-> is_ok (store_bytes m a bs).
Proof.
  revert m a. induction bs as [|b bs IH]; intros m a; simpl.
  - split; [done|]. intros _ i Hi. lia.
  - rewrite mapped_S. destruct (m !! a) as [c|] eqn:E; simpl.
    + rewrite <- IH. unfold mapped. split.
      * intros [_ Hm] i Hi. destruct (decide (a = a + 1 + i)) as [Ha|]; [lia|].
        rewrite lookup_insert_ne by done. by apply Hm.
      * intros Hm. split; [eauto|]. intros i Hi. specialize (Hm i Hi).
        by rewrite lookup_insert_ne in Hm by lia.
    + split; [intros [[? ?] _]|]; done.
Qed.

Lemma load_bytes_ext m m' a n :
  (forall x, a <= x < a + Z.of_nat n -> m !! x = m' !! x) ->
  load_bytes m a n = load_bytes m' a n.
Proof.
  revert a. induction n as [|n IH]; intros a Hm; [done|]. cbn [load_bytes].
  rewrite (Hm a) by lia. destruct (m' !! a); [|done]. by rewrite IH by (intros; apply Hm; lia).
Qed.

Lemma load_bytes_of_lookup m a bs :
  (forall i, (i < length bs)%nat -> m !! (a + Z.of_nat i) = bs !! i) ->
  load_bytes m a (length bs) = Ok bs.
Proof.
  revert a. induction bs as [|b bs IH]; intros a Hl; [done|]. cbn [length load_bytes].
  pose proof (Hl 0%nat ltac:(cbn; lia)) as Hz. rewrite Z.add_0_r in Hz. rewrite Hz. simpl.
  rewrite IH; [done|]. intros i Hi. specialize (Hl (S i) ltac:(cbn; lia)). simpl in Hl.
  rewrite <- Hl. f_equal. lia.
Qed.

Lemma load_store_bytes m a bs m' :
  store_bytes m a bs = Ok m' -> load_bytes m' a (length bs) = Ok bs.
Proof.
  intros E. apply load_bytes_of_lookup. intros i Hi.
  rewrite (store_bytes_lookup _ _ _ _ E), decide_True by lia. f_equal. lia.
Qed.

Lemma sizeof_cases t : sizeof t = 1 \/ sizeof t = 2 \/ sizeof t = 4 \/ sizeof t = 8.
Proof. destruct t; simpl; auto. Qed.

Lemma of_repr_convert t v : of_repr t (wrapu (8 * sizeof t) (convert t v)) = convert t v.
Proof.
  unfold convert, of_repr.
  destruct t; cbn [sizeof]; by rewrite ?wraps_wrapu, ?wraps_wraps_le, ?wrapu_idemp by lia.
Qed.

Lemma LoadUnaligned_store t m a v m' :
  StoreUnaligned t m a (convert t v) = Ok m' -> LoadUnaligned t m' a = Ok (convert t v).
Proof.
  intros E. unfold StoreUnaligned, LoadUnaligned in *.
  pose proof (load_store_bytes _ _ _ _ E) as El. rewrite length_bytes_of_u in El.
  rewrite El. simpl. rewrite u_of_bytes_of_u.
  assert (8 * Z.of_nat (Z.to_nat (sizeof t)) = 8 * sizeof t) as ->
    by (destruct (sizeof_cases t) as [->|[->|[->| ->]]]; done).
  by rewrite of_repr_convert.
Qed.


End memory.

(** ** Redirections *)

(** The redirections occupy different addresses and stand for different functions. *)
Definition redirections_ok (l : list Redirection) : Prop :=
  NoDup (map ecall_address l) /\ NoDup (map external_function_ l).

Lemma find_unique {A} (f : A -> Z) l x :
  NoDup (map f l) -> x ∈ l -> find (fun y => f y =? f x) l = Some x.
Proof.
  induction l as [|y l IH]; simpl; intros Hn Hx; [by apply not_elem_of_nil in Hx|].
  apply NoDup_cons in Hn as [Hy Hn]. apply elem_of_cons in Hx as [->|Hx].
  - by rewrite Z.eqb_refl.
  - destruct (Z.eqb_spec (f y) (f x)) as [E|]; [|by apply IH].
    destruct Hy. rewrite E. apply list_elem_of_In, in_map, list_elem_of_In, Hx.
Qed.

Lemma find_elem {A} (p : A -> bool) l x : find p l = Some x -> x ∈ l /\ p x = true.
Proof. intros [? ?]%find_some. split; [by apply list_elem_of_In|done]. Qed.

(** [Redirection::Get] returns a redirection for the function it is asked for and
    keeps the list duplicate-free; asking again, whatever the call kind, returns the
    same redirection and leaves the list alone; older redirections stay; the
    address it hands out maps back to the redirection, both for an [ecall] at that
    address and for the profiler. *)
Theorem redirection_roundtrip l f k n fresh :
  redirections_ok l -> fresh ∉ map ecall_address l ->
  let '(l', r) := Redirection_Get l f k n fresh in
  redirections_ok l' /\ r ∈ l' /\ external_function_ r = f /\ (forall x, x ∈ l -> x ∈ l') /\
  FromECallInstruction l' (ecall_address r) = Some r /\
  FunctionForRedirect l' (ecall_address r) = f /\
  (forall k' n' fresh', Redirection_Get l' f k' n' fresh' = (l', r)).
Proof.
  intros [Ha Hf] Hfresh. unfold Redirection_Get.
  assert (forall l' r, redirections_ok l' -> r ∈ l' -> external_function_ r = f ->
    FromECallInstruction l' (ecall_address r) = Some r /\
    FunctionForRedirect l' (ecall_address r) = f /\
    find (fun x => external_function_ x =? f) l' = Some r) as Hfind.
  { intros l' r [Ha' Hf'] Hr <-. unfold FromECallInstruction, FunctionForRedirect.
    by rewrite !find_unique. }
  destruct (find _ l) as [r|] eqn:E.
  - apply find_elem in E as [Hr ?%Z.eqb_eq].
    destruct (Hfind l r) as (E1 & E2 & E3); [done..|].
    split_and!; try done. intros. by rewrite E3.
  - set (r := mkRedirection f k n fresh).
    assert (redirections_ok (r :: l)) as Hok.
    { split; simpl; constructor; try done. intros Hin.
      apply list_elem_of_In, in_map_iff in Hin as (x & Ex & Hx).
      pose proof (find_none _ _ E x Hx) as Hn. cbv beta in Hn. rewrite Ex in Hn.
      by rewrite Z.eqb_refl in Hn. }
    destruct (Hfind (r :: l) r) as (E1 & E2 & E3); [done|by left|done|].
    split_and!; try done; [by left|by right|]. intros. by rewrite E3.
Qed.

(** ** Clobbering *)

Section clobber.
Context `{Target} `{Debug}.

(** Registers the loops do not touch, among the first [n]. *)
Definition same_outside (mask : Z) (get : Simulator -> Z -> Z) (s s' : Simulator) : Prop :=
  forall r, is_reg r -> mask .& (1 << r) = 0 -> get s' r = get s r.

Lemma clobber_xreg_other k s :
  (k < 32)%nat ->
  same_outside kAbiVolatileCpuRegs get_xreg s (clobber_xreg (0 + Z.of_nat k * 1) s).
Proof.
  intros Hk r [??] Hm. unfold clobber_xreg. rewrite Z.mul_1_r, Z.add_0_l.
  destruct (Z.eqb_spec (kAbiVolatileCpuRegs .& (1 << Z.of_nat k)) 0) as [|Hne]; [done|].
  cbn [negb]. destruct (Random.NextUInt64 (random_ s)) as [v st].
  apply list_lookup_total_insert_ne. intros E. apply Hne. rewrite <- Hm. do 2 f_equal. lia.
Qed.

Lemma clobber_freg_other k s :
  (k < 32)%nat ->
  same_outside kAbiVolatileFpuRegs get_fregd s (clobber_freg (0 + Z.of_nat k * 1) s).
Proof.
  intros Hk r [??] Hm. unfold clobber_freg. rewrite Z.mul_1_r, Z.add_0_l.
  destruct (Z.eqb_spec (kAbiVolatileFpuRegs .& (1 << Z.of_nat k)) 0) as [|Hne]; [done|].
  apply list_lookup_total_insert_ne. intros E. apply Hne. rewrite <- Hm. do 2 f_equal. lia.
Qed.

(** What the two loops leave alone. *)
Definition clobbered (s s' : Simulator) : Prop :=
  same_outside kAbiVolatileCpuRegs get_xreg s s' /\
  same_outside kAbiVolatileFpuRegs get_fregd s s' /\
  pc_ s' = pc_ s /\ memory s' = memory s /\ instret_ s' = instret_ s.

Lemma clobber_xreg_frame i s :
  fregs_ (clobber_xreg i s) = fregs_ s /\ pc_ (clobber_xreg i s) = pc_ s /\
  memory (clobber_xreg i s) = memory s /\ instret_ (clobber_xreg i s) = instret_ s.
Proof.
  unfold clobber_xreg. destruct (negb _); [|done].
  by destruct (Random.NextUInt64 (random_ s)).
Qed.

Lemma clobber_freg_frame i s :
  xregs_ (clobber_freg i s) = xregs_ s /\ pc_ (clobber_freg i s) = pc_ s /\
  memory (clobber_freg i s) = memory s /\ instret_ (clobber_freg i s) = instret_ s.
Proof. unfold clobber_freg. by destruct (negb _). Qed.

Lemma clobber_loops s :
  clobbered s (for_loop 32 0 1 clobber_freg (for_loop 32 0 1 clobber_xreg s)).
Proof.
  apply (for_loop_inv (fun _ => clobbered s)).
  - apply (for_loop_inv (fun _ => clobbered s)); [by split_and!|].
    intros k s' Hk (H1 & H2 & H3 & H4 & H5).
    pose proof (clobber_xreg_other k s' Hk) as Hx.
    destruct (clobber_xreg_frame (0 + Z.of_nat k * 1) s') as (Ef & Ep & Em & Ei).
    unfold clobbered. rewrite Ep, Em, Ei. split_and!; [| |exact H3|exact H4|exact H5].
    + intros r Hr Hm. rewrite Hx by done. by apply H1.
    + intros r Hr Hm. rewrite <- H2 by done. unfold get_fregd. by rewrite Ef.
  - intros k s' Hk (H1 & H2 & H3 & H4 & H5).
    pose proof (clobber_freg_other k s' Hk) as Hx.
    destruct (clobber_freg_frame (0 + Z.of_nat k * 1) s') as (Ef & Ep & Em & Ei).
    unfold clobbered. rewrite Ep, Em, Ei. split_and!; [| |exact H3|exact H4|exact H5].
    + intros r Hr Hm. rewrite <- H1 by done. unfold get_xreg. by rewrite Ef.
    + intros r Hr Hm. rewrite Hx by done. by apply H2.
Qed.

(** The registers the ABI preserves are disjoint from the volatile ones. *)
Lemma preserved_not_volatile :
  forallb (fun k => let bit := 1 << Z.of_nat k in
    (kPreservedAtCall .& bit =? 0) || (kAbiVolatileCpuRegs .& bit =? 0)) (seq 0 32) = true.
Proof. vm_compute. reflexivity. Qed.

(** Overwriting the volatile registers after a call leaves every register the ABI
    preserves, the zero register, the program counter, the memory and the instruction
    counter alone, in debug and in release builds. *)
Theorem clobber_preserves s :
  let s' := ClobberVolatileRegisters s in
  (forall r, is_reg r -> kPreservedAtCall .& (1 << r) <> 0 -> get_xreg s' r = get_xreg s r) /\
  get_xreg s' Reg.ZR = get_xreg s Reg.ZR /\
  (forall r, is_reg r -> kAbiVolatileFpuRegs .& (1 << r) = 0 -> get_fregd s' r = get_fregd s r) /\
  pc_ s' = pc_ s /\ memory s' = memory s /\ instret_ s' = instret_ s.
Proof.
  cbv zeta. unfold ClobberVolatileRegisters. destruct DEBUG; [|by split_and!].
  destruct (clobber_loops (with_reservation s 0 0)) as (H1 & H2 & H3 & H4 & H5).
  split_and!; [|exact (H1 Reg.ZR ltac:(split; done) eq_refl)|exact H2|exact H3|exact H4|exact H5].
  intros r Hr Hm. apply H1; [done|]. destruct Hr.
  pose proof (proj1 (forallb_forall _ _) preserved_not_volatile (Z.to_nat r)
    ltac:(apply in_seq; lia)) as Hb. cbv beta zeta in Hb. rewrite Z2Nat.id in Hb by lia.
  apply orb_true_iff in Hb as [Hb%Z.eqb_eq|Hb%Z.eqb_eq]; [by destruct Hm|done].
Qed.

End clobber.

(** ** Witnesses *)

(** A fresh 64-bit simulator over 32 mapped bytes. *)
Definition demo : Simulator :=
  @Simulator_new RV64 1 0x7000000 (bytes_at 0x20000 (replicate 32 0)) [].

Lemma wf_demo : @wf RV64 demo.
Proof. apply (@wf_Simulator_new RV64), bytes_at_bytes. by apply Forall_replicate. Qed.

Lemma nan_boxing_witness :
  get_fregs (set_fregs demo 3 0x3f800000) 3 = wrapu 32 0x3f800000.
Proof.
  exact (proj1 (@nan_boxing RV64 demo 3 0x3f800000 wf_demo ltac:(split; done))).
Defined.

Lemma Simulator_new_ok_witness :
  let s := @Simulator_new RV32 7 0x8000 (bytes_at 0x20000 [1; 2]) [] in
  @wf RV32 s /\ pc_ s = @kBadLR RV32.
Proof.
  pose proof (@Simulator_new_ok RV32 7 0x8000 (bytes_at 0x20000 [1; 2]) []
    ltac:(vm_compute; split; congruence) ltac:(apply bytes_at_bytes; repeat constructor; done))
    as (H1 & H2 & _). exact (conj H1 H2).
Defined.


Lemma redirection_roundtrip_witness :
  FromECallInstruction
    (fst (Redirection_Get [mkRedirection 10 kRuntimeCall 2 1000] 20 kLeafRuntimeCall 1 2000)) 2000
  = Some (mkRedirection 20 kLeafRuntimeCall 1 2000).
Proof.
  assert (redirections_ok [mkRedirection 10 kRuntimeCall 2 1000]) as Hok
    by (split; simpl; repeat constructor; apply not_elem_of_nil).
  pose proof (redirection_roundtrip [mkRedirection 10 kRuntimeCall 2 1000] 20
    kLeafRuntimeCall 1 2000 Hok ltac:(simpl; rewrite list_elem_of_singleton; lia)) as H.
  exact (proj1 (proj2 (proj2 (proj2 (proj2 H))))).
Defined.
