(* ===== verification/RiscvExec.v ===== *)
(** Runs of the RISC-V simulator ([Simulator::ExecuteNoTrace]): the invariant, the
    step relation the fuelled loop implements, the instruction counter, what no
    instruction changes, and which instructions have undefined behaviour. *)
From stdpp Require Import base numbers list gmap relations.
From Stdlib Require Import ZArith Lia.
From S2P Require Import Prelude Utils Random RiscvEncoding RiscvState RiscvAlu RiscvFloat RiscvInterp RiscvCompressed RiscvInvariant RiscvStateProps.
Local Open Scope Z_scope.
Local Open Scope cxx_scope.

Section exec.
Context `{Target} `{Debug} `{HostFPU} `{Host}.

(** One iteration of the loop, which runs while the program counter is not the end
    marker. *)
Inductive step (s s' : Simulator) : Prop :=
| step_one : pc_ s <> kEndSimulatingPC -> execute_one s = Ok s' -> step s s'.

(** The fetched instruction, interpreted. *)
Definition interpret_at (s : Simulator) : result Simulator :=
  parcel ← LoadUnaligned uint16_t (memory s) (pc_ s);
  if IsCInstruction parcel then InterpretC parcel s
  else instr ← LoadUnaligned uint32_t (memory s) (pc_ s); Interpret instr s.

Lemma execute_one_interpret s :
  execute_one s = s' ← interpret_at s; Ok (with_instret s' (wrapu 64 (instret_ s' + 1))).
Proof.
  unfold execute_one, interpret_at. destruct (LoadUnaligned uint16_t _ _); [|done..].
  cbn [mbind outcome_bind]. destruct (IsCInstruction _); [done|].
  by destruct (LoadUnaligned uint32_t _ _).
Qed.

Lemma step_wf `{!HostOk wf} s s' : wf s -> step s s' -> wf s'.
Proof.
  intros Hs [_ E]. rewrite execute_one_interpret in E.
  apply bind_ok in E as (s1 & E1 & [= <-]).
  pose proof (wfo_interpret_at _ Hs) as Hw. unfold interpret_at in E1. rewrite E1 in Hw.
  apply wf_with_instret; [done|by apply wrapu_range].
Qed.

(** C11: every state the simulator reaches from a well-formed state is well formed: all
    registers, the counters and the memory hold values of their types and the zero
    register holds zero, provided the host functions keep it that way. *)
Theorem run_wf `{!HostOk wf} s s' : wf s -> rtc step s s' -> wf s'.
Proof. intros Hs Hr. induction Hr; eauto using step_wf. Qed.

Lemma loop_nsteps fuel s s' :
  ExecuteNoTrace fuel s = Some (Ok s') ->
  exists n, (n <= fuel)%nat /\ nsteps step n s s' /\ pc_ s' = kEndSimulatingPC.
Proof.
  revert s. induction fuel as [|fuel IH]; intros s; cbn [ExecuteNoTrace].
  - destruct (Z.eqb_spec (pc_ s) kEndSimulatingPC); [|done]. intros [= <-].
    exists 0%nat. eauto using nsteps_O.
  - destruct (Z.eqb_spec (pc_ s) kEndSimulatingPC) as [|Hne].
    { intros [= <-]. exists 0%nat. eauto using nsteps_O, Nat.le_0_l. }
    destruct (execute_one s) as [s1| |] eqn:E; [|done..]. intros (n & Hn & Hs & Hp)%IH.
    exists (S n). split; [lia|]. split; [|done]. by econstructor; [constructor|].
Qed.

Lemma nsteps_loop n fuel s s' :
  nsteps step n s s' -> pc_ s' = kEndSimulatingPC -> (n <= fuel)%nat ->
  ExecuteNoTrace fuel s = Some (Ok s').
Proof.
  intros Hn. revert fuel. induction Hn as [s|n s s1 s' Hst _ IH]; intros fuel Hp Hf.
  - destruct fuel; cbn [ExecuteNoTrace]; by rewrite Hp, Z.eqb_refl.
  - destruct fuel as [|fuel]; [lia|]. cbn [ExecuteNoTrace]. destruct Hst as [Hne ->].
    destruct (Z.eqb_spec (pc_ s) kEndSimulatingPC); [done|]. apply IH; [done|lia].
Qed.

(** The loop with fuel implements the step relation: it ends in a state exactly
    when that state is at the end marker and reached in at most [fuel] steps, so
    that more fuel never changes the answer. *)
Theorem ExecuteNoTrace_steps fuel s s' :
  ExecuteNoTrace fuel s = Some (Ok s') <->
  exists n, (n <= fuel)%nat /\ nsteps step n s s' /\ pc_ s' = kEndSimulatingPC.
Proof.
  split; [apply loop_nsteps|]. intros (n & ? & ? & ?). by eapply nsteps_loop.
Qed.

(** ** What no instruction changes *)

(** The instruction counter, the [fcsr], the stack base, the redirections and the set
    of mapped addresses are as in [s0]. *)
Definition frame (s0 s : Simulator) : Prop :=
  instret_ s = instret_ s0 /\ fcsr_ s = fcsr_ s0 /\ stack_base_ s = stack_base_ s0 /\
  redirections s = redirections s0 /\ dom (memory s) = dom (memory s0).

Definition framed (s0 s : Simulator) : Prop := wf s /\ frame s0 s.

Lemma frame_mem s0 s m :
  frame s0 s -> dom m = dom (memory s) -> frame s0 (with_memory s m).
Proof. intros (?&?&?&?&?) E. repeat split; try done. cbn. congruence. Qed.

Lemma store_dom t m a v m' : StoreUnaligned t m a v = Ok m' -> dom m' = dom m.
Proof.
  unfold StoreUnaligned. generalize (bytes_of_u (Z.to_nat (sizeof t)) v). intros bs. revert m a.
  induction bs as [|b bs IH]; intros m a; cbn [store_bytes]; [by intros [= ->]|].
  destruct (m !! a) eqn:E; [|done]. intros ->%IH.
  by apply dom_insert_lookup_L.
Qed.

Lemma frame_clobber s0 s : frame s0 s -> frame s0 (ClobberVolatileRegisters s).
Proof.
  intros Hf. unfold ClobberVolatileRegisters. destruct DEBUG; [|done].
  apply (for_loop_inv (fun _ => frame s0)).
  - apply (for_loop_inv (fun _ => frame s0)); [done|].
    intros k s' _ Hs'. unfold clobber_xreg. destruct (negb _); [|done].
    by destruct (Random.NextUInt64 _).
  - intros k s' _ Hs'. unfold clobber_freg. by destruct (negb _).
Qed.

#[export] Instance framed_invariant s0 : Invariant (framed s0).
Proof.
  split.
  - by intros s [? _].
  - intros s v [? ?] ?. split; [by apply inv_with_pc|done].
  - intros s rd v [? ?] ?. split; [by apply inv_set_xreg|].
    unfold set_xreg. by destruct (negb _).
  - intros s rd v [? ?]. split; [by apply inv_set_fregd|done].
  - intros t s a v m [? ?] E. split; [by eapply inv_store|].
    apply frame_mem; [done|by eapply store_dom].
  - intros s a v [? ?] ? ?. split; [by apply inv_with_reservation|done].
  - intros s [? ?]. split; [by apply inv_clobber|by apply frame_clobber].
Qed.

Lemma step_frame s s' :
  (forall s0, HostOk (framed s0)) -> wf s -> step s s' ->
  instret_ s' = wrapu 64 (instret_ s + 1) /\ frame (with_instret s (instret_ s')) s'.
Proof.
  intros Hh Hs [_ E]. rewrite execute_one_interpret in E.
  apply bind_ok in E as (s1 & E1 & [= <-]).
  pose proof (wfo_interpret_at (P := framed s) s) as Hw.
  destruct (LoadUnaligned uint16_t (memory s) (pc_ s)) as [parcel| |] eqn:El;
    unfold interpret_at in E1; rewrite El in *; [|done..].
  cbn [mbind outcome_bind] in *. rewrite E1 in Hw.
  destruct Hw as (_ & E2 & E3); [by split|]. split; [cbn; by rewrite E2|done].
Qed.

Lemma nsteps_frame n s s' :
  (forall s0, HostOk (framed s0)) -> HostOk wf -> wf s -> nsteps step n s s' ->
  instret_ s' = wrapu 64 (instret_ s + Z.of_nat n) /\ frame (with_instret s (instret_ s')) s'.
Proof.
  intros Hh Hw Hs Hn. revert Hs. induction Hn as [s|n s s1 s' Hst _ IH]; intros Hs.
  - split; [|done]. rewrite Z.add_0_r. symmetry. apply wrapu_id, wf_instret, Hs.
  - destruct (step_frame _ _ Hh Hs Hst) as (E1 & _ & F1).
    destruct IH as (E2 & E3 & F2); [by eapply step_wf|].
    split; [rewrite E2, E1, wrapu_add_l; f_equal; lia|].
    split; [done|]. destruct F1 as (?&?&?&?), F2 as (?&?&?&?). cbn in *.
    split_and!; congruence.
Qed.

(** [n] iterations of the loop retire [n] instructions (modulo [2^64]) and change
    neither the [fcsr], the stack base, the redirections nor which addresses are
    mapped, if the host functions do not. *)
Theorem run_counts n s s' :
  (forall s0, HostOk (framed s0)) -> HostOk wf -> wf s -> nsteps step n s s' ->
  instret_ s' = wrapu 64 (instret_ s + Z.of_nat n) /\
  fcsr_ s' = fcsr_ s /\ stack_base_ s' = stack_base_ s /\
  redirections s' = redirections s /\ dom (memory s') = dom (memory s).
Proof.
  intros Hh Hw Hs Hn. destruct (nsteps_frame _ _ _ Hh Hw Hs Hn) as (E & _ & F). done.
Qed.

(** ** Undefined behaviour *)

Definition defined {A} (r : result A) : Prop := r <> Undefined.

Lemma defined_if {A} (b : bool) (x y : result A) :
  defined x -> defined y -> defined (if b then x else y).
Proof. by destruct b. Qed.

Lemma defined_bind {A B} (x : result A) (f : A -> result B) :
  defined x -> (forall a, defined (f a)) -> defined (x ≫= f).
Proof. destruct x; unfold defined; simpl; auto. Qed.

Lemma defined_load m a n : defined (load_bytes m a n).
Proof.
  revert a. induction n as [|n IH]; intros a; [done|]. cbn [load_bytes].
  destruct (m !! a); [|done]. by apply defined_bind.
Qed.

Lemma defined_store m a bs : defined (store_bytes m a bs).
Proof.
  revert m a. induction bs as [|b bs IH]; intros m a; [done|]. cbn [store_bytes].
  by destruct (m !! a).
Qed.

Lemma defined_LoadUnaligned t m a : defined (LoadUnaligned t m a).
Proof. by apply defined_bind; [apply defined_load|]. Qed.

Lemma defined_StoreUnaligned t m a v : defined (StoreUnaligned t m a v).
Proof. apply defined_store. Qed.

Lemma defined_CheckAccess s t a b : defined (CheckAccess s t a b).
Proof. unfold CheckAccess. repeat case_match; done. Qed.

Lemma defined_MemoryRead t s a b : defined (MemoryRead t s a b).
Proof.
  apply defined_bind; [apply defined_CheckAccess|]. intros; apply defined_LoadUnaligned.
Qed.

Lemma defined_MemoryWrite t s a v b : defined (MemoryWrite t s a v b).
Proof.
  apply defined_bind; [apply defined_CheckAccess|]. intros.
  by apply defined_bind; [apply defined_StoreUnaligned|].
Qed.

Lemma defined_CSRRead s c : defined (CSRRead s c).
Proof. unfold CSRRead. repeat apply defined_if; done. Qed.

Lemma defined_atomic_addr t i s : defined (atomic_addr t i s).
Proof. unfold atomic_addr. cbv zeta. by apply defined_if. Qed.

Lemma land31 x : (x .& (32 - 1) <? 32) = true.
Proof.
  change (32 - 1) with (Z.ones 5). rewrite Z.land_ones by lia.
  apply Z.ltb_lt. apply Z.mod_pos_bound. lia.
Qed.

Lemma defined_shl32 x n : defined (shl32 x (n .& (32 - 1))).
Proof. unfold shl32. by rewrite land31. Qed.

Lemma defined_shr32 x n : defined (shr32 x (n .& (32 - 1))).
Proof. unfold shr32. by rewrite land31. Qed.

(** The instructions that can have undefined behaviour: the word shifts by an
    immediate, the word products and rotations, the conversions to integers and
    environment calls. *)
Definition maybe_undefined (i : Z) : bool :=
  (Instr.opcode i =? Opcode.OPIMM32)
  || (Instr.opcode i =? Opcode.OP32) &&
     ((Instr.funct7 i =? Funct7.MULDIV) || (Instr.funct7 i =? Funct7.ROTATE))
  || (Instr.opcode i =? Opcode.OPFP) &&
     ((Instr.funct7 i =? Funct7.FCVTintS) || (Instr.funct7 i =? Funct7.FCVTintD))
  || (Instr.opcode i =? Opcode.SYSTEM) && (Instr.funct3 i =? 0).

Ltac defined_leaf :=
  first [ discriminate | apply defined_MemoryRead | apply defined_MemoryWrite
        | apply defined_CSRRead | apply defined_LoadUnaligned
        | apply defined_StoreUnaligned | apply defined_atomic_addr
        | apply defined_shl32 | apply defined_shr32 ].
Ltac defined_step :=
  match goal with
  | |- defined (if _ then _ else _) => apply defined_if
  | |- defined (_ ≫= _) => apply defined_bind; [|intros ?]
  | |- defined _ => defined_leaf
  end.
Ltac defined := cbv zeta; repeat defined_step.

Lemma defined_InterpretC c s : defined (InterpretC c s).
Proof.
  unfold InterpretC. cbv zeta.
  repeat (apply defined_if; [
    unfold InterpretC_LWSP, InterpretC_FLWSP_LDSP, InterpretC_FLDSP, InterpretC_SWSP,
      InterpretC_FSWSP_SDSP, InterpretC_FSDSP, InterpretC_LW, InterpretC_FLW_LD,
      InterpretC_FLD, InterpretC_SW, InterpretC_FSW_SD, InterpretC_FSD, InterpretC_J,
      InterpretC_JAL, InterpretC_JR, InterpretEBREAK, InterpretC_BEQZ, InterpretC_BNEZ,
      InterpretC_LI, InterpretC_LUI, InterpretC_ADDI, InterpretC_ADDIW,
      InterpretC_ADDI4SPN, InterpretC_SLLI, InterpretC_MISCALU, InterpretC_RR; defined|]).
  discriminate.
Qed.

Lemma defined_OP i s : defined (InterpretOP i s).
Proof.
  unfold InterpretOP, InterpretOP_0, InterpretOP_SUB, InterpretOP_MULDIV,
    InterpretOP_SHADD, InterpretOP_MINMAXCLMUL, InterpretOP_ROTATE, InterpretOP_BCLRBEXT.
  defined.
Qed.

Lemma defined_OP32 i s :
  (Instr.funct7 i =? Funct7.MULDIV) = false -> (Instr.funct7 i =? Funct7.ROTATE) = false ->
  defined (InterpretOP32 i s).
Proof.
  intros E1 E2. unfold InterpretOP32. cbv zeta. rewrite E1, E2, !andb_false_r.
  unfold InterpretOP32_0, InterpretOP32_SUB, InterpretOP32_SHADD, InterpretOP32_ADDUW.
  defined.
Qed.

Lemma defined_AMO i s : defined (InterpretAMO i s).
Proof.
  unfold InterpretAMO, InterpretAMO32, InterpretAMO64, amo_switch, InterpretLR,
    InterpretSC, InterpretAMOSWAP, InterpretAMOADD, InterpretAMOXOR, InterpretAMOAND,
    InterpretAMOOR, InterpretAMOMIN, InterpretAMOMAX, InterpretAMORMW.
  defined.
Qed.

Lemma defined_SYSTEM i s : (Instr.funct3 i =? 0) = false -> defined (InterpretSYSTEM i s).
Proof.
  intros E. unfold InterpretSYSTEM, CSRWrite, CSRSet, CSRClear. cbv zeta. rewrite E. defined.
Qed.

Lemma defined_OPFP i s :
  (Instr.funct7 i =? Funct7.FCVTintS) = false ->
  (Instr.funct7 i =? Funct7.FCVTintD) = false ->
  defined (InterpretOPFP i s).
Proof.
  intros E1 E2. unfold InterpretOPFP, InterpretOPFP_S, InterpretOPFP_D. cbv zeta.
  rewrite E1, E2.
  unfold InterpretFSGNJ, InterpretFMINMAX, InterpretFCMP, InterpretFCLASS, InterpretFCVTfromint.
  cbv zeta.
  repeat match goal with
  | |- defined (match (if ?b then _ else _) with _ => _ end) => destruct b
  end; defined.
Qed.

Lemma defined_BRANCH i s : defined (InterpretBRANCH i s).
Proof. unfold InterpretBRANCH. defined. Qed.
Lemma defined_LOAD i s : defined (InterpretLOAD i s).
Proof. unfold InterpretLOAD. defined. Qed.
Lemma defined_STORE i s : defined (InterpretSTORE i s).
Proof. unfold InterpretSTORE. defined. Qed.
Lemma defined_LOADFP i s : defined (InterpretLOADFP i s).
Proof. unfold InterpretLOADFP. defined. Qed.
Lemma defined_STOREFP i s : defined (InterpretSTOREFP i s).
Proof. unfold InterpretSTOREFP. defined. Qed.
Lemma defined_OPIMM i s : defined (InterpretOPIMM i s).
Proof. unfold InterpretOPIMM. defined. Qed.
Lemma defined_MISCMEM i s : defined (InterpretMISCMEM i s).
Proof. unfold InterpretMISCMEM. defined. Qed.

Lemma defined_fma g i s : defined (fma_switch g i s).
Proof. unfold fma_switch. defined. Qed.

Lemma defined_if_eq {A} (b : bool) (x y : result A) :
  (b = true -> defined x) -> (b = false -> defined y) -> defined (if b then x else y).
Proof. destruct b; auto. Qed.

(** The instructions that are defined whatever their fields. *)
Ltac dispatch :=
  lazymatch goal with
  | |- defined (InterpretBRANCH _ _) => apply defined_BRANCH
  | |- defined (InterpretLOAD _ _) => apply defined_LOAD
  | |- defined (InterpretSTORE _ _) => apply defined_STORE
  | |- defined (InterpretOPIMM _ _) => apply defined_OPIMM
  | |- defined (InterpretOP _ _) => apply defined_OP
  | |- defined (InterpretMISCMEM _ _) => apply defined_MISCMEM
  | |- defined (InterpretAMO _ _) => apply defined_AMO
  | |- defined (InterpretLOADFP _ _) => apply defined_LOADFP
  | |- defined (InterpretSTOREFP _ _) => apply defined_STOREFP
  | |- defined (InterpretFMADD _ _) => apply defined_fma
  | |- defined (InterpretFMSUB _ _) => apply defined_fma
  | |- defined (InterpretFNMADD _ _) => apply defined_fma
  | |- defined (InterpretFNMSUB _ _) => apply defined_fma
  | |- defined (InterpretOPIMM32 _ _) => congruence
  | |- defined (InterpretOP32 _ _) => idtac
  | |- defined (InterpretSYSTEM _ _) => idtac
  | |- defined (InterpretOPFP _ _) => idtac
  | |- _ => discriminate
  end.

(** No compressed instruction has undefined behaviour in any state, and of the
    32-bit ones only the word shifts by an immediate, the word products and
    rotations, the conversions to integers and environment calls can. *)
Theorem undefined_instructions s :
  (forall c, InterpretC c s <> Undefined) /\
  (forall i, Interpret i s = Undefined -> maybe_undefined i = true).
Proof.
  split; [intros c; apply defined_InterpretC|]. intros i Hu.
  apply not_false_iff_true. intros Hm. revert Hu. change (defined (Interpret i s)).
  unfold maybe_undefined in Hm. rewrite !orb_false_iff in Hm.
  destruct Hm as [[[Hi H32] Hfp] Hsys].
  unfold Interpret. cbv zeta. rewrite Hi.
  repeat (apply defined_if_eq; intros ?; [dispatch|]); [..|discriminate].
  - match goal with E : (_ =? Opcode.OP32) = true |- _ => rewrite E in H32 end. cbn [andb] in H32. apply orb_false_iff in H32 as [? ?].
    by apply defined_OP32.
  - match goal with E : (_ =? Opcode.SYSTEM) = true |- _ => rewrite E in Hsys end. by apply defined_SYSTEM.
  - match goal with E : (_ =? Opcode.OPFP) = true |- _ => rewrite E in Hfp end. cbn [andb] in Hfp. apply orb_false_iff in Hfp as [? ?].
    by apply defined_OPFP.
Qed.

End exec.

(** ** Load reserved, store conditional *)

Section atomics.
Context `{Target} `{Debug} `{HostFPU} `{Host}.

(** The types the atomics are instantiated at on this target. *)
Definition atomic_type (t : ctype) : Prop := t = int32_t \/ (t = int64_t /\ XLEN = 64).

Lemma load_bytes_bytes m a n bs :
  map_Forall (fun _ b => is_u 8 b) m -> load_bytes m a n = Ok bs -> Forall (is_u 8) bs.
Proof.
  intros Hm. revert a bs. induction n as [|n IH]; intros a bs; cbn [load_bytes].
  { by intros [= <-]. }
  destruct (m !! a) as [b|] eqn:E; [|done]. intros (bs' & E' & [= <-])%bind_ok.
  constructor; [by apply (Hm a)|by eapply IH].
Qed.

(** A loaded value survives the round trip through the reservation register. *)
Lemma reserved_roundtrip t s a v :
  wf s -> atomic_type t -> LoadUnaligned t (memory s) a = Ok v -> convert t (ux v) = v.
Proof.
  intros Hs Ht (bs & E & [= <-])%bind_ok.
  destruct Ht as [->|[-> HX]]; unfold convert, of_repr, ux; cbn [sizeof].
  - rewrite wraps_wrapu, wraps_wrapu_le, wraps_wraps_le by (destruct XLEN_cases; lia). done.
  - rewrite HX, wrapu_idemp, wraps_wrapu, wraps_wraps_le by lia. done.
Qed.

(** After [lr], an [sc] to the same address succeeds, storing its operand and
    returning 0, when the reservation is intact and the memory there still holds the
    value that was read; it returns 1 and leaves the memory alone when the value has
    changed or the address is not the reserved one. *)
Theorem lr_sc t i j s s1 s2 :
  wf s -> atomic_type t -> InterpretLR t i s = Ok s1 ->
  reserved_address_ s2 = reserved_address_ s1 -> reserved_value_ s2 = reserved_value_ s1 ->
  (X1 j s2 = X1 i s ->
   LoadUnaligned t (memory s2) (X1 i s) = LoadUnaligned t (memory s) (X1 i s) ->
   exists m, StoreUnaligned t (memory s2) (X1 i s) (convert t (X2 j s2)) = Ok m /\
     InterpretSC t j s2 = Ok (set_xreg (with_memory s2 m) (Instr.rd j) 0)) /\
  (X1 j s2 = X1 i s -> forall v,
   LoadUnaligned t (memory s2) (X1 i s) = Ok v -> LoadUnaligned t (memory s) (X1 i s) <> Ok v ->
   InterpretSC t j s2 = Ok (set_xreg s2 (Instr.rd j) 1)) /\
  (X1 j s2 <> X1 i s -> X1 j s2 .& (sizeof t - 1) = 0 ->
   InterpretSC t j s2 = Ok (set_xreg s2 (Instr.rd j) 1)).
Proof.
  intros Hs Ht (a & Ea & (v & Ev & [= <-])%bind_ok)%bind_ok.
  unfold atomic_addr in Ea. cbv zeta in Ea.
  destruct (Z.eqb_spec (X1 i s .& (sizeof t - 1)) 0) as [Hal|]; [|done].
  cbn in Ea. injection Ea as <-.
  set (s1 := with_reservation s (X1 i s) (ux v)).
  assert (forall r w, reserved_address_ (set_xreg s1 r w) = X1 i s /\
                      reserved_value_ (set_xreg s1 r w) = ux v) as Hres.
  { intros. unfold set_xreg. by destruct (negb _). }
  destruct (Hres (Instr.rd i) (ux v)) as [-> ->]. intros Hra Hrv.
  pose proof (reserved_roundtrip t s _ v Hs Ht Ev) as Hrt.
  unfold InterpretSC, atomic_addr. cbv zeta. rewrite Hra, Hrv, Hrt. split_and!.
  - intros -> El. rewrite Hal, Z.eqb_refl. cbn. rewrite Z.eqb_refl, El, Ev. cbn.
    rewrite Z.eqb_refl.
    assert (is_ok (StoreUnaligned t (memory s2) (X1 i s) (convert t (X2 j s2)))) as Hok.
    { unfold StoreUnaligned. apply store_bytes_ok. rewrite length_bytes_of_u.
      apply load_bytes_ok. unfold LoadUnaligned in El, Ev. rewrite Ev in El.
      apply bind_ok in El as (bs & Eb & _). by rewrite Eb. }
    destruct (StoreUnaligned t _ _ _) as [m| |]; [|done..]. by exists m.
  - intros -> w Ew Hne. rewrite Hal, Z.eqb_refl. cbn. rewrite Z.eqb_refl, Ew. cbn.
    destruct (Z.eqb_spec w v) as [->|]; [by destruct Hne|done].
  - intros Hne ->. cbn. by destruct (Z.eqb_spec (X1 j s2) (X1 i s)).
Qed.

End atomics.

(** ** Witnesses *)

(** A host whose functions do nothing, and one whose floating-point unit returns the
    canonical NaN. *)
Definition demo_host : Host := fun _ _ s => HostReturn s 0.
Definition demo_fpu : HostFPU := fun f _ => quiet_NaN f.

Lemma demo_host_ok `{Target} (P : Simulator -> Prop) : @HostOk _ demo_host P.
Proof. by intros f k s Hs. Qed.

(** [addi a0, zero, 42; jalr zero, 0(ra)] at address [0x20000]. *)
Definition demo_program : list Z := [0x13; 0x05; 0xa0; 0x02; 0x67; 0x80; 0x00; 0x00].

Definition demo_start : Simulator :=
  let _ : Target := RV64 in
  let s := Simulator_new 1 0x7000000 (bytes_at 0x20000 demo_program) [] in
  with_pc (set_xreg s Reg.RA kEndSimulatingPC) 0x20000.

Lemma wf_demo_start : @wf RV64 demo_start.
Proof.
  apply wf_with_pc; [|by vm_compute; split; congruence].
  apply wf_set_xreg; [|done]. apply wf_Simulator_new, bytes_at_bytes.
  by repeat constructor.
Qed.

Definition demo_end : Simulator :=
  match @ExecuteNoTrace RV64 true demo_fpu demo_host 2 demo_start with
  | Some (Ok s) => s
  | _ => demo_start
  end.

Lemma demo_steps : nsteps (@step RV64 true demo_fpu demo_host) 2 demo_start demo_end.
Proof.
  destruct (@loop_nsteps RV64 true demo_fpu demo_host 2 demo_start demo_end) as (n & Hn & Hs & Hp).
  { unfold demo_end. destruct (@ExecuteNoTrace _ _ _ _ _ _) as [[]|] eqn:E;
      [done| | |]; by vm_compute in E. }
  destruct n as [|[|[|n]]]; [| |done|lia].
  - by inversion Hs.
  - inversion Hs as [|? ? y ? Hst Hs']; subst. inversion Hs'; subst.
    destruct Hst as [_ E]. by vm_compute in E.
Qed.

Lemma run_wf_witness :
  let _ : Target := RV64 in wf demo_end /\ get_xreg demo_end Reg.A0 = 42.
Proof.
  split; [|vm_compute; reflexivity].
  apply (@run_wf RV64 true demo_fpu demo_host (demo_host_ok _) demo_start demo_end
    wf_demo_start).
  apply rtc_nsteps. exists 2%nat. exact demo_steps.
Defined.

Lemma ExecuteNoTrace_steps_witness :
  exists n, (n <= 5)%nat /\ nsteps (@step RV64 true demo_fpu demo_host) n demo_start demo_end /\
    pc_ demo_end = @kEndSimulatingPC RV64.
Proof.
  apply (@ExecuteNoTrace_steps RV64 true demo_fpu demo_host 5 demo_start demo_end).
  vm_compute. reflexivity.
Defined.

Lemma run_counts_witness : instret_ demo_end = 2.
Proof.
  exact (proj1 (@run_counts RV64 true demo_fpu demo_host 2 demo_start demo_end
    (fun s0 => demo_host_ok _) (demo_host_ok _) wf_demo_start demo_steps)).
Defined.

(** [rorw a0, sp, ra], where [ra] holds [-2]. *)
Lemma undefined_instructions_witness : maybe_undefined 0x6011553b = true.
Proof.
  apply (proj2 (@undefined_instructions RV64 true demo_fpu demo_host demo_start)).
  vm_compute. reflexivity.
Defined.

(** [lr.w a0, (a1); sc.w a2, a3, (a1)]. *)
Lemma lr_sc_witness :
  let T : Target := RV64 in
  let s := @set_xreg RV64 demo Reg.A1 0x20000 in
  exists s1 m, @InterpretLR RV64 int32_t 0x1005a52f s = Ok s1 /\
    @InterpretSC RV64 int32_t 0x18d5a62f s1
      = Ok (@set_xreg RV64 (with_memory s1 m) Reg.A2 0).
Proof.
  cbv zeta. set (s := @set_xreg RV64 demo Reg.A1 0x20000).
  destruct (@InterpretLR RV64 int32_t 0x1005a52f s) as [s1| |] eqn:E; [|vm_compute in E; done..].
  assert (@wf RV64 s) as Hs by (apply wf_set_xreg; [exact wf_demo|done]).
  destruct (proj1 (@lr_sc RV64 int32_t 0x1005a52f 0x18d5a62f
    s s1 s1 Hs (or_introl eq_refl) E eq_refl eq_refl)) as (m & _ & Em).
  - vm_compute in E. injection E as <-. reflexivity.
  - vm_compute in E. injection E as <-. reflexivity.
  - exists s1, m. split; [reflexivity|exact Em].
Defined.
