(* ===== verification/RiscvAssembler.v ===== *)
(** The RISC-V assembler: class [MicroAssembler] of
    [runtime/vm/compiler/assembler/assembler_riscv.cc] and [.h], one definition per
    member that emits an instruction without a label.

    An emitter takes the assembler's state to the state with the instruction appended
    to the buffer.  The model is the debug build: an [ASSERT] that fails, also one in
    an [Encode..] function of [constants_riscv.h], ends the process.  A release build
    does the same as long as no assertion fails.  Members under [#if XLEN >= 64] are
    defined for both targets here and are meant for the 64-bit one. *)
From stdpp Require Import base numbers list.
From Stdlib Require Import ZArith Lia.
From S2P Require Import Prelude Utils RiscvEncoding RiscvState.
Local Open Scope Z_scope.
Local Open Scope cxx_scope.

Inductive asm_error :=
| AssertionFailed
| IncorrectNearJump
| BranchOffsetError
| DistanceExceeds2GB
| InvalidMemoryOrder
| Unreachable.

(** ** Extensions *)
Definition RV_I : Z := 0.
Definition RV_M : Z := 1.
Definition RV_A : Z := 2.
Definition RV_F : Z := 3.
Definition RV_D : Z := 4.
Definition RV_C : Z := 5.
Definition RV_Zba : Z := 6.
Definition RV_Zbb : Z := 7.
Definition RV_Zbc : Z := 8.
Definition RV_Zbs : Z := 9.

(** An [ExtensionSet] is a bit mask. *)
Definition Includes (set extension : Z) : bool := negb (set .& (1 << extension) =? 0).

Definition RV_G : Z :=
  (1 << RV_I) .| (1 << RV_M) .| (1 << RV_A) .| (1 << RV_F) .| (1 << RV_D).
Definition RV_GC : Z := RV_G .| (1 << RV_C).
Definition RV_B : Z := (1 << RV_Zba) .| (1 << RV_Zbb) .| (1 << RV_Zbc) .| (1 << RV_Zbs).
Definition RV_GCB : Z := RV_GC .| RV_B.

(** [enum HartEffects]. *)
Definition kAll : Z := 15.

(** [std::memory_order]. *)
Inductive memory_order :=
| memory_order_relaxed | memory_order_consume | memory_order_acquire
| memory_order_release | memory_order_acq_rel | memory_order_seq_cst.

Record Address := mkAddress { base : Z; offset : Z }.

Record MicroAssembler := mkAssembler {
  buffer_ : list Z;
  extensions_ : Z;
  far_branch_level_ : Z;
}.

Definition Position (a : MicroAssembler) : Z := Z.of_nat (length (buffer_ a)).

Definition Supports (a : MicroAssembler) (extension : Z) : bool :=
  Includes (extensions_ a) extension.

(** ** Emitters *)

Definition emitter := MicroAssembler -> outcome asm_error MicroAssembler.

Definition andThen (e1 e2 : emitter) : emitter := fun a => e1 a ≫= e2.
Infix ";;;" := andThen (at level 60, right associativity) : cxx_scope.

Definition ASSERT (condition : bool) : emitter :=
  fun a => if condition then Ok a else Fatal AssertionFailed.

Definition AssertSupports (extension : Z) : emitter :=
  fun a => ASSERT (Supports a extension) a.

(** [if (Supports(RV_C) && condition) { e1; return; } e2]. *)
Definition IfC (condition : bool) (e1 e2 : emitter) : emitter :=
  fun a => if Supports a RV_C && condition then e1 a else e2 a.

Definition emit_bytes (bs : list Z) : emitter :=
  fun a => Ok {| buffer_ := buffer_ a ++ bs; extensions_ := extensions_ a;
                 far_branch_level_ := far_branch_level_ a |}.

Definition Emit16 (instruction : Z) : emitter := emit_bytes (bytes_of_u 2 instruction).
Definition Emit32 (instruction : Z) : emitter := emit_bytes (bytes_of_u 4 instruction).

Module Asm.
Section asm.
Context `{Target}.

(** ** The instruction formats

    [FRegister] and [RoundingMode] fields are where [Register] and [Funct3] fields
    are; the overloads are kept apart by their suffix: the kinds of [rs2], [rs1] and
    [rd] ([X] or [F]) and [r] for a rounding mode. *)

Definition EmitRType (funct7 rs2 rs1 funct3 rd opcode : Z) : emitter :=
  ASSERT (IsFunctField 0x7F funct7) ;;; ASSERT (IsRegField rs2) ;;;
  ASSERT (IsRegField rs1) ;;; ASSERT (IsFunctField 0x7 funct3) ;;;
  ASSERT (IsRegField rd) ;;; ASSERT (IsFunctField 0x7F opcode) ;;;
  Emit32 (EncodeFunct7 funct7 .| EncodeRs2 rs2 .| EncodeRs1 rs1
          .| EncodeFunct3 funct3 .| EncodeRd rd .| EncodeOpcode opcode).

Definition EmitRType_FFF (funct7 rs2 rs1 funct3 rd opcode : Z) : emitter :=
  ASSERT (IsFunctField 0x7F funct7) ;;; ASSERT (IsRegField rs2) ;;;
  ASSERT (IsRegField rs1) ;;; ASSERT (IsFunctField 0x7 funct3) ;;;
  ASSERT (IsRegField rd) ;;; ASSERT (IsFunctField 0x7F opcode) ;;;
  Emit32 (EncodeFunct7 funct7 .| EncodeFRs2 rs2 .| EncodeFRs1 rs1
          .| EncodeFunct3 funct3 .| EncodeFRd rd .| EncodeOpcode opcode).

Definition EmitRType_FFFr (funct7 rs2 rs1 round rd opcode : Z) : emitter :=
  ASSERT (IsFunctField 0x7F funct7) ;;; ASSERT (IsRegField rs2) ;;;
  ASSERT (IsRegField rs1) ;;; ASSERT (IsFunctField 0x7 round) ;;;
  ASSERT (IsRegField rd) ;;; ASSERT (IsFunctField 0x7F opcode) ;;;
  Emit32 (EncodeFunct7 funct7 .| EncodeFRs2 rs2 .| EncodeFRs1 rs1
          .| EncodeRoundingMode round .| EncodeFRd rd .| EncodeOpcode opcode).

Definition EmitRType_FXFr (funct7 rs2 rs1 round rd opcode : Z) : emitter :=
  ASSERT (IsFunctField 0x7F funct7) ;;; ASSERT (IsRegField rs2) ;;;
  ASSERT (IsRegField rs1) ;;; ASSERT (IsFunctField 0x7 round) ;;;
  ASSERT (IsRegField rd) ;;; ASSERT (IsFunctField 0x7F opcode) ;;;
  Emit32 (EncodeFunct7 funct7 .| EncodeFRs2 rs2 .| EncodeRs1 rs1
          .| EncodeRoundingMode round .| EncodeFRd rd .| EncodeOpcode opcode).

Definition EmitRType_FXF (funct7 rs2 rs1 funct3 rd opcode : Z) : emitter :=
  ASSERT (IsFunctField 0x7F funct7) ;;; ASSERT (IsRegField rs2) ;;;
  ASSERT (IsRegField rs1) ;;; ASSERT (IsFunctField 0x7 funct3) ;;;
  ASSERT (IsRegField rd) ;;; ASSERT (IsFunctField 0x7F opcode) ;;;
  Emit32 (EncodeFunct7 funct7 .| EncodeFRs2 rs2 .| EncodeRs1 rs1
          .| EncodeFunct3 funct3 .| EncodeFRd rd .| EncodeOpcode opcode).

Definition EmitRType_FFX (funct7 rs2 rs1 funct3 rd opcode : Z) : emitter :=
  ASSERT (IsFunctField 0x7F funct7) ;;; ASSERT (IsRegField rs2) ;;;
  ASSERT (IsRegField rs1) ;;; ASSERT (IsFunctField 0x7 funct3) ;;;
  ASSERT (IsRegField rd) ;;; ASSERT (IsFunctField 0x7F opcode) ;;;
  Emit32 (EncodeFunct7 funct7 .| EncodeFRs2 rs2 .| EncodeFRs1 rs1
          .| EncodeFunct3 funct3 .| EncodeRd rd .| EncodeOpcode opcode).

Definition EmitRType_FFXr (funct7 rs2 rs1 round rd opcode : Z) : emitter :=
  ASSERT (IsFunctField 0x7F funct7) ;;; ASSERT (IsRegField rs2) ;;;
  ASSERT (IsRegField rs1) ;;; ASSERT (IsFunctField 0x7 round) ;;;
  ASSERT (IsRegField rd) ;;; ASSERT (IsFunctField 0x7F opcode) ;;;
  Emit32 (EncodeFunct7 funct7 .| EncodeFRs2 rs2 .| EncodeFRs1 rs1
          .| EncodeRoundingMode round .| EncodeRd rd .| EncodeOpcode opcode).

(** The shift amount is converted to [uint32_t]. *)
Definition EmitRType_shamt (funct7 shamt rs1 funct3 rd opcode : Z) : emitter :=
  ASSERT (IsFunctField 0x7F funct7) ;;; ASSERT (IsFunctField ShamtMask (u32 shamt)) ;;;
  ASSERT (IsRegField rs1) ;;; ASSERT (IsFunctField 0x7 funct3) ;;;
  ASSERT (IsRegField rd) ;;; ASSERT (IsFunctField 0x7F opcode) ;;;
  Emit32 (EncodeFunct7 funct7 .| EncodeShamt (u32 shamt) .| EncodeRs1 rs1
          .| EncodeFunct3 funct3 .| EncodeRd rd .| EncodeOpcode opcode).

(** The atomics: [funct5] with the acquire and release bits below it. *)
Definition EmitRType_order (funct5 : Z) (order : memory_order)
    (rs2 rs1 funct3 rd opcode : Z) : emitter :=
  let funct7 := funct5 << 2 in
  match order with
  | memory_order_acq_rel => EmitRType (funct7 .| 3) rs2 rs1 funct3 rd opcode
  | memory_order_acquire => EmitRType (funct7 .| 2) rs2 rs1 funct3 rd opcode
  | memory_order_release => EmitRType (funct7 .| 1) rs2 rs1 funct3 rd opcode
  | memory_order_relaxed => EmitRType (funct7 .| 0) rs2 rs1 funct3 rd opcode
  | _ => fun _ => Fatal InvalidMemoryOrder
  end.

Definition EmitR4Type (rs3 funct2 rs2 rs1 round rd opcode : Z) : emitter :=
  ASSERT (IsRegField rs3) ;;; ASSERT (IsFunctField 0x3 funct2) ;;;
  ASSERT (IsRegField rs2) ;;; ASSERT (IsRegField rs1) ;;;
  ASSERT (IsFunctField 0x7 round) ;;; ASSERT (IsRegField rd) ;;;
  ASSERT (IsFunctField 0x7F opcode) ;;;
  Emit32 (EncodeFRs3 rs3 .| EncodeFunct2 funct2 .| EncodeFRs2 rs2 .| EncodeFRs1 rs1
          .| EncodeRoundingMode round .| EncodeFRd rd .| EncodeOpcode opcode).

Definition EmitIType (imm rs1 funct3 rd opcode : Z) : emitter :=
  ASSERT (IsITypeImm imm) ;;; ASSERT (IsRegField rs1) ;;;
  ASSERT (IsFunctField 0x7 funct3) ;;; ASSERT (IsRegField rd) ;;;
  ASSERT (IsFunctField 0x7F opcode) ;;;
  Emit32 (EncodeITypeImm imm .| EncodeRs1 rs1 .| EncodeFunct3 funct3 .| EncodeRd rd
          .| EncodeOpcode opcode).

Definition EmitIType_F (imm rs1 funct3 rd opcode : Z) : emitter :=
  ASSERT (IsITypeImm imm) ;;; ASSERT (IsRegField rs1) ;;;
  ASSERT (IsFunctField 0x7 funct3) ;;; ASSERT (IsRegField rd) ;;;
  ASSERT (IsFunctField 0x7F opcode) ;;;
  Emit32 (EncodeITypeImm imm .| EncodeRs1 rs1 .| EncodeFunct3 funct3 .| EncodeFRd rd
          .| EncodeOpcode opcode).

Definition EmitSType (imm rs2 rs1 funct3 opcode : Z) : emitter :=
  ASSERT (IsSTypeImm imm) ;;; ASSERT (IsRegField rs2) ;;; ASSERT (IsRegField rs1) ;;;
  ASSERT (IsFunctField 0x7 funct3) ;;; ASSERT (IsFunctField 0x7F opcode) ;;;
  Emit32 (EncodeSTypeImm imm .| EncodeRs2 rs2 .| EncodeRs1 rs1 .| EncodeFunct3 funct3
          .| EncodeOpcode opcode).

Definition EmitSType_F (imm rs2 rs1 funct3 opcode : Z) : emitter :=
  ASSERT (IsSTypeImm imm) ;;; ASSERT (IsRegField rs2) ;;; ASSERT (IsRegField rs1) ;;;
  ASSERT (IsFunctField 0x7 funct3) ;;; ASSERT (IsFunctField 0x7F opcode) ;;;
  Emit32 (EncodeSTypeImm imm .| EncodeFRs2 rs2 .| EncodeRs1 rs1 .| EncodeFunct3 funct3
          .| EncodeOpcode opcode).

Definition EmitBType (imm rs2 rs1 funct3 opcode : Z) : emitter :=
  ASSERT (IsBTypeImm imm) ;;; ASSERT (IsRegField rs2) ;;; ASSERT (IsRegField rs1) ;;;
  ASSERT (IsFunctField 0x7 funct3) ;;; ASSERT (IsFunctField 0x7F opcode) ;;;
  Emit32 (EncodeBTypeImm imm .| EncodeRs2 rs2 .| EncodeRs1 rs1 .| EncodeFunct3 funct3
          .| EncodeOpcode opcode).

Definition EmitUType (imm rd opcode : Z) : emitter :=
  ASSERT (IsUTypeImm imm) ;;; ASSERT (IsRegField rd) ;;;
  ASSERT (IsFunctField 0x7F opcode) ;;;
  Emit32 (EncodeUTypeImm imm .| EncodeRd rd .| EncodeOpcode opcode).

Definition EmitJType (imm rd opcode : Z) : emitter :=
  ASSERT (IsJTypeImm imm) ;;; ASSERT (IsRegField rd) ;;;
  ASSERT (IsFunctField 0x7F opcode) ;;;
  Emit32 (EncodeJTypeImm imm .| EncodeRd rd .| EncodeOpcode opcode).

(** ** Compressed instructions *)

Definition c_lwsp (rd : Z) (addr : Address) : emitter :=
  ASSERT (negb (rd =? Reg.ZR)) ;;;
  ASSERT (base addr =? Reg.SP) ;;;
  AssertSupports RV_C ;;;
  ASSERT (IsRegField rd) ;;;
  ASSERT (IsCSPLoad4Imm (offset addr)) ;;;
  Emit16 (COpcode.C_LWSP .| EncodeCRd rd .| EncodeCSPLoad4Imm (offset addr)).

Definition c_flwsp (rd : Z) (addr : Address) : emitter :=
  ASSERT (base addr =? Reg.SP) ;;;
  AssertSupports RV_C ;;;
  AssertSupports RV_F ;;;
  ASSERT (IsRegField rd) ;;;
  ASSERT (IsCSPLoad4Imm (offset addr)) ;;;
  Emit16 (COpcode.C_FLWSP .| EncodeCFRd rd .| EncodeCSPLoad4Imm (offset addr)).

Definition c_ldsp (rd : Z) (addr : Address) : emitter :=
  ASSERT (negb (rd =? Reg.ZR)) ;;;
  ASSERT (base addr =? Reg.SP) ;;;
  AssertSupports RV_C ;;;
  ASSERT (IsRegField rd) ;;;
  ASSERT (IsCSPLoad8Imm (offset addr)) ;;;
  Emit16 (COpcode.C_LDSP .| EncodeCRd rd .| EncodeCSPLoad8Imm (offset addr)).

Definition c_fldsp (rd : Z) (addr : Address) : emitter :=
  ASSERT (base addr =? Reg.SP) ;;;
  AssertSupports RV_C ;;;
  AssertSupports RV_D ;;;
  ASSERT (IsRegField rd) ;;;
  ASSERT (IsCSPLoad8Imm (offset addr)) ;;;
  Emit16 (COpcode.C_FLDSP .| EncodeCFRd rd .| EncodeCSPLoad8Imm (offset addr)).

Definition c_swsp (rs2 : Z) (addr : Address) : emitter :=
  ASSERT (base addr =? Reg.SP) ;;;
  AssertSupports RV_C ;;;
  ASSERT (IsRegField rs2) ;;;
  ASSERT (IsCSPStore4Imm (offset addr)) ;;;
  Emit16 (COpcode.C_SWSP .| EncodeCRs2 rs2 .| EncodeCSPStore4Imm (offset addr)).

Definition c_fswsp (rs2 : Z) (addr : Address) : emitter :=
  ASSERT (base addr =? Reg.SP) ;;;
  AssertSupports RV_C ;;;
  AssertSupports RV_F ;;;
  ASSERT (IsRegField rs2) ;;;
  ASSERT (IsCSPStore4Imm (offset addr)) ;;;
  Emit16 (COpcode.C_FSWSP .| EncodeCFRs2 rs2 .| EncodeCSPStore4Imm (offset addr)).

Definition c_sdsp (rs2 : Z) (addr : Address) : emitter :=
  ASSERT (base addr =? Reg.SP) ;;;
  AssertSupports RV_C ;;;
  ASSERT (IsRegField rs2) ;;;
  ASSERT (IsCSPStore8Imm (offset addr)) ;;;
  Emit16 (COpcode.C_SDSP .| EncodeCRs2 rs2 .| EncodeCSPStore8Imm (offset addr)).

Definition c_fsdsp (rs2 : Z) (addr : Address) : emitter :=
  ASSERT (base addr =? Reg.SP) ;;;
  AssertSupports RV_C ;;;
  AssertSupports RV_D ;;;
  ASSERT (IsRegField rs2) ;;;
  ASSERT (IsCSPStore8Imm (offset addr)) ;;;
  Emit16 (COpcode.C_FSDSP .| EncodeCFRs2 rs2 .| EncodeCSPStore8Imm (offset addr)).

Definition c_lw (rd : Z) (addr : Address) : emitter :=
  AssertSupports RV_C ;;;
  ASSERT (IsRegPrimeField rd) ;;;
  ASSERT (IsRegPrimeField (base addr)) ;;;
  ASSERT (IsCMem4Imm (offset addr)) ;;;
  Emit16 (COpcode.C_LW .| EncodeCRdp rd .| EncodeCRs1p (base addr) .| EncodeCMem4Imm (offset addr)).

Definition c_ld (rd : Z) (addr : Address) : emitter :=
  AssertSupports RV_C ;;;
  ASSERT (IsRegPrimeField rd) ;;;
  ASSERT (IsRegPrimeField (base addr)) ;;;
  ASSERT (IsCMem8Imm (offset addr)) ;;;
  Emit16 (COpcode.C_LD .| EncodeCRdp rd .| EncodeCRs1p (base addr) .| EncodeCMem8Imm (offset addr)).

Definition c_flw (rd : Z) (addr : Address) : emitter :=
  AssertSupports RV_C ;;;
  AssertSupports RV_F ;;;
  ASSERT (IsRegPrimeField rd) ;;;
  ASSERT (IsRegPrimeField (base addr)) ;;;
  ASSERT (IsCMem4Imm (offset addr)) ;;;
  Emit16 (COpcode.C_FLW .| EncodeCFRdp rd .| EncodeCRs1p (base addr) .| EncodeCMem4Imm (offset addr)).

Definition c_fld (rd : Z) (addr : Address) : emitter :=
  AssertSupports RV_C ;;;
  AssertSupports RV_D ;;;
  ASSERT (IsRegPrimeField rd) ;;;
  ASSERT (IsRegPrimeField (base addr)) ;;;
  ASSERT (IsCMem8Imm (offset addr)) ;;;
  Emit16 (COpcode.C_FLD .| EncodeCFRdp rd .| EncodeCRs1p (base addr) .| EncodeCMem8Imm (offset addr)).

Definition c_sw (rs2 : Z) (addr : Address) : emitter :=
  AssertSupports RV_C ;;;
  ASSERT (IsRegPrimeField (base addr)) ;;;
  ASSERT (IsRegPrimeField rs2) ;;;
  ASSERT (IsCMem4Imm (offset addr)) ;;;
  Emit16 (COpcode.C_SW .| EncodeCRs1p (base addr) .| EncodeCRs2p rs2 .| EncodeCMem4Imm (offset addr)).

Definition c_sd (rs2 : Z) (addr : Address) : emitter :=
  AssertSupports RV_C ;;;
  ASSERT (IsRegPrimeField (base addr)) ;;;
  ASSERT (IsRegPrimeField rs2) ;;;
  ASSERT (IsCMem8Imm (offset addr)) ;;;
  Emit16 (COpcode.C_SD .| EncodeCRs1p (base addr) .| EncodeCRs2p rs2 .| EncodeCMem8Imm (offset addr)).

Definition c_fsw (rs2 : Z) (addr : Address) : emitter :=
  AssertSupports RV_C ;;;
  AssertSupports RV_F ;;;
  ASSERT (IsRegPrimeField (base addr)) ;;;
  ASSERT (IsRegPrimeField rs2) ;;;
  ASSERT (IsCMem4Imm (offset addr)) ;;;
  Emit16 (COpcode.C_FSW .| EncodeCRs1p (base addr) .| EncodeCFRs2p rs2 .| EncodeCMem4Imm (offset addr)).

Definition c_fsd (rs2 : Z) (addr : Address) : emitter :=
  AssertSupports RV_C ;;;
  AssertSupports RV_D ;;;
  ASSERT (IsRegPrimeField (base addr)) ;;;
  ASSERT (IsRegPrimeField rs2) ;;;
  ASSERT (IsCMem8Imm (offset addr)) ;;;
  Emit16 (COpcode.C_FSD .| EncodeCRs1p (base addr) .| EncodeCFRs2p rs2 .| EncodeCMem8Imm (offset addr)).

Definition c_jr (rs1 : Z) : emitter :=
  AssertSupports RV_C ;;;
  ASSERT (negb (rs1 =? Reg.ZR)) ;;;
  ASSERT (IsRegField rs1) ;;;
  ASSERT (IsRegField Reg.ZR) ;;;
  Emit16 (COpcode.C_JR .| EncodeCRs1 rs1 .| EncodeCRs2 Reg.ZR).

Definition c_jalr (rs1 : Z) : emitter :=
  AssertSupports RV_C ;;;
  ASSERT (IsRegField rs1) ;;;
  ASSERT (IsRegField Reg.ZR) ;;;
  Emit16 (COpcode.C_JALR .| EncodeCRs1 rs1 .| EncodeCRs2 Reg.ZR).

Definition c_li (rd : Z) (imm : Z) : emitter :=
  AssertSupports RV_C ;;;
  ASSERT (negb (rd =? Reg.ZR)) ;;;
  ASSERT (IsRegField rd) ;;;
  ASSERT (IsCIImm imm) ;;;
  Emit16 (COpcode.C_LI .| EncodeCRd rd .| EncodeCIImm imm).

Definition c_lui (rd : Z) (imm : Z) : emitter :=
  AssertSupports RV_C ;;;
  ASSERT (negb (rd =? Reg.ZR)) ;;;
  ASSERT (negb (rd =? Reg.SP)) ;;;
  ASSERT (IsRegField rd) ;;;
  ASSERT (IsCUImm imm) ;;;
  Emit16 (COpcode.C_LUI .| EncodeCRd rd .| EncodeCUImm imm).

Definition c_addi (rd : Z) (rs1 : Z) (imm : Z) : emitter :=
  AssertSupports RV_C ;;;
  ASSERT (negb (imm =? 0)) ;;;
  ASSERT (rd =? rs1) ;;;
  ASSERT (IsRegField rd) ;;;
  ASSERT (IsCIImm imm) ;;;
  Emit16 (COpcode.C_ADDI .| EncodeCRd rd .| EncodeCIImm imm).

Definition c_addiw (rd : Z) (rs1 : Z) (imm : Z) : emitter :=
  AssertSupports RV_C ;;;
  ASSERT (rd =? rs1) ;;;
  ASSERT (IsRegField rd) ;;;
  ASSERT (IsCIImm imm) ;;;
  Emit16 (COpcode.C_ADDIW .| EncodeCRd rd .| EncodeCIImm imm).

Definition c_addi16sp (rd : Z) (rs1 : Z) (imm : Z) : emitter :=
  AssertSupports RV_C ;;;
  ASSERT (rd =? rs1) ;;;
  ASSERT (IsRegField rd) ;;;
  ASSERT (IsCI16Imm imm) ;;;
  Emit16 (COpcode.C_ADDI16SP .| EncodeCRd rd .| EncodeCI16Imm imm).

Definition c_addi4spn (rdp : Z) (rs1 : Z) (imm : Z) : emitter :=
  AssertSupports RV_C ;;;
  ASSERT (rs1 =? Reg.SP) ;;;
  ASSERT (negb (imm =? 0)) ;;;
  ASSERT (IsRegPrimeField rdp) ;;;
  ASSERT (IsCI4SPNImm imm) ;;;
  Emit16 (COpcode.C_ADDI4SPN .| EncodeCRdp rdp .| EncodeCI4SPNImm imm).

Definition c_slli (rd : Z) (rs1 : Z) (imm : Z) : emitter :=
  AssertSupports RV_C ;;;
  ASSERT (rd =? rs1) ;;;
  ASSERT (negb (imm =? 0)) ;;;
  ASSERT (IsRegField rd) ;;;
  ASSERT (IsCIImm imm) ;;;
  Emit16 (COpcode.C_SLLI .| EncodeCRd rd .| EncodeCIImm imm).

Definition c_srli (rd : Z) (rs1 : Z) (imm : Z) : emitter :=
  AssertSupports RV_C ;;;
  ASSERT (rd =? rs1) ;;;
  ASSERT (negb (imm =? 0)) ;;;
  ASSERT (IsRegPrimeField rd) ;;;
  ASSERT (IsCIImm imm) ;;;
  Emit16 (COpcode.C_SRLI .| EncodeCRs1p rd .| EncodeCIImm imm).

Definition c_srai (rd : Z) (rs1 : Z) (imm : Z) : emitter :=
  AssertSupports RV_C ;;;
  ASSERT (rd =? rs1) ;;;
  ASSERT (negb (imm =? 0)) ;;;
  ASSERT (IsRegPrimeField rd) ;;;
  ASSERT (IsCIImm imm) ;;;
  Emit16 (COpcode.C_SRAI .| EncodeCRs1p rd .| EncodeCIImm imm).

Definition c_andi (rd : Z) (rs1 : Z) (imm : Z) : emitter :=
  AssertSupports RV_C ;;;
  ASSERT (rd =? rs1) ;;;
  ASSERT (IsRegPrimeField rd) ;;;
  ASSERT (IsCIImm imm) ;;;
  Emit16 (COpcode.C_ANDI .| EncodeCRs1p rd .| EncodeCIImm imm).

Definition c_mv (rd : Z) (rs2 : Z) : emitter :=
  AssertSupports RV_C ;;;
  ASSERT (negb (rd =? Reg.ZR)) ;;;
  ASSERT (negb (rs2 =? Reg.ZR)) ;;;
  ASSERT (IsRegField rd) ;;;
  ASSERT (IsRegField rs2) ;;;
  Emit16 (COpcode.C_MV .| EncodeCRd rd .| EncodeCRs2 rs2).

Definition c_add (rd : Z) (rs1 : Z) (rs2 : Z) : emitter :=
  AssertSupports RV_C ;;;
  ASSERT (negb (rd =? Reg.ZR)) ;;;
  ASSERT (rd =? rs1) ;;;
  ASSERT (negb (rs2 =? Reg.ZR)) ;;;
  ASSERT (IsRegField rd) ;;;
  ASSERT (IsRegField rs2) ;;;
  Emit16 (COpcode.C_ADD .| EncodeCRd rd .| EncodeCRs2 rs2).

Definition c_and (rd : Z) (rs1 : Z) (rs2 : Z) : emitter :=
  AssertSupports RV_C ;;;
  ASSERT (rd =? rs1) ;;;
  ASSERT (IsRegPrimeField rs1) ;;;
  ASSERT (IsRegPrimeField rs2) ;;;
  Emit16 (COpcode.C_AND .| EncodeCRs1p rs1 .| EncodeCRs2p rs2).

Definition c_or (rd : Z) (rs1 : Z) (rs2 : Z) : emitter :=
  AssertSupports RV_C ;;;
  ASSERT (IsRegPrimeField rs1) ;;;
  ASSERT (IsRegPrimeField rs2) ;;;
  Emit16 (COpcode.C_OR .| EncodeCRs1p rs1 .| EncodeCRs2p rs2).

Definition c_xor (rd : Z) (rs1 : Z) (rs2 : Z) : emitter :=
  AssertSupports RV_C ;;;
  ASSERT (IsRegPrimeField rs1) ;;;
  ASSERT (IsRegPrimeField rs2) ;;;
  Emit16 (COpcode.C_XOR .| EncodeCRs1p rs1 .| EncodeCRs2p rs2).

Definition c_sub (rd : Z) (rs1 : Z) (rs2 : Z) : emitter :=
  AssertSupports RV_C ;;;
  ASSERT (IsRegPrimeField rs1) ;;;
  ASSERT (IsRegPrimeField rs2) ;;;
  Emit16 (COpcode.C_SUB .| EncodeCRs1p rs1 .| EncodeCRs2p rs2).

Definition c_addw (rd : Z) (rs1 : Z) (rs2 : Z) : emitter :=
  AssertSupports RV_C ;;;
  ASSERT (IsRegPrimeField rs1) ;;;
  ASSERT (IsRegPrimeField rs2) ;;;
  Emit16 (COpcode.C_ADDW .| EncodeCRs1p rs1 .| EncodeCRs2p rs2).

Definition c_subw (rd : Z) (rs1 : Z) (rs2 : Z) : emitter :=
  AssertSupports RV_C ;;;
  ASSERT (IsRegPrimeField rs1) ;;;
  ASSERT (IsRegPrimeField rs2) ;;;
  Emit16 (COpcode.C_SUBW .| EncodeCRs1p rs1 .| EncodeCRs2p rs2).

Definition c_nop : emitter :=
  AssertSupports RV_C ;;;
  Emit16 (COpcode.C_NOP).

Definition c_ebreak : emitter :=
  AssertSupports RV_C ;;;
  Emit16 (COpcode.C_EBREAK).

(** ** Instructions *)

Definition lui (rd : Z) (imm : Z) : emitter :=
  AssertSupports RV_I ;;;
  IfC (negb (rd =? Reg.ZR) && negb (rd =? Reg.SP) && IsCUImm imm)
    (c_lui rd imm)
  (EmitUType imm rd Opcode.LUI).

Definition lui_fixed (rd : Z) (imm : Z) : emitter :=
  AssertSupports RV_I ;;;
  EmitUType imm rd Opcode.LUI.

Definition auipc (rd : Z) (imm : Z) : emitter :=
  AssertSupports RV_I ;;;
  EmitUType imm rd Opcode.AUIPC.

Definition jalr (rd : Z) (rs1 : Z) (offset : Z) : emitter :=
  AssertSupports RV_I ;;;
  IfC (negb (rs1 =? Reg.ZR) && (offset =? 0) && (rd =? Reg.ZR))
    (c_jr rs1)
  (IfC (negb (rs1 =? Reg.ZR) && (offset =? 0) && (rd =? Reg.RA))
    (c_jalr rs1)
  (EmitIType offset rs1 Funct3.F3_0 rd Opcode.JALR)).

Definition ret : emitter := jalr Reg.ZR Reg.RA 0.

Definition jalr_fixed (rd : Z) (rs1 : Z) (offset : Z) : emitter :=
  AssertSupports RV_I ;;;
  EmitIType offset rs1 Funct3.F3_0 rd Opcode.JALR.

Definition lb (rd : Z) (addr : Address) : emitter :=
  AssertSupports RV_I ;;;
  EmitIType (offset addr) (base addr) Funct3.LB rd Opcode.LOAD.

Definition lh (rd : Z) (addr : Address) : emitter :=
  AssertSupports RV_I ;;;
  EmitIType (offset addr) (base addr) Funct3.LH rd Opcode.LOAD.

Definition lw (rd : Z) (addr : Address) : emitter :=
  AssertSupports RV_I ;;;
  IfC (negb (rd =? Reg.ZR) && (base addr =? Reg.SP) && IsCSPLoad4Imm (offset addr))
    (c_lwsp rd addr)
  (IfC (IsRegPrimeField rd && IsRegPrimeField (base addr) && IsCMem4Imm (offset addr))
    (c_lw rd addr)
  (EmitIType (offset addr) (base addr) Funct3.LW rd Opcode.LOAD)).

Definition lbu (rd : Z) (addr : Address) : emitter :=
  AssertSupports RV_I ;;;
  EmitIType (offset addr) (base addr) Funct3.LBU rd Opcode.LOAD.

Definition lhu (rd : Z) (addr : Address) : emitter :=
  AssertSupports RV_I ;;;
  EmitIType (offset addr) (base addr) Funct3.LHU rd Opcode.LOAD.

Definition sb (rs2 : Z) (addr : Address) : emitter :=
  AssertSupports RV_I ;;;
  EmitSType (offset addr) rs2 (base addr) Funct3.SB Opcode.STORE.

Definition sh (rs2 : Z) (addr : Address) : emitter :=
  AssertSupports RV_I ;;;
  EmitSType (offset addr) rs2 (base addr) Funct3.SH Opcode.STORE.

Definition sw (rs2 : Z) (addr : Address) : emitter :=
  AssertSupports RV_I ;;;
  IfC ((base addr =? Reg.SP) && IsCSPStore4Imm (offset addr))
    (c_swsp rs2 addr)
  (IfC (IsRegPrimeField rs2 && IsRegPrimeField (base addr) && IsCMem4Imm (offset addr))
    (c_sw rs2 addr)
  (EmitSType (offset addr) rs2 (base addr) Funct3.SW Opcode.STORE)).

Definition addi (rd : Z) (rs1 : Z) (imm : Z) : emitter :=
  AssertSupports RV_I ;;;
  IfC (negb (rd =? Reg.ZR) && (rs1 =? Reg.ZR) && IsCIImm imm)
    (c_li rd imm)
  (IfC ((rd =? rs1) && IsCIImm imm && negb (imm =? 0))
    (c_addi rd rs1 imm)
  (IfC ((rd =? Reg.SP) && (rs1 =? Reg.SP) && IsCI16Imm imm && negb (imm =? 0))
    (c_addi16sp rd rs1 imm)
  (IfC (IsRegPrimeField rd && (rs1 =? Reg.SP) && IsCI4SPNImm imm && negb (imm =? 0))
    (c_addi4spn rd rs1 imm)
  (IfC ((imm =? 0) && (rd =? Reg.ZR) && (rs1 =? Reg.ZR))
    c_nop
  (IfC ((imm =? 0) && negb (rd =? Reg.ZR) && negb (rs1 =? Reg.ZR))
    (c_mv rd rs1)
  (EmitIType imm rs1 Funct3.ADDI rd Opcode.OPIMM)))))).

Definition slti (rd : Z) (rs1 : Z) (imm : Z) : emitter :=
  AssertSupports RV_I ;;;
  EmitIType imm rs1 Funct3.SLTI rd Opcode.OPIMM.

Definition sltiu (rd : Z) (rs1 : Z) (imm : Z) : emitter :=
  AssertSupports RV_I ;;;
  EmitIType imm rs1 Funct3.SLTIU rd Opcode.OPIMM.

Definition xori (rd : Z) (rs1 : Z) (imm : Z) : emitter :=
  AssertSupports RV_I ;;;
  EmitIType imm rs1 Funct3.XORI rd Opcode.OPIMM.

Definition ori (rd : Z) (rs1 : Z) (imm : Z) : emitter :=
  AssertSupports RV_I ;;;
  EmitIType imm rs1 Funct3.ORI rd Opcode.OPIMM.

Definition andi (rd : Z) (rs1 : Z) (imm : Z) : emitter :=
  AssertSupports RV_I ;;;
  IfC ((rd =? rs1) && IsRegPrimeField rs1 && IsCIImm imm)
    (c_andi rd rs1 imm)
  (EmitIType imm rs1 Funct3.ANDI rd Opcode.OPIMM).

Definition slli (rd : Z) (rs1 : Z) (shamt : Z) : emitter :=
  ASSERT ((0 <? shamt) && (shamt <? XLEN)) ;;;
  AssertSupports RV_I ;;;
  IfC ((rd =? rs1) && negb (shamt =? 0) && IsCIImm shamt)
    (c_slli rd rs1 shamt)
  (EmitRType_shamt Funct7.F7_0 shamt rs1 Funct3.SLLI rd Opcode.OPIMM).

Definition srli (rd : Z) (rs1 : Z) (shamt : Z) : emitter :=
  ASSERT ((0 <? shamt) && (shamt <? XLEN)) ;;;
  AssertSupports RV_I ;;;
  IfC ((rd =? rs1) && IsRegPrimeField rs1 && negb (shamt =? 0) && IsCIImm shamt)
    (c_srli rd rs1 shamt)
  (EmitRType_shamt Funct7.F7_0 shamt rs1 Funct3.SRI rd Opcode.OPIMM).

Definition srai (rd : Z) (rs1 : Z) (shamt : Z) : emitter :=
  ASSERT ((0 <? shamt) && (shamt <? XLEN)) ;;;
  AssertSupports RV_I ;;;
  IfC ((rd =? rs1) && IsRegPrimeField rs1 && negb (shamt =? 0) && IsCIImm shamt)
    (c_srai rd rs1 shamt)
  (EmitRType_shamt Funct7.SRA shamt rs1 Funct3.SRI rd Opcode.OPIMM).

Definition add (rd : Z) (rs1 : Z) (rs2 : Z) : emitter :=
  AssertSupports RV_I ;;;
  IfC ((rd =? rs1))
    (c_add rd rs1 rs2)
  (IfC ((rd =? rs2))
    (c_add rd rs2 rs1)
  (EmitRType Funct7.F7_0 rs2 rs1 Funct3.ADD rd Opcode.OP)).

Definition sub (rd : Z) (rs1 : Z) (rs2 : Z) : emitter :=
  AssertSupports RV_I ;;;
  IfC ((rd =? rs1) && IsRegPrimeField rs1 && IsRegPrimeField rs2)
    (c_sub rd rs1 rs2)
  (EmitRType Funct7.SUB rs2 rs1 Funct3.ADD rd Opcode.OP).

Definition sll (rd : Z) (rs1 : Z) (rs2 : Z) : emitter :=
  AssertSupports RV_I ;;;
  EmitRType Funct7.F7_0 rs2 rs1 Funct3.SLL rd Opcode.OP.

Definition slt (rd : Z) (rs1 : Z) (rs2 : Z) : emitter :=
  AssertSupports RV_I ;;;
  EmitRType Funct7.F7_0 rs2 rs1 Funct3.SLT rd Opcode.OP.

Definition sltu (rd : Z) (rs1 : Z) (rs2 : Z) : emitter :=
  AssertSupports RV_I ;;;
  EmitRType Funct7.F7_0 rs2 rs1 Funct3.SLTU rd Opcode.OP.

Definition xor_ (rd : Z) (rs1 : Z) (rs2 : Z) : emitter :=
  AssertSupports RV_I ;;;
  IfC ((rd =? rs1) && IsRegPrimeField rs1 && IsRegPrimeField rs2)
    (c_xor rd rs1 rs2)
  (IfC ((rd =? rs2) && IsRegPrimeField rs1 && IsRegPrimeField rs2)
    (c_xor rd rs2 rs1)
  (EmitRType Funct7.F7_0 rs2 rs1 Funct3.XOR rd Opcode.OP)).

Definition srl (rd : Z) (rs1 : Z) (rs2 : Z) : emitter :=
  AssertSupports RV_I ;;;
  EmitRType Funct7.F7_0 rs2 rs1 Funct3.SR rd Opcode.OP.

Definition sra (rd : Z) (rs1 : Z) (rs2 : Z) : emitter :=
  AssertSupports RV_I ;;;
  EmitRType Funct7.SRA rs2 rs1 Funct3.SR rd Opcode.OP.

Definition or_ (rd : Z) (rs1 : Z) (rs2 : Z) : emitter :=
  AssertSupports RV_I ;;;
  IfC ((rd =? rs1) && IsRegPrimeField rs1 && IsRegPrimeField rs2)
    (c_or rd rs1 rs2)
  (IfC ((rd =? rs2) && IsRegPrimeField rs1 && IsRegPrimeField rs2)
    (c_or rd rs2 rs1)
  (EmitRType Funct7.F7_0 rs2 rs1 Funct3.OR rd Opcode.OP)).

Definition and_ (rd : Z) (rs1 : Z) (rs2 : Z) : emitter :=
  AssertSupports RV_I ;;;
  IfC ((rd =? rs1) && IsRegPrimeField rs1 && IsRegPrimeField rs2)
    (c_and rd rs1 rs2)
  (IfC ((rd =? rs2) && IsRegPrimeField rs1 && IsRegPrimeField rs2)
    (c_and rd rs2 rs1)
  (EmitRType Funct7.F7_0 rs2 rs1 Funct3.AND rd Opcode.OP)).

Definition fence (predecessor : Z) (successor : Z) : emitter :=
  ASSERT (predecessor .& kAll =? predecessor) ;;;
  ASSERT (successor .& kAll =? successor) ;;;
  AssertSupports RV_I ;;;
  EmitIType ((predecessor << 4) .| successor) Reg.ZR Funct3.FENCE Reg.ZR Opcode.MISCMEM.

Definition fencei : emitter :=
  AssertSupports RV_I ;;;
  EmitIType 0 Reg.ZR Funct3.FENCEI Reg.ZR Opcode.MISCMEM.

Definition ecall : emitter :=
  AssertSupports RV_I ;;;
  EmitIType Funct12.ECALL Reg.ZR Funct3.F3_0 Reg.ZR Opcode.SYSTEM.

Definition ebreak : emitter :=
  AssertSupports RV_I ;;;
  IfC true c_ebreak
    (EmitIType Funct12.EBREAK Reg.ZR Funct3.F3_0 Reg.ZR Opcode.SYSTEM).

Definition SimulatorPrintObject (rs1 : Z) : emitter :=
  AssertSupports RV_I ;;;
  EmitIType Funct12.ECALL rs1 Funct3.F3_0 Reg.ZR Opcode.SYSTEM.

Definition csrrw (rd : Z) (csr : Z) (rs1 : Z) : emitter :=
  AssertSupports RV_I ;;;
  EmitIType csr rs1 Funct3.CSRRW rd Opcode.SYSTEM.

Definition csrrs (rd : Z) (csr : Z) (rs1 : Z) : emitter :=
  AssertSupports RV_I ;;;
  EmitIType csr rs1 Funct3.CSRRS rd Opcode.SYSTEM.

Definition csrrc (rd : Z) (csr : Z) (rs1 : Z) : emitter :=
  AssertSupports RV_I ;;;
  EmitIType csr rs1 Funct3.CSRRC rd Opcode.SYSTEM.

Definition csrrwi (rd : Z) (csr : Z) (imm : Z) : emitter :=
  AssertSupports RV_I ;;;
  EmitIType csr imm Funct3.CSRRWI rd Opcode.SYSTEM.

Definition csrrsi (rd : Z) (csr : Z) (imm : Z) : emitter :=
  AssertSupports RV_I ;;;
  EmitIType csr imm Funct3.CSRRSI rd Opcode.SYSTEM.

Definition csrrci (rd : Z) (csr : Z) (imm : Z) : emitter :=
  AssertSupports RV_I ;;;
  EmitIType csr imm Funct3.CSRRCI rd Opcode.SYSTEM.

Definition trap : emitter :=
  AssertSupports RV_I ;;;
  IfC true (Emit16 (0))
    (Emit32 (0)).

Definition lwu (rd : Z) (addr : Address) : emitter :=
  AssertSupports RV_I ;;;
  EmitIType (offset addr) (base addr) Funct3.LWU rd Opcode.LOAD.

Definition ld (rd : Z) (addr : Address) : emitter :=
  AssertSupports RV_I ;;;
  IfC (negb (rd =? Reg.ZR) && (base addr =? Reg.SP) && IsCSPLoad8Imm (offset addr))
    (c_ldsp rd addr)
  (IfC (IsRegPrimeField rd && IsRegPrimeField (base addr) && IsCMem8Imm (offset addr))
    (c_ld rd addr)
  (EmitIType (offset addr) (base addr) Funct3.LD rd Opcode.LOAD)).

Definition sd (rs2 : Z) (addr : Address) : emitter :=
  AssertSupports RV_I ;;;
  IfC ((base addr =? Reg.SP) && IsCSPStore8Imm (offset addr))
    (c_sdsp rs2 addr)
  (IfC (IsRegPrimeField rs2 && IsRegPrimeField (base addr) && IsCMem8Imm (offset addr))
    (c_sd rs2 addr)
  (EmitSType (offset addr) rs2 (base addr) Funct3.SD Opcode.STORE)).

Definition addiw (rd : Z) (rs1 : Z) (imm : Z) : emitter :=
  AssertSupports RV_I ;;;
  IfC (negb (rd =? Reg.ZR) && (rs1 =? Reg.ZR) && IsCIImm imm)
    (c_li rd imm)
  (IfC ((rd =? rs1) && negb (rd =? Reg.ZR) && IsCIImm imm)
    (c_addiw rd rs1 imm)
  (EmitIType imm rs1 Funct3.ADDI rd Opcode.OPIMM32)).

Definition slliw (rd : Z) (rs1 : Z) (shamt : Z) : emitter :=
  ASSERT ((0 <? shamt) && (shamt <? 32)) ;;;
  AssertSupports RV_I ;;;
  EmitRType_shamt Funct7.F7_0 shamt rs1 Funct3.SLLI rd Opcode.OPIMM32.

Definition srliw (rd : Z) (rs1 : Z) (shamt : Z) : emitter :=
  ASSERT ((0 <? shamt) && (shamt <? 32)) ;;;
  AssertSupports RV_I ;;;
  EmitRType_shamt Funct7.F7_0 shamt rs1 Funct3.SRI rd Opcode.OPIMM32.

Definition sraiw (rd : Z) (rs1 : Z) (shamt : Z) : emitter :=
  ASSERT ((0 <? shamt) && (shamt <? XLEN)) ;;;
  AssertSupports RV_I ;;;
  EmitRType_shamt Funct7.SRA shamt rs1 Funct3.SRI rd Opcode.OPIMM32.

Definition addw (rd : Z) (rs1 : Z) (rs2 : Z) : emitter :=
  AssertSupports RV_I ;;;
  IfC ((rd =? rs1) && IsRegPrimeField rs1 && IsRegPrimeField rs2)
    (c_addw rd rs1 rs2)
  (IfC ((rd =? rs2) && IsRegPrimeField rs1 && IsRegPrimeField rs2)
    (c_addw rd rs2 rs1)
  (EmitRType Funct7.F7_0 rs2 rs1 Funct3.ADD rd Opcode.OP32)).

Definition subw (rd : Z) (rs1 : Z) (rs2 : Z) : emitter :=
  AssertSupports RV_I ;;;
  IfC ((rd =? rs1) && IsRegPrimeField rs1 && IsRegPrimeField rs2)
    (c_subw rd rs1 rs2)
  (EmitRType Funct7.SUB rs2 rs1 Funct3.ADD rd Opcode.OP32).

Definition sllw (rd : Z) (rs1 : Z) (rs2 : Z) : emitter :=
  AssertSupports RV_I ;;;
  EmitRType Funct7.F7_0 rs2 rs1 Funct3.SLL rd Opcode.OP32.

Definition srlw (rd : Z) (rs1 : Z) (rs2 : Z) : emitter :=
  AssertSupports RV_I ;;;
  EmitRType Funct7.F7_0 rs2 rs1 Funct3.SR rd Opcode.OP32.

Definition sraw (rd : Z) (rs1 : Z) (rs2 : Z) : emitter :=
  AssertSupports RV_I ;;;
  EmitRType Funct7.SRA rs2 rs1 Funct3.SR rd Opcode.OP32.

Definition mul (rd : Z) (rs1 : Z) (rs2 : Z) : emitter :=
  AssertSupports RV_M ;;;
  EmitRType Funct7.MULDIV rs2 rs1 Funct3.MUL rd Opcode.OP.

Definition mulh (rd : Z) (rs1 : Z) (rs2 : Z) : emitter :=
  AssertSupports RV_M ;;;
  EmitRType Funct7.MULDIV rs2 rs1 Funct3.MULH rd Opcode.OP.

Definition mulhsu (rd : Z) (rs1 : Z) (rs2 : Z) : emitter :=
  AssertSupports RV_M ;;;
  EmitRType Funct7.MULDIV rs2 rs1 Funct3.MULHSU rd Opcode.OP.

Definition mulhu (rd : Z) (rs1 : Z) (rs2 : Z) : emitter :=
  AssertSupports RV_M ;;;
  EmitRType Funct7.MULDIV rs2 rs1 Funct3.MULHU rd Opcode.OP.

Definition div (rd : Z) (rs1 : Z) (rs2 : Z) : emitter :=
  AssertSupports RV_M ;;;
  EmitRType Funct7.MULDIV rs2 rs1 Funct3.DIV rd Opcode.OP.

Definition divu (rd : Z) (rs1 : Z) (rs2 : Z) : emitter :=
  AssertSupports RV_M ;;;
  EmitRType Funct7.MULDIV rs2 rs1 Funct3.DIVU rd Opcode.OP.

Definition rem (rd : Z) (rs1 : Z) (rs2 : Z) : emitter :=
  AssertSupports RV_M ;;;
  EmitRType Funct7.MULDIV rs2 rs1 Funct3.REM rd Opcode.OP.

Definition remu (rd : Z) (rs1 : Z) (rs2 : Z) : emitter :=
  AssertSupports RV_M ;;;
  EmitRType Funct7.MULDIV rs2 rs1 Funct3.REMU rd Opcode.OP.

Definition mulw (rd : Z) (rs1 : Z) (rs2 : Z) : emitter :=
  AssertSupports RV_M ;;;
  EmitRType Funct7.MULDIV rs2 rs1 Funct3.MULW rd Opcode.OP32.

Definition divw (rd : Z) (rs1 : Z) (rs2 : Z) : emitter :=
  AssertSupports RV_M ;;;
  EmitRType Funct7.MULDIV rs2 rs1 Funct3.DIVW rd Opcode.OP32.

Definition divuw (rd : Z) (rs1 : Z) (rs2 : Z) : emitter :=
  AssertSupports RV_M ;;;
  EmitRType Funct7.MULDIV rs2 rs1 Funct3.DIVUW rd Opcode.OP32.

Definition remw (rd : Z) (rs1 : Z) (rs2 : Z) : emitter :=
  AssertSupports RV_M ;;;
  EmitRType Funct7.MULDIV rs2 rs1 Funct3.REMW rd Opcode.OP32.

Definition remuw (rd : Z) (rs1 : Z) (rs2 : Z) : emitter :=
  AssertSupports RV_M ;;;
  EmitRType Funct7.MULDIV rs2 rs1 Funct3.REMUW rd Opcode.OP32.

Definition lrw (rd : Z) (addr : Address) (order : memory_order) : emitter :=
  ASSERT (((offset addr) =? 0)) ;;;
  AssertSupports RV_A ;;;
  EmitRType_order Funct5.LR order Reg.ZR (base addr) Funct3.WIDTH32 rd Opcode.AMO.

Definition scw (rd : Z) (rs2 : Z) (addr : Address) (order : memory_order) : emitter :=
  ASSERT (((offset addr) =? 0)) ;;;
  AssertSupports RV_A ;;;
  EmitRType_order Funct5.SC order rs2 (base addr) Funct3.WIDTH32 rd Opcode.AMO.

Definition amoswapw (rd : Z) (rs2 : Z) (addr : Address) (order : memory_order) : emitter :=
  ASSERT (((offset addr) =? 0)) ;;;
  AssertSupports RV_A ;;;
  EmitRType_order Funct5.AMOSWAP order rs2 (base addr) Funct3.WIDTH32 rd Opcode.AMO.

Definition amoaddw (rd : Z) (rs2 : Z) (addr : Address) (order : memory_order) : emitter :=
  ASSERT (((offset addr) =? 0)) ;;;
  AssertSupports RV_A ;;;
  EmitRType_order Funct5.AMOADD order rs2 (base addr) Funct3.WIDTH32 rd Opcode.AMO.

Definition amoxorw (rd : Z) (rs2 : Z) (addr : Address) (order : memory_order) : emitter :=
  ASSERT (((offset addr) =? 0)) ;;;
  AssertSupports RV_A ;;;
  EmitRType_order Funct5.AMOXOR order rs2 (base addr) Funct3.WIDTH32 rd Opcode.AMO.

Definition amoandw (rd : Z) (rs2 : Z) (addr : Address) (order : memory_order) : emitter :=
  ASSERT (((offset addr) =? 0)) ;;;
  AssertSupports RV_A ;;;
  EmitRType_order Funct5.AMOAND order rs2 (base addr) Funct3.WIDTH32 rd Opcode.AMO.

Definition amoorw (rd : Z) (rs2 : Z) (addr : Address) (order : memory_order) : emitter :=
  ASSERT (((offset addr) =? 0)) ;;;
  AssertSupports RV_A ;;;
  EmitRType_order Funct5.AMOOR order rs2 (base addr) Funct3.WIDTH32 rd Opcode.AMO.

Definition amominw (rd : Z) (rs2 : Z) (addr : Address) (order : memory_order) : emitter :=
  ASSERT (((offset addr) =? 0)) ;;;
  AssertSupports RV_A ;;;
  EmitRType_order Funct5.AMOMIN order rs2 (base addr) Funct3.WIDTH32 rd Opcode.AMO.

Definition amomaxw (rd : Z) (rs2 : Z) (addr : Address) (order : memory_order) : emitter :=
  ASSERT (((offset addr) =? 0)) ;;;
  AssertSupports RV_A ;;;
  EmitRType_order Funct5.AMOMAX order rs2 (base addr) Funct3.WIDTH32 rd Opcode.AMO.

Definition amominuw (rd : Z) (rs2 : Z) (addr : Address) (order : memory_order) : emitter :=
  ASSERT (((offset addr) =? 0)) ;;;
  AssertSupports RV_A ;;;
  EmitRType_order Funct5.AMOMINU order rs2 (base addr) Funct3.WIDTH32 rd Opcode.AMO.

Definition amomaxuw (rd : Z) (rs2 : Z) (addr : Address) (order : memory_order) : emitter :=
  ASSERT (((offset addr) =? 0)) ;;;
  AssertSupports RV_A ;;;
  EmitRType_order Funct5.AMOMAXU order rs2 (base addr) Funct3.WIDTH32 rd Opcode.AMO.

Definition lrd (rd : Z) (addr : Address) (order : memory_order) : emitter :=
  ASSERT (((offset addr) =? 0)) ;;;
  AssertSupports RV_A ;;;
  EmitRType_order Funct5.LR order Reg.ZR (base addr) Funct3.WIDTH64 rd Opcode.AMO.

Definition scd (rd : Z) (rs2 : Z) (addr : Address) (order : memory_order) : emitter :=
  ASSERT (((offset addr) =? 0)) ;;;
  AssertSupports RV_A ;;;
  EmitRType_order Funct5.SC order rs2 (base addr) Funct3.WIDTH64 rd Opcode.AMO.

Definition amoswapd (rd : Z) (rs2 : Z) (addr : Address) (order : memory_order) : emitter :=
  ASSERT (((offset addr) =? 0)) ;;;
  AssertSupports RV_A ;;;
  EmitRType_order Funct5.AMOSWAP order rs2 (base addr) Funct3.WIDTH64 rd Opcode.AMO.

Definition amoaddd (rd : Z) (rs2 : Z) (addr : Address) (order : memory_order) : emitter :=
  ASSERT (((offset addr) =? 0)) ;;;
  AssertSupports RV_A ;;;
  EmitRType_order Funct5.AMOADD order rs2 (base addr) Funct3.WIDTH64 rd Opcode.AMO.

Definition amoxord (rd : Z) (rs2 : Z) (addr : Address) (order : memory_order) : emitter :=
  ASSERT (((offset addr) =? 0)) ;;;
  AssertSupports RV_A ;;;
  EmitRType_order Funct5.AMOXOR order rs2 (base addr) Funct3.WIDTH64 rd Opcode.AMO.

Definition amoandd (rd : Z) (rs2 : Z) (addr : Address) (order : memory_order) : emitter :=
  ASSERT (((offset addr) =? 0)) ;;;
  AssertSupports RV_A ;;;
  EmitRType_order Funct5.AMOAND order rs2 (base addr) Funct3.WIDTH64 rd Opcode.AMO.

Definition amoord (rd : Z) (rs2 : Z) (addr : Address) (order : memory_order) : emitter :=
  ASSERT (((offset addr) =? 0)) ;;;
  AssertSupports RV_A ;;;
  EmitRType_order Funct5.AMOOR order rs2 (base addr) Funct3.WIDTH64 rd Opcode.AMO.

Definition amomind (rd : Z) (rs2 : Z) (addr : Address) (order : memory_order) : emitter :=
  ASSERT (((offset addr) =? 0)) ;;;
  AssertSupports RV_A ;;;
  EmitRType_order Funct5.AMOMIN order rs2 (base addr) Funct3.WIDTH64 rd Opcode.AMO.

Definition amomaxd (rd : Z) (rs2 : Z) (addr : Address) (order : memory_order) : emitter :=
  ASSERT (((offset addr) =? 0)) ;;;
  AssertSupports RV_A ;;;
  EmitRType_order Funct5.AMOMAX order rs2 (base addr) Funct3.WIDTH64 rd Opcode.AMO.

Definition amominud (rd : Z) (rs2 : Z) (addr : Address) (order : memory_order) : emitter :=
  ASSERT (((offset addr) =? 0)) ;;;
  AssertSupports RV_A ;;;
  EmitRType_order Funct5.AMOMINU order rs2 (base addr) Funct3.WIDTH64 rd Opcode.AMO.

Definition amomaxud (rd : Z) (rs2 : Z) (addr : Address) (order : memory_order) : emitter :=
  ASSERT (((offset addr) =? 0)) ;;;
  AssertSupports RV_A ;;;
  EmitRType_order Funct5.AMOMAXU order rs2 (base addr) Funct3.WIDTH64 rd Opcode.AMO.

Definition flw (rd : Z) (addr : Address) : emitter :=
  AssertSupports RV_F ;;;
  IfC (is32 && (base addr =? Reg.SP) && IsCSPLoad4Imm (offset addr))
    (c_flwsp rd addr)
  (IfC (is32 && IsRegPrimeField rd && IsRegPrimeField (base addr) && IsCMem4Imm (offset addr))
    (c_flw rd addr)
  (EmitIType_F (offset addr) (base addr) Funct3.S rd Opcode.LOADFP)).

Definition fsw (rs2 : Z) (addr : Address) : emitter :=
  AssertSupports RV_F ;;;
  IfC (is32 && (base addr =? Reg.SP) && IsCSPStore4Imm (offset addr))
    (c_fswsp rs2 addr)
  (IfC (is32 && IsRegPrimeField rs2 && IsRegPrimeField (base addr) && IsCMem4Imm (offset addr))
    (c_fsw rs2 addr)
  (EmitSType_F (offset addr) rs2 (base addr) Funct3.S Opcode.STOREFP)).

Definition fmadds (rd : Z) (rs1 : Z) (rs2 : Z) (rs3 : Z) (rounding : Z) : emitter :=
  AssertSupports RV_F ;;;
  EmitR4Type rs3 Funct2.F2_S rs2 rs1 rounding rd Opcode.FMADD.

Definition fmsubs (rd : Z) (rs1 : Z) (rs2 : Z) (rs3 : Z) (rounding : Z) : emitter :=
  AssertSupports RV_F ;;;
  EmitR4Type rs3 Funct2.F2_S rs2 rs1 rounding rd Opcode.FMSUB.

Definition fnmsubs (rd : Z) (rs1 : Z) (rs2 : Z) (rs3 : Z) (rounding : Z) : emitter :=
  AssertSupports RV_F ;;;
  EmitR4Type rs3 Funct2.F2_S rs2 rs1 rounding rd Opcode.FNMSUB.

Definition fnmadds (rd : Z) (rs1 : Z) (rs2 : Z) (rs3 : Z) (rounding : Z) : emitter :=
  AssertSupports RV_F ;;;
  EmitR4Type rs3 Funct2.F2_S rs2 rs1 rounding rd Opcode.FNMADD.

Definition fadds (rd : Z) (rs1 : Z) (rs2 : Z) (rounding : Z) : emitter :=
  AssertSupports RV_F ;;;
  EmitRType_FFFr Funct7.FADDS rs2 rs1 rounding rd Opcode.OPFP.

Definition fsubs (rd : Z) (rs1 : Z) (rs2 : Z) (rounding : Z) : emitter :=
  AssertSupports RV_F ;;;
  EmitRType_FFFr Funct7.FSUBS rs2 rs1 rounding rd Opcode.OPFP.

Definition fmuls (rd : Z) (rs1 : Z) (rs2 : Z) (rounding : Z) : emitter :=
  AssertSupports RV_F ;;;
  EmitRType_FFFr Funct7.FMULS rs2 rs1 rounding rd Opcode.OPFP.

Definition fdivs (rd : Z) (rs1 : Z) (rs2 : Z) (rounding : Z) : emitter :=
  AssertSupports RV_F ;;;
  EmitRType_FFFr Funct7.FDIVS rs2 rs1 rounding rd Opcode.OPFP.

Definition fsqrts (rd : Z) (rs1 : Z) (rounding : Z) : emitter :=
  AssertSupports RV_F ;;;
  EmitRType_FFFr Funct7.FSQRTS 0 rs1 rounding rd Opcode.OPFP.

Definition fsgnjs (rd : Z) (rs1 : Z) (rs2 : Z) : emitter :=
  AssertSupports RV_F ;;;
  EmitRType_FFF Funct7.FSGNJS rs2 rs1 Funct3.J rd Opcode.OPFP.

Definition fsgnjns (rd : Z) (rs1 : Z) (rs2 : Z) : emitter :=
  AssertSupports RV_F ;;;
  EmitRType_FFF Funct7.FSGNJS rs2 rs1 Funct3.JN rd Opcode.OPFP.

Definition fsgnjxs (rd : Z) (rs1 : Z) (rs2 : Z) : emitter :=
  AssertSupports RV_F ;;;
  EmitRType_FFF Funct7.FSGNJS rs2 rs1 Funct3.JX rd Opcode.OPFP.

Definition fmins (rd : Z) (rs1 : Z) (rs2 : Z) : emitter :=
  AssertSupports RV_F ;;;
  EmitRType_FFF Funct7.FMINMAXS rs2 rs1 Funct3.FMIN rd Opcode.OPFP.

Definition fmaxs (rd : Z) (rs1 : Z) (rs2 : Z) : emitter :=
  AssertSupports RV_F ;;;
  EmitRType_FFF Funct7.FMINMAXS rs2 rs1 Funct3.FMAX rd Opcode.OPFP.

Definition feqs (rd : Z) (rs1 : Z) (rs2 : Z) : emitter :=
  AssertSupports RV_F ;;;
  EmitRType_FFX Funct7.FCMPS rs2 rs1 Funct3.FEQ rd Opcode.OPFP.

Definition flts (rd : Z) (rs1 : Z) (rs2 : Z) : emitter :=
  AssertSupports RV_F ;;;
  EmitRType_FFX Funct7.FCMPS rs2 rs1 Funct3.FLT rd Opcode.OPFP.

Definition fles (rd : Z) (rs1 : Z) (rs2 : Z) : emitter :=
  AssertSupports RV_F ;;;
  EmitRType_FFX Funct7.FCMPS rs2 rs1 Funct3.FLE rd Opcode.OPFP.

Definition fclasss (rd : Z) (rs1 : Z) : emitter :=
  AssertSupports RV_F ;;;
  EmitRType_FFX Funct7.FCLASSS 0 rs1 Funct3.F3_1 rd Opcode.OPFP.

Definition fcvtws (rd : Z) (rs1 : Z) (rounding : Z) : emitter :=
  AssertSupports RV_F ;;;
  EmitRType_FFXr Funct7.FCVTintS FcvtRs2.W rs1 rounding rd Opcode.OPFP.

Definition fcvtwus (rd : Z) (rs1 : Z) (rounding : Z) : emitter :=
  AssertSupports RV_F ;;;
  EmitRType_FFXr Funct7.FCVTintS FcvtRs2.WU rs1 rounding rd Opcode.OPFP.

Definition fcvtsw (rd : Z) (rs1 : Z) (rounding : Z) : emitter :=
  AssertSupports RV_F ;;;
  EmitRType_FXFr Funct7.FCVTSint FcvtRs2.W rs1 rounding rd Opcode.OPFP.

Definition fcvtswu (rd : Z) (rs1 : Z) (rounding : Z) : emitter :=
  AssertSupports RV_F ;;;
  EmitRType_FXFr Funct7.FCVTSint FcvtRs2.WU rs1 rounding rd Opcode.OPFP.

Definition fmvxw (rd : Z) (rs1 : Z) : emitter :=
  AssertSupports RV_F ;;;
  EmitRType_FFX Funct7.FMVXW 0 rs1 Funct3.F3_0 rd Opcode.OPFP.

Definition fmvwx (rd : Z) (rs1 : Z) : emitter :=
  AssertSupports RV_F ;;;
  EmitRType_FXF Funct7.FMVWX 0 rs1 Funct3.F3_0 rd Opcode.OPFP.

Definition fcvtls (rd : Z) (rs1 : Z) (rounding : Z) : emitter :=
  AssertSupports RV_F ;;;
  EmitRType_FFXr Funct7.FCVTintS FcvtRs2.L rs1 rounding rd Opcode.OPFP.

Definition fcvtlus (rd : Z) (rs1 : Z) (rounding : Z) : emitter :=
  AssertSupports RV_F ;;;
  EmitRType_FFXr Funct7.FCVTintS FcvtRs2.LU rs1 rounding rd Opcode.OPFP.

Definition fcvtsl (rd : Z) (rs1 : Z) (rounding : Z) : emitter :=
  AssertSupports RV_F ;;;
  EmitRType_FXFr Funct7.FCVTSint FcvtRs2.L rs1 rounding rd Opcode.OPFP.

Definition fcvtslu (rd : Z) (rs1 : Z) (rounding : Z) : emitter :=
  AssertSupports RV_F ;;;
  EmitRType_FXFr Funct7.FCVTSint FcvtRs2.LU rs1 rounding rd Opcode.OPFP.

Definition fld (rd : Z) (addr : Address) : emitter :=
  AssertSupports RV_D ;;;
  IfC ((base addr =? Reg.SP) && IsCSPLoad8Imm (offset addr))
    (c_fldsp rd addr)
  (IfC (IsRegPrimeField rd && IsRegPrimeField (base addr) && IsCMem8Imm (offset addr))
    (c_fld rd addr)
  (EmitIType_F (offset addr) (base addr) Funct3.D rd Opcode.LOADFP)).

Definition fsd (rs2 : Z) (addr : Address) : emitter :=
  AssertSupports RV_D ;;;
  IfC ((base addr =? Reg.SP) && IsCSPStore8Imm (offset addr))
    (c_fsdsp rs2 addr)
  (IfC (IsRegPrimeField rs2 && IsRegPrimeField (base addr) && IsCMem8Imm (offset addr))
    (c_fsd rs2 addr)
  (EmitSType_F (offset addr) rs2 (base addr) Funct3.D Opcode.STOREFP)).

Definition fmaddd (rd : Z) (rs1 : Z) (rs2 : Z) (rs3 : Z) (rounding : Z) : emitter :=
  AssertSupports RV_D ;;;
  EmitR4Type rs3 Funct2.F2_D rs2 rs1 rounding rd Opcode.FMADD.

Definition fmsubd (rd : Z) (rs1 : Z) (rs2 : Z) (rs3 : Z) (rounding : Z) : emitter :=
  AssertSupports RV_D ;;;
  EmitR4Type rs3 Funct2.F2_D rs2 rs1 rounding rd Opcode.FMSUB.

Definition fnmsubd (rd : Z) (rs1 : Z) (rs2 : Z) (rs3 : Z) (rounding : Z) : emitter :=
  AssertSupports RV_D ;;;
  EmitR4Type rs3 Funct2.F2_D rs2 rs1 rounding rd Opcode.FNMSUB.

Definition fnmaddd (rd : Z) (rs1 : Z) (rs2 : Z) (rs3 : Z) (rounding : Z) : emitter :=
  AssertSupports RV_D ;;;
  EmitR4Type rs3 Funct2.F2_D rs2 rs1 rounding rd Opcode.FNMADD.

Definition faddd (rd : Z) (rs1 : Z) (rs2 : Z) (rounding : Z) : emitter :=
  AssertSupports RV_D ;;;
  EmitRType_FFFr Funct7.FADDD rs2 rs1 rounding rd Opcode.OPFP.

Definition fsubd (rd : Z) (rs1 : Z) (rs2 : Z) (rounding : Z) : emitter :=
  AssertSupports RV_D ;;;
  EmitRType_FFFr Funct7.FSUBD rs2 rs1 rounding rd Opcode.OPFP.

Definition fmuld (rd : Z) (rs1 : Z) (rs2 : Z) (rounding : Z) : emitter :=
  AssertSupports RV_D ;;;
  EmitRType_FFFr Funct7.FMULD rs2 rs1 rounding rd Opcode.OPFP.

Definition fdivd (rd : Z) (rs1 : Z) (rs2 : Z) (rounding : Z) : emitter :=
  AssertSupports RV_D ;;;
  EmitRType_FFFr Funct7.FDIVD rs2 rs1 rounding rd Opcode.OPFP.

Definition fsqrtd (rd : Z) (rs1 : Z) (rounding : Z) : emitter :=
  AssertSupports RV_D ;;;
  EmitRType_FFFr Funct7.FSQRTD 0 rs1 rounding rd Opcode.OPFP.

Definition fsgnjd (rd : Z) (rs1 : Z) (rs2 : Z) : emitter :=
  AssertSupports RV_D ;;;
  EmitRType_FFF Funct7.FSGNJD rs2 rs1 Funct3.J rd Opcode.OPFP.

Definition fsgnjnd (rd : Z) (rs1 : Z) (rs2 : Z) : emitter :=
  AssertSupports RV_D ;;;
  EmitRType_FFF Funct7.FSGNJD rs2 rs1 Funct3.JN rd Opcode.OPFP.

Definition fsgnjxd (rd : Z) (rs1 : Z) (rs2 : Z) : emitter :=
  AssertSupports RV_D ;;;
  EmitRType_FFF Funct7.FSGNJD rs2 rs1 Funct3.JX rd Opcode.OPFP.

Definition fmind (rd : Z) (rs1 : Z) (rs2 : Z) : emitter :=
  AssertSupports RV_D ;;;
  EmitRType_FFF Funct7.FMINMAXD rs2 rs1 Funct3.FMIN rd Opcode.OPFP.

Definition fmaxd (rd : Z) (rs1 : Z) (rs2 : Z) : emitter :=
  AssertSupports RV_D ;;;
  EmitRType_FFF Funct7.FMINMAXD rs2 rs1 Funct3.FMAX rd Opcode.OPFP.

Definition fcvtsd (rd : Z) (rs1 : Z) (rounding : Z) : emitter :=
  AssertSupports RV_D ;;;
  EmitRType_FFFr Funct7.FCVTS 1 rs1 rounding rd Opcode.OPFP.

Definition fcvtds (rd : Z) (rs1 : Z) (rounding : Z) : emitter :=
  AssertSupports RV_D ;;;
  EmitRType_FFFr Funct7.FCVTD 0 rs1 rounding rd Opcode.OPFP.

Definition feqd (rd : Z) (rs1 : Z) (rs2 : Z) : emitter :=
  AssertSupports RV_D ;;;
  EmitRType_FFX Funct7.FCMPD rs2 rs1 Funct3.FEQ rd Opcode.OPFP.

Definition fltd (rd : Z) (rs1 : Z) (rs2 : Z) : emitter :=
  AssertSupports RV_D ;;;
  EmitRType_FFX Funct7.FCMPD rs2 rs1 Funct3.FLT rd Opcode.OPFP.

Definition fled (rd : Z) (rs1 : Z) (rs2 : Z) : emitter :=
  AssertSupports RV_D ;;;
  EmitRType_FFX Funct7.FCMPD rs2 rs1 Funct3.FLE rd Opcode.OPFP.

Definition fclassd (rd : Z) (rs1 : Z) : emitter :=
  AssertSupports RV_D ;;;
  EmitRType_FFX Funct7.FCLASSD 0 rs1 Funct3.F3_1 rd Opcode.OPFP.

Definition fcvtwd (rd : Z) (rs1 : Z) (rounding : Z) : emitter :=
  AssertSupports RV_D ;;;
  EmitRType_FFXr Funct7.FCVTintD FcvtRs2.W rs1 rounding rd Opcode.OPFP.

Definition fcvtwud (rd : Z) (rs1 : Z) (rounding : Z) : emitter :=
  AssertSupports RV_D ;;;
  EmitRType_FFXr Funct7.FCVTintD FcvtRs2.WU rs1 rounding rd Opcode.OPFP.

Definition fcvtdw (rd : Z) (rs1 : Z) (rounding : Z) : emitter :=
  AssertSupports RV_D ;;;
  EmitRType_FXFr Funct7.FCVTDint FcvtRs2.W rs1 rounding rd Opcode.OPFP.

Definition fcvtdwu (rd : Z) (rs1 : Z) (rounding : Z) : emitter :=
  AssertSupports RV_D ;;;
  EmitRType_FXFr Funct7.FCVTDint FcvtRs2.WU rs1 rounding rd Opcode.OPFP.

Definition fcvtld (rd : Z) (rs1 : Z) (rounding : Z) : emitter :=
  AssertSupports RV_D ;;;
  EmitRType_FFXr Funct7.FCVTintD FcvtRs2.L rs1 rounding rd Opcode.OPFP.

Definition fcvtlud (rd : Z) (rs1 : Z) (rounding : Z) : emitter :=
  AssertSupports RV_D ;;;
  EmitRType_FFXr Funct7.FCVTintD FcvtRs2.LU rs1 rounding rd Opcode.OPFP.

Definition fmvxd (rd : Z) (rs1 : Z) : emitter :=
  AssertSupports RV_D ;;;
  EmitRType_FFX Funct7.FMVXD 0 rs1 Funct3.F3_0 rd Opcode.OPFP.

Definition fcvtdl (rd : Z) (rs1 : Z) (rounding : Z) : emitter :=
  AssertSupports RV_D ;;;
  EmitRType_FXFr Funct7.FCVTDint FcvtRs2.L rs1 rounding rd Opcode.OPFP.

Definition fcvtdlu (rd : Z) (rs1 : Z) (rounding : Z) : emitter :=
  AssertSupports RV_D ;;;
  EmitRType_FXFr Funct7.FCVTDint FcvtRs2.LU rs1 rounding rd Opcode.OPFP.

Definition fmvdx (rd : Z) (rs1 : Z) : emitter :=
  AssertSupports RV_D ;;;
  EmitRType_FXF Funct7.FMVDX 0 rs1 Funct3.F3_0 rd Opcode.OPFP.

Definition adduw (rd : Z) (rs1 : Z) (rs2 : Z) : emitter :=
  AssertSupports RV_Zba ;;;
  EmitRType Funct7.ADDUW rs2 rs1 Funct3.F3_0 rd Opcode.OP32.

Definition sh1add (rd : Z) (rs1 : Z) (rs2 : Z) : emitter :=
  AssertSupports RV_Zba ;;;
  EmitRType Funct7.SHADD rs2 rs1 Funct3.SH1ADD rd Opcode.OP.

Definition sh1adduw (rd : Z) (rs1 : Z) (rs2 : Z) : emitter :=
  AssertSupports RV_Zba ;;;
  EmitRType Funct7.SHADD rs2 rs1 Funct3.SH1ADD rd Opcode.OP32.

Definition sh2add (rd : Z) (rs1 : Z) (rs2 : Z) : emitter :=
  AssertSupports RV_Zba ;;;
  EmitRType Funct7.SHADD rs2 rs1 Funct3.SH2ADD rd Opcode.OP.

Definition sh2adduw (rd : Z) (rs1 : Z) (rs2 : Z) : emitter :=
  AssertSupports RV_Zba ;;;
  EmitRType Funct7.SHADD rs2 rs1 Funct3.SH2ADD rd Opcode.OP32.

Definition sh3add (rd : Z) (rs1 : Z) (rs2 : Z) : emitter :=
  AssertSupports RV_Zba ;;;
  EmitRType Funct7.SHADD rs2 rs1 Funct3.SH3ADD rd Opcode.OP.

Definition sh3adduw (rd : Z) (rs1 : Z) (rs2 : Z) : emitter :=
  AssertSupports RV_Zba ;;;
  EmitRType Funct7.SHADD rs2 rs1 Funct3.SH3ADD rd Opcode.OP32.

Definition slliuw (rd : Z) (rs1 : Z) (shamt : Z) : emitter :=
  ASSERT ((0 <? shamt) && (shamt <? 32)) ;;;
  AssertSupports RV_Zba ;;;
  EmitRType_shamt Funct7.SLLIUW shamt rs1 Funct3.SLLI rd Opcode.OPIMM32.

Definition andn (rd : Z) (rs1 : Z) (rs2 : Z) : emitter :=
  AssertSupports RV_Zbb ;;;
  EmitRType Funct7.SUB rs2 rs1 Funct3.AND rd Opcode.OP.

Definition orn (rd : Z) (rs1 : Z) (rs2 : Z) : emitter :=
  AssertSupports RV_Zbb ;;;
  EmitRType Funct7.SUB rs2 rs1 Funct3.OR rd Opcode.OP.

Definition xnor (rd : Z) (rs1 : Z) (rs2 : Z) : emitter :=
  AssertSupports RV_Zbb ;;;
  EmitRType Funct7.SUB rs2 rs1 Funct3.XOR rd Opcode.OP.

Definition clz (rd : Z) (rs1 : Z) : emitter :=
  AssertSupports RV_Zbb ;;;
  EmitRType_shamt Funct7.COUNT 0 rs1 Funct3.F3_COUNT rd Opcode.OPIMM.

Definition clzw (rd : Z) (rs1 : Z) : emitter :=
  AssertSupports RV_Zbb ;;;
  EmitRType_shamt Funct7.COUNT 0 rs1 Funct3.F3_COUNT rd Opcode.OPIMM32.

Definition ctz (rd : Z) (rs1 : Z) : emitter :=
  AssertSupports RV_Zbb ;;;
  EmitRType_shamt Funct7.COUNT 1 rs1 Funct3.F3_COUNT rd Opcode.OPIMM.

Definition ctzw (rd : Z) (rs1 : Z) : emitter :=
  AssertSupports RV_Zbb ;;;
  EmitRType_shamt Funct7.COUNT 1 rs1 Funct3.F3_COUNT rd Opcode.OPIMM32.

Definition cpop (rd : Z) (rs1 : Z) : emitter :=
  AssertSupports RV_Zbb ;;;
  EmitRType_shamt Funct7.COUNT 2 rs1 Funct3.F3_COUNT rd Opcode.OPIMM.

Definition cpopw (rd : Z) (rs1 : Z) : emitter :=
  AssertSupports RV_Zbb ;;;
  EmitRType_shamt Funct7.COUNT 2 rs1 Funct3.F3_COUNT rd Opcode.OPIMM32.

Definition max (rd : Z) (rs1 : Z) (rs2 : Z) : emitter :=
  AssertSupports RV_Zbb ;;;
  EmitRType Funct7.MINMAXCLMUL rs2 rs1 Funct3.MAX rd Opcode.OP.

Definition maxu (rd : Z) (rs1 : Z) (rs2 : Z) : emitter :=
  AssertSupports RV_Zbb ;;;
  EmitRType Funct7.MINMAXCLMUL rs2 rs1 Funct3.MAXU rd Opcode.OP.

Definition min (rd : Z) (rs1 : Z) (rs2 : Z) : emitter :=
  AssertSupports RV_Zbb ;;;
  EmitRType Funct7.MINMAXCLMUL rs2 rs1 Funct3.MIN rd Opcode.OP.

Definition minu (rd : Z) (rs1 : Z) (rs2 : Z) : emitter :=
  AssertSupports RV_Zbb ;;;
  EmitRType Funct7.MINMAXCLMUL rs2 rs1 Funct3.MINU rd Opcode.OP.

Definition sextb (rd : Z) (rs1 : Z) : emitter :=
  AssertSupports RV_Zbb ;;;
  EmitRType_shamt 48 4 rs1 Funct3.SEXT rd Opcode.OPIMM.

Definition sexth (rd : Z) (rs1 : Z) : emitter :=
  AssertSupports RV_Zbb ;;;
  EmitRType_shamt 48 5 rs1 Funct3.SEXT rd Opcode.OPIMM.

Definition zexth (rd : Z) (rs1 : Z) : emitter :=
  AssertSupports RV_Zbb ;;;
  (if is32 then EmitRType_shamt 4 0 rs1 Funct3.ZEXT rd Opcode.OP
   else EmitRType_shamt 4 0 rs1 Funct3.ZEXT rd Opcode.OP32).

Definition rol (rd : Z) (rs1 : Z) (rs2 : Z) : emitter :=
  AssertSupports RV_Zbb ;;;
  EmitRType Funct7.ROTATE rs2 rs1 Funct3.ROL rd Opcode.OP.

Definition rolw (rd : Z) (rs1 : Z) (rs2 : Z) : emitter :=
  AssertSupports RV_Zbb ;;;
  EmitRType Funct7.ROTATE rs2 rs1 Funct3.ROL rd Opcode.OP32.

Definition ror (rd : Z) (rs1 : Z) (rs2 : Z) : emitter :=
  AssertSupports RV_Zbb ;;;
  EmitRType Funct7.ROTATE rs2 rs1 Funct3.ROR rd Opcode.OP.

Definition rori (rd : Z) (rs1 : Z) (shamt : Z) : emitter :=
  AssertSupports RV_Zbb ;;;
  EmitRType_shamt Funct7.ROTATE shamt rs1 Funct3.ROR rd Opcode.OPIMM.

Definition roriw (rd : Z) (rs1 : Z) (shamt : Z) : emitter :=
  AssertSupports RV_Zbb ;;;
  EmitRType_shamt Funct7.ROTATE shamt rs1 Funct3.ROR rd Opcode.OPIMM32.

Definition rorw (rd : Z) (rs1 : Z) (rs2 : Z) : emitter :=
  AssertSupports RV_Zbb ;;;
  EmitRType Funct7.ROTATE rs2 rs1 Funct3.ROR rd Opcode.OP32.

Definition orcb (rd : Z) (rs1 : Z) : emitter :=
  AssertSupports RV_Zbb ;;;
  EmitRType_shamt 20 7 rs1 5 rd Opcode.OPIMM.

Definition rev8 (rd : Z) (rs1 : Z) : emitter :=
  AssertSupports RV_Zbb ;;;
  (if is32 then EmitRType_shamt 52 24 rs1 5 rd Opcode.OPIMM
   else EmitRType_shamt 53 24 rs1 5 rd Opcode.OPIMM).

Definition clmul (rd : Z) (rs1 : Z) (rs2 : Z) : emitter :=
  AssertSupports RV_Zbc ;;;
  EmitRType Funct7.MINMAXCLMUL rs2 rs1 Funct3.CLMUL rd Opcode.OP.

Definition clmulh (rd : Z) (rs1 : Z) (rs2 : Z) : emitter :=
  AssertSupports RV_Zbc ;;;
  EmitRType Funct7.MINMAXCLMUL rs2 rs1 Funct3.CLMULH rd Opcode.OP.

Definition clmulr (rd : Z) (rs1 : Z) (rs2 : Z) : emitter :=
  AssertSupports RV_Zbc ;;;
  EmitRType Funct7.MINMAXCLMUL rs2 rs1 Funct3.CLMULR rd Opcode.OP.

Definition bclr (rd : Z) (rs1 : Z) (rs2 : Z) : emitter :=
  AssertSupports RV_Zbs ;;;
  EmitRType Funct7.BCLRBEXT rs2 rs1 Funct3.BCLR rd Opcode.OP.

Definition bclri (rd : Z) (rs1 : Z) (shamt : Z) : emitter :=
  AssertSupports RV_Zbs ;;;
  EmitRType_shamt Funct7.BCLRBEXT shamt rs1 Funct3.BCLR rd Opcode.OPIMM.

Definition bext (rd : Z) (rs1 : Z) (rs2 : Z) : emitter :=
  AssertSupports RV_Zbs ;;;
  EmitRType Funct7.BCLRBEXT rs2 rs1 Funct3.BEXT rd Opcode.OP.

Definition bexti (rd : Z) (rs1 : Z) (shamt : Z) : emitter :=
  AssertSupports RV_Zbs ;;;
  EmitRType_shamt Funct7.BCLRBEXT shamt rs1 Funct3.BEXT rd Opcode.OPIMM.

Definition binv (rd : Z) (rs1 : Z) (rs2 : Z) : emitter :=
  AssertSupports RV_Zbs ;;;
  EmitRType Funct7.BINV rs2 rs1 Funct3.F3_BINV rd Opcode.OP.

Definition binvi (rd : Z) (rs1 : Z) (shamt : Z) : emitter :=
  AssertSupports RV_Zbs ;;;
  EmitRType_shamt Funct7.BINV shamt rs1 Funct3.F3_BINV rd Opcode.OPIMM.

Definition bset (rd : Z) (rs1 : Z) (rs2 : Z) : emitter :=
  AssertSupports RV_Zbs ;;;
  EmitRType Funct7.BSET rs2 rs1 Funct3.F3_BSET rd Opcode.OP.

Definition bseti (rd : Z) (rs1 : Z) (shamt : Z) : emitter :=
  AssertSupports RV_Zbs ;;;
  EmitRType_shamt Funct7.BSET shamt rs1 Funct3.F3_BSET rd Opcode.OPIMM.

End asm.
End Asm.
