(* ===== verification/RiscvDecode.v ===== *)
(** The fields of the instructions the assembler emits, compressed ones included, as the
    simulator decodes them, and how the simulator fetches them. *)
From stdpp Require Import base numbers list gmap.
From Stdlib Require Import ZArith Lia.
From S2P Require Import Prelude Utils Random RiscvEncoding RiscvEncodingProps RiscvState RiscvAlu RiscvFloat RiscvInterp RiscvCompressed RiscvInvariant RiscvStateProps RiscvExec RiscvAssembler.
Local Open Scope Z_scope.
Local Open Scope cxx_scope.

(** ** Decoding what the formats encode *)

Lemma field_eq n e v :
  0 <= n -> is_u n v -> (forall i, 0 <= i < n -> Z.testbit e i = Z.testbit v i) ->
  e .& Z.ones n = v.
Proof.
  intros Hn Hv Hb. rewrite Z.land_ones by done. rewrite <- (wrapu_id n v) by done.
  by apply wrapu_bits.
Qed.

Lemma testbit_hi_false x n i : is_u n x -> 0 <= n <= i -> Z.testbit x i = false.
Proof. apply testbit_high. Qed.

(** [r] is a register number: five bits. *)
Lemma is_reg_u r : is_reg r -> is_u 5 r.
Proof. done. Qed.

Ltac unfold_fields :=
  unfold Instr.opcode, Instr.rd, Instr.rs1, Instr.rs2, Instr.frd, Instr.frs1, Instr.frs2,
    Instr.frs3, Instr.funct2, Instr.funct3, Instr.funct5, Instr.funct7, Instr.funct12,
    Instr.shamt, Instr.rounding, Instr.csr,
    DecodeOpcode, DecodeRd, DecodeRs1, DecodeRs2, DecodeFRd, DecodeFRs1, DecodeFRs2,
    DecodeFRs3, DecodeFunct2, DecodeFunct3, DecodeFunct5, DecodeFunct7, DecodeFunct12,
    DecodeRoundingMode, DecodeRegField, DecodeFunctField,
    EncodeOpcode, EncodeRd, EncodeRs1, EncodeRs2, EncodeFRd, EncodeFRs1, EncodeFRs2,
    EncodeFRs3, EncodeFunct2, EncodeFunct3, EncodeFunct5, EncodeFunct7, EncodeFunct12,
    EncodeRoundingMode, EncodeRegField, EncodeFunctField, u32 in *.

(** [field n]: a decoded field of [n] bits is the value that was encoded. *)
Ltac bits := enum_range; bit_norm; reflexivity.
Ltac field n := unfold_fields; apply (field_eq n); [lia|assumption|bits].

Definition RType (f7 rs2 rs1 f3 rd op : Z) : Z :=
  EncodeFunct7 f7 .| EncodeRs2 rs2 .| EncodeRs1 rs1 .| EncodeFunct3 f3 .| EncodeRd rd
  .| EncodeOpcode op.

Lemma decode_RType f7 rs2 rs1 f3 rd op :
  is_u 7 f7 -> is_u 5 rs2 -> is_u 5 rs1 -> is_u 3 f3 -> is_u 5 rd -> is_u 7 op ->
  let e := RType f7 rs2 rs1 f3 rd op in
  Instr.opcode e = op /\ Instr.rd e = rd /\ Instr.funct3 e = f3 /\ Instr.rs1 e = rs1 /\
  Instr.rs2 e = rs2 /\ Instr.funct7 e = f7.
Proof.
  intros ? ? ? ? ? ? e. unfold e, RType.
  split_and!; [field 7|field 5|field 3|field 5|field 5|field 7].
Qed.

Definition IType (imm rs1 f3 rd op : Z) : Z :=
  EncodeITypeImm imm .| EncodeRs1 rs1 .| EncodeFunct3 f3 .| EncodeRd rd .| EncodeOpcode op.

Lemma decode_IType imm rs1 f3 rd op :
  is_u 5 rs1 -> is_u 3 f3 -> is_u 5 rd -> is_u 7 op ->
  is_s 64 imm -> IsITypeImm imm = true ->
  let e := IType imm rs1 f3 rd op in
  Instr.opcode e = op /\ Instr.rd e = rd /\ Instr.funct3 e = f3 /\ Instr.rs1 e = rs1 /\
  Instr.itype_imm e = imm.
Proof.
  intros ? ? ? ? Hi HI e. unfold e, IType.
  split_and!; [unfold EncodeITypeImm; field 7|unfold EncodeITypeImm; field 5
              |unfold EncodeITypeImm; field 3|unfold EncodeITypeImm; field 5|].
  rewrite <- (ITypeImm_roundtrip imm Hi HI) at 2. unfold Instr.itype_imm, DecodeITypeImm.
  rewrite !SignExtend_wraps by lia. apply wraps_eq_wrapu, wrapu_bits; [lia|].
  unfold EncodeITypeImm. unfold_fields. bits.
Qed.

Definition SType (imm rs2 rs1 f3 op : Z) : Z :=
  EncodeSTypeImm imm .| EncodeRs2 rs2 .| EncodeRs1 rs1 .| EncodeFunct3 f3
  .| EncodeOpcode op.

Lemma decode_SType imm rs2 rs1 f3 op :
  is_u 5 rs2 -> is_u 5 rs1 -> is_u 3 f3 -> is_u 7 op ->
  is_s 64 imm -> IsSTypeImm imm = true ->
  let e := SType imm rs2 rs1 f3 op in
  Instr.opcode e = op /\ Instr.funct3 e = f3 /\ Instr.rs1 e = rs1 /\ Instr.rs2 e = rs2 /\
  Instr.stype_imm e = imm.
Proof.
  intros ? ? ? ? Hi HI e. unfold e, SType. split_and!.
  5:{ rewrite <- (STypeImm_roundtrip imm Hi HI) at 2. unfold Instr.stype_imm, DecodeSTypeImm.
      rewrite !SignExtend_wraps by lia. apply wraps_eq_wrapu, wrapu_bits; [lia|].
      unfold EncodeSTypeImm. cbv zeta. unfold_fields. bits. }
  all: unfold EncodeSTypeImm; cbv zeta.
  - field 7.
  - field 3.
  - field 5.
  - field 5.
Qed.

Definition UType (imm rd op : Z) : Z := EncodeUTypeImm imm .| EncodeRd rd .| EncodeOpcode op.

Lemma decode_UType imm rd op :
  is_u 5 rd -> is_u 7 op -> is_s 64 imm -> IsUTypeImm imm = true ->
  let e := UType imm rd op in
  Instr.opcode e = op /\ Instr.rd e = rd /\ Instr.utype_imm e = imm.
Proof.
  intros ? ? Hi HI e. destruct (is_imm_s 32 12 imm ltac:(lia) ltac:(lia) Hi HI) as [_ Ha].
  unfold e, UType. split_and!.
  3:{ rewrite <- (UTypeImm_roundtrip imm Hi HI) at 2. unfold Instr.utype_imm, DecodeUTypeImm.
      rewrite !SignExtend_wraps by lia. apply wraps_eq_wrapu, wrapu_bits; [lia|].
      unfold EncodeUTypeImm. unfold_fields. bits. }
  all: unfold EncodeUTypeImm; unfold_fields.
  - apply (field_eq 7); [lia|assumption|].
    enum_range; bit_norm; repeat (low_bits; bool_norm); reflexivity.
  - apply (field_eq 5); [lia|assumption|].
    enum_range; bit_norm; repeat (low_bits; bool_norm); reflexivity.
Qed.

Definition ShamtType (f7 shamt rs1 f3 rd op : Z) : Z :=
  EncodeFunct7 f7 .| EncodeShamt (u32 shamt) .| EncodeRs1 rs1 .| EncodeFunct3 f3
  .| EncodeRd rd .| EncodeOpcode op.

(** The sixth bit of the shift amount, on 64-bit targets, is in the low bit of the
    [funct7] field. *)
Lemma decode_ShamtType `{Target} f7 shamt rs1 f3 rd op :
  is_u 7 f7 -> Z.testbit f7 0 = false -> 0 <= shamt < XLEN -> is_u 5 rs1 -> is_u 3 f3 ->
  is_u 5 rd -> is_u 7 op ->
  let e := ShamtType f7 shamt rs1 f3 rd op in
  Instr.opcode e = op /\ Instr.rd e = rd /\ Instr.funct3 e = f3 /\ Instr.rs1 e = rs1 /\
  Instr.shamt e = shamt /\ Instr.funct7 e = f7 .| (shamt >> 5) /\ Instr.funct7 e .& 126 = f7.
Proof.
  intros ? H0 Hs ? ? ? ? e.
  assert (is_u 6 shamt) as Hs6 by (unfold is_u; unfold XLEN in Hs; destruct target; lia).
  assert (is_u 7 (f7 .| (shamt >> 5))) as Hf.
  { apply lor_u; [lia|done|]. apply shiftr_u; [lia|]. unfold is_u in *. lia. }
  unfold e, ShamtType, EncodeShamt.
  split_and!; [field 7|field 5|field 3|field 5| |field 7|].
  - unfold Instr.shamt, DecodeShamt, ShamtMask, XLEN in *. unfold_fields.
    destruct target.
    + assert (is_u 5 shamt) by (unfold is_u; lia). apply (field_eq 5); [lia|done|bits].
    + apply (field_eq 6); [lia|done|].
      enum_range; bit_norm; rewrite ?H0; reflexivity.
  - unfold_fields. apply (u_bits 7); [lia| |done|].
    + rewrite <- Z.land_assoc. change (127 .& 126) with 126.
      split; [apply Z.land_nonneg; lia|].
      assert (forall x, x .& 126 = (x .& 126) .& Z.ones 7) as ->
        by (intros; rewrite <- Z.land_assoc; done).
      rewrite Z.land_ones by lia. apply Z.mod_pos_bound. lia.
    + enum_range; bit_norm; rewrite ?H0; reflexivity.
Qed.

(** ** Fetching *)

Section fetch.
Context `{Target} `{Debug} `{HostFPU} `{Host}.

(** The program counter points at the code [bs]. *)
Definition code_at (s : Simulator) (bs : list Z) : Prop :=
  load_bytes (memory s) (pc_ s) (length bs) = Ok bs.

Lemma load_bytes_prefix m a n k bs :
  load_bytes m a n = Ok bs -> (k <= n)%nat -> load_bytes m a k = Ok (take k bs).
Proof.
  intros E Hk. pose proof (load_bytes_length _ _ _ _ E) as Hl.
  rewrite <- (length_take_le bs k) at 1 by lia. apply load_bytes_of_lookup.
  rewrite length_take_le by lia. intros i Hi.
  rewrite lookup_take_lt by done. apply (load_bytes_lookup _ _ _ _ E). lia.
Qed.

Lemma interpret_16 s e :
  is_u 16 e -> e .& 3 <> 3 -> code_at s (bytes_of_u 2 e) -> interpret_at s = InterpretC e s.
Proof.
  intros He Hne Hc. unfold code_at in Hc. rewrite length_bytes_of_u in Hc.
  unfold interpret_at, LoadUnaligned. change (Z.to_nat (sizeof uint16_t)) with 2%nat.
  rewrite Hc. cbn [mbind outcome_bind of_repr]. rewrite u_of_bytes_of_u.
  change (8 * Z.of_nat 2) with 16. rewrite (wrapu_id 16) by done.
  unfold IsCInstruction. by destruct (Z.eqb_spec (e .& 3) 3).
Qed.

Lemma interpret_32 s e :
  is_u 32 e -> e .& 3 = 3 -> code_at s (bytes_of_u 4 e) -> interpret_at s = Interpret e s.
Proof.
  intros He He3 Hc. unfold code_at in Hc. rewrite length_bytes_of_u in Hc.
  pose proof (load_bytes_prefix _ _ _ 2 _ Hc ltac:(lia)) as Hc2.
  unfold interpret_at, LoadUnaligned. change (Z.to_nat (sizeof uint16_t)) with 2%nat.
  change (Z.to_nat (sizeof uint32_t)) with 4%nat. rewrite Hc2, Hc.
  change (take 2 (bytes_of_u 4 e)) with (bytes_of_u 2 e).
  cbn [mbind outcome_bind of_repr]. rewrite !u_of_bytes_of_u.
  change (8 * Z.of_nat 2) with 16. change (8 * Z.of_nat 4) with 32.
  rewrite (wrapu_id 32) by done. unfold IsCInstruction.
  assert (wrapu 16 e .& 3 = 3) as ->; [|done].
  transitivity (e .& 3); [|done]. change 3 with (Z.ones 2). rewrite !Z.land_ones by lia.
  apply (wrapu_wrapu_le 2 16). lia.
Qed.

End fetch.

(** ** Compressed encodings *)

(** A compressed encoding: 16 bits, and not the prefix of a 32-bit instruction. *)
Definition is_c (e : Z) : Prop := is_u 16 e /\ e .& 3 <> 3.

Ltac unfold_c :=
  unfold CInstr.opcode, CInstr.rd, CInstr.rs1, CInstr.rs2, CInstr.rdp, CInstr.rs1p,
    CInstr.rs2p, CInstr.frd, CInstr.frs1, CInstr.frs2, CInstr.frdp, CInstr.frs1p,
    CInstr.frs2p, CInstr.spload4_imm, CInstr.spload8_imm, CInstr.spstore4_imm,
    CInstr.spstore8_imm, CInstr.mem4_imm, CInstr.mem8_imm, CInstr.j_imm, CInstr.b_imm,
    CInstr.i_imm, CInstr.u_imm, CInstr.i16_imm, CInstr.i4spn_imm,
    DecodeCRd, DecodeCRs1, DecodeCRs2, DecodeCFRd, DecodeCFRs2, DecodeCRdp, DecodeCRs1p,
    DecodeCRs2p, DecodeCFRdp, DecodeCFRs1p, DecodeCFRs2p, DecodeRegPrimeField, DecodeRegField,
    DecodeCSPLoad4Imm, DecodeCSPLoad8Imm, DecodeCSPStore4Imm, DecodeCSPStore8Imm,
    DecodeCMem4Imm, DecodeCMem8Imm, DecodeCJImm, DecodeCBImm, DecodeCIImm, DecodeCUImm,
    DecodeCI16Imm, DecodeCI4SPNImm,
    EncodeCRd, EncodeCRs1, EncodeCRs2, EncodeCFRd, EncodeCFRs2, EncodeCRdp, EncodeCRs1p,
    EncodeCRs2p, EncodeCFRdp, EncodeCFRs1p, EncodeCFRs2p, EncodeRegPrimeField, EncodeRegField,
    EncodeCSPLoad4Imm, EncodeCSPLoad8Imm, EncodeCSPStore4Imm, EncodeCSPStore8Imm,
    EncodeCMem4Imm, EncodeCMem8Imm, EncodeCJImm, EncodeCBImm, EncodeCIImm, EncodeCUImm,
    EncodeCI16Imm, EncodeCI4SPNImm, u32, Reg.ZR; cbv zeta.

Lemma u32_u e : is_u 32 (wrapu 32 e).
Proof. by apply wrapu_range. Qed.

Lemma const_u w c : (0 <=? c) && (c <? 2 ^ w) = true -> is_u w c.
Proof. intros [?%Z.leb_le ?%Z.ltb_lt]%andb_true_iff. done. Qed.

Ltac lor_32 := repeat (apply lor_u; [lia| |]); first [apply u32_u | by apply const_u].

Lemma not_wide e : Z.testbit e 0 && Z.testbit e 1 = false -> e .& 3 <> 3.
Proof.
  intros Hb He. assert (Z.testbit (e .& 3) 0 && Z.testbit (e .& 3) 1 = true) as Ht
    by by rewrite He.
  rewrite !Z.land_spec, andb_true_r, andb_true_r in Ht. congruence.
Qed.

Lemma prime_eq x r :
  8 <= r < 16 -> (forall i, 0 <= i < 3 -> Z.testbit x i = Z.testbit r i) ->
  (x .& 7) + 8 = r.
Proof.
  intros Hr Hb. change 7 with (Z.ones 3). rewrite Z.land_ones by lia.
  fold (wrapu 3 x). rewrite (wrapu_bits 3 x r) by (done || lia). unfold wrapu.
  rewrite <- (Z.mod_unique_pos r (2 ^ 3) 1 (r - 8)); lia.
Qed.

(** [e] is the disjunction of an opcode and fields: its shape, its constant bits, a
    register, a popular register, a signed and an unsigned immediate. *)
Ltac c_shape :=
  split; [apply (u_narrow 16 32); [lia|unfold_c; lor_32|unfold_c; bits]
         |apply not_wide; unfold_c; bit_norm; reflexivity].
Ltac c_const :=
  apply (u_bits 16); [lia|apply land_u; [lia|by apply const_u]|by apply const_u|unfold_c; bits].
Ltac creg := unfold_c; apply (field_eq 5); [lia|assumption|bits].
Ltac cregz := unfold_c; apply (field_eq 5); [lia|by apply const_u|bits].
Ltac cprime := unfold_c; apply prime_eq; [assumption|bits].
Ltac c_imm_s L :=
  etransitivity; [|exact (L ltac:(assumption) ltac:(assumption))];
  unfold_c; rewrite !SignExtend_wraps by lia; apply wraps_eq_wrapu, wrapu_bits; [lia|bits].
Ltac c_imm_u L :=
  etransitivity; [|exact (L ltac:(assumption) ltac:(assumption))];
  unfold_c; apply wrapu_bits; [lia|bits].
Ltac c_decode := cbv zeta; intros; split_and!.

Lemma decode_c_lwsp rd imm :
  is_u 5 rd -> is_s 64 imm -> IsCSPLoad4Imm imm = true ->
  let e := COpcode.C_LWSP .| EncodeCRd rd .| EncodeCSPLoad4Imm imm in
  is_c e /\ CInstr.opcode e = COpcode.C_LWSP /\ CInstr.rd e = rd /\ CInstr.rs1 e = rd /\
  CInstr.spload4_imm e = imm.
Proof.
  c_decode.
  all: [> c_shape | c_const | creg | creg | c_imm_u (CSPLoad4Imm_roundtrip imm) ].
Qed.

Lemma decode_c_ldsp rd imm :
  is_u 5 rd -> is_s 64 imm -> IsCSPLoad8Imm imm = true ->
  let e := COpcode.C_LDSP .| EncodeCRd rd .| EncodeCSPLoad8Imm imm in
  is_c e /\ CInstr.opcode e = COpcode.C_LDSP /\ CInstr.rd e = rd /\ CInstr.rs1 e = rd /\
  CInstr.spload8_imm e = imm.
Proof.
  c_decode.
  all: [> c_shape | c_const | creg | creg | c_imm_u (CSPLoad8Imm_roundtrip imm) ].
Qed.

Lemma decode_c_flwsp rd imm :
  is_u 5 rd -> is_s 64 imm -> IsCSPLoad4Imm imm = true ->
  let e := COpcode.C_FLWSP .| EncodeCFRd rd .| EncodeCSPLoad4Imm imm in
  is_c e /\ CInstr.opcode e = COpcode.C_FLWSP /\ CInstr.frd e = rd /\
  CInstr.spload4_imm e = imm.
Proof. c_decode. all: [> c_shape | c_const | creg | c_imm_u (CSPLoad4Imm_roundtrip imm) ]. Qed.

Lemma decode_c_fldsp rd imm :
  is_u 5 rd -> is_s 64 imm -> IsCSPLoad8Imm imm = true ->
  let e := COpcode.C_FLDSP .| EncodeCFRd rd .| EncodeCSPLoad8Imm imm in
  is_c e /\ CInstr.opcode e = COpcode.C_FLDSP /\ CInstr.frd e = rd /\
  CInstr.spload8_imm e = imm.
Proof. c_decode. all: [> c_shape | c_const | creg | c_imm_u (CSPLoad8Imm_roundtrip imm) ]. Qed.

Lemma decode_c_swsp rs2 imm :
  is_u 5 rs2 -> is_s 64 imm -> IsCSPStore4Imm imm = true ->
  let e := COpcode.C_SWSP .| EncodeCRs2 rs2 .| EncodeCSPStore4Imm imm in
  is_c e /\ CInstr.opcode e = COpcode.C_SWSP /\ CInstr.rs2 e = rs2 /\
  CInstr.spstore4_imm e = imm.
Proof. c_decode. all: [> c_shape | c_const | creg | c_imm_u (CSPStore4Imm_roundtrip imm) ]. Qed.

Lemma decode_c_sdsp rs2 imm :
  is_u 5 rs2 -> is_s 64 imm -> IsCSPStore8Imm imm = true ->
  let e := COpcode.C_SDSP .| EncodeCRs2 rs2 .| EncodeCSPStore8Imm imm in
  is_c e /\ CInstr.opcode e = COpcode.C_SDSP /\ CInstr.rs2 e = rs2 /\
  CInstr.spstore8_imm e = imm.
Proof. c_decode. all: [> c_shape | c_const | creg | c_imm_u (CSPStore8Imm_roundtrip imm) ]. Qed.

Lemma decode_c_fswsp rs2 imm :
  is_u 5 rs2 -> is_s 64 imm -> IsCSPStore4Imm imm = true ->
  let e := COpcode.C_FSWSP .| EncodeCFRs2 rs2 .| EncodeCSPStore4Imm imm in
  is_c e /\ CInstr.opcode e = COpcode.C_FSWSP /\ CInstr.frs2 e = rs2 /\
  CInstr.spstore4_imm e = imm.
Proof. c_decode. all: [> c_shape | c_const | creg | c_imm_u (CSPStore4Imm_roundtrip imm) ]. Qed.

Lemma decode_c_fsdsp rs2 imm :
  is_u 5 rs2 -> is_s 64 imm -> IsCSPStore8Imm imm = true ->
  let e := COpcode.C_FSDSP .| EncodeCFRs2 rs2 .| EncodeCSPStore8Imm imm in
  is_c e /\ CInstr.opcode e = COpcode.C_FSDSP /\ CInstr.frs2 e = rs2 /\
  CInstr.spstore8_imm e = imm.
Proof. c_decode. all: [> c_shape | c_const | creg | c_imm_u (CSPStore8Imm_roundtrip imm) ]. Qed.

Lemma decode_c_lw rd rs1 imm :
  8 <= rd < 16 -> 8 <= rs1 < 16 -> is_s 64 imm -> IsCMem4Imm imm = true ->
  let e := COpcode.C_LW .| EncodeCRdp rd .| EncodeCRs1p rs1 .| EncodeCMem4Imm imm in
  is_c e /\ CInstr.opcode e = COpcode.C_LW /\ CInstr.rdp e = rd /\ CInstr.rs1p e = rs1 /\
  CInstr.mem4_imm e = imm.
Proof.
  c_decode.
  all: [> c_shape | c_const | cprime | cprime | c_imm_u (CMem4Imm_roundtrip imm) ].
Qed.

Lemma decode_c_ld rd rs1 imm :
  8 <= rd < 16 -> 8 <= rs1 < 16 -> is_s 64 imm -> IsCMem8Imm imm = true ->
  let e := COpcode.C_LD .| EncodeCRdp rd .| EncodeCRs1p rs1 .| EncodeCMem8Imm imm in
  is_c e /\ CInstr.opcode e = COpcode.C_LD /\ CInstr.rdp e = rd /\ CInstr.rs1p e = rs1 /\
  CInstr.mem8_imm e = imm.
Proof.
  c_decode.
  all: [> c_shape | c_const | cprime | cprime | c_imm_u (CMem8Imm_roundtrip imm) ].
Qed.

Lemma decode_c_flw rd rs1 imm :
  8 <= rd < 16 -> 8 <= rs1 < 16 -> is_s 64 imm -> IsCMem4Imm imm = true ->
  let e := COpcode.C_FLW .| EncodeCFRdp rd .| EncodeCRs1p rs1 .| EncodeCMem4Imm imm in
  is_c e /\ CInstr.opcode e = COpcode.C_FLW /\ CInstr.frdp e = rd /\ CInstr.rs1p e = rs1 /\
  CInstr.mem4_imm e = imm.
Proof.
  c_decode.
  all: [> c_shape | c_const | cprime | cprime | c_imm_u (CMem4Imm_roundtrip imm) ].
Qed.

Lemma decode_c_fld rd rs1 imm :
  8 <= rd < 16 -> 8 <= rs1 < 16 -> is_s 64 imm -> IsCMem8Imm imm = true ->
  let e := COpcode.C_FLD .| EncodeCFRdp rd .| EncodeCRs1p rs1 .| EncodeCMem8Imm imm in
  is_c e /\ CInstr.opcode e = COpcode.C_FLD /\ CInstr.frdp e = rd /\ CInstr.rs1p e = rs1 /\
  CInstr.mem8_imm e = imm.
Proof.
  c_decode.
  all: [> c_shape | c_const | cprime | cprime | c_imm_u (CMem8Imm_roundtrip imm) ].
Qed.

Lemma decode_c_sw rs1 rs2 imm :
  8 <= rs1 < 16 -> 8 <= rs2 < 16 -> is_s 64 imm -> IsCMem4Imm imm = true ->
  let e := COpcode.C_SW .| EncodeCRs1p rs1 .| EncodeCRs2p rs2 .| EncodeCMem4Imm imm in
  is_c e /\ CInstr.opcode e = COpcode.C_SW /\ CInstr.rs1p e = rs1 /\ CInstr.rs2p e = rs2 /\
  CInstr.mem4_imm e = imm.
Proof.
  c_decode.
  all: [> c_shape | c_const | cprime | cprime | c_imm_u (CMem4Imm_roundtrip imm) ].
Qed.

Lemma decode_c_sd rs1 rs2 imm :
  8 <= rs1 < 16 -> 8 <= rs2 < 16 -> is_s 64 imm -> IsCMem8Imm imm = true ->
  let e := COpcode.C_SD .| EncodeCRs1p rs1 .| EncodeCRs2p rs2 .| EncodeCMem8Imm imm in
  is_c e /\ CInstr.opcode e = COpcode.C_SD /\ CInstr.rs1p e = rs1 /\ CInstr.rs2p e = rs2 /\
  CInstr.mem8_imm e = imm.
Proof.
  c_decode.
  all: [> c_shape | c_const | cprime | cprime | c_imm_u (CMem8Imm_roundtrip imm) ].
Qed.

Lemma decode_c_fsw rs1 rs2 imm :
  8 <= rs1 < 16 -> 8 <= rs2 < 16 -> is_s 64 imm -> IsCMem4Imm imm = true ->
  let e := COpcode.C_FSW .| EncodeCRs1p rs1 .| EncodeCFRs2p rs2 .| EncodeCMem4Imm imm in
  is_c e /\ CInstr.opcode e = COpcode.C_FSW /\ CInstr.rs1p e = rs1 /\ CInstr.frs2p e = rs2 /\
  CInstr.mem4_imm e = imm.
Proof.
  c_decode.
  all: [> c_shape | c_const | cprime | cprime | c_imm_u (CMem4Imm_roundtrip imm) ].
Qed.

Lemma decode_c_fsd rs1 rs2 imm :
  8 <= rs1 < 16 -> 8 <= rs2 < 16 -> is_s 64 imm -> IsCMem8Imm imm = true ->
  let e := COpcode.C_FSD .| EncodeCRs1p rs1 .| EncodeCFRs2p rs2 .| EncodeCMem8Imm imm in
  is_c e /\ CInstr.opcode e = COpcode.C_FSD /\ CInstr.rs1p e = rs1 /\ CInstr.frs2p e = rs2 /\
  CInstr.mem8_imm e = imm.
Proof.
  c_decode.
  all: [> c_shape | c_const | cprime | cprime | c_imm_u (CMem8Imm_roundtrip imm) ].
Qed.

Lemma decode_c_jr rs1 :
  is_u 5 rs1 ->
  let e := COpcode.C_JR .| EncodeCRs1 rs1 .| EncodeCRs2 Reg.ZR in
  is_c e /\ CInstr.opcode e = COpcode.C_JR /\ CInstr.rs1 e = rs1 /\ CInstr.rs2 e = Reg.ZR /\
  e .& (COpcode.C_JALR .^ COpcode.C_JR) = 0.
Proof. c_decode. all: [> c_shape | c_const | creg | cregz | c_const ]. Qed.

Lemma decode_c_jalr rs1 :
  is_u 5 rs1 ->
  let e := COpcode.C_JALR .| EncodeCRs1 rs1 .| EncodeCRs2 Reg.ZR in
  is_c e /\ CInstr.opcode e = COpcode.C_JR /\ CInstr.rs1 e = rs1 /\ CInstr.rs2 e = Reg.ZR /\
  e .& (COpcode.C_JALR .^ COpcode.C_JR) = 0x1000.
Proof. c_decode. all: [> c_shape | c_const | creg | cregz | c_const ]. Qed.

Lemma decode_c_li rd imm :
  is_u 5 rd -> is_s 64 imm -> IsCIImm imm = true ->
  let e := COpcode.C_LI .| EncodeCRd rd .| EncodeCIImm imm in
  is_c e /\ CInstr.opcode e = COpcode.C_LI /\ CInstr.rd e = rd /\ CInstr.rs1 e = rd /\
  CInstr.i_imm e = imm.
Proof. c_decode. all: [> c_shape | c_const | creg | creg | c_imm_s (CIImm_roundtrip imm) ]. Qed.

Lemma decode_c_lui rd imm :
  is_u 5 rd -> is_s 64 imm -> IsCUImm imm = true ->
  let e := COpcode.C_LUI .| EncodeCRd rd .| EncodeCUImm imm in
  is_c e /\ CInstr.opcode e = COpcode.C_LUI /\ CInstr.rd e = rd /\ CInstr.rs1 e = rd /\
  CInstr.u_imm e = imm.
Proof. c_decode. all: [> c_shape | c_const | creg | creg | c_imm_s (CUImm_roundtrip imm) ]. Qed.

Lemma decode_c_addi rd imm :
  is_u 5 rd -> is_s 64 imm -> IsCIImm imm = true ->
  let e := COpcode.C_ADDI .| EncodeCRd rd .| EncodeCIImm imm in
  is_c e /\ CInstr.opcode e = COpcode.C_ADDI /\ CInstr.rd e = rd /\ CInstr.rs1 e = rd /\
  CInstr.i_imm e = imm.
Proof. c_decode. all: [> c_shape | c_const | creg | creg | c_imm_s (CIImm_roundtrip imm) ]. Qed.

Lemma decode_c_addiw rd imm :
  is_u 5 rd -> is_s 64 imm -> IsCIImm imm = true ->
  let e := COpcode.C_ADDIW .| EncodeCRd rd .| EncodeCIImm imm in
  is_c e /\ CInstr.opcode e = COpcode.C_ADDIW /\ CInstr.rd e = rd /\ CInstr.rs1 e = rd /\
  CInstr.i_imm e = imm.
Proof. c_decode. all: [> c_shape | c_const | creg | creg | c_imm_s (CIImm_roundtrip imm) ]. Qed.

Lemma decode_c_addi16sp rd imm :
  is_u 5 rd -> is_s 64 imm -> IsCI16Imm imm = true ->
  let e := COpcode.C_ADDI16SP .| EncodeCRd rd .| EncodeCI16Imm imm in
  is_c e /\ CInstr.opcode e = COpcode.C_ADDI16SP /\ CInstr.rd e = rd /\ CInstr.rs1 e = rd /\
  CInstr.i16_imm e = imm.
Proof.
  c_decode.
  all: [> c_shape | c_const | creg | creg | c_imm_s (CI16Imm_roundtrip imm) ].
Qed.

Lemma decode_c_addi4spn rd imm :
  8 <= rd < 16 -> is_s 64 imm -> IsCI4SPNImm imm = true ->
  let e := COpcode.C_ADDI4SPN .| EncodeCRdp rd .| EncodeCI4SPNImm imm in
  is_c e /\ CInstr.opcode e = COpcode.C_ADDI4SPN /\ CInstr.rdp e = rd /\
  CInstr.i4spn_imm e = imm.
Proof. c_decode. all: [> c_shape | c_const | cprime | c_imm_u (CI4SPNImm_roundtrip imm) ]. Qed.

Lemma decode_c_slli rd imm :
  is_u 5 rd -> is_s 64 imm -> IsCIImm imm = true ->
  let e := COpcode.C_SLLI .| EncodeCRd rd .| EncodeCIImm imm in
  is_c e /\ CInstr.opcode e = COpcode.C_SLLI /\ CInstr.rd e = rd /\ CInstr.rs1 e = rd /\
  CInstr.i_imm e = imm.
Proof. c_decode. all: [> c_shape | c_const | creg | creg | c_imm_s (CIImm_roundtrip imm) ]. Qed.

Lemma decode_c_srli rs1 imm :
  8 <= rs1 < 16 -> is_s 64 imm -> IsCIImm imm = true ->
  let e := COpcode.C_SRLI .| EncodeCRs1p rs1 .| EncodeCIImm imm in
  is_c e /\ CInstr.opcode e = COpcode.C_MISCALU /\ CInstr.rs1p e = rs1 /\
  CInstr.i_imm e = imm /\ e .& COpcode.C_MISCALU_MASK = COpcode.C_SRLI.
Proof.
  c_decode.
  all: [> c_shape | c_const | cprime | c_imm_s (CIImm_roundtrip imm) | c_const ].
Qed.

Lemma decode_c_srai rs1 imm :
  8 <= rs1 < 16 -> is_s 64 imm -> IsCIImm imm = true ->
  let e := COpcode.C_SRAI .| EncodeCRs1p rs1 .| EncodeCIImm imm in
  is_c e /\ CInstr.opcode e = COpcode.C_MISCALU /\ CInstr.rs1p e = rs1 /\
  CInstr.i_imm e = imm /\ e .& COpcode.C_MISCALU_MASK = COpcode.C_SRAI.
Proof.
  c_decode.
  all: [> c_shape | c_const | cprime | c_imm_s (CIImm_roundtrip imm) | c_const ].
Qed.

Lemma decode_c_andi rs1 imm :
  8 <= rs1 < 16 -> is_s 64 imm -> IsCIImm imm = true ->
  let e := COpcode.C_ANDI .| EncodeCRs1p rs1 .| EncodeCIImm imm in
  is_c e /\ CInstr.opcode e = COpcode.C_MISCALU /\ CInstr.rs1p e = rs1 /\
  CInstr.i_imm e = imm /\ e .& COpcode.C_MISCALU_MASK = COpcode.C_ANDI.
Proof.
  c_decode.
  all: [> c_shape | c_const | cprime | c_imm_s (CIImm_roundtrip imm) | c_const ].
Qed.

Lemma decode_c_mv rd rs2 :
  is_u 5 rd -> is_u 5 rs2 ->
  let e := COpcode.C_MV .| EncodeCRd rd .| EncodeCRs2 rs2 in
  is_c e /\ CInstr.opcode e = COpcode.C_JR /\ CInstr.rd e = rd /\ CInstr.rs1 e = rd /\
  CInstr.rs2 e = rs2 /\ e .& (COpcode.C_JALR .^ COpcode.C_JR) = 0.
Proof. c_decode. all: [> c_shape | c_const | creg | creg | creg | c_const ]. Qed.

Lemma decode_c_add rd rs2 :
  is_u 5 rd -> is_u 5 rs2 ->
  let e := COpcode.C_ADD .| EncodeCRd rd .| EncodeCRs2 rs2 in
  is_c e /\ CInstr.opcode e = COpcode.C_JR /\ CInstr.rd e = rd /\ CInstr.rs1 e = rd /\
  CInstr.rs2 e = rs2 /\ e .& (COpcode.C_JALR .^ COpcode.C_JR) = 0x1000.
Proof. c_decode. all: [> c_shape | c_const | creg | creg | creg | c_const ]. Qed.

Lemma decode_c_and rs1 rs2 :
  8 <= rs1 < 16 -> 8 <= rs2 < 16 ->
  let e := COpcode.C_AND .| EncodeCRs1p rs1 .| EncodeCRs2p rs2 in
  is_c e /\ CInstr.opcode e = COpcode.C_MISCALU /\ CInstr.rs1p e = rs1 /\
  CInstr.rs2p e = rs2 /\ e .& COpcode.C_MISCALU_MASK = COpcode.C_RR /\
  e .& COpcode.C_RR_MASK = COpcode.C_AND.
Proof. c_decode. all: [> c_shape | c_const | cprime | cprime | c_const | c_const ]. Qed.

Lemma decode_c_or rs1 rs2 :
  8 <= rs1 < 16 -> 8 <= rs2 < 16 ->
  let e := COpcode.C_OR .| EncodeCRs1p rs1 .| EncodeCRs2p rs2 in
  is_c e /\ CInstr.opcode e = COpcode.C_MISCALU /\ CInstr.rs1p e = rs1 /\
  CInstr.rs2p e = rs2 /\ e .& COpcode.C_MISCALU_MASK = COpcode.C_RR /\
  e .& COpcode.C_RR_MASK = COpcode.C_OR.
Proof. c_decode. all: [> c_shape | c_const | cprime | cprime | c_const | c_const ]. Qed.

Lemma decode_c_xor rs1 rs2 :
  8 <= rs1 < 16 -> 8 <= rs2 < 16 ->
  let e := COpcode.C_XOR .| EncodeCRs1p rs1 .| EncodeCRs2p rs2 in
  is_c e /\ CInstr.opcode e = COpcode.C_MISCALU /\ CInstr.rs1p e = rs1 /\
  CInstr.rs2p e = rs2 /\ e .& COpcode.C_MISCALU_MASK = COpcode.C_RR /\
  e .& COpcode.C_RR_MASK = COpcode.C_XOR.
Proof. c_decode. all: [> c_shape | c_const | cprime | cprime | c_const | c_const ]. Qed.

Lemma decode_c_sub rs1 rs2 :
  8 <= rs1 < 16 -> 8 <= rs2 < 16 ->
  let e := COpcode.C_SUB .| EncodeCRs1p rs1 .| EncodeCRs2p rs2 in
  is_c e /\ CInstr.opcode e = COpcode.C_MISCALU /\ CInstr.rs1p e = rs1 /\
  CInstr.rs2p e = rs2 /\ e .& COpcode.C_MISCALU_MASK = COpcode.C_RR /\
  e .& COpcode.C_RR_MASK = COpcode.C_SUB.
Proof. c_decode. all: [> c_shape | c_const | cprime | cprime | c_const | c_const ]. Qed.

Lemma decode_c_addw rs1 rs2 :
  8 <= rs1 < 16 -> 8 <= rs2 < 16 ->
  let e := COpcode.C_ADDW .| EncodeCRs1p rs1 .| EncodeCRs2p rs2 in
  is_c e /\ CInstr.opcode e = COpcode.C_MISCALU /\ CInstr.rs1p e = rs1 /\
  CInstr.rs2p e = rs2 /\ e .& COpcode.C_MISCALU_MASK = COpcode.C_RR /\
  e .& COpcode.C_RR_MASK = COpcode.C_ADDW.
Proof. c_decode. all: [> c_shape | c_const | cprime | cprime | c_const | c_const ]. Qed.

Lemma decode_c_subw rs1 rs2 :
  8 <= rs1 < 16 -> 8 <= rs2 < 16 ->
  let e := COpcode.C_SUBW .| EncodeCRs1p rs1 .| EncodeCRs2p rs2 in
  is_c e /\ CInstr.opcode e = COpcode.C_MISCALU /\ CInstr.rs1p e = rs1 /\
  CInstr.rs2p e = rs2 /\ e .& COpcode.C_MISCALU_MASK = COpcode.C_RR /\
  e .& COpcode.C_RR_MASK = COpcode.C_SUBW.
Proof. c_decode. all: [> c_shape | c_const | cprime | cprime | c_const | c_const ]. Qed.
