(* ===== verification/RiscvAsmSim.v ===== *)
(** The assembler and the simulator agree: an emitter whose arguments are in range
    succeeds, and executing what it appended to the buffer has the effect its name
    promises, whether it chose the 32-bit or the compressed encoding. *)
From stdpp Require Import base numbers list gmap.
From Stdlib Require Import ZArith Lia.
From S2P Require Import Prelude Utils Random RiscvEncoding RiscvEncodingProps RiscvState RiscvAlu RiscvFloat RiscvInterp RiscvCompressed RiscvInvariant RiscvStateProps RiscvExec RiscvAssembler RiscvDecode.
Local Open Scope Z_scope.
Local Open Scope cxx_scope.

Section sim.
Context `{Target} `{Debug} `{HostFPU} `{Host}.

(** The effect of an instruction, given its length. *)
Definition effect := Z -> Simulator -> result Simulator.

(** In the assembler state [a], [e] succeeds and appends one instruction of two or four
    bytes; executing that instruction has the effect [f]. *)
Definition simulates (a : MicroAssembler) (e : emitter) (f : effect) : Prop :=
  exists bs, e a = emit_bytes bs a /\ (length bs = 2 \/ length bs = 4)%nat /\
    forall s, wf s -> code_at s bs -> interpret_at s = f (Z.of_nat (length bs)) s.

Lemma simulates_assert a c e f :
  c = true -> simulates a e f -> simulates a (ASSERT c ;;; e) f.
Proof. by intros ->. Qed.

Lemma simulates_supports a x e f :
  Supports a x = true -> simulates a e f -> simulates a (AssertSupports x ;;; e) f.
Proof.
  intros Hx (bs & E & Hbs). exists bs. split; [|done].
  unfold andThen, AssertSupports. by rewrite Hx.
Qed.

Lemma simulates_ifc a c e1 e2 f :
  (Supports a RV_C = true -> c = true -> simulates a e1 f) ->
  (Supports a RV_C && c = false -> simulates a e2 f) ->
  simulates a (IfC c e1 e2) f.
Proof.
  intros He1 He2. unfold simulates, IfC.
  destruct (Supports a RV_C), c; [by apply He1|by apply He2..].
Qed.

Lemma simulates_emit32 a e f :
  is_u 32 e -> e .& 3 = 3 -> (forall s, wf s -> Interpret e s = f 4 s) ->
  simulates a (Emit32 e) f.
Proof.
  intros He H3 Hs. exists (bytes_of_u 4 e). rewrite length_bytes_of_u.
  split_and!; [done|auto|]. intros s Hw Hc. rewrite (interpret_32 s e) by done. by apply Hs.
Qed.

Lemma simulates_emit16 a e f :
  is_c e -> (forall s, wf s -> InterpretC e s = f 2 s) -> simulates a (Emit16 e) f.
Proof.
  intros [He H3] Hs. exists (bytes_of_u 2 e). rewrite length_bytes_of_u.
  split_and!; [done|auto|]. intros s Hw Hc. rewrite (interpret_16 s e) by done. by apply Hs.
Qed.

(** The low bits of the opcode mark a 32-bit instruction. *)
Lemma wide_opcode e op : Instr.opcode e = op -> op .& 3 = 3 -> e .& 3 = 3.
Proof.
  intros <- E. unfold Instr.opcode, DecodeOpcode, DecodeFunctField in E.
  by rewrite Z.shiftr_0_r, <- Z.land_assoc in E.
Qed.

Definition opcode_ok (op : Z) : bool := (0 <=? op) && (op <? 2 ^ 7) && (op .& 3 =? 3).
Definition funct_ok (n f : Z) : bool := (0 <=? f) && (f <? 2 ^ n).

Lemma opcode_ok_u op : opcode_ok op = true -> is_u 7 op /\ op .& 3 = 3.
Proof.
  intros [[?%Z.leb_le ?%Z.ltb_lt]%andb_true_iff ?%Z.eqb_eq]%andb_true_iff.
  unfold is_u. auto.
Qed.

Lemma funct_ok_u n f : funct_ok n f = true -> is_u n f.
Proof. intros [?%Z.leb_le ?%Z.ltb_lt]%andb_true_iff. done. Qed.

Lemma IsRegField_reg r : is_reg r -> IsRegField r = true.
Proof.
  intros Hr. unfold IsRegField, u32. unfold is_reg in Hr.
  rewrite wrapu_id by (unfold is_u; lia). lia.
Qed.

Lemma IsFunctField_u n f : 0 <= n -> is_u n f -> IsFunctField (Z.ones n) f = true.
Proof.
  intros Hn Hf. unfold IsFunctField. rewrite Z.land_ones by done.
  apply Z.eqb_eq. by apply (wrapu_id n).
Qed.

Ltac asserts := repeat (apply simulates_assert;
  [first [assumption | by apply IsRegField_reg | by apply (IsFunctField_u 7)
         | by apply (IsFunctField_u 3)]|]).

Ltac lor_32' := unfold EncodeITypeImm, EncodeSTypeImm, EncodeUTypeImm; cbv zeta;
  unfold_fields; repeat (apply lor_u; [lia| |]); apply u32_u.

Lemma simulates_IType a imm rs1 f3 rd op f :
  opcode_ok op = true -> funct_ok 3 f3 = true -> is_reg rs1 -> is_reg rd ->
  is_s 64 imm -> IsITypeImm imm = true ->
  (forall e s, wf s -> Instr.opcode e = op -> Instr.rd e = rd -> Instr.funct3 e = f3 ->
     Instr.rs1 e = rs1 -> Instr.itype_imm e = imm -> Interpret e s = f 4 s) ->
  simulates a (Asm.EmitIType imm rs1 f3 rd op) f.
Proof.
  intros [Hop H3]%opcode_ok_u Hf%funct_ok_u Hr1 Hrd Hi HI Hs. unfold Asm.EmitIType. asserts.
  destruct (decode_IType imm rs1 f3 rd op) as (E1 & E2 & E3 & E4 & E5); [done..|].
  fold (IType imm rs1 f3 rd op).
  apply simulates_emit32; [unfold IType; lor_32'|by eapply wide_opcode|]. intros; by apply Hs.
Qed.

Lemma simulates_SType a imm rs2 rs1 f3 op f :
  opcode_ok op = true -> funct_ok 3 f3 = true -> is_reg rs2 -> is_reg rs1 ->
  is_s 64 imm -> IsSTypeImm imm = true ->
  (forall e s, wf s -> Instr.opcode e = op -> Instr.funct3 e = f3 ->
     Instr.rs1 e = rs1 -> Instr.rs2 e = rs2 -> Instr.stype_imm e = imm ->
     Interpret e s = f 4 s) ->
  simulates a (Asm.EmitSType imm rs2 rs1 f3 op) f.
Proof.
  intros [Hop H3]%opcode_ok_u Hf%funct_ok_u Hr2 Hr1 Hi HI Hs. unfold Asm.EmitSType. asserts.
  destruct (decode_SType imm rs2 rs1 f3 op) as (E1 & E2 & E3 & E4 & E5); [done..|].
  fold (SType imm rs2 rs1 f3 op).
  apply simulates_emit32; [unfold SType; lor_32'|by eapply wide_opcode|]. intros; by apply Hs.
Qed.

Lemma simulates_UType a imm rd op f :
  opcode_ok op = true -> is_reg rd -> is_s 64 imm -> IsUTypeImm imm = true ->
  (forall e s, wf s -> Instr.opcode e = op -> Instr.rd e = rd -> Instr.utype_imm e = imm ->
     Interpret e s = f 4 s) ->
  simulates a (Asm.EmitUType imm rd op) f.
Proof.
  intros [Hop H3]%opcode_ok_u Hrd Hi HI Hs. unfold Asm.EmitUType. asserts.
  destruct (decode_UType imm rd op) as (E1 & E2 & E3); [done..|].
  fold (UType imm rd op).
  apply simulates_emit32; [unfold UType; lor_32'|by eapply wide_opcode|]. intros; by apply Hs.
Qed.

Lemma simulates_RType a f7 rs2 rs1 f3 rd op f :
  opcode_ok op = true -> funct_ok 7 f7 = true -> funct_ok 3 f3 = true ->
  is_reg rs2 -> is_reg rs1 -> is_reg rd ->
  (forall e s, wf s -> Instr.opcode e = op -> Instr.rd e = rd -> Instr.funct3 e = f3 ->
     Instr.rs1 e = rs1 -> Instr.rs2 e = rs2 -> Instr.funct7 e = f7 ->
     Interpret e s = f 4 s) ->
  simulates a (Asm.EmitRType f7 rs2 rs1 f3 rd op) f.
Proof.
  intros [Hop H3]%opcode_ok_u Hf7%funct_ok_u Hf%funct_ok_u Hr2 Hr1 Hrd Hs.
  unfold Asm.EmitRType. asserts.
  destruct (decode_RType f7 rs2 rs1 f3 rd op) as (E1 & E2 & E3 & E4 & E5 & E6); [done..|].
  fold (RType f7 rs2 rs1 f3 rd op).
  apply simulates_emit32; [unfold RType; lor_32'|by eapply wide_opcode|]. intros; by apply Hs.
Qed.

Lemma IsShamt shamt : 0 <= shamt < XLEN -> IsFunctField ShamtMask (u32 shamt) = true.
Proof.
  intros Hs. unfold u32. unfold XLEN in Hs. rewrite wrapu_id.
  - unfold ShamtMask. destruct target;
      [apply (IsFunctField_u 5)|apply (IsFunctField_u 6)]; unfold is_u; lia.
  - unfold is_u. destruct target; lia.
Qed.

Lemma simulates_ShamtType a f7 shamt rs1 f3 rd op f :
  opcode_ok op = true -> funct_ok 7 f7 = true -> Z.testbit f7 0 = false ->
  funct_ok 3 f3 = true -> 0 <= shamt < XLEN -> is_reg rs1 -> is_reg rd ->
  (forall e s, wf s -> Instr.opcode e = op -> Instr.rd e = rd -> Instr.funct3 e = f3 ->
     Instr.rs1 e = rs1 -> Instr.shamt e = shamt -> Instr.funct7 e = f7 .| (shamt >> 5) ->
     Instr.funct7 e .& 126 = f7 -> Interpret e s = f 4 s) ->
  simulates a (Asm.EmitRType_shamt f7 shamt rs1 f3 rd op) f.
Proof.
  intros [Hop H3]%opcode_ok_u Hf7%funct_ok_u H0' Hf%funct_ok_u Hsh Hr1 Hrd Hs.
  pose proof (IsShamt shamt Hsh). unfold Asm.EmitRType_shamt. asserts.
  destruct (decode_ShamtType f7 shamt rs1 f3 rd op) as (E1 & E2 & E3 & E4 & E5 & E6 & E7);
    [done..|].
  fold (ShamtType f7 shamt rs1 f3 rd op).
  apply simulates_emit32; [unfold ShamtType, EncodeShamt; lor_32'|by eapply wide_opcode|].
  intros; by apply Hs.
Qed.

End sim.

(** ** A 64-bit target on which the theorems are tried out *)

Definition demo_target : Target := RV64.
Definition demo_debug : Debug := true.
Definition demo_assembler : MicroAssembler := mkAssembler [] RV_GCB 0.
