(* ===== verification/RiscvAsmSimI.v ===== *)
(** The base instructions of the assembler: each emitter against the simulator. *)
From stdpp Require Import base numbers list gmap.
From Stdlib Require Import ZArith Lia.
From S2P Require Import Prelude Utils Random RiscvEncoding RiscvEncodingProps RiscvState RiscvAlu RiscvFloat RiscvInterp RiscvCompressed RiscvInvariant RiscvStateProps RiscvExec RiscvAssembler RiscvDecode RiscvAsmSim.
Local Open Scope Z_scope.
Local Open Scope cxx_scope.

(** ** Automation *)

Lemma IsRegPrimeField_reg r : IsRegPrimeField r = true -> 8 <= r < 16.
Proof. unfold IsRegPrimeField. lia. Qed.

(** Take the branches whose condition is a comparison of constants. *)
Ltac eqbs :=
  repeat match goal with
    | |- (if ?t && ?c then _ else ?y) = ?r =>
        let c' := eval vm_compute in c in
        match c' with
        | false => change c with false; rewrite (andb_false_r t); change (y = r)
        | true => change c with true; rewrite (andb_true_r t)
        end
    | E : ?t = true |- (if ?t then _ else _) = _ => rewrite E
    | E : ?t = false |- (if ?t then _ else _) = _ => rewrite E
    | |- (if ?c then ?x else ?y) = ?r =>
        let c := eval vm_compute in c in
        match c with
        | true => change (x = r)
        | false => change (y = r)
        end
    end.

(** Replace the fields of the instruction [i] by what they decode to. *)
Ltac fields i :=
  repeat match goal with
    | E : ?f i .& ?m = _ |- context [?f i .& ?m] => rewrite E
    | E : ?f i = _ |- context [?f i] => rewrite E
    | E : i .& ?m = _ |- context [i .& ?m] => rewrite E
    end.

Ltac asserts :=
  repeat lazymatch goal with
    | |- simulates _ (AssertSupports _ ;;; _) _ => apply simulates_supports; [assumption|]
    | |- simulates _ (ASSERT _ ;;; _) _ =>
        apply simulates_assert;
        [first [assumption | by apply IsRegField_reg | by apply Z.eqb_eq
               | by apply negb_true_iff, Z.eqb_neq | lia]|]
    end.

(** [compressed i D]: a compressed instruction with the decoding lemma [D]. *)
Tactic Notation "compressed" ident(i) constr(D) :=
  asserts; let HD := fresh in pose proof D as HD; cbv zeta in HD;
  repeat match type of HD with ?P -> _ => specialize (HD ltac:(first
    [assumption | by apply IsRegPrimeField_reg | done])) end;
  match type of HD with
  | is_c ?e /\ _ => set (i := e) in *; clearbody i; destruct_and? HD
  end;
  apply simulates_emit16; [assumption|]; intros s Hw; unfold InterpretC; cbv zeta;
  fields i; eqbs.

(** A compressed [C_RR] instruction. *)
Tactic Notation "rr" ident(i) constr(D) :=
  compressed i D; unfold InterpretC_MISCALU, InterpretC_RR; cbv zeta;
  fields i; eqbs; done.

(** A constant shift amount is below the register width. *)
Lemma shamt_const `{Target} n : (0 <=? n) && (n <? 32) = true -> 0 <= n < XLEN.
Proof. unfold XLEN. destruct target; lia. Qed.

(** [wide i L]: a 32-bit instruction with the lemma [L] of its format; leaves the value
    the simulator computes to be compared where it is not the promised one literally. *)
Ltac member :=
  unfold InterpretLUI, InterpretAUIPC, InterpretJALR, InterpretLOAD, InterpretSTORE,
    InterpretOPIMM, InterpretOPIMM32, InterpretOP, InterpretOP_0, InterpretOP_SUB,
    InterpretOP_MULDIV, InterpretOP_SHADD, InterpretOP_MINMAXCLMUL, InterpretOP_ROTATE,
    InterpretOP_BCLRBEXT, InterpretOP32, InterpretOP32_0, InterpretOP32_SUB,
    InterpretOP32_MULDIV, InterpretOP32_SHADD, InterpretOP32_ADDUW, InterpretOP32_ROTATE;
  cbv zeta.
Tactic Notation "wide" ident(i) constr(L) :=
  apply L; [first [done | by apply shamt_const]..|]; intros i s Hw; intros; unfold Interpret; cbv zeta; fields i; eqbs;
  repeat (progress member; fields i; eqbs); unfold retire, X1, X2; fields i; try done.

(** The conditions under which an emitter picks a compressed instruction, as hypotheses. *)
Ltac conditions :=
  repeat match goal with
    | E : _ && _ = true |- _ => apply andb_true_iff in E; destruct E
    | E : (_ =? _) = true |- _ => apply Z.eqb_eq in E
    | E : negb (_ =? _) = true |- _ => apply negb_true_iff, Z.eqb_neq in E
    | E : _ = ?r |- _ => subst r
    | E : ?r = _ |- _ => subst r
    end.

(** Case analysis on the choice of the encoding. *)
Ltac choose := asserts; repeat (apply simulates_ifc; [intros ? ?; conditions|intros _]).

Section instructions.
Context `{Target} `{Debug} `{HostFPU} `{Host}.

(** ** Effects *)

(** [rd] is set and execution continues after the instruction. *)
Definition sets (rd : Z) (v : Simulator -> Z) : effect :=
  fun len s => Ok (add_pc (set_xreg s rd (v s)) len).

(** The same for an operation that can fail. *)
Definition setsM (rd : Z) (v : Simulator -> result Z) : effect :=
  fun len s => x ← v s; Ok (add_pc (set_xreg s rd x) len).

(** The address an [Address] denotes. *)
Definition addressOf (addr : Address) (s : Simulator) : Z :=
  ux (get_xreg s (base addr) + offset addr).

Definition loads (t : ctype) (rd : Z) (addr : Address) : effect :=
  setsM rd (fun s => MemoryRead t s (addressOf addr s) (base addr)).

Definition stores (t : ctype) (rs2 : Z) (addr : Address) : effect :=
  fun len s =>
    s ← MemoryWrite t s (addressOf addr s) (get_xreg s rs2) (base addr);
    Ok (add_pc s len).

(** [rd] is set to the address after the instruction, execution continues at [target]. *)
Definition jumps (rd : Z) (target : Simulator -> Z) : effect :=
  fun len s => Ok (with_pc (set_xreg s rd (ux (pc_ s + len))) (target s)).

(** Values equal modulo [2 ^ XLEN] set a register to the same value. *)
Lemma sets_congr rd v1 v2 len s : ux (v1 s) = ux (v2 s) -> sets rd v1 len s = sets rd v2 len s.
Proof. intros E. unfold sets, set_xreg. by rewrite E. Qed.

Lemma ux_sx z : ux (sx z) = ux z.
Proof. apply wrapu_wraps. Qed.

(** ** Register-immediate instructions *)

Lemma simulates_c_li a rd imm :
  Supports a RV_C = true -> is_reg rd -> rd <> Reg.ZR -> is_s 64 imm -> IsCIImm imm = true ->
  simulates a (Asm.c_li rd imm) (sets rd (fun s => get_xreg s Reg.ZR + imm)).
Proof.
  intros. unfold Asm.c_li. compressed i (decode_c_li rd imm).
  unfold InterpretC_LI. fields i. destruct (Z.eqb_spec rd Reg.ZR); [done|].
  apply (sets_congr rd (fun _ => sx imm)). rewrite ux_sx, get_xreg_ZR by done. done.
Qed.

Lemma simulates_c_addi a rd imm :
  Supports a RV_C = true -> is_reg rd -> is_s 64 imm -> IsCIImm imm = true -> imm <> 0 ->
  simulates a (Asm.c_addi rd rd imm) (sets rd (fun s => get_xreg s rd + imm)).
Proof.
  intros. unfold Asm.c_addi.
  compressed i (decode_c_addi rd imm).
  unfold InterpretC_ADDI. fields i. done.
Qed.

Lemma simulates_c_addi16sp a imm :
  Supports a RV_C = true -> is_s 64 imm -> IsCI16Imm imm = true -> imm <> 0 ->
  simulates a (Asm.c_addi16sp Reg.SP Reg.SP imm)
    (sets Reg.SP (fun s => get_xreg s Reg.SP + imm)).
Proof.
  intros. unfold Asm.c_addi16sp. compressed i (decode_c_addi16sp Reg.SP imm).
  unfold InterpretC_LUI. fields i. destruct (Z.eqb_spec imm 0); [done|].
  apply (sets_congr Reg.SP (fun s => get_xreg s Reg.SP + sx imm)).
  unfold ux, sx. by rewrite <- wrapu_add_r, wrapu_wraps, wrapu_add_r.
Qed.

Lemma simulates_c_addi4spn a rd imm :
  Supports a RV_C = true -> IsRegPrimeField rd = true -> is_s 64 imm ->
  IsCI4SPNImm imm = true -> imm <> 0 ->
  simulates a (Asm.c_addi4spn rd Reg.SP imm) (sets rd (fun s => get_xreg s Reg.SP + imm)).
Proof.
  intros. unfold Asm.c_addi4spn.
  compressed i (decode_c_addi4spn rd imm).
  unfold InterpretC_ADDI4SPN. fields i. by destruct (Z.eqb_spec imm 0).
Qed.

Lemma simulates_c_nop a :
  Supports a RV_C = true ->
  simulates a Asm.c_nop (sets Reg.ZR (fun s => get_xreg s Reg.ZR + 0)).
Proof.
  intros. unfold Asm.c_nop. asserts. apply simulates_emit16; [done|]. intros s Hw.
  unfold InterpretC. cbv zeta. eqbs. done.
Qed.

Lemma simulates_c_mv a rd rs2 :
  Supports a RV_C = true -> is_reg rd -> is_reg rs2 -> rd <> Reg.ZR -> rs2 <> Reg.ZR ->
  simulates a (Asm.c_mv rd rs2) (sets rd (fun s => get_xreg s rs2 + 0)).
Proof.
  intros. unfold Asm.c_mv. compressed i (decode_c_mv rd rs2).
  unfold InterpretC_JR. fields i. eqbs.
  destruct (Z.eqb_spec rd Reg.ZR), (Z.eqb_spec rs2 Reg.ZR); try done.
  apply (sets_congr rd (fun s => get_xreg s rs2)). f_equal. lia.
Qed.

Lemma simulates_addi a rd rs1 imm :
  Supports a RV_I = true -> is_reg rd -> is_reg rs1 -> is_s 64 imm -> IsITypeImm imm = true ->
  simulates a (Asm.addi rd rs1 imm) (sets rd (fun s => get_xreg s rs1 + imm)).
Proof.
  intros. unfold Asm.addi. choose.
  - by apply simulates_c_li.
  - by apply simulates_c_addi.
  - by apply simulates_c_addi16sp.
  - by apply simulates_c_addi4spn.
  - by apply simulates_c_nop.
  - by apply simulates_c_mv.
  - wide i simulates_IType.
Qed.

Lemma simulates_c_andi a rd imm :
  Supports a RV_C = true -> IsRegPrimeField rd = true -> is_s 64 imm -> IsCIImm imm = true ->
  simulates a (Asm.c_andi rd rd imm) (sets rd (fun s => get_xreg s rd .& ux imm)).
Proof.
  intros. unfold Asm.c_andi. compressed i (decode_c_andi rd imm).
  unfold InterpretC_MISCALU. cbv zeta. fields i. eqbs. done.
Qed.

Lemma simulates_andi a rd rs1 imm :
  Supports a RV_I = true -> is_reg rd -> is_reg rs1 -> is_s 64 imm -> IsITypeImm imm = true ->
  simulates a (Asm.andi rd rs1 imm) (sets rd (fun s => get_xreg s rs1 .& ux imm)).
Proof.
  intros. unfold Asm.andi. choose; [by apply simulates_c_andi|]. wide i simulates_IType.
Qed.

Lemma simulates_slti a rd rs1 imm :
  Supports a RV_I = true -> is_reg rd -> is_reg rs1 -> is_s 64 imm -> IsITypeImm imm = true ->
  simulates a (Asm.slti rd rs1 imm) (sets rd (fun s => if sx (get_xreg s rs1) <? sx imm then 1 else 0)).
Proof. intros. unfold Asm.slti. asserts. wide i simulates_IType. Qed.

Lemma simulates_sltiu a rd rs1 imm :
  Supports a RV_I = true -> is_reg rd -> is_reg rs1 -> is_s 64 imm -> IsITypeImm imm = true ->
  simulates a (Asm.sltiu rd rs1 imm) (sets rd (fun s => if get_xreg s rs1 <? ux imm then 1 else 0)).
Proof. intros. unfold Asm.sltiu. asserts. wide i simulates_IType. Qed.

Lemma simulates_xori a rd rs1 imm :
  Supports a RV_I = true -> is_reg rd -> is_reg rs1 -> is_s 64 imm -> IsITypeImm imm = true ->
  simulates a (Asm.xori rd rs1 imm) (sets rd (fun s => get_xreg s rs1 .^ ux imm)).
Proof. intros. unfold Asm.xori. asserts. wide i simulates_IType. Qed.

Lemma simulates_ori a rd rs1 imm :
  Supports a RV_I = true -> is_reg rd -> is_reg rs1 -> is_s 64 imm -> IsITypeImm imm = true ->
  simulates a (Asm.ori rd rs1 imm) (sets rd (fun s => get_xreg s rs1 .| ux imm)).
Proof. intros. unfold Asm.ori. asserts. wide i simulates_IType. Qed.

(** A compressed shift amount. *)
Lemma shamt_mask shamt : 0 < shamt < XLEN -> shamt .& (XLEN - 1) = shamt.
Proof.
  intros Hs. unfold XLEN in *. destruct target.
  - change (32 - 1) with (Z.ones 5). rewrite Z.land_ones by lia. apply Z.mod_small. lia.
  - change (64 - 1) with (Z.ones 6). rewrite Z.land_ones by lia. apply Z.mod_small. lia.
Qed.

Lemma shamt_s shamt : 0 < shamt < XLEN -> is_s 64 shamt.
Proof. intros Hs. unfold XLEN in Hs. unfold is_s. destruct target; lia. Qed.

Lemma simulates_c_slli a rd shamt :
  Supports a RV_C = true -> is_reg rd -> 0 < shamt < XLEN -> IsCIImm shamt = true ->
  simulates a (Asm.c_slli rd rd shamt) (sets rd (fun s => get_xreg s rd << shamt)).
Proof.
  intros. pose proof (shamt_s shamt ltac:(done)). assert (shamt <> 0) by lia.
  unfold Asm.c_slli. compressed i (decode_c_slli rd shamt).
  unfold InterpretC_SLLI. fields i. destruct (Z.eqb_spec shamt 0); [done|].
  by rewrite shamt_mask.
Qed.

Lemma simulates_c_srli a rd shamt :
  Supports a RV_C = true -> IsRegPrimeField rd = true -> 0 < shamt < XLEN ->
  IsCIImm shamt = true ->
  simulates a (Asm.c_srli rd rd shamt) (sets rd (fun s => get_xreg s rd >> shamt)).
Proof.
  intros. pose proof (shamt_s shamt ltac:(done)). assert (shamt <> 0) by lia.
  unfold Asm.c_srli. compressed i (decode_c_srli rd shamt).
  unfold InterpretC_MISCALU. cbv zeta. fields i. eqbs.
  destruct (Z.eqb_spec shamt 0); [done|]. by rewrite shamt_mask.
Qed.

Lemma simulates_c_srai a rd shamt :
  Supports a RV_C = true -> IsRegPrimeField rd = true -> 0 < shamt < XLEN ->
  IsCIImm shamt = true ->
  simulates a (Asm.c_srai rd rd shamt) (sets rd (fun s => sx (get_xreg s rd) >> shamt)).
Proof.
  intros. pose proof (shamt_s shamt ltac:(done)). assert (shamt <> 0) by lia.
  unfold Asm.c_srai. compressed i (decode_c_srai rd shamt).
  unfold InterpretC_MISCALU. cbv zeta. fields i. eqbs.
  destruct (Z.eqb_spec shamt 0); [done|]. by rewrite shamt_mask.
Qed.

(** The sixth bit of a shift amount in the function code: the simulator's tests for
    other operations with the same [funct3] fail. *)
Lemma shamt_funct7 shamt : 0 <= shamt < XLEN -> shamt >> 5 = 0 \/ shamt >> 5 = 1.
Proof.
  intros Hs. rewrite Z.shiftr_div_pow2 by lia. change (2 ^ 5) with 32.
  unfold XLEN in Hs. destruct target; Z.div_mod_to_equations; lia.
Qed.

Lemma simulates_slli a rd rs1 shamt :
  Supports a RV_I = true -> is_reg rd -> is_reg rs1 -> 0 < shamt < XLEN ->
  simulates a (Asm.slli rd rs1 shamt) (sets rd (fun s => get_xreg s rs1 << shamt)).
Proof.
  intros. assert (0 <= shamt < XLEN) as Hsh by lia. unfold Asm.slli.
  choose; [by apply simulates_c_slli|].
  destruct (shamt_funct7 shamt Hsh) as [E|E]; wide i simulates_ShamtType;
    rewrite ?E in *; eqbs; done.
Qed.

Lemma simulates_srli a rd rs1 shamt :
  Supports a RV_I = true -> is_reg rd -> is_reg rs1 -> 0 < shamt < XLEN ->
  simulates a (Asm.srli rd rs1 shamt) (sets rd (fun s => get_xreg s rs1 >> shamt)).
Proof.
  intros. assert (0 <= shamt < XLEN) as Hsh by lia. unfold Asm.srli.
  choose; [by apply simulates_c_srli|].
  destruct (shamt_funct7 shamt Hsh) as [E|E]; wide i simulates_ShamtType;
    rewrite ?E in *; destruct is32; eqbs; done.
Qed.

Lemma simulates_srai a rd rs1 shamt :
  Supports a RV_I = true -> is_reg rd -> is_reg rs1 -> 0 < shamt < XLEN ->
  simulates a (Asm.srai rd rs1 shamt) (sets rd (fun s => sx (get_xreg s rs1) >> shamt)).
Proof.
  intros. assert (0 <= shamt < XLEN) as Hsh by lia. unfold Asm.srai.
  choose; [by apply simulates_c_srai|]. wide i simulates_ShamtType.
Qed.

(** ** Register-register instructions *)

Lemma simulates_ext a e f g :
  (forall len s, f len s = g len s) -> simulates a e f -> simulates a e g.
Proof.
  intros E (bs & He & Hl & Hs). exists bs. split_and!; [done..|].
  intros s Hw Hc. rewrite <- E. by apply Hs.
Qed.

(** The operands of a commutative operation may be exchanged. *)
Lemma simulates_comm a e rd v1 v2 :
  (forall s, v1 s = v2 s) -> simulates a e (sets rd v1) -> simulates a e (sets rd v2).
Proof. intros E. apply simulates_ext. intros len s. unfold sets. by rewrite E. Qed.

Lemma simulates_c_add a rd rs2 :
  Supports a RV_C = true -> is_reg rd -> is_reg rs2 -> rd <> Reg.ZR -> rs2 <> Reg.ZR ->
  simulates a (Asm.c_add rd rd rs2) (sets rd (fun s => get_xreg s rd + get_xreg s rs2)).
Proof.
  intros. unfold Asm.c_add. compressed i (decode_c_add rd rs2).
  unfold InterpretC_JR. fields i. eqbs.
  destruct (Z.eqb_spec rd Reg.ZR), (Z.eqb_spec rs2 Reg.ZR); done.
Qed.

Lemma simulates_c_and a rd rs2 :
  Supports a RV_C = true -> IsRegPrimeField rd = true -> IsRegPrimeField rs2 = true ->
  simulates a (Asm.c_and rd rd rs2) (sets rd (fun s => get_xreg s rd .& get_xreg s rs2)).
Proof. intros. unfold Asm.c_and. rr i (decode_c_and rd rs2). Qed.

Lemma simulates_c_or a rd rs2 :
  Supports a RV_C = true -> IsRegPrimeField rd = true -> IsRegPrimeField rs2 = true ->
  simulates a (Asm.c_or rd rd rs2) (sets rd (fun s => get_xreg s rd .| get_xreg s rs2)).
Proof. intros. unfold Asm.c_or. rr i (decode_c_or rd rs2). Qed.

Lemma simulates_c_xor a rd rs2 :
  Supports a RV_C = true -> IsRegPrimeField rd = true -> IsRegPrimeField rs2 = true ->
  simulates a (Asm.c_xor rd rd rs2) (sets rd (fun s => get_xreg s rd .^ get_xreg s rs2)).
Proof. intros. unfold Asm.c_xor. rr i (decode_c_xor rd rs2). Qed.

Lemma simulates_c_sub a rd rs2 :
  Supports a RV_C = true -> IsRegPrimeField rd = true -> IsRegPrimeField rs2 = true ->
  simulates a (Asm.c_sub rd rd rs2) (sets rd (fun s => get_xreg s rd - get_xreg s rs2)).
Proof. intros. unfold Asm.c_sub. rr i (decode_c_sub rd rs2). Qed.

(** [add] with [rd] equal to an operand is compressed without a look at the other
    operands; [c_add] requires them not to be [ZR]. *)
Definition add_ok (a : MicroAssembler) (rd rs1 rs2 : Z) : Prop :=
  Supports a RV_C = true -> rd = rs1 \/ rd = rs2 -> rs1 <> Reg.ZR /\ rs2 <> Reg.ZR.

Lemma simulates_add a rd rs1 rs2 :
  Supports a RV_I = true -> is_reg rd -> is_reg rs1 -> is_reg rs2 -> add_ok a rd rs1 rs2 ->
  simulates a (Asm.add rd rs1 rs2) (sets rd (fun s => get_xreg s rs1 + get_xreg s rs2)).
Proof.
  intros ? ? ? ? Hok. unfold Asm.add. choose.
  - destruct Hok; [done|auto|]. by apply simulates_c_add.
  - destruct Hok; [done|auto|].
    eapply simulates_comm; [|by apply simulates_c_add]. intros; simpl. lia.
  - wide i simulates_RType.
Qed.

Lemma simulates_sub a rd rs1 rs2 :
  Supports a RV_I = true -> is_reg rd -> is_reg rs1 -> is_reg rs2 ->
  simulates a (Asm.sub rd rs1 rs2) (sets rd (fun s => get_xreg s rs1 - get_xreg s rs2)).
Proof.
  intros. unfold Asm.sub. choose; [by apply simulates_c_sub|wide i simulates_RType].
Qed.

Lemma simulates_and a rd rs1 rs2 :
  Supports a RV_I = true -> is_reg rd -> is_reg rs1 -> is_reg rs2 ->
  simulates a (Asm.and_ rd rs1 rs2) (sets rd (fun s => get_xreg s rs1 .& get_xreg s rs2)).
Proof.
  intros. unfold Asm.and_. choose; [by apply simulates_c_and| |wide i simulates_RType].
  eapply simulates_comm; [|by apply simulates_c_and]. intros; apply Z.land_comm.
Qed.

Lemma simulates_or a rd rs1 rs2 :
  Supports a RV_I = true -> is_reg rd -> is_reg rs1 -> is_reg rs2 ->
  simulates a (Asm.or_ rd rs1 rs2) (sets rd (fun s => get_xreg s rs1 .| get_xreg s rs2)).
Proof.
  intros. unfold Asm.or_. choose; [by apply simulates_c_or| |wide i simulates_RType].
  eapply simulates_comm; [|by apply simulates_c_or]. intros; apply Z.lor_comm.
Qed.

Lemma simulates_xor a rd rs1 rs2 :
  Supports a RV_I = true -> is_reg rd -> is_reg rs1 -> is_reg rs2 ->
  simulates a (Asm.xor_ rd rs1 rs2) (sets rd (fun s => get_xreg s rs1 .^ get_xreg s rs2)).
Proof.
  intros. unfold Asm.xor_. choose; [by apply simulates_c_xor| |wide i simulates_RType].
  eapply simulates_comm; [|by apply simulates_c_xor]. intros; apply Z.lxor_comm.
Qed.

Lemma simulates_sll a rd rs1 rs2 :
  Supports a RV_I = true -> is_reg rd -> is_reg rs1 -> is_reg rs2 ->
  simulates a (Asm.sll rd rs1 rs2)
    (sets rd (fun s => get_xreg s rs1 << (get_xreg s rs2 .& (XLEN - 1)))).
Proof. intros. unfold Asm.sll. asserts. wide i simulates_RType. Qed.

Lemma simulates_srl a rd rs1 rs2 :
  Supports a RV_I = true -> is_reg rd -> is_reg rs1 -> is_reg rs2 ->
  simulates a (Asm.srl rd rs1 rs2)
    (sets rd (fun s => get_xreg s rs1 >> (get_xreg s rs2 .& (XLEN - 1)))).
Proof. intros. unfold Asm.srl. asserts. wide i simulates_RType. Qed.

Lemma simulates_sra a rd rs1 rs2 :
  Supports a RV_I = true -> is_reg rd -> is_reg rs1 -> is_reg rs2 ->
  simulates a (Asm.sra rd rs1 rs2)
    (sets rd (fun s => sx (get_xreg s rs1) >> (get_xreg s rs2 .& (XLEN - 1)))).
Proof. intros. unfold Asm.sra. asserts. wide i simulates_RType. Qed.

Lemma simulates_slt a rd rs1 rs2 :
  Supports a RV_I = true -> is_reg rd -> is_reg rs1 -> is_reg rs2 ->
  simulates a (Asm.slt rd rs1 rs2)
    (sets rd (fun s => if sx (get_xreg s rs1) <? sx (get_xreg s rs2) then 1 else 0)).
Proof. intros. unfold Asm.slt. asserts. wide i simulates_RType. Qed.

Lemma simulates_sltu a rd rs1 rs2 :
  Supports a RV_I = true -> is_reg rd -> is_reg rs1 -> is_reg rs2 ->
  simulates a (Asm.sltu rd rs1 rs2)
    (sets rd (fun s => if get_xreg s rs1 <? get_xreg s rs2 then 1 else 0)).
Proof. intros. unfold Asm.sltu. asserts. wide i simulates_RType. Qed.

(** ** Loads, stores, upper immediates, jumps *)

Lemma simulates_lb a rd addr :
  Supports a RV_I = true -> is_reg rd -> is_reg (base addr) -> is_s 64 (offset addr) ->
  IsITypeImm (offset addr) = true ->
  simulates a (Asm.lb rd addr) (loads int8_t rd addr).
Proof. intros. unfold Asm.lb. asserts. wide i simulates_IType. Qed.

Lemma simulates_lbu a rd addr :
  Supports a RV_I = true -> is_reg rd -> is_reg (base addr) -> is_s 64 (offset addr) ->
  IsITypeImm (offset addr) = true ->
  simulates a (Asm.lbu rd addr) (loads uint8_t rd addr).
Proof. intros. unfold Asm.lbu. asserts. wide i simulates_IType. Qed.

Lemma simulates_lh a rd addr :
  Supports a RV_I = true -> is_reg rd -> is_reg (base addr) -> is_s 64 (offset addr) ->
  IsITypeImm (offset addr) = true ->
  simulates a (Asm.lh rd addr) (loads int16_t rd addr).
Proof. intros. unfold Asm.lh. asserts. wide i simulates_IType. Qed.

Lemma simulates_lhu a rd addr :
  Supports a RV_I = true -> is_reg rd -> is_reg (base addr) -> is_s 64 (offset addr) ->
  IsITypeImm (offset addr) = true ->
  simulates a (Asm.lhu rd addr) (loads uint16_t rd addr).
Proof. intros. unfold Asm.lhu. asserts. wide i simulates_IType. Qed.

Lemma simulates_sb a rs2 addr :
  Supports a RV_I = true -> is_reg rs2 -> is_reg (base addr) -> is_s 64 (offset addr) ->
  IsSTypeImm (offset addr) = true ->
  simulates a (Asm.sb rs2 addr) (stores uint8_t rs2 addr).
Proof. intros. unfold Asm.sb. asserts. wide i simulates_SType. Qed.

Lemma simulates_sh a rs2 addr :
  Supports a RV_I = true -> is_reg rs2 -> is_reg (base addr) -> is_s 64 (offset addr) ->
  IsSTypeImm (offset addr) = true ->
  simulates a (Asm.sh rs2 addr) (stores uint16_t rs2 addr).
Proof. intros. unfold Asm.sh. asserts. wide i simulates_SType. Qed.

Lemma simulates_c_lwsp a rd off :
  Supports a RV_C = true -> is_reg rd -> rd <> Reg.ZR -> is_s 64 off ->
  IsCSPLoad4Imm off = true ->
  simulates a (Asm.c_lwsp rd (mkAddress Reg.SP off)) (loads int32_t rd (mkAddress Reg.SP off)).
Proof.
  intros. unfold Asm.c_lwsp. simpl base. simpl offset.
  compressed i (decode_c_lwsp rd off). unfold InterpretC_LWSP. cbv zeta. by fields i.
Qed.

Lemma simulates_c_lw a rd addr :
  Supports a RV_C = true -> IsRegPrimeField rd = true -> IsRegPrimeField (base addr) = true ->
  is_s 64 (offset addr) -> IsCMem4Imm (offset addr) = true ->
  simulates a (Asm.c_lw rd addr) (loads int32_t rd addr).
Proof.
  intros. unfold Asm.c_lw. compressed i (decode_c_lw rd (base addr) (offset addr)).
  unfold InterpretC_LW. cbv zeta. by fields i.
Qed.

Lemma simulates_c_swsp a rs2 off :
  Supports a RV_C = true -> is_reg rs2 -> is_s 64 off -> IsCSPStore4Imm off = true ->
  simulates a (Asm.c_swsp rs2 (mkAddress Reg.SP off))
    (stores uint32_t rs2 (mkAddress Reg.SP off)).
Proof.
  intros. unfold Asm.c_swsp. simpl base. simpl offset.
  compressed i (decode_c_swsp rs2 off). unfold InterpretC_SWSP. cbv zeta. by fields i.
Qed.

Lemma simulates_c_sw a rs2 addr :
  Supports a RV_C = true -> IsRegPrimeField rs2 = true -> IsRegPrimeField (base addr) = true ->
  is_s 64 (offset addr) -> IsCMem4Imm (offset addr) = true ->
  simulates a (Asm.c_sw rs2 addr) (stores uint32_t rs2 addr).
Proof.
  intros. unfold Asm.c_sw. compressed i (decode_c_sw (base addr) rs2 (offset addr)).
  unfold InterpretC_SW. cbv zeta. by fields i.
Qed.

Lemma simulates_lw a rd addr :
  Supports a RV_I = true -> is_reg rd -> is_reg (base addr) -> is_s 64 (offset addr) ->
  IsITypeImm (offset addr) = true ->
  simulates a (Asm.lw rd addr) (loads int32_t rd addr).
Proof.
  intros. unfold Asm.lw. choose; [| |wide i simulates_IType].
  - destruct addr as [r off]; simpl in *; subst r. by apply simulates_c_lwsp.
  - by apply simulates_c_lw.
Qed.

Lemma simulates_sw a rs2 addr :
  Supports a RV_I = true -> is_reg rs2 -> is_reg (base addr) -> is_s 64 (offset addr) ->
  IsSTypeImm (offset addr) = true ->
  simulates a (Asm.sw rs2 addr) (stores uint32_t rs2 addr).
Proof.
  intros. unfold Asm.sw. choose; [| |wide i simulates_SType].
  - destruct addr as [r off]; simpl in *; subst r. by apply simulates_c_swsp.
  - by apply simulates_c_sw.
Qed.

Lemma simulates_c_lui a rd imm :
  Supports a RV_C = true -> is_reg rd -> rd <> Reg.ZR -> rd <> Reg.SP -> is_s 64 imm ->
  IsCUImm imm = true -> imm <> 0 ->
  simulates a (Asm.c_lui rd imm) (sets rd (fun _ => sign_extend_i64 imm)).
Proof.
  intros. unfold Asm.c_lui. compressed i (decode_c_lui rd imm).
  unfold InterpretC_LUI. fields i.
  destruct (Z.eqb_spec rd Reg.SP), (Z.eqb_spec rd Reg.ZR), (Z.eqb_spec imm 0); done.
Qed.

(** [lui] with a zero immediate is compressed to an encoding that is not an instruction. *)
Definition lui_ok (a : MicroAssembler) (rd imm : Z) : Prop :=
  Supports a RV_C = true -> imm = 0 -> rd = Reg.ZR \/ rd = Reg.SP.

Lemma simulates_lui a rd imm :
  Supports a RV_I = true -> is_reg rd -> is_s 64 imm -> IsUTypeImm imm = true ->
  lui_ok a rd imm ->
  simulates a (Asm.lui rd imm) (sets rd (fun _ => sign_extend_i64 imm)).
Proof.
  intros ? ? ? ? Hok. unfold Asm.lui. choose; [|wide i simulates_UType].
  apply simulates_c_lui; try done. intros Hz. destruct Hok; done.
Qed.

(** The target is read before [rd] is written: [jalr rd, rd] is a jump to the old value. *)
Lemma simulates_c_jr a rs1 :
  Supports a RV_C = true -> is_reg rs1 -> rs1 <> Reg.ZR ->
  simulates a (Asm.c_jr rs1) (jumps Reg.ZR (fun s => ux (get_xreg s rs1 + ux 0))).
Proof.
  intros. unfold Asm.c_jr. compressed i (decode_c_jr rs1).
  unfold InterpretC_JR. fields i. eqbs.
  unfold jumps, set_xreg. simpl negb. cbv match.
  pose proof (wf_get_xreg s rs1 Hw) as Hr. unfold ux.
  rewrite wrapu_add_r, Z.add_0_r, (wrapu_id _ (get_xreg s rs1)) by done. done.
Qed.

Lemma simulates_c_jalr a rs1 :
  Supports a RV_C = true -> is_reg rs1 -> rs1 <> Reg.ZR ->
  simulates a (Asm.c_jalr rs1) (jumps Reg.RA (fun s => ux (get_xreg s rs1 + ux 0))).
Proof.
  intros. unfold Asm.c_jalr. compressed i (decode_c_jalr rs1).
  unfold InterpretC_JR. fields i. eqbs.
  destruct (Z.eqb_spec rs1 Reg.ZR); [done|]. eqbs.
  pose proof (wf_get_xreg s rs1 Hw) as Hr. unfold jumps. unfold ux at 3.
  unfold ux at 3. rewrite wrapu_add_r, Z.add_0_r, (wrapu_id _ (get_xreg s rs1)) by done. done.
Qed.

Lemma simulates_jalr a rd rs1 off :
  Supports a RV_I = true -> is_reg rd -> is_reg rs1 -> is_s 64 off -> IsITypeImm off = true ->
  simulates a (Asm.jalr rd rs1 off) (jumps rd (fun s => ux (get_xreg s rs1 + ux off))).
Proof.
  intros. unfold Asm.jalr. choose;
    [by apply simulates_c_jr|by apply simulates_c_jalr|wide i simulates_IType].
Qed.

(** ** The base instruction set *)

(** C33: in range, [addi], [slti], [sltiu], [xori], [ori] and [andi] succeed and what
    they append, compressed or not, makes the simulator set [rd] to the operation on
    [rs1] and the immediate and go on with the next instruction. *)
Theorem asm_op_imm a rd rs1 imm :
  Supports a RV_I = true -> is_reg rd -> is_reg rs1 -> is_s 64 imm -> IsITypeImm imm = true ->
  simulates a (Asm.addi rd rs1 imm) (sets rd (fun s => get_xreg s rs1 + imm)) /\
  simulates a (Asm.slti rd rs1 imm)
    (sets rd (fun s => if sx (get_xreg s rs1) <? sx imm then 1 else 0)) /\
  simulates a (Asm.sltiu rd rs1 imm)
    (sets rd (fun s => if get_xreg s rs1 <? ux imm then 1 else 0)) /\
  simulates a (Asm.xori rd rs1 imm) (sets rd (fun s => get_xreg s rs1 .^ ux imm)) /\
  simulates a (Asm.ori rd rs1 imm) (sets rd (fun s => get_xreg s rs1 .| ux imm)) /\
  simulates a (Asm.andi rd rs1 imm) (sets rd (fun s => get_xreg s rs1 .& ux imm)).
Proof.
  intros. split_and!; [by apply simulates_addi|by apply simulates_slti|by apply simulates_sltiu
    |by apply simulates_xori|by apply simulates_ori|by apply simulates_andi].
Qed.

(** [slli], [srli] and [srai] with a shift amount the assembler accepts shift [rs1]
    by that amount, for all amounts below the register width and in both encodings. *)
Theorem asm_shift_imm a rd rs1 shamt :
  Supports a RV_I = true -> is_reg rd -> is_reg rs1 -> 0 < shamt < XLEN ->
  simulates a (Asm.slli rd rs1 shamt) (sets rd (fun s => get_xreg s rs1 << shamt)) /\
  simulates a (Asm.srli rd rs1 shamt) (sets rd (fun s => get_xreg s rs1 >> shamt)) /\
  simulates a (Asm.srai rd rs1 shamt) (sets rd (fun s => sx (get_xreg s rs1) >> shamt)).
Proof.
  intros. split_and!;
    [by apply simulates_slli|by apply simulates_srli|by apply simulates_srai].
Qed.

(** C34: the register-register instructions of the base instruction set compute their
    operation on [rs1] and [rs2], in 32 bits and, where the assembler picks it, in 16; [add]
    with the exception of the case in which it is compressed although an operand is [ZR]
    ([add_ok]): there it fails an assertion ([add_compressed_assertion]). *)
Theorem asm_op a rd rs1 rs2 :
  Supports a RV_I = true -> is_reg rd -> is_reg rs1 -> is_reg rs2 ->
  (add_ok a rd rs1 rs2 ->
   simulates a (Asm.add rd rs1 rs2) (sets rd (fun s => get_xreg s rs1 + get_xreg s rs2))) /\
  simulates a (Asm.sub rd rs1 rs2) (sets rd (fun s => get_xreg s rs1 - get_xreg s rs2)) /\
  simulates a (Asm.and_ rd rs1 rs2) (sets rd (fun s => get_xreg s rs1 .& get_xreg s rs2)) /\
  simulates a (Asm.or_ rd rs1 rs2) (sets rd (fun s => get_xreg s rs1 .| get_xreg s rs2)) /\
  simulates a (Asm.xor_ rd rs1 rs2) (sets rd (fun s => get_xreg s rs1 .^ get_xreg s rs2)) /\
  simulates a (Asm.sll rd rs1 rs2)
    (sets rd (fun s => get_xreg s rs1 << (get_xreg s rs2 .& (XLEN - 1)))) /\
  simulates a (Asm.srl rd rs1 rs2)
    (sets rd (fun s => get_xreg s rs1 >> (get_xreg s rs2 .& (XLEN - 1)))) /\
  simulates a (Asm.sra rd rs1 rs2)
    (sets rd (fun s => sx (get_xreg s rs1) >> (get_xreg s rs2 .& (XLEN - 1)))) /\
  simulates a (Asm.slt rd rs1 rs2)
    (sets rd (fun s => if sx (get_xreg s rs1) <? sx (get_xreg s rs2) then 1 else 0)) /\
  simulates a (Asm.sltu rd rs1 rs2)
    (sets rd (fun s => if get_xreg s rs1 <? get_xreg s rs2 then 1 else 0)).
Proof.
  intros. split_and!; [by apply simulates_add|by apply simulates_sub|by apply simulates_and
    |by apply simulates_or|by apply simulates_xor|by apply simulates_sll|by apply simulates_srl
    |by apply simulates_sra|by apply simulates_slt|by apply simulates_sltu].
Qed.

(** C35: the loads read the memory at base plus offset at their width, extended by the
    signedness of their type, and the stores write the low part of [rs2] there; a fault
    of the access is the fault of the instruction. *)
Theorem asm_load_store a r addr :
  Supports a RV_I = true -> is_reg r -> is_reg (base addr) -> is_s 64 (offset addr) ->
  IsITypeImm (offset addr) = true ->
  simulates a (Asm.lb r addr) (loads int8_t r addr) /\
  simulates a (Asm.lbu r addr) (loads uint8_t r addr) /\
  simulates a (Asm.lh r addr) (loads int16_t r addr) /\
  simulates a (Asm.lhu r addr) (loads uint16_t r addr) /\
  simulates a (Asm.lw r addr) (loads int32_t r addr) /\
  simulates a (Asm.sb r addr) (stores uint8_t r addr) /\
  simulates a (Asm.sh r addr) (stores uint16_t r addr) /\
  simulates a (Asm.sw r addr) (stores uint32_t r addr).
Proof.
  intros. assert (IsSTypeImm (offset addr) = true) by done.
  split_and!; [by apply simulates_lb|by apply simulates_lbu|by apply simulates_lh
    |by apply simulates_lhu|by apply simulates_lw|by apply simulates_sb|by apply simulates_sh
    |by apply simulates_sw].
Qed.

(** [lui] sets [rd] to the sign-extended upper immediate, [auipc] to that immediate
    plus the address of the instruction, and [jalr] links the address after itself,
    two or four bytes further, and jumps to base plus offset. *)
Theorem asm_upper_jump a rd rs1 imm off :
  Supports a RV_I = true -> is_reg rd -> is_reg rs1 -> is_s 64 imm -> IsUTypeImm imm = true ->
  is_s 64 off -> IsITypeImm off = true ->
  (lui_ok a rd imm -> simulates a (Asm.lui rd imm) (sets rd (fun _ => sign_extend_i64 imm))) /\
  simulates a (Asm.lui_fixed rd imm) (sets rd (fun _ => sign_extend_i64 imm)) /\
  simulates a (Asm.auipc rd imm) (sets rd (fun s => pc_ s + sign_extend_i64 imm)) /\
  simulates a (Asm.jalr rd rs1 off) (jumps rd (fun s => ux (get_xreg s rs1 + ux off))) /\
  simulates a (Asm.jalr_fixed rd rs1 off) (jumps rd (fun s => ux (get_xreg s rs1 + ux off))).
Proof.
  intros. split_and!; [by apply simulates_lui|..].
  - unfold Asm.lui_fixed. asserts. wide i simulates_UType.
  - unfold Asm.auipc. asserts. wide i simulates_UType.
  - by apply simulates_jalr.
  - unfold Asm.jalr_fixed. asserts. wide i simulates_IType.
Qed.

(** With compression, [add rd, rd, rs2] fails its assertion when [rd] or [rs2] is
    [ZR], although the instruction is valid and its 32-bit encoding exists. *)
Theorem add_compressed_assertion a rd rs2 :
  Supports a RV_I = true -> Supports a RV_C = true -> rd = Reg.ZR \/ rs2 = Reg.ZR ->
  Asm.add rd rd rs2 a = Fatal AssertionFailed.
Proof.
  intros HI HC Hz. unfold Asm.add, andThen, AssertSupports, IfC, Asm.c_add, ASSERT, andThen.
  rewrite HI. simpl. rewrite HC, Z.eqb_refl. simpl. unfold AssertSupports, ASSERT.
  rewrite HC. simpl. destruct Hz as [-> | ->]; simpl; [done|].
  by destruct (rd =? Reg.ZR).
Qed.

(** With compression, [lui rd, 0] appends the two bytes of a [c.lui] with a zero
    immediate, which the simulator rejects as an illegal instruction. *)
Theorem lui_zero_illegal a rd :
  Supports a RV_I = true -> Supports a RV_C = true -> is_reg rd -> rd <> Reg.ZR ->
  rd <> Reg.SP ->
  exists bs, Asm.lui rd 0 a = emit_bytes bs a /\ length bs = 2%nat /\
    forall s, wf s -> code_at s bs ->
      exists i, interpret_at s = Fatal (IllegalInstruction i).
Proof.
  intros HI HC Hrd Hz Hsp.
  destruct (decode_c_lui rd 0 Hrd ltac:(done) ltac:(done)) as (Hc & Eop & Erd & _ & Eu).
  set (i := COpcode.C_LUI .| EncodeCRd rd .| EncodeCUImm 0) in *.
  exists (bytes_of_u 2 i). split_and!; [|done|].
  - unfold Asm.lui, andThen, AssertSupports, IfC, ASSERT. rewrite HI. simpl. rewrite HC.
    apply Z.eqb_neq in Hz as Ez, Hsp as Es. rewrite Ez, Es. simpl.
    unfold Asm.c_lui, andThen, AssertSupports, ASSERT. rewrite HC. simpl.
    rewrite Ez, Es. simpl. by rewrite (IsRegField_reg rd Hrd).
  - intros s Hw Hat. exists i. clearbody i. destruct Hc as [Hu H3].
    rewrite (interpret_16 s i) by done. unfold InterpretC. cbv zeta. fields i. eqbs.
    unfold InterpretC_LUI. fields i.
    destruct (Z.eqb_spec rd Reg.SP), (Z.eqb_spec rd Reg.ZR); done.
Qed.

End instructions.

(** ** Witnesses *)

#[local] Existing Instances demo_target demo_debug demo_fpu demo_host.

Ltac concrete := first [done | by vm_compute | by split | (vm_compute; split; congruence)].

Lemma asm_op_imm_witness :
  simulates demo_assembler (Asm.addi Reg.A0 Reg.A0 5)
    (sets Reg.A0 (fun s => get_xreg s Reg.A0 + 5)).
Proof.
  destruct (asm_op_imm demo_assembler Reg.A0 Reg.A0 5) as (W & _);
    [concrete..|exact W].
Defined.

Lemma asm_shift_imm_witness :
  simulates demo_assembler (Asm.slli Reg.A0 Reg.A0 40)
    (sets Reg.A0 (fun s => get_xreg s Reg.A0 << 40)).
Proof.
  destruct (asm_shift_imm demo_assembler Reg.A0 Reg.A0 40) as (W & _);
    [concrete..|exact W].
Defined.

Lemma asm_op_witness :
  simulates demo_assembler (Asm.add Reg.A0 Reg.A0 Reg.A1)
    (sets Reg.A0 (fun s => get_xreg s Reg.A0 + get_xreg s Reg.A1)).
Proof.
  destruct (asm_op demo_assembler Reg.A0 Reg.A0 Reg.A1) as (W & _);
    [concrete..|apply W; concrete].
Defined.

Lemma asm_load_store_witness :
  simulates demo_assembler (Asm.lw Reg.A0 (mkAddress Reg.SP 8))
    (loads int32_t Reg.A0 (mkAddress Reg.SP 8)).
Proof.
  destruct (asm_load_store demo_assembler Reg.A0 (mkAddress Reg.SP 8)) as (_ & _ & _ & _ & W & _);
    [concrete..|exact W].
Defined.

Lemma asm_upper_jump_witness :
  simulates demo_assembler (Asm.jalr Reg.RA Reg.A1 16)
    (jumps Reg.RA (fun s => ux (get_xreg s Reg.A1 + ux 16))).
Proof.
  destruct (asm_upper_jump demo_assembler Reg.RA Reg.A1 0x1000 16) as (_ & _ & _ & W & _);
    [concrete..|exact W].
Defined.

Lemma add_compressed_assertion_witness :
  Asm.add Reg.A0 Reg.A0 Reg.ZR demo_assembler = Fatal AssertionFailed.
Proof. apply (add_compressed_assertion demo_assembler Reg.A0 Reg.ZR); [done..|by right]. Defined.

Lemma lui_zero_illegal_witness :
  exists bs, Asm.lui Reg.A0 0 demo_assembler = emit_bytes bs demo_assembler /\
    length bs = 2%nat /\
    forall s, wf s -> code_at s bs -> exists i, interpret_at s = Fatal (IllegalInstruction i).
Proof. apply (lui_zero_illegal demo_assembler Reg.A0); concrete. Defined.
