(* ===== verification/RiscvAsmSimX.v ===== *)
(** The 64-bit, multiplication and bit-manipulation instructions of the assembler,
    against the simulator. *)
From stdpp Require Import base numbers list gmap.
From Stdlib Require Import ZArith Lia.
From S2P Require Import Prelude Utils Random RiscvEncoding RiscvEncodingProps RiscvState RiscvAlu RiscvFloat RiscvInterp RiscvCompressed RiscvInvariant RiscvStateProps RiscvExec RiscvAssembler RiscvDecode RiscvAsmSim RiscvAsmSimI.
Local Open Scope Z_scope.
Local Open Scope cxx_scope.

Section extensions.
Context `{Target} `{Debug} `{HostFPU} `{Host}.

Lemma is32_false : is64 = true -> is32 = false.
Proof. unfold is64, is32. by destruct target. Qed.

(** ** 64-bit loads and stores *)

Lemma simulates_c_ldsp a rd off :
  is64 = true -> Supports a RV_C = true -> is_reg rd -> rd <> Reg.ZR -> is_s 64 off ->
  IsCSPLoad8Imm off = true ->
  simulates a (Asm.c_ldsp rd (mkAddress Reg.SP off)) (loads int64_t rd (mkAddress Reg.SP off)).
Proof.
  intros H64%is32_false. intros. unfold Asm.c_ldsp. simpl base. simpl offset.
  compressed i (decode_c_ldsp rd off). unfold InterpretC_FLWSP_LDSP. cbv zeta. eqbs.
  by fields i.
Qed.

Lemma simulates_c_ld a rd addr :
  is64 = true -> Supports a RV_C = true -> IsRegPrimeField rd = true ->
  IsRegPrimeField (base addr) = true -> is_s 64 (offset addr) ->
  IsCMem8Imm (offset addr) = true ->
  simulates a (Asm.c_ld rd addr) (loads int64_t rd addr).
Proof.
  intros H64%is32_false. intros. unfold Asm.c_ld.
  compressed i (decode_c_ld rd (base addr) (offset addr)).
  unfold InterpretC_FLW_LD. cbv zeta. eqbs. by fields i.
Qed.

Lemma simulates_c_sdsp a rs2 off :
  is64 = true -> Supports a RV_C = true -> is_reg rs2 -> is_s 64 off ->
  IsCSPStore8Imm off = true ->
  simulates a (Asm.c_sdsp rs2 (mkAddress Reg.SP off))
    (stores uint64_t rs2 (mkAddress Reg.SP off)).
Proof.
  intros H64%is32_false. intros. unfold Asm.c_sdsp. simpl base. simpl offset.
  compressed i (decode_c_sdsp rs2 off). unfold InterpretC_FSWSP_SDSP. cbv zeta. eqbs.
  by fields i.
Qed.

Lemma simulates_c_sd a rs2 addr :
  is64 = true -> Supports a RV_C = true -> IsRegPrimeField rs2 = true ->
  IsRegPrimeField (base addr) = true -> is_s 64 (offset addr) ->
  IsCMem8Imm (offset addr) = true ->
  simulates a (Asm.c_sd rs2 addr) (stores uint64_t rs2 addr).
Proof.
  intros H64%is32_false. intros. unfold Asm.c_sd.
  compressed i (decode_c_sd (base addr) rs2 (offset addr)).
  unfold InterpretC_FSW_SD. cbv zeta. eqbs. by fields i.
Qed.

Lemma simulates_ld a rd addr :
  is64 = true -> Supports a RV_I = true -> is_reg rd -> is_reg (base addr) ->
  is_s 64 (offset addr) -> IsITypeImm (offset addr) = true ->
  simulates a (Asm.ld rd addr) (loads int64_t rd addr).
Proof.
  intros. unfold Asm.ld. choose; [| |wide i simulates_IType].
  - destruct addr as [r off]; simpl in *; subst r. by apply simulates_c_ldsp.
  - by apply simulates_c_ld.
Qed.

Lemma simulates_sd a rs2 addr :
  is64 = true -> Supports a RV_I = true -> is_reg rs2 -> is_reg (base addr) ->
  is_s 64 (offset addr) -> IsSTypeImm (offset addr) = true ->
  simulates a (Asm.sd rs2 addr) (stores uint64_t rs2 addr).
Proof.
  intros. unfold Asm.sd. choose; [| |wide i simulates_SType].
  - destruct addr as [r off]; simpl in *; subst r. by apply simulates_c_sdsp.
  - by apply simulates_c_sd.
Qed.

(** On 64-bit targets, [lwu] and [ld] load zero-extended words and double words and
    [sd] stores double words, in both encodings. *)
Theorem asm_load_store_64 a r addr :
  is64 = true -> Supports a RV_I = true -> is_reg r -> is_reg (base addr) ->
  is_s 64 (offset addr) -> IsITypeImm (offset addr) = true ->
  simulates a (Asm.lwu r addr) (loads uint32_t r addr) /\
  simulates a (Asm.ld r addr) (loads int64_t r addr) /\
  simulates a (Asm.sd r addr) (stores uint64_t r addr).
Proof.
  intros. split_and!; [|by apply simulates_ld|by apply simulates_sd].
  unfold Asm.lwu. asserts. wide i simulates_IType.
Qed.

(** ** Word operations *)

(** The low words of two registers combined, sign-extended. *)
Definition wordop (f : Z -> Z -> Z) (rs1 rs2 : Z) (s : Simulator) : Z :=
  sign_extend_u32 (u32 (f (u32 (get_xreg s rs1)) (u32 (get_xreg s rs2)))).

Lemma simulates_c_addw a rd rs2 :
  Supports a RV_C = true -> IsRegPrimeField rd = true -> IsRegPrimeField rs2 = true ->
  simulates a (Asm.c_addw rd rd rs2) (sets rd (wordop Z.add rd rs2)).
Proof. intros. unfold Asm.c_addw. rr i (decode_c_addw rd rs2). Qed.

Lemma simulates_c_subw a rd rs2 :
  Supports a RV_C = true -> IsRegPrimeField rd = true -> IsRegPrimeField rs2 = true ->
  simulates a (Asm.c_subw rd rd rs2) (sets rd (wordop Z.sub rd rs2)).
Proof. intros. unfold Asm.c_subw. rr i (decode_c_subw rd rs2). Qed.

Lemma simulates_c_addiw a rd imm :
  is64 = true -> Supports a RV_C = true -> is_reg rd -> is_s 64 imm -> IsCIImm imm = true ->
  simulates a (Asm.c_addiw rd rd imm)
    (sets rd (fun s => sign_extend_u32 (u32 (u32 (get_xreg s rd) + u32 imm)))).
Proof.
  intros H64. intros. assert (is32 = false) by by apply is32_false.
  unfold Asm.c_addiw. compressed i (decode_c_addiw rd imm).
  unfold InterpretC_ADDIW. cbv zeta. by fields i.
Qed.

Lemma simulates_addiw a rd rs1 imm :
  is64 = true -> Supports a RV_I = true -> is_reg rd -> is_reg rs1 -> is_s 64 imm ->
  IsITypeImm imm = true ->
  simulates a (Asm.addiw rd rs1 imm)
    (sets rd (fun s => sign_extend_u32 (u32 (u32 (get_xreg s rs1) + u32 imm)))).
Proof.
  intros. unfold Asm.addiw. choose; [|by apply simulates_c_addiw|wide i simulates_IType].
  unfold Asm.c_li. compressed i (decode_c_li rd imm).
  unfold InterpretC_LI. fields i. destruct (Z.eqb_spec rd Reg.ZR); [done|].
  assert (is_s 32 imm).
  { destruct (is_imm_s 6 0 imm) as [[? ?] _]; [lia..|done|done|]. unfold is_s in *. lia. }
  apply (sets_congr rd (fun _ => sx imm)). rewrite ux_sx, get_xreg_ZR by done.
  unfold sign_extend_u32, ux, u32. rewrite wrapu_wraps, wraps_wrapu. f_equal.
  change (wrapu 32 0) with 0. rewrite Z.add_0_l, wraps_wrapu. by rewrite wraps_id.
Qed.

Lemma shl32_ok x n : (n <? 32) = true -> shl32 x n = Ok (u32 (x << n)).
Proof. unfold shl32. by intros ->. Qed.

Lemma shr32_ok x n : (n <? 32) = true -> shr32 x n = Ok (x >> n).
Proof. unfold shr32. by intros ->. Qed.

(** The low five bits of a register are a shift amount for words. *)
Lemma word_shamt x : (x .& (32 - 1) <? 32) = true.
Proof.
  change (32 - 1) with (Z.ones 5). rewrite Z.land_ones by lia. apply Z.ltb_lt.
  pose proof (Z.mod_pos_bound x (2 ^ 5)). lia.
Qed.

Lemma shamt_small n : 0 < n < 32 -> n >> 5 = 0 /\ (n <? 32) = true.
Proof.
  intros Hn. split; [|lia]. rewrite Z.shiftr_div_pow2 by lia. apply Z.div_small. lia.
Qed.

(** Shifts of words: the amount is in range, so that the shift is defined. *)
Ltac word_shift :=
  rewrite ?(shl32_ok _ _ (word_shamt _)), ?(shr32_ok _ _ (word_shamt _)); done.

Lemma simulates_wshift a f7 rs1 f3 rd shamt f :
  funct_ok 7 f7 = true -> Z.testbit f7 0 = false -> funct_ok 3 f3 = true ->
  is64 = true -> is_reg rd -> is_reg rs1 -> 0 < shamt < 32 ->
  (forall e s, wf s -> Instr.rd e = rd -> Instr.funct3 e = f3 -> Instr.rs1 e = rs1 ->
     Instr.shamt e = shamt -> Instr.funct7 e = f7 -> InterpretOPIMM32 e s = f 4 s) ->
  simulates a (Asm.EmitRType_shamt f7 shamt rs1 f3 rd Opcode.OPIMM32) f.
Proof.
  intros ? ? ? H64 ? ? Hs Hf. destruct (shamt_small shamt Hs) as [E5 _].
  assert (0 <= shamt < XLEN).
  { unfold XLEN. unfold is64 in H64. destruct target; [done|lia]. }
  apply simulates_ShamtType; [done..|]. intros e s Hw Eo Erd E3 E1 Esh E7 _.
  unfold Interpret. cbv zeta. fields e. eqbs. apply Hf; try done.
  by rewrite E7, E5, Z.lor_0_r.
Qed.

(** The 64-bit-only word instructions work on the low words of their operands and
    sign-extend the result. *)
Theorem asm_words a rd rs1 rs2 imm shamt :
  is64 = true -> Supports a RV_I = true -> is_reg rd -> is_reg rs1 -> is_reg rs2 ->
  is_s 64 imm -> IsITypeImm imm = true -> 0 < shamt < 32 ->
  simulates a (Asm.addiw rd rs1 imm)
    (sets rd (fun s => sign_extend_u32 (u32 (u32 (get_xreg s rs1) + u32 imm)))) /\
  simulates a (Asm.addw rd rs1 rs2) (sets rd (wordop Z.add rs1 rs2)) /\
  simulates a (Asm.subw rd rs1 rs2) (sets rd (wordop Z.sub rs1 rs2)) /\
  simulates a (Asm.slliw rd rs1 shamt)
    (sets rd (fun s => sign_extend_u32 (u32 (u32 (get_xreg s rs1) << shamt)))) /\
  simulates a (Asm.srliw rd rs1 shamt)
    (sets rd (fun s => sign_extend_u32 (u32 (get_xreg s rs1) >> shamt))) /\
  simulates a (Asm.sraiw rd rs1 shamt)
    (sets rd (fun s => sign_extend_i32 (wraps 32 (get_xreg s rs1) >> shamt))) /\
  simulates a (Asm.sllw rd rs1 rs2)
    (sets rd (fun s =>
       sign_extend_u32 (u32 (u32 (get_xreg s rs1) << (get_xreg s rs2 .& (32 - 1)))))) /\
  simulates a (Asm.srlw rd rs1 rs2)
    (sets rd (fun s =>
       sign_extend_u32 (u32 (get_xreg s rs1) >> (get_xreg s rs2 .& (32 - 1))))) /\
  simulates a (Asm.sraw rd rs1 rs2)
    (sets rd (fun s =>
       sign_extend_i32 (wraps 32 (get_xreg s rs1) >> (get_xreg s rs2 .& (32 - 1))))).
Proof.
  intros H64 ? ? ? ? ? ? Hs. destruct (shamt_small shamt Hs) as [_ E32].
  assert (shamt < XLEN).
  { unfold XLEN. unfold is64 in H64. destruct target; [done|lia]. }
  split_and!; [by apply simulates_addiw|..].
  - unfold Asm.addw. choose; [by apply simulates_c_addw| |wide i simulates_RType].
    eapply simulates_comm; [|by apply simulates_c_addw]. intros s. unfold wordop.
    by rewrite Z.add_comm.
  - unfold Asm.subw. choose; [by apply simulates_c_subw|wide i simulates_RType].
  - unfold Asm.slliw. asserts. apply simulates_wshift; [done..|]. intros i s Hw; intros.
    unfold InterpretOPIMM32, retire, X1. cbv zeta. fields i. eqbs. by rewrite shl32_ok.
  - unfold Asm.srliw. asserts. apply simulates_wshift; [done..|]. intros i s Hw; intros.
    unfold InterpretOPIMM32, retire, X1. cbv zeta. fields i. eqbs. by rewrite shr32_ok.
  - unfold Asm.sraiw. asserts. apply simulates_wshift; [done..|]. intros i s Hw; intros.
    unfold InterpretOPIMM32, retire, X1. cbv zeta. fields i. eqbs. by rewrite shr32_ok.
  - unfold Asm.sllw. asserts. wide i simulates_RType. word_shift.
  - unfold Asm.srlw. asserts. wide i simulates_RType. word_shift.
  - unfold Asm.sraw. asserts. wide i simulates_RType. word_shift.
Qed.

(** ** Multiplication and division *)

(** The instructions of the M extension compute the simulator's products, quotients
    and remainders of their operands ([mul_words] and [division_spec] say what these
    are). *)
Theorem asm_muldiv a rd rs1 rs2 :
  Supports a RV_M = true -> is_reg rd -> is_reg rs1 -> is_reg rs2 ->
  let x s := get_xreg s rs1 in
  let y s := get_xreg s rs2 in
  simulates a (Asm.mul rd rs1 rs2) (sets rd (fun s => mul (sx (x s)) (sx (y s)))) /\
  simulates a (Asm.mulh rd rs1 rs2) (sets rd (fun s => mulh (sx (x s)) (sx (y s)))) /\
  simulates a (Asm.mulhsu rd rs1 rs2) (sets rd (fun s => mulhsu (sx (x s)) (y s))) /\
  simulates a (Asm.mulhu rd rs1 rs2) (sets rd (fun s => mulhu (x s) (y s))) /\
  simulates a (Asm.div rd rs1 rs2) (sets rd (fun s => div (sx (x s)) (sx (y s)))) /\
  simulates a (Asm.divu rd rs1 rs2) (sets rd (fun s => divu (x s) (y s))) /\
  simulates a (Asm.rem rd rs1 rs2) (sets rd (fun s => rem (sx (x s)) (sx (y s)))) /\
  simulates a (Asm.remu rd rs1 rs2) (sets rd (fun s => remu (x s) (y s))).
Proof.
  intros. split_and!.
  - unfold Asm.mul. asserts. wide i simulates_RType.
  - unfold Asm.mulh. asserts. wide i simulates_RType.
  - unfold Asm.mulhsu. asserts. wide i simulates_RType.
  - unfold Asm.mulhu. asserts. wide i simulates_RType.
  - unfold Asm.div. asserts. wide i simulates_RType.
  - unfold Asm.divu. asserts. wide i simulates_RType.
  - unfold Asm.rem. asserts. wide i simulates_RType.
  - unfold Asm.remu. asserts. wide i simulates_RType.
Qed.

(** The word instructions of the M extension, on 64-bit targets.  The signed product
    of words is computed in [int32_t]: [mulw] fails where it overflows. *)
Theorem asm_muldiv_words a rd rs1 rs2 :
  is64 = true -> Supports a RV_M = true -> is_reg rd -> is_reg rs1 -> is_reg rs2 ->
  let x s := wraps 32 (get_xreg s rs1) in
  let y s := wraps 32 (get_xreg s rs2) in
  let ux s := u32 (get_xreg s rs1) in
  let uy s := u32 (get_xreg s rs2) in
  simulates a (Asm.mulw rd rs1 rs2)
    (setsM rd (fun s => v ← mulw (x s) (y s); Ok (sign_extend_i32 v))) /\
  simulates a (Asm.divw rd rs1 rs2) (sets rd (fun s => sign_extend_i32 (divw (x s) (y s)))) /\
  simulates a (Asm.divuw rd rs1 rs2)
    (sets rd (fun s => sign_extend_u32 (divuw (ux s) (uy s)))) /\
  simulates a (Asm.remw rd rs1 rs2) (sets rd (fun s => sign_extend_i32 (remw (x s) (y s)))) /\
  simulates a (Asm.remuw rd rs1 rs2)
    (sets rd (fun s => sign_extend_u32 (remuw (ux s) (uy s)))).
Proof.
  intros. split_and!.
  - unfold Asm.mulw. asserts. wide i simulates_RType. unfold setsM. by destruct (mulw _ _).
  - unfold Asm.divw. asserts. wide i simulates_RType.
  - unfold Asm.divuw. asserts. wide i simulates_RType.
  - unfold Asm.remw. asserts. wide i simulates_RType.
  - unfold Asm.remuw. asserts. wide i simulates_RType.
Qed.

(** ** Bit manipulation *)

(** A small shift amount is encoded where [rs2] is. *)
Lemma shamt_as_rs2 a f7 n rs1 f3 rd op f :
  0 <= n < 32 -> simulates a (Asm.EmitRType f7 n rs1 f3 rd op) f ->
  simulates a (Asm.EmitRType_shamt f7 n rs1 f3 rd op) f.
Proof.
  intros Hn. unfold Asm.EmitRType, Asm.EmitRType_shamt, simulates, andThen.
  rewrite IsShamt by (unfold XLEN; destruct target; lia).
  by rewrite (IsRegField_reg n Hn).
Qed.

(** The address and logic instructions of Zba and Zbb. *)
Theorem asm_zba_logic a rd rs1 rs2 :
  Supports a RV_Zba = true -> Supports a RV_Zbb = true ->
  is_reg rd -> is_reg rs1 -> is_reg rs2 ->
  let x s := get_xreg s rs1 in
  let y s := get_xreg s rs2 in
  simulates a (Asm.sh1add rd rs1 rs2) (sets rd (fun s => ux (x s << 1) + y s)) /\
  simulates a (Asm.sh2add rd rs1 rs2) (sets rd (fun s => ux (x s << 2) + y s)) /\
  simulates a (Asm.sh3add rd rs1 rs2) (sets rd (fun s => ux (x s << 3) + y s)) /\
  simulates a (Asm.andn rd rs1 rs2) (sets rd (fun s => x s .& ux (Z.lnot (y s)))) /\
  simulates a (Asm.orn rd rs1 rs2) (sets rd (fun s => x s .| ux (Z.lnot (y s)))) /\
  simulates a (Asm.xnor rd rs1 rs2) (sets rd (fun s => x s .^ ux (Z.lnot (y s)))) /\
  simulates a (Asm.max rd rs1 rs2) (sets rd (fun s => max (sx (x s)) (sx (y s)))) /\
  simulates a (Asm.maxu rd rs1 rs2) (sets rd (fun s => maxu (x s) (y s))) /\
  simulates a (Asm.min rd rs1 rs2) (sets rd (fun s => min (sx (x s)) (sx (y s)))) /\
  simulates a (Asm.minu rd rs1 rs2) (sets rd (fun s => minu (x s) (y s))) /\
  simulates a (Asm.rol rd rs1 rs2) (sets rd (fun s => rol (x s) (y s))) /\
  simulates a (Asm.ror rd rs1 rs2) (sets rd (fun s => ror (x s) (y s))).
Proof.
  intros. split_and!.
  - unfold Asm.sh1add. asserts. wide i simulates_RType.
  - unfold Asm.sh2add. asserts. wide i simulates_RType.
  - unfold Asm.sh3add. asserts. wide i simulates_RType.
  - unfold Asm.andn. asserts. wide i simulates_RType.
  - unfold Asm.orn. asserts. wide i simulates_RType.
  - unfold Asm.xnor. asserts. wide i simulates_RType.
  - unfold Asm.max. asserts. wide i simulates_RType.
  - unfold Asm.maxu. asserts. wide i simulates_RType.
  - unfold Asm.min. asserts. wide i simulates_RType.
  - unfold Asm.minu. asserts. wide i simulates_RType.
  - unfold Asm.rol. asserts. wide i simulates_RType.
  - unfold Asm.ror. asserts. wide i simulates_RType.
Qed.

(** The unary instructions of Zbb and the rotation by a constant. *)
Theorem asm_zbb_unary a rd rs1 shamt :
  Supports a RV_Zbb = true -> is_reg rd -> is_reg rs1 -> 0 <= shamt < XLEN ->
  let x s := get_xreg s rs1 in
  simulates a (Asm.clz rd rs1) (sets rd (fun s => clz (x s))) /\
  simulates a (Asm.ctz rd rs1) (sets rd (fun s => ctz (x s))) /\
  simulates a (Asm.cpop rd rs1) (sets rd (fun s => cpop (x s))) /\
  simulates a (Asm.sextb rd rs1) (sets rd (fun s => sextb (x s))) /\
  simulates a (Asm.sexth rd rs1) (sets rd (fun s => sexth (x s))) /\
  simulates a (Asm.zexth rd rs1) (sets rd (fun s => zexth (x s))) /\
  simulates a (Asm.orcb rd rs1) (sets rd (fun s => orcb (x s))) /\
  simulates a (Asm.rev8 rd rs1) (sets rd (fun s => rev8 (x s))) /\
  simulates a (Asm.rori rd rs1 shamt) (sets rd (fun s => ror (x s) shamt)).
Proof.
  intros. split_and!.
  - unfold Asm.clz. asserts. wide i simulates_ShamtType.
  - unfold Asm.ctz. asserts. wide i simulates_ShamtType.
  - unfold Asm.cpop. asserts. wide i simulates_ShamtType.
  - unfold Asm.sextb. asserts. wide i simulates_ShamtType.
  - unfold Asm.sexth. asserts. wide i simulates_ShamtType.
  - unfold Asm.zexth. asserts. destruct is32 eqn:E32; apply shamt_as_rs2; try done;
      [wide i simulates_RType|].
    assert (is64 = true) by (unfold is32, is64 in *; by destruct target).
    wide i simulates_RType.
  - unfold Asm.orcb. asserts. wide i simulates_ShamtType.
  - unfold Asm.rev8. asserts. destruct is32 eqn:E32; apply shamt_as_rs2; try done.
    + wide i simulates_RType. rewrite E32. eqbs. done.
    + wide i simulates_RType. rewrite E32. eqbs. done.
  - unfold Asm.rori. asserts. wide i simulates_ShamtType.
Qed.

(** The carry-less products of Zbc and the single-bit instructions of Zbs, with a
    register or a constant as the bit index. *)
Theorem asm_zbc_zbs a rd rs1 rs2 shamt :
  Supports a RV_Zbc = true -> Supports a RV_Zbs = true ->
  is_reg rd -> is_reg rs1 -> is_reg rs2 -> 0 <= shamt < XLEN ->
  let x s := get_xreg s rs1 in
  let y s := get_xreg s rs2 in
  simulates a (Asm.clmul rd rs1 rs2) (sets rd (fun s => clmul (x s) (y s))) /\
  simulates a (Asm.clmulh rd rs1 rs2) (sets rd (fun s => clmulh (x s) (y s))) /\
  simulates a (Asm.clmulr rd rs1 rs2) (sets rd (fun s => clmulr (x s) (y s))) /\
  simulates a (Asm.bclr rd rs1 rs2) (sets rd (fun s => bclr (x s) (y s))) /\
  simulates a (Asm.bext rd rs1 rs2) (sets rd (fun s => bext (x s) (y s))) /\
  simulates a (Asm.binv rd rs1 rs2) (sets rd (fun s => binv (x s) (y s))) /\
  simulates a (Asm.bset rd rs1 rs2) (sets rd (fun s => bset (x s) (y s))) /\
  simulates a (Asm.bclri rd rs1 shamt) (sets rd (fun s => bclr (x s) shamt)) /\
  simulates a (Asm.bexti rd rs1 shamt) (sets rd (fun s => bext (x s) shamt)) /\
  simulates a (Asm.binvi rd rs1 shamt) (sets rd (fun s => binv (x s) shamt)) /\
  simulates a (Asm.bseti rd rs1 shamt) (sets rd (fun s => bset (x s) shamt)).
Proof.
  intros ? ? ? ? ? Hs. destruct (shamt_funct7 shamt Hs) as [E|E]; split_and!.
  all: unfold Asm.clmul, Asm.clmulh, Asm.clmulr, Asm.bclr, Asm.bext, Asm.binv, Asm.bset,
    Asm.bclri, Asm.bexti, Asm.binvi, Asm.bseti.
  all: asserts; first [by wide i simulates_RType | wide i simulates_ShamtType].
  all: rewrite E; destruct is32; eqbs; done.
Qed.

End extensions.

(** ** Witnesses *)

#[local] Existing Instances demo_target demo_debug demo_fpu demo_host.

Ltac concrete := first [done | by vm_compute | by split | (vm_compute; split; congruence)].

Lemma asm_load_store_64_witness :
  simulates demo_assembler (Asm.ld Reg.A0 (mkAddress Reg.SP 8))
    (loads int64_t Reg.A0 (mkAddress Reg.SP 8)).
Proof.
  destruct (asm_load_store_64 demo_assembler Reg.A0 (mkAddress Reg.SP 8)) as (_ & W & _);
    [concrete..|exact W].
Defined.

Lemma asm_words_witness :
  simulates demo_assembler (Asm.addw Reg.A0 Reg.A0 Reg.A1)
    (sets Reg.A0 (wordop Z.add Reg.A0 Reg.A1)).
Proof.
  destruct (asm_words demo_assembler Reg.A0 Reg.A0 Reg.A1 1 3) as (_ & W & _);
    [concrete..|exact W].
Defined.

Lemma asm_muldiv_witness :
  simulates demo_assembler (Asm.mulhu Reg.A0 Reg.A1 Reg.A2)
    (sets Reg.A0 (fun s => mulhu (get_xreg s Reg.A1) (get_xreg s Reg.A2))).
Proof.
  destruct (asm_muldiv demo_assembler Reg.A0 Reg.A1 Reg.A2) as (_ & _ & _ & W & _);
    [concrete..|exact W].
Defined.

Lemma asm_muldiv_words_witness :
  simulates demo_assembler (Asm.divuw Reg.A0 Reg.A1 Reg.A2)
    (sets Reg.A0 (fun s =>
       sign_extend_u32 (divuw (u32 (get_xreg s Reg.A1)) (u32 (get_xreg s Reg.A2))))).
Proof.
  destruct (asm_muldiv_words demo_assembler Reg.A0 Reg.A1 Reg.A2) as (_ & _ & W & _);
    [concrete..|exact W].
Defined.

Lemma asm_zba_logic_witness :
  simulates demo_assembler (Asm.rol Reg.A0 Reg.A1 Reg.A2)
    (sets Reg.A0 (fun s => rol (get_xreg s Reg.A1) (get_xreg s Reg.A2))).
Proof.
  destruct (asm_zba_logic demo_assembler Reg.A0 Reg.A1 Reg.A2) as (_ & _ & _ & _ & _ & _ & _ & _ & _ & _ & W & _);
    [concrete..|exact W].
Defined.

Lemma asm_zbb_unary_witness :
  simulates demo_assembler (Asm.clz Reg.A0 Reg.A1)
    (sets Reg.A0 (fun s => clz (get_xreg s Reg.A1))).
Proof.
  destruct (asm_zbb_unary demo_assembler Reg.A0 Reg.A1 3) as (W & _);
    [concrete..|exact W].
Defined.

Lemma asm_zbc_zbs_witness :
  simulates demo_assembler (Asm.bseti Reg.A0 Reg.A1 63)
    (sets Reg.A0 (fun s => bset (get_xreg s Reg.A1) 63)).
Proof.
  destruct (asm_zbc_zbs demo_assembler Reg.A0 Reg.A1 Reg.A2 63) as (_ & _ & _ & _ & _ & _ & _ & _ & _ & _ & W);
    [concrete..|exact W].
Defined.
