(* ===== verification/RiscvAsmProgram.v ===== *)
(** Programs: assembling a function of straight-line code and running it in the
    simulator until it returns. *)
From stdpp Require Import base numbers list gmap.
From Stdlib Require Import ZArith Lia.
From S2P Require Import Prelude Utils Random RiscvEncoding RiscvEncodingProps RiscvState RiscvAlu RiscvFloat RiscvInterp RiscvCompressed RiscvInvariant RiscvStateProps RiscvExec RiscvAssembler RiscvDecode RiscvAsmSim RiscvAsmSimI RiscvAsmSimX.
Local Open Scope Z_scope.
Local Open Scope cxx_scope.

(** ** Instructions *)

Inductive op_imm := ADDI | SLTI | SLTIU | XORI | ORI | ANDI.
Inductive op_shift := SLLI | SRLI | SRAI.
Inductive op_reg :=
| ADD | SUB | AND | OR | XOR | SLL | SRL | SRA | SLT | SLTU
| MUL | MULH | MULHSU | MULHU | DIV | DIVU | REM | REMU.
Inductive op_load := LB | LBU | LH | LHU | LW | LWU | LD.
Inductive op_store := SB | SH | SW | SD.

Inductive instruction :=
| OpImm (o : op_imm) (rd rs1 imm : Z)
| OpShift (o : op_shift) (rd rs1 shamt : Z)
| Op (o : op_reg) (rd rs1 rs2 : Z)
| Lui (rd imm : Z)
| Load (o : op_load) (rd : Z) (addr : Address)
| Store (o : op_store) (rs2 : Z) (addr : Address).

Definition load_type (o : op_load) : ctype :=
  match o with
  | LB => int8_t | LBU => uint8_t | LH => int16_t | LHU => uint16_t
  | LW => int32_t | LWU => uint32_t | LD => int64_t
  end.

Definition store_type (o : op_store) : ctype :=
  match o with SB => uint8_t | SH => uint16_t | SW => uint32_t | SD => uint64_t end.

Definition is_muldiv (o : op_reg) : bool :=
  match o with
  | MUL | MULH | MULHSU | MULHU | DIV | DIVU | REM | REMU => true
  | _ => false
  end.

Section program.
Context `{Target} `{Debug} `{HostFPU} `{Host}.

(** The method of the assembler for an instruction. *)
Definition emit (i : instruction) : emitter :=
  match i with
  | OpImm o rd rs1 imm =>
      match o with
      | ADDI => Asm.addi | SLTI => Asm.slti | SLTIU => Asm.sltiu
      | XORI => Asm.xori | ORI => Asm.ori | ANDI => Asm.andi
      end rd rs1 imm
  | OpShift o rd rs1 shamt =>
      match o with SLLI => Asm.slli | SRLI => Asm.srli | SRAI => Asm.srai end rd rs1 shamt
  | Op o rd rs1 rs2 =>
      match o with
      | ADD => Asm.add | SUB => Asm.sub | AND => Asm.and_ | OR => Asm.or_ | XOR => Asm.xor_
      | SLL => Asm.sll | SRL => Asm.srl | SRA => Asm.sra | SLT => Asm.slt | SLTU => Asm.sltu
      | MUL => Asm.mul | MULH => Asm.mulh | MULHSU => Asm.mulhsu | MULHU => Asm.mulhu
      | DIV => Asm.div | DIVU => Asm.divu | REM => Asm.rem | REMU => Asm.remu
      end rd rs1 rs2
  | Lui rd imm => Asm.lui rd imm
  | Load o rd addr =>
      match o with
      | LB => Asm.lb | LBU => Asm.lbu | LH => Asm.lh | LHU => Asm.lhu
      | LW => Asm.lw | LWU => Asm.lwu | LD => Asm.ld
      end rd addr
  | Store o rs2 addr =>
      match o with SB => Asm.sb | SH => Asm.sh | SW => Asm.sw | SD => Asm.sd end rs2 addr
  end.

(** ** What an instruction means *)

(** Operations on the values of registers, [uintx_t]. *)
Definition eval_imm (o : op_imm) (x imm : Z) : Z :=
  match o with
  | ADDI => x + imm
  | SLTI => if sx x <? sx imm then 1 else 0
  | SLTIU => if x <? ux imm then 1 else 0
  | XORI => x .^ ux imm
  | ORI => x .| ux imm
  | ANDI => x .& ux imm
  end.

Definition eval_shift (o : op_shift) (x shamt : Z) : Z :=
  match o with SLLI => x << shamt | SRLI => x >> shamt | SRAI => sx x >> shamt end.

Definition eval_reg (o : op_reg) (x y : Z) : Z :=
  match o with
  | ADD => x + y
  | SUB => x - y
  | AND => x .& y
  | OR => x .| y
  | XOR => x .^ y
  | SLL => x << (y .& (XLEN - 1))
  | SRL => x >> (y .& (XLEN - 1))
  | SRA => sx x >> (y .& (XLEN - 1))
  | SLT => if sx x <? sx y then 1 else 0
  | SLTU => if x <? y then 1 else 0
  | MUL => mul (sx x) (sx y)
  | MULH => mulh (sx x) (sx y)
  | MULHSU => mulhsu (sx x) y
  | MULHU => mulhu x y
  | DIV => div (sx x) (sx y)
  | DIVU => divu x y
  | REM => rem (sx x) (sx y)
  | REMU => remu x y
  end.

(** The registers and the memory after an instruction: no code, no program counter. *)
Definition sem (i : instruction) (s : Simulator) : result Simulator :=
  match i with
  | OpImm o rd rs1 imm => Ok (set_xreg s rd (eval_imm o (get_xreg s rs1) imm))
  | OpShift o rd rs1 shamt => Ok (set_xreg s rd (eval_shift o (get_xreg s rs1) shamt))
  | Op o rd rs1 rs2 => Ok (set_xreg s rd (eval_reg o (get_xreg s rs1) (get_xreg s rs2)))
  | Lui rd imm => Ok (set_xreg s rd (sign_extend_i64 imm))
  | Load o rd addr =>
      v ← MemoryRead (load_type o) s (addressOf addr s) (base addr); Ok (set_xreg s rd v)
  | Store o rs2 addr =>
      MemoryWrite (store_type o) s (addressOf addr s) (get_xreg s rs2) (base addr)
  end.

Fixpoint sem_all (p : list instruction) (s : Simulator) : result Simulator :=
  match p with
  | [] => Ok s
  | i :: p => s ← sem i s; sem_all p s
  end.

(** What the assembler accepts: registers, immediates in range, the extensions; with
    compression not [add] to itself of the zero register ([add_compressed_assertion]) and
    not [lui] of zero ([lui_zero_illegal]); the 64-bit accesses on 64-bit targets. *)
Definition encodable (a : MicroAssembler) (i : instruction) : Prop :=
  match i with
  | OpImm _ rd rs1 imm =>
      Supports a RV_I = true /\ is_reg rd /\ is_reg rs1 /\ is_s 64 imm /\ IsITypeImm imm = true
  | OpShift _ rd rs1 shamt =>
      Supports a RV_I = true /\ is_reg rd /\ is_reg rs1 /\ 0 < shamt < XLEN
  | Op o rd rs1 rs2 =>
      Supports a (if is_muldiv o then RV_M else RV_I) = true /\
      is_reg rd /\ is_reg rs1 /\ is_reg rs2 /\ (o = ADD -> add_ok a rd rs1 rs2)
  | Lui rd imm =>
      Supports a RV_I = true /\ is_reg rd /\ is_s 64 imm /\ IsUTypeImm imm = true /\
      lui_ok a rd imm
  | Load o r addr =>
      Supports a RV_I = true /\ is_reg r /\ is_reg (base addr) /\ is_s 64 (offset addr) /\
      IsITypeImm (offset addr) = true /\ (o = LWU \/ o = LD -> is64 = true)
  | Store o r addr =>
      Supports a RV_I = true /\ is_reg r /\ is_reg (base addr) /\ is_s 64 (offset addr) /\
      IsSTypeImm (offset addr) = true /\ (o = SD -> is64 = true)
  end.

(** While [p] runs from [s], no store touches the addresses from [lo] up to [hi]. *)
Fixpoint avoids (lo hi : Z) (p : list instruction) (s : Simulator) : Prop :=
  match p with
  | [] => True
  | i :: p =>
      match i with
      | Store o _ addr =>
          addressOf addr s + sizeof (store_type o) <= lo \/ hi <= addressOf addr s
      | _ => True
      end /\
      match sem i s with Ok s => avoids lo hi p s | _ => True end
  end.

(** The assembled function: the instructions and a return. *)
Definition emit_function (p : list instruction) : emitter :=
  foldr (fun i e => emit i ;;; e) Asm.ret p.

(** [n] instructions of together [len] bytes have been executed. *)
Definition advanced (len : Z) (n : nat) (s : Simulator) : Simulator :=
  with_instret (with_pc s (ux (pc_ s + len))) (wrapu 64 (instret_ s + Z.of_nat n)).

(** The function has returned after [n] instructions. *)
Definition returned (n : nat) (s : Simulator) : Simulator :=
  with_instret (with_pc s kEndSimulatingPC) (wrapu 64 (instret_ s + Z.of_nat n)).

Lemma returned_advanced len n s : returned n (advanced len 1 s) = returned (S n) s.
Proof.
  unfold returned, advanced, with_instret, with_pc. cbn. f_equal.
  rewrite wrapu_add_l. f_equal. lia.
Qed.

(** ** Single instructions *)

(** Every instruction of the assembler does in the simulator what it means. *)
Lemma simulates_instruction a i :
  encodable a i ->
  simulates a (emit i) (fun len s => s' ← sem i s; Ok (add_pc s' len)).
Proof.
  destruct i as [o rd rs1 imm|o rd rs1 sh|o rd rs1 rs2|rd imm|o rd addr|o rs2 addr];
    cbn [encodable].
  - intros (? & ? & ? & ? & ?). destruct o; eauto using simulates_addi, simulates_slti,
      simulates_sltiu, simulates_xori, simulates_ori, simulates_andi.
  - intros (? & ? & ? & ?). destruct o; eauto using simulates_slli, simulates_srli, simulates_srai.
  - intros (HS & ? & ? & ? & Hadd). destruct (is_muldiv o) eqn:E.
    + destruct (asm_muldiv a rd rs1 rs2 HS) as (?&?&?&?&?&?&?&?); [done..|]. by destruct o.
    + destruct o; try done; eauto using simulates_add, simulates_sub, simulates_and, simulates_or,
        simulates_xor, simulates_sll, simulates_srl, simulates_sra, simulates_slt, simulates_sltu.
  - intros (? & ? & ? & ? & ?). by apply simulates_lui.
  - intros (? & ? & ? & ? & ? & H64).
    eapply (simulates_ext _ _ (loads (load_type o) rd addr)).
    { intros len s. unfold loads, setsM. cbn [sem]. by destruct (MemoryRead _ _ _ _). }
    destruct o; [by apply simulates_lb|by apply simulates_lbu|by apply simulates_lh
      |by apply simulates_lhu|by apply simulates_lw|..];
      (destruct (asm_load_store_64 a rd addr) as (?&?&?); [by auto|done..]).
  - intros (? & ? & ? & ? & ? & H64). destruct o;
      [by apply simulates_sb|by apply simulates_sh|by apply simulates_sw|].
    apply simulates_sd; auto.
Qed.

Lemma memory_set_xreg s rd v : memory (set_xreg s rd v) = memory s.
Proof. unfold set_xreg. by destruct (negb _). Qed.

Lemma pc_set_xreg s rd v : pc_ (set_xreg s rd v) = pc_ s.
Proof. unfold set_xreg. by destruct (negb _). Qed.

Lemma instret_set_xreg s rd v : instret_ (set_xreg s rd v) = instret_ s.
Proof. unfold set_xreg. by destruct (negb _). Qed.

(** Registers or memory are all that an instruction changes. *)
Lemma sem_cases i s s' :
  sem i s = Ok s' ->
  (exists rd v, s' = set_xreg s rd v /\ forall a, encodable a i -> is_reg rd) \/
  (exists o rs2 addr m, i = Store o rs2 addr /\ s' = with_memory s m /\
     StoreUnaligned (store_type o) (memory s) (addressOf addr s)
       (convert (store_type o) (get_xreg s rs2)) = Ok m).
Proof.
  destruct i as [| | | |o rd addr|o rs2 addr]; cbn [sem encodable].
  1-4: intros [= <-]; left; eexists _, _; split; [done|]; tauto.
  - intros (v & _ & [= <-])%bind_ok. left. eexists _, _. split; [done|]. tauto.
  - unfold MemoryWrite. intros (_ & _ & (m & Em & [= <-])%bind_ok)%bind_ok.
    right. by exists o, rs2, addr, m.
Qed.

Lemma sem_frame a i s s' :
  encodable a i -> wf s -> sem i s = Ok s' ->
  wf s' /\ pc_ s' = pc_ s /\ instret_ s' = instret_ s.
Proof.
  intros He Hw E. destruct (sem_cases _ _ _ E) as
    [(rd & v & -> & Hrd)|(o & rs2 & addr & m & -> & -> & Em)].
  - split_and!; [|apply pc_set_xreg|apply instret_set_xreg].
    apply wf_set_xreg; [done|]. destruct (Hrd a He). lia.
  - split_and!; [|done..]. apply wf_with_memory; [done|]. by eapply StoreUnaligned_bytes.
Qed.

(** The code that is not written stays. *)
Lemma sem_keeps lo hi i p s s' :
  avoids lo hi (i :: p) s -> sem i s = Ok s' ->
  avoids lo hi p s' /\ forall x, lo <= x < hi -> memory s' !! x = memory s !! x.
Proof.
  cbn [avoids]. intros [Ha Hp] E. rewrite E in Hp. split; [done|]. intros x Hx.
  destruct (sem_cases _ _ _ E) as [(rd & v & -> & _)|(o & rs2 & addr & m & -> & -> & Em)].
  - by rewrite memory_set_xreg.
  - unfold StoreUnaligned in Em. cbn [memory with_memory].
    rewrite (store_bytes_lookup _ _ _ _ Em), decide_False; [done|].
    rewrite length_bytes_of_u. pose proof (sizeof_cases (store_type o)). lia.
Qed.

(** An instruction means the same wherever it stands. *)
Lemma set_xreg_advanced len n s rd v :
  set_xreg (advanced len n s) rd v = advanced len n (set_xreg s rd v).
Proof. unfold set_xreg. by destruct (negb _). Qed.

Lemma sem_advanced len n i s :
  sem i (advanced len n s) = s' ← sem i s; Ok (advanced len n s').
Proof.
  destruct i as [| | | |o rd addr|o rs2 addr]; cbn [sem].
  1-4: by rewrite set_xreg_advanced.
  - change (MemoryRead (load_type o) (advanced len n s) (addressOf addr (advanced len n s)) (base addr))
      with (MemoryRead (load_type o) s (addressOf addr s) (base addr)).
    destruct (MemoryRead _ _ _ _); cbn; [|done..]. by rewrite set_xreg_advanced.
  - unfold MemoryWrite.
    change (CheckAccess (advanced len n s)) with (CheckAccess s).
    change (addressOf addr (advanced len n s)) with (addressOf addr s).
    destruct (CheckAccess _ _ _ _); cbn; [|done..].
    change (get_xreg (advanced len n s) rs2) with (get_xreg s rs2).
    by destruct (StoreUnaligned _ _ _ _).
Qed.

Lemma sem_all_advanced len n p s :
  sem_all p (advanced len n s) = s' ← sem_all p s; Ok (advanced len n s').
Proof.
  revert s. induction p as [|i p IH]; intros s; [done|]. cbn [sem_all].
  rewrite sem_advanced. destruct (sem i s); cbn; [apply IH|done..].
Qed.

Lemma avoids_advanced lo hi len n p s :
  avoids lo hi p s -> avoids lo hi p (advanced len n s).
Proof.
  revert s. induction p as [|i p IH]; intros s; [done|]. cbn [avoids].
  rewrite sem_advanced. intros [Ha Hp]. split; [by destruct i|].
  destruct (sem i s); cbn; [by apply IH|done..].
Qed.

(** ** Running code *)

(** Code that follows. *)
Lemma code_at_app s bs rest :
  code_at s (bs ++ rest) ->
  code_at s bs /\
  load_bytes (memory s) (pc_ s + Z.of_nat (length bs)) (length rest) = Ok rest.
Proof.
  unfold code_at. intros E. split.
  - rewrite length_app in E. apply (load_bytes_prefix _ _ _ (length bs)) in E; [|lia].
    by rewrite take_app_length in E.
  - apply load_bytes_of_lookup. intros i Hi.
    pose proof (load_bytes_lookup _ _ _ _ E (length bs + i)%nat) as L.
    rewrite length_app, lookup_app_r in L by lia.
    replace (length bs + i - length bs)%nat with i in L by lia.
    rewrite <- L by lia. f_equal. lia.
Qed.

Lemma kEndSimulatingPC_range : 0 < kEndSimulatingPC < 2 ^ XLEN.
Proof. unfold kEndSimulatingPC, ux, XLEN. by destruct target. Qed.

Lemma pc_advance s len :
  wf s -> 0 <= len -> pc_ s + len < kEndSimulatingPC -> ux (pc_ s + len) = pc_ s + len.
Proof.
  intros Hw ? ?. destruct (wf_pc s Hw). pose proof kEndSimulatingPC_range.
  apply wrapu_id. unfold is_u. lia.
Qed.

(** The loop at an instruction. *)
Lemma loop_step a i (bs : list Z) fuel s :
  encodable a i -> wf s ->
  interpret_at s = (s' ← sem i s; Ok (add_pc s' (Z.of_nat (length bs)))) ->
  pc_ s < kEndSimulatingPC ->
  ExecuteNoTrace (S fuel) s =
    match sem i s with
    | Ok s' => ExecuteNoTrace fuel (advanced (Z.of_nat (length bs)) 1 s')
    | Fatal e => Some (Fatal e)
    | Undefined => Some Undefined
    end.
Proof.
  intros He Hw Hi Hp. cbn [ExecuteNoTrace]. destruct (Z.eqb_spec (pc_ s) kEndSimulatingPC); [lia|].
  rewrite execute_one_interpret, Hi. by destruct (sem i s).
Qed.

(** The loop at the return. *)
Lemma loop_return fuel bs s :
  wf s -> pc_ s < kEndSimulatingPC -> get_xreg s Reg.RA = kEndSimulatingPC ->
  interpret_at s = jumps Reg.ZR (fun s => ux (get_xreg s Reg.RA + ux 0)) bs s ->
  ExecuteNoTrace (S fuel) s = Some (Ok (returned 1 s)).
Proof.
  intros Hw Hp Hra Hi. cbn [ExecuteNoTrace].
  destruct (Z.eqb_spec (pc_ s) kEndSimulatingPC); [lia|].
  rewrite execute_one_interpret, Hi. unfold jumps. cbn [mbind outcome_bind].
  rewrite Hra. pose proof kEndSimulatingPC_range.
  assert (ux (kEndSimulatingPC + ux 0) = kEndSimulatingPC) as ->.
  { unfold ux. rewrite wrapu_add_r, Z.add_0_r. apply wrapu_id. unfold is_u. lia. }
  unfold returned, set_xreg. cbn [negb Z.eqb].
  destruct fuel; cbn [ExecuteNoTrace pc_ with_instret with_pc]; by rewrite Z.eqb_refl.
Qed.

(** A function is assembled and runs, in a region of memory that its stores avoid. *)
Lemma function_runs_in p a :
  Supports a RV_I = true -> Forall (encodable a) p ->
  exists bs, emit_function p a = emit_bytes bs a /\
    (2 * S (length p) <= length bs <= 4 * S (length p))%nat /\
    forall s lo hi, wf s -> code_at s bs ->
      lo <= pc_ s -> pc_ s + Z.of_nat (length bs) <= hi ->
      pc_ s + Z.of_nat (length bs) <= kEndSimulatingPC -> avoids lo hi p s ->
      (forall s', sem_all p s = Ok s' -> get_xreg s' Reg.RA = kEndSimulatingPC) ->
      ExecuteNoTrace (S (length p)) s = Some (s' ← sem_all p s; Ok (returned (S (length p)) s')).
Proof.
  intros HI Hp. revert a HI Hp. induction p as [|i p IH]; intros a HI Hp.
  - destruct (simulates_jalr a Reg.ZR Reg.RA 0 HI) as (bs & Ee & Hl & Hr); [done..|].
    exists bs. split_and!; [done|simpl; lia..|]. intros s lo hi Hw Hc _ _ He _ Hra.
    apply (loop_return 0 (Z.of_nat (length bs))); [done|lia|by apply Hra|by apply Hr].
  - inversion_clear Hp as [|? ? Hi Hp'].
    destruct (simulates_instruction a i Hi) as (b & Ee & Hl & Hr).
    destruct (IH (mkAssembler (buffer_ a ++ b) (extensions_ a) (far_branch_level_ a)))
      as (bs & Ees & Hls & Hrs); [done..|].
    exists (b ++ bs). split_and!; [|rewrite length_app; cbn [length]; lia..|].
    + cbn [emit_function foldr]. unfold andThen at 1. rewrite Ee.
      unfold emit_bytes at 1. cbn [mbind outcome_bind].
      etransitivity; [exact Ees|]. unfold emit_bytes. cbn. by rewrite app_assoc.
    + rewrite length_app. intros s lo hi Hw Hc Hlo Hhi He Ha Hra.
      apply code_at_app in Hc as [Hc Hrest]. cbn [length].
      rewrite (loop_step a i b (S (length p)) s) by (eauto; lia).
      cbn [sem_all] in *. destruct (sem i s) as [s1| |] eqn:Es; [|done..].
      cbn [mbind outcome_bind] in *.
      destruct (sem_frame a i s s1 Hi Hw Es) as (Hw1 & Epc & Eir).
      destruct (sem_keeps _ _ _ _ _ _ Ha Es) as [Ha1 Hk].
      set (s2 := advanced (Z.of_nat (length b)) 1 s1).
      assert (pc_ s2 = pc_ s + Z.of_nat (length b)) as Epc2.
      { cbn [pc_ s2 advanced with_instret with_pc]. rewrite Epc. apply pc_advance; [done|lia..]. }
      rewrite (Hrs s2 lo hi); rewrite ?Epc2.
      * unfold s2. rewrite sem_all_advanced. destruct (sem_all p s1) as [s'| |]; [|done..].
        cbn [mbind outcome_bind]. by rewrite returned_advanced.
      * apply wf_with_instret; [by apply wf_add_pc|by apply wrapu_range].
      * unfold code_at. rewrite Epc2, <- Hrest. apply load_bytes_ext. intros. apply Hk. lia.
      * lia.
      * lia.
      * lia.
      * by apply avoids_advanced.
      * unfold s2. rewrite sem_all_advanced. intros s' (s'' & Es' & [= <-])%bind_ok. exact (Hra _ Es').
Qed.

(** C9: the function that consists of integer instructions (operations on registers and
    immediates, multiplications and divisions, [lui], loads and stores) with operands that
    the assembler accepts ([encodable]), followed by [ret], is assembled, without a failing
    assertion and to two or four bytes per instruction.  When the loop of the simulator is
    entered at its first byte, and its stores do not write over the function itself, and
    the return address at its end is the one at which the loop stops, then the loop
    executes exactly these instructions and stops: registers and memory are as the
    instructions mean it one after the other ([sem]), independent of the encodings that
    were chosen, and the retired instructions have been counted; if an access faults, the
    loop ends with that fault.  Code with branches is the subject of [Bind_runs];
    floating-point and atomic instructions are not covered. *)
Theorem function_runs p a :
  Supports a RV_I = true -> Forall (encodable a) p ->
  exists bs, emit_function p a = emit_bytes bs a /\
    (2 * S (length p) <= length bs <= 4 * S (length p))%nat /\
    forall s, wf s -> code_at s bs ->
      let last := pc_ s + Z.of_nat (length bs) in
      last <= kEndSimulatingPC -> avoids (pc_ s) last p s ->
      (forall s', sem_all p s = Ok s' -> get_xreg s' Reg.RA = kEndSimulatingPC) ->
      ExecuteNoTrace (S (length p)) s = Some (s' ← sem_all p s; Ok (returned (S (length p)) s')).
Proof.
  intros HI Hp. destruct (function_runs_in p a HI Hp) as (bs & Ee & Hl & Hr).
  exists bs. split_and!; [done|lia..|]. intros s Hw Hc last Hl' Ha Hra.
  apply (Hr s (pc_ s) last); unfold last in *; first [done | lia].
Qed.

End program.

(** ** Witnesses *)

#[local] Existing Instances demo_target demo_debug demo_fpu demo_host.

(** [sd a0, 0(a2); lw a1, 0(a2); mul a0, a1, a1; add a0, a0, a1; ret]. *)
Definition demo_function : list instruction :=
  [Store SD Reg.A0 (mkAddress Reg.A2 0); Load LW Reg.A1 (mkAddress Reg.A2 0);
   Op MUL Reg.A0 Reg.A1 Reg.A1; Op ADD Reg.A0 Reg.A0 Reg.A1].

Definition demo_code : list Z :=
  Eval vm_compute in
  match emit_function demo_function demo_assembler with Ok a => buffer_ a | _ => [] end.

(** The function at 0x20000 is called with 7 and the address 0x30000. *)
Definition demo_call : Simulator :=
  let m := bytes_at 0x20000 demo_code ∪ bytes_at 0x30000 (replicate 8 0) in
  let s := with_pc (Simulator_new 1 0x7000000 m []) 0x20000 in
  set_xreg (set_xreg (set_xreg s Reg.A0 7) Reg.A2 0x30000) Reg.RA kEndSimulatingPC.

Lemma demo_call_wf : wf demo_call.
Proof.
  unfold demo_call. do 3 (apply wf_set_xreg; [|done]). apply wf_with_pc; [|done].
  apply wf_Simulator_new. apply map_Forall_union_2; apply bytes_at_bytes;
    repeat constructor; concrete.
Qed.

Lemma function_runs_witness :
  match ExecuteNoTrace 5 demo_call with
  | Some (Ok s) => get_xreg s Reg.A0 = 56 /\ memory s !! 0x30000 = Some 7
  | _ => False
  end.
Proof.
  destruct (function_runs demo_function demo_assembler) as (bs & Ee & _ & Hr).
  - done.
  - repeat constructor; concrete.
  - assert (bs = demo_code) as ->.
    { unfold emit_bytes in Ee. vm_compute in Ee. injection Ee as <-. done. }
    cbn [length demo_function] in Hr. rewrite Hr.
    + vm_compute. done.
    + apply demo_call_wf.
    + done.
    + vm_compute. done.
    + split; [by right|]. vm_compute. by repeat split.
    + intros s' E.
      replace s' with (match sem_all demo_function demo_call with Ok s => s | _ => s' end)
        by (by rewrite E). by vm_compute.
Defined.
