(* ===== verification/RiscvLabel.v ===== *)
(** Labels, branches and jumps of the RISC-V assembler: class [Label] of
    [runtime/vm/compiler/assembler/assembler_base.h] and the members of
    [MicroAssembler] in [assembler_riscv.cc] that take a label.

    Forward branches to a label form a linked list per class of branch, threaded through
    the offsets of the emitted instructions: [link_..] adds a branch to the list, [Bind]
    walks the lists and patches every branch.  An operation takes the label and the
    assembler and returns both. *)
From stdpp Require Import base numbers list.
From Stdlib Require Import ZArith Lia.
From S2P Require Import Prelude Utils RiscvEncoding RiscvState RiscvAssembler.
Local Open Scope Z_scope.
Local Open Scope cxx_scope.

Record Label := mkLabel {
  position_ : Z;
  unresolved_cb_ : Z;
  unresolved_cj_ : Z;
  unresolved_b_ : Z;
  unresolved_j_ : Z;
  unresolved_far_ : Z;
}.

(** [Label()]. *)
Definition Label_new : Label := mkLabel (-1) (-1) (-1) (-1) (-1) (-1).

Definition IsBound (l : Label) : bool := negb (position_ l =? -1).
Definition IsLinked (l : Label) : bool :=
  negb (unresolved_cb_ l =? -1) || negb (unresolved_cj_ l =? -1)
  || negb (unresolved_b_ l =? -1) || negb (unresolved_j_ l =? -1)
  || negb (unresolved_far_ l =? -1).
Definition IsUnused (l : Label) : bool := negb (IsBound l) && negb (IsLinked l).

Definition asm := outcome asm_error.

(** [ASSERT] as a command. *)
Definition assert (condition : bool) : asm unit :=
  if condition then Ok () else Fatal AssertionFailed.

(** [Label::Position()]. *)
Definition LabelPosition (l : Label) : asm Z :=
  _ ← assert (IsBound l); Ok (position_ l).

Definition BindTo (l : Label) (position : Z) : asm Label :=
  _ ← assert (negb (IsBound l));
  _ ← assert (negb (IsLinked l));
  let l := mkLabel position (unresolved_cb_ l) (unresolved_cj_ l) (unresolved_b_ l)
             (unresolved_j_ l) (unresolved_far_ l) in
  _ ← assert (IsBound l); Ok l.

(** *** The lists of unresolved branches *)

Inductive branch_class := CB | CJ | B | J | Far.

Definition head (c : branch_class) (l : Label) : Z :=
  match c with
  | CB => unresolved_cb_ l
  | CJ => unresolved_cj_ l
  | B => unresolved_b_ l
  | J => unresolved_j_ l
  | Far => unresolved_far_ l
  end.

Definition set_head (c : branch_class) (l : Label) (v : Z) : Label :=
  match c with
  | CB => mkLabel (position_ l) v (unresolved_cj_ l) (unresolved_b_ l) (unresolved_j_ l)
            (unresolved_far_ l)
  | CJ => mkLabel (position_ l) (unresolved_cb_ l) v (unresolved_b_ l) (unresolved_j_ l)
            (unresolved_far_ l)
  | B => mkLabel (position_ l) (unresolved_cb_ l) (unresolved_cj_ l) v (unresolved_j_ l)
           (unresolved_far_ l)
  | J => mkLabel (position_ l) (unresolved_cb_ l) (unresolved_cj_ l) (unresolved_b_ l) v
           (unresolved_far_ l)
  | Far => mkLabel (position_ l) (unresolved_cb_ l) (unresolved_cj_ l) (unresolved_b_ l)
             (unresolved_j_ l) v
  end.

(** [link_cb], [link_cj], [link_b], [link_j] and [link_far]
    ([DEFINE_BRANCH_CLASS]). *)
Definition link (c : branch_class) (l : Label) (position : Z) : asm (Label * Z) :=
  _ ← assert (head c l <? position);
  offset ← (if head c l =? -1 then Ok 0
            else
              let offset := position - head c l in
              _ ← assert (0 <? offset); Ok offset);
  Ok (set_head c l position, offset).

(** ** Reading and patching the buffer *)

Definition in_buffer (a : MicroAssembler) (position : Z) (n : nat) : bool :=
  (0 <=? position) && (position <=? Position a - Z.of_nat n).

Definition slice (a : MicroAssembler) (position : Z) (n : nat) : list Z :=
  take n (drop (Z.to_nat position) (buffer_ a)).

(** [AssemblerBuffer::Load] and [Store] at a type of [n] bytes. *)
Definition Load (n : nat) (a : MicroAssembler) (position : Z) : asm Z :=
  _ ← assert (in_buffer a position n); Ok (u_of_bytes (slice a position n)).

Definition Store (n : nat) (a : MicroAssembler) (position value : Z) : asm MicroAssembler :=
  _ ← assert (in_buffer a position n);
  let p := Z.to_nat position in
  Ok (mkAssembler (take p (buffer_ a) ++ bytes_of_u n value ++ drop (p + n) (buffer_ a))
        (extensions_ a) (far_branch_level_ a)).

Definition Read16 := Load 2.
Definition Read32 := Load 4.
Definition Write16 := Store 2.
Definition Write32 := Store 4.

Definition FAR_TMP : Z := Reg.S8.

Section label.
Context `{Target}.

Definition UpdateCBOffset (a : MicroAssembler) (branch_position new_offset : Z)
    : asm (MicroAssembler * Z) :=
  i ← Read16 a branch_position;
  _ ← assert ((CInstr.opcode i =? COpcode.C_BEQZ) || (CInstr.opcode i =? COpcode.C_BNEZ));
  let old_offset := CInstr.b_imm i in
  if negb (IsCBImm new_offset) then Fatal IncorrectNearJump
  else
    a ← Write16 a branch_position
          (CInstr.opcode i .| EncodeCRs1p (CInstr.rs1p i) .| EncodeCBImm new_offset);
    Ok (a, old_offset).

Definition UpdateCJOffset (a : MicroAssembler) (branch_position new_offset : Z)
    : asm (MicroAssembler * Z) :=
  i ← Read16 a branch_position;
  _ ← assert ((CInstr.opcode i =? COpcode.C_J) || (CInstr.opcode i =? COpcode.C_JAL));
  let old_offset := CInstr.j_imm i in
  if negb (IsCJImm new_offset) then Fatal IncorrectNearJump
  else
    a ← Write16 a branch_position (CInstr.opcode i .| EncodeCJImm new_offset);
    Ok (a, old_offset).

Definition UpdateBOffset (a : MicroAssembler) (branch_position new_offset : Z)
    : asm (MicroAssembler * Z) :=
  i ← Read32 a branch_position;
  _ ← assert (Instr.opcode i =? Opcode.BRANCH);
  let old_offset := Instr.btype_imm i in
  if negb (IsBTypeImm new_offset) then Fatal BranchOffsetError
  else
    a ← Write32 a branch_position
          (EncodeRs2 (Instr.rs2 i) .| EncodeRs1 (Instr.rs1 i)
           .| EncodeFunct3 (Instr.funct3 i) .| EncodeOpcode (Instr.opcode i)
           .| EncodeBTypeImm new_offset);
    Ok (a, old_offset).

Definition UpdateJOffset (a : MicroAssembler) (branch_position new_offset : Z)
    : asm (MicroAssembler * Z) :=
  i ← Read32 a branch_position;
  _ ← assert (Instr.opcode i =? Opcode.JAL);
  let old_offset := Instr.jtype_imm i in
  if negb (IsJTypeImm new_offset) then Fatal BranchOffsetError
  else
    a ← Write32 a branch_position
          (EncodeRd (Instr.rd i) .| EncodeOpcode (Instr.opcode i)
           .| EncodeJTypeImm new_offset);
    Ok (a, old_offset).

Definition UpdateFarOffset (a : MicroAssembler) (branch_position new_offset : Z)
    : asm (MicroAssembler * Z) :=
  auipc_instr ← Read32 a branch_position;
  _ ← assert (Instr.opcode auipc_instr =? Opcode.AUIPC);
  _ ← assert (Instr.rd auipc_instr =? FAR_TMP);
  jr_instr ← Read32 a (branch_position + 4);
  _ ← assert (Instr.opcode jr_instr =? Opcode.JALR);
  _ ← assert (Instr.rd jr_instr =? Reg.ZR);
  _ ← assert (Instr.funct3 jr_instr =? Funct3.F3_0);
  _ ← assert (Instr.rs1 jr_instr =? FAR_TMP);
  let old_offset := Instr.utype_imm auipc_instr + Instr.itype_imm jr_instr in
  let lo := ImmLo new_offset in
  let hi := ImmHi new_offset in
  if negb (IsUTypeImm hi) then Fatal DistanceExceeds2GB
  else
    _ ← assert (IsITypeImm lo);
    a ← Write32 a branch_position
          (EncodeUTypeImm hi .| EncodeRd FAR_TMP .| EncodeOpcode Opcode.AUIPC);
    a ← Write32 a (branch_position + 4)
          (EncodeITypeImm lo .| EncodeRs1 FAR_TMP .| EncodeFunct3 Funct3.F3_0
           .| EncodeRd Reg.ZR .| EncodeOpcode Opcode.JALR);
    Ok (a, old_offset).

Definition Update (c : branch_class) :=
  match c with
  | CB => UpdateCBOffset
  | CJ => UpdateCJOffset
  | B => UpdateBOffset
  | J => UpdateJOffset
  | Far => UpdateFarOffset
  end.

(** ** Binding a label *)

Definition alignment (a : MicroAssembler) : Z := if Supports a RV_C then 2 else 4.

(** The loop of the [BIND] macro, for at most [fuel] branches; [None] when the fuel does
    not suffice. *)
Fixpoint bind_loop (c : branch_class) (fuel : nat) (target_position branch_position : Z)
    (a : MicroAssembler) : option (asm MicroAssembler) :=
  if branch_position <? 0 then Some (Ok a)
  else
    match fuel with
    | O => None
    | S fuel =>
        let new_offset := target_position - branch_position in
        match
          _ ← assert (IsAligned branch_position (alignment a));
          _ ← assert (IsAligned new_offset (alignment a));
          Update c a branch_position new_offset
        with
        | Ok (a, old_offset) =>
            if old_offset =? 0 then Some (Ok a)
            else bind_loop c fuel target_position (branch_position - old_offset) a
        | Fatal e => Some (Fatal e)
        | Undefined => Some Undefined
        end
    end.

(** [BIND(head, update)]. *)
Definition BIND (c : branch_class) (fuel : nat) (target_position : Z)
    (st : Label * MicroAssembler) : option (asm (Label * MicroAssembler)) :=
  let (l, a) := st in
  match bind_loop c fuel target_position (head c l) a with
  | Some (Ok a) => Some (Ok (set_head c l (-1), a))
  | Some (Fatal e) => Some (Fatal e)
  | Some Undefined => Some Undefined
  | None => None
  end.

Definition andBIND (c : branch_class) (fuel : nat) (target_position : Z)
    (r : option (asm (Label * MicroAssembler))) : option (asm (Label * MicroAssembler)) :=
  match r with
  | Some (Ok st) => BIND c fuel target_position st
  | r => r
  end.

Definition Bind (fuel : nat) (l : Label) (a : MicroAssembler)
    : option (asm (Label * MicroAssembler)) :=
  if IsBound l then Some (Fatal AssertionFailed)
  else
    let target_position := Position a in
    let r := BIND CB fuel target_position (l, a) in
    let r := andBIND CJ fuel target_position r in
    let r := andBIND B fuel target_position r in
    let r := andBIND J fuel target_position r in
    let r := andBIND Far fuel target_position r in
    match r with
    | Some (Ok (l, a)) => Some (l ← BindTo l target_position; Ok (l, a))
    | r => r
    end.

(** ** Branches and jumps *)

Inductive JumpDistance := kNearJump | kFarJump.

Definition is_near (d : JumpDistance) : bool :=
  match d with kNearJump => true | kFarJump => false end.

(** An operation on a label and the assembler. *)
Definition labelled := Label -> MicroAssembler -> asm (Label * MicroAssembler).

(** An emitter that does not touch the label. *)
Definition plain (e : emitter) : labelled := fun l a => a ← e a; Ok (l, a).

Definition InvertFunct3 (func : Z) : asm Z :=
  if func =? Funct3.BEQ then Ok Funct3.BNE
  else if func =? Funct3.BNE then Ok Funct3.BEQ
  else if func =? Funct3.BGE then Ok Funct3.BLT
  else if func =? Funct3.BGEU then Ok Funct3.BLTU
  else if func =? Funct3.BLT then Ok Funct3.BGE
  else if func =? Funct3.BLTU then Ok Funct3.BGEU
  else Fatal Unreachable.

(** [auipc FAR_TMP, hi; jalr ZR, FAR_TMP, lo]: a jump to [offset] from here. *)
Definition EmitFarJump (offset : Z) : emitter :=
  let lo := ImmLo offset in
  let hi := ImmHi offset in
  if negb (IsUTypeImm hi) then fun _ => Fatal DistanceExceeds2GB
  else
    Asm.EmitUType hi FAR_TMP Opcode.AUIPC ;;;
    Asm.EmitIType lo FAR_TMP Funct3.F3_0 Reg.ZR Opcode.JALR.

(** The closing [ASSERT_EQUAL(end - start, kFarBranchLength)]. *)
Definition assert_length (start kFarBranchLength : Z) (a : MicroAssembler)
    : asm MicroAssembler :=
  _ ← assert (Position a - start =? kFarBranchLength); Ok a.

Definition EmitBranch (rs1 rs2 func : Z) (distance : JumpDistance) : labelled := fun l a =>
  let start := Position a in
  if IsBound l then
    (* Backward branch: use near or far branch based on actual distance. *)
    let offset := position_ l - Position a in
    if IsBTypeImm offset then plain (Asm.EmitBType offset rs2 rs1 func Opcode.BRANCH) l a
    else if IsJTypeImm (offset + 4) then
      inverted ← InvertFunct3 func;
      a ← Asm.EmitBType 8 rs2 rs1 inverted Opcode.BRANCH a;
      a ← Asm.EmitJType (position_ l - Position a) Reg.ZR Opcode.JAL a;
      a ← assert_length start 8 a; Ok (l, a)
    else
      inverted ← InvertFunct3 func;
      a ← Asm.EmitBType 12 rs2 rs1 inverted Opcode.BRANCH a;
      a ← EmitFarJump (position_ l - Position a) a;
      a ← assert_length start 12 a; Ok (l, a)
  else
    (* Forward branch: speculatively use near branches and re-assemble with far
       branches if any need greater length. *)
    if is_near distance then
      '(l, offset) ← link B l (Position a);
      if negb (IsBTypeImm offset) then Fatal IncorrectNearJump
      else plain (Asm.EmitBType offset rs2 rs1 func Opcode.BRANCH) l a
    else if far_branch_level_ a =? 0 then
      '(l, offset) ← link B l (Position a);
      if negb (IsBTypeImm offset) then Fatal BranchOffsetError
      else plain (Asm.EmitBType offset rs2 rs1 func Opcode.BRANCH) l a
    else if far_branch_level_ a =? 1 then
      inverted ← InvertFunct3 func;
      a ← Asm.EmitBType 8 rs2 rs1 inverted Opcode.BRANCH a;
      '(l, offset) ← link J l (Position a);
      a ← Asm.EmitJType offset Reg.ZR Opcode.JAL a;
      a ← assert_length start 8 a; Ok (l, a)
    else
      inverted ← InvertFunct3 func;
      a ← Asm.EmitBType 12 rs2 rs1 inverted Opcode.BRANCH a;
      '(l, offset) ← link Far l (Position a);
      a ← EmitFarJump offset a;
      a ← assert_length start 12 a; Ok (l, a).

(** The parameter [op] is not used by the source. *)
Definition EmitJump (rd : Z) (distance : JumpDistance) : labelled := fun l a =>
  if IsBound l then
    (* Backward jump: use near or far jump based on actual distance. *)
    let offset := position_ l - Position a in
    if IsJTypeImm offset then plain (Asm.EmitJType offset rd Opcode.JAL) l a
    else plain (EmitFarJump offset) l a
  else
    (* Forward jump: speculatively use near jumps and re-assemble with far jumps if any
       need greater length. *)
    if is_near distance then
      '(l, offset) ← link J l (Position a);
      if negb (IsJTypeImm offset) then Fatal IncorrectNearJump
      else plain (Asm.EmitJType offset rd Opcode.JAL) l a
    else if far_branch_level_ a <? 2 then
      '(l, offset) ← link J l (Position a);
      if negb (IsJTypeImm offset) then Fatal BranchOffsetError
      else plain (Asm.EmitJType offset rd Opcode.JAL) l a
    else
      '(l, offset) ← link Far l (Position a);
      plain (EmitFarJump offset) l a.

(** The offset to a bound label, or the link to the previous branch. *)
Definition offset_or_link (c : branch_class) (l : Label) (a : MicroAssembler)
    : asm (Label * Z) :=
  if IsBound l then Ok (l, position_ l - Position a) else link c l (Position a).

Definition EmitCBranch (rs1p op : Z) : labelled := fun l a =>
  '(l, offset) ← offset_or_link CB l a;
  if negb (IsCBImm offset) then Fatal IncorrectNearJump
  else
    _ ← assert (IsRegPrimeField rs1p);
    plain (Emit16 (op .| EncodeCRs1p rs1p .| EncodeCBImm offset)) l a.

Definition EmitCJump (op : Z) : labelled := fun l a =>
  '(l, offset) ← offset_or_link CJ l a;
  if negb (IsCJImm offset) then Fatal IncorrectNearJump
  else plain (Emit16 (op .| EncodeCJImm offset)) l a.

(** [ASSERT(Supports(extension))] before an operation on a label. *)
Definition supporting (extension : Z) (e : labelled) : labelled := fun l a =>
  _ ← assert (Supports a extension); e l a.

Definition c_j : labelled := supporting RV_C (EmitCJump COpcode.C_J).
Definition c_jal : labelled := supporting RV_C (EmitCJump COpcode.C_JAL).
Definition c_beqz (rs1p : Z) : labelled := supporting RV_C (EmitCBranch rs1p COpcode.C_BEQZ).
Definition c_bnez (rs1p : Z) : labelled := supporting RV_C (EmitCBranch rs1p COpcode.C_BNEZ).

(** [Supports(RV_C) && ((distance == kNearJump) || (label->IsBound() && fits(..)))]. *)
Definition compressible (fits : Z -> bool) (distance : JumpDistance) (l : Label)
    (a : MicroAssembler) : bool :=
  Supports a RV_C
  && (is_near distance || (IsBound l && fits (position_ l - Position a))).

Definition jal (rd : Z) (distance : JumpDistance) : labelled :=
  supporting RV_I (fun l a =>
    if compressible IsCJImm distance l a && (rd =? Reg.ZR) then c_j l a
    else if compressible IsCJImm distance l a && (is32 && (rd =? Reg.RA)) then c_jal l a
    else EmitJump rd distance l a).

Definition beq (rs1 rs2 : Z) (distance : JumpDistance) : labelled :=
  supporting RV_I (fun l a =>
    if compressible IsCBImm distance l a && ((rs1 =? Reg.ZR) && IsRegPrimeField rs2)
    then c_beqz rs2 l a
    else if compressible IsCBImm distance l a && ((rs2 =? Reg.ZR) && IsRegPrimeField rs1)
    then c_beqz rs1 l a
    else EmitBranch rs1 rs2 Funct3.BEQ distance l a).

Definition bne (rs1 rs2 : Z) (distance : JumpDistance) : labelled :=
  supporting RV_I (fun l a =>
    if compressible IsCBImm distance l a && ((rs1 =? Reg.ZR) && IsRegPrimeField rs2)
    then c_bnez rs2 l a
    else if compressible IsCBImm distance l a && ((rs2 =? Reg.ZR) && IsRegPrimeField rs1)
    then c_bnez rs1 l a
    else EmitBranch rs1 rs2 Funct3.BNE distance l a).

Definition blt (rs1 rs2 : Z) (distance : JumpDistance) : labelled :=
  supporting RV_I (EmitBranch rs1 rs2 Funct3.BLT distance).
Definition bge (rs1 rs2 : Z) (distance : JumpDistance) : labelled :=
  supporting RV_I (EmitBranch rs1 rs2 Funct3.BGE distance).
Definition bltu (rs1 rs2 : Z) (distance : JumpDistance) : labelled :=
  supporting RV_I (EmitBranch rs1 rs2 Funct3.BLTU distance).
Definition bgeu (rs1 rs2 : Z) (distance : JumpDistance) : labelled :=
  EmitBranch rs1 rs2 Funct3.BGEU distance.

End label.
