(* ===== verification/RiscvDecodeB.v ===== *)
(** The fields of the branches and jumps the assembler emits, as they are decoded. *)
From stdpp Require Import base numbers list.
From Stdlib Require Import ZArith Lia.
From S2P Require Import Prelude Utils RiscvEncoding RiscvDecode.
Local Open Scope Z_scope.
Local Open Scope cxx_scope.

(** ** Decoding branches *)

(** The decoders read only the bits of their immediate. *)
Definition agree (mask e e' : Z) : Prop :=
  forall i, Z.testbit mask i = true -> Z.testbit e i = Z.testbit e' i.

Ltac decoder_ext Ha :=
  cbv zeta; rewrite !SignExtend_wraps by lia; apply wraps_eq_wrapu, wrapu_bits; [lia|];
  unfold u32; enum_range; bit_norm; first [reflexivity | by apply Ha].

Lemma DecodeBTypeImm_ext e e' : agree 0xfe000f80 e e' -> DecodeBTypeImm e = DecodeBTypeImm e'.
Proof. intros Ha. unfold DecodeBTypeImm. decoder_ext Ha. Qed.

Lemma DecodeJTypeImm_ext e e' : agree 0xfffff000 e e' -> DecodeJTypeImm e = DecodeJTypeImm e'.
Proof. intros Ha. unfold DecodeJTypeImm. decoder_ext Ha. Qed.

Lemma DecodeCJImm_ext e e' : agree 0x1ffc e e' -> DecodeCJImm e = DecodeCJImm e'.
Proof. intros Ha. unfold DecodeCJImm. decoder_ext Ha. Qed.

(** Bits outside a mask of [w] bits need no agreement. *)
Lemma agree_range w mask e e' :
  0 <= w -> is_u w mask ->
  (forall i, 0 <= i < w ->
     if Z.testbit mask i then Z.testbit e i = Z.testbit e' i else True) ->
  agree mask e e'.
Proof.
  intros Hw Hm Hb i Hi. destruct (Z.ltb_spec i 0); [by rewrite Z.testbit_neg_r in Hi|].
  destruct (Z.ltb_spec i w); [specialize (Hb i); rewrite Hi in Hb; auto|].
  rewrite (testbit_high w mask i) in Hi by (done || lia). done.
Qed.

Ltac agreement w :=
  apply (agree_range w); [lia|by apply const_u|];
  unfold_fields; enum_range;
  match goal with
  | |- if ?b then ?P else _ =>
      let b := eval vm_compute in b in
      match b with true => change P; bit_norm; reflexivity | false => exact I end
  end.

Definition BType (imm rs2 rs1 f3 op : Z) : Z :=
  EncodeBTypeImm imm .| EncodeRs2 rs2 .| EncodeRs1 rs1 .| EncodeFunct3 f3
  .| EncodeOpcode op.

Lemma decode_BType imm rs2 rs1 f3 op :
  is_u 5 rs2 -> is_u 5 rs1 -> is_u 3 f3 -> is_u 7 op ->
  is_s 64 imm -> IsBTypeImm imm = true ->
  let e := BType imm rs2 rs1 f3 op in
  is_u 32 e /\ Instr.opcode e = op /\ Instr.rs1 e = rs1 /\ Instr.rs2 e = rs2 /\
  Instr.funct3 e = f3 /\ Instr.btype_imm e = imm.
Proof.
  intros ? ? ? ? Hi HI e. unfold e, BType. split_and!.
  6:{ rewrite <- (BTypeImm_roundtrip imm Hi HI) at 2. apply DecodeBTypeImm_ext.
      agreement 32. }
  1: unfold EncodeBTypeImm; cbv zeta; unfold_fields;
     repeat (apply lor_u; [lia| |]); apply u32_u.
  all: unfold EncodeBTypeImm; cbv zeta.
  - field 7.
  - field 5.
  - field 5.
  - field 3.
Qed.

Definition JType (imm rd op : Z) : Z := EncodeJTypeImm imm .| EncodeRd rd .| EncodeOpcode op.

Lemma decode_JType imm rd op :
  is_u 5 rd -> is_u 7 op -> is_s 64 imm -> IsJTypeImm imm = true ->
  let e := JType imm rd op in
  is_u 32 e /\ Instr.opcode e = op /\ Instr.rd e = rd /\ Instr.jtype_imm e = imm.
Proof.
  intros ? ? Hi HI e. unfold e, JType. split_and!.
  4:{ rewrite <- (JTypeImm_roundtrip imm Hi HI) at 2. apply DecodeJTypeImm_ext.
      agreement 32. }
  1: unfold EncodeJTypeImm; cbv zeta; unfold_fields;
     repeat (apply lor_u; [lia| |]); apply u32_u.
  all: unfold EncodeJTypeImm; cbv zeta.
  - field 7.
  - field 5.
Qed.

Lemma decode_c_branch op rs1 imm :
  op = COpcode.C_BEQZ \/ op = COpcode.C_BNEZ ->
  8 <= rs1 < 16 -> is_s 64 imm -> IsCBImm imm = true ->
  let e := op .| EncodeCRs1p rs1 .| EncodeCBImm imm in
  is_c e /\ CInstr.opcode e = op /\ CInstr.rs1p e = rs1 /\ CInstr.b_imm e = imm.
Proof.
  intros [-> | ->].
  all: c_decode.
  all: [> c_shape | c_const | cprime | c_imm_s (CBImm_roundtrip imm)
        | c_shape | c_const | cprime | c_imm_s (CBImm_roundtrip imm) ].
Qed.

Lemma decode_c_jump op imm :
  op = COpcode.C_J \/ op = COpcode.C_JAL -> is_s 64 imm -> IsCJImm imm = true ->
  let e := op .| EncodeCJImm imm in
  is_c e /\ CInstr.opcode e = op /\ CInstr.j_imm e = imm.
Proof.
  intros [-> | ->]; c_decode; try (c_shape || c_const).
  all: rewrite <- (CJImm_roundtrip imm) at 2 by done; apply DecodeCJImm_ext; agreement 16.
Qed.
