(* ===== verification/RiscvLabelProps.v ===== *)
(** Labels: the lists of unresolved branches, threaded through the code, and how [Bind]
    resolves them. *)
From stdpp Require Import base numbers list sets.
From Stdlib Require Import ZArith Lia.
From S2P Require Import Prelude Utils RiscvEncoding RiscvEncodingProps RiscvState RiscvStateProps RiscvAssembler RiscvDecode RiscvDecodeB RiscvAsmSim RiscvLabel.
Local Open Scope Z_scope.
Local Open Scope cxx_scope.

(** ** Branches in the code *)

(** What a branch does, apart from its offset. *)
Inductive branch :=
| KCB (op rs1p : Z)
| KCJ (op : Z)
| KB (rs1 rs2 f3 : Z)
| KJ (rd : Z)
| KFar.

Definition class_of (k : branch) : branch_class :=
  match k with
  | KCB _ _ => CB
  | KCJ _ => CJ
  | KB _ _ _ => B
  | KJ _ => J
  | KFar => Far
  end.

Definition size (c : branch_class) : nat :=
  match c with CB | CJ => 2 | B | J => 4 | Far => 8 end.

(** The bytes [bs] are the branch [k] with the offset [off]. *)
Definition encodes (k : branch) (off : Z) (bs : list Z) : Prop :=
  match k with
  | KCB op rs1p => exists e,
      bs = bytes_of_u 2 e /\ is_c e /\ (op = COpcode.C_BEQZ \/ op = COpcode.C_BNEZ) /\
      CInstr.opcode e = op /\ CInstr.rs1p e = rs1p /\ CInstr.b_imm e = off
  | KCJ op => exists e,
      bs = bytes_of_u 2 e /\ is_c e /\ (op = COpcode.C_J \/ op = COpcode.C_JAL) /\
      CInstr.opcode e = op /\ CInstr.j_imm e = off
  | KB rs1 rs2 f3 => exists e,
      bs = bytes_of_u 4 e /\ is_u 32 e /\ Instr.opcode e = Opcode.BRANCH /\
      Instr.rs1 e = rs1 /\ Instr.rs2 e = rs2 /\ Instr.funct3 e = f3 /\
      Instr.btype_imm e = off
  | KJ rd => exists e,
      bs = bytes_of_u 4 e /\ is_u 32 e /\ Instr.opcode e = Opcode.JAL /\
      Instr.rd e = rd /\ Instr.jtype_imm e = off
  | KFar => exists e1 e2,
      bs = bytes_of_u 4 e1 ++ bytes_of_u 4 e2 /\ is_u 32 e1 /\ is_u 32 e2 /\
      Instr.opcode e1 = Opcode.AUIPC /\ Instr.rd e1 = FAR_TMP /\
      Instr.opcode e2 = Opcode.JALR /\ Instr.rd e2 = Reg.ZR /\
      Instr.funct3 e2 = Funct3.F3_0 /\ Instr.rs1 e2 = FAR_TMP /\
      Instr.utype_imm e1 + Instr.itype_imm e2 = off
  end.

(** The offsets a class of branches reaches. *)
Definition fits (c : branch_class) (off : Z) : bool :=
  match c with
  | CB => IsCBImm off
  | CJ => IsCJImm off
  | B => IsBTypeImm off
  | J => IsJTypeImm off
  | Far => (- 2 ^ 31 <=? off) && (off <? 2 ^ 31 - 2 ^ 11)
  end.

(** The code with the bytes at [p] replaced. *)
Definition patch (a : MicroAssembler) (p : Z) (bs : list Z) : MicroAssembler :=
  mkAssembler (take (Z.to_nat p) (buffer_ a) ++ bs
               ++ drop (Z.to_nat p + length bs) (buffer_ a))
    (extensions_ a) (far_branch_level_ a).

Lemma in_buffer_spec a p n :
  in_buffer a p n = true <-> 0 <= p /\ p + Z.of_nat n <= Position a.
Proof. unfold in_buffer. lia. Qed.

Lemma lookup_slice a p n i :
  0 <= p -> (i < n)%nat -> slice a p n !! i = buffer_ a !! (Z.to_nat p + i)%nat.
Proof. intros Hp Hi. unfold slice. by rewrite lookup_take_lt, lookup_drop. Qed.

Lemma length_slice a p n : in_buffer a p n = true -> length (slice a p n) = n.
Proof.
  intros [? ?]%in_buffer_spec. unfold slice, Position in *.
  rewrite length_take, length_drop. lia.
Qed.

Lemma length_patch a p bs :
  in_buffer a p (length bs) = true -> length (buffer_ (patch a p bs)) = length (buffer_ a).
Proof.
  intros [? ?]%in_buffer_spec. unfold patch, Position in *. cbn [buffer_].
  rewrite !length_app, length_take, length_drop. lia.
Qed.

Lemma lookup_patch a p bs i :
  in_buffer a p (length bs) = true ->
  buffer_ (patch a p bs) !! i =
    if decide (Z.to_nat p <= i < Z.to_nat p + length bs)%nat
    then bs !! (i - Z.to_nat p)%nat else buffer_ a !! i.
Proof.
  intros [? ?]%in_buffer_spec. unfold patch, Position in *. cbn [buffer_].
  assert (length (take (Z.to_nat p) (buffer_ a)) = Z.to_nat p) as El
    by (rewrite length_take; lia).
  destruct (decide _) as [Hi|Hi].
  - rewrite lookup_app_r, El by lia. by rewrite lookup_app_l by lia.
  - destruct (decide (i < Z.to_nat p)%nat).
    + rewrite lookup_app_l by lia. by apply lookup_take_lt.
    + rewrite lookup_app_r, El, lookup_app_r, lookup_drop by lia. f_equal. lia.
Qed.

(** Patching changes the patched bytes and nothing else. *)
Lemma slice_patch_same a p bs :
  in_buffer a p (length bs) = true -> slice (patch a p bs) p (length bs) = bs.
Proof.
  intros Hb. apply list_eq. intros i. destruct (decide (i < length bs)%nat).
  - rewrite lookup_slice by (apply in_buffer_spec in Hb; lia || done).
    rewrite lookup_patch, decide_True by (done || lia). f_equal. lia.
  - rewrite !lookup_ge_None_2; [done|lia|]. unfold slice. rewrite length_take. lia.
Qed.

Lemma slice_patch_other a p bs q n :
  in_buffer a p (length bs) = true -> 0 <= q ->
  q + Z.of_nat n <= p \/ p + Z.of_nat (length bs) <= q ->
  slice (patch a p bs) q n = slice a q n.
Proof.
  intros Hb Hq Hd. apply in_buffer_spec in Hb as Hb'. apply list_eq. intros i.
  destruct (decide (i < n)%nat).
  - rewrite !lookup_slice, lookup_patch, decide_False by (done || lia). done.
  - rewrite !lookup_ge_None_2; [done|unfold slice; rewrite length_take; lia..].
Qed.

(** ** Patching one branch *)

Lemma Load_bytes a p n e :
  in_buffer a p n = true -> slice a p n = bytes_of_u n e -> is_u (8 * Z.of_nat n) e ->
  Load n a p = Ok e.
Proof.
  intros Hb E He. unfold Load, assert. rewrite Hb. cbn [mbind outcome_bind].
  by rewrite E, u_of_bytes_of_u, wrapu_id.
Qed.

Lemma Store_patch n a p v :
  in_buffer a p n = true -> Store n a p v = Ok (patch a p (bytes_of_u n v)).
Proof.
  intros Hb. unfold Store, assert, patch. rewrite Hb. cbn [mbind outcome_bind].
  by rewrite length_bytes_of_u.
Qed.

Lemma reg_field shift e : is_u 5 (DecodeRegField shift e).
Proof. unfold DecodeRegField. apply land_u; [lia|by apply const_u]. Qed.

Lemma funct3_field e : is_u 3 (Instr.funct3 e).
Proof.
  unfold Instr.funct3, DecodeFunct3, DecodeFunctField. apply land_u; [lia|by apply const_u].
Qed.

Lemma prime_field e : 8 <= CInstr.rs1p e < 16.
Proof.
  unfold CInstr.rs1p, DecodeCRs1p, DecodeRegPrimeField. generalize (e >> 7) as x.
  intros x. change 7 with (Z.ones 3). rewrite Z.land_ones by lia.
  pose proof (Z.mod_pos_bound x (2 ^ 3) ltac:(lia)). lia.
Qed.

Lemma is_s_le v w x : 0 < v <= w -> is_s v x -> is_s w x.
Proof.
  intros Hv [? ?]. pose proof (pow2_le (v - 1) (w - 1) ltac:(lia)). unfold is_s. lia.
Qed.

Lemma UType_u imm rd op : is_u 32 (EncodeUTypeImm imm .| EncodeRd rd .| EncodeOpcode op).
Proof.
  unfold EncodeUTypeImm. unfold_fields. repeat (apply lor_u; [lia| |]); apply u32_u.
Qed.

Lemma IType_u imm rs1 f3 rd op :
  is_u 32 (EncodeITypeImm imm .| EncodeRs1 rs1 .| EncodeFunct3 f3 .| EncodeRd rd
           .| EncodeOpcode op).
Proof.
  unfold EncodeITypeImm. unfold_fields. repeat (apply lor_u; [lia| |]); apply u32_u.
Qed.

Section update.
Context `{Target}.

(** The far offsets split into immediates that are always in range: the check for a
    distance of 2GB in the source never fails. *)
Lemma far_imms off : IsUTypeImm (ImmHi off) = true /\ IsITypeImm (ImmLo off) = true.
Proof.
  rewrite ImmHi_wraps, ImmLo_wraps. split.
  - unfold IsUTypeImm. apply andb_true_iff. split.
    + apply (IsInt_signed_spec 64 32); [lia..| |by apply wraps_range].
      apply (is_s_le 32 64); [lia|by apply wraps_range].
    + apply (IsAligned_spec _ 12); [lia|].
      fold (wrapu 12 (wraps 32 (off - wraps 12 off))). rewrite wrapu_wraps_le by lia.
      apply wraps12_aligned.
  - apply (IsInt_signed_spec 64 12); [lia..| |by apply wraps_range].
    apply (is_s_le 12 64); [lia|by apply wraps_range].
Qed.

Lemma far_sum off : fits Far off = true -> ImmHi off + ImmLo off = off.
Proof.
  intros [?%Z.leb_le ?%Z.ltb_lt]%andb_true_iff. by apply ImmHi_ImmLo_exact.
Qed.

(** The order in which the fields are put together does not matter. *)
Lemma BType_update imm rs2 rs1 f3 op :
  EncodeRs2 rs2 .| EncodeRs1 rs1 .| EncodeFunct3 f3 .| EncodeOpcode op .| EncodeBTypeImm imm
  = BType imm rs2 rs1 f3 op.
Proof. unfold BType. rewrite (Z.lor_comm _ (EncodeBTypeImm imm)). by rewrite !Z.lor_assoc. Qed.

Lemma JType_update imm rd op :
  EncodeRd rd .| EncodeOpcode op .| EncodeJTypeImm imm = JType imm rd op.
Proof. unfold JType. rewrite (Z.lor_comm _ (EncodeJTypeImm imm)). by rewrite !Z.lor_assoc. Qed.

(** What [Update] does on a branch of its class: it returns the old offset and puts
    the new one in its place. *)
Definition updates (k : branch) : Prop := forall a p old new,
  in_buffer a p (size (class_of k)) = true ->
  encodes k old (slice a p (size (class_of k))) ->
  fits (class_of k) new = true -> is_s 64 new ->
  exists bs, Update (class_of k) a p new = Ok (patch a p bs, old) /\
    length bs = size (class_of k) /\ encodes k new bs.

Lemma updates_CB op rs1p : updates (KCB op rs1p).
Proof.
  intros a p old new Hb (e & Es & [Hu Hc] & Hop & Eo & E1 & Ei) Hf Hn. cbn in *.
  pose proof (prime_field e) as Hr. rewrite E1 in Hr.
  destruct (decode_c_branch op rs1p new Hop Hr Hn Hf) as ([Hu' Hc'] & D1 & D2 & D3).
  eexists. split_and!; [|apply length_bytes_of_u|by eexists].
  unfold UpdateCBOffset, Read16, Write16. rewrite (Load_bytes a p 2 e) by done.
  cbn [mbind outcome_bind]. unfold assert at 1. rewrite Eo, E1, Ei, Hf.
  assert ((op =? COpcode.C_BEQZ) || (op =? COpcode.C_BNEZ) = true) as ->
    by (destruct Hop as [-> | ->]; done).
  cbn [mbind outcome_bind negb]. by rewrite Store_patch.
Qed.

Lemma updates_CJ op : updates (KCJ op).
Proof.
  intros a p old new Hb (e & Es & [Hu Hc] & Hop & Eo & Ei) Hf Hn. cbn in *.
  destruct (decode_c_jump op new Hop Hn Hf) as ([Hu' Hc'] & D1 & D2).
  eexists. split_and!; [|apply length_bytes_of_u|by eexists].
  unfold UpdateCJOffset, Read16, Write16. rewrite (Load_bytes a p 2 e) by done.
  cbn [mbind outcome_bind]. unfold assert at 1. rewrite Eo, Ei, Hf.
  assert ((op =? COpcode.C_J) || (op =? COpcode.C_JAL) = true) as ->
    by (destruct Hop as [-> | ->]; done).
  cbn [mbind outcome_bind negb]. by rewrite Store_patch.
Qed.

Lemma updates_B rs1 rs2 f3 : updates (KB rs1 rs2 f3).
Proof.
  intros a p old new Hb (e & Es & Hu & Eo & E1 & E2 & E3 & Ei) Hf Hn. cbn in *.
  assert (is_u 5 rs1) by (rewrite <- E1; apply reg_field).
  assert (is_u 5 rs2) by (rewrite <- E2; apply reg_field).
  assert (is_u 3 f3) by (rewrite <- E3; apply funct3_field).
  destruct (decode_BType new rs2 rs1 f3 Opcode.BRANCH) as (Hu' & D1 & D2 & D3 & D4 & D5);
    [done..|].
  eexists. split_and!; [|apply length_bytes_of_u|by eexists].
  unfold UpdateBOffset, Read32, Write32. rewrite (Load_bytes a p 4 e) by done.
  cbn [mbind outcome_bind]. unfold assert at 1. rewrite Eo, E1, E2, E3, Ei, Hf.
  cbn [mbind outcome_bind negb Z.eqb]. rewrite BType_update. by rewrite Store_patch.
Qed.

Lemma updates_J rd : updates (KJ rd).
Proof.
  intros a p old new Hb (e & Es & Hu & Eo & E1 & Ei) Hf Hn. cbn in *.
  assert (is_u 5 rd) by (rewrite <- E1; apply reg_field).
  destruct (decode_JType new rd Opcode.JAL) as (Hu' & D1 & D2 & D3); [done..|].
  eexists. split_and!; [|apply length_bytes_of_u|by eexists].
  unfold UpdateJOffset, Read32, Write32. rewrite (Load_bytes a p 4 e) by done.
  cbn [mbind outcome_bind]. unfold assert at 1. rewrite Eo, E1, Ei, Hf.
  cbn [mbind outcome_bind negb Z.eqb]. rewrite JType_update. by rewrite Store_patch.
Qed.

Lemma patch_app a p bs1 bs2 :
  in_buffer a p (length bs1 + length bs2) = true ->
  patch (patch a p bs1) (p + Z.of_nat (length bs1)) bs2 = patch a p (bs1 ++ bs2).
Proof.
  intros Hb. apply in_buffer_spec in Hb as [Hp Hl]. unfold patch. cbn [buffer_ extensions_].
  f_equal. unfold Position in Hl. rewrite Z2Nat.inj_add, Nat2Z.id by lia.
  assert (length (take (Z.to_nat p) (buffer_ a)) = Z.to_nat p) as El
    by (rewrite length_take; lia).
  rewrite take_app_ge, El, take_app_le by lia.
  replace (Z.to_nat p + length bs1 - Z.to_nat p)%nat with (length bs1) by lia.
  rewrite firstn_all, drop_app_ge, El by lia.
  replace (Z.to_nat p + length bs1 + length bs2 - Z.to_nat p)%nat
    with (length bs1 + length bs2)%nat by lia.
  rewrite drop_app_ge by lia. rewrite drop_drop, length_app, <- !app_assoc.
  do 3 f_equal. f_equal. lia.
Qed.

Lemma in_buffer_sub a p n q m :
  in_buffer a p n = true -> p <= q -> q + Z.of_nat m <= p + Z.of_nat n ->
  in_buffer a q m = true.
Proof. rewrite !in_buffer_spec. lia. Qed.

Lemma in_buffer_patch a p bs q n :
  in_buffer a p (length bs) = true -> in_buffer (patch a p bs) q n = in_buffer a q n.
Proof. intros Hb. unfold in_buffer, Position. by rewrite length_patch. Qed.

Lemma slice_app a p n m bs1 bs2 :
  slice a p (n + m) = bs1 ++ bs2 -> 0 <= p -> length bs1 = n -> length bs2 = m ->
  slice a p n = bs1 /\ slice a (p + Z.of_nat n) m = bs2.
Proof.
  intros E Hp <- <-. unfold slice in *. rewrite Z2Nat.inj_add, Nat2Z.id by lia. split.
  - apply (f_equal (take (length bs1))) in E. rewrite take_take, take_app_length in E.
    by replace (length bs1 `min` (length bs1 + length bs2))%nat with (length bs1) in E by lia.
  - apply (f_equal (drop (length bs1))) in E.
    rewrite drop_app_length, <- take_drop_commute, drop_drop in E. done.
Qed.

Lemma updates_Far : updates KFar.
Proof.
  intros a p old new Hb (e1 & e2 & Es & Hu1 & Hu2 & O1 & R1 & O2 & R2 & F2 & S2 & Ei) Hf Hn.
  cbn [class_of size] in *. destruct (far_imms new) as [HU HI].
  assert (0 <= p) as Hp by (apply in_buffer_spec in Hb; lia).
  destruct (slice_app a p 4 4 _ _ Es Hp (length_bytes_of_u _ _) (length_bytes_of_u _ _))
    as [Es1 Es2]. change (Z.of_nat 4) with 4 in Es2.
  assert (in_buffer a p 4 = true) as Hb1 by (apply (in_buffer_sub a p 8); [done|lia..]).
  assert (in_buffer a (p + 4) 4 = true) as Hb2 by (apply (in_buffer_sub a p 8); [done|lia..]).
  assert (is_s 64 (ImmHi new)) by (rewrite ImmHi_wraps; apply (is_s_le 32);
    [lia|by apply wraps_range]).
  assert (is_s 64 (ImmLo new)) by (rewrite ImmLo_wraps; apply (is_s_le 12);
    [lia|by apply wraps_range]).
  destruct (decode_UType (ImmHi new) FAR_TMP Opcode.AUIPC) as (D1 & D2 & D3); [done..|].
  destruct (decode_IType (ImmLo new) FAR_TMP Funct3.F3_0 Reg.ZR Opcode.JALR)
    as (D4 & D5 & D6 & D7 & D8); [done..|].
  fold (UType (ImmHi new) FAR_TMP Opcode.AUIPC) in *.
  set (i1 := UType _ _ _) in *. set (i2 := IType _ _ _ _ _) in *.
  exists (bytes_of_u 4 i1 ++ bytes_of_u 4 i2). split_and!.
  - cbn [Update]. unfold UpdateFarOffset, Read32, Write32.
    rewrite (Load_bytes a p 4 e1), (Load_bytes a (p + 4) 4 e2) by done.
    cbn [mbind outcome_bind]. unfold assert. rewrite O1, R1, O2, R2, F2, S2, Ei, HU, HI.
    cbn [mbind outcome_bind negb Z.eqb]. fold (UType (ImmHi new) FAR_TMP Opcode.AUIPC).
    fold (IType (ImmLo new) FAR_TMP Funct3.F3_0 Reg.ZR Opcode.JALR). fold i1 i2.
    rewrite Store_patch by done. cbn [mbind outcome_bind].
    rewrite Store_patch by (rewrite in_buffer_patch; by rewrite ?length_bytes_of_u).
    cbn [mbind outcome_bind].
    pose proof (patch_app a p (bytes_of_u 4 i1) (bytes_of_u 4 i2)) as E.
    rewrite !length_bytes_of_u in E. by rewrite <- E.
  - by rewrite length_app, !length_bytes_of_u.
  - exists i1, i2. split_and!; try done.
    + unfold i1, UType. apply UType_u.
    + unfold i2, IType. apply IType_u.
    + rewrite D3, D8. by apply far_sum.
Qed.

Lemma Update_spec k : updates k.
Proof.
  destruct k; [apply updates_CB|apply updates_CJ|apply updates_B|apply updates_J
              |apply updates_Far].
Qed.

End update.

(** ** The list of a class *)

(** The offset stored in a pending branch: the distance to the previous one, zero in the
    last. *)
Definition link_offset (p next : Z) : Z := if next =? -1 then 0 else p - next.

(** From [head], the code of [a] holds the pending branches [ps] of class [c]. *)
Inductive chain (a : MicroAssembler) (c : branch_class) : Z -> list (Z * branch) -> Prop :=
| chain_nil : chain a c (-1) []
| chain_cons p k next ps :
    class_of k = c -> in_buffer a p (size c) = true ->
    encodes k (link_offset p next) (slice a p (size c)) ->
    next = -1 \/ 0 <= next /\ next + Z.of_nat (size c) <= p ->
    chain a c next ps -> chain a c p ((p, k) :: ps).

Lemma size_pos c : (0 < size c)%nat.
Proof. destruct c; simpl; lia. Qed.

(** The branches of a list are at or below its head. *)
Lemma chain_below a c h ps q k : chain a c h ps -> (q, k) ∈ ps -> 0 <= q <= h.
Proof.
  induction 1 as [|p k' next ps _ Hb _ Hn _ IH]; [by intros ?%elem_of_nil|].
  apply in_buffer_spec in Hb. pose proof (size_pos c).
  intros [[= -> ->]|Hin]%elem_of_cons; [lia|]. specialize (IH Hin). lia.
Qed.

Lemma chain_in_buffer a c h ps q k :
  chain a c h ps -> (q, k) ∈ ps -> in_buffer a q (size c) = true.
Proof.
  induction 1 as [|p k' next ps _ Hb _ _ _ IH]; [by intros ?%elem_of_nil|].
  intros [[= -> ->]|Hin]%elem_of_cons; auto.
Qed.

Lemma chain_end a c ps : chain a c (-1) ps -> ps = [].
Proof. inversion 1 as [|? ? ? ? ? Hb]; [done|]. apply in_buffer_spec in Hb. lia. Qed.

(** The code [a'] agrees with [a] on the branches of the list. *)
Lemma chain_agree a a' c h ps :
  chain a c h ps ->
  (forall q n, in_buffer a q n = true -> in_buffer a' q n = true) ->
  (forall q k, (q, k) ∈ ps -> slice a' q (size c) = slice a q (size c)) ->
  chain a' c h ps.
Proof.
  induction 1 as [|p k next ps Hk Hb He Hn Hc IH]; intros Hl Ha; [constructor|].
  econstructor; [done|by apply Hl| |done|].
  - rewrite (Ha p k) by apply list_elem_of_here. done.
  - apply IH; [done|]. intros q k' Hin. apply (Ha q k'). by apply list_elem_of_further.
Qed.

(** Offset [i] belongs to one of the branches [ps] of class [c]. *)
Definition covered (c : branch_class) (ps : list (Z * branch)) (i : nat) : Prop :=
  exists q k, (q, k) ∈ ps /\ q <= Z.of_nat i < q + Z.of_nat (size c).

(** [a'] is [a] with the branches [ps] of class [c] resolved to [target]. *)
Record resolved (c : branch_class) (ps : list (Z * branch)) (target : Z)
    (a a' : MicroAssembler) : Prop := {
  resolved_length : length (buffer_ a') = length (buffer_ a);
  resolved_extensions : extensions_ a' = extensions_ a;
  resolved_level : far_branch_level_ a' = far_branch_level_ a;
  resolved_branches q k : (q, k) ∈ ps -> encodes k (target - q) (slice a' q (size c));
  resolved_frame i : ~ covered c ps i -> buffer_ a' !! i = buffer_ a !! i;
}.

Lemma slice_ext a a' p n :
  0 <= p ->
  (forall i, (Z.to_nat p <= i < Z.to_nat p + n)%nat -> buffer_ a' !! i = buffer_ a !! i) ->
  slice a' p n = slice a p n.
Proof.
  intros Hp He. apply list_eq. intros i. destruct (decide (i < n)%nat).
  - rewrite !lookup_slice by done. apply He. lia.
  - rewrite !lookup_ge_None_2; [done|unfold slice; rewrite length_take; lia..].
Qed.

(** Resolving the head of a list and then the rest of it. *)
Lemma resolved_cons c h k next ps target a a1 a' :
  next = -1 \/ 0 <= next /\ next + Z.of_nat (size c) <= h -> 0 <= h ->
  resolved c [(h, k)] target a a1 -> resolved c ps target a1 a' -> chain a1 c next ps ->
  resolved c ((h, k) :: ps) target a a'.
Proof.
  intros Hn Hh [L1 X1 V1 B1 F1] [L2 X2 V2 B2 F2] Hc. split; [congruence..| |].
  - intros q k' [[= -> ->]|Hin]%elem_of_cons; [|by apply B2].
    rewrite (slice_ext a1); [apply B1, list_elem_of_here|done|].
    intros i Hi. apply F2. intros (q & k' & Hin & Hq).
    pose proof (chain_below _ _ _ _ _ _ Hc Hin). lia.
  - intros i Hi. rewrite F2, F1; [done|..].
    + intros (q & k' & [[= -> ->]|[]%elem_of_nil]%elem_of_cons & Hq). apply Hi.
      exists h, k. split; [apply list_elem_of_here|done].
    + intros (q & k' & Hin & Hq). apply Hi. exists q, k'.
      split; [by apply list_elem_of_further|done].
Qed.

Section bind.
Context `{Target}.

(** The loop of [BIND] resolves the branches of its list and touches nothing else; it
    needs as many iterations as there are branches. *)
Lemma bind_loop_spec c h ps target a fuel :
  chain a c h ps -> (length ps <= fuel)%nat ->
  (forall q k, (q, k) ∈ ps ->
     fits c (target - q) = true /\ is_s 64 (target - q) /\
     IsAligned q (alignment a) = true /\ IsAligned (target - q) (alignment a) = true) ->
  exists a', bind_loop c fuel target h a = Some (Ok a') /\ resolved c ps target a a'.
Proof.
  revert h a fuel. induction ps as [|[p k] ps IH]; intros h a fuel Hc Hfuel Hps;
    inversion Hc as [|? ? next ? Hk Hb He Hn Hc']; subst.
  { exists a. split; [by destruct fuel|].
    split; [done..|by intros ? ? ?%elem_of_nil|done]. }
  rename p into h. destruct fuel as [|fuel]; [simpl in Hfuel; lia|]. simpl in Hfuel.
  destruct (Hps h k ltac:(apply list_elem_of_here)) as (Hf & H64 & Ha1 & Ha2).
  destruct (Update_spec k a h (link_offset h next) (target - h)) as (bs & Eu & Hl & Hbs);
    [done..|].
  assert (in_buffer a h (length bs) = true) as Hb' by by rewrite Hl.
  apply in_buffer_spec in Hb as Hb0. pose proof (size_pos (class_of k)) as Hs.
  assert (chain (patch a h bs) (class_of k) next ps) as Hc1.
  { apply (chain_agree a); [done|intros; by rewrite in_buffer_patch|].
    intros q k' Hin. pose proof (chain_below _ _ _ _ _ _ Hc' Hin).
    apply slice_patch_other; [done|lia|left; lia]. }
  assert (resolved (class_of k) [(h, k)] target a (patch a h bs)) as Hr1.
  { split; [by apply length_patch|done..| |].
    - intros q k' [[= -> ->]|[]%elem_of_nil]%elem_of_cons. rewrite <- Hl.
      by rewrite slice_patch_same.
    - intros i Hi. rewrite lookup_patch, decide_False; [done| |done].
      intros Hr. apply Hi. exists h, k. split; [apply list_elem_of_here|lia]. }
  cbn [bind_loop]. rewrite (proj2 (Z.ltb_ge h 0)) by lia.
  unfold assert at 1 2. rewrite Ha1, Ha2. cbn [mbind outcome_bind]. rewrite Eu.
  destruct (Z.eqb_spec (link_offset h next) 0) as [E0|E0].
  - (* the last branch *)
    exists (patch a h bs). split; [done|].
    assert (ps = []) as ->; [|done].
    destruct Hn as [-> | Hn]; [by eapply chain_end|].
    unfold link_offset in E0. destruct (Z.eqb_spec next (-1)); lia.
  - destruct Hn as [-> | Hn]; [done|].
    assert (h - link_offset h next = next) as ->.
    { unfold link_offset. destruct (Z.eqb_spec next (-1)); lia. }
    destruct (IH next (patch a h bs) fuel Hc1 ltac:(lia)) as (a' & Eb & Hr2).
    { intros q k' Hin. apply (Hps q k'). by apply list_elem_of_further. }
    exists a'. split; [done|]. apply (resolved_cons _ _ _ next _ _ _ (patch a h bs)); auto; lia.
Qed.

(** ** All the lists of a label *)

#[export] Instance branch_class_eq_dec : EqDecision branch_class.
Proof. solve_decision. Defined.

(** The label is unbound and the code holds exactly the pending branches [ps], class by
    class, without overlap. *)
Record pending (l : Label) (a : MicroAssembler) (ps : branch_class -> list (Z * branch))
    : Prop := {
  pending_unbound : IsBound l = false;
  pending_chain c : chain a c (head c l) (ps c);
  pending_disjoint c c' i :
    c <> c' -> covered c (ps c) i -> ~ covered c' (ps c') i;
  pending_aligned c q k : (q, k) ∈ ps c -> IsAligned q (alignment a) = true;
}.

Lemma pending_new a : pending Label_new a (fun _ => []).
Proof.
  split; [done|intros []; constructor|..].
  - intros c c' i _ (q & k & []%elem_of_nil & _).
  - by intros c q k ?%elem_of_nil.
Qed.

Lemma aligned_sub a x y :
  IsAligned x (alignment a) = true -> IsAligned y (alignment a) = true ->
  IsAligned (x - y) (alignment a) = true.
Proof.
  assert (exists k, 0 <= k /\ alignment a = 2 ^ k) as (k & Hk & ->).
  { unfold alignment. destruct (Supports a RV_C); [by exists 1|by exists 2]. }
  rewrite !IsAligned_spec by done. intros Hx Hy.
  pose proof (pow2_pos k Hk). rewrite Zminus_mod, Hx, Hy. apply Z.mod_0_l. lia.
Qed.

Section resolve.
Context (l : Label) (a : MicroAssembler) (ps : branch_class -> list (Z * branch)) (fuel : nat).
Context (Hp : pending l a ps).
Context (Hfits : forall c q k, (q, k) ∈ ps c -> fits c (Position a - q) = true).
Context (Halign : IsAligned (Position a) (alignment a) = true).
Context (Hsmall : Position a < 2 ^ 31).
Context (Hfuel : forall c, (length (ps c) <= fuel)%nat).

(** The state of [Bind] after the lists of the classes [D]. *)
Record binding (D : list branch_class) (l1 : Label) (a1 : MicroAssembler) : Prop := {
  binding_position : position_ l1 = position_ l;
  binding_done c : c ∈ D -> head c l1 = -1;
  binding_todo c : c ∉ D -> head c l1 = head c l;
  binding_length : length (buffer_ a1) = length (buffer_ a);
  binding_extensions : extensions_ a1 = extensions_ a;
  binding_branches c q k :
    c ∈ D -> (q, k) ∈ ps c -> encodes k (Position a - q) (slice a1 q (size c));
  binding_frame i : (forall c, c ∈ D -> ~ covered c (ps c) i) -> buffer_ a1 !! i = buffer_ a !! i;
}.

Lemma binding_start : binding [] l a.
Proof. split; try done; by intros ? ?%elem_of_nil || by intros ? ? ? ?%elem_of_nil. Qed.

Lemma head_set_head c c' v l1 :
  head c' (set_head c l1 v) = if decide (c = c') then v else head c' l1.
Proof. by destruct c, c'. Qed.

Lemma position_set_head c v l1 : position_ (set_head c l1 v) = position_ l1.
Proof. by destruct c. Qed.

(** The branches of a list that is still to be resolved are untouched. *)
Lemma binding_slice D l1 a1 c q k :
  binding D l1 a1 -> c ∉ D -> (q, k) ∈ ps c -> slice a1 q (size c) = slice a q (size c).
Proof.
  intros Hb Hc Hin. pose proof (chain_below _ _ _ _ _ _ (pending_chain _ _ _ Hp c) Hin).
  apply slice_ext; [lia|]. intros i Hi. apply (binding_frame _ _ _ Hb). intros c' Hc' Hcov.
  apply (pending_disjoint _ _ _ Hp c c' i); [congruence| |done].
  exists q, k. split; [done|lia].
Qed.

Lemma binding_step D l1 a1 c :
  binding D l1 a1 -> c ∉ D ->
  exists l2 a2, BIND c fuel (Position a) (l1, a1) = Some (Ok (l2, a2)) /\
    binding (c :: D) l2 a2.
Proof.
  intros Hb Hc. pose proof (pending_chain _ _ _ Hp c) as Hch.
  assert (chain a1 c (head c l1) (ps c)) as Hch1.
  { rewrite (binding_todo _ _ _ Hb) by done. apply (chain_agree a); [done| |].
    - intros q n. unfold in_buffer, Position. by rewrite (binding_length _ _ _ Hb).
    - intros q k Hin. by apply (binding_slice D l1 a1 c q k). }
  assert (alignment a1 = alignment a) as Eal.
  { unfold alignment, Supports. by rewrite (binding_extensions _ _ _ Hb). }
  destruct (bind_loop_spec c (head c l1) (ps c) (Position a) a1 fuel Hch1 (Hfuel c))
    as (a2 & Eb & [L2 X2 _ B2 F2]).
  { intros q k Hin. pose proof (pending_aligned _ _ _ Hp c q k Hin) as Hq. rewrite Eal.
    split_and!; [by eapply Hfits| |done|by apply aligned_sub].
    pose proof (chain_in_buffer _ _ _ _ _ _ Hch Hin) as Hbuf%in_buffer_spec.
    unfold is_s. change (2 ^ (64 - 1)) with (2 ^ 63).
    pose proof (pow2_le 31 63 ltac:(lia)). lia. }
  exists (set_head c l1 (-1)), a2. split; [unfold BIND; by rewrite Eb|]. split.
  - rewrite position_set_head. apply (binding_position _ _ _ Hb).
  - intros c' Hc'. rewrite head_set_head. destruct (decide (c = c')); [done|].
    apply (binding_done _ _ _ Hb). apply elem_of_cons in Hc'. by destruct Hc'.
  - intros c' Hc'. rewrite head_set_head. apply not_elem_of_cons in Hc' as [Hne Hn].
    rewrite decide_False by congruence. by apply (binding_todo _ _ _ Hb).
  - rewrite L2. apply (binding_length _ _ _ Hb).
  - rewrite X2. apply (binding_extensions _ _ _ Hb).
  - intros c' q k Hc' Hin. destruct (decide (c' = c)) as [->|Hne]; [by apply B2|].
    apply elem_of_cons in Hc'. destruct Hc' as [?|Hc']; [done|].
    pose proof (chain_below _ _ _ _ _ _ (pending_chain _ _ _ Hp c') Hin).
    rewrite (slice_ext a1); [by apply (binding_branches _ _ _ Hb)|lia|].
    intros i Hi. apply F2. intros Hcov.
    apply (pending_disjoint _ _ _ Hp c c' i); [done|done|].
    exists q, k. split; [done|lia].
  - intros i Hi. rewrite F2; [|apply Hi, list_elem_of_here].
    apply (binding_frame _ _ _ Hb). intros c' Hc'. apply Hi. by apply list_elem_of_further.
Qed.

Lemma Bind_binding :
  exists l' a', Bind fuel l a = Some (l' ← BindTo l' (Position a); Ok (l', a')) /\
    binding [Far; J; B; CJ; CB] l' a'.
Proof.
  destruct (binding_step [] l a CB) as (l1 & a1 & E1 & B1);
    [apply binding_start|by apply not_elem_of_nil|].
  destruct (binding_step _ l1 a1 CJ B1) as (l2 & a2 & E2 & B2); [compute_done|].
  destruct (binding_step _ l2 a2 B B2) as (l3 & a3 & E3 & B3); [compute_done|].
  destruct (binding_step _ l3 a3 J B3) as (l4 & a4 & E4 & B4); [compute_done|].
  destruct (binding_step _ l4 a4 Far B4) as (l5 & a5 & E5 & B5); [compute_done|].
  exists l5, a5. split; [|done]. unfold Bind. rewrite (pending_unbound _ _ _ Hp). cbv zeta.
  rewrite E1. cbn [andBIND]. rewrite E2. cbn [andBIND]. rewrite E3. cbn [andBIND].
  rewrite E4. cbn [andBIND]. by rewrite E5.
Qed.

End resolve.

(** Binding a label resolves every pending branch of every class to the current
    position and changes no other byte of the code; the label is bound there and has no
    pending branches left.  The loops terminate within as many iterations as the longest
    list has branches. *)
Lemma Bind_resolves l a ps fuel :
  pending l a ps ->
  (forall c q k, (q, k) ∈ ps c -> fits c (Position a - q) = true) ->
  IsAligned (Position a) (alignment a) = true -> Position a < 2 ^ 31 ->
  (forall c, (length (ps c) <= fuel)%nat) ->
  exists l' a', Bind fuel l a = Some (Ok (l', a')) /\
    IsBound l' = true /\ position_ l' = Position a /\ IsLinked l' = false /\
    Position a' = Position a /\ extensions_ a' = extensions_ a /\
    (forall c q k, (q, k) ∈ ps c -> encodes k (Position a - q) (slice a' q (size c))) /\
    (forall i, (forall c, ~ covered c (ps c) i) -> buffer_ a' !! i = buffer_ a !! i).
Proof.
  intros Hp Hf Ha Hs Hfu.
  destruct (Bind_binding l a ps fuel Hp Hf Ha Hs Hfu) as (l1 & a' & E & [P D _ L X Br Fr]).
  assert (forall c, c ∈ [Far; J; B; CJ; CB]) as Hall by (intros []; compute_done).
  assert (IsLinked l1 = false) as HL.
  { unfold IsLinked. pose proof (fun c => D c (Hall c)) as Dc.
    rewrite (Dc CB : unresolved_cb_ l1 = _), (Dc CJ : unresolved_cj_ l1 = _),
      (Dc B : unresolved_b_ l1 = _), (Dc J : unresolved_j_ l1 = _),
      (Dc Far : unresolved_far_ l1 = _). done. }
  assert (0 <= Position a) by (unfold Position; lia).
  assert (IsBound l1 = false) as HB.
  { unfold IsBound. rewrite P. apply (pending_unbound _ _ _ Hp). }
  assert (negb (Position a =? -1) = true) as HN by lia.
  eexists _, a'. rewrite E. unfold BindTo, assert. rewrite HB, HL. cbn [negb mbind outcome_bind].
  unfold IsBound at 1. cbn [position_]. rewrite HN. cbn [mbind outcome_bind].
  split_and!; try done.
  - unfold Position. by rewrite L.
  - intros c q k. apply Br, Hall.
  - intros i Hi. apply Fr. intros c _. apply Hi.
Qed.

End bind.
