(* ===== verification/RiscvLabelLink.v ===== *)
(** Emitting branches and jumps: forward ones join the lists of their label, backward ones
    reach it, and the simulator executes what they encode. *)
From stdpp Require Import base numbers list sets gmap.
From Stdlib Require Import ZArith Lia.
From S2P Require Import Prelude Utils Random RiscvEncoding RiscvEncodingProps RiscvState RiscvAlu RiscvFloat RiscvInterp RiscvCompressed RiscvInvariant RiscvStateProps RiscvExec RiscvAssembler RiscvDecode RiscvDecodeB RiscvAsmSim RiscvAsmSimI RiscvLabel RiscvLabelProps.
Local Open Scope Z_scope.
Local Open Scope cxx_scope.

Section links.
Context `{Target}.

(** ** Appending code *)

Definition append (a : MicroAssembler) (bs : list Z) : MicroAssembler :=
  mkAssembler (buffer_ a ++ bs) (extensions_ a) (far_branch_level_ a).

Lemma emit_append bs a : emit_bytes bs a = Ok (append a bs).
Proof. done. Qed.

Lemma Position_append a bs : Position (append a bs) = Position a + Z.of_nat (length bs).
Proof. unfold Position, append. cbn [buffer_]. rewrite length_app. lia. Qed.

Lemma in_buffer_append a bs q n :
  in_buffer a q n = true -> in_buffer (append a bs) q n = true.
Proof. rewrite !in_buffer_spec, Position_append. lia. Qed.

Lemma slice_append a bs q n :
  in_buffer a q n = true -> slice (append a bs) q n = slice a q n.
Proof.
  intros [? ?]%in_buffer_spec. unfold Position in *. apply slice_ext; [done|].
  intros i Hi. unfold append. cbn [buffer_]. apply lookup_app_l. lia.
Qed.

Lemma slice_end a bs n :
  length bs = n -> slice (append a bs) (Position a) n = bs.
Proof.
  intros <-. unfold slice, Position, append. cbn [buffer_].
  by rewrite Nat2Z.id, drop_app_length, firstn_all.
Qed.

Lemma chain_append a bs c h ps : chain a c h ps -> chain (append a bs) c h ps.
Proof.
  intros Hc. apply (chain_agree a); [done|intros; by apply in_buffer_append|].
  intros q k Hin. apply slice_append. by eapply chain_in_buffer.
Qed.

(** Emitting other code leaves the pending branches pending. *)
Lemma pending_append l a ps bs : pending l a ps -> pending l (append a bs) ps.
Proof.
  intros [U C D A]. split; [done|intros c; by apply chain_append|done|].
  intros c q k Hin. by apply (A c q k).
Qed.

(** ** Linking *)

(** The pending branches with [(p, k)] added to its class. *)
Definition add_branch (ps : branch_class -> list (Z * branch)) (p : Z) (k : branch)
    : branch_class -> list (Z * branch) :=
  fun c => if decide (c = class_of k) then (p, k) :: ps c else ps c.

Lemma head_below l a ps c : pending l a ps -> head c l < Position a.
Proof.
  intros Hp. pose proof (pending_chain _ _ _ Hp c) as Hc. inversion Hc as [|? ? ? ? ? Hb].
  - unfold Position. lia.
  - apply in_buffer_spec in Hb. pose proof (size_pos c). lia.
Qed.

Lemma link_ok l a ps c :
  pending l a ps ->
  link c l (Position a) =
    Ok (set_head c l (Position a), link_offset (Position a) (head c l)).
Proof.
  intros Hp. pose proof (head_below l a ps c Hp). unfold link, link_offset, assert.
  rewrite (proj2 (Z.ltb_lt (head c l) (Position a))) by done. cbn [mbind outcome_bind].
  destruct (head c l =? -1); [done|]. cbv zeta.
  by rewrite (proj2 (Z.ltb_lt 0 (Position a - head c l))) by lia.
Qed.

(** A branch emitted with the offset [link] returned becomes pending. *)
Lemma pending_link l a ps k bs :
  pending l a ps -> IsAligned (Position a) (alignment a) = true ->
  length bs = size (class_of k) ->
  encodes k (link_offset (Position a) (head (class_of k) l)) bs ->
  pending (set_head (class_of k) l (Position a)) (append a bs)
    (add_branch ps (Position a) k).
Proof.
  intros Hp Ha Hl He. set (c := class_of k) in *.
  pose proof (pending_append l a ps bs Hp) as Hp'. split.
  - pose proof (pending_unbound _ _ _ Hp) as U. unfold IsBound in *.
    by rewrite position_set_head.
  - intros c'. rewrite head_set_head. unfold add_branch. fold c.
    destruct (decide (c = c')) as [<-|Hne]; [|rewrite decide_False by done;
      apply (pending_chain _ _ _ Hp')]. rewrite decide_True by done.
    econstructor; [done| | | |apply (pending_chain _ _ _ Hp' c)].
    + apply in_buffer_spec. rewrite Position_append, Hl. unfold Position. lia.
    + by rewrite slice_end.
    + pose proof (pending_chain _ _ _ Hp c) as Hc. inversion Hc as [|? ? ? ? ? Hb]; [by left|].
      right. apply in_buffer_spec in Hb. lia.
  - assert (forall c' i, covered c' (ps c') i -> (i < length (buffer_ a))%nat) as Hold.
    { intros c' i (q & k' & Hin & Hi).
      pose proof (chain_in_buffer _ _ _ _ _ _ (pending_chain _ _ _ Hp c') Hin) as Hb.
      apply in_buffer_spec in Hb. unfold Position in Hb. lia. }
    assert (forall c' i, covered c' (add_branch ps (Position a) k c') i ->
      covered c' (ps c') i \/ c' = c /\ (length (buffer_ a) <= i)%nat) as Hcov.
    { intros c' i (q & k' & Hin & Hi). unfold add_branch in Hin.
      destruct (decide (c' = class_of k)); [|left; by exists q, k'].
      apply elem_of_cons in Hin. destruct Hin as [[= -> ->]|Hin]; [|left; by exists q, k'].
      right. split; [done|]. unfold Position in Hi. lia. }
    intros c1 c2 i Hne H1 H2.
    destruct (Hcov _ _ H1) as [H1'|[-> ?]], (Hcov _ _ H2) as [H2'|[-> ?]]; [|..|done].
    + by apply (pending_disjoint _ _ _ Hp c1 c2 i).
    + apply Hold in H1'. lia.
    + apply Hold in H2'. lia.
  - intros c' q k' Hin. unfold add_branch in Hin.
    destruct (decide _); [|by apply (pending_aligned _ _ _ Hp' c' q k')].
    apply elem_of_cons in Hin. destruct Hin as [[= -> ->]|Hin]; [done|].
    by apply (pending_aligned _ _ _ Hp' c' q k').
Qed.

(** ** Emitting branches *)

Lemma ASSERT_true c e a : c = true -> (ASSERT c ;;; e) a = e a.
Proof. by intros ->. Qed.

Ltac pass := repeat (rewrite ASSERT_true;
  [|first [assumption | by apply IsRegField_reg | by apply (IsFunctField_u 7)
          | by apply (IsFunctField_u 3)]]).

Lemma EmitBType_emit off rs1 rs2 f3 a :
  is_reg rs1 -> is_reg rs2 -> is_u 3 f3 -> IsBTypeImm off = true ->
  Asm.EmitBType off rs2 rs1 f3 Opcode.BRANCH a
  = emit_bytes (bytes_of_u 4 (BType off rs2 rs1 f3 Opcode.BRANCH)) a.
Proof.
  intros H1 H2 H3 Hi. unfold Asm.EmitBType, BType. assert (is_u 7 Opcode.BRANCH) by done.
  pass. unfold Emit32. reflexivity.
Qed.

Lemma EmitBType_ok off rs1 rs2 f3 a :
  is_reg rs1 -> is_reg rs2 -> is_u 3 f3 -> is_s 64 off -> IsBTypeImm off = true ->
  exists bs, Asm.EmitBType off rs2 rs1 f3 Opcode.BRANCH a = Ok (append a bs) /\
    length bs = 4%nat /\ encodes (KB rs1 rs2 f3) off bs.
Proof.
  intros H1 H2 H3 Hs Hi. rewrite EmitBType_emit by done.
  pose proof (decode_BType off rs2 rs1 f3 Opcode.BRANCH H2 H1 H3 ltac:(done) Hs Hi) as D.
  cbv zeta in D. revert D. generalize (BType off rs2 rs1 f3 Opcode.BRANCH) as e.
  intros e (Hu & D1 & D2 & D3 & D4 & D5). exists (bytes_of_u 4 e).
  split_and!; [apply emit_append|apply length_bytes_of_u|]. exists e. by split_and!.
Qed.

Lemma EmitJType_emit off rd a :
  is_reg rd -> IsJTypeImm off = true ->
  Asm.EmitJType off rd Opcode.JAL a = emit_bytes (bytes_of_u 4 (JType off rd Opcode.JAL)) a.
Proof.
  intros H1 Hi. unfold Asm.EmitJType, JType. assert (is_u 7 Opcode.JAL) by done.
  pass. unfold Emit32. reflexivity.
Qed.

Lemma EmitJType_ok off rd a :
  is_reg rd -> is_s 64 off -> IsJTypeImm off = true ->
  exists bs, Asm.EmitJType off rd Opcode.JAL a = Ok (append a bs) /\
    length bs = 4%nat /\ encodes (KJ rd) off bs.
Proof.
  intros H1 Hs Hi. rewrite EmitJType_emit by done.
  pose proof (decode_JType off rd Opcode.JAL H1 ltac:(done) Hs Hi) as D.
  cbv zeta in D. revert D. generalize (JType off rd Opcode.JAL) as e.
  intros e (Hu & D1 & D2 & D3). exists (bytes_of_u 4 e).
  split_and!; [apply emit_append|apply length_bytes_of_u|]. exists e. by split_and!.
Qed.

Lemma EmitJType_range off rd a :
  IsJTypeImm off = false -> Asm.EmitJType off rd Opcode.JAL a = Fatal AssertionFailed.
Proof. intros E. unfold Asm.EmitJType, andThen at 1, ASSERT at 1. by rewrite E. Qed.

Lemma append_append a bs1 bs2 : append (append a bs1) bs2 = append a (bs1 ++ bs2).
Proof. unfold append. cbn. by rewrite app_assoc. Qed.

Lemma EmitFarJump_ok off a :
  fits Far off = true ->
  exists bs, EmitFarJump off a = Ok (append a bs) /\ length bs = 8%nat /\
    encodes KFar off bs.
Proof.
  intros Hf. destruct (far_imms off) as [HU HI]. pose proof (far_sum off Hf) as Hsum.
  assert (is_s 64 (ImmHi off)) by (rewrite ImmHi_wraps; apply (is_s_le 32);
    [lia|by apply wraps_range]).
  assert (is_s 64 (ImmLo off)) by (rewrite ImmLo_wraps; apply (is_s_le 12);
    [lia|by apply wraps_range]).
  unfold EmitFarJump. cbv zeta. clear Hf. revert HU HI Hsum H0 H1.
  generalize (ImmHi off) as hi, (ImmLo off) as lo. intros hi lo HU HI Hsum Hhi Hlo.
  destruct (decode_UType hi FAR_TMP Opcode.AUIPC) as (D1 & D2 & D3); [done..|].
  destruct (decode_IType lo FAR_TMP Funct3.F3_0 Reg.ZR Opcode.JALR)
    as (D4 & D5 & D6 & D7 & D8); [done..|].
  assert (is_reg FAR_TMP /\ is_reg Reg.ZR /\ is_u 7 Opcode.AUIPC /\ is_u 7 Opcode.JALR /\
    is_u 3 Funct3.F3_0) as (? & ? & ? & ? & ?) by (unfold is_reg, FAR_TMP; repeat split; done).
  pose proof (UType_u hi FAR_TMP Opcode.AUIPC) as U1.
  pose proof (IType_u lo FAR_TMP Funct3.F3_0 Reg.ZR Opcode.JALR) as U2.
  rewrite HU. cbn [negb]. unfold andThen at 1, Asm.EmitUType, Asm.EmitIType. pass.
  unfold UType, IType in *. set (i1 := EncodeUTypeImm hi .| _ .| _) in *.
  set (i2 := EncodeITypeImm lo .| _ .| _ .| _ .| _) in *. clearbody i1 i2.
  unfold Emit32. rewrite emit_append. cbn [mbind outcome_bind]. pass.
  rewrite emit_append, append_append. eexists. split_and!; [done| |].
  - by rewrite length_app, !length_bytes_of_u.
  - exists i1, i2. split_and!; [done..|]. by rewrite D3, D8.
Qed.

Definition valid_funct3 (f3 : Z) : Prop :=
  f3 ∈ [Funct3.BEQ; Funct3.BNE; Funct3.BLT; Funct3.BGE; Funct3.BLTU; Funct3.BGEU].

(** The opposite comparison. *)
Definition inverted (f3 : Z) : Z := f3 .^ 1.

Lemma InvertFunct3_ok f3 : valid_funct3 f3 -> InvertFunct3 f3 = Ok (inverted f3).
Proof.
  unfold valid_funct3. rewrite !elem_of_cons, elem_of_nil.
  by intros [-> |[-> |[-> |[-> |[-> |[-> |[]]]]]]].
Qed.

Lemma valid_funct3_u f3 : valid_funct3 f3 -> is_u 3 f3 /\ is_u 3 (inverted f3).
Proof.
  unfold valid_funct3. rewrite !elem_of_cons, elem_of_nil.
  by intros [-> |[-> |[-> |[-> |[-> |[-> |[]]]]]]].
Qed.

(** Offsets that fit an instruction are 64-bit values. *)
Lemma link_offset_s l a ps c :
  pending l a ps -> Position a < 2 ^ 31 -> is_s 64 (link_offset (Position a) (head c l)).
Proof.
  intros Hp Hs. pose proof (head_below l a ps c Hp).
  assert (-1 <= head c l).
  { pose proof (pending_chain _ _ _ Hp c) as Hc. inversion Hc as [|? ? ? ? ? Hb]; [lia|].
    apply in_buffer_spec in Hb. lia. }
  assert (0 <= Position a) by (unfold Position; lia).
  unfold is_s, link_offset. change (2 ^ (64 - 1)) with (2 ^ 63).
  pose proof (pow2_le 31 63 ltac:(lia)). pose proof (pow2_pos 63 ltac:(lia)).
  destruct (head c l =? -1); lia.
Qed.

Lemma pending_aligned_append a bs :
  IsAligned (Position a) (alignment a) = true -> length bs = 4%nat ->
  IsAligned (Position (append a bs)) (alignment (append a bs)) = true.
Proof.
  intros Ha Hl. rewrite Position_append, Hl. change (alignment (append a bs)) with (alignment a).
  replace (Position a + Z.of_nat 4) with (Position a - -4) by lia. apply aligned_sub; [done|].
  unfold alignment. by destruct (Supports a RV_C).
Qed.

(** *** Forward *)

Section forward.
Context (l : Label) (a : MicroAssembler) (ps : branch_class -> list (Z * branch)).
Context (Hp : pending l a ps).
Context (Ha : IsAligned (Position a) (alignment a) = true) (Hs : Position a + 4 < 2 ^ 31).

(** The branch around the jump of a longer form. *)
Lemma skip_branch rs1 rs2 func n :
  is_reg rs1 -> is_reg rs2 -> valid_funct3 func -> n = 8 \/ n = 12 ->
  exists bs, Asm.EmitBType n rs2 rs1 (inverted func) Opcode.BRANCH a = Ok (append a bs) /\
    length bs = 4%nat /\ encodes (KB rs1 rs2 (inverted func)) n bs.
Proof.
  intros H1 H2 [H3 H4]%valid_funct3_u Hn.
  apply EmitBType_ok; [done..| |]; by destruct Hn as [-> | ->].
Qed.

Lemma link_after bs c :
  length bs = 4%nat ->
  link c l (Position (append a bs)) =
    Ok (set_head c l (Position a + 4), link_offset (Position a + 4) (head c l)).
Proof.
  intros Hl. rewrite (link_ok l (append a bs) ps c (pending_append _ _ _ _ Hp)).
  by rewrite Position_append, Hl.
Qed.

Lemma pending_after bs0 bs k :
  length bs0 = 4%nat -> length bs = size (class_of k) ->
  encodes k (link_offset (Position a + 4) (head (class_of k) l)) bs ->
  pending (set_head (class_of k) l (Position a + 4)) (append (append a bs0) bs)
    (add_branch ps (Position a + 4) k).
Proof.
  intros H0 Hl He. replace (Position a + 4) with (Position (append a bs0)) in *
    by (rewrite Position_append, H0; done).
  apply pending_link; [by apply pending_append|by apply pending_aligned_append|done..].
Qed.

Lemma assert_length_ok bs0 bs n :
  Z.of_nat (length bs0 + length bs) = n ->
  assert_length (Position a) n (append (append a bs0) bs) = Ok (append (append a bs0) bs).
Proof.
  intros Hn. unfold assert_length, assert. rewrite !Position_append.
  by replace (Position a + Z.of_nat (length bs0) + Z.of_nat (length bs) - Position a =? n)
    with true by lia.
Qed.

Lemma EmitBranch_near rs1 rs2 func d :
  is_reg rs1 -> is_reg rs2 -> valid_funct3 func -> d = kNearJump \/ far_branch_level_ a = 0 ->
  fits B (link_offset (Position a) (head B l)) = true ->
  exists bs, EmitBranch rs1 rs2 func d l a = Ok (set_head B l (Position a), append a bs) /\
    pending (set_head B l (Position a)) (append a bs)
      (add_branch ps (Position a) (KB rs1 rs2 func)).
Proof.
  intros H1 H2 H3 Hd Hf. cbn [fits] in Hf.
  destruct (EmitBType_ok (link_offset (Position a) (head B l)) rs1 rs2 func a)
    as (bs & Eb & Hl & He); [done..|by apply valid_funct3_u| |done|].
  { apply (link_offset_s l a ps); [done|lia]. }
  exists bs. split; [|by apply (pending_link l a ps (KB rs1 rs2 func))].
  unfold EmitBranch. cbv zeta. rewrite (pending_unbound _ _ _ Hp), (link_ok l a ps B Hp).
  destruct Hd as [-> | Hd]; cbn [is_near mbind outcome_bind].
  - rewrite Hf. cbn [negb]. unfold plain. by rewrite Eb.
  - rewrite Hd, Z.eqb_refl, Hf. cbn [negb]. unfold plain. rewrite Eb. by destruct (is_near d).
Qed.

Lemma EmitBranch_far rs1 rs2 func :
  is_reg rs1 -> is_reg rs2 -> valid_funct3 func -> far_branch_level_ a = 1 ->
  fits J (link_offset (Position a + 4) (head J l)) = true ->
  exists bs0 bs,
    EmitBranch rs1 rs2 func kFarJump l a
      = Ok (set_head J l (Position a + 4), append (append a bs0) bs) /\
    length bs0 = 4%nat /\ encodes (KB rs1 rs2 (inverted func)) 8 bs0 /\
    pending (set_head J l (Position a + 4)) (append (append a bs0) bs)
      (add_branch ps (Position a + 4) (KJ Reg.ZR)).
Proof.
  intros H1 H2 H3 Hl Hf. cbn [fits] in Hf.
  destruct (skip_branch rs1 rs2 func 8) as (bs0 & E0 & L0 & B0); [done..|by left|].
  pose proof (link_offset_s l (append a bs0) ps J (pending_append _ _ _ _ Hp)) as H64.
  rewrite Position_append, L0 in H64. change (Z.of_nat 4) with 4 in H64.
  destruct (EmitJType_ok (link_offset (Position a + 4) (head J l)) Reg.ZR (append a bs0))
    as (bs & Eb & Lb & He); [by unfold is_reg|apply H64; lia|done|].
  exists bs0, bs. split_and!; [|done|done|by apply (pending_after bs0 bs (KJ Reg.ZR))].
  unfold EmitBranch. cbv zeta. rewrite (pending_unbound _ _ _ Hp). cbn [is_near].
  rewrite Hl. change (1 =? 0) with false. change (1 =? 1) with true. cbv iota.
  rewrite InvertFunct3_ok by done. cbn [mbind outcome_bind]. rewrite E0.
  cbn [mbind outcome_bind]. rewrite (link_after bs0 J L0). cbn [mbind outcome_bind].
  rewrite Eb. cbn [mbind outcome_bind]. by rewrite assert_length_ok by (rewrite L0, Lb; done).
Qed.

Lemma EmitBranch_very_far rs1 rs2 func :
  is_reg rs1 -> is_reg rs2 -> valid_funct3 func -> far_branch_level_ a = 2 ->
  fits Far (link_offset (Position a + 4) (head Far l)) = true ->
  exists bs0 bs,
    EmitBranch rs1 rs2 func kFarJump l a
      = Ok (set_head Far l (Position a + 4), append (append a bs0) bs) /\
    length bs0 = 4%nat /\ encodes (KB rs1 rs2 (inverted func)) 12 bs0 /\
    pending (set_head Far l (Position a + 4)) (append (append a bs0) bs)
      (add_branch ps (Position a + 4) KFar).
Proof.
  intros H1 H2 H3 Hl Hf.
  destruct (skip_branch rs1 rs2 func 12) as (bs0 & E0 & L0 & B0); [done..|by right|].
  destruct (EmitFarJump_ok _ (append a bs0) Hf) as (bs & Eb & Lb & He).
  exists bs0, bs. split_and!; [|done|done|by apply (pending_after bs0 bs KFar)].
  unfold EmitBranch. cbv zeta. rewrite (pending_unbound _ _ _ Hp). cbn [is_near].
  rewrite Hl. change (2 =? 0) with false. change (2 =? 1) with false. cbv iota.
  rewrite InvertFunct3_ok by done. cbn [mbind outcome_bind]. rewrite E0.
  cbn [mbind outcome_bind]. rewrite (link_after bs0 Far L0). cbn [mbind outcome_bind].
  rewrite Eb. cbn [mbind outcome_bind]. by rewrite assert_length_ok by (rewrite L0, Lb; done).
Qed.

Lemma EmitJump_near rd d :
  is_reg rd -> d = kNearJump \/ far_branch_level_ a < 2 ->
  fits J (link_offset (Position a) (head J l)) = true ->
  exists bs, EmitJump rd d l a = Ok (set_head J l (Position a), append a bs) /\
    pending (set_head J l (Position a)) (append a bs) (add_branch ps (Position a) (KJ rd)).
Proof.
  intros H1 Hd Hf. cbn [fits] in Hf.
  destruct (EmitJType_ok (link_offset (Position a) (head J l)) rd a)
    as (bs & Eb & Hl & He); [done| |done|].
  { apply (link_offset_s l a ps); [done|lia]. }
  exists bs. split; [|by apply (pending_link l a ps (KJ rd))].
  unfold EmitJump. cbv zeta. rewrite (pending_unbound _ _ _ Hp), (link_ok l a ps J Hp).
  destruct Hd as [-> | Hd]; cbn [is_near mbind outcome_bind].
  - rewrite Hf. cbn [negb]. unfold plain. by rewrite Eb.
  - rewrite (proj2 (Z.ltb_lt _ _) Hd), Hf. cbn [negb]. unfold plain. rewrite Eb.
    by destruct (is_near d).
Qed.

Lemma EmitJump_far rd :
  2 <= far_branch_level_ a -> fits Far (link_offset (Position a) (head Far l)) = true ->
  exists bs, EmitJump rd kFarJump l a = Ok (set_head Far l (Position a), append a bs) /\
    pending (set_head Far l (Position a)) (append a bs) (add_branch ps (Position a) KFar).
Proof.
  intros Hl Hf. destruct (EmitFarJump_ok _ a Hf) as (bs & Eb & Lb & He).
  exists bs. split; [|by apply (pending_link l a ps KFar)].
  unfold EmitJump. cbv zeta. rewrite (pending_unbound _ _ _ Hp). cbn [is_near].
  rewrite (proj2 (Z.ltb_ge _ _) Hl), (link_ok l a ps Far Hp). cbn [mbind outcome_bind].
  unfold plain. by rewrite Eb.
Qed.

Lemma EmitCBranch_forward rs1p op :
  IsRegPrimeField rs1p = true -> op = COpcode.C_BEQZ \/ op = COpcode.C_BNEZ ->
  fits CB (link_offset (Position a) (head CB l)) = true ->
  exists bs, EmitCBranch rs1p op l a = Ok (set_head CB l (Position a), append a bs) /\
    pending (set_head CB l (Position a)) (append a bs)
      (add_branch ps (Position a) (KCB op rs1p)).
Proof.
  intros Hr Hop Hf. cbn [fits] in Hf.
  pose proof (link_offset_s l a ps CB Hp ltac:(lia)) as H64.
  destruct (decode_c_branch op rs1p _ Hop (IsRegPrimeField_reg _ Hr) H64 Hf)
    as (Hc & D1 & D2 & D3).
  exists (bytes_of_u 2 (op .| EncodeCRs1p rs1p
    .| EncodeCBImm (link_offset (Position a) (head CB l)))). split.
  - unfold EmitCBranch, offset_or_link.
    rewrite (pending_unbound _ _ _ Hp), (link_ok l a ps CB Hp). cbn [mbind outcome_bind].
    rewrite Hf. cbn [negb]. unfold assert. rewrite Hr. done.
  - apply (pending_link l a ps (KCB op rs1p)); [done..|apply length_bytes_of_u|].
    eexists. by split_and!.
Qed.

Lemma EmitCJump_forward op :
  op = COpcode.C_J \/ op = COpcode.C_JAL ->
  fits CJ (link_offset (Position a) (head CJ l)) = true ->
  exists bs, EmitCJump op l a = Ok (set_head CJ l (Position a), append a bs) /\
    pending (set_head CJ l (Position a)) (append a bs) (add_branch ps (Position a) (KCJ op)).
Proof.
  intros Hop Hf. cbn [fits] in Hf.
  pose proof (link_offset_s l a ps CJ Hp ltac:(lia)) as H64.
  destruct (decode_c_jump op _ Hop H64 Hf) as (Hc & D1 & D2).
  exists (bytes_of_u 2 (op .| EncodeCJImm (link_offset (Position a) (head CJ l)))). split.
  - unfold EmitCJump, offset_or_link.
    rewrite (pending_unbound _ _ _ Hp), (link_ok l a ps CJ Hp). cbn [mbind outcome_bind].
    by rewrite Hf.
  - apply (pending_link l a ps (KCJ op)); [done..|apply length_bytes_of_u|].
    eexists. by split_and!.
Qed.

End forward.

(** A conditional branch to an unbound label joins the list of pending branches that
    the chosen form belongs to: a B-type branch at the first level, a jump after an
    inverted branch at the second, an [auipc]/[jalr] pair after an inverted branch at the
    third; the other pending branches stay as they are. *)
Theorem forward_branch l a ps rs1 rs2 func d :
  pending l a ps -> IsAligned (Position a) (alignment a) = true -> Position a + 4 < 2 ^ 31 ->
  is_reg rs1 -> is_reg rs2 -> valid_funct3 func ->
  (d = kNearJump \/ far_branch_level_ a = 0 ->
   fits B (link_offset (Position a) (head B l)) = true ->
   exists bs, EmitBranch rs1 rs2 func d l a = Ok (set_head B l (Position a), append a bs) /\
     pending (set_head B l (Position a)) (append a bs)
       (add_branch ps (Position a) (KB rs1 rs2 func))) /\
  (d = kFarJump -> far_branch_level_ a = 1 ->
   fits J (link_offset (Position a + 4) (head J l)) = true ->
   exists bs0 bs,
     EmitBranch rs1 rs2 func d l a
       = Ok (set_head J l (Position a + 4), append (append a bs0) bs) /\
     length bs0 = 4%nat /\ encodes (KB rs1 rs2 (inverted func)) 8 bs0 /\
     pending (set_head J l (Position a + 4)) (append (append a bs0) bs)
       (add_branch ps (Position a + 4) (KJ Reg.ZR))) /\
  (d = kFarJump -> far_branch_level_ a = 2 ->
   fits Far (link_offset (Position a + 4) (head Far l)) = true ->
   exists bs0 bs,
     EmitBranch rs1 rs2 func d l a
       = Ok (set_head Far l (Position a + 4), append (append a bs0) bs) /\
     length bs0 = 4%nat /\ encodes (KB rs1 rs2 (inverted func)) 12 bs0 /\
     pending (set_head Far l (Position a + 4)) (append (append a bs0) bs)
       (add_branch ps (Position a + 4) KFar)).
Proof.
  intros Hp Ha Hs H1 H2 H3. split_and!; [by apply EmitBranch_near|intros ->..];
    [by apply EmitBranch_far|by apply EmitBranch_very_far].
Qed.

(** A jump to an unbound label, and the compressed branches and jumps, join the list
    of their class. *)
Theorem forward_jump l a ps rd rs1p d :
  pending l a ps -> IsAligned (Position a) (alignment a) = true -> Position a + 4 < 2 ^ 31 ->
  is_reg rd -> IsRegPrimeField rs1p = true ->
  let joins (e : labelled) (k : branch) :=
    fits (class_of k) (link_offset (Position a) (head (class_of k) l)) = true ->
    exists bs, e l a = Ok (set_head (class_of k) l (Position a), append a bs) /\
      pending (set_head (class_of k) l (Position a)) (append a bs)
        (add_branch ps (Position a) k) in
  (d = kNearJump \/ far_branch_level_ a < 2 -> joins (EmitJump rd d) (KJ rd)) /\
  (2 <= far_branch_level_ a -> joins (EmitJump rd kFarJump) KFar) /\
  joins (EmitCBranch rs1p COpcode.C_BEQZ) (KCB COpcode.C_BEQZ rs1p) /\
  joins (EmitCBranch rs1p COpcode.C_BNEZ) (KCB COpcode.C_BNEZ rs1p) /\
  joins (EmitCJump COpcode.C_J) (KCJ COpcode.C_J) /\
  joins (EmitCJump COpcode.C_JAL) (KCJ COpcode.C_JAL).
Proof.
  intros Hp Ha Hs H1 H2 joins. unfold joins. split_and!; cbn [class_of].
  - by apply EmitJump_near.
  - by apply EmitJump_far.
  - apply EmitCBranch_forward; auto.
  - apply EmitCBranch_forward; auto.
  - apply EmitCJump_forward; auto.
  - apply EmitCJump_forward; auto.
Qed.

(** *** Backward *)

Lemma bound_offset_s l a :
  0 <= position_ l -> position_ l < 2 ^ 31 -> Position a < 2 ^ 31 ->
  is_s 64 (position_ l - Position a) /\ is_s 64 (position_ l - Position a - 4).
Proof.
  intros. assert (0 <= Position a) by (unfold Position; lia).
  pose proof (pow2_le 32 63 ltac:(lia)). unfold is_s. change (2 ^ (64 - 1)) with (2 ^ 63). lia.
Qed.

(** A branch to a bound label reaches it: directly when the offset fits a B-type
    immediate, else by an inverted branch around a jump or around an [auipc]/[jalr] pair
    that holds the remaining offset. *)
Theorem backward_branch l a rs1 rs2 func d :
  IsBound l = true -> 0 <= position_ l -> position_ l < 2 ^ 31 -> Position a < 2 ^ 31 ->
  is_reg rs1 -> is_reg rs2 -> valid_funct3 func ->
  let off := position_ l - Position a in
  (IsBTypeImm off = true ->
   exists bs, EmitBranch rs1 rs2 func d l a = Ok (l, append a bs) /\
     encodes (KB rs1 rs2 func) off bs) /\
  (IsBTypeImm off = false -> IsJTypeImm (off + 4) = true -> IsJTypeImm (off - 4) = true ->
   exists bs0 bs, EmitBranch rs1 rs2 func d l a = Ok (l, append (append a bs0) bs) /\
     length bs0 = 4%nat /\ encodes (KB rs1 rs2 (inverted func)) 8 bs0 /\
     encodes (KJ Reg.ZR) (off - 4) bs) /\
  (IsBTypeImm off = false -> IsJTypeImm (off + 4) = false -> fits Far (off - 4) = true ->
   exists bs0 bs, EmitBranch rs1 rs2 func d l a = Ok (l, append (append a bs0) bs) /\
     length bs0 = 4%nat /\ encodes (KB rs1 rs2 (inverted func)) 12 bs0 /\
     encodes KFar (off - 4) bs).
Proof.
  intros Hb Hl0 Hl1 Hs H1 H2 H3 off. destruct (bound_offset_s l a Hl0 Hl1 Hs) as [S1 S2].
  destruct (valid_funct3_u func H3) as [U1 U2].
  assert (forall bs0, length bs0 = 4%nat -> position_ l - Position (append a bs0) = off - 4)
    as Hoff by (intros bs0 Hl; rewrite Position_append, Hl; unfold off; lia).
  unfold EmitBranch. cbv zeta. rewrite Hb. fold off in S1, S2 |- *. split_and!.
  - intros Hf. rewrite Hf.
    destruct (EmitBType_ok off rs1 rs2 func a) as (bs & Eb & Lb & He); [done..|].
    exists bs. split; [unfold plain; by rewrite Eb|done].
  - intros -> -> Hf. destruct (skip_branch a rs1 rs2 func 8) as (bs0 & E0 & L0 & B0);
      [done..|by left|].
    destruct (EmitJType_ok (off - 4) Reg.ZR (append a bs0)) as (bs & Eb & Lb & He);
      [by unfold is_reg|done..|].
    exists bs0, bs. split_and!; [|done..]. rewrite InvertFunct3_ok by done.
    cbn [mbind outcome_bind]. rewrite E0. cbn [mbind outcome_bind]. rewrite Hoff, Eb by done.
    cbn [mbind outcome_bind]. by rewrite assert_length_ok by (rewrite L0, Lb; done).
  - intros -> -> Hf. destruct (skip_branch a rs1 rs2 func 12) as (bs0 & E0 & L0 & B0);
      [done..|by right|].
    destruct (EmitFarJump_ok (off - 4) (append a bs0) Hf) as (bs & Eb & Lb & He).
    exists bs0, bs. split_and!; [|done..]. rewrite InvertFunct3_ok by done.
    cbn [mbind outcome_bind]. rewrite E0. cbn [mbind outcome_bind]. rewrite Hoff, Eb by done.
    cbn [mbind outcome_bind]. by rewrite assert_length_ok by (rewrite L0, Lb; done).
Qed.

(** The range check of the second form looks at the offset plus four while the jump is
    emitted with the offset minus four: a branch back over exactly 512 KiB fails the
    assertion of the encoder. *)
Theorem backward_branch_gap l a rs1 rs2 func d :
  IsBound l = true -> position_ l - Position a = -524288 ->
  is_reg rs1 -> is_reg rs2 -> valid_funct3 func ->
  EmitBranch rs1 rs2 func d l a = Fatal AssertionFailed.
Proof.
  intros Hb Hoff H1 H2 H3. unfold EmitBranch. cbv zeta. rewrite Hb, Hoff.
  change (IsBTypeImm (-524288)) with false. change (IsJTypeImm (-524288 + 4)) with true.
  destruct (skip_branch a rs1 rs2 func 8) as (bs0 & E0 & L0 & B0); [done..|by left|].
  rewrite InvertFunct3_ok by done. cbn [mbind outcome_bind]. rewrite E0.
  cbn [mbind outcome_bind]. rewrite Position_append, L0.
  replace (position_ l - (Position a + Z.of_nat 4)) with (-524292) by lia.
  by rewrite EmitJType_range.
Qed.

End links.

(** ** Witnesses *)

#[local] Existing Instance demo_target.

Lemma forward_branch_witness :
  exists bs, EmitBranch Reg.A0 Reg.A1 Funct3.BEQ kFarJump Label_new demo_assembler
      = Ok (set_head B Label_new 0, append demo_assembler bs) /\
    pending (set_head B Label_new 0) (append demo_assembler bs)
      (add_branch (fun _ => []) 0 (KB Reg.A0 Reg.A1 Funct3.BEQ)).
Proof.
  destruct (forward_branch Label_new demo_assembler (fun _ => []) Reg.A0 Reg.A1 Funct3.BEQ
    kFarJump (pending_new _)) as (W & _); [done|done|done|done|apply list_elem_of_here|].
  apply W; [by right|done].
Defined.

Lemma forward_jump_witness :
  exists bs, EmitCJump COpcode.C_J Label_new demo_assembler
      = Ok (set_head CJ Label_new 0, append demo_assembler bs) /\
    pending (set_head CJ Label_new 0) (append demo_assembler bs)
      (add_branch (fun _ => []) 0 (KCJ COpcode.C_J)).
Proof.
  destruct (forward_jump Label_new demo_assembler (fun _ => []) Reg.RA Reg.A0 kNearJump
    (pending_new _)) as (_ & _ & _ & _ & W & _); [done..|]. by apply W.
Defined.

(** A label bound at the start of the code, seen 100 bytes and 512 KiB further. *)
Lemma backward_branch_witness :
  let a := mkAssembler (replicate 100 0) RV_GCB 0 in
  exists bs, EmitBranch Reg.A0 Reg.A1 Funct3.BLT kNearJump (mkLabel 0 (-1) (-1) (-1) (-1) (-1)) a
      = Ok (mkLabel 0 (-1) (-1) (-1) (-1) (-1), append a bs) /\
    encodes (KB Reg.A0 Reg.A1 Funct3.BLT) (-100) bs.
Proof.
  cbv zeta. destruct (backward_branch (mkLabel 0 (-1) (-1) (-1) (-1) (-1))
    (mkAssembler (replicate 100 0) RV_GCB 0) Reg.A0 Reg.A1 Funct3.BLT kNearJump)
    as (W & _); [done..| |].
  - unfold valid_funct3. set_solver.
  - by apply W.
Defined.

Lemma backward_branch_gap_witness :
  let a := mkAssembler (replicate (Z.to_nat 524288) 0) RV_GCB 0 in
  EmitBranch Reg.A0 Reg.A1 Funct3.BEQ kNearJump (mkLabel 0 (-1) (-1) (-1) (-1) (-1)) a
  = Fatal AssertionFailed.
Proof.
  cbv zeta. apply backward_branch_gap; [done| |done|done|apply list_elem_of_here].
  cbn [position_]. unfold Position. cbn [buffer_]. rewrite length_replicate. lia.
Defined.
