(* ===== verification/RiscvLabelRun.v ===== *)
(** Executing branches: what the simulator does with the code a branch is encoded in. *)
From stdpp Require Import base numbers list sets gmap.
From Stdlib Require Import ZArith Lia.
From S2P Require Import Prelude Utils Random RiscvEncoding RiscvEncodingProps RiscvState RiscvAlu RiscvFloat RiscvInterp RiscvCompressed RiscvInvariant RiscvStateProps RiscvExec RiscvAssembler RiscvDecode RiscvDecodeB RiscvAsmSim RiscvAsmSimI RiscvAsmProgram RiscvLabel RiscvLabelProps RiscvLabelLink.
Local Open Scope Z_scope.
Local Open Scope cxx_scope.

Section execution.
Context `{Target} `{Debug} `{HostFPU} `{Host}.

(** The condition of a branch on the values of its operands. *)
Definition taken (f3 x y : Z) : bool :=
  if f3 =? Funct3.BEQ then x =? y
  else if f3 =? Funct3.BNE then negb (x =? y)
  else if f3 =? Funct3.BLT then sx x <? sx y
  else if f3 =? Funct3.BGE then sx y <=? sx x
  else if f3 =? Funct3.BLTU then x <? y
  else y <=? x.

(** The inverted comparison is the negation. *)
Lemma taken_inverted f3 x y :
  valid_funct3 f3 -> taken (inverted f3) x y = negb (taken f3 x y).
Proof.
  unfold valid_funct3. rewrite !elem_of_cons, elem_of_nil.
  intros [-> |[-> |[-> |[-> |[-> |[-> |[]]]]]]]; unfold taken; simpl;
    rewrite ?negb_involutive; try done; lia.
Qed.

Lemma run_KB rs1 rs2 f3 off bs s :
  valid_funct3 f3 -> encodes (KB rs1 rs2 f3) off bs -> code_at s bs ->
  interpret_at s =
    Ok (add_pc s (if taken f3 (get_xreg s rs1) (get_xreg s rs2) then off else 4)).
Proof.
  intros Hv (e & -> & Hu & Eo & E1 & E2 & E3 & Ei) Hc.
  rewrite (interpret_32 s e) by (done || by eapply wide_opcode).
  unfold Interpret. cbv zeta. fields e. eqbs. unfold InterpretBRANCH, X1, X2. cbv zeta.
  fields e. revert Hv. clear. unfold valid_funct3. rewrite !elem_of_cons, elem_of_nil.
  intros [-> |[-> |[-> |[-> |[-> |[-> |[]]]]]]]; done.
Qed.

Lemma run_KJ rd off bs s :
  encodes (KJ rd) off bs -> code_at s bs ->
  interpret_at s = Ok (add_pc (set_xreg s rd (ux (pc_ s + 4))) (sign_extend_i64 off)).
Proof.
  intros (e & -> & Hu & Eo & E1 & Ei) Hc.
  rewrite (interpret_32 s e) by (done || by eapply wide_opcode).
  unfold Interpret. cbv zeta. fields e. eqbs. unfold InterpretJAL. cbv zeta. by fields e.
Qed.

Lemma add_pc_sx s off : add_pc s (sign_extend_i64 off) = add_pc s off.
Proof.
  unfold add_pc, sign_extend_i64, ux. f_equal.
  by rewrite <- wrapu_add_r, wrapu_wraps, wrapu_add_r.
Qed.

Lemma run_KCB op rs1p off bs s :
  encodes (KCB op rs1p) off bs -> code_at s bs ->
  interpret_at s =
    Ok (add_pc s (if Bool.eqb (get_xreg s rs1p =? 0) (op =? COpcode.C_BEQZ) then off else 2)).
Proof.
  intros (e & -> & [Hu H3] & Hop & Eo & E1 & Ei) Hc. rewrite (interpret_16 s e) by done.
  unfold InterpretC. cbv zeta. fields e. destruct Hop as [-> | ->]; eqbs.
  - unfold InterpretC_BEQZ. fields e. by destruct (get_xreg s rs1p =? 0).
  - unfold InterpretC_BNEZ. fields e. by destruct (get_xreg s rs1p =? 0).
Qed.

Lemma run_KCJ off bs s :
  is_s 32 off -> encodes (KCJ COpcode.C_J) off bs -> code_at s bs ->
  interpret_at s = Ok (add_pc s off).
Proof.
  intros Ho (e & -> & [Hu H3] & Hop & Eo & Ei) Hc. rewrite (interpret_16 s e) by done.
  unfold InterpretC. cbv zeta. fields e. eqbs. unfold InterpretC_J. fields e.
  rewrite wraps_id by (done || lia). by rewrite <- (add_pc_sx s off).
Qed.

(** A far jump is two instructions; it changes [FAR_TMP]. *)
Lemma run_KFar off bs s :
  wf s -> encodes KFar off bs -> code_at s bs -> pc_ s + 8 < 2 ^ XLEN ->
  exists s1 v, interpret_at s = Ok s1 /\
    interpret_at s1 = Ok (with_pc (set_xreg s FAR_TMP v) (ux (pc_ s + off))).
Proof.
  intros Hw (e1 & e2 & -> & U1 & U2 & O1 & R1 & O2 & R2 & F2 & S2 & <-) Hc Hpc.
  destruct (code_at_app s _ _ Hc) as [Hc1 Hc2]. rewrite !length_bytes_of_u in Hc2.
  change (Z.of_nat 4) with 4 in Hc2. pose proof (wf_pc s Hw) as [Hp0 Hp1].
  set (v := pc_ s + sign_extend_i64 (Instr.utype_imm e1)).
  exists (add_pc (set_xreg s FAR_TMP v) 4), v. split.
  - rewrite (interpret_32 s e1) by (done || by eapply wide_opcode).
    unfold Interpret. cbv zeta. fields e1. eqbs. unfold InterpretAUIPC, retire. by fields e1.
  - set (s1 := add_pc (set_xreg s FAR_TMP v) 4).
    assert (pc_ s1 = pc_ s + 4) as Epc.
    { unfold s1, add_pc. cbn [pc_ with_pc]. rewrite pc_set_xreg. apply wrapu_id.
      unfold is_u. lia. }
    assert (memory s1 = memory s) as Em by apply memory_set_xreg.
    rewrite (interpret_32 s1 e2); [|done|by eapply wide_opcode|].
    2:{ unfold code_at. rewrite length_bytes_of_u, Em, Epc. done. }
    unfold Interpret. cbv zeta. fields e2. eqbs. unfold InterpretJALR, X1. cbv zeta.
    fields e2.
    assert (get_xreg s1 FAR_TMP = ux v) as ->.
    { change (get_xreg s1 FAR_TMP) with (get_xreg (set_xreg s FAR_TMP v) FAR_TMP).
      by apply get_set_xreg_same. }
    unfold set_xreg at 1. cbn [negb Z.eqb Reg.ZR]. f_equal.
    assert (forall x, with_pc s1 x = with_pc (set_xreg s FAR_TMP v) x) as -> by done.
    f_equal. unfold ux, v, sign_extend_i64. rewrite wrapu_add_l, wrapu_add_r.
    rewrite <- Z.add_assoc, <- (wrapu_add_r _ (pc_ s)), <- (wrapu_add_l _ (wraps _ _)).
    by rewrite wrapu_wraps, wrapu_add_l, wrapu_add_r.
Qed.

(** What executing the branch [k] with the offset [off] does: a conditional branch goes to
    the offset exactly when its comparison holds, a jump links and goes there, a far jump
    gets there in two steps. *)
Definition executes (k : branch) (off : Z) (s : Simulator) : Prop :=
  match k with
  | KB rs1 rs2 f3 =>
      valid_funct3 f3 ->
      interpret_at s =
        Ok (add_pc s (if taken f3 (get_xreg s rs1) (get_xreg s rs2) then off else 4))
  | KJ rd => interpret_at s = Ok (add_pc (set_xreg s rd (ux (pc_ s + 4))) off)
  | KCB op rs1p =>
      interpret_at s =
        Ok (add_pc s (if Bool.eqb (get_xreg s rs1p =? 0) (op =? COpcode.C_BEQZ)
                      then off else 2))
  | KCJ op => op = COpcode.C_J -> interpret_at s = Ok (add_pc s off)
  | KFar =>
      exists s1 v, interpret_at s = Ok s1 /\
        interpret_at s1 = Ok (with_pc (set_xreg s FAR_TMP v) (ux (pc_ s + off)))
  end.

Lemma encoded_executes s k off bs :
  wf s -> encodes k off bs -> is_s 32 off -> code_at s bs -> pc_ s + 8 < 2 ^ XLEN ->
  executes k off s.
Proof.
  intros Hw He Ho Hc Hp. destruct k as [op r|op|rs1 rs2 f3|rd|]; cbn [executes].
  - by eapply run_KCB.
  - intros ->. by eapply run_KCJ.
  - intros Hv. by eapply run_KB.
  - rewrite <- add_pc_sx. by eapply run_KJ.
  - by eapply run_KFar.
Qed.

(** The code of [a] is in memory from the address [base] on. *)
Definition loaded (a : MicroAssembler) (base : Z) (s : Simulator) : Prop :=
  load_bytes (memory s) base (length (buffer_ a)) = Ok (buffer_ a).

Lemma loaded_code a base q n s :
  loaded a base s -> pc_ s = base + q -> in_buffer a q n = true -> code_at s (slice a q n).
Proof.
  intros Hl Hpc Hb. unfold code_at. rewrite length_slice by done.
  apply in_buffer_spec in Hb as Hb'. unfold Position in Hb'.
  replace n with (length (slice a q n)) at 1 by (by apply length_slice).
  apply load_bytes_of_lookup. rewrite length_slice by done. intros i Hi.
  rewrite lookup_slice by lia.
  rewrite <- (load_bytes_lookup _ _ _ _ Hl (Z.to_nat q + i)%nat) by lia.
  f_equal. lia.
Qed.

(** C12: binding a label succeeds, resolves every pending branch of every class and changes no
    other byte; the loops of [Bind] take at most as many iterations as the longest list has
    branches.  Whenever the code is loaded and the simulator gets to one of these branches,
    executing it continues at the position of the label. *)
Theorem Bind_runs l a ps fuel :
  pending l a ps ->
  (forall c q k, (q, k) ∈ ps c -> fits c (Position a - q) = true) ->
  IsAligned (Position a) (alignment a) = true -> Position a < 2 ^ 31 ->
  (forall c, (length (ps c) <= fuel)%nat) ->
  exists l' a', Bind fuel l a = Some (Ok (l', a')) /\
    IsBound l' = true /\ position_ l' = Position a /\ IsLinked l' = false /\
    length (buffer_ a') = length (buffer_ a) /\
    (forall i, (forall c, ~ covered c (ps c) i) -> buffer_ a' !! i = buffer_ a !! i) /\
    forall c q k s base, (q, k) ∈ ps c -> wf s -> loaded a' base s -> pc_ s = base + q ->
      pc_ s + 8 < 2 ^ XLEN -> executes k (position_ l' - q) s.
Proof.
  intros Hp Hf Ha Hs Hfu.
  destruct (Bind_resolves l a ps fuel Hp Hf Ha Hs Hfu)
    as (l' & a' & Eb & Hb & Epos & Hl & Elen & _ & Henc & Hframe).
  exists l', a'. split_and!; try done; [unfold Position in Elen; lia|].
  intros c q k s base Hin Hw Hld Hpc Hp8. rewrite Epos.
  pose proof (chain_in_buffer _ _ _ _ _ _ (pending_chain _ _ _ Hp c) Hin) as Hq.
  apply in_buffer_spec in Hq as Hq'. unfold Position in Elen, Hs, Hq'.
  eapply encoded_executes; [done|by apply (Henc c)| | |done].
  - unfold Position. split; lia.
  - eapply loaded_code; [done..|]. apply in_buffer_spec. unfold Position. lia.
Qed.

(** The longer form of a branch behaves as the branch: when the comparison holds the
    jump takes it to the target in two steps, else the inverted branch skips the jump. *)
Theorem far_branch_runs s rs1 rs2 f3 off bs0 bs :
  wf s -> valid_funct3 f3 -> length bs0 = 4%nat ->
  encodes (KB rs1 rs2 (inverted f3)) 8 bs0 -> encodes (KJ Reg.ZR) (off - 4) bs ->
  code_at s (bs0 ++ bs) -> pc_ s + 8 < 2 ^ XLEN ->
  if taken f3 (get_xreg s rs1) (get_xreg s rs2) then
    exists s1, interpret_at s = Ok s1 /\ interpret_at s1 = Ok (add_pc s off)
  else interpret_at s = Ok (add_pc s 8).
Proof.
  intros Hw Hv L0 He0 He Hc Hpc. destruct (code_at_app s _ _ Hc) as [Hc0 Hc1].
  rewrite L0 in Hc1. change (Z.of_nat 4) with 4 in Hc1. pose proof (wf_pc s Hw) as [Hp0 Hp1].
  assert (valid_funct3 (inverted f3)) as Hv'.
  { revert Hv. unfold valid_funct3. rewrite !elem_of_cons, elem_of_nil.
    intros [-> |[-> |[-> |[-> |[-> |[-> |[]]]]]]]; vm_compute; tauto. }
  pose proof (run_KB rs1 rs2 (inverted f3) 8 bs0 s Hv' He0 Hc0) as E.
  rewrite taken_inverted in E by done. destruct (taken f3 _ _); cbn [negb] in E; [|done].
  exists (add_pc s 4). split; [done|].
  assert (pc_ (add_pc s 4) = pc_ s + 4) as Epc.
  { unfold add_pc. cbn [pc_ with_pc]. apply wrapu_id. unfold is_u. lia. }
  rewrite (run_KJ Reg.ZR (off - 4) bs (add_pc s 4)); [|done|].
  - rewrite set_xreg_ZR, add_pc_sx. unfold add_pc at 1. rewrite Epc. f_equal.
    replace (pc_ s + 4 + (off - 4)) with (pc_ s + off) by lia. done.
  - unfold code_at. rewrite Epc. exact Hc1.
Qed.

End execution.

(** ** Witnesses *)

#[local] Existing Instances demo_target demo_debug demo_fpu demo_host.

(** [beq a0, a1] with the offset zero, and pending. *)
Definition demo_branch : list Z := bytes_of_u 4 (BType 0 Reg.A1 Reg.A0 Funct3.BEQ Opcode.BRANCH).

Lemma demo_pending :
  pending (set_head B Label_new 0) (append demo_assembler demo_branch)
    (add_branch (fun _ => []) 0 (KB Reg.A0 Reg.A1 Funct3.BEQ)).
Proof.
  apply (pending_link Label_new demo_assembler (fun _ => []) (KB Reg.A0 Reg.A1 Funct3.BEQ));
    [apply pending_new|done|done|].
  exists (BType 0 Reg.A1 Reg.A0 Funct3.BEQ Opcode.BRANCH). by split_and!; vm_compute.
Qed.

Lemma Bind_runs_witness :
  exists l' a', Bind 1 (set_head B Label_new 0) (append demo_assembler demo_branch)
      = Some (Ok (l', a')) /\ position_ l' = 4 /\
    forall s, wf s -> loaded a' 0x20000 s -> pc_ s = 0x20000 ->
      executes (KB Reg.A0 Reg.A1 Funct3.BEQ) 4 s.
Proof.
  destruct (Bind_runs _ _ _ 1 demo_pending) as (l' & a' & E & _ & Ep & _ & _ & _ & Hrun).
  - intros [] q k Hin; unfold add_branch in Hin; cbn in Hin;
      try by apply elem_of_nil in Hin.
    apply list_elem_of_singleton in Hin. by simplify_eq.
  - done.
  - done.
  - intros []; vm_compute; lia.
  - exists l', a'. split_and!; [done..|]. intros s Hw Hl Hpc.
    replace 4 with (position_ l' - 0) by (rewrite Ep; done).
    apply (Hrun B 0 _ s 0x20000); [apply list_elem_of_here|done|done|lia|].
    rewrite Hpc. vm_compute. done.
Defined.

(** [beq a0, a1, 100] as [bne a0, a1, 8; jal zero, 96]. *)
Definition demo_far : list Z :=
  bytes_of_u 4 (BType 8 Reg.A1 Reg.A0 Funct3.BNE Opcode.BRANCH)
  ++ bytes_of_u 4 (JType 96 Reg.ZR Opcode.JAL).

Definition demo_far_start : Simulator :=
  with_pc (Simulator_new 1 0x7000000 (bytes_at 0x20000 demo_far) []) 0x20000.

Lemma far_branch_runs_witness :
  let s := demo_far_start in
  if taken Funct3.BEQ (get_xreg s Reg.A0) (get_xreg s Reg.A1) then
    exists s1, interpret_at s = Ok s1 /\ interpret_at s1 = Ok (add_pc s 100)
  else interpret_at s = Ok (add_pc s 8).
Proof.
  cbv zeta. apply (far_branch_runs demo_far_start Reg.A0 Reg.A1 Funct3.BEQ 100
    (bytes_of_u 4 (BType 8 Reg.A1 Reg.A0 Funct3.BNE Opcode.BRANCH))
    (bytes_of_u 4 (JType 96 Reg.ZR Opcode.JAL))).
  - apply wf_with_pc; [|by vm_compute; split; congruence].
    apply wf_Simulator_new, bytes_at_bytes.
    by repeat constructor.
  - apply list_elem_of_here.
  - done.
  - eexists. split_and!; [reflexivity|by vm_compute..].
  - eexists. split_and!; [reflexivity|by vm_compute..].
  - by vm_compute.
  - by vm_compute.
Defined.
